(* ===== verification/_CoqProject ===== *)
-Q . S2P
Prelude.v
Bytes.v
Sorting.v
Positions.v
JournalEntry.v
Forest.v
Resize.v
SteadyState.v
Accumulator.v
PlanUpdate.v
LeafMap.v
MergedWrites.v
Replay.v
CompressedHash.v
Files.v
Udata.v
JournalFile.v
JournalRecord.v
JournalMarker.v
JournalSafety.v
JournalImport.v
JournalContract.v
ProofStore.v
HeaderIndex.v
BlockScan.v
ProcessBlock.v
BlockProofs.v
Persistence.v
Pipeline.v
PipelineForest.v
PipelineSafety.v
PipelineCalls.v
PipelineContract.v
PipelineSession.v
Startup.v
Admission.v
Wire.v
Headers.v
Peer.v
PeerSafety.v
PeerStream.v
PeerContract.v
Server.v
ServerSafety.v
StartupProofs.v
KernelBlocks.v
HintScan.v
PrefixedHints.v
BuildThreads.v
Bootstrap.v
BuildRuns.v
BuildSafety.v
BuildFill.v
BuildLeaves.v
BuildPlan.v
BuildChase.v
BuildCover.v
BuildStart.v
BuildEnds.v
BootstrapProofs.v
BootstrapHints.v
