(* ===== verification/Prelude.v ===== *)
(** Verification of the Utreexo bridge (the [bridge] and [bridge-hints] binaries,
    [src/src]).

    The bridge follows a Bitcoin node, keeps the Utreexo forest of unspent outputs in a flat
    memory-mapped file, and serves a compact inclusion proof for each block.

    * How the program is put together

    [process_block] ([prover.rs]) turns a block into a proof and a journal entry.  It reads the
    forest ([parallel_forest.rs]) through an overlay of blocks that are journalled but not yet
    applied.  The producer appends entries to a write-ahead journal ([forest_journal.rs]), and hands
    windows of blocks to a worker thread, which publishes the journal and then writes the proof
    file ([blockfile.rs]), the header index ([header_index.rs]), the proof index ([block_index.rs]) and
    the forest, in this order.  After a crash the published journal is replayed.

    * Files of the development

    - [Prelude], [Bytes], [Sorting], [Files]: results with errors, the state-and-result monad [SR], integers
      of fixed width, byte strings and readers, sorting and deduplication, files and what a crash leaves of them.
    - [Positions]: node numbers of the flat forest and proof targets (the free functions of
      [parallel_forest.rs]).  [pos rows r o] is the number of the node at row [r] and offset [o].
    - [JournalEntry]: [JournalEntry], its deltas and codec ([forest_journal.rs]).
    - [Forest]: [FlatForest] and node flags; [Resize]: growing it, with its marker, as system calls on a disk that syncs
      late ([parallel_forest.rs]).
    - [SteadyState]: [SteadyStateForest], [ForestOverlay], [ForestView], planning, replay.
    - [Accumulator], [PlanUpdate], [LeafMap], [MergedWrites], [Replay], [CompressedHash]: what the forest means
      (the Utreexo accumulator of the leaves) and the theorems on [SteadyState].
    - [Udata]: leaf data and compact proofs ([udata.rs]).
    - [JournalFile], [JournalRecord], [JournalMarker], [JournalSafety], [JournalImport], [JournalContract]: the journal
      file ([forest_journal.rs]) with its publication slots, recovery, pruning, rollback, and legacy import.
    - [ProofStore]: proof file and proof index.  [HeaderIndex]: headers by height, heights by hash.
    - [BlockScan], [ProcessBlock], [BlockProofs]: one block ([process_block] and its helpers in [prover.rs]).
    - [Persistence]: the worker's store writes and barriers ([PersistenceState] of [prover.rs]).  [Pipeline]: the producer
      and the worker as a system of steps.  [PipelineForest], [PipelineSafety], [PipelineCalls], [PipelineContract],
      [PipelineSession]: the proofs about it.
    - [Startup]: recovery of all stores from the journal ([recoverable_journal_height], [FlatFileProver::new]);
      [StartupProofs]: its proofs.
    - The hints files: [KernelBlocks] (blocks of the kernel and the leaves in them), [HintScan] (the scan of
      [bin/bridge-hints.rs]), [PrefixedHints] ([prefixed_hints.rs], and the writing of the file).
    - The bootstrap build ([build_parallel_forest] of [parallel_forest.rs]): [BuildThreads] is a machine for its threads
      (shared memory, one access per step, waiting with spins, mutex and condition variable), [Bootstrap] has the programs
      of the threads and what precedes and follows them.  [BuildRuns] (runs end), [BuildSafety] (locks, failures, joins),
      [BuildFill] (what threads write), [BuildLeaves], [BuildPlan], [BuildChase] (the work of leaf workers and chasers),
      [BuildCover] (every range is taken), [BuildStart], [BuildEnds], [BootstrapProofs] and [BootstrapHints] (the hints tool
      and the build together) are the proofs.
    - The server of [node.rs]: [Admission] (registry of peers, bans, packet limiter), [Wire] (messages and their codec),
      [Headers] (getheaders, over [chainview.rs]), [Peer] (one connection: handshake, packets, answers, buffers).
      [PeerSafety], [PeerStream] and [PeerContract] are the proofs about [Peer].  [Server]: the acceptor and the workers
      with their poll registrations, as a system of steps; [ServerSafety]: its proofs.

    * What the theorems show

    - Accumulator: planning a block leads from the forest of the old leaves to the forest of the new ones
      ([plan_update_correct]), roots are the accumulator's ([roots_correct]), proof targets are canonical
      positions ([proof_position_canonical], [translate_proof_positions_equiv]) that resolve to the leaves' hashes
      ([proof_hashes_resolve]).
    - Applying: entries undo ([backward_undoes_forward]), a merged batch is its entries in sequence
      ([batch_equals_sequential]), the overlay is the pending entries ([overlay_refines_pending],
      [plan_extends_window]), replay recovers from torn updates ([replay_recovers]), resizing keeps nodes and survives
      crashes ([resize_to_rows_relocates], [resize_crash_safe]).
    - Durability: what the forest and the leaf map have been given since their last successful sync is a field of the
      state ([ps_unflushed]) that only [sync_forest] clears.  A crash may leave those writes torn, and while there are
      any (or while a window is being applied) the leaf map's database may not reopen, as the README warns; the
      theorems say that this is the only such case and that nothing of it is left after a sync.  A resize has its own
      disk: nodes stored or punched and not flushed hold anything, lengths and marker may be earlier ones.
    - Stores: the leaf map, the proof index and the header index refine finite maps, the journal refines lists of records
      and loses nothing that was published ([journal_refines_lists], [published_block_survives], [calls_are_atomic]);
      journal entries, proofs and proof index entries have one encoding per value.  A header batch is of distinct headers
      that are new to the index, as [put_batch] documents: the database's batch writer keeps duplicate keys.
    - Blocks: a block's deletions and additions are its net effect on the unspent outputs
      ([block_net_effect]); [process_block] prepares a verifying proof and the right entry, and keeps its caches in
      agreement with the forest ([process_block_sound]); lost positions are recovered ([recovery_finds_leaf]).
    - Threads: in every interleaving, with I/O failing anywhere, a crash recovers a prefix of the blocks that has
      at least the durable ones ([pipeline_crash_recovers]), the producer reads the forest after all its blocks
      ([producer_reads_its_blocks]), no call blocks for ever ([pipeline_calls_return]), queues are bounded
      ([pending_blocks_bounded]), a sync is durable ([sync_is_durable]).
    - Start: whatever state of repair the stores are in, a start serves the published blocks again, forgets the rolled
      back ones and ends with the forest durably at the tip ([startup_recovers]);
      replay undoes and redoes reorganizations nested in each other ([replay_recovers] over the [history] of [Replay]).
    - Bootstrap: the hints file says which leaves are unspent ([bridge_hints_file_correct]), and the build accepts it
      ([generated_hints_fit]); the two outputs that BIP30 lost are counted and indexed, unlike what the README says; in
      every interleaving a build that succeeds leaves the forest, leaf map and header index of the blocks and hints, and
      hints that do not fit the blocks make it fail ([bootstrap_build_correct]); its threads never deadlock, failures
      included ([builders_finish]).
    - Server: peers are admitted by policy and within bounds ([admission_policy], [registry_bounded]); exactly the
      requests of the allow-list are read ([decoder_accepts_only_requests], [messages_round_trip]; of versions and inventory
      items the laws only say that the crate's decoder reads what its encoder writes, since it reads other bytes too);
      a client cannot make a connection use more than its budgets ([peer_resources_bounded]) or loop
      ([peer_loops_finish]), nor does it matter how the network cuts its bytes ([stream_cut_irrelevant]);
      answers are what was asked for ([proof_request_answered]) and true of the active chain ([headers_follow_chain],
      [indexed_headers_served]); in every interleaving of the
      acceptor and the workers, each accepted socket holds one slot, and a worker that has
      ended loses its slots at the first message that cannot reach it ([slots_match_sockets]), and a peer with output
      waiting is polled for writing ([output_is_polled]).

    * Conventions and bounds

    A [u8], [u32] or [u64] is a [Z] with its wrap-around or check written out; [anyhow::Error] is the static text of
    the message.  A zeroed node of the mapped file is an absent key of a map.  A forest has at most 62 rows (a [u64]
    node count), so climbs take at most 64 turns; the loops over rows, positions and records run on fuel computed from the
    length of what they read, and each theorem about them shows that the fuel is enough (a leaf worker takes at most one
    more range than there are, a chaser one chunk per turn; a run of the threads is any list of thread numbers, and
    [builders_finish] shows that no run goes on for ever).  The build is modelled for hints that stop below height [2^32 - 1]
    (there the code's last range wraps to an empty one).  I/O calls may fail at any
    point; the outcomes are arguments ([IO], [Kernel], fault streams), so a theorem that quantifies over them covers every
    failure.  Hash functions, consensus encoding of foreign types, the key-value databases, the block source and
    [rustreexo]'s [Pollard] and [Stump] are interfaces (type classes) with laws that state what is documented of them; every
    property has a witness with concrete instances.

    * Not modelled

    - Memory mapping, page locking, hole punching beyond its effect on contents, thread pools, timings and logging.
    - Of a resize: a system call other than [fallocate] that fails (the program stops there, which is one of the points at
      which it may be cut short), and a torn marker that is not a beginning of it (it is 11 bytes).
    - Of the bootstrap build: panics and poisoned mutexes, spurious wake-ups, weak memory (an access is one atomic step),
      statistics and position timing, and what a failed build leaves on disk.
    - The RPC and Esplora clients, the command line.
    - The reorganization loop ([reconcile_chain]) beyond
      discarding an unpublished window; eviction of the pollard; [Resize], [Repair] and [Rollback] barriers are operations
      of [Persistence], but no steps of the runs of [PipelineSession]. *)

From Stdlib Require Export ZArith Lia.
From stdpp Require Export prelude strings gmap list numbers sorting.

#[global] Open Scope Z_scope.

(** ** Fallible code

    [anyhow::Result<T>], [Option<T>] with [.context(..)], and [bail!].  The
    static part of a message is kept, so that two failing branches of one
    function stay distinguishable. *)

Inductive result (A : Type) : Type :=
| Ok (a : A)
| Err (e : string).
Arguments Ok {A} a.
Arguments Err {A} e.

#[export] Instance result_ret : MRet result := fun A a => Ok a.
#[export] Instance result_bind : MBind result := fun A B f r =>
  match r with Ok a => f a | Err e => Err e end.
#[export] Instance result_fmap : FMap result := fun A B f r =>
  match r with Ok a => Ok (f a) | Err e => Err e end.

Declare Scope bridge_scope.
Delimit Scope bridge_scope with bridge.
#[global] Open Scope bridge_scope.

(** [bail!(..)] under a condition: [require b msg ;; k] fails unless [b]. *)
Definition require (b : bool) (msg : string) : result unit :=
  if b then Ok tt else Err msg.

(** [option.context(msg)] *)
Definition ok_or {A} (msg : string) (o : option A) : result A :=
  match o with Some a => Ok a | None => Err msg end.

Definition ok {A} (r : result A) : option A :=
  match r with Ok a => Some a | Err _ => None end.

Definition is_ok {A} (r : result A) : bool :=
  match r with Ok _ => true | Err _ => false end.

(** What a loop of the model returns when its fuel ends: a theorem on the loop
    shows that the fuel it is given is enough. *)
Definition out_of_fuel : string := "<loop did not finish>".

(** Left fold with early exit: a [for] loop whose body may fail with [?]. *)
Fixpoint foldM {A S} (f : S -> A -> result S) (l : list A) (s : S) : result S :=
  match l with
  | [] => Ok s
  | a :: l => s' ← f s a; foldM f l s'
  end.

Lemma bind_ok {A B} (r : result A) (f : A -> result B) b :
  (r ≫= f) = Ok b <-> exists a, r = Ok a /\ f a = Ok b.
Proof. destruct r; cbn; naive_solver. Qed.

Lemma ok_bind {A B} (a : A) (f : A -> result B) : (Ok a ≫= f) = f a.
Proof. done. Qed.

(** Run the binds whose first computation is known to have returned. *)
Ltac step_ok := cbn beta iota delta [ok_or require mbind result_bind fmap result_fmap negb orb andb].

Lemma fmap_ok {A B} (r : result A) (f : A -> B) b :
  (f <$> r) = Ok b <-> exists a, r = Ok a /\ b = f a.
Proof. destruct r; cbn; naive_solver. Qed.

Lemma require_ok b msg u : require b msg = Ok u <-> b = true.
Proof. destruct b, u; cbn; naive_solver. Qed.

Lemma ok_or_ok {A} (o : option A) msg a : ok_or msg o = Ok a <-> o = Some a.
Proof. destruct o; cbn; naive_solver. Qed.

Section FoldM.
Context {A S : Type}.

Lemma foldM_app (f : S -> A -> result S) l1 l2 s :
  foldM f (l1 ++ l2) s = (s' ← foldM f l1 s; foldM f l2 s').
Proof.
  revert s; induction l1 as [|a l1 IH]; intros s; [done|].
  cbn. destruct (f s a); cbn; [apply IH | done].
Qed.

Lemma foldM_snoc (f : S -> A -> result S) l a s :
  foldM f (l ++ [a]) s = (s' ← foldM f l s; f s' a).
Proof.
  rewrite foldM_app. destruct (foldM f l s) as [s'|]; cbn; [|done].
  by destruct (f s' a).
Qed.

Lemma foldM_invariant (P : S -> Prop) (f : S -> A -> result S) l s s' :
  (forall s a s', P s -> a ∈ l -> f s a = Ok s' -> P s') ->
  P s -> foldM f l s = Ok s' -> P s'.
Proof.
  revert s; induction l as [|a l IH]; intros s Hf Hs; cbn.
  - by intros [= <-].
  - intros (s1 & H1 & H2)%bind_ok. eapply IH; [| |done].
    + intros. eapply Hf; [done| |done]. by right.
    + eapply Hf; [done| |done]. by left.
Qed.

Lemma foldM_pure (f : S -> A -> S) l s :
  foldM (fun s a => Ok (f s a)) l s = Ok (foldl f s l).
Proof. revert s; induction l as [|a l IH]; intros s; [done|]. apply IH. Qed.
End FoldM.

Lemma foldM_ext {A S} (f g : S -> A -> result S) l s :
  (forall s a, a ∈ l -> f s a = g s a) -> foldM f l s = foldM g l s.
Proof.
  revert s; induction l as [|a l IH]; intros s H; [done|]. cbn.
  rewrite (H s a) by (by left). destruct (g s a); cbn; [|done].
  apply IH. intros. apply H. by right.
Qed.

Lemma foldM_fmap {A B S} (g : A -> B) (f : S -> B -> result S) l s :
  foldM f (g <$> l) s = foldM (fun s a => f s (g a)) l s.
Proof. revert s; induction l as [|a l IH]; intros s; [done|]. cbn. destruct (f s (g a)); [apply IH|done]. Qed.

Lemma mapM_ext_in {A B} (f g : A -> result B) (l : list A) :
  (forall a, a ∈ l -> f a = g a) -> mapM f l = mapM g l.
Proof.
  induction l as [|a l IH]; intros H; [done|]. cbn. rewrite (H a) by (by left).
  destruct (g a); cbn; [|done]. rewrite IH; [done|]. intros. apply H. by right.
Qed.

Lemma mapM_ok_map {A B} (f : A -> result B) (g : A -> B) (l : list A) :
  (forall a, a ∈ l -> f a = Ok (g a)) -> mapM f l = Ok (g <$> l).
Proof.
  induction l as [|a l IH]; intros H; [done|]. cbn. rewrite (H a) by (by left). cbn.
  rewrite IH; [done|]. intros. apply H. by right.
Qed.

Lemma mapM_ok_Forall2 {A B} (f : A -> result B) (l : list A) l' : mapM f l = Ok l' -> Forall2 (fun a b => f a = Ok b) l l'.
Proof.
  revert l'; induction l as [|a l IH]; intros l' E; cbn in E; [by injection E as <-|].
  apply bind_ok in E as (b & Eb & E). apply bind_ok in E as (bs & Ebs & [= <-]). constructor; [done|by apply IH].
Qed.

(** Invert every [bind]/[require]/[ok_or] hypothesis that returned [Ok]. *)
Ltac inv_ok :=
  repeat match goal with
  | H : (_ ≫= _) = Ok _ |- _ => apply bind_ok in H as (? & ? & ?)
  | H : (_ <$> _) = Ok _ |- _ => apply fmap_ok in H as (? & ? & ?)
  | H : require _ _ = Ok _ |- _ => apply require_ok in H
  | H : ok_or _ _ = Ok _ |- _ => apply ok_or_ok in H
  | H : Ok _ = Ok _ |- _ => injection H as H
  | H : Err _ = Ok _ |- _ => discriminate H
  | x : unit |- _ => destruct x
  end.

(** ** Fallible code over a state

    [&mut self] methods returning [Result]: the state survives an error. *)

Definition SR (S A : Type) : Type := S -> S * result A.

#[export] Instance sr_ret {S} : MRet (SR S) := fun A a s => (s, Ok a).
#[export] Instance sr_bind {S} : MBind (SR S) := fun A B f m s =>
  match m s with
  | (s, Ok a) => f a s
  | (s, Err e) => (s, Err e)
  end.

(** [?] on a computation that does not touch the state. *)
Definition lift {S A} (r : result A) : SR S A := fun s => (s, r).
Definition get {S} : SR S S := fun s => (s, Ok s).
Definition modify {S} (f : S -> S) : SR S unit := fun s => (f s, Ok tt).
(** Run a computation and look at its result instead of returning on error. *)
Definition try_ {S A} (m : SR S A) : SR S (result A) := fun s => let '(s, r) := m s in (s, Ok r).

Lemma sr_bind_inv {S A B} (m : SR S A) (f : A -> SR S B) s s' r :
  (m ≫= f) s = (s', r) ->
  exists s1 r1, m s = (s1, r1) /\
    match r1 with Ok a => f a s1 = (s', r) | Err e => s' = s1 /\ r = Err e end.
Proof.
  unfold mbind, sr_bind. destruct (m s) as [s1 [a|e]]; intros E; eexists _, _; (split; [done|]); [done|].
  by injection E as <- <-.
Qed.

Lemma sr_bind_ok {S A B} (m : SR S A) (f : A -> SR S B) s s1 a :
  m s = (s1, Ok a) -> (m ≫= f) s = f a s1.
Proof. unfold mbind, sr_bind. by intros ->. Qed.

Lemma sr_bind_err {S A B} (m : SR S A) (f : A -> SR S B) s s1 e :
  m s = (s1, Err e) -> (m ≫= f) s = (s1, Err e).
Proof. unfold mbind, sr_bind. by intros ->. Qed.

(** ** Machine integers

    A [w]-bit unsigned integer is a [Z] in [0, 2^w).  Each operation says what
    the source does at the edge: [checked_*] fails, [wrap] truncates, a shift
    keeps the low bits. *)

Definition is_uint (w x : Z) : Prop := 0 <= x < 2 ^ w.
Abbreviation is_u8 := (is_uint 8).
Abbreviation is_u16 := (is_uint 16).
Abbreviation is_u32 := (is_uint 32).
Abbreviation is_u64 := (is_uint 64).

#[export] Instance is_uint_dec w x : Decision (is_uint w x).
Proof. unfold is_uint. apply _. Defined.

Definition wrap (w x : Z) : Z := x mod 2 ^ w.

(** [T::try_from(x)] towards a [w]-bit unsigned type. *)
Definition try_uint (w x : Z) : option Z :=
  if decide (is_uint w x) then Some x else None.

Definition checked_add (w x y : Z) : option Z := try_uint w (x + y).
Definition checked_sub (x y : Z) : option Z :=
  if bool_decide (y <= x) then Some (x - y) else None.
Definition checked_mul (w x y : Z) : option Z := try_uint w (x * y).
Definition saturating_add (w x y : Z) : Z := Z.min (x + y) (2 ^ w - 1).
Definition saturating_sub (x y : Z) : Z := Z.max 0 (x - y).

(** [x << n] on [w] bits, for a shift amount below the width. *)
Definition shl (w x n : Z) : Z := wrap w (Z.shiftl x n).
(** [x.checked_shl(n)] *)
Definition checked_shl (w x n : Z) : option Z :=
  if bool_decide (0 <= n < w) then Some (shl w x n) else None.
(** [x.leading_zeros()] on 64 bits, [x.count_ones()], [x.ilog2()] *)
Definition leading_zeros64 (x : Z) : Z := if x =? 0 then 64 else 63 - Z.log2 x.
Definition div_ceil (x y : Z) : Z := (x + y - 1) / y.

Lemma try_uint_Some w x y : try_uint w x = Some y <-> y = x /\ is_uint w x.
Proof. unfold try_uint. case_decide; naive_solver. Qed.

Lemma checked_add_Some w x y z :
  checked_add w x y = Some z <-> z = x + y /\ is_uint w (x + y).
Proof. apply try_uint_Some. Qed.

Lemma checked_mul_Some w x y z :
  checked_mul w x y = Some z <-> z = x * y /\ is_uint w (x * y).
Proof. apply try_uint_Some. Qed.

Lemma checked_sub_Some x y z : checked_sub x y = Some z <-> z = x - y /\ y <= x.
Proof. unfold checked_sub. case_bool_decide; naive_solver. Qed.

Lemma wrap_small w x : is_uint w x -> wrap w x = x.
Proof. intros H. apply Z.mod_small. exact H. Qed.

Lemma wrap_bound w x : 0 <= w -> is_uint w (wrap w x).
Proof. intros. apply Z.mod_pos_bound. apply Z.pow_pos_nonneg; lia. Qed.

Lemma shl_small w x n : 0 <= n -> 0 <= x -> x * 2 ^ n < 2 ^ w -> shl w x n = x * 2 ^ n.
Proof.
  intros Hn Hx H. unfold shl. rewrite Z.shiftl_mul_pow2 by lia.
  apply wrap_small. split; [|done]. apply Z.mul_nonneg_nonneg; [done|].
  apply Z.pow_nonneg; lia.
Qed.

Lemma shl_one w n : 0 <= n < w -> shl w 1 n = 2 ^ n.
Proof.
  intros H. rewrite shl_small; [lia| lia | lia |].
  rewrite Z.mul_1_l. apply Z.pow_lt_mono_r; lia.
Qed.

Create Rewrite HintDb ints.
#[export] Hint Rewrite try_uint_Some checked_add_Some checked_mul_Some
  checked_sub_Some : ints.

(** [2^a <= 2^b], [2^a < 2^b] and friends, once for all. *)
Lemma pow2_le a b : 0 <= a <= b -> 2 ^ a <= 2 ^ b.
Proof. intros. apply Z.pow_le_mono_r; lia. Qed.
Lemma pow2_lt a b : 0 <= a < b -> 2 ^ a < 2 ^ b.
Proof. intros. apply Z.pow_lt_mono_r; lia. Qed.
Lemma pow2_pos a : 0 <= a -> 0 < 2 ^ a.
Proof. intros. apply Z.pow_pos_nonneg; lia. Qed.
Lemma pow2_split a b : 0 <= a -> 0 <= b -> 2 ^ (a + b) = 2 ^ a * 2 ^ b.
Proof. intros. by apply Z.pow_add_r. Qed.
Lemma pow2_succ a : 0 <= a -> 2 ^ (a + 1) = 2 * 2 ^ a.
Proof. intros. rewrite pow2_split by lia. lia. Qed.

(** ** Bits of a non-negative integer *)

Lemma testbit_split_high (h l k n : Z) :
  0 <= k -> 0 <= l < 2 ^ k -> k <= n ->
  Z.testbit (h * 2 ^ k + l) n = Z.testbit h (n - k).
Proof.
  intros Hk Hl Hn.
  replace n with (n - k + k) at 1 by lia.
  rewrite <- Z.shiftr_spec by lia.
  rewrite Z.shiftr_div_pow2 by lia.
  rewrite Z.div_add_l by lia. rewrite Z.div_small by lia. by rewrite Z.add_0_r.
Qed.

Lemma testbit_split_low (h l k n : Z) :
  0 <= n < k -> Z.testbit (h * 2 ^ k + l) n = Z.testbit l n.
Proof.
  intros Hn.
  rewrite <- (Z.mod_pow2_bits_low (h * 2 ^ k + l) k n) by lia.
  rewrite <- (Z.mod_pow2_bits_low l k n) by lia.
  f_equal. rewrite Z.add_comm. apply Z_mod_plus_full.
Qed.

Lemma testbit_above (p n : Z) k : 0 <= n < 2 ^ p -> 0 <= p -> p <= k -> Z.testbit n k = false.
Proof.
  intros. rewrite <- (Z.mod_small n (2 ^ p)) by done. by apply Z.mod_pow2_bits_high.
Qed.

Lemma land_pow2_eqb x n : 0 <= n -> (Z.land x (2 ^ n) =? 0) = negb (Z.testbit x n).
Proof.
  intros Hn. destruct (Z.testbit x n) eqn:E; cbn.
  - apply Z.eqb_neq. intros H. apply (f_equal (fun z => Z.testbit z n)) in H.
    rewrite Z.land_spec, E, Z.pow2_bits_true, Z.bits_0 in H by lia. done.
  - apply Z.eqb_eq. apply Z.bits_inj'. intros k Hk.
    rewrite Z.land_spec, Z.bits_0, Z.pow2_bits_eqb by lia.
    destruct (Z.eqb_spec n k) as [->|]; [by rewrite E | by rewrite andb_false_r].
Qed.

Lemma lor_add_disjoint (h l k : Z) : 0 <= k -> 0 <= l < 2 ^ k -> Z.lor (h * 2 ^ k) l = h * 2 ^ k + l.
Proof.
  intros Hk Hl. apply Z.bits_inj'. intros n Hn. rewrite Z.lor_spec.
  destruct (Z.ltb_spec n k).
  - rewrite testbit_split_low by lia. rewrite Z.mul_pow2_bits_low by lia. done.
  - rewrite testbit_split_high by lia.
    rewrite (testbit_above k l n) by lia. rewrite orb_false_r.
    by rewrite Z.mul_pow2_bits by lia.
Qed.

(** ** Lists indexed by [Z] offsets *)

Definition zlength {A} (l : list A) : Z := Z.of_nat (length l).
Definition ztake {A} (n : Z) (l : list A) : list A := take (Z.to_nat n) l.
Definition zdrop {A} (n : Z) (l : list A) : list A := drop (Z.to_nat n) l.
Definition zlookup {A} (l : list A) (i : Z) : option A :=
  if bool_decide (0 <= i) then l !! Z.to_nat i else None.
(** The half-open range [a..b]. *)
Definition zrange (a b : Z) : list Z := seqZ a (b - a).

Lemma elem_of_zrange a b x : x ∈ zrange a b <-> a <= x < b.
Proof. unfold zrange. rewrite elem_of_seqZ. lia. Qed.

Lemma zrange_nil a b : b <= a -> zrange a b = [].
Proof. intros. unfold zrange. by rewrite seqZ_nil by lia. Qed.

Lemma zrange_cons a b : a < b -> zrange a b = a :: zrange (a + 1) b.
Proof.
  intros. unfold zrange. rewrite seqZ_cons by lia.
  replace (Z.succ a) with (a + 1) by lia.
  by replace (Z.pred (b - a)) with (b - (a + 1)) by lia.
Qed.

Lemma zrange_app a b c : a <= b <= c -> zrange a c = zrange a b ++ zrange b c.
Proof.
  intros H. unfold zrange. replace (c - a) with ((b - a) + (c - b)) by lia.
  rewrite seqZ_app by lia. by replace (a + (b - a)) with b by lia.
Qed.

Lemma zrange_snoc a b : a <= b -> zrange a (b + 1) = zrange a b ++ [b].
Proof.
  intros. rewrite (zrange_app a b) by lia.
  by rewrite (zrange_cons b), (zrange_nil (b + 1)) by lia.
Qed.

Lemma zlength_app {A} (l1 l2 : list A) : zlength (l1 ++ l2) = zlength l1 + zlength l2.
Proof. unfold zlength. rewrite length_app. lia. Qed.
Lemma zlength_cons {A} (a : A) l : zlength (a :: l) = 1 + zlength l.
Proof. unfold zlength. cbn. lia. Qed.
Lemma zlength_nil {A} : zlength ([] : list A) = 0.
Proof. done. Qed.
Lemma zlength_nonneg {A} (l : list A) : 0 <= zlength l.
Proof. unfold zlength. lia. Qed.
Lemma zlength_fmap {A B} (f : A -> B) (l : list A) : zlength (f <$> l) = zlength l.
Proof. unfold zlength. by rewrite length_fmap. Qed.

#[export] Hint Rewrite @zlength_nil @zlength_app @zlength_cons @zlength_fmap : ints.

Lemma zlookup_Some {A} (l : list A) i a :
  zlookup l i = Some a <-> 0 <= i /\ l !! Z.to_nat i = Some a.
Proof. unfold zlookup. case_bool_decide; naive_solver. Qed.

Lemma zlookup_lt {A} (l : list A) i a : zlookup l i = Some a -> 0 <= i < zlength l.
Proof.
  intros (H0 & H%lookup_lt_Some)%zlookup_Some. unfold zlength. lia.
Qed.

Lemma zlookup_is_Some {A} (l : list A) i : 0 <= i < zlength l -> is_Some (zlookup l i).
Proof.
  intros H. unfold zlookup. rewrite bool_decide_eq_true_2 by lia.
  apply lookup_lt_is_Some. unfold zlength in H. lia.
Qed.

Lemma zlookup_app_l {A} (l1 l2 : list A) i :
  i < zlength l1 -> zlookup (l1 ++ l2) i = zlookup l1 i.
Proof.
  intros H. unfold zlookup. case_bool_decide; [|done].
  apply lookup_app_l. unfold zlength in H. lia.
Qed.

Lemma zlookup_snoc {A} (l : list A) a : zlookup (l ++ [a]) (zlength l) = Some a.
Proof.
  unfold zlookup, zlength. rewrite bool_decide_eq_true_2 by lia.
  rewrite Nat2Z.id. rewrite lookup_app_r by lia. by rewrite Nat.sub_diag.
Qed.

Lemma in_reverse {A} (x : A) l : x ∈ reverse l -> x ∈ l.
Proof. by rewrite elem_of_reverse. Qed.

Lemma foldl_reverse {A B} (f : A -> B -> A) (l : list B) a :
  foldl f a (reverse l) = foldr (fun b a => f a b) a l.
Proof.
  induction l as [|b l IH]; [done|]. rewrite reverse_cons, foldl_app. cbn. by rewrite IH.
Qed.

(** ** Sequences of writes to a map *)

Section Writes.
Context {K V : Type} `{Countable K}.

(** Perform the writes in order. *)
Definition write_all (m : gmap K V) (l : list (K * V)) : gmap K V :=
  foldl (fun m kv => <[kv.1 := kv.2]> m) m l.

(** The value that the last write to [k] leaves. *)
Fixpoint last_write (k : K) (l : list (K * V)) : option V :=
  match l with
  | [] => None
  | (k', v) :: l =>
      match last_write k l with
      | Some v => Some v
      | None => if decide (k' = k) then Some v else None
      end
  end.

Lemma last_write_app k l1 l2 :
  last_write k (l1 ++ l2) =
    match last_write k l2 with Some v => Some v | None => last_write k l1 end.
Proof.
  induction l1 as [|[k' v] l1 IH]; cbn; [by destruct (last_write k l2)|].
  rewrite IH. by destruct (last_write k l2).
Qed.

Lemma write_all_lookup m l k :
  write_all m l !! k = match last_write k l with Some v => Some v | None => m !! k end.
Proof.
  revert m; induction l as [|[k' v] l IH]; intros m; [done|]. cbn. unfold write_all in IH.
  rewrite IH. destruct (last_write k l); [done|]. case_decide.
  - subst. by rewrite lookup_insert_eq.
  - by rewrite lookup_insert_ne.
Qed.

Lemma last_write_None k l : last_write k l = None <-> k ∉ l.*1.
Proof.
  induction l as [|[k' v] l IH]; cbn.
  - split; [intros _; apply not_elem_of_nil | done].
  - rewrite not_elem_of_cons. destruct (last_write k l) eqn:E.
    + split; [done|]. intros [_ Hn%IH]. done.
    + case_decide; naive_solver.
Qed.

Lemma last_write_Some_elem k v l : last_write k l = Some v -> (k, v) ∈ l.
Proof.
  induction l as [|[k' v'] l IH]; cbn; [done|].
  destruct (last_write k l) eqn:E.
  - intros [= ->]. right. by apply IH.
  - case_decide; [|done]. intros [= ->]. subst. left.
Qed.

Lemma last_write_unique k v l : NoDup l.*1 -> (k, v) ∈ l -> last_write k l = Some v.
Proof.
  intros Hnd Hin. destruct (last_write k l) as [v'|] eqn:E.
  - apply last_write_Some_elem in E. f_equal.
    induction l as [|[k1 v1] l IH]; [by apply elem_of_nil in Hin|]. cbn in Hnd.
    apply NoDup_cons in Hnd as [Hni Hnd].
    rewrite elem_of_cons in Hin, E. destruct Hin as [[= <- <-]|Hin], E as [[= <-]|E]; try done.
    + exfalso. apply Hni. by apply (list_elem_of_fmap_2 fst) in E.
    + exfalso. subst. apply Hni. by apply (list_elem_of_fmap_2 fst) in Hin.
    + by apply IH.
  - apply last_write_None in E. exfalso. apply E. by apply (list_elem_of_fmap_2 fst) in Hin.
Qed.
End Writes.

Lemma last_write_map {A K V W} `{EqDecision K} (key : A -> K) (v : A -> V) (g : V -> W) k (l : list A) :
  last_write k ((fun a => (key a, g (v a))) <$> l) = g <$> last_write k ((fun a => (key a, v a)) <$> l).
Proof.
  induction l as [|a l IH]; [done|]. cbn [fmap list_fmap last_write]. rewrite IH.
  destruct (last_write k ((fun a => (key a, v a)) <$> l)); [done|]. cbn. by case_decide.
Qed.

(** Solve a side condition about lengths and bounds. *)
Ltac zlen := autorewrite with ints in *; unfold zlength, is_uint in *; cbn in *; lia.

(** Membership in a list built from [::] and [++], without search. *)
Ltac in_list :=
  rewrite ?elem_of_app, ?elem_of_cons, ?elem_of_nil in *; intuition (subst; solve [eauto | congruence]).

(** Decide a closed decidable proposition by evaluation. *)
Ltac by_decide := refine (bool_decide_unpack _ _); vm_compute; exact I.

(** Evaluate a closed witness. *)
Ltac eval_ok := vm_compute; reflexivity.
