(* ===== verification/Bytes.v ===== *)
(** Byte strings, little-endian integers, and readers over a byte slice.

    Part of the library shared by the codecs of the journal, the stores and the
    peer protocol.  A [u8] is a [Z] in [0, 256); a byte string is a list of
    them; a [&mut &[u8]] reader is a state monad over the remaining bytes. *)

From S2P Require Import Prelude.

Abbreviation bytes := (list Z).

(** [[u8; N]] and [Vec<u8>]: every element is a byte. *)
Definition bytes_ok (bs : bytes) : Prop := Forall is_u8 bs.
Definition array_ok (n : nat) (bs : bytes) : Prop := length bs = n /\ bytes_ok bs.
Abbreviation hash_ok := (array_ok 32).

#[export] Instance bytes_ok_dec bs : Decision (bytes_ok bs).
Proof. unfold bytes_ok. apply _. Defined.
#[export] Instance array_ok_dec n bs : Decision (array_ok n bs).
Proof. unfold array_ok. apply _. Defined.

Definition zeros (n : nat) : bytes := replicate n 0.

(** [x.to_le_bytes()] for an [n]-byte integer, and [from_le_bytes]. *)
Fixpoint le_bytes (n : nat) (x : Z) : bytes :=
  match n with
  | O => []
  | S n => x mod 256 :: le_bytes n (x / 256)
  end.
Fixpoint le_value (bs : bytes) : Z :=
  match bs with
  | [] => 0
  | b :: bs => b + 256 * le_value bs
  end.
(** [to_be_bytes] / [from_be_bytes] *)
Definition be_bytes (n : nat) (x : Z) : bytes := reverse (le_bytes n x).
Definition be_value (bs : bytes) : Z := le_value (reverse bs).

Lemma bytes_ok_nil : bytes_ok [].
Proof. constructor. Qed.
Lemma bytes_ok_cons b bs : bytes_ok (b :: bs) <-> is_u8 b /\ bytes_ok bs.
Proof. apply Forall_cons. Qed.
Lemma bytes_ok_app l1 l2 : bytes_ok (l1 ++ l2) <-> bytes_ok l1 /\ bytes_ok l2.
Proof. apply Forall_app. Qed.
Lemma bytes_ok_take n l : bytes_ok l -> bytes_ok (take n l).
Proof. apply Forall_take. Qed.
Lemma bytes_ok_drop n l : bytes_ok l -> bytes_ok (drop n l).
Proof. apply Forall_drop. Qed.
Lemma bytes_ok_zeros n : bytes_ok (zeros n).
Proof. apply Forall_replicate. unfold is_uint. lia. Qed.
Lemma hash_ok_zeros : hash_ok (zeros 32).
Proof. split; [done | apply bytes_ok_zeros]. Qed.

Lemma length_le_bytes n x : length (le_bytes n x) = n.
Proof. revert x; induction n as [|n IH]; intros x; [done|]. cbn. by rewrite IH. Qed.

Lemma bytes_ok_le_bytes n x : bytes_ok (le_bytes n x).
Proof.
  revert x; induction n as [|n IH]; intros x; [constructor|].
  cbn [le_bytes]. constructor; [apply Z.mod_pos_bound; lia | apply IH].
Qed.

Lemma array_ok_le_bytes n x : array_ok n (le_bytes n x).
Proof. split; [apply length_le_bytes | apply bytes_ok_le_bytes]. Qed.

#[export] Hint Resolve bytes_ok_nil bytes_ok_zeros bytes_ok_le_bytes array_ok_le_bytes
  hash_ok_zeros bytes_ok_take bytes_ok_drop : core.

Lemma le_value_le_bytes n x : is_uint (8 * Z.of_nat n) x -> le_value (le_bytes n x) = x.
Proof.
  unfold is_uint. revert x; induction n as [|n IH]; intros x Hx.
  { change (2 ^ (8 * Z.of_nat 0)) with 1 in Hx. cbn. lia. }
  cbn [le_bytes le_value]. rewrite IH; [rewrite (Z.div_mod x 256) at 3; lia|].
  replace (8 * Z.of_nat (S n)) with (8 * Z.of_nat n + 8) in Hx by lia.
  rewrite pow2_split in Hx by lia. change (2 ^ 8) with 256 in Hx.
  split; [apply Z.div_pos; lia | apply Z.div_lt_upper_bound; lia].
Qed.

Lemma le_value_bound bs : bytes_ok bs -> is_uint (8 * Z.of_nat (length bs)) (le_value bs).
Proof.
  unfold is_uint. induction bs as [|b bs IH]; intros H.
  { change (2 ^ (8 * Z.of_nat (length []))) with 1. cbn. lia. }
  apply bytes_ok_cons in H as [Hb H]. specialize (IH H). cbn [length le_value].
  replace (8 * Z.of_nat (S (length bs))) with (8 * Z.of_nat (length bs) + 8) by lia.
  rewrite pow2_split by lia. unfold is_uint in Hb. change (2 ^ 8) with 256 in *. lia.
Qed.

Lemma le_bytes_le_value bs : bytes_ok bs -> le_bytes (length bs) (le_value bs) = bs.
Proof.
  induction bs as [|b bs IH]; intros H; [done|].
  apply bytes_ok_cons in H as [Hb H]. cbn [length le_value le_bytes].
  change (is_uint 8 b) with (0 <= b < 256) in Hb.
  replace ((b + 256 * le_value bs) mod 256) with b.
  2: { rewrite Z.add_comm, Z.mul_comm, Z.add_comm, Z_mod_plus_full, Z.mod_small by lia. done. }
  replace ((b + 256 * le_value bs) / 256) with (le_value bs).
  2: { rewrite Z.mul_comm, Z.div_add, Z.div_small by lia. lia. }
  by rewrite IH.
Qed.

Lemma le_bytes_inj n x y : is_uint (8 * Z.of_nat n) x -> is_uint (8 * Z.of_nat n) y ->
  le_bytes n x = le_bytes n y -> x = y.
Proof.
  intros Hx Hy H. apply (f_equal le_value) in H. by rewrite !le_value_le_bytes in H.
Qed.

(** ** Readers *)

Definition reader (A : Type) : Type := bytes -> result (A * bytes).

#[export] Instance reader_ret : MRet reader := fun A a bs => Ok (a, bs).
#[export] Instance reader_bind : MBind reader := fun A B f p bs =>
  match p bs with Ok (a, rest) => f a rest | Err e => Err e end.

Definition reader_fail {A} (msg : string) : reader A := fun _ => Err msg.
(** [if !b { bail!(msg) }] inside a reader. *)
Definition reader_require (b : bool) (msg : string) : reader unit :=
  fun bs => if b then Ok (tt, bs) else Err msg.
Definition remaining : reader Z := fun bs => Ok (zlength bs, bs).

(** [reader.get(..n)], then advance past it. *)
Definition take_exact (msg : string) (n : nat) : reader bytes := fun bs =>
  if bool_decide (n <= length bs)%nat then Ok (take n bs, drop n bs) else Err msg.

(** [n] readings in a row. *)
Fixpoint reader_repeat {A} (n : nat) (p : reader A) : reader (list A) :=
  match n with
  | O => mret []
  | S n => x ← p; xs ← reader_repeat n p; mret (x :: xs)
  end.

(** A reader [dec] and an encoder [enc] that are inverse to each other on the
    values in [wf]: the contract that every codec of the program meets. *)
Record codec_ok {A} (wf : A -> Prop) (enc : A -> bytes) (dec : reader A) : Prop := {
  dec_enc : forall a rest, wf a -> dec (enc a ++ rest) = Ok (a, rest);
  enc_dec : forall bs a rest, bytes_ok bs -> dec bs = Ok (a, rest) ->
    bs = enc a ++ rest /\ wf a;
  enc_bytes : forall a, wf a -> bytes_ok (enc a)
}.
Arguments dec_enc {A wf enc dec}.
Arguments enc_dec {A wf enc dec}.
Arguments enc_bytes {A wf enc dec}.

Lemma reader_bind_ok {A B} (p : reader A) (f : A -> reader B) bs b rest :
  (p ≫= f) bs = Ok (b, rest) <-> exists a mid, p bs = Ok (a, mid) /\ f a mid = Ok (b, rest).
Proof.
  unfold mbind, reader_bind. destruct (p bs) as [[a mid]|] eqn:E; [|naive_solver].
  split; [eauto|]. intros (a' & mid' & [= -> ->] & H). done.
Qed.

Lemma reader_bind_step {A B} (p : reader A) (f : A -> reader B) bs a rest :
  p bs = Ok (a, rest) -> (p ≫= f) bs = f a rest.
Proof. intros H. unfold mbind, reader_bind. by rewrite H. Qed.

Lemma reader_require_ok b msg bs u rest :
  reader_require b msg bs = Ok (u, rest) <-> b = true /\ rest = bs.
Proof. unfold reader_require. destruct b, u; naive_solver. Qed.

Lemma reader_require_true b msg bs : b = true -> reader_require b msg bs = Ok (tt, bs).
Proof. by intros ->. Qed.

Lemma take_exact_app msg n l rest : length l = n -> take_exact msg n (l ++ rest) = Ok (l, rest).
Proof.
  intros <-. unfold take_exact. rewrite bool_decide_eq_true_2 by (rewrite length_app; lia).
  by rewrite take_app_length, drop_app_length.
Qed.

Lemma take_exact_ok msg n bs l rest :
  take_exact msg n bs = Ok (l, rest) <-> bs = l ++ rest /\ length l = n.
Proof.
  split.
  - unfold take_exact. case_bool_decide; [|done]. intros [= <- <-].
    rewrite take_drop, length_take. split; [done | lia].
  - intros [-> H]. by apply take_exact_app.
Qed.

(** Invert a reader computation that returned. *)
Ltac inv_reader :=
  repeat match goal with
  | H : (_ ≫= _) _ = Ok (_, _) |- _ => apply reader_bind_ok in H as (? & ? & ? & ?)
  | H : reader_require _ _ _ = Ok _ |- _ => apply reader_require_ok in H as [? ->]
  | H : mret _ _ = Ok _ |- _ => injection H as <- <-
  | H : take_exact _ _ _ = Ok _ |- _ => apply take_exact_ok in H as [-> ?]
  | H : reader_fail _ _ = Ok _ |- _ => discriminate H
  | H : bytes_ok (_ ++ _) |- _ => apply bytes_ok_app in H as [? ?]
  end.

(** Run the first reader of a bind on an encoded value, and invert a reader of
    codec [c] that returned. *)
Ltac read_step c :=
  rewrite <- ?(app_assoc (A := Z)); erewrite reader_bind_step by (apply (dec_enc c); eauto).
Ltac unread_step c :=
  match goal with
  | H : _ ?bs = Ok _, Hb : bytes_ok ?bs |- _ =>
      apply (enc_dec c) in H as [-> ?]; [|exact Hb]; inv_reader
  end.

Lemma take_exact_codec msg n : codec_ok (array_ok n) id (take_exact msg n).
Proof.
  split.
  - intros a rest [H _]. by apply take_exact_app.
  - intros bs a rest Hbs H. inv_reader. done.
  - intros a [_ H]. done.
Qed.

(** [from_le_bytes] of the next [n] bytes. *)
Definition take_le (msg : string) (n : nat) : reader Z :=
  bs ← take_exact msg n; mret (le_value bs).

Lemma take_le_codec msg n : codec_ok (is_uint (8 * Z.of_nat n)) (le_bytes n) (take_le msg n).
Proof.
  split.
  - intros a rest H. unfold take_le.
    erewrite reader_bind_step by (apply take_exact_app, length_le_bytes).
    unfold mret, reader_ret. by rewrite le_value_le_bytes.
  - intros bs a rest Hbs H. unfold take_le in H. inv_reader. subst n.
    split; [by rewrite le_bytes_le_value | by apply le_value_bound].
  - auto.
Qed.

(** [n] consecutive elements of one codec. *)
Section Repeat.
Context {A : Type} (wf : A -> Prop) (enc : A -> bytes) (dec : reader A).
Context (Hc : codec_ok wf enc dec).

Definition enc_list (l : list A) : bytes := concat (enc <$> l).

Lemma enc_list_cons a l : enc_list (a :: l) = enc a ++ enc_list l.
Proof. done. Qed.

Lemma reader_repeat_enc l rest : Forall wf l ->
  reader_repeat (length l) dec (enc_list l ++ rest) = Ok (l, rest).
Proof.
  induction 1 as [|a l Ha Hl IH]; [done|].
  cbn [length reader_repeat]. rewrite enc_list_cons, <- app_assoc.
  erewrite reader_bind_step by apply (dec_enc Hc a _ Ha).
  by erewrite reader_bind_step by apply IH.
Qed.

Lemma reader_repeat_dec n bs l rest : bytes_ok bs -> reader_repeat n dec bs = Ok (l, rest) ->
  bs = enc_list l ++ rest /\ Forall wf l /\ length l = n.
Proof.
  revert bs l; induction n as [|n IH]; intros bs l Hbs H; cbn in H.
  - inv_reader. repeat split; constructor.
  - inv_reader. destruct (enc_dec Hc _ _ _ Hbs H) as [-> Ha]. inv_reader.
    match goal with H : reader_repeat _ _ _ = Ok _ |- _ => apply IH in H as (-> & Hl & <-); [|done] end.
    repeat split; [by rewrite enc_list_cons, <- app_assoc | by constructor].
Qed.

Lemma bytes_ok_enc_list l : Forall wf l -> bytes_ok (enc_list l).
Proof.
  induction 1 as [|a l Ha Hl IH]; [constructor|]. rewrite enc_list_cons.
  apply bytes_ok_app. split; [by apply (enc_bytes Hc) | done].
Qed.

Lemma length_enc_list k l : (forall a, wf a -> length (enc a) = k) -> Forall wf l ->
  length (enc_list l) = (k * length l)%nat.
Proof.
  intros Hk. induction 1 as [|a l Ha Hl IH]; [cbn; lia|].
  rewrite enc_list_cons, length_app, IH, Hk by done. cbn. lia.
Qed.
End Repeat.
