(* ===== verification/Sorting.v ===== *)
(** Stable sorting and deduplication by key, as the standard library's
    [sort_by_key], [sort_unstable] and [dedup_by_key] do them, with the facts
    about them that the forest relies on. *)

From S2P Require Import Prelude Bytes.

Module Sorting.

(** ** Helpers of the standard library *)

(** [sort_unstable] on integers. *)
Definition sort_Z (l : list Z) : list Z := merge_sort Z.le l.

(** The derived lexicographic order on byte arrays. *)
Fixpoint bytes_leb (a b : bytes) : bool :=
  match a, b with
  | [], _ => true
  | _ :: _, [] => false
  | x :: a, y :: b => if x <? y then true else if x =? y then bytes_leb a b else false
  end.

(** A stable sort by key: insertion before the first strictly greater key. *)
Section SortByKey.
Context {A K : Type} (key : A -> K) (leb : K -> K -> bool).

Fixpoint insert_by_key (a : A) (l : list A) : list A :=
  match l with
  | [] => [a]
  | b :: l' => if leb (key a) (key b) then a :: l else b :: insert_by_key a l'
  end.
Definition sort_by_key (l : list A) : list A := foldr insert_by_key [] l.

(** [dedup_by_key]: of consecutive elements with one key, keep the first. *)
Fixpoint dedup_by_key `{EqDecision K} (l : list A) : list A :=
  match l with
  | [] => []
  | a :: l =>
      match dedup_by_key l with
      | [] => [a]
      | b :: r => if decide (key a = key b) then a :: r else a :: b :: r
      end
  end.
End SortByKey.

(** ** Sorting and deduplicating by key *)

Lemma bytes_leb_refl a : bytes_leb a a = true.
Proof. induction a as [|x a IH]; [done|]. cbn. by rewrite Z.ltb_irrefl, Z.eqb_refl. Qed.

Lemma bytes_leb_total a b : bytes_leb a b = true \/ bytes_leb b a = true.
Proof.
  revert b; induction a as [|x a IH]; intros [|y b]; cbn; auto.
  destruct (Z.lt_trichotomy x y) as [Hl|[->|Hl]].
  - left. by rewrite (proj2 (Z.ltb_lt x y)).
  - rewrite Z.ltb_irrefl, Z.eqb_refl. apply IH.
  - right. by rewrite (proj2 (Z.ltb_lt y x)).
Qed.

Lemma bytes_leb_cons x a y b : bytes_leb (x :: a) (y :: b) = true <-> x < y \/ x = y /\ bytes_leb a b = true.
Proof.
  cbn. destruct (Z.ltb_spec x y); [intuition|]. destruct (Z.eqb_spec x y); [intuition lia|].
  split; [done|]. intros [|[]]; lia.
Qed.

Lemma bytes_leb_antisym a b : bytes_leb a b = true -> bytes_leb b a = true -> a = b.
Proof.
  revert b; induction a as [|x a IH]; intros [|y b]; try done.
  rewrite !bytes_leb_cons. intros [?|[-> H1]] [?|[? H2]]; try lia. f_equal. by apply IH.
Qed.

Lemma bytes_leb_trans a b c : bytes_leb a b = true -> bytes_leb b c = true -> bytes_leb a c = true.
Proof.
  revert b c; induction a as [|x a IH]; intros [|y b] [|z c]; try done.
  rewrite !bytes_leb_cons. intros [?|[-> H1]] [?|[? H2]]; try lia. right. split; [done|]. by eapply IH.
Qed.

Section SortDedup.
Context {A K : Type} `{EqDecision K} (key : A -> K) (leb : K -> K -> bool).
Context (leb_total : forall a b, leb a b = true \/ leb b a = true).
Context (leb_trans : forall a b c, leb a b = true -> leb b c = true -> leb a c = true).
Context (leb_antisym : forall a b, leb a b = true -> leb b a = true -> a = b).

Definition key_le (a b : A) : Prop := leb (key a) (key b) = true.

Lemma leb_refl a : leb a a = true.
Proof. by destruct (leb_total a a). Qed.

Lemma insert_by_key_Permutation a l : insert_by_key key leb a l ≡ₚ a :: l.
Proof.
  induction l as [|b l IH]; cbn; [done|]. case_match; [done|]. rewrite IH. by constructor.
Qed.

Lemma insert_by_key_elem a l x : x ∈ insert_by_key key leb a l <-> x = a \/ x ∈ l.
Proof.
  induction l as [|b l IH]; cbn; [rewrite elem_of_cons; done|].
  case_match; rewrite !elem_of_cons; [done|]. rewrite IH. tauto.
Qed.

Lemma sort_by_key_elem l x : x ∈ sort_by_key key leb l <-> x ∈ l.
Proof.
  induction l as [|a l IH]; [done|]. cbn. rewrite insert_by_key_elem, elem_of_cons. by rewrite IH.
Qed.

Lemma insert_by_key_sorted a l : StronglySorted key_le l -> StronglySorted key_le (insert_by_key key leb a l).
Proof.
  induction 1 as [|b l Hs IH Hall]; cbn; [by repeat constructor|].
  destruct (leb (key a) (key b)) eqn:E.
  - constructor; [by constructor|]. constructor; [done|].
    eapply Forall_impl; [exact Hall|]. intros c Hc. by eapply leb_trans.
  - constructor; [done|]. apply Forall_forall. intros x [->|Hx]%insert_by_key_elem.
    + destruct (leb_total (key a) (key b)); [congruence|done].
    + rewrite Forall_forall in Hall. by apply Hall.
Qed.

Lemma sort_by_key_sorted l : StronglySorted key_le (sort_by_key key leb l).
Proof. induction l as [|a l IH]; cbn; [constructor|]. by apply insert_by_key_sorted. Qed.

Lemma dedup_by_key_elem l x : x ∈ dedup_by_key key l -> x ∈ l.
Proof.
  induction l as [|a l IH]; cbn; [done|]. rewrite elem_of_cons.
  destruct (dedup_by_key key l) as [|b r]; [|case_decide]; rewrite !elem_of_cons in *; tauto.
Qed.

Lemma dedup_by_key_NoDup l : StronglySorted key_le l -> NoDup (key <$> dedup_by_key key l).
Proof.
  induction 1 as [|a l Hs IH Hall]; cbn; [constructor|].
  pose proof (dedup_by_key_elem l) as Hsub.
  destruct (dedup_by_key key l) as [|b r] eqn:E; [apply NoDup_singleton|].
  case_decide as Ek; [by rewrite fmap_cons, Ek|].
  rewrite fmap_cons. apply NoDup_cons. split; [|done].
  rewrite Forall_forall in Hall. intros (c & Ec & Hc)%list_elem_of_fmap.
  apply Ek. assert (key_le a b) as Hab by (apply Hall, Hsub; left).
  apply leb_antisym; [done|]. rewrite Ec.
  apply elem_of_cons in Hc as [->|Hc]; [apply leb_refl|].
  clear Hsub Hall. assert (StronglySorted key_le (b :: r)) as Hbr.
  { rewrite <- E. clear -Hs. induction Hs as [|x l Hs IH Hall]; cbn; [constructor|].
    pose proof (dedup_by_key_elem l) as Hsub. destruct (dedup_by_key key l) as [|y r]; [by repeat constructor|].
    rewrite Forall_forall in Hall.
    case_decide.
    - constructor; [by inversion IH|]. apply Forall_forall. intros z Hz. apply Hall, Hsub. by right.
    - constructor; [done|]. apply Forall_forall. intros z Hz. by apply Hall, Hsub. }
  inversion Hbr as [|? ? _ Hf]. rewrite Forall_forall in Hf. by apply Hf.
Qed.

(** The first element with a given key. *)
Fixpoint first_with (k : K) (l : list A) : option A :=
  match l with [] => None | a :: l => if decide (key a = k) then Some a else first_with k l end.

Lemma first_with_insert k a l :
  first_with k (insert_by_key key leb a l) = if decide (key a = k) then Some a else first_with k l.
Proof.
  induction l as [|b l IH]; cbn; [done|]. destruct (leb (key a) (key b)) eqn:E; [done|]. cbn.
  rewrite IH. repeat case_decide; try done. exfalso.
  assert (key a = key b) as Eq by congruence. rewrite Eq, leb_refl in E. done.
Qed.

(** The sort is stable: it keeps the first element of each key first. *)
Lemma first_with_sort k l : first_with k (sort_by_key key leb l) = first_with k l.
Proof.
  induction l as [|a l IH]; [done|].
  change (sort_by_key key leb (a :: l)) with (insert_by_key key leb a (sort_by_key key leb l)).
  by rewrite first_with_insert, IH.
Qed.

Lemma first_with_dedup k l : first_with k (dedup_by_key key l) = first_with k l.
Proof.
  induction l as [|a l IH]; [done|]. cbn. rewrite <- IH.
  destruct (dedup_by_key key l) as [|b r]; [done|]. case_decide as E; cbn; [|done].
  rewrite E. by case_decide.
Qed.

Lemma first_with_None k l : first_with k l = None <-> k ∉ key <$> l.
Proof.
  induction l as [|a l IH]; cbn.
  - split; [intros _; apply not_elem_of_nil|done].
  - rewrite not_elem_of_cons. case_decide; naive_solver.
Qed.

(** Neither step loses or invents a key. *)
Lemma sort_dedup_keys l k :
  k ∈ key <$> dedup_by_key key (sort_by_key key leb l) <-> k ∈ key <$> l.
Proof.
  pose proof (first_with_None k (dedup_by_key key (sort_by_key key leb l))) as H1.
  pose proof (first_with_None k l) as H2. rewrite first_with_dedup, first_with_sort in H1.
  destruct (decide (k ∈ key <$> dedup_by_key key (sort_by_key key leb l))),
    (decide (k ∈ key <$> l)); tauto.
Qed.
End SortDedup.

(** Sorted by its bytes and deduplicated, a list has each key once. *)
Lemma bytes_dedup_NoDup {A} (key : A -> bytes) l :
  NoDup (key <$> dedup_by_key key (sort_by_key key bytes_leb l)).
Proof.
  apply (dedup_by_key_NoDup key bytes_leb bytes_leb_total bytes_leb_antisym), sort_by_key_sorted.
  - apply bytes_leb_total.
  - apply bytes_leb_trans.
Qed.

Lemma first_with_reverse_app {V} k (l1 l2 : list (bytes * V)) :
  first_with fst k (l1 ++ l2) = match first_with fst k l1 with Some a => Some a | None => first_with fst k l2 end.
Proof. induction l1 as [|a l1 IH]; [done|]. cbn. by case_decide. Qed.

Lemma first_with_reverse {V} k (l : list (bytes * V)) : snd <$> first_with fst k (reverse l) = last_write k l.
Proof.
  induction l as [|[k' v] l IH]; [done|].
  rewrite reverse_cons, first_with_reverse_app. cbn. rewrite <- IH.
  destruct (first_with fst k (reverse l)); [done|]. cbn. by case_decide.
Qed.

Lemma first_with_NoDup {V} k (l : list (bytes * V)) : NoDup l.*1 -> snd <$> first_with fst k l = last_write k l.
Proof.
  induction l as [|[k' v] l IH]; [done|]. cbn. intros [Hni Hnd]%NoDup_cons. rewrite <- IH by done.
  case_decide as Ek; [|by destruct (first_with fst k l)]. cbn in Ek. rewrite Ek in Hni.
  destruct (first_with fst k l) eqn:E; [|done]. exfalso. apply Hni.
  destruct (decide (k ∈ l.*1)) as [|Hn]; [done|]. by rewrite (proj2 (first_with_None fst k l) Hn) in E.
Qed.

(** Reversing, sorting stably and dropping repeated keys keeps the last write of
    each key. *)
Lemma last_write_dedup {V} k (l : list (bytes * V)) :
  last_write k (dedup_by_key fst (sort_by_key fst bytes_leb (reverse l))) = last_write k l.
Proof.
  rewrite <- first_with_NoDup by apply bytes_dedup_NoDup.
  by rewrite first_with_dedup, (first_with_sort fst bytes_leb bytes_leb_total), first_with_reverse.
Qed.

End Sorting.
