(* ===== verification/Positions.v ===== *)
(** Position arithmetic of the flat forest (src/src/parallel_forest.rs).

    Nodes of a forest with [forest_rows] rows above the bottom row are numbered
    row by row; the code manipulates those numbers with shifts and masks on
    [u64].  The definitions of Module [Positions] are the code's; [pos] is the
    specification: the number of the node at offset [o] of row [r].  The lemmas
    say what each bit trick does to [(r, o)] coordinates. *)

From S2P Require Import Prelude.

Module Positions.

(** ** The code *)

Definition tree_rows (leaves : Z) : Z :=
  if leaves =? 0 then 0 else 64 - leading_zeros64 (leaves - 1).

Definition parent (position forest_rows : Z) : Z :=
  Z.lor (Z.shiftr position 1) (shl 64 1 forest_rows).

(** [(2 << forest_rows) - 1] *)
Definition row_mask (forest_rows : Z) : Z := wrap 64 (shl 64 2 forest_rows - 1).

Definition left_child (position forest_rows : Z) : Z :=
  Z.land (shl 64 position 1) (row_mask forest_rows).

Fixpoint detect_row_loop (fuel : nat) (position marker row : Z) : Z :=
  match fuel with
  | O => row
  | S fuel =>
      if Z.land position marker =? 0 then row
      else detect_row_loop fuel position (Z.shiftr marker 1) (row + 1)
  end.

(** A 64-bit [marker] is zero after 64 shifts, so 64 rounds always reach the
    exit of the loop. *)
Definition detect_row (position forest_rows : Z) : Z :=
  detect_row_loop 64 position (shl 64 1 forest_rows) 0.

Definition root_position (leaves row forest_rows : Z) : Z :=
  let mask := row_mask forest_rows in
  let before := Z.land leaves (shl 64 mask (row + 1)) in
  let shifted := Z.lor (Z.shiftr before row) (shl 64 mask (forest_rows + 1 - row)) in
  Z.land shifted mask.

(** [leaves & (1 << row) != 0] *)
Definition has_root (leaves row : Z) : bool := negb (Z.land leaves (shl 64 1 row) =? 0).

Definition is_root_position (position leaves forest_rows : Z) : bool :=
  let row := detect_row position forest_rows in
  has_root leaves row && (root_position leaves row forest_rows =? position).

Definition forest_capacity (forest_rows : Z) : result Z :=
  ok_or "forest position space exceeds u64" (try_uint 64 (shl 128 2 forest_rows - 1)).

Definition start_position_at_row (row forest_rows : Z) : result Z :=
  require (row <=? forest_rows) "row exceeds forest height";;
  ok_or "forest row position exceeds u64"
    (try_uint 64 (shl 128 2 forest_rows - shl 128 2 (forest_rows - row))).

Definition translate_position (position from_rows to_rows : Z) : result Z :=
  let row := detect_row position from_rows in
  from_start ← start_position_at_row row from_rows;
  to_start ← start_position_at_row row to_rows;
  ok_or "translated forest position overflow"
    (checked_add 64 to_start (position - from_start)).

Definition is_power_of_two (x : Z) : bool := (0 <? x) && (Z.land x (x - 1) =? 0).

Definition forest_rows_from_node_count (node_count : Z) : result Z :=
  positional_size ← ok_or "forest position count overflow" (checked_add 64 node_count 1);
  require (negb ((positional_size <? 2) || negb (is_power_of_two positional_size)))
    "forest contains nodes, not a complete positional space";;
  ok_or "forest height exceeds u8" (try_uint 8 (Z.log2 positional_size - 1)).

(** The [while !is_root_position(..)] loop of [proof_position_from_spent].
    Returns the root reached, the directions of the levels whose sibling is
    unspent (lowest level first) and their number. *)
Fixpoint climb_to_root (fuel : nat) (leaves forest_rows : Z) (sibling_spent : Z -> result bool)
    (position directions depth : Z) : result (Z * Z * Z) :=
  match fuel with
  | O => Err out_of_fuel
  | S fuel =>
      if is_root_position position leaves forest_rows then Ok (position, directions, depth)
      else
        spent ← sibling_spent (Z.lxor position 1);
        if (spent : bool) then
          climb_to_root fuel leaves forest_rows sibling_spent
            (parent position forest_rows) directions depth
        else
          climb_to_root fuel leaves forest_rows sibling_spent (parent position forest_rows)
            (Z.lor directions (shl 64 (Z.land position 1) depth)) (depth + 1)
  end.

Definition proof_position_from_spent (bottom_position leaves forest_rows : Z)
    (sibling_spent : Z -> result bool) : result Z :=
  '(position, directions, depth) ←
    climb_to_root 65 leaves forest_rows sibling_spent bottom_position 0 0;
  let logical_rows := tree_rows leaves in
  let promoted := root_position leaves (detect_row position forest_rows) logical_rows in
  Ok (foldl (fun promoted shift =>
        left_child promoted logical_rows + Z.land (Z.shiftr directions shift) 1)
      promoted (reverse (zrange 0 depth))).

(** [Vec::dedup] *)
Fixpoint dedup (l : list Z) : list Z :=
  match l with
  | x :: (y :: _) as t => if x =? y then dedup t else x :: dedup t
  | _ => l
  end.

(** The [while index < frontier.len()] loop of [translate_proof_positions];
    [frontier] is the part of the vector not visited yet. *)
Fixpoint frontier_loop (fuel : nat) (leaves forest_rows : Z) (frontier : list Z)
    (spent : gmap Z bool) (to_load : list Z) : result (gmap Z bool * list Z) :=
  match fuel with
  | O => Err out_of_fuel
  | S fuel =>
      match frontier with
      | [] => Ok (spent, to_load)
      | position :: rest =>
          if is_root_position position leaves forest_rows
          then frontier_loop fuel leaves forest_rows rest spent to_load
          else
            let sibling := Z.lxor position 1 in
            let up := parent position forest_rows in
            if bool_decide (head rest = Some sibling)
            then frontier_loop fuel leaves forest_rows (tail rest ++ [up])
                   (<[sibling := false]> (<[position := false]> spent)) to_load
            else frontier_loop fuel leaves forest_rows (rest ++ [up])
                   spent (to_load ++ [sibling])
      end
  end.

Definition load_spent (read_spent : Z -> result bool) (to_load : list Z)
    (spent : gmap Z bool) : result (gmap Z bool) :=
  foldM (fun spent position => b ← read_spent position; Ok (<[position := b]> spent))
    (merge_sort Z.le to_load) spent.

Definition translate_proof_positions (positions : list Z) (leaves forest_rows : Z)
    (read_spent : Z -> result bool) : result (list Z) :=
  let frontier := dedup (merge_sort Z.le positions) in
  '(spent, to_load) ←
    frontier_loop (S (64 * length frontier)) leaves forest_rows frontier ∅ [];
  spent ← load_spent read_spent to_load spent;
  mapM (fun position => proof_position_from_spent position leaves forest_rows
          (fun sibling => ok_or "detwinned traversal omitted sibling" (spent !! sibling)))
    positions.

(** ** The specification *)

(** The node at offset [o] of row [r]. *)
Definition pos (rows r o : Z) : Z := 2 ^ (rows + 1) - 2 ^ (rows + 1 - r) + o.

Record valid (rows r o : Z) : Prop := {
  valid_row : 0 <= r <= rows;
  valid_off : 0 <= o < 2 ^ (rows - r)
}.

(** The full subtrees of a forest of [leaves] leaves. *)
Definition populated (leaves r o : Z) : Prop := 0 <= r /\ 0 <= o < leaves / 2 ^ r.

(** The populated root of row [r], when bit [r] of [leaves] is set. *)
Definition root_off (leaves r : Z) : Z := 2 * (leaves / 2 ^ (r + 1)).

Definition is_root (leaves r o : Z) : bool :=
  Z.testbit leaves r && (o =? root_off leaves r).

Section Geometry.
Context (rows : Z) (Hrows : 0 <= rows <= 63).

Lemma row_mask_eq : row_mask rows = 2 ^ (rows + 1) - 1.
Proof.
  unfold row_mask. pose proof (pow2_pos (rows + 1) ltac:(lia)).
  destruct (decide (rows = 63)) as [->|]; [reflexivity|].
  rewrite shl_small; [| lia | lia |].
  - replace (2 * 2 ^ rows) with (2 ^ (rows + 1)) by (rewrite pow2_succ; lia).
    pose proof (pow2_le (rows + 1) 63 ltac:(lia)).
    pose proof (pow2_lt 63 64 ltac:(lia)).
    apply wrap_small. split; lia.
  - rewrite <- pow2_succ by lia. apply pow2_lt. lia.
Qed.

Lemma land_row_mask x : Z.land x (row_mask rows) = x mod 2 ^ (rows + 1).
Proof.
  rewrite row_mask_eq. rewrite <- Z.land_ones by lia. f_equal.
  rewrite Z.ones_equiv. lia.
Qed.

(** Row [r] ends where row [r + 1] starts. *)
Lemma pos_bounds r o : valid rows r o -> 0 <= pos rows r o < 2 ^ (rows + 1) - 2 ^ (rows - r).
Proof.
  intros [Hr Ho]. unfold pos.
  pose proof (pow2_le (rows + 1 - r) (rows + 1) ltac:(lia)).
  replace (rows + 1 - r) with (rows - r + 1) in * by lia.
  rewrite (pow2_succ (rows - r)) in * by lia. lia.
Qed.

Lemma pos_u64 r o : valid rows r o -> is_u64 (pos rows r o).
Proof.
  intros H. pose proof (pos_bounds r o H).
  pose proof (pow2_le (rows + 1) 64 ltac:(lia)).
  pose proof (pow2_pos (rows - r)). split; [lia|].
  destruct H. lia.
Qed.

Lemma pos_row0 o : pos rows 0 o = o.
Proof. unfold pos. rewrite Z.sub_0_r. lia. Qed.

Lemma parent_pos r o : valid rows r o -> r < rows ->
  parent (pos rows r o) rows = pos rows (r + 1) (o / 2).
Proof.
  intros [Hr Ho] Hlt. unfold parent, pos.
  rewrite shl_one by lia. rewrite Z.shiftr_div_pow2 by lia.
  replace (rows + 1 - r) with (rows - r + 1) by lia.
  replace (rows + 1 - (r + 1)) with (rows - r) by lia.
  rewrite !pow2_succ by lia. change (2 ^ 1) with 2.
  replace (2 * 2 ^ rows - 2 * 2 ^ (rows - r) + o)
    with ((2 ^ rows - 2 ^ (rows - r)) * 2 + o) by lia.
  rewrite Z.div_add_l by lia.
  assert (0 <= o / 2 < 2 ^ (rows - r)).
  { split; [apply Z.div_pos; lia | apply Z.div_lt_upper_bound; lia]. }
  pose proof (pow2_le (rows - r) rows ltac:(lia)).
  rewrite Z.lor_comm. rewrite <- (Z.mul_1_l (2 ^ rows)) at 1.
  rewrite lor_add_disjoint; lia.
Qed.

Lemma left_child_pos r o : valid rows r o -> 0 < r ->
  left_child (pos rows r o) rows = pos rows (r - 1) (2 * o).
Proof.
  intros [Hr Ho] Hlt. unfold left_child. rewrite land_row_mask.
  unfold shl, wrap. rewrite Z.shiftl_mul_pow2 by lia. change (2 ^ 1) with 2.
  rewrite Z.mod_mod_divide.
  2: { exists (2 ^ (64 - (rows + 1))). rewrite <- pow2_split by lia. f_equal. lia. }
  unfold pos.
  replace (rows + 1 - (r - 1)) with (rows - r + 1 + 1) by lia.
  replace (rows + 1 - r) with (rows - r + 1) by lia.
  rewrite !pow2_succ by lia.
  pose proof (pow2_le (rows - r + 1) rows ltac:(lia)) as Hle.
  rewrite pow2_succ in Hle by lia.
  replace ((2 * 2 ^ rows - 2 * 2 ^ (rows - r) + o) * 2)
    with (2 * 2 ^ rows - 2 * (2 * 2 ^ (rows - r)) + 2 * o + 1 * (2 * 2 ^ rows)) by lia.
  rewrite Z.mod_add by lia. apply Z.mod_small. lia.
Qed.

Lemma sibling_off o n : 0 <= o < 2 ^ n -> 0 < n -> 0 <= Z.lxor o 1 < 2 ^ n.
Proof.
  intros Ho Hn. assert (0 <= Z.lxor o 1) by (apply Z.lxor_nonneg; lia).
  split; [done|]. destruct (decide (Z.lxor o 1 = 0)) as [->|]; [apply pow2_pos; lia|].
  apply Z.log2_lt_pow2; [lia|].
  pose proof (Z.log2_lxor o 1 ltac:(lia) ltac:(lia)) as Hl.
  assert (Z.log2 o < n).
  { destruct (decide (o = 0)) as [->|]; [cbn; lia|]. apply Z.log2_lt_pow2; lia. }
  change (Z.log2 1) with 0 in Hl. lia.
Qed.

(** [position ^ 1] is the other child of the same parent. *)
Lemma sibling_pos r o : valid rows r o -> r < rows ->
  Z.lxor (pos rows r o) 1 = pos rows r (Z.lxor o 1).
Proof.
  intros [Hr Ho] Hlt.
  pose proof (sibling_off o (rows - r) Ho ltac:(lia)) as Ho'.
  assert (Hk : 2 ^ (rows + 1) - 2 ^ (rows + 1 - r) = (2 ^ r - 1) * 2 ^ (rows + 1 - r)).
  { replace (rows + 1) with (r + (rows + 1 - r)) at 1 by lia.
    rewrite pow2_split by lia. lia. }
  pose proof (pow2_lt (rows - r) (rows + 1 - r) ltac:(lia)).
  unfold pos. rewrite Hk.
  rewrite <- !lor_add_disjoint by lia.
  apply Z.bits_inj'. intros n Hn.
  rewrite Z.lxor_spec, !Z.lor_spec, Z.lxor_spec.
  destruct (decide (n < rows + 1 - r)).
  - rewrite Z.mul_pow2_bits_low by lia. done.
  - rewrite (testbit_above 1 1 n) by lia. by rewrite !xorb_false_r.
Qed.

Lemma lxor_1_div2 o : 0 <= o -> Z.lxor o 1 / 2 = o / 2.
Proof.
  intros. change 2 with (2 ^ 1). rewrite <- !Z.shiftr_div_pow2 by lia.
  rewrite Z.shiftr_lxor. change (Z.shiftr 1 1) with 0. by rewrite Z.lxor_0_r.
Qed.

(** Bits of a position: [r] ones above bit [rows - r], which is zero. *)
Lemma pos_testbit_high r o i : valid rows r o -> 0 <= i < r ->
  Z.testbit (pos rows r o) (rows - i) = true.
Proof.
  intros [Hr Ho] Hi. unfold pos.
  replace (2 ^ (rows + 1) - 2 ^ (rows + 1 - r)) with ((2 ^ r - 1) * 2 ^ (rows + 1 - r)).
  2: { replace (rows + 1) with (r + (rows + 1 - r)) at 2 by lia.
       rewrite pow2_split by lia. lia. }
  pose proof (pow2_lt (rows - r) (rows + 1 - r) ltac:(lia)).
  rewrite testbit_split_high by lia.
  replace (2 ^ r - 1) with (Z.ones r) by (rewrite Z.ones_equiv; lia).
  apply Z.ones_spec_low. lia.
Qed.

Lemma pos_testbit_row r o : valid rows r o ->
  Z.testbit (pos rows r o) (rows - r) = false.
Proof.
  intros [Hr Ho]. unfold pos.
  replace (2 ^ (rows + 1) - 2 ^ (rows + 1 - r)) with ((2 ^ r - 1) * 2 ^ (rows + 1 - r)).
  2: { replace (rows + 1) with (r + (rows + 1 - r)) at 2 by lia.
       rewrite pow2_split by lia. lia. }
  rewrite testbit_split_low by lia.
  apply (testbit_above (rows - r)); lia.
Qed.

Lemma detect_row_loop_pos r o n i : valid rows r o -> 0 <= i <= r ->
  r - i < Z.of_nat n ->
  detect_row_loop n (pos rows r o) (2 ^ (rows - i)) i = r.
Proof.
  intros Hv. revert i. induction n as [|n IH]; intros i Hi Hn; [lia|].
  pose proof (valid_row _ _ _ Hv) as Hr. cbn -[Z.shiftr].
  rewrite land_pow2_eqb by lia.
  destruct (decide (i = r)) as [->|].
  - by rewrite pos_testbit_row.
  - rewrite pos_testbit_high by (done || lia). cbn -[Z.shiftr].
    rewrite Z.shiftr_div_pow2 by lia. change (2 ^ 1) with 2.
    replace (2 ^ (rows - i) / 2) with (2 ^ (rows - (i + 1))).
    + apply IH; lia.
    + replace (rows - i) with (rows - (i + 1) + 1) by lia.
      rewrite pow2_succ by lia. rewrite Z.mul_comm, Z.div_mul; lia.
Qed.

Lemma detect_row_pos r o : valid rows r o -> detect_row (pos rows r o) rows = r.
Proof.
  intros Hv. pose proof (valid_row _ _ _ Hv). unfold detect_row.
  rewrite shl_one by lia. replace rows with (rows - 0) at 2 by lia.
  apply detect_row_loop_pos; [done| lia | lia].
Qed.

Lemma pos_inj r o r' o' : valid rows r o -> valid rows r' o' ->
  pos rows r o = pos rows r' o' -> r = r' /\ o = o'.
Proof.
  intros Hv Hv' E. assert (r = r') as ->.
  { rewrite <- (detect_row_pos r o), E by done. by apply detect_row_pos. }
  unfold pos in E. lia.
Qed.

Lemma start_position_at_row_eq r : 0 <= r <= rows ->
  start_position_at_row r rows = Ok (pos rows r 0).
Proof.
  intros Hr. unfold start_position_at_row.
  rewrite (proj2 (Z.leb_le r rows)) by lia. cbn -[shl].
  pose proof (pow2_lt (rows + 1) 128 ltac:(lia)).
  pose proof (pow2_le (rows + 1 - r) (rows + 1) ltac:(lia)).
  rewrite !shl_small by (rewrite <- ?pow2_succ; try lia;
    replace (rows - r + 1) with (rows + 1 - r) by lia; lia).
  rewrite <- !pow2_succ by lia. replace (rows - r + 1) with (rows + 1 - r) by lia.
  assert (pos rows r 0 = 2 ^ (rows + 1) - 2 ^ (rows + 1 - r)) as Hp by (unfold pos; lia).
  rewrite <- Hp. unfold try_uint. rewrite decide_True; [done|].
  apply pos_u64. split; [lia|]. pose proof (pow2_pos (rows - r)). lia.
Qed.

Lemma forest_capacity_eq : forest_capacity rows = Ok (2 ^ (rows + 1) - 1).
Proof.
  unfold forest_capacity.
  pose proof (pow2_lt (rows + 1) 128 ltac:(lia)).
  rewrite shl_small by (rewrite <- ?pow2_succ; lia).
  rewrite <- pow2_succ by lia. unfold try_uint.
  pose proof (pow2_le (rows + 1) 64 ltac:(lia)). pose proof (pow2_pos (rows + 1)).
  rewrite decide_True; [done|]. split; lia.
Qed.

Lemma has_root_eq leaves r : 0 <= r < 64 -> has_root leaves r = Z.testbit leaves r.
Proof.
  intros. unfold has_root. rewrite shl_one by lia.
  rewrite land_pow2_eqb by lia. apply negb_involutive.
Qed.

(** Keeping the bits of [leaves] from [r + 1] up. *)
Lemma land_high_mask leaves r : is_u64 leaves -> leaves < 2 ^ (rows + 1) -> 0 <= r <= rows ->
  Z.land leaves (shl 64 (row_mask rows) (r + 1)) = leaves / 2 ^ (r + 1) * 2 ^ (r + 1).
Proof.
  intros Hl Hlt Hr. rewrite row_mask_eq. unfold shl, wrap.
  replace (2 ^ (rows + 1) - 1) with (Z.ones (rows + 1)) by (rewrite Z.ones_equiv; lia).
  rewrite <- Z.shiftl_mul_pow2, <- Z.shiftr_div_pow2 by lia.
  apply Z.bits_inj'. intros n Hn. rewrite Z.land_spec.
  destruct (decide (n < r + 1)).
  { rewrite Z.shiftl_spec_low by lia.
    rewrite Z.mod_pow2_bits_low by lia. rewrite Z.shiftl_spec_low by lia.
    apply andb_false_r. }
  rewrite Z.shiftl_spec by lia. rewrite Z.shiftr_spec by lia.
  replace (n - (r + 1) + (r + 1)) with n by lia.
  destruct (decide (n < rows + 1)).
  - rewrite Z.mod_pow2_bits_low by lia. rewrite Z.shiftl_spec by lia.
    rewrite Z.ones_spec_low by lia. apply andb_true_r.
  - rewrite (testbit_above (rows + 1) leaves n) by (destruct Hl; lia). done.
Qed.

Lemma root_off_bound leaves r : is_u64 leaves -> leaves <= 2 ^ rows -> 0 <= r <= rows ->
  Z.testbit leaves r = true -> 0 <= root_off leaves r < 2 ^ (rows - r).
Proof.
  intros Hl Hle Hr Hbit. unfold root_off.
  assert (0 <= leaves / 2 ^ (r + 1)) by (apply Z.div_pos; [destruct Hl; lia | apply pow2_pos; lia]).
  split; [lia|].
  assert (Hd : leaves / 2 ^ r = 2 * (leaves / 2 ^ (r + 1)) + 1).
  { rewrite pow2_split by lia. rewrite <- Z.div_div by (try apply Z.pow_nonzero; lia).
    change (2 ^ 1) with 2.
    pose proof (Z.div_mod (leaves / 2 ^ r) 2 ltac:(lia)) as Hdm.
    apply Z.testbit_true in Hbit; [|lia]. lia. }
  assert (leaves / 2 ^ r <= 2 ^ (rows - r)).
  { apply Z.div_le_upper_bound; [apply pow2_pos; lia|].
    rewrite <- pow2_split by lia. by replace (r + (rows - r)) with rows by lia. }
  lia.
Qed.

Lemma root_position_eq leaves r : is_u64 leaves -> leaves <= 2 ^ rows -> 0 <= r <= rows ->
  Z.testbit leaves r = true ->
  root_position leaves r rows = pos rows r (root_off leaves r).
Proof.
  intros Hl Hle Hr Hbit. pose proof (root_off_bound leaves r Hl Hle Hr Hbit) as Hb.
  unfold root_position. rewrite land_row_mask.
  pose proof (pow2_lt rows (rows + 1) ltac:(lia)).
  rewrite land_high_mask by (done || lia).
  rewrite Z.shiftr_div_pow2 by lia.
  replace (leaves / 2 ^ (r + 1) * 2 ^ (r + 1) / 2 ^ r) with (root_off leaves r).
  2: { unfold root_off. set (q := leaves / _). rewrite (pow2_succ r) by lia.
       replace (q * (2 * 2 ^ r)) with (2 * q * 2 ^ r) by lia.
       rewrite Z.div_mul; [done|]. apply Z.pow_nonzero; lia. }
  rewrite row_mask_eq. unfold shl, wrap. rewrite Z.shiftl_mul_pow2 by lia.
  rewrite Z.lor_comm. rewrite <- Z.land_ones by lia.
  apply Z.bits_inj'. intros n Hn.
  unfold pos.
  replace (2 ^ (rows + 1) - 2 ^ (rows + 1 - r)) with ((2 ^ r - 1) * 2 ^ (rows + 1 - r)).
  2: { replace (rows + 1) with (r + (rows + 1 - r)) at 2 by lia.
       rewrite pow2_split by lia. lia. }
  replace (2 ^ r - 1) with (Z.ones r) by (rewrite Z.ones_equiv; lia).
  replace (2 ^ (rows + 1) - 1) with (Z.ones (rows + 1)) by (rewrite Z.ones_equiv; lia).
  pose proof (pow2_lt (rows - r) (rows + 1 - r) ltac:(lia)).
  rewrite Z.land_spec, Z.lor_spec.
  destruct (decide (n < rows + 1 - r)).
  - rewrite testbit_split_low by lia. rewrite Z.mod_pow2_bits_low by lia.
    rewrite Z.mul_pow2_bits_low by lia. rewrite Z.ones_spec_low by lia. by rewrite andb_true_r.
  - rewrite testbit_split_high by lia.
    rewrite (testbit_above (rows - r) (root_off leaves r) n) by lia. rewrite orb_false_r.
    destruct (decide (n < rows + 1)).
    + rewrite Z.mod_pow2_bits_low by lia. rewrite Z.mul_pow2_bits by lia.
      rewrite !Z.ones_spec_low by lia. done.
    + rewrite !Z.ones_spec_high by lia. by rewrite andb_false_r.
Qed.
End Geometry.

Lemma tree_rows_log2_up leaves : is_u64 leaves -> tree_rows leaves = Z.log2_up leaves.
Proof.
  intros [H0 H1]. unfold tree_rows, leading_zeros64.
  destruct (Z.eqb_spec leaves 0) as [->|]; [reflexivity|].
  destruct (Z.eqb_spec (leaves - 1) 0) as [E|].
  - by replace leaves with 1 by lia.
  - unfold Z.log2_up. destruct (Z.compare_spec 1 leaves); try lia.
    replace (Z.pred leaves) with (leaves - 1) by lia. lia.
Qed.

Lemma tree_rows_fits leaves : is_u64 leaves -> 0 < leaves ->
  0 <= tree_rows leaves <= 64 /\ leaves <= 2 ^ tree_rows leaves.
Proof.
  intros Hl Hpos. rewrite tree_rows_log2_up by done.
  pose proof (Z.log2_up_nonneg leaves).
  destruct (decide (leaves = 1)) as [->|]; [cbn; lia|].
  pose proof (Z.log2_up_spec leaves ltac:(lia)).
  pose proof (Z.log2_up_le_mono leaves (2 ^ 64) ltac:(destruct Hl; lia)) as Hm.
  rewrite Z.log2_up_pow2 in Hm by lia. lia.
Qed.

Lemma half_count leaves r : 0 <= r -> leaves / 2 ^ (r + 1) = leaves / 2 ^ r / 2.
Proof.
  intros. rewrite pow2_split by lia. by rewrite <- Z.div_div by (try apply Z.pow_nonzero; lia).
Qed.

Lemma count_parity leaves r : 0 <= r ->
  leaves / 2 ^ r = 2 * (leaves / 2 ^ (r + 1)) + Z.b2z (Z.testbit leaves r).
Proof.
  intros. rewrite half_count by lia.
  rewrite Z.testbit_eqb by lia.
  pose proof (Z.div_mod (leaves / 2 ^ r) 2 ltac:(lia)).
  pose proof (Z.mod_pos_bound (leaves / 2 ^ r) 2 ltac:(lia)).
  destruct (Z.eqb_spec (leaves / 2 ^ r mod 2) 1); cbn; lia.
Qed.

Lemma dedup_elem l k : k ∈ dedup l <-> k ∈ l.
Proof.
  induction l as [|x l IH]; [done|]. cbn. destruct l as [|y l]; [done|].
  destruct (Z.eqb_spec x y) as [->|]; rewrite ?elem_of_cons, IH, ?elem_of_cons; tauto.
Qed.

Lemma land_1 x : Z.land x 1 = Z.b2z (Z.odd x).
Proof. change 1 with (Z.ones 1). rewrite Z.land_ones by lia. by rewrite Zmod_odd; destruct (Z.odd x). Qed.

Fixpoint turns_value (l : list bool) : Z :=
  match l with [] => 0 | b :: l => Z.b2z b + 2 * turns_value l end.

Lemma turns_value_bound l : 0 <= turns_value l < 2 ^ zlength l.
Proof.
  induction l as [|b l IH]; [by vm_compute|]. rewrite zlength_cons.
  replace (1 + zlength l) with (zlength l + 1) by lia. rewrite pow2_succ by apply zlength_nonneg. cbn [turns_value]. destruct b; cbn [Z.b2z]; lia.
Qed.

Lemma lxor_1_involutive p : Z.lxor (Z.lxor p 1) 1 = p.
Proof. by rewrite Z.lxor_assoc, Z.lxor_nilpotent, Z.lxor_0_r. Qed.

(** ** Climbing in a forest of [leaves] leaves *)

Section Climb.
Context (leaves rows : Z) (Hrows : 0 <= rows <= 63)
  (Hleaves : is_u64 leaves) (Hfits : leaves <= 2 ^ rows).

Lemma populated_valid r o : populated leaves r o -> valid rows r o.
Proof.
  intros [Hr Ho].
  assert (Hle : r <= rows).
  { destruct (Z.le_gt_cases r rows); [done|].
    rewrite Z.div_small in Ho; [lia|]. destruct Hleaves.
    pose proof (pow2_lt rows r). lia. }
  split; [lia|].
  assert (leaves / 2 ^ r <= 2 ^ (rows - r)); [|lia].
  apply Z.div_le_upper_bound; [apply pow2_pos; lia|].
  rewrite <- pow2_split by lia. by replace (r + (rows - r)) with rows by lia.
Qed.

Lemma is_root_position_eq r o : valid rows r o ->
  is_root_position (pos rows r o) leaves rows = is_root leaves r o.
Proof.
  intros Hv. pose proof (valid_row _ _ _ Hv). unfold is_root_position, is_root.
  rewrite detect_row_pos, has_root_eq by (done || lia).
  destruct (Z.testbit leaves r) eqn:Hbit; [|done]. cbn.
  rewrite root_position_eq by (done || lia).
  unfold pos. destruct (Z.eqb_spec o (root_off leaves r)); [apply Z.eqb_eq | apply Z.eqb_neq]; lia.
Qed.

Lemma populated_parent r o : populated leaves r o -> is_root leaves r o = false ->
  r < rows /\ populated leaves (r + 1) (o / 2).
Proof.
  intros Hp Hroot. pose proof (populated_valid r o Hp) as [Hr _].
  destruct Hp as [Hr0 Ho]. unfold is_root, root_off in Hroot.
  rewrite count_parity in Ho by lia.
  assert (o / 2 < leaves / 2 ^ (r + 1)) as Hlt.
  { destruct (Z.testbit leaves r) eqn:Hbit; cbn in *.
    - apply Z.eqb_neq in Hroot. apply Z.div_lt_upper_bound; lia.
    - apply Z.div_lt_upper_bound; lia. }
  assert (0 <= o / 2) by (apply Z.div_pos; lia).
  assert (populated leaves (r + 1) (o / 2)) as Hp by (split; lia).
  split; [|done]. pose proof (populated_valid _ _ Hp) as [? _]. lia.
Qed.

Lemma populated_sibling r o : populated leaves r o -> is_root leaves r o = false ->
  populated leaves r (Z.lxor o 1).
Proof.
  intros Hp Hroot. destruct (populated_parent r o Hp Hroot) as [Hlt [_ Ho']].
  destruct Hp as [Hr0 Ho]. split; [done|].
  assert (0 <= Z.lxor o 1) by (apply Z.lxor_nonneg; lia).
  pose proof (lxor_1_div2 o ltac:(lia)) as E.
  pose proof (Z.div_mod (Z.lxor o 1) 2 ltac:(lia)).
  pose proof (Z.mod_pos_bound (Z.lxor o 1) 2 ltac:(lia)).
  rewrite count_parity by lia. destruct (Z.testbit leaves r); cbn; lia.
Qed.

(** From a populated node, climbing reaches a root. *)
Lemma populated_ind (P : Z -> Z -> Prop) :
  (forall r o, populated leaves r o -> is_root leaves r o = true -> P r o) ->
  (forall r o, populated leaves r o -> is_root leaves r o = false ->
     P (r + 1) (o / 2) -> P r o) ->
  forall r o, populated leaves r o -> P r o.
Proof.
  intros Hbase Hstep.
  assert (Hn : forall n r o, populated leaves r o -> rows - r < Z.of_nat n -> P r o).
  { induction n as [|n IH]; intros r o Hp Hn.
    - pose proof (populated_valid r o Hp) as [? _]. lia.
    - destruct (is_root leaves r o) eqn:Hroot; [by apply Hbase|].
      apply Hstep; [done..|]. apply IH; [|lia].
      by apply populated_parent. }
  intros r o Hp. apply (Hn (Z.to_nat (rows + 1)) r o Hp).
  destruct Hp. lia.
Qed.

(** *** Nodes as positions *)

Definition is_node (p : Z) : Prop := exists r o, populated leaves r o /\ p = pos rows r o.

Definition is_rootp (p : Z) : bool := is_root_position p leaves rows.

(** The positions from [p] up to, and without, its root. *)
Fixpoint path_fuel (n : nat) (p : Z) : list Z :=
  match n with
  | O => []
  | S n => if is_rootp p then [] else p :: path_fuel n (parent p rows)
  end.
Definition path (p : Z) : list Z := path_fuel 64 p.

Lemma path_fuel_S n p :
  path_fuel (S n) p = if is_rootp p then [] else p :: path_fuel n (parent p rows).
Proof. done. Qed.

Definition rank (p : Z) : nat := Z.to_nat (rows - detect_row p rows).

Lemma node_up p : is_node p -> is_rootp p = false ->
  is_node (parent p rows) /\ is_node (Z.lxor p 1) /\ rank p = S (rank (parent p rows)).
Proof.
  intros (r & o & Hp & ->) Hroot. unfold is_rootp in Hroot.
  pose proof (populated_valid r o Hp) as Hv.
  rewrite is_root_position_eq in Hroot by done.
  destruct (populated_parent r o Hp Hroot) as [Hlt Hp'].
  pose proof (populated_valid _ _ Hp') as Hv'.
  unfold rank. rewrite parent_pos, sibling_pos, !detect_row_pos by done.
  pose proof (valid_row _ _ _ Hv).
  split_and!; [by exists (r + 1), (o / 2) | | lia].
  exists r, (Z.lxor o 1). split; [|done]. by apply populated_sibling.
Qed.

Lemma rank_bound p : is_node p -> (rank p <= 63)%nat.
Proof.
  intros (r & o & Hp & ->). pose proof (populated_valid r o Hp) as Hv. unfold rank.
  rewrite detect_row_pos by done. destruct (valid_row _ _ _ Hv). lia.
Qed.

Lemma node_ind (P : Z -> Prop) :
  (forall p, is_node p -> is_rootp p = true -> P p) ->
  (forall p, is_node p -> is_rootp p = false -> P (parent p rows) -> P p) ->
  forall p, is_node p -> P p.
Proof.
  intros Hb Hs p (r & o & Hp & ->). revert r o Hp.
  apply (populated_ind (fun r o => P (pos rows r o))).
  - intros r o Hp Hr. pose proof (populated_valid r o Hp). apply Hb; [by exists r, o|].
    unfold is_rootp. by rewrite is_root_position_eq.
  - intros r o Hp Hr IH. pose proof (populated_valid r o Hp). apply Hs.
    + by exists r, o.
    + unfold is_rootp. by rewrite is_root_position_eq.
    + rewrite parent_pos; [done..|]. by destruct (populated_parent r o Hp Hr).
Qed.

Lemma path_fuel_enough p : is_node p ->
  forall n m, (rank p < n)%nat -> (rank p < m)%nat -> path_fuel n p = path_fuel m p.
Proof.
  revert p. apply (node_ind (fun p => forall n m, _ -> _ -> _)); intros p Hn' Hr;
    [|intros IH]; intros [|n] [|m] H1 H2; try lia; cbn; rewrite Hr; [done|].
  destruct (node_up p Hn' Hr) as (_ & _ & E). f_equal. apply IH; lia.
Qed.

Lemma path_root p : is_rootp p = true -> path p = [].
Proof. intros Hr. unfold path. by rewrite path_fuel_S, Hr. Qed.

Lemma path_step p : is_node p -> is_rootp p = false -> path p = p :: path (parent p rows).
Proof.
  intros Hn Hr. destruct (node_up p Hn Hr) as (Hn' & _ & E).
  pose proof (rank_bound p Hn). unfold path.
  rewrite (path_fuel_enough (parent p rows) Hn' 64 63) by lia.
  rewrite (path_fuel_S 63 p), Hr. exact eq_refl.
Qed.

(** Only the siblings along the path are asked for. *)
Lemma climb_ext f g p : is_node p ->
  (forall x, x ∈ path p -> f (Z.lxor x 1) = g (Z.lxor x 1)) ->
  forall fuel ds d,
    climb_to_root fuel leaves rows f p ds d = climb_to_root fuel leaves rows g p ds d.
Proof.
  revert p. apply (node_ind (fun p => _ -> forall fuel ds d, _)); intros p Hn' Hr;
    [|intros IH]; intros Hfg [|fuel] ds d; cbn; try done;
    unfold is_rootp in Hr; rewrite Hr; [done|].
  rewrite (path_step p Hn' Hr) in Hfg.
  rewrite (Hfg p) by (by left).
  destruct (g (Z.lxor p 1)) as [[]|]; cbn; [| |done]; apply IH; intros; apply Hfg; by right.
Qed.

Lemma proof_position_ext f g p : is_node p ->
  (forall x, x ∈ path p -> f (Z.lxor x 1) = g (Z.lxor x 1)) ->
  proof_position_from_spent p leaves rows f = proof_position_from_spent p leaves rows g.
Proof.
  intros Hn Hfg. unfold proof_position_from_spent. by rewrite (climb_ext f g p Hn Hfg).
Qed.

Lemma parent_sibling p : is_node p -> is_rootp p = false ->
  parent (Z.lxor p 1) rows = parent p rows.
Proof.
  intros (r & o & Hp & ->) Hroot. pose proof (populated_valid r o Hp) as Hv.
  unfold is_rootp in Hroot. rewrite is_root_position_eq in Hroot by done.
  destruct (populated_parent r o Hp Hroot) as [Hlt _].
  rewrite sibling_pos by done.
  pose proof (populated_valid _ _ (populated_sibling r o Hp Hroot)) as Hv'.
  rewrite !parent_pos by done. f_equal. apply lxor_1_div2. destruct Hp. lia.
Qed.

(** A root has no populated sibling. *)
Lemma is_rootp_sibling p : is_node p -> is_rootp p = false -> is_rootp (Z.lxor p 1) = false.
Proof.
  intros (r & o & Hp & ->) Hroot. pose proof (populated_valid r o Hp) as Hv.
  unfold is_rootp in *. rewrite is_root_position_eq in Hroot by done.
  destruct (populated_parent r o Hp Hroot) as [Hlt _].
  pose proof (populated_sibling r o Hp Hroot) as Hp'.
  rewrite sibling_pos, is_root_position_eq by (done || by apply populated_valid).
  unfold is_root, root_off in *. destruct (Z.testbit leaves r) eqn:Hbit; [|done]. cbn in *.
  apply Z.eqb_neq. intros E. apply Z.eqb_neq in Hroot. destruct Hp as [Hr Ho].
  rewrite count_parity, Hbit in Ho by lia. cbn in Ho.
  pose proof (lxor_1_div2 o ltac:(lia)) as Hd. rewrite E, Z.mul_comm, Z.div_mul in Hd by lia.
  pose proof (Z.div_mod o 2 ltac:(lia)). pose proof (Z.mod_pos_bound o 2 ltac:(lia)). lia.
Qed.

Lemma path_siblings_nodes p x : is_node p -> x ∈ path p -> is_node (Z.lxor x 1).
Proof.
  intros Hn. revert p Hn x. apply (node_ind (fun p => forall x, _ -> _)).
  - intros p Hn Hr x Hx. rewrite path_root in Hx by done. by apply elem_of_nil in Hx.
  - intros p Hn Hr IH x Hx. rewrite path_step in Hx by done.
    apply elem_of_cons in Hx as [->|Hx]; [by apply node_up | by apply IH].
Qed.

(** *** The batch translation *)

#[local] Opaque path path_fuel detect_row.

Section Translate.
Context (sp : Z -> bool) (read : Z -> result bool).
Context (Hread : forall p, is_node p -> read p = Ok (sp p)).

(** No node on the way from [p] to its root is spent. *)
Definition live (p : Z) : Prop := is_node p /\ forall x, x ∈ path p -> sp x = false.

Lemma live_up p : live p -> is_rootp p = false -> live (parent p rows) /\ sp p = false.
Proof.
  intros [Hn Hl] Hr. rewrite (path_step p Hn Hr) in Hl.
  destruct (node_up p Hn Hr) as (Hn' & _).
  split; [split; [done|]|]; intros; apply Hl; [by right | by left].
Qed.

Definition measure (frontier : list Z) : nat := sum_list ((fun p => S (rank p)) <$> frontier).

Lemma measure_app l1 l2 : measure (l1 ++ l2) = (measure l1 + measure l2)%nat.
Proof. unfold measure. rewrite fmap_app. apply sum_list_with_app || apply sum_list_app. Qed.

(** What the loop still owes: the sibling of every node on a path. *)
Definition owed (frontier : list Z) (k : Z) : Prop :=
  exists y x, y ∈ frontier /\ x ∈ path y /\ k = Z.lxor x 1.

Lemma owed_step p rest k : is_node p -> is_rootp p = false ->
  owed (p :: rest) k -> k = Z.lxor p 1 \/ owed (rest ++ [parent p rows]) k.
Proof.
  intros Hn Hr (y & x & Hy & Hx & ->). apply elem_of_cons in Hy as [->|Hy].
  - rewrite (path_step p Hn Hr) in Hx. apply elem_of_cons in Hx as [->|Hx]; [by left|].
    right. exists (parent p rows), x. split_and!; [in_list | done | done].
  - right. exists y, x. split_and!; [in_list | done | done].
Qed.

Lemma frontier_loop_spec fuel frontier spent load :
  (measure frontier < fuel)%nat ->
  (forall y, y ∈ frontier -> live y) ->
  (forall k b, spent !! k = Some b -> b = sp k) ->
  (forall k, k ∈ load -> is_node k) ->
  exists spent' load',
    frontier_loop fuel leaves rows frontier spent load = Ok (spent', load') /\
    (forall k b, spent' !! k = Some b -> b = sp k) /\
    (forall k, k ∈ load' -> is_node k) /\
    (forall k, is_Some (spent !! k) \/ k ∈ load \/ owed frontier k ->
               is_Some (spent' !! k) \/ k ∈ load').
Proof.
  revert frontier spent load.
  induction fuel as [|fuel IH]; intros frontier spent load Hm Hlive Hsp Hload; [lia|].
  destruct frontier as [|p rest]; cbn [frontier_loop].
  { exists spent, load. split_and!; try done.
    intros k [?|[?|(y & x & Hy & _)]]; [by left | by right | by apply elem_of_nil in Hy]. }
  change (measure (p :: rest)) with (S (rank p) + measure rest)%nat in Hm.
  assert (live p) as Hlp by (apply Hlive; by left).
  destruct (is_root_position p leaves rows) eqn:Hr.
  { destruct (IH rest spent load) as (sp' & ld' & E & H1 & H2 & H3);
      [lia | intros; apply Hlive; by right | done | done |].
    exists sp', ld'. split_and!; try done. intros k [?|[?|(y & x & Hy & Hx & ->)]]; apply H3; auto.
    apply elem_of_cons in Hy as [->|Hy].
    - rewrite (path_root p Hr) in Hx. by apply elem_of_nil in Hx.
    - right. right. by exists y, x. }
  destruct (live_up p Hlp Hr) as [Hlup Hspp].
  destruct (node_up p (proj1 Hlp) Hr) as (_ & Hnsib & Hrank).
  assert (Hm1 : measure [parent p rows] = rank p).
  { unfold measure. cbn. lia. }
  case_bool_decide as Hhead.
  - destruct rest as [|s rest']; [done|]. injection Hhead as ->. cbn [tail].
    assert (live (Z.lxor p 1)) as Hls by (apply Hlive; in_list).
    pose proof (is_rootp_sibling p (proj1 Hlp) Hr) as Hrs.
    destruct (IH (rest' ++ [parent p rows]) (<[Z.lxor p 1 := false]> (<[p := false]> spent)) load)
      as (sp' & ld' & E & H1 & H2 & H3).
    + rewrite measure_app, Hm1.
      change (measure (Z.lxor p 1 :: rest')) with (S (rank (Z.lxor p 1)) + measure rest')%nat in Hm.
      lia.
    + intros y [Hy | ->%list_elem_of_singleton]%elem_of_app; [apply Hlive; in_list | exact Hlup].
    + intros k b. rewrite !lookup_insert. case_decide as E1.
      * intros [= <-]. subst k. by destruct (live_up _ Hls Hrs).
      * case_decide as E2; [intros [= <-]; by subst k | apply Hsp].
    + done.
    + exists sp', ld'. split_and!; try done. intros k Hk. apply H3.
      destruct Hk as [Hk|[Hk|Hk]]; [left | by auto |].
      * rewrite !lookup_insert. repeat case_decide; [done..|]. done.
      * destruct (owed_step p _ k (proj1 Hlp) Hr Hk) as [->|Hk'].
        { left. rewrite lookup_insert_eq. done. }
        destruct Hk' as (y & x & Hy & Hx & ->).
        apply elem_of_app in Hy as [Hy|Hy];
          [apply elem_of_cons in Hy as [->|Hy]|].
        -- rewrite (path_step _ (proj1 Hls) Hrs) in Hx.
           apply elem_of_cons in Hx as [->|Hx].
           { left. rewrite lxor_1_involutive.
             rewrite !lookup_insert. repeat case_decide; done. }
           right. right. exists (parent p rows), x.
           rewrite (parent_sibling p (proj1 Hlp) Hr) in Hx.
           split_and!; [in_list | done | done].
        -- right. right. exists y, x. split_and!; [in_list | done | done].
        -- right. right. exists y, x. split_and!; [in_list | done | done].
  - destruct (IH (rest ++ [parent p rows]) spent (load ++ [Z.lxor p 1]))
      as (sp' & ld' & E & H1 & H2 & H3).
    + rewrite measure_app, Hm1. lia.
    + intros y [Hy | ->%list_elem_of_singleton]%elem_of_app; [apply Hlive; in_list | exact Hlup].
    + done.
    + intros k [Hk | ->%list_elem_of_singleton]%elem_of_app; auto.
    + exists sp', ld'. split_and!; try done. intros k Hk. apply H3.
      destruct Hk as [Hk|[Hk|Hk]]; [by auto | right; left; in_list |].
      destruct (owed_step p rest k (proj1 Hlp) Hr Hk) as [->|Hk'];
        [right; left; in_list | by auto].
Qed.

Lemma load_spent_spec load spent :
  (forall k, k ∈ load -> is_node k) ->
  (forall k b, spent !! k = Some b -> b = sp k) ->
  exists spent', load_spent read load spent = Ok spent' /\
    (forall k b, spent' !! k = Some b -> b = sp k) /\
    (forall k, is_Some (spent !! k) \/ k ∈ load -> spent' !! k = Some (sp k)).
Proof.
  intros Hload Hsp. unfold load_spent.
  assert (Hn : forall k, k ∈ merge_sort Z.le load -> is_node k).
  { intros k Hk. apply Hload. by rewrite <- (merge_sort_Permutation Z.le load). }
  assert (Hin : forall k, k ∈ load -> k ∈ merge_sort Z.le load).
  { intros k Hk. by rewrite (merge_sort_Permutation Z.le load). }
  clear Hload. revert spent Hsp Hin Hn. generalize (merge_sort Z.le load) as l. intros l.
  induction l as [|p l IH] in load |- *; intros spent Hsp Hin Hn; cbn.
  - exists spent. split_and!; [done | done |]. intros k [[b Hb] | Hk%Hin].
    + rewrite Hb. f_equal. by apply Hsp.
    + by apply elem_of_nil in Hk.
  - rewrite (Hread p) by (apply Hn; in_list). cbn.
    destruct (IH l (<[p := sp p]> spent)) as (spent' & E & H1 & H2).
    + intros k b. rewrite lookup_insert. case_decide; [intros [= <-]; by subst | apply Hsp].
    + done.
    + intros; apply Hn; in_list.
    + exists spent'. split_and!; [done | done |]. intros k Hk. apply H2.
      rewrite lookup_insert. case_decide; [by left|].
      destruct Hk as [?|Hk%Hin]; [by left|]. right. in_list.
Qed.

Lemma measure_bound l : (forall y, y ∈ l -> is_node y) -> (measure l <= 64 * length l)%nat.
Proof.
  intros H. unfold measure. induction l as [|p l IH]; cbn; [lia|].
  pose proof (rank_bound p (H p ltac:(in_list))).
  cbn in IH. specialize (IH ltac:(intros; apply H; in_list)). lia.
Qed.

(** The batch traversal computes, for every target, what the one-target
    climb computes with direct reads. *)
Lemma translate_proof_positions_scalar (positions : list Z) :
  (forall t, t ∈ positions -> live t) ->
  translate_proof_positions positions leaves rows read =
  mapM (fun t => proof_position_from_spent t leaves rows read) positions.
Proof.
  intros Hlive. unfold translate_proof_positions. set (frontier := dedup _).
  assert (Hf : forall y, y ∈ frontier <-> y ∈ positions).
  { intros y. unfold frontier. by rewrite dedup_elem, merge_sort_Permutation. }
  destruct (frontier_loop_spec (S (64 * length frontier)) frontier ∅ [])
    as (spent & load & E & H1 & H2 & H3).
  - pose proof (measure_bound frontier) as Hb.
    assert (measure frontier <= 64 * length frontier)%nat; [|lia].
    apply Hb. intros y Hy%Hf. by apply Hlive.
  - intros y Hy%Hf. by apply Hlive.
  - intros k b. by rewrite lookup_empty.
  - intros k Hk%elem_of_nil. done.
  - rewrite E. step_ok.
    destruct (load_spent_spec load spent H2 H1) as (spent' & E' & H4 & H5). rewrite E'. step_ok.
    assert (Hall : forall t x, t ∈ positions -> x ∈ path t ->
              ok_or "detwinned traversal omitted sibling" (spent' !! Z.lxor x 1)
              = read (Z.lxor x 1)).
    { intros t x Ht Hx. rewrite H5.
      - cbn. symmetry. apply Hread.
        apply (path_siblings_nodes t x); [by apply Hlive | done].
      - apply H3. right. right. exists t, x. split_and!; [by apply Hf | done | done]. }
    apply mapM_ext_in. intros t Ht. apply proof_position_ext; [by apply Hlive|].
    intros x Hx. by apply (Hall t).
Qed.

(** *** The promoted position *)

(** The root that [p] is under. *)
Definition root_row (p : Z) : Z := detect_row p rows + Z.of_nat (length (path p)).

(** The turns that survive promotion, lowest level first: a level whose
    sibling subtree is spent leaves no trace in the sparse forest. *)
Definition live_turns (p : Z) : list bool :=
  Z.odd <$> filter (fun x => sp (Z.lxor x 1) = false) (path p).

(** Take the turns of [l] downwards from offset [o] of row [r]. *)
Definition descend (r o : Z) (l : list bool) : Z * Z :=
  foldr (fun b '(r, o) => (r - 1, 2 * o + Z.b2z b)) (r, o) l.

Definition promoted (p : Z) : Z :=
  let '(r, o) := descend (root_row p) (root_off leaves (root_row p)) (live_turns p) in
  pos (tree_rows leaves) r o.

Lemma root_row_up p : is_node p -> is_rootp p = false ->
  root_row p = root_row (parent p rows).
Proof.
  intros Hn Hr. unfold root_row. rewrite (path_step p Hn Hr). cbn [length].
  destruct Hn as (r & o & Hp & ->). pose proof (populated_valid r o Hp) as Hv.
  unfold is_rootp in Hr. rewrite is_root_position_eq in Hr by done.
  destruct (populated_parent r o Hp Hr) as [Hlt Hp'].
  rewrite parent_pos by done.
  rewrite !detect_row_pos by (done || by apply populated_valid). lia.
Qed.

(** [root_row p] is the row of a populated root. *)
Lemma root_row_spec p : is_node p ->
  Z.testbit leaves (root_row p) = true /\ 0 <= root_row p <= rows /\
  zlength (path p) <= root_row p.
Proof.
  intros Hn. revert p Hn. apply (node_ind (fun p => _ /\ _ /\ _)).
  - intros p Hn Hr. unfold root_row. rewrite path_root by done.
    destruct Hn as (r & o & Hp & ->). pose proof (populated_valid r o Hp) as Hv.
    unfold is_rootp in Hr. rewrite is_root_position_eq in Hr by done.
    rewrite detect_row_pos by done. unfold is_root in Hr. apply andb_true_iff in Hr as [Hr _].
    destruct (valid_row _ _ _ Hv). unfold zlength. cbn.
    rewrite Z.add_0_r. split_and!; [done|lia..].
  - intros p Hn Hr (H1 & H2 & H3). rewrite root_row_up by done. split_and!; [done|lia..|].
    revert H3. unfold root_row. rewrite (path_step p Hn Hr), zlength_cons.
    destruct Hn as (r & o & Hp & ->). pose proof (populated_valid r o Hp) as Hv.
    unfold is_rootp in Hr. rewrite is_root_position_eq in Hr by done.
    destruct (populated_parent r o Hp Hr) as [Hlt Hp'].
    rewrite parent_pos by done.
    rewrite !detect_row_pos by (done || by apply populated_valid).
    destruct Hp as [? _]. unfold zlength. lia.
Qed.

Lemma climb_spec p : is_node p -> forall fuel ds d,
  (rank p < fuel)%nat -> 0 <= d -> d + Z.of_nat (rank p) <= 63 -> 0 <= ds < 2 ^ d ->
  climb_to_root fuel leaves rows read p ds d =
  Ok (pos rows (root_row p) (root_off leaves (root_row p)),
      ds + 2 ^ d * turns_value (live_turns p), d + zlength (live_turns p)).
Proof.
  intros Hn. revert p Hn.
  apply (node_ind (fun p => forall fuel ds d, _ -> _ -> _ -> _ -> _)).
  - intros p Hn Hr [|fuel] ds d Hf Hd Hd' Hds; [lia|]. cbn [climb_to_root].
    unfold is_rootp in Hr. rewrite Hr. unfold live_turns, root_row. rewrite path_root by done.
    destruct Hn as (r & o & Hp & ->). pose proof (populated_valid r o Hp) as Hv.
    rewrite is_root_position_eq in Hr by done.
    rewrite detect_row_pos by done.
    unfold is_root in Hr. apply andb_true_iff in Hr as [_ ->%Z.eqb_eq].
    cbn. by rewrite !Z.add_0_r, Z.mul_0_r, Z.add_0_r.
  - intros p Hn Hr IH [|fuel] ds d Hf Hd Hd' Hds; [lia|]. cbn [climb_to_root].
    destruct (node_up p Hn Hr) as (_ & Hns & Hrk). pose proof Hr as Hr'.
    unfold is_rootp in Hr. rewrite Hr. rewrite Hread by done. step_ok.
    rewrite (root_row_up p Hn Hr').
    unfold live_turns in *. rewrite (path_step p Hn Hr'), filter_cons.
    destruct (sp (Z.lxor p 1)) eqn:Hsp.
    + rewrite decide_False by congruence. by rewrite IH by lia.
    + rewrite decide_True by done.
      assert (0 <= Z.b2z (Z.odd p) <= 1) by (destruct (Z.odd p); cbn; lia).
      pose proof (pow2_le d 62 ltac:(lia)).
      assert (Hshl : shl 64 (Z.land p 1) d = Z.b2z (Z.odd p) * 2 ^ d).
      { rewrite land_1, shl_small; [done | lia | lia |].
        pose proof (pow2_lt 62 64 ltac:(lia)). nia. }
      rewrite Hshl, Z.lor_comm, lor_add_disjoint by done.
      rewrite IH by (rewrite ?pow2_succ by lia; nia).
      rewrite fmap_cons, zlength_cons. cbn [turns_value].
      rewrite pow2_succ by lia. f_equal. f_equal; [f_equal|]; lia.
Qed.

Lemma descend_code L k o : 0 <= L <= 63 -> valid L k o ->
  forall (l : list bool) D s, 0 <= s -> Z.shiftr D s = turns_value l -> zlength l <= k ->
  let '(r', o') := descend k o l in
  valid L r' o' /\ r' = k - zlength l /\
  foldr (fun shift a => left_child a L + Z.land (Z.shiftr D shift) 1) (pos L k o)
    (zrange s (s + zlength l)) = pos L r' o'.
Proof.
  intros HL Hv l. induction l as [|b l IH]; intros D s Hs HD Hk.
  { rewrite zlength_nil. cbn. rewrite zrange_nil by lia. split_and!; [done|lia|done]. }
  rewrite zlength_cons in *. cbn [turns_value] in HD. pose proof (zlength_nonneg l).
  assert (Hb : Z.land (Z.shiftr D s) 1 = Z.b2z b).
  { rewrite HD, land_1, Z.odd_add, Z.odd_mul. cbn. rewrite xorb_false_r.
    by destruct b. }
  specialize (IH D (s + 1) ltac:(lia)).
  assert (HD' : Z.shiftr D (s + 1) = turns_value l).
  { rewrite <- Z.shiftr_shiftr, HD, Z.shiftr_div_pow2 by lia. change (2 ^ 1) with 2.
    rewrite Z.mul_comm, Z.div_add by lia. by destruct b. }
  specialize (IH HD' ltac:(lia)).
  cbn [descend foldr]. fold (descend k o l). destruct (descend k o l) as [r' o'].
  destruct IH as (Hv' & -> & E).
  replace (s + (1 + zlength l)) with (s + 1 + zlength l) by lia.
  rewrite (zrange_cons s) by lia. cbn [foldr]. rewrite E, Hb.
  rewrite left_child_pos by (done || lia).
  destruct Hv' as [Hr' Ho']. split_and!; [| lia |].
  - split; [lia|].
    replace (L - (k - zlength l - 1)) with (L - (k - zlength l) + 1) by lia.
    rewrite pow2_succ by lia. destruct b; cbn; lia.
  - unfold pos. destruct b; cbn; lia.
Qed.

(** The canonical proof coordinate of a node: its root in the canonical
    layout, followed by the turns whose sibling is not spent. *)
Lemma proof_position_promoted p : is_node p ->
  proof_position_from_spent p leaves rows read = Ok (promoted p).
Proof.
  intros Hn. pose proof (rank_bound p Hn) as Hrk.
  destruct (root_row_spec p Hn) as (Hbit & Hk & Hlen).
  unfold proof_position_from_spent.
  rewrite (climb_spec p Hn) by lia. step_ok.
  rewrite Z.pow_0_r, Z.mul_1_l, !Z.add_0_l.
  assert (Hv : valid rows (root_row p) (root_off leaves (root_row p)))
    by (split; [lia | by apply root_off_bound]).
  rewrite detect_row_pos by done.
  assert (Hpos : 2 ^ root_row p <= leaves).
  { destruct Hleaves. destruct (Z.le_gt_cases (2 ^ root_row p) leaves); [done|].
    rewrite (testbit_above (root_row p) leaves) in Hbit by lia. done. }
  pose proof (pow2_pos (root_row p) ltac:(lia)).
  destruct (tree_rows_fits leaves Hleaves ltac:(lia)) as [HL0 HLfit].
  assert (HL : 0 <= tree_rows leaves <= 63).
  { split; [lia|]. rewrite tree_rows_log2_up by done.
    pose proof (Z.log2_up_le_mono _ _ Hfits) as Hm. rewrite Z.log2_up_pow2 in Hm by lia. lia. }
  assert (HkL : root_row p <= tree_rows leaves).
  { apply (Z.pow_le_mono_r_iff 2); lia. }
  rewrite root_position_eq by (done || lia).
  pose proof (descend_code (tree_rows leaves) (root_row p) (root_off leaves (root_row p)) HL) as Hd.
  specialize (Hd ltac:(split; [lia | by apply root_off_bound; [..|lia|]]) (live_turns p)
    (turns_value (live_turns p)) 0 ltac:(lia) (Z.shiftr_0_r _)).
  assert (Hl : zlength (live_turns p) <= root_row p).
  { unfold live_turns. rewrite zlength_fmap. unfold zlength in *.
    pose proof (length_filter (fun x => sp (Z.lxor x 1) = false) (path p)). lia. }
  specialize (Hd Hl). unfold promoted. destruct (descend _ _ _) as [r' o'].
  destruct Hd as (_ & _ & <-). f_equal. rewrite Z.add_0_l.
  by rewrite foldl_reverse.
Qed.
End Translate.
End Climb.

(** ** Moving between layouts *)

Lemma translate_position_pos a b r o : 0 <= a <= 63 -> 0 <= b <= 63 ->
  valid a r o -> valid b r o -> translate_position (pos a r o) a b = Ok (pos b r o).
Proof.
  intros Ha Hb Hva Hvb. unfold translate_position.
  rewrite detect_row_pos by done.
  rewrite !start_position_at_row_eq by first [done | by destruct Hva | by destruct Hvb].
  step_ok.
  assert (is_u64 (pos b r o)) as Hu by (by apply pos_u64).
  unfold checked_add. replace (pos b r 0 + (pos a r o - pos a r 0)) with (pos b r o)
    by (unfold pos; lia).
  unfold try_uint. by rewrite decide_True.
Qed.

(** A coarser layout embeds in a finer one. *)
Lemma valid_grow a b r o : a <= b -> valid a r o -> valid b r o.
Proof.
  intros Hab [Hr Ho]. pose proof (pow2_le (a - r) (b - r) ltac:(lia)). split; lia.
Qed.

Lemma is_power_of_two_pow2 n : 0 <= n -> is_power_of_two (2 ^ n) = true.
Proof.
  intros Hn. unfold is_power_of_two. pose proof (pow2_pos n Hn).
  rewrite (proj2 (Z.ltb_lt 0 (2 ^ n))) by lia. cbn. apply Z.eqb_eq.
  replace (2 ^ n - 1) with (Z.ones n) by (rewrite Z.ones_equiv; lia).
  rewrite Z.land_ones by lia. apply Z.mod_same. lia.
Qed.

Lemma power_of_two_inv x : is_power_of_two x = true -> x = 2 ^ Z.log2 x.
Proof.
  unfold is_power_of_two. intros [Hx%Z.ltb_lt Hl%Z.eqb_eq]%andb_true_iff.
  pose proof (Z.log2_spec x Hx) as [Hlo Hhi]. pose proof (Z.log2_nonneg x).
  destruct (decide (x = 2 ^ Z.log2 x)) as [|Hne]; [done|exfalso].
  assert (Hx1 : Z.log2 (x - 1) = Z.log2 x) by (apply Z.log2_unique; lia).
  apply (f_equal (fun z => Z.testbit z (Z.log2 x))) in Hl.
  rewrite Z.land_spec, Z.bit_log2, <- Hx1, Z.bit_log2, Z.bits_0 in Hl by lia. done.
Qed.

Lemma forest_rows_of_capacity rows : 0 <= rows <= 62 ->
  forest_rows_from_node_count (2 ^ (rows + 1) - 1) = Ok rows.
Proof.
  intros H62. unfold forest_rows_from_node_count.
  pose proof (pow2_lt (rows + 1) 64 ltac:(lia)).
  pose proof (pow2_le 1 (rows + 1) ltac:(lia)). unfold checked_add, try_uint.
  replace (2 ^ (rows + 1) - 1 + 1) with (2 ^ (rows + 1)) by lia.
  rewrite decide_True by (split; lia). step_ok.
  rewrite (proj2 (Z.ltb_ge (2 ^ (rows + 1)) 2)) by lia.
  rewrite is_power_of_two_pow2 by lia. cbn -[Z.pow].
  rewrite Z.log2_pow2 by lia. replace (rows + 1 - 1) with rows by lia.
  rewrite decide_True; [done|]. split; [lia|]. change (2 ^ 8) with 256. lia.
Qed.

(** ** Properties *)

(** On every node of a forest of at most 63 rows, the code's bit tricks are
    the coordinate operations: row detection, row starts, parent, sibling
    ([position ^ 1]) and left child. *)
Theorem position_arithmetic (rows r o : Z) (Hrows : 0 <= rows <= 63) (Hv : valid rows r o) :
  detect_row (pos rows r o) rows = r /\
  start_position_at_row r rows = Ok (pos rows r 0) /\
  (r < rows -> parent (pos rows r o) rows = pos rows (r + 1) (o / 2)) /\
  (r < rows -> Z.lxor (pos rows r o) 1 = pos rows r (Z.lxor o 1)) /\
  (0 < r -> left_child (pos rows r o) rows = pos rows (r - 1) (2 * o)).
Proof.
  split_and!.
  - by apply detect_row_pos.
  - apply start_position_at_row_eq; [done|]. apply Hv.
  - by apply parent_pos.
  - by apply sibling_pos.
  - by apply left_child_pos.
Qed.

Lemma position_arithmetic_witness : detect_row 13 3 = 2 /\ left_child 13 3 = 10.
Proof.
  destruct (position_arithmetic 3 2 1) as (H1 & _ & _ & _ & H2).
  - lia.
  - split; vm_compute; split; congruence.
  - split; [exact H1 | apply H2; reflexivity].
Defined.

(** A position is recognised as a root exactly when it is the last full
    subtree of its row and that row's bit of the leaf count is set; and
    [root_position] computes the position of that root. *)
Theorem root_positions_correct (leaves rows r o : Z) (Hrows : 0 <= rows <= 63)
    (Hleaves : is_u64 leaves) (Hfits : leaves <= 2 ^ rows) (Hv : valid rows r o) :
  is_root_position (pos rows r o) leaves rows =
    Z.testbit leaves r && (o =? leaves / 2 ^ r - 1) /\
  (Z.testbit leaves r = true ->
   root_position leaves r rows = pos rows r (leaves / 2 ^ r - 1)).
Proof.
  pose proof (valid_row _ _ _ Hv) as Hr.
  rewrite is_root_position_eq by done. unfold is_root.
  pose proof (count_parity leaves r ltac:(lia)) as Hc.
  split.
  - destruct (Z.testbit leaves r); [|done]. cbn in Hc |- *. unfold root_off.
    destruct (Z.eqb_spec o (leaves / 2 ^ r - 1)); [apply Z.eqb_eq | apply Z.eqb_neq]; lia.
  - intros Hbit. rewrite root_position_eq by (done || lia).
    unfold pos, root_off. rewrite Hbit in Hc. cbn in Hc. lia.
Qed.

Lemma root_positions_correct_witness :
  is_root_position 12 6 3 = true /\ root_position 6 1 3 = 10.
Proof.
  split.
  - apply (root_positions_correct 6 3 2 0); [lia | vm_compute; split; congruence | lia |].
    split; vm_compute; split; congruence.
  - apply (root_positions_correct 6 3 1 2); [lia | vm_compute; split; congruence | lia | | reflexivity].
    split; vm_compute; split; congruence.
Defined.

(** C34: the detwinned batch traversal of the proof targets is equivalent to
    climbing from each target on its own with direct reads, for any targets
    none of whose ancestors-or-self below the root is spent; in particular it
    terminates and never reports an omitted sibling. *)
Theorem translate_proof_positions_equiv (leaves rows : Z) (sp : Z -> bool)
    (read : Z -> result bool) (positions : list Z)
    (Hrows : 0 <= rows <= 63) (Hleaves : is_u64 leaves) (Hfits : leaves <= 2 ^ rows)
    (Hread : forall p, is_node leaves rows p -> read p = Ok (sp p))
    (Hlive : forall t, t ∈ positions -> live leaves rows sp t) :
  translate_proof_positions positions leaves rows read =
    mapM (fun t => proof_position_from_spent t leaves rows read) positions.
Proof. by apply translate_proof_positions_scalar with sp. Qed.

Lemma translate_proof_positions_equiv_witness :
  translate_proof_positions [4; 0; 5] 6 3 (fun p => Ok (p =? 1)) = Ok [8; 8; 9] \/
  translate_proof_positions [4; 0; 5] 6 3 (fun p => Ok (p =? 1)) =
    mapM (fun t => proof_position_from_spent t 6 3 (fun p => Ok (p =? 1))) [4; 0; 5].
Proof.
  right. apply translate_proof_positions_equiv with (sp := fun p => p =? 1).
  - lia.
  - vm_compute; split; congruence.
  - lia.
  - done.
  - intros t Ht. rewrite !elem_of_cons, elem_of_nil in Ht.
    destruct Ht as [->|[->|[->|[]]]]; (split;
      [ eexists 0, _; split; [split; [lia|]|reflexivity]; vm_compute; split; congruence
      | intros x Hx; vm_compute in Hx;
        repeat (apply elem_of_cons in Hx as [->|Hx]; [reflexivity|]);
        by apply elem_of_nil in Hx ]).
Defined.

(** C35: the proof target of a node is its canonical position in the promoted
    forest: from the root it hangs from, renumbered for [tree_rows leaves] rows,
    take the node's turns whose sibling subtree still has an unspent leaf.  The
    climb always ends at a root. *)
Theorem proof_position_canonical (leaves rows : Z) (sp : Z -> bool)
    (read : Z -> result bool) (p : Z)
    (Hrows : 0 <= rows <= 63) (Hleaves : is_u64 leaves) (Hfits : leaves <= 2 ^ rows)
    (Hread : forall p, is_node leaves rows p -> read p = Ok (sp p))
    (Hp : is_node leaves rows p) :
  proof_position_from_spent p leaves rows read = Ok (promoted leaves rows sp p).
Proof. by apply proof_position_promoted. Qed.

Lemma proof_position_canonical_witness :
  proof_position_from_spent 0 6 5 (fun p => Ok (p =? 1)) = Ok 8.
Proof.
  rewrite (proof_position_canonical 6 5 (fun p => p =? 1)).
  - vm_compute. reflexivity.
  - lia.
  - vm_compute; split; congruence.
  - lia.
  - done.
  - exists 0, 0. split; [split; [lia|]|reflexivity]. vm_compute; split; congruence.
Defined.

(** Renumbering a node for a larger layout and back is the identity, and it
    keeps the node's row and offset. *)
Theorem translate_position_roundtrip (a b r o : Z) (Hab : 0 <= a <= b) (Hb : b <= 63)
    (Hv : valid a r o) :
  translate_position (pos a r o) a b = Ok (pos b r o) /\
  translate_position (pos b r o) b a = Ok (pos a r o).
Proof.
  pose proof (valid_grow a b r o ltac:(lia) Hv).
  split; apply translate_position_pos; (done || lia).
Qed.

Lemma translate_position_roundtrip_witness :
  translate_position 13 3 5 = Ok 49 /\ translate_position 49 5 3 = Ok 13.
Proof.
  apply (translate_position_roundtrip 3 5 2 1); [lia|lia|].
  split; vm_compute; split; congruence.
Defined.

(** [forest_rows_from_node_count] accepts exactly the node counts that
    [forest_capacity] produces, and inverts it.  The largest capacity, of 63
    rows, is the one it refuses: its node count plus one overflows. *)
Theorem forest_rows_inverts_capacity (n rows : Z) (Hn : is_u64 n) (Hrows : 0 <= rows <= 63) :
  forest_rows_from_node_count n = Ok rows <-> rows <= 62 /\ forest_capacity rows = Ok n.
Proof.
  rewrite forest_capacity_eq by done. unfold forest_rows_from_node_count. split.
  - intros (? & [-> Hu]%ok_or_ok%checked_add_Some & H)%bind_ok.
    apply bind_ok in H as (? & Hq%require_ok & [-> _]%ok_or_ok%try_uint_Some).
    apply negb_true_iff, orb_false_iff in Hq as [_ Hp%negb_false_iff].
    apply power_of_two_inv in Hp.
    pose proof (Z.log2_lt_pow2 (n + 1) 64 ltac:(lia)) as Hl. destruct Hu.
    split; [lia|]. f_equal. replace (Z.log2 (n + 1) - 1 + 1) with (Z.log2 (n + 1)) by lia. lia.
  - intros [H62 [= <-]]. apply forest_rows_of_capacity. lia.
Qed.

Lemma forest_rows_inverts_capacity_witness : forest_rows_from_node_count 127 = Ok 6.
Proof.
  apply (forest_rows_inverts_capacity 127 6); [vm_compute; split; congruence | lia |].
  split; [lia | reflexivity].
Defined.
End Positions.
