(* ===== verification/JournalEntry.v ===== *)
(** The mutation record of one block ([src/src/forest_journal.rs]): node states,
    forest and index deltas, journal entries, and the byte format in which the
    write-ahead journal stores them. *)

From S2P Require Import Prelude Bytes.

Module JournalEntry.

(** ** Data *)

(** [bitcoin::OutPoint] *)
Record OutPoint := { txid : bytes; vout : Z }.

#[export] Instance OutPoint_eq_dec : EqDecision OutPoint.
Proof. solve_decision. Defined.
#[export] Instance OutPoint_countable : Countable OutPoint.
Proof.
  refine (inj_countable' (fun o => (txid o, vout o)) (fun p => {| txid := p.1; vout := p.2 |}) _).
  by intros [].
Defined.

Record JournalNodeState := { ready : bool; spent : bool; hash : bytes }.

Definition UNINITIALIZED : JournalNodeState :=
  {| ready := false; spent := false; hash := zeros 32 |}.

#[export] Instance JournalNodeState_eq_dec : EqDecision JournalNodeState.
Proof. solve_decision. Defined.
#[export] Instance JournalNodeState_inhabited : Inhabited JournalNodeState :=
  populate UNINITIALIZED.

Record JournalForestDelta :=
  { fd_position : Z; before : JournalNodeState; after : JournalNodeState }.

Record JournalIndexDelta := { outpoint : OutPoint; id_position : Z }.

Record JournalEntryData := {
  height : Z;
  block_hash : bytes;
  num_leaves : Z;
  previous_block_hash : bytes;
  forest : list JournalForestDelta;
  removed : list JournalIndexDelta;
  added : list JournalIndexDelta;
  forest_rows : option Z
}.

Definition previous_num_leaves (e : JournalEntryData) : result Z :=
  ok_or "journal addition count exceeds numleaves"
    (checked_sub (num_leaves e) (zlength (added e))).

Inductive JournalStatus := Forward | RolledBack.

#[export] Instance JournalStatus_eq_dec : EqDecision JournalStatus.
Proof. solve_decision. Defined.

Definition status_from_byte (byte : Z) : result JournalStatus :=
  if byte =? 0 then Ok Forward
  else if byte =? 1 then Ok RolledBack
  else Err "unknown journal status".

Definition status_to_byte (s : JournalStatus) : Z :=
  match s with Forward => 0 | RolledBack => 1 end.

(** ** Encoding *)

Definition push_len (length : Z) : result bytes :=
  l ← ok_or "journal vector exceeds u32" (try_uint 32 length); Ok (le_bytes 4 l).

Definition encode_state (state : JournalNodeState) : bytes :=
  Z.lor (Z.b2z (ready state)) (Z.shiftl (Z.b2z (spent state)) 1) :: hash state.

Definition encode_forest_delta (delta : JournalForestDelta) : bytes :=
  le_bytes 8 (fd_position delta) ++ encode_state (before delta) ++ encode_state (after delta).

Definition encode_index_delta (delta : JournalIndexDelta) : bytes :=
  txid (outpoint delta) ++ le_bytes 4 (vout (outpoint delta)) ++ le_bytes 8 (id_position delta).

(** [encode_entry_into]: the bytes it appends. *)
Definition encode_entry (entry : JournalEntryData) : result bytes :=
  let head := block_hash entry ++ le_bytes 8 (num_leaves entry) ++ le_bytes 4 (height entry)
              ++ previous_block_hash entry in
  forest_len ← push_len (zlength (forest entry));
  removed_len ← push_len (zlength (removed entry));
  added_len ← push_len (zlength (added entry));
  layout ← match forest_rows entry with
           | Some rows => require (rows <=? 63) "invalid journal forest rows";; Ok [rows]
           | None => Ok []
           end;
  Ok (head ++ forest_len ++ enc_list encode_forest_delta (forest entry)
        ++ removed_len ++ enc_list encode_index_delta (removed entry)
        ++ added_len ++ enc_list encode_index_delta (added entry) ++ layout).

(** ** Decoding *)

Definition ended : string := "journal entry ended unexpectedly".
Definition take_array (n : nat) : reader bytes := take_exact ended n.
Definition take_u32 : reader Z := take_le ended 4.
Definition take_u64 : reader Z := take_le ended 8.

Definition take_len (element_size : Z) : reader Z :=
  length ← take_u32;
  left ← remaining;
  reader_require (length <=? left / element_size) "journal vector length exceeds remaining payload";;
  mret length.

Definition decode_state : reader JournalNodeState :=
  flags ← take_array 1;
  let flags := default 0 (head flags) in
  reader_require (Z.land flags (Z.lxor 3 255) =? 0) "journal node has unknown flags";;
  hash ← take_array 32;
  mret {| ready := negb (Z.land flags 1 =? 0); spent := negb (Z.land flags 2 =? 0);
          hash := hash |}.

Definition decode_forest_delta : reader JournalForestDelta :=
  position ← take_u64;
  before ← decode_state;
  after ← decode_state;
  mret {| fd_position := position; before := before; after := after |}.

Definition decode_index_delta : reader JournalIndexDelta :=
  txid ← take_array 32;
  vout ← take_u32;
  position ← take_u64;
  mret {| outpoint := {| txid := txid; vout := vout |}; id_position := position |}.

Definition decode_vec {A} (element_size : Z) (p : reader A) : reader (list A) :=
  len ← take_len element_size; reader_repeat (Z.to_nat len) p.

Definition decode_body : reader JournalEntryData :=
  block_hash ← take_array 32;
  num_leaves ← take_u64;
  height ← take_u32;
  previous_block_hash ← take_array 32;
  forest ← decode_vec 74 decode_forest_delta;
  removed ← decode_vec 44 decode_index_delta;
  added ← decode_vec 44 decode_index_delta;
  mret {| height := height; block_hash := block_hash; num_leaves := num_leaves;
          previous_block_hash := previous_block_hash; forest := forest;
          removed := removed; added := added; forest_rows := None |}.

Definition set_forest_rows (e : JournalEntryData) (rows : option Z) : JournalEntryData :=
  {| height := height e; block_hash := block_hash e; num_leaves := num_leaves e;
     previous_block_hash := previous_block_hash e; forest := forest e;
     removed := removed e; added := added e; forest_rows := rows |}.

Definition decode_entry (bs : bytes) : result JournalEntryData :=
  '(e, rest) ← decode_body bs;
  match rest with
  | [] => Ok (set_forest_rows e None)
  | [rows] => if rows <=? 63 then Ok (set_forest_rows e (Some rows))
              else Err "journal entry has invalid forest layout or trailing bytes"
  | _ => Err "journal entry has invalid forest layout or trailing bytes"
  end.

(** ** Well-formed values: what the Rust types guarantee *)

Definition outpoint_ok (o : OutPoint) : Prop := hash_ok (txid o) /\ is_u32 (vout o).
Definition state_ok (s : JournalNodeState) : Prop := hash_ok (hash s).
Definition forest_delta_ok (d : JournalForestDelta) : Prop :=
  is_u64 (fd_position d) /\ state_ok (before d) /\ state_ok (after d).
Definition index_delta_ok (d : JournalIndexDelta) : Prop :=
  outpoint_ok (outpoint d) /\ is_u64 (id_position d).

#[export] Instance outpoint_ok_dec o : Decision (outpoint_ok o).
Proof. unfold outpoint_ok. apply _. Defined.
#[export] Instance state_ok_dec s : Decision (state_ok s).
Proof. unfold state_ok. apply _. Defined.
#[export] Instance forest_delta_ok_dec d : Decision (forest_delta_ok d).
Proof. unfold forest_delta_ok. apply _. Defined.
#[export] Instance index_delta_ok_dec d : Decision (index_delta_ok d).
Proof. unfold index_delta_ok. apply _. Defined.

Record entry_ok (e : JournalEntryData) : Prop := {
  ok_block_hash : hash_ok (block_hash e);
  ok_num_leaves : is_u64 (num_leaves e);
  ok_height : is_u32 (height e);
  ok_previous : hash_ok (previous_block_hash e);
  ok_forest : Forall forest_delta_ok (forest e) /\ is_u32 (zlength (forest e));
  ok_removed : Forall index_delta_ok (removed e) /\ is_u32 (zlength (removed e));
  ok_added : Forall index_delta_ok (added e) /\ is_u32 (zlength (added e));
  ok_rows : forall rows, forest_rows e = Some rows -> 0 <= rows <= 63
}.

(** ** The codecs *)

Lemma is_uint_of w n x : w = 8 * Z.of_nat n -> is_uint w x -> is_uint (8 * Z.of_nat n) x.
Proof. by intros ->. Qed.

Lemma status_roundtrip s : status_from_byte (status_to_byte s) = Ok s.
Proof. by destruct s. Qed.

Lemma state_flags b : is_u8 b -> Z.land b (Z.lxor 3 255) = 0 ->
  b = Z.lor (Z.b2z (negb (Z.land b 1 =? 0))) (Z.shiftl (Z.b2z (negb (Z.land b 2 =? 0))) 1).
Proof.
  intros Hb H.
  assert (b = 0 \/ b = 1 \/ b = 2 \/ b = 3) as Hc; [|by destruct Hc as [-> | [-> | [-> | ->]]]].
  unfold is_uint in Hb. change (Z.lxor 3 255) with 252 in H.
  assert (Z.shiftr b 2 = 0) as H2.
  { apply Z.bits_inj'. intros n Hn. rewrite Z.shiftr_spec, Z.bits_0 by lia.
    apply (f_equal (fun z => Z.testbit z (n + 2))) in H.
    rewrite Z.land_spec, Z.bits_0 in H.
    destruct (Z.ltb_spec (n + 2) 8); [|by apply (testbit_above 8); lia].
    rewrite andb_false_iff in H. destruct H as [H|H]; [done|].
    assert (n = 0 \/ n = 1 \/ n = 2 \/ n = 3 \/ n = 4 \/ n = 5) as Hn' by lia.
    destruct Hn' as [-> | [-> | [-> | [-> | [-> | ->]]]]]; discriminate H. }
  rewrite Z.shiftr_div_pow2 in H2 by lia. change (2 ^ 2) with 4 in H2.
  assert (b < 4) by (apply Z.div_small_iff in H2; lia). lia.
Qed.

Lemma encode_state_flags r s : is_u8 (Z.lor (Z.b2z r) (Z.shiftl (Z.b2z s) 1)).
Proof. destruct r, s; by_decide. Qed.

Lemma state_codec : codec_ok state_ok encode_state decode_state.
Proof.
  split.
  - intros [r s h] rest [Hh Hb]. unfold decode_state, encode_state. cbn [ready spent hash] in *.
    change ((?x :: h) ++ rest) with ([x] ++ (h ++ rest)).
    erewrite reader_bind_step by (by apply take_exact_app). cbn [head default].
    erewrite reader_bind_step by (apply reader_require_true; by destruct r, s).
    erewrite reader_bind_step by (by apply take_exact_app). by destruct r, s.
  - intros bs a rest Hbs H. unfold decode_state, take_array in H. inv_reader.
    destruct x as [|b [|? ?]]; [done| |done]. cbn [head default option_map id] in *.
    match goal with H : (_ =? 0) = true |- _ => apply Z.eqb_eq in H; rename H into Hf end.
    match goal with H : bytes_ok [b] |- _ => apply bytes_ok_cons in H as [Hb _] end.
    unfold encode_state. cbn [ready spent hash]. rewrite <- state_flags by done. done.
  - intros [r s h] [Hh Hb]. unfold encode_state. cbn. apply bytes_ok_cons.
    split; [apply encode_state_flags | done].
Qed.

Lemma forest_delta_codec : codec_ok forest_delta_ok encode_forest_delta decode_forest_delta.
Proof.
  split.
  - intros [p b a] rest (Hp & Hb & Ha). unfold decode_forest_delta, encode_forest_delta.
    cbn [fd_position before after] in *.
    read_step (take_le_codec ended 8). read_step state_codec. read_step state_codec. done.
  - intros bs a rest Hbs H. unfold decode_forest_delta, take_u64 in H. inv_reader.
    unread_step (take_le_codec ended 8).
    unread_step state_codec.
    unread_step state_codec.
    split; [unfold encode_forest_delta; by rewrite <- !app_assoc | by repeat (split; [done|])].
  - intros [p b a] (Hp & Hb & Ha). unfold encode_forest_delta.
    cbn [fd_position before after] in *. rewrite !bytes_ok_app. repeat split; [auto| |]; by apply (enc_bytes state_codec).
Qed.

Lemma index_delta_codec : codec_ok index_delta_ok encode_index_delta decode_index_delta.
Proof.
  split.
  - intros [[t v] p] rest [[Ht Hv] Hp]. unfold decode_index_delta, encode_index_delta.
    cbn [outpoint txid vout id_position] in *.
    rewrite <- !app_assoc. erewrite reader_bind_step by (apply take_exact_app, Ht).
    read_step (take_le_codec ended 4). read_step (take_le_codec ended 8). done.
  - intros bs a rest Hbs H. unfold decode_index_delta, take_array, take_u32, take_u64 in H.
    inv_reader.
    unread_step (take_le_codec ended 4).
    unread_step (take_le_codec ended 8).
    split; [unfold encode_index_delta; by rewrite <- !app_assoc|].
    split; [split; [by split | done] | done].
  - intros [[t v] p] [[[_ Ht] Hv] Hp]. unfold encode_index_delta.
    cbn [outpoint txid vout id_position] in *. rewrite !bytes_ok_app. auto.
Qed.

Lemma length_encode_state s : state_ok s -> length (encode_state s) = 33%nat.
Proof. intros [H _]. unfold encode_state. cbn. by rewrite H. Qed.

Lemma length_encode_forest_delta d : forest_delta_ok d -> length (encode_forest_delta d) = 74%nat.
Proof.
  intros (_ & Hb & Ha). unfold encode_forest_delta.
  by rewrite !length_app, length_le_bytes, !length_encode_state.
Qed.

Lemma length_encode_index_delta d : index_delta_ok d -> length (encode_index_delta d) = 44%nat.
Proof.
  intros [[[Ht _] _] _]. unfold encode_index_delta. by rewrite !length_app, !length_le_bytes, Ht.
Qed.

(** A length-prefixed vector of a codec whose elements take [k] bytes each. *)
Section Vec.
Context {A : Type} (wf : A -> Prop) (enc : A -> bytes) (dec : reader A) (k : nat).
Context (Hc : codec_ok wf enc dec) (Hk : (0 < k)%nat).
Context (Hlen : forall a, wf a -> length (enc a) = k).

Definition vec_ok (l : list A) : Prop := Forall wf l /\ is_u32 (zlength l).
Definition enc_vec (l : list A) : bytes := le_bytes 4 (zlength l) ++ enc_list enc l.

Lemma push_len_ok l : is_u32 (zlength l) -> push_len (@zlength A l) = Ok (le_bytes 4 (zlength l)).
Proof. intros H. unfold push_len, try_uint. by rewrite decide_True. Qed.

Lemma vec_codec : codec_ok vec_ok enc_vec (decode_vec (Z.of_nat k) dec).
Proof.
  split.
  - intros l rest [Hl Hn]. unfold decode_vec, enc_vec. rewrite <- app_assoc.
    erewrite (reader_bind_step (take_len _)).
    2: { unfold take_len. erewrite reader_bind_step by (apply (dec_enc (take_le_codec ended 4)); exact Hn).
         erewrite reader_bind_step by reflexivity.
         erewrite reader_bind_step; [reflexivity|]. apply reader_require_true.
         apply Z.leb_le. rewrite zlength_app.
         replace (zlength (enc_list enc l)) with (zlength l * Z.of_nat k).
         2: { unfold zlength. erewrite length_enc_list by eassumption. lia. }
         rewrite Z.div_add_l by lia. pose proof (Z.div_pos (zlength rest) (Z.of_nat k)).
         pose proof (zlength_nonneg rest). lia. }
    unfold zlength. rewrite Nat2Z.id. by eapply reader_repeat_enc.
  - intros bs l rest Hbs H. unfold decode_vec, take_len in H. inv_reader.
    unread_step (take_le_codec ended 4).
    unfold remaining in *. inv_ok. simplify_eq.
    eapply reader_repeat_dec in H0 as (-> & Hl & Hlen'); [|done|done].
    match type of Hlen' with _ = Z.to_nat ?n => assert (n = zlength l) as -> end.
    { unfold zlength. rewrite Hlen'. unfold is_uint in *. lia. }
    split; [unfold enc_vec; by rewrite <- app_assoc | by split].
  - intros l [Hl Hn]. unfold enc_vec. apply bytes_ok_app. split; [auto|].
    by eapply bytes_ok_enc_list.
Qed.
End Vec.

Definition forest_vec_codec :=
  vec_codec _ _ _ 74 forest_delta_codec ltac:(lia) length_encode_forest_delta.
Definition index_vec_codec :=
  vec_codec _ _ _ 44 index_delta_codec ltac:(lia) length_encode_index_delta.

Definition encode_body (e : JournalEntryData) : bytes :=
  block_hash e ++ le_bytes 8 (num_leaves e) ++ le_bytes 4 (height e) ++ previous_block_hash e
  ++ enc_vec encode_forest_delta (forest e) ++ enc_vec encode_index_delta (removed e)
  ++ enc_vec encode_index_delta (added e).

Definition body_ok (e : JournalEntryData) : Prop := entry_ok e /\ forest_rows e = None.

Lemma body_codec : codec_ok body_ok encode_body decode_body.
Proof.
  split.
  - intros e rest [He Hr]. destruct He. unfold decode_body, encode_body.
    rewrite <- !app_assoc. erewrite reader_bind_step by (by apply (dec_enc (take_exact_codec ended 32))).
    read_step (take_le_codec ended 8). read_step (take_le_codec ended 4).
    rewrite <- ?app_assoc. erewrite reader_bind_step by (by apply (dec_enc (take_exact_codec ended 32))).
    read_step forest_vec_codec. read_step index_vec_codec. read_step index_vec_codec.
    destruct e. cbn in *. by subst.
  - intros bs e rest Hbs H. unfold decode_body, take_array, take_u32, take_u64 in H. inv_reader.
    unread_step (take_le_codec ended 8).
    unread_step (take_le_codec ended 4).
    unread_step forest_vec_codec.
    unread_step index_vec_codec.
    unread_step index_vec_codec.
    split; [unfold encode_body; by rewrite <- !app_assoc|].
    split; [|done]. split; try done; by split.
  - intros e [He _]. destruct He. unfold encode_body. rewrite !bytes_ok_app.
    repeat split; auto; first [apply ok_block_hash0 | apply ok_previous0
      | by apply (enc_bytes forest_vec_codec) | by apply (enc_bytes index_vec_codec)].
Qed.

Lemma set_forest_rows_ok e : entry_ok e -> body_ok (set_forest_rows e None).
Proof. intros []. split; [by split|done]. Qed.

Lemma encode_entry_eq e : entry_ok e ->
  encode_entry e =
    Ok (encode_body (set_forest_rows e None) ++ match forest_rows e with Some r => [r] | None => [] end).
Proof.
  intros []. unfold encode_entry, encode_body, enc_vec. cbn [set_forest_rows block_hash num_leaves height
    previous_block_hash forest removed added].
  rewrite !push_len_ok by naive_solver. step_ok.
  destruct (forest_rows e) as [r|] eqn:E.
  - replace (r <=? 63) with true by (symmetry; apply Z.leb_le; naive_solver). step_ok.
    by rewrite <- !app_assoc.
  - step_ok. by rewrite <- !app_assoc.
Qed.

(** Encoding succeeds and decodes to the entry; decoding accepts nothing but encodings. *)
Lemma encode_entry_roundtrip e : entry_ok e ->
  exists enc, encode_entry e = Ok enc /\ bytes_ok enc /\ decode_entry enc = Ok e.
Proof.
  intros He. rewrite encode_entry_eq by done. eexists. split; [done|].
  pose proof (set_forest_rows_ok e He) as Hb. split.
  + apply bytes_ok_app. split; [by apply (enc_bytes body_codec)|].
    destruct (forest_rows e) as [r|] eqn:E; [|done]. destruct He. specialize (ok_rows0 r E).
    apply bytes_ok_cons. split; [unfold is_uint; lia | done].
  + unfold decode_entry. rewrite (dec_enc body_codec) by done. step_ok.
    destruct He. destruct e as [? ? ? ? ? ? ? [r|]]; cbn in *; [|done].
    by replace (r <=? 63) with true by (symmetry; apply Z.leb_le; naive_solver).
Qed.

Lemma decode_entry_canonical e bs : bytes_ok bs -> decode_entry bs = Ok e -> entry_ok e /\ encode_entry e = Ok bs.
Proof.
  intros Hbs H. unfold decode_entry in H. inv_ok. destruct x as [e' rest].
  apply (enc_dec body_codec) in H as [-> [He' Hr']]; [|done].
  assert (entry_ok e /\ e' = set_forest_rows e None
          /\ rest = match forest_rows e with Some r => [r] | None => [] end) as (He & -> & ->).
  { destruct He'. destruct e' as [? ? ? ? ? ? ? ro]; cbn in *; subst ro.
    destruct rest as [|r [|]]; [| |done].
    - injection H0 as <-. split; [by split | done].
    - destruct (r <=? 63) eqn:E; [|done]. injection H0 as <-. apply Z.leb_le in E.
      split; [|done]. split; try done. cbn. intros ? [= <-]. inv_reader.
      match goal with H : bytes_ok [_] |- _ => apply bytes_ok_cons in H as [[? ?] _] end. lia. }
  split; [done|]. by apply encode_entry_eq.
Qed.

(** The journal's entry format loses nothing and has one encoding per entry: [encode]
    of a well-formed entry succeeds and [decode] gives the entry back, and whenever [decode]
    accepts a byte string, that string is exactly what [encode] produces for the decoded
    entry, so no byte string with trailing garbage, unknown flags or a short vector is
    accepted. *)
Theorem entry_codec_canonical (e : JournalEntryData) (bs : bytes) (Hbs : bytes_ok bs) :
  (entry_ok e -> exists enc, encode_entry e = Ok enc /\ bytes_ok enc /\ decode_entry enc = Ok e) /\
  (decode_entry bs = Ok e -> entry_ok e /\ encode_entry e = Ok bs).
Proof.
  split; [apply encode_entry_roundtrip|by apply decode_entry_canonical].
Qed.

Definition sample_hash (b : Z) : bytes := replicate 32 b.
Definition sample_entry : JournalEntryData :=
  {| height := 7; block_hash := sample_hash 1; num_leaves := 5; previous_block_hash := sample_hash 2;
     forest := [{| fd_position := 9; before := UNINITIALIZED;
                   after := {| ready := true; spent := true; hash := sample_hash 3 |} |}];
     removed := [{| outpoint := {| txid := sample_hash 4; vout := 6 |}; id_position := 2 |}];
     added := []; forest_rows := Some 3 |}.

Lemma sample_entry_ok : entry_ok sample_entry.
Proof. split; try by_decide. intros r [= <-]. lia. Qed.

Lemma entry_codec_canonical_witness :
  exists enc, encode_entry sample_entry = Ok enc /\ decode_entry enc = Ok sample_entry.
Proof.
  destruct (entry_codec_canonical sample_entry [] bytes_ok_nil) as [H _].
  destruct (H sample_entry_ok) as (enc & ? & ? & ?). eauto.
Defined.

End JournalEntry.
