(* ===== verification/Forest.v ===== *)
(** The flat forest file ([FlatForest] of [src/src/parallel_forest.rs]): node
    flags, reads and writes through the mapping.  Growing the file is in [Resize].

    The mapped file is a finite map from positions to nodes in which an absent
    position is a zeroed (never written) one. *)

From S2P Require Import Prelude Bytes Positions JournalEntry.
Import Positions.Positions JournalEntry.JournalEntry.

Module Forest.

(** ** Nodes *)

Definition READY : Z := 1.
Definition SPENT : Z := 2.
Definition WRITING : Z := 4.
(** [size_of::<ForestNode>()]: 32 hash bytes and one flag byte. *)
Definition NODE_SIZE : Z := 33.

Record ForestNode := { node_hash : bytes; flags : Z }.
Definition zero_node : ForestNode := {| node_hash := zeros 32; flags := 0 |}.

Record ForestNodeData := { nd_hash : bytes; nd_spent : bool }.

#[export] Instance ForestNode_eq_dec : EqDecision ForestNode.
Proof. solve_decision. Defined.
#[export] Instance ForestNodeData_eq_dec : EqDecision ForestNodeData.
Proof. solve_decision. Defined.

Definition read_ready_node (node : ForestNode) : option ForestNodeData :=
  if Z.land (flags node) READY =? 0 then None
  else Some {| nd_hash := node_hash node; nd_spent := negb (Z.land (flags node) SPENT =? 0) |}.

(** ** The mapped file and its resize marker *)

Record FlatForest := {
  ff_nodes : gmap Z ForestNode;
  ff_count : Z;
  (** the marker file next to the forest file, when it exists *)
  ff_marker : option bytes
}.

Definition node_at (f : FlatForest) (position : Z) : ForestNode :=
  default zero_node (ff_nodes f !! position).

Definition set_nodes (f : FlatForest) (m : gmap Z ForestNode) : FlatForest :=
  {| ff_nodes := m; ff_count := ff_count f; ff_marker := ff_marker f |}.
Definition set_count (f : FlatForest) (n : Z) : FlatForest :=
  {| ff_nodes := ff_nodes f; ff_count := n; ff_marker := ff_marker f |}.
Definition set_marker (f : FlatForest) (m : option bytes) : FlatForest :=
  {| ff_nodes := ff_nodes f; ff_count := ff_count f; ff_marker := m |}.
Definition put_node (f : FlatForest) (position : Z) (n : ForestNode) : FlatForest :=
  set_nodes f (<[position := n]> (ff_nodes f)).

Definition node (f : FlatForest) (position : Z) : result ForestNode :=
  require (negb (ff_count f <=? position)) "forest position is outside the mapped file";;
  Ok (node_at f position).

Definition try_read (f : FlatForest) (position : Z) : result (option ForestNodeData) :=
  n ← node f position; Ok (read_ready_node n).

(** [READY | if spent { SPENT } else { 0 }] *)
Definition ready_flags (spent : bool) : Z := Z.lor READY (if spent then SPENT else 0).

(** [compare_exchange(0, WRITING)], then the hash, then the final flags. *)
Definition write (f : FlatForest) (position : Z) (value : ForestNodeData) : result FlatForest :=
  n ← node f position;
  require (flags n =? 0) "forest position already has flags";;
  let f := put_node f position {| node_hash := node_hash n; flags := WRITING |} in
  let f := put_node f position {| node_hash := nd_hash value; flags := WRITING |} in
  Ok (put_node f position
        {| node_hash := nd_hash value; flags := ready_flags (nd_spent value) |}).

Definition journal_state (f : FlatForest) (position : Z) : result JournalNodeState :=
  o ← try_read f position;
  Ok match o with
     | Some n => {| ready := true; spent := nd_spent n; hash := nd_hash n |}
     | None => UNINITIALIZED
     end.

Definition set_journal_state (f : FlatForest) (position : Z) (state : JournalNodeState)
  : result FlatForest :=
  n ← node f position;
  let f := put_node f position {| node_hash := node_hash n; flags := WRITING |} in
  let f := put_node f position {| node_hash := hash state; flags := WRITING |} in
  Ok (put_node f position
        {| node_hash := hash state;
           flags := if ready state then ready_flags (spent state) else 0 |}).

(** ** The kernel *)

(** What the kernel answers to [posix_fallocate] and to [fallocate] with
    [FALLOC_FL_PUNCH_HOLE]. *)
Record Kernel := { fallocate_ok : Z -> Z -> bool; punch_hole_ok : Z -> Z -> bool }.

(** ** Reading back what was written *)

Lemma node_at_put f p q n :
  node_at (put_node f p n) q = if decide (p = q) then n else node_at f q.
Proof.
  unfold node_at, put_node. cbn. case_decide as E; [subst; by rewrite lookup_insert_eq|].
  by rewrite lookup_insert_ne.
Qed.

Lemma node_ok f p n : node f p = Ok n <-> p < ff_count f /\ n = node_at f p.
Proof.
  unfold node, require. destruct (Z.leb_spec (ff_count f) p); cbn; [|naive_solver].
  split; [done|lia].
Qed.

Lemma node_in f p : p < ff_count f -> node f p = Ok (node_at f p).
Proof. intros. by apply node_ok. Qed.

(** The state a journal delta records for a node. *)
Definition state_of (n : ForestNode) : JournalNodeState :=
  match read_ready_node n with
  | Some d => {| ready := true; spent := nd_spent d; hash := nd_hash d |}
  | None => UNINITIALIZED
  end.

Definition journal_node (s : JournalNodeState) : ForestNode :=
  {| node_hash := hash s; flags := if ready s then ready_flags (spent s) else 0 |}.

Lemma journal_state_eq f p : p < ff_count f -> journal_state f p = Ok (state_of (node_at f p)).
Proof.
  intros H. unfold journal_state, try_read, state_of. rewrite node_in by done. by step_ok.
Qed.

Lemma try_read_eq f p : p < ff_count f -> try_read f p = Ok (read_ready_node (node_at f p)).
Proof. intros H. unfold try_read. by rewrite node_in. Qed.

Lemma put_node_twice f p n m : put_node (put_node f p n) p m = put_node f p m.
Proof. unfold put_node, set_nodes. cbn. by rewrite insert_insert_eq. Qed.

Lemma set_journal_state_eq f p s : p < ff_count f ->
  set_journal_state f p s = Ok (put_node f p (journal_node s)).
Proof.
  intros H. unfold set_journal_state. rewrite node_in by done. step_ok. by rewrite !put_node_twice.
Qed.

Lemma read_ready_flags h b :
  read_ready_node {| node_hash := h; flags := ready_flags b |} = Some {| nd_hash := h; nd_spent := b |}.
Proof. by destruct b. Qed.

(** A state that [journal_state] can report: one that is not ready says nothing
    about the hash. *)
Definition state_canonical (s : JournalNodeState) : Prop :=
  if ready s then True else s = UNINITIALIZED.

Lemma state_of_journal_node s : state_canonical s -> state_of (journal_node s) = s.
Proof.
  unfold state_canonical, state_of, journal_node. destruct s as [[] b h]; cbn [ready spent hash].
  - intros _. by rewrite read_ready_flags.
  - by intros [= -> ->].
Qed.

Lemma state_of_canonical n : state_canonical (state_of n).
Proof. unfold state_canonical, state_of. by destruct (read_ready_node n). Qed.

(** ** Bulk updates of the mapping *)

Lemma lookup_foldl_insert (m : gmap Z ForestNode) d (g : Z -> ForestNode) n p : 0 <= n ->
  foldl (fun m i => <[d + i := g i]> m) m (zrange 0 n) !! p =
    if decide (d <= p < d + n) then Some (g (p - d)) else m !! p.
Proof.
  revert n. apply natlike_ind.
  - rewrite zrange_nil by lia. cbn. by rewrite decide_False by lia.
  - intros n Hn IH. unfold Z.succ. rewrite zrange_snoc, foldl_app by lia. cbn.
    destruct (decide (d + n = p)) as [<-|Hne].
    + rewrite lookup_insert_eq, decide_True by lia. do 2 f_equal. lia.
    + rewrite lookup_insert_ne, IH by done.
      destruct (decide (d <= p < d + n)); [by rewrite decide_True by lia | by rewrite decide_False by lia].
Qed.

(** ** The rows of a layout *)

#[export] Instance valid_dec rows r o : Decision (valid rows r o).
Proof.
  destruct (decide ((0 <= r <= rows) /\ (0 <= o < 2 ^ (rows - r)))) as [[H1 H2]|H].
  - left. by split.
  - right. intros []. tauto.
Defined.

(** ** Properties *)

Definition full_kernel : Kernel := {| fallocate_ok := fun _ _ => true; punch_hole_ok := fun _ _ => false |}.
Definition sample_node (b : Z) : ForestNode := {| node_hash := replicate 32 b; flags := READY |}.
Definition small_forest : FlatForest :=
  {| ff_nodes := <[0 := sample_node 1]> (<[1 := sample_node 2]> (<[2 := sample_node 3]> ∅));
     ff_count := 3; ff_marker := None |}.

Lemma small_forest_end p : 2 ^ (1 + 1) - 1 <= p -> node_at small_forest p = zero_node.
Proof.
  intros Hp. change (2 ^ (1 + 1) - 1) with 3 in Hp. unfold node_at, small_forest, ff_nodes.
  by rewrite !lookup_insert_ne, lookup_empty by lia.
Qed.

(** Node publication: a bootstrap [write] succeeds exactly on an unwritten in-range node and
    is then read back, so a second write of the same position fails; [set_journal_state]
    followed by [journal_state] returns the state, and restoring the state that
    [journal_state] reported makes the node report it again whatever was stored in between. *)
Theorem node_publication (f : FlatForest) (p : Z) (v v' : ForestNodeData) (s s' : JournalNodeState)
    (Hp : p < ff_count f) (Hs : state_canonical s) :
  (is_ok (write f p v) = true <-> flags (node_at f p) = 0) /\
  (forall f', write f p v = Ok f' -> try_read f' p = Ok (Some v) /\ is_ok (write f' p v') = false) /\
  (forall f', set_journal_state f p s = Ok f' -> journal_state f' p = Ok s) /\
  (forall s0 f1 f2, journal_state f p = Ok s0 -> set_journal_state f p s' = Ok f1 ->
     set_journal_state f1 p s0 = Ok f2 -> journal_state f2 p = Ok s0).
Proof.
  unfold write. rewrite node_in by done. step_ok. rewrite !put_node_twice. split_and!.
  - destruct (Z.eqb_spec (flags (node_at f p)) 0); cbn; split; done.
  - intros f' H. destruct (flags (node_at f p) =? 0); [|done]. cbn in H. injection H as <-.
    split.
    + rewrite try_read_eq by done. rewrite node_at_put, decide_True by done.
      rewrite read_ready_flags. by destruct v.
    + rewrite node_in by done. step_ok. rewrite node_at_put, decide_True by done.
      by destruct (nd_spent v).
  - intros f'. rewrite set_journal_state_eq by done. intros [= <-].
    rewrite journal_state_eq, node_at_put, decide_True by done. by rewrite state_of_journal_node.
  - intros s0 f1 f2. rewrite journal_state_eq, set_journal_state_eq by done. intros [= <-] [= <-].
    rewrite set_journal_state_eq by done. intros [= <-].
    rewrite journal_state_eq, node_at_put, decide_True by done.
    by rewrite state_of_journal_node by apply state_of_canonical.
Qed.

Lemma node_publication_witness :
  is_ok (write (set_count small_forest 7) 5 {| nd_hash := zeros 32; nd_spent := true |}) = true.
Proof.
  apply (node_publication (set_count small_forest 7) 5 {| nd_hash := zeros 32; nd_spent := true |}
    {| nd_hash := zeros 32; nd_spent := true |} UNINITIALIZED UNINITIALIZED); [by_decide|done|].
  reflexivity.
Defined.
End Forest.
