(* ===== verification/Resize.v ===== *)
(** Growing the forest file online ([FlatForest::resize_to_rows] and [resume_resize] of
    [src/src/parallel_forest.rs]): the marker file, the relocation of the rows and the
    order in which they reach the disk.

    The operations run on a [ForestDisk], which is what the process sees together with what
    the disk may still hold instead: positions stored through the mapping since the last
    [map.flush], holes punched and lengths set since the last [sync_data], and earlier states
    of the marker file that its own sync or its directory's has not superseded.  Every system
    call is one step, a run lists the disks that it passes through in the order of the code,
    and [crash_image] says which files each of them may leave behind. *)

From S2P Require Import Prelude Bytes Positions JournalEntry Forest.
Import Positions.Positions JournalEntry.JournalEntry Forest.Forest.

Module Resize.

(** ** The resize marker *)

(** [b"FRSIZE01"] *)
Definition RESIZE_MARKER_MAGIC : bytes := [70; 82; 83; 73; 90; 69; 48; 49].
Definition RESIZE_MARKER_LEN : Z := 11.
Definition RESIZE_STAGE_COPYING : Z := 0.
Definition RESIZE_STAGE_CLEARING : Z := 1.

Record ResizeMarker := { old_rows : Z; new_rows : Z; stage : Z }.

Definition read_resize_marker (f : FlatForest) : result (option ResizeMarker) :=
  match ff_marker f with
  | None => Ok None
  | Some bs =>
      require ((zlength bs =? RESIZE_MARKER_LEN)
               && bool_decide (take 8 bs = RESIZE_MARKER_MAGIC)) "invalid forest resize marker";;
      let marker := {| old_rows := default 0 (bs !! 8%nat); new_rows := default 0 (bs !! 9%nat);
                       stage := default 0 (bs !! 10%nat) |} in
      require (negb (new_rows marker <=? old_rows marker)
               && ((stage marker =? RESIZE_STAGE_COPYING) || (stage marker =? RESIZE_STAGE_CLEARING)))
        "invalid forest resize state";;
      Ok (Some marker)
  end.

Definition marker_bytes (m : ResizeMarker) : bytes :=
  RESIZE_MARKER_MAGIC ++ [old_rows m; new_rows m; stage m].

(** [SteadyStateForest::legacy_journal_rows]: the layout of records that predate
    the layout byte, looked up before opening finishes a resize. *)
Definition legacy_journal_rows (f : FlatForest) : result Z :=
  m ← read_resize_marker f;
  match m with
  | Some marker => Ok (old_rows marker)
  | None => forest_rows_from_node_count (ff_count f)
  end.

(** ** What the process sees and what the disk may hold *)

Record ForestDisk := {
  (** the mapping, with its node count, and the marker file *)
  fd_forest : FlatForest;
  (** nodes in the file *)
  fd_len : Z;
  (** first position and number of the nodes stored through the mapping, not flushed *)
  fd_stores : list (Z * Z);
  (** the same of the holes, not synced *)
  fd_holes : list (Z * Z);
  (** lengths and marker files that the disk may still have instead *)
  fd_lens : list Z;
  fd_markers : list (option bytes)
}.

Definition touched (ranges : list (Z * Z)) (p : Z) : Prop := Exists (fun an => an.1 <= p < an.1 + an.2) ranges.

(** The files that a crash may leave: a node that was touched and not flushed holds anything,
    and there is nothing past the end. *)
Record crash_image (d : ForestDisk) (f : FlatForest) : Prop := {
  ci_nodes : forall p, p < ff_count f -> ~ touched (fd_stores d) p -> ~ touched (fd_holes d) p ->
    node_at f p = node_at (fd_forest d) p;
  ci_end : forall p, ff_count f <= p -> node_at f p = zero_node;
  ci_count : ff_count f = fd_len d \/ ff_count f ∈ fd_lens d;
  ci_marker : ff_marker f = ff_marker (fd_forest d) \/ ff_marker f ∈ fd_markers d
}.

(** A forest whose nodes at [stores] are not flushed, and one that was just opened. *)
Definition dirty_forest (f : FlatForest) (stores : list (Z * Z)) : ForestDisk :=
  {| fd_forest := f; fd_len := ff_count f; fd_stores := stores; fd_holes := []; fd_lens := []; fd_markers := [] |}.
Definition opened_forest (f : FlatForest) : ForestDisk := dirty_forest f [].

(** ** Programs *)

(** The disks after each step, and the end. *)
Definition DiskM (A : Type) : Type := ForestDisk -> list ForestDisk * (ForestDisk * result A).

#[export] Instance disk_ret : MRet DiskM := fun A a d => ([], (d, Ok a)).
#[export] Instance disk_bind : MBind DiskM := fun A B k m d =>
  match m d with
  | (passed, (d, Ok a)) => ((passed ++ (k a d).1), (k a d).2)
  | (passed, (d, Err e)) => (passed, (d, Err e))
  end.
Definition attempt {A} (r : result A) : DiskM A := fun d => ([], (d, r)).
Definition mapping : DiskM FlatForest := fun d => ([], (d, Ok (fd_forest d))).
Definition effect (g : ForestDisk -> ForestDisk) : DiskM unit := fun d => ([g d], (g d, Ok tt)).

Fixpoint for_each {A} (l : list A) (body : A -> DiskM unit) : DiskM unit :=
  match l with
  | [] => mret tt
  | a :: l => body a;; for_each l body
  end.

(** What a program makes of a forest that was just opened. *)
Definition run_on {A} (m : DiskM A) (f : FlatForest) : result FlatForest :=
  match (m (opened_forest f)).2 with (d, Ok _) => Ok (fd_forest d) | (_, Err e) => Err e end.

(** ** System calls *)

(** [self.map.flush()]. *)
Definition map_flush : DiskM unit := effect (fun d =>
  {| fd_forest := fd_forest d; fd_len := fd_len d; fd_stores := []; fd_holes := fd_holes d; fd_lens := fd_lens d; fd_markers := fd_markers d |}).
(** [self.file.sync_data()]. *)
Definition sync_data : DiskM unit := effect (fun d =>
  {| fd_forest := fd_forest d; fd_len := fd_len d; fd_stores := fd_stores d; fd_holes := []; fd_lens := []; fd_markers := fd_markers d |}).
Definition set_len (n : Z) : DiskM unit := effect (fun d =>
  {| fd_forest := fd_forest d; fd_len := n; fd_stores := fd_stores d; fd_holes := fd_holes d; fd_lens := fd_len d :: fd_lens d; fd_markers := fd_markers d |}).
Definition remap (n : Z) : DiskM unit := effect (fun d =>
  {| fd_forest := set_count (fd_forest d) n; fd_len := fd_len d; fd_stores := fd_stores d; fd_holes := fd_holes d; fd_lens := fd_lens d; fd_markers := fd_markers d |}).

Definition stored (d : ForestDisk) (range : Z * Z) (f : FlatForest) : ForestDisk :=
  {| fd_forest := f; fd_len := fd_len d; fd_stores := range :: fd_stores d; fd_holes := fd_holes d; fd_lens := fd_lens d; fd_markers := fd_markers d |}.
Definition punched (d : ForestDisk) (range : Z * Z) (f : FlatForest) : ForestDisk :=
  {| fd_forest := f; fd_len := fd_len d; fd_stores := fd_stores d; fd_holes := range :: fd_holes d; fd_lens := fd_lens d; fd_markers := fd_markers d |}.

(** A memmove of whole nodes: it reads its source before it writes, and panics outside the mapping. *)
Definition copied (f : FlatForest) (source len destination : Z) : result FlatForest :=
  require ((source + len <=? ff_count f) && (destination + len <=? ff_count f))
    "copy_within out of range";;
  Ok (set_nodes f
        (foldl (fun m i => <[destination + i := node_at f (source + i)]> m) (ff_nodes f)
               (zrange 0 len))).
(** [self.map.copy_within(..)]. *)
Definition copy_within (source len destination : Z) : DiskM unit :=
  f ← mapping;
  f ← attempt (copied f source len destination);
  effect (fun d => stored d (destination, len) f).

Definition zero_range (f : FlatForest) (start len : Z) : FlatForest :=
  set_nodes f (foldl (fun m i => <[start + i := zero_node]> m) (ff_nodes f) (zrange 0 len)).
(** [self.map[start..start + len].fill(0)]. *)
Definition fill_zero (start len : Z) : DiskM unit := effect (fun d => stored d (start, len) (zero_range (fd_forest d) start len)).
(** [fallocate] with [FALLOC_FL_PUNCH_HOLE]. *)
Definition punch_hole (start len : Z) : DiskM unit := effect (fun d => punched d (start, len) (zero_range (fd_forest d) start len)).

(** The marker file comes to [m], which the disk may not have: it may have what it could have before. *)
Definition marker_effect (m : option bytes) (others : list (option bytes)) : DiskM unit := effect (fun d =>
  {| fd_forest := set_marker (fd_forest d) m; fd_len := fd_len d; fd_stores := fd_stores d; fd_holes := fd_holes d; fd_lens := fd_lens d;
     fd_markers := others ++ ff_marker (fd_forest d) :: fd_markers d |}).
Definition marker_settles (keep : option bytes -> option bytes -> bool) : DiskM unit := effect (fun d =>
  {| fd_forest := fd_forest d; fd_len := fd_len d; fd_stores := fd_stores d; fd_holes := fd_holes d; fd_lens := fd_lens d;
     fd_markers := base.filter (fun m => keep (ff_marker (fd_forest d)) m = true) (fd_markers d) |}).

Definition exists_ (m : option bytes) : bool := match m with Some _ => true | None => false end.
(** [file.sync_all()]: the contents; the entry of a new file may still be missing. *)
Definition sync_marker : DiskM unit := marker_settles (fun _ m => negb (exists_ m)).
(** [sync_parent_directory]: whether the file is there. *)
Definition sync_parent_directory : DiskM unit := marker_settles (fun now m => Bool.eqb (exists_ now) (exists_ m)).

(** [write_all]: a crash may leave any beginning of what is written to an empty file. *)
Definition beginnings (bs : bytes) : list (option bytes) := (fun n => Some (take n bs)) <$> seq 0 (length bs).

Definition write_resize_marker (m : ResizeMarker) : DiskM unit :=
  f ← mapping;
  attempt (require (negb (exists_ (ff_marker f))) "failed to create marker");;
  marker_effect (Some []) [];;
  marker_effect (Some (marker_bytes m)) (beginnings (marker_bytes m));;
  sync_marker;;
  sync_parent_directory.

(** [write_all_at] of one byte. *)
Definition update_resize_marker_stage (s : Z) : DiskM unit :=
  f ← mapping;
  bs ← attempt (ok_or "failed to open marker" (ff_marker f));
  marker_effect (Some (<[10%nat := s]> bs)) [];;
  sync_marker.

(** [std::fs::remove_file]. *)
Definition remove_marker : DiskM unit := marker_effect None [].

(** ** Growing the file *)

Section Growing.
Context (kernel : Kernel).

Definition off_t (msg : string) (x : Z) : result Z := ok_or msg (try_uint 63 x).

Definition grow_mapping (old_node_count new_node_count : Z) : DiskM unit :=
  old_byte_len ← attempt (ok_or "old forest file size overflow" (checked_mul 64 old_node_count NODE_SIZE));
  new_byte_len ← attempt (ok_or "new forest file size overflow" (checked_mul 64 new_node_count NODE_SIZE));
  allocation_offset ← attempt (off_t "forest allocation offset exceeds off_t" old_byte_len);
  allocation_len ← attempt (off_t "forest allocation length exceeds off_t" (new_byte_len - old_byte_len));
  f ← mapping;
  (if ff_count f =? old_node_count then map_flush;; set_len (new_byte_len / NODE_SIZE) else mret tt);;
  if negb (fallocate_ok kernel allocation_offset allocation_len) then
    (if ff_count f =? old_node_count then set_len (old_byte_len / NODE_SIZE) else mret tt);;
    attempt (Err "failed to preallocate forest resize")
  else if ff_count f =? new_node_count then mret tt
  else
    map_len ← attempt (ok_or "resized forest does not fit this address space" (try_uint 64 new_byte_len));
    remap new_node_count.

Definition copy_row (old_rows new_rows row : Z) : DiskM unit :=
  let node_count := shl 64 1 (old_rows - row) in
  source ← attempt (start_position_at_row row old_rows);
  destination ← attempt (start_position_at_row row new_rows);
  source_byte ← attempt (ok_or "forest source byte offset overflow" (checked_mul 64 source NODE_SIZE));
  byte_len ← attempt (ok_or "forest row byte length overflow" (checked_mul 64 node_count NODE_SIZE));
  destination_byte ← attempt (ok_or "forest destination byte offset overflow" (checked_mul 64 destination NODE_SIZE));
  copy_within (source_byte / NODE_SIZE) (byte_len / NODE_SIZE) (destination_byte / NODE_SIZE).

Definition copy_internal_rows (old_rows new_rows : Z) : DiskM unit :=
  for_each (zrange 1 (old_rows + 1)) (copy_row old_rows new_rows).

Definition clear_new_bottom_range (old_rows new_rows : Z) : DiskM unit :=
  old_capacity ← attempt (ok_or "old forest bottom capacity overflow" (checked_shl 64 1 old_rows));
  new_capacity ← attempt (ok_or "new forest bottom capacity overflow" (checked_shl 64 1 new_rows));
  byte_offset ← attempt (ok_or "forest clear offset overflow" (checked_mul 64 old_capacity NODE_SIZE));
  byte_len ← attempt (ok_or "forest clear length overflow" (checked_mul 64 (new_capacity - old_capacity) NODE_SIZE));
  offset ← attempt (off_t "forest clear offset exceeds off_t" byte_offset);
  length ← attempt (off_t "forest clear length exceeds off_t" byte_len);
  if punch_hole_ok kernel offset length then
    punch_hole (byte_offset / NODE_SIZE) (byte_len / NODE_SIZE);;
    attempt (require (fallocate_ok kernel offset length) "failed to reallocate resized forest bottom row")
  else fill_zero (byte_offset / NODE_SIZE) (byte_len / NODE_SIZE).

Definition resume_resize (marker : ResizeMarker) : DiskM unit :=
  old_node_count ← attempt (forest_capacity (old_rows marker));
  new_node_count ← attempt (forest_capacity (new_rows marker));
  f ← mapping;
  let valid_node_count :=
    if stage marker =? RESIZE_STAGE_COPYING
    then (ff_count f =? old_node_count) || (ff_count f =? new_node_count)
    else if stage marker =? RESIZE_STAGE_CLEARING then ff_count f =? new_node_count
    else false in
  attempt (require valid_node_count "forest resize found unexpected node count");;
  stage ←
    (if stage marker =? RESIZE_STAGE_COPYING then
       grow_mapping old_node_count new_node_count;;
       copy_internal_rows (old_rows marker) (new_rows marker);;
       map_flush;;
       sync_data;;
       update_resize_marker_stage RESIZE_STAGE_CLEARING;;
       mret RESIZE_STAGE_CLEARING
     else mret (stage marker));
  if stage =? RESIZE_STAGE_CLEARING then
    clear_new_bottom_range (old_rows marker) (new_rows marker);;
    map_flush;;
    sync_data;;
    remove_marker;;
    sync_parent_directory
  else mret tt.

Definition resume_resize_if_needed : DiskM unit :=
  f ← mapping;
  m ← attempt (read_resize_marker f);
  match m with
  | None => mret tt
  | Some marker => resume_resize marker
  end.

Definition resize_to_rows (new_rows : Z) : DiskM unit :=
  resume_resize_if_needed;;
  f ← mapping;
  old_rows ← attempt (forest_rows_from_node_count (ff_count f));
  if new_rows <=? old_rows then mret tt
  else
    let marker := {| old_rows := old_rows; new_rows := new_rows; stage := RESIZE_STAGE_COPYING |} in
    write_resize_marker marker;;
    resume_resize marker.

(** What they make of a forest, for their callers. *)
Definition resumed (f : FlatForest) : result FlatForest := run_on resume_resize_if_needed f.
Definition resized (f : FlatForest) (new_rows : Z) : result FlatForest := run_on (resize_to_rows new_rows) f.

End Growing.

(** A file that a crash can leave while the forest [f0], with the nodes at [stores] not
    flushed, is grown, or while it is opened again after such a crash, any number of times. *)
Inductive resize_crash (new : Z) (f0 : FlatForest) (stores : list (Z * Z)) : FlatForest -> Prop :=
| crash_growing kernel d f : d ∈ dirty_forest f0 stores :: (resize_to_rows kernel new (dirty_forest f0 stores)).1 -> crash_image d f ->
    resize_crash new f0 stores f
| crash_resuming kernel f d f' : resize_crash new f0 stores f -> d ∈ opened_forest f :: (resume_resize_if_needed kernel (opened_forest f)).1 ->
    crash_image d f' -> resize_crash new f0 stores f'.

Lemma copied_ok f s n d : 0 <= n -> s + n <= ff_count f -> d + n <= ff_count f ->
  exists f', copied f s n d = Ok f' /\ ff_count f' = ff_count f /\ ff_marker f' = ff_marker f /\
    forall p, node_at f' p = if decide (d <= p < d + n) then node_at f (s + (p - d)) else node_at f p.
Proof.
  intros Hn Hs Hd. unfold copied.
  rewrite (proj2 (Z.leb_le (s + n) _)), (proj2 (Z.leb_le (d + n) _)) by done. step_ok.
  eexists. split_and!; [done..|]. intros p. unfold node_at. cbn.
  rewrite (lookup_foldl_insert _ d (fun i => node_at f (s + i))) by done. by case_decide.
Qed.

Lemma zero_range_at f a n p : 0 <= n ->
  node_at (zero_range f a n) p = if decide (a <= p < a + n) then zero_node else node_at f p.
Proof.
  intros Hn. unfold zero_range, node_at. cbn.
  rewrite (lookup_foldl_insert _ a (fun _ => zero_node)) by done. by case_decide.
Qed.


(** ** Reasoning about programs *)

(** Every disk that [m] passes through from [d] satisfies [I]; when it ends it gives [Q], and it fails only under [E]. *)
Definition dwp {A} (I : ForestDisk -> Prop) (E : Prop) (m : DiskM A) (Q : A -> ForestDisk -> Prop) (d : ForestDisk) : Prop :=
  Forall I (m d).1 /\ match (m d).2 with (d', Ok a) => Q a d' | (_, Err _) => E end.

Section Wp.
Context (I : ForestDisk -> Prop) (E : Prop).

Lemma dwp_ret {A} (a : A) (Q : A -> ForestDisk -> Prop) d : Q a d -> dwp I E (mret a) Q d.
Proof. by split. Qed.

Lemma dwp_bind {A B} (m : DiskM A) (k : A -> DiskM B) Q d : dwp I E m (fun a => dwp I E (k a) Q) d -> dwp I E (m ≫= k) Q d.
Proof.
  unfold dwp, mbind, disk_bind. destruct (m d) as [tr [d' [a|e]]]; cbn [fst snd]; [|done].
  intros [Htr [Htr2 Hres]]. split; [by apply Forall_app|done].
Qed.

Lemma dwp_lift {A} (r : result A) (Q : A -> ForestDisk -> Prop) a d : r = Ok a -> Q a d -> dwp I E (attempt r) Q d.
Proof. intros -> HQ. by split. Qed.

Lemma dwp_lift_fail {A} (r : result A) (Q : A -> ForestDisk -> Prop) d : (forall a, r = Ok a -> Q a d) -> (is_ok r = false -> E) -> dwp I E (attempt r) Q d.
Proof. intros HQ HE. split; [constructor|]. destruct r; cbn; auto. Qed.

Lemma dwp_mapping (Q : FlatForest -> ForestDisk -> Prop) d : Q (fd_forest d) d -> dwp I E mapping Q d.
Proof. by split. Qed.

Lemma dwp_effect g (Q : unit -> ForestDisk -> Prop) d : I (g d) -> Q tt (g d) -> dwp I E (effect g) Q d.
Proof. intros HI HQ. split; [by constructor|done]. Qed.

Lemma dwp_mono {A} (m : DiskM A) (Q Q' : A -> ForestDisk -> Prop) d : dwp I E m Q d -> (forall a d', Q a d' -> Q' a d') -> dwp I E m Q' d.
Proof. intros [HI HQ] Hm. split; [done|]. destruct (m d).2 as [d' [a|e]]; auto. Qed.

(** A loop over an interval, with what holds before each turn. *)
Lemma dwp_for_range (J : Z -> ForestDisk -> Prop) (body : Z -> DiskM unit) a b d : a <= b -> J a d ->
  (forall i d, a <= i < b -> J i d -> dwp I E (body i) (fun _ => J (i + 1)) d) -> dwp I E (for_each (zrange a b) body) (fun _ => J b) d.
Proof.
  intros Hab. remember (Z.to_nat (b - a)) as n eqn:Hn. revert a d Hab Hn. induction n as [|n IH]; intros a d Hab Hn HJ Hbody.
  - assert (a = b) as -> by lia. rewrite zrange_nil by lia. by apply dwp_ret.
  - rewrite zrange_cons by lia. cbn [for_each]. apply dwp_bind. eapply dwp_mono; [apply Hbody; [lia|done]|].
    intros [] d' HJ'. apply (IH (a + 1)); [lia|lia|done|]. intros i d0 Hi. apply Hbody. lia.
Qed.

End Wp.

(** The steps whose result is known. *)
Ltac dwp_step :=
  lazymatch goal with
  | |- dwp _ _ (_ ≫= _) _ _ => apply dwp_bind
  | |- dwp _ _ (mret _) _ _ => apply dwp_ret
  | |- dwp _ _ mapping _ _ => apply dwp_mapping
  end.

(** ** Relocating the internal rows *)

Section Relocate.
Context (old new : Z) (Hold : 0 <= old) (Hlt : old < new) (Hnew : new <= 56).

(** What a finished resize promises: every node keeps its row and offset, and
    the rest of the larger layout is unwritten. *)
Record relocated (f f' : FlatForest) : Prop := {
  reloc_count : ff_count f' = 2 ^ (new + 1) - 1;
  reloc_marker : ff_marker f' = None;
  reloc_nodes : forall r o, valid new r o ->
    node_at f' (pos new r o) = if decide (valid old r o) then node_at f (pos old r o) else zero_node
}.

Lemma internal_pos r o : valid new r o -> 1 <= r -> 2 ^ new <= pos new r o < 2 ^ (new + 1) - 1.
Proof.
  intros Hv Hr. pose proof (pos_bounds new ltac:(lia) r o Hv) as Hb.
  destruct Hv as [? ?]. unfold pos in *. pose proof (pow2_pos (new - r) ltac:(lia)).
  pose proof (pow2_le (new + 1 - r) new ltac:(lia)). rewrite pow2_succ in * by lia. lia.
Qed.

Lemma old_pos r o : valid old r o -> 0 <= pos old r o < 2 ^ (old + 1) - 1.
Proof.
  intros Hv. pose proof (pos_bounds old ltac:(lia) r o Hv) as Hb. destruct Hv as [? ?].
  pose proof (pow2_pos (old - r) ltac:(lia)). lia.
Qed.

Lemma old_below_new : 2 ^ (old + 1) <= 2 ^ new.
Proof. apply pow2_le. lia. Qed.

Lemma small_positions x : 0 <= x <= 2 ^ 57 -> is_uint 63 (x * NODE_SIZE).
Proof.
  intros H. unfold NODE_SIZE. change (2 ^ 57) with 144115188075855872 in H.
  split; [lia|]. change (2 ^ 63) with 9223372036854775808. lia.
Qed.

Lemma small_mul x : 0 <= x <= 2 ^ 57 -> checked_mul 64 x NODE_SIZE = Some (x * NODE_SIZE).
Proof.
  intros H. unfold checked_mul, try_uint. destruct (small_positions x H).
  rewrite decide_True; [done|]. split; [lia|]. pose proof (pow2_lt 63 64). lia.
Qed.

Lemma size_bound : 2 ^ (new + 1) <= 2 ^ 57.
Proof. apply pow2_le. lia. Qed.

(** The rows of the two layouts, in a form [lia] can use. *)
Lemma row_start rows r : rows <= 63 -> 0 <= r <= rows ->
  pos rows r 0 + 2 ^ (rows - r) <= 2 ^ (rows + 1) - 1 /\ 0 <= pos rows r 0.
Proof.
  intros H63 Hr. pose proof (pow2_pos (rows - r) ltac:(lia)).
  assert (valid rows r (2 ^ (rows - r) - 1)) as Hv by (split; lia).
  pose proof (pos_bounds rows ltac:(lia) r _ Hv). assert (valid rows r 0) as Hv0 by (split; lia).
  pose proof (pos_bounds rows ltac:(lia) r _ Hv0). unfold pos in *. lia.
Qed.


(** An internal node of the larger layout that row [row] is copied over is one of the old layout, in that row. *)
Lemma row_range row r o : 1 <= row <= old -> 1 <= r -> valid new r o ->
  pos new row 0 <= pos new r o < pos new row 0 + 2 ^ (old - row) -> r = row /\ valid old r o.
Proof.
  intros Hrow Hr Hv Hin. assert (valid new row (pos new r o - pos new row 0)) as Hv'.
  { pose proof (pow2_le (old - row) (new - row) ltac:(lia)). split; lia. }
  assert (r = row /\ o = pos new r o - pos new row 0) as [-> Ho].
  { apply (pos_inj new); [lia|done|done|]. unfold pos at 2 3. unfold pos. lia. }
  split; [done|]. split; lia.
Qed.

Lemma row_above row : 1 <= row <= old -> 2 ^ new <= pos new row 0 < 2 ^ (new + 1) - 1.
Proof.
  intros Hrow. apply internal_pos; [|lia]. split; [lia|]. pose proof (pow2_pos (new - row) ltac:(lia)). lia.
Qed.

(** ** What a crash can leave *)

Definition copying : ResizeMarker := {| old_rows := old; new_rows := new; stage := RESIZE_STAGE_COPYING |}.
Definition clearing : ResizeMarker := {| old_rows := old; new_rows := new; stage := RESIZE_STAGE_CLEARING |}.

Lemma read_marker f m : ff_marker f = Some (marker_bytes m) -> m = copying \/ m = clearing ->
  read_resize_marker f = Ok (Some m).
Proof.
  intros Hm Hc. unfold read_resize_marker. rewrite Hm.
  assert (bool_decide (take 8 (marker_bytes m) = RESIZE_MARKER_MAGIC) = true) as ->
    by (by apply bool_decide_eq_true_2).
  replace (zlength (marker_bytes m) =? RESIZE_MARKER_LEN) with true by done. step_ok. cbn.
  destruct Hc as [-> | ->]; cbn; by rewrite (proj2 (Z.leb_gt new old)) by lia.
Qed.

Lemma read_short f n : (n < 11)%nat -> ff_marker f = Some (take n (marker_bytes copying)) -> is_ok (read_resize_marker f) = false.
Proof.
  intros Hn Hm. unfold read_resize_marker. rewrite Hm. replace (zlength (take n (marker_bytes copying)) =? RESIZE_MARKER_LEN) with false; [done|].
  symmetry. apply Z.eqb_neq. unfold zlength, RESIZE_MARKER_LEN. rewrite length_take. change (length (marker_bytes copying)) with 11%nat. lia.
Qed.

Definition final_node (base : FlatForest) (r o : Z) : ForestNode :=
  if decide (valid old r o) then node_at base (pos old r o) else zero_node.

Lemma final_node_other base r o : ~ valid old r o -> final_node base r o = zero_node.
Proof. intros. unfold final_node. by rewrite decide_False. Qed.

(** How far the growth of [base] has come in the file [f]. *)
Inductive phase (base f : FlatForest) : Prop :=
| phase_untouched :
    ff_marker f = None \/ (exists n, (n < 11)%nat /\ ff_marker f = Some (take n (marker_bytes copying))) ->
    ff_count f = 2 ^ (old + 1) - 1 -> (forall p, node_at f p = node_at base p) -> phase base f
| phase_copying :
    ff_marker f = Some (marker_bytes copying) ->
    ff_count f = 2 ^ (old + 1) - 1 \/ ff_count f = 2 ^ (new + 1) - 1 ->
    (forall p, p < 2 ^ (old + 1) - 1 -> node_at f p = node_at base p) ->
    (forall r o, 1 <= r -> valid new r o -> ~ valid old r o -> node_at f (pos new r o) = zero_node) -> phase base f
| phase_clearing :
    ff_marker f = Some (marker_bytes clearing) -> ff_count f = 2 ^ (new + 1) - 1 ->
    (forall p, p < 2 ^ old -> node_at f p = node_at base p) ->
    (forall r o, 1 <= r -> valid new r o -> node_at f (pos new r o) = final_node base r o) -> phase base f
| phase_done : relocated base f -> phase base f.

Definition crash_ok (base : FlatForest) (d : ForestDisk) : Prop := forall f, crash_image d f -> phase base f.

(** ** The disk in the two stages *)

Definition clean (d : ForestDisk) (p : Z) : Prop := ~ touched (fd_stores d) p /\ ~ touched (fd_holes d) p.

Record copying_disk (base : FlatForest) (d : ForestDisk) : Prop := {
  cd_marker : ff_marker (fd_forest d) = Some (marker_bytes copying);
  cd_markers : fd_markers d = [];
  cd_lens : Forall (fun n => n = 2 ^ (old + 1) - 1 \/ n = 2 ^ (new + 1) - 1) (fd_len d :: fd_lens d);
  cd_sources : forall p, p < 2 ^ (old + 1) - 1 -> clean d p /\ node_at (fd_forest d) p = node_at base p;
  cd_fresh : forall r o, 1 <= r -> valid new r o -> ~ valid old r o -> clean d (pos new r o) /\ node_at (fd_forest d) (pos new r o) = zero_node
}.

Record clearing_disk (base : FlatForest) (d : ForestDisk) : Prop := {
  ld_marker : ff_marker (fd_forest d) = Some (marker_bytes clearing);
  ld_markers : fd_markers d = [];
  ld_len : fd_len d = 2 ^ (new + 1) - 1;
  ld_lens : fd_lens d = [];
  ld_count : ff_count (fd_forest d) = 2 ^ (new + 1) - 1;
  ld_kept : forall p, p < 2 ^ old -> clean d p /\ node_at (fd_forest d) p = node_at base p;
  ld_internal : forall r o, 1 <= r -> valid new r o -> clean d (pos new r o) /\ node_at (fd_forest d) (pos new r o) = final_node base r o
}.

Lemma copying_crash base d : copying_disk base d -> crash_ok base d.
Proof.
  intros [Hm Hms Hl Hs Hf] f [Hn He Hc Hk]. pose proof (pow2_lt (old + 1) (new + 1) ltac:(lia)) as Hlt'.
  rewrite Hms, Hm in Hk. destruct Hk as [Hk|[]%not_elem_of_nil]. rewrite Forall_forall in Hl.
  assert (ff_count f = 2 ^ (old + 1) - 1 \/ ff_count f = 2 ^ (new + 1) - 1) as Hc' by (apply Hl; destruct Hc as [->|Hc]; [left|by right]).
  apply phase_copying; [done|done| |].
  - intros p Hp. destruct (Hs p Hp) as [[Hst Hho] <-]. apply Hn; [lia|done|done].
  - intros r o Hr Hv Hno. destruct (Hf r o Hr Hv Hno) as [[Hst Hho] <-].
    destruct (decide (pos new r o < ff_count f)); [by apply Hn|]. rewrite He by lia. symmetry. by apply Hf.
Qed.

Lemma clearing_crash base d : clearing_disk base d -> crash_ok base d.
Proof.
  intros [Hm Hms Hl Hls Hcn Hs Hf] f [Hn He Hc Hk]. rewrite Hms, Hm in Hk. rewrite Hls, Hl in Hc.
  destruct Hk as [Hk|[]%not_elem_of_nil], Hc as [Hc|[]%not_elem_of_nil].
  pose proof (pow2_lt old (new + 1) ltac:(lia)). apply phase_clearing; [done|done| |].
  - intros p Hp. destruct (Hs p Hp) as [[Hst Hho] <-]. apply Hn; [lia|done|done].
  - intros r o Hr Hv. destruct (Hf r o Hr Hv) as [[Hst Hho] <-]. pose proof (internal_pos r o Hv Hr). apply Hn; [lia|done|done].
Qed.

(** Nothing is pending but the marker. *)
Lemma settled_crash d f : fd_stores d = [] -> fd_holes d = [] -> fd_lens d = [] -> crash_image d f ->
  ff_count f = fd_len d /\ (forall p, p < fd_len d -> node_at f p = node_at (fd_forest d) p) /\ (forall p, ff_count f <= p -> node_at f p = zero_node)
  /\ (ff_marker f = ff_marker (fd_forest d) \/ ff_marker f ∈ fd_markers d).
Proof.
  intros Hst Hho Hl [Hn He Hc Hk]. rewrite Hl in Hc. destruct Hc as [Hc|[]%not_elem_of_nil]. split; [done|]. split; [|done].
  intros p Hp. apply Hn; [lia|rewrite Hst|rewrite Hho]; by intros ?%Exists_nil.
Qed.

Lemma clean_settled d p : fd_stores d = [] -> fd_holes d = [] -> clean d p.
Proof. intros Hst Hho. split; [rewrite Hst|rewrite Hho]; by intros ?%Exists_nil. Qed.

(** ** The stages of a resize *)

Section Stages.
Context (kernel : Kernel) (base : FlatForest).

Definition roomy : Prop := forall offset len, fallocate_ok kernel offset len = true.
Abbreviation dwp_stage := (dwp (crash_ok base) (~ roomy)).

Lemma off_t_small msg x : 0 <= x <= 2 ^ 57 -> off_t msg (x * NODE_SIZE) = Ok (x * NODE_SIZE).
Proof.
  intros Hx. unfold off_t, try_uint. by rewrite decide_True by by apply small_positions.
Qed.

(** The disk before the file is extended: the old layout may still be in memory only. *)
Record marked_disk (d : ForestDisk) : Prop := {
  md_marker : ff_marker (fd_forest d) = Some (marker_bytes copying);
  md_markers : fd_markers d = [];
  md_holes : fd_holes d = [];
  md_lens : fd_lens d = [];
  md_len : fd_len d = ff_count (fd_forest d);
  md_count : ff_count (fd_forest d) = 2 ^ (old + 1) - 1 \/ ff_count (fd_forest d) = 2 ^ (new + 1) - 1 /\ fd_stores d = [];
  md_sources : forall p, p < 2 ^ (old + 1) - 1 -> node_at (fd_forest d) p = node_at base p;
  md_fresh : forall r o, 1 <= r -> valid new r o -> ~ valid old r o -> node_at (fd_forest d) (pos new r o) = zero_node
}.

Lemma copying_lens d d' : copying_disk base d -> fd_markers d' = fd_markers d -> fd_stores d' = fd_stores d -> fd_holes d' = fd_holes d ->
  ff_marker (fd_forest d') = ff_marker (fd_forest d) -> (forall p, node_at (fd_forest d') p = node_at (fd_forest d) p) ->
  Forall (fun n => n = 2 ^ (old + 1) - 1 \/ n = 2 ^ (new + 1) - 1) (fd_len d' :: fd_lens d') -> copying_disk base d'.
Proof.
  intros [Hm Hms Hl Hs Hf] E1 E2 E3 E4 E5 Hl'. split; [congruence|congruence|done| |].
  - intros p Hp. unfold clean. rewrite E2, E3, E5. by apply Hs.
  - intros r o Hr Hv Hno. unfold clean. rewrite E2, E3, E5. by apply Hf.
Qed.

Lemma dwp_grow d : marked_disk d ->
  dwp_stage (grow_mapping kernel (2 ^ (old + 1) - 1) (2 ^ (new + 1) - 1))
    (fun _ d' => copying_disk base d' /\ ff_count (fd_forest d') = 2 ^ (new + 1) - 1 /\ fd_len d' = 2 ^ (new + 1) - 1) d.
Proof.
  intros [Hm Hms Hho Hls Hlen Hc Hs Hf]. pose proof size_bound. pose proof (pow2_lt (old + 1) (new + 1) ltac:(lia)) as Hlt'.
  pose proof (pow2_pos (old + 1) ltac:(lia)). unfold grow_mapping. rewrite !small_mul by lia. step_ok.
  dwp_step. eapply dwp_lift; [done|]. dwp_step. eapply dwp_lift; [done|]. dwp_step. eapply dwp_lift; [by apply off_t_small; lia|].
  dwp_step. eapply dwp_lift.
  { replace ((2 ^ (new + 1) - 1) * NODE_SIZE - (2 ^ (old + 1) - 1) * NODE_SIZE) with ((2 ^ (new + 1) - 2 ^ (old + 1)) * NODE_SIZE) by lia.
    apply off_t_small. lia. }
  dwp_step. dwp_step. rewrite !Z.div_mul by done. destruct Hc as [Hc|[Hc Hst]].
  - rewrite Hc, Z.eqb_refl. rewrite (proj2 (Z.eqb_neq (2 ^ (old + 1) - 1) (2 ^ (new + 1) - 1))) by lia.
    set (d1 := {| fd_forest := fd_forest d; fd_len := fd_len d; fd_stores := []; fd_holes := fd_holes d; fd_lens := fd_lens d; fd_markers := fd_markers d |}).
    assert (copying_disk base d1) as H1.
    { split; cbn [d1 fd_forest fd_markers fd_len fd_lens].
      - done.
      - done.
      - rewrite Hls, Hlen, Hc. constructor; [by left|done].
      - intros p Hp. split; [by apply clean_settled|by apply Hs].
      - intros r o Hr Hv Hno. split; [by apply clean_settled|by apply Hf]. }
    set (d2 := {| fd_forest := fd_forest d; fd_len := 2 ^ (new + 1) - 1; fd_stores := []; fd_holes := fd_holes d; fd_lens := fd_len d :: fd_lens d; fd_markers := fd_markers d |}).
    assert (copying_disk base d2) as H2.
    { apply (copying_lens d1 d2 H1); [done..|]. cbn. rewrite Hls, Hlen, Hc. repeat constructor; tauto. }
    dwp_step. dwp_step. apply dwp_effect; [by apply copying_crash|]. apply dwp_effect; [by apply copying_crash|].
    destruct (fallocate_ok kernel _ _) eqn:Ef; cbn [negb].
    + dwp_step. eapply dwp_lift.
      { unfold try_uint. rewrite decide_True; [done|]. destruct (small_positions (2 ^ (new + 1) - 1)); [lia|]. pose proof (pow2_lt 63 64 ltac:(lia)). split; lia. }
      assert (forall d', d' = {| fd_forest := set_count (fd_forest d) (2 ^ (new + 1) - 1); fd_len := 2 ^ (new + 1) - 1; fd_stores := [];
        fd_holes := fd_holes d; fd_lens := fd_len d :: fd_lens d; fd_markers := fd_markers d |} -> copying_disk base d') as H3.
      { intros d' ->. apply (copying_lens d2); [done..|]. apply H2. }
      apply dwp_effect; [by apply copying_crash, H3|]. split; [by apply H3|done].
    + dwp_step. apply dwp_effect.
      * apply copying_crash. apply (copying_lens d2 _ H2); [done..|]. cbn. rewrite Hls, Hlen, Hc. repeat constructor; tauto.
      * split; [constructor|]. cbn. intros Hr. by rewrite Hr in Ef.
  - rewrite Hc. rewrite (proj2 (Z.eqb_neq (2 ^ (new + 1) - 1) (2 ^ (old + 1) - 1))) by lia. rewrite Z.eqb_refl. dwp_step. dwp_step.
    destruct (fallocate_ok kernel _ _) eqn:Ef; cbn [negb].
    + dwp_step. split; [|by rewrite Hlen]. split.
      * done.
      * done.
      * rewrite Hls, Hlen, Hc. constructor; [by right|done].
      * intros p Hp. split; [by apply clean_settled|by apply Hs].
      * intros r o Hr Hv Hno. split; [by apply clean_settled|by apply Hf].
    + dwp_step. dwp_step. split; [constructor|]. cbn. intros Hr. by rewrite Hr in Ef.
Qed.

(** What holds before row [row] is copied. *)
Definition rows_copied (row : Z) (d : ForestDisk) : Prop :=
  copying_disk base d /\ ff_count (fd_forest d) = 2 ^ (new + 1) - 1 /\ fd_len d = 2 ^ (new + 1) - 1
  /\ forall r o, 1 <= r < row -> valid old r o -> node_at (fd_forest d) (pos new r o) = node_at base (pos old r o).

Lemma dwp_copy_row row d : 1 <= row < old + 1 -> rows_copied row d -> dwp_stage (copy_row old new row) (fun _ => rows_copied (row + 1)) d.
Proof.
  intros Hrow ([Hm Hms Hl Hs Hf] & Hc & Hlen & Hdone). unfold copy_row. rewrite shl_one by lia. rewrite !start_position_at_row_eq by lia.
  destruct (row_start old row) as [Ho1 Ho2]; [lia..|]. destruct (row_start new row) as [Hn1 Hn2]; [lia..|].
  pose proof size_bound. pose proof (pow2_le (old + 1) (new + 1) ltac:(lia)). pose proof (pow2_pos (old - row) ltac:(lia)).
  pose proof (pow2_le (old - row) (new - row) ltac:(lia)). pose proof (row_above row ltac:(lia)) as Hab. pose proof old_below_new as Hbn.
  dwp_step. eapply dwp_lift; [done|]. dwp_step. eapply dwp_lift; [done|]. rewrite !small_mul by lia. step_ok.
  do 3 (dwp_step; eapply dwp_lift; [done|]). rewrite !Z.div_mul by done. unfold copy_within. dwp_step. dwp_step.
  destruct (copied_ok (fd_forest d) (pos old row 0) (2 ^ (old - row)) (pos new row 0)) as (f & E & Ec & Em & En); [lia..|].
  dwp_step. eapply dwp_lift; [exact E|].
  assert (forall p, clean d p -> ~ (pos new row 0 <= p < pos new row 0 + 2 ^ (old - row)) -> clean (stored d (pos new row 0, 2 ^ (old - row)) f) p) as Hclean.
  { intros p [Hst Hho] Hout. split; [|done]. cbn [stored fd_stores]. intros [?|?]%Exists_cons; done. }
  assert (copying_disk base (stored d (pos new row 0, 2 ^ (old - row)) f)) as Hcd.
  { split; cbn [stored fd_forest fd_markers fd_len fd_lens]; [by rewrite Em|done|done| |].
    - intros p Hp. destruct (Hs p Hp) as [Hcl Hp']. split; [apply Hclean; [done|lia]|]. by rewrite En, decide_False by lia.
    - intros r o Hr Hv Hno. assert (~ (pos new row 0 <= pos new r o < pos new row 0 + 2 ^ (old - row))) as Hout.
      { intros Hin. apply Hno. apply (row_range row r o); [lia|done|done|done]. }
      destruct (Hf r o Hr Hv Hno) as [Hcl Hp']. split; [by apply Hclean|]. by rewrite En, decide_False. }
  apply dwp_effect; [by apply copying_crash|]. split; [done|]. cbn [stored fd_forest fd_len]. split; [by rewrite Ec|]. split; [done|].
  intros r o Hr Hv. rewrite En. pose proof (valid_grow old new r o ltac:(lia) Hv) as Hv'.
  destruct (decide (r = row)) as [->|Hne].
  - rewrite decide_True by (destruct Hv; unfold pos; lia). replace (pos old row 0 + (pos new row o - pos new row 0)) with (pos old row o) by (unfold pos; lia).
    pose proof (old_pos _ _ Hv). apply Hs. lia.
  - rewrite decide_False; [apply Hdone; [lia|done]|]. intros Hin. by apply (row_range row r o) in Hin as [? _]; [|lia..|].
Qed.

(** Where the relocated rows are durable and the stage byte is on its way. *)
Lemma dwp_stage_byte d : copying_disk base d -> fd_len d = 2 ^ (new + 1) - 1 -> ff_count (fd_forest d) = 2 ^ (new + 1) - 1 ->
  fd_stores d = [] -> fd_holes d = [] -> fd_lens d = [] ->
  (forall r o, 1 <= r -> valid old r o -> node_at (fd_forest d) (pos new r o) = node_at base (pos old r o)) ->
  dwp_stage (update_resize_marker_stage RESIZE_STAGE_CLEARING) (fun _ => clearing_disk base) d.
Proof.
  intros [Hm Hms Hl Hs Hf] Hlen Hc Hst Hho Hls Hall. pose proof (pow2_lt old (old + 1) ltac:(lia)). pose proof (pow2_lt (old + 1) (new + 1) ltac:(lia)).
  assert (forall r o, 1 <= r -> valid new r o -> node_at (fd_forest d) (pos new r o) = final_node base r o) as Hfin.
  { intros r o Hr Hv. destruct (decide (valid old r o)) as [Hvo|Hno].
    - rewrite Hall by done. unfold final_node. by rewrite decide_True.
    - rewrite final_node_other by done. by apply Hf. }
  unfold update_resize_marker_stage. dwp_step. dwp_step. rewrite Hm. dwp_step. eapply dwp_lift; [done|].
  dwp_step. change (<[10%nat := RESIZE_STAGE_CLEARING]> (marker_bytes copying)) with (marker_bytes clearing). apply dwp_effect.
  - intros f Hi. apply settled_crash in Hi as (Hcf & Hn & Hend & Hk); [|done..]. cbn [fd_forest fd_len fd_markers set_marker ff_marker] in Hcf, Hn, Hend, Hk.
    rewrite Hlen in Hcf, Hn. rewrite Hms, Hm in Hk. cbn [app] in Hk. destruct Hk as [Hk|Hk%list_elem_of_singleton].
    + apply phase_clearing; [done|done| |].
      * intros p Hp. rewrite Hn by lia. apply Hs. lia.
      * intros r o Hr Hv. pose proof (internal_pos r o Hv Hr). rewrite Hn by lia. by apply Hfin.
    + apply phase_copying; [done|by right| |].
      * intros p Hp. rewrite Hn by lia. by apply Hs.
      * intros r o Hr Hv Hno. pose proof (internal_pos r o Hv Hr). rewrite Hn by lia. by apply Hf.
  - set (d' := {| fd_forest := set_marker (fd_forest d) (Some (marker_bytes clearing)); fd_len := fd_len d; fd_stores := fd_stores d; fd_holes := fd_holes d;
      fd_lens := fd_lens d; fd_markers := [] |}).
    assert (clearing_disk base d') as Hd'.
    { split; cbn [d' fd_forest fd_markers fd_len fd_lens]; [done|done|done|done|done| |].
      - intros p Hp. split; [by apply clean_settled|]. change (node_at (fd_forest d) p = node_at base p). apply Hs. lia.
      - intros r o Hr Hv. split; [by apply clean_settled|]. by apply Hfin. }
    unfold sync_marker, marker_settles. apply dwp_effect; cbn [fd_forest fd_len fd_stores fd_holes fd_lens fd_markers]; rewrite Hms, Hm; [by apply clearing_crash|exact Hd'].
Qed.

Lemma dwp_clear d : clearing_disk base d ->
  dwp_stage (clear_new_bottom_range kernel old new)
    (fun _ d' => clearing_disk base d' /\ forall p, 2 ^ old <= p < 2 ^ new -> node_at (fd_forest d') p = zero_node) d.
Proof.
  intros [Hm Hms Hl Hls Hc Hs Hf]. pose proof size_bound. pose proof (pow2_lt old new ltac:(lia)). pose proof (pow2_pos old Hold).
  pose proof (pow2_lt new (new + 1) ltac:(lia)).
  unfold clear_new_bottom_range, checked_shl. rewrite !bool_decide_eq_true_2 by lia. step_ok. rewrite !shl_one by lia.
  do 2 (dwp_step; eapply dwp_lift; [done|]). rewrite !small_mul by lia. step_ok. do 2 (dwp_step; eapply dwp_lift; [done|]).
  do 2 (dwp_step; eapply dwp_lift; [apply off_t_small; lia|]). rewrite !Z.div_mul by done.
  assert (forall p, node_at (zero_range (fd_forest d) (2 ^ old) (2 ^ new - 2 ^ old)) p = if decide (2 ^ old <= p < 2 ^ new) then zero_node else node_at (fd_forest d) p) as Hz.
  { intros p. rewrite zero_range_at by lia. by replace (2 ^ old + (2 ^ new - 2 ^ old)) with (2 ^ new) by lia. }
  assert (forall d', fd_forest d' = zero_range (fd_forest d) (2 ^ old) (2 ^ new - 2 ^ old) -> fd_markers d' = fd_markers d -> fd_len d' = fd_len d ->
    fd_lens d' = fd_lens d -> (forall p, clean d p -> ~ (2 ^ old <= p < 2 ^ new) -> clean d' p) ->
    clearing_disk base d' /\ forall p, 2 ^ old <= p < 2 ^ new -> node_at (fd_forest d') p = zero_node) as Hgo.
  { intros d' E1 E2 E3 E4 Hcl. split; [split|]; rewrite ?E1, ?E2, ?E3, ?E4; try done.
    - intros p Hp. destruct (Hs p Hp) as [Hp1 Hp2]. split; [apply Hcl; [done|lia]|]. by rewrite Hz, decide_False by lia.
    - intros r o Hr Hv. destruct (Hf r o Hr Hv) as [Hp1 Hp2]. pose proof (internal_pos r o Hv Hr). split; [apply Hcl; [done|lia]|]. by rewrite Hz, decide_False by lia.
    - intros p Hp. by rewrite Hz, decide_True. }
  destruct (punch_hole_ok kernel _ _).
  - dwp_step. assert (clearing_disk base (punched d (2 ^ old, 2 ^ new - 2 ^ old) (zero_range (fd_forest d) (2 ^ old) (2 ^ new - 2 ^ old)))
      /\ forall p, 2 ^ old <= p < 2 ^ new -> node_at (zero_range (fd_forest d) (2 ^ old) (2 ^ new - 2 ^ old)) p = zero_node) as [Hd Hzero].
    { apply (Hgo (punched _ _ _)); [done..|]. intros p [Hst Hho] Hout. split; [done|]. cbn [punched fd_holes]. intros [?|?]%Exists_cons; [cbn in *; lia|done]. }
    apply dwp_effect; [by apply clearing_crash|]. apply dwp_lift_fail.
    + intros _ _. by split.
    + intros Hr Hroom. by rewrite Hroom in Hr.
  - assert (clearing_disk base (stored d (2 ^ old, 2 ^ new - 2 ^ old) (zero_range (fd_forest d) (2 ^ old) (2 ^ new - 2 ^ old)))
      /\ forall p, 2 ^ old <= p < 2 ^ new -> node_at (zero_range (fd_forest d) (2 ^ old) (2 ^ new - 2 ^ old)) p = zero_node) as [Hd Hzero].
    { apply (Hgo (stored _ _ _)); [done..|]. intros p [Hst Hho] Hout. split; [|done]. cbn [stored fd_stores]. intros [?|?]%Exists_cons; [cbn in *; lia|done]. }
    apply dwp_effect; [by apply clearing_crash|by split].
Qed.

(** The bottom row ends where the old layout's nodes may still be, and the internal rows lie above both. *)
Lemma cleared_relocated d f : clearing_disk base d -> (forall p, 2 ^ old <= p < 2 ^ new -> node_at (fd_forest d) p = zero_node) ->
  ff_marker f = None -> ff_count f = 2 ^ (new + 1) - 1 -> (forall p, p < 2 ^ (new + 1) - 1 -> node_at f p = node_at (fd_forest d) p) -> relocated base f.
Proof.
  intros [Hm Hms Hl Hls Hc Hs Hf] Hz Hmf Hcf Hn. pose proof (pow2_lt new (new + 1) ltac:(lia)). pose proof (pow2_lt old (new + 1) ltac:(lia)).
  split; [done|done|]. intros r o Hv. fold (final_node base r o). destruct (decide (r = 0)) as [->|Hr].
  - rewrite pos_row0 in *. pose proof Hv as [_ Ho]. rewrite Z.sub_0_r in Ho. pose proof (pow2_pos new ltac:(lia)).
    assert (2 ^ new < 2 ^ (new + 1) - 1 \/ 2 ^ new = 1) as Hsz by (rewrite pow2_succ by lia; lia).
    assert (2 ^ old < 2 ^ new) by (apply pow2_lt; lia). rewrite Hn by (rewrite pow2_succ by lia; lia).
    destruct (decide (2 ^ old <= o)).
    + rewrite Hz by lia. rewrite final_node_other; [done|]. intros [_ Ho']. rewrite Z.sub_0_r in Ho'. lia.
    + rewrite (proj2 (Hs o ltac:(lia))). unfold final_node. rewrite decide_True by (split; rewrite ?Z.sub_0_r; lia). by rewrite pos_row0.
  - assert (1 <= r) by (destruct Hv; lia). pose proof (internal_pos r o Hv ltac:(lia)). rewrite Hn by lia. by apply Hf.
Qed.

Lemma dwp_finish d : clearing_disk base d ->
  dwp_stage (clear_new_bottom_range kernel old new;; map_flush;; sync_data;; remove_marker;; sync_parent_directory)
    (fun _ d' => relocated base (fd_forest d')) d.
Proof.
  intros Hd. dwp_step. eapply dwp_mono; [by apply dwp_clear|]. intros [] d1 [Hd1 Hz]. pose proof Hd1 as [Hm Hms Hl Hls Hc Hs Hf].
  set (d2 := {| fd_forest := fd_forest d1; fd_len := fd_len d1; fd_stores := []; fd_holes := fd_holes d1; fd_lens := fd_lens d1; fd_markers := fd_markers d1 |}).
  assert (clearing_disk base d2) as Hd2.
  { split; try done.
    - intros p Hp. destruct (Hs p Hp) as [[_ Hho] E]. split; [|done]. split; [by intros ?%Exists_nil|done].
    - intros r o Hr Hv. destruct (Hf r o Hr Hv) as [[_ Hho] E]. split; [|done]. split; [by intros ?%Exists_nil|done]. }
  set (d3 := {| fd_forest := fd_forest d1; fd_len := fd_len d1; fd_stores := []; fd_holes := []; fd_lens := []; fd_markers := fd_markers d1 |}).
  assert (clearing_disk base d3) as Hd3.
  { split; try done.
    - intros p Hp. split; [by apply clean_settled|by apply Hs].
    - intros r o Hr Hv. split; [by apply clean_settled|by apply Hf]. }
  dwp_step. apply dwp_effect; [by apply clearing_crash|]. dwp_step. apply dwp_effect; [by apply clearing_crash|].
  assert (relocated base (set_marker (fd_forest d1) None)) as Hrel by (by apply (cleared_relocated d1)).
  assert (forall f, ff_count f = fd_len d1 -> (forall p, p < fd_len d1 -> node_at f p = node_at (fd_forest d1) p) -> ff_marker f = None -> phase base f) as Hdone.
  { intros f Hcf Hn Hmf. rewrite Hl in *. apply phase_done. by apply (cleared_relocated d1). }
  dwp_step. apply dwp_effect; cbn [fd_forest fd_len fd_stores fd_holes fd_lens fd_markers].
  - intros f Hi. apply settled_crash in Hi as (Hcf & Hn & Hend & Hk); [|done..]. cbn [fd_forest fd_len fd_markers set_marker ff_marker app] in Hcf, Hn, Hend, Hk.
    rewrite Hms, Hm in Hk. destruct Hk as [Hk|Hk%list_elem_of_singleton]; [by apply Hdone|].
    apply (clearing_crash base d3 Hd3). split; [intros p Hp _ _; apply Hn; lia|done|by left|by left; rewrite Hk].
  - unfold sync_parent_directory, marker_settles. apply dwp_effect; cbn [fd_forest fd_len fd_stores fd_holes fd_lens fd_markers]; [|exact Hrel].
    rewrite Hms, Hm. intros f Hi. apply settled_crash in Hi as (Hcf & Hn & Hend & Hk); [|done..]. cbn [fd_forest fd_len fd_markers] in Hcf, Hn, Hend, Hk.
    destruct Hk as [Hk|[]%not_elem_of_nil]. by apply Hdone.
Qed.

End Stages.

(** ** Resuming *)

Section Resuming.
Context (kernel : Kernel) (base : FlatForest).

Lemma dwp_resume_copying d : marked_disk base d ->
  dwp (crash_ok base) (~ roomy kernel) (resume_resize kernel copying) (fun _ d' => relocated base (fd_forest d')) d.
Proof.
  intros Hd. unfold resume_resize. cbn [old_rows new_rows stage copying]. rewrite !forest_capacity_eq by lia.
  change (RESIZE_STAGE_COPYING =? RESIZE_STAGE_COPYING) with true. cbn beta iota.
  do 2 (dwp_step; eapply dwp_lift; [done|]). dwp_step. dwp_step. dwp_step. eapply dwp_lift.
  { destruct (md_count _ _ Hd) as [-> |[-> _]]; rewrite Z.eqb_refl; [done|]. by rewrite orb_true_r. }
  dwp_step. dwp_step. eapply dwp_mono; [by apply dwp_grow|]. intros [] d1 (Hd1 & Hc1 & Hl1).
  dwp_step. unfold copy_internal_rows. eapply dwp_mono.
  { apply (dwp_for_range _ _ (rows_copied base)); [lia| |intros i d0 Hi; by apply dwp_copy_row]. split; [done|]. split; [done|]. split; [done|]. intros r o Hr. lia. }
  intros [] d2 (Hd2 & Hc2 & Hl2 & Hall). pose proof Hd2 as [Hm Hms Hl Hs Hf].
  set (d3 := {| fd_forest := fd_forest d2; fd_len := fd_len d2; fd_stores := []; fd_holes := fd_holes d2; fd_lens := fd_lens d2; fd_markers := fd_markers d2 |}).
  assert (copying_disk base d3) as Hd3.
  { split; try done.
    - intros p Hp. destruct (Hs p Hp) as [[_ Hho] E]. split; [|done]. split; [by intros ?%Exists_nil|done].
    - intros r o Hr Hv Hno. destruct (Hf r o Hr Hv Hno) as [[_ Hho] E]. split; [|done]. split; [by intros ?%Exists_nil|done]. }
  set (d4 := {| fd_forest := fd_forest d2; fd_len := fd_len d2; fd_stores := []; fd_holes := []; fd_lens := []; fd_markers := fd_markers d2 |}).
  assert (copying_disk base d4) as Hd4.
  { split; try done.
    - cbn. rewrite Hl2. constructor; [by right|done].
    - intros p Hp. split; [by apply clean_settled|by apply Hs].
    - intros r o Hr Hv Hno. split; [by apply clean_settled|by apply Hf]. }
  dwp_step. apply dwp_effect; [by apply copying_crash|]. dwp_step. apply dwp_effect; [by apply copying_crash|].
  dwp_step. eapply dwp_mono.
  { apply (dwp_stage_byte kernel base d4 Hd4 Hl2 Hc2); [done..|]. intros r o Hr Hv. apply Hall; [|done]. destruct Hv. lia. }
  intros [] d5 Hd5. dwp_step. change (RESIZE_STAGE_CLEARING =? RESIZE_STAGE_CLEARING) with true. by apply dwp_finish.
Qed.

Lemma dwp_resume_clearing d : clearing_disk base d ->
  dwp (crash_ok base) (~ roomy kernel) (resume_resize kernel clearing) (fun _ d' => relocated base (fd_forest d')) d.
Proof.
  intros Hd. unfold resume_resize. cbn [old_rows new_rows stage clearing]. rewrite !forest_capacity_eq by lia.
  change (RESIZE_STAGE_CLEARING =? RESIZE_STAGE_COPYING) with false. change (RESIZE_STAGE_CLEARING =? RESIZE_STAGE_CLEARING) with true. cbn beta iota.
  do 2 (dwp_step; eapply dwp_lift; [done|]). dwp_step. dwp_step. dwp_step. eapply dwp_lift; [by rewrite (ld_count _ _ Hd), Z.eqb_refl|].
  dwp_step. dwp_step. change (RESIZE_STAGE_CLEARING =? RESIZE_STAGE_CLEARING) with true. by apply dwp_finish.
Qed.

(** A file that a crash has left, opened again. *)
Lemma opened_crash f : phase base f -> (forall p, ff_count f <= p -> node_at f p = zero_node) -> crash_ok base (opened_forest f).
Proof.
  intros Hp Hend f' Hi. apply settled_crash in Hi as (Hc & Hn & Hend' & [Hk|[]%not_elem_of_nil]); [|done..].
  cbn [opened_forest dirty_forest fd_len fd_forest] in *.
  assert (forall p, node_at f' p = node_at f p) as Hsame.
  { intros p. destruct (decide (p < ff_count f)); [by apply Hn|]. rewrite Hend' by lia. symmetry. apply Hend. lia. }
  destruct Hp as [Hm Hcf Hb|Hm Hcf Hb Hf|Hm Hcf Hb Hf|[Hcf Hm Hb]].
  - apply phase_untouched; [by rewrite Hk|congruence|]. intros p. by rewrite Hsame.
  - apply phase_copying; [by rewrite Hk|by rewrite Hc| |]; intros; rewrite Hsame; auto.
  - apply phase_clearing; [by rewrite Hk|by rewrite Hc| |]; intros; rewrite Hsame; auto.
  - apply phase_done. split; [congruence|congruence|]. intros. rewrite Hsame. auto.
Qed.

Lemma dwp_resume f : phase base f -> (forall p, ff_count f <= p -> node_at f p = zero_node) ->
  dwp (crash_ok base) (is_ok (read_resize_marker f) = true -> ~ roomy kernel) (resume_resize_if_needed kernel)
    (fun _ d' => match ff_marker f with Some _ => relocated base (fd_forest d') | None => fd_forest d' = f end) (opened_forest f).
Proof.
  intros Hp Hend. unfold resume_resize_if_needed. dwp_step. dwp_step. dwp_step. cbn [opened_forest dirty_forest fd_forest].
  assert (forall m, ff_marker f = Some (marker_bytes m) -> m = copying \/ m = clearing ->
    dwp (crash_ok base) (~ roomy kernel) (resume_resize kernel m) (fun _ d' => relocated base (fd_forest d')) (opened_forest f) ->
    dwp (crash_ok base) (is_ok (read_resize_marker f) = true -> ~ roomy kernel) (attempt (read_resize_marker f))
      (fun m d => dwp (crash_ok base) (is_ok (read_resize_marker f) = true -> ~ roomy kernel)
        match m with Some marker => resume_resize kernel marker | None => mret () end
        (fun _ d' => match ff_marker f with Some _ => relocated base (fd_forest d') | None => fd_forest d' = f end) d) (opened_forest f)) as Hresume.
  { intros m Hm Hc Hw. eapply dwp_lift; [by apply read_marker|]. rewrite Hm. destruct Hw as [Htr Hres]. split; [done|].
    destruct (resume_resize kernel m (opened_forest f)).2 as [d' [a|e]]; auto. }
  destruct Hp as [[Hm|(n & Hn & Hm)] Hcf Hb|Hm Hcf Hb Hf|Hm Hcf Hb Hf|[Hcf Hm Hb]].
  - eapply dwp_lift; [unfold read_resize_marker; by rewrite Hm|]. apply dwp_ret. by rewrite Hm.
  - pose proof (read_short f n Hn Hm) as Hbad. apply dwp_lift_fail; [intros a E; by rewrite E in Hbad|]. by rewrite Hbad.
  - apply (Hresume copying); [done|by left|]. apply dwp_resume_copying. split; try done.
    destruct Hcf as [Hcf|Hcf]; [by left|by right].
  - apply (Hresume clearing); [done|by right|]. apply dwp_resume_clearing. split; try done.
    + intros p Hp. split; [by apply clean_settled|by apply Hb].
    + intros r o Hr Hv. split; [by apply clean_settled|by apply Hf].
  - eapply dwp_lift; [unfold read_resize_marker; by rewrite Hm|]. apply dwp_ret. by rewrite Hm.
Qed.

Lemma resumed_phase f : roomy kernel -> phase base f -> (forall p, ff_count f <= p -> node_at f p = zero_node) ->
  is_ok (read_resize_marker f) = true ->
  exists f', resumed kernel f = Ok f' /\ match ff_marker f with Some _ => relocated base f' | None => f' = f end.
Proof.
  intros Hroom Hp Hend Hok. destruct (dwp_resume f Hp Hend) as [_ Hres]. unfold resumed, run_on.
  destruct (resume_resize_if_needed kernel (opened_forest f)).2 as [d' [[]|e]]; [by eexists|]. by destruct (Hres Hok).
Qed.

End Resuming.

(** ** The whole resize *)

(** A forest in the old layout, which ends where it ends. *)
Record old_forest (base : FlatForest) : Prop := {
  of_count : ff_count base = 2 ^ (old + 1) - 1;
  of_end : forall p, 2 ^ (old + 1) - 1 <= p -> node_at base p = zero_node
}.

Section Whole.
Context (f0 : FlatForest) (stores : list (Z * Z)) (Hf0 : old_forest f0) (Hmarker : ff_marker f0 = None).

(** What the old forest was, as far as its nodes were flushed. *)
Definition old_image (base : FlatForest) : Prop := old_forest base /\ forall p, ~ touched stores p -> node_at base p = node_at f0 p.

Definition resize_ok (d : ForestDisk) : Prop :=
  forall f, crash_image d f -> exists base, old_image base /\ phase base f /\ forall p, ff_count f <= p -> node_at f p = zero_node.

Lemma crash_ok_resize d : crash_ok f0 d -> resize_ok d.
Proof. intros Hd f Hi. exists f0. split; [by split|]. split; [by apply Hd|apply (ci_end _ _ Hi)]. Qed.

(** While the marker is being written. *)
Lemma marking_ok d : fd_stores d = stores -> fd_holes d = [] -> fd_lens d = [] -> fd_len d = 2 ^ (old + 1) - 1 ->
  (forall p, node_at (fd_forest d) p = node_at f0 p) ->
  Forall (fun m => m = None \/ exists n, m = Some (take n (marker_bytes copying))) (ff_marker (fd_forest d) :: fd_markers d) -> resize_ok d.
Proof.
  intros Est Eho Els Elen En Hm f [Hn He Hc Hk]. rewrite Els, Elen in Hc. destruct Hc as [Hc|[]%not_elem_of_nil].
  exists (set_marker f None). rewrite Hc in He. split; [split; [by split|]|split; [|by rewrite Hc]].
  - intros p Hp. change (node_at f p = node_at f0 p). destruct (decide (p < ff_count f)).
    + rewrite <- En. apply Hn; [done|by rewrite Est|]. rewrite Eho. by intros ?%Exists_nil.
    + rewrite He by lia. symmetry. apply (of_end _ Hf0). lia.
  - assert (ff_marker f = None \/ exists n, ff_marker f = Some (take n (marker_bytes copying))) as Hmf.
    { rewrite Forall_forall in Hm. apply Hm. destruct Hk as [->|Hk]; [left|by right]. }
    destruct Hmf as [Hmf|(n & Hmf)]; [by apply phase_untouched; [left| |]|]. destruct (decide (n < 11)%nat).
    + apply phase_untouched; [right; by exists n|done|done].
    + apply phase_copying; [|by left|done|].
      * rewrite Hmf, take_ge; [done|]. change (length (marker_bytes copying)) with 11%nat. lia.
      * intros r o Hr Hv Hno. pose proof (internal_pos r o Hv Hr). pose proof old_below_new. apply He. lia.
Qed.

Lemma dwp_resize kernel : dwp resize_ok (~ roomy kernel) (resize_to_rows kernel new) (fun _ d' => relocated f0 (fd_forest d')) (dirty_forest f0 stores).
Proof.
  assert (forall n, (fun m => m = None \/ exists n, m = Some (take n (marker_bytes copying))) (Some (take n (marker_bytes copying)))) as Hbeg.
  { intros n. right. by exists n. }
  unfold resize_to_rows, resume_resize_if_needed. dwp_step. dwp_step. dwp_step. dwp_step. eapply dwp_lift.
  { unfold read_resize_marker. cbn [dirty_forest fd_forest]. by rewrite Hmarker. }
  apply dwp_ret. dwp_step. dwp_step. dwp_step. cbn [dirty_forest fd_forest]. eapply dwp_lift; [rewrite (of_count _ Hf0); apply forest_rows_of_capacity; lia|].
  rewrite (proj2 (Z.leb_gt new old)) by lia. fold copying. dwp_step. unfold write_resize_marker. dwp_step. dwp_step. dwp_step.
  cbn [dirty_forest fd_forest]. eapply dwp_lift; [by rewrite Hmarker|].
  dwp_step. apply dwp_effect.
  { apply marking_ok; try done; [apply (of_count _ Hf0)|]. cbn. rewrite Hmarker. constructor; [apply (Hbeg 0%nat)|]. constructor; [by left|done]. }
  dwp_step. apply dwp_effect.
  { apply marking_ok; try done; [apply (of_count _ Hf0)|]. cbn [fd_forest fd_markers set_marker ff_marker dirty_forest app]. rewrite Hmarker. constructor; [apply (Hbeg 11%nat)|].
    apply Forall_app. split; [|constructor; [apply (Hbeg 0%nat)|constructor; [by left|done]]]. apply Forall_fmap, Forall_forall. intros n _. apply Hbeg. }
  dwp_step. cbn [fd_forest fd_len fd_stores fd_holes fd_lens fd_markers dirty_forest]. rewrite Hmarker. apply dwp_effect.
  { apply marking_ok; try done; [apply (of_count _ Hf0)|]. cbn. constructor; [apply (Hbeg 11%nat)|]. constructor; [by left|done]. }
  apply dwp_effect.
  { apply marking_ok; try done; [apply (of_count _ Hf0)|]. cbn. constructor; [apply (Hbeg 11%nat)|done]. }
  destruct (dwp_resume_copying kernel f0
    {| fd_forest := set_marker f0 (Some (marker_bytes copying)); fd_len := ff_count f0; fd_stores := stores; fd_holes := []; fd_lens := []; fd_markers := [] |})
    as [Htr Hres].
  - pose proof (of_count _ Hf0) as Hc. split; try done.
    + by left.
    + intros r o Hr Hv Hno. pose proof (internal_pos r o Hv Hr). pose proof old_below_new. apply (of_end _ Hf0). lia.
  - split; [|exact Hres]. eapply Forall_impl; [exact Htr|]. intros d. apply crash_ok_resize.
Qed.

Lemma resize_crash_phase f : resize_crash new f0 stores f ->
  exists base, old_image base /\ phase base f /\ forall p, ff_count f <= p -> node_at f p = zero_node.
Proof.
  induction 1 as [kernel d f [->|Hd]%elem_of_cons Hi|kernel f d f' _ (base & Hb & Hp & Hend) [->|Hd]%elem_of_cons Hi].
  - refine (marking_ok _ _ _ _ _ _ _ f Hi); try done; [apply (of_count _ Hf0)|]. cbn. rewrite Hmarker. constructor; [by left|done].
  - destruct (dwp_resize kernel) as [Htr _]. rewrite Forall_forall in Htr. by apply (Htr d).
  - exists base. split; [done|]. split; [by apply (opened_crash base f)|apply (ci_end _ _ Hi)].
  - destruct (dwp_resume kernel base f Hp Hend) as [Htr _]. rewrite Forall_forall in Htr. exists base. split; [done|].
    split; [by apply (Htr d)|apply (ci_end _ _ Hi)].
Qed.

End Whole.
End Relocate.

(** ** Properties *)

(** C33: Growing the forest online survives a crash.  The disks are those that [resize_to_rows] and the reopening after
    each crash pass through, system call by system call; a node stored or punched and not flushed may hold anything, an
    unsynced length or marker may be the earlier one, and the growth may be cut short any number of times.  When the
    marker that is found is whole, opening the forest finishes the resize: every node of the old layout is at its row
    and offset in the new one, every other position is unwritten, the marker is gone, and until then records without a
    layout byte are attributed to the old layout.  When there is no marker, the forest is the old one, untouched, or
    the finished one.  When the marker's own writing was cut short, the forest is untouched but does not open.  The old
    forest is the one in memory, up to nodes that were not flushed when the resize began. *)
Theorem resize_crash_safe (kernel : Kernel) (old new : Z) (f0 f : FlatForest) (stores : list (Z * Z))
    (Hroom : forall offset len, fallocate_ok kernel offset len = true)
    (Hold : 0 <= old < new) (Hnew : new <= 56)
    (Hcount : ff_count f0 = 2 ^ (old + 1) - 1) (Hmarker : ff_marker f0 = None)
    (Hend : forall p, 2 ^ (old + 1) - 1 <= p -> node_at f0 p = zero_node)
    (Hcrash : resize_crash new f0 stores f) :
  exists base, ff_count base = ff_count f0 /\ (forall p, ~ touched stores p -> node_at base p = node_at f0 p) /\
    match read_resize_marker f with
    | Ok (Some _) => legacy_journal_rows f = Ok old /\ exists f', resumed kernel f = Ok f' /\ relocated old new base f'
    | Ok None => resumed kernel f = Ok f /\
        (relocated old new base f \/ ff_count f = ff_count f0 /\ forall p, node_at f p = node_at base p)
    | Err _ => is_ok (resumed kernel f) = false /\ ff_count f = ff_count f0 /\ forall p, node_at f p = node_at base p
    end.
Proof.
  destruct Hold as [Ho Hlt]. destruct (resize_crash_phase old new Ho Hlt Hnew f0 stores) with (f := f) as (base & [[Hcb Hzb] Hb] & Hp & Hz); [by split|done|done|].
  exists base. split; [congruence|]. split; [done|]. pose proof (resumed_phase old new Ho Hlt Hnew kernel base f Hroom Hp Hz) as Hres.
  destruct Hp as [[Hm|(n & Hn & Hm)] Hcf Hs|Hm Hcf Hs Hf|Hm Hcf Hs Hf|Hrel].
  - unfold read_resize_marker in *. rewrite Hm in *. destruct (Hres eq_refl) as (f' & E & ->). split; [done|]. right. split; [congruence|done].
  - pose proof (read_short old new f n Hn Hm) as Hbad. unfold resumed, run_on, resume_resize_if_needed, mbind, disk_bind, mapping, attempt.
    cbn [fst snd opened_forest dirty_forest fd_forest]. destruct (read_resize_marker f); [done|]. split; [done|]. split; [congruence|done].
  - unfold legacy_journal_rows. rewrite (read_marker old new Hlt f (copying old new)) in * by auto. step_ok. split; [done|]. rewrite Hm in Hres. by apply Hres.
  - unfold legacy_journal_rows. rewrite (read_marker old new Hlt f (clearing old new)) in * by auto. step_ok. split; [done|]. rewrite Hm in Hres. by apply Hres.
  - pose proof (reloc_marker _ _ _ _ Hrel) as Hm. unfold read_resize_marker in *. rewrite Hm in *. destruct (Hres eq_refl) as (f' & E & ->). split; [done|by left].
Qed.

(** Interrupted after the only internal node was copied: the copy is torn and the file has its new length. *)
Definition torn_forest : FlatForest :=
  {| ff_nodes := <[0 := sample_node 1]> (<[1 := sample_node 2]> (<[2 := sample_node 3]> (<[4 := sample_node 9]> ∅)));
     ff_count := 7; ff_marker := Some (marker_bytes (copying 1 2)) |}.
Definition copied_forest : ForestDisk :=
  default (opened_forest small_forest) ((resize_to_rows full_kernel 2 (dirty_forest small_forest [])).1 !! 7%nat).

Lemma torn_crash : resize_crash 2 small_forest [] torn_forest.
Proof.
  apply (crash_growing 2 small_forest [] full_kernel copied_forest).
  - right. apply (list_elem_of_lookup_2 _ 7). vm_compute. reflexivity.
  - assert (fd_stores copied_forest = [(4, 1)] /\ fd_len copied_forest = 7) as [Es El] by (vm_compute; done). split.
    + intros p Hp Hst _. rewrite Es in Hst. change (ff_count torn_forest) with 7 in Hp.
      assert (p < 0 \/ p = 0 \/ p = 1 \/ p = 2 \/ p = 3 \/ p = 5 \/ p = 6) as Hcases.
      { assert (p <> 4) by (intros ->; apply Hst; by constructor). lia. }
      assert (ff_nodes (fd_forest copied_forest) = <[4 := sample_node 3]> (ff_nodes small_forest)) as En by (vm_compute; reflexivity).
      unfold node_at. rewrite En. unfold torn_forest, small_forest, ff_nodes.
      destruct Hcases as [Hneg|[->|[->|[->|[->|[->| ->]]]]]]; [|vm_compute; reflexivity..]. by rewrite !lookup_insert_ne by lia.
    + intros p Hp. change (ff_count torn_forest) with 7 in Hp. unfold node_at, torn_forest, ff_nodes. by rewrite !lookup_insert_ne, lookup_empty by lia.
    + left. by rewrite El.
    + left. vm_compute. reflexivity.
Qed.

Lemma resize_crash_safe_witness :
  exists f', resumed full_kernel torn_forest = Ok f' /\ node_at f' 4 = sample_node 3 /\ node_at f' 2 = zero_node /\ ff_count f' = 7.
Proof.
  destruct (resize_crash_safe full_kernel 1 2 small_forest torn_forest []) as (base & _ & Hb & _ & f' & E & Hr);
    [done|lia|lia|done|done|apply small_forest_end|apply torn_crash|].
  exists f'. split; [exact E|]. assert (forall p, node_at base p = node_at small_forest p) as Hbase.
  { intros p. apply Hb. by intros ?%Exists_nil. }
  split; [|split].
  - change 4 with (pos 2 1 0). rewrite (reloc_nodes _ _ _ _ Hr) by by_decide. rewrite decide_True by by_decide. rewrite Hbase. reflexivity.
  - change 2 with (pos 2 0 2) at 1. rewrite (reloc_nodes _ _ _ _ Hr) by by_decide. reflexivity.
  - exact (reloc_count _ _ _ _ Hr).
Defined.

(** [resize_to_rows] without a crash: a request that does not grow the forest changes nothing, and one that grows it
    keeps every node at its row and offset, leaves the rest of the larger file unwritten and ends with no marker. *)
Theorem resize_to_rows_relocates (kernel : Kernel) (old new : Z) (f : FlatForest)
    (Hroom : forall offset len, fallocate_ok kernel offset len = true)
    (Hold : 0 <= old <= 56) (Hnew : new <= 56)
    (Hcount : ff_count f = 2 ^ (old + 1) - 1) (Hmarker : ff_marker f = None)
    (Hend : forall p, 2 ^ (old + 1) - 1 <= p -> node_at f p = zero_node) :
  (new <= old -> resized kernel f new = Ok f) /\
  (old < new -> exists f', resized kernel f new = Ok f' /\ relocated old new f f').
Proof.
  split; intros Hlt.
  - assert (dwp (fun _ => True) False (resize_to_rows kernel new) (fun _ d' => fd_forest d' = f) (opened_forest f)) as [_ Hres].
    { unfold resize_to_rows, resume_resize_if_needed. do 4 dwp_step. eapply dwp_lift; [unfold read_resize_marker; cbn; by rewrite Hmarker|].
      apply dwp_ret. dwp_step. dwp_step. dwp_step. eapply dwp_lift; [cbn; rewrite Hcount; apply forest_rows_of_capacity; lia|].
      rewrite (proj2 (Z.leb_le new old)) by done. by dwp_step. }
    unfold resized, run_on. destruct (resize_to_rows kernel new (opened_forest f)).2 as [d' [[]|e]]; [by rewrite Hres|done].
  - destruct (dwp_resize old new (proj1 Hold) Hlt Hnew f []) with (kernel := kernel) as [_ Hres]; [by split|done|].
    unfold resized, run_on, opened_forest. destruct (resize_to_rows kernel new (dirty_forest f [])).2 as [d' [[]|e]]; [by eexists|by destruct Hres].
Qed.

Lemma resize_to_rows_relocates_witness :
  exists f', resized full_kernel small_forest 2 = Ok f' /\ relocated 1 2 small_forest f'.
Proof.
  apply (resize_to_rows_relocates full_kernel 1 2 small_forest);
    [done|lia|lia|done|done|apply small_forest_end|lia].
Defined.

End Resize.
