(* ===== verification/SteadyState.v ===== *)
(** The running forest ([SteadyStateForest], [ForestOverlay] and [ForestView] of
    [src/src/parallel_forest.rs]): reading through the overlay, planning one
    block's mutation, its roots, proof hashes, and applying journal entries.
    The theorems are in [PlanUpdate], [CompressedHash], [Replay] and [LeafMap]. *)

From S2P Require Import Prelude Bytes Sorting Positions JournalEntry Forest Resize.
Import Sorting.Sorting Positions.Positions JournalEntry.JournalEntry Forest.Forest Resize.Resize.

(** [rustreexo]'s node hashes: conversions from and to 32 bytes, the empty hash
    and the hash of a parent. *)
Class NodeHashing := {
  BitcoinNodeHash : Type;
  empty_hash : BitcoinNodeHash;
  hash_of_bytes : bytes -> BitcoinNodeHash;
  bytes_of_hash : BitcoinNodeHash -> bytes;
  parent_hash : BitcoinNodeHash -> BitcoinNodeHash -> BitcoinNodeHash;
  (** 32 bytes survive the conversion to a hash and back *)
  bytes_of_hash_of_bytes : forall h, length h = 32%nat -> bytes_of_hash (hash_of_bytes h) = h
}.

(** [bitcoin_hashes]' SHA-256. *)
Class Sha256 := sha256 : bytes -> bytes.

(** [floresta_db]'s database, as the forest uses it. *)
Class LeafMapDb := {
  Db : Type;
  db_get : Db -> bytes -> option bytes;
  db_batch_fetch : Db -> list bytes -> result (list (option bytes));
  db_batch_delete : Db -> list bytes -> result Db;
  db_put_batch : Db -> list (bytes * bytes) -> result Db;
  db_put : Db -> bytes -> bytes -> result Db;
  db_compact : Db -> Z -> result Db
}.

Module SteadyState.

(** ** The overlay *)

Record ForestOverlay := {
  ov_nodes : gmap Z JournalNodeState;
  node_heights : gmap Z Z;
  ov_positions : gmap OutPoint (Z * option Z)
}.
Definition empty_overlay : ForestOverlay :=
  {| ov_nodes := ∅; node_heights := ∅; ov_positions := ∅ |}.

Definition push_node (entry : JournalEntryData) (o : ForestOverlay) (delta : JournalForestDelta) :=
  {| ov_nodes := <[fd_position delta := after delta]> (ov_nodes o);
     node_heights := <[fd_position delta := height entry]> (node_heights o);
     ov_positions := ov_positions o |}.
Definition push_position (h : Z) (pos : JournalIndexDelta -> option Z) (o : ForestOverlay)
    (delta : JournalIndexDelta) :=
  {| ov_nodes := ov_nodes o; node_heights := node_heights o;
     ov_positions := <[outpoint delta := (h, pos delta)]> (ov_positions o) |}.

Definition push (o : ForestOverlay) (entry : JournalEntryData) : ForestOverlay :=
  let o := foldl (push_node entry) o (forest entry) in
  let o := foldl (push_position (height entry) (fun _ => None)) o (removed entry) in
  foldl (push_position (height entry) (fun delta => Some (id_position delta))) o (added entry).

Definition retire_node (entry : JournalEntryData) (o : ForestOverlay) (delta : JournalForestDelta) :=
  if bool_decide (node_heights o !! fd_position delta = Some (height entry)) then
    {| ov_nodes := delete (fd_position delta) (ov_nodes o);
       node_heights := delete (fd_position delta) (node_heights o);
       ov_positions := ov_positions o |}
  else o.
Definition retire_position (entry : JournalEntryData) (o : ForestOverlay) (delta : JournalIndexDelta) :=
  match ov_positions o !! outpoint delta with
  | Some (h, _) =>
      if h =? height entry then
        {| ov_nodes := ov_nodes o; node_heights := node_heights o;
           ov_positions := delete (outpoint delta) (ov_positions o) |}
      else o
  | None => o
  end.

Definition retire (o : ForestOverlay) (entry : JournalEntryData) : ForestOverlay :=
  let o := foldl (retire_node entry) o (forest entry) in
  foldl (retire_position entry) o (removed entry ++ added entry).

(** ** Nodes *)

Section Forest.
Context `{NodeHashing} `{Sha256} `{LeafMapDb}.

Definition accumulator_hash (node : ForestNodeData) : BitcoinNodeHash :=
  if nd_spent node then empty_hash else hash_of_bytes (nd_hash node).

Definition combine_children (left right : ForestNodeData) : ForestNodeData :=
  match nd_spent left, nd_spent right with
  | true, true => {| nd_hash := zeros 32; nd_spent := true |}
  | true, false => right
  | false, true => left
  | false, false =>
      let left_hash := hash_of_bytes (nd_hash left) in
      let right_hash := hash_of_bytes (nd_hash right) in
      {| nd_hash := bytes_of_hash (parent_hash left_hash right_hash); nd_spent := false |}
  end.

(** ** The forest *)

Record SteadyStateForest := {
  ss_forest : FlatForest;
  leaf_map : Db;
  leaves : Z;
  ss_rows : Z
}.

Definition with_forest (s : SteadyStateForest) (f : FlatForest) : SteadyStateForest :=
  {| ss_forest := f; leaf_map := leaf_map s; leaves := leaves s; ss_rows := ss_rows s |}.
Definition with_leaf_map (s : SteadyStateForest) (m : Db) : SteadyStateForest :=
  {| ss_forest := ss_forest s; leaf_map := m; leaves := leaves s; ss_rows := ss_rows s |}.
Definition with_leaves (s : SteadyStateForest) (n : Z) : SteadyStateForest :=
  {| ss_forest := ss_forest s; leaf_map := leaf_map s; leaves := n; ss_rows := ss_rows s |}.
Definition with_rows (s : SteadyStateForest) (n : Z) : SteadyStateForest :=
  {| ss_forest := ss_forest s; leaf_map := leaf_map s; leaves := leaves s; ss_rows := n |}.

Definition uninitialized : string := "forest position is uninitialized".

(** The binary search of [open] for the number of initialized leaves. *)
Fixpoint find_leaves (fuel : nat) (f : FlatForest) (first end_ : Z) : result Z :=
  match fuel with
  | O => Err out_of_fuel
  | S fuel =>
      if first <? end_ then
        let middle := first + (end_ - first) / 2 in
        node ← try_read f middle;
        match node with
        | Some _ => find_leaves fuel f (middle + 1) end_
        | None => find_leaves fuel f first middle
        end
      else Ok first
  end.

(** [open], after [FlatForest::open] finished an interrupted resize and with the
    runtime database already opened. *)
Definition open (kernel : Kernel) (f : FlatForest) (db : Db) : result SteadyStateForest :=
  f ← resumed kernel f;
  forest_rows ← forest_rows_from_node_count (ff_count f);
  bottom_capacity ← ok_or "forest bottom capacity overflow" (checked_shl 64 1 forest_rows);
  first ← find_leaves 65 f 0 bottom_capacity;
  require (negb (first =? 0)) "flat forest has no initialized leaves";;
  Ok {| ss_forest := f; leaf_map := db; leaves := first; ss_rows := forest_rows |}.

Definition leaf_capacity (s : SteadyStateForest) : result Z :=
  ok_or "forest bottom capacity overflow" (checked_shl 64 1 (ss_rows s)).

Definition ensure_leaf_capacity (kernel : Kernel) (s : SteadyStateForest) (required_leaves : Z)
  : result (bool * SteadyStateForest) :=
  current_capacity ← leaf_capacity s;
  if required_leaves <=? current_capacity then Ok (false, s)
  else
    let new_rows := tree_rows required_leaves in
    new_capacity ← ok_or "resized forest bottom capacity overflow" (checked_shl 64 1 new_rows);
    f ← resized kernel (ss_forest s) new_rows;
    Ok (true, with_rows (with_forest s f) new_rows).

Definition roots (s : SteadyStateForest) : result (list BitcoinNodeHash) :=
  mapM (fun row =>
          let position := root_position (leaves s) row (ss_rows s) in
          o ← try_read (ss_forest s) position;
          node ← ok_or "root position is uninitialized" o;
          Ok (accumulator_hash node))
    (filter (fun row => has_root (leaves s) row = true) (reverse (zrange 0 (ss_rows s + 1)))).

(** ** Reading through the overlay *)

Definition ready_state (s : JournalNodeState) : result ForestNodeData :=
  require (ready s) uninitialized;; Ok {| nd_hash := hash s; nd_spent := spent s |}.

Definition read_with_overlay (f : FlatForest) (overlay : gmap Z JournalNodeState) (position : Z)
  : result ForestNodeData :=
  match overlay !! position with
  | Some state => ready_state state
  | None => o ← try_read f position; ok_or uninitialized o
  end.

(** Walk [n] rows up. *)
Fixpoint ancestor (n : nat) (position forest_rows : Z) : Z :=
  match n with O => position | S n => ancestor n (parent position forest_rows) forest_rows end.

Fixpoint containing_root_loop (rows : list Z) (position_row position leaves forest_rows : Z)
  : result (Z * Z) :=
  match rows with
  | [] => Err "position is not below a populated root"
  | root_row :: rows =>
      if negb (has_root leaves root_row)
      then containing_root_loop rows position_row position leaves forest_rows
      else
        let ancestor := ancestor (Z.to_nat (root_row - position_row)) position forest_rows in
        let root := root_position leaves root_row forest_rows in
        if ancestor =? root then Ok (root, root_row)
        else containing_root_loop rows position_row position leaves forest_rows
  end.

Definition containing_root (forest_rows position leaves : Z) : result (Z * Z) :=
  let position_row := detect_row position forest_rows in
  containing_root_loop (zrange position_row (forest_rows + 1)) position_row position leaves forest_rows.

(** The turns from [root] down to [position], bottom first. *)
Fixpoint directions (fuel : nat) (position root forest_rows : Z) : result (list bool) :=
  match fuel with
  | O => Err out_of_fuel
  | S fuel =>
      if position =? root then Ok []
      else
        ds ← directions fuel (parent position forest_rows) root forest_rows;
        Ok (negb (Z.land position 1 =? 0) :: ds)
  end.

(** The inner loop of [compressed_hash]: descend through levels with one spent
    child, which do not consume a direction, to the turn itself.  Each turn
    descends at least one row, so the fuel is the row. *)
Fixpoint take_turn (fuel : nat) (read : Z -> result ForestNodeData) (is_right : bool)
    (forest_rows original_position original_row : Z) : result (Z * Z) :=
  match fuel with
  | O => Err out_of_fuel
  | S fuel =>
      require (negb (original_row =? 0)) "compressed position descends below the bottom row";;
      let left_position := left_child original_position forest_rows in
      left ← read left_position;
      right ← read (left_position + 1);
      let original_row := original_row - 1 in
      match nd_spent left, nd_spent right with
      | true, true => Err "compressed position enters a fully spent subtree"
      | true, false => take_turn fuel read is_right forest_rows (left_position + 1) original_row
      | false, true => take_turn fuel read is_right forest_rows left_position original_row
      | false, false => Ok (left_position + Z.b2z is_right, original_row)
      end
  end.

Definition compressed_hash (forest_rows position logical_rows leaves : Z)
    (read : Z -> result ForestNodeData) : result BitcoinNodeHash :=
  position ← translate_position position logical_rows forest_rows;
  '(root, root_row) ← containing_root forest_rows position leaves;
  ds ← directions 65 position root forest_rows;
  '(original_position, _) ←
    foldM (fun '(original_position, original_row) is_right =>
             take_turn 65 read is_right forest_rows original_position original_row)
      (reverse ds) (root, root_row);
  node ← read original_position;
  require (negb (nd_spent node)) "compressed position resolves to an empty subtree";;
  Ok (hash_of_bytes (nd_hash node)).

Definition position_hash_with_overlay (s : SteadyStateForest) (position leaves : Z)
    (overlay : gmap Z JournalNodeState) : result BitcoinNodeHash :=
  compressed_hash (ss_rows s) position (tree_rows leaves) leaves
    (read_with_overlay (ss_forest s) overlay).

(** ** The view of the foreground *)

Record ForestView := { fv_forest : SteadyStateForest; fv_overlay : ForestOverlay; fv_leaves : Z }.

Definition view_read (v : ForestView) : Z -> result ForestNodeData :=
  read_with_overlay (ss_forest (fv_forest v)) (ov_nodes (fv_overlay v)).

Definition view_leaf_hash (v : ForestView) (position : Z) : result BitcoinNodeHash :=
  node ← view_read v position;
  require (negb (nd_spent node)) "leaf position is spent";;
  Ok (hash_of_bytes (nd_hash node)).

Definition view_translate_proof_positions (v : ForestView) (positions : list Z) : result (list Z) :=
  translate_proof_positions positions (fv_leaves v) (ss_rows (fv_forest v))
    (fun position => node ← view_read v position; Ok (nd_spent node)).

Definition view_position_hash (v : ForestView) (position : Z) : result BitcoinNodeHash :=
  position_hash_with_overlay (fv_forest v) position (fv_leaves v) (ov_nodes (fv_overlay v)).

Definition leaf_map_key (o : OutPoint) : bytes := take 16 (sha256 (txid o ++ le_bytes 4 (vout o))).

Definition check_position (v : ForestView) (position : Z) : result Z :=
  require (negb (fv_leaves v <=? position)) "outpoint maps beyond the leaves";; Ok position.

(** The closure of [leaf_positions] over the iterator of fetched values: one
    result per outpoint, in order. *)
Fixpoint resolve_positions (v : ForestView) (outpoints : list OutPoint) (values : list (option bytes))
  : list (result Z) :=
  match outpoints with
  | [] => []
  | o :: outpoints =>
      match ov_positions (fv_overlay v) !! o with
      | Some (_, position) =>
          (position ← ok_or "outpoint is spent" position; check_position v position)
          :: resolve_positions v outpoints values
      | None =>
          match values with
          | [] => Err "leaf-map batch omitted an outpoint" :: resolve_positions v outpoints []
          | value :: values =>
              (value ← ok_or "outpoint is not in the leaf map" value;
               require (zlength value =? 8) "leaf position has a wrong length";;
               check_position v (le_value value))
              :: resolve_positions v outpoints values
          end
      end
  end.

Definition leaf_positions (v : ForestView) (outpoints : list OutPoint) : result (list (result Z)) :=
  let keys := leaf_map_key <$>
    filter (fun o => ov_positions (fv_overlay v) !! o = None) outpoints in
  values ← db_batch_fetch (leaf_map (fv_forest v)) keys;
  Ok (resolve_positions v outpoints values).

(** ** Planning *)

Record PlannedNode := { pn_before : JournalNodeState; pn_after : ForestNodeData }.

Definition staged_read (f : FlatForest) (overlay : gmap Z JournalNodeState)
    (nodes : gmap Z PlannedNode) (position : Z) : result ForestNodeData :=
  match nodes !! position with
  | Some node => Ok (pn_after node)
  | None =>
      match overlay !! position with
      | Some state => ready_state state
      | None => o ← try_read f position; ok_or uninitialized o
      end
  end.

Definition stage_node (f : FlatForest) (overlay : gmap Z JournalNodeState)
    (nodes : gmap Z PlannedNode) (position : Z) (after : ForestNodeData)
  : result (gmap Z PlannedNode) :=
  match nodes !! position with
  | Some entry => Ok (<[position := {| pn_before := pn_before entry; pn_after := after |}]> nodes)
  | None =>
      before ← match overlay !! position with
               | Some state => Ok state
               | None => journal_state f position
               end;
      Ok (<[position := {| pn_before := before; pn_after := after |}]> nodes)
  end.

Definition stage_deletion (f : FlatForest) (overlay : gmap Z JournalNodeState)
    (acc : gmap Z PlannedNode * gset Z) (deletion : OutPoint * Z)
  : result (gmap Z PlannedNode * gset Z) :=
  let '(nodes, positions) := acc in
  let position := deletion.2 in
  node ← staged_read f overlay nodes position;
  nodes ← stage_node f overlay nodes position {| nd_hash := nd_hash node; nd_spent := true |};
  Ok (nodes, {[position]} ∪ positions).

(** The recomputation of one parent from its staged children; the code maps it
    over the parents in parallel when there are many. *)
Definition staged_parent (f : FlatForest) (overlay : gmap Z JournalNodeState)
    (nodes : gmap Z PlannedNode) (forest_rows parent_position : Z) : Z * result ForestNodeData :=
  let left_position := left_child parent_position forest_rows in
  (parent_position,
   left ← staged_read f overlay nodes left_position;
   right ← staged_read f overlay nodes (left_position + 1);
   Ok (combine_children left right)).

(** One iteration of the [while] loop that walks the deletions up. *)
Definition parents_of (positions : gset Z) (base_leaves forest_rows : Z) : list Z :=
  sort_Z (elements (set_map (C := gset Z) (D := gset Z) (fun position => parent position forest_rows)
    (filter (fun position => is_root_position position base_leaves forest_rows = false) positions))).

Fixpoint propagate (fuel : nat) (f : FlatForest) (overlay : gmap Z JournalNodeState)
    (base_leaves forest_rows : Z) (nodes : gmap Z PlannedNode) (positions : gset Z)
  : result (gmap Z PlannedNode) :=
  if bool_decide (positions = ∅) then Ok nodes
  else
    match fuel with
    | O => Err out_of_fuel
    | S fuel =>
        let parents := parents_of positions base_leaves forest_rows in
        let staged_parents := staged_parent f overlay nodes forest_rows <$> parents in
        nodes ← foldM (fun nodes '(parent_position, after) =>
                         after ← after; stage_node f overlay nodes parent_position after)
                  staged_parents nodes;
        propagate fuel f overlay base_leaves forest_rows nodes (list_to_set parents)
    end.

(** The inner [while leaves & (1 << row) != 0] of one addition. *)
Fixpoint carry (fuel : nat) (f : FlatForest) (overlay : gmap Z JournalNodeState)
    (forest_rows leaves : Z) (nodes : gmap Z PlannedNode) (position row : Z)
  : result (gmap Z PlannedNode) :=
  match fuel with
  | O => Err out_of_fuel
  | S fuel =>
      if has_root leaves row then
        let left_position := root_position leaves row forest_rows in
        left ← staged_read f overlay nodes left_position;
        right ← staged_read f overlay nodes position;
        let position := parent position forest_rows in
        nodes ← stage_node f overlay nodes position (combine_children left right);
        carry fuel f overlay forest_rows leaves nodes position (row + 1)
      else Ok nodes
  end.

Definition stage_addition (f : FlatForest) (overlay : gmap Z JournalNodeState) (forest_rows : Z)
    (acc : gmap Z PlannedNode * Z * list JournalIndexDelta) (addition : OutPoint * BitcoinNodeHash)
  : result (gmap Z PlannedNode * Z * list JournalIndexDelta) :=
  let '(nodes, leaves, added) := acc in
  let '(outpoint, hash) := addition in
  let bottom_position := leaves in
  nodes ← stage_node f overlay nodes bottom_position
            {| nd_hash := bytes_of_hash hash; nd_spent := false |};
  nodes ← carry 65 f overlay forest_rows leaves nodes bottom_position 0;
  Ok (nodes, leaves + 1,
      added ++ [{| outpoint := outpoint; id_position := bottom_position |}]).

Definition planned_delta (x : Z * PlannedNode) : JournalForestDelta :=
  {| fd_position := x.1; before := pn_before x.2;
     after := {| ready := true; spent := nd_spent (pn_after x.2); hash := nd_hash (pn_after x.2) |} |}.

Definition delta_le (a b : JournalForestDelta) : Prop := fd_position a <= fd_position b.
#[export] Instance delta_le_dec : RelDecision delta_le.
Proof. intros a b. unfold delta_le. apply _. Defined.

Definition plan_update_with_overlay (s : SteadyStateForest) (height : Z)
    (block_hash previous_block_hash : bytes) (base_leaves : Z) (overlay : gmap Z JournalNodeState)
    (deletions : list (OutPoint * Z)) (additions : list (OutPoint * BitcoinNodeHash))
  : result JournalEntryData :=
  bottom_capacity ← ok_or "forest bottom capacity overflow" (checked_shl 64 1 (ss_rows s));
  final_leaves ← ok_or "leaf count overflow" (checked_add 64 base_leaves (zlength additions));
  require (negb (bottom_capacity <? final_leaves)) "flat forest capacity is exhausted";;
  '(nodes, positions) ← foldM (stage_deletion (ss_forest s) overlay) deletions (∅, ∅);
  nodes ← propagate 66 (ss_forest s) overlay base_leaves (ss_rows s) nodes positions;
  '(nodes, leaves, added) ←
    foldM (stage_addition (ss_forest s) overlay (ss_rows s)) additions (nodes, base_leaves, []);
  Ok {| height := height;
        forest_rows := Some (ss_rows s);
        block_hash := block_hash;
        num_leaves := leaves;
        previous_block_hash := previous_block_hash;
        forest := merge_sort delta_le (planned_delta <$> map_to_list nodes);
        removed := (fun d => {| outpoint := d.1; id_position := d.2 |}) <$> deletions;
        added := added |}.

Definition view_plan_update (v : ForestView) (height : Z) (block_hash previous_block_hash : bytes)
    (deletions : list (OutPoint * Z)) (additions : list (OutPoint * BitcoinNodeHash))
  : result JournalEntryData :=
  plan_update_with_overlay (fv_forest v) height block_hash previous_block_hash (fv_leaves v)
    (ov_nodes (fv_overlay v)) deletions additions.

Definition changed_nodes (entry : JournalEntryData) : gmap Z JournalNodeState :=
  foldl (fun m delta => <[fd_position delta := after delta]> m) ∅ (forest entry).

Definition roots_after_with_overlay (s : SteadyStateForest) (entry : JournalEntryData)
    (base_leaves : Z) (overlay : gmap Z JournalNodeState) : result (list BitcoinNodeHash) :=
  previous ← previous_num_leaves entry;
  require (previous =? base_leaves) "planned update begins with another leaf count";;
  let changed := changed_nodes entry in
  mapM (fun row =>
          let position := root_position (num_leaves entry) row (ss_rows s) in
          state ← match changed !! position with
                  | Some state => Ok state
                  | None => match overlay !! position with
                            | Some state => Ok state
                            | None => journal_state (ss_forest s) position
                            end
                  end;
          require (ready state) "planned root position is uninitialized";;
          Ok (accumulator_hash {| nd_hash := hash state; nd_spent := spent state |}))
    (filter (fun row => has_root (num_leaves entry) row = true) (reverse (zrange 0 (ss_rows s + 1)))).

(** ** Applying journal entries *)

Definition journal_forest_rows (s : SteadyStateForest) (entry : JournalEntryData) : result Z :=
  let rows := default (ss_rows s) (forest_rows entry) in
  require (negb (ss_rows s <? rows)) "journal forest height exceeds current height";; Ok rows.

Definition journal_position (s : SteadyStateForest) (position rows : Z) : result Z :=
  if rows =? ss_rows s then Ok position else translate_position position rows (ss_rows s).

Definition apply_leaf_map_delta (s : SteadyStateForest) (removed inserted : list JournalIndexDelta)
  : result SteadyStateForest :=
  let keys := (fun delta => leaf_map_key (outpoint delta)) <$> (removed ++ inserted) in
  let entries := (fun delta => (leaf_map_key (outpoint delta), le_bytes 8 (id_position delta)))
                   <$> inserted in
  let keys := dedup_by_key id (sort_by_key id bytes_leb keys) in
  let entries := dedup_by_key fst (sort_by_key fst bytes_leb (reverse entries)) in
  db ← db_batch_delete (leaf_map s) keys;
  db ← db_put_batch db entries;
  Ok (with_leaf_map s db).

Definition apply_node (s : SteadyStateForest) (rows : Z) (state : JournalForestDelta -> JournalNodeState)
    (f : FlatForest) (delta : JournalForestDelta) : result FlatForest :=
  position ← journal_position s (fd_position delta) rows;
  set_journal_state f position (state delta).

Definition apply_forward (s : SteadyStateForest) (entry : JournalEntryData)
  : result SteadyStateForest :=
  rows ← journal_forest_rows s entry;
  f ← foldM (apply_node s rows after) (forest entry) (ss_forest s);
  s ← apply_leaf_map_delta (with_forest s f) (removed entry) (added entry);
  Ok (with_leaves s (num_leaves entry)).

Definition apply_backward (s : SteadyStateForest) (entry : JournalEntryData)
  : result SteadyStateForest :=
  rows ← journal_forest_rows s entry;
  f ← foldM (apply_node s rows before) (reverse (forest entry)) (ss_forest s);
  s ← apply_leaf_map_delta (with_forest s f) (added entry) (removed entry);
  n ← previous_num_leaves entry;
  Ok (with_leaves s n).

Definition LEAF_MAP_BLOCK_SIZE : Z := 2 ^ 20.

Definition compact_leaf_map (s : SteadyStateForest) : result SteadyStateForest :=
  db ← db_compact (leaf_map s) (wrap 16 (LEAF_MAP_BLOCK_SIZE / 32 / 2));
  Ok (with_leaf_map s db).

(** The heap of [merged_forest_writes]: the next delta of each block, least
    (position, block, index) first. *)
Definition Head : Type := Z * (nat * nat).
Definition head_leb (a b : Head) : bool :=
  let '(p, (bl, i)) := a in let '(p', (bl', i')) := b in
  (p <? p') || ((p =? p') && ((bl <? bl')%nat || ((bl =? bl')%nat && (i <=? i')%nat))).

Definition heap_push (x : Head) (h : list Head) : list Head := insert_by_key id head_leb x h.

Definition delta_of (entries : list JournalEntryData) (block index : nat) : option JournalForestDelta :=
  entry ← entries !! block; forest entry !! index.

Definition push_next (entries : list JournalEntryData) (block index : nat) (heads : list Head) :=
  match delta_of entries block (S index) with
  | Some next => heap_push (fd_position next, (block, S index)) heads
  | None => heads
  end.

(** [latest.max((block, index))] *)
Definition later (a b : nat * nat) : nat * nat :=
  if ((a.1 <? b.1) || ((a.1 =? b.1) && (a.2 <=? b.2)))%nat then b else a.

(** The inner [loop]: consume every head at [position]. *)
Fixpoint merge_position (fuel : nat) (entries : list JournalEntryData) (position : Z)
    (block index : nat) (latest : nat * nat) (heads : list Head) : (nat * nat) * list Head :=
  match fuel with
  | O => (latest, heads)
  | S fuel =>
      let heads := push_next entries block index heads in
      match heads with
      | (next_position, (next_block, next_index)) :: rest =>
          if next_position =? position
          then merge_position fuel entries position next_block next_index
                 (later latest (next_block, next_index)) rest
          else (latest, heads)
      | [] => (latest, heads)
      end
  end.

Definition total_deltas (entries : list JournalEntryData) : nat :=
  sum_list ((fun e => length (forest e)) <$> entries).

Fixpoint merge_heads (fuel : nat) (entries : list JournalEntryData) (heads : list Head)
  : list (Z * JournalNodeState) :=
  match fuel with
  | O => []
  | S fuel =>
      match heads with
      | [] => []
      | (position, (block, index)) :: rest =>
          let '(latest, heads) :=
            merge_position (S (total_deltas entries)) entries position block index (block, index) rest in
          match delta_of entries latest.1 latest.2 with
          | Some delta => (position, after delta) :: merge_heads fuel entries heads
          | None => []
          end
      end
  end.

Definition first_heads (entries : list JournalEntryData) : list Head :=
  omap (fun '(block, entry) => (fun delta => (fd_position delta, (block, 0%nat))) <$> head (forest entry))
    (zip (seq 0 (length entries)) entries).

Definition merged_forest_writes (entries : list JournalEntryData) : list (Z * JournalNodeState) :=
  merge_heads (S (total_deltas entries)) entries (foldr heap_push [] (first_heads entries)).

Definition apply_forward_batch (s : SteadyStateForest) (entries : list JournalEntryData)
  : result SteadyStateForest :=
  foldM (fun _ entry => rows ← journal_forest_rows s entry;
           require (rows =? ss_rows s) "published window spans different physical forest layouts")
    entries tt;;
  f ← foldM (fun f '(position, state) => set_journal_state f position state)
        (merged_forest_writes entries) (ss_forest s);
  foldM (fun s entry =>
           s ← apply_leaf_map_delta s (removed entry) (added entry);
           let s := with_leaves s (num_leaves entry) in
           if height entry mod 1000 =? 0 then compact_leaf_map s else Ok s)
    entries (with_forest s f).

(** [replay_journal]: undo every retained record, then redo the forward ones. *)
Definition replay_journal (s : SteadyStateForest) (needs_replay : bool)
    (records : list (JournalStatus * JournalEntryData)) : result (bool * SteadyStateForest) :=
  if negb needs_replay then Ok (false, s)
  else
    s ← foldM (fun s record => apply_backward s record.2) (reverse records) s;
    s ← foldM (fun s record => if bool_decide (record.1 = Forward) then apply_forward s record.2 else Ok s)
          records s;
    Ok (true, s).

End Forest.
End SteadyState.
