(* ===== verification/Accumulator.v ===== *)
(** What the stored forest means: the value of every node as a function of the
    leaves alone, independent of how and in which order nodes were written. *)

From S2P Require Import Prelude Bytes Sorting Positions JournalEntry Forest SteadyState.
Import Sorting.Sorting Positions.Positions JournalEntry.JournalEntry Forest.Forest SteadyState.SteadyState.

Module Accumulator.

Section Spec.
Context `{NodeHashing}.

(** The node at offset [o], [n] rows above the leaves [leaf]. *)
Fixpoint subtree (leaf : Z -> ForestNodeData) (n : nat) (o : Z) : ForestNodeData :=
  match n with
  | O => leaf o
  | S n => combine_children (subtree leaf n (2 * o)) (subtree leaf n (2 * o + 1))
  end.

(** A store of [L] leaves is well formed when each node of its trees is the value
    of its subtree. *)
Definition wf_forest (read : Z -> result ForestNodeData) (rows L : Z) (leaf : Z -> ForestNodeData)
  : Prop :=
  forall r o, populated L r o -> read (pos rows r o) = Ok (subtree leaf (Z.to_nat r) o).

(** The accumulator's roots, largest tree first. *)
Definition spec_roots (leaf : Z -> ForestNodeData) (rows L : Z) : list BitcoinNodeHash :=
  (fun r => accumulator_hash (subtree leaf (Z.to_nat r) (root_off L r))) <$>
    filter (fun row => has_root L row = true) (reverse (zrange 0 (rows + 1))).

(** The leaves after a block: the deleted ones are spent, the new ones follow. *)
Definition leaf_delete (deleted : list Z) (leaf : Z -> ForestNodeData) (o : Z) : ForestNodeData :=
  if decide (o ∈ deleted) then {| nd_hash := nd_hash (leaf o); nd_spent := true |} else leaf o.

Definition leaf_put (leaf : Z -> ForestNodeData) (i : Z) (h : BitcoinNodeHash) (o : Z) : ForestNodeData :=
  if decide (o = i) then {| nd_hash := bytes_of_hash h; nd_spent := false |} else leaf o.

Fixpoint leaf_append (leaf : Z -> ForestNodeData) (base : Z) (hs : list BitcoinNodeHash)
  : Z -> ForestNodeData :=
  match hs with
  | [] => leaf
  | h :: hs => leaf_append (leaf_put leaf base h) (base + 1) hs
  end.

(** The leaf that the block leaves at each offset, in closed form. *)
Lemma leaf_append_eq leaf base hs o :
  leaf_append leaf base hs o =
    match zlookup hs (o - base) with
    | Some h => {| nd_hash := bytes_of_hash h; nd_spent := false |}
    | None => leaf o
    end.
Proof.
  revert leaf base; induction hs as [|h hs IH]; intros leaf base; cbn.
  { unfold zlookup. by case_bool_decide. }
  rewrite IH. unfold leaf_put, zlookup. destruct (decide (o = base)) as [->|Hne].
  - rewrite Z.sub_diag, bool_decide_eq_false_2 by lia. done.
  - destruct (decide (0 <= o - base)).
    + rewrite !bool_decide_eq_true_2 by lia.
      by replace (Z.to_nat (o - base)) with (S (Z.to_nat (o - (base + 1)))) by lia.
    + by rewrite !bool_decide_eq_false_2 by lia.
Qed.

Lemma subtree_ext leaf leaf' n o :
  (forall i, o * 2 ^ Z.of_nat n <= i < (o + 1) * 2 ^ Z.of_nat n -> leaf i = leaf' i) ->
  subtree leaf n o = subtree leaf' n o.
Proof.
  revert o; induction n as [|n IH]; intros o Hext.
  { apply Hext. change (2 ^ Z.of_nat 0) with 1. lia. }
  cbn [subtree]. pose proof (pow2_pos (Z.of_nat n) ltac:(lia)).
  rewrite Nat2Z.inj_succ, Z.pow_succ_r in Hext by lia.
  rewrite !IH; [done| |]; intros i Hi; apply Hext; nia.
Qed.

Lemma subtree_ext_row leaf leaf' r o : 0 <= r ->
  (forall i, i / 2 ^ r = o -> leaf i = leaf' i) ->
  subtree leaf (Z.to_nat r) o = subtree leaf' (Z.to_nat r) o.
Proof.
  intros Hr Hext. apply subtree_ext. rewrite Z2Nat.id by done. intros i Hi. apply Hext.
  pose proof (pow2_pos r Hr). symmetry. apply Z.div_unique with (i - o * 2 ^ r); lia.
Qed.

Lemma subtree_up leaf r o : 0 <= r ->
  subtree leaf (Z.to_nat (r + 1)) o =
    combine_children (subtree leaf (Z.to_nat r) (2 * o)) (subtree leaf (Z.to_nat r) (2 * o + 1)).
Proof. intros. by replace (Z.to_nat (r + 1)) with (S (Z.to_nat r)) by lia. Qed.

Lemma wf_forest_ext read rows L leaf leaf' : 0 <= L ->
  (forall o, 0 <= o < L -> leaf o = leaf' o) ->
  wf_forest read rows L leaf -> wf_forest read rows L leaf'.
Proof.
  intros HL Hext Hwf r o Hp. rewrite Hwf by done. f_equal. destruct Hp as [Hr Ho].
  apply subtree_ext_row; [done|]. intros i <-. apply Hext. pose proof (pow2_pos r Hr).
  pose proof (Z.div_mod i (2 ^ r) ltac:(lia)). pose proof (Z.mod_pos_bound i (2 ^ r) ltac:(lia)).
  pose proof (Z.mul_div_le L (2 ^ r) ltac:(lia)).
  assert (2 ^ r * (i / 2 ^ r + 1) <= 2 ^ r * (L / 2 ^ r)) by (apply Z.mul_le_mono_nonneg_l; lia).
  assert (0 <= 2 ^ r * (i / 2 ^ r)) by (apply Z.mul_nonneg_nonneg; lia). lia.
Qed.

End Spec.

(** ** The trees of a forest *)

Lemma populated_child L r o : 0 <= r -> populated L (r + 1) o ->
  populated L r (2 * o) /\ populated L r (2 * o + 1).
Proof.
  intros Hr [_ Ho]. rewrite half_count in Ho by done.
  pose proof (Z.mul_div_le (L / 2 ^ r) 2 ltac:(lia)). split; split; lia.
Qed.

Lemma populated_child_of L r o : 0 <= r -> 0 <= o -> populated L (r + 1) (o / 2) -> populated L r o.
Proof.
  intros Hr Ho Hp. destruct (populated_child L r _ Hr Hp) as [[_ H0] [_ H1]].
  pose proof (Z.div_mod o 2 ltac:(lia)). pose proof (Z.mod_pos_bound o 2 ltac:(lia)). split; lia.
Qed.

Lemma populated_below L k r d : 0 <= k <= r -> 0 <= d ->
  populated L r (d / 2 ^ r) -> populated L k (d / 2 ^ k).
Proof.
  intros Hk Hd [_ [_ Hp]]. split; [lia|].
  pose proof (pow2_pos k ltac:(lia)) as Hpk. pose proof (pow2_pos r ltac:(lia)) as Hpr.
  split; [by apply Z.div_pos; lia|].
  assert (2 ^ r = 2 ^ (r - k) * 2 ^ k) as Er by (rewrite <- pow2_split by lia; f_equal; lia).
  pose proof (Z.mul_div_le L (2 ^ r) ltac:(lia)).
  pose proof (Z.mul_succ_div_gt d (2 ^ r) ltac:(lia)).
  assert (d / 2 ^ k < 2 ^ (r - k) * (d / 2 ^ r + 1)) by (apply Z.div_lt_upper_bound; [lia|]; nia).
  assert (2 ^ (r - k) * (d / 2 ^ r + 1) <= L / 2 ^ k) by (apply Z.div_le_lower_bound; [lia|]; nia).
  lia.
Qed.

Lemma not_root_of_parent L r o : 0 <= r -> populated L (r + 1) (o / 2) -> is_root L r o = false.
Proof.
  intros Hr [_ Hp]. unfold is_root, root_off. apply andb_false_iff. right. apply Z.eqb_neq.
  intros ->. rewrite Z.mul_comm, Z.div_mul in Hp by lia. lia.
Qed.

Lemma root_populated L r : 0 <= r -> 0 <= L -> Z.testbit L r = true -> populated L r (root_off L r).
Proof.
  intros Hr HL Hb. split; [done|]. unfold root_off. rewrite (count_parity L r Hr), Hb. cbn [Z.b2z].
  assert (0 <= L / 2 ^ (r + 1)) by (apply Z.div_pos; [lia | apply pow2_pos; lia]). lia.
Qed.

(** ** Concrete instances, for evaluating the model *)

Definition toy_hashing : NodeHashing := {|
  BitcoinNodeHash := bytes;
  empty_hash := zeros 32;
  hash_of_bytes := fun h => h;
  bytes_of_hash := fun h => h;
  parent_hash := fun l r => le_bytes 32 (2 * le_value l + 3 * le_value r + 1);
  bytes_of_hash_of_bytes := fun h _ => eq_refl
|}.

Definition toy_sha256 : Sha256 := fun bs => le_bytes 32 (le_value bs).

Definition toy_db : LeafMapDb := {|
  Db := gmap bytes bytes;
  db_get := fun db k => db !! k;
  db_batch_fetch := fun db ks => Ok ((fun k => db !! k) <$> ks);
  db_batch_delete := fun db ks => Ok (foldl (fun db k => delete k db) db ks);
  db_put_batch := fun db kvs => Ok (write_all db kvs);
  db_put := fun db k v => Ok (<[k := v]> db);
  db_compact := fun db _ => Ok db
|}.

(** ** Node writes of an entry *)

Definition forest_writes (e : JournalEntryData) : list (Z * JournalNodeState) :=
  (fun delta => (fd_position delta, after delta)) <$> forest e.
Definition forest_unwrites (e : JournalEntryData) : list (Z * JournalNodeState) :=
  (fun delta => (fd_position delta, before delta)) <$> forest e.

Lemma changed_nodes_lookup e p : changed_nodes e !! p = last_write p (forest_writes e).
Proof.
  assert (forall l m, foldl (fun m delta => <[fd_position delta := after delta]> m) m l
    = write_all m ((fun delta => (fd_position delta, after delta)) <$> l)) as E.
  { induction l as [|d l IH]; intros m; [done|]. cbn. rewrite IH. done. }
  unfold changed_nodes. rewrite E, write_all_lookup. fold (forest_writes e).
  rewrite lookup_empty. by destruct (last_write p _).
Qed.

(** An entry writes each node at most once, in position order. *)
Definition entry_sorted (e : JournalEntryData) : Prop :=
  StronglySorted Z.lt (fd_position <$> forest e).

Lemma StronglySorted_NoDup (l : list Z) : StronglySorted Z.lt l -> NoDup l.
Proof.
  induction 1 as [|x l Hs IH Hall]; constructor; [|done].
  intros Hin. rewrite Forall_forall in Hall. apply Hall in Hin. lia.
Qed.

Lemma forest_writes_fst e : (forest_writes e).*1 = fd_position <$> forest e.
Proof. unfold forest_writes. by rewrite <- list_fmap_compose. Qed.
Lemma forest_unwrites_fst e : (forest_unwrites e).*1 = fd_position <$> forest e.
Proof. unfold forest_unwrites. by rewrite <- list_fmap_compose. Qed.

End Accumulator.
