(* ===== verification/PlanUpdate.v ===== *)
(** Planning a block ([plan_update_with_overlay] of
    [src/src/parallel_forest.rs]): the planned mutation turns a well-formed
    forest into the well-formed forest of the block's leaves, and [roots_after]
    returns the roots of that forest. *)

From S2P Require Import Prelude Bytes Sorting Positions JournalEntry Forest SteadyState Accumulator.
Import Sorting.Sorting Positions.Positions JournalEntry.JournalEntry Forest.Forest SteadyState.SteadyState
  Accumulator.Accumulator.

Module PlanUpdate.

Lemma pos_next rows r o : pos rows r o + 1 = pos rows r (o + 1).
Proof. unfold pos. lia. Qed.

#[local] Opaque pos subtree has_root root_position parent left_child is_root_position.

Section Plan.
Context `{NodeHashing} `{Sha256} `{LeafMapDb}.
Context (f : FlatForest) (overlay : gmap Z JournalNodeState) (rows : Z).
Context (Hrows : 0 <= rows <= 62) (Hcount : ff_count f = 2 ^ (rows + 1) - 1).

(** The state of a node before the block. *)
Definition prior (p : Z) : JournalNodeState :=
  match overlay !! p with Some st => st | None => state_of (node_at f p) end.

Definition is_pos (p : Z) : Prop := exists r o, valid rows r o /\ p = pos rows r o.

Lemma is_pos_in p : is_pos p -> p < ff_count f.
Proof.
  intros (r & o & Hv & ->). pose proof (pos_bounds rows ltac:(lia) r o Hv).
  destruct Hv. pose proof (pow2_pos (rows - r)). lia.
Qed.

Lemma is_pos_intro r o : valid rows r o -> is_pos (pos rows r o).
Proof. intros. by exists r, o. Qed.

Lemma staged_read_eq nodes p :
  staged_read f overlay nodes p =
    match nodes !! p with Some n => Ok (pn_after n) | None => read_with_overlay f overlay p end.
Proof. done. Qed.

Definition staged (nodes : gmap Z PlannedNode) (p : Z) (a : ForestNodeData) : gmap Z PlannedNode :=
  <[p := {| pn_before := match nodes !! p with Some e => pn_before e | None => prior p end;
            pn_after := a |}]> nodes.

Lemma stage_node_eq nodes p a : is_pos p ->
  stage_node f overlay nodes p a = Ok (staged nodes p a).
Proof.
  intros Hp%is_pos_in. unfold stage_node, staged, prior. destruct (nodes !! p); [done|].
  destruct (overlay !! p); [done|]. by rewrite journal_state_eq.
Qed.

Lemma staged_read_staged nodes p a q :
  staged_read f overlay (staged nodes p a) q = if decide (p = q) then Ok a else staged_read f overlay nodes q.
Proof.
  rewrite !staged_read_eq. unfold staged. case_decide as E.
  - subst. by rewrite lookup_insert_eq.
  - by rewrite lookup_insert_ne.
Qed.

(** Every staged node is a position of the forest and remembers its prior state. *)
Definition nodes_ok (nodes : gmap Z PlannedNode) : Prop :=
  forall p n, nodes !! p = Some n -> pn_before n = prior p /\ is_pos p.

Lemma nodes_ok_staged nodes p a : is_pos p -> nodes_ok nodes -> nodes_ok (staged nodes p a).
Proof.
  intros Hp Hok q n. unfold staged. destruct (decide (p = q)) as [<-|Hne].
  - rewrite lookup_insert_eq. intros [= <-]. split; [|done]. cbn.
    destruct (nodes !! p) eqn:E; [|done]. by apply Hok.
  - rewrite lookup_insert_ne by done. apply Hok.
Qed.

(** ** Staging a list of nodes *)

Lemma stage_all nodes0 (v : Z -> ForestNodeData) ps nodes :
  (forall p, p ∈ ps -> is_pos p /\ staged_parent f overlay nodes0 rows p = (p, Ok (v p))) ->
  nodes_ok nodes ->
  exists nodes',
    foldM (fun nodes '(parent_position, after) =>
             after ← after; stage_node f overlay nodes parent_position after)
      (staged_parent f overlay nodes0 rows <$> ps) nodes = Ok nodes' /\ nodes_ok nodes' /\
    forall q, staged_read f overlay nodes' q =
      if decide (q ∈ ps) then Ok (v q) else staged_read f overlay nodes q.
Proof.
  revert nodes; induction ps as [|p ps IH]; intros nodes Hps Hok.
  - exists nodes. split_and!; [done..|]. intros q. by rewrite decide_False by apply not_elem_of_nil.
  - destruct (Hps p) as [Hp Hv]; [by left|].
    cbn [fmap list_fmap foldM]. rewrite Hv. step_ok.
    rewrite stage_node_eq by done. step_ok.
    destruct (IH (staged nodes p (v p))) as (nodes' & E & Hok' & Hr).
    { intros. apply Hps. by right. }
    { by apply nodes_ok_staged. }
    exists nodes'. split_and!; [done..|]. intros q. rewrite Hr, staged_read_staged.
    destruct (decide (q ∈ ps)) as [Hin|Hin].
    + rewrite decide_True; [done|by right].
    + case_decide as E'.
      * subst. rewrite decide_True by (by left). done.
      * rewrite decide_False; [done|]. rewrite elem_of_cons. intros [->|]; done.
Qed.

(** ** Deletions *)

Section Deletions.
Context (base : Z) (Hbase : is_u64 base) (Hfits : base <= 2 ^ rows).
Context (leaf : Z -> ForestNodeData) (deleted : list Z).
Context (Hdel : forall d, d ∈ deleted -> 0 <= d < base).

Let leaf' := leaf_delete deleted leaf.

Definition dirty (k o : Z) : Prop := exists d, d ∈ deleted /\ d / 2 ^ k = o.

Definition frontier (k : Z) (P : gset Z) : Prop :=
  forall p, p ∈ P <-> exists o, populated base k o /\ dirty k o /\ p = pos rows k o.

Lemma Hrows63 : 0 <= rows <= 63. Proof. lia. Qed.

Lemma pop_valid r o : populated base r o -> valid rows r o.
Proof. by apply (populated_valid base rows Hrows63 Hbase Hfits). Qed.

Lemma clean_subtree k o : 0 <= k -> ~ dirty k o ->
  subtree leaf' (Z.to_nat k) o = subtree leaf (Z.to_nat k) o.
Proof.
  intros Hk Hc. apply subtree_ext_row; [done|]. intros i Hi. unfold leaf', leaf_delete.
  rewrite decide_False; [done|]. intros Hin. apply Hc. by exists i.
Qed.

Lemma dirty_up k o : 0 <= k -> dirty k o -> dirty (k + 1) (o / 2).
Proof.
  intros Hk (d & Hd & <-). exists d. split; [done|]. by rewrite half_count.
Qed.

Lemma dirty_down k o : 0 <= k -> dirty (k + 1) o -> exists o', dirty k o' /\ o' / 2 = o.
Proof.
  intros Hk (d & Hd & <-). exists (d / 2 ^ k). split; [by exists d|]. by rewrite half_count.
Qed.

Lemma parents_of_spec k P p : 0 <= k -> frontier k P ->
  p ∈ parents_of P base rows <-> exists o, populated base (k + 1) o /\ dirty (k + 1) o /\ p = pos rows (k + 1) o.
Proof.
  intros Hk HP. unfold parents_of, sort_Z. rewrite merge_sort_Permutation, elem_of_elements, elem_of_map.
  split.
  - intros (q & -> & [Hroot Hq]%elem_of_filter). apply HP in Hq as (o & Hp & Hd & ->).
    pose proof (pop_valid _ _ Hp) as Hv. rewrite is_root_position_eq in Hroot by (done || lia).
    destruct (populated_parent base rows Hrows63 Hbase Hfits k o Hp Hroot) as [Hlt Hp'].
    exists (o / 2). split_and!; [done|by apply dirty_up|]. apply parent_pos; (done || lia).
  - intros (o & Hp & Hd & ->). destruct (dirty_down k o Hk Hd) as (o' & Hd' & <-).
    assert (0 <= o') as Ho'.
    { destruct Hd' as (d & Hin & <-). apply Hdel in Hin. apply Z.div_pos; [lia | apply pow2_pos; lia]. }
    pose proof (populated_child_of base k o' Hk Ho' Hp) as Hp'. pose proof (pop_valid _ _ Hp') as Hv.
    pose proof (pop_valid _ _ Hp) as [Hr _].
    exists (pos rows k o'). split.
    + symmetry. apply parent_pos; (done || lia).
    + apply elem_of_filter. split.
      * rewrite is_root_position_eq by (done || lia). by apply not_root_of_parent.
      * apply HP. by exists o'.
Qed.

(** The recomputed value of a parent whose children are up to date. *)
Lemma staged_parent_eq nodes k o : 0 <= k -> populated base (k + 1) o ->
  (forall o', populated base k o' ->
     staged_read f overlay nodes (pos rows k o') = Ok (subtree leaf' (Z.to_nat k) o')) ->
  staged_parent f overlay nodes rows (pos rows (k + 1) o)
    = (pos rows (k + 1) o, Ok (subtree leaf' (Z.to_nat (k + 1)) o)).
Proof.
  intros Hk Hp Hread. pose proof (pop_valid _ _ Hp) as Hv.
  destruct (populated_child base k o Hk Hp) as [Hl Hr]. unfold staged_parent.
  rewrite left_child_pos by (done || lia). replace (k + 1 - 1) with k by lia.
  rewrite pos_next.
  rewrite !Hread by done. step_ok. by rewrite subtree_up.
Qed.

Lemma propagate_spec fuel k nodes P :
  0 <= k -> rows + 1 < k + Z.of_nat fuel -> nodes_ok nodes -> frontier k P ->
  (forall r o, populated base r o -> staged_read f overlay nodes (pos rows r o) =
     Ok (if decide (r <= k) then subtree leaf' (Z.to_nat r) o else subtree leaf (Z.to_nat r) o)) ->
  exists nodes', propagate fuel f overlay base rows nodes P = Ok nodes' /\ nodes_ok nodes' /\
    wf_forest (staged_read f overlay nodes') rows base leaf'.
Proof.
  revert k nodes P; induction fuel as [|fuel IH]; intros k nodes P Hk Hfuel Hok HP Hread.
  all: destruct (decide (P = ∅)) as [HPe|HPe].
  1, 3: cbn [propagate]; rewrite bool_decide_eq_true_2 by done; exists nodes; split_and!; [done..|];
    intros r o Hp; rewrite Hread by done; case_decide; [done|]; f_equal; symmetry;
    apply clean_subtree; [lia|]; intros (d & Hd & <-);
    assert (pos rows k (d / 2 ^ k) ∈ P) as Hin;
      [apply HP; exists (d / 2 ^ k); split_and!; [|by exists d|done];
       apply (populated_below base k r d); [lia | apply Hdel in Hd; lia | done] | set_solver].
  all: assert (k <= rows) as Hkr;
    [apply set_choose_L in HPe as [p (o & Hp & _ & _)%HP]; apply pop_valid in Hp as [? _]; lia|].
  { lia. }
  cbn [propagate]. rewrite bool_decide_eq_false_2 by done.
  assert (forall o, populated base (k + 1) o -> staged_parent f overlay nodes rows (pos rows (k + 1) o)
    = (pos rows (k + 1) o, Ok (subtree leaf' (Z.to_nat (k + 1)) o))) as Hpar.
  { intros o Hp. apply staged_parent_eq; [done..|]. intros o' Hp'. rewrite Hread by done.
    by rewrite decide_True by lia. }
  destruct (stage_all nodes (fun p => match (staged_parent f overlay nodes rows p).2 with
       | Ok v => v | Err _ => leaf 0 end) (parents_of P base rows) nodes)
    as (nodes' & E & Hok' & Hr'); [|done|].
  { intros p (o & Hp & _ & ->)%(parents_of_spec k P p Hk HP).
    split; [by apply is_pos_intro, pop_valid|]. by rewrite Hpar. }
  rewrite E. step_ok. apply (IH (k + 1)); [lia|lia|done| |].
  - intros p. rewrite elem_of_list_to_set. by apply parents_of_spec.
  - intros r o Hp. rewrite Hr'. pose proof (pop_valid r o Hp) as Hv. case_decide as Hin.
    + apply (parents_of_spec k P _ Hk HP) in Hin as (o' & Hp' & _ & Epos).
      pose proof (pop_valid _ _ Hp') as Hv'.
      apply (pos_inj rows Hrows63) in Epos as [-> ->]; [|done|done].
      rewrite decide_True by lia. by rewrite Hpar.
    + rewrite Hread by done. f_equal. destruct (decide (r <= k)); [by rewrite decide_True by lia|].
      case_decide; [|done]. assert (r = k + 1) as -> by lia. symmetry. apply clean_subtree; [lia|].
      intros Hd. apply Hin, (parents_of_spec k P _ Hk HP). by exists o.
Qed.

End Deletions.

(** ** Additions *)

(** The node that ends the partial row [r] once leaf [m] is there. *)
Lemma last_valid m r : 0 <= m < 2 ^ rows -> 0 <= r <= rows -> valid rows r (m / 2 ^ r).
Proof.
  intros Hm Hr. pose proof (pow2_pos r ltac:(lia)). split; [lia|].
  split; [apply Z.div_pos; lia|]. apply Z.div_lt_upper_bound; [lia|].
  rewrite <- pow2_split by lia. replace (r + (rows - r)) with rows by lia. lia.
Qed.

Lemma testbit_odd m r : 0 <= r -> 0 <= m ->
  m / 2 ^ r = 2 * (m / 2 ^ (r + 1)) + Z.b2z (Z.testbit m r).
Proof. intros. by apply count_parity. Qed.

Lemma pow2_div_next m r : 0 <= r -> 0 <= m -> m / 2 ^ r = 2 * (m / 2 ^ (r + 1)) + 1 ->
  (m + 1) mod 2 ^ r = 0 -> (m + 1) mod 2 ^ (r + 1) = 0.
Proof.
  intros Hr Hm Hodd Hz. pose proof (pow2_pos r Hr). rewrite pow2_succ by done.
  apply Z.mod_divide in Hz as [q Hq]; [|lia].
  assert (m / 2 ^ r = q - 1) as Eq.
  { symmetry. apply Z.div_unique with (2 ^ r - 1); lia. }
  apply Z.mod_divide; [lia|]. exists (m / 2 ^ (r + 1) + 1). nia.
Qed.

Lemma next_row_count m r : 0 <= r -> 0 <= m -> (m + 1) mod 2 ^ r = 0 -> (m + 1) / 2 ^ r = m / 2 ^ r + 1.
Proof.
  intros Hr Hm Hz. pose proof (pow2_pos r Hr). apply Z.mod_divide in Hz as [q Hq]; [|lia].
  replace (m / 2 ^ r) with (q - 1).
  - rewrite Hq, Z.div_mul by lia. lia.
  - apply Z.div_unique with (2 ^ r - 1); lia.
Qed.

Lemma mod_down m r k : 0 <= k <= r -> (m + 1) mod 2 ^ r = 0 -> (m + 1) mod 2 ^ k = 0.
Proof.
  intros Hk Hz. pose proof (pow2_pos k ltac:(lia)). pose proof (pow2_pos r ltac:(lia)).
  apply Z.mod_divide in Hz as [q Hq]; [|lia]. apply Z.mod_divide; [lia|].
  exists (q * 2 ^ (r - k)). rewrite Hq, <- Z.mul_assoc, <- pow2_split by lia. do 2 f_equal. lia.
Qed.

(** Above the first clear bit, the row counts do not change. *)
Lemma same_count_above m r k : 0 <= r < k -> 0 <= m -> Z.testbit m r = false ->
  (m + 1) / 2 ^ k = m / 2 ^ k.
Proof.
  intros Hrk Hm Hb. assert ((m + 1) / 2 ^ (r + 1) = m / 2 ^ (r + 1)) as E.
  { pose proof (testbit_odd m r ltac:(lia) Hm) as Hev. rewrite Hb in Hev. cbn [Z.b2z] in Hev.
    pose proof (pow2_pos r ltac:(lia)). pose proof (pow2_succ r ltac:(lia)) as Es.
    pose proof (Z.mul_succ_div_gt m (2 ^ r) ltac:(lia)).
    pose proof (Z.mul_div_le m (2 ^ (r + 1)) ltac:(lia)).
    symmetry. apply Z.div_unique with (m + 1 - 2 ^ (r + 1) * (m / 2 ^ (r + 1))); [|lia].
    left. rewrite Es in *. nia. }
  replace k with (r + 1 + (k - (r + 1))) by lia. rewrite pow2_split by lia.
  by rewrite <- !Z.div_div, E by (try apply Z.pow_nonzero; try apply pow2_pos; lia).
Qed.

Section Addition.
Context (m : Z) (Hm : 0 <= m < 2 ^ rows) (leaf : Z -> ForestNodeData) (h : BitcoinNodeHash).

Let leaf' := leaf_put leaf m h.

Lemma unaffected r o : 0 <= r -> o <> m / 2 ^ r ->
  subtree leaf' (Z.to_nat r) o = subtree leaf (Z.to_nat r) o.
Proof.
  intros Hr Ho. apply subtree_ext_row; [done|]. intros i Hi. unfold leaf', leaf_put.
  rewrite decide_False; [done|]. by intros ->.
Qed.

Lemma m_u64 : is_u64 m. Proof. pose proof (pow2_lt rows 64). split; lia. Qed.

Lemma has_bit_row r : 0 <= r -> (m + 1) mod 2 ^ r = 0 -> r <= rows.
Proof.
  intros Hr Hz. apply Z.nlt_ge. intros Hlt. pose proof (pow2_lt rows r ltac:(lia)).
  rewrite Z.mod_small in Hz by lia. lia.
Qed.

Lemma carry_spec fuel r nodes :
  0 <= r -> 64 < r + Z.of_nat fuel -> (m + 1) mod 2 ^ r = 0 -> nodes_ok nodes ->
  wf_forest (staged_read f overlay nodes) rows m leaf ->
  (forall k, 0 <= k <= r ->
     staged_read f overlay nodes (pos rows k (m / 2 ^ k)) = Ok (subtree leaf' (Z.to_nat k) (m / 2 ^ k))) ->
  exists nodes', carry fuel f overlay rows m nodes (pos rows r (m / 2 ^ r)) r = Ok nodes' /\
    nodes_ok nodes' /\ wf_forest (staged_read f overlay nodes') rows (m + 1) leaf'.
Proof.
  revert r nodes; induction fuel as [|fuel IH]; intros r nodes Hr Hfuel Hz Hok Hwf Hlast.
  { apply has_bit_row in Hz; lia. }
  pose proof (has_bit_row r Hr Hz) as Hrr. cbn [carry]. rewrite has_root_eq by lia.
  pose proof (testbit_odd m r Hr (proj1 Hm)) as Hpar.
  destruct (Z.testbit m r) eqn:Hb; cbn [Z.b2z] in Hpar.
  - pose proof (pow2_div_next m r Hr (proj1 Hm) Hpar Hz) as Hz'.
    pose proof (has_bit_row (r + 1) ltac:(lia) Hz') as Hrr'.
    pose proof (last_valid m r Hm ltac:(lia)) as Hv. pose proof (last_valid m (r + 1) Hm ltac:(lia)) as Hv'.
    rewrite root_position_eq by (first [apply m_u64 | done | lia]).
    assert (root_off m r = 2 * (m / 2 ^ (r + 1))) as -> by done.
    assert (populated m r (2 * (m / 2 ^ (r + 1)))) as Hpl.
    { pose proof (root_populated m r Hr (proj1 Hm) Hb) as Hp. exact Hp. }
    rewrite (Hwf _ _ Hpl), (Hlast r) by lia. step_ok.
    rewrite parent_pos by (done || lia).
    replace (m / 2 ^ r / 2) with (m / 2 ^ (r + 1)) by (by rewrite half_count).
    rewrite stage_node_eq by (by apply is_pos_intro). step_ok.
    apply (IH (r + 1)); [lia|lia|done|by apply nodes_ok_staged; [apply is_pos_intro|]| |].
    + intros k o Hp. pose proof (populated_valid m rows ltac:(lia) m_u64 ltac:(lia) k o Hp) as Hvk.
      rewrite staged_read_staged, decide_False; [by apply Hwf|].
      intros E. apply (pos_inj rows) in E as [<- <-]; [|lia|done|done].
      destruct Hp as [_ [_ Hp]]. lia.
    + intros k Hk. rewrite staged_read_staged. destruct (decide (k = r + 1)) as [->|Hne].
      * rewrite decide_True by done. f_equal. rewrite subtree_up by lia. f_equal.
        -- symmetry. apply unaffected; lia.
        -- by rewrite <- Hpar.
      * rewrite decide_False; [apply Hlast; lia|]. intros E.
        apply (pos_inj rows) in E as [? _]; [lia|lia|done|]. apply last_valid; [done|lia].
  - eexists. split_and!; [done|done|]. intros k o Hp. destruct Hp as [Hk Ho].
    destruct (decide (k <= r)) as [Hkr|Hkr].
    + pose proof (mod_down m r k ltac:(lia) Hz) as Hzk.
      rewrite next_row_count in Ho by (lia || done).
      destruct (decide (o = m / 2 ^ k)) as [->|Hne]; [by apply Hlast|].
      rewrite unaffected by done. apply Hwf. split; [done|lia].
    + rewrite (same_count_above m r k) in Ho by (lia || done).
      rewrite unaffected by (try done; lia). by apply Hwf.
Qed.
End Addition.

Fixpoint index_deltas (base : Z) (additions : list (OutPoint * BitcoinNodeHash)) : list JournalIndexDelta :=
  match additions with
  | [] => []
  | (o, _) :: additions => {| outpoint := o; id_position := base |} :: index_deltas (base + 1) additions
  end.

Lemma additions_spec additions m leaf nodes added :
  0 <= m -> m + zlength additions <= 2 ^ rows -> nodes_ok nodes ->
  wf_forest (staged_read f overlay nodes) rows m leaf ->
  exists nodes',
    foldM (stage_addition f overlay rows) additions (nodes, m, added)
      = Ok (nodes', m + zlength additions, added ++ index_deltas m additions) /\
    nodes_ok nodes' /\
    wf_forest (staged_read f overlay nodes') rows (m + zlength additions) (leaf_append leaf m additions.*2).
Proof.
  revert m leaf nodes added; induction additions as [|[op h] additions IH];
    intros m leaf nodes added Hm Hfit Hok Hwf.
  - exists nodes. rewrite zlength_nil, Z.add_0_r, app_nil_r. done.
  - rewrite zlength_cons in *. pose proof (zlength_nonneg additions).
    assert (0 <= m < 2 ^ rows) as Hmr by lia.
    pose proof (last_valid m 0 Hmr ltac:(lia)) as Hv. rewrite Z.div_1_r in Hv.
    assert (pos rows 0 m = m) as Hpos by apply pos_row0.
    assert (is_pos m) as Hpm by (rewrite <- Hpos; by apply is_pos_intro).
    set (nodes1 := staged nodes m {| nd_hash := bytes_of_hash h; nd_spent := false |}).
    destruct (carry_spec m Hmr leaf h 65 0 nodes1) as (nodes2 & E & Hok2 & Hwf2);
      [lia|lia|by rewrite Z.mod_1_r|by apply nodes_ok_staged| | |].
    + intros k o Hp. unfold nodes1. rewrite staged_read_staged, decide_False; [by apply Hwf|].
      rewrite <- Hpos at 1. intros Eq.
      pose proof (populated_valid m rows ltac:(lia) (m_u64 m Hmr) ltac:(lia) k o Hp) as Hvk.
      apply (pos_inj rows) in Eq as [<- <-]; [|lia|done|done]. destruct Hp as [_ [_ Hp]].
      rewrite Z.div_1_r in Hp. lia.
    + intros k Hk. assert (k = 0) as -> by lia. rewrite Z.div_1_r, Hpos. unfold nodes1.
      rewrite staged_read_staged, decide_True by done. f_equal.
      change (subtree (leaf_put leaf m h) (Z.to_nat 0) m) with (leaf_put leaf m h m).
      unfold leaf_put. by rewrite decide_True.
    + rewrite Z.div_1_r, Hpos in E.
      assert (stage_addition f overlay rows (nodes, m, added) (op, h)
        = Ok (nodes2, m + 1, added ++ [{| outpoint := op; id_position := m |}])) as Es.
      { unfold stage_addition. rewrite stage_node_eq by done. fold nodes1. step_ok. by rewrite E. }
      cbn [foldM]. rewrite Es. step_ok.
      destruct (IH (m + 1) (leaf_put leaf m h) nodes2 (added ++ [{| outpoint := op; id_position := m |}]))
        as (nodes' & E' & Hok' & Hwf'); [lia|lia|done|done|].
      exists nodes'. rewrite E', <- app_assoc. replace (m + (1 + zlength additions)) with (m + 1 + zlength additions) by lia.
      done.
Qed.

Definition marked (leaf : Z -> ForestNodeData) (p : Z) : ForestNodeData :=
  {| nd_hash := nd_hash (leaf p); nd_spent := true |}.

Lemma deletions_spec leaf (deletions : list (OutPoint * Z)) seen nodes P :
  (forall d, d ∈ deletions.*2 -> is_pos d /\ read_with_overlay f overlay d = Ok (leaf d)) ->
  nodes_ok nodes -> (forall p, p ∈ P <-> p ∈ seen) ->
  (forall p, staged_read f overlay nodes p =
     if decide (p ∈ seen) then Ok (marked leaf p) else read_with_overlay f overlay p) ->
  exists nodes' P', foldM (stage_deletion f overlay) deletions (nodes, P) = Ok (nodes', P') /\
    nodes_ok nodes' /\ (forall p, p ∈ P' <-> p ∈ deletions.*2 ++ seen) /\
    forall p, staged_read f overlay nodes' p =
      if decide (p ∈ deletions.*2 ++ seen) then Ok (marked leaf p) else read_with_overlay f overlay p.
Proof.
  revert seen nodes P; induction deletions as [|[op d] deletions IH]; intros seen nodes P Hd Hok HP Hr.
  { exists nodes, P. done. }
  destruct (Hd d) as [Hpos Hleaf]; [by left|].
  assert (exists v, staged_read f overlay nodes d = Ok v /\ nd_hash v = nd_hash (leaf d)) as (v & Ev & Hv).
  { rewrite Hr. case_decide; [by eexists|]. rewrite Hleaf. by eexists. }
  assert (stage_deletion f overlay (nodes, P) (op, d)
    = Ok (staged nodes d (marked leaf d), {[d]} ∪ P)) as Es.
  { unfold stage_deletion. cbn [snd]. rewrite Ev. step_ok. rewrite stage_node_eq by done. step_ok.
    by rewrite Hv. }
  cbn [foldM]. rewrite Es. step_ok.
  destruct (IH (d :: seen) (staged nodes d (marked leaf d)) ({[d]} ∪ P)) as (nodes' & P' & E & Hok' & HP' & Hr').
  - intros d' Hin. apply Hd. by right.
  - by apply nodes_ok_staged.
  - intros p. rewrite elem_of_union, elem_of_singleton, elem_of_cons, HP. done.
  - intros p. rewrite staged_read_staged, Hr. destruct (decide (d = p)) as [<-|Hne].
    + by rewrite decide_True by (by left).
    + apply decide_ext. rewrite elem_of_cons. naive_solver.
  - exists nodes', P'. split_and!; [exact E|done| |].
    + intros p. rewrite HP'. cbn. rewrite !elem_of_app, !elem_of_cons, elem_of_app. tauto.
    + intros p. rewrite Hr'. cbn. apply decide_ext. rewrite !elem_of_app, !elem_of_cons, elem_of_app. tauto.
Qed.

(** ** The planned entry *)

Definition planned_forest (nodes : gmap Z PlannedNode) : list JournalForestDelta :=
  merge_sort delta_le (planned_delta <$> map_to_list nodes).

Lemma planned_forest_elem nodes d :
  d ∈ planned_forest nodes <-> exists p n, nodes !! p = Some n /\ d = planned_delta (p, n).
Proof.
  unfold planned_forest. rewrite merge_sort_Permutation, list_elem_of_fmap. split.
  - intros ([p n] & -> & Hin%elem_of_map_to_list). eauto.
  - intros (p & n & Hin%elem_of_map_to_list & ->). eauto.
Qed.

Lemma planned_forest_positions nodes :
  StronglySorted Z.lt (fd_position <$> planned_forest nodes).
Proof.
  assert (NoDup (fd_position <$> planned_forest nodes)) as Hnd.
  { unfold planned_forest. rewrite merge_sort_Permutation, <- list_fmap_compose.
    apply (NoDup_fst_map_to_list nodes). }
  assert (StronglySorted delta_le (planned_forest nodes)) as Hs.
  { unfold planned_forest. apply StronglySorted_merge_sort.
    - intros a b c. unfold delta_le. lia.
    - intros a b. unfold delta_le. lia. }
  induction Hs as [|d l Hs IH Hall]; cbn in *; constructor.
  - apply IH. by apply NoDup_cons in Hnd as [_ Hnd].
  - apply NoDup_cons in Hnd as [Hni _]. apply Forall_forall. intros p Hp.
    rewrite Forall_forall in Hall. pose proof Hp as Hp'. apply list_elem_of_fmap in Hp as (d' & -> & Hd').
    specialize (Hall d' Hd'). unfold delta_le in Hall.
    destruct (decide (fd_position d = fd_position d')) as [E|]; [|lia]. rewrite E in Hni. done.
Qed.

Lemma planned_changed nodes e p : forest e = planned_forest nodes ->
  changed_nodes e !! p = (fun n => after (planned_delta (p, n))) <$> nodes !! p.
Proof.
  intros He. rewrite changed_nodes_lookup.
  assert (NoDup (forest_writes e).*1) as Hnd.
  { rewrite forest_writes_fst, He. apply StronglySorted_NoDup, planned_forest_positions. }
  destruct (nodes !! p) as [n|] eqn:En; cbn.
  - apply last_write_unique; [done|]. unfold forest_writes. rewrite He.
    apply list_elem_of_fmap. exists (planned_delta (p, n)). split; [done|].
    apply planned_forest_elem. eauto.
  - apply last_write_None. rewrite forest_writes_fst, He. intros Hin.
    apply list_elem_of_fmap in Hin as (d & -> & Hd). apply planned_forest_elem in Hd as (q & n & Hq & ->).
    cbn in En. congruence.
Qed.

Lemma planned_read nodes e p : forest e = planned_forest nodes ->
  read_with_overlay f (changed_nodes e ∪ overlay) p = staged_read f overlay nodes p.
Proof.
  intros He. rewrite staged_read_eq. unfold read_with_overlay. rewrite lookup_union.
  rewrite (planned_changed nodes e p He). destruct (nodes !! p) as [[b [h sp]]|]; cbn.
  - by destruct (overlay !! p).
  - by destruct (overlay !! p).
Qed.

End Plan.

Section PlanSpec.
Context `{NodeHashing} `{Sha256} `{LeafMapDb}.
Context (s : SteadyStateForest) (overlay : gmap Z JournalNodeState).
Context (Hrows : 0 <= ss_rows s <= 62) (Hcount : ff_count (ss_forest s) = 2 ^ (ss_rows s + 1) - 1).

(** What a planned entry records and what the forest is once it is applied. *)
Record planned (height : Z) (block_hash previous : bytes) (base : Z) (leaf : Z -> ForestNodeData)
    (deletions : list (OutPoint * Z)) (additions : list (OutPoint * BitcoinNodeHash))
    (e : JournalEntryData) : Prop := {
  pl_height : JournalEntry.height e = height;
  pl_block_hash : JournalEntry.block_hash e = block_hash;
  pl_previous : previous_block_hash e = previous;
  pl_rows : forest_rows e = Some (ss_rows s);
  pl_leaves : num_leaves e = base + zlength additions;
  pl_removed : removed e = (fun d => {| outpoint := d.1; id_position := d.2 |}) <$> deletions;
  pl_added : added e = index_deltas base additions;
  pl_sorted : entry_sorted e;
  pl_deltas : forall d, d ∈ forest e -> is_pos (ss_rows s) (fd_position d) /\
    before d = prior (ss_forest s) overlay (fd_position d) /\ ready (after d) = true;
  pl_forest : wf_forest (read_with_overlay (ss_forest s) (changed_nodes e ∪ overlay)) (ss_rows s)
    (base + zlength additions) (leaf_append (leaf_delete deletions.*2 leaf) base additions.*2)
}.

Lemma plan_update_spec height block_hash previous base leaf deletions additions :
  0 <= base -> base + zlength additions <= 2 ^ ss_rows s ->
  wf_forest (read_with_overlay (ss_forest s) overlay) (ss_rows s) base leaf ->
  (forall d, d ∈ deletions.*2 -> 0 <= d < base) ->
  exists e, plan_update_with_overlay s height block_hash previous base overlay deletions additions = Ok e /\
    planned height block_hash previous base leaf deletions additions e.
Proof.
  intros Hbase Hfit Hwf Hdel. pose proof (zlength_nonneg additions) as Hn.
  pose proof (pow2_lt (ss_rows s) 64 ltac:(lia)) as H64.
  set (f := ss_forest s) in *. set (rows := ss_rows s) in *.
  unfold plan_update_with_overlay. fold f rows.
  unfold checked_shl, checked_add, try_uint. rewrite bool_decide_eq_true_2 by lia.
  rewrite shl_one, decide_True by (split || lia; lia). step_ok.
  rewrite (proj2 (Z.ltb_ge (2 ^ rows) _)) by lia. step_ok.
  destruct (deletions_spec f overlay rows ltac:(lia) Hcount leaf deletions [] ∅ ∅) as (nodes1 & P & E1 & Hok1 & HP & Hr1).
  { intros d Hd. pose proof (Hdel d Hd). assert (populated base 0 d) as Hp.
    { split; [lia|]. rewrite Z.div_1_r. lia. }
    pose proof (pos_row0 rows d) as Hd0. split.
    - rewrite <- Hd0. apply is_pos_intro. apply (populated_valid base); (done || lia || by split; lia).
    - pose proof (Hwf 0 d Hp) as Hw. rewrite Hd0 in Hw. exact Hw. }
  { intros p n. by rewrite lookup_empty. }
  { intros p. rewrite elem_of_nil. set_solver. }
  { intros p. rewrite decide_False by apply not_elem_of_nil. done. }
  rewrite E1. step_ok. rewrite app_nil_r in *.
  destruct (propagate_spec f overlay rows ltac:(lia) Hcount base ltac:(split; lia) ltac:(lia) leaf deletions.*2 Hdel
    66 0 nodes1 P) as (nodes2 & E2 & Hok2 & Hwf2); [lia|lia|done| | |].
  { intros p. rewrite HP. split.
    - intros Hp. exists p. pose proof (Hdel p Hp). split_and!.
      + split; [lia|]. rewrite Z.div_1_r. lia.
      + exists p. split; [done|]. by rewrite Z.div_1_r.
      + by rewrite pos_row0.
    - intros (o & _ & (d & Hd & <-) & ->). rewrite Z.div_1_r, pos_row0. done. }
  { intros r o Hp. rewrite Hr1. case_decide as Hin.
    - pose proof (Hdel _ Hin) as Hd. assert (populated base 0 (pos rows r o)) as Hp0.
      { split; [lia|]. rewrite Z.div_1_r. lia. }
      assert (r = 0 /\ o = pos rows r o) as [-> Eo].
      { apply (pos_inj rows); [lia| | |by rewrite pos_row0].
        all: apply (populated_valid base); (done || lia || by split; lia). }
      rewrite <- Eo in *. rewrite decide_True by done. f_equal.
      change (subtree (leaf_delete deletions.*2 leaf) (Z.to_nat 0) o) with (leaf_delete deletions.*2 leaf o).
      unfold leaf_delete. by rewrite decide_True.
    - rewrite (Hwf r o Hp). f_equal. destruct (decide (r <= 0)); [|done].
      destruct Hp as [? _]. assert (r = 0) as -> by lia. rewrite pos_row0 in Hin.
      change (leaf o = leaf_delete deletions.*2 leaf o). unfold leaf_delete. by rewrite decide_False. }
  rewrite E2. step_ok.
  destruct (additions_spec f overlay rows ltac:(lia) Hcount additions base (leaf_delete deletions.*2 leaf) nodes2 [])
    as (nodes3 & E3 & Hok3 & Hwf3); [lia|lia|done|done|].
  rewrite E3. step_ok. eexists. split; [done|]. fold (planned_forest nodes3). split; try done.
  - apply (planned_forest_positions rows Hrows).
  - intros d Hd. apply planned_forest_elem in Hd as (p & n & Hp & ->).
    apply Hok3 in Hp as [? ?]. done.
  - intros r o Hp. rewrite (planned_read f overlay rows Hrows nodes3) by done. by apply Hwf3.
Qed.

(** ** Roots *)

Lemma root_rows L row : row ∈ filter (fun row => has_root L row = true) (reverse (zrange 0 (ss_rows s + 1))) ->
  0 <= L -> 0 <= row <= ss_rows s /\ Z.testbit L row = true /\ populated L row (root_off L row).
Proof.
  intros [Hb Hin%elem_of_reverse%elem_of_zrange]%list_elem_of_filter HL.
  rewrite has_root_eq in Hb by lia. split_and!; [lia|lia|done|]. apply root_populated; (done || lia).
Qed.

(** A read that returns was a ready state. *)
Lemma read_state f m p v : read_with_overlay f m p = Ok v ->
  exists st, match m !! p with Some st => Ok st | None => journal_state f p end = Ok st /\
    ready st = true /\ v = {| nd_hash := hash st; nd_spent := spent st |}.
Proof.
  unfold read_with_overlay, journal_state, ready_state. destruct (m !! p) as [st|].
  - intros H'. inv_ok. subst. eauto.
  - intros H'. inv_ok. subst. rewrite H2. step_ok. eexists. split_and!; [done|done|]. by destruct v.
Qed.

Lemma roots_after_spec e base leaf : num_leaves e = base + zlength (added e) -> 0 <= base ->
  num_leaves e <= 2 ^ ss_rows s ->
  wf_forest (read_with_overlay (ss_forest s) (changed_nodes e ∪ overlay)) (ss_rows s) (num_leaves e) leaf ->
  roots_after_with_overlay s e base overlay = Ok (spec_roots leaf (ss_rows s) (num_leaves e)).
Proof.
  intros Hn Hbase Hfit Hwf. pose proof (zlength_nonneg (added e)). pose proof (pow2_lt (ss_rows s) 64).
  unfold roots_after_with_overlay, previous_num_leaves, checked_sub.
  rewrite bool_decide_eq_true_2 by lia. step_ok. rewrite (proj2 (Z.eqb_eq _ base)) by lia. step_ok.
  apply mapM_ok_map. intros row Hrow. apply root_rows in Hrow as (Hr & Hb & Hp); [|lia].
  rewrite root_position_eq by (done || lia || (split; lia)).
  destruct (read_state _ _ _ _ (Hwf row _ Hp)) as (st & Hst & Hready & Hv).
  rewrite lookup_union in Hst.
  assert (forall (a b : option JournalNodeState) (c : result JournalNodeState),
    match a with Some st => Ok st | None => match b with Some st => Ok st | None => c end end =
    match a ∪ b with Some st => Ok st | None => c end) as -> by (by intros [] []).
  rewrite Hst. step_ok. rewrite Hready. step_ok. by rewrite Hv.
Qed.
End PlanSpec.

(** ** Properties *)

(** C1: planning a block over a well-formed forest (physical file plus unflushed overlay) either
    reports that the capacity is exhausted, when the additions do not fit, or succeeds; the loops
    terminate.  The entry then records the deletions, gives the additions the next leaf
    positions, lists each changed node once in position order with the exact state it had before,
    and the forest seen through its changes is well formed for the block's leaves: deleted leaves
    spent, new leaves appended, every internal node recomputed (surviving siblings promoted,
    fully spent subtrees empty). *)
Theorem plan_update_correct `{NodeHashing} `{Sha256} `{LeafMapDb}
    (s : SteadyStateForest) (overlay : gmap Z JournalNodeState) (height : Z)
    (block_hash previous : bytes) (base : Z) (leaf : Z -> ForestNodeData)
    (deletions : list (OutPoint * Z)) (additions : list (OutPoint * BitcoinNodeHash))
    (Hrows : 0 <= ss_rows s <= 62) (Hcount : ff_count (ss_forest s) = 2 ^ (ss_rows s + 1) - 1)
    (Hbase : 0 <= base) (Hu64 : base + zlength additions < 2 ^ 64)
    (Hwf : wf_forest (read_with_overlay (ss_forest s) overlay) (ss_rows s) base leaf)
    (Hdel : forall d, d ∈ deletions.*2 -> 0 <= d < base) :
  let plan := plan_update_with_overlay s height block_hash previous base overlay deletions additions in
  (2 ^ ss_rows s < base + zlength additions -> plan = Err "flat forest capacity is exhausted") /\
  (base + zlength additions <= 2 ^ ss_rows s ->
   exists e, plan = Ok e /\ planned s overlay height block_hash previous base leaf deletions additions e).
Proof.
  split; [|intros; by apply plan_update_spec]. intros Hover.
  pose proof (zlength_nonneg additions). unfold plan_update_with_overlay, checked_shl, checked_add, try_uint.
  rewrite bool_decide_eq_true_2 by lia. rewrite shl_one, decide_True by (split || lia; lia). step_ok.
  by rewrite (proj2 (Z.ltb_lt (2 ^ ss_rows s) _)).
Qed.

Definition sample_leaf (o : Z) : ForestNodeData :=
  {| nd_hash := replicate 32 (o + 1); nd_spent := false |}.
Definition sample_outpoint (n : Z) : OutPoint := {| txid := replicate 32 n; vout := n |}.
Definition sample_forest : FlatForest :=
  {| ff_nodes := {[ 0 := {| node_hash := replicate 32 1; flags := READY |} ]};
     ff_count := 7; ff_marker := None |}.
Definition sample_steady : @SteadyStateForest toy_db :=
  @Build_SteadyStateForest toy_db sample_forest (∅ : gmap bytes bytes) 1 2.

Lemma one_leaf_populated r o : populated 1 r o -> r = 0 /\ o = 0.
Proof.
  intros [Hr Ho]. destruct (decide (r = 0)) as [->|]; [rewrite Z.div_1_r in Ho; lia|].
  rewrite Z.div_small in Ho; [lia|]. pose proof (pow2_lt 0 r). lia.
Qed.

Lemma sample_wf : @wf_forest toy_hashing (read_with_overlay (ss_forest sample_steady) ∅) 2 1 sample_leaf.
Proof. intros r o [-> ->]%one_leaf_populated. reflexivity. Qed.

Lemma plan_update_correct_witness :
  exists e, @plan_update_with_overlay toy_hashing toy_db sample_steady 9 [] [] 1 ∅
      [(sample_outpoint 5, 0)] [(sample_outpoint 6, replicate 32 6); (sample_outpoint 7, replicate 32 7)] = Ok e
    /\ num_leaves e = 3.
Proof.
  destruct (@plan_update_correct toy_hashing toy_sha256 toy_db sample_steady ∅ 9 [] [] 1 sample_leaf
    [(sample_outpoint 5, 0)] [(sample_outpoint 6, replicate 32 6); (sample_outpoint 7, replicate 32 7)])
    as [_ (e & E & Hp)].
  - cbn; lia.
  - reflexivity.
  - lia.
  - reflexivity.
  - apply sample_wf.
  - intros d Hd. cbn in Hd. apply list_elem_of_singleton in Hd. lia.
  - vm_compute. congruence.
  - exists e. split; [exact E|]. by rewrite (pl_leaves _ _ _ _ _ _ _ _ _ _ Hp).
Defined.

(** C32: the roots are the accumulator's roots: reading them from a well-formed file ([roots]), and
    computing them for a planned entry without applying it ([roots_after_with_overlay]), both
    return the values of the full subtrees of the leaves, largest first, a fully spent tree
    being the empty hash; a planner at another leaf count is refused. *)
Theorem roots_correct `{NodeHashing} `{Sha256} `{LeafMapDb}
    (s : SteadyStateForest) (overlay : gmap Z JournalNodeState) (e : JournalEntryData) (base : Z)
    (leaf : Z -> ForestNodeData)
    (Hrows : 0 <= ss_rows s <= 62) (Hfit : 0 <= leaves s <= 2 ^ ss_rows s)
    (Hnum : zlength (added e) <= num_leaves e <= 2 ^ ss_rows s) :
  (wf_forest (read_with_overlay (ss_forest s) ∅) (ss_rows s) (leaves s) leaf ->
   roots s = Ok (spec_roots leaf (ss_rows s) (leaves s))) /\
  (wf_forest (read_with_overlay (ss_forest s) (changed_nodes e ∪ overlay)) (ss_rows s) (num_leaves e) leaf ->
   roots_after_with_overlay s e base overlay =
     if base =? num_leaves e - zlength (added e) then Ok (spec_roots leaf (ss_rows s) (num_leaves e))
     else Err "planned update begins with another leaf count").
Proof.
  pose proof (pow2_lt (ss_rows s) 64). split; intros Hwf.
  - unfold roots. apply mapM_ok_map. intros row Hrow. apply root_rows in Hrow as (Hr & Hb & Hp); [|done|lia].
    rewrite root_position_eq by (done || lia || (split; lia)).
    pose proof (Hwf row _ Hp) as Hv. unfold read_with_overlay in Hv. rewrite lookup_empty in Hv.
    apply bind_ok in Hv as (o & E & Ho%ok_or_ok). rewrite E, Ho. done.
  - destruct (Z.eqb_spec base (num_leaves e - zlength (added e))) as [->|Hne].
    + apply roots_after_spec; (done || lia).
    + unfold roots_after_with_overlay, previous_num_leaves, checked_sub.
      rewrite bool_decide_eq_true_2 by lia. step_ok. by rewrite (proj2 (Z.eqb_neq _ base)) by lia.
Qed.

Definition idle_entry : JournalEntryData :=
  {| JournalEntry.height := 8; JournalEntry.block_hash := zeros 32; num_leaves := 1;
     previous_block_hash := zeros 32; forest := []; removed := []; added := []; forest_rows := Some 2 |}.

Lemma roots_correct_witness :
  @roots toy_hashing toy_db sample_steady = Ok (@spec_roots toy_hashing sample_leaf 2 1).
Proof.
  apply (@roots_correct toy_hashing toy_sha256 toy_db sample_steady ∅ idle_entry 0 sample_leaf).
  - cbn; lia.
  - vm_compute. split; congruence.
  - vm_compute. split; congruence.
  - apply sample_wf.
Defined.
End PlanUpdate.
