(* ===== verification/LeafMap.v ===== *)
(** The leaf map: outpoint to leaf position.  The database is an interface whose
    laws are those of an append-only store that must not be given a key twice;
    the theorems show that [apply_leaf_map_delta] and [leaf_positions] of
    [src/src/parallel_forest.rs] implement a plain finite map over it. *)

From S2P Require Import Prelude Bytes Sorting Positions JournalEntry Forest SteadyState Accumulator.
Import Sorting.Sorting JournalEntry.JournalEntry Forest.Forest SteadyState.SteadyState Accumulator.Accumulator.

(** What the store promises: a batch deletion of distinct keys removes them, a
    batch insertion of distinct keys that are absent adds them (a batch with a
    repeated key would retain both), compaction changes nothing. *)
Class LeafMapLaws `{LeafMapDb} := {
  db_batch_fetch_law : forall db ks, db_batch_fetch db ks = Ok (db_get db <$> ks);
  db_batch_delete_law : forall db ks, NoDup ks -> exists db', db_batch_delete db ks = Ok db' /\
    forall k, db_get db' k = if decide (k ∈ ks) then None else db_get db k;
  db_put_batch_law : forall db kvs, NoDup kvs.*1 -> (forall k, k ∈ kvs.*1 -> db_get db k = None) ->
    exists db', db_put_batch db kvs = Ok db' /\
      forall k, db_get db' k = match last_write k kvs with Some v => Some v | None => db_get db k end;
  db_compact_law : forall db n, exists db', db_compact db n = Ok db' /\ forall k, db_get db' k = db_get db k
}.

Module LeafMap.

Section Delta.
Context `{NodeHashing} `{Sha256} `{LeafMapDb} `{!LeafMapLaws}.

Definition delta_kv (d : JournalIndexDelta) : bytes * bytes :=
  (leaf_map_key (outpoint d), le_bytes 8 (id_position d)).

(** At the level of keys, a delta deletes the removed keys, then writes the
    inserted ones in order. *)
Lemma apply_leaf_map_delta_keys s removed inserted :
  exists s', apply_leaf_map_delta s removed inserted = Ok s' /\
    ss_forest s' = ss_forest s /\ leaves s' = leaves s /\ ss_rows s' = ss_rows s /\
    forall k, db_get (leaf_map s') k =
      match last_write k (delta_kv <$> inserted) with
      | Some v => Some v
      | None => if decide (k ∈ (fun d => leaf_map_key (outpoint d)) <$> removed) then None
                else db_get (leaf_map s) k
      end.
Proof.
  unfold apply_leaf_map_delta. set (keys := (fun d => leaf_map_key (outpoint d)) <$> (removed ++ inserted)).
  set (kvs := (fun d => (leaf_map_key (outpoint d), le_bytes 8 (id_position d))) <$> inserted).
  set (ks := dedup_by_key id (sort_by_key id bytes_leb keys)).
  set (es := dedup_by_key fst (sort_by_key fst bytes_leb (reverse kvs))).
  assert (forall k, k ∈ ks <-> k ∈ keys) as Hks.
  { intros k. pose proof (sort_dedup_keys id bytes_leb bytes_leb_total keys k) as Hk. by rewrite !list_fmap_id in Hk. }
  destruct (db_batch_delete_law (leaf_map s) ks) as (db1 & E1 & G1).
  { unfold ks. rewrite <- (list_fmap_id (dedup_by_key _ _)). apply bytes_dedup_NoDup. }
  rewrite E1. step_ok.
  assert (es.*1 ⊆ keys) as Hsub.
  { intros k (kv & -> & Hin)%list_elem_of_fmap. unfold es in Hin.
    apply dedup_by_key_elem in Hin. rewrite sort_by_key_elem, elem_of_reverse in Hin. unfold kvs in Hin.
    apply list_elem_of_fmap in Hin as (d & -> & Hd). apply list_elem_of_fmap. exists d. split; [done|].
    apply elem_of_app. by right. }
  destruct (db_put_batch_law db1 es) as (db2 & E2 & G2).
  { apply bytes_dedup_NoDup. }
  { intros k Hk. rewrite G1. rewrite decide_True; [done|]. by apply Hks, Hsub. }
  rewrite E2. step_ok. eexists. split_and!; [done..|]. intros k. cbn. rewrite G2. unfold es.
  rewrite last_write_dedup. change kvs with (delta_kv <$> inserted).
  destruct (last_write k (delta_kv <$> inserted)) eqn:E; [done|]. rewrite G1.
  apply last_write_None in E. apply decide_ext. rewrite Hks. unfold keys.
  rewrite fmap_app, elem_of_app. split; [|by left]. intros [?|Hin]; [done|]. exfalso. apply E.
  rewrite <- list_fmap_compose. exact Hin.
Qed.

(** ** The abstract index *)

Definition index_delta (m : gmap OutPoint Z) (removed inserted : list JournalIndexDelta) : gmap OutPoint Z :=
  write_all (foldl (fun m d => delete (outpoint d) m) m removed)
    ((fun d => (outpoint d, id_position d)) <$> inserted).

Lemma deletes_lookup (m : gmap OutPoint Z) removed o :
  foldl (fun m d => delete (outpoint d) m) m removed !! o =
    if decide (o ∈ outpoint <$> removed) then None else m !! o.
Proof.
  revert m; induction removed as [|d removed IH]; intros m; cbn.
  { by rewrite decide_False by apply not_elem_of_nil. }
  rewrite IH. destruct (decide (o ∈ outpoint <$> removed)).
  - by rewrite decide_True by by right.
  - destruct (decide (outpoint d = o)) as [<-|Hne].
    + rewrite lookup_delete_eq. by rewrite decide_True by by left.
    + rewrite lookup_delete_ne by done. rewrite decide_False; [done|]. rewrite elem_of_cons. intuition congruence.
Qed.

(** The outpoints whose keys do not collide. *)
Context (U : OutPoint -> Prop).
Context (Hinj : forall o o', U o -> U o' -> leaf_map_key o = leaf_map_key o' -> o = o').

Record represents (db : Db) (m : gmap OutPoint Z) : Prop := {
  rep_get : forall o, U o -> db_get db (leaf_map_key o) = le_bytes 8 <$> m !! o;
  rep_u64 : forall o p, m !! o = Some p -> is_u64 p
}.

Definition delta_in (d : JournalIndexDelta) : Prop := U (outpoint d) /\ is_u64 (id_position d).

Lemma last_write_key o l : U o -> Forall delta_in l ->
  last_write (leaf_map_key o) (delta_kv <$> l) =
    le_bytes 8 <$> last_write o ((fun d => (outpoint d, id_position d)) <$> l).
Proof.
  intros Ho. induction 1 as [|d l [Hd _] Hl IH]; [done|]. cbn. rewrite IH.
  destruct (last_write o _); cbn; [done|]. destruct (decide (outpoint d = o)) as [Eo|Hne].
  - by rewrite decide_True by (by rewrite Eo).
  - rewrite decide_False; [done|]. intros Ek. by apply Hne, Hinj.
Qed.

Lemma apply_leaf_map_delta_spec s m removed inserted :
  represents (leaf_map s) m -> Forall delta_in removed -> Forall delta_in inserted ->
  exists s', apply_leaf_map_delta s removed inserted = Ok s' /\
    ss_forest s' = ss_forest s /\ leaves s' = leaves s /\ ss_rows s' = ss_rows s /\
    represents (leaf_map s') (index_delta m removed inserted).
Proof.
  intros Hrep Hr Hi. destruct (apply_leaf_map_delta_keys s removed inserted) as (s' & E & Hf & Hl & Hs & Hg).
  exists s'. split_and!; [done..|]. split.
  - intros o Ho. rewrite Hg, last_write_key by done. unfold index_delta. rewrite write_all_lookup.
    destruct (last_write o _); cbn; [done|]. rewrite deletes_lookup, (rep_get _ _ Hrep o Ho).
    rewrite (decide_ext _ (o ∈ outpoint <$> removed)); [by case_decide|].
    rewrite !list_elem_of_fmap. split; intros (d & Ed & Hd); exists d; (split; [|done]); [|by rewrite Ed].
    rewrite Forall_forall in Hr. apply Hinj; [done|by apply Hr|done].
  - intros o p. unfold index_delta. rewrite write_all_lookup.
    destruct (last_write o _) as [p'|] eqn:El.
    + intros [= ->]. apply last_write_Some_elem, list_elem_of_fmap in El as (d & [= -> ->] & Hd).
      rewrite Forall_forall in Hi. by apply Hi.
    + rewrite deletes_lookup. case_decide; [done|]. apply (rep_u64 _ _ Hrep).
Qed.

(** What undoing an entry needs: it removed mappings that were there, and added
    outpoints that were not. *)
Definition index_undoable (m : gmap OutPoint Z) (removed added : list JournalIndexDelta) : Prop :=
  (forall d, d ∈ removed -> m !! outpoint d = Some (id_position d)) /\
  (forall d, d ∈ added -> outpoint d ∈ outpoint <$> removed \/ m !! outpoint d = None).

Lemma index_delta_undo m removed added : index_undoable m removed added ->
  index_delta (index_delta m removed added) added removed = m.
Proof.
  intros [Hr Ha]. apply map_eq. intros o. unfold index_delta at 1. rewrite write_all_lookup.
  destruct (last_write o _) as [p|] eqn:E.
  - apply last_write_Some_elem, list_elem_of_fmap in E as (d & [= -> ->] & Hd). symmetry. by apply Hr.
  - apply last_write_None in E. rewrite <- list_fmap_compose in E.
    change (o ∉ outpoint <$> removed) in E. rewrite deletes_lookup. case_decide as Hin.
    + apply list_elem_of_fmap in Hin as (d & -> & Hd). symmetry. by destruct (Ha d Hd).
    + unfold index_delta. rewrite write_all_lookup.
      assert (last_write o ((fun d => (outpoint d, id_position d)) <$> added) = None) as ->.
      { apply last_write_None. by rewrite <- list_fmap_compose. }
      rewrite deletes_lookup. by rewrite decide_False.
Qed.

(** ** Lookups through the overlay *)

(** What the view answers for one outpoint, from the map [m] of the forest on disk. *)
Definition view_position (v : ForestView) (m : gmap OutPoint Z) (o : OutPoint) : result Z :=
  match ov_positions (fv_overlay v) !! o with
  | Some (_, None) => Err "outpoint is spent"
  | Some (_, Some p) => check_position v p
  | None => match m !! o with
            | None => Err "outpoint is not in the leaf map"
            | Some p => check_position v p
            end
  end.

Lemma resolve_positions_spec v m outpoints : represents (leaf_map (fv_forest v)) m ->
  Forall U outpoints ->
  resolve_positions v outpoints
    ((fun o => db_get (leaf_map (fv_forest v)) (leaf_map_key o)) <$>
       filter (fun o => ov_positions (fv_overlay v) !! o = None) outpoints)
  = view_position v m <$> outpoints.
Proof.
  intros Hrep. induction 1 as [|o outpoints Ho Hos IH]; [done|].
  rewrite fmap_cons. unfold view_position at 1. cbn [resolve_positions].
  destruct (ov_positions (fv_overlay v) !! o) as [[h p]|] eqn:E.
  - rewrite filter_cons_False by (by rewrite E). rewrite IH. by destruct p.
  - rewrite filter_cons_True by done. cbn [fmap list_fmap]. rewrite IH, (rep_get _ _ Hrep o Ho).
    destruct (m !! o) as [p|] eqn:Em; [|done].
    cbn [fmap option_fmap option_map ok_or mbind result_bind].
    replace (zlength (le_bytes 8 p) =? 8) with true
      by (unfold zlength; by rewrite length_le_bytes).
    step_ok. rewrite le_value_le_bytes; [done|]. by apply (rep_u64 _ _ Hrep o).
Qed.

Lemma leaf_positions_spec v m outpoints : represents (leaf_map (fv_forest v)) m ->
  Forall U outpoints -> leaf_positions v outpoints = Ok (view_position v m <$> outpoints).
Proof.
  intros Hrep Ho. unfold leaf_positions. rewrite db_batch_fetch_law. step_ok.
  rewrite <- (resolve_positions_spec v m outpoints Hrep Ho), <- list_fmap_compose. done.
Qed.
End Delta.

(** ** Properties *)

(** The leaf map refines a finite map from outpoints to positions.  For outpoints whose
    truncated keys do not collide, applying an entry's index deltas never fails on a store that
    requires distinct absent keys, leaves the forest alone, and makes the map forget the removed
    outpoints and hold the last position inserted for each added one; applying the deltas the
    other way round afterwards restores the map exactly. *)
Theorem leaf_map_refines `{NodeHashing} `{Sha256} `{LeafMapDb} `{!LeafMapLaws}
    (U : OutPoint -> Prop) (Hinj : forall o o', U o -> U o' -> leaf_map_key o = leaf_map_key o' -> o = o')
    (s : SteadyStateForest) (m : gmap OutPoint Z) (removed added : list JournalIndexDelta)
    (Hrep : represents U (leaf_map s) m)
    (Hremoved : Forall (delta_in U) removed) (Hadded : Forall (delta_in U) added) :
  exists s', apply_leaf_map_delta s removed added = Ok s' /\ ss_forest s' = ss_forest s /\
    represents U (leaf_map s') (index_delta m removed added) /\
    (index_undoable m removed added ->
     exists s'', apply_leaf_map_delta s' added removed = Ok s'' /\ represents U (leaf_map s'') m).
Proof.
  destruct (apply_leaf_map_delta_spec U Hinj s m removed added) as (s' & E & Hf & _ & _ & Hr); [done..|].
  exists s'. split_and!; [done..|]. intros Hu.
  destruct (apply_leaf_map_delta_spec U Hinj s' (index_delta m removed added) added removed)
    as (s'' & E'' & _ & _ & _ & Hr''); [done..|].
  exists s''. split; [done|]. by rewrite index_delta_undo in Hr''.
Qed.

Lemma toy_db_laws : @LeafMapLaws toy_db.
Proof.
  split; cbn.
  - done.
  - intros db ks _. eexists. split; [done|]. intros k. revert db; induction ks as [|k' ks IH]; intros db; cbn.
    { by rewrite decide_False by apply not_elem_of_nil. }
    rewrite IH. destruct (decide (k ∈ ks)) as [|Hn]; [by rewrite decide_True by by right|].
    destruct (decide (k' = k)) as [<-|Hne].
    + rewrite lookup_delete_eq. by rewrite decide_True by by left.
    + rewrite lookup_delete_ne by done. rewrite decide_False; [done|]. rewrite elem_of_cons. intuition congruence.
  - intros db kvs _ _. eexists. split; [done|]. intros k. apply write_all_lookup.
  - intros db _. by exists db.
Qed.

(** Three outpoints with distinct keys, and a map that holds the first. *)
Definition sample_op (n : Z) : OutPoint := {| txid := replicate 32 n; vout := 0 |}.
Definition sample_set (o : OutPoint) : Prop := o ∈ [sample_op 1; sample_op 2; sample_op 3].
Definition sample_db : gmap bytes bytes :=
  {[ @leaf_map_key toy_sha256 (sample_op 1) := le_bytes 8 4 ]}.
Definition sample_map_forest : @SteadyStateForest toy_db :=
  @Build_SteadyStateForest toy_db {| ff_nodes := ∅; ff_count := 7; ff_marker := None |} sample_db 5 2.

Lemma sample_set_inj o o' : sample_set o -> sample_set o' ->
  @leaf_map_key toy_sha256 o = @leaf_map_key toy_sha256 o' -> o = o'.
Proof.
  unfold sample_set. rewrite !elem_of_cons, !elem_of_nil.
  intros [-> | [-> | [-> | []]]] [-> | [-> | [-> | []]]] E; first [exact eq_refl | vm_compute in E; discriminate E].
Qed.

Lemma sample_represents :
  @represents toy_sha256 toy_db sample_set (leaf_map sample_map_forest) {[ sample_op 1 := 4 ]}.
Proof.
  split.
  - unfold sample_set. intros o. rewrite !elem_of_cons, !elem_of_nil.
    intros [-> | [-> | [-> | []]]]; vm_compute; reflexivity.
  - intros o p [_ <-]%lookup_singleton_Some. by_decide.
Qed.

Lemma sample_delta_in (n p : Z) : n ∈ [1; 2; 3] -> is_u64 p ->
  Forall (delta_in sample_set) [{| outpoint := sample_op n; id_position := p |}].
Proof.
  intros Hn Hp. constructor; [|done]. split; [|done]. unfold sample_set. cbn.
  rewrite !elem_of_cons, !elem_of_nil in *. destruct Hn as [-> | [-> | [-> | []]]]; auto.
Qed.

Lemma leaf_map_refines_witness :
  exists s', @apply_leaf_map_delta toy_sha256 toy_db sample_map_forest
      [{| outpoint := sample_op 1; id_position := 4 |}] [{| outpoint := sample_op 2; id_position := 5 |}] = Ok s'.
Proof.
  destruct (@leaf_map_refines toy_hashing toy_sha256 toy_db toy_db_laws sample_set sample_set_inj sample_map_forest
    {[ sample_op 1 := 4 ]} [{| outpoint := sample_op 1; id_position := 4 |}]
    [{| outpoint := sample_op 2; id_position := 5 |}] sample_represents) as (s' & E & _).
  - apply sample_delta_in; by_decide.
  - apply sample_delta_in; by_decide.
  - exists s'. exact E.
Defined.

(** Batched position lookup returns one answer per requested outpoint, in order and with its own
    error: an outpoint changed by an unflushed block is answered by the overlay (spent, or its new
    position), any other by the leaf map, and no position at or beyond the leaf count is ever returned. *)
Theorem leaf_positions_correct `{Sha256} `{LeafMapDb} `{!LeafMapLaws}
    (U : OutPoint -> Prop) (v : ForestView) (m : gmap OutPoint Z) (outpoints : list OutPoint)
    (Hrep : represents U (leaf_map (fv_forest v)) m) (Hout : Forall U outpoints) :
  exists answers, leaf_positions v outpoints = Ok answers /\
    Forall2 (fun o answer => answer = view_position v m o /\ forall p, answer = Ok p -> p < fv_leaves v)
      outpoints answers.
Proof.
  rewrite (leaf_positions_spec U v m) by done. eexists. split; [done|].
  apply Forall2_fmap_r, Forall_Forall2_diag, Forall_forall. intros o _. split; [done|].
  intros p. unfold view_position, check_position.
  assert (forall q, (require (negb (fv_leaves v <=? q)) "outpoint maps beyond the leaves";; Ok q) = Ok p ->
    p < fv_leaves v) as Hc.
  { intros q Hq. destruct (Z.leb_spec (fv_leaves v) q); cbn in Hq; [done|]. by injection Hq as <-. }
  destruct (ov_positions _ !! o) as [[h [q|]]|]; [apply Hc|done|].
  destruct (m !! o); [apply Hc|done].
Qed.

Lemma leaf_positions_correct_witness :
  exists answers, @leaf_positions toy_sha256 toy_db
    (@Build_ForestView toy_db sample_map_forest empty_overlay 5) [sample_op 1; sample_op 2] = Ok answers.
Proof.
  destruct (@leaf_positions_correct toy_sha256 toy_db toy_db_laws sample_set
    (@Build_ForestView toy_db sample_map_forest empty_overlay 5) {[ sample_op 1 := 4 ]}
    [sample_op 1; sample_op 2] sample_represents) as (answers & E & _).
  - repeat constructor; unfold sample_set; rewrite !elem_of_cons; auto.
  - exists answers. exact E.
Defined.
End LeafMap.
