(* ===== verification/MergedWrites.v ===== *)
(** The k-way merge of a published window ([merged_forest_writes] of
    [src/src/parallel_forest.rs]): each touched node is written once, with the
    state that the window's entries, applied one after the other, would leave. *)

From S2P Require Import Prelude Bytes Sorting Positions JournalEntry Forest SteadyState Accumulator.
Import Sorting.Sorting JournalEntry.JournalEntry Forest.Forest SteadyState.SteadyState
  Accumulator.Accumulator.

Module MergedWrites.

(** The order of (block, index) pairs: later writes are greater. *)
Definition ple (a b : nat * nat) : Prop := (a.1 < b.1)%nat \/ a.1 = b.1 /\ (a.2 <= b.2)%nat.

Lemma later_spec a b : (later a b = a \/ later a b = b) /\ ple a (later a b) /\ ple b (later a b).
Proof.
  unfold later, ple. destruct a as [a1 a2], b as [b1 b2]; cbn [fst snd].
  destruct (Nat.ltb_spec a1 b1), (Nat.eqb_spec a1 b1), (Nat.leb_spec a2 b2);
    cbn [orb andb fst snd]; (split; [auto | cbn; lia]).
Qed.

Lemma ple_trans a b c : ple a b -> ple b c -> ple a c.
Proof. unfold ple. lia. Qed.
Lemma ple_antisym a b : ple a b -> ple b a -> a = b.
Proof. destruct a, b. unfold ple. cbn. intros. f_equal; lia. Qed.
Lemma ple_refl a : ple a a.
Proof. unfold ple. lia. Qed.

Lemma head_leb_spec p b i p' b' i' :
  head_leb (p, (b, i)) (p', (b', i')) = true <-> p < p' \/ p = p' /\ ple (b, i) (b', i').
Proof.
  unfold head_leb, ple. cbn [fst snd].
  rewrite !orb_true_iff, !andb_true_iff, orb_true_iff, andb_true_iff, Z.ltb_lt, Z.eqb_eq, Nat.ltb_lt,
    Nat.eqb_eq, Nat.leb_le. done.
Qed.

Lemma head_leb_total a b : head_leb a b = true \/ head_leb b a = true.
Proof. destruct a as (p & b1 & i), b as (p' & b' & i'). rewrite !head_leb_spec. unfold ple. cbn. lia. Qed.
Lemma head_leb_trans a b c : head_leb a b = true -> head_leb b c = true -> head_leb a c = true.
Proof.
  destruct a as (p & b1 & i), b as (p' & b' & i'), c as (p'' & b'' & i''). rewrite !head_leb_spec.
  unfold ple. cbn. lia.
Qed.

Lemma heap_push_Permutation x h : heap_push x h ≡ₚ x :: h.
Proof. apply insert_by_key_Permutation. Qed.

Lemma heap_push_sorted x h : StronglySorted (key_le id head_leb) h ->
  StronglySorted (key_le id head_leb) (heap_push x h).
Proof. apply insert_by_key_sorted; [apply head_leb_total | apply head_leb_trans]. Qed.

Section Merge.
Context (entries : list JournalEntryData).

Definition sorted_le (e : JournalEntryData) : Prop := StronglySorted Z.le (fd_position <$> forest e).
Context (Hsorted : Forall sorted_le entries).

Let dof := delta_of entries.
Definition blen (b : nat) : nat := match entries !! b with Some e => length (forest e) | None => 0%nat end.

Lemma dof_lt b i d : dof b i = Some d -> (i < blen b)%nat.
Proof.
  unfold dof, delta_of, blen. destruct (entries !! b) as [e|]; [|done]. cbn. apply lookup_lt_Some.
Qed.

Lemma dof_some b i : (i < blen b)%nat -> is_Some (dof b i).
Proof.
  unfold dof, delta_of, blen. destruct (entries !! b) as [e|]; [|lia]. cbn. apply lookup_lt_is_Some.
Qed.

Lemma dof_mono b i j d d' : (i <= j)%nat -> dof b i = Some d -> dof b j = Some d' ->
  fd_position d <= fd_position d'.
Proof.
  intros Hij. unfold dof, delta_of. destruct (entries !! b) as [e|] eqn:Eb; [|done]. cbn.
  assert (sorted_le e) as Hs by (rewrite Forall_lookup in Hsorted; eauto). unfold sorted_le in Hs.
  revert i j Hij. induction (forest e) as [|x l IH]; intros i j Hij; [done|].
  cbn in Hs. apply StronglySorted_inv in Hs as [Hs Hall]. destruct i as [|i], j as [|j]; cbn.
  - intros [= ->] [= ->]. lia.
  - intros [= ->] Hj. rewrite Forall_forall in Hall. apply Hall. apply list_elem_of_fmap.
    exists d'. split; [done|]. by eapply list_elem_of_lookup_2.
  - lia.
  - apply IH; [done|lia].
Qed.

(** The deltas that the heads still stand for. *)
Definition rem (heads : list Head) (b j : nat) : Prop :=
  exists p i, (p, (b, i)) ∈ heads /\ (i <= j)%nat /\ is_Some (dof b j).

Record inv (heads : list Head) : Prop := {
  inv_sorted : StronglySorted (key_le id head_leb) heads;
  inv_head : forall p b i, (p, (b, i)) ∈ heads -> exists d, dof b i = Some d /\ fd_position d = p;
  inv_blocks : NoDup ((fun h => h.2.1) <$> heads)
}.

Definition weight (h : Head) : nat := (blen h.2.1 - h.2.2)%nat.
Definition mu (heads : list Head) : nat := sum_list (weight <$> heads).

Lemma rem_perm h h' b j : h ≡ₚ h' -> rem h b j <-> rem h' b j.
Proof. intros Hp. unfold rem. by setoid_rewrite Hp. Qed.

Lemma rem_cons p b i heads b' j : dof b i <> None ->
  rem ((p, (b, i)) :: heads) b' j <->
    (b', j) = (b, i) \/ (rem heads b' j \/ b' = b /\ (i < j)%nat /\ is_Some (dof b j)).
Proof.
  intros Hd. unfold rem. split.
  - intros (q & i' & [[= -> -> ->]|Hin]%elem_of_cons & Hle & Hs); [|right; left; eauto].
    destruct (decide (i = j)) as [->|]; [by left|]. right. right. split_and!; [done|lia|done].
  - intros [[= -> ->]|[(q & i' & Hin & Hle & Hs)|(-> & Hlt & Hs)]].
    + exists p, i. split_and!; [by left|lia|]. destruct (dof b i) eqn:E; [done|]. done.
    + exists q, i'. split_and!; [by right|done|done].
    + exists p, i. split_and!; [by left|lia|done].
Qed.

(** Advance block [b] past index [i]. *)
Lemma push_next_spec b i heads : inv heads -> b ∉ (fun h => h.2.1) <$> heads -> (i < blen b)%nat ->
  inv (push_next entries b i heads) /\
  (forall b' j, rem (push_next entries b i heads) b' j <->
     rem heads b' j \/ b' = b /\ (i < j)%nat /\ is_Some (dof b j)) /\
  mu (push_next entries b i heads) = (mu heads + (blen b - i - 1))%nat.
Proof.
  intros Hinv Hb Hi. unfold push_next. fold (dof b (S i)). destruct (dof b (S i)) as [d|] eqn:E.
  - split_and!.
    + split.
      * apply heap_push_sorted, Hinv.
      * intros p b' i' Hin. rewrite heap_push_Permutation in Hin.
        apply elem_of_cons in Hin as [[= -> -> ->]|Hin]; [eauto|]. by apply (inv_head _ Hinv).
      * rewrite heap_push_Permutation. cbn. constructor; [done|apply Hinv].
    + intros b' j. rewrite (rem_perm _ _ b' j (heap_push_Permutation _ _)).
      rewrite rem_cons by congruence. split.
      * intros [[= -> ->]|[?|(-> & ? & ?)]]; [right; rewrite E; split_and!; [done|lia|eauto]|by left|].
        right. split_and!; [done|lia|done].
      * intros [?|(-> & ? & ?)]; [by right; left|].
        destruct (decide (j = S i)) as [->|]; [by left|]. right. right. split_and!; [done|lia|done].
    + unfold mu. rewrite (heap_push_Permutation (fd_position d, (b, S i)) heads). cbn. unfold weight at 1. cbn.
      lia.
  - assert (blen b = S i) as Eb.
    { destruct (decide (S i < blen b)%nat) as [Hlt|]; [|lia]. destruct (dof_some b (S i) Hlt). congruence. }
    split_and!; [done| |lia]. intros b' j. split; [by left|]. intros [?|(-> & ? & [d Hd])]; [done|].
    apply dof_lt in Hd. lia.
Qed.

(** No remaining delta lies before the least head. *)
Lemma rem_position heads b j d p : inv heads -> (forall h, h ∈ heads -> p <= h.1) -> rem heads b j ->
  dof b j = Some d -> p <= fd_position d.
Proof.
  intros Hinv Hp (q & i & Hin & Hij & _) Hd. destruct (inv_head _ Hinv _ _ _ Hin) as (d' & Hd' & <-).
  specialize (Hp _ Hin). cbn in Hp. pose proof (dof_mono b i j d' d Hij Hd' Hd). lia.
Qed.

Lemma inv_tail h heads : inv (h :: heads) ->
  inv heads /\ h.2.1 ∉ (fun h => h.2.1) <$> heads /\ (forall h', h' ∈ heads -> h.1 <= h'.1).
Proof.
  intros [Hs Hh Hn]. apply StronglySorted_inv in Hs as [Hs Hall]. apply NoDup_cons in Hn as [Hni Hn].
  split_and!; [|done|].
  - split; [done| |done]. intros. apply Hh. by right.
  - intros h' Hin. rewrite Forall_forall in Hall. specialize (Hall h' Hin).
    destruct h as (p & b & i), h' as (p' & b' & i'). unfold key_le in Hall. cbn [id] in Hall.
    apply head_leb_spec in Hall. cbn. lia.
Qed.

Definition at_position (p : Z) (b j : nat) : Prop := exists d, dof b j = Some d /\ fd_position d = p.

Lemma merge_position_spec fuel p b i latest heads :
  (mu heads + (blen b - i - 1) < fuel)%nat -> inv heads -> b ∉ (fun h => h.2.1) <$> heads ->
  at_position p b i -> (forall h, h ∈ heads -> p <= h.1) ->
  let next b' j := rem heads b' j \/ b' = b /\ (i < j)%nat /\ is_Some (dof b j) in
  let '(latest', heads') := merge_position fuel entries p b i latest heads in
  inv heads' /\ (forall h, h ∈ heads' -> p < h.1) /\ (mu heads' <= mu heads + (blen b - i - 1))%nat /\
  (forall b' j, rem heads' b' j <-> next b' j /\ ~ at_position p b' j) /\
  (latest' = latest \/ next latest'.1 latest'.2 /\ at_position p latest'.1 latest'.2) /\
  ple latest latest' /\
  (forall b' j, next b' j -> at_position p b' j -> ple (b', j) latest').
Proof.
  revert b i latest heads; induction fuel as [|fuel IH]; intros b i latest heads Hfuel Hinv Hb Hat Hmin next;
    [lia|].
  destruct Hat as (d & Hd & Hp). pose proof (dof_lt _ _ _ Hd) as Hi.
  destruct (push_next_spec b i heads Hinv Hb Hi) as (Hinv1 & Hrem1 & Hmu1).
  cbn [merge_position]. set (heads1 := push_next entries b i heads) in *.
  assert (forall h, h ∈ heads1 -> p <= h.1) as Hmin1.
  { intros (q & b' & i') Hin. cbn. destruct (inv_head _ Hinv1 _ _ _ Hin) as (d' & Hd' & <-).
    assert (rem heads1 b' i') as Hr by (exists (fd_position d'), i'; split_and!; [done|lia|eauto]).
    apply Hrem1 in Hr as [Hr|(-> & Hlt & _)]; [exact (rem_position heads b' i' d' p Hinv Hmin Hr Hd')|].
    rewrite <- Hp. eapply (dof_mono b i i'); [lia|done|done]. }
  assert ((forall h, h ∈ heads1 -> p < h.1) ->
    inv heads1 /\ (forall h, h ∈ heads1 -> p < h.1) /\ (mu heads1 <= mu heads + (blen b - i - 1))%nat /\
    (forall b' j, rem heads1 b' j <-> next b' j /\ ~ at_position p b' j) /\
    (latest = latest \/ next latest.1 latest.2 /\ at_position p latest.1 latest.2) /\
    ple latest latest /\ (forall b' j, next b' j -> at_position p b' j -> ple (b', j) latest)) as Hstop.
  { intros Hgt. assert (forall b' j, next b' j -> ~ at_position p b' j) as Hno.
    { intros b' j Hn (d' & Hd' & Hp'). apply Hrem1 in Hn.
      assert (forall h, h ∈ heads1 -> p + 1 <= h.1) as Hge by (intros h Hh; specialize (Hgt h Hh); lia).
      pose proof (rem_position heads1 b' j d' (p + 1) Hinv1 Hge Hn Hd'). lia. }
    split_and!; [done|done|lia| |by left|apply ple_refl|].
    - intros b' j. rewrite Hrem1. split; [|by intros []]. intros Hn. split; [done|]. by apply Hno.
    - intros b' j Hn Ha. by destruct (Hno b' j Hn). }
  destruct heads1 as [|(q & b2 & i2) rest] eqn:Eh; [apply Hstop; intros h Hh; by apply elem_of_nil in Hh|].
  destruct (inv_tail _ _ Hinv1) as (Hinv2 & Hb2 & Hmin2). cbn [fst snd] in *.
  destruct (Z.eqb_spec q p) as [->|Hne].
  2: { apply Hstop. assert (p < q) as Hlt by (specialize (Hmin1 _ (list_elem_of_here _ _)); cbn in Hmin1; lia).
       intros h [->|Hin]%elem_of_cons; [done|]. specialize (Hmin2 _ Hin). lia. }
  destruct (inv_head _ Hinv1 p b2 i2 (list_elem_of_here _ _)) as (d2 & Hd2 & Hp2).
  pose proof (dof_lt _ _ _ Hd2) as Hi2.
  assert (mu ((p, (b2, i2)) :: rest) = (mu rest + (blen b2 - i2))%nat) as Emu.
  { unfold mu. cbn. unfold weight at 1. cbn. lia. }
  pose proof (eq_trans (eq_sym Emu) Hmu1) as Hmu2.
  specialize (IH b2 i2 (later latest (b2, i2)) rest ltac:(lia) Hinv2 Hb2 (ex_intro _ d2 (conj Hd2 Hp2))).
  specialize (IH ltac:(intros h Hh; apply Hmin2, Hh)). cbn zeta in IH.
  destruct (merge_position fuel entries p b2 i2 (later latest (b2, i2)) rest) as [latest' heads'].
  destruct IH as (Hinv' & Hgt' & Hmu' & Hrem' & Hlast' & Hple' & Hmax').
  destruct (later_spec latest (b2, i2)) as (Hl & Hl1 & Hl2).
  assert (forall b' j, next b' j <-> (b', j) = (b2, i2) \/
    (rem rest b' j \/ b' = b2 /\ (i2 < j)%nat /\ is_Some (dof b2 j))) as Hnext.
  { intros b' j. unfold next. rewrite <- Hrem1. rewrite rem_cons by congruence. done. }
  assert (at_position p b2 i2) as Hat2 by (by exists d2).
  split_and!; [done|done|lia| | | |].
  - intros b' j. rewrite Hrem', Hnext. split; [naive_solver|]. intros [[[= -> ->]|Hn] Ha]; done.
  - destruct Hlast' as [->|[Hn Ha]].
    + destruct Hl as [-> | ->]; [by left|]. right. split; [|done]. apply Hnext. by left.
    + right. split; [|done]. apply Hnext. by right.
  - by eapply ple_trans.
  - intros b' j Hn Ha. apply Hnext in Hn as [[= -> ->]|Hn]; [by eapply ple_trans|]. by apply Hmax'.
Qed.

(** (b, j) is the last remaining write of position [q]. *)
Definition last_rem (R : nat -> nat -> Prop) (q : Z) (b j : nat) : Prop :=
  R b j /\ at_position q b j /\ forall b' j', R b' j' -> at_position q b' j' -> ple (b', j') (b, j).

Lemma merge_heads_spec fuel heads : inv heads -> (mu heads < fuel)%nat -> (mu heads <= total_deltas entries)%nat ->
  let W := merge_heads fuel entries heads in
  StronglySorted Z.lt W.*1 /\ (forall q st, (q, st) ∈ W -> forall h : Head, head heads = Some h -> h.1 <= q) /\
  (forall q b j d, last_rem (rem heads) q b j -> dof b j = Some d -> (q, after d) ∈ W) /\
  (forall q st, (q, st) ∈ W -> exists b j d, last_rem (rem heads) q b j /\ dof b j = Some d /\ st = after d).
Proof.
  revert heads; induction fuel as [|fuel IH]; intros heads Hinv Hfuel Htotal; [lia|].
  cbn [merge_heads]. destruct heads as [|(p & b & i) rest].
  { cbn zeta. split_and!; [constructor|by intros ? ? ?%elem_of_nil| |by intros ? ? ?%elem_of_nil].
    intros q b j d [(? & ? & Hin & _) _]. by apply elem_of_nil in Hin. }
  destruct (inv_tail _ _ Hinv) as (Hinv1 & Hb1 & Hmin1). cbn [fst snd] in *.
  destruct (inv_head _ Hinv p b i (list_elem_of_here _ _)) as (d & Hd & Hp). pose proof (dof_lt _ _ _ Hd) as Hi.
  assert (mu ((p, (b, i)) :: rest) = (mu rest + (blen b - i))%nat) as Emu.
  { unfold mu. cbn. unfold weight at 1. cbn. lia. }
  assert (mu rest + (blen b - i) <= total_deltas entries)%nat as Ht by (rewrite <- Emu; exact Htotal).
  assert (mu rest + (blen b - i) < S fuel)%nat as Hf by (rewrite <- Emu; exact Hfuel).
  assert (at_position p b i) as Hat by (by exists d).
  pose proof (merge_position_spec (S (total_deltas entries)) p b i (b, i) rest ltac:(lia) Hinv1 Hb1 Hat Hmin1) as Hm.
  cbn zeta in Hm. destruct (merge_position _ entries p b i (b, i) rest) as [latest heads'].
  destruct Hm as (Hinv' & Hgt & Hmu' & Hrem' & Hlast & Hple & Hmax).
  assert (forall b' j, rem ((p, (b, i)) :: rest) b' j <-> (b', j) = (b, i) \/
    (rem rest b' j \/ b' = b /\ (i < j)%nat /\ is_Some (dof b j))) as Hsplit.
  { intros b' j. rewrite rem_cons by congruence. done. }
  assert (last_rem (rem ((p, (b, i)) :: rest)) p latest.1 latest.2) as Hlr.
  { destruct latest as [lb lj]. cbn [fst snd] in *. split_and!.
    - apply Hsplit. destruct Hlast as [[= -> ->]|[? _]]; auto.
    - destruct Hlast as [[= -> ->]|[_ ?]]; done.
    - intros b' j' Hr Ha. apply Hsplit in Hr as [[= -> ->]|Hr]; [done|]. by apply Hmax. }
  assert (at_position p latest.1 latest.2) as (dl & Hdl & Hpl) by apply Hlr.
  fold (dof latest.1 latest.2). rewrite Hdl.
  destruct (IH heads' Hinv' ltac:(lia) ltac:(lia)) as (Hs & Hge & Hin & Hout).
  assert (forall q st, (q, st) ∈ merge_heads fuel entries heads' -> p < q) as Hlt.
  { intros q st Hq. destruct heads' as [|h heads']; [by destruct fuel; apply elem_of_nil in Hq|].
    specialize (Hge q st Hq h ltac:(done)). specialize (Hgt h (list_elem_of_here _ _)). lia. }
  assert (forall b' j, rem heads' b' j <-> rem ((p, (b, i)) :: rest) b' j /\ ~ at_position p b' j) as Hrest.
  { intros b' j. rewrite Hrem', Hsplit. split; [naive_solver|]. intros [[[= -> ->]|?] ?]; done. }
  assert (forall q b' j, q <> p -> last_rem (rem ((p, (b, i)) :: rest)) q b' j <-> last_rem (rem heads') q b' j) as Hiff.
  { intros q b' j Hq. assert (forall b' j, at_position q b' j -> ~ at_position p b' j) as Hex.
    { intros b1 j1 (d1 & E1 & P1) (d2 & E2 & P2). congruence. }
    unfold last_rem. setoid_rewrite Hrest. split; intros (HR & Ha & Hm); split_and!; try naive_solver. }
  cbn zeta. split_and!.
  - cbn. constructor; [done|]. apply Forall_forall. intros q ((q' & st) & -> & Hq)%list_elem_of_fmap. by eapply Hlt.
  - intros q st Hq h [= <-]. cbn. apply elem_of_cons in Hq as [[= -> _]|Hq]; [lia|]. specialize (Hlt q st Hq). lia.
  - intros q b' j d' Hl Hd'. destruct (decide (q = p)) as [->|Hne].
    + assert ((b', j) = latest) as <-.
      { destruct Hl as (Hr & Ha & Hm), Hlr as (Hr' & Ha' & Hm'). destruct latest as [lb lj].
        apply ple_antisym; [by apply Hm'|by apply Hm]. }
      cbn in Hdl. assert (dl = d') as -> by congruence. by left.
    + right. eapply Hin; [|done]. by apply Hiff.
  - intros q st [[= -> ->]|Hq]%elem_of_cons.
    + exists latest.1, latest.2, dl. done.
    + pose proof (Hlt _ _ Hq). destruct (Hout q st Hq) as (b' & j & d' & Hl & Hd' & ->).
      exists b', j, d'. split_and!; [|done|done]. apply Hiff; [lia|done].
Qed.

(** ** The initial heads *)

Definition heads_from (k : nat) (l : list JournalEntryData) : list Head :=
  omap (fun '(block, entry) => (fun delta => (fd_position delta, (block, 0%nat))) <$> head (forest entry))
    (zip (seq k (length l)) l).

Lemma heads_from_cons k e l :
  heads_from k (e :: l) = match head (forest e) with
                          | Some d => (fd_position d, (k, 0%nat)) :: heads_from (S k) l
                          | None => heads_from (S k) l
                          end.
Proof. unfold heads_from. cbn. by destruct (head (forest e)). Qed.

Lemma heads_from_elem k l p b i : (p, (b, i)) ∈ heads_from k l <->
  exists n e d, b = (k + n)%nat /\ i = 0%nat /\ l !! n = Some e /\ forest e !! 0%nat = Some d /\ p = fd_position d.
Proof.
  unfold heads_from. rewrite list_elem_of_omap. split.
  - intros ([b' e] & Hin & He). apply list_elem_of_lookup in Hin as [n Hn].
    apply lookup_zip_with_Some in Hn as (b1 & e1 & [= -> ->] & Hb & Hl). apply lookup_seq in Hb as [-> _].
    rewrite head_lookup in He. destruct (forest e1 !! 0%nat) as [d|] eqn:Ed; [|done]. injection He as <- <- <-.
    by exists n, e1, d.
  - intros (n & e & d & -> & -> & Hl & Hd & ->). exists ((k + n)%nat, e). split.
    + apply list_elem_of_lookup. exists n. apply lookup_zip_with_Some. exists (k + n)%nat, e. split_and!; [done| |done].
      apply lookup_seq. split; [done|]. by apply lookup_lt_Some in Hl.
    + by rewrite head_lookup, Hd.
Qed.

Lemma heads_from_NoDup k l : NoDup ((fun h : Head => h.2.1) <$> heads_from k l).
Proof.
  revert k; induction l as [|e l IH]; intros k; [constructor|]. rewrite heads_from_cons.
  destruct (head (forest e)) as [d|]; [|done]. cbn. constructor; [|done].
  intros ([p [b i]] & E & Hin)%list_elem_of_fmap. cbn in E. apply heads_from_elem in Hin as (n & _ & _ & Eb & _). lia.
Qed.

Lemma heads_from_mu k l : (forall n, entries !! (k + n)%nat = l !! n) ->
  mu (heads_from k l) = total_deltas l.
Proof.
  revert k; induction l as [|e l IH]; intros k Hl; [done|]. rewrite heads_from_cons.
  assert (forall n, entries !! (S k + n)%nat = l !! n) as Hl'.
  { intros n. pose proof (Hl (S n)) as Hn. cbn [lookup list_lookup] in Hn.
    transitivity (entries !! (k + S n)%nat); [f_equal; lia | done]. }
  unfold total_deltas. cbn [fmap list_fmap sum_list]. fold (total_deltas l). rewrite <- (IH (S k) Hl').
  pose proof (Hl 0%nat) as H0. rewrite Nat.add_0_r in H0. cbn in H0.
  destruct (forest e) as [|d ds] eqn:Ef; cbn [head length]; [done|].
  unfold mu. cbn [fmap list_fmap sum_list]. unfold weight at 1, blen. cbn [fst snd]. rewrite H0, Ef. cbn. lia.
Qed.

Lemma initial_heads : let heads := foldr heap_push [] (first_heads entries) in
  inv heads /\ (forall b j, rem heads b j <-> is_Some (dof b j)) /\ mu heads = total_deltas entries.
Proof.
  intros heads. assert (heads ≡ₚ heads_from 0 entries /\ StronglySorted (key_le id head_leb) heads) as [Hperm Hs].
  { unfold heads. change (first_heads entries) with (heads_from 0 entries).
    induction (heads_from 0 entries) as [|h l [IH IHs]]; cbn; [split; [done|constructor]|].
    split; [by rewrite heap_push_Permutation, IH | by apply heap_push_sorted]. }
  assert (forall p b i, (p, (b, i)) ∈ heads <-> i = 0%nat /\ exists d, dof b 0 = Some d /\ fd_position d = p) as Hin.
  { intros p b i. rewrite Hperm, heads_from_elem. unfold dof, delta_of. split.
    - intros (n & e & d & -> & -> & He & Hd & ->). cbn. rewrite He. cbn. eauto.
    - intros (-> & d & Hd & <-). destruct (entries !! b) as [e|] eqn:Eb; [|done]. exists b, e, d. done. }
  split_and!.
  - split; [done| |].
    + intros p b i Hh. apply Hin in Hh as (-> & d & ? & ?). eauto.
    + rewrite Hperm. apply heads_from_NoDup.
  - intros b j. split; [by intros (? & ? & _ & _ & ?)|]. intros [d Hd].
    pose proof (dof_lt _ _ _ Hd). destruct (dof_some b 0 ltac:(lia)) as [d0 Hd0].
    exists (fd_position d0), 0%nat. split_and!; [apply Hin; eauto|lia|eauto].
  - unfold mu. rewrite Hperm. by apply heads_from_mu.
Qed.

Lemma merged_spec : let W := merged_forest_writes entries in
  StronglySorted Z.lt W.*1 /\
  forall q st, (q, st) ∈ W <-> exists b j d,
    last_rem (fun b j => is_Some (dof b j)) q b j /\ dof b j = Some d /\ st = after d.
Proof.
  destruct initial_heads as (Hinv & Hrem & Hmu). unfold merged_forest_writes.
  set (heads := foldr heap_push [] (first_heads entries)) in *.
  destruct (merge_heads_spec (S (total_deltas entries)) heads Hinv ltac:(lia) ltac:(lia)) as (Hs & _ & Hin & Hout).
  assert (forall q b j, last_rem (rem heads) q b j <-> last_rem (fun b j => is_Some (dof b j)) q b j) as Hl.
  { intros q b j. unfold last_rem. by setoid_rewrite Hrem. }
  split; [done|]. intros q st. split.
  - intros Hq. destruct (Hout q st Hq) as (b & j & d & Hlr & ? & ?). exists b, j, d. by rewrite <- Hl.
  - intros (b & j & d & Hlr & Hd & ->). eapply Hin; [by apply Hl|done].
Qed.
End Merge.

Lemma delta_write entries b j d : delta_of entries b j = Some d ->
  fd_position d ∈ (concat (forest_writes <$> entries)).*1.
Proof.
  unfold delta_of. revert b; induction entries as [|e entries IH]; intros b; [done|]. cbn.
  rewrite fmap_app, elem_of_app. destruct b as [|b]; cbn; [|right; by eapply IH].
  intros Hd. left. rewrite forest_writes_fst. apply list_elem_of_fmap. exists d. split; [done|].
  by eapply list_elem_of_lookup_2.
Qed.

(** The last write of a position among entries applied in order. *)
Lemma last_write_entry e q st : last_write q (forest_writes e) = Some st ->
  exists j d, forest e !! j = Some d /\ fd_position d = q /\ after d = st /\
    forall j' d', forest e !! j' = Some d' -> fd_position d' = q -> (j' <= j)%nat.
Proof.
  unfold forest_writes. induction (forest e) as [|x l IH]; [done|]. cbn.
  destruct (last_write q _) as [st'|] eqn:E.
  - intros [= ->]. destruct (IH eq_refl) as (j & d & Hj & Hq & Ha & Hmax).
    exists (S j), d. split_and!; [done..|]. intros [|j'] d' Hj' Hq'; [lia|]. cbn in Hj'. specialize (Hmax j' d' Hj' Hq'). lia.
  - case_decide as Hq; [|done]. intros [= <-]. exists 0%nat, x. split_and!; [done..|].
    intros [|j'] d' Hj' Hq'; [done|]. exfalso. apply last_write_None in E. apply E.
    rewrite <- list_fmap_compose. apply list_elem_of_fmap. exists d'. split; [done|]. by eapply list_elem_of_lookup_2.
Qed.

Lemma last_write_entries entries q st :
  last_write q (concat (forest_writes <$> entries)) = Some st ->
  exists b j d, last_rem entries (fun b j => is_Some (delta_of entries b j)) q b j /\
    delta_of entries b j = Some d /\ after d = st.
Proof.
  induction entries as [|e entries IH]; [done|]. cbn. rewrite last_write_app.
  destruct (last_write q (concat _)) as [st'|] eqn:E.
  - intros [= ->]. destruct (IH eq_refl) as (b & j & d & (Hs & Ha & Hm) & Hd & Hst).
    exists (S b), j, d. split_and!; [|done|done]. split_and!; [done|done|].
    intros [|b'] j' Hs' Ha'; [left; cbn; lia|]. destruct (Hm b' j' Hs' Ha') as [?|[? ?]]; [left|right]; cbn in *; lia.
  - intros Hw. apply last_write_entry in Hw as (j & d & Hj & Hq & Ha & Hm). exists 0%nat, j, d.
    split_and!; [|done|done]. split_and!; [by exists d|by exists d|].
    intros [|b'] j' Hs' (d' & Hd' & Hp').
    + right. cbn. split; [done|]. by eapply Hm.
    + exfalso. apply last_write_None in E. apply E. rewrite <- Hp'. by eapply delta_write.
Qed.

Lemma merged_last_write entries q : Forall sorted_le entries ->
  last_write q (merged_forest_writes entries) = last_write q (concat (forest_writes <$> entries)).
Proof.
  intros Hs. destruct (merged_spec entries Hs) as [Hsorted Hin].
  pose proof (StronglySorted_NoDup _ Hsorted) as Hnd.
  destruct (last_write q (concat (forest_writes <$> entries))) as [st|] eqn:E.
  - apply last_write_entries in E as (b & j & d & Hl & Hd & <-). apply last_write_unique; [done|].
    apply Hin. by exists b, j, d.
  - apply last_write_None. intros ((q' & st) & -> & Hq)%list_elem_of_fmap. cbn in E.
    apply Hin in Hq as (b & j & d & (_ & (d' & Hd' & Hp) & _) & Hd & ->).
    apply last_write_None in E. apply E. rewrite <- Hp. by eapply delta_write.
Qed.
End MergedWrites.
