(* ===== verification/Replay.v ===== *)
(** Applying, undoing, batching and replaying journal entries, and the overlay
    of entries not yet applied ([apply_forward], [apply_backward],
    [apply_forward_batch], [replay_journal], [ForestOverlay] of
    [src/src/parallel_forest.rs]).

    The abstract forest is what the code promises to keep: the state of every
    node, the outpoint index as a finite map, and the leaf count. *)

From S2P Require Import Prelude Bytes Sorting Positions JournalEntry Forest SteadyState Accumulator.
From S2P Require Import PlanUpdate LeafMap MergedWrites.
Import Sorting.Sorting Positions.Positions JournalEntry.JournalEntry Forest.Forest
  SteadyState.SteadyState Accumulator.Accumulator PlanUpdate.PlanUpdate LeafMap.LeafMap
  MergedWrites.MergedWrites.

Module Replay.

#[local] Opaque pos.

(** ** The abstract forest *)

Record AbsForest := {
  ab_node : Z -> JournalNodeState;
  ab_index : gmap OutPoint Z;
  ab_leaves : Z
}.

#[export] Instance AbsForest_equiv : Equiv AbsForest := fun a b =>
  (forall p, ab_node a p = ab_node b p) /\ ab_index a = ab_index b /\ ab_leaves a = ab_leaves b.

#[export] Instance AbsForest_equivalence : Equivalence (≡@{AbsForest}).
Proof.
  split.
  - intros a. by split_and!.
  - intros a b (Hn & Hi & Hl). by split_and!.
  - intros a b c (Hn & Hi & Hl) (Hn' & Hi' & Hl'). split_and!; [intros; by rewrite Hn|congruence..].
Qed.

(** A node's position in a larger layout. *)
Definition relocate (a b p : Z) : Z :=
  match translate_position p a b with Ok q => q | Err _ => p end.

Definition entry_rows (rows : Z) (e : JournalEntryData) : Z := default rows (forest_rows e).

(** The writes of an entry, at their positions in a layout of [rows] rows. *)
Definition placed (rows : Z) (e : JournalEntryData) (ws : list (Z * JournalNodeState))
  : list (Z * JournalNodeState) :=
  (fun w => (relocate (entry_rows rows e) rows w.1, w.2)) <$> ws.

Definition overwrite (ws : list (Z * JournalNodeState)) (n : Z -> JournalNodeState) (p : Z) :=
  match last_write p ws with Some st => st | None => n p end.

Definition abs_forward (rows : Z) (e : JournalEntryData) (a : AbsForest) : AbsForest := {|
  ab_node := overwrite (placed rows e (forest_writes e)) (ab_node a);
  ab_index := index_delta (ab_index a) (removed e) (added e);
  ab_leaves := num_leaves e
|}.

Definition abs_backward (rows : Z) (e : JournalEntryData) (a : AbsForest) : AbsForest := {|
  ab_node := overwrite (placed rows e (forest_unwrites e)) (ab_node a);
  ab_index := index_delta (ab_index a) (added e) (removed e);
  ab_leaves := num_leaves e - zlength (added e)
|}.

#[export] Instance abs_forward_proper rows e : Proper ((≡) ==> (≡)) (abs_forward rows e).
Proof.
  intros a b (Hn & Hi & Hl). split_and!; cbn; [|by rewrite Hi|done].
  intros p. unfold overwrite. by rewrite Hn.
Qed.

#[export] Instance abs_backward_proper rows e : Proper ((≡) ==> (≡)) (abs_backward rows e).
Proof.
  intros a b (Hn & Hi & Hl). split_and!; cbn; [|by rewrite Hi|done].
  intros p. unfold overwrite. by rewrite Hn.
Qed.

Lemma relocate_spec a b p : 0 <= a <= b -> b <= 62 -> is_pos a p ->
  translate_position p a b = Ok (relocate a b p) /\ is_pos b (relocate a b p).
Proof.
  intros Hab Hb (r & o & Hv & ->). pose proof (valid_grow a b r o ltac:(lia) Hv) as Hv'.
  unfold relocate. rewrite translate_position_pos by (done || lia). split; [done|]. by exists r, o.
Qed.

Lemma relocate_inj a b p q : 0 <= a <= b -> b <= 62 -> is_pos a p -> is_pos a q ->
  relocate a b p = relocate a b q -> p = q.
Proof.
  intros Hab Hb (r & o & Hv & ->) (r' & o' & Hv' & ->). unfold relocate.
  pose proof (valid_grow a b r o ltac:(lia) Hv) as Hw. pose proof (valid_grow a b r' o' ltac:(lia) Hv') as Hw'.
  rewrite !translate_position_pos by (done || lia).
  intros E. by apply (pos_inj b) in E as [-> ->]; [|lia|done|done].
Qed.

Lemma relocate_same rows p : 0 <= rows <= 62 -> is_pos rows p -> relocate rows rows p = p.
Proof.
  intros Hr (r & o & Hv & ->). unfold relocate. by rewrite translate_position_pos by (done || lia).
Qed.

Section Apply.
Context `{NodeHashing} `{Sha256} `{LeafMapDb} `{!LeafMapLaws}.
Context (U : OutPoint -> Prop).
Context (Hinj : forall o o', U o -> U o' -> leaf_map_key o = leaf_map_key o' -> o = o').

(** An entry that belongs to a forest of [rows] rows: a layout not larger than
    the current one, each node written at most once, states as the forest
    reports them. *)
Record entry_fits (rows : Z) (e : JournalEntryData) : Prop := {
  ef_rows : 0 <= entry_rows rows e <= rows;
  ef_pos : forall d, d ∈ forest e -> is_pos (entry_rows rows e) (fd_position d);
  ef_once : NoDup (fd_position <$> forest e);
  ef_canonical : forall d, d ∈ forest e -> state_canonical (before d) /\ state_canonical (after d);
  ef_removed : Forall (delta_in U) (removed e);
  ef_added : Forall (delta_in U) (added e);
  ef_leaves : zlength (added e) <= num_leaves e
}.

Definition node_state (f : FlatForest) (p : Z) : JournalNodeState := state_of (node_at f p).

Record layout (s : SteadyStateForest) : Prop := {
  ly_rows : 0 <= ss_rows s <= 62;
  ly_count : ff_count (ss_forest s) = 2 ^ (ss_rows s + 1) - 1
}.

Record refines (s : SteadyStateForest) (a : AbsForest) : Prop := {
  rf_layout : layout s;
  rf_nodes : forall p, is_pos (ss_rows s) p -> node_state (ss_forest s) p = ab_node a p;
  rf_index : represents U (leaf_map s) (ab_index a);
  rf_leaves : leaves s = ab_leaves a
}.

#[export] Instance refines_proper s : Proper ((≡) ==> (↔)) (refines s).
Proof.
  assert (forall a b, a ≡ b -> refines s a -> refines s b) as Hi.
  { intros a b (Hn & Hi & Hl) [Hy Hf Hm Hk]. split; [done| |by rewrite <- Hi|congruence].
    intros p Hp. rewrite <- Hn. by apply Hf. }
  intros a b Hab. split; apply Hi; [done | by symmetry].
Qed.

(** ** Writing nodes *)

Lemma in_layout s p : layout s -> is_pos (ss_rows s) p -> p < ff_count (ss_forest s).
Proof. intros [Hr Hc] Hp. by apply (is_pos_in (ss_forest s) (ss_rows s) Hr Hc). Qed.

Lemma write_nodes_spec ws f : (forall w, w ∈ ws -> w.1 < ff_count f /\ state_canonical w.2) ->
  exists f', foldM (fun f '(position, state) => set_journal_state f position state) ws f = Ok f' /\
    ff_count f' = ff_count f /\ ff_marker f' = ff_marker f /\
    forall p, node_state f' p = overwrite ws (node_state f) p.
Proof.
  revert f; induction ws as [|[q st] ws IH]; intros f Hw; [by exists f|].
  destruct (Hw (q, st)) as [Hq Hst]; [by left|]. cbn in Hq, Hst. cbn [foldM].
  rewrite set_journal_state_eq by done. step_ok.
  destruct (IH (put_node f q (journal_node st))) as (f' & E & Hc & Hm & Hn).
  { intros w Hin. apply Hw. by right. }
  exists f'. split_and!; [done|done|done|]. intros p. rewrite Hn. unfold overwrite. cbn.
  destruct (last_write p ws); [done|]. unfold node_state. rewrite node_at_put.
  case_decide; [by rewrite state_of_journal_node|done].
Qed.

Lemma journal_position_eq s e p : layout s -> 0 <= entry_rows (ss_rows s) e <= ss_rows s ->
  is_pos (entry_rows (ss_rows s) e) p ->
  journal_position s p (entry_rows (ss_rows s) e) = Ok (relocate (entry_rows (ss_rows s) e) (ss_rows s) p).
Proof.
  intros [Hr _] He Hp. unfold journal_position. destruct (Z.eqb_spec (entry_rows (ss_rows s) e) (ss_rows s)) as [E|].
  - rewrite E in *. by rewrite relocate_same.
  - apply relocate_spec; (done || lia).
Qed.

(** The fold of [apply_node] over deltas is the fold of the placed writes. *)
Lemma apply_nodes_eq s e st deltas f : layout s -> entry_fits (ss_rows s) e ->
  (forall d, d ∈ deltas -> d ∈ forest e) ->
  foldM (apply_node s (entry_rows (ss_rows s) e) st) deltas f =
  foldM (fun f '(position, state) => set_journal_state f position state)
    (placed (ss_rows s) e ((fun d => (fd_position d, st d)) <$> deltas)) f.
Proof.
  intros Hl He Hd. unfold placed. rewrite !foldM_fmap. apply foldM_ext. intros f' d Hin. cbn.
  unfold apply_node. rewrite journal_position_eq; [done|done|apply He|by apply (ef_pos _ _ He), Hd].
Qed.

Lemma placed_in s e st deltas w : layout s -> entry_fits (ss_rows s) e ->
  (forall d, d ∈ deltas -> d ∈ forest e) ->
  (forall d, d ∈ deltas -> state_canonical (st d)) ->
  w ∈ placed (ss_rows s) e ((fun d => (fd_position d, st d)) <$> deltas) ->
  w.1 < ff_count (ss_forest s) /\ state_canonical w.2.
Proof.
  intros Hl He Hd Hst (w' & -> & (d & -> & Hin)%list_elem_of_fmap)%list_elem_of_fmap. cbn. split; [|by apply Hst].
  apply in_layout; [done|]. apply relocate_spec; [apply He|apply Hl|by apply (ef_pos _ _ He), Hd].
Qed.

Lemma placed_NoDup rows e ws : rows <= 62 -> entry_fits rows e -> ws.*1 = fd_position <$> forest e ->
  NoDup (placed rows e ws).*1.
Proof.
  intros Hr He Hws. unfold placed. rewrite <- list_fmap_compose.
  change (NoDup ((relocate (entry_rows rows e) rows ∘ fst) <$> ws)).
  rewrite list_fmap_compose, Hws. pose proof (ef_once _ _ He) as Hnd.
  assert (forall p, p ∈ fd_position <$> forest e -> is_pos (entry_rows rows e) p) as Hp.
  { intros p (d & -> & Hd)%list_elem_of_fmap. by apply (ef_pos _ _ He). }
  revert Hnd Hp. generalize (fd_position <$> forest e). intros l. induction l as [|p l IH]; intros Hnd Hp; cbn; [constructor|].
  apply NoDup_cons in Hnd as [Hni Hnd]. constructor.
  - intros (q & E & Hq)%list_elem_of_fmap. apply Hni.
    rewrite (relocate_inj (entry_rows rows e) rows p q); [done|apply He|done|apply Hp; by left|apply Hp; by right|done].
  - apply IH; [done|]. intros. apply Hp. by right.
Qed.

Lemma last_write_reverse (ws : list (Z * JournalNodeState)) p : NoDup ws.*1 -> last_write p (reverse ws) = last_write p ws.
Proof.
  intros Hnd. destruct (last_write p ws) as [v|] eqn:E.
  - apply last_write_unique; [by rewrite fmap_reverse, reverse_Permutation|].
    apply elem_of_reverse. by apply last_write_Some_elem.
  - apply last_write_None. apply last_write_None in E. by rewrite fmap_reverse, elem_of_reverse.
Qed.

(** ** Applying and undoing one entry *)

Lemma journal_forest_rows_eq s e : entry_rows (ss_rows s) e <= ss_rows s ->
  journal_forest_rows s e = Ok (entry_rows (ss_rows s) e).
Proof.
  intros He. unfold journal_forest_rows. fold (entry_rows (ss_rows s) e).
  by rewrite (proj2 (Z.ltb_ge (ss_rows s) _)).
Qed.

Lemma apply_forward_refines s a e : refines s a -> entry_fits (ss_rows s) e ->
  exists s', apply_forward s e = Ok s' /\ ss_rows s' = ss_rows s /\
    refines s' (abs_forward (ss_rows s) e a).
Proof.
  intros [Hl Hn Hi Hk] He. unfold apply_forward. rewrite journal_forest_rows_eq by apply He. step_ok.
  rewrite apply_nodes_eq by done.
  destruct (write_nodes_spec (placed (ss_rows s) e (forest_writes e)) (ss_forest s)) as (f & E & Hc & Hm & Hs).
  { intros w. apply placed_in; [done..|]. intros d Hd. by apply He. }
  unfold forest_writes in E. rewrite E. step_ok.
  destruct (apply_leaf_map_delta_spec U Hinj (with_forest s f) (ab_index a) (removed e) (added e))
    as (s' & E' & Hf' & Hl' & Hr' & Hrep); [done|apply He|apply He|].
  rewrite E'. step_ok. eexists. split_and!; [done|done|]. split.
  - destruct Hl. split; cbn; rewrite ?Hr', ?Hf'; cbn; [done|congruence].
  - intros p. cbn. rewrite Hr', Hf'. cbn. intros Hp. rewrite Hs. unfold overwrite. by rewrite Hn.
  - done.
  - done.
Qed.

Lemma apply_backward_refines s a e : refines s a -> entry_fits (ss_rows s) e ->
  exists s', apply_backward s e = Ok s' /\ ss_rows s' = ss_rows s /\
    refines s' (abs_backward (ss_rows s) e a).
Proof.
  intros [Hl Hn Hi Hk] He. unfold apply_backward. rewrite journal_forest_rows_eq by apply He. step_ok.
  rewrite apply_nodes_eq; [|done|done|by intros d Hd%in_reverse].
  destruct (write_nodes_spec (placed (ss_rows s) e ((fun d => (fd_position d, before d)) <$> reverse (forest e)))
    (ss_forest s)) as (f & E & Hc & Hm & Hs).
  { intros w. apply placed_in; [done|done|by intros d Hd%in_reverse|].
    intros d Hd%in_reverse. by apply He. }
  rewrite E. step_ok.
  destruct (apply_leaf_map_delta_spec U Hinj (with_forest s f) (ab_index a) (added e) (removed e))
    as (s' & E' & Hf' & Hl' & Hr' & Hrep); [done|apply He|apply He|].
  rewrite E'. step_ok. unfold previous_num_leaves, checked_sub. rewrite bool_decide_eq_true_2 by apply He.
  step_ok. eexists. split_and!; [done|done|]. split.
  - destruct Hl. split; cbn; rewrite ?Hr', ?Hf'; cbn; [done|congruence].
  - intros p. cbn. rewrite Hr', Hf'. cbn. intros Hp. rewrite Hs. unfold overwrite. rewrite Hn by done.
    assert (placed (ss_rows s) e ((fun d => (fd_position d, before d)) <$> reverse (forest e))
      = reverse (placed (ss_rows s) e (forest_unwrites e))) as ->.
    { unfold placed, forest_unwrites. by rewrite <- !fmap_reverse. }
    rewrite last_write_reverse; [done|]. pose proof (ly_rows _ Hl). apply placed_NoDup; [lia|done|].
    apply forest_unwrites_fst.
  - done.
  - done.
Qed.

(** ** Undoing *)

(** An entry that was planned from the abstract forest [a]. *)
Record planned_from (rows : Z) (a : AbsForest) (e : JournalEntryData) : Prop := {
  pf_before : forall d, d ∈ forest e ->
    before d = ab_node a (relocate (entry_rows rows e) rows (fd_position d));
  pf_index : index_undoable (ab_index a) (removed e) (added e);
  pf_leaves : num_leaves e - zlength (added e) = ab_leaves a
}.

Definition touches (rows : Z) (e : JournalEntryData) (p : Z) : Prop :=
  p ∈ (placed rows e (forest_writes e)).*1.
Definition touches_outpoint (e : JournalEntryData) (o : OutPoint) : Prop :=
  o ∈ outpoint <$> (removed e ++ added e).

Lemma touches_unwrites rows e p : p ∈ (placed rows e (forest_unwrites e)).*1 <-> touches rows e p.
Proof.
  unfold touches, placed, forest_writes, forest_unwrites. by rewrite <- !list_fmap_compose.
Qed.

Lemma unwrite_value rows a e p : planned_from rows a e -> touches rows e p ->
  last_write p (placed rows e (forest_unwrites e)) = Some (ab_node a p).
Proof.
  intros Hp Ht. destruct (last_write p _) as [st|] eqn:E.
  - apply last_write_Some_elem in E. unfold placed, forest_unwrites in E. rewrite <- list_fmap_compose in E.
    apply list_elem_of_fmap in E as (d & [= -> ->] & Hd). f_equal. by apply Hp.
  - apply last_write_None in E. by rewrite touches_unwrites in E.
Qed.

(** The two states agree except on the given positions and outpoints. *)
Definition agree (T : Z -> Prop) (O : OutPoint -> Prop) (a b : AbsForest) : Prop :=
  (forall p, ~ T p -> ab_node a p = ab_node b p) /\
  (forall o, ~ O o -> ab_index a !! o = ab_index b !! o).

Lemma forward_agree rows a e : agree (touches rows e) (touches_outpoint e) (abs_forward rows e a) a.
Proof.
  split.
  - intros p Hp. cbn. unfold overwrite. by rewrite (proj2 (last_write_None p _) Hp).
  - intros o Ho. cbn. unfold index_delta, touches_outpoint in *. rewrite fmap_app, elem_of_app in Ho.
    rewrite write_all_lookup. rewrite (proj2 (last_write_None o _)).
    + rewrite deletes_lookup. rewrite decide_False; [done|]. tauto.
    + rewrite <- list_fmap_compose. change (o ∉ outpoint <$> added e). tauto.
Qed.

Lemma index_delta_undo_at (m m' : gmap OutPoint Z) removed added o : index_undoable m removed added ->
  (o ∉ outpoint <$> (removed ++ added) -> m' !! o = m !! o) ->
  index_delta m' added removed !! o = m !! o.
Proof.
  intros [Hr Ha] Hm. unfold index_delta. rewrite write_all_lookup.
  destruct (last_write o _) as [p|] eqn:E.
  - apply last_write_Some_elem, list_elem_of_fmap in E as (d & [= -> ->] & Hd). symmetry. by apply Hr.
  - apply last_write_None in E. rewrite <- list_fmap_compose in E. change (o ∉ outpoint <$> removed) in E.
    rewrite deletes_lookup. case_decide as Hin.
    + apply list_elem_of_fmap in Hin as (d & -> & Hd). symmetry. by destruct (Ha d Hd).
    + apply Hm. rewrite fmap_app, elem_of_app. tauto.
Qed.

(** Undoing an entry repairs everything it touches, whatever was stored there. *)
Lemma backward_agree rows a e d T O : planned_from rows a e ->
  agree (fun p => T p \/ touches rows e p) (fun o => O o \/ touches_outpoint e o) d a ->
  agree T O (abs_backward rows e d) a /\ ab_leaves (abs_backward rows e d) = ab_leaves a.
Proof.
  intros Hp [Hn Hi]. split; [|apply Hp]. split.
  - intros p HT. cbn. unfold overwrite.
    destruct (decide (p ∈ (placed rows e (forest_unwrites e)).*1)) as [Hin|Hni].
    + rewrite (unwrite_value rows a) by (done || by apply touches_unwrites). done.
    + rewrite (proj2 (last_write_None p _) Hni). rewrite touches_unwrites in Hni. apply Hn. tauto.
  - intros o HO. cbn. apply index_delta_undo_at; [apply Hp|]. intros Hni. apply Hi. unfold touches_outpoint. tauto.
Qed.

Lemma agree_nothing d a : agree (fun _ => False) (fun _ => False) d a -> ab_leaves d = ab_leaves a -> d ≡ a.
Proof.
  intros [Hn Hi] Hl. split_and!; [intros; apply Hn; tauto| |done]. apply map_eq. intros o. apply Hi. tauto.
Qed.

Lemma backward_forward rows a e : planned_from rows a e -> abs_backward rows e (abs_forward rows e a) ≡ a.
Proof.
  intros Hp. destruct (backward_agree rows a e (abs_forward rows e a) (fun _ => False) (fun _ => False) Hp) as [Ha Hl].
  - destruct (forward_agree rows a e) as [Hn Hi]. split; intros; [apply Hn|apply Hi]; tauto.
  - by apply agree_nothing.
Qed.

(** ** Replaying a journal *)

Abbreviation record := (JournalStatus * JournalEntryData)%type.

Definition step_record (rows : Z) (a : AbsForest) (r : record) : AbsForest :=
  if bool_decide (r.1 = Forward) then abs_forward rows r.2 a else a.

(** The forest that the published records describe, from the forest [a] that the
    first of them was planned from. *)
Definition after_records (rows : Z) (a : AbsForest) (records : list record) : AbsForest :=
  foldl (step_record rows) a records.

Fixpoint chain (rows : Z) (a : AbsForest) (records : list record) : Prop :=
  match records with
  | [] => True
  | r :: records => entry_fits rows r.2 /\ planned_from rows a r.2 /\ chain rows (step_record rows a r) records
  end.

Definition touched (rows : Z) (records : list record) (p : Z) : Prop :=
  exists r, r ∈ records /\ touches rows r.2 p.
Definition touched_outpoint (records : list record) (o : OutPoint) : Prop :=
  exists r, r ∈ records /\ touches_outpoint r.2 o.

Lemma touched_cons rows r records p : touched rows (r :: records) p <-> touches rows r.2 p \/ touched rows records p.
Proof. unfold touched. setoid_rewrite elem_of_cons. naive_solver. Qed.
Lemma touched_outpoint_cons r records o :
  touched_outpoint (r :: records) o <-> touches_outpoint r.2 o \/ touched_outpoint records o.
Proof. unfold touched_outpoint. setoid_rewrite elem_of_cons. naive_solver. Qed.

Lemma step_agree rows a r : agree (touches rows r.2) (touches_outpoint r.2) (step_record rows a r) a.
Proof. unfold step_record. case_bool_decide; [apply forward_agree|by split]. Qed.

(** The records of a journal from the forest [a] on.  A block is planned from the forest of the records that are
    forward when it is appended; a reorganization rolls back the last forward record.  Records that were rolled
    back stay in the journal, with those that were planned on top of them. *)
Inductive history (rows : Z) (a : AbsForest) : list record -> Prop :=
| hi_nil : history rows a []
| hi_append records e : history rows a records -> entry_fits rows e -> planned_from rows (after_records rows a records) e ->
    history rows a (records ++ [(Forward, e)])
| hi_rollback l1 e l2 : history rows a (l1 ++ (Forward, e) :: l2) -> Forall (fun r : record => r.1 = RolledBack) l2 ->
    history rows a (l1 ++ (RolledBack, e) :: l2).

Lemma history_fits rows a records : history rows a records -> Forall (fun r : record => entry_fits rows r.2) records.
Proof.
  induction 1 as [|records e _ IH He _|l1 e l2 _ IH _]; [constructor|apply Forall_app; split; [done|by constructor]|].
  rewrite Forall_app, Forall_cons in *. done.
Qed.

Lemma after_records_app rows a l1 l2 : after_records rows a (l1 ++ l2) = after_records rows (after_records rows a l1) l2.
Proof. apply foldl_app. Qed.

Lemma after_records_agree rows records a :
  agree (touched rows records) (touched_outpoint records) (after_records rows a records) a.
Proof.
  revert a; induction records as [|r records IH]; intros a; [by split|].
  destruct (IH (step_record rows a r)) as [Hn Hi]. destruct (step_agree rows a r) as [Hs Hsi]. split.
  - intros p Hp. rewrite touched_cons in Hp. cbn [after_records foldl]. rewrite Hn by tauto. apply Hs. tauto.
  - intros o Ho. rewrite touched_outpoint_cons in Ho. cbn [after_records foldl]. rewrite Hi by tauto. apply Hsi. tauto.
Qed.

Lemma touched_app rows l1 l2 p : touched rows (l1 ++ l2) p <-> touched rows l1 p \/ touched rows l2 p.
Proof. unfold touched. setoid_rewrite elem_of_app. naive_solver. Qed.
Lemma touched_outpoint_app l1 l2 o : touched_outpoint (l1 ++ l2) o <-> touched_outpoint l1 o \/ touched_outpoint l2 o.
Proof. unfold touched_outpoint. setoid_rewrite elem_of_app. naive_solver. Qed.

Lemma agree_weaken T T' O O' d a : (forall p, T p -> T' p) -> (forall o, O o -> O' o) -> agree T O d a -> agree T' O' d a.
Proof. intros HT HO [Hn Hi]. split; intros x Hx; [apply Hn|apply Hi]; auto. Qed.

Lemma forest_agree_trans T O a b c : agree T O a b -> agree T O b c -> agree T O a c.
Proof. intros [Hn Hi] [Hn' Hi']. split; intros x Hx; [by rewrite Hn, Hn'|by rewrite Hi, Hi']. Qed.

Lemma forest_agree_sym T O a b : agree T O a b -> agree T O b a.
Proof. intros [Hn Hi]. split; intros x Hx; symmetry; auto. Qed.

(** The undo pass, on abstract forests: from any forest that is right outside
    what the records touch, it goes back to where the first record started. *)
Lemma undo_history rows records a : history rows a records -> forall d,
  agree (touched rows records) (touched_outpoint records) d a ->
  let d' := foldl (fun d r => abs_backward rows r.2 d) d (reverse records) in
  agree (fun _ => False) (fun _ => False) d' a /\ (records <> [] -> ab_leaves d' = ab_leaves a).
Proof.
  induction 1 as [|records e Hh IH He Hp|l1 e l2 Hh IH Hl2]; intros d Ha; cbn zeta.
  - split; [|done]. eapply agree_weaken; [| |exact Ha]; intros x (r & Hr & _); by apply elem_of_nil in Hr.
  - rewrite reverse_app, reverse_singleton. cbn [foldl app fst snd]. change ([(Forward, e)] ++ reverse records) with ((Forward, e) :: reverse records).
    cbn [foldl snd].
    pose proof (after_records_agree rows records a) as Hb. set (b := after_records rows a records) in *.
    destruct (backward_agree rows b e d (touched rows records) (touched_outpoint records) Hp) as [Hd Hl].
    { refine (forest_agree_trans _ _ _ a _ _ _); [eapply agree_weaken; [| |exact Ha]|eapply agree_weaken; [| |apply forest_agree_sym, Hb]].
      - intros p. rewrite touched_app, touched_cons. intros [|[|(? & Hr & _)]]; auto. by apply elem_of_nil in Hr.
      - intros o. rewrite touched_outpoint_app, touched_outpoint_cons. intros [|[|(? & Hr & _)]]; auto. by apply elem_of_nil in Hr.
      - auto.
      - auto. }
    destruct (IH (abs_backward rows e d) (forest_agree_trans _ _ _ _ _ Hd Hb)) as [Hn Hlv]. split; [done|]. intros _.
    destruct records as [|r records]; [exact Hl|by apply Hlv].
  - assert (reverse (l1 ++ (RolledBack, e) :: l2) = reverse l2 ++ (RolledBack, e) :: reverse l1) as ->.
    { rewrite reverse_app, reverse_cons, <- app_assoc. done. }
    assert (reverse (l1 ++ (Forward, e) :: l2) = reverse l2 ++ (Forward, e) :: reverse l1) as Er.
    { rewrite reverse_app, reverse_cons, <- app_assoc. done. }
    rewrite Er in IH. rewrite !foldl_app in *. cbn [foldl snd] in *. destruct (IH d) as [Hn Hl].
    { eapply agree_weaken; [| |exact Ha].
      - intros p Hp. rewrite (touched_app rows l1), touched_cons in Hp |- *. exact Hp.
      - intros o Ho. rewrite (touched_outpoint_app l1), touched_outpoint_cons in Ho |- *. exact Ho. }
    rewrite foldl_app in Hn. rewrite foldl_app in Hl. split; [exact Hn|]. intros _. apply Hl. by destruct l1.
Qed.

Lemma undo_records_refines s d records : refines s d -> Forall (fun r : record => entry_fits (ss_rows s) r.2) records ->
  exists s', foldM (fun s r => apply_backward s r.2) records s = Ok s' /\ ss_rows s' = ss_rows s /\
    refines s' (foldl (fun d r => abs_backward (ss_rows s) r.2 d) d records).
Proof.
  intros Hr Hf. revert s d Hr Hf. induction records as [|r records IH]; intros s d Hr Hf; [by exists s|].
  apply Forall_cons in Hf as [He Hf]. destruct (apply_backward_refines s d r.2 Hr He) as (s1 & E & Er & Hr1).
  cbn [foldM foldl]. rewrite E. step_ok. rewrite <- Er in Hf, Hr1.
  destruct (IH s1 _ Hr1 Hf) as (s' & E' & Er' & Hr'). exists s'. rewrite E', Er', Er. split_and!; [done|done|].
  by rewrite Er in Hr'.
Qed.

Lemma redo_records_refines s a records : refines s a -> Forall (fun r : record => entry_fits (ss_rows s) r.2) records ->
  exists s', foldM (fun s record => if bool_decide (record.1 = Forward) then apply_forward s record.2 else Ok s)
      records s = Ok s' /\ ss_rows s' = ss_rows s /\ refines s' (after_records (ss_rows s) a records).
Proof.
  intros Hr Hf. revert s a Hr Hf. induction records as [|r records IH]; intros s a Hr Hf; [by exists s|].
  apply Forall_cons in Hf as [He Hf].
  assert (exists s1, (if bool_decide (r.1 = Forward) then apply_forward s r.2 else Ok s) = Ok s1 /\
    ss_rows s1 = ss_rows s /\ refines s1 (step_record (ss_rows s) a r)) as (s1 & E & Er & Hr1).
  { unfold step_record. case_bool_decide; [by apply apply_forward_refines|by exists s]. }
  cbn [foldM]. rewrite E. step_ok. rewrite <- Er in Hf, Hr1.
  destruct (IH s1 _ Hr1 Hf) as (s' & E' & Er' & Hr'). exists s'. rewrite E', Er', Er. split_and!; [done|done|].
  rewrite Er in Hr'. done.
Qed.

Lemma after_records_proper rows records : Proper ((≡) ==> (≡)) (fun a => after_records rows a records).
Proof.
  induction records as [|r records IH]; intros a b Hab; [done|]. apply (IH (step_record rows a r) (step_record rows b r)).
  unfold step_record. case_bool_decide; [by apply abs_forward_proper|done].
Qed.

Lemma replay_spec s d a records : refines s d -> history (ss_rows s) a records ->
  agree (touched (ss_rows s) records) (touched_outpoint records) d a -> (records = [] -> ab_leaves d = ab_leaves a) ->
  exists s', replay_journal s true records = Ok (true, s') /\ ss_rows s' = ss_rows s /\
    refines s' (after_records (ss_rows s) a records).
Proof.
  intros Hr Hc Ha Hempty. pose proof (history_fits _ _ _ Hc) as Hf. unfold replay_journal. cbn [negb].
  destruct (undo_records_refines s d (reverse records) Hr) as (s1 & E1 & Er1 & Hr1); [by apply Forall_reverse|].
  rewrite E1. step_ok.
  destruct (undo_history (ss_rows s) records a Hc d Ha) as [Hag Hlv].
  assert (foldl (fun d r => abs_backward (ss_rows s) r.2 d) d (reverse records) ≡ a) as Hd.
  { apply agree_nothing; [done|]. destruct records; [by apply Hempty|by apply Hlv]. }
  rewrite Hd in Hr1. rewrite <- Er1 in Hf. destruct (redo_records_refines s1 a records Hr1 Hf) as (s2 & E2 & Er2 & Hr2).
  rewrite E2. step_ok. exists s2. rewrite Er1 in *. done.
Qed.

(** ** Batches *)

(** One published window: entries of the current layout. *)
Definition window_entry (rows : Z) (e : JournalEntryData) : Prop :=
  entry_fits rows e /\ entry_rows rows e = rows /\ entry_sorted e.

Definition apply_all (rows : Z) (a : AbsForest) (entries : list JournalEntryData) : AbsForest :=
  foldl (fun a e => abs_forward rows e a) a entries.

Lemma window_placed rows e : 0 <= rows <= 62 -> window_entry rows e ->
  placed rows e (forest_writes e) = forest_writes e.
Proof.
  intros Hr (He & Erows & _). unfold placed, forest_writes. rewrite <- list_fmap_compose, Erows.
  apply list_fmap_ext. intros i d Hd. cbn. f_equal. apply relocate_same; [done|].
  rewrite <- Erows. apply (ef_pos _ _ He). by eapply list_elem_of_lookup_2.
Qed.

Lemma overwrite_app l1 l2 n p : overwrite l2 (overwrite l1 n) p = overwrite (l1 ++ l2) n p.
Proof. unfold overwrite. rewrite last_write_app. by destruct (last_write p l2). Qed.

Lemma apply_all_nodes rows entries a p : 0 <= rows <= 62 -> Forall (window_entry rows) entries ->
  ab_node (apply_all rows a entries) p = overwrite (concat (forest_writes <$> entries)) (ab_node a) p.
Proof.
  intros Hr He. revert a. induction He as [|e entries He Hes IH]; intros a; [done|]. cbn.
  fold (apply_all rows (abs_forward rows e a) entries). rewrite IH, <- overwrite_app.
  unfold overwrite at 1 3. cbn. by rewrite window_placed.
Qed.

Lemma apply_all_index rows entries a :
  ab_index (apply_all rows a entries) = foldl (fun m e => index_delta m (removed e) (added e)) (ab_index a) entries.
Proof. revert a; induction entries as [|e entries IH]; intros a; [done|]. apply IH. Qed.

Lemma window_check s entries : Forall (window_entry (ss_rows s)) entries ->
  foldM (fun (_ : unit) entry => rows ← journal_forest_rows s entry;
    require (rows =? ss_rows s) "published window spans different physical forest layouts") entries tt = Ok tt.
Proof.
  induction 1 as [|e entries (He & Er & _) Hes IH]; [done|]. cbn [foldM].
  rewrite journal_forest_rows_eq by (rewrite Er; lia). step_ok. by rewrite Er, Z.eqb_refl.
Qed.

(** The leaf-map half of a batch. *)
Lemma batch_index_spec s a entries : refines s a -> Forall (window_entry (ss_rows s)) entries ->
  exists s', foldM (fun s entry =>
      s ← apply_leaf_map_delta s (removed entry) (added entry);
      let s := with_leaves s (num_leaves entry) in
      if height entry mod 1000 =? 0 then compact_leaf_map s else Ok s) entries s = Ok s' /\
    ss_forest s' = ss_forest s /\ ss_rows s' = ss_rows s /\
    represents U (leaf_map s') (foldl (fun m e => index_delta m (removed e) (added e)) (ab_index a) entries) /\
    leaves s' = ab_leaves (apply_all (ss_rows s) a entries).
Proof.
  intros Hr He. revert s a Hr He. induction entries as [|e entries IH]; intros s a Hr He.
  { exists s. split_and!; [done..|apply Hr|apply Hr]. }
  apply Forall_cons in He as [(He & Erow & Hsort) Hes].
  destruct (apply_leaf_map_delta_spec U Hinj s (ab_index a) (removed e) (added e))
    as (s1 & E1 & Hf1 & Hl1 & Hr1 & Hrep1); [apply Hr|apply He|apply He|].
  set (s2 := with_leaves s1 (num_leaves e)).
  assert (exists s3, (if height e mod 1000 =? 0 then compact_leaf_map s2 else Ok s2) = Ok s3 /\
    ss_forest s3 = ss_forest s /\ ss_rows s3 = ss_rows s /\ leaves s3 = num_leaves e /\
    represents U (leaf_map s3) (index_delta (ab_index a) (removed e) (added e))) as (s3 & E3 & Hf3 & Hr3 & Hl3 & Hrep3).
  { destruct (height e mod 1000 =? 0); [|exists s2; by split_and!]. unfold compact_leaf_map.
    destruct (db_compact_law (leaf_map s2) (wrap 16 (LEAF_MAP_BLOCK_SIZE / 32 / 2))) as (db & Edb & Hdb).
    rewrite Edb. step_ok. eexists. split_and!; [done..|]. destruct Hrep1 as [Hg Hu]. split; [|done].
    intros o Ho. cbn. rewrite Hdb. by apply Hg. }
  cbn [foldM]. rewrite E1. step_ok. fold s2. rewrite E3. step_ok.
  set (a' := {| ab_node := ab_node a; ab_index := index_delta (ab_index a) (removed e) (added e);
                ab_leaves := num_leaves e |}).
  destruct (IH s3 a') as (s' & E' & Hf' & Hr' & Hrep' & Hl'); [| |].
  - destruct Hr as [[Hy1 Hy2] Hn _ _]. split; cbn; [split; congruence| |done|done].
    intros p. rewrite Hr3, Hf3. apply Hn.
  - by rewrite Hr3.
  - exists s'. split_and!; [done|congruence|congruence|done|]. rewrite Hl', Hr3. cbn.
    destruct entries using rev_ind; [done|]. unfold apply_all. by rewrite !foldl_app.
Qed.

Lemma apply_forward_batch_refines s a entries : refines s a -> Forall (window_entry (ss_rows s)) entries ->
  exists s', apply_forward_batch s entries = Ok s' /\ ss_rows s' = ss_rows s /\
    refines s' (apply_all (ss_rows s) a entries).
Proof.
  intros Hr He. pose proof (rf_layout _ _ Hr) as Hl. unfold apply_forward_batch.
  rewrite window_check by done. step_ok.
  assert (Forall sorted_le entries) as Hsort.
  { eapply Forall_impl; [exact He|]. intros e (_ & _ & Hs). unfold sorted_le, entry_sorted in *.
    clear -Hs. induction Hs as [|x l Hs IH Hall]; constructor; [done|].
    eapply Forall_impl; [exact Hall|]. intros; lia. }
  destruct (write_nodes_spec (merged_forest_writes entries) (ss_forest s)) as (f & E & Hc & Hm & Hs).
  { intros [p st] Hin. apply (merged_spec entries Hsort) in Hin as (b & j & d & (_ & (d' & Hd' & Hp) & _) & Hd & ->).
    rewrite Hd in Hd'. injection Hd' as <-. cbn. unfold delta_of in Hd.
    destruct (entries !! b) as [e|] eqn:Eb; [|done]. cbn in Hd.
    rewrite Forall_lookup in He. destruct (He b e Eb) as (Hfit & Erow & _).
    apply list_elem_of_lookup_2 in Hd. split.
    - rewrite <- Hp. apply in_layout; [done|]. rewrite <- Erow. by apply (ef_pos _ _ Hfit).
    - by apply Hfit. }
  rewrite E. step_ok.
  destruct (batch_index_spec (with_forest s f) {| ab_node := node_state f; ab_index := ab_index a; ab_leaves := ab_leaves a |}
    entries) as (s' & E' & Hf' & Hr' & Hrep' & Hlv'); [|done|].
  { destruct Hr as [[] Hn Hi Hk]. split; cbn; [split; cbn; congruence|done|done|done]. }
  exists s'. split_and!; [done|done|]. split.
  - destruct Hl. split; rewrite Hr', ?Hf'; cbn; [done|congruence].
  - intros p. rewrite Hr', Hf'. cbn. intros Hp.
    rewrite Hs, apply_all_nodes by (apply Hl || done). unfold overwrite. rewrite merged_last_write by done.
    destruct (last_write p _); [done|]. by apply Hr.
  - by rewrite apply_all_index.
  - rewrite Hlv'. cbn. clear. destruct entries using rev_ind; [done|]. unfold apply_all. by rewrite !foldl_app.
Qed.

Lemma apply_all_refines s a entries : refines s a -> Forall (window_entry (ss_rows s)) entries ->
  exists s', foldM apply_forward entries s = Ok s' /\ ss_rows s' = ss_rows s /\
    refines s' (apply_all (ss_rows s) a entries).
Proof.
  intros Hr He. revert s a Hr He. induction entries as [|e entries IH]; intros s a Hr He; [by exists s|].
  apply Forall_cons in He as [(Hfit & Erow & Hsort) He].
  destruct (apply_forward_refines s a e Hr Hfit) as (s1 & E1 & Er1 & Hr1).
  cbn [foldM]. rewrite E1. step_ok. rewrite <- Er1 in He, Hr1.
  destruct (IH s1 _ Hr1 He) as (s' & E' & Er' & Hr'). exists s'. rewrite E', Er', Er1. split_and!; [done|done|].
  rewrite Er1 in Hr'. done.
Qed.

(** ** The overlay *)

Lemma push_nodes_spec e l o : let o' := foldl (push_node e) o l in
  ov_nodes o' = write_all (ov_nodes o) ((fun d => (fd_position d, after d)) <$> l) /\
  node_heights o' = write_all (node_heights o) ((fun d => (fd_position d, height e)) <$> l) /\
  ov_positions o' = ov_positions o.
Proof. revert o; induction l as [|d l IH]; intros o; [done|]. apply (IH (push_node e o d)). Qed.

Lemma push_positions_spec h pos l o : let o' := foldl (push_position h pos) o l in
  ov_nodes o' = ov_nodes o /\ node_heights o' = node_heights o /\
  ov_positions o' = write_all (ov_positions o) ((fun d => (outpoint d, (h, pos d))) <$> l).
Proof. revert o; induction l as [|d l IH]; intros o; [done|]. apply (IH (push_position h pos o d)). Qed.

Definition height_writes (e : JournalEntryData) : list (Z * Z) :=
  (fun d => (fd_position d, height e)) <$> forest e.
Definition position_writes (e : JournalEntryData) : list (OutPoint * (Z * option Z)) :=
  ((fun d => (outpoint d, (height e, None))) <$> removed e) ++
  ((fun d => (outpoint d, (height e, Some (id_position d)))) <$> added e).

Lemma push_spec o e :
  ov_nodes (push o e) = write_all (ov_nodes o) (forest_writes e) /\
  node_heights (push o e) = write_all (node_heights o) (height_writes e) /\
  ov_positions (push o e) = write_all (ov_positions o) (position_writes e).
Proof.
  unfold push. destruct (push_nodes_spec e (forest e) o) as (E1 & E2 & E3).
  destruct (push_positions_spec (height e) (fun _ => None) (removed e) (foldl (push_node e) o (forest e))) as (F1 & F2 & F3).
  destruct (push_positions_spec (height e) (fun delta => Some (id_position delta)) (added e)
    (foldl (push_position (height e) (fun _ => None)) (foldl (push_node e) o (forest e)) (removed e))) as (G1 & G2 & G3).
  split_and!.
  - by rewrite G1, F1, E1.
  - by rewrite G2, F2, E2.
  - rewrite G3, F3, E3. unfold position_writes, write_all. by rewrite foldl_app.
Qed.

Definition push_all (entries : list JournalEntryData) : ForestOverlay := foldl push empty_overlay entries.

Lemma push_all_spec entries :
  ov_nodes (push_all entries) = write_all ∅ (concat (forest_writes <$> entries)) /\
  node_heights (push_all entries) = write_all ∅ (concat (height_writes <$> entries)) /\
  ov_positions (push_all entries) = write_all ∅ (concat (position_writes <$> entries)).
Proof.
  unfold push_all. induction entries as [|e entries IH] using rev_ind; [done|].
  destruct IH as (I1 & I2 & I3). rewrite foldl_app. cbn [foldl].
  destruct (push_spec (foldl push empty_overlay entries) e) as (E1 & E2 & E3).
  rewrite !fmap_app, !concat_app. cbn [fmap list_fmap concat]. rewrite !app_nil_r.
  unfold write_all in *. rewrite !foldl_app. split_and!; congruence.
Qed.

Lemma read_ready_state f p : p < ff_count f -> read_with_overlay f ∅ p = ready_state (node_state f p).
Proof.
  intros Hp. unfold read_with_overlay. rewrite lookup_empty, try_read_eq by done. step_ok.
  unfold node_state, state_of, ready_state. destruct (read_ready_node _) as [[h b]|]; done.
Qed.

(** Reading the physical forest through the overlay of pending entries is reading
    the forest they lead to. *)
Lemma overlay_read s a entries p : refines s a -> Forall (window_entry (ss_rows s)) entries ->
  is_pos (ss_rows s) p ->
  read_with_overlay (ss_forest s) (ov_nodes (push_all entries)) p
    = ready_state (ab_node (apply_all (ss_rows s) a entries) p).
Proof.
  intros Hr He Hp. pose proof (rf_layout _ _ Hr) as Hl. destruct (push_all_spec entries) as (E & _ & _).
  rewrite apply_all_nodes by (apply Hl || done). unfold overwrite. rewrite <- (rf_nodes _ _ Hr p Hp).
  pose proof (read_ready_state (ss_forest s) p (in_layout s p Hl Hp)) as Hread. revert Hread.
  unfold read_with_overlay. rewrite E, write_all_lookup, lookup_empty.
  by destruct (last_write p _).
Qed.

Lemma index_delta_positions m e o :
  index_delta m (removed e) (added e) !! o =
    match last_write o (position_writes e) with Some (_, p) => p | None => m !! o end.
Proof.
  unfold index_delta, position_writes. rewrite write_all_lookup, last_write_app, deletes_lookup.
  assert (forall l, last_write o ((fun d => (outpoint d, (height e, Some (id_position d)))) <$> l) =
    (fun p => (height e, Some p)) <$> last_write o ((fun d => (outpoint d, id_position d)) <$> l)) as ->.
  { intros l. apply (last_write_map outpoint id_position (fun p => (height e, Some p))). }
  destruct (last_write o ((fun d => (outpoint d, id_position d)) <$> added e)); cbn; [done|].
  case_decide as Hin.
  - destruct (last_write o ((fun d => (outpoint d, (height e, None))) <$> removed e)) as [[h p]|] eqn:E.
    + by apply last_write_Some_elem, list_elem_of_fmap in E as (d & [= -> -> ->] & _).
    + exfalso. apply last_write_None in E. apply E. rewrite <- list_fmap_compose. exact Hin.
  - rewrite (proj2 (last_write_None o _)); [done|]. rewrite <- list_fmap_compose. exact Hin.
Qed.

(** Looking a position up through the overlay is looking it up in the index the
    pending entries lead to. *)
Lemma overlay_position rows a entries o :
  match ov_positions (push_all entries) !! o with Some (_, p) => p | None => ab_index a !! o end
    = ab_index (apply_all rows a entries) !! o.
Proof.
  destruct (push_all_spec entries) as (_ & _ & ->). rewrite write_all_lookup, lookup_empty, apply_all_index.
  induction entries as [|e entries IH] using rev_ind; [done|].
  rewrite fmap_app, concat_app, last_write_app, foldl_app. cbn. rewrite app_nil_r, index_delta_positions.
  destruct (last_write o (position_writes e)) as [[h p]|]; [done|]. apply IH.
Qed.

(** ** Retiring an acknowledged entry *)

Lemma retire_nodes_spec e l o : let o' := foldl (retire_node e) o l in
  (forall p, ov_nodes o' !! p =
     if decide (p ∈ fd_position <$> l /\ node_heights o !! p = Some (height e)) then None else ov_nodes o !! p) /\
  (forall p, node_heights o' !! p =
     if decide (p ∈ fd_position <$> l /\ node_heights o !! p = Some (height e)) then None else node_heights o !! p) /\
  ov_positions o' = ov_positions o.
Proof.
  revert o; induction l as [|d l IH]; intros o; cbn zeta.
  { split_and!; [..|done]; intros p; rewrite decide_False; [done|by intros [Hin _]; apply elem_of_nil in Hin
      |done|by intros [Hin _]; apply elem_of_nil in Hin]. }
  cbn [foldl]. destruct (IH (retire_node e o d)) as (I1 & I2 & I3). unfold retire_node in *.
  case_bool_decide as Hh; cbn [ov_nodes node_heights ov_positions] in *.
  - split_and!; [| |done]; intros p; rewrite ?I1, ?I2; cbn; destruct (decide (fd_position d = p)) as [<-|Hne].
    all: rewrite ?lookup_delete_eq, ?lookup_delete_ne by done.
    1, 3: rewrite decide_False by naive_solver; by rewrite decide_True by (split; [by left|done]).
    all: apply decide_ext; rewrite elem_of_cons; intuition congruence.
  - split_and!; [| |done]; intros p; rewrite ?I1, ?I2; cbn; apply decide_ext; rewrite elem_of_cons;
      intuition congruence.
Qed.

Lemma retire_positions_spec e l o : let o' := foldl (retire_position e) o l in
  ov_nodes o' = ov_nodes o /\ node_heights o' = node_heights o /\
  (forall x, ov_positions o' !! x =
     if decide (x ∈ outpoint <$> l /\ fst <$> ov_positions o !! x = Some (height e)) then None
     else ov_positions o !! x).
Proof.
  revert o; induction l as [|d l IH]; intros o; cbn zeta.
  { split_and!; [done..|]. intros x. rewrite decide_False; [done|]. by intros [Hin _]; apply elem_of_nil in Hin. }
  cbn [foldl]. destruct (IH (retire_position e o d)) as (I1 & I2 & I3).
  assert (ov_nodes (retire_position e o d) = ov_nodes o /\ node_heights (retire_position e o d) = node_heights o) as [En Eh].
  { unfold retire_position. destruct (ov_positions o !! outpoint d) as [[h p]|]; [|done]. by destruct (h =? height e). }
  split_and!; [congruence..|]. intros x. rewrite I3. clear I1 I2 I3 IH En Eh.
  assert (forall x, ov_positions (retire_position e o d) !! x =
    if decide (outpoint d = x /\ fst <$> ov_positions o !! x = Some (height e)) then None else ov_positions o !! x) as E.
  { clear x. intros x. unfold retire_position. destruct (ov_positions o !! outpoint d) as [[h p]|] eqn:Eo.
    - destruct (Z.eqb_spec h (height e)) as [->|Hne]; cbn [ov_positions].
      + destruct (decide (outpoint d = x)) as [<-|Hd].
        * rewrite lookup_delete_eq, decide_True; [done|]. by rewrite Eo.
        * rewrite lookup_delete_ne by done. by rewrite decide_False by tauto.
      + rewrite decide_False; [done|]. intros [<- Hf]. rewrite Eo in Hf. cbn in Hf. congruence.
    - rewrite decide_False; [done|]. intros [<- Hf]. by rewrite Eo in Hf. }
  rewrite E. cbn. destruct (decide (outpoint d = x /\ fst <$> ov_positions o !! x = Some (height e))) as [[Hx Hf]|Hn].
  - rewrite decide_False by (intros [_ ?]; done). rewrite decide_True; [done|]. subst x. split; [by left|done].
  - apply decide_ext. rewrite elem_of_cons. split; [tauto|]. intros [[->|?] ?]; [by destruct Hn|done].
Qed.

Lemma concat_writes_in {K V} `{EqDecision K} (w : JournalEntryData -> list (K * V)) entries k v :
  last_write k (concat (w <$> entries)) = Some v -> exists e, e ∈ entries /\ (k, v) ∈ w e.
Proof.
  intros Hl. apply last_write_Some_elem in Hl. induction entries as [|e entries IH]; cbn in Hl; [by apply elem_of_nil in Hl|].
  apply elem_of_app in Hl as [Hl|Hl]; [exists e; split; [left|done]|].
  destruct (IH Hl) as (e' & ? & ?). exists e'. split; [by right|done].
Qed.

Lemma concat_same_keys {K V W} `{EqDecision K} (w : JournalEntryData -> list (K * V)) (w' : JournalEntryData -> list (K * W))
    entries k : (forall e, (w e).*1 = (w' e).*1) ->
  last_write k (concat (w <$> entries)) = None <-> last_write k (concat (w' <$> entries)) = None.
Proof.
  intros Hw. rewrite !last_write_None. assert ((concat (w <$> entries)).*1 = (concat (w' <$> entries)).*1) as ->; [|done].
  induction entries as [|e entries IH]; [done|]. cbn. by rewrite !fmap_app, Hw, IH.
Qed.

Lemma overlay_ext o o' : ov_nodes o = ov_nodes o' -> node_heights o = node_heights o' ->
  ov_positions o = ov_positions o' -> o = o'.
Proof. destruct o, o'. cbn. by intros -> -> ->. Qed.

Lemma height_writes_keys e : (height_writes e).*1 = (forest_writes e).*1.
Proof. unfold height_writes, forest_writes. by rewrite <- !list_fmap_compose. Qed.

Lemma retire_push_all e entries : (forall e', e' ∈ entries -> height e' <> height e) ->
  retire (push_all (e :: entries)) e = push_all entries.
Proof.
  intros Hh. destruct (push_all_spec (e :: entries)) as (E1 & E2 & E3). destruct (push_all_spec entries) as (F1 & F2 & F3).
  set (o := push_all (e :: entries)) in *. unfold retire.
  destruct (retire_nodes_spec e (forest e) o) as (R1 & R2 & R3).
  destruct (retire_positions_spec e (removed e ++ added e) (foldl (retire_node e) o (forest e))) as (P1 & P2 & P3).
  set (o' := foldl (retire_position e) (foldl (retire_node e) o (forest e)) (removed e ++ added e)) in *.
  assert (forall p, node_heights o !! p = Some (height e) <->
    p ∈ fd_position <$> forest e /\ last_write p (concat (forest_writes <$> entries)) = None) as Hheights.
  { intros p. rewrite E2, write_all_lookup, lookup_empty. cbn. rewrite last_write_app.
    rewrite <- (concat_same_keys height_writes forest_writes) by apply height_writes_keys.
    destruct (last_write p (concat (height_writes <$> entries))) as [h|] eqn:Eh.
    - split; [|by intros [_ ?]]. intros [= ->]. apply concat_writes_in in Eh as (e' & He' & Hw).
      apply list_elem_of_fmap in Hw as (d & [= _ Eq] & _). by destruct (Hh e' He').
    - destruct (last_write p (height_writes e)) as [h|] eqn:El.
      + apply last_write_Some_elem, list_elem_of_fmap in El as (d & [= -> ->] & Hd). split; [|done]. intros _. split; [|done].
        apply list_elem_of_fmap. by exists d.
      + apply last_write_None in El. rewrite height_writes_keys, forest_writes_fst in El. split; [done|tauto]. }
  assert (forall p, last_write p (forest_writes e) = None <-> p ∉ fd_position <$> forest e) as Hfw.
  { intros p. rewrite last_write_None. by rewrite forest_writes_fst. }
  assert (ov_nodes o' = ov_nodes (push_all entries)) as G1.
  { rewrite P1, F1. apply map_eq. intros p. rewrite R1, E1, !write_all_lookup, lookup_empty. cbn. rewrite last_write_app.
    specialize (Hheights p). specialize (Hfw p).
    destruct (last_write p (concat (forest_writes <$> entries))) eqn:El.
    - rewrite decide_False; [done|]. intros [_ [_ Hx]%Hheights]. done.
    - case_decide as Hd; [done|]. rewrite (proj2 Hfw); [done|]. tauto. }
  assert (node_heights o' = node_heights (push_all entries)) as G2.
  { rewrite P2, F2. apply map_eq. intros p. rewrite R2, write_all_lookup, lookup_empty.
    pose proof (Hheights p) as Hp. specialize (Hfw p).
    rewrite <- (concat_same_keys height_writes forest_writes) in Hp by apply height_writes_keys.
    case_decide as Hd; [destruct Hd as [_ [_ ->]%Hp]; done|].
    rewrite E2, write_all_lookup, lookup_empty in Hp, Hd |- *. cbn in Hp, Hd |- *. rewrite last_write_app in Hp, Hd |- *.
    destruct (last_write p (concat (height_writes <$> entries))) as [h|] eqn:El; [done|].
    assert (last_write p (height_writes e) = None) as ->; [|done].
    apply last_write_None. rewrite height_writes_keys, forest_writes_fst. tauto. }
  assert (ov_positions o' = ov_positions (push_all entries)) as G3.
  { rewrite F3. apply map_eq. intros x. rewrite P3, R3, E3, !write_all_lookup, lookup_empty. cbn. rewrite last_write_app.
    destruct (last_write x (concat (position_writes <$> entries))) as [[h p]|] eqn:El.
    - rewrite decide_False; [done|]. intros [_ [= ->]]. apply concat_writes_in in El as (e' & He' & Hw).
      apply (Hh e' He'). unfold position_writes in Hw. apply elem_of_app in Hw as [Hw|Hw];
        by apply list_elem_of_fmap in Hw as (d & [= _ -> _] & _).
    - destruct (last_write x (position_writes e)) as [[h p]|] eqn:Ew; [|by case_decide].
      apply last_write_Some_elem in Ew. rewrite decide_True; [done|].
      unfold position_writes in Ew. rewrite fmap_app, elem_of_app, !list_elem_of_fmap.
      apply elem_of_app in Ew as [Ew|Ew]; apply list_elem_of_fmap in Ew as (d & [= -> -> ->] & Hd);
        (split; [|done]); [left|right]; by exists d. }
  by apply overlay_ext.
Qed.

(** ** Planning over pending entries *)

(** The abstract forest holds the trees of [L] leaves. *)
Definition wf_abs (rows : Z) (a : AbsForest) (L : Z) (leaf : Z -> ForestNodeData) : Prop :=
  wf_forest (fun p => ready_state (ab_node a p)) rows L leaf.

Lemma populated_is_pos L rows r o : 0 <= rows <= 62 -> 0 <= L <= 2 ^ rows -> populated L r o ->
  is_pos rows (pos rows r o).
Proof.
  intros Hr HL Hp. pose proof (pow2_lt rows 64 ltac:(lia)). exists r, o. split; [|done].
  apply (populated_valid L); [lia|split; lia|lia|done].
Qed.

Lemma wf_view s a pending L leaf : refines s a -> Forall (window_entry (ss_rows s)) pending -> L <= 2 ^ ss_rows s ->
  0 <= L -> wf_abs (ss_rows s) (apply_all (ss_rows s) a pending) L leaf ->
  wf_forest (read_with_overlay (ss_forest s) (ov_nodes (push_all pending))) (ss_rows s) L leaf.
Proof.
  intros Hr He HL HL0 Hwf r o Hp. pose proof (rf_layout _ _ Hr) as [Hrows _].
  rewrite (overlay_read s a); [by apply Hwf|done|done|]. by apply (populated_is_pos L).
Qed.

Lemma overlay_prior s a pending p : refines s a -> Forall (window_entry (ss_rows s)) pending -> is_pos (ss_rows s) p ->
  prior (ss_forest s) (ov_nodes (push_all pending)) p = ab_node (apply_all (ss_rows s) a pending) p.
Proof.
  intros Hr He Hp. pose proof (rf_layout _ _ Hr) as Hl. unfold prior.
  destruct (push_all_spec pending) as (-> & _ & _).
  rewrite apply_all_nodes by (apply Hl || done). rewrite write_all_lookup, lookup_empty. unfold overwrite.
  destruct (last_write p _); [done|]. by apply (rf_nodes _ _ Hr).
Qed.

Lemma prior_canonical s a pending p : refines s a -> Forall (window_entry (ss_rows s)) pending ->
  state_canonical (prior (ss_forest s) (ov_nodes (push_all pending)) p).
Proof.
  intros Hr He. unfold prior. destruct (push_all_spec pending) as (-> & _ & _).
  rewrite write_all_lookup, lookup_empty. destruct (last_write p _) as [st|] eqn:E; [|apply state_of_canonical].
  apply concat_writes_in in E as (e & Hin & Hw). rewrite Forall_forall in He. destruct (He e Hin) as (Hfit & _ & _).
  unfold forest_writes in Hw. apply list_elem_of_fmap in Hw as (d & [= -> ->] & Hd). by apply (ef_canonical _ _ Hfit).
Qed.

Lemma index_deltas_length base (additions : list (OutPoint * BitcoinNodeHash)) :
  zlength (index_deltas base additions) = zlength additions.
Proof.
  revert base; induction additions as [|[o h] additions IH]; intros base; [done|]. cbn [index_deltas].
  by rewrite !zlength_cons, IH.
Qed.

Lemma index_deltas_in base (additions : list (OutPoint * BitcoinNodeHash)) : 0 <= base ->
  base + zlength additions < 2 ^ 64 ->
  Forall U additions.*1 -> Forall (delta_in U) (index_deltas base additions).
Proof.
  revert base; induction additions as [|[o h] additions IH]; intros base Hb Hfit Hu; [constructor|].
  rewrite zlength_cons in Hfit. pose proof (zlength_nonneg additions). cbn in Hu. apply Forall_cons in Hu as [Ho Hu].
  cbn [index_deltas]. constructor; [split; [done|]; split; cbn; lia|]. apply IH; [lia|lia|done].
Qed.

Lemma read_prior s ov p : layout s -> is_pos (ss_rows s) p ->
  read_with_overlay (ss_forest s) ov p = ready_state (prior (ss_forest s) ov p).
Proof.
  intros Hl Hp. unfold read_with_overlay, prior. destruct (ov !! p); [done|].
  exact (read_ready_state (ss_forest s) p (in_layout s p Hl Hp)).
Qed.

(** A block planned over a forest and an overlay that together hold [a']. *)
Lemma planned_over s ov a' height block_hash previous leaf deletions additions e :
  let rows := ss_rows s in
  layout s -> (forall p, is_pos rows p -> prior (ss_forest s) ov p = ab_node a' p) ->
  (forall p, state_canonical (prior (ss_forest s) ov p)) -> 0 <= ab_leaves a' ->
  ab_leaves a' + zlength additions <= 2 ^ rows ->
  Forall (fun d => U d.1 /\ 0 <= d.2 < ab_leaves a') deletions -> Forall U additions.*1 ->
  index_undoable (ab_index a') (removed e) (added e) ->
  planned s ov height block_hash previous (ab_leaves a') leaf deletions additions e ->
  window_entry rows e /\ planned_from rows a' e /\
  wf_abs rows (abs_forward rows e a') (ab_leaves a' + zlength additions)
    (leaf_append (leaf_delete deletions.*2 leaf) (ab_leaves a') additions.*2).
Proof.
  intros rows Hl Hprior Hcanon Hleaves Hfit Hdel Hadd Hundo Hpl.
  pose proof (ly_rows _ Hl) as Hrows. pose proof (pow2_lt rows 64 ltac:(unfold rows; lia)).
  pose proof (zlength_nonneg additions).
  assert (entry_rows rows e = rows) as Erows by (unfold entry_rows; by rewrite (pl_rows _ _ _ _ _ _ _ _ _ _ Hpl)).
  assert (window_entry rows e) as Hwin.
  { split_and!; [|done|by apply (pl_sorted _ _ _ _ _ _ _ _ _ _ Hpl)]. split.
    - rewrite Erows. unfold rows. lia.
    - intros d Hd. rewrite Erows. by apply (pl_deltas _ _ _ _ _ _ _ _ _ _ Hpl).
    - apply StronglySorted_NoDup, (pl_sorted _ _ _ _ _ _ _ _ _ _ Hpl).
    - intros d Hd. destruct (pl_deltas _ _ _ _ _ _ _ _ _ _ Hpl d Hd) as (_ & -> & Hready). split; [done|].
      unfold state_canonical. by rewrite Hready.
    - rewrite (pl_removed _ _ _ _ _ _ _ _ _ _ Hpl). apply Forall_fmap. eapply Forall_impl; [exact Hdel|].
      intros [o p] [Hu Hp]. split; [done|]. cbn in *. split; lia.
    - rewrite (pl_added _ _ _ _ _ _ _ _ _ _ Hpl). apply index_deltas_in; (done || lia).
    - rewrite (pl_added _ _ _ _ _ _ _ _ _ _ Hpl), (pl_leaves _ _ _ _ _ _ _ _ _ _ Hpl), index_deltas_length. lia. }
  split_and!; [done| |].
  - split; [|done|].
    + intros d Hd. destruct (pl_deltas _ _ _ _ _ _ _ _ _ _ Hpl d Hd) as (Hp & -> & _).
      rewrite Erows, relocate_same by (unfold rows; done || lia). by apply Hprior.
    + rewrite (pl_added _ _ _ _ _ _ _ _ _ _ Hpl), (pl_leaves _ _ _ _ _ _ _ _ _ _ Hpl), index_deltas_length. lia.
  - intros r o Hp. rewrite <- (pl_forest _ _ _ _ _ _ _ _ _ _ Hpl r o Hp). cbn [abs_forward ab_node].
    assert (is_pos rows (pos rows r o)) as Hpos.
    { by apply (populated_is_pos (ab_leaves a' + zlength additions)); [|lia|]. }
    rewrite window_placed by (unfold rows; done || lia). unfold overwrite. fold rows.
    rewrite read_prior by done. unfold prior. rewrite lookup_union, changed_nodes_lookup. specialize (Hprior _ Hpos). unfold prior in Hprior.
    destruct (last_write (pos rows r o) (forest_writes e)) as [st|].
    + by destruct (ov !! pos rows r o).
    + rewrite <- Hprior. by destruct (ov !! pos rows r o).
Qed.

(** A block planned over the pending entries extends the window. *)
Lemma planned_window s a pending height block_hash previous leaf deletions additions e :
  let rows := ss_rows s in let a' := apply_all rows a pending in
  refines s a -> Forall (window_entry rows) pending -> 0 <= ab_leaves a' ->
  ab_leaves a' + zlength additions <= 2 ^ rows ->
  Forall (fun d => U d.1 /\ 0 <= d.2 < ab_leaves a') deletions -> Forall U additions.*1 ->
  index_undoable (ab_index a') (removed e) (added e) ->
  planned s (ov_nodes (push_all pending)) height block_hash previous (ab_leaves a') leaf deletions additions e ->
  window_entry rows e /\ planned_from rows a' e /\
  wf_abs rows (abs_forward rows e a') (ab_leaves a' + zlength additions)
    (leaf_append (leaf_delete deletions.*2 leaf) (ab_leaves a') additions.*2).
Proof.
  intros rows a' Hr Hpend Hleaves Hfit Hdel Hadd Hundo Hpl.
  apply (planned_over s (ov_nodes (push_all pending)) a' height block_hash previous leaf deletions additions e); try done.
  - apply Hr.
  - intros p Hp. by apply overlay_prior.
  - intros p. by eapply prior_canonical.
Qed.
End Apply.

(** ** Concrete forest for the witnesses *)

Definition live_op : OutPoint := sample_op 1.
Definition live_db : gmap bytes bytes := {[ @leaf_map_key toy_sha256 live_op := le_bytes 8 0 ]}.
Definition live_forest : @SteadyStateForest toy_db :=
  @Build_SteadyStateForest toy_db sample_forest live_db 1 2.
Definition live_abs : AbsForest :=
  {| ab_node := node_state sample_forest; ab_index := {[ live_op := 0 ]}; ab_leaves := 1 |}.

Lemma live_refines : @refines toy_sha256 toy_db sample_set live_forest live_abs.
Proof.
  split; [split; by_decide|done| |done]. split.
  - unfold sample_set. intros o. rewrite !elem_of_cons, !elem_of_nil.
    intros [-> | [-> | [-> | []]]]; vm_compute; reflexivity.
  - unfold live_abs. cbn [ab_index]. intros o p [_ <-]%lookup_singleton_Some. by_decide.
Qed.

(** A block at height [h] that appends one leaf at position 1. *)
Definition append_entry (h : Z) : JournalEntryData :=
  {| height := h; block_hash := replicate 32 h; num_leaves := 2; previous_block_hash := zeros 32;
     forest := [{| fd_position := 1; before := UNINITIALIZED;
                   after := {| ready := true; spent := false; hash := replicate 32 9 |} |}];
     removed := []; added := [{| outpoint := sample_op 2; id_position := 1 |}]; forest_rows := Some 2 |}.

Lemma append_window h : window_entry sample_set 2 (append_entry h).
Proof.
  split_and!; [|done|repeat constructor]. split.
  - by_decide.
  - intros d ->%list_elem_of_singleton. exists 0, 1. split; [by_decide|reflexivity].
  - apply NoDup_singleton.
  - intros d ->%list_elem_of_singleton. done.
  - constructor.
  - apply sample_delta_in; by_decide.
  - by_decide.
Qed.

Lemma append_planned h : planned_from 2 live_abs (append_entry h).
Proof.
  split.
  - intros d ->%list_elem_of_singleton. vm_compute. reflexivity.
  - split; [intros d Hd; by apply elem_of_nil in Hd|]. intros d ->%list_elem_of_singleton. right. vm_compute. reflexivity.
  - reflexivity.
Qed.

(** ** Properties *)

(** C10: crash recovery of the forest.  Take the records of a journal from a forest [a] on, with any
    reorganizations in between (each block planned from the forest of its own branch, rolled back blocks still
    in the journal), and any forest on disk that agrees with [a]
    outside the nodes and outpoints those records touch, whatever an interrupted update left
    there and whatever leaf count was read back.  Replaying the journal succeeds and ends in exactly the forest that the
    forward records describe: every node state, the outpoint index and the leaf count. *)
Theorem replay_recovers `{NodeHashing} `{Sha256} `{LeafMapDb} `{!LeafMapLaws}
    (U : OutPoint -> Prop) (Hinj : forall o o', U o -> U o' -> leaf_map_key o = leaf_map_key o' -> o = o')
    (s : SteadyStateForest) (d a : AbsForest) (records : list (JournalStatus * JournalEntryData))
    (Hdisk : refines U s d) (Hhistory : history U (ss_rows s) a records)
    (Hagree : agree (touched (ss_rows s) records) (touched_outpoint records) d a)
    (Hempty : records = [] -> ab_leaves d = ab_leaves a) :
  exists s', replay_journal s true records = Ok (true, s') /\ ss_rows s' = ss_rows s /\
    refines U s' (after_records (ss_rows s) a records).
Proof. by apply (replay_spec U Hinj s d a). Qed.

(** The node the record writes holds garbage, as after a torn update. *)
Definition torn_forest : @SteadyStateForest toy_db :=
  @Build_SteadyStateForest toy_db
    (put_node sample_forest 1 {| node_hash := replicate 32 77; flags := Z.lor READY SPENT |}) live_db 2 2.

Lemma torn_refines : @refines toy_sha256 toy_db sample_set torn_forest
  {| ab_node := node_state (ss_forest torn_forest); ab_index := ab_index live_abs; ab_leaves := 2 |}.
Proof. split; [split; by_decide|done| |done]. apply (rf_index _ _ _ live_refines). Qed.

Lemma replay_recovers_witness :
  exists s', @replay_journal toy_sha256 toy_db torn_forest true [(Forward, append_entry 7)] = Ok (true, s')
    /\ leaves s' = 2.
Proof.
  destruct (@replay_recovers toy_hashing toy_sha256 toy_db toy_db_laws sample_set sample_set_inj torn_forest
    {| ab_node := node_state (ss_forest torn_forest); ab_index := ab_index live_abs; ab_leaves := 2 |}
    live_abs [(Forward, append_entry 7)] torn_refines) as (s' & E & _ & Hr).
  - apply (hi_append _ _ _ []); [constructor|apply append_window|apply append_planned].
  - split; [|done]. intros p Hp. cbn [ab_node live_abs]. unfold node_state, torn_forest, ss_forest.
    rewrite node_at_put. rewrite decide_False; [done|]. intros <-. apply Hp.
    exists (Forward, append_entry 7). split; [by left|]. unfold touches.
    replace ((placed (ss_rows torn_forest) (append_entry 7) (forest_writes (append_entry 7))).*1) with [1]
      by reflexivity. by left.
  - discriminate.
  - exists s'. split; [exact E|]. rewrite (rf_leaves _ _ _ Hr). reflexivity.
Defined.

(** C21: applying a published window in one merged pass over the forest (each node written once,
    with the last state; the leaf map block by block) ends in the same forest as applying its
    entries one after the other. *)
Theorem batch_equals_sequential `{NodeHashing} `{Sha256} `{LeafMapDb} `{!LeafMapLaws}
    (U : OutPoint -> Prop) (Hinj : forall o o', U o -> U o' -> leaf_map_key o = leaf_map_key o' -> o = o')
    (s : SteadyStateForest) (a : AbsForest) (entries : list JournalEntryData)
    (Hr : refines U s a) (Hwindow : Forall (window_entry U (ss_rows s)) entries) :
  exists batch sequential,
    apply_forward_batch s entries = Ok batch /\ foldM apply_forward entries s = Ok sequential /\
    refines U batch (apply_all (ss_rows s) a entries) /\
    refines U sequential (apply_all (ss_rows s) a entries).
Proof.
  destruct (apply_forward_batch_refines U Hinj s a entries Hr Hwindow) as (b & Eb & _ & Hb).
  destruct (apply_all_refines U Hinj s a entries Hr Hwindow) as (q & Eq & _ & Hq). by exists b, q.
Qed.

Lemma batch_equals_sequential_witness :
  exists batch, @apply_forward_batch toy_sha256 toy_db live_forest [append_entry 7; append_entry 8] = Ok batch.
Proof.
  destruct (@batch_equals_sequential toy_hashing toy_sha256 toy_db toy_db_laws sample_set sample_set_inj live_forest
    live_abs [append_entry 7; append_entry 8] live_refines) as (b & _ & E & _).
  - constructor; [apply append_window|]. constructor; [apply append_window|constructor].
  - exists b. exact E.
Defined.

(** C23: undoing a block: applying an entry and applying it backward again both succeed, and bring
    back the forest it was planned from - every node, every outpoint, the leaf count. *)
Theorem backward_undoes_forward `{NodeHashing} `{Sha256} `{LeafMapDb} `{!LeafMapLaws}
    (U : OutPoint -> Prop) (Hinj : forall o o', U o -> U o' -> leaf_map_key o = leaf_map_key o' -> o = o')
    (s : SteadyStateForest) (a : AbsForest) (e : JournalEntryData)
    (Hr : refines U s a) (He : entry_fits U (ss_rows s) e) (Hp : planned_from (ss_rows s) a e) :
  exists s' s'', apply_forward s e = Ok s' /\ refines U s' (abs_forward (ss_rows s) e a) /\
    apply_backward s' e = Ok s'' /\ refines U s'' a.
Proof.
  destruct (apply_forward_refines U Hinj s a e Hr He) as (s' & E & Er & Hr').
  rewrite <- Er in He. destruct (apply_backward_refines U Hinj s' _ e Hr' He) as (s'' & E' & _ & Hr'').
  exists s', s''. split_and!; [done..|]. rewrite Er in Hr''. by rewrite backward_forward in Hr''.
Qed.

Lemma backward_undoes_forward_witness :
  exists s' s'', @apply_forward toy_sha256 toy_db live_forest (append_entry 7) = Ok s' /\
    @apply_backward toy_sha256 toy_db s' (append_entry 7) = Ok s''.
Proof.
  destruct (@backward_undoes_forward toy_hashing toy_sha256 toy_db toy_db_laws sample_set sample_set_inj live_forest
    live_abs (append_entry 7) live_refines (proj1 (append_window 7)) (append_planned 7)) as (s' & s'' & E & _ & E' & _).
  exists s', s''. split; [exact E|exact E'].
Defined.

(** C22: the overlay of unflushed blocks.  Reading any node of the physical forest through the overlay of the
    pending entries, and resolving any outpoint through it, gives what the forest would hold after
    all of them were applied; and retiring the oldest entry, once its window is durable, leaves exactly the overlay of the remaining ones. *)
Theorem overlay_refines_pending `{NodeHashing} `{Sha256} `{LeafMapDb} `{!LeafMapLaws}
    (U : OutPoint -> Prop) (s : SteadyStateForest) (a : AbsForest) (first : JournalEntryData)
    (pending : list JournalEntryData) (p : Z) (o : OutPoint)
    (Hr : refines U s a) (Hwindow : Forall (window_entry U (ss_rows s)) (first :: pending))
    (Hpos : is_pos (ss_rows s) p) (Hheights : forall e, e ∈ pending -> height e <> height first) :
  let overlay := push_all (first :: pending) in
  let final := apply_all (ss_rows s) a (first :: pending) in
  read_with_overlay (ss_forest s) (ov_nodes overlay) p = ready_state (ab_node final p) /\
  match ov_positions overlay !! o with Some (_, x) => x | None => ab_index a !! o end = ab_index final !! o /\
  retire overlay first = push_all pending.
Proof.
  split_and!; [by eapply overlay_read|apply overlay_position|by apply retire_push_all].
Qed.

Lemma overlay_refines_pending_witness :
  retire (push_all [append_entry 7; append_entry 8]) (append_entry 7) = push_all [append_entry 8].
Proof.
  apply (@overlay_refines_pending toy_hashing toy_sha256 toy_db toy_db_laws sample_set live_forest live_abs
    (append_entry 7) [append_entry 8] 1 live_op live_refines).
  - constructor; [apply append_window|]. constructor; [apply append_window|constructor].
  - exists 0, 1. split; [by_decide|reflexivity].
  - intros e ->%list_elem_of_singleton. discriminate.
Defined.

(** Planning composes with the overlay.  A block planned over a physical forest and the
    overlay of pending entries, whose combined state is the forest of leaves [leaf], yields an entry
    that extends the pending window (so it can be replayed, batched and undone after them), and the forest
    after it holds the trees of the block's leaves. *)
Theorem plan_extends_window `{NodeHashing} `{Sha256} `{LeafMapDb} `{!LeafMapLaws}
    (U : OutPoint -> Prop) (s : SteadyStateForest) (a : AbsForest) (pending : list JournalEntryData)
    (height : Z) (block_hash previous : bytes) (leaf : Z -> ForestNodeData)
    (deletions : list (OutPoint * Z)) (additions : list (OutPoint * BitcoinNodeHash)) (e : JournalEntryData)
    (Hr : refines U s a) (Hwindow : Forall (window_entry U (ss_rows s)) pending)
    (Hleaves : 0 <= ab_leaves (apply_all (ss_rows s) a pending))
    (Hwf : wf_abs (ss_rows s) (apply_all (ss_rows s) a pending) (ab_leaves (apply_all (ss_rows s) a pending)) leaf)
    (Hfit : ab_leaves (apply_all (ss_rows s) a pending) + zlength additions <= 2 ^ ss_rows s)
    (Hdel : Forall (fun d => U d.1 /\ 0 <= d.2 < ab_leaves (apply_all (ss_rows s) a pending)) deletions)
    (Hadd : Forall U additions.*1)
    (Hplan : plan_update_with_overlay s height block_hash previous (ab_leaves (apply_all (ss_rows s) a pending))
       (ov_nodes (push_all pending)) deletions additions = Ok e)
    (Hundo : index_undoable (ab_index (apply_all (ss_rows s) a pending)) (removed e) (added e)) :
  Forall (window_entry U (ss_rows s)) (pending ++ [e]) /\
  planned_from (ss_rows s) (apply_all (ss_rows s) a pending) e /\
  wf_abs (ss_rows s) (apply_all (ss_rows s) a (pending ++ [e]))
    (ab_leaves (apply_all (ss_rows s) a pending) + zlength additions)
    (leaf_append (leaf_delete deletions.*2 leaf) (ab_leaves (apply_all (ss_rows s) a pending)) additions.*2).
Proof.
  pose proof (rf_layout _ _ _ Hr) as [Hrows Hcount]. pose proof (zlength_nonneg additions).
  destruct (plan_update_spec s (ov_nodes (push_all pending)) Hrows Hcount height block_hash previous
    (ab_leaves (apply_all (ss_rows s) a pending)) leaf deletions additions) as (e' & E & Hpl); [lia|lia| | |].
  - apply (wf_view U s a); (done || lia).
  - intros d (d' & -> & Hin)%list_elem_of_fmap. rewrite Forall_forall in Hdel. by apply Hdel.
  - rewrite Hplan in E. injection E as <-.
    destruct (planned_window U s a pending height block_hash previous leaf deletions additions e) as (Hw & Hpf & Hwf');
      [done..|]. split_and!; [apply Forall_app; split; [done|by constructor]|done|].
    unfold apply_all in *. by rewrite foldl_app.
Qed.

Lemma live_wf : @wf_abs toy_hashing 2 live_abs 1 sample_leaf.
Proof. intros r o [-> ->]%one_leaf_populated. reflexivity. Qed.

Lemma plan_extends_window_witness :
  exists e, @plan_update_with_overlay toy_hashing toy_db live_forest 9 [] [] 1 ∅ [(live_op, 0)]
      [(sample_op 3, replicate 32 6)] = Ok e /\ window_entry sample_set 2 e.
Proof.
  eexists. split; [reflexivity|].
  match goal with |- window_entry _ _ ?e =>
    pose proof (@plan_extends_window toy_hashing toy_sha256 toy_db toy_db_laws sample_set live_forest live_abs [] 9 [] []
      sample_leaf [(live_op, 0)] [(sample_op 3, replicate 32 6)] e live_refines) as Hp
  end.
  destruct Hp as [Hw _]; [constructor|by_decide|exact live_wf|by_decide| | |reflexivity| |].
  - constructor; [|constructor]. split; [by left|by_decide].
  - constructor; [|constructor]. by_decide.
  - split.
    + intros d ->%list_elem_of_singleton. reflexivity.
    + intros d ->%list_elem_of_singleton. right. reflexivity.
  - by apply Forall_cons in Hw as [Hw _].
Defined.
End Replay.
