(* ===== verification/CompressedHash.v ===== *)
(** Proof hashes ([compressed_hash] of [src/src/parallel_forest.rs]): the canonical
    position that the proof-position translation gives for a live node resolves
    to the hash of that node. *)

From S2P Require Import Prelude Bytes Sorting Positions JournalEntry Forest SteadyState Accumulator PlanUpdate.
Import Positions.Positions JournalEntry.JournalEntry Forest.Forest SteadyState.SteadyState
  Accumulator.Accumulator PlanUpdate.PlanUpdate.

Module CompressedHash.

Section Compressed.
Context `{NodeHashing}.
Context (rows leaves : Z) (Hrows : 0 <= rows <= 63) (Hleaves : is_u64 leaves) (Hfits : leaves <= 2 ^ rows).
Context (read : Z -> result ForestNodeData) (leaf : Z -> ForestNodeData).
Context (Hwf : wf_forest read rows leaves leaf).

(** The value of a node, and whether it is spent. *)
Definition value (p : Z) : ForestNodeData :=
  match read p with Ok v => v | Err _ => {| nd_hash := []; nd_spent := true |} end.
Definition sp (p : Z) : bool := nd_spent (value p).

Abbreviation node := (is_node leaves rows).
Abbreviation rootp := (is_rootp leaves rows).

Lemma value_pos r o : populated leaves r o -> value (pos rows r o) = subtree leaf (Z.to_nat r) o.
Proof. intros Hp. unfold value. by rewrite Hwf. Qed.

Lemma read_value p : node p -> read p = Ok (value p).
Proof. intros (r & o & Hp & ->). rewrite value_pos by done. by apply Hwf. Qed.

Lemma read_spent p : node p -> (v ← read p; Ok (nd_spent v)) = Ok (sp p).
Proof. intros Hn. by rewrite read_value. Qed.

Lemma pos_parity r o : valid rows r o -> Z.odd (pos rows r o) = Z.odd o.
Proof.
  intros [Hr _]. unfold pos. replace (rows + 1 - r) with (rows - r + 1) by lia. rewrite !pow2_succ by lia.
  rewrite Z.odd_add, Z.odd_sub, !Z.odd_mul. done.
Qed.

(** A non-root node, its sibling and their parent. *)
Lemma family p : node p -> rootp p = false ->
  let left := left_child (parent p rows) rows in
  p = left + Z.b2z (Z.odd p) /\ Z.lxor p 1 = left + Z.b2z (negb (Z.odd p)) /\
  value (parent p rows) = combine_children (value left) (value (left + 1)) /\
  detect_row (parent p rows) rows = detect_row p rows + 1 /\ 0 <= detect_row p rows.
Proof.
  intros (r & o & Hp & ->) Hroot left. pose proof (populated_valid leaves rows Hrows Hleaves Hfits r o Hp) as Hv.
  unfold is_rootp in Hroot. rewrite is_root_position_eq in Hroot by done.
  destruct (populated_parent leaves rows Hrows Hleaves Hfits r o Hp Hroot) as [Hlt Hp'].
  pose proof (populated_valid leaves rows Hrows Hleaves Hfits _ _ Hp') as Hv'.
  assert (0 <= r) as Hr0 by (destruct Hp; lia).
  destruct (populated_child leaves r (o / 2) Hr0 Hp') as [Hpl Hpr].
  unfold left. rewrite pos_parity by done. rewrite (sibling_pos rows Hrows r o Hv Hlt).
  rewrite (parent_pos rows Hrows r o Hv Hlt). rewrite (left_child_pos rows Hrows (r + 1)) by (done || lia).
  replace (r + 1 - 1) with r by lia. rewrite !detect_row_pos by done.
  rewrite value_pos by done. rewrite pos_next. rewrite !value_pos by done.
  rewrite subtree_up by done.
  pose proof (Z.div_mod o 2 ltac:(lia)) as Hdm. rewrite Zmod_odd in Hdm.
  destruct Hp as [_ [Ho0 _]]. split_and!; [| |done|done|done].
  - unfold pos. destruct (Z.odd o); cbn [Z.b2z]; lia.
  - assert (Z.lxor o 1 = if Z.odd o then o - 1 else o + 1) as ->.
    { pose proof (lxor_1_div2 o Ho0) as Hd. pose proof (Z.div_mod (Z.lxor o 1) 2 ltac:(lia)) as Hx.
      rewrite Zmod_odd, Hd in Hx. rewrite <- !Z.bit0_odd, Z.lxor_spec in *. change (Z.testbit 1 0) with true in Hx.
      destruct (Z.testbit o 0); cbn in Hx; lia. }
    unfold pos. destruct (Z.odd o); cbn [Z.b2z negb]; lia.
Qed.

Lemma combine_spent l r : nd_spent (combine_children l r) = nd_spent l && nd_spent r.
Proof. unfold combine_children. destruct l as [? []], r as [? []]; done. Qed.

Lemma live_parent p : node p -> rootp p = false -> sp p = false -> sp (parent p rows) = false.
Proof.
  intros Hn Hr Hs. destruct (family p Hn Hr) as (Ep & _ & Ev & _). unfold sp in *. rewrite Ev, combine_spent.
  destruct (Z.odd p); cbn [Z.b2z] in Ep; [|rewrite Z.add_0_r in Ep]; rewrite <- Ep, Hs; [by rewrite andb_false_r|done].
Qed.

(** [y] is above [p], and on the way every sibling is spent: promotion moved
    [p]'s value up to [y]. *)
Inductive climbs : Z -> Z -> Prop :=
| climbs_here p : climbs p p
| climbs_up p y : node p -> rootp p = false -> sp (Z.lxor p 1) = true ->
    climbs (parent p rows) y -> climbs p y.

Lemma climbs_value p y : climbs p y -> sp p = false -> value y = value p.
Proof.
  induction 1 as [|p y Hn Hr Hsib Hc IH]; intros Hs; [done|]. rewrite IH by (by apply live_parent).
  destruct (family p Hn Hr) as (Ep & Es & Ev & _). rewrite Ev. unfold sp in *. unfold combine_children.
  destruct (Z.odd p); cbn [Z.b2z negb] in Ep, Es; rewrite ?Z.add_0_r in Ep; rewrite ?Z.add_0_r in Es;
    [rewrite <- Ep, <- Es | rewrite <- Es, <- Ep]; rewrite Hs, Hsib; done.
Qed.

(** Descending from [y] skips down to [p] without consuming a turn. *)
Lemma take_turn_skip b p y : climbs p y -> sp p = false -> forall fuel,
  (Z.to_nat (detect_row y rows - detect_row p rows) <= fuel)%nat -> detect_row p rows <= detect_row y rows /\
  take_turn fuel read b rows y (detect_row y rows) =
    take_turn (fuel - Z.to_nat (detect_row y rows - detect_row p rows)) read b rows p (detect_row p rows).
Proof.
  induction 1 as [p|p y Hn Hr Hsib Hc IH]; intros Hs fuel Hf.
  - rewrite Z.sub_diag. cbn. by rewrite Nat.sub_0_r.
  - destruct (family p Hn Hr) as (Ep & Es & Ev & Erow & Hrow0). rewrite Erow in IH.
    pose proof (live_parent p Hn Hr Hs) as Hsp.
    destruct (IH Hsp (Z.to_nat (detect_row y rows - (detect_row p rows + 1)))) as [Hle _]; [lia|].
    split; [lia|]. destruct (IH Hsp fuel) as [_ E]; [lia|]. rewrite E.
    replace (fuel - Z.to_nat (detect_row y rows - (detect_row p rows + 1)))%nat
      with (S (fuel - Z.to_nat (detect_row y rows - detect_row p rows))) by lia.
    cbn [take_turn]. rewrite (proj2 (Z.eqb_neq (detect_row p rows + 1) 0)) by lia. step_ok.
    destruct (node_up leaves rows Hrows Hleaves Hfits p Hn Hr) as (_ & Hns & _).
    unfold sp in Hs, Hsib. replace (detect_row p rows + 1 - 1) with (detect_row p rows) by lia.
    destruct (Z.odd p); cbn [Z.b2z negb] in Ep, Es; rewrite ?Z.add_0_r in Ep; rewrite ?Z.add_0_r in Es;
      [rewrite <- Ep, <- Es | rewrite <- Es, <- Ep]; rewrite !read_value by done; step_ok; by rewrite Hs, Hsib.
Qed.

(** A turn at a node whose two children are live. *)
Lemma take_turn_here fuel p : node p -> rootp p = false -> sp p = false -> sp (Z.lxor p 1) = false ->
  take_turn (S fuel) read (Z.odd p) rows (parent p rows) (detect_row (parent p rows) rows) = Ok (p, detect_row p rows).
Proof.
  intros Hn Hr Hs Hsib. destruct (family p Hn Hr) as (Ep & Es & _ & Erow & Hrow0).
  destruct (node_up leaves rows Hrows Hleaves Hfits p Hn Hr) as (_ & Hns & _).
  cbn [take_turn]. rewrite Erow. rewrite (proj2 (Z.eqb_neq (detect_row p rows + 1) 0)) by lia. step_ok.
  replace (detect_row p rows + 1 - 1) with (detect_row p rows) by lia. unfold sp in Hs, Hsib.
  destruct (Z.odd p); cbn [Z.b2z negb] in Ep, Es; rewrite ?Z.add_0_r in Ep; rewrite ?Z.add_0_r in Es;
    [rewrite <- Ep, <- Es | rewrite <- Es, <- Ep]; rewrite !read_value by done; step_ok; rewrite Hs, Hsib; cbn [Z.b2z]; f_equal; f_equal; lia.
Qed.

Abbreviation turns := (live_turns leaves rows sp).
Abbreviation rootrow := (root_row leaves rows).

Definition root_pos (p : Z) : Z := pos rows (rootrow p) (root_off leaves (rootrow p)).

(** The descent of [compressed_hash] along the live turns of [p] ends at a node
    that carries [p]'s value. *)
Lemma descent_spec p : node p -> sp p = false ->
  exists y, foldM (fun '(original_position, original_row) is_right =>
      take_turn 65 read is_right rows original_position original_row) (reverse (turns p)) (root_pos p, rootrow p)
    = Ok (y, detect_row y rows) /\ climbs p y /\ node y.
Proof.
  revert p. apply (node_ind leaves rows Hrows Hleaves Hfits (fun p => sp p = false -> _)).
  - intros p Hn Hr Hs. exists p. pose proof Hn as (r & o & Hp & ->).
    pose proof (populated_valid leaves rows Hrows Hleaves Hfits r o Hp) as Hv.
    unfold root_pos, live_turns, root_row. rewrite path_root by done. rewrite detect_row_pos by done. cbn.
    rewrite Z.add_0_r. split_and!; [|constructor|done].
    unfold is_rootp in Hr. rewrite is_root_position_eq in Hr by done.
    unfold is_root in Hr. by apply andb_true_iff in Hr as [_ ->%Z.eqb_eq].
  - intros p Hn Hr IH Hs. destruct (IH (live_parent p Hn Hr Hs)) as (y & E & Hc & Hny).
    unfold root_pos in *. rewrite (root_row_up leaves rows Hrows Hleaves Hfits p Hn Hr).
    unfold live_turns in *. rewrite (path_step leaves rows Hrows Hleaves Hfits p Hn Hr), filter_cons.
    destruct (sp (Z.lxor p 1)) eqn:Hsib.
    + rewrite decide_False by congruence. exists y. split_and!; [done|by apply climbs_up|done].
    + rewrite decide_True by done. rewrite fmap_cons, reverse_cons, foldM_snoc, E. step_ok.
      exists p. split_and!; [|constructor|done].
      destruct (family p Hn Hr) as (_ & _ & _ & Erow & Hrow0).
      destruct (take_turn_skip (Z.odd p) (parent p rows) y Hc (live_parent p Hn Hr Hs) 65) as [Hle Ht].
      { destruct Hny as (r & o & Hp & ->). pose proof (populated_valid leaves rows Hrows Hleaves Hfits r o Hp) as Hv.
        rewrite detect_row_pos by done. destruct Hv. lia. }
      rewrite Ht. assert (detect_row y rows <= 63) as Hy63.
      { destruct Hny as (r & o & Hp & ->). pose proof (populated_valid leaves rows Hrows Hleaves Hfits r o Hp) as Hv.
        rewrite detect_row_pos by done. destruct Hv. lia. }
      replace (65 - Z.to_nat (detect_row y rows - detect_row (parent p rows) rows))%nat
        with (S (64 - Z.to_nat (detect_row y rows - detect_row (parent p rows) rows))) by lia.
      by apply take_turn_here.
Qed.
(** The turns of a canonical position are read back by [directions]. *)
Lemma directions_descend k off : valid rows k off -> forall l, zlength l <= k -> forall fuel, (length l < fuel)%nat ->
  let '(r, o) := descend k off l in
  valid rows r o /\ r = k - zlength l /\ o / 2 ^ zlength l = off /\
  directions fuel (pos rows r o) (pos rows k off) rows = Ok l.
Proof.
  intros Hv l. induction l as [|b l IH]; intros Hl fuel Hf; (destruct fuel as [|fuel]; [cbn in Hf; lia|]).
  { cbn [descend foldr directions]. rewrite zlength_nil, Z.eqb_refl, Z.div_1_r. split_and!; [done|lia|done|done]. }
  rewrite zlength_cons in *. pose proof (zlength_nonneg l). specialize (IH ltac:(lia) fuel ltac:(cbn in Hf; lia)).
  cbn [descend foldr]. fold (descend k off l). destruct (descend k off l) as [r o].
  destruct IH as (Hv' & -> & Hdiv & IH).
  assert (valid rows (k - zlength l - 1) (2 * o + Z.b2z b)) as Hvb.
  { destruct Hv' as [Hr' Ho']. split; [lia|].
    replace (rows - (k - zlength l - 1)) with (rows - (k - zlength l) + 1) by lia.
    rewrite pow2_succ by lia. destruct b; cbn; lia. }
  assert ((2 * o + Z.b2z b) / 2 = o) as Hhalf by (symmetry; apply Z.div_unique with (Z.b2z b); destruct b; cbn; lia).
  split_and!; [done|lia| |].
  - rewrite (Z.add_comm 1), pow2_succ by done. rewrite <- Z.div_div by (try apply Z.pow_nonzero; lia). by rewrite Hhalf.
  - cbn [directions]. destruct (Z.eqb_spec (pos rows (k - zlength l - 1) (2 * o + Z.b2z b)) (pos rows k off)) as [E|Hne].
    { apply pos_inj in E as [E _]; [lia|done..]. }
    destruct Hv' as [Hr' _]. rewrite parent_pos by (done || lia). replace (k - zlength l - 1 + 1) with (k - zlength l) by lia.
    rewrite Hhalf, IH. step_ok. rewrite land_1, pos_parity by done. f_equal. f_equal.
    rewrite Z.odd_add, Z.odd_mul. by destruct b.
Qed.

Lemma ancestor_pos n r o : valid rows r o -> r + Z.of_nat n <= rows ->
  ancestor n (pos rows r o) rows = pos rows (r + Z.of_nat n) (o / 2 ^ Z.of_nat n) /\
  valid rows (r + Z.of_nat n) (o / 2 ^ Z.of_nat n).
Proof.
  revert r o; induction n as [|n IH]; intros r o Hv Hn.
  { cbn [ancestor Z.of_nat]. by rewrite Z.add_0_r, Z.div_1_r. }
  assert (valid rows (r + 1) (o / 2)) as Hv'.
  { destruct Hv as [Hr Ho]. split; [lia|]. replace (rows - r) with (rows - (r + 1) + 1) in Ho by lia.
    rewrite pow2_succ in Ho by lia. split; [apply Z.div_pos; lia|apply Z.div_lt_upper_bound; lia]. }
  cbn [ancestor]. rewrite parent_pos by (done || lia). destruct (IH (r + 1) (o / 2) Hv' ltac:(lia)) as [E Hvn].
  rewrite Z.div_div in E, Hvn by (try apply Z.pow_nonzero; lia).
  replace (2 * 2 ^ Z.of_nat n) with (2 ^ Z.of_nat (S n)) in E, Hvn by (rewrite Nat2Z.inj_succ, Z.pow_succ_r; lia).
  replace (r + Z.of_nat (S n)) with (r + 1 + Z.of_nat n) by lia. by rewrite E.
Qed.

(** A populated root is under no other root. *)
Lemma root_off_above j k : 0 <= j < k -> Z.testbit leaves k = true -> root_off leaves j / 2 ^ (k - j) <> root_off leaves k.
Proof.
  intros Hjk Hb. assert (root_off leaves j / 2 ^ (k - j) = leaves / 2 ^ k) as ->.
  { unfold root_off. replace (k - j) with (1 + (k - (j + 1))) by lia. rewrite (pow2_split 1) by lia. change (2 ^ 1) with 2.
    pose proof (pow2_pos (k - (j + 1)) ltac:(lia)). pose proof (pow2_pos (j + 1) ltac:(lia)).
    rewrite Z.div_mul_cancel_l, Z.div_div, <- pow2_split by lia. f_equal. f_equal. lia. }
  rewrite count_parity, Hb by lia. unfold root_off. cbn. lia.
Qed.

Lemma containing_root_eq r o k : valid rows r o -> r <= k <= rows -> Z.testbit leaves k = true ->
  o / 2 ^ (k - r) = root_off leaves k ->
  containing_root rows (pos rows r o) leaves = Ok (pos rows k (root_off leaves k), k).
Proof.
  intros Hv Hk Hb Ho. pose proof Hv as [Hr _]. unfold containing_root. rewrite detect_row_pos by done.
  rewrite (zrange_app r k) by lia. rewrite (zrange_cons k) by lia.
  assert (forall j, r <= j <= k -> ancestor (Z.to_nat (j - r)) (pos rows r o) rows = pos rows j (o / 2 ^ (j - r))) as Hanc.
  { intros j Hj. destruct (ancestor_pos (Z.to_nat (j - r)) r o Hv ltac:(lia)) as [E _]. rewrite E, Z2Nat.id by lia.
    by replace (r + (j - r)) with j by lia. }
  assert (forall j, j ∈ zrange r k -> r <= j < k) as Hin by (intros j Hj; by apply elem_of_zrange in Hj).
  revert Hin. induction (zrange r k) as [|j l IH]; intros Hin; cbn [app containing_root_loop].
  - rewrite has_root_eq, Hb, Hanc, Ho, root_position_eq by (done || lia). cbn. by rewrite Z.eqb_refl.
  - assert (r <= j < k) as Hj by (apply Hin; left). rewrite has_root_eq by lia.
    destruct (Z.testbit leaves j) eqn:Hbj; cbn [negb]; [|apply IH; intros; apply Hin; by right].
    rewrite Hanc, root_position_eq by (done || lia).
    destruct (Z.eqb_spec (pos rows j (o / 2 ^ (j - r))) (pos rows j (root_off leaves j))) as [E|_];
      [|apply IH; intros; apply Hin; by right].
    exfalso. apply (root_off_above j k); [lia|done|]. rewrite <- Ho.
    assert (o / 2 ^ (j - r) = root_off leaves j) as <- by (unfold pos in E; lia).
    rewrite Z.div_div, <- pow2_split by (try apply Z.pow_nonzero; try apply pow2_pos; lia).
    f_equal. f_equal. lia.
Qed.

Lemma turns_bound p : node p -> zlength (turns p) <= rootrow p /\ 0 <= rootrow p <= rows /\
  Z.testbit leaves (rootrow p) = true.
Proof.
  intros Hn. destruct (root_row_spec leaves rows Hrows Hleaves Hfits p Hn) as (Hb & Hk & Hl).
  split_and!; [|lia..|done]. unfold live_turns. rewrite zlength_fmap. unfold zlength in *.
  pose proof (length_filter (fun x => sp (Z.lxor x 1) = false) (path leaves rows p)). lia.
Qed.

Lemma compressed_hash_spec p : node p -> sp p = false ->
  compressed_hash rows (promoted leaves rows sp p) (tree_rows leaves) leaves read = Ok (hash_of_bytes (nd_hash (value p))).
Proof.
  intros Hn Hs. destruct (turns_bound p Hn) as (Hl & Hk & Hb). destruct (descent_spec p Hn Hs) as (y & E & Hc & Hy).
  set (k := rootrow p) in *. pose proof (pow2_pos k ltac:(lia)).
  assert (2 ^ k <= leaves) as Hpos.
  { destruct Hleaves. destruct (Z.le_gt_cases (2 ^ k) leaves); [done|].
    rewrite (testbit_above k leaves) in Hb by lia. done. }
  destruct (tree_rows_fits leaves Hleaves ltac:(lia)) as [HL0 HLfit].
  assert (tree_rows leaves <= rows) as HLr.
  { rewrite tree_rows_log2_up by done. pose proof (Z.log2_up_le_mono _ _ Hfits) as Hm.
    rewrite Z.log2_up_pow2 in Hm by lia. lia. }
  assert (k <= tree_rows leaves) as HkL by (apply (Z.pow_le_mono_r_iff 2); lia).
  assert (valid rows k (root_off leaves k)) as Hvk by (split; [lia|by apply root_off_bound]).
  pose proof (directions_descend k (root_off leaves k) Hvk (turns p) Hl 65 ltac:(unfold zlength in Hl; lia)) as Hd.
  assert (valid (tree_rows leaves) k (root_off leaves k)) as HvkL.
  { split; [lia|]. apply root_off_bound; (done || lia). }
  pose proof (descend_code rows Hrows (tree_rows leaves) k (root_off leaves k) ltac:(lia) HvkL (turns p) (turns_value (turns p)) 0 ltac:(lia) (Z.shiftr_0_r _) Hl) as HdL.
  unfold compressed_hash, promoted. fold k. destruct (descend k (root_off leaves k) (turns p)) as [r o].
  destruct Hd as (Hv & -> & Hdiv & Hdir). destruct HdL as (HvL & _ & _). pose proof (zlength_nonneg (turns p)).
  rewrite translate_position_pos by (done || lia). step_ok.
  rewrite (containing_root_eq _ _ k) by (done || lia || by replace (k - (k - zlength (turns p))) with (zlength (turns p)) by lia).
  step_ok. rewrite Hdir. step_ok. unfold root_pos in E. fold k in E. rewrite E. step_ok.
  rewrite read_value by done. step_ok. pose proof (climbs_value p y Hc Hs) as Ev. rewrite Ev.
  unfold sp in Hs. by rewrite Hs.
Qed.

(** No ancestor of an unspent node is spent. *)
Lemma unspent_live p : node p -> sp p = false -> live leaves rows sp p.
Proof.
  intros Hn Hs. split; [done|]. revert p Hn Hs.
  apply (node_ind leaves rows Hrows Hleaves Hfits (fun p => _ -> forall x, _ -> _)).
  - intros p Hn Hr Hs x Hx. rewrite path_root in Hx by done. by apply elem_of_nil in Hx.
  - intros p Hn Hr IH Hs x Hx. rewrite (path_step leaves rows Hrows Hleaves Hfits p Hn Hr) in Hx.
    apply elem_of_cons in Hx as [->|Hx]; [done|]. by apply IH; [apply live_parent|].
Qed.

Lemma leaf_node o : 0 <= o < leaves -> node o /\ value o = leaf o.
Proof.
  intros Ho. assert (populated leaves 0 o) as Hp by (split; [lia|by rewrite Z.div_1_r]).
  rewrite <- (pos_row0 rows o). split; [by exists 0, o|]. by rewrite (value_pos 0 o Hp), pos_row0.
Qed.

Lemma translate_unspent positions : (forall p, p ∈ positions -> node p /\ sp p = false) ->
  translate_proof_positions positions leaves rows (fun p => v ← read p; Ok (nd_spent v)) =
    Ok (promoted leaves rows sp <$> positions).
Proof.
  intros Hpos. rewrite (translate_proof_positions_scalar leaves rows Hrows Hleaves Hfits sp).
  - apply mapM_ok_map. intros p Hp. apply proof_position_promoted; [done..|apply read_spent|by apply Hpos].
  - apply read_spent.
  - intros p Hp. apply unspent_live; by apply Hpos.
Qed.

Lemma hashes_unspent positions : (forall p, p ∈ positions -> node p /\ sp p = false) ->
  mapM (fun q => compressed_hash rows q (tree_rows leaves) leaves read) (promoted leaves rows sp <$> positions) =
    Ok ((fun p => hash_of_bytes (nd_hash (value p))) <$> positions).
Proof.
  intros Hpos. induction positions as [|p l IH]; [done|]. destruct (Hpos p ltac:(left)) as [Hn Hs].
  rewrite fmap_cons. cbn [mapM]. rewrite compressed_hash_spec by done. step_ok.
  rewrite IH by (intros; apply Hpos; by right). done.
Qed.

Lemma leaf_hashes positions : (forall p, p ∈ positions -> node p /\ sp p = false) ->
  mapM (fun p => v ← read p; require (negb (nd_spent v)) "leaf position is spent";; Ok (hash_of_bytes (nd_hash v))) positions =
    Ok ((fun p => hash_of_bytes (nd_hash (value p))) <$> positions).
Proof.
  intros Hpos. apply mapM_ok_map. intros p Hp. destruct (Hpos p Hp) as [Hn Hs]. rewrite read_value by done. step_ok.
  unfold sp in Hs. by rewrite Hs.
Qed.

Lemma unspent_leaves (positions : list Z) : (forall o, o ∈ positions -> 0 <= o < leaves /\ nd_spent (leaf o) = false) ->
  forall p, p ∈ positions -> node p /\ sp p = false.
Proof.
  intros Hpos p Hp. destruct (Hpos p Hp) as [Hb Hs]. destruct (leaf_node p Hb) as [Hn Hv].
  split; [done|]. unfold sp. by rewrite Hv.
Qed.

Lemma leaf_values (positions : list Z) : (forall o, o ∈ positions -> 0 <= o < leaves /\ nd_spent (leaf o) = false) ->
  (fun p => hash_of_bytes (nd_hash (value p))) <$> positions = (fun o => hash_of_bytes (nd_hash (leaf o))) <$> positions.
Proof.
  intros Hpos. apply list_fmap_ext. intros i o Ho%list_elem_of_lookup_2.
  by rewrite (proj2 (leaf_node o (proj1 (Hpos o Ho)))).
Qed.
End Compressed.

(** C2: the proof targets of a set of unspent leaves, as [translate_proof_positions] computes
    them from the view, are positions at which [position_hash] finds those leaves' hashes:
    translating to the promoted forest and descending through the stored one are inverse, for
    every pattern of spent siblings. *)
Theorem proof_hashes_resolve `{NodeHashing} `{Sha256} `{LeafMapDb}
    (v : ForestView) (leaf : Z -> ForestNodeData) (positions : list Z)
    (Hrows : 0 <= ss_rows (fv_forest v) <= 63) (Hleaves : is_u64 (fv_leaves v))
    (Hfits : fv_leaves v <= 2 ^ ss_rows (fv_forest v))
    (Hwf : wf_forest (view_read v) (ss_rows (fv_forest v)) (fv_leaves v) leaf)
    (Hpositions : forall o, o ∈ positions -> 0 <= o < fv_leaves v /\ nd_spent (leaf o) = false) :
  exists targets, view_translate_proof_positions v positions = Ok targets /\
    mapM (view_position_hash v) targets = mapM (view_leaf_hash v) positions /\
    mapM (view_leaf_hash v) positions = Ok ((fun o => hash_of_bytes (nd_hash (leaf o))) <$> positions).
Proof.
  pose proof (unspent_leaves _ _ _ _ Hwf positions Hpositions) as Hpos.
  exists (promoted (fv_leaves v) (ss_rows (fv_forest v)) (sp (view_read v)) <$> positions).
  assert (mapM (view_leaf_hash v) positions = Ok ((fun o => hash_of_bytes (nd_hash (leaf o))) <$> positions)) as Hleaf.
  { rewrite <- (leaf_values _ _ _ _ Hwf) by done. by apply (leaf_hashes _ _ _ _ Hwf). }
  split_and!; [|rewrite Hleaf|done].
  - by apply (translate_unspent _ _ Hrows Hleaves Hfits _ _ Hwf).
  - rewrite <- (leaf_values _ _ _ _ Hwf) by done. by apply (hashes_unspent _ _ Hrows Hleaves Hfits _ _ Hwf).
Qed.

(** Four leaves, the second one spent. *)
Definition spent_leaf (o : Z) : ForestNodeData := {| nd_hash := replicate 32 o; nd_spent := o =? 1 |}.
Definition spent_forest : FlatForest :=
  let node r o := let v := @subtree toy_hashing spent_leaf r o in
    {| node_hash := nd_hash v; flags := ready_flags (nd_spent v) |} in
  {| ff_nodes := list_to_map [(0, node 0%nat 0); (1, node 0%nat 1); (2, node 0%nat 2); (3, node 0%nat 3);
       (4, node 1%nat 0); (5, node 1%nat 1); (6, node 2%nat 0)];
     ff_count := 7; ff_marker := None |}.
Definition spent_view : @ForestView toy_db :=
  {| fv_forest := @Build_SteadyStateForest toy_db spent_forest (∅ : gmap bytes bytes) 4 2;
     fv_overlay := empty_overlay; fv_leaves := 4 |}.

Lemma four_leaves_populated r o : populated 4 r o ->
  (r, o) ∈ [(0, 0); (0, 1); (0, 2); (0, 3); (1, 0); (1, 1); (2, 0)].
Proof.
  intros [Hr Ho]. assert (r <= 2) as Hr2.
  { destruct (Z.le_gt_cases r 2); [done|]. rewrite Z.div_small in Ho; [lia|]. pose proof (pow2_lt 2 r ltac:(lia)). lia. }
  assert (r = 0 \/ r = 1 \/ r = 2) as [->|[->| ->]] by lia; [change (4 / 2 ^ 0) with 4 in Ho|change (4 / 2 ^ 1) with 2 in Ho|change (4 / 2 ^ 2) with 1 in Ho].
  - assert (o = 0 \/ o = 1 \/ o = 2 \/ o = 3) as [->|[->|[->| ->]]] by lia; in_list.
  - assert (o = 0 \/ o = 1) as [->| ->] by lia; in_list.
  - assert (o = 0) as -> by lia; in_list.
Qed.

Lemma spent_wf : @wf_forest toy_hashing (@view_read toy_db spent_view) 2 4 spent_leaf.
Proof.
  intros r o Hp%four_leaves_populated. rewrite !elem_of_cons, elem_of_nil in Hp.
  repeat (destruct Hp as [Hro|Hp]; [injection Hro as -> ->; reflexivity|]). done.
Qed.

Lemma proof_hashes_resolve_witness :
  exists targets, @view_translate_proof_positions toy_db spent_view [0; 3] = Ok targets /\
    mapM (@view_position_hash toy_hashing toy_db spent_view) targets = Ok [replicate 32 0; replicate 32 3].
Proof.
  destruct (@proof_hashes_resolve toy_hashing toy_sha256 toy_db spent_view spent_leaf [0; 3]) as (ts & E & E1 & E2).
  - cbn; lia.
  - vm_compute; split; congruence.
  - vm_compute; congruence.
  - apply spent_wf.
  - intros o Ho. rewrite !elem_of_cons, elem_of_nil in Ho. destruct Ho as [->|[->|[]]]; (split; [cbn; lia|reflexivity]).
  - exists ts. split; [exact E|]. rewrite E1. exact E2.
Defined.

End CompressedHash.
