(* ===== verification/Files.v ===== *)
(** Files as the stores and the journal use them: positioned reads and writes,
    truncation, hole punching, and what a crash may leave of a file whose last
    writes were not synchronized. *)

From S2P Require Import Prelude Bytes.

Module Files.

(** ** Positioned I/O of [std::os::unix::fs::FileExt] *)

Abbreviation File := bytes.

(** [read_exact_at]: all of [n] bytes, or an error. *)
Definition read_exact_at (f : File) (off n : Z) : option bytes :=
  if bool_decide (0 <= n /\ (n = 0 \/ 0 <= off /\ off + n <= zlength f)) then Some (ztake n (zdrop off f))
  else None.

(** [set_len]: truncate, or extend with zeros. *)
Definition set_len (f : File) (n : Z) : File := ztake n f ++ zeros (Z.to_nat (n - zlength f)).

(** [write_all_at]: overwrite, extending the file as needed; writing nothing
    does not extend it. *)
Definition write_all_at (f : File) (off : Z) (bs : bytes) : File :=
  if bool_decide (bs = []) then f
  else ztake off (set_len f (Z.max (zlength f) off)) ++ bs ++ zdrop (off + zlength bs) f.

(** [fallocate(FALLOC_FL_PUNCH_HOLE | FALLOC_FL_KEEP_SIZE)] *)
Definition punch_hole (f : File) (off n : Z) : File :=
  ztake off f ++ zeros (Z.to_nat (Z.min n (zlength f - off))) ++ zdrop (off + n) f.

(** ** What the operations do, byte by byte *)

Lemma zlookup_ge {A} (l : list A) i : zlength l <= i -> zlookup l i = None.
Proof.
  intros H. unfold zlookup, zlength in *. case_bool_decide; [|done]. apply lookup_ge_None. lia.
Qed.
Lemma zlookup_neg {A} (l : list A) i : i < 0 -> zlookup l i = None.
Proof. intros H. unfold zlookup. by rewrite bool_decide_eq_false_2 by lia. Qed.

Lemma zlookup_app {A} (l1 l2 : list A) i :
  zlookup (l1 ++ l2) i = if i <? zlength l1 then zlookup l1 i else zlookup l2 (i - zlength l1).
Proof.
  destruct (Z.ltb_spec i (zlength l1)); [by apply zlookup_app_l|]. unfold zlookup, zlength in *.
  rewrite !bool_decide_eq_true_2 by lia. rewrite lookup_app_r by lia. f_equal. lia.
Qed.

Lemma zlookup_take {A} (l : list A) n i : zlookup (ztake n l) i = if i <? n then zlookup l i else None.
Proof.
  unfold zlookup, ztake. case_bool_decide; [|by case_match].
  rewrite lookup_take. destruct (Z.ltb_spec i n); case_decide; (done || lia).
Qed.

Lemma zlookup_drop {A} (l : list A) n i : 0 <= n -> 0 <= i -> zlookup (zdrop n l) i = zlookup l (n + i).
Proof.
  intros. unfold zlookup, zdrop. rewrite !bool_decide_eq_true_2 by lia. rewrite lookup_drop. f_equal. lia.
Qed.

Lemma zlookup_zeros n i : 0 <= i -> zlookup (zeros n) i = if i <? Z.of_nat n then Some 0 else None.
Proof.
  intros. unfold zlookup, zeros. rewrite bool_decide_eq_true_2 by lia.
  destruct (Z.ltb_spec i (Z.of_nat n)); [apply lookup_replicate_2; lia|apply lookup_ge_None; rewrite length_replicate; lia].
Qed.

Lemma zlength_take {A} (l : list A) n : 0 <= n -> zlength (ztake n l) = Z.min n (zlength l).
Proof. intros. unfold zlength, ztake. rewrite length_take. lia. Qed.
Lemma zlength_drop {A} (l : list A) n : 0 <= n -> zlength (zdrop n l) = Z.max 0 (zlength l - n).
Proof. intros. unfold zlength, zdrop. rewrite length_drop. lia. Qed.
Lemma zlength_zeros n : zlength (zeros n) = Z.of_nat n.
Proof. unfold zlength, zeros. by rewrite length_replicate. Qed.

Lemma zlength_set_len f n : 0 <= n -> zlength (set_len f n) = n.
Proof.
  intros. pose proof (zlength_nonneg f). unfold set_len. rewrite zlength_app, zlength_take, zlength_zeros by done. lia.
Qed.

Lemma zlookup_set_len f n i : 0 <= i -> 0 <= n ->
  zlookup (set_len f n) i = if i <? n then (if i <? zlength f then zlookup f i else Some 0) else None.
Proof.
  intros Hi Hn. pose proof (zlength_nonneg f). unfold set_len.
  rewrite zlookup_app, zlength_take, zlookup_take by done.
  destruct (Z.ltb_spec i (Z.min n (zlength f))), (Z.ltb_spec i n), (Z.ltb_spec i (zlength f)); try lia; try done.
  - rewrite zlookup_zeros by lia. destruct (Z.ltb_spec (i - Z.min n (zlength f)) (Z.of_nat (Z.to_nat (n - zlength f)))); [done|lia].
  - rewrite zlookup_zeros by lia. destruct (Z.ltb_spec (i - Z.min n (zlength f)) (Z.of_nat (Z.to_nat (n - zlength f)))); [lia|done].
  - rewrite zlookup_zeros by lia. destruct (Z.ltb_spec (i - Z.min n (zlength f)) (Z.of_nat (Z.to_nat (n - zlength f)))); [lia|done].
Qed.

Lemma zlength_write f off bs : 0 <= off -> bs <> [] ->
  zlength (write_all_at f off bs) = Z.max (zlength f) (off + zlength bs).
Proof.
  intros Ho Hb. pose proof (zlength_nonneg f). pose proof (zlength_nonneg bs). unfold write_all_at.
  rewrite bool_decide_eq_false_2 by done.
  rewrite !zlength_app, zlength_take, zlength_drop, zlength_set_len by lia. lia.
Qed.

Lemma zlookup_write f off bs i : 0 <= off -> bs <> [] -> 0 <= i ->
  zlookup (write_all_at f off bs) i =
    if i <? off then (if i <? zlength f then zlookup f i else Some 0)
    else if i <? off + zlength bs then zlookup bs (i - off) else zlookup f i.
Proof.
  intros Ho Hb Hi. pose proof (zlength_nonneg f). pose proof (zlength_nonneg bs). unfold write_all_at.
  rewrite bool_decide_eq_false_2 by done. rewrite !zlookup_app, zlength_take, zlength_set_len by lia.
  rewrite Z.min_l by lia. rewrite zlookup_take, zlookup_set_len by lia.
  destruct (Z.ltb_spec i off).
  - destruct (Z.ltb_spec i (Z.max (zlength f) off)); [done|lia].
  - destruct (Z.ltb_spec (i - off) (zlength bs)), (Z.ltb_spec i (off + zlength bs)); try lia; [done|].
    rewrite zlookup_drop by lia. f_equal. lia.
Qed.

Lemma zlength_punch f off n : 0 <= off -> 0 <= n -> zlength (punch_hole f off n) = zlength f.
Proof.
  intros Ho Hn. pose proof (zlength_nonneg f). unfold punch_hole.
  rewrite !zlength_app, zlength_take, zlength_drop, zlength_zeros by lia. lia.
Qed.

Lemma zlookup_punch f off n i : 0 <= off -> 0 <= n -> 0 <= i ->
  ~ (off <= i < off + n) -> zlookup (punch_hole f off n) i = zlookup f i.
Proof.
  intros Ho Hn Hi Hout. pose proof (zlength_nonneg f). unfold punch_hole.
  rewrite !zlookup_app, zlength_take, zlookup_take by lia.
  destruct (Z.ltb_spec i (Z.min off (zlength f))).
  { destruct (Z.ltb_spec i off); [done|lia]. }
  rewrite zlength_zeros. destruct (Z.le_gt_cases (zlength f) i).
  { rewrite (zlookup_ge f) by lia. destruct (Z.ltb_spec (i - Z.min off (zlength f)) (Z.of_nat (Z.to_nat (Z.min n (zlength f - off))))); [lia|].
    apply zlookup_ge. rewrite zlength_drop by lia. lia. }
  destruct (Z.ltb_spec (i - Z.min off (zlength f)) (Z.of_nat (Z.to_nat (Z.min n (zlength f - off))))); [lia|].
  rewrite zlookup_drop by lia. f_equal. lia.
Qed.

(** ** Reads *)

(** A read is the bytes of its range. *)
Lemma read_mapM f off n : 0 <= off -> 0 < n ->
  read_exact_at f off n = mapM (zlookup f) (zrange off (off + n)).
Proof.
  intros Ho Hn. symmetry. unfold read_exact_at. case_bool_decide as Hb.
  - apply mapM_Some_2. assert (off + n <= zlength f) as Hl by lia. clear Hb.
    apply Forall2_same_length_lookup_2.
    + unfold zrange, ztake, zdrop. rewrite length_seqZ, length_take, length_drop. unfold zlength in Hl. lia.
    + intros i x y Hx Hy. unfold zrange in Hx. apply lookup_seqZ in Hx as [-> Hi].
      unfold ztake, zdrop in Hy. apply lookup_take_Some in Hy as [Hy _]. rewrite lookup_drop in Hy.
      apply zlookup_Some. split; [lia|]. rewrite <- Hy. f_equal. lia.
  - apply mapM_None_2. apply Exists_exists. exists (off + n - 1). split; [apply elem_of_zrange; lia|].
    apply zlookup_ge. destruct (Z.le_gt_cases (off + n) (zlength f)); [|lia]. exfalso. apply Hb. split; [lia|]. right. lia.
Qed.

(** Two files agree on [a, b). *)
Definition agree (f g : File) (a b : Z) : Prop := forall i, a <= i < b -> zlookup f i = zlookup g i.

Lemma agree_refl f a b : agree f f a b.
Proof. done. Qed.
Lemma agree_sym f g a b : agree f g a b -> agree g f a b.
Proof. intros H i Hi. by rewrite H. Qed.
Lemma agree_trans f g h a b : agree f g a b -> agree g h a b -> agree f h a b.
Proof. intros H1 H2 i Hi. by rewrite H1, H2. Qed.
Lemma agree_sub f g a b a' b' : agree f g a b -> a <= a' -> b' <= b -> agree f g a' b'.
Proof. intros H Ha Hb i Hi. apply H. lia. Qed.

Lemma read_agree f g a b off n : agree f g a b -> 0 <= a -> a <= off -> off + n <= b -> 0 < n ->
  read_exact_at f off n = read_exact_at g off n.
Proof.
  intros H Ha Ho Hn Hp. rewrite !read_mapM by lia.
  assert (forall l, (forall i, i ∈ l -> a <= i < b) -> mapM (zlookup f) l = mapM (zlookup g) l) as Hl.
  { induction l as [|i l IH]; intros Hl; [done|]. cbn [mapM]. rewrite (H i) by (apply Hl; left).
    rewrite IH by (intros; apply Hl; by right). done. }
  apply Hl. intros i Hi%elem_of_zrange. lia.
Qed.

(** [bs] is at offset [off] of [f]. *)
Definition stored (f : File) (off : Z) (bs : bytes) : Prop :=
  forall i, 0 <= i < zlength bs -> zlookup f (off + i) = zlookup bs i.

Lemma stored_read f off bs : 0 <= off -> bs <> [] -> stored f off bs -> read_exact_at f off (zlength bs) = Some bs.
Proof.
  intros Ho Hb H. assert (0 < zlength bs) by (destruct bs; [done|unfold zlength; cbn; lia]).
  rewrite read_mapM by lia. apply mapM_Some_2. apply Forall2_same_length_lookup_2.
  - unfold zrange. rewrite length_seqZ. unfold zlength. lia.
  - intros i x y Hx Hy. unfold zrange in Hx. apply lookup_seqZ in Hx as [-> Hi].
    assert (zlookup bs (Z.of_nat i) = Some y) as E by (apply zlookup_Some; split; [lia|by rewrite Nat2Z.id]).
    rewrite <- E. apply H. by apply zlookup_lt in E.
Qed.

Lemma read_stored f off n bs : 0 <= off -> 0 < n -> read_exact_at f off n = Some bs -> stored f off bs /\ zlength bs = n.
Proof.
  intros Ho Hn H. rewrite read_mapM in H by lia. apply mapM_Some_1 in H.
  pose proof (Forall2_length _ _ _ H) as Hl. unfold zrange in Hl. rewrite length_seqZ in Hl.
  split; [|unfold zlength; lia]. intros i Hi. destruct (zlookup_is_Some bs i Hi) as [y Hy]. rewrite Hy.
  apply zlookup_Some in Hy as [_ Hy]. eapply Forall2_lookup_r in H as (x & Hx & E); [|done].
  unfold zrange in Hx. apply lookup_seqZ in Hx as [-> _]. by rewrite Z2Nat.id in E by lia.
Qed.

Lemma stored_length f off bs : bs <> [] -> stored f off bs -> off + zlength bs <= zlength f.
Proof.
  intros Hb H. assert (0 < zlength bs) by (destruct bs; [done|unfold zlength; cbn; lia]).
  destruct (zlookup_is_Some bs (zlength bs - 1) ltac:(lia)) as [y Hy]. rewrite <- H in Hy by lia.
  apply zlookup_lt in Hy. lia.
Qed.

Lemma stored_agree f g off bs : stored f off bs -> agree f g off (off + zlength bs) -> stored g off bs.
Proof. intros H Ha i Hi. rewrite <- Ha by lia. by apply H. Qed.

Lemma stored_write f off bs : 0 <= off -> stored (write_all_at f off bs) off bs.
Proof.
  intros Ho i Hi. destruct (decide (bs = [])) as [->|Hb]; [unfold zlength in Hi; cbn in Hi; lia|].
  rewrite zlookup_write by (done || lia).
  destruct (Z.ltb_spec (off + i) off); [lia|]. destruct (Z.ltb_spec (off + i) (off + zlength bs)); [|lia].
  f_equal. lia.
Qed.

(** A write leaves what is outside of its range. *)
Lemma write_agree f off bs a b : 0 <= off -> 0 <= a -> b <= zlength f -> b <= off \/ off + zlength bs <= a ->
  agree f (write_all_at f off bs) a b.
Proof.
  intros Ho Ha Hb Hd i Hi. destruct (decide (bs = [])) as [->|Hn]; [done|].
  rewrite zlookup_write by (done || lia).
  destruct (Z.ltb_spec i off), (Z.ltb_spec i (zlength f)), (Z.ltb_spec i (off + zlength bs)); (done || lia).
Qed.

Lemma set_len_agree f n a b : 0 <= a -> b <= n -> b <= zlength f -> agree f (set_len f n) a b.
Proof.
  intros Ha Hb Hl i Hi. rewrite zlookup_set_len by lia.
  destruct (Z.ltb_spec i n), (Z.ltb_spec i (zlength f)); (done || lia).
Qed.

(** ** Synchronization and crashes *)

(** A file together with the contents it had since it was last synchronized:
    the disk may hold any of them, in part. *)
Record VFile := { now : File; unsynced : list File }.
Definition synced (f : File) : VFile := {| now := f; unsynced := [] |}.

(** Change the contents without synchronizing. *)
Definition vupdate (v : VFile) (f : File) : VFile := {| now := f; unsynced := now v :: unsynced v |}.
(** [sync_data] that succeeded. *)
Definition vsync (v : VFile) : VFile := synced (now v).

Definition versions (v : VFile) : list File := now v :: unsynced v.

(** What a crash may leave: every byte is that of some version, independently,
    and the file is not shorter than all of the versions. *)
Definition crash_file (v : VFile) (f : File) : Prop :=
  (exists g, g ∈ versions v /\ zlength g <= zlength f) /\
  forall i, (forall g, g ∈ versions v -> 0 <= i < zlength g) ->
    exists g, g ∈ versions v /\ zlookup f i = zlookup g i.

Lemma crash_length v f n : (forall g, g ∈ versions v -> n <= zlength g) -> crash_file v f -> n <= zlength f.
Proof. intros Hn [(g & Hg & Hl) _]. specialize (Hn g Hg). lia. Qed.

(** Where all versions agree, the crash leaves what they agree on. *)
Lemma crash_agree v f b a : 0 <= a -> (forall g, g ∈ versions v -> b <= zlength g /\ agree (now v) g a b) ->
  crash_file v f -> agree (now v) f a b.
Proof.
  intros Ha Hv [_ Hc] i Hi. destruct (Hc i) as (g & Hg & E).
  - intros g Hg. destruct (Hv g Hg). lia.
  - destruct (Hv g Hg) as [_ Hag]. by rewrite E, Hag.
Qed.

End Files.
