(* ===== verification/Udata.v ===== *)
(** Leaf data and compact block proofs ([src/src/udata.rs]): the leaves that a
    block creates, what the accumulator commits to about each of them, and the
    byte format of the proof that the bridge stores and serves for a block. *)

From S2P Require Import Prelude Bytes JournalEntry SteadyState Accumulator.
Import JournalEntry.JournalEntry SteadyState.SteadyState.

(** The primitives of the [bitcoin] crate.  [VarInt] is the compact size of the
    protocol; [Box<[u8]>] and [ScriptBuf] are its length followed by the bytes,
    up to the crate's allocation limit; [u8], [u32], [u64] and hashes are their
    little-endian or raw bytes ([take_le], [take_exact]). *)
Class BitcoinCodec := {
  varint_encode : Z -> bytes;
  varint_decode : reader Z;
  varint_codec : codec_ok is_u64 varint_encode varint_decode;
  varint_u8 : forall x, 0 <= x <= 252 -> varint_encode x = [x];
  varint_u16 : forall x, 253 <= x <= 65535 -> varint_encode x = 253 :: le_bytes 2 x;
  varint_u32 : forall x, 65536 <= x <= 4294967295 -> varint_encode x = 254 :: le_bytes 4 x;
  varint_u64 : forall x, 4294967296 <= x < 2 ^ 64 -> varint_encode x = 255 :: le_bytes 8 x;
  boxed_limit : Z;
  boxed_decode : reader bytes;
  boxed_codec : codec_ok (fun b => bytes_ok b /\ zlength b <= boxed_limit)
    (fun b => varint_encode (zlength b) ++ b) boxed_decode;
  (** standard script templates *)
  is_p2pkh : bytes -> bool;
  is_p2sh : bytes -> bool;
  is_p2wpkh : bytes -> bool;
  is_p2wsh : bytes -> bool
}.

(** [sha2]'s SHA-512/256. *)
Class Sha512_256 := sha512_256 : bytes -> bytes.

Module Udata.
Section Udata.
Context `{BitcoinCodec}.

Definition box_encode (b : bytes) : bytes := varint_encode (zlength b) ++ b.

(** ** Data *)

Record LeafContext := {
  lc_block_hash : bytes;
  lc_txid : bytes;
  lc_vout : Z;
  value : Z;
  pk_script : bytes;
  block_height : Z;
  is_coinbase : bool
}.

Inductive ScriptPubkeyType :=
| Other (script : bytes)
| PubKeyHash
| WitnessV0PubKeyHash
| ScriptHash
| WitnessV0ScriptHash.

Record CompactLeafData := { header_code : Z; amount : Z; spk_ty : ScriptPubkeyType }.

Record BatchProof := { targets : list Z; hashes : list bytes }.
Record CompactBlockProof := { proof : BatchProof; leaves : list CompactLeafData }.

(** [(height << 1) | u32::from(is_coinbase)] *)
Definition header_code_of (height : Z) (is_coinbase : bool) : Z :=
  Z.lor (shl 32 height 1) (Z.b2z is_coinbase).

(** [CompactLeafData::from(&LeafContext)] *)
Definition compact_leaf (leaf : LeafContext) : CompactLeafData :=
  {| header_code := header_code_of (block_height leaf) (is_coinbase leaf);
     amount := value leaf;
     spk_ty :=
       if is_p2pkh (pk_script leaf) then PubKeyHash
       else if is_p2sh (pk_script leaf) then ScriptHash
       else if is_p2wpkh (pk_script leaf) then WitnessV0PubKeyHash
       else if is_p2wsh (pk_script leaf) then WitnessV0ScriptHash
       else Other (pk_script leaf) |}.

(** ** Encoding *)

Definition encode_spk (t : ScriptPubkeyType) : bytes :=
  match t with
  | Other script => 0 :: box_encode script
  | PubKeyHash => [1]
  | WitnessV0PubKeyHash => [2]
  | ScriptHash => [3]
  | WitnessV0ScriptHash => [4]
  end.

Definition parse_failed : string := "Invalid script type".

Definition decode_spk : reader ScriptPubkeyType :=
  ty ← take_le ended 1;
  if ty =? 0 then script ← boxed_decode; mret (Other script)
  else if ty =? 1 then mret PubKeyHash
  else if ty =? 2 then mret WitnessV0PubKeyHash
  else if ty =? 3 then mret ScriptHash
  else if ty =? 4 then mret WitnessV0ScriptHash
  else reader_fail parse_failed.

Definition encode_leaf (leaf : CompactLeafData) : bytes :=
  le_bytes 4 (header_code leaf) ++ le_bytes 8 (amount leaf) ++ encode_spk (spk_ty leaf).

Definition decode_leaf : reader CompactLeafData :=
  header_code ← take_le ended 4;
  amount ← take_le ended 8;
  spk_ty ← decode_spk;
  mret {| header_code := header_code; amount := amount; spk_ty := spk_ty |}.

Definition MAX_COMPACT_PROOF_BYTES : Z := 512 * 1024 * 1024.

Definition decode_items {A} (minimum_item_bytes : Z) (decode : reader A) : reader (list A) :=
  count ← varint_decode;
  let maximum := MAX_COMPACT_PROOF_BYTES / minimum_item_bytes in
  reader_require (negb (maximum <? count)) "oversized vector allocation";;
  reader_repeat (Z.to_nat count) decode.

Definition encode_items {A} (encode : A -> bytes) (l : list A) : bytes :=
  varint_encode (zlength l) ++ enc_list encode l.

Definition encode_proof (p : CompactBlockProof) : bytes :=
  encode_items varint_encode (targets (proof p)) ++ encode_items id (hashes (proof p))
  ++ encode_items encode_leaf (leaves p).

Definition decode_proof : reader CompactBlockProof :=
  targets ← decode_items 1 varint_decode;
  hashes ← decode_items 32 (take_exact ended 32);
  leaves ← decode_items 13 decode_leaf;
  mret {| proof := {| targets := targets; hashes := hashes |}; leaves := leaves |}.

(** ** Well-formed values *)

Definition boxed_ok (b : bytes) : Prop := bytes_ok b /\ zlength b <= boxed_limit.
Definition spk_ok (t : ScriptPubkeyType) : Prop :=
  match t with Other script => boxed_ok script | _ => True end.
Definition leaf_ok (l : CompactLeafData) : Prop :=
  is_u32 (header_code l) /\ is_u64 (amount l) /\ spk_ok (spk_ty l).
Definition items_ok {A} (wf : A -> Prop) (minimum : Z) (l : list A) : Prop :=
  Forall wf l /\ zlength l <= MAX_COMPACT_PROOF_BYTES / minimum.
Definition proof_ok (p : CompactBlockProof) : Prop :=
  items_ok is_u64 1 (targets (proof p)) /\ items_ok hash_ok 32 (hashes (proof p))
  /\ items_ok leaf_ok 13 (leaves p).

#[export] Instance boxed_ok_dec b : Decision (boxed_ok b).
Proof. unfold boxed_ok. apply _. Defined.
#[export] Instance spk_ok_dec t : Decision (spk_ok t).
Proof. destruct t; cbn; apply _. Defined.
#[export] Instance leaf_ok_dec l : Decision (leaf_ok l).
Proof. unfold leaf_ok. apply _. Defined.
#[export] Instance proof_ok_dec p : Decision (proof_ok p).
Proof. unfold proof_ok, items_ok. apply _. Defined.

(** ** The codecs *)

Lemma byte_read b rest : is_u8 b -> take_le ended 1 (b :: rest) = Ok (b, rest).
Proof.
  intros Hb. change (b :: rest) with ([b] ++ rest).
  assert (le_bytes 1 b = [b]) as <- by (cbn; rewrite Z.mod_small by (apply Hb); done).
  by apply (dec_enc (take_le_codec ended 1)).
Qed.

Lemma byte_enc b : is_u8 b -> le_bytes 1 b = [b].
Proof. intros Hb. cbn. rewrite Z.mod_small by apply Hb. done. Qed.

Lemma spk_codec : codec_ok spk_ok encode_spk decode_spk.
Proof.
  split.
  - intros t rest Ht. unfold decode_spk.
    destruct t; cbn [encode_spk app]; (erewrite reader_bind_step by (apply byte_read; by_decide)); [|done..].
    cbn [Z.eqb Pos.eqb]. by erewrite reader_bind_step by apply (dec_enc boxed_codec _ _ Ht).
  - intros bs t rest Hbs Ht. unfold decode_spk in Ht. inv_reader. unread_step (take_le_codec ended 1).
    rewrite byte_enc by done.
    destruct (Z.eqb_spec x 0) as [->|]; [inv_reader; by unread_step boxed_codec|].
    repeat (match goal with H : (if ?b =? ?n then _ else _) _ = Ok _ |- _ =>
      destruct (Z.eqb_spec b n) as [->|]; [inv_reader; done|] end). inv_reader.
  - intros t Ht. destruct t; cbn [encode_spk]; apply bytes_ok_cons; (split; [by_decide|]); try done.
    by apply (enc_bytes boxed_codec).
Qed.

Lemma leaf_codec : codec_ok leaf_ok encode_leaf decode_leaf.
Proof.
  split.
  - intros [hc am ty] rest (Hh & Ha & Ht). unfold decode_leaf, encode_leaf. cbn [header_code amount spk_ty] in *.
    read_step (take_le_codec ended 4). read_step (take_le_codec ended 8). read_step spk_codec. done.
  - intros bs l rest Hbs Hl. unfold decode_leaf in Hl. inv_reader.
    unread_step (take_le_codec ended 4). unread_step (take_le_codec ended 8). unread_step spk_codec.
    split; [unfold encode_leaf; by rewrite <- !app_assoc|done].
  - intros l (_ & _ & Ht). unfold encode_leaf. rewrite !bytes_ok_app. split_and!; auto. by apply (enc_bytes spk_codec).
Qed.

Lemma items_codec {A} (wf : A -> Prop) enc dec minimum : 0 < minimum -> codec_ok wf enc dec ->
  codec_ok (items_ok wf minimum) (encode_items enc) (decode_items minimum dec).
Proof.
  intros Hm Hc. assert (MAX_COMPACT_PROOF_BYTES / minimum < 2 ^ 64) as Hmax.
  { apply Z.div_lt_upper_bound; [done|]. unfold MAX_COMPACT_PROOF_BYTES. lia. }
  split.
  - intros l rest [Hl Hn]. unfold decode_items, encode_items. rewrite <- app_assoc.
    erewrite reader_bind_step by (apply (dec_enc varint_codec); pose proof (zlength_nonneg l); split; lia).
    erewrite reader_bind_step by (apply reader_require_true; by rewrite (proj2 (Z.ltb_ge _ _))).
    unfold zlength. rewrite Nat2Z.id. by eapply reader_repeat_enc.
  - intros bs l rest Hbs Hl. unfold decode_items in Hl. inv_reader. unread_step varint_codec.
    match goal with H : negb _ = true |- _ => apply negb_true_iff, Z.ltb_ge in H; rename H into Hle end.
    match goal with H : reader_repeat _ _ _ = Ok _ |- _ => eapply reader_repeat_dec in H as (-> & Hwf & Hlen); [|done..] end.
    assert (x = zlength l) as -> by (unfold zlength; rewrite Hlen; unfold is_uint in *; lia).
    split; [unfold encode_items; by rewrite <- app_assoc|by split].
  - intros l [Hl Hn]. unfold encode_items. apply bytes_ok_app. pose proof (zlength_nonneg l).
    split; [apply (enc_bytes varint_codec); split; lia|by eapply bytes_ok_enc_list].
Qed.

Lemma proof_codec : codec_ok proof_ok encode_proof decode_proof.
Proof.
  pose proof (items_codec is_u64 varint_encode varint_decode 1 ltac:(lia) varint_codec) as Ht.
  pose proof (items_codec hash_ok id (take_exact ended 32) 32 ltac:(lia) (take_exact_codec ended 32)) as Hh.
  pose proof (items_codec leaf_ok encode_leaf decode_leaf 13 ltac:(lia) leaf_codec) as Hl.
  split.
  - intros [[ts hs] ls] rest (H1 & H2 & H3). unfold decode_proof, encode_proof. cbn [proof targets hashes leaves] in *.
    read_step Ht. read_step Hh. read_step Hl. done.
  - intros bs p rest Hbs Hp. unfold decode_proof in Hp. inv_reader. unread_step Ht. unread_step Hh. unread_step Hl.
    split; [unfold encode_proof; by rewrite <- !app_assoc|done].
  - intros p (H1 & H2 & H3). unfold encode_proof. rewrite !bytes_ok_app.
    split_and!; [by apply (enc_bytes Ht)|by apply (enc_bytes Hh)|by apply (enc_bytes Hl)].
Qed.
End Udata.

(** ** What the accumulator commits to *)

Section Leaves.
Context `{BitcoinCodec} `{Sha512_256} `{NodeHashing}.

Definition UTREEXO_TAG_V1 : bytes :=
  [0x5b; 0x83; 0x2d; 0xb8; 0xca; 0x26; 0xc2; 0x5b; 0xe1; 0xc5; 0x42; 0xd6; 0xcc; 0xed; 0xdd;
   0xa8; 0xc1; 0x45; 0x61; 0x5c; 0xff; 0x5c; 0x35; 0x72; 0x7f; 0xb3; 0x46; 0x26; 0x10; 0x80;
   0x7e; 0x20; 0xae; 0x53; 0x4d; 0xc3; 0xf6; 0x42; 0x99; 0x19; 0x99; 0x31; 0x77; 0x2e; 0x03;
   0x78; 0x7d; 0x18; 0x15; 0x6e; 0xb3; 0x15; 0x1e; 0x0e; 0xd1; 0xb3; 0x09; 0x8b; 0xdc; 0x84;
   0x45; 0x86; 0x18; 0x85].

(** [BitcoinLeafData]; [utxo] is its value and script. *)
Record LeafData := {
  block_hash : bytes;
  prevout : OutPoint;
  ld_header_code : Z;
  utxo_value : Z;
  script_pubkey : bytes
}.

(** [BitcoinLeafData::from(LeafContext)] *)
Definition leaf_data (leaf : LeafContext) : LeafData :=
  {| block_hash := lc_block_hash leaf;
     prevout := {| txid := lc_txid leaf; vout := lc_vout leaf |};
     ld_header_code := header_code_of (block_height leaf) (is_coinbase leaf);
     utxo_value := value leaf;
     script_pubkey := pk_script leaf |}.

(** The compact size that [get_leaf_hash_from_parts] writes by hand. *)
Definition compact_size (value : Z) : bytes :=
  if value <=? 0xfc then [wrap 8 value]
  else if value <=? 0xffff then 0xfd :: le_bytes 2 (wrap 16 value)
  else if value <=? 0xffffffff then 0xfe :: le_bytes 4 (wrap 32 value)
  else 0xff :: le_bytes 8 value.

(** What is hashed: the argument of the digest. *)
Definition leaf_preimage (block_hash txid : bytes) (vout header_code value : Z) (script_pubkey : bytes) : bytes :=
  UTREEXO_TAG_V1 ++ UTREEXO_TAG_V1 ++ block_hash ++ txid ++ le_bytes 4 vout ++ le_bytes 4 header_code
  ++ le_bytes 8 value ++ compact_size (zlength script_pubkey) ++ script_pubkey.

Definition get_leaf_hash_from_parts (block_hash txid : bytes) (vout header_code value : Z)
    (script_pubkey : bytes) : BitcoinNodeHash :=
  hash_of_bytes (sha512_256 (leaf_preimage block_hash txid vout header_code value script_pubkey)).

Definition compute_hash (d : LeafData) : BitcoinNodeHash :=
  get_leaf_hash_from_parts (block_hash d) (txid (prevout d)) (vout (prevout d)) (ld_header_code d)
    (utxo_value d) (script_pubkey d).

Definition get_leaf_hashes (leaf : LeafContext) : BitcoinNodeHash := compute_hash (leaf_data leaf).

Definition encode_leaf_data (d : LeafData) : bytes :=
  block_hash d ++ txid (prevout d) ++ le_bytes 4 (vout (prevout d)) ++ le_bytes 4 (ld_header_code d)
  ++ le_bytes 8 (utxo_value d) ++ box_encode (script_pubkey d).

Definition decode_leaf_data : reader LeafData :=
  block_hash ← take_exact ended 32;
  txid ← take_exact ended 32;
  vout ← take_le ended 4;
  header_code ← take_le ended 4;
  value ← take_le ended 8;
  script ← boxed_decode;
  mret {| block_hash := block_hash; prevout := {| txid := txid; vout := vout |};
          ld_header_code := header_code; utxo_value := value; script_pubkey := script |}.

Definition leaf_data_ok (d : LeafData) : Prop :=
  hash_ok (block_hash d) /\ hash_ok (txid (prevout d)) /\ is_u32 (vout (prevout d)) /\
  is_u32 (ld_header_code d) /\ is_u64 (utxo_value d) /\ boxed_ok (script_pubkey d).

#[export] Instance leaf_data_ok_dec d : Decision (leaf_data_ok d).
Proof. unfold leaf_data_ok. apply _. Defined.

Lemma leaf_data_codec : codec_ok leaf_data_ok encode_leaf_data decode_leaf_data.
Proof.
  split.
  - intros [bh [t v] hc va sc] rest ([Hb _] & [Ht _] & Hv & Hc & Ha & Hs). unfold decode_leaf_data, encode_leaf_data.
    cbn [block_hash prevout txid vout ld_header_code utxo_value script_pubkey] in *. rewrite <- !app_assoc.
    erewrite reader_bind_step by (by apply take_exact_app). erewrite reader_bind_step by (by apply take_exact_app).
    read_step (take_le_codec ended 4). read_step (take_le_codec ended 4). read_step (take_le_codec ended 8).
    erewrite reader_bind_step by (apply (dec_enc boxed_codec); exact Hs). done.
  - intros bs d rest Hbs Hd. unfold decode_leaf_data in Hd. inv_reader.
    unread_step (take_le_codec ended 4). unread_step (take_le_codec ended 4). unread_step (take_le_codec ended 8).
    unread_step boxed_codec.
    split; [unfold encode_leaf_data, box_encode; cbn -[le_bytes]; by rewrite <- !app_assoc|]. unfold leaf_data_ok; cbn -[Z.of_nat]; split_and!; (done || by split).
  - intros d ([_ Hb] & [_ Ht] & _ & _ & _ & Hs). unfold encode_leaf_data. rewrite !bytes_ok_app.
    split_and!; auto. by apply (enc_bytes boxed_codec).
Qed.

(** The hand-written compact size is the protocol's. *)
Lemma compact_size_varint n : 0 <= n < 2 ^ 64 -> compact_size n = varint_encode n.
Proof.
  intros Hn. unfold compact_size.
  destruct (Z.leb_spec n 0xfc); [rewrite varint_u8, wrap_small by (split; lia); done|].
  destruct (Z.leb_spec n 0xffff); [rewrite varint_u16, wrap_small by (split; lia); done|].
  destruct (Z.leb_spec n 0xffffffff); [rewrite varint_u32, wrap_small by (split; lia); done|].
  by rewrite varint_u64 by lia.
Qed.

Lemma preimage_encode d : zlength (script_pubkey d) < 2 ^ 64 ->
  leaf_preimage (block_hash d) (txid (prevout d)) (vout (prevout d)) (ld_header_code d) (utxo_value d) (script_pubkey d)
    = UTREEXO_TAG_V1 ++ UTREEXO_TAG_V1 ++ encode_leaf_data d.
Proof.
  intros Hs. unfold leaf_preimage, encode_leaf_data, box_encode.
  rewrite compact_size_varint by (pose proof (zlength_nonneg (script_pubkey d)); lia). done.
Qed.

Lemma header_code_value height cb : 0 <= height < 2 ^ 31 -> header_code_of height cb = 2 * height + Z.b2z cb.
Proof.
  intros Hh. unfold header_code_of. rewrite shl_small by lia.
  rewrite (lor_add_disjoint height) by (destruct cb; cbn; lia). change (2 ^ 1) with 2. lia.
Qed.

Lemma header_code_u32 height cb : is_u32 (header_code_of height cb).
Proof.
  unfold header_code_of. assert (exists h, 0 <= h < 2 ^ 31 /\ shl 32 height 1 = h * 2 ^ 1) as (h & Hh & ->).
  { exists (height mod 2 ^ 31). split; [apply Z.mod_pos_bound; lia|]. unfold shl, wrap.
    rewrite Z.shiftl_mul_pow2 by lia. change (2 ^ 32) with (2 ^ 31 * 2 ^ 1). by rewrite Z.mul_mod_distr_r. }
  rewrite lor_add_disjoint by (destruct cb; cbn; lia). destruct cb; cbn [Z.b2z]; split; lia.
Qed.
End Leaves.

(** C37: the stored and served proof of a block loses nothing and has one accepted encoding:
    decoding the encoding of a well-formed proof, whatever follows it, gives the proof back, and
    bytes that decode are exactly the encoding of what they decode to, so an unknown script type,
    an oversized count or a non-minimal length is never accepted. *)
Theorem proof_codec_canonical `{BitcoinCodec} (p : CompactBlockProof) (bs rest : bytes) (Hbs : bytes_ok bs) :
  (proof_ok p -> decode_proof (encode_proof p ++ rest) = Ok (p, rest)) /\
  (decode_proof bs = Ok (p, rest) -> bs = encode_proof p ++ rest /\ proof_ok p).
Proof. split; intros Hp; [by apply (dec_enc proof_codec)|by apply (enc_dec proof_codec)]. Qed.

(** The leaf hash of an output is the hash of the tag twice and the consensus encoding of its
    leaf data, the compact size written by hand included, and the commitment is binding: two
    outputs with the same preimage have the same block, outpoint, value, script, coinbase flag
    and height, heights being below 2^31. *)
Theorem leaf_hash_commits `{BitcoinCodec} `{Sha512_256} `{NodeHashing} (l l' : LeafContext)
    (Hok : leaf_data_ok (leaf_data l)) (Hok' : leaf_data_ok (leaf_data l'))
    (Hh : 0 <= block_height l < 2 ^ 31) (Hh' : 0 <= block_height l' < 2 ^ 31)
    (Hlimit : boxed_limit < 2 ^ 64) :
  get_leaf_hashes l =
    hash_of_bytes (sha512_256 (UTREEXO_TAG_V1 ++ UTREEXO_TAG_V1 ++ encode_leaf_data (leaf_data l))) /\
  (encode_leaf_data (leaf_data l) = encode_leaf_data (leaf_data l') -> l = l').
Proof.
  split.
  - unfold get_leaf_hashes, compute_hash, get_leaf_hash_from_parts. rewrite preimage_encode; [done|].
    destruct Hok as (_ & _ & _ & _ & _ & _ & Hs). lia.
  - intros E. assert (leaf_data l = leaf_data l') as Ed.
    { pose proof (dec_enc leaf_data_codec _ [] Hok) as E1. pose proof (dec_enc leaf_data_codec _ [] Hok') as E2.
      rewrite E, E2 in E1. congruence. }
    destruct l as [bh t v va sc ht cb], l' as [bh' t' v' va' sc' ht' cb']. unfold leaf_data in Ed. cbn in *.
    injection Ed as -> -> -> Ec -> ->. rewrite !header_code_value in Ec by done.
    destruct cb, cb'; cbn in Ec; try lia; f_equal; lia.
Qed.
(** ** A concrete codec, for evaluating the model *)

Definition size_encode (x : Z) : bytes :=
  if x <=? 252 then [x]
  else if x <=? 65535 then 253 :: le_bytes 2 x
  else if x <=? 4294967295 then 254 :: le_bytes 4 x
  else 255 :: le_bytes 8 x.
Definition size_decode : reader Z :=
  tag ← take_le ended 1;
  if tag =? 253 then x ← take_le ended 2; reader_require (252 <? x) "non-minimal";; mret x
  else if tag =? 254 then x ← take_le ended 4; reader_require (65535 <? x) "non-minimal";; mret x
  else if tag =? 255 then x ← take_le ended 8; reader_require (4294967295 <? x) "non-minimal";; mret x
  else mret tag.

Lemma size_tag t rest : is_u8 t -> take_le ended 1 (t :: rest) = Ok (t, rest).
Proof. apply byte_read. Qed.

Lemma size_codec : codec_ok is_u64 size_encode size_decode.
Proof.
  split.
  - intros x rest [Hx0 Hx]. unfold size_encode, size_decode. repeat case_match; cbn [app];
      (erewrite reader_bind_step by (apply byte_read; split; lia)).
    + by rewrite !(proj2 (Z.eqb_neq x _)) by lia.
    + cbn [Z.eqb Pos.eqb]. erewrite reader_bind_step by (apply (dec_enc (take_le_codec ended 2)); split; lia).
      erewrite reader_bind_step by (apply reader_require_true; lia). done.
    + cbn [Z.eqb Pos.eqb]. erewrite reader_bind_step by (apply (dec_enc (take_le_codec ended 4)); split; lia).
      erewrite reader_bind_step by (apply reader_require_true; lia). done.
    + cbn [Z.eqb Pos.eqb]. erewrite reader_bind_step by (apply (dec_enc (take_le_codec ended 8)); split; lia).
      erewrite reader_bind_step by (apply reader_require_true; lia). done.
  - intros bs x rest Hbs H. unfold size_decode in H. inv_reader. unread_step (take_le_codec ended 1).
    match goal with H : is_uint _ ?t |- _ => rewrite byte_enc by done; destruct H as [Hx0 Hx1] end.
    cbn in Hx1. unfold size_encode.
    repeat (match goal with H : (if ?b =? ?n then _ else _) _ = Ok _ |- _ => destruct (Z.eqb_spec b n) as [->|] end);
      inv_reader.
    + unread_step (take_le_codec ended 2). match goal with H : is_uint _ ?t |- _ => destruct H as [Hy0 Hy1]; cbn in Hy1 end.
      match goal with H : (_ <? _) = true |- _ => apply Z.ltb_lt in H end.
      rewrite (proj2 (Z.leb_gt _ _)), (proj2 (Z.leb_le _ _)) by lia. split; [done|split; lia].
    + unread_step (take_le_codec ended 4). match goal with H : is_uint _ ?t |- _ => destruct H as [Hy0 Hy1]; cbn in Hy1 end.
      match goal with H : (_ <? _) = true |- _ => apply Z.ltb_lt in H end.
      rewrite !(proj2 (Z.leb_gt _ _)), (proj2 (Z.leb_le _ _)) by lia. split; [done|split; lia].
    + unread_step (take_le_codec ended 8). match goal with H : is_uint _ ?t |- _ => destruct H as [Hy0 Hy1]; cbn in Hy1 end.
      match goal with H : (_ <? _) = true |- _ => apply Z.ltb_lt in H end.
      rewrite !(proj2 (Z.leb_gt _ _)) by lia. split; [done|split; lia].
    + rewrite (proj2 (Z.leb_le _ _)) by lia. split; [done|split; lia].
  - intros x [Hx0 Hx]. unfold size_encode. repeat case_match; apply bytes_ok_cons; (split; [split; lia|auto]).
Qed.

Definition box_limit : Z := 4000000.
Definition size_boxed_decode : reader bytes :=
  n ← size_decode; reader_require (n <=? box_limit) "oversized";; take_exact ended (Z.to_nat n).

Lemma size_boxed_codec : codec_ok (fun b => bytes_ok b /\ zlength b <= box_limit)
  (fun b => size_encode (zlength b) ++ b) size_boxed_decode.
Proof.
  split.
  - intros b rest [Hb Hl]. unfold size_boxed_decode. rewrite <- app_assoc. pose proof (zlength_nonneg b).
    erewrite reader_bind_step by (apply (dec_enc size_codec); unfold box_limit in Hl; split; lia).
    erewrite reader_bind_step by (apply reader_require_true; lia). apply take_exact_app. unfold zlength. lia.
  - intros bs b rest Hbs H. unfold size_boxed_decode in H. inv_reader. unread_step size_codec.
    match goal with H : length b = _ |- _ => rename H into Hlen end.
    match goal with H : (_ <=? _) = true |- _ => apply Z.leb_le in H end.
    match goal with H : is_uint _ ?t |- _ => assert (t = zlength b) as -> by (unfold zlength; rewrite Hlen; destruct H; lia) end.
    split; [by rewrite <- app_assoc|done].
  - intros b [Hb Hl]. apply bytes_ok_app. split; [|done]. apply (enc_bytes size_codec).
    pose proof (zlength_nonneg b). unfold box_limit in Hl. split; lia.
Qed.

Definition toy_bitcoin : BitcoinCodec.
Proof.
  refine {| varint_encode := size_encode; varint_decode := size_decode; varint_codec := size_codec;
     boxed_limit := box_limit; boxed_decode := size_boxed_decode; boxed_codec := size_boxed_codec;
     is_p2pkh := fun s => zlength s =? 25; is_p2sh := fun s => zlength s =? 23;
     is_p2wpkh := fun s => zlength s =? 22; is_p2wsh := fun s => zlength s =? 34 |};
  intros x Hx; unfold size_encode.
  - by rewrite (proj2 (Z.leb_le _ _)) by lia.
  - by rewrite (proj2 (Z.leb_gt _ _)), (proj2 (Z.leb_le _ _)) by lia.
  - by rewrite !(proj2 (Z.leb_gt _ _)), (proj2 (Z.leb_le _ _)) by lia.
  - by rewrite !(proj2 (Z.leb_gt _ _)) by lia.
Defined.

Definition sample_proof : CompactBlockProof :=
  {| proof := {| targets := [3; 300; 70000; 2 ^ 63]; hashes := [replicate 32 1; replicate 32 2] |};
     leaves := [{| header_code := 7; amount := 5000; spk_ty := PubKeyHash |};
                {| header_code := 8; amount := 1; spk_ty := Other [81; 82] |}] |}.

Lemma proof_codec_canonical_witness :
  @decode_proof toy_bitcoin (@encode_proof toy_bitcoin sample_proof ++ [9]) = Ok (sample_proof, [9]).
Proof.
  apply (@proof_codec_canonical toy_bitcoin sample_proof [] [9]); [constructor|].
  by_decide.
Defined.

Definition sample_leaf_context : LeafContext :=
  {| lc_block_hash := replicate 32 1; lc_txid := replicate 32 2; lc_vout := 3; value := 5000;
     pk_script := [81]; block_height := 100; is_coinbase := true |}.

Lemma leaf_hash_commits_witness :
  @get_leaf_hashes (fun bs => bs) Accumulator.Accumulator.toy_hashing sample_leaf_context =
    UTREEXO_TAG_V1 ++ UTREEXO_TAG_V1 ++ @encode_leaf_data toy_bitcoin (leaf_data sample_leaf_context).
Proof.
  apply (@leaf_hash_commits toy_bitcoin (fun bs => bs) Accumulator.Accumulator.toy_hashing
           sample_leaf_context sample_leaf_context); [by_decide|by_decide|cbn; lia|cbn; lia|reflexivity].
Defined.
End Udata.
