(* ===== verification/JournalFile.v ===== *)
(** The write-ahead journal ([src/src/forest_journal.rs]): records appended to a
    file without synchronization, published prefixes behind two alternating
    checksummed markers, recovery of exactly the published prefix, rollback
    status, discarding and pruning, clean-shutdown marker and legacy import.
    The theorems are in [JournalRecord], [JournalSafety] and [JournalImport]. *)

From S2P Require Import Prelude Bytes Files Positions JournalEntry SteadyState Udata.
Import Files.Files JournalEntry.JournalEntry SteadyState.

(** The [bitcoin] crate's block header: its consensus encoding, its hash and the
    hash of its parent. *)
Class HeaderCodec := {
  Header : Type;
  header_encode : Header -> bytes;
  header_decode : reader Header;
  header_codec : codec_ok (fun _ => True) header_encode header_decode;
  header_block_hash : Header -> bytes;
  prev_blockhash : Header -> bytes
}.

Module JournalFile.

Definition str_bytes (s : string) : bytes :=
  (fun c => Z.of_N (Ascii.N_of_ascii c)) <$> String.list_ascii_of_string s.

Definition RECORD_MAGIC : bytes := str_bytes "BRJNL001".
Definition PRUNED_MAGIC : bytes := str_bytes "PRUNED01".
Definition RECORD_TRAILER : bytes := str_bytes "ENDJNL01".
Definition LEGACY_RECORD_VERSION : Z := 1.
Definition REPLAY_RECORD_VERSION : Z := 2.
Definition RECORD_VERSION : Z := 3.
Definition RECORD_HEADER_SIZE : Z := 64.
Definition STATUS_OFFSET : Z := 10.
Definition WAL_MAGIC : bytes := str_bytes "BRWAL002".
Definition PUBLICATION_MAGIC : bytes := str_bytes "BRPUB001".
Definition PUBLICATION_SLOT_SIZE : Z := 4096.
Definition PUBLICATION_BYTES : Z := 172.
Definition MAX_RECORD_BYTES : Z := 512 * 1024 * 1024.
Definition CLEAN_SHUTDOWN_MARKER : bytes := str_bytes "BRJNL-CLEAN-1".

Definition align_up (value alignment : Z) : option Z :=
  a ← checked_sub alignment 1;
  value ← checked_add 64 value a;
  Some (value / alignment * alignment).

(** [&bytes[a..b]] *)
Definition slice (bs : bytes) (a b : Z) : bytes := ztake (b - a) (zdrop a bs).
(** [uN::from_le_bytes(bytes[a..b])] *)
Definition field (bs : bytes) (a b : Z) : Z := le_value (slice bs a b).
Definition byte_at (bs : bytes) (i : Z) : Z := default 0 (zlookup bs i).

(** [partition_point] of a list on which [p] holds for a prefix. *)
Fixpoint partition_point {A} (p : A -> bool) (l : list A) : nat :=
  match l with
  | a :: l => if p a then S (partition_point p l) else 0
  | [] => 0
  end.

Record JournalBoundary := {
  jb_journal_id : bytes;
  jb_epoch : Z;
  jb_end : Z;
  jb_offset : Z;
  jb_height : Z;
  jb_block_hash : bytes;
  jb_checksum : bytes
}.

#[export] Instance JournalBoundary_eq_dec : EqDecision JournalBoundary.
Proof. solve_decision. Defined.

Record PublicationMarker := { generation : Z; replay_start : Z; boundary : JournalBoundary }.

#[export] Instance PublicationMarker_eq_dec : EqDecision PublicationMarker.
Proof. solve_decision. Defined.

Definition with_epoch (b : JournalBoundary) (e : Z) : JournalBoundary :=
  {| jb_journal_id := jb_journal_id b; jb_epoch := e; jb_end := jb_end b; jb_offset := jb_offset b;
     jb_height := jb_height b; jb_block_hash := jb_block_hash b; jb_checksum := jb_checksum b |}.

Definition empty_boundary (journal_id : bytes) (epoch page_size : Z) : JournalBoundary :=
  {| jb_journal_id := journal_id; jb_epoch := epoch; jb_end := page_size; jb_offset := 0;
     jb_height := 0; jb_block_hash := zeros 32; jb_checksum := zeros 32 |}.

Section Journal.
Context `{Sha256} `{BitcoinCodec} `{HeaderCodec}.

Record JournalReplayPayload := {
  rp_header : Header;
  rp_proof : Udata.Udata.CompactBlockProof;
  proof_forest_rows : Z
}.

Record JournalRecord := {
  jr_entry : JournalEntryData;
  jr_status : JournalStatus;
  jr_replay : option JournalReplayPayload;
  jr_offset : Z;
  jr_span : Z;
  jr_checksum : bytes
}.

Definition record_end (r : JournalRecord) : Z := jr_offset r + jr_span r.

Definition record_boundary (r : JournalRecord) (journal_id : bytes) (epoch : Z) : JournalBoundary :=
  {| jb_journal_id := journal_id; jb_epoch := epoch; jb_end := record_end r; jb_offset := jr_offset r;
     jb_height := height (jr_entry r); jb_block_hash := block_hash (jr_entry r);
     jb_checksum := jr_checksum r |}.

(** ** Reading records *)

Definition header_ok (header : bytes) (page_size off end_ : Z) : result unit :=
  require (bool_decide (slice header 0 8 = RECORD_MAGIC)) "invalid published journal magic";;
  let version := field header 8 10 in
  require ((version =? LEGACY_RECORD_VERSION) || (version =? REPLAY_RECORD_VERSION) || (version =? RECORD_VERSION))
    "unsupported journal version";;
  status_from_byte (byte_at header 10);;
  let span := field header 16 24 in
  let payload_len := field header 24 32 in
  require (negb ((MAX_RECORD_BYTES <? payload_len)
      || negb (bool_decide (align_up (RECORD_HEADER_SIZE + payload_len + 8) page_size = Some span))
      || match checked_add 64 off span with None => true | Some record_end => end_ <? record_end end))
    "invalid published journal span".

Definition read_record_header (f : File) (page_size off end_ : Z) : result bytes :=
  header ← ok_or "published journal header is truncated" (read_exact_at f off RECORD_HEADER_SIZE);
  header_ok header page_size off end_;;
  trailer ← ok_or "published journal trailer is truncated"
    (read_exact_at f (off + RECORD_HEADER_SIZE + field header 24 32) 8);
  require (bool_decide (trailer = RECORD_TRAILER)) "invalid published journal trailer";;
  Ok header.

Definition mismatch : string := "journal replay header does not match its forest entry".

(** The payload of a record of format [version]. *)
Definition decode_payload (version : Z) (payload : bytes)
  : result (JournalEntryData * option JournalReplayPayload) :=
  if version =? LEGACY_RECORD_VERSION then
    entry ← decode_entry payload; Ok (entry, None)
  else
    '(entry_len, reader) ← take_u32 payload;
    '(entry_bytes, reader) ← take_exact "journal forest payload is truncated" (Z.to_nat entry_len) reader;
    entry ← decode_entry entry_bytes;
    require (negb ((version =? RECORD_VERSION) && bool_decide (forest_rows entry = None)))
      "journal replay is missing its physical forest layout";;
    '(header, reader) ← header_decode reader;
    '(rows, reader) ← take_array 1 reader;
    let rows := default 0 (head rows) in
    require (negb (63 <? rows)) "invalid journal proof forest rows";;
    '(proof, reader) ← Udata.Udata.decode_proof reader;
    require (bool_decide (reader = [])) "journal replay payload has trailing bytes";;
    require (negb (negb (bool_decide (header_block_hash header = block_hash entry))
      || negb (bool_decide (prev_blockhash header = previous_block_hash entry)))) mismatch;;
    Ok (entry, Some {| rp_header := header; rp_proof := proof; proof_forest_rows := rows |}).

Definition read_record (f : File) (page_size off end_ : Z) : result JournalRecord :=
  header ← read_record_header f page_size off end_;
  payload ← ok_or "failed to fill whole buffer"
    (read_exact_at f (off + RECORD_HEADER_SIZE) (field header 24 32));
  let checksum := sha256 payload in
  require (bool_decide (checksum = slice header 32 64)) "published journal checksum mismatch";;
  '(entry, replay) ← decode_payload (field header 8 10) payload;
  status ← status_from_byte (byte_at header 10);
  Ok {| jr_entry := entry; jr_status := status; jr_replay := replay; jr_offset := off;
        jr_span := field header 16 24; jr_checksum := checksum |}.

(** The bytes that the digest loop of [validate_boundary] consumes, 64 KiB at a
    time; digesting them one buffer after the other is digesting them all. *)
Fixpoint read_chunks (fuel : nat) (f : File) (start read payload_len : Z) : result bytes :=
  if read <? payload_len then
    match fuel with
    | O => Err out_of_fuel
    | S fuel =>
        let count := Z.min (payload_len - read) (64 * 1024) in
        chunk ← ok_or "failed to fill whole buffer" (read_exact_at f (start + read) count);
        rest ← read_chunks fuel f start (read + count) payload_len;
        Ok (chunk ++ rest)
    end
  else Ok [].

Definition validate_boundary (f : File) (page_size : Z) (b : JournalBoundary) : result unit :=
  header ← read_record_header f page_size (jb_offset b) (jb_end b);
  let span := field header 16 24 in
  require (negb (negb (jb_offset b + span =? jb_end b)
                 || negb (bool_decide (slice header 32 64 = jb_checksum b))))
    "publication boundary does not match its complete record";;
  let payload_len := field header 24 32 in
  bs ← read_chunks (S (Z.to_nat (payload_len / (64 * 1024)))) f (jb_offset b + RECORD_HEADER_SIZE) 0 payload_len;
  require (bool_decide (sha256 bs = jb_checksum b)) "publication boundary record checksum mismatch";;
  let version := field header 8 10 in
  let entry_offset := jb_offset b + RECORD_HEADER_SIZE + (if version =? LEGACY_RECORD_VERSION then 0 else 4) in
  identity ← ok_or "failed to fill whole buffer" (read_exact_at f entry_offset 44);
  require (negb (negb (bool_decide (slice identity 0 32 = jb_block_hash b))
                 || negb (field identity 40 44 =? jb_height b)))
    "publication boundary height or hash does not match its record".

Fixpoint scan_loop (fuel : nat) (f : File) (page_size off end_ : Z) : result (list JournalRecord) :=
  if off <? end_ then
    match fuel with
    | O => Err out_of_fuel
    | S fuel =>
        record ← read_record f page_size off end_;
        records ← scan_loop fuel f page_size (off + jr_span record) end_;
        Ok (record :: records)
    end
  else Ok [].

(** The boundary of the last record, or of the empty journal. *)
Definition last_boundary (records : list JournalRecord) (journal_id : bytes) (epoch page_size : Z)
  : JournalBoundary :=
  match last records with
  | None => empty_boundary journal_id epoch page_size
  | Some record => record_boundary record journal_id epoch
  end.

(** Each record spans at least a page, which bounds the number of rounds. *)
Definition scan_published (f : File) (page_size : Z) (m : PublicationMarker) : result (list JournalRecord) :=
  records ← scan_loop (S (Z.to_nat ((jb_end (boundary m) - replay_start m) / page_size))) f page_size
    (replay_start m) (jb_end (boundary m));
  require (bool_decide (last_boundary records (jb_journal_id (boundary m)) 0 page_size = boundary m))
    "published boundary does not match the final validated journal record";;
  Ok records.

Definition read_superblock (f : File) : result (Z * bytes) :=
  bs ← ok_or "journal initialization header is truncated" (read_exact_at f 0 96);
  require (negb (negb (bool_decide (slice bs 0 8 = WAL_MAGIC))
                 || negb (bool_decide (sha256 (slice bs 0 64) = slice bs 64 96))))
    "journal initialization header is corrupt";;
  let page_size := field bs 8 16 in
  require (negb (negb ((4096 <=? page_size) && (page_size <=? 65536))
                 || negb (Positions.Positions.is_power_of_two page_size)))
    "invalid journal page size";;
  Ok (page_size, slice bs 16 48).

(** ** Publication markers *)

Definition marker_body (m : PublicationMarker) : bytes :=
  let b := boundary m in
  PUBLICATION_MAGIC ++ jb_journal_id b ++ le_bytes 8 (generation m) ++ le_bytes 8 (replay_start m)
  ++ le_bytes 8 (jb_end b) ++ le_bytes 8 (jb_offset b) ++ le_bytes 4 (jb_height b)
  ++ jb_block_hash b ++ jb_checksum b.

Definition encode_publication_marker (m : PublicationMarker) : bytes :=
  marker_body m ++ sha256 (marker_body m).

(** Whether the bytes of a slot pass the checks before the [continue]. *)
Definition slot_valid (bs : bytes) (journal_id : bytes) : bool :=
  bool_decide (slice bs 0 8 = PUBLICATION_MAGIC) && bool_decide (slice bs 8 40 = journal_id)
  && bool_decide (sha256 (slice bs 0 140) = slice bs 140 172).

Definition decode_marker (bs journal_id : bytes) : PublicationMarker :=
  {| generation := field bs 40 48; replay_start := field bs 48 56;
     boundary := {| jb_journal_id := journal_id; jb_epoch := 0; jb_end := field bs 56 64;
                    jb_offset := field bs 64 72; jb_height := field bs 72 76;
                    jb_block_hash := slice bs 76 108; jb_checksum := slice bs 108 140 |} |}.

Definition marker_invalid (m : PublicationMarker) (slot page_size : Z) : bool :=
  let b := boundary m in
  negb (generation m mod 2 =? slot)
  || (replay_start m <? page_size)
  || negb (replay_start m mod page_size =? 0)
  || (jb_end b <? replay_start m)
  || negb (jb_end b mod page_size =? 0)
  || ((page_size <? jb_end b)
      && ((jb_offset b <? replay_start m) || (jb_end b <=? jb_offset b)
          || negb (jb_offset b mod page_size =? 0))).

(** One round of the loop of [read_publication_marker]. *)
Definition read_slot (f : File) (journal_id : bytes) (page_size slot : Z) : result (option PublicationMarker) :=
  match read_exact_at f (slot * PUBLICATION_SLOT_SIZE) PUBLICATION_BYTES with
  | None => Ok None
  | Some bs =>
      if slot_valid bs journal_id then
        let m := decode_marker bs journal_id in
        if marker_invalid m slot page_size then Err "invalid checksummed journal publication boundary"
        else Ok (Some m)
      else Ok None
  end.

Definition not_monotonic (older newer : PublicationMarker) : bool :=
  (jb_end (boundary newer) <? jb_end (boundary older))
  || (replay_start newer <? replay_start older)
  || ((jb_end (boundary newer) =? jb_end (boundary older))
      && negb (bool_decide (boundary newer = boundary older))).

Definition read_publication_marker (f : File) (journal_id : bytes) (page_size : Z) : result PublicationMarker :=
  first ← read_slot f journal_id page_size 0;
  second ← read_slot f journal_id page_size 1;
  match first, second with
  | Some first, Some second =>
      let '(older, newer) := if generation first <? generation second then (first, second) else (second, first) in
      require (negb (not_monotonic older newer)) "journal publication slots are not monotonic";;
      Ok newer
  | _, _ => ok_or "initialized journal has no valid publication marker"
              (match first with Some m => Some m | None => second end)
  end.

(** ** The journal *)

Record Journal := {
  file : VFile;
  marker_file : VFile;
  page_size : Z;
  journal_id : bytes;
  records : list JournalRecord;
  marker : PublicationMarker;
  appended_end : Z;
  published_end : Z;
  epoch : Z;
  poisoned : bool;
  needs_replay : bool
}.

Definition with_file (j : Journal) (v : VFile) : Journal :=
  {| file := v; marker_file := marker_file j; page_size := page_size j; journal_id := journal_id j;
     records := records j; marker := marker j; appended_end := appended_end j; published_end := published_end j;
     epoch := epoch j; poisoned := poisoned j; needs_replay := needs_replay j |}.
Definition with_marker_file (j : Journal) (v : VFile) : Journal :=
  {| file := file j; marker_file := v; page_size := page_size j; journal_id := journal_id j;
     records := records j; marker := marker j; appended_end := appended_end j; published_end := published_end j;
     epoch := epoch j; poisoned := poisoned j; needs_replay := needs_replay j |}.
Definition with_records (j : Journal) (rs : list JournalRecord) : Journal :=
  {| file := file j; marker_file := marker_file j; page_size := page_size j; journal_id := journal_id j;
     records := rs; marker := marker j; appended_end := appended_end j; published_end := published_end j;
     epoch := epoch j; poisoned := poisoned j; needs_replay := needs_replay j |}.
Definition with_marker (j : Journal) (m : PublicationMarker) (published : Z) : Journal :=
  {| file := file j; marker_file := marker_file j; page_size := page_size j; journal_id := journal_id j;
     records := records j; marker := m; appended_end := appended_end j; published_end := published;
     epoch := epoch j; poisoned := poisoned j; needs_replay := needs_replay j |}.
Definition with_appended (j : Journal) (e : Z) (ep : Z) : Journal :=
  {| file := file j; marker_file := marker_file j; page_size := page_size j; journal_id := journal_id j;
     records := records j; marker := marker j; appended_end := e; published_end := published_end j;
     epoch := ep; poisoned := poisoned j; needs_replay := needs_replay j |}.
Definition with_flags (j : Journal) (p n : bool) : Journal :=
  {| file := file j; marker_file := marker_file j; page_size := page_size j; journal_id := journal_id j;
     records := records j; marker := marker j; appended_end := appended_end j; published_end := published_end j;
     epoch := epoch j; poisoned := p; needs_replay := n |}.

Definition poison (j : Journal) : Journal := with_flags j true (needs_replay j).

Definition published_records (j : Journal) : list JournalRecord :=
  take (partition_point (fun r => record_end r <=? published_end j) (records j)) (records j).

Definition latest_forward (j : Journal) : option (nat * JournalRecord) :=
  last (filter (fun ir => jr_status ir.2 = Forward) (zip (seq 0 (length (published_records j))) (published_records j))).

Definition boundary_of (j : Journal) : JournalBoundary :=
  last_boundary (records j) (journal_id j) (epoch j) (page_size j).

(** The I/O of one operation: call number [n] succeeds when [io n].  A write or a
    flush that fails may still have taken effect, in whole or in part; changing
    the length fails without effect. *)
Definition Io := nat -> bool.
Definition io_failed : string := "input/output error".

Definition update_file (io : Io) (n : nat) (change : File -> File) : SR VFile unit := fun v =>
  (vupdate v (change (now v)), if io n then Ok tt else Err io_failed).
Definition set_file_len (io : Io) (n : nat) (len : Z) : SR VFile unit := fun v =>
  if io n then (vupdate v (set_len (now v) len), Ok tt) else (v, Err io_failed).
Definition sync_file (io : Io) (n : nat) : SR VFile unit := fun v =>
  if io n then (vsync v, Ok tt) else (v, Err io_failed).

Definition on_file {A} (m : SR VFile A) : SR Journal A := fun j =>
  let '(v, r) := m (file j) in (with_file j v, r).
Definition on_marker_file {A} (m : SR VFile A) : SR Journal A := fun j =>
  let '(v, r) := m (marker_file j) in (with_marker_file j v, r).

Definition record_header (version span payload_len : Z) (checksum : bytes) : bytes :=
  RECORD_MAGIC ++ le_bytes 2 version ++ [status_to_byte Forward] ++ zeros 5 ++ le_bytes 8 span
  ++ le_bytes 8 payload_len ++ checksum.

Definition write_record (io : Io) (page_size off : Z) (entry : JournalEntryData)
    (replay : option JournalReplayPayload) (payload : bytes) (version : Z) : SR VFile JournalRecord :=
  lift (require (negb (MAX_RECORD_BYTES <? zlength payload)) "journal entry is too large");;
  let used := RECORD_HEADER_SIZE + zlength payload + 8 in
  span ← lift (ok_or "journal span overflow" (align_up used page_size));
  end_ ← lift (ok_or "journal file length overflow" (checked_add 64 off span));
  let checksum := sha256 payload in
  let header := record_header version span (zlength payload) checksum in
  set_file_len io 0 end_;;
  update_file io 1 (fun f => write_all_at f off header);;
  update_file io 2 (fun f => write_all_at f (off + RECORD_HEADER_SIZE) payload);;
  update_file io 3 (fun f => write_all_at f (off + RECORD_HEADER_SIZE + zlength payload) RECORD_TRAILER);;
  mret {| jr_entry := entry; jr_status := Forward; jr_replay := replay; jr_offset := off;
          jr_span := span; jr_checksum := checksum |}.

Definition append_payload (io : Io) (entry : JournalEntryData) (replay : option JournalReplayPayload)
    (payload : bytes) (version : Z) : SR Journal unit :=
  j ← get;
  lift (require (negb (poisoned j)) "journal publication failed; reopen before appending");;
  let off := appended_end j in
  r ← try_ (on_file (write_record io (page_size j) off entry replay payload version));
  match r with
  | Err e =>
      t ← try_ (on_file (set_file_len io 4 off));
      match t with
      | Err _ => modify poison;; lift (Err e)
      | Ok _ => lift (Err e)
      end
  | Ok record =>
      modify (fun j => with_flags (with_appended (with_records j (records j ++ [record])) (record_end record) (epoch j))
                         (poisoned j) true)
  end.

Definition encode_payload (entry : JournalEntryData) (header : Header)
    (proof : Udata.Udata.CompactBlockProof) (proof_forest_rows : Z) : result bytes :=
  e ← encode_entry entry;
  entry_len ← ok_or "journal entry exceeds u32" (try_uint 32 (zlength e));
  Ok (le_bytes 4 entry_len ++ e ++ header_encode header ++ [proof_forest_rows] ++ Udata.Udata.encode_proof proof).

Definition append_block (io : Io) (entry : JournalEntryData) (header : Header)
    (proof : Udata.Udata.CompactBlockProof) (proof_forest_rows : Z) : SR Journal JournalBoundary :=
  lift (require (negb (bool_decide (forest_rows entry = None) || (63 <? proof_forest_rows)))
    "journal replay requires valid physical and proof forest layouts");;
  lift (require (negb (negb (bool_decide (header_block_hash header = block_hash entry))
                       || negb (bool_decide (prev_blockhash header = previous_block_hash entry)))) mismatch);;
  payload ← lift (encode_payload entry header proof proof_forest_rows);
  append_payload io entry
    (Some {| rp_header := header; rp_proof := proof; proof_forest_rows := proof_forest_rows |}) payload RECORD_VERSION;;
  j ← get;
  mret (boundary_of j).

Definition flush (io : Io) : SR Journal unit := on_file (sync_file io 0).

Definition discard_unpublished (io : Io) : SR Journal unit :=
  j ← get;
  lift (require (negb (poisoned j)) "cannot discard after a failed publication; reopen the journal");;
  let end_ := jb_end (boundary (marker j)) in
  on_file (set_file_len io 0 end_);;
  modify (fun j =>
    with_appended (with_records j (take (partition_point (fun r => record_end r <=? end_) (records j)) (records j)))
      end_ (wrap 64 (epoch j + 1))).

Definition set_status (r : JournalRecord) (s : JournalStatus) : JournalRecord :=
  {| jr_entry := jr_entry r; jr_status := s; jr_replay := jr_replay r; jr_offset := jr_offset r;
     jr_span := jr_span r; jr_checksum := jr_checksum r |}.

Definition mark_rolled_back (io : Io) (index : nat) : SR Journal unit :=
  j ← get;
  lift (require (negb (poisoned j)) "cannot roll back after a failed publication; reopen the journal");;
  lift (require (appended_end j =? published_end j) "discard unpublished entries before rolling back");;
  record ← lift (ok_or "journal record index is not published" (published_records j !! index));
  r ← try_ (on_file (update_file io 0 (fun f =>
              write_all_at f (jr_offset record + STATUS_OFFSET) [status_to_byte RolledBack]);;
            sync_file io 1));
  match r with
  | Err _ => modify poison;; lift (Err "failed to publish journal rollback status")
  | Ok _ => modify (fun j => with_flags (with_records j (<[index := set_status record RolledBack]> (records j)))
                               (poisoned j) true)
  end.

Definition write_publication_marker (io : Io) (n : nat) (m : PublicationMarker) : SR VFile unit :=
  update_file io n (fun f => write_all_at f (generation m mod 2 * PUBLICATION_SLOT_SIZE) (encode_publication_marker m));;
  sync_file io (S n).

(** [JournalPublisher::publish]; the publisher shares the journal's files and state. *)
Definition publish (io : Io) (b : JournalBoundary) : SR Journal unit :=
  j ← get;
  lift (require (negb (poisoned j)) "journal publication previously failed; reopen the journal");;
  let m := marker j in
  lift (require (negb (negb (bool_decide (jb_journal_id b = journal_id j)) || negb (jb_epoch b =? epoch j)
        || (jb_end b <? jb_end (boundary m)) || (appended_end j <? jb_end b)))
    "stale or invalid journal publication boundary");;
  if jb_end b =? jb_end (boundary m) then
    lift (require (bool_decide (with_epoch (boundary m) (jb_epoch b) = b))
      "journal publication boundary conflicts with the durable record")
  else
    lift (validate_boundary (now (file j)) (page_size j) b);;
    r ← try_ (
      on_file (sync_file io 0);;
      g ← lift (ok_or "publication generation overflow" (checked_add 64 (generation m) 1));
      let next := {| generation := g; replay_start := replay_start m; boundary := b |} in
      on_marker_file (write_publication_marker io 1 next);;
      modify (fun j => with_marker j next (jb_end b)));
    match r with
    | Err e => modify poison;; lift (Err e)
    | Ok _ => mret tt
    end.

Record JournalPrune := { pr_replay_start : Z; pr_count : nat }.

(** The index of the [keep]-th forward record from the end, if there is one. *)
Fixpoint prune_count (keep : Z) (rev_records : list JournalRecord) (forward : Z) : nat :=
  match rev_records with
  | [] => 0
  | record :: rest =>
      if decide (jr_status record = Forward) then
        if Z.max keep 1 <=? forward + 1 then length rest else prune_count keep rest (forward + 1)
      else prune_count keep rest forward
  end.

Definition prepare_prune (keep : Z) : SR Journal (option JournalPrune) :=
  j ← get;
  lift (require (negb (poisoned j)) "cannot prepare pruning after a failed publication; reopen the journal");;
  let count := prune_count keep (reverse (published_records j)) 0 in
  if (count =? 0)%nat then mret None
  else
    match published_records j !! count with
    | Some record =>
        modify (fun j => with_records j (drop count (records j)));;
        mret (Some {| pr_replay_start := jr_offset record; pr_count := count |})
    | None => lift (Err "index out of bounds")
    end.

(** [JournalPrune::finish].  [io 4] is the hole punch; [tolerated] says that its
    failure is one of the errors of a file system without holes. *)
Definition finish (io : Io) (tolerated : bool) (p : JournalPrune) : SR Journal nat :=
  j ← get;
  lift (require (negb (poisoned j)) "cannot prune after a failed publication; reopen the journal");;
  let m := marker j in
  if pr_replay_start p <=? replay_start m then mret (pr_count p)
  else
    lift (require (negb (jb_offset (boundary m) <? pr_replay_start p))
      "pruning would discard the published boundary record");;
    let old_start := replay_start m in
    g ← lift (ok_or "publication generation overflow" (checked_add 64 (generation m) 1));
    let next := {| generation := g; replay_start := pr_replay_start p; boundary := boundary m |} in
    r ← try_ (on_marker_file (write_publication_marker io 0 next));
    match r with
    | Err e => modify poison;; lift (Err e)
    | Ok _ =>
        modify (fun j => with_marker j next (published_end j));;
        g ← lift (ok_or "publication generation overflow" (checked_add 64 (generation next) 1));
        let again := {| generation := g; replay_start := replay_start next; boundary := boundary next |} in
        r ← try_ (on_marker_file (write_publication_marker io 2 again));
        match r with
        | Err e => modify poison;; lift (Err e)
        | Ok _ =>
            modify (fun j => with_marker j again (published_end j));;
            r ← try_ (on_file (update_file io 4 (fun f => punch_hole f old_start (pr_replay_start p - old_start))));
            match r with
            | Ok _ => mret (pr_count p)
            | Err _ => if tolerated then mret (pr_count p) else lift (Err "failed to reclaim pruned journal pages")
            end
        end
    end.

(** ** Importing a journal of the first format *)

Fixpoint scan_legacy_loop (fuel : nat) (f : File) (page_size off : Z) : result (list JournalRecord) :=
  match fuel with
  | O => Err out_of_fuel
  | S fuel =>
      if zlength f <=? off then Ok []
      else
        match read_exact_at f off RECORD_HEADER_SIZE with
        | None => Ok []
        | Some header =>
            if bool_decide (slice header 0 8 = zeros 8) then scan_legacy_loop fuel f page_size (off + page_size)
            else if bool_decide (slice header 0 8 = PRUNED_MAGIC) then
              let span := field header 16 24 in
              if (span =? 0) || negb (span mod page_size =? 0)
                 || match checked_add 64 off span with None => true | Some end_ => zlength f <? end_ end
              then Ok []
              else scan_legacy_loop fuel f page_size (off + span)
            else if negb (bool_decide (slice header 0 8 = RECORD_MAGIC)) then
              if off =? 0 then Err "unrecognized journal format; refusing legacy import" else Ok []
            else
              require (field header 8 10 =? LEGACY_RECORD_VERSION) "publication record without an initialization header";;
              match read_record f page_size off (zlength f) with
              | Ok record =>
                  records ← scan_legacy_loop fuel f page_size (off + jr_span record);
                  Ok (record :: records)
              | Err _ =>
                  let span := field header 16 24 in
                  if negb (span =? 0) && match checked_add 64 off span with Some end_ => end_ <? zlength f | None => false end
                  then Err "corrupt interior legacy journal record"
                  else Ok []
              end
        end
  end.

Definition scan_legacy (f : File) (page_size : Z) : result (list JournalRecord) :=
  scan_legacy_loop (S (Z.to_nat (zlength f / page_size + 1))) f page_size 0.

Definition superblock (page_size : Z) (journal_id : bytes) : bytes :=
  let head := WAL_MAGIC ++ le_bytes 8 page_size ++ journal_id ++ zeros 16 in head ++ sha256 head.

(** One round of the loop that copies the legacy records. *)
Definition import_record (page_size : Z) (acc : VFile * list JournalRecord) (legacy : JournalRecord)
  : result (VFile * list JournalRecord) :=
  let '(v, imported) := acc in
  payload ← encode_entry (jr_entry legacy);
  let end_ := jb_end (last_boundary imported [] 0 page_size) in
  match write_record (fun _ => true) page_size end_ (jr_entry legacy) None payload LEGACY_RECORD_VERSION v with
  | (v, Err e) => Err e
  | (v, Ok record) =>
      if decide (jr_status legacy = RolledBack) then
        Ok (vupdate v (write_all_at (now v) (jr_offset record + STATUS_OFFSET) [status_to_byte RolledBack]),
            imported ++ [set_status record RolledBack])
      else Ok (v, imported ++ [record])
  end.

(** The two files that [initialize_journal] builds, with a [journal_id] read from
    the random device. *)
Definition initialize_journal (page_size : Z) (journal_id : bytes) (legacy : File) : result (File * File) :=
  legacy_records ← scan_legacy legacy page_size;
  let temporary := write_all_at (set_len [] page_size) 0 (superblock page_size journal_id) in
  '(v, imported) ← foldM (import_record page_size) legacy_records (synced temporary, []);
  let b := last_boundary imported journal_id 0 page_size in
  let slot g := {| generation := g; replay_start := page_size; boundary := b |} in
  let marker_file := set_len [] (PUBLICATION_SLOT_SIZE * 2) in
  let marker_file := write_all_at marker_file 0 (encode_publication_marker (slot 0)) in
  let marker_file := write_all_at marker_file PUBLICATION_SLOT_SIZE (encode_publication_marker (slot 1)) in
  Ok (now v, marker_file).

(** ** Opening *)

(** What the directory holds: the journal and the files beside it. *)
Record Disk := {
  d_journal : option File;
  d_published : option File;
  d_initialize : option File;
  d_clean : option File;
  d_forest_rows : option File
}.

(** The part of [open] after initialization: superblock, marker, published
    records, and dropping everything after them. *)
Definition open_files (needs_replay : bool) (f fm : File) : result Journal :=
  '(page_size, journal_id) ← read_superblock f;
  m ← read_publication_marker fm journal_id page_size;
  let end_ := jb_end (boundary m) in
  require (negb (zlength f <? end_)) "published journal data is truncated";;
  records ← scan_published f page_size m;
  let v := if zlength f =? end_ then synced f else vupdate (synced f) (set_len f end_) in
  Ok {| file := v; marker_file := synced fm; page_size := page_size; journal_id := journal_id;
        records := records; marker := m; appended_end := end_; published_end := end_; epoch := 0;
        poisoned := false; needs_replay := needs_replay |}.


(** Whether the clean-shutdown marker is there and valid; it is removed. *)
Definition take_clean_shutdown_marker (clean : option File) : bool :=
  match clean with Some bs => bool_decide (bs = CLEAN_SHUTDOWN_MARKER) | None => false end.

Definition is_initialized (f : File) : bool :=
  match read_exact_at f 0 8 with Some magic => bool_decide (magic = WAL_MAGIC) | None => false end.

(** [page_size] and [journal_id] are the page size of the system and the random
    identity, used only when the journal is created.  Returns the journal and the
    files beside it. *)
Definition open (page_size : Z) (journal_id : bytes) (d : Disk) : result (Journal * Disk) :=
  let needs_replay := negb (take_clean_shutdown_marker (d_clean d)) in
  let f := default [] (d_journal d) in
  '(f, d) ←
    (if is_initialized f then Ok (f, d)
     else
       require (negb (bool_decide (is_Some (d_published d)) && negb (bool_decide (is_Some (d_initialize d)))))
         "publication journal is missing its initialization header";;
       '(f, fm) ← initialize_journal page_size journal_id f;
       Ok (f, {| d_journal := Some f; d_published := Some fm; d_initialize := None;
                 d_clean := d_clean d; d_forest_rows := d_forest_rows d |}));
  fm ← ok_or "initialized journal is missing its publication marker" (d_published d);
  j ← open_files needs_replay f fm;
  Ok (j, {| d_journal := Some f; d_published := d_published d; d_initialize := d_initialize d;
            d_clean := None; d_forest_rows := d_forest_rows d |}).

(** The clean marker to install once everything is durable. *)
Definition mark_clean_shutdown (j : Journal) : result File :=
  require (negb (poisoned j)) "cannot mark a failed publication clean; reopen the journal";;
  require (negb (negb (appended_end j =? published_end j))) "cannot mark an unpublished journal tail clean";;
  Ok CLEAN_SHUTDOWN_MARKER.

(** ** Binding legacy positions to a layout *)

Definition set_rows (rows : Z) (r : JournalRecord) : JournalRecord :=
  match forest_rows (jr_entry r) with
  | None => {| jr_entry := set_forest_rows (jr_entry r) (Some rows); jr_status := jr_status r; jr_replay := jr_replay r;
               jr_offset := jr_offset r; jr_span := jr_span r; jr_checksum := jr_checksum r |}
  | Some _ => r
  end.

Definition legacy_binding (journal_id : bytes) (rows : Z) : File :=
  let body := journal_id ++ [rows] in body ++ sha256 body.

(** [binding] is the [.forest-rows] file; the second result is the file afterwards. *)
Definition bind_legacy_forest_rows (binding : option File) (rows : Z) (j : Journal) : result (Journal * option File) :=
  require (negb (63 <? rows)) "invalid legacy forest rows";;
  if negb (existsb (fun r => bool_decide (forest_rows (jr_entry r) = None)) (records j)) then Ok (j, binding)
  else
    rows ← match binding with
           | Some bs =>
               require (negb (negb (zlength bs =? 65))) "invalid legacy forest layout binding length";;
               require (negb (negb (bool_decide (slice bs 0 32 = journal_id j)) || (63 <? byte_at bs 32)
                        || negb (bool_decide (sha256 (slice bs 0 33) = slice bs 33 65))))
                 "invalid legacy forest layout binding";;
               Ok (byte_at bs 32)
           | None => Ok rows
           end;
    Ok (with_records j (set_rows rows <$> records j),
        match binding with Some bs => Some bs | None => Some (legacy_binding (journal_id j) rows) end).

End Journal.
End JournalFile.
