(* ===== verification/JournalRecord.v ===== *)
(** Records of the journal file: when bytes of a file are a record, and that
    writing, reading, rolling back and scanning records agree. *)

From S2P Require Import Prelude Bytes Files Positions JournalEntry SteadyState Udata JournalFile.
Import Files.Files JournalEntry.JournalEntry SteadyState JournalFile.JournalFile.

(** SHA-256 digests are 32 bytes. *)
Class Sha256Laws `{Sha256} := sha256_hash_ok : forall bs, hash_ok (sha256 bs).

Module JournalRecord.

(** ** Slices *)

Lemma slice_all bs n : n = zlength bs -> slice bs 0 n = bs.
Proof. intros ->. unfold slice, ztake, zdrop, zlength. cbn. rewrite drop_0, take_ge by lia. done. Qed.

Lemma slice_app_l l1 l2 a b : 0 <= a -> b <= zlength l1 -> slice (l1 ++ l2) a b = slice l1 a b.
Proof.
  intros Ha Hb. unfold slice, ztake, zdrop, zlength in *. destruct (Z.le_gt_cases b a).
  { replace (Z.to_nat (b - a)) with 0%nat by lia. by rewrite !take_0. }
  rewrite drop_app_le by lia. rewrite take_app_le; [done|]. rewrite length_drop. lia.
Qed.

Lemma slice_app_r l1 l2 a b : zlength l1 <= a -> slice (l1 ++ l2) a b = slice l2 (a - zlength l1) (b - zlength l1).
Proof.
  intros Ha. unfold slice, ztake, zdrop, zlength in *. rewrite drop_app_ge by lia. f_equal; [lia|]. f_equal. lia.
Qed.

Lemma zlength_slice bs a b : 0 <= a <= b -> b <= zlength bs -> zlength (slice bs a b) = b - a.
Proof. intros Ha Hb. unfold slice. rewrite zlength_take, zlength_drop by lia. lia. Qed.

Lemma slice_slice bs a b c d : 0 <= c -> 0 <= a -> d <= b - a -> slice (slice bs a b) c d = slice bs (a + c) (a + d).
Proof.
  intros Hc Ha Hd. unfold slice, ztake, zdrop. rewrite skipn_firstn_comm || rewrite drop_take.
  rewrite take_take, drop_drop. f_equal; [lia|]. f_equal. lia.
Qed.

Lemma byte_app_r l1 l2 i : zlength l1 <= i -> byte_at (l1 ++ l2) i = byte_at l2 (i - zlength l1).
Proof. intros Hi. unfold byte_at. rewrite zlookup_app. destruct (Z.ltb_spec i (zlength l1)); [lia|done]. Qed.

Lemma field_le n x bs b : is_uint (8 * Z.of_nat n) x -> b = Z.of_nat n -> field (le_bytes n x ++ bs) 0 b = x.
Proof.
  intros Hx ->. unfold field. rewrite slice_app_l by (unfold zlength; rewrite ?length_le_bytes; lia).
  rewrite slice_all by (unfold zlength; by rewrite length_le_bytes). by apply le_value_le_bytes.
Qed.

(** The two pieces of a byte string. *)
Lemma stored_app f off l1 l2 : stored f off (l1 ++ l2) <-> stored f off l1 /\ stored f (off + zlength l1) l2.
Proof.
  pose proof (zlength_nonneg l1). pose proof (zlength_nonneg l2). unfold stored. rewrite zlength_app. split.
  - intros Hs. split; intros i Hi.
    + rewrite Hs by lia. apply zlookup_app_l. lia.
    + replace (off + zlength l1 + i) with (off + (zlength l1 + i)) by lia. rewrite Hs by lia.
      rewrite zlookup_app. destruct (Z.ltb_spec (zlength l1 + i) (zlength l1)); [lia|]. f_equal. lia.
  - intros [H1 H2] i Hi. rewrite zlookup_app. destruct (Z.ltb_spec i (zlength l1)); [apply H1; lia|].
    rewrite <- H2 by lia. f_equal. lia.
Qed.

Lemma align_up_Some v a s : align_up v a = Some s -> 1 <= a /\ v + a - 1 < 2 ^ 64 /\ 0 <= v + (a - 1) /\
  s = (v + (a - 1)) / a * a /\ v <= s /\ s mod a = 0.
Proof.
  unfold align_up. intros E. apply bind_Some in E as (x & Hx%checked_sub_Some & E).
  apply bind_Some in E as (y & Hy%checked_add_Some & E). injection E as <-. destruct Hx as [-> Ha], Hy as [-> [Hy0 Hy]].
  split_and!; [lia|lia|lia|done| |by apply Z.mod_mul; lia].
  pose proof (Z.div_mod (v + (a - 1)) a ltac:(lia)). pose proof (Z.mod_pos_bound (v + (a - 1)) a ltac:(lia)). lia.
Qed.

Section Record.
Context `{Sha256Laws} `{BitcoinCodec} `{HeaderCodec}.

(** ** Records on disk *)

(** The header and payload bytes of a record at [off]. *)
Record image (page_size : Z) (header payload : bytes) (r : JournalRecord) : Prop := {
  im_length : zlength header = RECORD_HEADER_SIZE;
  im_magic : slice header 0 8 = RECORD_MAGIC;
  im_version : field header 8 10 = LEGACY_RECORD_VERSION \/ field header 8 10 = REPLAY_RECORD_VERSION
               \/ field header 8 10 = RECORD_VERSION;
  im_status : status_from_byte (byte_at header 10) = Ok (jr_status r);
  im_span : jr_span r = field header 16 24;
  im_align : align_up (RECORD_HEADER_SIZE + zlength payload + 8) page_size = Some (jr_span r);
  im_u64 : is_u64 (record_end r);
  im_payload : zlength payload = field header 24 32;
  im_max : zlength payload <= MAX_RECORD_BYTES;
  im_sum : jr_checksum r = sha256 payload;
  im_checksum : slice header 32 64 = sha256 payload;
  im_decode : decode_payload (field header 8 10) payload = Ok (jr_entry r, jr_replay r)
}.

Definition on_disk (f : File) (page_size : Z) (r : JournalRecord) : Prop :=
  0 <= jr_offset r /\ exists header payload, image page_size header payload r /\
    stored f (jr_offset r) (header ++ payload ++ RECORD_TRAILER).

Lemma record_span page header payload r : image page header payload r ->
  zlength (header ++ payload ++ RECORD_TRAILER) <= jr_span r /\ 0 < jr_span r /\ jr_span r mod page = 0 /\ page <= jr_span r.
Proof.
  intros []. apply align_up_Some in im_align0 as (Ha & _ & _ & _ & Hle & Hm). rewrite !zlength_app, im_length0.
  pose proof (zlength_nonneg payload). change (zlength RECORD_TRAILER) with 8. unfold RECORD_HEADER_SIZE in *.
  split_and!; [lia|lia|done|]. apply Z.div_exact in Hm; [|lia].
  destruct (Z.le_gt_cases 1 (jr_span r / page)); nia.
Qed.

(** A record only depends on the bytes of its span. *)
Lemma on_disk_agree f g page r : on_disk f page r -> agree f g (jr_offset r) (record_end r) -> on_disk g page r.
Proof.
  intros (Ho & h & p & Him & Hs) Ha. split; [done|]. exists h, p. split; [done|].
  apply (stored_agree f); [done|]. eapply agree_sub; [exact Ha|lia|]. unfold record_end.
  pose proof (proj1 (record_span _ _ _ _ Him)). lia.
Qed.

Lemma on_disk_span f page r : on_disk f page r -> 0 < jr_span r /\ jr_span r mod page = 0 /\ page <= jr_span r /\ is_u64 (record_end r) /\ 0 <= jr_offset r.
Proof.
  intros (Ho & h & p & Him & _). destruct (record_span _ _ _ _ Him) as (_ & ? & ? & ?).
  split_and!; try done; by destruct Him.
Qed.

(** The checks on a header. *)
Record header_checks (header : bytes) (page off end_ : Z) : Prop := {
  hc_magic : slice header 0 8 = RECORD_MAGIC;
  hc_version : field header 8 10 = LEGACY_RECORD_VERSION \/ field header 8 10 = REPLAY_RECORD_VERSION
               \/ field header 8 10 = RECORD_VERSION;
  hc_status : exists s, status_from_byte (byte_at header 10) = Ok s;
  hc_max : field header 24 32 <= MAX_RECORD_BYTES;
  hc_align : align_up (RECORD_HEADER_SIZE + field header 24 32 + 8) page = Some (field header 16 24);
  hc_u64 : is_u64 (off + field header 16 24);
  hc_end : off + field header 16 24 <= end_
}.

Lemma header_ok_spec header page off end_ : header_ok header page off end_ = Ok tt <-> header_checks header page off end_.
Proof.
  unfold header_ok. split.
  - intros E. inv_ok. repeat match goal with H : bool_decide _ = true |- _ => apply bool_decide_eq_true in H end.
    match goal with H : negb _ = true |- _ => apply negb_true_iff in H; apply orb_false_iff in H as [Hb Hend];
      apply orb_false_iff in Hb as [Hmax Hal] end.
    apply negb_false_iff, bool_decide_eq_true in Hal.
    destruct (checked_add 64 off (field header 16 24)) as [e|] eqn:Ee; [|done]. apply checked_add_Some in Ee as [-> Hu].
    match goal with H : (_ || _ || _)%bool = true |- _ => rewrite !orb_true_iff, !Z.eqb_eq in H; rename H into Hv end.
    split; try done; try lia; by eexists.
  - intros [Hm Hv [st Hst] Hmax Hal Hu He].
    rewrite !bool_decide_eq_true_2 by done. step_ok.
    assert ((field header 8 10 =? LEGACY_RECORD_VERSION) || (field header 8 10 =? REPLAY_RECORD_VERSION)
      || (field header 8 10 =? RECORD_VERSION) = true) as -> by (rewrite !orb_true_iff, !Z.eqb_eq; tauto).
    step_ok. rewrite Hst. step_ok.
    rewrite (proj2 (Z.ltb_ge _ _)) by done. cbn [negb orb].
    assert (checked_add 64 off (field header 16 24) = Some (off + field header 16 24)) as -> by (by apply checked_add_Some).
    by rewrite (proj2 (Z.ltb_ge _ _)) by lia.
Qed.

Lemma read_header_spec f page off end_ header : 0 <= off ->
  read_record_header f page off end_ = Ok header <->
  zlength header = RECORD_HEADER_SIZE /\ stored f off header /\ header_checks header page off end_ /\
  read_exact_at f (off + RECORD_HEADER_SIZE + field header 24 32) 8 = Some RECORD_TRAILER.
Proof.
  intros Ho. unfold read_record_header. split.
  - intros E. inv_ok. repeat match goal with H : bool_decide _ = true |- _ => apply bool_decide_eq_true in H end. subst.
    match goal with H : read_exact_at f off _ = Some _ |- _ => apply read_stored in H as [? ?]; [|done|done] end.
    split_and!; [done|done|by apply header_ok_spec|done].
  - intros (Hl & Hs & Hc & Ht). rewrite <- Hl at 1. rewrite stored_read by (done || by intros ->).
    step_ok. rewrite (proj2 (header_ok_spec _ _ _ _) Hc). step_ok. rewrite Ht. step_ok.
    by rewrite bool_decide_eq_true_2 by done.
Qed.

Lemma read_record_on_disk f page off end_ r : 0 <= off ->
  read_record f page off end_ = Ok r <-> on_disk f page r /\ jr_offset r = off /\ record_end r <= end_.
Proof.
  intros Hoff. unfold read_record. split.
  - intros E. apply bind_ok in E as (header & Eh & E).
    apply read_header_spec in Eh as (Hl & Hs & Hc & Ht); [|done]. inv_ok.
    repeat match goal with H : bool_decide _ = true |- _ => apply bool_decide_eq_true in H end.
    match goal with H : decode_payload _ _ = Ok ?x |- _ => destruct x as [entry replay] end. inv_ok. subst r.
    match goal with H : read_exact_at f _ (field header 24 32) = Some ?p |- _ => rename p into payload; rename H into Ep end.
    assert (0 <= field header 24 32) as Hn by (unfold read_exact_at in Ep; case_bool_decide; [lia|done]).
    assert (stored f (off + RECORD_HEADER_SIZE) payload /\ zlength payload = field header 24 32) as [Hp Hlp].
    { destruct (decide (field header 24 32 = 0)) as [E0|].
      - rewrite E0 in *. unfold read_exact_at in Ep. case_bool_decide; [|done]. injection Ep as <-.
        change (ztake 0 ?l) with (@nil Z). split; [|done]. intros i Hi. change (zlength []) with 0 in Hi. lia.
      - apply read_stored; [unfold RECORD_HEADER_SIZE; lia|lia|done]. }
    apply read_stored in Ht as [Ht _]; [|unfold RECORD_HEADER_SIZE; lia|done]. destruct Hc.
    split_and!; [|done|unfold record_end; cbn; lia]. split; [done|]. exists header, payload. split.
    + split; cbn; (done || lia || by rewrite ?Hlp).
    + rewrite !stored_app, Hl, Hlp. cbn. done.
  - intros ((Ho & header & payload & [] & Hs) & Eo & He). rewrite !stored_app, im_length0 in Hs. destruct Hs as (Hs & Hp & Ht).
    subst off. unfold record_end in *.
    assert (read_record_header f page (jr_offset r) end_ = Ok header) as ->.
    { apply read_header_spec; [done|]. split_and!; [done|done| |].
      - split; try done; [by eexists|lia| |by rewrite <- im_span0|lia]. by rewrite <- im_payload0, <- im_span0.
      - rewrite <- im_payload0. apply (stored_read f _ RECORD_TRAILER); [|done|done].
        pose proof (zlength_nonneg payload). unfold RECORD_HEADER_SIZE. lia. }
    step_ok. rewrite <- im_payload0.
    assert (read_exact_at f (jr_offset r + RECORD_HEADER_SIZE) (zlength payload) = Some payload) as ->.
    { destruct (decide (payload = [])) as [->|]; [unfold read_exact_at; change (zlength []) with 0; by rewrite bool_decide_eq_true_2 by (split; [done|by left])|].
      apply stored_read; [unfold RECORD_HEADER_SIZE; lia|done|done]. }
    step_ok. rewrite im_checksum0, bool_decide_eq_true_2 by done. step_ok. rewrite im_decode0. step_ok.
    rewrite im_status0. step_ok. rewrite <- im_span0, <- im_sum0. by destruct r.
Qed.

(** ** Writing *)

Lemma length_checksum bs : zlength (sha256 bs) = 32.
Proof. unfold zlength. by rewrite (proj1 (sha256_hash_ok bs)). Qed.

Lemma record_header_fields version span len sum : is_u16 version -> is_u64 span -> is_u64 len -> zlength sum = 32 ->
  let h := record_header version span len sum in
  zlength h = 64 /\ slice h 0 8 = RECORD_MAGIC /\ field h 8 10 = version /\ byte_at h 10 = 0 /\
  field h 16 24 = span /\ field h 24 32 = len /\ slice h 32 64 = sum.
Proof.
  intros Hv Hs Hl Hsum h. assert (forall n x, zlength (le_bytes n x) = Z.of_nat n) as Hle.
  { intros. unfold zlength. by rewrite length_le_bytes. }
  assert (zlength RECORD_MAGIC = 8) as Hm by done. assert (zlength [status_to_byte Forward] = 1) as Hst by done.
  unfold h, record_header. split_and!.
  - rewrite !zlength_app, !Hle, Hsum, zlength_zeros, Hm, Hst. done.
  - rewrite slice_app_l by lia. by apply slice_all.
  - unfold field. rewrite slice_app_r by lia. rewrite Hm. by apply (field_le 2).
  - rewrite byte_app_r by lia. rewrite byte_app_r by (rewrite Hle; lia). rewrite Hle, Hm. done.
  - unfold field. do 4 (rewrite slice_app_r by (rewrite ?Hle, ?zlength_zeros, ?Hm, ?Hst; lia)). rewrite !Hle, zlength_zeros, Hm, Hst.
    by apply (field_le 8).
  - unfold field. do 5 (rewrite slice_app_r by (rewrite ?Hle, ?zlength_zeros, ?Hm, ?Hst; lia)). rewrite !Hle, zlength_zeros, Hm, Hst.
    by apply (field_le 8).
  - do 6 (rewrite slice_app_r by (rewrite ?Hle, ?zlength_zeros, ?Hm, ?Hst; lia)). rewrite !Hle, zlength_zeros, Hm, Hst. apply slice_all. lia.
Qed.

Lemma decode_encode_payload entry header proof rows payload :
  entry_ok entry -> forest_rows entry <> None -> Udata.Udata.proof_ok proof -> 0 <= rows <= 63 ->
  header_block_hash header = block_hash entry -> prev_blockhash header = previous_block_hash entry ->
  encode_payload entry header proof rows = Ok payload ->
  decode_payload RECORD_VERSION payload =
    Ok (entry, Some {| rp_header := header; rp_proof := proof; proof_forest_rows := rows |}).
Proof.
  intros He Hrows Hp Hr Hh Hprev E. unfold encode_payload in E.
  apply bind_ok in E as (eb & Hee & E). apply bind_ok in E as (n & Hn & E).
  apply ok_or_ok, try_uint_Some in Hn as [-> Hu].
  assert (payload = le_bytes 4 (zlength eb) ++ eb ++ header_encode header ++ [rows] ++ Udata.Udata.encode_proof proof)
    as -> by congruence.
  unfold decode_payload. change (RECORD_VERSION =? LEGACY_RECORD_VERSION) with false.
  change (RECORD_VERSION =? RECORD_VERSION) with true. cbv iota.
  unfold take_u32. rewrite (dec_enc (take_le_codec ended 4)) by done. step_ok.
  rewrite take_exact_app by (unfold zlength; lia). step_ok.
  assert (decode_entry eb = Ok entry) as ->.
  { destruct (encode_entry_roundtrip entry He) as (enc & Ee & _ & D). congruence. }
  step_ok. rewrite bool_decide_eq_false_2 by done. step_ok.
  rewrite (dec_enc header_codec) by done. step_ok.
  unfold take_array. rewrite (take_exact_app _ 1 [rows]) by done. step_ok. cbn [head default option_map].
  rewrite (proj2 (Z.ltb_ge _ _)) by (cbn; lia). step_ok.
  rewrite <- (app_nil_r (Udata.Udata.encode_proof proof)), (dec_enc Udata.Udata.proof_codec) by done. step_ok.
  rewrite Hh, Hprev, !bool_decide_eq_true_2 by done. done.
Qed.

(** Contents that only changed at or after [n] since [f]. *)
Definition keeps (f : File) (n : Z) (g : File) : Prop := n <= zlength g /\ agree f g 0 n.

Lemma keeps_refl f n : n <= zlength f -> keeps f n f.
Proof. by split. Qed.
Lemma keeps_trans f g h n : keeps f n g -> keeps g n h -> keeps f n h.
Proof. intros [_ Hfg] [Hl Hgh]. split; [done|by eapply agree_trans]. Qed.
Lemma keeps_write f n off bs : 0 <= n <= off -> n <= zlength f -> keeps f n (write_all_at f off bs).
Proof.
  intros Hn Hl. split.
  - destruct (decide (bs = [])) as [->|Hb]; [done|]. rewrite zlength_write by (done || lia). lia.
  - apply write_agree; lia.
Qed.
Lemma keeps_set_len f n m : 0 <= n <= m -> n <= zlength f -> keeps f n (set_len f m).
Proof. intros Hn Hl. split; [rewrite zlength_set_len; lia|apply set_len_agree; lia]. Qed.

(** The appended record reads back, and nothing before it changed in any version
    of the file, whether or not the write succeeded. *)
Lemma write_record_spec io page off entry replay payload version v v' res :
  off = zlength (now v) -> 0 <= off -> 1 <= version <= 3 ->
  decode_payload version payload = Ok (entry, replay) ->
  write_record io page off entry replay payload version v = (v', res) ->
  (forall g, g ∈ versions v' -> g ∈ versions v \/ keeps (now v) off g) /\ keeps (now v) off (now v') /\
  forall r, res = Ok r ->
    on_disk (now v') page r /\ record_end r = zlength (now v') /\ jr_offset r = off /\ jr_entry r = entry /\
    jr_replay r = replay /\ jr_status r = Forward.
Proof.
  intros -> Ho Hver Hdec E. unfold write_record in E. set (off := zlength (now v)) in *.
  assert (keeps (now v) off (now v)) as Hk0 by (by apply keeps_refl).
  assert (forall g, g ∈ versions v -> g ∈ versions v \/ keeps (now v) off g) as Hv0 by auto.
  apply sr_bind_inv in E as (v1 & r1 & E1 & E). injection E1 as <- <-.
  destruct (MAX_RECORD_BYTES <? zlength payload) eqn:Hmax; cbn [negb require] in E; [by destruct E as [-> ->]|].
  apply sr_bind_inv in E as (v1 & r1 & E1 & E). injection E1 as <- <-.
  destruct (align_up (RECORD_HEADER_SIZE + zlength payload + 8) page) as [span|] eqn:Hal; cbn [ok_or] in E; [|by destruct E as [-> ->]].
  apply sr_bind_inv in E as (v1 & r1 & E1 & E). injection E1 as <- <-.
  destruct (checked_add 64 off span) as [e|] eqn:He; cbn [ok_or] in E; [|by destruct E as [-> ->]].
  apply checked_add_Some in He as [-> Hu]. apply Z.ltb_ge in Hmax.
  pose proof (align_up_Some _ _ _ Hal) as (Hpage & Hlim & Hpos & Hspan & Hle & Hmod).
  pose proof (zlength_nonneg payload) as Hp0. pose proof (length_checksum payload) as Hsum.
  set (header := record_header version span (zlength payload) (sha256 payload)) in *.
  destruct (record_header_fields version span (zlength payload) (sha256 payload)) as (Hhl & Hh1 & Hh2 & Hh3 & Hh4 & Hh5 & Hh6);
    [split; lia|unfold is_uint in *; unfold RECORD_HEADER_SIZE in *; lia|unfold MAX_RECORD_BYTES in Hmax; split; lia|done|].
  fold header in Hhl, Hh1, Hh2, Hh3, Hh4, Hh5, Hh6. unfold RECORD_HEADER_SIZE in *. clearbody header.
  set (f1 := set_len (now v) (off + span)) in *. set (f2 := write_all_at f1 off header).
  set (f3 := write_all_at f2 (off + 64) payload). set (f4 := write_all_at f3 (off + 64 + zlength payload) RECORD_TRAILER).
  assert (zlength f1 = off + span) as L1 by (unfold f1; rewrite zlength_set_len; lia).
  assert (zlength f2 = off + span) as L2.
  { unfold f2. rewrite zlength_write, L1, Hhl; [lia|lia|]. intros E0. rewrite E0 in Hhl. done. }
  assert (zlength f3 = off + span) as L3.
  { unfold f3. destruct (decide (payload = [])) as [->|]; [done|]. rewrite zlength_write, L2 by (done || lia). lia. }
  assert (zlength f4 = off + span) as L4.
  { unfold f4. rewrite zlength_write, L3 by (done || lia). change (zlength RECORD_TRAILER) with 8. lia. }
  assert (keeps (now v) off f1) as K1 by (apply keeps_set_len; lia).
  assert (keeps (now v) off f2) as K2 by (eapply keeps_trans; [exact K1|apply keeps_write; lia]).
  assert (keeps (now v) off f3) as K3 by (eapply keeps_trans; [exact K2|apply keeps_write; lia]).
  assert (keeps (now v) off f4) as K4 by (eapply keeps_trans; [exact K3|apply keeps_write; lia]).
  unfold versions in *. unfold update_file in E.
  apply sr_bind_inv in E as (v1 & r1 & E1 & E). unfold set_file_len in E1.
  destruct (io 0%nat); injection E1 as <- <-; [|destruct E as [-> ->]; split_and!; [|done|done]; auto].
  cbn [vupdate now unsynced] in E. fold f1 in E.
  apply sr_bind_inv in E as (v1 & r1 & E1 & E). injection E1 as <- <-. cbn [vupdate now unsynced] in E. fold f2 in E.
  destruct (io 1%nat); [|destruct E as [-> ->]; split_and!; [|done|done]; intros g; cbn; rewrite !elem_of_cons; naive_solver].
  apply sr_bind_inv in E as (v1 & r1 & E1 & E). injection E1 as <- <-. cbn [vupdate now unsynced] in E. fold f3 in E.
  destruct (io 2%nat); [|destruct E as [-> ->]; split_and!; [|done|done]; intros g; cbn; rewrite !elem_of_cons; naive_solver].
  apply sr_bind_inv in E as (v1 & r1 & E1 & E). injection E1 as <- <-. cbn [vupdate now unsynced] in E. fold f4 in E.
  destruct (io 3%nat); [|destruct E as [-> ->]; split_and!; [|done|done]; intros g; cbn; rewrite !elem_of_cons; naive_solver].
  injection E as <- <-. cbn [now]. split_and!; [|done|]; [intros g; cbn; rewrite !elem_of_cons; naive_solver|].
  intros r [= <-]. split_and!; try done. split; [done|]. exists header, payload. split.
  - split; cbn; rewrite ?Hh1, ?Hh2, ?Hh3, ?Hh4, ?Hh5, ?Hh6;
      unfold LEGACY_RECORD_VERSION, REPLAY_RECORD_VERSION, RECORD_VERSION; (done || lia).
  - cbn [jr_offset]. rewrite !stored_app, Hhl. split_and!.
    + apply (stored_agree f2); [by apply stored_write|]. rewrite Hhl.
      apply (agree_trans _ f3); apply write_agree; lia.
    + apply (stored_agree f3); [apply stored_write; lia|]. apply write_agree; lia.
    + apply stored_write. lia.
Qed.

(** Overwriting the status byte. *)
Lemma set_status_spec f page r : on_disk f page r ->
  let f' := write_all_at f (jr_offset r + STATUS_OFFSET) [status_to_byte RolledBack] in
  on_disk f' page (set_status r RolledBack) /\
  (record_end r <= zlength f -> zlength f' = zlength f /\
    forall a b, 0 <= a -> b <= zlength f -> b <= jr_offset r \/ record_end r <= a -> agree f f' a b).
Proof.
  intros Hd. pose proof (on_disk_span _ _ _ Hd) as (Hs0 & _). destruct Hd as (Ho & h & p & Him & Hst).
  destruct (record_span _ _ _ _ Him) as (Hspan & _). destruct Him. unfold STATUS_OFFSET, RECORD_HEADER_SIZE in *.
  rewrite !zlength_app, im_length0 in Hspan. change (zlength RECORD_TRAILER) with 8 in Hspan. pose proof (zlength_nonneg p).
  assert (exists h1 b h2, h = h1 ++ [b] ++ h2 /\ zlength h1 = 10 /\ zlength h2 = 53) as (h1 & b & h2 & -> & L1 & L2).
  { exists (ztake 10 h), (byte_at h 10), (zdrop 11 h). split_and!.
    - destruct (zlookup_is_Some h 10 ltac:(lia)) as [x Hx]. unfold byte_at. rewrite Hx. cbn [default option_map id].
      apply zlookup_Some in Hx as [_ Hx]. unfold ztake, zdrop. change (Z.to_nat 10) with 10%nat in *. change (Z.to_nat 11) with 11%nat.
      symmetry. by apply take_drop_middle.
    - rewrite zlength_take; lia.
    - rewrite zlength_drop; lia. }
  assert (forall x, byte_at (h1 ++ [x] ++ h2) 10 = x) as Hbyte.
  { intros x. rewrite byte_app_r, L1 by lia. done. }
  assert (forall x y, slice (h1 ++ [x] ++ h2) 0 8 = slice (h1 ++ [y] ++ h2) 0 8) as Hs1
    by (intros; rewrite !(slice_app_l h1) by lia; done).
  assert (forall x y, slice (h1 ++ [x] ++ h2) 8 10 = slice (h1 ++ [y] ++ h2) 8 10) as Hs2
    by (intros; rewrite !(slice_app_l h1) by lia; done).
  assert (forall x y a e, 11 <= a -> slice (h1 ++ [x] ++ h2) a e = slice (h1 ++ [y] ++ h2) a e) as Hs3.
  { intros x y a e Ha. rewrite !(slice_app_r h1) by lia.
    rewrite !(slice_app_r [_]) by (change (zlength [?z]) with 1; lia). done. }
  set (f' := write_all_at f (jr_offset r + 10) [status_to_byte RolledBack]).
  split.
  - split; [done|]. exists (h1 ++ [status_to_byte RolledBack] ++ h2), p. unfold field in *. split.
    + split; cbn [jr_status set_status jr_span jr_checksum jr_entry jr_replay]; unfold field, record_end; cbn [jr_offset jr_span set_status];
        rewrite ?(Hs3 _ b), ?(Hs2 _ b), ?(Hs1 _ b) by lia; try done.
      * by rewrite !zlength_app, L1, L2.
      * by rewrite Hbyte.
    + cbn [jr_offset set_status].
      assert ((h1 ++ [b] ++ h2) ++ p ++ RECORD_TRAILER <> []) as Hne.
      { intros E0. apply (f_equal zlength) in E0. rewrite !zlength_app, L1, L2 in E0. change (zlength [?z]) with 1 in E0.
        change (zlength []) with 0 in E0. change (zlength RECORD_TRAILER) with 8 in E0. lia. }
      pose proof (stored_length _ _ _ Hne Hst) as Hlen.
      rewrite !zlength_app, L1, L2 in Hlen. change (zlength RECORD_TRAILER) with 8 in Hlen. change (zlength [?z]) with 1 in Hlen.
      assert (forall a l, 0 <= a -> stored f a l -> a + zlength l <= zlength f ->
        a + zlength l <= jr_offset r + 10 \/ jr_offset r + 11 <= a -> stored f' a l) as Hkeep.
      { intros a l Ha Hl Hle Hd. eapply stored_agree; [exact Hl|]. apply write_agree; [lia|lia|lia|].
        change (zlength [status_to_byte RolledBack]) with 1. lia. }
      rewrite <- !app_assoc in Hst |- *. rewrite !stored_app, L1, L2 in Hst |- *. change (zlength [?z]) with 1 in *.
      destruct Hst as (S1 & _ & S3 & S4 & S5). split_and!; try (apply Hkeep; (done || lia)).
      * apply stored_write. lia.
      * apply Hkeep; [lia|done|change (zlength RECORD_TRAILER) with 8; lia|lia].
  - intros Hle. unfold record_end in *. split.
    + unfold f'. rewrite zlength_write by (done || lia). change (zlength [status_to_byte RolledBack]) with 1. lia.
    + intros a e Ha He Hd. apply write_agree; [lia|done|done|]. change (zlength [status_to_byte RolledBack]) with 1. lia.
Qed.
End Record.
End JournalRecord.
