(* ===== verification/JournalMarker.v ===== *)
(** The two publication slots: a marker survives encoding, writing the next
    marker never endangers the current one, and a torn slot falls back to it. *)

From S2P Require Import Prelude Bytes Files Positions JournalEntry SteadyState Udata JournalFile JournalRecord.
Import Files.Files JournalEntry.JournalEntry SteadyState JournalFile.JournalFile JournalRecord.JournalRecord.

Module JournalMarker.
Section Marker.
Context `{Sha256Laws}.

(** What a marker must satisfy to be written and accepted again. *)
Record marker_ok (page : Z) (id : bytes) (m : PublicationMarker) : Prop := {
  mo_id : jb_journal_id (boundary m) = id;
  mo_hash : hash_ok id;
  mo_page : 1 <= page;
  mo_generation : is_u64 (generation m);
  mo_start : page <= replay_start m /\ replay_start m mod page = 0;
  mo_end : replay_start m <= jb_end (boundary m) /\ jb_end (boundary m) mod page = 0 /\ is_u64 (jb_end (boundary m));
  mo_offset : is_u64 (jb_offset (boundary m));
  mo_inside : page < jb_end (boundary m) ->
    replay_start m <= jb_offset (boundary m) < jb_end (boundary m) /\ jb_offset (boundary m) mod page = 0;
  mo_height : is_u32 (jb_height (boundary m));
  mo_block : hash_ok (jb_block_hash (boundary m));
  mo_checksum : hash_ok (jb_checksum (boundary m))
}.

(** What is read back: the epoch is not stored. *)
Definition reopened (m : PublicationMarker) : PublicationMarker :=
  {| generation := generation m; replay_start := replay_start m; boundary := with_epoch (boundary m) 0 |}.

Lemma zlength_le n x : zlength (le_bytes n x) = Z.of_nat n.
Proof. unfold zlength. by rewrite length_le_bytes. Qed.
Lemma zlength_hash h : hash_ok h -> zlength h = 32.
Proof. intros [Hl _]. unfold zlength. by rewrite Hl. Qed.

Lemma encode_marker_decode page id m : marker_ok page id m ->
  let bs := encode_publication_marker m in
  zlength bs = PUBLICATION_BYTES /\ slot_valid bs id = true /\ decode_marker bs id = reopened m.
Proof.
  intros [Hid Hhash Hpage Hgen Hstart (Hle & Hm & Hend) Hoff Hin Hh Hb Hc] bs.
  assert (is_u64 (replay_start m)) as Hs by (unfold is_uint in *; lia).
  pose proof (zlength_hash _ Hhash) as L1. pose proof (zlength_hash _ Hb) as L2. pose proof (zlength_hash _ Hc) as L3.
  assert (zlength PUBLICATION_MAGIC = 8) as L0 by done.
  assert (zlength (marker_body m) = 140) as Lb.
  { unfold marker_body. rewrite Hid, !zlength_app, !zlength_le, L0, L1, L2, L3. done. }
  pose proof (length_checksum (marker_body m)) as Ls.
  assert (forall a b, 0 <= a -> b <= 140 -> slice bs a b = slice (marker_body m) a b) as Hsl.
  { intros. unfold bs, encode_publication_marker. by rewrite slice_app_l by lia. }
  split_and!.
  - unfold bs, encode_publication_marker. rewrite zlength_app, Lb, Ls. done.
  - unfold slot_valid. rewrite !bool_decide_eq_true_2; [done|..].
    + rewrite Hsl by lia. unfold bs, encode_publication_marker. rewrite slice_app_r, Lb by lia.
      rewrite (slice_all (marker_body m) 140) by lia. symmetry. apply slice_all. lia.
    + rewrite Hsl by lia. unfold marker_body. rewrite Hid, slice_app_r, L0 by lia. rewrite slice_app_l by lia. apply slice_all. lia.
    + rewrite Hsl by lia. unfold marker_body. rewrite slice_app_l by lia. by apply slice_all.
  - unfold decode_marker, field. rewrite !Hsl by lia. unfold marker_body. rewrite Hid.
    destruct m as [g rs [? e en off h bh ck]]. unfold reopened, with_epoch.
    cbn [generation replay_start boundary jb_journal_id jb_epoch jb_end jb_offset jb_height jb_block_hash jb_checksum] in *. subst.
    f_equal; [| |f_equal].
    all: repeat (rewrite slice_app_r by (rewrite ?L0, ?L1, ?L2, ?zlength_le; lia); rewrite ?L0, ?L1, ?L2, ?zlength_le).
    all: try (by apply (field_le 8)). all: try (by apply (field_le 4)).
    + rewrite slice_app_l by lia. by apply slice_all.
    + apply slice_all. lia.
Qed.

Lemma marker_ok_valid page id m : marker_ok page id m -> marker_invalid (reopened m) (generation m mod 2) page = false.
Proof.
  intros []. unfold marker_invalid. cbn. rewrite Z.eqb_refl. cbn.
  destruct mo_start0 as [Hs1 Hs2], mo_end0 as (He1 & He2 & _). rewrite Hs2, He2.
  rewrite (proj2 (Z.ltb_ge (replay_start m) page)) by lia. rewrite (proj2 (Z.ltb_ge (jb_end (boundary m)) (replay_start m))) by lia. cbn.
  destruct (Z.ltb_spec page (jb_end (boundary m))) as [Hp|]; [|done]. destruct (mo_inside0 Hp) as [Ho1 Ho2]. rewrite Ho2.
  rewrite (proj2 (Z.ltb_ge (jb_offset (boundary m)) (replay_start m))) by lia.
  by rewrite (proj2 (Z.leb_gt (jb_end (boundary m)) (jb_offset (boundary m)))) by lia.
Qed.

(** ** Slots of a file *)

Definition slot_bytes (f : File) (slot : Z) : option bytes :=
  read_exact_at f (slot * PUBLICATION_SLOT_SIZE) PUBLICATION_BYTES.

Lemma read_slot_bytes f g id page slot : slot_bytes f slot = slot_bytes g slot ->
  read_slot f id page slot = read_slot g id page slot.
Proof. unfold read_slot, slot_bytes. by intros ->. Qed.

Lemma slot_agree f g slot : 0 <= slot < 2 ->
  agree f g (slot * PUBLICATION_SLOT_SIZE) (slot * PUBLICATION_SLOT_SIZE + PUBLICATION_BYTES) ->
  slot_bytes f slot = slot_bytes g slot.
Proof.
  intros Hs Ha. unfold slot_bytes. eapply read_agree; [exact Ha| | | |]; unfold PUBLICATION_SLOT_SIZE, PUBLICATION_BYTES; lia.
Qed.

Definition write_marker (f : File) (m : PublicationMarker) : File :=
  write_all_at f (generation m mod 2 * PUBLICATION_SLOT_SIZE) (encode_publication_marker m).

Lemma generation_slot g : 0 <= g mod 2 < 2.
Proof. apply Z.mod_pos_bound. lia. Qed.

Lemma write_marker_length page id f m : marker_ok page id m -> 8192 <= zlength f -> zlength (write_marker f m) = zlength f.
Proof.
  intros Hm Hf. destruct (encode_marker_decode page id m Hm) as (Hl & _). pose proof (generation_slot (generation m)).
  unfold write_marker. rewrite zlength_write, Hl.
  - unfold PUBLICATION_SLOT_SIZE, PUBLICATION_BYTES. lia.
  - unfold PUBLICATION_SLOT_SIZE. lia.
  - intros E. rewrite E in Hl. done.
Qed.

Lemma write_marker_other page id f m slot : marker_ok page id m -> 8192 <= zlength f -> 0 <= slot < 2 ->
  slot <> generation m mod 2 ->
  agree f (write_marker f m) (slot * PUBLICATION_SLOT_SIZE) (slot * PUBLICATION_SLOT_SIZE + PUBLICATION_BYTES).
Proof.
  intros Hm Hf Hs Hne. destruct (encode_marker_decode page id m Hm) as (Hl & _). pose proof (generation_slot (generation m)).
  unfold write_marker. apply write_agree; rewrite ?Hl; unfold PUBLICATION_SLOT_SIZE, PUBLICATION_BYTES in *; lia.
Qed.

Lemma write_marker_read page id f m : marker_ok page id m ->
  read_slot (write_marker f m) id page (generation m mod 2) = Ok (Some (reopened m)).
Proof.
  intros Hm. destruct (encode_marker_decode page id m Hm) as (Hl & Hv & Hd). pose proof (generation_slot (generation m)).
  unfold read_slot. rewrite <- Hl. unfold write_marker. rewrite stored_read.
  - by rewrite Hv, Hd, (marker_ok_valid page id).
  - unfold PUBLICATION_SLOT_SIZE. lia.
  - intros E. rewrite E in Hl. done.
  - apply stored_write. unfold PUBLICATION_SLOT_SIZE. lia.
Qed.

(** The current marker is in its slot, and the other slot holds nothing that
    would be preferred to it. *)
Definition slots_hold (f : File) (id : bytes) (page : Z) (m : PublicationMarker) : Prop :=
  read_slot f id page (generation m mod 2) = Ok (Some (reopened m)) /\
  (read_slot f id page (1 - generation m mod 2) = Ok None \/
   exists older, read_slot f id page (1 - generation m mod 2) = Ok (Some older) /\
     generation older < generation m /\ not_monotonic older (reopened m) = false).

Lemma slots_read f id page m : slots_hold f id page m -> read_publication_marker f id page = Ok (reopened m).
Proof.
  intros [Hm Ho]. unfold read_publication_marker. pose proof (generation_slot (generation m)).
  assert (generation m mod 2 = 0 \/ generation m mod 2 = 1) as [E|E] by lia; rewrite E in *;
    [change (1 - 0) with 1 in Ho|change (1 - 1) with 0 in Ho].
  - rewrite Hm. step_ok. destruct Ho as [Ho|(older & Ho & Hg & Hmono)]; rewrite Ho; step_ok; [done|].
    rewrite (proj2 (Z.ltb_ge (generation (reopened m)) (generation older))) by (cbn; lia). by rewrite Hmono.
  - destruct Ho as [Ho|(older & Ho & Hg & Hmono)]; rewrite Ho; step_ok; rewrite Hm; step_ok; [done|].
    rewrite (proj2 (Z.ltb_lt (generation older) (generation (reopened m)))) by (cbn; lia). by rewrite Hmono.
Qed.

(** ** Crashes of the marker file *)

(** A slot that a crash left neither as one of the versions wrote it does not
    pass its checksum. *)
Definition torn_slots_detected (v : VFile) (f : File) (id : bytes) : Prop :=
  forall slot, 0 <= slot < 2 ->
    (exists g, g ∈ versions v /\ slot_bytes f slot = slot_bytes g slot) \/
    (exists bs, slot_bytes f slot = Some bs /\ slot_valid bs id = false).

Lemma torn_slot f id page slot bs : slot_bytes f slot = Some bs -> slot_valid bs id = false ->
  read_slot f id page slot = Ok None.
Proof. unfold read_slot, slot_bytes. intros -> Hv. by rewrite Hv. Qed.

(** The marker [next] may follow [m]. *)
Definition follows (m next : PublicationMarker) : Prop :=
  generation next = generation m + 1 /\ not_monotonic (reopened m) (reopened next) = false.

Lemma next_slot m next : follows m next -> generation next mod 2 = 1 - generation m mod 2.
Proof.
  intros [-> _]. rewrite Z.add_mod by lia. pose proof (generation_slot (generation m)).
  assert (generation m mod 2 = 0 \/ generation m mod 2 = 1) as [E|E] by lia; rewrite E; done.
Qed.

Section Write.
Context (page : Z) (id : bytes) (f : File) (m next : PublicationMarker).
Context (Hlen : 8192 <= zlength f) (Hnext : marker_ok page id next) (Hf : follows m next).
Context (Hslots : slots_hold f id page m).

Lemma slots_write : slots_hold (write_marker f next) id page next.
Proof.
  pose proof (next_slot m next Hf) as En. pose proof (generation_slot (generation m)). destruct Hslots as [Hm _]. destruct Hf as [Hg Hmono].
  split; [by apply write_marker_read|]. right. exists (reopened m). split_and!; [|cbn; lia|done].
  rewrite En. replace (1 - (1 - generation m mod 2)) with (generation m mod 2) by lia. rewrite <- Hm.
  apply read_slot_bytes. symmetry. apply slot_agree; [done|]. apply (write_marker_other page id); (done || lia).
Qed.

(** A crash while [next] is being written leaves one of the two in force. *)
Lemma slots_crash v f' : versions v = [write_marker f next; f] -> crash_file v f' -> torn_slots_detected v f' id ->
  8192 <= zlength f' /\ (slots_hold f' id page m \/ slots_hold f' id page next).
Proof.
  intros Hv Hc Ht. pose proof (next_slot m next Hf) as En. pose proof (generation_slot (generation m)) as Hgs.
  pose proof (write_marker_length page id f next Hnext Hlen) as Hl.
  assert (now v = write_marker f next) as Hnow by (unfold versions in Hv; congruence).
  assert (8192 <= zlength f') as Hl'.
  { eapply crash_length; [|exact Hc]. intros g Hg. rewrite Hv, !elem_of_cons, elem_of_nil in Hg.
    destruct Hg as [->|[->|[]]]; lia. }
  split; [done|].
  assert (slot_bytes f' (generation m mod 2) = slot_bytes f (generation m mod 2)) as Hcur.
  { transitivity (slot_bytes (write_marker f next) (generation m mod 2)); symmetry; apply slot_agree; try done.
    - rewrite <- Hnow. apply (crash_agree v f' _ (generation m mod 2 * PUBLICATION_SLOT_SIZE));
        [unfold PUBLICATION_SLOT_SIZE; lia| |done].
      intros g Hg. rewrite Hv, !elem_of_cons, elem_of_nil in Hg. rewrite Hnow.
      destruct Hg as [->|[->|[]]]; (split; [unfold PUBLICATION_SLOT_SIZE, PUBLICATION_BYTES; lia|]); [done|].
      apply agree_sym, (write_marker_other page id); (done || lia).
    - apply (write_marker_other page id); (done || lia). }
  destruct Hslots as [Hm Ho]. destruct (Ht (1 - generation m mod 2) ltac:(lia)) as [(g & Hg & E)|(bs & E & Hinv)].
  - rewrite Hv, !elem_of_cons, elem_of_nil in Hg. destruct Hg as [->|[->|[]]].
    + right. destruct slots_write as [S1 _]. split; [rewrite En in *; by rewrite (read_slot_bytes f' (write_marker f next))|].
      right. exists (reopened m). destruct Hf as [Hg Hmono]. split_and!; [|cbn; lia|done].
      rewrite En. replace (1 - (1 - generation m mod 2)) with (generation m mod 2) by lia.
      by rewrite (read_slot_bytes f' f).
    + left. split; [by rewrite (read_slot_bytes f' f)|]. by rewrite (read_slot_bytes f' f).
  - left. split; [by rewrite (read_slot_bytes f' f)|]. left. by eapply torn_slot.
Qed.
End Write.

(** Without a pending write the slots survive. *)
Lemma slots_crash_synced page id m v f' : 8192 <= zlength (now v) -> unsynced v = [] -> slots_hold (now v) id page m ->
  crash_file v f' -> 8192 <= zlength f' /\ slots_hold f' id page m.
Proof.
  intros Hl Hu Hs Hc. assert (versions v = [now v]) as Hv by (unfold versions; by rewrite Hu).
  assert (8192 <= zlength f') as Hl'.
  { eapply crash_length; [|exact Hc]. intros g Hg. rewrite Hv in Hg. by apply list_elem_of_singleton in Hg as ->. }
  split; [done|].
  assert (forall slot, 0 <= slot < 2 -> slot_bytes f' slot = slot_bytes (now v) slot) as E.
  { intros slot Hslot. symmetry. apply slot_agree; [done|]. eapply crash_agree; [unfold PUBLICATION_SLOT_SIZE; lia| |exact Hc].
    intros g Hg. rewrite Hv in Hg. apply list_elem_of_singleton in Hg as ->. split; [unfold PUBLICATION_SLOT_SIZE, PUBLICATION_BYTES; lia|done]. }
  pose proof (generation_slot (generation m)). destruct Hs as [Hm Ho]. split.
  - rewrite (read_slot_bytes f' (now v)); [done|apply E; lia].
  - rewrite (read_slot_bytes f' (now v)); [done|apply E; lia].
Qed.
End Marker.
End JournalMarker.
