(* ===== verification/JournalSafety.v ===== *)
(** Crash safety of the journal: what a journal on disk stands for, that
    reopening after a crash recovers exactly its published records, and that
    every operation, with I/O errors anywhere in it, either keeps that meaning,
    moves it atomically, or poisons the journal. *)

From S2P Require Import Prelude Bytes Files Positions JournalEntry SteadyState Udata JournalFile JournalRecord JournalMarker.
Import Files.Files JournalEntry.JournalEntry SteadyState JournalFile.JournalFile JournalRecord.JournalRecord JournalMarker.JournalMarker.

Module JournalSafety.
Section Safety.
Context `{Sha256Laws} `{BitcoinCodec} `{HeaderCodec}.

(** ** Runs of records *)

(** The records lie one after the other from [start] to [end_]. *)
Fixpoint chain (start : Z) (recs : list JournalRecord) (end_ : Z) : Prop :=
  match recs with
  | [] => start = end_
  | r :: recs => jr_offset r = start /\ chain (record_end r) recs end_
  end.

Lemma chain_app a l1 l2 b : chain a (l1 ++ l2) b <-> exists m, chain a l1 m /\ chain m l2 b.
Proof.
  revert a; induction l1 as [|r l1 IH]; intros a; cbn; [naive_solver|]. rewrite IH. naive_solver.
Qed.

Lemma chain_snoc a l r b : chain a (l ++ [r]) b <-> chain a l (jr_offset r) /\ record_end r = b.
Proof.
  rewrite chain_app. cbn. split; [intros (m & Hc & <- & E); done|intros [Hc E]; by exists (jr_offset r)].
Qed.

Lemma chain_inj a l b b' : chain a l b -> chain a l b' -> b = b'.
Proof. revert a; induction l as [|r l IH]; intros a; cbn; [congruence|]. intros [_ H1'] [_ H2']. by eapply IH. Qed.

Lemma chain_start_inj a a' l b : chain a l b -> chain a' l b -> a = a'.
Proof. destruct l as [|r l]; cbn; [congruence|]. by intros [<- _] [<- _]. Qed.

Abbreviation disk f page := (on_disk f page).

Lemma chain_le f page a l b : chain a l b -> Forall (disk f page) l -> a <= b.
Proof.
  intros Hc Hd. revert a Hc. induction Hd as [|r l Hr Hd IH]; intros a Hc; cbn in Hc; [lia|].
  destruct Hc as [<- Hc]. specialize (IH _ Hc). destruct (on_disk_span _ _ _ Hr) as (? & _). unfold record_end in *. lia.
Qed.

Lemma chain_bounds f page a l b : 0 < page -> 0 <= a -> a mod page = 0 -> chain a l b -> Forall (disk f page) l ->
  a + page * zlength l <= b /\ b mod page = 0 /\ Forall (fun r => a <= jr_offset r /\ record_end r <= b /\ jr_offset r mod page = 0) l.
Proof.
  intros Hp. revert a. induction l as [|r l IH]; intros a Ha Hm Hc Hd; cbn in Hc.
  { subst. change (zlength []) with 0. split_and!; [lia|done|constructor]. }
  destruct Hc as [Ho Hc]. apply Forall_cons in Hd as [Hr Hd].
  destruct (on_disk_span _ _ _ Hr) as (Hs & Hsm & Hsp & _). unfold record_end in *.
  destruct (IH (jr_offset r + jr_span r)) as (Hb & Hbm & Hall); [lia| |done|done|].
  { subst. rewrite Z.add_mod, Hm, Hsm by lia. by rewrite Z.add_0_l, Z.mod_0_l by lia. }
  rewrite zlength_cons. pose proof (zlength_nonneg l).
  split_and!; [nia|done|]. constructor; [split_and!; [lia|nia|by subst]|].
  eapply Forall_impl; [exact Hall|]. cbn. intros r' (H1' & H2' & H3'). split_and!; (done || lia).
Qed.

Lemma chain_disk_agree f g page a l b : 0 <= a -> chain a l b -> agree f g a b -> Forall (disk f page) l -> Forall (disk g page) l.
Proof.
  intros Ha Hc Hag Hd. revert a Ha Hc Hag. induction Hd as [|r l Hr Hd IH]; intros a Ha Hc Hag; [constructor|].
  destruct Hc as [Ho Hc]. destruct (on_disk_span _ _ _ Hr) as (Hs & _).
  assert (record_end r <= b) as Hle by (by eapply chain_le).
  constructor.
  - apply (on_disk_agree f); [done|]. eapply agree_sub; [exact Hag|lia|done].
  - apply (IH (record_end r)); [unfold record_end; lia|done|]. eapply agree_sub; [exact Hag|unfold record_end; lia|lia].
Qed.

Lemma scan_chain f page recs start end_ fuel : 0 < page -> 0 <= start -> chain start recs end_ -> Forall (disk f page) recs ->
  (length recs <= fuel)%nat -> scan_loop fuel f page start end_ = Ok recs.
Proof.
  intros Hp. revert start fuel. induction recs as [|r recs IH]; intros start fuel Hs Hc Hd Hf; cbn in Hc.
  { subst. destruct fuel; cbn; by rewrite Z.ltb_irrefl. }
  destruct Hc as [Ho Hc]. apply Forall_cons in Hd as [Hr Hd]. destruct (on_disk_span _ _ _ Hr) as (Hsp & _ & _ & _ & Ho0).
  destruct fuel as [|fuel]; [cbn in Hf; lia|].
  assert (record_end r <= end_) as Hle by (by eapply chain_le).
  cbn [scan_loop]. rewrite (proj2 (Z.ltb_lt start end_)) by (unfold record_end in *; lia).
  rewrite (proj2 (read_record_on_disk f page start end_ r Hs)) by done. step_ok.
  rewrite (IH (start + jr_span r)); [done|lia| |done|cbn in Hf; lia]. unfold record_end in Hc. by subst.
Qed.

(** The records up to a published end are those of the published chain. *)
Lemma partition_chain f page a l1 l2 m b : 0 < page -> 0 <= a -> chain a l1 m -> chain m l2 b -> Forall (disk f page) (l1 ++ l2) ->
  partition_point (fun r => record_end r <=? m) (l1 ++ l2) = length l1.
Proof.
  intros Hp Ha H1' H2' Hd. revert a Ha H1'. induction l1 as [|r l1 IH]; intros a Ha Hc; cbn in *.
  - subst. destruct l2 as [|r l2]; [done|]. destruct H2' as [Ho _]. apply Forall_cons in Hd as [Hr _].
    destruct (on_disk_span _ _ _ Hr) as (? & _). cbn. unfold record_end. by rewrite (proj2 (Z.leb_gt _ _)) by lia.
  - destruct Hc as [Ho Hc]. apply Forall_cons in Hd as [Hr Hd]. destruct (on_disk_span _ _ _ Hr) as (? & _).
    assert (record_end r <= m) as Hle by (apply Forall_app in Hd as [Hd _]; by eapply chain_le).
    rewrite (proj2 (Z.leb_le _ _)) by done. f_equal. apply (IH Hd (record_end r)); [unfold record_end; lia|done].
Qed.

Lemma last_boundary_app l1 l2 id e page : l2 <> [] -> last_boundary (l1 ++ l2) id e page = last_boundary l2 id e page.
Proof. intros Hl. unfold last_boundary. destruct l2 as [|r l2 _] using rev_ind; [done|]. by rewrite app_assoc, !last_snoc. Qed.

(** ** What a journal stands for *)

(** The journal file holds [recs] as the records that [m] publishes, whatever a crash
    makes of the unsynchronized writes. *)
Record wal_ok (v : VFile) (page : Z) (id : bytes) (m : PublicationMarker) (recs : list JournalRecord) : Prop := {
  wo_page : 4096 <= page;
  wo_super : read_superblock (now v) = Ok (page, id);
  wo_versions : forall g, g ∈ versions v -> jb_end (boundary m) <= zlength g /\
    agree (now v) g 0 page /\ agree (now v) g (replay_start m) (jb_end (boundary m));
  wo_marker : marker_ok page id m;
  wo_chain : chain (replay_start m) recs (jb_end (boundary m));
  wo_disk : Forall (disk (now v) page) recs;
  wo_entries : Forall (fun r => entry_ok (jr_entry r)) recs;
  wo_boundary : last_boundary recs id 0 page = with_epoch (boundary m) 0
}.

(** The marker file has [m] in force. *)
Record slots_ok (v : VFile) (page : Z) (id : bytes) (m : PublicationMarker) : Prop := {
  so_synced : unsynced v = [];
  so_length : 8192 <= zlength (now v);
  so_slots : slots_hold (now v) id page m
}.

Definition durable (j : Journal) (recs : list JournalRecord) : Prop :=
  wal_ok (file j) (page_size j) (journal_id j) (marker j) recs /\
  slots_ok (marker_file j) (page_size j) (journal_id j) (marker j).

(** [old] are records that were dropped from memory by a prune that is not finished on
    disk, [pub] the published ones and [pend] the appended ones that are not published. *)
Record inv (j : Journal) (old pub pend : list JournalRecord) : Prop := {
  iv_healthy : poisoned j = false;
  iv_durable : durable j (old ++ pub);
  iv_length : zlength (now (file j)) = appended_end j;
  iv_pending : chain (jb_end (boundary (marker j))) pend (appended_end j);
  iv_disk : Forall (disk (now (file j)) (page_size j)) pend;
  iv_entries : Forall (fun r => entry_ok (jr_entry r)) pend;
  iv_records : records j = pub ++ pend;
  iv_end : published_end j = jb_end (boundary (marker j))
}.

Lemma inv_start j old pub pend : inv j old pub pend ->
  0 < page_size j /\ page_size j <= replay_start (marker j) /\ replay_start (marker j) mod page_size j = 0 /\
  replay_start (marker j) <= jb_end (boundary (marker j)) <= appended_end j.
Proof.
  intros []. destruct iv_durable0 as [[] _]. pose proof wo_marker0 as []. split_and!; try lia. by eapply chain_le.
Qed.

Lemma inv_published j old pub pend : inv j old pub pend -> published_records j = pub.
Proof.
  intros Hi. pose proof (inv_start _ _ _ _ Hi) as (? & ? & ? & ?). destruct Hi. destruct iv_durable0 as [[] _].
  unfold published_records. rewrite iv_records0, iv_end0.
  apply chain_app in wo_chain0 as (m & Hold & Hpub). apply Forall_app in wo_disk0 as [Hd1 Hd2].
  assert (replay_start (marker j) <= m) as Hm by (by eapply chain_le).
  rewrite (partition_chain (now (file j)) (page_size j) m pub pend _ (appended_end j)); [apply take_app_length|lia|lia|done|done|].
  by apply Forall_app.
Qed.

(** A concrete disk that holds [recs] as its published records. *)
Lemma open_image nr f fm id page m recs : read_superblock f = Ok (page, id) -> 4096 <= page ->
  slots_hold fm id page m -> marker_ok page id m -> jb_end (boundary m) <= zlength f ->
  chain (replay_start m) recs (jb_end (boundary m)) -> Forall (disk f page) recs ->
  last_boundary recs id 0 page = with_epoch (boundary m) 0 ->
  open_files nr f fm = Ok {|
    file := if zlength f =? jb_end (boundary m) then synced f else vupdate (synced f) (set_len f (jb_end (boundary m)));
    marker_file := synced fm; page_size := page; journal_id := id; records := recs; marker := reopened m;
    appended_end := jb_end (boundary m); published_end := jb_end (boundary m); epoch := 0;
    poisoned := false; needs_replay := nr |}.
Proof.
  intros Hsuper Hpage Hslots Hm Hlen Hchain Hd Hlast. unfold open_files. rewrite Hsuper. step_ok.
  rewrite (slots_read _ _ _ _ Hslots). step_ok. cbn [boundary reopened with_epoch jb_end].
  rewrite (proj2 (Z.ltb_ge _ _)) by done. step_ok.
  assert (scan_published f page (reopened m) = Ok recs) as ->; [|done].
  unfold scan_published. cbn [boundary reopened with_epoch jb_end jb_journal_id replay_start]. destruct Hm.
  rewrite (scan_chain f page recs).
  - step_ok. rewrite mo_id0, Hlast. cbn. by rewrite bool_decide_eq_true_2 by done.
  - lia.
  - lia.
  - done.
  - done.
  - destruct (chain_bounds _ page (replay_start m) _ _ ltac:(lia) ltac:(lia) (proj2 mo_start0) Hchain Hd) as (Hb & _).
    assert (zlength recs <= (jb_end (boundary m) - replay_start m) / page) by (apply Z.div_le_lower_bound; lia).
    unfold zlength in *. lia.
Qed.

(** The reopened journal. *)
Lemma reopened_inv nr f fm id page m recs : read_superblock f = Ok (page, id) -> 4096 <= page ->
  8192 <= zlength fm -> slots_hold fm id page m -> marker_ok page id m -> jb_end (boundary m) <= zlength f ->
  chain (replay_start m) recs (jb_end (boundary m)) -> Forall (disk f page) recs ->
  Forall (fun r => entry_ok (jr_entry r)) recs -> last_boundary recs id 0 page = with_epoch (boundary m) 0 ->
  exists j, open_files nr f fm = Ok j /\ inv j [] recs [] /\ records j = recs /\ needs_replay j = nr /\
    journal_id j = id /\ page_size j = page /\ epoch j = 0.
Proof.
  intros Hsuper Hpage Hfm Hslots Hm Hlen Hchain Hd He Hlast. eexists. split; [by apply open_image|].
  split; [|done]. pose proof Hm as []. set (end_ := jb_end (boundary m)) in *.
  assert (agree f (set_len f end_) 0 end_) as Hag by (apply set_len_agree; lia).
  assert (forall g, g ∈ versions (if zlength f =? end_ then synced f else vupdate (synced f) (set_len f end_)) ->
    g = f \/ g = set_len f end_) as Hver.
  { intros g Hg. destruct (zlength f =? end_); cbn in Hg; unfold versions in Hg; cbn in Hg;
      rewrite !elem_of_cons, elem_of_nil in Hg; tauto. }
  assert (exists g, now (if zlength f =? end_ then synced f else vupdate (synced f) (set_len f end_)) = g /\
    zlength g = end_ /\ agree f g 0 end_ /\ (g = f \/ g = set_len f end_)) as (g & Eg & Hgl & Hgag & Hgor).
  { eexists. split; [done|]. destruct (Z.eqb_spec (zlength f) end_); cbn; [by split_and!; try left|].
    rewrite zlength_set_len by lia. split_and!; [done|done|by right]. }
  assert (page <= end_) as Hpe by lia.
  split; cbn [poisoned page_size journal_id file marker_file marker records appended_end published_end]; rewrite ?Eg;
    try done; [|by rewrite app_nil_r].
  cbn [app]. split; split; cbn [page_size journal_id file marker_file marker]; rewrite ?Eg; try done.
  - rewrite <- Hsuper. unfold read_superblock. rewrite (read_agree g f 0 end_ 0 96); [done|by apply agree_sym|lia..].
  - intros g' Hg'%Hver. cbn [boundary reopened with_epoch jb_end replay_start]. fold end_.
    assert (end_ <= zlength g' /\ agree f g' 0 end_) as [Hl' Ha'].
    { destruct Hg' as [->| ->]; [done|]. rewrite zlength_set_len by lia. done. }
    split; [done|]. assert (agree g g' 0 end_) as Hgg by (eapply agree_trans; [by apply agree_sym|done]).
    split; (eapply agree_sub; [exact Hgg|lia|lia]).
  - eapply (chain_disk_agree f g page (replay_start m) recs end_); [lia|done| |done].
    eapply agree_sub; [exact Hgag|lia|lia].
Qed.

(** ** Recovery *)

(** Reopening after a crash succeeds with the published records one of [S]. *)
Definition recovers (j : Journal) (S : list JournalRecord -> Prop) : Prop :=
  forall nr fw fm, crash_file (file j) fw -> crash_file (marker_file j) fm ->
    torn_slots_detected (marker_file j) fm (journal_id j) ->
    exists j' recs, S recs /\ open_files nr fw fm = Ok j' /\ inv j' [] recs [] /\ records j' = recs /\
      needs_replay j' = nr /\ journal_id j' = journal_id j /\ page_size j' = page_size j /\ epoch j' = 0.

Lemma recovers_weaken j (S T : list JournalRecord -> Prop) : (forall l, S l -> T l) -> recovers j S -> recovers j T.
Proof.
  intros HST HS nr fw fm H1' H2' H3'. destruct (HS nr fw fm H1' H2' H3') as (j' & recs & ? & ?). exists j', recs. auto.
Qed.

(** The journal file after a crash. *)
Lemma wal_image v page id m recs fw : wal_ok v page id m recs -> crash_file v fw ->
  read_superblock fw = Ok (page, id) /\ jb_end (boundary m) <= zlength fw /\ Forall (disk fw page) recs.
Proof.
  intros [] Hc. pose proof wo_marker0 as [].
  assert (agree (now v) fw 0 page) as Ha0.
  { eapply crash_agree; [lia| |exact Hc]. intros g Hg. destruct (wo_versions0 g Hg) as (? & ? & ?). split; [lia|done]. }
  split_and!.
  - rewrite <- wo_super0. unfold read_superblock.
    rewrite (read_agree fw (now v) 0 page 0 96); [done|by apply agree_sym|lia..].
  - eapply crash_length; [|exact Hc]. intros g Hg. by destruct (wo_versions0 g Hg).
  - eapply (chain_disk_agree (now v) fw _ (replay_start m) recs (jb_end (boundary m))); [lia|done| |done].
    eapply crash_agree; [lia| |exact Hc]. intros g Hg. destruct (wo_versions0 g Hg) as (? & ? & ?). by split.
Qed.

Lemma recover_image j m recs nr fw fm : wal_ok (file j) (page_size j) (journal_id j) m recs -> crash_file (file j) fw ->
  8192 <= zlength fm -> slots_hold fm (journal_id j) (page_size j) m ->
  exists j', open_files nr fw fm = Ok j' /\ inv j' [] recs [] /\ records j' = recs /\
      needs_replay j' = nr /\ journal_id j' = journal_id j /\ page_size j' = page_size j /\ epoch j' = 0.
Proof.
  intros Hw Hc Hfm Hs. destruct (wal_image _ _ _ _ _ _ Hw Hc) as (Hsup & Hl & Hd). destruct Hw. by apply (reopened_inv nr fw fm _ _ m recs).
Qed.

Lemma durable_recovers j recs : durable j recs -> recovers j (eq recs).
Proof.
  intros [Hw []] nr fw fm Hfw Hfm _.
  destruct (slots_crash_synced _ _ _ _ fm so_length0 so_synced0 so_slots0 Hfm) as [Hl Hslots].
  destruct (recover_image j _ _ nr fw fm Hw Hfw Hl Hslots) as (j' & ?). exists j', recs. by split.
Qed.

(** ** Operations *)

(** Writes at or after the published end are invisible to recovery. *)
Lemma wal_grow v v' page id m recs n : wal_ok v page id m recs -> jb_end (boundary m) <= n ->
  (forall g, g ∈ versions v' -> g ∈ versions v \/ keeps (now v) n g) -> keeps (now v) n (now v') ->
  wal_ok v' page id m recs.
Proof.
  intros [] Hn Hv [Hl Hk]. pose proof wo_marker0 as [].
  assert (forall g, g ∈ versions v' -> jb_end (boundary m) <= zlength g /\ agree (now v) g 0 page /\
    agree (now v) g (replay_start m) (jb_end (boundary m))) as Hall.
  { intros g [Hg|[Hg Ha]]%Hv; [by apply wo_versions0|].
    split_and!; [lia|eapply agree_sub; [exact Ha|lia|lia]|eapply agree_sub; [exact Ha|lia|lia]]. }
  assert (agree (now v) (now v') 0 page) as K0 by (eapply agree_sub; [exact Hk|lia|lia]).
  assert (agree (now v) (now v') (replay_start m) (jb_end (boundary m))) as K1 by (eapply agree_sub; [exact Hk|lia|lia]).
  split; try done.
  - rewrite <- wo_super0. unfold read_superblock.
    rewrite (read_agree (now v') (now v) 0 page 0 96); [done|by apply agree_sym|lia..].
  - intros g Hg. destruct (Hall g Hg) as (H1' & H2' & H3').
    split_and!; [done|eapply agree_trans; [by apply agree_sym|done]..].
  - by eapply chain_disk_agree; [| |exact K1|]; [lia|..].
Qed.

(** Synchronizing only removes versions. *)
Lemma wal_sync v page id m recs : wal_ok v page id m recs -> wal_ok (vsync v) page id m recs.
Proof.
  intros []. split; try done. cbn. intros g Hg. unfold versions in Hg. cbn in Hg. apply wo_versions0. apply list_elem_of_singleton in Hg as ->. left.
Qed.

Lemma write_marker_step io n page id m next v v' res : slots_ok v page id m -> marker_ok page id next -> follows m next ->
  write_publication_marker io n next v = (v', res) ->
  (res = Ok tt /\ slots_ok v' page id next) \/
  ((exists e, res = Err e) /\ forall fm, crash_file v' fm -> torn_slots_detected v' fm id ->
     8192 <= zlength fm /\ (slots_hold fm id page m \/ slots_hold fm id page next)).
Proof.
  intros [Hsync Hlen Hslots] Hm Hf E. unfold write_publication_marker, update_file, sync_file in E.
  apply sr_bind_inv in E as (v1 & r1 & E1 & E). injection E1 as <- <-.
  change (write_all_at (now v) (generation next mod 2 * PUBLICATION_SLOT_SIZE) (encode_publication_marker next))
    with (write_marker (now v) next) in E.
  assert (forall v1, v1 = vupdate v (write_marker (now v) next) -> forall fm, crash_file v1 fm -> torn_slots_detected v1 fm id ->
     8192 <= zlength fm /\ (slots_hold fm id page m \/ slots_hold fm id page next)) as Hcrash.
  { intros v1 -> fm Hc Ht. eapply slots_crash; [exact Hlen|exact Hm|exact Hf|exact Hslots| |exact Hc|exact Ht].
    unfold versions. cbn. by rewrite Hsync. }
  destruct (io n).
  - destruct (io (S n)); injection E as <- <-.
    + left. split; [done|]. split; cbn [now unsynced vsync vupdate synced]; [done| |by apply (slots_write page id _ m)].
      rewrite (write_marker_length page id); done.
    + right. split; [by eexists|by apply Hcrash].
  - destruct E as [-> ->]. right. split; [by eexists|by apply Hcrash].
Qed.

Lemma lift_inv {S A} (r : result A) (s s' : S) res : lift r s = (s', res) -> s' = s /\ res = r.
Proof. unfold lift. by intros [= <- <-]. Qed.

Lemma require_false b msg e : require b msg = Err e -> b = false.
Proof. by destruct b. Qed.

(** Appending. *)
Lemma append_payload_inv io entry replay payload version j old pub pend j' res :
  inv j old pub pend -> entry_ok entry -> decode_payload version payload = Ok (entry, replay) -> 1 <= version <= 3 ->
  append_payload io entry replay payload version j = (j', res) ->
  (exists r, res = Ok tt /\ inv j' old pub (pend ++ [r]) /\ jr_entry r = entry /\ jr_replay r = replay /\
     jr_status r = Forward /\ epoch j' = epoch j /\ journal_id j' = journal_id j /\ marker j' = marker j) \/
  (exists e, res = Err e /\ inv j' old pub pend /\ epoch j' = epoch j /\ journal_id j' = journal_id j /\ marker j' = marker j) \/
  (exists e, res = Err e /\ poisoned j' = true /\ recovers j' (eq (old ++ pub))).
Proof.
  intros Hi He Hdec Hver E. pose proof (inv_start _ _ _ _ Hi) as (Hp & Hst & Hsm & Hend).
  destruct Hi as [Hh [Hw Hs] Hlen Hpend Hdisk Hent Hrec Hpub]. unfold append_payload in E.
  apply sr_bind_inv in E as (j1 & r1 & E1 & E). injection E1 as <- <-. rewrite Hh in E.
  apply sr_bind_inv in E as (j1 & r1 & E1 & E). injection E1 as <- <-.
  apply sr_bind_inv in E as (j1 & r1 & E1 & E). unfold try_, on_file in E1.
  destruct (write_record io (page_size j) (appended_end j) entry replay payload version (file j)) as [v rw] eqn:Ew.
  destruct (write_record_spec _ _ _ _ _ _ _ _ _ _ (eq_sym Hlen) ltac:(lia) Hver Hdec Ew) as (Hv & Hk & Hr).
  injection E1 as <- <-.
  assert (wal_ok v (page_size j) (journal_id j) (marker j) (old ++ pub)) as Hw' by (eapply wal_grow; [exact Hw| |exact Hv|exact Hk]; lia).
  assert (Forall (disk (now v) (page_size j)) pend) as Hdisk'.
  { eapply chain_disk_agree; [|exact Hpend| |exact Hdisk]; [destruct Hw as [_ _ _ [] _ _ _ _]; lia|].
    eapply agree_sub; [exact (proj2 Hk)|lia|lia]. }
  destruct rw as [r|e].
  - left. destruct (Hr r eq_refl) as (Hon & Hre & Hro & Hen & Hrp & Hrs). injection E as <- <-. exists r. split_and!; try done.
    split; cbn; try done.
    + rewrite chain_snoc. split; [by rewrite Hro|done].
    + apply Forall_app. split; [done|by constructor].
    + apply Forall_app. split; [done|]. constructor; [|done]. by rewrite Hen.
    + by rewrite Hrec, app_assoc.
  - right. apply sr_bind_inv in E as (j1 & r1 & E1 & E). unfold try_, on_file, set_file_len in E1.
    cbn [file with_file] in E1. destruct (io 4%nat); injection E1 as <- <-.
    + left. apply lift_inv in E as [-> ->]. exists e. split; [done|]. split; [|done].
      set (f' := set_len (now v) (appended_end j)) in *.
      assert (keeps (now (file j)) (appended_end j) f') as Hk'.
      { eapply keeps_trans; [exact Hk|]. apply keeps_set_len; destruct Hk; lia. }
      assert (wal_ok (vupdate v f') (page_size j) (journal_id j) (marker j) (old ++ pub)) as Hw2.
      { eapply wal_grow; [exact Hw| | |exact Hk']; [lia|]. intros g Hg. unfold versions in Hg. cbn in Hg.
        apply elem_of_cons in Hg as [->|Hg]; [by right|by apply Hv]. }
      split; cbn; try done.
      * unfold f'. rewrite zlength_set_len; [done|lia].
      * eapply chain_disk_agree; [|exact Hpend| |exact Hdisk]; [destruct Hw as [_ _ _ [] _ _ _ _]; lia|].
        eapply agree_sub; [exact (proj2 Hk')|lia|lia].
    + right. apply sr_bind_inv in E as (j1 & r1 & E1 & E). injection E1 as <- <-. apply lift_inv in E as [-> ->].
      exists e. split; [done|]. split; [done|]. apply (durable_recovers (poison (with_file j v))). by split.
Qed.

(** A boundary handed out by this journal: if it is not stale and not yet published,
    it is that of a pending record. *)
Definition captured (j : Journal) (pend : list JournalRecord) (b : JournalBoundary) : Prop :=
  jb_epoch b <= epoch j /\
  (jb_epoch b = epoch j -> jb_end (boundary (marker j)) < jb_end b ->
   exists r, r ∈ pend /\ b = record_boundary r (journal_id j) (epoch j)).

Lemma boundary_of_captured j old pub pend : inv j old pub pend -> captured j pend (boundary_of j).
Proof.
  intros Hi. pose proof (inv_start _ _ _ _ Hi) as (Hp & Hst & Hsm & Hend). destruct Hi as [_ [Hw _] _ Hpend Hdisk _ Hrec _].
  unfold captured, boundary_of, last_boundary. rewrite Hrec. destruct pend as [|r pend _] using rev_ind.
  - rewrite app_nil_r. destruct Hw as [_ _ _ _ Hch Hd _ _]. apply chain_app in Hch as (x & _ & Hch). apply Forall_app in Hd as [_ Hd].
    destruct pub as [|r pub _] using rev_ind; cbn [last].
    + cbn. split; [lia|]. intros _ Hlt. lia.
    + rewrite last_snoc. cbn. split; [lia|]. intros _ Hlt. apply chain_snoc in Hch as [_ E]. lia.
  - rewrite app_assoc, last_snoc. cbn. split; [lia|]. intros _ _. exists r. split; [|done]. apply elem_of_app. right. left.
Qed.

(** The marker that publishes a pending record. *)
Lemma next_marker j old pub p1 r p2 g : inv j old pub (p1 ++ r :: p2) -> checked_add 64 (generation (marker j)) 1 = Some g ->
  let next := {| generation := g; replay_start := replay_start (marker j); boundary := record_boundary r (journal_id j) (epoch j) |} in
  marker_ok (page_size j) (journal_id j) next /\ follows (marker j) next /\
  chain (replay_start next) (old ++ pub ++ p1 ++ [r]) (jb_end (boundary next)) /\
  last_boundary (old ++ pub ++ p1 ++ [r]) (journal_id j) 0 (page_size j) = with_epoch (boundary next) 0 /\
  chain (jb_end (boundary next)) p2 (appended_end j) /\ jb_end (boundary (marker j)) < record_end r <= zlength (now (file j)).
Proof.
  intros Hi Hg next. pose proof (inv_start _ _ _ _ Hi) as (Hp & Hst & Hsm & Hend).
  destruct Hi as [_ [[_ _ _ Hm Hch Hd _ _] _] Hlen Hpend Hdisk Hent _ _].
  apply checked_add_Some in Hg as [-> Hgu].
  apply chain_app in Hpend as (x & Hc1 & Hor & Hc2). subst x.
  apply Forall_app in Hdisk as [Hd1 Hd2]. pose proof Hd2 as Hd2'. apply Forall_cons in Hd2 as [Hr Hd2].
  apply Forall_app in Hent as [_ Hent]. apply Forall_cons in Hent as [He _].
  destruct (on_disk_span _ _ _ Hr) as (Hs & Hsmod & _ & Hu & Ho0).
  pose proof (chain_le _ _ _ _ _ Hc1 Hd1) as Hle1. pose proof (chain_le _ _ _ _ _ Hc2 Hd2) as Hle2.
  destruct Hm. destruct (chain_bounds _ (page_size j) (jb_end (boundary (marker j))) _ _ Hp ltac:(lia) (proj1 (proj2 mo_end0)) Hc1 Hd1) as (_ & Homod & _).
  assert (record_end r mod page_size j = 0) as Hemod.
  { unfold record_end. rewrite Z.add_mod, Homod, Hsmod by lia. by rewrite Z.add_0_l, Z.mod_0_l by lia. }
  assert (jb_end (boundary (marker j)) < record_end r) as Hlt by (unfold record_end; lia).
  destruct Hr as (_ & h & p & Him & _).
  split_and!.
  - split; cbn; try done.
    + split_and!; [lia|done|done].
    + unfold record_end in *. split; [lia|]. destruct Hu. lia.
    + unfold record_end in *. intros _. split; [lia|done].
    + apply He.
    + apply He.
    + rewrite (im_sum _ _ _ _ Him). apply sha256_hash_ok.
  - split; [done|]. unfold not_monotonic. cbn. rewrite (proj2 (Z.ltb_ge _ _)) by lia. rewrite Z.ltb_irrefl.
    by rewrite (proj2 (Z.eqb_neq _ _)) by lia.
  - cbn. rewrite !app_assoc. apply chain_snoc. split; [|done]. rewrite <- app_assoc. rewrite app_assoc. apply chain_app. by eexists.
  - rewrite !app_assoc. unfold last_boundary. rewrite last_snoc. done.
  - done.
  - done.
  - lia.
Qed.

Lemma publish_inv io b j old pub pend j' res : inv j old pub pend -> captured j pend b ->
  publish io b j = (j', res) ->
  (exists e, res = Err e /\ j' = j) \/
  (res = Ok tt /\ j' = j /\ jb_end b = jb_end (boundary (marker j))) \/
  (exists p1 r p2, pend = p1 ++ r :: p2 /\ b = record_boundary r (journal_id j) (epoch j) /\
     ((res = Ok tt /\ inv j' old (pub ++ p1 ++ [r]) p2 /\ epoch j' = epoch j /\ journal_id j' = journal_id j /\
        jb_end (boundary (marker j')) = jb_end b) \/
      (exists e, res = Err e /\ poisoned j' = true /\
         recovers j' (fun recs => recs = old ++ pub \/ recs = old ++ pub ++ p1 ++ [r])))).
Proof.
  intros Hi [_ Hcap] E. pose proof Hi as [Hh Hdur Hlen Hpend Hdisk Hent Hrec Hpub]. unfold publish in E.
  apply sr_bind_inv in E as (j1 & r1 & E1 & E). injection E1 as <- <-. rewrite Hh in E.
  apply sr_bind_inv in E as (j1 & r1 & E1 & E). injection E1 as <- <-.
  apply sr_bind_inv in E as (j1 & r1 & E1 & E). apply lift_inv in E1 as [-> ->].
  destruct (require _ _) as [[]|e] eqn:Ereq; [|destruct E as [-> ->]; left; by eexists].
  apply require_ok, negb_true_iff in Ereq. rewrite !orb_false_iff, !negb_false_iff in Ereq.
  destruct Ereq as (((Hid%bool_decide_eq_true & Hep%Z.eqb_eq) & Hlo%Z.ltb_ge) & Hhi%Z.ltb_ge).
  destruct (Z.eqb_spec (jb_end b) (jb_end (boundary (marker j)))) as [Eend|Hne].
  { apply lift_inv in E as [-> ->]. destruct (bool_decide _); [right; left; done|left; by eexists]. }
  apply sr_bind_inv in E as (j1 & r1 & E1 & E). apply lift_inv in E1 as [-> ->].
  destruct (validate_boundary _ _ _) as [[]|e] eqn:Eval; [|destruct E as [-> ->]; left; by eexists].
  right; right. destruct (Hcap Hep ltac:(lia)) as (r & Hr & Eb). apply list_elem_of_split in Hr as (p1 & p2 & Ep). subst pend b.
  exists p1, r, p2. split; [done|]. split; [done|].
  assert (recovers j (eq (old ++ pub))) as Hrecov by (by apply durable_recovers).
  apply sr_bind_inv in E as (j1 & r1 & E1 & E). unfold try_ in E1.
  match type of E1 with (let '(_, _) := ?m j in _) = _ => destruct (m j) as [j2 r2] eqn:E2 end. injection E1 as <- <-.
  unfold on_file in E2. apply sr_bind_inv in E2 as (j3 & r3 & E3 & E2). unfold sync_file in E3.
  destruct (io 0%nat).
  2: { injection E3 as <- <-. destruct E2 as [-> ->]. apply sr_bind_inv in E as (j4 & r4 & E4 & E). injection E4 as <- <-.
       apply lift_inv in E as [-> ->]. right. eexists. split; [done|]. split; [done|].
       eapply recovers_weaken; [|exact Hrecov]. intros l <-. by left. }
  injection E3 as <- <-. apply sr_bind_inv in E2 as (j3 & r3 & E3 & E2). apply lift_inv in E3 as [-> ->].
  destruct Hdur as [Hw Hs].
  assert (recovers (poison (with_file j (vsync (file j)))) (eq (old ++ pub))) as Hrecov'.
  { apply (durable_recovers (poison (with_file j (vsync (file j))))). split; [by apply wal_sync|done]. }
  destruct (checked_add 64 (generation (marker j)) 1) as [g|] eqn:Eg.
  2: { cbn [ok_or] in E2. destruct E2 as [-> ->]. apply sr_bind_inv in E as (j4 & r4 & E4 & E). injection E4 as <- <-.
       apply lift_inv in E as [-> ->]. right. eexists. split; [done|]. split; [done|].
       eapply recovers_weaken; [|exact Hrecov']. intros l <-. by left. }
  cbn [ok_or] in E2. destruct (next_marker j old pub p1 r p2 g Hi Eg) as (Hmok & Hfol & Hch & Hlast & Hp2 & Hlt).
  cbn zeta in Hmok, Hfol, Hch, Hlast, Hp2.
  set (next := {| generation := g; replay_start := replay_start (marker j); boundary := record_boundary r (journal_id j) (epoch j) |}) in *.
  assert (Forall (disk (now (file j)) (page_size j)) (old ++ pub ++ p1 ++ [r])) as Hall.
  { destruct Hw as [_ _ _ _ _ Hd _ _]. apply Forall_app in Hd as [Hd1 Hd2]. apply Forall_app in Hdisk as [Hd3 Hd4].
    apply Forall_cons in Hd4 as [Hd4 _]. rewrite !Forall_app. split_and!; try done. by constructor. }
  assert (Forall (fun r => entry_ok (jr_entry r)) (old ++ pub ++ p1 ++ [r])) as Halle.
  { destruct Hw as [_ _ _ _ _ _ Hd _]. apply Forall_app in Hd as [Hd1 Hd2]. apply Forall_app in Hent as [Hd3 Hd4].
    apply Forall_cons in Hd4 as [Hd4 _]. rewrite !Forall_app. split_and!; try done. by constructor. }
  assert (wal_ok (vsync (file j)) (page_size j) (journal_id j) next (old ++ pub ++ p1 ++ [r])) as Hw'.
  { destruct Hw. split; try done. intros g' Hg'. unfold versions in Hg'. cbn in Hg'. apply list_elem_of_singleton in Hg' as ->.
    split_and!; [|done|done]. cbn. lia. }
  apply sr_bind_inv in E2 as (j3 & r3 & E3 & E2). unfold on_marker_file in E3. change (marker_file (with_file j ?x)) with (marker_file j) in E3.
  destruct (write_publication_marker io 1 next (marker_file j)) as [v rw] eqn:Ew. injection E3 as <- <-.
  destruct (write_marker_step _ _ _ _ _ _ _ _ _ Hs Hmok Hfol Ew) as [[-> Hs']|[[e ->] Hcrash]].
  - injection E2 as <- <-. injection E as <- <-. left. split; [done|]. split; [|done].
    split; cbn; try done.
    + apply Forall_app in Hdisk as [_ Hd]. by apply Forall_cons in Hd as [_ Hd].
    + apply Forall_app in Hent as [_ Hd]. by apply Forall_cons in Hd as [_ Hd].
    + rewrite Hrec, <- !app_assoc. done.
  - destruct E2 as [-> ->]. apply sr_bind_inv in E as (j4 & r4 & E4 & E). injection E4 as <- <-.
    apply lift_inv in E as [-> ->]. right. exists e. split; [done|]. split; [done|].
    intros nr fw fm Hfw Hfm Ht. cbn in Hfm, Ht. destruct (Hcrash fm Hfm Ht) as [Hl [Hslots|Hslots]].
    + destruct (recover_image (poison (with_marker_file (with_file j (vsync (file j))) v)) (marker j) (old ++ pub) nr fw fm
        (wal_sync _ _ _ _ _ Hw) Hfw Hl Hslots) as (j' & ?). exists j', (old ++ pub). split; [by left|done].
    + destruct (recover_image (poison (with_marker_file (with_file j (vsync (file j))) v)) next _ nr fw fm
        Hw' Hfw Hl Hslots) as (j' & ?). exists j', (old ++ pub ++ p1 ++ [r]). split; [by right|done].
Qed.

(** Discarding. *)
Lemma discard_inv io j old pub pend j' res : inv j old pub pend -> discard_unpublished io j = (j', res) ->
  (exists e, res = Err e /\ j' = j) \/
  (res = Ok tt /\ inv j' old pub [] /\ epoch j' = wrap 64 (epoch j + 1)).
Proof.
  intros Hi E. pose proof (inv_start _ _ _ _ Hi) as (Hp & Hst & Hsm & Hend).
  pose proof Hi as [Hh [Hw Hs] Hlen Hpend Hdisk Hent Hrec Hpub]. unfold discard_unpublished in E.
  apply sr_bind_inv in E as (j1 & r1 & E1 & E). injection E1 as <- <-. rewrite Hh in E.
  apply sr_bind_inv in E as (j1 & r1 & E1 & E). injection E1 as <- <-.
  apply sr_bind_inv in E as (j1 & r1 & E1 & E). unfold on_file, set_file_len in E1.
  destruct (io 0%nat); injection E1 as <- <-.
  2: { destruct E as [-> ->]. left. eexists. split; [done|]. by destruct j. }
  injection E as <- <-. right. split; [done|]. split; [|done].
  set (e := jb_end (boundary (marker j))) in *.
  assert (keeps (now (file j)) e (set_len (now (file j)) e)) as Hk by (apply keeps_set_len; lia).
  assert (wal_ok (vupdate (file j) (set_len (now (file j)) e)) (page_size j) (journal_id j) (marker j) (old ++ pub)) as Hw'.
  { eapply wal_grow; [exact Hw| | |exact Hk]; [fold e; lia|]. intros g Hg. unfold versions in Hg. cbn in Hg.
    apply elem_of_cons in Hg as [->|Hg]; [by right|by left]. }
  split; cbn; try done.
  - rewrite zlength_set_len by lia. done.
  - rewrite Hrec, app_nil_r. destruct Hw as [_ _ _ _ Hch Hd _ _]. apply chain_app in Hch as (m & Hold & Hpc).
    apply Forall_app in Hd as [Hd1 Hd2]. pose proof (chain_le _ _ _ _ _ Hold Hd1).
    rewrite (partition_chain (now (file j)) (page_size j) m pub pend e (appended_end j)); [|lia|lia|done|done|by apply Forall_app].
    apply take_app_length.
Qed.

(** ** Rolling back *)

Lemma chain_insert a l b i r : chain a l b -> l !! i = Some r -> forall s, chain a (<[i := set_status r s]> l) b.
Proof.
  revert a i; induction l as [|r' l IH]; intros a i Hc Hi s; [done|]. destruct Hc as [Ho Hc]. destruct i as [|i]; cbn in *.
  - injection Hi as ->. by split.
  - split; [done|]. by apply IH.
Qed.

Lemma chain_lookup f page a l b i r : chain a l b -> Forall (disk f page) l -> l !! i = Some r ->
  a <= jr_offset r /\ record_end r <= b /\
  forall k r', l !! k = Some r' -> k <> i -> record_end r' <= jr_offset r \/ record_end r <= jr_offset r'.
Proof.
  intros Hc Hd. revert a i Hc. induction Hd as [|r0 l Hr0 Hd IH]; intros a i Hc Hi; [done|]. destruct Hc as [Ho Hc].
  destruct (on_disk_span _ _ _ Hr0) as (Hs0 & _). destruct i as [|i]; cbn in Hi.
  - injection Hi as ->. pose proof (chain_le _ _ _ _ _ Hc Hd). split_and!; [lia|done|].
    intros [|k] r' Hk Hne; [done|]. cbn in Hk. right.
    rewrite <- (take_drop_middle l k r' Hk) in Hc, Hd. apply chain_app in Hc as (m & Hc1 & Hom & _).
    apply Forall_app in Hd as [Hd _]. pose proof (chain_le _ _ _ _ _ Hc1 Hd). lia.
  - destruct (IH _ _ Hc Hi) as (Hlo & Hhi & Hdis). unfold record_end in *. split_and!; [lia|done|].
    intros [|k] r' Hk Hne; cbn in Hk; [injection Hk as <-; left; lia|]. apply (Hdis k); [done|congruence].
Qed.

Lemma last_boundary_insert l i r s id e page : l !! i = Some r ->
  last_boundary (<[i := set_status r s]> l) id e page = last_boundary l id e page.
Proof.
  intros Hi. unfold last_boundary. rewrite !last_lookup, length_insert.
  destruct (decide (i = pred (length l))) as [->|Hne].
  - rewrite Hi, list_lookup_insert_eq by (by eapply lookup_lt_Some). done.
  - by rewrite list_lookup_insert_ne by done.
Qed.

Section Rollback.
Context (page a b : Z) (recs : list JournalRecord) (i : nat) (r : JournalRecord) (f : File).
Context (Ha : page <= a) (Hp : 0 < page) (Hc : chain a recs b) (Hd : Forall (disk f page) recs) (Hi : recs !! i = Some r).
Context (Hl : b <= zlength f).

Definition undone : File := write_all_at f (jr_offset r + STATUS_OFFSET) [status_to_byte RolledBack].

Lemma undone_disk : Forall (disk undone page) (<[i := set_status r RolledBack]> recs) /\ zlength undone = zlength f /\
  agree f undone 0 page.
Proof.
  destruct (chain_lookup _ _ _ _ _ _ _ Hc Hd Hi) as (Hlo & Hhi & Hdis).
  assert (disk f page r) as Hr by (rewrite Forall_forall in Hd; apply Hd; by eapply list_elem_of_lookup_2).
  destruct (set_status_spec f page r Hr) as [Hr' Hag]. destruct (Hag ltac:(lia)) as [Hlen Hagree]. fold undone in *.
  destruct (on_disk_span _ _ _ Hr) as (Hs & _). unfold record_end in *.
  split_and!; [|done|apply Hagree; lia].
  apply Forall_forall. intros r' Hin%list_elem_of_lookup_1. destruct Hin as [k Hk].
  destruct (decide (k = i)) as [->|Hne].
  - rewrite list_lookup_insert_eq in Hk by (by eapply lookup_lt_Some). injection Hk as <-. done.
  - rewrite list_lookup_insert_ne in Hk by done.
    assert (disk f page r') as Hr2 by (rewrite Forall_forall in Hd; apply Hd; by eapply list_elem_of_lookup_2).
    destruct (chain_lookup _ _ _ _ _ _ _ Hc Hd Hk) as (Hlo' & Hhi' & _). unfold record_end in *.
    eapply on_disk_agree; [exact Hr2|]. apply Hagree; [lia|unfold record_end; lia|]. unfold record_end.
    specialize (Hdis k r' Hk Hne). lia.
Qed.

(** A file that agrees with [f] except that the status byte may be the new one. *)
Lemma undone_mixed g : (forall k, (0 <= k < page \/ a <= k < b) ->
    zlookup g k = zlookup f k \/ zlookup g k = zlookup undone k) ->
  Forall (disk g page) recs \/ Forall (disk g page) (<[i := set_status r RolledBack]> recs).
Proof.
  intros Hg. destruct (chain_lookup _ _ _ _ _ _ _ Hc Hd Hi) as (Hlo & Hhi & Hdis).
  assert (disk f page r) as Hr by (rewrite Forall_forall in Hd; apply Hd; by eapply list_elem_of_lookup_2).
  destruct (on_disk_span _ _ _ Hr) as (Hs & _).
  pose proof Hr as (Ho & h & p & Him & Hst).
  destruct (record_span _ _ _ _ Him) as (Hspan & _). destruct Him as [Hhl _ _ _ _ _ _ _ _ _ _ _].
  rewrite !zlength_app, Hhl in Hspan. pose proof (zlength_nonneg p). pose proof (zlength_nonneg RECORD_TRAILER).
  unfold record_end, RECORD_HEADER_SIZE in *. set (q := jr_offset r + STATUS_OFFSET) in *.
  assert (a <= q < b) as Hq by (unfold q, STATUS_OFFSET; lia).
  assert (forall k, 0 <= k -> k <> q -> k < zlength f -> zlookup undone k = zlookup f k) as Hother.
  { intros k Hk Hne Hkl. unfold undone. fold q. rewrite zlookup_write by (done || lia). change (zlength [?z]) with 1.
    destruct (Z.ltb_spec k q), (Z.ltb_spec k (zlength f)), (Z.ltb_spec k (q + 1)); (done || lia). }
  destruct undone_disk as (Hud & Hul & _).
  destruct (Hg q ltac:(lia)) as [Eq|Eq].
  - left. eapply chain_disk_agree; [|exact Hc| |exact Hd]; [lia|]. intros k Hk. destruct (decide (k = q)) as [->|Hne]; [done|].
    destruct (Hg k ltac:(lia)) as [->| ->]; [done|]. symmetry. apply Hother; lia.
  - right. eapply chain_disk_agree; [| | |exact Hud]; [|by apply chain_insert|]; [lia|]. intros k Hk.
    destruct (decide (k = q)) as [->|Hne]; [done|]. destruct (Hg k ltac:(lia)) as [->| ->]; [|done]. apply Hother; lia.
Qed.
End Rollback.

Lemma pending_nil j old pub pend : inv j old pub pend -> appended_end j = published_end j -> pend = [].
Proof.
  intros Hi E. destruct Hi as [_ _ _ Hpend Hdisk _ _ Hpub]. rewrite E, Hpub in Hpend. destruct pend as [|r pend]; [done|].
  destruct Hpend as [Ho Hc]. apply Forall_cons in Hdisk as [Hr Hd]. pose proof (chain_le _ _ _ _ _ Hc Hd).
  destruct (on_disk_span _ _ _ Hr) as (? & _). unfold record_end in *. lia.
Qed.

(** Recovery with the status of one published record in flight. *)
Lemma rollback_recovers j recs i r v : durable j recs -> recs !! i = Some r ->
  (forall g, g ∈ versions v -> g ∈ versions (file j) \/ g = undone r (now (file j))) -> versions v <> [] ->
  recovers (poison (with_file j v)) (fun l => l = recs \/ l = <[i := set_status r RolledBack]> recs).
Proof.
  intros [Hw [Hsy Hsl Hss]] Hi Hv _ nr fw fm Hfw Hfm _. cbn in Hfw, Hfm. pose proof Hw as [Hpg Hsup Hver Hmo Hch Hd He Hb].
  pose proof Hmo as []. pose proof (Hver (now (file j)) ltac:(left)) as (Hlen & _).
  destruct (undone_disk _ _ _ _ _ _ _ (proj1 mo_start0) ltac:(lia) Hch Hd Hi Hlen) as (Hud & Hul & Hu0).
  assert (forall g, g ∈ versions v -> jb_end (boundary (marker j)) <= zlength g) as Hvl.
  { intros g [Hg| ->]%Hv; [by destruct (Hver g Hg)|lia]. }
  assert (forall k, (0 <= k < page_size j \/ replay_start (marker j) <= k < jb_end (boundary (marker j))) ->
    zlookup fw k = zlookup (now (file j)) k \/ zlookup fw k = zlookup (undone r (now (file j))) k) as Hmix.
  { intros k Hk. destruct Hfw as [_ Hfw]. destruct (Hfw k) as (g & Hg & E).
    - intros g Hg. specialize (Hvl g Hg). lia.
    - apply Hv in Hg as [Hg| ->]; [|by right]. left. rewrite E. destruct (Hver g Hg) as (_ & H0' & H1').
      symmetry. destruct Hk; [by apply H0'|by apply H1']. }
  assert (agree (now (file j)) fw 0 (page_size j)) as Hfw0.
  { intros k Hk. destruct (Hmix k ltac:(lia)) as [->| ->]; [done|by apply Hu0]. }
  assert (read_superblock fw = Ok (page_size j, journal_id j)) as Hsup'.
  { rewrite <- Hsup. unfold read_superblock.
    rewrite (read_agree fw (now (file j)) 0 (page_size j) 0 96); [done|by apply agree_sym|lia..]. }
  assert (jb_end (boundary (marker j)) <= zlength fw) as Hfl by (eapply crash_length; [exact Hvl|exact Hfw]).
  destruct (slots_crash_synced _ _ _ _ fm Hsl Hsy Hss Hfm) as [Hl Hslots].
  destruct (undone_mixed _ _ _ _ _ _ _ (proj1 mo_start0) ltac:(lia) Hch Hd Hi Hlen fw Hmix) as [Hdd|Hdd].
  - destruct (reopened_inv nr fw fm (journal_id j) (page_size j) (marker j) recs) as (j' & ?); try done.
    exists j', recs. split; [by left|done].
  - destruct (reopened_inv nr fw fm (journal_id j) (page_size j) (marker j) (<[i := set_status r RolledBack]> recs)) as (j' & ?); try done.
    + by apply chain_insert.
    + apply Forall_insert; [done|]. rewrite Forall_forall in He. apply (He r). by eapply list_elem_of_lookup_2.
    + by rewrite last_boundary_insert.
    + exists j', (<[i := set_status r RolledBack]> recs). split; [by right|done].
Qed.

Lemma rollback_inv io index j old pub pend j' res : inv j old pub pend -> mark_rolled_back io index j = (j', res) ->
  (exists e, res = Err e /\ j' = j) \/
  (exists r, pend = [] /\ pub !! index = Some r /\
    ((res = Ok tt /\ inv j' old (<[index := set_status r RolledBack]> pub) [] /\ epoch j' = epoch j /\ journal_id j' = journal_id j
        /\ marker j' = marker j) \/
     (exists e, res = Err e /\ poisoned j' = true /\
        recovers j' (fun l => l = old ++ pub \/ l = old ++ <[index := set_status r RolledBack]> pub)))).
Proof.
  intros Hi E. pose proof (inv_start _ _ _ _ Hi) as (Hp & Hst & Hsm & Hend). pose proof (inv_published _ _ _ _ Hi) as Epub.
  pose proof Hi as [Hh Hdur Hlen Hpend Hdisk Hent Hrec Hpub]. unfold mark_rolled_back in E.
  apply sr_bind_inv in E as (j1 & r1 & E1 & E). injection E1 as <- <-. rewrite Hh in E.
  apply sr_bind_inv in E as (j1 & r1 & E1 & E). injection E1 as <- <-.
  apply sr_bind_inv in E as (j1 & r1 & E1 & E). apply lift_inv in E1 as [-> ->].
  destruct (appended_end j =? published_end j) eqn:Eap; cbn [require] in E; [|destruct E as [-> ->]; left; by eexists].
  apply Z.eqb_eq in Eap. pose proof (pending_nil _ _ _ _ Hi Eap) as ->.
  apply sr_bind_inv in E as (j1 & r1 & E1 & E). apply lift_inv in E1 as [-> ->]. rewrite Epub in E.
  destruct (pub !! index) as [r|] eqn:Er; cbn [ok_or] in E; [|destruct E as [-> ->]; left; by eexists].
  right. exists r. split; [done|]. split; [done|].
  assert ((old ++ pub) !! (length old + index)%nat = Some r) as Ei by (rewrite lookup_app_r by lia; rewrite <- Er; f_equal; lia).
  assert (<[(length old + index)%nat := set_status r RolledBack]> (old ++ pub) = old ++ <[index := set_status r RolledBack]> pub) as Eins.
  { rewrite insert_app_r. done. }
  assert (forall v, (forall g, g ∈ versions v -> g ∈ versions (file j) \/ g = undone r (now (file j))) ->
    recovers (poison (with_file j v)) (fun l => l = old ++ pub \/ l = old ++ <[index := set_status r RolledBack]> pub)) as Hrc.
  { intros v Hv. rewrite <- Eins. by eapply rollback_recovers. }
  apply sr_bind_inv in E as (j1 & r1 & E1 & E). unfold try_, on_file in E1.
  match type of E1 with (let '(_, _) := (let '(_, _) := ?m (file j) in _) in _) = _ => destruct (m (file j)) as [v rv] eqn:E2 end.
  injection E1 as <- <-. apply sr_bind_inv in E2 as (v1 & r1 & E1 & E2). injection E1 as <- <-.
  change (write_all_at (now (file j)) (jr_offset r + STATUS_OFFSET) [1]) with (undone r (now (file j))) in E2.
  remember (undone r (now (file j))) as f' eqn:Ef' in E2, Hrc.
  assert (forall g, g ∈ versions (vupdate (file j) f') -> g ∈ versions (file j) \/ g = f') as Hvv.
  { intros g Hg. unfold versions in Hg. cbn in Hg. apply elem_of_cons in Hg as [->|Hg]; [by right|by left]. }
  destruct (io 0%nat).
  2: { destruct E2 as [-> ->]. apply sr_bind_inv in E as (j1 & r1 & E1 & E). injection E1 as <- <-. apply lift_inv in E as [-> ->].
       right. eexists. split; [done|]. split; [done|]. by apply Hrc. }
  unfold sync_file in E2. destruct (io 1%nat); injection E2 as <- <-.
  2: { apply sr_bind_inv in E as (j1 & r1 & E1 & E). injection E1 as <- <-. apply lift_inv in E as [-> ->].
       right. eexists. split; [done|]. split; [done|]. by apply Hrc. }
  injection E as <- <-. left. split; [done|]. split; [|done]. destruct Hdur as [Hw Hs].
  pose proof Hw as [Hpg Hsup Hver Hmo Hch Hd He Hb]. pose proof Hmo as [].
  pose proof (Hver (now (file j)) ltac:(left)) as (Hl0 & _).
  destruct (undone_disk _ _ _ _ _ _ _ (proj1 mo_start0) Hp Hch Hd Ei Hl0) as (Hud & Hul & Hu0). rewrite <- Ef' in Hud, Hul, Hu0. rewrite Eins in Hud.
  split; cbn; try done.
  - split; [|done]. cbn. split; cbn; try done.
    + rewrite <- Hsup. unfold read_superblock.
      rewrite (read_agree f' (now (file j)) 0 (page_size j) 0 96); [done|by apply agree_sym|lia..].
    + intros g Hg. unfold versions in Hg. cbn in Hg. apply list_elem_of_singleton in Hg as ->. split_and!; [lia|done|done].
    + rewrite <- Eins. by apply chain_insert.
    + rewrite <- Eins. apply Forall_insert; [done|]. rewrite Forall_forall in He. apply (He r). by eapply list_elem_of_lookup_2.
    + rewrite <- Eins. by rewrite last_boundary_insert.
  - lia.
  - rewrite Hrec, !app_nil_r. done.
Qed.

(** ** Pruning *)

Lemma prune_count_lt keep l n : (prune_count keep l n <= pred (length l))%nat.
Proof.
  revert n; induction l as [|r l IH]; intros n; cbn; [lia|]. destruct (decide _); [case_match; [lia|]|]; specialize (IH (n + 1)) as I1; specialize (IH n) as I2; lia.
Qed.

(** A prune handed out by this journal: it starts at a record that is still on disk,
    unless the replay floor has already passed it. *)
Definition prunable (j : Journal) (old pub : list JournalRecord) (p : JournalPrune) : Prop :=
  pr_replay_start p <= replay_start (marker j) \/
  exists o1 o2 r rest, old = o1 ++ o2 /\ o2 ++ pub = r :: rest /\ jr_offset r = pr_replay_start p.

Lemma prepare_inv keep j old pub pend j' res : inv j old pub pend -> prepare_prune keep j = (j', res) ->
  (j' = j /\ forall p, res <> Ok (Some p)) \/
  (exists p1 p2 p, pub = p1 ++ p2 /\ p1 <> [] /\ res = Ok (Some p) /\ inv j' (old ++ p1) p2 pend /\ epoch j' = epoch j /\
     journal_id j' = journal_id j /\ marker j' = marker j /\ prunable j' (old ++ p1) p2 p).
Proof.
  intros Hi E. pose proof (inv_published _ _ _ _ Hi) as Epub.
  pose proof Hi as [Hh Hdur Hlen Hpend Hdisk Hent Hrec Hpub]. unfold prepare_prune in E.
  apply sr_bind_inv in E as (j1 & r1 & E1 & E). injection E1 as <- <-. rewrite Hh in E.
  apply sr_bind_inv in E as (j1 & r1 & E1 & E). injection E1 as <- <-. rewrite Epub in E.
  set (count := prune_count keep (reverse pub) 0) in *.
  pose proof (prune_count_lt keep (reverse pub) 0) as Hcl. fold count in Hcl. rewrite length_reverse in Hcl.
  destruct (Nat.eqb_spec count 0) as [E0|Hne]; [injection E as <- <-; left; split; [done|intros p Hp; done]|].
  destruct (pub !! count) as [r|] eqn:Er; [|apply lift_inv in E as [-> ->]; left; split; [done|intros p Hp; done]].
  injection E as <- <-. right. pose proof (take_drop_middle pub count r Er) as Hsplit.
  exists (take count pub), (r :: drop (S count) pub), {| pr_replay_start := jr_offset r; pr_count := count |}.
  split; [done|]. split.
  { intros Ht. apply (f_equal length) in Ht. rewrite length_take in Ht. cbn in Ht. pose proof (lookup_lt_Some _ _ _ Er). lia. }
  split; [done|]. split; [|split_and!; try done].
  - split; cbn; try done.
    + rewrite <- app_assoc, Hsplit. done.
    + rewrite Hrec, drop_app_le by (pose proof (lookup_lt_Some _ _ _ Er); lia).
      rewrite <- Hsplit at 1. rewrite drop_app_length'; [done|]. rewrite length_take. pose proof (lookup_lt_Some _ _ _ Er). lia.
  - right. exists (old ++ take count pub), [], r, (drop (S count) pub). by rewrite app_nil_r.
Qed.

Lemma prune_count_forward keep l n : prune_count keep l n <> 0%nat ->
  exists r, reverse l !! prune_count keep l n = Some r /\ jr_status r = Forward.
Proof.
  revert n; induction l as [|r l IH]; intros n; cbn [prune_count]; [done|]. rewrite reverse_cons.
  destruct (decide (jr_status r = Forward)); [case_match; [intros _; exists r|]|].
  - split; [|done]. rewrite lookup_app_r by (by rewrite length_reverse). by rewrite length_reverse, Nat.sub_diag.
  - intros Hne. destruct (IH _ Hne) as (r' & Hr & Hf). exists r'. split; [|done]. by apply lookup_app_l_Some.
  - intros Hne. destruct (IH _ Hne) as (r' & Hr & Hf). exists r'. split; [|done]. by apply lookup_app_l_Some.
Qed.

(** Pruning keeps the records from a forward one on. *)
Lemma prepare_cut keep j old pub pend j' p1 p2 p : inv j old pub pend -> prepare_prune keep j = (j', Ok (Some p)) ->
  pub = p1 ++ p2 -> records j' = p2 ++ pend ->
  exists r rest, p2 = r :: rest /\ jr_status r = Forward /\ jr_offset r = pr_replay_start p.
Proof.
  intros Hi E Epub' Erec. pose proof (inv_published _ _ _ _ Hi) as Epub. unfold prepare_prune in E.
  apply sr_bind_inv in E as (j1 & r1 & E1 & E). injection E1 as <- <-.
  apply sr_bind_inv in E as (j1 & r1 & E1 & E). apply lift_inv in E1 as [-> ->]. destruct (require _ _) as [[]|]; [|by destruct E].
  rewrite Epub in E. destruct (Nat.eqb_spec (prune_count keep (reverse pub) 0) 0) as [|Hne]; [done|].
  destruct (prune_count_forward keep (reverse pub) 0 Hne) as (r & Er & Hf). rewrite reverse_involutive in Er. rewrite Er in E.
  injection E as <- <-. exists r, (drop (S (prune_count keep (reverse pub) 0)) pub). split; [|done].
  cbn in Erec. rewrite (iv_records _ _ _ _ Hi), drop_app_le in Erec by (apply lookup_lt_Some in Er; lia).
  apply app_inv_tail in Erec. by rewrite <- Erec, (drop_S _ r).
Qed.

(** Records of the journal are where they are only once. *)
Lemma offset_unique j old pub pend l1 r l2 r' : inv j old pub pend -> old ++ pub = l1 ++ r :: l2 -> r' ∈ r :: l2 -> jr_offset r' = jr_offset r -> r' = r.
Proof.
  intros [_ [[_ _ _ _ Hc Hd _ _] _] _ _ _ _ _ _] E Hin Ho. rewrite E in Hc, Hd. apply chain_app in Hc as (m & _ & [_ Hc]).
  apply Forall_app in Hd as [_ Hd]. apply Forall_cons in Hd as [Hr Hd]. apply elem_of_cons in Hin as [->|Hin]; [done|].
  destruct (on_disk_span _ _ _ Hr) as (Hs & _). apply list_elem_of_split in Hin as (k1 & k2 & ->).
  apply chain_app in Hc as (m' & Hc1 & [Ho' _]). apply Forall_app in Hd as [Hd _]. pose proof (chain_le _ _ _ _ _ Hc1 Hd).
  unfold record_end in *. lia.
Qed.

(** Advancing the replay floor to a record that is still on disk. *)
Lemma advance_floor j o1 o2 pub r rest g : durable j ((o1 ++ o2) ++ pub) -> o2 ++ pub = r :: rest ->
  replay_start (marker j) < jr_offset r -> is_u64 g -> g = generation (marker j) + 1 ->
  let next := {| generation := g; replay_start := jr_offset r; boundary := boundary (marker j) |} in
  wal_ok (file j) (page_size j) (journal_id j) next (o2 ++ pub) /\ follows (marker j) next /\
  marker_ok (page_size j) (journal_id j) next.
Proof.
  intros [[Hpg Hsup Hver Hmo Hch Hd He Hb] _] Eo Hlt Hg Eg next. pose proof Hmo as [].
  rewrite <- app_assoc in Hch, Hd, He, Hb. apply chain_app in Hch as (m & Hc1 & Hc2).
  apply Forall_app in Hd as [Hd1 Hd2]. apply Forall_app in He as [_ He].
  assert (m = jr_offset r) as -> by (rewrite Eo in Hc2; by destruct Hc2).
  destruct (chain_bounds _ (page_size j) (replay_start (marker j)) _ _ ltac:(lia) ltac:(lia) (proj2 mo_start0) Hc1 Hd1) as (_ & Hm & _).
  pose proof (chain_le _ _ _ _ _ Hc2 Hd2) as Hle.
  assert (marker_ok (page_size j) (journal_id j) next) as Hok.
  { split; cbn; try done; [split; [lia|done]|split_and!; [lia|tauto..]|].
    intros Hpe. destruct (mo_inside0 Hpe) as [[Hi1 Hi2] Hi3]. split; [|done]. split; [|done].
    (* the boundary is that of the last retained record *)
    assert (jr_offset r <= jb_offset (boundary (marker j))); [|lia].
    destruct (o2 ++ pub) as [|r0 l0 _] using rev_ind; [done|]. rewrite app_assoc in Hb. unfold last_boundary in Hb. rewrite last_snoc in Hb.
    assert (jb_offset (boundary (marker j)) = jr_offset r0) as -> by (by apply (f_equal jb_offset) in Hb).
    apply chain_snoc in Hc2 as [Hc2 _]. apply Forall_app in Hd2 as [Hd2 _]. by eapply chain_le. }
  split_and!; [|split; [done|]|done].
  - split; try done.
    + intros f' Hf'. destruct (Hver f' Hf') as (? & ? & ?). split_and!; [done|done|]. cbn. eapply agree_sub; [done|lia|lia].
    + rewrite last_boundary_app in Hb; [done|]. rewrite Eo. done.
  - unfold not_monotonic. cbn. rewrite Z.ltb_irrefl, Z.eqb_refl. cbn. rewrite (proj2 (Z.ltb_ge _ _)) by lia.
    by rewrite bool_decide_eq_true_2 by done.
Qed.

(** Reclaiming pages below the replay floor. *)
Lemma punch_wal v page id m recs start : wal_ok v page id m recs -> page <= start <= replay_start m ->
  let v' := vupdate v (punch_hole (now v) start (replay_start m - start)) in
  wal_ok v' page id m recs /\ zlength (now v') = zlength (now v) /\ agree (now v) (now v') (replay_start m) (zlength (now v)).
Proof.
  intros [Hpg Hsup Hver Hmo Hch Hd He Hb] Hs v'. pose proof Hmo as [].
  assert (forall a b, 0 <= a -> b <= start \/ replay_start m <= a -> agree (now v) (now v') a b) as Hag.
  { intros a b Ha Hd' i Hi. cbn. rewrite zlookup_punch by lia. done. }
  assert (zlength (now v') = zlength (now v)) as Hl by (cbn; apply zlength_punch; lia).
  split_and!; [|done|apply Hag; lia]. split; try done.
  - rewrite <- Hsup. unfold read_superblock. rewrite (read_agree (now v') (now v) 0 page 0 96); [done|apply agree_sym, Hag; lia|lia..].
  - intros g Hg. unfold versions in Hg. cbn [unsynced v' vupdate] in Hg.
    assert (g = now v' \/ g ∈ versions v) as [->|Hg'] by (apply elem_of_cons in Hg; unfold versions; tauto).
    + destruct (Hver (now v) ltac:(left)) as (? & _). split_and!; [lia|done|done].
    + destruct (Hver g Hg') as (? & ? & ?). split_and!; [done| |].
      * eapply agree_trans; [apply agree_sym, Hag; lia|done].
      * eapply agree_trans; [apply agree_sym, Hag; lia|done].
  - eapply chain_disk_agree; [|exact Hch| |exact Hd]; [lia|]. apply Hag; lia.
Qed.

Lemma same_record_follows m g : g = generation m + 1 -> let next := {| generation := g; replay_start := replay_start m; boundary := boundary m |} in
  follows m next.
Proof.
  intros -> next. split; [done|]. unfold not_monotonic. cbn. rewrite !Z.ltb_irrefl, Z.eqb_refl. cbn.
  by rewrite bool_decide_eq_true_2 by done.
Qed.

Lemma finish_inv io tolerated p j old pub pend j' res : inv j old pub pend -> prunable j old pub p ->
  finish io tolerated p j = (j', res) ->
  (j' = j) \/
  (exists o1 o2, old = o1 ++ o2 /\ (exists r rest, o2 ++ pub = r :: rest /\ jr_offset r = pr_replay_start p) /\
     ((inv j' o2 pub pend /\ epoch j' = epoch j /\ journal_id j' = journal_id j /\
       jb_end (boundary (marker j')) = jb_end (boundary (marker j)) /\ replay_start (marker j') = pr_replay_start p /\
       replay_start (marker j) <= replay_start (marker j')) \/
      (exists e, res = Err e /\ poisoned j' = true /\ recovers j' (fun l => l = old ++ pub \/ l = o2 ++ pub)))).
Proof.
  intros Hi Hpr E. pose proof (inv_start _ _ _ _ Hi) as (Hp & Hst & Hsm & Hend).
  pose proof Hi as [Hh Hdur Hlen Hpend Hdisk Hent Hrec Hpub]. unfold finish in E.
  apply sr_bind_inv in E as (j1 & r1 & E1 & E). injection E1 as <- <-. rewrite Hh in E.
  apply sr_bind_inv in E as (j1 & r1 & E1 & E). injection E1 as <- <-.
  destruct (Z.leb_spec (pr_replay_start p) (replay_start (marker j))) as [|Hlt]; [injection E as <- <-; by left|].
  destruct Hpr as [Hpr|(o1 & o2 & r & rest & Eold & Erest & Er)]; [lia|].
  apply sr_bind_inv in E as (j1 & r1 & E1 & E). apply lift_inv in E1 as [-> ->].
  destruct (require _ _) as [[]|e] eqn:Ereq; [|destruct E as [-> _]; by left].
  apply sr_bind_inv in E as (j1 & r1 & E1 & E). apply lift_inv in E1 as [-> ->].
  destruct (checked_add 64 (generation (marker j)) 1) as [g|] eqn:Eg; cbn [ok_or] in E; [|destruct E as [-> _]; by left].
  apply checked_add_Some in Eg as [-> Hgu]. right. exists o1, o2. split; [done|]. split; [by exists r, rest|].
  subst old. rewrite <- Er in *. destruct (advance_floor j o1 o2 pub r rest _ Hdur Erest Hlt Hgu eq_refl) as (Hw' & Hfol & Hmok).
  set (next := {| generation := generation (marker j) + 1; replay_start := jr_offset r; boundary := boundary (marker j) |}) in *.
  destruct Hdur as [Hw Hs].
  apply sr_bind_inv in E as (j1 & r1 & E1 & E). unfold try_, on_marker_file in E1.
  destruct (write_publication_marker io 0 next (marker_file j)) as [v rv] eqn:Ew. injection E1 as <- <-.
  destruct (write_marker_step _ _ _ _ _ _ _ _ _ Hs Hmok Hfol Ew) as [[-> Hs']|[[e ->] Hcrash]].
  2: { apply sr_bind_inv in E as (j4 & r4 & E4 & E). injection E4 as <- <-. apply lift_inv in E as [-> ->].
       right. exists e. split; [done|]. split; [done|]. intros nr fw fm Hfw Hfm Ht. cbn in Hfw, Hfm, Ht.
       destruct (Hcrash fm Hfm Ht) as [Hl [Hslots|Hslots]].
       - destruct (recover_image (poison (with_marker_file j v)) (marker j) _ nr fw fm Hw Hfw Hl Hslots) as (j' & ?).
         exists j', ((o1 ++ o2) ++ pub). split; [by left|done].
       - destruct (recover_image (poison (with_marker_file j v)) next _ nr fw fm Hw' Hfw Hl Hslots) as (j' & ?).
         exists j', (o2 ++ pub). split; [by right|done]. }
  apply sr_bind_inv in E as (j1 & r1 & E1 & E). injection E1 as <- <-.
  assert (forall v' w' m2, wal_ok w' (page_size j) (journal_id j) m2 (o2 ++ pub) -> slots_ok v' (page_size j) (journal_id j) m2 ->
    boundary m2 = boundary (marker j) -> zlength (now w') = zlength (now (file j)) ->
    agree (now (file j)) (now w') (jr_offset r) (zlength (now (file j))) ->
    inv (with_file (with_marker (with_marker_file j v') m2 (published_end j)) w') o2 pub pend) as Hinv.
  { intros v' w' m2 Hw2 Hs2 Eb Hlw Haw. split; cbn; rewrite ?Eb; try done; [lia|].
    eapply chain_disk_agree; [|exact Hpend| |exact Hdisk]; [lia|]. eapply agree_sub; [exact Haw| |lia].
    destruct Hw' as [_ _ _ _ Hch Hd _ _]. by eapply chain_le in Hd. }
  apply sr_bind_inv in E as (j1 & r1 & E1 & E). apply lift_inv in E1 as [-> ->].
  destruct (checked_add 64 (generation next) 1) as [g2|] eqn:Eg2; cbn [ok_or] in E.
  2: { destruct E as [-> _]. left. split_and!; try done; cbn; lia. }
  apply checked_add_Some in Eg2 as [-> Hgu2].
  set (again := {| generation := generation next + 1; replay_start := replay_start next; boundary := boundary next |}) in *.
  assert (follows next again) as Hfol2 by (by apply same_record_follows).
  assert (marker_ok (page_size j) (journal_id j) again) as Hmok2 by (destruct Hmok; by split).
  assert (wal_ok (file j) (page_size j) (journal_id j) again (o2 ++ pub)) as Hw2 by (destruct Hw'; by split).
  apply sr_bind_inv in E as (j1 & r1 & E1 & E). unfold try_, on_marker_file in E1.
  change (marker_file (with_marker (with_marker_file j v) next _)) with v in E1.
  destruct (write_publication_marker io 2 again v) as [v2 rv] eqn:Ew2. injection E1 as <- <-.
  destruct (write_marker_step _ _ _ _ _ _ _ _ _ Hs' Hmok2 Hfol2 Ew2) as [[-> Hs2]|[[e ->] Hcrash]].
  2: { apply sr_bind_inv in E as (j4 & r4 & E4 & E). injection E4 as <- <-. apply lift_inv in E as [-> ->].
       right. exists e. split; [done|]. split; [done|]. intros nr fw fm Hfw Hfm Ht. cbn in Hfw, Hfm, Ht.
       destruct (Hcrash fm Hfm Ht) as [Hl Hslots].
       assert (exists m2, wal_ok (file j) (page_size j) (journal_id j) m2 (o2 ++ pub) /\ slots_hold fm (journal_id j) (page_size j) m2)
         as (m2 & Hm2 & Hsl2) by (destruct Hslots; [by exists next|by exists again]).
       destruct (recover_image (poison (with_marker_file j v2)) m2 _ nr fw fm Hm2 Hfw Hl Hsl2) as (j' & ?).
       exists j', (o2 ++ pub). split; [by right|done]. }
  apply sr_bind_inv in E as (j1 & r1 & E1 & E). injection E1 as <- <-.
  apply sr_bind_inv in E as (j1 & r1 & E1 & E). unfold try_, on_file, update_file in E1. injection E1 as <- <-.
  destruct (punch_wal (file j) _ _ again _ (replay_start (marker j)) Hw2) as (Hw3 & Hl3 & Ha3); [cbn; lia|].
  left. cbn [replay_start again next] in Hw3, Hl3, Ha3.
  assert (inv (with_file (with_marker (with_marker_file j v2) again (published_end j))
      (vupdate (file j) (punch_hole (now (file j)) (replay_start (marker j)) (jr_offset r - replay_start (marker j))))) o2 pub pend) as Hfin.
  { by apply Hinv. }
  assert (j' = with_file (with_marker (with_marker_file j v2) again (published_end j))
      (vupdate (file j) (punch_hole (now (file j)) (replay_start (marker j)) (jr_offset r - replay_start (marker j))))) as ->.
  { destruct (io 4%nat); [by injection E as <- _|]. destruct tolerated; [by injection E as <- _|by apply lift_inv in E as [-> _]]. }
  split_and!; try done. cbn. lia.
Qed.

(** ** All operations *)

Inductive Op :=
| OpAppend (entry : JournalEntryData) (header : Header) (proof : Udata.Udata.CompactBlockProof) (rows : Z)
| OpFlush
| OpPublish (b : JournalBoundary)
| OpDiscard
| OpRollBack (index : nat)
| OpPrune (keep : Z)
| OpFinish (tolerated : bool) (p : JournalPrune).

Definition run_op (io : Io) (op : Op) : SR Journal unit :=
  match op with
  | OpAppend entry header proof rows => append_block io entry header proof rows;; mret tt
  | OpFlush => flush io
  | OpPublish b => publish io b
  | OpDiscard => discard_unpublished io
  | OpRollBack index => mark_rolled_back io index
  | OpPrune keep => prepare_prune keep;; mret tt
  | OpFinish tolerated p => finish io tolerated p;; mret tt
  end.

(** The journal in the abstract: pruned but still on disk, published, appended. *)
Definition Abs : Type := list JournalRecord * list JournalRecord * list JournalRecord.
(** What a restart brings back. *)
Definition recovered (s : Abs) : list JournalRecord := let '(old, pub, _) := s in old ++ pub.

Inductive moves : Op -> Abs -> Abs -> Prop :=
| moves_append entry header proof rows old pub pend r :
    jr_entry r = entry -> jr_status r = Forward ->
    jr_replay r = Some {| rp_header := header; rp_proof := proof; proof_forest_rows := rows |} ->
    moves (OpAppend entry header proof rows) (old, pub, pend) (old, pub, pend ++ [r])
| moves_publish b old pub p1 r p2 : jb_end b = record_end r ->
    moves (OpPublish b) (old, pub, p1 ++ r :: p2) (old, pub ++ p1 ++ [r], p2)
| moves_discard old pub pend : moves OpDiscard (old, pub, pend) (old, pub, [])
| moves_rollback index old pub r : pub !! index = Some r ->
    moves (OpRollBack index) (old, pub, []) (old, <[index := set_status r RolledBack]> pub, [])
| moves_prune keep old p1 p2 pend : p1 <> [] -> moves (OpPrune keep) (old, p1 ++ p2, pend) (old ++ p1, p2, pend)
| moves_finish tolerated p o1 o2 pub pend : moves (OpFinish tolerated p) (o1 ++ o2, pub, pend) (o2, pub, pend).

(** What the caller owes: values of the right type, and handles of this journal. *)
Definition op_ok (j : Journal) (s : Abs) (op : Op) : Prop :=
  let '(old, pub, pend) := s in
  match op with
  | OpAppend entry header proof rows => entry_ok entry /\ Udata.Udata.proof_ok proof /\ 0 <= rows
  | OpPublish b => captured j pend b
  | OpFinish _ p => prunable j old pub p
  | _ => True
  end.

(** Operations that return without changing anything although they succeed. *)
Definition may_skip (op : Op) : Prop :=
  match op with OpFlush | OpPublish _ | OpPrune _ | OpFinish _ _ => True | _ => False end.

Definition abs_inv (j : Journal) (s : Abs) : Prop := let '(old, pub, pend) := s in inv j old pub pend.

(** Handles stay valid. *)
Definition handles_kept (j : Journal) (s : Abs) (j' : Journal) (s' : Abs) : Prop :=
  let '(old, pub, pend) := s in let '(old', pub', pend') := s' in
  (forall b, captured j pend b -> captured j' pend' b) /\ (forall p, prunable j old pub p -> prunable j' old' pub' p).

Lemma handles_refl j s : handles_kept j s j s.
Proof. destruct s as [[? ?] ?]. split; auto. Qed.

Lemma append_block_inv io entry header proof rows j old pub pend j' res :
  inv j old pub pend -> entry_ok entry -> Udata.Udata.proof_ok proof -> 0 <= rows ->
  append_block io entry header proof rows j = (j', res) ->
  (exists r b, res = Ok b /\ inv j' old pub (pend ++ [r]) /\ moves (OpAppend entry header proof rows) (old, pub, pend) (old, pub, pend ++ [r])
     /\ epoch j' = epoch j /\ journal_id j' = journal_id j /\ marker j' = marker j) \/
  (exists e, res = Err e /\ inv j' old pub pend /\ epoch j' = epoch j /\ journal_id j' = journal_id j /\ marker j' = marker j) \/
  (exists e, res = Err e /\ poisoned j' = true /\ recovers j' (eq (old ++ pub))).
Proof.
  intros Hi He Hp Hr E. unfold append_block in E.
  apply sr_bind_inv in E as (j1 & r1 & E1 & E). apply lift_inv in E1 as [-> ->].
  destruct (require _ _) as [[]|e] eqn:Ereq; [|destruct E as [-> ->]; right; left; by eexists].
  apply require_ok, negb_true_iff, orb_false_iff in Ereq as [Hfr%bool_decide_eq_false Hr63%Z.ltb_ge].
  apply sr_bind_inv in E as (j1 & r1 & E1 & E). apply lift_inv in E1 as [-> ->].
  destruct (require _ _) as [[]|e] eqn:Ereq; [|destruct E as [-> ->]; right; left; by eexists].
  apply require_ok, negb_true_iff, orb_false_iff in Ereq as [Hh Hv].
  apply negb_false_iff, bool_decide_eq_true in Hh. apply negb_false_iff, bool_decide_eq_true in Hv.
  apply sr_bind_inv in E as (j1 & r1 & E1 & E). apply lift_inv in E1 as [-> ->].
  destruct (encode_payload _ _ _ _) as [payload|e] eqn:Epl; [|destruct E as [-> ->]; right; left; by eexists].
  apply sr_bind_inv in E as (j1 & r1 & E1 & E).
  pose proof (decode_encode_payload entry header proof rows payload He Hfr Hp ltac:(lia) Hh Hv Epl) as Hdec.
  assert (1 <= RECORD_VERSION <= 3) as Hver by (unfold RECORD_VERSION; lia).
  destruct (append_payload_inv _ _ _ _ _ _ _ _ _ _ _ Hi He Hdec Hver E1)
    as [(r & -> & Hi' & Hen & Hrp & Hst & Hep & Hid & Hm)|[(e & -> & Hi' & Hrest)|(e & -> & Hpo & Hrec)]].
  - left. apply sr_bind_inv in E as (j2 & r2 & E2 & E). injection E2 as <- <-. injection E as <- <-. exists r, (boundary_of j1).
    split_and!; try done. by constructor.
  - right. left. destruct E as [-> ->]. by exists e.
  - right. right. destruct E as [-> ->]. by exists e.
Qed.

Lemma captured_same j j' pend pend' b : epoch j' = epoch j -> journal_id j' = journal_id j -> marker j' = marker j ->
  (forall r, r ∈ pend -> r ∈ pend') -> captured j pend b -> captured j' pend' b.
Proof.
  intros He Hid Hm Hin [Hle Hc]. unfold captured. rewrite He, Hid, Hm. split; [done|]. intros E1 E2.
  destruct (Hc E1 E2) as (r & Hr & ->). exists r. split; [by apply Hin|done].
Qed.

Lemma prunable_mono j j' old old' pub pub' p : replay_start (marker j) <= replay_start (marker j') ->
  (forall o1 o2 r rest, old = o1 ++ o2 -> o2 ++ pub = r :: rest -> replay_start (marker j') < jr_offset r ->
     exists o1' o2' r' rest', old' = o1' ++ o2' /\ o2' ++ pub' = r' :: rest' /\ jr_offset r' = jr_offset r) ->
  prunable j old pub p -> prunable j' old' pub' p.
Proof.
  intros Hs Hx [Hp|(o1 & o2 & r & rest & E1 & E2 & E3)]; [left; lia|].
  destruct (Z.le_gt_cases (pr_replay_start p) (replay_start (marker j'))) as [|Hlt]; [by left|]. right.
  destruct (Hx o1 o2 r rest E1 E2 ltac:(lia)) as (o1' & o2' & r' & rest' & ? & ? & E). exists o1', o2', r', rest'. split_and!; [done|done|lia].
Qed.

(** What running an operation may lead to. *)
Definition atomic (op : Op) (j : Journal) (s : Abs) (j' : Journal) (res : result unit) : Prop :=
  (exists s', ((s' = s /\ (res = Ok tt -> may_skip op)) \/ moves op s s') /\ abs_inv j' s' /\ handles_kept j s j' s') \/
  (poisoned j' = true /\ is_ok res = false /\
   exists s', (s' = s \/ moves op s s') /\ recovers j' (fun l => l = recovered s \/ l = recovered s')).

Lemma atomic_same op j s res : abs_inv j s -> (res = Ok tt -> may_skip op) -> atomic op j s j res.
Proof. intros Hi Hr. left. exists s. split; [by left|]. split; [done|apply handles_refl]. Qed.

Lemma drop_result {A} (m : SR Journal A) j j' res : (m;; mret tt) j = (j', res) ->
  exists r, m j = (j', r) /\ match r with Ok _ => res = Ok tt | Err e => res = Err e end.
Proof.
  intros E. apply sr_bind_inv in E as (j1 & r1 & E1 & E). destruct r1 as [a|e].
  - injection E as <- <-. exists (Ok a). done.
  - destruct E as [-> ->]. by exists (Err e).
Qed.

Lemma publish_handles j j' old pub p1 r p2 : inv j old pub (p1 ++ r :: p2) -> inv j' old (pub ++ p1 ++ [r]) p2 ->
  epoch j' = epoch j -> journal_id j' = journal_id j -> replay_start (marker j') = replay_start (marker j) ->
  jb_end (boundary (marker j')) = record_end r ->
  handles_kept j (old, pub, p1 ++ r :: p2) j' (old, pub ++ p1 ++ [r], p2).
Proof.
  intros Hi Hi' He Hid Hs Hend. pose proof (inv_start _ _ _ _ Hi) as (? & ? & ? & ?).
  destruct Hi as [_ _ _ Hpend Hdisk _ _ _]. split.
  - intros b [Hle Hc]. unfold captured. rewrite He, Hid. split; [done|]. rewrite Hend. intros E1 E2.
    apply chain_app in Hpend as (m & Hc1 & <- & Hc2). apply Forall_app in Hdisk as [Hd1 Hd2]. apply Forall_cons in Hd2 as [Hr Hd2].
    destruct (on_disk_span _ _ _ Hr) as (Hsp & _). pose proof (chain_le _ _ _ _ _ Hc1 Hd1). unfold record_end in *.
    destruct (Hc E1 ltac:(lia)) as (r' & Hin & ->). exists r'. split; [|done].
    apply elem_of_app in Hin as [Hin|Hin]; [|apply elem_of_cons in Hin as [->|Hin]; [cbn in E2; unfold record_end in *; lia|done]].
    exfalso. apply list_elem_of_lookup_1 in Hin as [k Hk].
    destruct (chain_lookup _ _ _ _ _ _ _ Hc1 Hd1 Hk) as (_ & Hre & _). cbn in E2. unfold record_end in *. lia.
  - intros p. apply prunable_mono; [lia|]. intros o1 o2 r' rest E1 E2 _. exists o1, o2, r', (rest ++ p1 ++ [r]).
    split_and!; [done|by rewrite app_assoc, E2|done].
Qed.

Lemma publish_floor io b j j' res : publish io b j = (j', res) -> replay_start (marker j') = replay_start (marker j).
Proof.
  intros E. unfold publish in E.
  apply sr_bind_inv in E as (j1 & r1 & E1 & E). injection E1 as <- <-.
  apply sr_bind_inv in E as (j1 & r1 & E1 & E). apply lift_inv in E1 as [-> ->].
  destruct (require _ _) as [[]|]; [|by destruct E as [-> _]].
  apply sr_bind_inv in E as (j1 & r1 & E1 & E). apply lift_inv in E1 as [-> ->].
  destruct (require _ _) as [[]|]; [|by destruct E as [-> _]].
  destruct (_ =? _); [by apply lift_inv in E as [-> _]|].
  apply sr_bind_inv in E as (j1 & r1 & E1 & E). apply lift_inv in E1 as [-> ->].
  destruct (validate_boundary _ _ _) as [[]|]; [|by destruct E as [-> _]].
  apply sr_bind_inv in E as (j1 & r1 & E1 & E). unfold try_ in E1.
  match type of E1 with (let '(_, _) := ?m j in _) = _ => destruct (m j) as [j2 r2] eqn:E2 end. injection E1 as <- <-.
  assert (replay_start (marker j2) = replay_start (marker j)) as Hj2.
  { apply sr_bind_inv in E2 as (j3 & r3 & E3 & E2). unfold on_file, sync_file in E3.
    destruct (io 0%nat); injection E3 as <- <-; [|by destruct E2 as [-> _]].
    apply sr_bind_inv in E2 as (j3 & r3 & E3 & E2). apply lift_inv in E3 as [-> ->].
    destruct (checked_add _ _ _) as [g|]; [|by destruct E2 as [-> _]]. cbn [ok_or] in E2.
    apply sr_bind_inv in E2 as (j3 & r3 & E3 & E2). unfold on_marker_file in E3.
    match type of E3 with (let '(_, _) := ?m in _) = _ => destruct m end. injection E3 as <- <-.
    destruct r as [[]|]; [by injection E2 as <- _|by destruct E2 as [-> _]]. }
  destruct r2 as [[]|].
  - by injection E as <- _.
  - apply sr_bind_inv in E as (j3 & r3 & E3 & E). injection E3 as <- <-. by apply lift_inv in E as [-> _].
Qed.

Lemma op_atomic io op j s j' res : abs_inv j s -> op_ok j s op -> epoch j + 1 < 2 ^ 64 -> 0 <= epoch j ->
  run_op io op j = (j', res) -> atomic op j s j' res.
Proof.
  destruct s as [[old pub] pend]. intros Hi Hok Hep Hep0 E. cbn in Hi, Hok. destruct op; cbn in E.
  - destruct Hok as (He & Hp & Hr). apply drop_result in E as (r & E & Er).
    destruct (append_block_inv _ _ _ _ _ _ _ _ _ _ _ Hi He Hp Hr E)
      as [(rec & b & -> & Hi' & Hmv & Hee & Hid & Hm)|[(e & -> & Hi' & Hee & Hid & Hm)|(e & -> & Hpo & Hrec)]].
    + left. exists (old, pub, pend ++ [rec]). split; [by right|]. split; [done|]. split.
      * intros b'. apply captured_same; try done. intros. apply elem_of_app. by left.
      * intros p. apply prunable_mono; [by rewrite Hm|]. intros o1 o2 r0 rest E1 E2 _. by exists o1, o2, r0, rest.
    + left. exists (old, pub, pend). split; [left; by subst|]. split; [done|]. split.
      * intros b'. by apply captured_same.
      * intros p. apply prunable_mono; [by rewrite Hm|]. intros o1 o2 r0 rest E1 E2 _. by exists o1, o2, r0, rest.
    + right. subst res. split; [done|]. split; [done|]. exists (old, pub, pend). split; [by left|].
      eapply recovers_weaken; [|exact Hrec]. intros l <-. by left.
  - unfold flush, on_file, sync_file in E. destruct (io 0%nat); injection E as <- <-.
    + left. exists (old, pub, pend). split; [by left|]. split; [|by split].
      destruct Hi as [Hh [Hw Hs] Hlen Hpend Hdisk Hent Hrec Hpub]. split; try done. split; [by apply wal_sync|done].
    + replace (with_file j (file j)) with j by (by destruct j). by apply atomic_same.
  - pose proof (publish_floor _ _ _ _ _ E) as Hfl.
    destruct (publish_inv _ _ _ _ _ _ _ _ Hi Hok E) as [(e & -> & ->)|[(-> & -> & _)|(p1 & r & p2 & -> & Eb & Hcase)]];
      [by apply atomic_same|by apply atomic_same|].
    assert (moves (OpPublish b) (old, pub, p1 ++ r :: p2) (old, pub ++ p1 ++ [r], p2)) as Hmv by (constructor; by subst b).
    destruct Hcase as [(-> & Hi' & Hee & Hid & Hend)|(e & -> & Hpo & Hrec)].
    + left. exists (old, pub ++ p1 ++ [r], p2). split; [by right|]. split; [done|].
      apply publish_handles; try done. rewrite Hend. by subst b.
    + right. split; [done|]. split; [done|]. exists (old, pub ++ p1 ++ [r], p2). split; [by right|done].
  - destruct (discard_inv _ _ _ _ _ _ _ Hi E) as [(e & -> & ->)|(-> & Hi' & Hee)]; [by apply atomic_same|].
    left. exists (old, pub, []). split; [right; constructor|]. split; [done|].
    assert (marker j' = marker j) as Hm.
    { clear -E. unfold discard_unpublished in E. apply sr_bind_inv in E as (j1 & r1 & E1 & E). injection E1 as <- <-.
      apply sr_bind_inv in E as (j1 & r1 & E1 & E). apply lift_inv in E1 as [-> ->].
      destruct (require _ _) as [[]|]; [|by destruct E as [-> _]].
      apply sr_bind_inv in E as (j1 & r1 & E1 & E). unfold on_file, set_file_len in E1.
      destruct (io 0%nat); injection E1 as <- <-; [by injection E as <-|by destruct E as [-> _]]. }
    split.
    + intros b [Hle Hc]. split; rewrite Hee, wrap_small by (split; lia); [lia|]. intros. lia.
    + intros p. apply prunable_mono; [by rewrite Hm|]. intros o1 o2 r0 rest E1 E2 _. by exists o1, o2, r0, rest.
  - destruct (rollback_inv _ _ _ _ _ _ _ _ Hi E) as [(e & -> & ->)|(r & -> & Er & Hcase)]; [by apply atomic_same|].
    assert (moves (OpRollBack index) (old, pub, []) (old, <[index := set_status r RolledBack]> pub, [])) as Hmv by (by constructor).
    destruct Hcase as [(-> & Hi' & Hee & Hid & Hm)|(e & -> & Hpo & Hrec)].
    + left. eexists. split; [by right|]. split; [exact Hi'|]. split.
      * intros b. by apply captured_same.
      * intros p. apply prunable_mono; [by rewrite Hm|]. intros o1 o2 r0 rest E1 E2 _.
        assert (exists r1 rest1, o2 ++ <[index := set_status r RolledBack]> pub = r1 :: rest1 /\ jr_offset r1 = jr_offset r0)
          as (r1 & rest1 & E3 & E4).
        { destruct o2 as [|x o2]; cbn in E2 |- *; [|injection E2 as -> _; by eexists _, _].
          destruct pub as [|x pub]; [done|]. injection E2 as -> _. destruct index; cbn in *; [injection Er as ->|]; by eexists _, _. }
        by exists o1, o2, r1, rest1.
    + right. split; [done|]. split; [done|]. eexists. split; [by right|done].
  - apply drop_result in E as (r & E & Er).
    destruct (prepare_inv _ _ _ _ _ _ _ Hi E) as [[-> Hn]|(p1 & p2 & p & -> & Hne & -> & Hi' & Hee & Hid & Hm & Hpr)].
    + by apply atomic_same.
    + left. exists (old ++ p1, p2, pend). split; [right; by constructor|]. split; [done|]. split.
      * intros b. by apply captured_same.
      * intros p0. apply prunable_mono; [by rewrite Hm|]. intros o1 o2 r0 rest -> E2 _. exists o1, (o2 ++ p1), r0, rest.
        split_and!; [by rewrite app_assoc|by rewrite <- app_assoc|done].
  - apply drop_result in E as (r & E & Er).
    destruct (finish_inv _ _ _ _ _ _ _ _ _ Hi Hok E) as [->|(o1 & o2 & -> & _ & [(Hi' & Hee & Hid & Hend & Hst & Hle)|(e & -> & Hpo & Hrec)])].
    + by apply atomic_same.
    + left. exists (o2, pub, pend). split; [right; constructor|]. split; [done|]. split.
      * intros b [Hle' Hc]. unfold captured. rewrite Hee, Hid, Hend. by split.
      * intros p0. apply prunable_mono; [done|]. intros x1 x2 r0 rest E1 E2 Hlt.
        pose proof (inv_start _ _ _ _ Hi) as (? & ? & ? & ?). destruct Hi as [_ [[_ _ _ _ Hch Hd _ _] _] _ _ _ _ _ _].
        assert (chain (replay_start (marker j')) (o2 ++ pub) (jb_end (boundary (marker j)))) as Hc2.
        { destruct Hi' as [_ [[_ _ _ _ Hch' _ _ _] _] _ _ _ _ _ _]. by rewrite Hend in Hch'. }
        (* the record lies at or after the new floor *)
        apply app_eq_inv in E1 as [(k & Ek1 & Ek2)|(k & Ek1 & Ek2)].
        -- destruct k as [|r1 k]; [cbn in Ek2; subst x2; by exists [], o2, r0, rest|]. exfalso.
           subst o1 x2. cbn in E2. injection E2 as -> _. rewrite <- app_assoc in Hch, Hd. apply chain_app in Hch as (m & Hc1 & Hc3).
           apply Forall_app in Hd as [Hd1 Hd2]. rewrite (chain_start_inj _ _ _ _ Hc2 Hc3) in Hlt.
           apply chain_app in Hc1 as (m1 & _ & Ho1 & Hc1). apply Forall_app in Hd1 as [_ Hd1]. apply Forall_cons in Hd1 as [Hr0 Hd1].
           pose proof (chain_le _ _ _ _ _ Hc1 Hd1). destruct (on_disk_span _ _ _ Hr0) as (? & _). unfold record_end in *. lia.
        -- exists k, x2, r0, rest. by subst.
    + right. subst res. split; [done|]. split; [done|]. exists (o2, pub, pend). split; [right; constructor|done].
Qed.
End Safety.
End JournalSafety.
