(* ===== verification/JournalImport.v ===== *)
(** Creating the journal: importing a file of the first format, crashes in the
    middle of it, the identity-bound layout of legacy positions, and concrete
    journals for the witnesses. *)

From S2P Require Import Prelude Bytes Files Positions JournalEntry SteadyState Accumulator Udata JournalFile JournalRecord JournalMarker JournalSafety.
Import Files.Files JournalEntry.JournalEntry SteadyState JournalFile.JournalFile JournalRecord.JournalRecord JournalMarker.JournalMarker JournalSafety.JournalSafety.

Module JournalImport.
Section Import.
Context `{Sha256Laws} `{BitcoinCodec} `{HeaderCodec}.
Context (page : Z) (id : bytes) (Hpage : 4096 <= page <= 65536) (Hpow : Positions.Positions.is_power_of_two page = true) (Hid : hash_ok id).

(** What an import keeps of a record. *)
Definition content (r : JournalRecord) : JournalEntryData * JournalStatus := (jr_entry r, jr_status r).

Lemma last_end recs e id' ep : chain page recs e -> jb_end (last_boundary recs id' ep page) = e.
Proof.
  intros Hc. unfold last_boundary. destruct recs as [|r recs _] using rev_ind; [exact Hc|].
  rewrite last_snoc. by apply chain_snoc in Hc as [_ <-].
Qed.

Lemma superblock_read f : stored f 0 (superblock page id) -> read_superblock f = Ok (page, id).
Proof.
  intros Hs. pose proof (zlength_hash _ Hid) as Lid. unfold superblock in Hs.
  set (head := WAL_MAGIC ++ le_bytes 8 page ++ id ++ zeros 16) in *.
  assert (zlength WAL_MAGIC = 8) as L0 by done.
  assert (zlength head = 64) as Lh by (unfold head; rewrite !zlength_app, zlength_le, zlength_zeros, Lid, L0; done).
  pose proof (length_checksum head) as Ls. unfold read_superblock.
  assert (zlength (head ++ sha256 head) = 96) as L by (rewrite zlength_app; lia).
  assert (read_exact_at f 0 96 = Some (head ++ sha256 head)) as ->.
  { rewrite <- L. apply stored_read; [lia|intros E; rewrite E in L; done|done]. }
  step_ok.
  assert (slice (head ++ sha256 head) 0 64 = head) as E1 by (rewrite slice_app_l by lia; apply slice_all; lia).
  assert (slice (head ++ sha256 head) 64 96 = sha256 head) as E2 by (rewrite slice_app_r, Lh by lia; apply slice_all; lia).
  assert (forall a b, 0 <= a -> b <= 64 -> slice (head ++ sha256 head) a b = slice head a b) as E3 by (intros; apply slice_app_l; lia).
  rewrite E1, E2. unfold field. rewrite !E3 by lia.
  assert (slice head 0 8 = WAL_MAGIC) as -> by (unfold head; rewrite slice_app_l by lia; by apply slice_all).
  assert (le_value (slice head 8 16) = page) as ->.
  { unfold head. rewrite slice_app_r, L0 by lia. apply (field_le 8); [split; lia|done]. }
  assert (slice head 16 48 = id) as ->.
  { unfold head. rewrite slice_app_r, L0 by lia. rewrite slice_app_r, zlength_le by (rewrite zlength_le; lia).
    rewrite slice_app_l by lia. apply slice_all. lia. }
  rewrite !bool_decide_eq_true_2 by done. step_ok.
  rewrite (proj2 (Z.leb_le 4096 page)), (proj2 (Z.leb_le page 65536)), Hpow by lia. done.
Qed.

(** The file under construction. *)
Record building (v : VFile) (recs : list JournalRecord) : Prop := {
  bu_super : stored (now v) 0 (superblock page id);
  bu_chain : chain page recs (zlength (now v));
  bu_disk : Forall (on_disk (now v) page) recs;
  bu_entries : Forall (fun r => entry_ok (jr_entry r)) recs
}.

Lemma superblock_length : zlength (superblock page id) = 96.
Proof.
  unfold superblock. rewrite !zlength_app, length_checksum, zlength_le, zlength_zeros, (zlength_hash _ Hid). done.
Qed.

Lemma building_start : building (synced (write_all_at (set_len [] page) 0 (superblock page id))) [].
Proof.
  split; cbn [now synced]; [by apply stored_write| |constructor|constructor].
  cbn [chain]. rewrite zlength_write, superblock_length, zlength_set_len; [lia|lia|lia|].
  intros E. pose proof superblock_length as L. rewrite E in L. done.
Qed.

Lemma building_keep v recs v' : building v recs -> page <= zlength (now v) -> keeps (now v) (zlength (now v)) (now v') ->
  stored (now v') 0 (superblock page id) /\ Forall (on_disk (now v') page) recs.
Proof.
  intros [Hs Hc Hd He] Hp [Hl Hk]. split.
  - apply (stored_agree (now v)); [done|]. eapply agree_sub; [exact Hk|lia|]. rewrite superblock_length. lia.
  - eapply chain_disk_agree; [|exact Hc| |exact Hd]; [lia|]. eapply agree_sub; [exact Hk|lia|lia].
Qed.

Lemma import_step v recs legacy v' recs' : building v recs -> entry_ok (jr_entry legacy) ->
  import_record page (v, recs) legacy = Ok (v', recs') ->
  building v' recs' /\ exists r, recs' = recs ++ [r] /\ content r = content legacy.
Proof.
  intros Hb He E. unfold import_record in E. apply bind_ok in E as (payload & Ep & E).
  pose proof Hb as [Hs Hc Hd Hen]. rewrite (last_end _ _ _ _ Hc) in E.
  assert (page <= zlength (now v)) as Hpl by (by eapply chain_le).
  destruct (write_record _ _ _ _ _ _ _ v) as [v1 rw] eqn:Ew.
  assert (decode_payload LEGACY_RECORD_VERSION payload = Ok (jr_entry legacy, None)) as Hdec.
  { unfold decode_payload. cbn [Z.eqb LEGACY_RECORD_VERSION Pos.eqb].
    destruct (encode_entry_roundtrip _ He) as (enc & E1 & _ & E2). assert (payload = enc) as -> by congruence. by rewrite E2. }
  destruct (write_record_spec (fun _ => true) page (zlength (now v)) (jr_entry legacy) None payload
    LEGACY_RECORD_VERSION v v1 rw eq_refl ltac:(lia) ltac:(unfold LEGACY_RECORD_VERSION; lia) Hdec Ew) as (_ & Hk & Hr).
  destruct rw as [r|]; [|done]. destruct (Hr r eq_refl) as (Hon & Hre & Hro & Hrn & Hrr & Hrs).
  destruct (building_keep v recs v1 Hb Hpl Hk) as [Hs1 Hd1].
  assert (building v1 (recs ++ [r])) as Hb1.
  { split; [done| | |].
    - apply chain_snoc. rewrite Hro, Hre. by split.
    - apply Forall_app. split; [done|by constructor].
    - apply Forall_app. split; [done|]. constructor; [by rewrite Hrn|constructor]. }
  destruct (decide (jr_status legacy = RolledBack)) as [Est|Est].
  - injection E as <- <-. split; [|exists (set_status r RolledBack); split; [done|]; unfold content; cbn; by rewrite Hrn, Est].
    destruct (on_disk_span _ _ _ Hon) as (Hsp & _).
    destruct (set_status_spec (now v1) page r Hon) as [Hon2 Hag]. destruct (Hag ltac:(lia)) as [Hl2 Hag2].
    change [status_to_byte RolledBack] with [1] in Hl2, Hag2, Hon2.
    split; cbn [now vupdate].
    + apply (stored_agree (now v1)); [done|]. rewrite superblock_length. apply Hag2; unfold record_end in *; lia.
    + rewrite Hl2. apply chain_snoc. cbn. unfold record_end in *. cbn. split; [by rewrite Hro|lia].
    + apply Forall_app. split; [|by constructor]. eapply chain_disk_agree; [|exact Hc| |exact Hd1]; [lia|].
      apply Hag2; unfold record_end in *; lia.
    + apply Forall_app. split; [done|]. constructor; [cbn; by rewrite Hrn|constructor].
  - injection E as <- <-. split; [done|]. exists r. split; [done|]. unfold content. rewrite Hrn, Hrs.
    by destruct (jr_status legacy).
Qed.

Lemma import_all legacy v recs v' recs' : building v recs -> Forall (fun r => entry_ok (jr_entry r)) legacy ->
  foldM (import_record page) legacy (v, recs) = Ok (v', recs') ->
  building v' recs' /\ content <$> recs' = (content <$> recs) ++ (content <$> legacy).
Proof.
  revert v recs. induction legacy as [|r legacy IH]; intros v recs Hb He E.
  - injection E as <- <-. by rewrite app_nil_r.
  - apply Forall_cons in He as [Her He]. cbn [foldM] in E. apply bind_ok in E as ([v1 recs1] & E1 & E).
    destruct (import_step _ _ _ _ _ Hb Her E1) as (Hb1 & r1 & -> & Ec).
    destruct (IH _ _ Hb1 He E) as [Hb' E']. split; [done|]. rewrite E', fmap_app. cbn. by rewrite <- app_assoc, Ec.
Qed.

(** ** Scanning *)

Lemma scan_legacy_entries fuel f off recs : bytes_ok f -> 0 <= off -> scan_legacy_loop fuel f page off = Ok recs ->
  Forall (fun r => entry_ok (jr_entry r)) recs.
Proof.
  intros Hf. revert off recs. induction fuel as [|fuel IH]; intros off recs Ho E; [done|]. cbn [scan_legacy_loop] in E.
  destruct (zlength f <=? off); [injection E as <-; constructor|].
  destruct (read_exact_at f off RECORD_HEADER_SIZE) as [header|] eqn:Eh; [|injection E as <-; constructor].
  case_bool_decide; [by eapply IH in E; [|lia]|].
  case_bool_decide.
  { destruct (_ || _ || _)%bool eqn:Ec; [injection E as <-; constructor|]. apply orb_false_iff in Ec as [_ Ec].
    destruct (checked_add 64 off (field header 16 24)) as [e|] eqn:Ea; [|done]. apply checked_add_Some in Ea as [-> [Hu _]].
    by eapply IH in E. }
  destruct (negb _); [destruct (off =? 0); [done|injection E as <-; constructor]|].
  apply bind_ok in E as ([] & Hver & E).
  destruct (read_record f page off (zlength f)) as [r|] eqn:Er.
  - apply bind_ok in E as (rest & E1 & E). injection E as <-.
    pose proof Er as Er'. apply read_record_on_disk in Er' as (Hon & Hro & _); [|done].
    destruct (on_disk_span _ _ _ Hon) as (Hsp & _). constructor; [|by eapply IH in E1; [|lia]].
    unfold read_record in Er. apply bind_ok in Er as (h & Eh' & Er).
    unfold read_record_header in Eh'. rewrite Eh in Eh'. cbn [ok_or] in Eh'. rewrite ok_bind in Eh'.
    apply bind_ok in Eh' as (? & _ & Eh'). apply bind_ok in Eh' as (? & _ & Eh'). apply bind_ok in Eh' as (? & _ & [= <-]).
    apply bind_ok in Er as (payload & Epl%ok_or_ok & Er). apply bind_ok in Er as (? & _ & Er).
    apply bind_ok in Er as ([en rp] & Ed & Er). apply bind_ok in Er as (st & _ & [= <-]). cbn [jr_entry].
    apply require_ok, Z.eqb_eq in Hver. rewrite Hver in Ed. unfold decode_payload in Ed. cbn [Z.eqb LEGACY_RECORD_VERSION Pos.eqb] in Ed.
    apply bind_ok in Ed as (en' & Ede & [= <- _]). apply decode_entry_canonical in Ede; [by destruct Ede|].
    unfold read_exact_at in Epl. case_bool_decide; [|done]. injection Epl as <-. unfold ztake, zdrop. auto.
  - destruct (_ && _); [done|]. injection E as <-. constructor.
Qed.

(** Every round advances by at least a page. *)
Lemma scan_legacy_total fuel f off : bytes_ok f -> 0 <= off -> (Z.to_nat ((zlength f - off) / page + 1) < fuel)%nat ->
  scan_legacy_loop fuel f page off <> Err out_of_fuel.
Proof.
  intros Hbytes. revert off. induction fuel as [|fuel IH]; intros off Ho Hf; [lia|]. cbn [scan_legacy_loop].
  destruct (Z.leb_spec (zlength f) off) as [|Hlt]; [done|].
  assert (forall off', off + page <= off' -> scan_legacy_loop fuel f page off' <> Err out_of_fuel) as Hnext.
  { intros off' Hoff'. apply IH; [lia|]. assert ((zlength f - off') / page + 1 <= (zlength f - off) / page).
    { replace ((zlength f - off) / page) with ((zlength f - off - page) / page + 1).
      - apply Zplus_le_compat_r, Z.div_le_mono; lia.
      - rewrite <- Z.div_add by lia. f_equal. lia. }
    assert (0 <= (zlength f - off) / page) by (apply Z.div_pos; lia). lia. }
  destruct (read_exact_at f off RECORD_HEADER_SIZE) as [header|] eqn:Eh; [|done].
  case_bool_decide; [apply Hnext; lia|]. case_bool_decide.
  { destruct (_ || _ || _)%bool eqn:Ec; [done|]. apply orb_false_iff in Ec as [Ec Ec2]. apply orb_false_iff in Ec as [Ez Em].
    destruct (checked_add 64 off (field header 16 24)) as [e|] eqn:Ea; [|done].
    apply Z.eqb_neq in Ez. apply negb_false_iff, Z.eqb_eq in Em. apply checked_add_Some in Ea as [-> [Hu _]]. apply Hnext.
    apply Z.div_exact in Em; [|lia]. assert (0 <= field header 16 24).
    { unfold read_exact_at in Eh. case_bool_decide; [|done]. injection Eh as <-.
      unfold field, slice, ztake, zdrop. apply le_value_bound. auto. }
    destruct (Z.le_gt_cases 1 (field header 16 24 / page)); [nia|]. assert (0 <= field header 16 24 / page) by (apply Z.div_pos; lia). nia. }
  destruct (negb _); [by destruct (off =? 0)|]. destruct (_ =? LEGACY_RECORD_VERSION); [|done]. step_ok.
  destruct (read_record f page off (zlength f)) as [r|e] eqn:Er.
  - apply read_record_on_disk in Er as (Hon & Hro & _); [|done]. destruct (on_disk_span _ _ _ Hon) as (_ & _ & Hsp & _).
    specialize (Hnext (off + jr_span r) ltac:(lia)). destruct (scan_legacy_loop fuel f page (off + jr_span r)); [done|].
    intros [= ->]. done.
  - by destruct (_ && _).
Qed.

Lemma boundary_marker_ok f recs e g : chain page recs e -> Forall (on_disk f page) recs ->
  Forall (fun r => entry_ok (jr_entry r)) recs -> is_u64 g ->
  marker_ok page id {| generation := g; replay_start := page; boundary := last_boundary recs id 0 page |}.
Proof.
  intros Hc Hd He Hg. pose proof (Z_mod_same_full page) as Hpm.
  unfold last_boundary. destruct recs as [|r l _] using rev_ind; cbn [last].
  - assert (hash_ok (zeros 32)) by auto.
    split; cbn [boundary generation replay_start jb_journal_id jb_end jb_offset jb_height jb_block_hash jb_checksum empty_boundary];
      try done; try lia; unfold is_uint; split_and!; (done || lia).
  - rewrite last_snoc. destruct (chain_bounds f page page _ _ ltac:(lia) ltac:(lia) Hpm Hc Hd) as (_ & Hem & Hb).
    apply Forall_app in Hb as [_ Hb]. apply Forall_cons in Hb as [(Hb1 & _ & Hb3) _].
    apply Forall_app in Hd as [_ Hd]. apply Forall_cons in Hd as [Hr _]. apply Forall_app in He as [_ He]. apply Forall_cons in He as [He _].
    destruct (on_disk_span _ _ _ Hr) as (Hsp & _ & _ & [Hu0 Hu] & Ho0). apply chain_snoc in Hc as [_ Ee]. destruct Hr as (_ & h & p & Him & _).
    assert (hash_ok (jr_checksum r)) by (rewrite (im_sum _ _ _ _ Him); apply sha256_hash_ok).
    pose proof (ok_block_hash _ He). pose proof (ok_height _ He).
    split; cbn [boundary generation replay_start jb_journal_id jb_end jb_offset jb_height jb_block_hash jb_checksum record_boundary];
      try done; try lia; unfold record_end, is_uint in *.
    + split; [lia|split; [by rewrite Ee|lia]].
    + lia.
    + intros _. split; [lia|done].
Qed.

Lemma initialize_opens nr legacy f fm : bytes_ok legacy -> initialize_journal page id legacy = Ok (f, fm) ->
  exists recs j, scan_legacy legacy page = Ok recs /\ open_files nr f fm = Ok j /\ inv j [] (records j) [] /\
    content <$> records j = content <$> recs /\ needs_replay j = nr /\ journal_id j = id /\ page_size j = page /\ epoch j = 0.
Proof.
  intros Hl E. unfold initialize_journal in E. apply bind_ok in E as (recs & Escan & E).
  apply bind_ok in E as ([v imported] & Eimp & E).
  assert (Forall (fun r => entry_ok (jr_entry r)) recs) as Hrecs.
  { unfold scan_legacy in Escan. eapply scan_legacy_entries; [exact Hl| |exact Escan]. lia. }
  destruct (import_all recs _ _ _ _ building_start Hrecs Eimp) as [[Hs Hc Hd He] Hcont].
  pose proof (boundary_marker_ok _ _ _ 0 Hc Hd He ltac:(split; lia)) as Hm0.
  pose proof (boundary_marker_ok _ _ _ 1 Hc Hd He ltac:(split; lia)) as Hm1.
  set (slot := fun g => {| generation := g; replay_start := page; boundary := last_boundary imported id 0 page |}) in *.
  fold (slot 0) (slot 1) in Hm0, Hm1. set (f0 := set_len [] (PUBLICATION_SLOT_SIZE * 2)) in *.
  assert (zlength f0 = 8192) as L0 by (unfold f0; rewrite zlength_set_len; unfold PUBLICATION_SLOT_SIZE; lia).
  assert (f = now v /\ fm = write_marker (write_marker f0 (slot 0)) (slot 1)) as [-> ->].
  { split; [congruence|]. injection E as _ <-. done. }
  pose proof (write_marker_length page id f0 (slot 0) Hm0 ltac:(lia)) as L1.
  pose proof (write_marker_length page id (write_marker f0 (slot 0)) (slot 1) Hm1 ltac:(rewrite L1, L0; lia)) as L2.
  assert (slots_hold (write_marker (write_marker f0 (slot 0)) (slot 1)) id page (slot 1)) as Hslots.
  { split; [by apply write_marker_read|]. right. exists (reopened (slot 0)).
    change (1 - generation (slot 1) mod 2) with 0. split_and!; [|cbn; lia|].
    - rewrite <- (write_marker_read page id f0 (slot 0) Hm0). change (generation (slot 0) mod 2) with 0.
      apply read_slot_bytes. symmetry. apply slot_agree; [lia|]. apply (write_marker_other page id); [done|lia|lia|done].
    - unfold not_monotonic. cbn. rewrite !Z.ltb_irrefl, Z.eqb_refl. cbn. by rewrite bool_decide_eq_true_2 by done. }
  set (fm := write_marker (write_marker f0 (slot 0)) (slot 1)) in *.
  assert (8192 <= zlength fm) as Lfm by (rewrite L2, L1, L0; lia). clearbody fm.
  assert (jb_end (boundary (slot 1)) = zlength (now v)) as Eend by exact (last_end _ _ _ _ Hc).
  assert (last_boundary imported id 0 page = with_epoch (boundary (slot 1)) 0) as Elast.
  { change (boundary (slot 1)) with (last_boundary imported id 0 page). unfold last_boundary. by destruct (last imported). }
  assert (chain (replay_start (slot 1)) imported (jb_end (boundary (slot 1)))) as Hc' by (rewrite Eend; exact Hc).
  destruct (reopened_inv nr (now v) fm id page (slot 1) imported (superblock_read _ Hs) ltac:(lia) Lfm Hslots Hm1
    ltac:(rewrite Eend; lia) Hc' Hd He Elast) as (j & Ho & Hi & Hr & Hn & Hid' & Hp & Hep).
  exists recs, j. rewrite Hr. split_and!; try done.
Qed.
End Import.
End JournalImport.
