(* ===== verification/JournalContract.v ===== *)
(** What the journal promises its users: a block that is appended and published
    survives every crash with its replay data, a whole history of calls refines
    three lists of records, and the identity-bound layout of legacy positions. *)

From S2P Require Import Prelude Bytes Files Positions JournalEntry SteadyState Udata JournalFile JournalRecord JournalMarker JournalSafety JournalImport.
Import Files.Files JournalEntry.JournalEntry SteadyState JournalFile.JournalFile JournalRecord.JournalRecord JournalMarker.JournalMarker JournalSafety.JournalSafety JournalImport.JournalImport.

Module JournalContract.
Section Contract.
Context `{Sha256Laws} `{BitcoinCodec} `{HeaderCodec}.

(** ** Publishing a pending record *)

(** The first 44 bytes of an entry. *)
Lemma decode_entry_head bs e : decode_entry bs = Ok e ->
  exists x rest, bs = block_hash e ++ x ++ rest /\ length (block_hash e) = 32%nat /\ length x = 12%nat /\
    le_value (drop 8 x) = height e.
Proof.
  intros E. unfold decode_entry in E. apply bind_ok in E as ([e0 rest] & E0 & E).
  assert (exists x rest, bs = block_hash e0 ++ x ++ rest /\ length (block_hash e0) = 32%nat /\ length x = 12%nat /\
    le_value (drop 8 x) = height e0) as (x & r & ? & ? & ? & ?).
  { clear E. unfold decode_body, take_u64, take_u32, take_le in E0.
    apply reader_bind_ok in E0 as (h & r1 & E1 & E0). apply take_exact_ok in E1 as [-> L1].
    apply reader_bind_ok in E0 as (n & r2 & E1 & E0). apply reader_bind_ok in E1 as (nb & r3 & E1 & [= <- <-]).
    apply take_exact_ok in E1 as [-> L2].
    apply reader_bind_ok in E0 as (he & r4 & E1 & E0). apply reader_bind_ok in E1 as (hb & r5 & E1 & [= <- <-]).
    apply take_exact_ok in E1 as [-> L3].
    repeat (apply reader_bind_ok in E0 as (? & ? & _ & E0)). injection E0 as <- _. cbn [block_hash height].
    exists (nb ++ hb), r5. rewrite <- app_assoc, length_app. split_and!; [done|done|lia|]. by rewrite <- L2, drop_app_length. }
  exists x, r. destruct rest as [|rows [|? ?]]; [|destruct (rows <=? 63); [|done]|done]; injection E as <-; done.
Qed.

Lemma decode_payload_head version payload e replay : decode_payload version payload = Ok (e, replay) ->
  exists pre mid rest, payload = pre ++ block_hash e ++ mid ++ rest /\
    zlength pre = (if version =? LEGACY_RECORD_VERSION then 0 else 4) /\ length (block_hash e) = 32%nat /\
    length mid = 12%nat /\ le_value (drop 8 mid) = height e.
Proof.
  unfold decode_payload. intros E. destruct (version =? LEGACY_RECORD_VERSION).
  - apply bind_ok in E as (e0 & E0 & [= <- _]). apply decode_entry_head in E0 as (mid & rest & ? & ?).
    by exists [], mid, rest.
  - apply bind_ok in E as ([n r1] & E1 & E). unfold take_u32, take_le in E1.
    apply reader_bind_ok in E1 as (nb & r2 & E1 & [= <- <-]). apply take_exact_ok in E1 as [-> L1].
    apply bind_ok in E as ([eb r3] & E1 & E). apply take_exact_ok in E1 as [-> L2].
    apply bind_ok in E as (e0 & E0 & E).
    repeat first [apply bind_ok in E as ([? ?] & _ & E) | apply bind_ok in E as (? & _ & E)]. injection E as <- _.
    apply decode_entry_head in E0 as (mid & rest & -> & ?). exists nb, mid, (rest ++ r3). rewrite <- !app_assoc.
    split; [done|]. split; [unfold zlength; by rewrite L1|done].
Qed.

Lemma stored_exact f off bs : 0 <= off -> stored f off bs -> read_exact_at f off (zlength bs) = Some bs.
Proof.
  intros Ho Hs. destruct (decide (bs = [])) as [->|]; [|by apply stored_read].
  unfold read_exact_at. change (zlength []) with 0. by rewrite bool_decide_eq_true_2 by (split; [done|by left]).
Qed.

Lemma stored_sub f off l1 l2 l3 : stored f off (l1 ++ l2 ++ l3) -> stored f (off + zlength l1) l2.
Proof. rewrite !stored_app. tauto. Qed.

Lemma read_chunks_stored fuel f start bs k : 0 <= start -> 0 <= k <= zlength bs -> stored f start bs ->
  zlength bs - k <= Z.of_nat fuel * (64 * 1024) ->
  read_chunks fuel f start k (zlength bs) = Ok (zdrop k bs).
Proof.
  intros Hs. revert k. induction fuel as [|fuel IH]; intros k Hd Hst Hf; cbn [read_chunks].
  { rewrite (proj2 (Z.ltb_ge _ _)) by lia. unfold zdrop. rewrite drop_ge; [done|]. unfold zlength in *. lia. }
  destruct (Z.ltb_spec k (zlength bs)) as [Hlt|].
  - set (c := Z.min (zlength bs - k) (64 * 1024)). assert (0 < c <= zlength bs - k) as Hc by lia.
    set (chunk := ztake c (zdrop k bs)).
    assert (zlength chunk = c) as Lc by (unfold chunk; rewrite zlength_take, zlength_drop by lia; lia).
    assert (zdrop k bs = chunk ++ zdrop (k + c) bs) as Esplit.
    { unfold chunk, ztake, zdrop. rewrite <- (take_drop (Z.to_nat c) (drop (Z.to_nat k) bs)) at 1. f_equal.
      rewrite drop_drop. f_equal. lia. }
    assert (bs = ztake k bs ++ chunk ++ zdrop (k + c) bs) as Ebs by (rewrite <- Esplit; unfold ztake, zdrop; by rewrite take_drop).
    assert (read_exact_at f (start + k) c = Some chunk) as ->.
    { rewrite <- Lc. apply stored_exact; [lia|]. rewrite Ebs in Hst. apply stored_sub in Hst.
      rewrite zlength_take in Hst by lia. by rewrite Z.min_l in Hst by lia. }
    step_ok. rewrite IH; [by rewrite Esplit|lia|done|lia].
  - unfold zdrop. rewrite drop_ge; [done|]. unfold zlength in *. lia.
Qed.

(** The checks of [publish] pass for a record that is on disk. *)
Lemma validate_on_disk f page r id e : on_disk f page r -> validate_boundary f page (record_boundary r id e) = Ok tt.
Proof.
  intros Hd. pose proof (on_disk_span _ _ _ Hd) as (Hs & _ & _ & Hu & Ho). destruct Hd as (_ & header & payload & Him & Hst).
  pose proof Him as [Hl Hmagic Hver Hstat Hsp Hal _ Hpl Hmax Hsum Hck Hdec].
  rewrite !stored_app, Hl in Hst. destruct Hst as (Sh & Sp & St).
  unfold validate_boundary. cbn [jb_offset jb_end jb_checksum jb_block_hash jb_height record_boundary].
  pose proof (zlength_nonneg payload).
  assert (read_record_header f page (jr_offset r) (record_end r) = Ok header) as ->.
  { apply read_header_spec; [done|]. split; [done|]. split; [done|]. split.
    - split; try done; [by eexists|lia|by rewrite <- Hpl, <- Hsp|by rewrite <- Hsp|]. rewrite <- Hsp. unfold record_end. lia.
    - rewrite <- Hpl. apply (stored_exact f _ RECORD_TRAILER); [|done]. unfold RECORD_HEADER_SIZE. lia. }
  step_ok. rewrite <- Hsp, Hck, Hsum. fold (record_end r). rewrite Z.eqb_refl, bool_decide_eq_true_2 by done. step_ok.
  rewrite <- Hpl, (read_chunks_stored _ f _ payload 0); [|unfold RECORD_HEADER_SIZE; lia|lia|done|].
  2: { pose proof (Z.div_mod (zlength payload) (64 * 1024) ltac:(lia)). pose proof (Z.mod_pos_bound (zlength payload) (64 * 1024) ltac:(lia)).
       assert (0 <= zlength payload / (64 * 1024)) by (apply Z.div_pos; lia). lia. }
  step_ok. change (zdrop 0 payload) with payload. rewrite bool_decide_eq_true_2 by done. step_ok.
  destruct (decode_payload_head _ _ _ _ Hdec) as (pre & mid & rest & -> & Lpre & Lh & Lm & Hh).
  rewrite <- Lpre. rewrite stored_app in Sp. destruct Sp as (_ & Sp).
  rewrite (app_assoc (block_hash (jr_entry r))), stored_app in Sp. destruct Sp as (Sp & _).
  assert (zlength (block_hash (jr_entry r) ++ mid) = 44) as L44 by (unfold zlength; rewrite length_app; lia).
  rewrite <- L44, stored_exact; [|unfold RECORD_HEADER_SIZE; pose proof (zlength_nonneg pre); lia|done]. step_ok.
  assert (slice (block_hash (jr_entry r) ++ mid) 0 32 = block_hash (jr_entry r)) as ->.
  { rewrite slice_app_l by (unfold zlength; lia). apply slice_all. unfold zlength. lia. }
  rewrite bool_decide_eq_true_2 by done. cbn [negb orb].
  rewrite L44. unfold field. rewrite slice_app_r by (unfold zlength; lia).
  assert (zlength (block_hash (jr_entry r)) = 32) as -> by (unfold zlength; lia). replace (slice mid (40 - 32) (44 - 32)) with (drop 8 mid); [by rewrite Hh, Z.eqb_refl|].
  unfold slice, ztake, zdrop. change (Z.to_nat (40 - 32)) with 8%nat.
  rewrite take_ge; [done|]. rewrite length_drop, Lm. done || lia.
Qed.


(** ** Without I/O errors nothing fails *)

Definition all_ok : Io := fun _ => true.

Lemma align_up_total v a : 1 <= a -> 0 <= v -> v + a - 1 < 2 ^ 64 -> exists s, align_up v a = Some s /\ s <= v + a - 1.
Proof.
  intros Ha Hv Hb. exists ((v + (a - 1)) / a * a). split.
  - unfold align_up.
    assert (checked_sub a 1 = Some (a - 1)) as -> by (by apply checked_sub_Some). cbn [mbind option_bind].
    assert (checked_add 64 v (a - 1) = Some (v + (a - 1))) as -> by (apply checked_add_Some; split; [done|split; lia]). done.
  - pose proof (Z.mul_div_le (v + (a - 1)) a ltac:(lia)). lia.
Qed.

(** The room a payload needs. *)
Definition room (j : Journal) (payload : bytes) : Prop :=
  zlength payload <= MAX_RECORD_BYTES /\ appended_end j + RECORD_HEADER_SIZE + zlength payload + 8 + page_size j <= 2 ^ 64.

Lemma append_payload_total entry replay payload version j old pub pend : inv j old pub pend -> room j payload ->
  exists j', append_payload all_ok entry replay payload version j = (j', Ok tt).
Proof.
  intros Hi [Hmax Hroom]. pose proof (inv_start _ _ _ _ Hi) as (Hp & _ & _ & Hend). destruct Hi as [Hh [[] _] _ _ _ _ _ _].
  pose proof wo_marker0 as []. pose proof (zlength_nonneg payload). unfold RECORD_HEADER_SIZE in *.
  destruct (align_up_total (64 + zlength payload + 8) (page_size j)) as (span & Hal & Hle); [lia|lia|lia|].
  pose proof (align_up_Some _ _ _ Hal) as (_ & _ & _ & _ & Hge & _).
  assert (exists v r, write_record all_ok (page_size j) (appended_end j) entry replay payload version (file j) = (v, Ok r)) as (v & r & E).
  { unfold write_record. do 2 eexists.
    erewrite sr_bind_ok by (unfold lift; by rewrite (proj2 (Z.ltb_ge _ _)) by done).
    erewrite sr_bind_ok by (unfold lift, RECORD_HEADER_SIZE; by rewrite Hal).
    erewrite sr_bind_ok.
    2: { unfold lift. assert (checked_add 64 (appended_end j) span = Some (appended_end j + span)) as -> by (apply checked_add_Some; split; [done|split; lia]).
         done. }
    unfold set_file_len, update_file, all_ok. repeat (erewrite sr_bind_ok by done). done. }
  eexists. unfold append_payload. erewrite sr_bind_ok by done. rewrite Hh. erewrite sr_bind_ok by done.
  erewrite sr_bind_ok by (unfold try_, on_file; by rewrite E). done.
Qed.

Lemma publish_total r j old pub pend : inv j old pub pend -> r ∈ pend -> generation (marker j) + 1 < 2 ^ 64 ->
  exists j', publish all_ok (record_boundary r (journal_id j) (epoch j)) j = (j', Ok tt).
Proof.
  intros Hi Hr Hg. apply list_elem_of_split in Hr as (p1 & p2 & ->).
  assert (checked_add 64 (generation (marker j)) 1 = Some (generation (marker j) + 1)) as Eg.
  { apply checked_add_Some. split; [done|]. destruct Hi as [_ [[] _] _ _ _ _ _ _]. destruct wo_marker0. unfold is_uint in *. lia. }
  destruct (next_marker _ _ _ _ _ _ _ Hi Eg) as (_ & _ & _ & _ & Hch & Hlt). cbn [boundary] in Hch.
  destruct Hi as [Hh [_ _] Hlen Hpend Hdisk _ _ _]. apply Forall_app in Hdisk as [_ Hdisk]. apply Forall_cons in Hdisk as [Hr _].
  unfold publish. eexists. erewrite sr_bind_ok by done. rewrite Hh. erewrite sr_bind_ok by done.
  cbn [jb_journal_id jb_epoch jb_end record_boundary].
  erewrite sr_bind_ok.
  2: { unfold lift. rewrite bool_decide_eq_true_2, Z.eqb_refl by done. rewrite !(proj2 (Z.ltb_ge _ _)) by lia. done. }
  rewrite (proj2 (Z.eqb_neq _ _)) by lia.
  erewrite sr_bind_ok by (unfold lift; by rewrite validate_on_disk).
  erewrite sr_bind_ok by (unfold try_; erewrite sr_bind_ok by done;
    erewrite sr_bind_ok by (unfold lift; by rewrite Eg); done). done.
Qed.


(** Appending a block and publishing everything up to it. *)
Definition persist_block (entry : JournalEntryData) (header : Header) (proof : Udata.Udata.CompactBlockProof)
    (proof_forest_rows : Z) : SR Journal unit :=
  b ← append_block all_ok entry header proof proof_forest_rows; publish all_ok b.

(** What a caller of [append_block] provides. *)
Record block_ok (entry : JournalEntryData) (header : Header) (proof : Udata.Udata.CompactBlockProof)
    (rows : Z) : Prop := {
  bk_entry : entry_ok entry;
  bk_layout : forest_rows entry <> None;
  bk_proof : Udata.Udata.proof_ok proof;
  bk_rows : 0 <= rows <= 63;
  bk_hash : header_block_hash header = block_hash entry;
  bk_previous : prev_blockhash header = previous_block_hash entry
}.

Lemma append_block_total entry header proof rows payload j old pub pend : inv j old pub pend ->
  block_ok entry header proof rows -> encode_payload entry header proof rows = Ok payload -> room j payload ->
  exists j' r, append_block all_ok entry header proof rows j = (j', Ok (record_boundary r (journal_id j') (epoch j'))) /\
    inv j' old pub (pend ++ [r]) /\ jr_entry r = entry /\ jr_status r = Forward /\
    jr_replay r = Some {| rp_header := header; rp_proof := proof; proof_forest_rows := rows |} /\ marker j' = marker j.
Proof.
  intros Hi [He Hl Hp Hr Hh Hv] Epl Hroom.
  pose proof (decode_encode_payload _ _ _ _ _ He Hl Hp Hr Hh Hv Epl) as Hdec.
  destruct (append_payload_total entry (Some {| rp_header := header; rp_proof := proof; proof_forest_rows := rows |})
    payload RECORD_VERSION _ _ _ _ Hi Hroom) as (j1 & E1).
  assert (1 <= RECORD_VERSION <= 3) as Hver by (unfold RECORD_VERSION; lia).
  destruct (append_payload_inv _ _ _ _ _ _ _ _ _ _ _ Hi He Hdec Hver E1)
    as [(r & _ & Hi' & Hen & Hrp & Hst & Hep & Hid & Hm)|[(e & ? & _)|(e & ? & _)]]; [|done..].
  exists j1, r. split; [|done]. unfold append_block.
  erewrite sr_bind_ok by (unfold lift; rewrite bool_decide_eq_false_2, (proj2 (Z.ltb_ge _ _)) by (done || lia); done).
  erewrite sr_bind_ok by (unfold lift; rewrite !bool_decide_eq_true_2 by done; done).
  erewrite sr_bind_ok by (unfold lift; by rewrite Epl). erewrite sr_bind_ok by exact E1.
  erewrite sr_bind_ok by done. unfold mret, sr_ret, boundary_of. f_equal. f_equal.
  unfold last_boundary. by rewrite (iv_records _ _ _ _ Hi'), app_assoc, last_snoc.
Qed.

Lemma persist_block_spec entry header proof rows payload j old pub pend : inv j old pub pend ->
  block_ok entry header proof rows -> encode_payload entry header proof rows = Ok payload -> room j payload ->
  generation (marker j) + 1 < 2 ^ 64 ->
  exists j' r, persist_block entry header proof rows j = (j', Ok tt) /\
    jr_entry r = entry /\ jr_status r = Forward /\
    jr_replay r = Some {| rp_header := header; rp_proof := proof; proof_forest_rows := rows |} /\
    inv j' old (pub ++ pend ++ [r]) [].
Proof.
  intros Hi Hb Epl Hroom Hg. destruct (append_block_total _ _ _ _ _ _ _ _ _ Hi Hb Epl Hroom) as (j1 & r & E1 & Hi1 & Hen & Hst & Hrp & Hm).
  destruct (publish_total r _ _ _ _ Hi1 ltac:(apply elem_of_app; right; left) ltac:(by rewrite Hm)) as (j2 & E2).
  exists j2, r. split; [unfold persist_block; by erewrite sr_bind_ok|]. split_and!; try done.
  pose proof Hi1 as [_ [_ _] _ Hpend Hdisk _ _ _].
  pose proof Hpend as Hpend'. apply chain_snoc in Hpend' as [Hc1 Hend]. pose proof Hdisk as Hdisk'.
  apply Forall_app in Hdisk' as [Hd1 Hd2]. apply Forall_cons in Hd2 as [Hd2 _].
  pose proof (chain_le _ _ _ _ _ Hc1 Hd1) as Hle. destruct (on_disk_span _ _ _ Hd2) as (Hs & _).
  assert (captured j1 (pend ++ [r]) (record_boundary r (journal_id j1) (epoch j1))) as Hcap.
  { split; [cbn; lia|]. intros _ _. exists r. split; [apply elem_of_app; right; left|done]. }
  destruct (publish_inv _ _ _ _ _ _ _ _ Hi1 Hcap E2) as [(e & ? & _)|[(_ & _ & Ee)|(p1 & r' & p2 & Ep & Eb & Hcase)]]; [done| |].
  - cbn in Ee. unfold record_end in *. lia.
  - destruct Hcase as [(_ & Hi2 & _)|(e & ? & _)]; [|done].
    assert (record_end r' = record_end r) as Ere by (by apply (f_equal jb_end) in Eb).
    (* nothing is left after the last record *)
    assert (p2 = []) as ->.
    { rewrite Ep in Hpend, Hdisk. apply chain_app in Hpend as (m & _ & _ & Hc). rewrite Ere, Hend in Hc.
      apply Forall_app in Hdisk as [_ Hdisk]. apply Forall_cons in Hdisk as [_ Hdisk].
      destruct p2 as [|x p2]; [done|]. destruct Hc as [Hx Hc]. apply Forall_cons in Hdisk as [Hxd Hdisk].
      pose proof (chain_le _ _ _ _ _ Hc Hdisk). destruct (on_disk_span _ _ _ Hxd) as (? & _). unfold record_end in *. lia. }
    apply app_inj_tail in Ep as [<- <-]. done.
Qed.


(** ** Histories *)

(** The journal and the handles that its users hold: boundaries to publish and
    prunes to finish. *)
Definition Client : Type := Journal * list JournalBoundary * list JournalPrune.

(** The handle that a call returns. *)
Definition gains (op : Op) (j : Journal) : list JournalPrune :=
  match op with
  | OpPrune keep => match (prepare_prune keep j).2 with Ok (Some p) => [p] | _ => [] end
  | _ => []
  end.

Definition allowed (bs : list JournalBoundary) (ps : list JournalPrune) (op : Op) : Prop :=
  match op with
  | OpAppend entry header proof rows => entry_ok entry /\ Udata.Udata.proof_ok proof /\ 0 <= rows
  | OpPublish b => b ∈ bs
  | OpFinish _ p => p ∈ ps
  | _ => True
  end.

(** A call, with I/O failing anywhere in it; the current boundary can be taken at
    any time.  The epoch does not come to wrap around. *)
Inductive client_step : Client -> Client -> Prop :=
| cs_boundary j bs ps : poisoned j = false -> client_step (j, bs, ps) (j, boundary_of j :: bs, ps)
| cs_op io op j bs ps j' res : poisoned j = false -> allowed bs ps op ->
    0 <= epoch j -> epoch j + 1 < 2 ^ 64 -> run_op io op j = (j', res) ->
    client_step (j, bs, ps) (j', bs, gains op j ++ ps).

Definition move (s s' : Abs) : Prop := exists op, moves op s s'.

Definition in_doubt (j : Journal) (s : Abs) : Prop :=
  exists s', (s' = s \/ move s s') /\ recovers j (fun l => l = recovered s \/ l = recovered s').

Definition handles_valid (j : Journal) (s : Abs) (bs : list JournalBoundary) (ps : list JournalPrune) : Prop :=
  let '(old, pub, pend) := s in Forall (captured j pend) bs /\ Forall (prunable j old pub) ps.

Definition simulates (c : Client) (s : Abs) : Prop :=
  let '(j, bs, ps) := c in
  if poisoned j then in_doubt j s else abs_inv j s /\ handles_valid j s bs ps.

Lemma handles_valid_kept j s j' s' bs ps : handles_kept j s j' s' -> handles_valid j s bs ps -> handles_valid j' s' bs ps.
Proof.
  destruct s as [[old pub] pend], s' as [[old' pub'] pend']. intros [Hb Hp] [Fb Fp].
  split; (eapply Forall_impl; [eassumption|auto]).
Qed.

Lemma gained_prunable io op j s j' s' res : abs_inv j s -> run_op io op j = (j', res) ->
  (s' = s /\ (res = Ok tt -> may_skip op)) \/ moves op s s' -> abs_inv j' s' ->
  handles_valid j' s' [] (gains op j).
Proof.
  destruct s as [[old pub] pend], s' as [[old' pub'] pend']. intros Hi E Hs Hi'. split; [constructor|].
  destruct op; try constructor. unfold gains. cbn [run_op] in E. apply drop_result in E as (r & E & _). rewrite E. cbn [snd].
  destruct (prepare_inv _ _ _ _ _ _ _ Hi E) as [[-> Hn]|(p1 & p2 & p & -> & Hne & -> & Hi1 & _ & _ & _ & Hpr)].
  - destruct r as [[p|]|]; [by destruct (Hn p)|constructor..].
  - assert (old' = old ++ p1 /\ pub' = p2) as [-> ->]; [|by constructor].
    pose proof (iv_records _ _ _ _ Hi1) as R1. cbn in Hi'. pose proof (iv_records _ _ _ _ Hi') as R2. rewrite R1 in R2.
    destruct Hs as [[[= -> -> ->] _]|Hm].
    + apply app_inv_tail in R2. apply (f_equal length) in R2. rewrite length_app in R2. destruct p1; [done|cbn in R2; lia].
    + assert (exists q, old' = old ++ q /\ q ++ pub' = p1 ++ p2 /\ pend' = pend) as (q & -> & Eq & ->) by (inversion Hm; subst; eauto).
      apply app_inv_tail in R2 as <-. by apply app_inv_tail in Eq as ->.
Qed.

Lemma client_step_simulated c c' s : client_step c c' -> simulates c s -> exists s', rtc move s s' /\ simulates c' s'.
Proof.
  intros Hstep Hsim. destruct Hstep as [j bs ps Hp|io op j bs ps j' res Hp Hal He0 He E]; cbn in Hsim |- *; rewrite Hp in Hsim;
    destruct Hsim as [Hi Hh].
  - exists s. split; [done|]. rewrite Hp. split; [done|]. destruct s as [[old pub] pend], Hh as [Hb Hps]. split; [|done].
    constructor; [by eapply boundary_of_captured|done].
  - assert (op_ok j s op) as Hok.
    { destruct s as [[old pub] pend], Hh as [Hb Hps]. rewrite Forall_forall in Hb; rewrite Forall_forall in Hps. destruct op; cbn in *; auto. }
    destruct (op_atomic _ _ _ _ _ _ Hi Hok He He0 E) as [(s' & Hs' & Hi' & Hk)|(Hpo & _ & s' & Hs' & Hr)].
    + exists s'. split; [destruct Hs' as [[-> _]|Hm]; [done|]; apply rtc_once; by exists op|].
      assert (poisoned j' = false) as -> by (destruct s' as [[? ?] ?]; by destruct Hi').
      split; [done|]. pose proof (gained_prunable _ _ _ _ _ _ _ Hi E Hs' Hi') as Hg.
      pose proof (handles_valid_kept _ _ _ _ _ _ Hk Hh) as Hh'.
      destruct s' as [[? ?] ?], Hg as [_ Hg], Hh' as [Hb Hps]. split; [done|by apply Forall_app].
    + exists s. split; [done|]. rewrite Hpo. exists s'. split; [|done]. destruct Hs' as [->|Hm]; [by left|right; by exists op].
Qed.

Lemma client_steps_simulated c c' s : rtc client_step c c' -> simulates c s -> exists s', rtc move s s' /\ simulates c' s'.
Proof.
  intros Hsteps. revert s. induction Hsteps as [c|c c1 c2 Hstep _ IH]; intros s Hs; [by exists s|].
  destruct (client_step_simulated _ _ _ Hstep Hs) as (s1 & Hm1 & Hs1). destruct (IH _ Hs1) as (s2 & Hm2 & Hs2).
  exists s2. split; [by etrans|done].
Qed.


(** C12: A block that is appended and published without I/O errors is durable: both
    calls succeed, and after a crash that mixes any unsynchronized versions of
    the journal file and tears the marker being written, reopening gives all
    records that were published before, the pending ones and the new block with
    its entry, header, proof and layout, and nothing else. *)
Theorem published_block_survives entry header proof rows payload j old pub pend : inv j old pub pend ->
  block_ok entry header proof rows -> encode_payload entry header proof rows = Ok payload -> room j payload ->
  generation (marker j) + 1 < 2 ^ 64 ->
  exists j' r, persist_block entry header proof rows j = (j', Ok tt) /\
    jr_entry r = entry /\ jr_status r = Forward /\
    jr_replay r = Some {| rp_header := header; rp_proof := proof; proof_forest_rows := rows |} /\
    published_records j' = pub ++ pend ++ [r] /\ recovers j' (eq (old ++ pub ++ pend ++ [r])).
Proof.
  intros Hi Hb Epl Hroom Hg. destruct (persist_block_spec _ _ _ _ _ _ _ _ _ Hi Hb Epl Hroom Hg) as (j' & r & E & He & Hst & Hrp & Hi').
  exists j', r. split_and!; try done; [by eapply inv_published|]. apply durable_recovers. by destruct Hi'.
Qed.

(** C11: Any history of calls on an opened journal, with I/O failing anywhere in it,
    refines three lists of records (pruned but still on disk, published,
    appended): while the journal is healthy a crash recovers exactly the records
    on disk that are published, and once a failed call has poisoned it a crash
    recovers them as they were before or after that call, and nothing else. *)
Theorem journal_refines_lists j0 recs j bs ps : inv j0 [] recs [] ->
  rtc client_step (j0, [], []) (j, bs, ps) ->
  exists s, rtc move ([], recs, []) s /\
    if poisoned j then in_doubt j s
    else published_records j = s.1.2 /\ recovers j (eq (recovered s)).
Proof.
  intros Hi Hsteps. assert (simulates (j0, [], []) ([], recs, [])) as H0'.
  { cbn. rewrite (iv_healthy _ _ _ _ Hi). split; [done|split; constructor]. }
  destruct (client_steps_simulated _ _ _ Hsteps H0') as ([[old pub] pend] & Hm & Hs). exists (old, pub, pend).
  split; [done|]. cbn in Hs |- *. destruct (poisoned j); [done|]. destruct Hs as [Hi' _].
  split; [by eapply inv_published|]. apply durable_recovers. by destruct Hi'.
Qed.

(** C36: A call on a healthy journal is atomic: when it succeeds it has made its move
    (or is one of those that may have nothing to do); when it fails, the
    journal is unchanged or has made the move, or it is poisoned and a restart
    finds the state before or after the move.  Handles given out before stay
    valid. *)
Theorem calls_are_atomic io op j s j' res : abs_inv j s -> op_ok j s op -> epoch j + 1 < 2 ^ 64 -> 0 <= epoch j ->
  run_op io op j = (j', res) -> atomic op j s j' res.
Proof. intros. by eapply op_atomic. Qed.


(** ** Binding legacy positions to one layout *)

Lemma set_rows_rows rows r : forest_rows (jr_entry (set_rows rows r)) = match forest_rows (jr_entry r) with None => Some rows | s => s end.
Proof. unfold set_rows. destruct (forest_rows (jr_entry r)) eqn:E; [done|by cbn]. Qed.

Lemma set_rows_id rows r : forest_rows (jr_entry r) <> None -> set_rows rows r = r.
Proof. unfold set_rows. by destruct (forest_rows (jr_entry r)). Qed.

Definition unbound (j : Journal) : bool := existsb (fun r => bool_decide (forest_rows (jr_entry r) = None)) (records j).

Lemma not_unbound j rows : unbound j = false -> with_records j (set_rows rows <$> records j) = j.
Proof.
  unfold unbound. intros E. assert (set_rows rows <$> records j = records j) as ->; [|by destruct j].
  induction (records j) as [|r l IH]; [done|]. cbn in E |- *. apply orb_false_iff in E as [Er%bool_decide_eq_false El].
  by rewrite set_rows_id, IH.
Qed.

Lemma bound_all rows j : Forall (fun r => forest_rows (jr_entry r) <> None) (set_rows rows <$> records j).
Proof. apply Forall_fmap, Forall_true. intros r. cbn. rewrite set_rows_rows. by destruct (forest_rows (jr_entry r)). Qed.

(** A binding of this journal in a file. *)
Definition binding_of (bs : File) (id : bytes) (rows : Z) : Prop :=
  zlength bs = 65 /\ slice bs 0 32 = id /\ byte_at bs 32 = rows /\ rows <= 63 /\ sha256 (slice bs 0 33) = slice bs 33 65.

Lemma bind_existing bs id bound rows j : journal_id j = id -> binding_of bs id bound -> rows <= 63 ->
  bind_legacy_forest_rows (Some bs) rows j = Ok (with_records j (set_rows bound <$> records j), Some bs).
Proof.
  intros <- (Hl & Hid & Hb & Hle & Hs) Hr. unfold bind_legacy_forest_rows. fold (unbound j).
  rewrite (proj2 (Z.ltb_ge 63 rows)) by done. step_ok.
  destruct (unbound j) eqn:Eu; [|by rewrite not_unbound]. cbn [negb].
  rewrite Hl, Z.eqb_refl. step_ok. rewrite Hid, Hs, Hb, !bool_decide_eq_true_2 by done.
  rewrite (proj2 (Z.ltb_ge _ _)) by done. done.
Qed.

Lemma legacy_binding_of id rows : hash_ok id -> 0 <= rows <= 63 -> binding_of (legacy_binding id rows) id rows.
Proof.
  intros Hid Hr. pose proof (zlength_hash _ Hid) as Lid. unfold legacy_binding. pose proof (length_checksum (id ++ [rows])) as Ls.
  assert (zlength (id ++ [rows]) = 33) as Lb by (rewrite zlength_app, Lid; done).
  split_and!; [rewrite zlength_app; lia| | |lia|].
  - rewrite <- app_assoc, slice_app_l by lia. by apply slice_all.
  - rewrite <- app_assoc, byte_app_r, Lid by lia. done.
  - rewrite slice_app_l, (slice_all (id ++ [rows]) 33) by lia. rewrite slice_app_r, Lb by lia. symmetry. by apply slice_all.
Qed.

(** Legacy positions are bound to one layout for good: binding succeeds with every
    record carrying a layout, and once a record needed it, every later binding
    of the same journal gives its unbound records that same layout, whatever
    layout is proposed then, and leaves the file alone. *)
Theorem legacy_layout_bound_once binding rows j j1 b1 : hash_ok (journal_id j) -> 0 <= rows ->
  bind_legacy_forest_rows binding rows j = Ok (j1, b1) ->
  Forall (fun r => forest_rows (jr_entry r) <> None) (records j1) /\
  (unbound j = false -> j1 = j /\ b1 = binding) /\
  (unbound j = true -> exists bound bs, b1 = Some bs /\ (binding = Some bs \/ binding = None /\ bound = rows) /\
     j1 = with_records j (set_rows bound <$> records j) /\
     forall rows2 j2, rows2 <= 63 -> journal_id j2 = journal_id j ->
       bind_legacy_forest_rows b1 rows2 j2 = Ok (with_records j2 (set_rows bound <$> records j2), b1)).
Proof.
  intros Hid Hr E. unfold bind_legacy_forest_rows in E. fold (unbound j) in E.
  apply bind_ok in E as (? & Hle%require_ok & E). apply negb_true_iff, Z.ltb_ge in Hle.
  destruct (unbound j) eqn:Eu; cbn [negb] in E.
  2: { injection E as <- <-. split_and!; [|done|done]. rewrite <- (not_unbound j 0 Eu). apply bound_all. }
  destruct binding as [bs|].
  - apply bind_ok in E as (bound & Eb & [= <- <-]). split_and!; [apply bound_all|done|]. intros _.
    apply bind_ok in Eb as (? & Hl%require_ok & Eb). apply bind_ok in Eb as (? & Hc%require_ok & [= <-]).
    rewrite negb_involutive in Hl. apply Z.eqb_eq in Hl. apply negb_true_iff in Hc. rewrite !orb_false_iff, !negb_false_iff, !bool_decide_eq_true in Hc.
    destruct Hc as ((Hc1 & Hc2%Z.ltb_ge) & Hc3). exists (byte_at bs 32), bs. split_and!; [done|by left|done|].
    intros rows2 j2 H2' Hj2. by apply (bind_existing bs (journal_id j)).
  - apply bind_ok in E as (bound & [= <-] & [= <- <-]). split_and!; [apply bound_all|done|]. intros _.
    exists rows, (legacy_binding (journal_id j) rows). split_and!; [done|by right|done|].
    intros rows2 j2 H2' Hj2. apply (bind_existing _ (journal_id j)); [done| |done]. by apply legacy_binding_of.
Qed.


(** ** Crashes while the journal is created *)

(** The disk while a journal that holds [legacy] is created with the files [f] and
    [fm].  The name of the temporary file is durable before a marker file appears,
    and both files are complete before the rename; until then their contents can
    be anything, those of an earlier attempt too. *)
Inductive creating (legacy f fm : File) : Disk -> Prop :=
| creating_temporary tmp clean rows :
    creating legacy f fm {| d_journal := Some legacy; d_published := None; d_initialize := tmp; d_clean := clean; d_forest_rows := rows |}
| creating_markers fm' tmp clean rows :
    creating legacy f fm {| d_journal := Some legacy; d_published := fm'; d_initialize := Some tmp; d_clean := clean; d_forest_rows := rows |}
| created clean rows :
    creating legacy f fm {| d_journal := Some f; d_published := Some fm; d_initialize := None; d_clean := clean; d_forest_rows := rows |}.

Definition valid_page (page : Z) : Prop := 4096 <= page <= 65536 /\ Positions.Positions.is_power_of_two page = true.

Lemma initialized_new page id legacy f fm : valid_page page -> hash_ok id -> bytes_ok legacy ->
  initialize_journal page id legacy = Ok (f, fm) -> is_initialized f = true.
Proof.
  intros [Hpage Hpow] Hid Hl E. unfold initialize_journal in E. apply bind_ok in E as (recs & Escan & E).
  apply bind_ok in E as ([v imported] & Eimp & E).
  assert (Forall (fun r => entry_ok (jr_entry r)) recs) as Hrecs.
  { unfold scan_legacy in Escan. eapply scan_legacy_entries; [exact Hpage|exact Hl| |exact Escan]. lia. }
  destruct (import_all page id Hpage Hid recs _ _ _ _ (building_start page id Hpage Hid) Hrecs Eimp) as [[Hs _ _ _] _].
  assert (f = now v) as -> by congruence. unfold is_initialized, superblock in *. rewrite <- app_assoc, stored_app in Hs. destruct Hs as [Hs _].
  apply stored_exact in Hs; [|done]. change (zlength WAL_MAGIC) with 8 in Hs. rewrite Hs. by rewrite bool_decide_eq_true_2.
Qed.

Lemma take_clean_spec clean : take_clean_shutdown_marker clean = bool_decide (clean = Some CLEAN_SHUTDOWN_MARKER).
Proof. destruct clean as [bs|]; [|done]. cbn. apply bool_decide_ext. naive_solver. Qed.

(** What opening a journal created from [legacy] gives. *)
Definition opened_import (page : Z) (legacy : File) (clean : option File) (r : result (Journal * Disk)) : Prop :=
  exists j d recs, r = Ok (j, d) /\ scan_legacy legacy page = Ok recs /\
    content <$> published_records j = content <$> recs /\ recovers j (eq (published_records j)) /\
    needs_replay j = negb (bool_decide (clean = Some CLEAN_SHUTDOWN_MARKER)) /\ d_clean d = None.

Lemma opened_import_intro page id legacy f fm clean g : valid_page page -> hash_ok id -> bytes_ok legacy ->
  initialize_journal page id legacy = Ok (f, fm) -> (forall j, d_clean (g j) = None) ->
  opened_import page legacy clean
    (j ← open_files (negb (take_clean_shutdown_marker clean)) f fm; Ok (j, g j)).
Proof.
  intros [Hp Hp2] Hid Hl E Hg. rewrite take_clean_spec.
  destruct (initialize_opens page id Hp Hp2 Hid (negb (bool_decide (clean = Some CLEAN_SHUTDOWN_MARKER))) legacy f fm Hl E)
    as (recs & j & Es & -> & Hi & Hc & Hnr & _ & _ & _).
  exists j, (g j), recs. rewrite (inv_published _ _ _ _ Hi). split_and!; try done.
  apply durable_recovers. by destruct Hi.
Qed.

(** Whatever point a crash interrupts the creation of the journal at, opening
    again succeeds (with a fresh identity when it has to start over) and the
    journal holds the entries and statuses of the legacy records in order;
    without a clean-shutdown marker it asks for a replay, and the marker is
    consumed. *)
Theorem interrupted_import_restarts page id id' legacy f fm f' fm' d : valid_page page ->
  hash_ok id -> hash_ok id' -> bytes_ok legacy -> is_initialized legacy = false ->
  initialize_journal page id legacy = Ok (f, fm) -> initialize_journal page id' legacy = Ok (f', fm') ->
  creating legacy f fm d -> opened_import page legacy (d_clean d) (open page id' d).
Proof.
  intros Hp Hid Hid' Hl Hn E E' Hd.
  destruct Hd as [tmp clean rows|fmx tmp clean rows|clean rows]; unfold open;
    cbn [d_journal d_published d_initialize d_clean d_forest_rows default option_map]; unfold Datatypes.id.
  3: { rewrite (initialized_new _ _ _ _ _ Hp Hid Hl E). step_ok.
       apply (opened_import_intro page id legacy f fm clean (fun _ => {| d_clean := None |})); done. }
  - rewrite Hn, (bool_decide_eq_false_2 (is_Some None)) by (by intros [? ?]). step_ok. rewrite E'. step_ok.
    apply (opened_import_intro page id' legacy f' fm' clean (fun _ => {| d_clean := None |})); done.
  - rewrite Hn, (bool_decide_eq_true_2 (is_Some (Some tmp))), andb_false_r by done. step_ok. rewrite E'. step_ok.
    apply (opened_import_intro page id' legacy f' fm' clean (fun _ => {| d_clean := None |})); done.
Qed.

End Contract.
(** ** A concrete journal *)

(** A digest, a header format with two headers, and a journal imported from a file
    with one record. *)
Definition toy_sha : Sha256 := fun bs => le_bytes 32 (foldl (fun a b => (a * 257 + b + 1) mod 2 ^ 256) 7 bs).

Lemma toy_sha_laws : @Sha256Laws toy_sha.
Proof. intros bs. apply array_ok_le_bytes. Qed.

Definition toy_header_decode : reader bool := fun bs =>
  match bs with
  | 0 :: rest => Ok (false, rest)
  | 1 :: rest => Ok (true, rest)
  | _ => Err "header"
  end.

Lemma toy_header_codec : codec_ok (fun _ => True) (fun b : bool => [if b then 1 else 0]) toy_header_decode.
Proof.
  split; [by intros [] ? _| |by intros [] _; repeat constructor].
  intros [|x bs] b rest _ E; [done|]. unfold toy_header_decode in E.
  destruct x as [|[]|]; try done; by injection E as <- <-.
Qed.

Definition toy_header : HeaderCodec :=
  {| Header := bool; header_encode := fun b => [if b then 1 else 0]; header_decode := toy_header_decode;
     header_codec := toy_header_codec;
     header_block_hash := fun b : bool => replicate 32 (if b then 2 else 1);
     prev_blockhash := fun b : bool => replicate 32 (if b then 1 else 0) |}.

Definition entry_a : JournalEntryData :=
  {| height := 10; block_hash := replicate 32 1; num_leaves := 0; previous_block_hash := zeros 32;
     forest := []; removed := []; added := []; forest_rows := None |}.
Definition entry_b : JournalEntryData :=
  {| height := 11; block_hash := replicate 32 2; num_leaves := 0; previous_block_hash := replicate 32 1;
     forest := [{| fd_position := 5; before := {| ready := false; spent := false; hash := zeros 32 |};
                   after := {| ready := true; spent := false; hash := replicate 32 9 |} |}];
     removed := []; added := []; forest_rows := Some 3 |}.

Section Demo.
#[local] Existing Instances toy_sha toy_sha_laws toy_header Udata.Udata.toy_bitcoin Udata.Udata.proof_ok_dec.

(** A journal of the first format that holds [entry_a], rolled back. *)
Definition legacy_file : File :=
  match encode_entry entry_a with
  | Ok payload =>
      let v := (write_record all_ok 4096 0 entry_a None payload LEGACY_RECORD_VERSION (synced [])).1 in
      write_all_at (now v) STATUS_OFFSET [1]
  | Err _ => []
  end.

Definition demo_id : bytes := replicate 32 77.
Lemma demo_page : valid_page 4096.
Proof. by split. Qed.

Lemma legacy_bytes_ok : bytes_ok legacy_file.
Proof. by_decide. Qed.

Definition demo_shape (j : Journal) : Prop :=
  content <$> records j = [(entry_a, RolledBack)] /\ appended_end j = 8192 /\ generation (marker j) = 1
  /\ page_size j = 4096 /\ epoch j = 0.

Definition imported (legacy : File) : result Journal :=
  '(f, fm) ← initialize_journal 4096 demo_id legacy; open_files true f fm.

Lemma imported_inv legacy (P : Journal -> Prop) : bytes_ok legacy ->
  match imported legacy with Ok j => P j | Err _ => False end ->
  exists j, imported legacy = Ok j /\ inv j [] (records j) [] /\ P j.
Proof.
  intros Hl Hf. assert (hash_ok demo_id) as Hid by by_decide. unfold imported in *.
  destruct (initialize_journal 4096 demo_id legacy) as [[f fm]|] eqn:E; [|done]. rewrite ok_bind in Hf |- *.
  destruct (initialize_opens 4096 demo_id (proj1 demo_page) (proj2 demo_page) Hid true _ _ _ Hl E)
    as (recs & j & _ & Ej & Hi & _). rewrite Ej in Hf |- *. by exists j.
Qed.

Lemma demo_facts : match imported legacy_file with Ok j => demo_shape j | Err _ => False end.
Proof. vm_compute. done. Qed.

Lemma demo_inv : exists j, imported legacy_file = Ok j /\ inv j [] (records j) [] /\ demo_shape j.
Proof. exact (imported_inv legacy_file demo_shape legacy_bytes_ok demo_facts). Qed.

Definition demo_header : Header := true.
Definition demo_payload : bytes :=
  match encode_payload entry_b demo_header Udata.Udata.sample_proof 3 with Ok p => p | Err _ => [] end.

Lemma demo_block : encode_payload entry_b demo_header Udata.Udata.sample_proof 3 = Ok demo_payload.
Proof. unfold demo_payload. by destruct (encode_payload _ _ _ _) eqn:E; [|vm_compute in E]. Qed.

Lemma demo_payload_length : zlength demo_payload <= 4096.
Proof. by_decide. Qed.

Lemma demo_block_ok : block_ok entry_b demo_header Udata.Udata.sample_proof 3.
Proof. split; [split; [by_decide..|by intros rows [= <-]]|done|by_decide|done|done|done]. Qed.

Lemma imported_init legacy (P : Journal -> Prop) : match imported legacy with Ok j => P j | Err _ => False end ->
  exists f fm, initialize_journal 4096 demo_id legacy = Ok (f, fm).
Proof. unfold imported. destruct (initialize_journal 4096 demo_id legacy) as [[f fm]|]; [by exists f, fm|done]. Qed.

Lemma demo_init : exists f fm, initialize_journal 4096 demo_id legacy_file = Ok (f, fm).
Proof. exact (imported_init legacy_file demo_shape demo_facts). Qed.

Lemma published_block_survives_witness : exists j0 j' r, imported legacy_file = Ok j0 /\
  persist_block entry_b demo_header Udata.Udata.sample_proof 3 j0 = (j', Ok tt) /\ jr_entry r = entry_b /\
  published_records j' = records j0 ++ [r] /\ recovers j' (eq (records j0 ++ [r])).
Proof.
  destruct demo_inv as (j & Ej & Hi & _ & Ha & Hg & Hp & _). pose proof demo_payload_length.
  destruct (published_block_survives entry_b demo_header Udata.Udata.sample_proof 3 demo_payload j [] (records j) [] Hi demo_block_ok demo_block)
    as (j' & r & E & He & _ & _ & Hpub & Hrec).
  - unfold room, MAX_RECORD_BYTES, RECORD_HEADER_SIZE. lia.
  - lia.
  - exists j, j', r. split_and!; assumption.
Defined.

Definition demo_op : Op := OpAppend entry_b demo_header Udata.Udata.sample_proof 3.

Lemma demo_op_ok bs ps : allowed bs ps demo_op.
Proof. destruct demo_block_ok. split_and!; [done|done|lia]. Qed.

Lemma journal_refines_lists_witness : exists j j' res s, imported legacy_file = Ok j /\
  run_op all_ok demo_op j = (j', res) /\ rtc move ([], records j, []) s /\
  if poisoned j' then in_doubt j' s else published_records j' = s.1.2 /\ recovers j' (eq (recovered s)).
Proof.
  destruct demo_inv as (j & Ej & Hi & _ & _ & _ & _ & He). destruct (run_op all_ok demo_op j) as [j' res] eqn:E.
  destruct (journal_refines_lists j (records j) j' [boundary_of j] [] Hi) as (s & Hs).
  - eapply rtc_l; [apply cs_boundary, (iv_healthy _ _ _ _ Hi)|]. apply rtc_once.
    apply (cs_op all_ok demo_op j _ [] j' res); [apply (iv_healthy _ _ _ _ Hi)|apply demo_op_ok|lia|lia|exact E].
  - destruct Hs. exists j, j', res, s. split_and!; assumption.
Defined.

Lemma calls_are_atomic_witness : exists j j' res, imported legacy_file = Ok j /\
  run_op (fun n => negb (n =? 2)%nat) demo_op j = (j', res) /\ atomic demo_op j ([], records j, []) j' res.
Proof.
  destruct demo_inv as (j & Ej & Hi & _ & _ & _ & _ & He).
  destruct (run_op (fun n => negb (n =? 2)%nat) demo_op j) as [j' res] eqn:E. exists j, j', res. split; [exact Ej|]. split; [exact E|].
  apply (calls_are_atomic (fun n => negb (n =? 2)%nat) demo_op j ([], records j, []) j' res);
    [exact Hi|apply (demo_op_ok [] [])|lia|lia|exact E].
Defined.

Lemma legacy_layout_bound_once_witness : exists j j1 b1, imported legacy_file = Ok j /\
  bind_legacy_forest_rows None 5 j = Ok (j1, b1) /\ Forall (fun r => forest_rows (jr_entry r) <> None) (records j1).
Proof.
  destruct demo_inv as (j & Ej & Hi & _). destruct (iv_durable _ _ _ _ Hi) as [[_ _ _ Hm _ _ _ _] _].
  destruct (bind_legacy_forest_rows None 5 j) as [[j1 b1]|] eqn:E.
  - exists j, j1, b1. split; [exact Ej|]. split; [exact E|]. apply (legacy_layout_bound_once None 5 j j1 b1); [by destruct Hm|lia|done].
  - exfalso. unfold bind_legacy_forest_rows in E. cbn in E. by destruct (negb _).
Defined.

Lemma interrupted_import_restarts_witness :
  let d := {| d_journal := Some legacy_file; d_published := Some [1; 2]; d_initialize := Some [3];
              d_clean := None; d_forest_rows := None |} in
  opened_import 4096 legacy_file None (open 4096 demo_id d).
Proof.
  destruct demo_init as (f & fm & E). assert (hash_ok demo_id) as Hid by by_decide.
  apply (interrupted_import_restarts 4096 demo_id demo_id legacy_file f fm f fm
    {| d_journal := Some legacy_file; d_published := Some [1; 2]; d_initialize := Some [3]; d_clean := None; d_forest_rows := None |});
    [exact demo_page|exact Hid|exact Hid|exact legacy_bytes_ok|vm_compute; reflexivity|exact E|exact E|constructor].
Defined.

End Demo.
End JournalContract.
