(* ===== verification/ProofStore.v ===== *)
(** The flat file of compact proofs ([src/src/blockfile.rs]) and the index from
    block hashes into it ([src/src/block_index.rs]). *)

From S2P Require Import Prelude Bytes Files Udata JournalFile JournalRecord.
Import Files.Files Udata.Udata JournalFile.JournalFile JournalRecord.JournalRecord.

(** The [kv] crate: a bucket of raw values.  A call that fails may leave any bucket. *)
Class KvStore := {
  Bucket : Type;
  kv_get : Bucket -> bytes -> result (option bytes);
  kv_set : Bucket -> bytes -> bytes -> Bucket * result unit;
  kv_remove : Bucket -> bytes -> Bucket * result unit;
  kv_flush : Bucket -> result unit
}.

(** What a bucket promises of calls that succeed. *)
Class KvLaws `{KvStore} := {
  kv_get_set : forall b k v b' k', kv_set b k v = (b', Ok tt) ->
    kv_get b' k' = if decide (k' = k) then Ok (Some v) else kv_get b k';
  kv_get_remove : forall b k b' k', kv_remove b k = (b', Ok tt) ->
    kv_get b' k' = if decide (k' = k) then Ok None else kv_get b k'
}.

Module ProofStore.

(** ** Index entries *)

Record BlockIndex := { offset : Z; size : Z; proof_forest_rows : option Z }.

#[export] Instance BlockIndex_eq_dec : EqDecision BlockIndex.
Proof. solve_decision. Defined.

Definition from_raw_value (r : bytes) : result BlockIndex :=
  require (negb (negb ((zlength r =? 16) || (zlength r =? 17)))) "proof index entry has the wrong length";;
  require (negb (match zlookup r 16 with Some rows => 63 <? rows | None => false end)) "proof forest rows exceeds 63";;
  let size := be_value (slice r 0 8) in
  let offset := be_value (slice r 8 16) in
  size ← ok_or "proof size exceeds usize" (try_uint 64 size);
  offset ← ok_or "proof offset exceeds usize" (try_uint 64 offset);
  Ok {| offset := offset; size := size; proof_forest_rows := zlookup r 16 |}.

Definition to_raw_value (index : BlockIndex) : result bytes :=
  require (negb (match proof_forest_rows index with Some rows => 63 <? rows | None => false end))
    "proof forest rows exceeds 63";;
  Ok (be_bytes 8 (size index) ++ be_bytes 8 (offset index)
      ++ match proof_forest_rows index with Some forest_rows => [forest_rows] | None => [] end).

(** What the types [usize] and [u8] guarantee. *)
Definition index_ok (i : BlockIndex) : Prop :=
  is_u64 (offset i) /\ is_u64 (size i) /\ forall rows, proof_forest_rows i = Some rows -> is_u8 rows.

(** ** The index *)

Section Index.
Context `{KvStore}.

(** The two buckets of the database. *)
Record BlocksIndex := { index_bucket : Bucket; meta_bucket : Bucket }.

Definition height_key : bytes := str_bytes "height".

Definition get_index (b : BlocksIndex) (block : bytes) : result (option BlockIndex) :=
  raw ← kv_get (index_bucket b) block;
  match raw with
  | Some raw => index ← from_raw_value raw; Ok (Some index)
  | None => Ok None
  end.

Definition on_index {A} (m : SR Bucket A) : SR BlocksIndex A := fun b =>
  let '(bucket, r) := m (index_bucket b) in ({| index_bucket := bucket; meta_bucket := meta_bucket b |}, r).
Definition on_meta {A} (m : SR Bucket A) : SR BlocksIndex A := fun b =>
  let '(bucket, r) := m (meta_bucket b) in ({| index_bucket := index_bucket b; meta_bucket := bucket |}, r).

Definition set (key value : bytes) : SR Bucket unit := fun b => kv_set b key value.
Definition unset (key : bytes) : SR Bucket unit := fun b => kv_remove b key.
Definition flush_bucket : SR Bucket unit := fun b => (b, kv_flush b).

Definition update_height (height : Z) : SR BlocksIndex unit :=
  on_meta (set height_key (be_bytes 8 height);; flush_bucket).

Definition load_height (b : BlocksIndex) : result Z :=
  height ← kv_get (meta_bucket b) height_key;
  match height with
  | None => Ok 0
  | Some height => require (zlength height =? 8) "proof height has the wrong length";; Ok (be_value height)
  end.

Fixpoint set_all (indexes : list (BlockIndex * bytes)) : SR Bucket unit :=
  match indexes with
  | [] => mret tt
  | (index, block) :: indexes => raw ← lift (to_raw_value index); set block raw;; set_all indexes
  end.

Definition append_batch (indexes : list (BlockIndex * bytes)) : SR BlocksIndex unit :=
  on_index (set_all indexes;; flush_bucket).

Definition remove (block : bytes) : SR BlocksIndex unit := on_index (unset block;; flush_bucket).
End Index.

(** ** The proof file *)

Section File.
Context `{BitcoinCodec}.

Record ProofFile := { pf_file : VFile; writer_pos : Z }.

Definition with_writer (f : ProofFile) (pos : Z) : ProofFile := {| pf_file := pf_file f; writer_pos := pos |}.
Definition on_proofs {A} (m : SR VFile A) : SR ProofFile A := fun f =>
  let '(v, r) := m (pf_file f) in ({| pf_file := v; writer_pos := writer_pos f |}, r).

(** [ProofFile::new] on a file that holds [f]. *)
Definition new (f : File) : ProofFile := {| pf_file := synced f; writer_pos := zlength f |}.

(** The buffer of [append], checked. *)
Definition serialized (p : CompactBlockProof) : result bytes :=
  let buffer := encode_proof p in
  require (negb (MAX_COMPACT_PROOF_BYTES <? zlength buffer)) "compact proof exceeds storage limit";;
  ok_or "proof length exceeds u64" (try_uint 64 (zlength buffer));;
  Ok buffer.

(** The [fetch_update] of [append]: takes the next range of the file. *)
Definition reserve (length : Z) : SR ProofFile Z :=
  f ← get;
  match checked_add 64 (writer_pos f) length with
  | Some pos => modify (fun f => with_writer f pos);; mret (writer_pos f)
  | None => lift (Err "proof file offset overflow")
  end.

(** The rest of [append]: fills the range. *)
Definition fill (io : Io) (buffer : bytes) (off : Z) : SR ProofFile BlockIndex :=
  on_proofs (update_file io 0 (fun f => write_all_at f off buffer));;
  offset ← lift (ok_or "proof offset exceeds usize" (try_uint 64 off));
  mret {| offset := offset; size := zlength buffer; proof_forest_rows := None |}.

Definition append (io : Io) (p : CompactBlockProof) : SR ProofFile BlockIndex :=
  buffer ← lift (serialized p);
  off ← reserve (zlength buffer);
  fill io buffer off.

Definition contains (f : ProofFile) (index : BlockIndex) : bool :=
  (size index <=? MAX_COMPACT_PROOF_BYTES)
  && match checked_add 64 (offset index) (size index) with
     | Some end_ => end_ <=? zlength (now (pf_file f))
     | None => false
     end.

(** [deserialize]: the whole of the bytes. *)
Definition deserialize (bs : bytes) : option CompactBlockProof :=
  match decode_proof bs with Ok (p, []) => Some p | _ => None end.

Definition get_proof (f : ProofFile) (index : BlockIndex) : option CompactBlockProof :=
  if contains f index then
    bs ← read_exact_at (now (pf_file f)) (offset index) (size index); deserialize bs
  else None.

Definition truncate_after (io : Io) (index : option BlockIndex) : SR ProofFile unit :=
  end_ ← lift match index with
              | Some index => ok_or "proof index end overflow" (checked_add 64 (offset index) (size index))
              | None => Ok 0
              end;
  f ← get;
  lift (require (negb (zlength (now (pf_file f)) <? end_)) "proof file ends before published proof offset");;
  on_proofs (set_file_len io 0 end_);;
  modify (fun f => with_writer f end_);;
  on_proofs (sync_file io 1).

Definition sync (io : Io) : SR ProofFile unit := on_proofs (sync_file io 0).

(** ** Appending from many threads *)

(** [append] synchronizes only through the reservation; the writes of different
    threads may happen in any order. *)
Record Appenders := { shared : ProofFile; filling : list (Z * CompactBlockProof); appended : list (BlockIndex * CompactBlockProof) }.

Inductive append_step : Appenders -> Appenders -> Prop :=
| as_reserve s p buffer f off : proof_ok p -> serialized p = Ok buffer -> reserve (zlength buffer) (shared s) = (f, Ok off) ->
    append_step s {| shared := f; filling := (off, p) :: filling s; appended := appended s |}
| as_fill s l1 l2 off p f index : filling s = l1 ++ (off, p) :: l2 ->
    fill (fun _ => true) (encode_proof p) off (shared s) = (f, Ok index) ->
    append_step s {| shared := f; filling := l1 ++ l2; appended := (index, p) :: appended s |}
| as_sync s : append_step s {| shared := (sync (fun _ => true) (shared s)).1; filling := filling s; appended := appended s |}.
End File.

(** Every call succeeds. *)
Definition all_io : Io := fun _ => true.

(** ** Theorems *)

Lemma be_value_be_bytes n x : is_uint (8 * Z.of_nat n) x -> be_value (be_bytes n x) = x.
Proof. intros Hx. unfold be_value, be_bytes. rewrite reverse_involutive. by apply le_value_le_bytes. Qed.

Lemma be_bytes_be_value bs n : bytes_ok bs -> length bs = n -> be_bytes n (be_value bs) = bs.
Proof.
  intros Hb <-. unfold be_value, be_bytes. rewrite <- (length_reverse bs), le_bytes_le_value; [apply reverse_involutive|].
  by apply Forall_reverse.
Qed.

Lemma zlength_be n x : zlength (be_bytes n x) = Z.of_nat n.
Proof. unfold zlength, be_bytes. by rewrite length_reverse, length_le_bytes. Qed.

Lemma be_value_u64 bs : bytes_ok bs -> length bs = 8%nat -> is_u64 (be_value bs).
Proof.
  intros Hb Hl. unfold be_value. pose proof (le_value_bound (reverse bs)) as Hv. rewrite length_reverse, Hl in Hv.
  apply Hv. by apply Forall_reverse.
Qed.

(** An entry is written exactly when its rows are at most 63, and the format has
    one encoding per entry. *)
Lemma index_codec_and_bound i raw : index_ok i -> bytes_ok raw ->
  (is_ok (to_raw_value i) = true <-> (forall rows, proof_forest_rows i = Some rows -> rows <= 63)) /\
  (to_raw_value i = Ok raw <-> from_raw_value raw = Ok i).
Proof.
  intros (Ho & Hs & Hr) Hb. split.
  { unfold to_raw_value. destruct (proof_forest_rows i) as [rows|]; [|naive_solver].
    destruct (Z.ltb_spec 63 rows); cbn; [split; [done|]|split; [|done]].
    - intros Hx. specialize (Hx rows eq_refl). lia.
    - intros _ ? [= <-]. done. }
  split; intros E.
  - unfold to_raw_value in E. apply bind_ok in E as (? & Hreq & E). unfold from_raw_value.
    set (tail := match proof_forest_rows i with Some r => [r] | None => [] end) in *.
    assert (raw = be_bytes 8 (size i) ++ be_bytes 8 (offset i) ++ tail) as -> by congruence. clear E.
    assert (zlength tail = 0 \/ zlength tail = 1) as Ht by (unfold tail; destruct (proof_forest_rows i); auto).
    assert (zlength (be_bytes 8 (size i) ++ be_bytes 8 (offset i) ++ tail) = 16 + zlength tail) as ->.
    { rewrite !zlength_app, !zlength_be. lia. }
    assert (zlookup (be_bytes 8 (size i) ++ be_bytes 8 (offset i) ++ tail) 16 = proof_forest_rows i) as ->.
    { rewrite zlookup_app, zlength_be. cbn [Z.ltb]. rewrite zlookup_app, zlength_be. unfold tail. by destruct (proof_forest_rows i). }
    assert ((16 + zlength tail =? 16) || (16 + zlength tail =? 17) = true) as -> by (destruct Ht as [-> | ->]; done).
    step_ok. rewrite Hreq. step_ok.
    rewrite (slice_app_l _ _ 0 8), (slice_all _ 8) by (rewrite ?zlength_be; lia).
    rewrite (slice_app_r _ _ 8 16) by (rewrite zlength_be; lia). rewrite zlength_be. change (8 - Z.of_nat 8) with 0. change (16 - Z.of_nat 8) with 8.
    rewrite (slice_app_l _ _ 0 8), (slice_all _ 8) by (rewrite ?zlength_be; lia).
    rewrite !be_value_be_bytes by done.
    assert (forall x, is_u64 x -> try_uint 64 x = Some x) as Htry by (intros; by apply try_uint_Some).
    rewrite !Htry by done. by destruct i.
  - unfold from_raw_value in E. apply bind_ok in E as (? & Hl%require_ok & E). apply bind_ok in E as ([] & Hreq & E).
    rewrite negb_involutive, orb_true_iff, !Z.eqb_eq in Hl.
    apply bind_ok in E as (osz & Esz%ok_or_ok%try_uint_Some & E). apply bind_ok in E as (oof & Eof%ok_or_ok%try_uint_Some & E).
    destruct Esz as [-> _], Eof as [-> _]. injection E as <-. unfold to_raw_value. cbn [proof_forest_rows size offset].
    rewrite Hreq. step_ok. f_equal.
    assert (bytes_ok (slice raw 0 8) /\ bytes_ok (slice raw 8 16)) as [B1 B2] by (unfold slice, ztake, zdrop; split; auto).
    assert (length raw = 16%nat \/ length raw = 17%nat) as Hn by (unfold zlength in Hl; lia).
    rewrite !be_bytes_be_value; try done.
    + unfold slice, ztake, zdrop, zlookup. cbn [Z.to_nat Z.sub Z.ltb].
      do 16 (destruct raw as [|? raw]; [cbn in Hn; lia|]). destruct raw as [|? raw]; [reflexivity|]. destruct raw; [reflexivity|cbn in Hn; lia].
    + unfold slice, ztake, zdrop. rewrite length_take, length_drop. lia.
    + unfold slice, ztake, zdrop. rewrite length_take, length_drop. lia.
Qed.

Lemma index_codec i raw : index_ok i -> bytes_ok raw -> to_raw_value i = Ok raw <-> from_raw_value raw = Ok i.
Proof. intros. by apply index_codec_and_bound. Qed.

(** Reading gives values of the right types. *)
Lemma from_raw_ok raw i : bytes_ok raw -> from_raw_value raw = Ok i -> index_ok i.
Proof.
  intros Hb E. unfold from_raw_value in E. apply bind_ok in E as (? & _ & E). apply bind_ok in E as ([] & _ & E).
  apply bind_ok in E as (osz & [-> Hs]%ok_or_ok%try_uint_Some & E). apply bind_ok in E as (oof & [-> Ho]%ok_or_ok%try_uint_Some & E).
  injection E as <-. split_and!; [done|done|]. cbn [proof_forest_rows]. intros rows [_ Hr]%zlookup_Some.
  apply list_elem_of_lookup_2 in Hr. unfold bytes_ok in Hb. rewrite Forall_forall in Hb. by apply Hb.
Qed.

(** One encoding per entry: the bytes that are read as an entry are those that writing it gives. *)
Lemma one_encoding i raw : bytes_ok raw -> (index_ok i /\ to_raw_value i = Ok raw <-> from_raw_value raw = Ok i).
Proof.
  intros Hb. split; [intros [Hi E]; by apply (index_codec i raw Hi Hb)|]. intros E. pose proof (from_raw_ok _ _ Hb E) as Hi.
  split; [done|]. by apply (index_codec i raw Hi Hb).
Qed.

(** The index as a finite map and a height. *)
Section IndexMap.
Context `{KvLaws}.

Record represents (b : BlocksIndex) (m : gmap bytes BlockIndex) (h : Z) : Prop := {
  re_index : forall block, get_index b block = Ok (m !! block);
  re_height : load_height b = Ok h
}.

Inductive IndexOp :=
| AppendBatch (indexes : list (BlockIndex * bytes))
| Remove (block : bytes)
| UpdateHeight (height : Z).

Definition run_index (op : IndexOp) : SR BlocksIndex unit :=
  match op with
  | AppendBatch indexes => append_batch indexes
  | Remove block => remove block
  | UpdateHeight height => update_height height
  end.

Definition index_spec (op : IndexOp) (m : gmap bytes BlockIndex) (h : Z) : gmap bytes BlockIndex * Z :=
  match op with
  | AppendBatch indexes => (write_all m (prod_swap <$> indexes), h)
  | Remove block => (delete block m, h)
  | UpdateHeight height => (m, height)
  end.

Definition index_op_ok (op : IndexOp) : Prop :=
  match op with
  | AppendBatch indexes => Forall (fun ib => index_ok ib.1) indexes
  | Remove block => True
  | UpdateHeight height => is_u64 height
  end.

Lemma to_raw_bytes_ok i raw : index_ok i -> to_raw_value i = Ok raw -> bytes_ok raw.
Proof.
  intros (_ & _ & Hr) E. unfold to_raw_value in E. apply bind_ok in E as (? & _ & E).
  assert (raw = be_bytes 8 (size i) ++ be_bytes 8 (offset i) ++ match proof_forest_rows i with Some r => [r] | None => [] end)
    as -> by congruence.
  assert (forall x, bytes_ok (be_bytes 8 x)) as Hb by (intros; unfold be_bytes; apply Forall_reverse, bytes_ok_le_bytes).
  rewrite !bytes_ok_app. split_and!; [done|done|]. destruct (proof_forest_rows i) as [rows|]; [|constructor].
  constructor; [by apply Hr|constructor].
Qed.

Lemma from_to_raw i raw : index_ok i -> to_raw_value i = Ok raw -> from_raw_value raw = Ok i.
Proof. intros Hi E. by apply (index_codec i raw Hi (to_raw_bytes_ok _ _ Hi E)). Qed.

Lemma set_all_get indexes bucket bucket' m : Forall (fun ib => index_ok ib.1) indexes ->
  (forall mb, (forall block, get_index {| index_bucket := bucket; meta_bucket := mb |} block = Ok (m !! block)) ->
  set_all indexes bucket = (bucket', Ok tt) ->
  forall block, get_index {| index_bucket := bucket'; meta_bucket := mb |} block = Ok (write_all m (prod_swap <$> indexes) !! block)).
Proof.
  intros Hok mb. revert bucket m. induction Hok as [|[i k] indexes Hi Hok IH]; intros bucket m Hm E.
  { by injection E as <-. }
  cbn [set_all] in E. apply sr_bind_inv in E as (b1 & r1 & E1 & E). unfold lift in E1. injection E1 as <- <-.
  destruct (to_raw_value i) as [raw|e] eqn:Eraw; [|by destruct E].
  apply sr_bind_inv in E as (b1 & r1 & E1 & E). unfold set in E1. destruct r1 as [[]|e]; [|by destruct E].
  change (prod_swap <$> (i, k) :: indexes) with ((k, i) :: (prod_swap <$> indexes)).
  cbn [write_all]. apply (IH b1); [|done]. intros block. unfold get_index. cbn [index_bucket].
  rewrite (kv_get_set _ _ _ _ block E1). destruct (decide (block = k)) as [->|Hne].
  - rewrite ok_bind, (from_to_raw i raw Hi Eraw), lookup_insert_eq. done.
  - rewrite lookup_insert_ne by done. apply (Hm block).
Qed.
Lemma on_index_inv (m : SR Bucket unit) b b' : on_index (m;; flush_bucket) b = (b', Ok tt) ->
  m (index_bucket b) = (index_bucket b', Ok tt) /\ meta_bucket b' = meta_bucket b.
Proof.
  unfold on_index. destruct ((m;; flush_bucket) (index_bucket b)) as [bk r] eqn:E. intros [= <- ->].
  apply sr_bind_inv in E as (b1 & r1 & E1 & E). destruct r1 as [[]|]; [|by destruct E]. by injection E as <- _.
Qed.

Lemma run_index_represents op b b' m h : represents b m h -> index_op_ok op ->
  run_index op b = (b', Ok tt) -> represents b' (index_spec op m h).1 (index_spec op m h).2.
Proof.
  intros [Hm Hh] Hok E. destruct op as [indexes|block|height]; cbn [run_index index_op_ok index_spec fst snd] in *.
  - apply on_index_inv in E as [E Emeta]. destruct b' as [ib mb], b as [ib0 mb0]. cbn [index_bucket meta_bucket] in *. subst mb.
    split; [|done]. by eapply set_all_get.
  - apply on_index_inv in E as [E Emeta]. destruct b' as [ib mb], b as [ib0 mb0]. cbn [index_bucket meta_bucket] in *. subst mb.
    split; [|done]. intros block'. unfold get_index. cbn [index_bucket]. rewrite (kv_get_remove _ _ _ block' E).
    destruct (decide (block' = block)) as [->|Hne]; [by rewrite lookup_delete_eq|].
    rewrite lookup_delete_ne by done. apply (Hm block').
  - unfold update_height, on_meta in E. destruct ((_;; flush_bucket) (meta_bucket b)) as [bk r] eqn:E1. injection E as <- ->.
    split; [done|]. apply sr_bind_inv in E1 as (b1 & r1 & E1 & E). destruct r1 as [[]|]; [|by destruct E]. injection E as <- _.
    unfold load_height. cbn [meta_bucket]. rewrite (kv_get_set _ _ _ _ height_key E1), decide_True by done.
    rewrite ok_bind, zlength_be. step_ok. by rewrite be_value_be_bytes.
Qed.

(** C39: The proof index is a finite map from block hashes to entries with a height
    beside it: a batch that succeeds writes its entries in order (the last one
    of a block wins), removing a block removes exactly its entry, and the
    height read is the last one written.  Entries have one encoding: bytes are read
    as an entry exactly when they are what writing it gives (16 or 17 bytes, at most
    63 rows), and the database holds those bytes for the entry of a block. *)
Theorem proof_index_refines op b b' m h : represents b m h -> index_op_ok op ->
  run_index op b = (b', Ok tt) ->
  represents b' (index_spec op m h).1 (index_spec op m h).2 /\
  (forall i raw, bytes_ok raw -> (index_ok i /\ to_raw_value i = Ok raw <-> from_raw_value raw = Ok i)) /\
  (forall block raw, kv_get (index_bucket b') block = Ok (Some raw) -> bytes_ok raw ->
     exists i, (index_spec op m h).1 !! block = Some i /\ to_raw_value i = Ok raw).
Proof.
  intros Hr Hok E. pose proof (run_index_represents _ _ _ _ _ Hr Hok E) as Hr'. split; [exact Hr'|].
  split; [exact one_encoding|]. intros block raw Eg Hb. pose proof (re_index _ _ _ Hr' block) as Ei. unfold get_index in Ei.
  rewrite Eg, ok_bind in Ei. apply bind_ok in Ei as (i & Ei & [= Em]). exists i. split; [done|]. by apply one_encoding in Ei as [_ ?].
Qed.
End IndexMap.


(** ** Appending *)

Section Appending.
Context `{BitcoinCodec}.

(** A range of the file. *)
Definition disjoint_from (a b : Z * Z) : Prop := a.2 <= b.1 \/ b.2 <= a.1.
Definition range_of (off : Z) (p : CompactBlockProof) : Z * Z := (off, off + zlength (encode_proof p)).
Definition filling_range (x : Z * CompactBlockProof) : Z * Z := range_of x.1 x.2.

Lemma disjoint_sym a b : disjoint_from a b -> disjoint_from b a.
Proof. unfold disjoint_from. tauto. Qed.

(** A proof that is in the file where its entry says. *)
Definition in_file (f : File) (x : BlockIndex * CompactBlockProof) : Prop :=
  proof_ok x.2 /\ 0 <= offset x.1 /\ size x.1 = zlength (encode_proof x.2) /\ size x.1 <= MAX_COMPACT_PROOF_BYTES /\
  stored f (offset x.1) (encode_proof x.2).

Lemma serialized_ok p buffer : serialized p = Ok buffer -> buffer = encode_proof p /\ zlength buffer <= MAX_COMPACT_PROOF_BYTES.
Proof.
  intros E. unfold serialized in E. apply bind_ok in E as (? & Hm%require_ok & E). apply bind_ok in E as (? & _ & E).
  assert (buffer = encode_proof p) as -> by congruence. apply negb_true_iff, Z.ltb_ge in Hm. done.
Qed.

Lemma varint_nonempty x : is_u64 x -> varint_encode x <> [].
Proof.
  intros Hx E. assert (exists y, is_u64 y /\ y <> x) as (y & Hy & Hne).
  { destruct (decide (x = 0)) as [->|]; [exists 1|exists 0]; (split; [split; lia|lia]). }
  pose proof (dec_enc varint_codec x (varint_encode y ++ []) Hx) as E1. rewrite E in E1.
  rewrite app_nil_l, (dec_enc varint_codec y [] Hy) in E1. congruence.
Qed.

Lemma zlength_pos {A} (l : list A) : l <> [] -> 0 < zlength l.
Proof. destruct l as [|a l]; [done|]. intros _. rewrite zlength_cons. pose proof (zlength_nonneg l). lia. Qed.

Lemma encode_proof_nonempty p : proof_ok p -> encode_proof p <> [].
Proof.
  intros ((_ & Ht) & _) E. unfold encode_proof, encode_items in E. apply app_eq_nil in E as [E _]. apply app_eq_nil in E as [E _].
  revert E. apply varint_nonempty. pose proof (zlength_nonneg (targets (proof p))). unfold MAX_COMPACT_PROOF_BYTES in Ht.
  rewrite Z.div_1_r in Ht. split; lia.
Qed.

Lemma get_in_file f x : in_file (now (pf_file f)) x -> offset x.1 + size x.1 < 2 ^ 64 ->
  offset x.1 + size x.1 <= zlength (now (pf_file f)) -> get_proof f x.1 = Some x.2.
Proof.
  intros (Hok & Ho & Hs & Hmax & Hst) Hu Hl. pose proof (zlength_nonneg (encode_proof x.2)).
  unfold get_proof, contains. rewrite (proj2 (Z.leb_le _ _)) by done.
  assert (checked_add 64 (offset x.1) (size x.1) = Some (offset x.1 + size x.1)) as -> by (apply checked_add_Some; split; [done|split; lia]).
  rewrite (proj2 (Z.leb_le _ _)) by done. cbn [andb]. rewrite Hs.
  rewrite (stored_read _ _ _ Ho (encode_proof_nonempty _ Hok) Hst).
  cbn [mbind option_bind]. unfold deserialize. rewrite <- (app_nil_r (encode_proof x.2)).
  by rewrite (dec_enc proof_codec).
Qed.

(** The state of the threads; the file held [f0], [start] bytes, before they ran. *)
Record appending (f0 : File) (s : Appenders) : Prop := {
  ap_pos : is_u64 (writer_pos (shared s));
  ap_start : zlength f0 <= zlength (now (pf_file (shared s))) /\ agree f0 (now (pf_file (shared s))) 0 (zlength f0);
  ap_low : zlength f0 <= writer_pos (shared s);
  ap_filling : Forall (fun x => proof_ok x.2 /\ zlength f0 <= x.1 /\ (filling_range x).2 <= writer_pos (shared s) /\
                                zlength (encode_proof x.2) <= MAX_COMPACT_PROOF_BYTES) (filling s);
  ap_appended : Forall (fun x => in_file (now (pf_file (shared s))) x /\ zlength f0 <= offset x.1 /\
                                offset x.1 + size x.1 <= writer_pos (shared s) /\
                                offset x.1 + size x.1 <= zlength (now (pf_file (shared s)))) (appended s);
  ap_disjoint : StronglySorted (fun x y => disjoint_from (filling_range x) (filling_range y)) (filling s);
  ap_apart : Forall (fun x => Forall (fun y => disjoint_from (filling_range x) (range_of (offset y.1) y.2)) (appended s)) (filling s);
  ap_ranges : StronglySorted (fun x y => disjoint_from (range_of (offset x.1) x.2) (range_of (offset y.1) y.2)) (appended s)
}.

Lemma appending_start f0 : is_u64 (zlength f0) -> appending f0 {| shared := new f0; filling := []; appended := [] |}.
Proof. intros Hu. split; cbn; try done; try constructor; done. Qed.

Lemma fill_inv off p f f' index : 0 <= off -> fill (fun _ => true) (encode_proof p) off f = (f', Ok index) ->
  f' = {| pf_file := vupdate (pf_file f) (write_all_at (now (pf_file f)) off (encode_proof p)); writer_pos := writer_pos f |} /\
  index = {| offset := off; size := zlength (encode_proof p); proof_forest_rows := None |}.
Proof.
  intros Ho E. unfold fill in E. apply sr_bind_inv in E as (f1 & r1 & E1 & E). injection E1 as <- <-.
  apply sr_bind_inv in E as (f2 & r2 & E2 & E). unfold lift in E2. injection E2 as <- <-.
  destruct (try_uint 64 off) as [o|] eqn:Et; [|by destruct E]. apply try_uint_Some in Et as [-> _]. cbn [ok_or] in E.
  unfold mret, sr_ret in E. split; congruence.
Qed.

Lemma reserve_inv n f f' off : reserve n f = (f', Ok off) ->
  off = writer_pos f /\ f' = with_writer f (writer_pos f + n) /\ is_u64 (writer_pos f + n).
Proof.
  intros E. unfold reserve in E. apply sr_bind_inv in E as (f1 & r1 & E1 & E). injection E1 as <- <-.
  destruct (checked_add 64 (writer_pos f) n) as [pos|] eqn:Ea; [|done]. apply checked_add_Some in Ea as [-> Hu].
  injection E as <- <-. done.
Qed.

(** Writing one range leaves the bytes of a disjoint one. *)
Lemma stored_write_other f off bs off' bs' : 0 <= off -> 0 <= off' -> stored f off' bs' -> off' + zlength bs' <= zlength f ->
  disjoint_from (off, off + zlength bs) (off', off' + zlength bs') -> stored (write_all_at f off bs) off' bs'.
Proof.
  intros Ho Ho' Hs Hl Hd. apply (stored_agree f); [done|]. apply write_agree; [lia|lia|lia|]. unfold disjoint_from in Hd. cbn in Hd. lia.
Qed.

Lemma zlength_write_ge f off bs : 0 <= off -> zlength f <= zlength (write_all_at f off bs) /\
  (bs <> [] -> off + zlength bs <= zlength (write_all_at f off bs)).
Proof.
  intros Ho. destruct (decide (bs = [])) as [->|Hb]; [done|]. rewrite zlength_write by done. lia.
Qed.

Lemma appending_step f0 s s' : appending f0 s -> append_step s s' -> appending f0 s'.
Proof.
  intros [Hp [Hs Ha] Hlow Hf Hap Hd Hx Hr] Hstep.
  destruct Hstep as [s p buffer f off Hok Hser Hres|s l1 l2 off p f index Efill Hw|s].
  - apply serialized_ok in Hser as [-> Hmax]. apply reserve_inv in Hres as (-> & -> & Hu).
    pose proof (zlength_nonneg (encode_proof p)) as Hn.
    assert (forall y, y ∈ filling s -> disjoint_from (filling_range (writer_pos (shared s), p)) (filling_range y)) as Hnew.
    { intros y Hy. rewrite Forall_forall in Hf. destruct (Hf y Hy) as (_ & _ & He & _). right. exact He. }
    split; cbn [shared filling appended with_writer pf_file writer_pos]; try done; try lia.
    + constructor; [cbn; split_and!; [done|lia|lia|done]|]. eapply Forall_impl; [exact Hf|]. cbn. intros x (? & ? & ? & ?).
      split_and!; (done || lia).
    + eapply Forall_impl; [exact Hap|]. cbn. intros x (? & ? & ? & ?). split_and!; (done || lia).
    + constructor; [done|]. by apply Forall_forall.
    + constructor; [|done]. eapply Forall_impl; [exact Hap|]. intros y (Hin & _ & He & _). destruct Hin as (_ & _ & Es & _).
      right. cbn. lia.
  - rewrite Efill in Hf, Hd, Hx. apply Forall_app in Hf as [Hf1 Hf2]. apply Forall_cons in Hf2 as [(Hok & Hlo & Hend & Hmax) Hf2].
    apply Forall_app in Hx as [Hx1 Hx2]. apply Forall_cons in Hx2 as [Hxp Hx2].
    apply StronglySorted_app in Hd as (Hd12 & Hd1 & Hd2). apply StronglySorted_cons in Hd2 as [Hdp Hd2]. cbn [fst snd] in *.
    pose proof (zlength_nonneg f0) as Hn0. apply fill_inv in Hw as [-> ->]; [|lia].
    pose proof (zlength_write_ge (now (pf_file (shared s))) off (encode_proof p) ltac:(lia)) as [Hge Hge2].
    specialize (Hge2 (encode_proof_nonempty _ Hok)).
    split; cbn [shared filling appended pf_file writer_pos now vupdate]; try done.
    + split; [lia|]. eapply agree_trans; [exact Ha|]. apply write_agree; lia.
    + by apply Forall_app.
    + constructor; [|].
      * cbn [fst snd offset size]. cbn [filling_range range_of fst snd] in Hend. split_and!; [|done|done|done].
        unfold in_file. cbn [fst snd offset size]. split_and!; [done|lia|done|done|]. apply stored_write. lia.
      * rewrite Forall_forall in Hap |- *. intros y Hy. destruct (Hap y Hy) as ((K1 & K2 & K3 & K4 & K5) & K6 & K7 & K8).
        split_and!; [|done|done|lia]. unfold in_file. split_and!; try done. apply stored_write_other; [lia|done|done|lia|].
        rewrite Forall_forall in Hxp. apply (Hxp y Hy).
    + apply StronglySorted_app. split_and!; [|done|done]. intros x1 x2 H1' H2'. apply Hd12; [done|]. by right.
    + rewrite Forall_app. split.
      * rewrite Forall_forall in Hx1 |- *. intros y Hy. constructor; [|by apply Hx1]. apply (Hd12 y (off, p)); [done|left].
      * rewrite Forall_forall in Hx2, Hdp |- *. intros y Hy. constructor; [|by apply Hx2]. apply disjoint_sym, (Hdp y Hy).
    + constructor; [done|]. exact Hxp.
  - split; cbn; done.
Qed.

Lemma appending_steps f0 s s' : appending f0 s -> rtc append_step s s' -> appending f0 s'.
Proof. intros Hs. induction 1 as [|s1 s2 s3 Hstep _ IH]; [done|]. by eapply IH, appending_step. Qed.

(** Reading below [n] only depends on the bytes below [n]. *)
Lemma get_prefix f g n index : index_ok index -> n <= zlength (now (pf_file f)) -> n <= zlength (now (pf_file g)) ->
  agree (now (pf_file f)) (now (pf_file g)) 0 n -> offset index + size index <= n -> get_proof g index = get_proof f index.
Proof.
  intros ([Ho _] & [Hs _] & _) Hf Hg Ha Hn. unfold get_proof, contains.
  destruct (size index <=? MAX_COMPACT_PROOF_BYTES); [|done].
  destruct (checked_add 64 (offset index) (size index)) as [e|] eqn:Ee; [|done].
  apply checked_add_Some in Ee as [-> _]. rewrite !(proj2 (Z.leb_le _ _)) by lia. cbn [andb].
  assert (read_exact_at (now (pf_file g)) (offset index) (size index) = read_exact_at (now (pf_file f)) (offset index) (size index))
    as ->; [|done].
  destruct (decide (size index = 0)) as [->|]; [|symmetry; eapply read_agree; [exact Ha|lia..]].
  unfold read_exact_at. by rewrite !bool_decide_eq_true_2 by (split; [done|by left]).
Qed.

Lemma contains_bound f index : contains f index = true -> offset index + size index <= zlength (now (pf_file f)).
Proof.
  unfold contains. intros [_ Hc]%andb_true_iff. destruct (checked_add 64 _ _) as [e|] eqn:Ee; [|done].
  apply checked_add_Some in Ee as [-> _]. by apply Z.leb_le in Hc.
Qed.

Lemma get_beyond f index : zlength (now (pf_file f)) < offset index + size index -> get_proof f index = None.
Proof. intros Hl. unfold get_proof. destruct (contains f index) eqn:E; [apply contains_bound in E; lia|done]. Qed.

(** C38: Threads that append proofs at the same time only agree on their ranges by one
    atomic reservation, yet in every interleaving of reservations and writes each
    finished append can be read back through its entry, no two of them share a
    byte, and every proof that was in the file before reads the same. *)
Theorem concurrent_appends_readable f0 s : is_u64 (zlength f0) ->
  rtc append_step {| shared := new f0; filling := []; appended := [] |} s ->
  Forall (fun x => get_proof (shared s) x.1 = Some x.2) (appended s) /\
  StronglySorted (fun x y => disjoint_from (range_of (offset x.1) x.2) (range_of (offset y.1) y.2)) (appended s) /\
  (forall index, index_ok index -> contains (new f0) index = true -> get_proof (shared s) index = get_proof (new f0) index).
Proof.
  intros Hu Hsteps. destruct (appending_steps _ _ _ (appending_start f0 Hu) Hsteps) as [[Hp0 Hp] [Hs Ha] _ _ Hap _ _ Hr].
  split_and!; [|done|].
  - eapply Forall_impl; [exact Hap|]. intros x (Hin & Hlo & He & Hl). apply get_in_file; [done|lia|done].
  - intros index Hok Hc%contains_bound. eapply get_prefix; [done| |exact Hs|exact Ha|done]. done.
Qed.

(** Cutting the proof file back to the last published entry fails without effect
    when the file is shorter than that, and otherwise leaves every proof that
    ends there or before as it was, drops the rest, and makes the next append
    start there: what it writes can be read back and disturbs none of them. *)
Theorem truncate_keeps_published last f : (forall i, last = Some i -> index_ok i) -> 
  is_u64 (zlength (now (pf_file f))) ->
  let end_ := match last with Some i => offset i + size i | None => 0 end in
  (zlength (now (pf_file f)) < end_ -> exists e, truncate_after all_io last f = (f, Err e)) /\
  (end_ <= zlength (now (pf_file f)) -> exists f', truncate_after all_io last f = (f', Ok tt) /\
     writer_pos f' = end_ /\ zlength (now (pf_file f')) = end_ /\ unsynced (pf_file f') = [] /\
     (forall index, index_ok index -> get_proof f' index = if offset index + size index <=? end_ then get_proof f index else None) /\
     forall p f2 i, proof_ok p -> append all_io p f' = (f2, Ok i) ->
       offset i = end_ /\ get_proof f2 i = Some p /\
       forall index, index_ok index -> offset index + size index <= end_ -> get_proof f2 index = get_proof f index).
Proof.
  intros Hlast Hu end_. pose proof (zlength_nonneg (now (pf_file f))).
  assert (forall i, last = Some i -> checked_add 64 (offset i) (size i) = try_uint 64 end_) as Hadd by (by intros i ->).
  assert (0 <= end_) as He0 by (unfold end_; destruct last as [i|]; [destruct (Hlast i eq_refl) as ([? _] & [? _] & _); lia|lia]).
  split.
  - intros Hlt. unfold truncate_after.
    destruct last as [i|]; [|unfold end_ in Hlt; lia]. rewrite (Hadd i eq_refl).
    destruct (try_uint 64 end_) as [e|] eqn:Et; cbn [ok_or]; [apply try_uint_Some in Et as [-> _]|].
    + eexists. erewrite sr_bind_ok by done. erewrite sr_bind_ok by done.
      erewrite sr_bind_err; [done|]. unfold lift. by rewrite (proj2 (Z.ltb_lt _ _)) by done.
    + eexists. by erewrite sr_bind_err.
  - intros Hle. set (f' := {| pf_file := synced (set_len (now (pf_file f)) end_); writer_pos := end_ |}).
    assert (truncate_after all_io last f = (f', Ok tt)) as E.
    { unfold truncate_after.
      assert (match last with
              | Some index => ok_or "proof index end overflow" (checked_add 64 (offset index) (size index))
              | None => Ok 0 end = Ok end_) as ->.
      { destruct last as [i|]; [|done]. rewrite (Hadd i eq_refl).
        by rewrite (proj2 (try_uint_Some 64 end_ end_)) by (split; [done|unfold is_uint in *; lia]). }
      erewrite sr_bind_ok by done.
      erewrite sr_bind_ok by done.
      erewrite sr_bind_ok by (unfold lift; by rewrite (proj2 (Z.ltb_ge _ _)) by done). done. }
    assert (zlength (now (pf_file f')) = end_) as Hl by (cbn; by apply zlength_set_len).
    assert (agree (now (pf_file f)) (now (pf_file f')) 0 end_) as Hag by (cbn; apply set_len_agree; lia).
    exists f'. split; [exact E|]. split_and!; [done|done|done| |].
    + intros index Hi. destruct (Z.leb_spec (offset index + size index) end_).
      * apply (get_prefix f f' end_); (done || lia).
      * apply get_beyond. lia.
    + intros p f2 i Hp Ea. unfold append in Ea.
      apply sr_bind_inv in Ea as (f3 & r3 & E3 & Ea). unfold lift in E3. injection E3 as <- <-.
      destruct (serialized p) as [buffer|] eqn:Eb; [|by destruct Ea]. apply serialized_ok in Eb as [-> Hmax].
      apply sr_bind_inv in Ea as (f3 & r3 & E3 & Ea). destruct r3 as [off|]; [|by destruct Ea].
      apply reserve_inv in E3 as (-> & -> & Hu2). apply fill_inv in Ea as [-> ->]; [|done]. cbn [writer_pos f' with_writer] in *.
      pose proof (zlength_write_ge (now (pf_file f')) end_ (encode_proof p) He0) as [Hge Hge2].
      specialize (Hge2 (encode_proof_nonempty _ Hp)). split; [done|]. split.
      * apply (get_in_file _ ({| offset := end_; size := zlength (encode_proof p); proof_forest_rows := None |}, p)).
        -- unfold in_file. cbn [fst snd offset size pf_file now vupdate]. split_and!; try done. by apply stored_write.
        -- cbn [fst offset size]. apply Hu2.
        -- exact Hge2.
      * intros index Hi Hend. apply (get_prefix f _ end_); [done|done| | |done]; cbn [pf_file now vupdate].
        -- cbn [pf_file with_writer] in *. lia.
        -- eapply agree_trans; [exact Hag|]. apply write_agree; [lia|lia|exact (Z.eq_le_incl _ _ (eq_sym Hl))|left; lia].
Qed.



End Appending.


(** ** Concrete stores *)

Definition map_kv : KvStore :=
  {| Bucket := gmap bytes bytes; kv_get := fun b k => Ok (b !! k); kv_set := fun b k v => (<[k := v]> b, Ok tt);
     kv_remove := fun b k => (delete k b, Ok tt); kv_flush := fun _ => Ok tt |}.

Lemma map_kv_laws : @KvLaws map_kv.
Proof.
  split; cbn; intros b k; [intros v b' k' [= <-]|intros b' k' [= <-]]; destruct (decide (k' = k)) as [->|];
    by rewrite ?lookup_insert_eq, ?lookup_delete_eq, ?lookup_insert_ne, ?lookup_delete_ne by done.
Qed.

Section Demo.
#[local] Existing Instances map_kv map_kv_laws toy_bitcoin proof_ok_dec.

Definition entry_1 : BlockIndex := {| offset := 0; size := 24; proof_forest_rows := None |}.
Definition entry_2 : BlockIndex := {| offset := 24; size := 300; proof_forest_rows := Some 31 |}.
Definition demo_index : @BlocksIndex map_kv := {| index_bucket := (∅ : gmap bytes bytes); meta_bucket := (∅ : gmap bytes bytes) |}.

Lemma demo_index_empty : represents demo_index ∅ 0.
Proof. done. Qed.

Lemma index_ok_intro off n rows : is_u64 off -> is_u64 n -> is_u8 rows ->
  index_ok {| offset := off; size := n; proof_forest_rows := Some rows |}.
Proof. intros. split_and!; [done|done|]. by intros ? [= <-]. Qed.

Lemma proof_index_refines_witness : exists b, run_index (AppendBatch [(entry_2, [1]); (entry_2, [2])]) demo_index = (b, Ok tt) /\
  represents b (<[[2] := entry_2]> (<[[1] := entry_2]> ∅)) 0.
Proof.
  eexists. split; [vm_compute; reflexivity|].
  apply (proof_index_refines (AppendBatch [(entry_2, [1]); (entry_2, [2])]) demo_index _ ∅ 0 demo_index_empty);
    [|vm_compute; reflexivity].
  constructor; [by apply index_ok_intro|]. constructor; [by apply index_ok_intro|constructor].
Defined.

Lemma concurrent_appends_readable_witness : exists s i1 i2, appended s = [(i1, sample_proof); (i2, sample_proof)] /\
  offset i1 = 3 /\ Forall (fun x => get_proof (shared s) x.1 = Some x.2) (appended s).
Proof.
  do 3 eexists. split; [|split].
  3: { eapply (concurrent_appends_readable [7; 8; 9]); [by_decide|].
       (* two reservations, then the writes in the other order *)
       eapply rtc_l; [eapply (as_reserve _ sample_proof); [by_decide|vm_compute; reflexivity|vm_compute; reflexivity]|].
       eapply rtc_l; [eapply (as_reserve _ sample_proof); [by_decide|vm_compute; reflexivity|vm_compute; reflexivity]|].
       eapply rtc_l; [eapply (as_fill _ [] [_]); [reflexivity|vm_compute; reflexivity]|].
       eapply rtc_l; [eapply (as_fill _ [] []); [reflexivity|vm_compute; reflexivity]|]. apply rtc_refl. }
  - reflexivity.
  - reflexivity.
Defined.

Lemma truncate_keeps_published_witness :
  exists f', truncate_after all_io (Some {| offset := 1; size := 2; proof_forest_rows := Some 0 |}) (new [1; 2; 3; 4; 5]) = (f', Ok tt) /\
    writer_pos f' = 3.
Proof.
  destruct (truncate_keeps_published (Some {| offset := 1; size := 2; proof_forest_rows := Some 0 |}) (new [1; 2; 3; 4; 5])) as [_ Ht].
  - intros i [= <-]. by apply index_ok_intro.
  - by_decide.
  - destruct Ht as (f' & E & Hp & _); [by_decide|]. exists f'. split; [exact E|exact Hp].
Defined.
End Demo.

End ProofStore.
