(* ===== verification/HeaderIndex.v ===== *)
(** Position-addressed block headers and the hash-to-height database
    ([src/src/header_index.rs]). *)

From S2P Require Import Prelude Bytes Files JournalFile JournalRecord.
Import Files.Files JournalFile.JournalFile JournalRecord.JournalRecord.

(** [floresta_db]'s database as the header index uses it.  [HeightsFile] is a closed
    database on disk; growing it can change its capacity. *)
Inductive PutResult := PutDone | CapacityExhausted | PutError (msg : string).

Class HeightsDb := {
  HDb : Type;
  HeightsFile : Type;
  hdb_get : HDb -> bytes -> result (option bytes);
  hdb_put : HDb -> bytes -> bytes -> HDb * PutResult;
  hdb_put_batch : HDb -> list (bytes * bytes) -> HDb * result unit;
  hdb_delete : HDb -> bytes -> HDb * result unit;
  hdb_close : HDb -> HeightsFile * result unit;
  ensure_runtime_body_headroom : HeightsFile -> Z -> HeightsFile * result bool;
  open_runtime : HeightsFile -> result HDb
}.

(** What the database promises: it is a map, an insertion that fails leaves the map
    alone, and closing, growing and opening keep it.  The batch writer only appends: it
    keeps an earlier entry of the same key, so that its batches are insertions only when
    their keys are new and different. *)
Class HeightsLaws `{HeightsDb} := {
  hdb_view : HDb -> gmap bytes bytes;
  file_view : HeightsFile -> gmap bytes bytes;
  hdb_get_view : forall d k v, hdb_get d k = Ok v -> v = hdb_view d !! k;
  hdb_put_view : forall d k v d', hdb_put d k v = (d', PutDone) -> hdb_view d' = <[k := v]> (hdb_view d);
  hdb_put_failed : forall d k v d' r, hdb_put d k v = (d', r) -> r <> PutDone -> hdb_view d' = hdb_view d;
  hdb_batch_view : forall d l d', hdb_put_batch d l = (d', Ok tt) -> NoDup l.*1 -> (forall k, k ∈ l.*1 -> hdb_view d !! k = None) ->
    hdb_view d' = write_all (hdb_view d) l;
  hdb_delete_view : forall d k d', hdb_delete d k = (d', Ok tt) -> hdb_view d' = delete k (hdb_view d);
  hdb_close_view : forall d f, hdb_close d = (f, Ok tt) -> file_view f = hdb_view d;
  ensure_view : forall f n f' r, ensure_runtime_body_headroom f n = (f', r) -> file_view f' = file_view f;
  open_view : forall f d, open_runtime f = Ok d -> hdb_view d = file_view f
}.

Module HeaderIndex.

Definition HEADER_SIZE : Z := 80.
Definition RUNTIME_HEADROOM : Z := Z.shiftl 64 20.
Definition HASH_KEY_SIZE : nat := 16.
Definition HEIGHT_VALUE_SIZE : Z := 8.
Definition BLOCK_SIZE : Z := Z.shiftl 1 20.

Definition header_offset (height : Z) : result Z :=
  ok_or "header position overflow" (checked_mul 64 height HEADER_SIZE).

Definition align_capacity (n : Z) : result Z :=
  ok_or "header index capacity overflow" (checked_mul 64 (div_ceil (Z.max n BLOCK_SIZE) BLOCK_SIZE) BLOCK_SIZE).

(** [checked_next_power_of_two] of a [u64] *)
Definition checked_next_power_of_two (n : Z) : option Z := try_uint 64 (2 ^ Z.log2_up n).

(** The sizes that [HeaderIndex::create] computes: header file, buckets, body capacity. *)
Definition create_sizes (max_height : Z) : result (Z * Z * Z) :=
  let header_count := max_height + 1 in
  header_bytes ← ok_or "header file size overflow" (checked_mul 64 header_count HEADER_SIZE);
  let desired_buckets := Z.max (div_ceil header_count 4) 1024 in
  bucket_count ← ok_or "header index bucket count overflow" (checked_next_power_of_two desired_buckets);
  bytes ← ok_or "header index capacity overflow"
    (bytes ← checked_mul 64 header_count 64; checked_add 64 bytes RUNTIME_HEADROOM);
  body_capacity ← align_capacity bytes;
  Ok (header_bytes, bucket_count, body_capacity).

(** Hash keys retain a prefix of the hash. *)
Definition hash_key (hash : bytes) : bytes := take HASH_KEY_SIZE hash.

Section Index.
Context `{HeaderCodec} `{HeightsDb}.

Record HeaderIndex := { headers : VFile; heights : option HDb }.

Definition with_headers (x : HeaderIndex) (v : VFile) : HeaderIndex := {| headers := v; heights := heights x |}.
Definition with_heights (x : HeaderIndex) (d : option HDb) : HeaderIndex := {| headers := headers x; heights := d |}.

Definition unavailable : string := "header index unavailable after failed body capacity growth".

Definition available_heights : SR HeaderIndex HDb :=
  x ← get; lift (ok_or unavailable (heights x)).

Definition on_headers {A} (m : SR VFile A) : SR HeaderIndex A := fun x =>
  let '(v, r) := m (headers x) in (with_headers x v, r).

(** [put] of the database, which is in place. *)
Definition put_height (key value : bytes) : SR HeaderIndex PutResult :=
  d ← available_heights;
  let '(d, r) := hdb_put d key value in
  modify (fun x => with_heights x (Some d));; mret r.

Definition grow_heights : SR HeaderIndex bool :=
  x ← get;
  database ← lift (ok_or unavailable (heights x));
  modify (fun x => with_heights x None);;
  let '(f, closed) := hdb_close database in
  lift closed;;
  let '(f, grew) := ensure_runtime_body_headroom f RUNTIME_HEADROOM in
  grew ← lift grew;
  database ← lift (open_runtime f);
  modify (fun x => with_heights x (Some database));;
  mret grew.

Definition ensure_height (io : Io) (height : Z) : SR HeaderIndex unit :=
  off ← lift (header_offset height);
  required ← lift (ok_or "header file length overflow" (checked_add 64 off HEADER_SIZE));
  x ← get;
  if zlength (now (headers x)) <? required then on_headers (set_file_len io 0 required) else mret tt.

Definition exhausted : string := "mapped file capacity exhausted".

(** The insertion of [put]: a database that is full is closed, grown and opened once. *)
Definition insert_height (key value : bytes) : SR HeaderIndex unit :=
  r ← put_height key value;
  match r with
  | PutDone => mret tt
  | CapacityExhausted =>
      grew ← try_ grow_heights;
      match grew with
      | Err _ => lift (Err exhausted)
      | Ok false => lift (Err exhausted)
      | Ok true =>
          r ← put_height key value;
          match r with
          | PutDone => mret tt
          | CapacityExhausted => lift (Err exhausted)
          | PutError msg => lift (Err msg)
          end
      end
  | PutError msg => lift (Err msg)
  end.

Definition put (io : Io) (height : Z) (header : Header) : SR HeaderIndex unit :=
  let bytes := header_encode header in
  lift (require (zlength bytes =? HEADER_SIZE) "header serialized to the wrong length");;
  insert_height (hash_key (header_block_hash header)) (le_bytes 8 height);;
  ensure_height io height;;
  off ← lift (header_offset height);
  on_headers (update_file io 1 (fun f => write_all_at f off bytes)).

Definition read_header (f : File) (height : Z) : result (option Header) :=
  off ← header_offset height;
  if zlength f <? off + HEADER_SIZE then Ok None
  else
    bytes ← ok_or "failed to fill whole buffer" (read_exact_at f off HEADER_SIZE);
    if bool_decide (bytes = zeros 80) then Ok None
    else
      '(header, rest) ← header_decode bytes;
      require (bool_decide (rest = [])) "data not consumed entirely when explicitly deserializing";;
      Ok (Some header).

Definition get_by_height (x : HeaderIndex) (height : Z) : result (option Header) :=
  ok_or unavailable (heights x);; read_header (now (headers x)) height.

Definition read_height (f : File) (d : HDb) (block_hash : bytes) : result (option Z) :=
  value ← hdb_get d (hash_key block_hash);
  match value with
  | None => Ok None
  | Some value =>
      require (zlength value =? HEIGHT_VALUE_SIZE) "indexed header height has the wrong length";;
      height ← ok_or "indexed header height exceeds u32" (try_uint 32 (le_value value));
      header ← read_header f height;
      match header with
      | Some header => if bool_decide (header_block_hash header = block_hash) then Ok (Some height) else Ok None
      | None => Ok None
      end
  end.

Definition get_height (x : HeaderIndex) (block_hash : bytes) : result (option Z) :=
  d ← ok_or unavailable (heights x); read_height (now (headers x)) d block_hash.

Definition remove (io : Io) (height : Z) (block_hash : bytes) : SR HeaderIndex unit :=
  d ← available_heights;
  x ← get;
  found ← lift (read_height (now (headers x)) d block_hash);
  (if bool_decide (found = Some height) then
     let '(d, r) := hdb_delete d (hash_key block_hash) in
     modify (fun x => with_heights x (Some d));; lift r
   else mret tt);;
  header ← lift (read_header (now (headers x)) height);
  if match header with Some header => bool_decide (header_block_hash header = block_hash) | None => false end then
    off ← lift (header_offset height);
    on_headers (update_file io 0 (fun f => write_all_at f off (zeros 80)))
  else mret tt.

(** [HeaderBuildWriter::put_batch]; an entry is a height, the serialized header and
    its hash. *)
Fixpoint write_headers (io : Io) (n : nat) (entries : list (Z * bytes * bytes)) : SR HeaderIndex unit :=
  match entries with
  | [] => mret tt
  | (height, bytes, _) :: entries =>
      off ← lift (header_offset height);
      on_headers (update_file io n (fun f => write_all_at f off bytes));;
      write_headers io (S n) entries
  end.

Definition put_batch (io : Io) (entries : list (Z * bytes * bytes)) : SR HeaderIndex unit :=
  available_heights;;
  write_headers io 0 entries;;
  d ← available_heights;
  let '(d, r) := hdb_put_batch d ((fun e => (hash_key e.2, le_bytes 8 e.1.1)) <$> entries) in
  modify (fun x => with_heights x (Some d));; lift r.

(** [open]: the header file must hold whole headers. *)
Definition open_index (f : File) (h : HeightsFile) : result HeaderIndex :=
  require (zlength f mod HEADER_SIZE =? 0) "header file length is not a multiple of the header size";;
  let '(h, grew) := ensure_runtime_body_headroom h RUNTIME_HEADROOM in
  grew;;
  d ← open_runtime h;
  Ok {| headers := synced f; heights := Some d |}.
End Index.

(** A serialized header has 80 bytes. *)
Class HeaderLaws `{HeaderCodec} := header_length : forall h, length (header_encode h) = 80%nat.

Section Spec.
Context `{HeaderLaws} `{HeightsLaws}.

(** ** Slots *)

Lemma header_offset_ok height : is_u32 height -> header_offset height = Ok (height * HEADER_SIZE).
Proof.
  intros Hh. unfold header_offset, HEADER_SIZE.
  by rewrite (proj2 (checked_mul_Some 64 height 80 (height * 80))) by (split; [done|unfold is_uint in *; lia]).
Qed.

Definition decode_slot (bs : bytes) : result (option Header) :=
  if bool_decide (bs = zeros 80) then Ok None
  else '(header, rest) ← header_decode bs;
       require (bool_decide (rest = [])) "data not consumed entirely when explicitly deserializing";;
       Ok (Some header).

Lemma read_header_beyond f h : is_u32 h -> zlength f < h * HEADER_SIZE + HEADER_SIZE -> read_header f h = Ok None.
Proof. intros Hh Hl. unfold read_header. rewrite header_offset_ok by done. step_ok. by rewrite (proj2 (Z.ltb_lt _ _)). Qed.

Lemma read_header_stored f h bs : is_u32 h -> zlength bs = HEADER_SIZE -> stored f (h * HEADER_SIZE) bs ->
  read_header f h = decode_slot bs.
Proof.
  intros Hh Hl Hs. assert (bs <> []) as Hne by (intros ->; done). pose proof (stored_length _ _ _ Hne Hs) as Hlen.
  unfold read_header. rewrite header_offset_ok by done. step_ok. rewrite (proj2 (Z.ltb_ge _ _)) by lia.
  assert (read_exact_at f (h * HEADER_SIZE) HEADER_SIZE = Some bs) as ->; [|done].
  rewrite <- Hl at 2. apply stored_read; [unfold HEADER_SIZE, is_uint in *; lia|done|done].
Qed.

Lemma read_header_agree f g h : is_u32 h -> h * HEADER_SIZE + HEADER_SIZE <= zlength f -> zlength f <= zlength g ->
  agree f g (h * HEADER_SIZE) (h * HEADER_SIZE + HEADER_SIZE) -> read_header g h = read_header f h.
Proof.
  intros Hh Hf Hg Ha. unfold read_header. rewrite header_offset_ok by done. step_ok.
  rewrite !(proj2 (Z.ltb_ge _ _)) by lia.
  rewrite (read_agree f g _ _ (h * HEADER_SIZE) HEADER_SIZE Ha) by (unfold HEADER_SIZE, is_uint in *; lia). done.
Qed.

(** Growing the file with zeros does not change what is read. *)
Lemma read_header_grow f g h : is_u32 h -> zlength f mod HEADER_SIZE = 0 -> zlength f <= zlength g ->
  agree f g 0 (zlength f) -> (forall i, zlength f <= i < zlength g -> i / HEADER_SIZE = h -> zlookup g i = Some 0) ->
  read_header g h = read_header f h.
Proof.
  intros Hh Hm Hl Ha Hz. apply Z.div_exact in Hm; [|done]. set (n := zlength f / HEADER_SIZE) in *.
  assert (0 <= h) as Hh0 by (destruct Hh; lia). unfold HEADER_SIZE in *.
  destruct (Z.le_gt_cases (h * 80 + 80) (zlength f)) as [Hin|Hout].
  - apply read_header_agree; unfold HEADER_SIZE; [done|lia|lia|]. eapply agree_sub; [exact Ha|lia|lia].
  - rewrite (read_header_beyond f h Hh) by (unfold HEADER_SIZE; lia).
    destruct (Z.lt_ge_cases (zlength g) (h * 80 + 80)) as [Hb|Hb]; [by apply read_header_beyond|].
    rewrite (read_header_stored g h (zeros 80)); [unfold decode_slot; by rewrite bool_decide_eq_true_2|done|by rewrite zlength_zeros|].
    intros i Hi. rewrite zlength_zeros in Hi. rewrite zlookup_zeros by lia. rewrite (proj2 (Z.ltb_lt _ _)) by lia.
    unfold HEADER_SIZE. apply Hz; [nia|]. symmetry. apply (Z.div_unique _ 80 h i); lia.
Qed.

Lemma slot_mod n : (n * HEADER_SIZE + HEADER_SIZE) mod HEADER_SIZE = 0.
Proof. replace (n * HEADER_SIZE + HEADER_SIZE) with ((n + 1) * HEADER_SIZE) by lia. by apply Z.mod_mul. Qed.

Lemma set_len_slots f k h : is_u32 h -> zlength f mod HEADER_SIZE = 0 -> zlength f <= k ->
  read_header (set_len f k) h = read_header f h.
Proof.
  intros Hh Hm Hk. pose proof (zlength_nonneg f). apply read_header_grow; [done|done|rewrite zlength_set_len; lia|apply set_len_agree; lia|].
  intros i Hi _. rewrite zlength_set_len in Hi by lia. rewrite zlookup_set_len by lia.
  destruct (Z.ltb_spec i (zlength f)); [lia|]. by rewrite (proj2 (Z.ltb_lt i k)) by lia.
Qed.

Lemma write_slot f height bs : is_u32 height -> zlength f mod HEADER_SIZE = 0 -> zlength bs = HEADER_SIZE ->
  let f' := write_all_at f (height * HEADER_SIZE) bs in
  zlength f' mod HEADER_SIZE = 0 /\
  forall h, is_u32 h -> read_header f' h = if h =? height then decode_slot bs else read_header f h.
Proof.
  intros Hh Hm Hl f'. assert (bs <> []) as Hne by (intros ->; done). assert (0 <= height) as H0' by (destruct Hh; lia).
  assert (zlength f' = Z.max (zlength f) (height * HEADER_SIZE + HEADER_SIZE)) as Hlf.
  { unfold f'. rewrite zlength_write, Hl by (unfold HEADER_SIZE; lia || done). unfold HEADER_SIZE. lia. }
  split.
  { rewrite Hlf. destruct (Z.max_spec (zlength f) (height * HEADER_SIZE + HEADER_SIZE)) as [[_ ->]|[_ ->]]; [apply slot_mod|done]. }
  intros h Hhh. destruct (Z.eqb_spec h height) as [->|Hne2].
  - apply read_header_stored; [done|done|]. apply stored_write. unfold HEADER_SIZE. lia.
  - assert (0 <= h) as Hh0 by (destruct Hhh; lia). unfold HEADER_SIZE in *.
    destruct (Z.le_gt_cases (h * 80 + 80) (zlength f)) as [Hin|Hout].
    + apply read_header_agree; unfold HEADER_SIZE; [done|done|rewrite Hlf; lia|]. apply write_agree; [lia|lia|done|]. rewrite Hl. lia.
    + rewrite (read_header_beyond f h Hhh) by (unfold HEADER_SIZE; lia).
      destruct (Z.lt_ge_cases (zlength f') (h * 80 + 80)) as [Hb|Hb]; [by apply read_header_beyond|].
      rewrite (read_header_stored f' h (zeros 80)); [unfold decode_slot; by rewrite bool_decide_eq_true_2|done|by rewrite zlength_zeros|].
      apply Z.div_exact in Hm; [|done]. intros i Hi. rewrite zlength_zeros in Hi. rewrite zlookup_zeros by lia.
      rewrite (proj2 (Z.ltb_lt _ _)) by lia. unfold f', HEADER_SIZE. rewrite zlookup_write by (done || lia).
      rewrite (proj2 (Z.ltb_lt _ _)) by lia. by rewrite (proj2 (Z.ltb_ge _ _)) by lia.
Qed.

(** ** The height database *)

Lemma put_height_inv key value x x' r : put_height key value x = (x', r) ->
  (heights x = None /\ x' = x /\ exists e, r = Err e) \/
  (exists d d' pr, heights x = Some d /\ hdb_put d key value = (d', pr) /\ x' = with_heights x (Some d') /\ r = Ok pr).
Proof.
  intros E. unfold put_height, available_heights in E.
  apply sr_bind_inv in E as (x1 & r1 & E1 & E). apply sr_bind_inv in E1 as (x2 & r2 & E2 & E1). injection E2 as <- <-.
  unfold lift in E1. injection E1 as <- <-. destruct (heights x) as [d|] eqn:Ed; cbn [ok_or] in E.
  - right. destruct (hdb_put d key value) as [d' pr] eqn:Ep. injection E as <- <-. by exists d, d', pr.
  - left. destruct E as [-> ->]. split_and!; [done|done|by eexists].
Qed.

(** The database is gone, or holds the same map. *)
Definition same_or_gone (x x' : HeaderIndex) : Prop :=
  heights x' = None \/ exists d d', heights x = Some d /\ heights x' = Some d' /\ hdb_view d' = hdb_view d.

Lemma grow_inv x x' r : grow_heights x = (x', r) -> headers x' = headers x /\ same_or_gone x x'.
Proof.
  intros E. unfold grow_heights in E.
  apply sr_bind_inv in E as (x1 & r1 & E1 & E). injection E1 as <- <-.
  apply sr_bind_inv in E as (x1 & r1 & E1 & E). unfold lift in E1. injection E1 as <- <-.
  destruct (heights x) as [d|] eqn:Ed; cbn [ok_or] in E; [|destruct E as [-> _]; split; [done|by left]].
  apply sr_bind_inv in E as (x1 & r1 & E1 & E). injection E1 as <- <-.
  destruct (hdb_close d) as [f closed] eqn:Ec.
  apply sr_bind_inv in E as (x1 & r1 & E1 & E). unfold lift in E1. injection E1 as <- <-.
  destruct closed as [[]|]; [|destruct E as [-> _]; split; [done|by left]].
  destruct (ensure_runtime_body_headroom f RUNTIME_HEADROOM) as [f' grew] eqn:Eg.
  apply sr_bind_inv in E as (x1 & r1 & E1 & E). unfold lift in E1. injection E1 as <- <-.
  destruct grew as [grew|]; [|destruct E as [-> _]; split; [done|by left]].
  apply sr_bind_inv in E as (x1 & r1 & E1 & E). unfold lift in E1. injection E1 as <- <-.
  destruct (open_runtime f') as [d'|] eqn:Eo; [|destruct E as [-> _]; split; [done|by left]].
  injection E as <- _. split; [done|]. right. exists d, d'. split_and!; [done|done|].
  by rewrite (open_view _ _ Eo), (ensure_view _ _ _ _ Eg), (hdb_close_view _ _ Ec).
Qed.

Lemma insert_inv key value x x' r : insert_height key value x = (x', r) ->
  headers x' = headers x /\
  match r with
  | Ok _ => exists d d', heights x = Some d /\ heights x' = Some d' /\ hdb_view d' = <[key := value]> (hdb_view d)
  | Err _ => same_or_gone x x'
  end.
Proof.
  intros E. unfold insert_height in E. apply sr_bind_inv in E as (x1 & r1 & E1 & E).
  apply put_height_inv in E1 as [(Hn & -> & e & ->)|(d & d' & pr & Ed & Ep & -> & ->)].
  { destruct E as [-> ->]. split; [done|by left]. }
  assert (pr <> PutDone -> same_or_gone x (with_heights x (Some d'))) as Hsame.
  { intros Hpr. right. exists d, d'. split_and!; [done|done|]. by apply (hdb_put_failed _ _ _ _ _ Ep). }
  destruct pr as [| |msg].
  - injection E as <- <-. split; [done|]. exists d, d'. split_and!; [done|done|]. by apply (hdb_put_view _ _ _ _ Ep).
  - specialize (Hsame ltac:(done)). apply sr_bind_inv in E as (x2 & r2 & E2 & E). unfold try_ in E2.
    destruct (grow_heights (with_heights x (Some d'))) as [x3 rg] eqn:Eg. injection E2 as <- <-.
    apply grow_inv in Eg as [Hh Hg]. cbn [headers with_heights] in Hh.
    assert (same_or_gone x x3) as Hx3.
    { destruct Hg as [Hg|(d1 & d2 & K1 & K2 & K3)]; [by left|]. injection K1 as <-.
      destruct Hsame as [?|(d3 & d4 & K4 & [= <-] & K6)]; [done|]. right. exists d3, d2. split_and!; [done|done|congruence]. }
    destruct rg as [[]|]; [|injection E as <- <-; by split..].
    apply sr_bind_inv in E as (x4 & r4 & E4 & E).
    apply put_height_inv in E4 as [(Hn & -> & e & ->)|(d5 & d6 & pr & Ed5 & Ep5 & -> & ->)].
    { destruct E as [-> ->]. split; [done|by left]. }
    assert (exists d0, heights x = Some d0 /\ hdb_view d5 = hdb_view d0) as (d0 & E0 & V0).
    { destruct Hx3 as [Hx|(k1 & k2 & K1 & K2 & K3)]; [congruence|]. exists k1. split; [done|]. congruence. }
    destruct pr as [| |msg]; injection E as <- <-; (split; [done|]).
    + exists d0, d6. split_and!; [done|done|]. rewrite <- V0. by apply (hdb_put_view _ _ _ _ Ep5).
    + right. exists d0, d6. split_and!; [done|done|]. rewrite <- V0. by apply (hdb_put_failed _ _ _ _ _ Ep5).
    + right. exists d0, d6. split_and!; [done|done|]. rewrite <- V0. by apply (hdb_put_failed _ _ _ _ _ Ep5).
  - injection E as <- <-. split; [done|]. by apply Hsame.
Qed.

(** ** The index as two maps *)

Definition at_height (Hs : Z -> option Header) (height : Z) (header : option Header) : Z -> option Header :=
  fun h => if h =? height then header else Hs h.

(** The bytes of a file that holds [Hs]. *)
Definition slots (f : File) (Hs : Z -> option Header) : Prop :=
  zlength f mod HEADER_SIZE = 0 /\ forall h, is_u32 h -> read_header f h = Ok (Hs h).

Record refines (x : HeaderIndex) (Hs : Z -> option Header) (K : gmap bytes Z) : Prop := {
  rf_headers : slots (now (headers x)) Hs;
  rf_heights : exists d, heights x = Some d /\ hdb_view d = le_bytes 8 <$> K;
  rf_u32 : map_Forall (fun _ h => is_u32 h) K
}.

(** The height of a hash: a key that belongs to another hash is not a match. *)
Definition lookup_height (Hs : Z -> option Header) (K : gmap bytes Z) (block_hash : bytes) : option Z :=
  h ← K !! hash_key block_hash;
  header ← Hs h;
  if bool_decide (header_block_hash header = block_hash) then Some h else None.

Inductive HeaderOp :=
| Put (height : Z) (header : Header)
| Remove (height : Z) (block_hash : bytes)
| PutBatch (entries : list (Z * Header)).

Definition serialized_entry (e : Z * Header) : Z * bytes * bytes :=
  (e.1, header_encode e.2, header_block_hash e.2).

Definition run_header (io : Io) (op : HeaderOp) : SR HeaderIndex unit :=
  match op with
  | Put height header => put io height header
  | Remove height block_hash => remove io height block_hash
  | PutBatch entries => put_batch io (serialized_entry <$> entries)
  end.

Definition spec_header (op : HeaderOp) (Hs : Z -> option Header) (K : gmap bytes Z)
  : (Z -> option Header) * gmap bytes Z :=
  match op with
  | Put height header =>
      (at_height Hs height (Some header), <[hash_key (header_block_hash header) := height]> K)
  | Remove height block_hash =>
      (match Hs height with
       | Some header => if bool_decide (header_block_hash header = block_hash) then at_height Hs height None else Hs
       | None => Hs
       end,
       if bool_decide (lookup_height Hs K block_hash = Some height) then delete (hash_key block_hash) K else K)
  | PutBatch entries =>
      (foldl (fun Hs e => at_height Hs e.1 (Some e.2)) Hs entries,
       write_all K ((fun e => (hash_key (header_block_hash e.2), e.1)) <$> entries))
  end.

Definition header_key (e : Z * Header) : bytes := hash_key (header_block_hash e.2).

(** The all-zero slot stands for no header.  A batch is for headers of different keys that the index does not have. *)
Definition entry_fits (e : Z * Header) : Prop := is_u32 e.1 /\ header_encode e.2 <> zeros 80.
Definition header_op_ok (op : HeaderOp) (K : gmap bytes Z) : Prop :=
  match op with
  | Put height header => entry_fits (height, header)
  | Remove height _ => is_u32 height
  | PutBatch entries => Forall entry_fits entries /\ NoDup (header_key <$> entries) /\ forall e, e ∈ entries -> K !! header_key e = None
  end.

Lemma decode_slot_encode header : header_encode header <> zeros 80 -> decode_slot (header_encode header) = Ok (Some header).
Proof.
  intros Hne. unfold decode_slot. rewrite bool_decide_eq_false_2 by done.
  rewrite <- (app_nil_r (header_encode header)), (dec_enc header_codec) by done. step_ok. done.
Qed.

Lemma zlength_header h : zlength (header_encode h) = HEADER_SIZE.
Proof. unfold zlength. by rewrite header_length. Qed.

Lemma header_slots_write f Hs height bs slot : slots f Hs -> is_u32 height -> zlength bs = HEADER_SIZE -> decode_slot bs = Ok slot ->
  slots (write_all_at f (height * HEADER_SIZE) bs) (at_height Hs height slot).
Proof.
  intros [Hm Hs'] Hh Hl Hd. destruct (write_slot f height bs Hh Hm Hl) as [Hm2 Hr]. split; [done|].
  intros h Hhh. rewrite (Hr h Hhh). unfold at_height. destruct (h =? height); [done|by apply Hs'].
Qed.

Lemma slots_grow f Hs height : slots f Hs -> is_u32 height -> zlength f < height * HEADER_SIZE + HEADER_SIZE ->
  slots (set_len f (height * HEADER_SIZE + HEADER_SIZE)) Hs.
Proof.
  intros [Hm Hs'] Hh Hl. split.
  - rewrite zlength_set_len by (unfold HEADER_SIZE, is_uint in *; lia). apply slot_mod.
  - intros h Hhh. rewrite set_len_slots; [by apply Hs'|done|done|lia].
Qed.

Lemma ensure_height_inv io height x x' r : is_u32 height -> ensure_height io height x = (x', r) ->
  heights x' = heights x /\ (forall Hs, slots (now (headers x)) Hs -> slots (now (headers x')) Hs) /\
  (r <> Ok tt -> io 0%nat = false /\ headers x' = headers x).
Proof.
  intros Hh E. unfold ensure_height in E. erewrite sr_bind_ok in E by (unfold lift; by rewrite header_offset_ok).
  erewrite sr_bind_ok in E.
  2: { unfold lift. rewrite (proj2 (checked_add_Some 64 (height * HEADER_SIZE) HEADER_SIZE (height * HEADER_SIZE + HEADER_SIZE)));
       [done|]. unfold HEADER_SIZE, is_uint in *. split; [done|lia]. }
  erewrite sr_bind_ok in E by done. destruct (Z.ltb_spec (zlength (now (headers x))) (height * HEADER_SIZE + HEADER_SIZE)).
  - unfold on_headers, set_file_len in E. destruct (io 0%nat); injection E as <- <-; cbn.
    + split_and!; [done| |done]. intros Hs Hsl. by apply slots_grow.
    + split_and!; [done|done|done].
  - injection E as <- <-. done.
Qed.

(** What the readers answer, when the database answers. *)
Definition answers (x : HeaderIndex) (Hs : Z -> option Header) (K : gmap bytes Z) : Prop :=
  (forall h, is_u32 h -> get_by_height x h = Ok (Hs h)) /\
  (forall block_hash r, get_height x block_hash = Ok r -> r = lookup_height Hs K block_hash).

Lemma read_height_refines x d Hs K block_hash r : refines x Hs K -> heights x = Some d ->
  read_height (now (headers x)) d block_hash = Ok r -> r = lookup_height Hs K block_hash.
Proof.
  intros [[_ Hsl] (d' & Ed & Ev) Hk] Ed' E. assert (d' = d) as -> by congruence. unfold read_height in E. unfold lookup_height.
  apply bind_ok in E as (v & Eg & E). apply hdb_get_view in Eg. rewrite Ev, lookup_fmap in Eg.
  destruct (K !! hash_key block_hash) as [h|] eqn:EK; cbn [fmap option_fmap option_map] in Eg; subst v; [|by injection E].
  pose proof (Hk _ _ EK) as Hh. cbn beta in Hh. cbn [mbind option_bind].
  assert (zlength (le_bytes 8 h) = 8) as Lh by (unfold zlength; by rewrite length_le_bytes).
  apply bind_ok in E as (? & _ & E). apply bind_ok in E as (h' & Eh & E).
  rewrite le_value_le_bytes in Eh by (unfold is_uint in *; lia).
  apply ok_or_ok, try_uint_Some in Eh as [-> _]. apply bind_ok in E as (header & Eh & E). rewrite (Hsl h Hh) in Eh.
  injection Eh as <-. destruct (Hs h) as [header|]; cbn [mbind option_bind]; [|by injection E].
  case_bool_decide; by injection E.
Qed.

Lemma refines_answers x Hs K : refines x Hs K -> answers x Hs K.
Proof.
  intros Hr. pose proof Hr as [[_ Hsl] (d & Ed & _) _]. split.
  - intros h Hh. unfold get_by_height. rewrite Ed. step_ok. by apply Hsl.
  - intros bh r E. unfold get_height in E. rewrite Ed in E. by apply (read_height_refines x d).
Qed.

Lemma put_refines io height header x x' Hs K : refines x Hs K -> entry_fits (height, header) ->
  put io height header x = (x', Ok tt) -> refines x' (at_height Hs height (Some header)) (<[hash_key (header_block_hash header) := height]> K).
Proof.
  intros [Hsl (d & Ed & Ev) Hk] [Hh Hne] E. cbn [fst snd] in *. unfold put in E. rewrite zlength_header, Z.eqb_refl in E.
  erewrite sr_bind_ok in E by done. apply sr_bind_inv in E as (x1 & r1 & E1 & E). apply insert_inv in E1 as [Hh1 Hr1].
  destruct r1 as [[]|]; [|by destruct E]. destruct Hr1 as (d1 & d2 & Ed1 & Ed2 & V). assert (d1 = d) as -> by congruence.
  apply sr_bind_inv in E as (x2 & r2 & E2 & E). apply ensure_height_inv in E2 as (Hd2 & Hs2 & _); [|done].
  destruct r2 as [[]|]; [|by destruct E].
  erewrite sr_bind_ok in E by (unfold lift; by rewrite header_offset_ok). unfold on_headers, update_file in E.
  destruct (io 1%nat); [|done]. injection E as <-. split; cbn [headers heights with_headers now vupdate].
  - apply header_slots_write; [apply Hs2; by rewrite Hh1|done|apply zlength_header|by apply decode_slot_encode].
  - exists d2. split; [congruence|]. by rewrite V, Ev, fmap_insert.
  - by apply map_Forall_insert_2.
Qed.

Lemma remove_refines io height bh x x' Hs K : refines x Hs K -> is_u32 height ->
  remove io height bh x = (x', Ok tt) -> refines x' (spec_header (Remove height bh) Hs K).1 (spec_header (Remove height bh) Hs K).2.
Proof.
  intros Hr Hh E. pose proof Hr as [Hsl (d & Ed & Ev) Hk]. unfold remove, available_heights in E.
  erewrite sr_bind_ok in E by (erewrite sr_bind_ok by done; unfold lift; by rewrite Ed).
  erewrite sr_bind_ok in E by done. apply sr_bind_inv in E as (x1 & r1 & E1 & E). unfold lift in E1. injection E1 as <- <-.
  destruct (read_height (now (headers x)) d bh) as [found|] eqn:Ef; [|by destruct E].
  apply (read_height_refines x d Hs K) in Ef; [|done|done]. subst found.
  apply sr_bind_inv in E as (x1 & r1 & E1 & E). destruct r1 as [[]|]; [|by destruct E].
  assert (headers x1 = headers x /\ exists d1, heights x1 = Some d1 /\
    hdb_view d1 = le_bytes 8 <$> (spec_header (Remove height bh) Hs K).2) as (Eh1 & d1 & Ed1 & Ev1).
  { cbn [spec_header snd]. case_bool_decide.
    - destruct (hdb_delete d (hash_key bh)) as [d1 rd] eqn:Edel. apply sr_bind_inv in E1 as (x2 & r2 & E2 & E1). injection E2 as <- <-.
      unfold lift in E1. injection E1 as <- ->. split; [done|]. exists d1. split; [done|].
      by rewrite (hdb_delete_view _ _ _ Edel), Ev, fmap_delete.
    - injection E1 as <-. split; [done|]. by exists d. }
  apply sr_bind_inv in E as (x2 & r2 & E2 & E). unfold lift in E2. injection E2 as <- <-.
  rewrite (proj2 Hsl height Hh) in E.
  assert (map_Forall (fun _ h => is_u32 h) (spec_header (Remove height bh) Hs K).2) as Hk'.
  { cbn [spec_header snd]. case_bool_decide; [by apply map_Forall_delete|done]. }
  assert (forall c : bool, (if c then off ← lift (header_offset height); on_headers (update_file io 0 (fun f => write_all_at f off (zeros 80)))
      else mret tt) x1 = (x', Ok tt) ->
    slots (now (headers x')) (if c then at_height Hs height None else Hs) /\ heights x' = heights x1) as Hc.
  { intros [] Ec; [|injection Ec as <-; by rewrite Eh1]. erewrite sr_bind_ok in Ec by (unfold lift; by rewrite header_offset_ok).
    unfold on_headers, update_file in Ec. destruct (io 0%nat); [|done]. injection Ec as <-.
    cbn [headers heights with_headers now vupdate]. split; [|done]. rewrite Eh1. by apply header_slots_write. }
  apply Hc in E as [Hs' Hd']. split; [|exists d1; by rewrite Hd'|done].
  cbn [spec_header fst]. destruct (Hs height) as [header|]; [|done]. by case_bool_decide.
Qed.

Lemma write_headers_inv io n entries x x' Hs : Forall entry_fits entries -> slots (now (headers x)) Hs ->
  write_headers io n (serialized_entry <$> entries) x = (x', Ok tt) ->
  slots (now (headers x')) (foldl (fun Hs e => at_height Hs e.1 (Some e.2)) Hs entries) /\ heights x' = heights x.
Proof.
  intros Hok. revert n x Hs. induction Hok as [|[h hd] entries [Hh Hne] Hok IH]; intros n x Hs Hsl E.
  { injection E as <-. by split. }
  cbn [fmap list_fmap serialized_entry write_headers fst snd] in E.
  erewrite sr_bind_ok in E by (unfold lift; by rewrite header_offset_ok).
  apply sr_bind_inv in E as (x1 & r1 & E1 & E). unfold on_headers, update_file in E1.
  destruct (io n); [|injection E1 as <- <-; by destruct E]. injection E1 as <- <-.
  cbn [fst snd] in *. eapply (IH _ _ (at_height Hs h (Some hd))) in E; [done|].
  cbn [headers with_headers now vupdate]. apply header_slots_write; [done|done|apply zlength_header|by apply decode_slot_encode].
Qed.

Lemma write_all_fmap {V W} (f : V -> W) (m : gmap bytes V) l :
  write_all (f <$> m) ((fun kv => (kv.1, f kv.2)) <$> l) = f <$> write_all m l.
Proof. revert m. induction l as [|kv l IH]; intros m; [done|]. cbn. rewrite <- fmap_insert. apply IH. Qed.

(** The headers of a batch reach their slots whatever the keys are. *)
Lemma batch_slots io entries x x' Hs d : slots (now (headers x)) Hs -> heights x = Some d -> Forall entry_fits entries ->
  put_batch io (serialized_entry <$> entries) x = (x', Ok tt) ->
  slots (now (headers x')) (spec_header (PutBatch entries) Hs ∅).1 /\
  exists d', heights x' = Some d' /\ hdb_put_batch d ((fun e => (header_key e, le_bytes 8 e.1)) <$> entries) = (d', Ok tt).
Proof.
  intros Hsl Ed Hok E. unfold put_batch, available_heights in E.
  erewrite sr_bind_ok in E by (erewrite sr_bind_ok by done; unfold lift; by rewrite Ed).
  apply sr_bind_inv in E as (x1 & r1 & E1 & E). destruct r1 as [[]|]; [|by destruct E].
  apply (write_headers_inv _ _ _ _ _ Hs) in E1 as [Hs1 Hd1]; [|done|done].
  erewrite sr_bind_ok in E by (erewrite sr_bind_ok by done; unfold lift; rewrite Hd1; by rewrite Ed).
  destruct (hdb_put_batch d _) as [d2 r2] eqn:Eb. apply sr_bind_inv in E as (x2 & r3 & E2 & E). injection E2 as <- <-.
  unfold lift in E. injection E as <- ->. split; [done|]. exists d2. split; [done|]. rewrite <- list_fmap_compose in Eb. exact Eb.
Qed.

Lemma batch_refines io entries x x' Hs K : refines x Hs K -> header_op_ok (PutBatch entries) K ->
  put_batch io (serialized_entry <$> entries) x = (x', Ok tt) ->
  refines x' (spec_header (PutBatch entries) Hs K).1 (spec_header (PutBatch entries) Hs K).2.
Proof.
  intros [Hsl (d & Ed & Ev) Hk] (Hok & Hnd & Hnew) E. destruct (batch_slots io entries x x' Hs d Hsl Ed Hok E) as [Hsl' (d2 & Ed2 & Eb)].
  apply hdb_batch_view in Eb.
  2: { by rewrite <- list_fmap_compose. }
  2: { intros k. rewrite <- list_fmap_compose. intros (e & -> & He)%list_elem_of_fmap. change (hdb_view d !! header_key e = None).
       by rewrite Ev, lookup_fmap, (Hnew e He). }
  split; [done| |].
  - exists d2. split; [done|]. rewrite Eb, Ev. cbn [spec_header snd].
    rewrite <- write_all_fmap, <- list_fmap_compose. done.
  - cbn [spec_header snd]. clear -Hk Hok. revert K Hk. induction Hok as [|e entries [He _] Hok IH]; intros K Hk; [done|].
    cbn. apply IH. by apply map_Forall_insert_2.
Qed.

(** C40: The header file and the hash database together are two maps: inserting,
    removing and bootstrap batches that succeed change exactly the header at the
    height and the height of the hash key (a batch, which the database appends, for
    headers with different keys that the index does not have); removing never erases another header
    at the height nor another hash's height; lookups by height give the header
    of the height, and lookups by hash give a height only if the header there
    has that whole hash, although the key is only a prefix. *)
Theorem header_index_refines io op x x' Hs K : refines x Hs K -> header_op_ok op K -> run_header io op x = (x', Ok tt) ->
  refines x' (spec_header op Hs K).1 (spec_header op Hs K).2 /\
  answers x' (spec_header op Hs K).1 (spec_header op Hs K).2.
Proof.
  intros Hr Hok E. assert (refines x' (spec_header op Hs K).1 (spec_header op Hs K).2) as Hr'; [|split; [done|by apply refines_answers]].
  destruct op as [height header|height bh|entries]; [by eapply put_refines|by eapply remove_refines|by eapply batch_refines].
Qed.

(** An insertion that fails for any reason but a failed write to the header file
    changes no header; the hash database then holds what it held, or it could not be
    closed, grown and opened again and every later call reports that the index is
    unavailable.  In particular a full database never leaves a header without
    its height. *)
Theorem failed_put_changes_nothing io height header x x' e Hs K : refines x Hs K -> entry_fits (height, header) ->
  io 0%nat = true -> io 1%nat = true -> put io height header x = (x', Err e) ->
  headers x' = headers x /\
  (refines x' Hs K \/
   heights x' = None /\ (forall h, get_by_height x' h = Err unavailable) /\ (forall bh, get_height x' bh = Err unavailable)
   /\ (forall io op, exists e, run_header io op x' = (x', Err e))).
Proof.
  intros [Hsl (d & Ed & Ev) Hk] [Hh Hne] Hio0 Hio1 E. cbn [fst snd] in *. unfold put in E. rewrite zlength_header, Z.eqb_refl in E.
  erewrite sr_bind_ok in E by done. apply sr_bind_inv in E as (x1 & r1 & E1 & E). apply insert_inv in E1 as [Hh1 Hr1].
  destruct r1 as [[]|e1].
  - exfalso. apply sr_bind_inv in E as (x2 & r2 & E2 & E). apply ensure_height_inv in E2 as (_ & _ & Hs2); [|done].
    destruct r2 as [[]|]; [|destruct (Hs2 ltac:(done)); congruence].
    erewrite sr_bind_ok in E by (unfold lift; by rewrite header_offset_ok). unfold on_headers, update_file in E. by rewrite Hio1 in E.
  - destruct E as [-> _]. split; [done|]. destruct Hr1 as [Hn|(d1 & d2 & K1 & K2 & K3)].
    + right. split_and!; [done|intros; unfold get_by_height; by rewrite Hn|intros; unfold get_height; by rewrite Hn|].
      assert (forall A (f : HDb -> SR HeaderIndex A), (d ← available_heights; f d) x1 = (x1, Err unavailable)) as Hun.
      { intros A f. erewrite sr_bind_err; [done|]. unfold available_heights. erewrite sr_bind_ok by done. unfold lift. by rewrite Hn. }
      intros io2 [h hd|h bh|entries]; cbn [run_header]; eexists.
      * unfold put. rewrite zlength_header, Z.eqb_refl. erewrite sr_bind_ok by done.
        erewrite sr_bind_err; [done|]. unfold insert_height, put_height. erewrite sr_bind_err; [done|]. apply Hun.
      * apply Hun.
      * apply Hun.
    + left. assert (d1 = d) as -> by congruence. split; [by rewrite Hh1|exists d2; split; [done|congruence]|done].
Qed.

(** The sizes of a new header index never overflow: for every maximum height the
    file has a slot for each height up to it, the bucket count is a power of two
    of at least 1024 and a quarter of the headers, and the body capacity is a
    whole number of blocks with the headroom beyond 64 bytes per header. *)
Theorem create_sizes_fit max_height : is_u32 max_height ->
  exists header_bytes bucket_count body_capacity,
    create_sizes max_height = Ok (header_bytes, bucket_count, body_capacity) /\
    header_offset max_height = Ok (header_bytes - HEADER_SIZE) /\
    (exists k, 10 <= k /\ bucket_count = 2 ^ k /\ max_height + 1 <= 4 * bucket_count) /\
    body_capacity mod BLOCK_SIZE = 0 /\ 64 * (max_height + 1) + RUNTIME_HEADROOM <= body_capacity < 2 ^ 39.
Proof.
  intros [Hlo Hhi]. unfold create_sizes. set (n := max_height + 1). change (2 ^ 32) with 4294967296 in Hhi.
  assert (forall x, 0 <= x < 2 ^ 39 -> is_u64 x) as Hu by (intros; unfold is_uint; change (2 ^ 39) with 549755813888 in *; lia).
  assert (1 <= n <= 4294967296) as Hn by lia. change (2 ^ 39) with 549755813888 in *.
  assert (checked_mul 64 n HEADER_SIZE = Some (n * 80)) as -> by (apply checked_mul_Some; split; [done|apply Hu; unfold HEADER_SIZE; lia]). step_ok.
  set (desired := Z.max (div_ceil n 4) 1024).
  assert (n <= 4 * div_ceil n 4 /\ div_ceil n 4 <= 1073741824) as [Hd1 Hd2] by (unfold div_ceil; Z.to_euclidean_division_equations; lia).
  assert (1024 <= desired <= 2 ^ 30 /\ n <= 4 * desired) as [Hd Hnd] by (unfold desired; change (2 ^ 30) with 1073741824; lia).
  assert (10 <= Z.log2_up desired <= 30) as Hk.
  { split; [change 10 with (Z.log2_up 1024); apply Z.log2_up_le_mono; lia|].
    change 30 with (Z.log2_up (2 ^ 30)). apply Z.log2_up_le_mono. lia. }
  pose proof (Z.log2_up_spec desired ltac:(lia)) as [_ Hup].
  assert (2 ^ Z.log2_up desired <= 2 ^ 30) as Hpow by (apply Z.pow_le_mono_r; lia). change (2 ^ 30) with 1073741824 in *.
  assert (checked_next_power_of_two desired = Some (2 ^ Z.log2_up desired)) as -> by (apply try_uint_Some; split; [done|apply Hu; lia]). step_ok.
  assert (checked_mul 64 n 64 = Some (n * 64)) as -> by (apply checked_mul_Some; split; [done|apply Hu; lia]).
  cbn [mbind option_bind]. unfold RUNTIME_HEADROOM, BLOCK_SIZE in *. change (Z.shiftl 64 20) with 67108864. unfold align_capacity, BLOCK_SIZE.
  change (Z.shiftl 1 20) with 1048576.
  assert (checked_add 64 (n * 64) 67108864 = Some (n * 64 + 67108864)) as -> by (apply checked_add_Some; split; [done|apply Hu; lia]). step_ok.
  set (blocks := div_ceil (Z.max (n * 64 + 67108864) 1048576) 1048576).
  assert (n * 64 + 67108864 <= blocks * 1048576 < n * 64 + 67108864 + 1048576) as Hb by (unfold blocks, div_ceil; Z.to_euclidean_division_equations; lia).
  assert (checked_mul 64 blocks 1048576 = Some (blocks * 1048576)) as -> by (apply checked_mul_Some; split; [done|apply Hu; lia]). step_ok.
  do 3 eexists. split; [done|]. split_and!.
  - rewrite header_offset_ok by (split; [done|exact Hhi]). unfold HEADER_SIZE. f_equal. lia.
  - exists (Z.log2_up desired). split_and!; [lia|done|lia].
  - by apply Z.mod_mul.
  - lia.
  - lia.
Qed.
End Spec.


(** ** Concrete databases and headers *)

(** A database with room for so many keys; a closed one can grow. *)
Definition small_db : HeightsDb :=
  {| HDb := gmap bytes bytes * nat; HeightsFile := gmap bytes bytes * nat;
     hdb_get := fun d k => Ok (d.1 !! k);
     hdb_put := fun d k v => if (size d.1 <? d.2)%nat then ((<[k := v]> d.1, d.2), PutDone) else (d, CapacityExhausted);
     hdb_put_batch := fun d l => ((write_all d.1 l, d.2), Ok tt);
     hdb_delete := fun d k => ((delete k d.1, d.2), Ok tt);
     hdb_close := fun d => (d, Ok tt);
     ensure_runtime_body_headroom := fun d n => if n =? 0 then (d, Ok false) else if (d.2 <? 5)%nat then ((d.1, S d.2), Ok true) else (d, Err "disk full");
     open_runtime := fun d => Ok d |}.

Definition small_db_laws : @HeightsLaws small_db.
Proof.
  refine (@Build_HeightsLaws small_db fst fst _ _ _ _ _ _ _ _); cbn.
  - by intros d k v [= <-].
  - intros d k v d'. case_match; by intros [= <-].
  - intros d k v d' r. case_match; by intros [= <- <-].
  - by intros d l d' [= <-] _ _.
  - by intros d k d' [= <-].
  - by intros d f [= <-].
  - intros f n f' r. destruct (n =? 0); [by intros [= <- _]|]. case_match; by intros [= <- _].
  - by intros f d [= <-].
Defined.

(** Headers are their 80 bytes, the hash the first 32 and the parent the next. *)
Definition raw_header : Type := dsig (array_ok 80).

Definition raw_decode : reader raw_header := fun bs =>
  '(x, rest) ← take_exact "end" 80 bs;
  match decide (array_ok 80 x) with left Hx => Ok (dexist x Hx, rest) | right _ => Err "byte" end.

Lemma raw_codec : codec_ok (fun _ => True) (fun h : raw_header => `h) raw_decode.
Proof.
  split.
  - intros h rest _. pose proof (proj2_dsig h) as [Hl Hb]. unfold raw_decode. rewrite take_exact_app by done. step_ok.
    destruct (decide _) as [Hx|Hx]; [|by destruct Hx]. do 2 f_equal. by apply dsig_eq.
  - intros bs h rest _ E. unfold raw_decode in E. apply bind_ok in E as ([x r] & E1 & E). apply take_exact_ok in E1 as [-> _].
    destruct (decide _); [|done]. injection E as <- <-. done.
  - intros h _. by destruct (proj2_dsig h).
Qed.

Definition raw_headers : HeaderCodec :=
  {| Header := raw_header; header_encode := fun h => `h; header_decode := raw_decode; header_codec := raw_codec;
     header_block_hash := fun h : raw_header => take 32 (`h); prev_blockhash := fun h : raw_header => take 32 (drop 32 (`h)) |}.

Lemma raw_headers_laws : @HeaderLaws raw_headers.
Proof. intros h. apply (proj1 (proj2_dsig h)). Qed.

Section Demo.
#[local] Existing Instances small_db small_db_laws raw_headers raw_headers_laws.

Definition header_of (n : Z) : Header := dexist (P := array_ok 80) (replicate 80 (n mod 256))
  (conj (length_replicate 80 (n mod 256)) (Forall_replicate is_u8 80 (n mod 256) (Z.mod_pos_bound n 256 eq_refl))).

Definition demo_headers : HeaderIndex :=
  {| headers := synced (replicate 80 0); heights := Some ((∅ : gmap bytes bytes), 0%nat) |}.

Lemma demo_headers_refines : refines demo_headers (fun _ => None) ∅.
Proof.
  split; [split; [done|]|exists (∅, 0%nat); split; [done|by rewrite fmap_empty]|apply map_Forall_empty].
  intros h Hh. change (now (headers demo_headers)) with (zeros 80). destruct (decide (h = 0)) as [->|Hne]; [reflexivity|].
  apply read_header_beyond; [done|]. rewrite zlength_zeros. unfold HEADER_SIZE, is_uint in *. lia.
Qed.

(** The database has no room, so the insertion closes, grows and opens it. *)
Lemma header_index_refines_witness : exists x,
  run_header (fun _ => true) (Put 2 (header_of 7)) demo_headers = (x, Ok tt) /\
  answers x (at_height (fun _ => None) 2 (Some (header_of 7))) (<[hash_key (replicate 32 7) := 2]> ∅).
Proof.
  destruct (run_header (fun _ => true) (Put 2 (header_of 7)) demo_headers) as [x r] eqn:E.
  assert (r = Ok tt) as -> by (by apply (f_equal snd) in E).
  exists x. split; [reflexivity|].
  apply (header_index_refines (fun _ => true) (Put 2 (header_of 7)) demo_headers x (fun _ => None) ∅ demo_headers_refines); [|exact E].
  split; [by_decide|done].
Defined.

(** A database that is full and cannot grow. *)
Definition full_map : gmap bytes Z := write_all ∅ ((fun n => ([n], 9)) <$> [1; 2; 3; 4; 5]).
Definition full_db : HDb := (le_bytes 8 <$> full_map, 5%nat).
Definition full_index : HeaderIndex := {| headers := synced (zeros 80); heights := Some full_db |}.

Lemma full_index_refines : refines full_index (fun _ => None) full_map.
Proof. split; [apply demo_headers_refines|by exists full_db|by_decide]. Qed.

Lemma failed_put_changes_nothing_witness : exists x e,
  put (fun _ => true) 5 (header_of 3) full_index = (x, Err e) /\ headers x = headers full_index.
Proof.
  destruct (put (fun _ => true) 5 (header_of 3) full_index) as [x r] eqn:E.
  destruct r as [[]|e]; [by apply (f_equal snd) in E|]. exists x, e. split; [done|].
  apply (failed_put_changes_nothing (fun _ => true) 5 (header_of 3) full_index x e (fun _ => None) full_map full_index_refines);
    [|done|done|exact E].
  split; [by_decide|done].
Defined.

Lemma create_sizes_fit_witness : create_sizes 1000000 = Ok (80000080, 262144, 132120576).
Proof.
  destruct (create_sizes_fit 1000000 ltac:(by_decide)) as (a & b & c & E & _). rewrite E.
  revert E. vm_compute. congruence.
Defined.

End Demo.

End HeaderIndex.
