(* ===== verification/BlockScan.v ===== *)
(** What a block spends and creates ([same_block_spends], [eligible_block_leaves] and
    the scans of [process_block] in [src/src/prover.rs]): the outpoints whose leaves
    the block deletes, the leaves it adds, and their effect on the set of
    unspent outputs. *)

From S2P Require Import Prelude Bytes JournalEntry SteadyState Accumulator Udata.
Import JournalEntry.JournalEntry SteadyState.SteadyState Udata.Udata.

(** [bitcoin::TxOut] *)
Record TxOut := { txo_value : Z; txo_script : bytes }.

(** [bitcoin::Transaction], as the prover reads it. *)
Class BlockData := {
  Transaction : Type;
  compute_txid : Transaction -> bytes;
  tx_is_coinbase : Transaction -> bool;
  tx_inputs : Transaction -> list OutPoint;
  tx_outputs : Transaction -> list TxOut
}.

Module BlockScan.

Definition is_unspendable (script : bytes) : bool :=
  (10000 <? zlength script) || bool_decide (head script = Some 0x6a).

Section Scan.
Context `{BlockData}.

(** ** Outputs spent by the block that creates them *)

(** [vout as u32] *)
Definition created_outputs (transaction : Transaction) : list OutPoint :=
  (fun vout => {| txid := compute_txid transaction; vout := wrap 32 (Z.of_nat vout) |})
    <$> seq 0 (length (tx_outputs transaction)).

Definition scan_inputs (created : gset OutPoint) (spent : gset OutPoint) (inputs : list OutPoint) : gset OutPoint :=
  foldl (fun spent input => if decide (input ∈ created) then {[ input ]} ∪ spent else spent) spent inputs.

Definition scan_transaction (s : gset OutPoint * gset OutPoint) (transaction : Transaction) : gset OutPoint * gset OutPoint :=
  (s.1 ∪ list_to_set (created_outputs transaction), scan_inputs s.1 s.2 (tx_inputs transaction)).

Definition same_block_spends (txdata : list Transaction) : gset OutPoint := (foldl scan_transaction (∅, ∅) txdata).2.

(** The inputs of the block that spend outputs of earlier blocks. *)
Definition external_outpoints (txdata : list Transaction) : list OutPoint :=
  filter (fun outpoint => outpoint ∉ same_block_spends txdata)
    (concat (tx_inputs <$> filter (fun transaction => tx_is_coinbase transaction = false) txdata)).

(** ** The leaves that the block adds *)

Definition enumerate {A} (l : list A) : list (nat * A) := zip (seq 0 (length l)) l.

Definition output_index (vout : nat) : result Z := ok_or "transaction output index overflow" (try_uint 32 (Z.of_nat vout)).

Definition scan_output {A} (spent_in_block : gset OutPoint) (transaction : Transaction) (leaf : OutPoint -> TxOut -> A)
    (leaves : list A) (o : nat * TxOut) : result (list A) :=
  vout ← output_index o.1;
  let outpoint := {| txid := compute_txid transaction; vout := vout |} in
  if is_unspendable (txo_script o.2) || bool_decide (outpoint ∈ spent_in_block) then Ok leaves
  else Ok (leaves ++ [leaf outpoint o.2]).

(** The loop over transactions and outputs, which [process_block] and [eligible_block_leaves] both
    have, with the leaf that each of them builds. *)
Definition scan_outputs {A} (txdata : list Transaction) (leaf : Transaction -> OutPoint -> TxOut -> A) : result (list A) :=
  foldM (fun leaves transaction =>
           foldM (scan_output (same_block_spends txdata) transaction (leaf transaction)) (enumerate (tx_outputs transaction)) leaves)
    txdata [].

Definition addition_contexts (block_hash : bytes) (height : Z) (txdata : list Transaction) : result (list LeafContext) :=
  scan_outputs txdata (fun transaction outpoint output =>
    {| lc_block_hash := block_hash; lc_txid := txid outpoint; lc_vout := vout outpoint; value := txo_value output;
       pk_script := txo_script output; block_height := height; is_coinbase := tx_is_coinbase transaction |}).

Context `{NodeHashing} `{Sha512_256}.

Definition eligible_block_leaves (block_hash : bytes) (height : Z) (txdata : list Transaction)
  : result (list (OutPoint * BitcoinNodeHash)) :=
  scan_outputs txdata (fun transaction outpoint output =>
    (outpoint, get_leaf_hash_from_parts block_hash (txid outpoint) (vout outpoint)
                 (Z.lor (shl 32 height 1) (Z.b2z (tx_is_coinbase transaction))) (txo_value output) (txo_script output))).

(** [additions] of [process_block]. *)
Definition context_outpoint (leaf : LeafContext) : OutPoint := {| txid := lc_txid leaf; vout := lc_vout leaf |}.
Definition additions_of (leaves : list LeafContext) : list (OutPoint * BitcoinNodeHash) :=
  (fun leaf => (context_outpoint leaf, get_leaf_hashes leaf)) <$> leaves.

End Scan.

(** ** The scans *)

Section Facts.
Context `{BlockData}.

Lemma scan_inputs_spec created spent inputs o :
  o ∈ scan_inputs created spent inputs <-> o ∈ spent \/ (o ∈ inputs /\ o ∈ created).
Proof.
  unfold scan_inputs. revert spent; induction inputs as [|i inputs IH]; intros spent; cbn; [set_solver|].
  rewrite IH. case_decide; set_solver.
Qed.

(** [t] comes before [tx] in [l]. *)
Definition precedes (l : list Transaction) (t tx : Transaction) : Prop := exists l1 l2, l = l1 ++ tx :: l2 /\ t ∈ l1.

Lemma precedes_snoc l x t tx : precedes (l ++ [x]) t tx <-> precedes l t tx \/ (tx = x /\ t ∈ l).
Proof.
  split.
  - intros (l1 & l2 & E & Ht). destruct l2 as [|y l2 _] using rev_ind.
    + apply app_inj_tail in E as [-> ->]. by right.
    + rewrite app_comm_cons, app_assoc in E. apply app_inj_tail in E as [-> ->]. left. by exists l1, l2.
  - intros [(l1 & l2 & -> & Ht)|[-> Ht]]; [|by exists l, []]. exists l1, (l2 ++ [x]). by rewrite <- app_assoc.
Qed.

Lemma scan_spec txdata : let '(created, spent) := foldl scan_transaction (∅, ∅) txdata in
  (forall o, o ∈ created <-> exists tx, tx ∈ txdata /\ o ∈ created_outputs tx) /\
  (forall o, o ∈ spent <-> exists t tx, precedes txdata t tx /\ o ∈ created_outputs t /\ o ∈ tx_inputs tx).
Proof.
  induction txdata as [|x l IH] using rev_ind.
  - cbn. split; intros o; (split; [set_solver|]); [by intros (tx & ?%elem_of_nil & _)|by intros (t & tx & ([|] & ? & ? & _) & _)].
  - rewrite foldl_app. cbn. destruct (foldl scan_transaction (∅, ∅) l) as [created spent]. destruct IH as [Hc Hs]. cbn. split; intros o.
    + rewrite elem_of_union, elem_of_list_to_set, Hc. setoid_rewrite elem_of_app. setoid_rewrite list_elem_of_singleton. naive_solver.
    + rewrite scan_inputs_spec, Hs, Hc. setoid_rewrite precedes_snoc. naive_solver.
Qed.

Lemma same_block_spends_spec txdata o :
  o ∈ same_block_spends txdata <-> exists t tx, precedes txdata t tx /\ o ∈ created_outputs t /\ o ∈ tx_inputs tx.
Proof.
  pose proof (scan_spec txdata) as Hs. unfold same_block_spends. destruct (foldl _ _ _) as [created spent]. by apply Hs.
Qed.

(** ** The leaves, without the loops *)

(** The outputs of a transaction that become leaves. *)
Definition leaf_outputs (spent_in_block : gset OutPoint) (transaction : Transaction) : list (OutPoint * TxOut) :=
  filter (fun x => is_unspendable (txo_script x.2) = false /\ x.1 ∉ spent_in_block)
    (zip (created_outputs transaction) (tx_outputs transaction)).

Definition outputs_fit (txdata : list Transaction) : Prop :=
  Forall (fun transaction => zlength (tx_outputs transaction) < 2 ^ 32) txdata.

Lemma scan_output_step {A} spent tx (leaf : OutPoint -> TxOut -> A) leaves n out : is_u32 (Z.of_nat n) ->
  let outpoint := {| txid := compute_txid tx; vout := wrap 32 (Z.of_nat n) |} in
  scan_output spent tx leaf leaves (n, out) =
    Ok (if decide (is_unspendable (txo_script out) = false /\ outpoint ∉ spent) then leaves ++ [leaf outpoint out] else leaves).
Proof.
  intros Hn outpoint. unfold scan_output, output_index. cbn [fst snd].
  rewrite (proj2 (try_uint_Some 32 (Z.of_nat n) (Z.of_nat n))) by done. cbn [ok_or]. rewrite ok_bind.
  unfold outpoint. rewrite wrap_small by done.
  destruct (is_unspendable _); cbn [orb]; [rewrite decide_False; [done|by intros [? _]]|].
  case_bool_decide; [rewrite decide_False; [done|by intros [_ ?]]|by rewrite decide_True].
Qed.

Lemma scan_output_list {A} spent tx (leaf : OutPoint -> TxOut -> A) outputs n leaves :
  Z.of_nat n + zlength outputs <= 2 ^ 32 ->
  foldM (scan_output spent tx leaf) (zip (seq n (length outputs)) outputs) leaves =
  Ok (leaves ++ ((fun x => leaf x.1 x.2) <$>
    filter (fun x => is_unspendable (txo_script x.2) = false /\ x.1 ∉ spent)
      (zip ((fun vout => {| txid := compute_txid tx; vout := wrap 32 (Z.of_nat vout) |}) <$> seq n (length outputs)) outputs))).
Proof.
  revert n leaves; induction outputs as [|out outputs IH]; intros n leaves Hn; [by rewrite app_nil_r|].
  rewrite zlength_cons in Hn. pose proof (zlength_nonneg outputs). cbn [length seq zip zip_with foldM fmap list_fmap].
  rewrite scan_output_step by (split; lia). rewrite ok_bind, IH, filter_cons by lia. cbn [fst snd].
  case_decide; [|done]. cbn [fmap list_fmap]. by rewrite <- app_assoc.
Qed.

Lemma scan_outputs_list {A} txdata (leaf : Transaction -> OutPoint -> TxOut -> A) : outputs_fit txdata ->
  scan_outputs txdata leaf =
    Ok (concat ((fun tx => (fun x => leaf tx x.1 x.2) <$> leaf_outputs (same_block_spends txdata) tx) <$> txdata)).
Proof.
  unfold scan_outputs. generalize (same_block_spends txdata) as spent. intros spent Hfit.
  rewrite <- (app_nil_l (concat _)). generalize (@nil A) as leaves.
  induction Hfit as [|tx l Hl Hfit IH]; intros leaves; cbn; [by rewrite app_nil_r|].
  unfold enumerate. rewrite scan_output_list by lia. rewrite ok_bind, IH. by rewrite app_assoc.
Qed.

Context `{NodeHashing} `{Sha512_256}.

Lemma scan_outputs_fmap {A B} txdata (leaf : Transaction -> OutPoint -> TxOut -> A) (f : A -> B) :
  scan_outputs txdata (fun tx o out => f (leaf tx o out)) = fmap (M:=list) f <$> scan_outputs txdata leaf.
Proof.
  unfold scan_outputs. generalize (same_block_spends txdata) as spent. intros spent.
  change (@nil B) with (f <$> []). generalize (@nil A) as leaves.
  induction txdata as [|tx txdata IH]; intros leaves; [done|]. cbn.
  assert (forall outs leaves, foldM (scan_output spent tx (fun o out => f (leaf tx o out))) outs (f <$> leaves) =
    fmap (M:=list) f <$> foldM (scan_output spent tx (leaf tx)) outs leaves) as Hin.
  { induction outs as [|[n out] outs IHo]; intros ls; [done|]. cbn [foldM].
    assert (scan_output spent tx (fun o out => f (leaf tx o out)) (f <$> ls) (n, out) =
      fmap (M:=list) f <$> scan_output spent tx (leaf tx) ls (n, out)) as ->.
    { unfold scan_output. cbn [fst snd]. destruct (output_index n) as [v|e]; [|done]. rewrite !ok_bind.
      destruct (_ || _); [done|]. cbn. by rewrite fmap_app. }
    destruct (scan_output spent tx (leaf tx) ls (n, out)) as [ls'|e]; [apply IHo|done]. }
  rewrite Hin. destruct (foldM _ _ leaves) as [ls|e]; [apply IH|done].
Qed.

Lemma eligible_leaves_contexts block_hash height txdata :
  eligible_block_leaves block_hash height txdata = additions_of <$> addition_contexts block_hash height txdata.
Proof.
  unfold addition_contexts, additions_of. rewrite <- scan_outputs_fmap. unfold scan_outputs. apply foldM_ext. intros leaves tx _.
  apply foldM_ext. intros ls [n out] _. unfold scan_output. cbn [fst snd].
  destruct (output_index n) as [v|e]; [|done]. cbn [mbind result_bind]. by destruct (_ || _).
Qed.
(** ** The set of unspent outputs *)

Definition spendable (tx : Transaction) : list OutPoint := (leaf_outputs ∅ tx).*1.

(** The effect of a transaction on the unspent outputs. *)
Definition apply_transaction (unspent : gset OutPoint) (tx : Transaction) : gset OutPoint :=
  (if tx_is_coinbase tx then unspent else unspent ∖ list_to_set (tx_inputs tx)) ∪ list_to_set (spendable tx).

Fixpoint spends_available (unspent : gset OutPoint) (txdata : list Transaction) : Prop :=
  match txdata with
  | [] => True
  | tx :: txdata =>
      (tx_is_coinbase tx = false -> NoDup (tx_inputs tx) /\ list_to_set (tx_inputs tx) ⊆ unspent) /\
      spends_available (apply_transaction unspent tx) txdata
  end.

(** What validation guarantees of a block on top of [unspent]: each input is unspent when it is
    spent, no output is created twice or while it exists, and a coinbase spends nothing of the block. *)
Record valid_block (unspent : gset OutPoint) (txdata : list Transaction) : Prop := {
  vb_available : spends_available unspent txdata;
  vb_fresh : NoDup (concat (created_outputs <$> txdata));
  vb_new : forall o, o ∈ concat (created_outputs <$> txdata) -> o ∉ unspent;
  vb_coinbase : forall tx o, tx ∈ txdata -> tx_is_coinbase tx = true -> o ∈ tx_inputs tx -> o ∉ concat (created_outputs <$> txdata);
  vb_fit : outputs_fit txdata
}.

Lemma elem_of_concat_fmap {A B} (f : A -> list B) l b : b ∈ concat (f <$> l) <-> exists a, a ∈ l /\ b ∈ f a.
Proof. rewrite list_elem_of_In, in_concat. setoid_rewrite <- list_elem_of_In. setoid_rewrite list_elem_of_fmap. naive_solver. Qed.

Definition spent_inputs (txdata : list Transaction) : list OutPoint :=
  concat (tx_inputs <$> filter (fun tx => tx_is_coinbase tx = false) txdata).

Lemma elem_of_spent_inputs l o : o ∈ spent_inputs l <-> exists tx, tx ∈ l /\ tx_is_coinbase tx = false /\ o ∈ tx_inputs tx.
Proof. unfold spent_inputs. rewrite elem_of_concat_fmap. setoid_rewrite list_elem_of_filter. naive_solver. Qed.

Lemma spent_inputs_snoc l x : spent_inputs (l ++ [x]) = spent_inputs l ++ (if tx_is_coinbase x then [] else tx_inputs x).
Proof.
  unfold spent_inputs. rewrite filter_app, fmap_app, concat_app. f_equal. rewrite filter_cons, filter_nil.
  destruct (tx_is_coinbase x); [by rewrite decide_False|rewrite decide_True by done; cbn; by rewrite app_nil_r].
Qed.

Lemma leaf_outputs_created spent tx x : x ∈ leaf_outputs spent tx -> x.1 ∈ created_outputs tx.
Proof. unfold leaf_outputs. intros [_ Hx]%list_elem_of_filter. destruct x. by apply elem_of_zip_l in Hx. Qed.

Lemma leaf_outputs_spendable spent tx o : o ∈ (leaf_outputs spent tx).*1 <-> o ∈ spendable tx /\ o ∉ spent.
Proof.
  unfold spendable, leaf_outputs. rewrite !list_elem_of_fmap. setoid_rewrite list_elem_of_filter. set_solver.
Qed.

Lemma spendable_created tx o : o ∈ spendable tx -> o ∈ created_outputs tx.
Proof. unfold spendable. intros (x & -> & Hx)%list_elem_of_fmap. by eapply leaf_outputs_created. Qed.

Lemma spends_available_app unspent l1 l2 : spends_available unspent (l1 ++ l2) <->
  spends_available unspent l1 /\ spends_available (foldl apply_transaction unspent l1) l2.
Proof. revert unspent; induction l1 as [|tx l1 IH]; intros unspent; cbn; [tauto|]. rewrite IH. tauto. Qed.

(** After a prefix of a valid block: the outputs there were or that were created, without those spent. *)
Lemma unspent_after unspent l : spends_available unspent l -> NoDup (concat (created_outputs <$> l)) ->
  (forall o, o ∈ concat (created_outputs <$> l) -> o ∉ unspent) ->
  (forall o, o ∈ foldl apply_transaction unspent l <->
     (o ∈ unspent \/ exists tx, tx ∈ l /\ o ∈ spendable tx) /\ o ∉ spent_inputs l) /\
  (forall o, o ∈ spent_inputs l -> o ∈ unspent \/ o ∈ concat (created_outputs <$> l)) /\
  NoDup (spent_inputs l).
Proof.
  induction l as [|x l IH] using rev_ind; intros Ha Hf Hn.
  { cbn. split_and!; [set_solver|set_solver|constructor]. }
  rewrite fmap_app, concat_app in Hf, Hn. cbn in Hf, Hn. rewrite app_nil_r in Hf, Hn. apply NoDup_app in Hf as (Hf & Hdis & _).
  apply spends_available_app in Ha as [Ha [Hx _]].
  destruct IH as (Hset & Hsrc & Hnd); [done|done|intros o Ho; apply Hn; set_solver|].
  assert (forall o, o ∈ foldl apply_transaction unspent l -> o ∈ unspent \/ o ∈ concat (created_outputs <$> l)) as Hsub.
  { intros o Ho. apply Hset in Ho as [[Ho|(tx & Htx & Ho)] _]; [by left|right]. apply elem_of_concat_fmap. exists tx.
    split; [done|by apply spendable_created]. }
  assert (forall o, o ∈ created_outputs x -> o ∉ foldl apply_transaction unspent l /\ o ∉ spent_inputs l) as Hnew.
  { intros o Ho. assert (~ (o ∈ unspent \/ o ∈ concat (created_outputs <$> l))) as Hno.
    { intros [Hu|Hc]; [by apply (Hn o); [set_solver|]|by apply (Hdis o)]. }
    split; intros Hin; apply Hno; auto. }
  rewrite foldl_app. cbn [foldl]. setoid_rewrite spent_inputs_snoc. split_and!.
  - intros o. unfold apply_transaction. rewrite elem_of_union, elem_of_list_to_set, not_elem_of_app.
    setoid_rewrite elem_of_app. setoid_rewrite list_elem_of_singleton.
    assert (o ∈ spendable x -> o ∉ spent_inputs l /\ o ∉ (if tx_is_coinbase x then [] else tx_inputs x)) as Hsp.
    { intros Ho%spendable_created. destruct (Hnew o Ho) as [Hno Hni]. split; [done|].
      destruct (tx_is_coinbase x); [set_solver|]. destruct Hx as [_ Hx]; [done|]. set_solver. }
    assert ((exists tx, (tx ∈ l \/ tx = x) /\ o ∈ spendable tx) <-> (exists tx, tx ∈ l /\ o ∈ spendable tx) \/ o ∈ spendable x) as ->.
    { split; [intros (tx & [?| ->] & ?); [left; by exists tx|by right]|intros [(tx & ? & ?)|?]; [exists tx|exists x]; auto]. }
    pose proof (not_elem_of_nil o). destruct (tx_is_coinbase x); rewrite ?elem_of_difference, ?elem_of_list_to_set, Hset; tauto.
  - intros o. rewrite elem_of_app, fmap_app, concat_app, elem_of_app. intros [Ho|Ho].
    + destruct (Hsrc o Ho); auto.
    + destruct (tx_is_coinbase x); [by apply elem_of_nil in Ho|]. destruct Hx as [_ Hx]; [done|].
      destruct (Hsub o) as [?|?]; [set_solver|by left|right; by left].
  - apply NoDup_app. split; [done|]. destruct (tx_is_coinbase x); [split; [set_solver|constructor]|].
    destruct Hx as [Hxn Hx]; [done|]. split; [|done]. intros o Ho Hi.
    assert (o ∈ foldl apply_transaction unspent l) as Hin by set_solver. by apply Hset in Hin as [_ Hin].
Qed.
(** In a valid block, what is spent by the block itself is what is both created and spent. *)
Lemma same_block_created unspent txdata o : valid_block unspent txdata -> o ∉ unspent ->
  o ∈ same_block_spends txdata <-> o ∈ spent_inputs txdata.
Proof.
  intros [Ha Hf Hn Hcb _] Hu. rewrite same_block_spends_spec, elem_of_spent_inputs. split.
  - intros (t & tx & (l1 & l2 & -> & Ht) & Hc & Hi). exists tx. split; [set_solver|]. split; [|done].
    destruct (tx_is_coinbase tx) eqn:E; [|done]. exfalso. apply (Hcb tx o); [set_solver|done|done|].
    apply elem_of_concat_fmap. exists t. split; [set_solver|done].
  - intros (tx & Htx & Hcb' & Hi). apply list_elem_of_split in Htx as (l1 & l2 & ->).
    apply spends_available_app in Ha as [Ha [Hx _]]. rewrite fmap_app, concat_app in Hf, Hn.
    destruct (unspent_after unspent l1) as (Hset & _ & _); [done|by apply NoDup_app in Hf as [Hf _]|intros o' Ho'; apply Hn; set_solver|].
    assert (o ∈ foldl apply_transaction unspent l1) as Hin by (destruct Hx as [_ Hx]; [done|set_solver]).
    apply Hset in Hin as [[?|(t & Ht & Ho)] _]; [done|]. exists t, tx. split; [by exists l1, l2|]. split; [by apply spendable_created|done].
Qed.

Lemma additions_elem block_hash height txdata leaves o : outputs_fit txdata ->
  addition_contexts block_hash height txdata = Ok leaves ->
  o ∈ context_outpoint <$> leaves <-> exists tx, tx ∈ txdata /\ o ∈ spendable tx /\ o ∉ same_block_spends txdata.
Proof.
  intros Hfit E. unfold addition_contexts in E. rewrite scan_outputs_list in E by done. injection E as <-.
  rewrite list_elem_of_fmap. setoid_rewrite elem_of_concat_fmap. split.
  - intros (c & -> & tx & Htx & Hc). exists tx. split; [done|]. rewrite <- leaf_outputs_spendable.
    apply list_elem_of_fmap in Hc as ([[t v] out] & -> & Hx). apply list_elem_of_fmap. by exists ({| txid := t; vout := v |}, out).
  - intros (tx & Htx & Ho). rewrite <- leaf_outputs_spendable in Ho. apply list_elem_of_fmap in Ho as ([[t v] out] & -> & Hx).
    eexists. split; [|exists tx; split; [done|]; apply list_elem_of_fmap; exists ({| txid := t; vout := v |}, out); by split]. done.
Qed.

Lemma block_net (unspent : gset OutPoint) (txdata : list Transaction) (block_hash : bytes) (height : Z)
    :
  valid_block unspent txdata ->
  NoDup (external_outpoints txdata) /\ list_to_set (external_outpoints txdata) ⊆ unspent /\
  exists leaves, addition_contexts block_hash height txdata = Ok leaves /\
    eligible_block_leaves block_hash height txdata = Ok (additions_of leaves) /\
    (forall o, o ∈ context_outpoint <$> leaves -> o ∉ unspent) /\
    foldl apply_transaction unspent txdata
      = (unspent ∖ list_to_set (external_outpoints txdata)) ∪ list_to_set (context_outpoint <$> leaves).
Proof.
  intros Hvalid. pose proof Hvalid as [Ha Hf Hn Hcb Hfit]. destruct (unspent_after unspent txdata Ha Hf Hn) as (Hset & Hsrc & Hnd).
  pose proof (same_block_created unspent txdata) as Hsame. change (external_outpoints txdata) with
    (filter (fun o => o ∉ same_block_spends txdata) (spent_inputs txdata)).
  assert (forall o, o ∈ same_block_spends txdata -> o ∉ unspent) as Hold.
  { intros o (t & tx & (l1 & l2 & -> & Ht) & Hc & _)%same_block_spends_spec. apply Hn, elem_of_concat_fmap. exists t. split; [set_solver|done]. }
  split; [by apply NoDup_filter|]. split.
  { intros o. rewrite elem_of_list_to_set, list_elem_of_filter. intros [Hno Ho]. destruct (decide (o ∈ unspent)) as [|Hu]; [done|].
    by rewrite (Hsame o Hvalid Hu) in Hno. }
  unfold addition_contexts at 1. rewrite scan_outputs_list by done. eexists. split; [done|].
  match goal with |- context [additions_of ?l] => assert (addition_contexts block_hash height txdata = Ok l) as E by (by apply scan_outputs_list); generalize dependent l end.
  intros leaves E. assert (forall o, o ∈ context_outpoint <$> leaves <-> exists tx, tx ∈ txdata /\ o ∈ spendable tx /\ o ∉ same_block_spends txdata) as Hadd by (intros; by eapply additions_elem). split; [by rewrite eligible_leaves_contexts, E|].
  split.
  { intros o Ho. apply Hadd in Ho as (tx & Htx & Ho & _). apply Hn, elem_of_concat_fmap. exists tx. split; [done|by apply spendable_created]. }
  apply set_eq. intros o. rewrite Hset, elem_of_union, elem_of_difference, !elem_of_list_to_set, list_elem_of_filter, Hadd.
  specialize (Hold o). specialize (Hsame o Hvalid). split.
  - intros [[Hu|(tx & Htx & Ho)] Hs]; [left; split; [done|]; tauto|].
    destruct (decide (o ∈ unspent)) as [Hu|Hu]; [left; split; [done|]; tauto|]. right. exists tx. split_and!; [done|done|]. by rewrite Hsame.
  - intros [[Hu Hno]|(tx & Htx & Ho & Hno)].
    + split; [by left|]. intros Hs. apply Hno. split; [|done]. intros Hb. by apply Hold.
    + assert (o ∉ unspent) as Hu by (apply Hn, elem_of_concat_fmap; exists tx; split; [done|by apply spendable_created]).
      split; [right; by exists tx|]. by rewrite <- Hsame.
Qed.

Lemma fmap_concat {A B} (f : A -> B) (l : list (list A)) : f <$> concat l = concat (fmap (M:=list) f <$> l).
Proof. induction l as [|x l IH]; cbn; [done|]. by rewrite fmap_app, IH. Qed.

Lemma concat_sublist {A} (l l' : list (list A)) : Forall2 sublist l l' -> concat l `sublist_of` concat l'.
Proof. induction 1; cbn; [constructor|]. by apply sublist_app. Qed.

(** The new leaves are for different outputs, all of them created by the block. *)
Lemma additions_created block_hash height txdata leaves : outputs_fit txdata ->
  addition_contexts block_hash height txdata = Ok leaves ->
  context_outpoint <$> leaves `sublist_of` concat (created_outputs <$> txdata).
Proof.
  intros Hfit E. unfold addition_contexts in E. rewrite scan_outputs_list in E by done. injection E as <-.
  generalize (same_block_spends txdata) as spent. intros spent. clear Hfit. rewrite fmap_concat.
  apply concat_sublist. rewrite <- list_fmap_compose. apply Forall2_fmap, Forall_Forall2_diag, Forall_forall. intros tx _. cbn.
  rewrite <- list_fmap_compose. unfold leaf_outputs, created_outputs.
  transitivity ((zip (created_outputs tx) (tx_outputs tx)).*1).
  - erewrite list_fmap_ext; [apply fmap_sublist, sublist_filter|]. intros i [[t v] out] _. done.
  - rewrite fst_zip; [done|]. unfold created_outputs. rewrite length_fmap, length_seq. lia.
Qed.

(** ** Properties *)

(** C24: a block's deletions and additions are its effect on the unspent outputs.  For a valid block, the outpoints
    whose leaves are deleted are distinct unspent outputs of earlier blocks, the leaves added are for new outpoints,
    and deleting the ones and adding the others leaves exactly the outputs that are unspent after the block's transactions, one
    after the other (the unspendable ones left out); the scan that recovery makes of the block yields the same leaves. *)
Theorem block_net_effect (unspent : gset OutPoint) (txdata : list Transaction) (block_hash : bytes) (height : Z)
    (Hvalid : valid_block unspent txdata) :
  NoDup (external_outpoints txdata) /\ list_to_set (external_outpoints txdata) ⊆ unspent /\
  exists leaves, addition_contexts block_hash height txdata = Ok leaves /\
    eligible_block_leaves block_hash height txdata = Ok (additions_of leaves) /\
    (forall o, o ∈ context_outpoint <$> leaves -> o ∉ unspent) /\
    foldl apply_transaction unspent txdata
      = (unspent ∖ list_to_set (external_outpoints txdata)) ∪ list_to_set (context_outpoint <$> leaves).
Proof. by apply block_net. Qed.
End Facts.
(** ** A concrete block *)

Definition toy_blocks : BlockData :=
  {| Transaction := bytes * bool * list OutPoint * list TxOut; compute_txid := fun t => t.1.1.1;
     tx_is_coinbase := fun t => t.1.1.2; tx_inputs := fun t => t.1.2; tx_outputs := fun t => t.2 |}.

Definition op (t v : Z) : OutPoint := {| txid := [t]; vout := v |}.
Definition pay : TxOut := {| txo_value := 50; txo_script := [0x51] |}.
Definition burn : TxOut := {| txo_value := 0; txo_script := [0x6a; 1] |}.

(** A coinbase with a commitment output, and a chain of two transactions. *)
Definition toy_txdata : list (bytes * bool * list OutPoint * list TxOut) :=
  [([10], true, [op 0 0], [pay; burn]); ([11], false, [op 5 1], [pay; pay]); ([12], false, [op 11 0; op 6 0], [pay])].

Definition toy_unspent : gset OutPoint := {[ op 5 1; op 6 0; op 7 0 ]}.

Lemma toy_valid : @valid_block toy_blocks toy_unspent toy_txdata.
Proof.
  split; [|by_decide| | |by_decide].
  - cbn. split_and!; try done; intros _; (split; [by_decide|by_decide]).
  - assert (Forall (fun o => o ∉ toy_unspent) (concat (@created_outputs toy_blocks <$> toy_txdata))) as Hall by by_decide.
    by rewrite Forall_forall in Hall.
  - assert (Forall (fun t : bytes * bool * list OutPoint * list TxOut => Forall (fun o => o ∉ concat (@created_outputs toy_blocks <$> toy_txdata)) (if t.1.1.2 then t.1.2 else []))
      toy_txdata) as Hall by by_decide.
    intros tx o Htx Hcb Ho. rewrite Forall_forall in Hall. specialize (Hall tx Htx). cbn in Hcb. rewrite Hcb, Forall_forall in Hall. by apply Hall.
Qed.

Lemma block_net_effect_witness :
  @external_outpoints toy_blocks toy_txdata = [op 5 1; op 6 0] /\
  foldl (@apply_transaction toy_blocks) toy_unspent toy_txdata = {[ op 7 0; op 10 0; op 11 1; op 12 0 ]}.
Proof.
  destruct (@block_net_effect toy_blocks Accumulator.Accumulator.toy_hashing (fun bs => bs) toy_unspent toy_txdata [1] 5 toy_valid)
    as (_ & _ & leaves & E & _ & _ & Hset).
  split; [vm_compute; reflexivity|]. rewrite Hset. injection E as <-. by_decide.
Defined.

End BlockScan.
