(* ===== verification/ProcessBlock.v ===== *)
(** Proving one block ([FlatFileProver::process_block] of [src/src/prover.rs] and
    the recovery of lost positions of [ForestView]): from the block and its
    prevouts to the compact proof, the journal entry and the caches after it.
    The theorems are in [BlockProofs]. *)

From S2P Require Import Prelude Bytes Positions JournalEntry Forest SteadyState Udata JournalFile HeaderIndex BlockScan.
Import Positions.Positions JournalEntry.JournalEntry Forest.Forest SteadyState.SteadyState Udata.Udata BlockScan.BlockScan.

(** [rustreexo]'s accumulators: the pollard that caches part of the forest, and
    the stump that verifies proofs and updates from the roots alone. *)
Record StumpProof `{NodeHashing} := { sp_targets : list Z; sp_hashes : list BitcoinNodeHash }.
Record Stump `{NodeHashing} := { stump_leaves : Z; stump_roots : list BitcoinNodeHash }.

Class Accumulators `{NodeHashing} := {
  Pollard : Type;
  pollard_count : Pollard -> Z;
  pollard_roots : Pollard -> list BitcoinNodeHash;
  pollard_from_roots : list BitcoinNodeHash -> Z -> Pollard;
  pollard_leaf_position : Pollard -> BitcoinNodeHash -> option Z;
  pollard_missing_positions : Pollard -> list Z -> list Z;
  pollard_ingest_positions : Pollard -> list Z -> list (Z * BitcoinNodeHash) -> Pollard * result StumpProof;
  pollard_modify_stump : Pollard -> list BitcoinNodeHash -> list BitcoinNodeHash -> StumpProof -> Pollard * result unit;
  stump_verify : Stump -> StumpProof -> list BitcoinNodeHash -> result bool;
  stump_modify : Stump -> list BitcoinNodeHash -> list BitcoinNodeHash -> StumpProof -> result Stump
}.

Module ProcessBlock.

Definition LEAF_CACHE_BLOCKS : Z := 144.

Section ProcessBlock.
Context `{NodeHashing} `{!EqDecision BitcoinNodeHash} `{Sha256} `{LeafMapDb} `{BitcoinCodec} `{Sha512_256} `{HeaderCodec}
  `{HeightsDb} `{BlockData} `{!Accumulators}.

(** ** Data *)

Record Block := { blk_header : Header; txdata : list Transaction }.

Record PrevoutInfo := { pi_height : Z; pi_is_coinbase : bool; pi_value : Z; pi_script_pubkey : bytes }.
Record TransactionInfo := { ti_tx : Transaction; ti_height : Z; ti_blockhash : option bytes; ti_is_coinbase : bool }.

Record CachedPollardLeaf := { creation_height : Z; cp_position : Z; cp_hash : BitcoinNodeHash }.
Record CachedLeaf := { cl_context : LeafContext; cl_position : Z }.

(** The fields of [FlatFileProver] that [process_block] changes. *)
Record ProverCache := {
  pollard : Pollard;
  pollard_leaves : list CachedPollardLeaf;
  leaf_cache : gmap OutPoint CachedLeaf;
  block_hash_cache : gmap Z bytes
}.

Definition with_pollard (c : ProverCache) (p : Pollard) (l : list CachedPollardLeaf) := {|
  pollard := p; pollard_leaves := l; leaf_cache := leaf_cache c; block_hash_cache := block_hash_cache c |}.

(** What [process_block] reads: the forest behind the read lock, the pending
    blocks, the header index, the node's answers, and the orders in which hash
    tables iterate. *)
Record BlockEnv := {
  env_forest : SteadyStateForest;
  env_overlay : ForestOverlay;
  env_headers : HeaderIndex.HeaderIndex.HeaderIndex;
  env_worker : result unit;
  rpc_get_block : bytes -> result Block;
  rpc_get_raw_transaction_info : bytes -> result TransactionInfo;
  heights_order : gset Z -> list Z;
  hashes_order : gmap Z BitcoinNodeHash -> list (Z * BitcoinNodeHash)
}.

Record Prepared := { prepared_proof : CompactBlockProof; prepared_entry : JournalEntryData; prepared_rows : Z }.

(** A block that is prepared, or what the worker has to do before the call goes on ([NeedsResize]) or is
    repeated ([NeedsRepair]). *)
Inductive Outcome :=
| PreparedBlock (prepared : Prepared)
| NeedsResize (required_leaves : Z)
| NeedsRepair (o : OutPoint) (old_position new_position : Z).

(** ** Leaf contexts *)

Definition leaf_context_from_prevout (block_hash : bytes) (prevout : PrevoutInfo) (o : OutPoint) : LeafContext := {|
  lc_block_hash := block_hash; block_height := pi_height prevout; is_coinbase := pi_is_coinbase prevout;
  pk_script := pi_script_pubkey prevout; value := pi_value prevout; lc_vout := vout o; lc_txid := txid o |}.

Definition leaf_context_from_transaction (transaction : TransactionInfo) (o : OutPoint) : result LeafContext :=
  block_hash ← ok_or "previous transaction is unconfirmed" (ti_blockhash transaction);
  output ← ok_or "previous transaction has no output" (tx_outputs (ti_tx transaction) !! Z.to_nat (vout o));
  Ok {| lc_block_hash := block_hash; block_height := ti_height transaction; is_coinbase := ti_is_coinbase transaction;
        pk_script := txo_script output; value := txo_value output; lc_vout := vout o; lc_txid := txid o |}.

Definition creating_block_hash (env : BlockEnv) (height : Z) : SR ProverCache bytes :=
  c ← get;
  match block_hash_cache c !! height with
  | Some block_hash => mret block_hash
  | None =>
      header ← lift (HeaderIndex.HeaderIndex.get_by_height (env_headers env) height);
      header ← lift (ok_or "header index has no block header at prevout creation height" header);
      let block_hash := header_block_hash header in
      modify (fun c => {| pollard := pollard c; pollard_leaves := pollard_leaves c; leaf_cache := leaf_cache c;
                          block_hash_cache := <[height := block_hash]> (block_hash_cache c) |});;
      mret block_hash
  end.

Fixpoint creating_block_hashes (env : BlockEnv) (heights : list Z) (hashes : gmap Z bytes) : SR ProverCache (gmap Z bytes) :=
  match heights with
  | [] => mret hashes
  | height :: heights =>
      block_hash ← creating_block_hash env height;
      creating_block_hashes env heights (<[height := block_hash]> hashes)
  end.

(** ** Recovering a position from the creating block *)

(** [!node.spent && node.hash == *target_hash] *)
Definition is_live_leaf (node : ForestNodeData) (target_hash : BitcoinNodeHash) : bool :=
  negb (nd_spent node) && bool_decide (nd_hash node = bytes_of_hash target_hash).

Fixpoint recover_from_neighbours (v : ForestView) (target_index : Z) (target_hash : BitcoinNodeHash) (local_index : Z)
    (answers : list (result Z)) (block_leaves : list (OutPoint * BitcoinNodeHash)) : result (option Z) :=
  match answers, block_leaves with
  | position :: answers, (_, hash) :: block_leaves =>
      let next := recover_from_neighbours v target_index target_hash (local_index + 1) answers block_leaves in
      match position with
      | Err _ => next
      | Ok position =>
          if bool_decide (ok (view_leaf_hash v position) = Some hash) then
            match (start ← checked_sub position local_index; candidate ← checked_add 64 start target_index;
                   if candidate <? fv_leaves v then Some candidate else None) with
            | None => next
            | Some candidate =>
                node ← view_read v candidate;
                if is_live_leaf node target_hash then Ok (Some candidate) else next
            end
          else next
      end
  | _, _ => Ok None
  end.

Fixpoint scan_leaves (v : ForestView) (target_hash : BitcoinNodeHash) (positions : list Z) : result Z :=
  match positions with
  | [] => Err "could not recover outpoint from its creating block"
  | position :: positions =>
      node ← view_read v position;
      if is_live_leaf node target_hash then Ok position else scan_leaves v target_hash positions
  end.

Definition recover_leaf_position_from_block (v : ForestView) (target : OutPoint) (target_hash : BitcoinNodeHash)
    (block_leaves : list (OutPoint * BitcoinNodeHash)) : result Z :=
  '(target_index, _) ← ok_or "outpoint is not an eligible leaf in its block"
                         (list_find (fun leaf => leaf.1 = target) block_leaves);
  answers ← leaf_positions v block_leaves.*1;
  found ← recover_from_neighbours v (Z.of_nat target_index) target_hash 0 answers block_leaves;
  match found with
  | Some position => Ok position
  | None => scan_leaves v target_hash (zrange 0 (fv_leaves v))
  end.

Definition recover_leaf_position (env : BlockEnv) (v : ForestView) (o : OutPoint) (leaf : LeafContext) : result Z :=
  creating_block ← rpc_get_block env (lc_block_hash leaf);
  block_leaves ← eligible_block_leaves (header_block_hash (blk_header creating_block)) (block_height leaf) (txdata creating_block);
  recover_leaf_position_from_block v o (get_leaf_hashes leaf) block_leaves.

Definition recover_missing_leaf_position (env : BlockEnv) (v : ForestView) (c : ProverCache) (o : OutPoint)
    (prevouts : gmap OutPoint PrevoutInfo) (hashes : gmap Z bytes) : result (Z * LeafContext) :=
  leaf ← match leaf_cache c !! o with
         | Some leaf => Ok (cl_context leaf)
         | None =>
             match prevouts !! o with
             | Some prevout =>
                 block_hash ← ok_or "missing creating block hash" (hashes !! pi_height prevout);
                 Ok (leaf_context_from_prevout block_hash prevout o)
             | None =>
                 transaction ← rpc_get_raw_transaction_info env (txid o);
                 leaf_context_from_transaction transaction o
             end
         end;
  position ← recover_leaf_position env v o leaf;
  Ok (position, leaf).

(** ** Positions of the spent leaves *)

Definition cached_bottom_position (pollard_position : option Z) (cached_leaf : option CachedLeaf) : option Z :=
  match pollard_position with Some p => Some p | None => cl_position <$> cached_leaf end.

(** [cached_leaf_hashes]: the hashes of the spent leaves whose contexts are cached. *)
Definition cached_leaf_hashes (c : ProverCache) (outpoints : list OutPoint) : gmap OutPoint BitcoinNodeHash :=
  foldl (fun hashes o => match leaf_cache c !! o with
                         | Some leaf => <[o := get_leaf_hashes (cl_context leaf)]> hashes
                         | None => hashes
                         end) ∅ outpoints.

Definition cached_bottom_positions (c : ProverCache) (hashes : gmap OutPoint BitcoinNodeHash) : gmap OutPoint Z :=
  map_imap (fun o hash => cached_bottom_position (pollard_leaf_position (pollard c) hash) (leaf_cache c !! o)) hashes.

(** The loop that collects [deletions]: cached positions, then the answers of the leaf map in order, then recovery.
    [recovered_leaf_data] are the contexts that recovery has built. *)
Fixpoint resolve_deletions (env : BlockEnv) (v : ForestView) (c : ProverCache) (prevouts : gmap OutPoint PrevoutInfo)
    (block_hashes : gmap Z bytes) (cached_positions : gmap OutPoint Z) (outpoints : list OutPoint) (answers : list (result Z))
  : result (list (OutPoint * Z) * gmap OutPoint LeafContext) :=
  match outpoints with
  | [] => Ok ([], ∅)
  | o :: outpoints =>
      '(position, answers, leaf) ←
        match cached_positions !! o with
        | Some position => Ok (position, answers, None)
        | None =>
            match answers with
            | [] => Err "leaf-map batch omitted an uncached outpoint"
            | Ok position :: answers => Ok (position, answers, None)
            | Err _ :: answers =>
                '(position, leaf) ← recover_missing_leaf_position env v c o prevouts block_hashes;
                Ok (position, answers, Some leaf)
            end
        end;
      '(deletions, recovered) ← resolve_deletions env v c prevouts block_hashes cached_positions outpoints answers;
      Ok ((o, position) :: deletions, match leaf with
                                      | Some leaf => match recovered !! o with Some _ => recovered | None => <[o := leaf]> recovered end
                                      | None => recovered
                                      end)
  end.

(** [cached_target_hashes], by proof position. *)
Definition cached_target_hashes (hashes : gmap OutPoint BitcoinNodeHash) (deletions : list (OutPoint * Z)) (targets : list Z)
  : gmap Z BitcoinNodeHash :=
  foldl (fun m x => match hashes !! x.1.1 with Some hash => <[x.2 := hash]> m | None => m end) ∅ (zip deletions targets).

(** ** Their leaf data *)

(** The closure that fetches the context of a leaf that is not cached.  Fetched
    transactions are kept for the block. *)
Definition fetch_leaf (env : BlockEnv) (prevouts : gmap OutPoint PrevoutInfo) (block_hashes : gmap Z bytes) (o : OutPoint)
    (fallback : gmap bytes TransactionInfo) : result (LeafContext * gmap bytes TransactionInfo) :=
  match prevouts !! o with
  | Some prevout =>
      block_hash ← ok_or "missing creating block hash" (block_hashes !! pi_height prevout);
      Ok (leaf_context_from_prevout block_hash prevout o, fallback)
  | None =>
      '(transaction, fallback) ←
        match fallback !! txid o with
        | Some transaction => Ok (transaction, fallback)
        | None =>
            transaction ← rpc_get_raw_transaction_info env (txid o);
            Ok (transaction, <[txid o := transaction]> fallback)
        end;
      leaf ← leaf_context_from_transaction transaction o;
      Ok (leaf, fallback)
  end.

Definition cached_leaf_context (c : ProverCache) (o : OutPoint) (fallback : gmap bytes TransactionInfo)
    (fetch : gmap bytes TransactionInfo -> result (LeafContext * gmap bytes TransactionInfo))
  : result (LeafContext * gmap bytes TransactionInfo) :=
  match leaf_cache c !! o with Some leaf => Ok (cl_context leaf, fallback) | None => fetch fallback end.

Inductive Resolved :=
| Leaves (hashes : list BitcoinNodeHash) (leaves : list LeafContext)
| Mismatch (o : OutPoint) (old_position new_position : Z).

(** The loop over the deletions: each leaf that did not come from the cache is compared with the forest. *)
Fixpoint resolve_leaves (env : BlockEnv) (v : ForestView) (c : ProverCache) (prevouts : gmap OutPoint PrevoutInfo)
    (block_hashes : gmap Z bytes) (cached_hashes : gmap OutPoint BitcoinNodeHash) (cached_positions : gmap OutPoint Z)
    (recovered : gmap OutPoint LeafContext) (fallback : gmap bytes TransactionInfo) (deletions : list (OutPoint * Z))
  : result Resolved :=
  match deletions with
  | [] => Ok (Leaves [] [])
  | (o, position) :: deletions =>
      '(leaf, recovered, fallback) ←
        match recovered !! o with
        | Some leaf => Ok (leaf, delete o recovered, fallback)
        | None =>
            '(leaf, fallback) ← cached_leaf_context c o fallback (fetch_leaf env prevouts block_hashes o);
            Ok (leaf, recovered, fallback)
        end;
      let hash := default (get_leaf_hashes leaf) (cached_hashes !! o) in
      mismatch ←
        match cached_positions !! o with
        | Some _ => Ok None
        | None =>
            stored_hash ← view_leaf_hash v position;
            if bool_decide (hash = stored_hash) then Ok None
            else recovered_position ← recover_leaf_position env v o leaf; Ok (Some recovered_position)
        end;
      match mismatch with
      | Some recovered_position => Ok (Mismatch o position recovered_position)
      | None =>
          rest ← resolve_leaves env v c prevouts block_hashes cached_hashes cached_positions recovered fallback deletions;
          match rest with
          | Leaves hashes leaves => Ok (Leaves (hash :: hashes) (leaf :: leaves))
          | Mismatch o old_position new_position => Ok (Mismatch o old_position new_position)
          end
      end
  end.

(** ** The block *)

Definition pollard_stump_roots (p : Pollard) : list BitcoinNodeHash := reverse (pollard_roots p).
Definition pollard_from_stump_roots (roots : list BitcoinNodeHash) (leaves : Z) : Pollard :=
  pollard_from_roots (reverse roots) leaves.

(** The prevouts whose creation heights have to be turned into block hashes. *)
Definition missing_heights (c : ProverCache) (prevouts : gmap OutPoint PrevoutInfo) (outpoints : list OutPoint) : gset Z :=
  list_to_set (omap (fun o => pi_height <$> prevouts !! o) (filter (fun o => leaf_cache c !! o = None) outpoints)).

(** [ensure_forest_capacity], up to the resize: the leaves that the forest has to have room for, if
    it has not. *)
Definition ensure_forest_capacity (c : ProverCache) (f : SteadyStateForest) (additions : nat) : result (option Z) :=
  required_leaves ← ok_or "steady-state leaf count overflow" (checked_add 64 (pollard_count (pollard c)) (Z.of_nat additions));
  current_capacity ← leaf_capacity f;
  Ok (if required_leaves <=? current_capacity then None else Some required_leaves).

(** Proof targets and hashes: the pollard's own, those of the cached leaves, and the rest from the forest. *)
Definition build_proof (env : BlockEnv) (v : ForestView) (cached_targets : gmap Z BitcoinNodeHash) (proof_targets : list Z)
  : SR ProverCache StumpProof :=
  c ← get;
  let positions_to_load :=
    filter (fun p => cached_targets !! p = None) (pollard_missing_positions (pollard c) proof_targets) in
  loaded_positions ← lift (mapM (fun p => hash ← view_position_hash v p; Ok (p, hash)) positions_to_load);
  let '(p, proof) := pollard_ingest_positions (pollard c) proof_targets (loaded_positions ++ hashes_order env cached_targets) in
  modify (fun c => with_pollard c p (pollard_leaves c));;
  lift proof.

(** The pollard's own update; if it fails or disagrees, the pollard starts again from the roots. *)
Definition update_pollard (additions deletions : list BitcoinNodeHash) (proof : StumpProof) (original expected : Stump)
    (num_leaves : Z) : SR ProverCache unit :=
  c ← get;
  let '(p, updated) := pollard_modify_stump (pollard c) additions deletions proof in
  modify (fun c => with_pollard c p (pollard_leaves c));;
  let restart := modify (fun c => with_pollard c (pollard_from_stump_roots (stump_roots original) (stump_leaves original)) []) in
  match updated with
  | Err e => restart;; lift (Err "failed to modify Pollard")
  | Ok _ =>
      if negb (pollard_count p =? num_leaves) || negb (bool_decide (pollard_stump_roots p = stump_roots expected)) then
        restart;; lift (Err "Pollard mutation diverged from the planned flat-forest update")
      else mret tt
  end.

Definition cached_leaves (first_position : Z) (leaves : list LeafContext) (hashes : list BitcoinNodeHash)
  : result (list CachedPollardLeaf) :=
  mapM (fun '(offset, (leaf, hash)) =>
          position ← ok_or "Pollard leaf position overflow" (checked_add 64 first_position (Z.of_nat offset));
          Ok {| creation_height := block_height leaf; cp_position := position; cp_hash := hash |})
    (enumerate (zip leaves hashes)).

(** Spent leaves leave the cache, the new ones enter it, and old ones are dropped. *)
Definition update_caches (height : Z) (deletions : list (OutPoint * Z)) (leaves : list LeafContext) (cached : list CachedPollardLeaf)
    (c : ProverCache) : ProverCache :=
  let kept := foldl (fun m o => delete o m) (leaf_cache c) deletions.*1 in
  let extended := foldl (fun m x => <[context_outpoint x.1 := {| cl_context := x.1; cl_position := cp_position x.2 |}]> m)
                    kept (zip leaves cached) in
  let oldest_cached_height := saturating_sub height (saturating_sub LEAF_CACHE_BLOCKS 1) in
  {| pollard := pollard c; pollard_leaves := pollard_leaves c ++ cached;
     leaf_cache := filter (fun x => oldest_cached_height <= block_height (cl_context x.2)) extended;
     block_hash_cache := block_hash_cache c |}.

Definition process_block (env : BlockEnv) (block : Block) (prevouts : gmap OutPoint PrevoutInfo) (height : Z)
  : SR ProverCache Outcome :=
  let outpoints := external_outpoints (txdata block) in
  let block_hash := header_block_hash (blk_header block) in
  c ← get;
  contexts ← lift (addition_contexts block_hash height (txdata block));
  let addition_hashes := get_leaf_hashes <$> contexts in
  resize ← lift (ensure_forest_capacity c (env_forest env) (length addition_hashes));
  match resize with
  | Some required_leaves => mret (NeedsResize required_leaves)
  | None =>
      block_hashes ← creating_block_hashes env (heights_order env (missing_heights c prevouts outpoints)) ∅;
      let cached_hashes := cached_leaf_hashes c outpoints in
      let cached_positions := cached_bottom_positions c cached_hashes in
      lift (env_worker env);;
      let v := {| fv_forest := env_forest env; fv_overlay := env_overlay env; fv_leaves := pollard_count (pollard c) |} in
      answers ← lift (leaf_positions v (filter (fun o => cached_positions !! o = None) outpoints));
      '(deletions, recovered) ← lift (resolve_deletions env v c prevouts block_hashes cached_positions outpoints answers);
      proof_targets ← lift (view_translate_proof_positions v deletions.*2);
      proof ← build_proof env v (cached_target_hashes cached_hashes deletions proof_targets) proof_targets;
      c' ← get;
      let original := {| stump_leaves := pollard_count (pollard c'); stump_roots := pollard_stump_roots (pollard c') |} in
      resolved ← lift (resolve_leaves env v c prevouts block_hashes cached_hashes cached_positions recovered ∅ deletions);
      match resolved with
      | Mismatch o old_position new_position => mret (NeedsRepair o old_position new_position)
      | Leaves deletion_hashes leaf_data =>
          valid ← lift (stump_verify original proof deletion_hashes);
          lift (require valid "generated proof does not verify against the flat-forest roots");;
          expected ← lift (stump_modify original addition_hashes deletion_hashes proof);
          entry ← lift (view_plan_update v height block_hash (prev_blockhash (blk_header block)) deletions (additions_of contexts));
          planned_roots ← lift (roots_after_with_overlay (env_forest env) entry (fv_leaves v) (ov_nodes (env_overlay env)));
          lift (require ((stump_leaves expected =? num_leaves entry) && bool_decide (stump_roots expected = planned_roots))
            "planned flat-forest update diverged from verified stump update");;
          cached ← lift (cached_leaves (stump_leaves original) contexts addition_hashes);
          update_pollard addition_hashes deletion_hashes proof original expected (num_leaves entry);;
          modify (update_caches height deletions contexts cached);;
          mret (PreparedBlock {|
            prepared_proof := {| proof := {| targets := sp_targets proof; hashes := bytes_of_hash <$> sp_hashes proof |};
                                 leaves := compact_leaf <$> leaf_data |};
            prepared_entry := entry;
            prepared_rows := tree_rows (stump_leaves original) |})
      end
  end.

End ProcessBlock.
End ProcessBlock.
