(* ===== verification/BlockProofs.v ===== *)
(** What [process_block] guarantees: from a forest, overlay and caches that agree
    with one set of leaves, the prepared block is that block's change of the
    leaves, and the caches agree with the leaves after it. *)

From S2P Require Import Prelude Bytes Positions JournalEntry Forest SteadyState Accumulator PlanUpdate LeafMap Replay Files Udata JournalFile JournalContract HeaderIndex BlockScan ProcessBlock.
Import Positions.Positions JournalEntry.JournalEntry Forest.Forest SteadyState.SteadyState Accumulator.Accumulator PlanUpdate.PlanUpdate LeafMap.LeafMap Replay.Replay Udata.Udata BlockScan.BlockScan ProcessBlock.ProcessBlock.

Module BlockProofs.

#[local] Arguments apply_all : simpl never.

Section Proofs.
Context `{NodeHashing} `{!EqDecision BitcoinNodeHash} `{Sha256} `{LeafMapDb} `{!LeafMapLaws} `{BitcoinCodec} `{Sha512_256}
  `{HeaderCodec} `{HeightsDb} `{BlockData} `{!Accumulators}.
Context (U : OutPoint -> Prop).
Context (Hinj : forall o o', U o -> U o' -> leaf_map_key o = leaf_map_key o' -> o = o').

(** ** The forest and the overlay together *)

Record sees (f : SteadyStateForest) (ov : ForestOverlay) (a : AbsForest) : Prop := {
  se_layout : layout f;
  se_nodes : forall p, is_pos (ss_rows f) p -> prior (ss_forest f) (ov_nodes ov) p = ab_node a p;
  se_canonical : forall p, state_canonical (prior (ss_forest f) (ov_nodes ov) p);
  se_index : exists m, represents U (leaf_map f) m /\
    forall o, match ov_positions ov !! o with Some (_, p) => p | None => m !! o end = ab_index a !! o
}.

Lemma sees_pending f a pending : refines U f a -> Forall (window_entry U (ss_rows f)) pending ->
  sees f (push_all pending) (apply_all (ss_rows f) a pending).
Proof.
  intros Hr Hp. split.
  - apply Hr.
  - intros p Hpos. by apply (overlay_prior U).
  - intros p. by eapply (prior_canonical U).
  - exists (ab_index a). split; [apply Hr|]. intros o. apply overlay_position.
Qed.

Lemma sees_read f ov a n p : sees f ov a -> is_pos (ss_rows f) p ->
  view_read {| fv_forest := f; fv_overlay := ov; fv_leaves := n |} p = ready_state (ab_node a p).
Proof. intros [Hl Hn _ _] Hp. unfold view_read. cbn. by rewrite read_prior, Hn. Qed.

Lemma sees_wf f ov a leaf : sees f ov a -> 0 <= ab_leaves a <= 2 ^ ss_rows f -> wf_abs (ss_rows f) a (ab_leaves a) leaf ->
  wf_forest (read_with_overlay (ss_forest f) (ov_nodes ov)) (ss_rows f) (ab_leaves a) leaf.
Proof.
  intros Hs HL Hwf r o Hp. pose proof (ly_rows _ (se_layout _ _ _ Hs)) as Hrows.
  change (read_with_overlay (ss_forest f) (ov_nodes ov)) with (view_read {| fv_forest := f; fv_overlay := ov; fv_leaves := 0 |}).
  rewrite (sees_read f ov a) by (done || by apply (populated_is_pos (ab_leaves a))). by apply Hwf.
Qed.

Lemma sees_positions f ov a n outpoints : sees f ov a -> Forall U outpoints ->
  exists answers, leaf_positions {| fv_forest := f; fv_overlay := ov; fv_leaves := n |} outpoints = Ok answers /\
    Forall2 (fun o answer => forall p, ab_index a !! o = Some p -> p < n -> answer = Ok p) outpoints answers.
Proof.
  intros [_ _ _ (m & Hm & Ho)] Hu. rewrite (leaf_positions_spec U _ m) by done. eexists. split; [done|].
  apply Forall2_fmap_r, Forall_Forall2_diag, Forall_forall. intros o _ p Hp Hlt. rewrite <- Ho in Hp.
  unfold view_position, check_position. cbn.
  destruct (ov_positions ov !! o) as [[h q]|]; [subst q|rewrite Hp]; by rewrite (proj2 (Z.leb_gt n p)).
Qed.

(** The leaf at a position. *)
Lemma sees_leaf f ov a leaf n p : sees f ov a -> 0 <= ab_leaves a <= 2 ^ ss_rows f -> wf_abs (ss_rows f) a (ab_leaves a) leaf ->
  0 <= p < ab_leaves a -> view_read {| fv_forest := f; fv_overlay := ov; fv_leaves := n |} p = Ok (leaf p).
Proof.
  intros Hs HL Hwf Hp. pose proof (sees_wf f ov a leaf Hs HL Hwf 0 p) as Hw. rewrite pos_row0 in Hw. apply Hw.
  split; [done|]. rewrite Z.div_1_r. lia.
Qed.

(** ** The index after a block *)

Lemma index_deltas_elem base additions o p : {| outpoint := o; id_position := p |} ∈ index_deltas base additions <->
  exists i h, additions !! i = Some (o, h) /\ p = base + Z.of_nat i.
Proof.
  revert base; induction additions as [|[o' h'] additions IH]; intros base; cbn.
  - split; [by intros ?%elem_of_nil|by intros (i & h & E & _)].
  - rewrite elem_of_cons, IH. split.
    + intros [[= -> ->]|(i & h & E & ->)]; [exists 0%nat, h'; split; [done|lia]|exists (S i), h; split; [done|lia]].
    + intros ([|i] & h & E & ->); [left; injection E as -> ->; f_equal; lia|right; exists i, h; split; [done|lia]].
Qed.

Lemma index_deltas_outpoints base additions : outpoint <$> index_deltas base additions = additions.*1.
Proof. revert base; induction additions as [|[o h] additions IH]; intros base; cbn; [done|]. by rewrite IH. Qed.

Lemma index_after m deletions base additions o p : NoDup additions.*1 ->
  index_delta m ((fun d => {| outpoint := d.1; id_position := d.2 |}) <$> deletions) (index_deltas base additions) !! o = Some p <->
  (exists i h, additions !! i = Some (o, h) /\ p = base + Z.of_nat i) \/
  (o ∉ additions.*1 /\ o ∉ deletions.*1 /\ m !! o = Some p).
Proof.
  intros Hnd. unfold index_delta. rewrite write_all_lookup, deletes_lookup, <- list_fmap_compose.
  set (ws := (fun d => (outpoint d, id_position d)) <$> index_deltas base additions).
  assert (ws.*1 = additions.*1) as Hws by (unfold ws; rewrite <- list_fmap_compose; apply index_deltas_outpoints).
  assert (forall q, (o, q) ∈ ws <-> exists i h, additions !! i = Some (o, h) /\ q = base + Z.of_nat i) as Hin.
  { intros q. rewrite <- index_deltas_elem. unfold ws. rewrite list_elem_of_fmap. split; [intros ([o1 q1] & [= -> ->] & Hd); exact Hd|intros Hd; eexists; by split; [|exact Hd]]. }
  change ((λ d : JournalIndexDelta, outpoint d) ∘ _) with (fst (A:=OutPoint) (B:=Z)).
  destruct (last_write o ws) as [q|] eqn:E.
  - apply last_write_Some_elem in E. split.
    + intros [= ->]. left. by apply Hin.
    + intros [Hp|(Hno & _)]; [apply Hin in Hp|].
      * f_equal. pose proof (last_write_unique o q ws) as H1'. pose proof (last_write_unique o p ws) as H2'.
        rewrite Hws in *. rewrite H1' in H2' by done. specialize (H2' Hnd Hp). by injection H2'.
      * exfalso. apply Hno. rewrite <- Hws. apply list_elem_of_fmap. by exists (o, q).
  - apply last_write_None in E. rewrite Hws in E. split.
    + case_decide; [done|]. intros Hp. by right.
    + intros [(i & h & Hi & _)|(_ & Hno & Hp)]; [|by rewrite decide_False].
      exfalso. apply E. apply list_elem_of_fmap. exists (o, h). split; [done|]. by eapply list_elem_of_lookup_2.
Qed.

(** ** The caches *)

(** The leaf at [p] is unspent and has hash [h]. *)
Definition holds (leaf : Z -> ForestNodeData) (p : Z) (h : BitcoinNodeHash) : Prop :=
  nd_spent (leaf p) = false /\ hash_of_bytes (nd_hash (leaf p)) = h.

(** The forest [a] holds the leaves [leaf]; the index gives each unspent output a leaf of its own; the caches hold
    contexts and positions of leaves, and the pollard has the roots. *)
Record consistent (rows : Z) (a : AbsForest) (leaf : Z -> ForestNodeData) (c : ProverCache) : Prop := {
  co_fit : 0 <= ab_leaves a <= 2 ^ rows;
  co_wf : wf_abs rows a (ab_leaves a) leaf;
  co_index : forall o p, ab_index a !! o = Some p -> 0 <= p < ab_leaves a;
  co_one : forall o o' p, ab_index a !! o = Some p -> ab_index a !! o' = Some p -> o = o';
  co_distinct : forall p q h, 0 <= p < ab_leaves a -> 0 <= q < ab_leaves a -> holds leaf p h -> holds leaf q h -> p = q;
  co_cache : forall o l, leaf_cache c !! o = Some l ->
    context_outpoint (cl_context l) = o /\ ab_index a !! o = Some (cl_position l) /\
    holds leaf (cl_position l) (get_leaf_hashes (cl_context l));
  co_pollard : forall h p, pollard_leaf_position (pollard c) h = Some p -> 0 <= p < ab_leaves a /\ holds leaf p h;
  co_count : pollard_count (pollard c) = ab_leaves a;
  co_roots : pollard_stump_roots (pollard c) = spec_roots leaf rows (ab_leaves a)
}.

Lemma cached_leaf_hashes_spec c outpoints o h : cached_leaf_hashes c outpoints !! o = Some h <->
  o ∈ outpoints /\ exists l, leaf_cache c !! o = Some l /\ h = get_leaf_hashes (cl_context l).
Proof.
  unfold cached_leaf_hashes. induction outpoints as [|x l IH] using rev_ind; cbn.
  - rewrite lookup_empty. split; [done|by intros [?%elem_of_nil _]].
  - rewrite foldl_app. cbn. rewrite elem_of_app, list_elem_of_singleton. destruct (leaf_cache c !! x) as [lx|] eqn:Ex.
    + destruct (decide (o = x)) as [->|Hne]; [|rewrite lookup_insert_ne, IH by done; naive_solver].
      rewrite lookup_insert_eq. split; [intros [= <-]; split; [by right|by exists lx]|intros (_ & l' & El & ->); congruence].
    + rewrite IH. split; [naive_solver|]. intros ([?| ->] & l' & El & ->); [naive_solver|congruence].
Qed.

(** The position of an unspent output. *)
Definition position_of (a : AbsForest) (o : OutPoint) : Z := default 0 (ab_index a !! o).

Section Step.
Context (rows : Z) (a : AbsForest) (leaf : Z -> ForestNodeData) (c : ProverCache).
Context (Hc : consistent rows a leaf c).

Lemma cached_positions_spec outpoints o p :
  cached_bottom_positions c (cached_leaf_hashes c outpoints) !! o = Some p -> ab_index a !! o = Some p /\
  exists l, leaf_cache c !! o = Some l /\ cached_leaf_hashes c outpoints !! o = Some (get_leaf_hashes (cl_context l)).
Proof.
  unfold cached_bottom_positions. rewrite map_lookup_imap. intros (h & Eh & Hp)%bind_Some.
  pose proof Eh as (_ & l & El & ->)%cached_leaf_hashes_spec. destruct (co_cache _ _ _ _ Hc o l El) as (_ & Hi & Hh).
  split; [|by exists l]. rewrite El in Hp. unfold cached_bottom_position in Hp.
  destruct (pollard_leaf_position _ _) as [q|] eqn:Eq; [injection Hp as ->|by injection Hp as <-].
  apply (co_pollard _ _ _ _ Hc) in Eq as [Hq Hhq].
  by rewrite (co_distinct _ _ _ _ Hc p (cl_position l) (get_leaf_hashes (cl_context l))) by (done || by eapply (co_index _ _ _ _ Hc)).
Qed.

(** No position has to be recovered: the index has all spent outputs. *)
Lemma resolve_deletions_spec env v prevouts block_hashes positions outpoints answers :
  (forall o p, positions !! o = Some p -> ab_index a !! o = Some p) ->
  Forall (fun o => is_Some (ab_index a !! o)) outpoints ->
  Forall2 (fun o answer => forall p, ab_index a !! o = Some p -> answer = Ok p)
    (filter (fun o => positions !! o = None) outpoints) answers ->
  resolve_deletions env v c prevouts block_hashes positions outpoints answers
    = Ok ((fun o => (o, position_of a o)) <$> outpoints, ∅).
Proof.
  intros Hpos Hall. revert answers; induction Hall as [|o outpoints [p Hp] Hall IH]; intros answers Hans; [done|].
  cbn [resolve_deletions]. rewrite filter_cons in Hans.
  assert (position_of a o = p) as Epos by (unfold position_of; by rewrite Hp). rewrite fmap_cons, Epos.
  destruct (positions !! o) as [q|] eqn:Eq.
  - rewrite decide_False in Hans by done. rewrite ok_bind, IH by done. apply Hpos in Eq. by simplify_eq.
  - rewrite decide_True in Hans by done. inversion Hans as [|? r ? rs Hr Hrs]; subst. rewrite (Hr _ Hp), ok_bind. cbn. by rewrite IH.
Qed.

Lemma fetch_leaf_outpoint env prevouts block_hashes o fallback l fallback' :
  fetch_leaf env prevouts block_hashes o fallback = Ok (l, fallback') -> context_outpoint l = o.
Proof.
  unfold fetch_leaf. destruct o as [t n], (prevouts !! _).
  - intros (bh & _ & E)%bind_ok. by injection E as <- <-.
  - intros ([tx fb] & _ & E)%bind_ok. apply bind_ok in E as (l' & E & [= <- <-]). unfold leaf_context_from_transaction in E.
    apply bind_ok in E as (bh & _ & E). apply bind_ok in E as (out & _ & [= <-]). done.
Qed.

Context (f : SteadyStateForest) (ov : ForestOverlay) (Hsees : sees f ov a) (Hrows : ss_rows f = rows).

Lemma view_leaf_hash_holds n p h : 0 <= p < ab_leaves a ->
  view_leaf_hash {| fv_forest := f; fv_overlay := ov; fv_leaves := n |} p = Ok h -> holds leaf p h.
Proof.
  intros Hp. unfold view_leaf_hash. rewrite (sees_leaf f ov a leaf) by (rewrite ?Hrows; done || apply Hc).
  rewrite ok_bind. intros (u & Hu%require_ok & [= <-])%bind_ok. split; [by destruct (nd_spent _)|done].
Qed.

Lemma resolve_leaves_spec env n prevouts block_hashes outpoints all fallback hashes leaves :
  outpoints ⊆ all -> Forall (fun o => is_Some (ab_index a !! o)) outpoints ->
  resolve_leaves env {| fv_forest := f; fv_overlay := ov; fv_leaves := n |} c prevouts block_hashes (cached_leaf_hashes c all)
    (cached_bottom_positions c (cached_leaf_hashes c all)) ∅ fallback ((fun o => (o, position_of a o)) <$> outpoints)
    = Ok (Leaves hashes leaves) ->
  hashes = get_leaf_hashes <$> leaves /\
  Forall2 (fun o l => context_outpoint l = o /\ holds leaf (position_of a o) (get_leaf_hashes l)) outpoints leaves.
Proof.
  intros Hsub Hall. revert fallback hashes leaves Hsub; induction Hall as [|o outpoints [p Hp] Hall IH]; intros fallback hashes leaves Hsub E.
  { injection E as <- <-. split; [done|constructor]. }
  rewrite fmap_cons in E. cbn [resolve_leaves] in E. rewrite lookup_empty in E.
  assert (position_of a o = p) as Epos by (unfold position_of; by rewrite Hp). rewrite Epos in E.
  apply bind_ok in E as ([[l rec] fb] & El & E). apply bind_ok in El as ([l0 fb0] & El & [= -> <- ->]).
  apply bind_ok in E as (mismatch & Em & E). destruct mismatch as [q|]; [done|].
  apply bind_ok in E as (rest & Er & E). destruct rest as [hs ls|]; [|done]. injection E as <- <-.
  apply IH in Er as [-> HF]; [|set_solver].
  set (h := default (get_leaf_hashes l) (cached_leaf_hashes c all !! o)) in *.
  assert (h = get_leaf_hashes l /\ context_outpoint l = o) as [Eh Eo].
  { unfold cached_leaf_context in El. destruct (leaf_cache c !! o) as [x|] eqn:Ex.
    - injection El as <- _. assert (cached_leaf_hashes c all !! o = Some (get_leaf_hashes (cl_context x))) as Eh.
      { apply cached_leaf_hashes_spec. split; [set_solver|by exists x]. }
      unfold h. rewrite Eh. split; [done|]. by apply (co_cache _ _ _ _ Hc).
    - unfold h. destruct (cached_leaf_hashes c all !! o) as [h'|] eqn:Eh.
      + apply cached_leaf_hashes_spec in Eh as (_ & x & Ex' & _). congruence.
      + split; [done|]. by eapply fetch_leaf_outpoint. }
  split; [by rewrite Eh|]. constructor; [|done]. split; [done|]. rewrite Epos, <- Eh.
  destruct (cached_bottom_positions c _ !! o) as [q|] eqn:Eq.
  - apply cached_positions_spec in Eq as (Hq & x & Ex & Eh'). unfold h. rewrite Eh'. cbn.
    destruct (co_cache _ _ _ _ Hc o x Ex) as (_ & Hix & Hh). replace p with (cl_position x) by congruence. done.
  - apply bind_ok in Em as (stored & Es & Em). case_bool_decide as Hst; [|by apply bind_ok in Em as (? & _ & ?)].
    rewrite <- Hst in Es. eapply view_leaf_hash_holds; [|exact Es]. by apply (co_index _ _ _ _ Hc o).
Qed.

End Step.

(** ** The state after the block *)

Lemma creating_block_hashes_keeps env heights hashes c c' r : creating_block_hashes env heights hashes c = (c', r) ->
  pollard c' = pollard c /\ pollard_leaves c' = pollard_leaves c /\ leaf_cache c' = leaf_cache c.
Proof.
  revert hashes c; induction heights as [|height heights IH]; intros hashes c E; [by injection E as <- _|].
  cbn [creating_block_hashes] in E. apply sr_bind_inv in E as (c1 & r1 & E1 & E).
  assert (pollard c1 = pollard c /\ pollard_leaves c1 = pollard_leaves c /\ leaf_cache c1 = leaf_cache c) as (Hp1 & Hp2 & Hp3).
  { unfold creating_block_hash in E1. apply sr_bind_inv in E1 as (c2 & r2 & [= <- <-] & E1). destruct (block_hash_cache c !! height).
    - by injection E1 as <- _.
    - apply sr_bind_inv in E1 as (c3 & r3 & [= <- <-] & E1). destruct (HeaderIndex.HeaderIndex.get_by_height _ _) as [hd|e]; [|by destruct E1 as [-> _]].
      apply sr_bind_inv in E1 as (c4 & r4 & [= <- <-] & E1). destruct (ok_or _ hd) as [hd'|e]; [|by destruct E1 as [-> _]].
      apply sr_bind_inv in E1 as (c5 & r5 & [= <- <-] & E1). by injection E1 as <- _. }
  destruct r1 as [bh|e]; [|by destruct E as [-> _]]. apply IH in E as (-> & -> & ->). by rewrite Hp1, Hp2, Hp3.
Qed.

Lemma build_proof_inv env v cached targets c c' proof : build_proof env v cached targets c = (c', Ok proof) ->
  exists hs p, pollard_ingest_positions (pollard c) targets hs = (p, Ok proof) /\ c' = with_pollard c p (pollard_leaves c).
Proof.
  unfold build_proof. intros E. apply sr_bind_inv in E as (c1 & r1 & [= <- <-] & E).
  apply sr_bind_inv in E as (c2 & r2 & [= <- <-] & E). destruct (mapM _ _) as [loaded|e]; [|by destruct E].
  destruct (pollard_ingest_positions _ _ _) as [p r] eqn:Ei. apply sr_bind_inv in E as (c3 & r3 & [= <- <-] & E). injection E as <- ->.
  by do 2 eexists.
Qed.

Lemma update_pollard_inv additions deletions proof original expected n c c' :
  update_pollard additions deletions proof original expected n c = (c', Ok tt) ->
  exists p, pollard_modify_stump (pollard c) additions deletions proof = (p, Ok tt) /\ pollard_count p = n /\
    pollard_stump_roots p = stump_roots expected /\ c' = with_pollard c p (pollard_leaves c).
Proof.
  unfold update_pollard. intros E. apply sr_bind_inv in E as (c1 & r1 & [= <- <-] & E).
  destruct (pollard_modify_stump _ _ _ _) as [p [[]|e]] eqn:Em; apply sr_bind_inv in E as (c2 & r2 & [= <- <-] & E);
    [|by apply sr_bind_inv in E as (c3 & r3 & [= <- <-] & E)].
  destruct (negb _ || negb _) eqn:Ec; [by apply sr_bind_inv in E as (c3 & r3 & [= <- <-] & E)|]. injection E as <-.
  apply orb_false_iff in Ec as [Hn Hr]. apply negb_false_iff, Z.eqb_eq in Hn. apply negb_false_iff, bool_decide_eq_true in Hr.
  by exists p.
Qed.

Lemma enumerate_lookup {A} (l : list A) i x : enumerate l !! i = Some x <-> x.1 = i /\ l !! i = Some x.2.
Proof.
  unfold enumerate. rewrite lookup_zip_with_Some. split.
  - intros (n & y & -> & Hn & Hy). apply lookup_seq in Hn as [-> _]. done.
  - destruct x as [n y]. cbn. intros [-> Hy]. exists i, y. split_and!; [done|apply lookup_seq; split; [done|]|done].
    by eapply lookup_lt_Some.
Qed.

Lemma cached_leaves_spec first leaves hashes cached : length leaves = length hashes -> cached_leaves first leaves hashes = Ok cached ->
  length cached = length leaves /\ forall i x, cached !! i = Some x -> cp_position x = first + Z.of_nat i.
Proof.
  unfold cached_leaves. intros Hl E%mapM_ok_Forall2. split.
  - apply Forall2_length in E. rewrite <- E. unfold enumerate. rewrite !length_zip_with, length_seq. lia.
  - intros i x Hx. destruct (Forall2_lookup_r _ _ _ _ _ E Hx) as ([n [l h]] & Hn & Ef). apply enumerate_lookup in Hn as [[= ->] _].
    apply bind_ok in Ef as (p & Hp%ok_or_ok & [= <-]). by apply checked_add_Some in Hp as [-> _].
Qed.

Lemma foldl_delete_lookup {V} (m : gmap OutPoint V) l o :
  foldl (fun m o => delete o m) m l !! o = if decide (o ∈ l) then None else m !! o.
Proof.
  revert m; induction l as [|x l IH]; intros m; cbn; [by rewrite decide_False by apply not_elem_of_nil|]. rewrite IH.
  destruct (decide (o ∈ l)) as [Hin|Hno]; [rewrite decide_True by set_solver; done|].
  destruct (decide (o = x)) as [->|Hne]; [rewrite lookup_delete_eq, decide_True by set_solver; done|].
  rewrite lookup_delete_ne by done. rewrite decide_False by set_solver. done.
Qed.

Lemma foldl_insert_write_all {A K V} `{Countable K} (k : A -> K) (v : A -> V) (m : gmap K V) l :
  foldl (fun m x => <[k x := v x]> m) m l = write_all m ((fun x => (k x, v x)) <$> l).
Proof. revert m; induction l as [|x l IH]; intros m; [done|]. apply IH. Qed.

(** A cached leaf is new, at its position, or was cached and is not spent. *)
Lemma update_caches_lookup first height deletions contexts cached c o l : length cached = length contexts ->
  (forall i x, cached !! i = Some x -> cp_position x = first + Z.of_nat i) ->
  leaf_cache (update_caches height deletions contexts cached c) !! o = Some l ->
  (exists i, contexts !! i = Some (cl_context l) /\ o = context_outpoint (cl_context l) /\ cl_position l = first + Z.of_nat i) \/
  (o ∉ context_outpoint <$> contexts /\ o ∉ deletions.*1 /\ leaf_cache c !! o = Some l).
Proof.
  intros Hlen Hpos E. unfold update_caches in E. cbn [leaf_cache] in E. apply map_lookup_filter_Some in E as [E _].
  rewrite foldl_insert_write_all, write_all_lookup in E. destruct (last_write o _) as [x|] eqn:Ex.
  - injection E as ->. left. apply last_write_Some_elem, list_elem_of_fmap in Ex as ([ctx cp] & [= -> ->] & Hin).
    apply list_elem_of_lookup_1 in Hin as [i Hi]. apply lookup_zip_with_Some in Hi as (ctx' & cp' & [= <- <-] & Hctx & Hcp).
    exists i. split_and!; [done|done|]. by apply Hpos.
  - right. apply last_write_None in Ex. rewrite foldl_delete_lookup in E. case_decide; [done|]. split_and!; [|done|done].
    intros Hin. apply Ex. rewrite <- list_fmap_compose. apply list_elem_of_fmap in Hin as (ctx & -> & Hin).
    apply list_elem_of_lookup_1 in Hin as [i Hi]. pose proof (lookup_lt_Some _ _ _ Hi) as Hlt. rewrite <- Hlen in Hlt.
    apply lookup_lt_is_Some in Hlt as [cp Hcp]. apply list_elem_of_fmap. exists (ctx, cp). split; [done|].
    apply list_elem_of_lookup. exists i. apply lookup_zip_with_Some. by exists ctx, cp.
Qed.

(** What the library documents of its pollards: ingesting a proof changes neither leaves nor roots, and after an update it
    knows leaves it knew before and that were not deleted, and leaves that were added. *)
Class AccumulatorLaws := {
  ingest_keeps : forall p targets hs p' r, pollard_ingest_positions p targets hs = (p', r) ->
    pollard_count p' = pollard_count p /\ pollard_roots p' = pollard_roots p;
  modify_remembers : forall p targets hs p1 proof additions deletions p2,
    pollard_ingest_positions p targets hs = (p1, Ok proof) ->
    pollard_modify_stump p1 additions deletions proof = (p2, Ok tt) ->
    forall h n, pollard_leaf_position p2 h = Some n ->
      (pollard_leaf_position p h = Some n /\ h ∉ deletions) \/
      exists i, additions !! i = Some h /\ n = pollard_count p + Z.of_nat i
}.

(** The block's leaves have hashes of their own. *)
Definition fresh_hashes (leaf : Z -> ForestNodeData) (L : Z) (hashes : list BitcoinNodeHash) : Prop :=
  NoDup hashes /\ forall p h, 0 <= p < L -> h ∈ hashes -> ~ holds leaf p h.

Section After.
Context (Hdigest : forall bs, length (sha512_256 bs) = 32%nat).
Context (rows : Z) (a : AbsForest) (leaf : Z -> ForestNodeData) (c : ProverCache).
Context (Hc : consistent rows a leaf c).
Context (outpoints : list OutPoint) (contexts : list LeafContext) (e : JournalEntryData).

Abbreviation L := (ab_leaves a).
Abbreviation hashes := (get_leaf_hashes <$> contexts).
Abbreviation deletions := ((fun o => (o, position_of a o)) <$> outpoints).
Definition leaf_after : Z -> ForestNodeData := leaf_append (leaf_delete deletions.*2 leaf) L hashes.

Context (Hout : Forall (fun o => is_Some (ab_index a !! o)) outpoints).
Context (Hremoved : removed e = (fun d => {| outpoint := d.1; id_position := d.2 |}) <$> deletions).
Context (Hadded : added e = index_deltas L (additions_of contexts)).
Context (Hleaves : num_leaves e = L + zlength contexts).
Context (Hnodup : NoDup (context_outpoint <$> contexts)).
Context (Hnew : forall o, o ∈ context_outpoint <$> contexts -> ab_index a !! o = None).
Context (Hfresh : fresh_hashes leaf L hashes).

Lemma deletion_outpoints : deletions.*1 = outpoints.
Proof. rewrite <- list_fmap_compose. apply list_fmap_id. Qed.

Lemma additions_outpoints : (additions_of contexts).*1 = context_outpoint <$> contexts.
Proof. unfold additions_of. by rewrite <- list_fmap_compose. Qed.

Lemma additions_length : zlength (additions_of contexts) = zlength contexts.
Proof. unfold zlength, additions_of. by rewrite length_fmap. Qed.

Lemma additions_hashes : (additions_of contexts).*2 = hashes.
Proof. unfold additions_of. by rewrite <- list_fmap_compose. Qed.

Lemma index_after_block o p : ab_index (abs_forward rows e a) !! o = Some p <->
  (exists i l, contexts !! i = Some l /\ o = context_outpoint l /\ p = L + Z.of_nat i) \/
  (o ∉ context_outpoint <$> contexts /\ o ∉ outpoints /\ ab_index a !! o = Some p).
Proof.
  cbn [abs_forward ab_index]. rewrite Hremoved, Hadded, index_after by (by rewrite additions_outpoints).
  rewrite additions_outpoints, deletion_outpoints. unfold additions_of. setoid_rewrite list_lookup_fmap.
  split.
  - intros [(i & h & Hi & ->)|?]; [left|by right]. destruct (contexts !! i) as [l|] eqn:El; [|done]. injection Hi as <- <-. by exists i, l.
  - intros [(i & l & Hi & -> & ->)|?]; [left|by right]. exists i. eexists. split; [by rewrite Hi|done].
Qed.

Lemma index_after_dom : dom (ab_index (abs_forward rows e a))
  = (dom (ab_index a) ∖ list_to_set outpoints) ∪ list_to_set (context_outpoint <$> contexts).
Proof.
  apply set_eq. intros o. rewrite elem_of_union, elem_of_difference, !elem_of_list_to_set, !elem_of_dom. split.
  - intros [p Hp]. apply index_after_block in Hp as [(i & l & Hi & -> & _)|(_ & Hno & Hp)]; [right|left; split; [by exists p|done]].
    by eapply list_elem_of_fmap_2, list_elem_of_lookup_2.
  - intros Ho. destruct (decide (o ∈ context_outpoint <$> contexts)) as [Hin|Hni].
    + apply list_elem_of_fmap in Hin as (l & -> & [i Hi]%list_elem_of_lookup_1). exists (ab_leaves a + Z.of_nat i).
      apply index_after_block. left. by exists i, l.
    + destruct Ho as [[[p Hp] Hno]|?]; [|done]. exists p. apply index_after_block. by right.
Qed.

Lemma leaf_after_new i l : contexts !! i = Some l -> holds leaf_after (L + Z.of_nat i) (get_leaf_hashes l).
Proof.
  intros Hi. unfold holds, leaf_after. rewrite leaf_append_eq. replace (L + Z.of_nat i - L) with (Z.of_nat i) by lia.
  unfold zlookup. rewrite bool_decide_eq_true_2 by lia. rewrite Nat2Z.id, list_lookup_fmap, Hi. cbn. split; [done|].
  unfold get_leaf_hashes, compute_hash, get_leaf_hash_from_parts. by rewrite bytes_of_hash_of_bytes.
Qed.

Lemma leaf_after_new_only i h : holds leaf_after (L + Z.of_nat i) h -> (i < length contexts)%nat ->
  exists l, contexts !! i = Some l /\ h = get_leaf_hashes l.
Proof.
  intros Hh [l Hl]%lookup_lt_is_Some. exists l. split; [done|]. destruct (leaf_after_new i l Hl) as [_ E], Hh as [_ E']. congruence.
Qed.

Lemma leaf_after_old p : 0 <= p < L -> leaf_after p = leaf_delete deletions.*2 leaf p.
Proof.
  intros Hp. unfold leaf_after. rewrite leaf_append_eq. unfold zlookup. by rewrite bool_decide_eq_false_2 by lia.
Qed.

Lemma leaf_after_old_holds p h : 0 <= p < L -> holds leaf_after p h <-> holds leaf p h /\ p ∉ deletions.*2.
Proof.
  intros Hp. unfold holds. rewrite leaf_after_old by done. unfold leaf_delete. destruct (decide (p ∈ _)); cbn; naive_solver.
Qed.

Lemma position_split p : 0 <= p < L + zlength contexts -> 0 <= p < L \/ exists i, (i < length contexts)%nat /\ p = L + Z.of_nat i.
Proof.
  intros Hp. destruct (decide (p < L)); [left; lia|right]. exists (Z.to_nat (p - L)). unfold zlength in Hp. lia.
Qed.

Lemma consistent_after height cached c0 p :
  leaf_cache c0 = leaf_cache c -> length cached = length contexts ->
  (forall i x, cached !! i = Some x -> cp_position x = L + Z.of_nat i) ->
  L + zlength contexts <= 2 ^ rows -> wf_abs rows (abs_forward rows e a) (L + zlength contexts) leaf_after ->
  pollard_count p = L + zlength contexts -> pollard_stump_roots p = spec_roots leaf_after rows (L + zlength contexts) ->
  (forall h n, pollard_leaf_position p h = Some n ->
     (pollard_leaf_position (pollard c) h = Some n /\ forall d, d ∈ deletions.*2 -> ~ holds leaf d h) \/
     exists i, hashes !! i = Some h /\ n = L + Z.of_nat i) ->
  consistent rows (abs_forward rows e a) leaf_after
    (update_caches height deletions contexts cached (with_pollard c0 p (pollard_leaves c0))).
Proof.
  intros Ec0 Hlen Hpos Hfit Hwf Hcount Hroots Hpol. pose proof (co_fit _ _ _ _ Hc). pose proof (zlength_nonneg contexts).
  assert (forall o q, ab_index (abs_forward rows e a) !! o = Some q -> 0 <= q < L + zlength contexts /\
    (q < L -> ab_index a !! o = Some q /\ o ∉ outpoints)) as Hidx.
  { intros o q [(i & l & Hi & -> & ->)|(_ & Hno & Hq)]%index_after_block.
    - apply lookup_lt_Some in Hi. unfold zlength. lia.
    - apply (co_index _ _ _ _ Hc) in Hq as ?. split; [lia|done]. }
  assert (forall o q, ab_index a !! o = Some q -> o ∉ outpoints -> q ∉ deletions.*2) as Hlive.
  { intros o q Hq Hno Hin. rewrite <- list_fmap_compose in Hin. apply list_elem_of_fmap in Hin as (o' & -> & Hin). cbn in Hq.
    rewrite Forall_forall in Hout. destruct (Hout o' Hin) as [q' Hq']. unfold position_of in Hq. rewrite Hq' in Hq. cbn in Hq.
    by rewrite (co_one _ _ _ _ Hc o o' q') in Hno. }
  change (ab_leaves (abs_forward rows e a)) with (num_leaves e) in *.
  split; change (ab_leaves (abs_forward rows e a)) with (num_leaves e); rewrite ?Hleaves; try done.
  - lia.
  - intros o q Hq. apply (Hidx o q Hq).
  - intros o o' q Ho Ho'. pose proof (Hidx o q Ho) as [Hq Hold]. pose proof (Hidx o' q Ho') as [_ Hold'].
    destruct (decide (q < L)) as [Hlt|Hge]; [destruct (Hold Hlt), (Hold' Hlt); by eapply (co_one _ _ _ _ Hc)|].
    apply index_after_block in Ho as [(i & l & Hi & -> & ->)|(_ & _ & Ho)]; [|by apply (co_index _ _ _ _ Hc) in Ho; lia].
    apply index_after_block in Ho' as [(i' & l' & Hi' & -> & E)|(_ & _ & Ho')]; [|by apply (co_index _ _ _ _ Hc) in Ho'; lia].
    assert (i' = i) as -> by lia. congruence.
  - intros q r h Hq Hr Hhq Hhr.
    assert (forall x, 0 <= x < L -> holds leaf_after x h -> holds leaf x h) as Hback by (intros x Hx Hh; by apply leaf_after_old_holds in Hh as [Hh _]).
    assert (forall i, (i < length contexts)%nat -> holds leaf_after (L + Z.of_nat i) h -> hashes !! i = Some h) as Hnewh.
    { intros i Hi Hh. destruct (leaf_after_new_only i h Hh Hi) as (l & El & ->). by rewrite list_lookup_fmap, El. }
    destruct Hfresh as [Hnd Hfr].
    destruct (position_split q Hq) as [Hlq|(i & Hi & ->)], (position_split r Hr) as [Hlr|(j & Hj & ->)].
    + eapply (co_distinct _ _ _ _ Hc); eauto.
    + destruct (Hfr q h Hlq); [|by apply Hback]. eapply list_elem_of_lookup_2. by apply (Hnewh j).
    + destruct (Hfr r h Hlr); [|by apply Hback]. eapply list_elem_of_lookup_2. by apply (Hnewh i).
    + assert (i = j) as ->; [|done]. eapply NoDup_lookup; [exact Hnd|by apply Hnewh|by apply Hnewh].
  - intros o l Hl. apply (update_caches_lookup L) in Hl; [|done|done].
    destruct Hl as [(i & Hi & -> & Ep)|(Hno & Hnd & Hl)].
    + split; [done|]. rewrite Ep. split; [apply index_after_block; left; by exists i, (cl_context l)|by apply leaf_after_new].
    + rewrite deletion_outpoints in Hnd. cbn in Hl. rewrite Ec0 in Hl. destruct (co_cache _ _ _ _ Hc o l Hl) as (Eo & Hix & Hh).
      split; [done|]. split; [apply index_after_block; by right|].
      apply leaf_after_old_holds; [by eapply (co_index _ _ _ _ Hc)|]. split; [done|by eapply Hlive].
  - cbn [pollard update_caches with_pollard]. intros h n Hn. destruct (Hpol h n Hn) as [[Hold Hdel]|(i & Hi & ->)].
    + apply (co_pollard _ _ _ _ Hc) in Hold as [Hr Hh]. split; [lia|]. apply leaf_after_old_holds; [done|]. split; [done|].
      intros Hd. by apply (Hdel n).
    + rewrite list_lookup_fmap in Hi. destruct (contexts !! i) as [l|] eqn:El; [|done]. injection Hi as <-.
      split; [apply lookup_lt_Some in El; unfold zlength; lia|by apply leaf_after_new].
Qed.


End After.

Lemma sr_ok_inv {S A B} (m : SR S A) (f : A -> SR S B) s s' b : (m ≫= f) s = (s', Ok b) ->
  exists s1 x, m s = (s1, Ok x) /\ f x s1 = (s', Ok b).
Proof. intros E. apply sr_bind_inv in E as (s1 & [x|e] & E1 & E); [by exists s1, x|by destruct E]. Qed.

Lemma lift_ok_inv {S A} (r : result A) (s s' : S) x : lift r s = (s', Ok x) -> s' = s /\ r = Ok x.
Proof. by intros [= <- ->]. Qed.

(** The block, step by step, when it is prepared. *)
Ltac next_step E := let s := fresh "s" in let x := fresh "x" in let E1 := fresh "E1" in
  apply sr_ok_inv in E as (s & x & E1 & E).
Ltac next_lift E H := let s := fresh "s" in let x := fresh "x" in
  apply sr_ok_inv in E as (s & x & H & E); apply lift_ok_inv in H as [-> H].

Lemma proof_steps env block prevouts height c c' b : process_block env block prevouts height c = (c', Ok (PreparedBlock b)) ->
  let f := env_forest env in
  let outpoints := external_outpoints (txdata block) in
  let v := {| fv_forest := f; fv_overlay := env_overlay env; fv_leaves := pollard_count (pollard c) |} in
  let hashes := cached_leaf_hashes c outpoints in
  let positions := cached_bottom_positions c hashes in
  exists contexts block_hashes answers deletions recovered hs proof p1 spent_hashes spent e expected cached p2 c1,
    addition_contexts (header_block_hash (blk_header block)) height (txdata block) = Ok contexts /\
    ensure_forest_capacity c f (length contexts) = Ok None /\
    leaf_positions v (filter (fun o => positions !! o = None) outpoints) = Ok answers /\
    resolve_deletions env v c prevouts block_hashes positions outpoints answers = Ok (deletions, recovered) /\
    (exists targets, pollard_ingest_positions (pollard c) targets hs = (p1, Ok proof)) /\
    resolve_leaves env v c prevouts block_hashes hashes positions recovered ∅ deletions = Ok (Leaves spent_hashes spent) /\
    let original := {| stump_leaves := pollard_count p1; stump_roots := pollard_stump_roots p1 |} in
    stump_verify original proof spent_hashes = Ok true /\
    view_plan_update v height (header_block_hash (blk_header block)) (prev_blockhash (blk_header block)) deletions (additions_of contexts) = Ok e /\
    roots_after_with_overlay f e (fv_leaves v) (ov_nodes (env_overlay env)) = Ok (stump_roots expected) /\
    cached_leaves (pollard_count p1) contexts (get_leaf_hashes <$> contexts) = Ok cached /\
    pollard_modify_stump p1 (get_leaf_hashes <$> contexts) spent_hashes proof = (p2, Ok tt) /\
    pollard_count p2 = num_leaves e /\ pollard_stump_roots p2 = stump_roots expected /\
    leaf_cache c1 = leaf_cache c /\
    c' = update_caches height deletions contexts cached (with_pollard c1 p2 (pollard_leaves c1)) /\
    b = {| prepared_proof := {| Udata.proof := {| targets := sp_targets proof; Udata.hashes := bytes_of_hash <$> sp_hashes proof |};
                                Udata.leaves := compact_leaf <$> spent |};
           prepared_entry := e; prepared_rows := tree_rows (pollard_count p1) |}.
Proof.
  intros E f outpoints v hashes positions. unfold process_block in E.
  apply sr_ok_inv in E as (s0 & c0 & [= <- <-] & E). next_lift E Hctx. next_lift E Hcap. rewrite length_fmap in Hcap.
  destruct x0 as [req|]; [by injection E|]. next_step E. apply creating_block_hashes_keeps in E1 as (Hp & Hpl & Hlc).
  next_lift E Hw. next_lift E Hans. next_lift E Hres. destruct x3 as [deletions recovered]. next_lift E Htr.
  next_step E. apply build_proof_inv in E1 as (hs & p1 & Hing & ->). rewrite Hp in Hing.
  apply sr_ok_inv in E as (s2 & c2 & [= <- <-] & E). next_lift E Hrl. destruct x5 as [spent_hashes spent|]; [|by injection E].
  next_lift E Hver. next_lift E Hval. apply require_ok in Hval as ->. next_lift E Hmod. next_lift E Hplan. next_lift E Hroots. next_lift E Hreq.
  apply require_ok, andb_true_iff in Hreq as [_ Hreq]. apply bool_decide_eq_true in Hreq as <-. next_lift E Hcl. next_step E.
  destruct x10. apply update_pollard_inv in E1 as (p2 & Hup & Hcount & Hstump & ->).
  apply sr_ok_inv in E as (s3 & [] & [= <-] & E). injection E as <- <-.
  exists x, x0, x2, deletions, recovered, hs, x4, p1, spent_hashes, spent, x7, x5, x8, p2, (with_pollard s p1 (pollard_leaves s)).
  split_and!; [exact Hctx|exact Hcap|exact Hans|exact Hres|by exists x3|exact Hrl|].
  intros original. by split_and!.
Qed.

(** ** The whole block *)

(** What a prepared block is: a proof that verifies, of the leaves that the spent outputs have in the forest, and an entry
    that turns the forest into the forest of the block's leaves. *)
Record prepared_for (rows : Z) (a : AbsForest) (leaf : Z -> ForestNodeData) (block : Block) (height : Z)
    (contexts spent : list LeafContext) (b : Prepared) : Prop := {
  pp_contexts : addition_contexts (header_block_hash (blk_header block)) height (txdata block) = Ok contexts;
  pp_spent : Forall2 (fun o l => context_outpoint l = o /\ holds leaf (position_of a o) (get_leaf_hashes l))
               (external_outpoints (txdata block)) spent;
  pp_leaves : Udata.leaves (prepared_proof b) = compact_leaf <$> spent;
  pp_proof : exists p, Udata.proof (prepared_proof b) = {| targets := sp_targets p; hashes := bytes_of_hash <$> sp_hashes p |} /\
    stump_verify {| stump_leaves := ab_leaves a; stump_roots := spec_roots leaf rows (ab_leaves a) |} p (get_leaf_hashes <$> spent) = Ok true;
  pp_height : JournalEntry.height (prepared_entry b) = height;
  pp_hash : JournalEntry.block_hash (prepared_entry b) = header_block_hash (blk_header block);
  pp_previous : previous_block_hash (prepared_entry b) = prev_blockhash (blk_header block);
  pp_window : window_entry U rows (prepared_entry b);
  pp_planned : planned_from rows a (prepared_entry b);
  pp_rows : prepared_rows b = tree_rows (ab_leaves a)
}.

(** The leaves after the block. *)
Definition block_leaves (a : AbsForest) (leaf : Z -> ForestNodeData) (block : Block) (contexts : list LeafContext) :=
  leaf_after a leaf (external_outpoints (txdata block)) contexts.

Section Block.
Context (Hdigest : forall bs, length (sha512_256 bs) = 32%nat) (Hlaws : AccumulatorLaws).
Context (env : BlockEnv) (a : AbsForest) (leaf : Z -> ForestNodeData) (c : ProverCache) (block : Block) (height : Z).
Abbreviation f := (env_forest env).
Abbreviation rows := (ss_rows f).
Abbreviation v := {| fv_forest := f; fv_overlay := env_overlay env; fv_leaves := pollard_count (pollard c) |}.
Abbreviation outpoints := (external_outpoints (txdata block)).
Abbreviation deletions := ((fun o => (o, position_of a o)) <$> outpoints).
Context (Hsees : sees f (env_overlay env) a) (Hc : consistent rows a leaf c).
Context (Hvalid : valid_block (dom (ab_index a)) (txdata block)).
Context (Hout : Forall U outpoints) (Hcreated : Forall U (concat (created_outputs <$> txdata block))).

Lemma block_outpoints : Forall (fun o => is_Some (ab_index a !! o)) outpoints.
Proof.
  destruct (block_net _ _ [] 0 Hvalid) as (_ & Hsub & _). apply Forall_forall. intros o Ho. apply elem_of_dom, Hsub.
  by apply elem_of_list_to_set.
Qed.

Lemma block_deletion d : d ∈ deletions -> ab_index a !! d.1 = Some d.2 /\ U d.1 /\ 0 <= d.2 < ab_leaves a.
Proof.
  intros (o & -> & Ho)%list_elem_of_fmap. cbn. pose proof block_outpoints as Hall. rewrite Forall_forall in Hall, Hout.
  destruct (Hall o Ho) as [p Hp]. unfold position_of. rewrite Hp. cbn. split_and!; [done|by apply Hout|..];
    apply (co_index _ _ _ _ Hc) in Hp; lia.
Qed.

Lemma block_resolved prevouts block_hashes answers deletions' recovered :
  let positions := cached_bottom_positions c (cached_leaf_hashes c outpoints) in
  leaf_positions v (filter (fun o => positions !! o = None) outpoints) = Ok answers ->
  resolve_deletions env v c prevouts block_hashes positions outpoints answers = Ok (deletions', recovered) ->
  deletions' = deletions /\ recovered = ∅.
Proof.
  intros positions Hans Hres.
  destruct (sees_positions f (env_overlay env) a (pollard_count (pollard c)) (filter (fun o => positions !! o = None) outpoints))
    as (answers' & E & HF); [done|apply Forall_forall; intros o [_ Ho]%list_elem_of_filter; by rewrite Forall_forall in Hout; apply Hout|]. rewrite Hans in E. injection E as <-.
  rewrite (resolve_deletions_spec a) in Hres; [by injection Hres as <- <-| |exact block_outpoints|].
  - intros o p Hp. by eapply cached_positions_spec.
  - eapply Forall2_impl; [exact HF|]. intros o r Ho p Hp. apply Ho; [done|]. rewrite (co_count _ _ _ _ Hc).
    by apply (co_index _ _ _ _ Hc o).
Qed.

Lemma block_planned block_hash previous contexts e :
  addition_contexts (header_block_hash (blk_header block)) height (txdata block) = Ok contexts ->
  ensure_forest_capacity c f (length contexts) = Ok None ->
  view_plan_update v height block_hash previous deletions (additions_of contexts) = Ok e ->
  ab_leaves a + zlength contexts <= 2 ^ rows /\
  planned f (ov_nodes (env_overlay env)) height block_hash previous (ab_leaves a) leaf deletions (additions_of contexts) e.
Proof.
  intros Hctx Hcap Hplan. pose proof (co_fit _ _ _ _ Hc). pose proof (se_layout _ _ _ Hsees) as [Hrows Hcount].
  pose proof (pow2_lt rows 64). unfold ensure_forest_capacity, leaf_capacity in Hcap.
  apply bind_ok in Hcap as (req & Hreq%ok_or_ok & Hcap). apply checked_add_Some in Hreq as [-> _].
  apply bind_ok in Hcap as (cap & Hcap'%ok_or_ok & Hcap). rewrite (co_count _ _ _ _ Hc) in Hcap.
  unfold checked_shl in Hcap'. rewrite bool_decide_eq_true_2 in Hcap' by lia. rewrite shl_one in Hcap' by lia. injection Hcap' as <-.
  destruct (_ <=? _) eqn:Hle in Hcap; [|done]. apply Z.leb_le in Hle.
  pose proof (additions_length contexts) as Hz.
  split; [unfold zlength; lia|]. unfold view_plan_update in Hplan. cbn [fv_forest fv_leaves fv_overlay] in Hplan.
  rewrite (co_count _ _ _ _ Hc) in Hplan.
  destruct (plan_update_spec f (ov_nodes (env_overlay env)) Hrows Hcount height block_hash previous (ab_leaves a) leaf
    deletions (additions_of contexts)) as (e' & E & Hpl); [lia|rewrite Hz; unfold zlength; lia|..].
  - apply (sees_wf f (env_overlay env) a); [done|done|]. apply Hc.
  - intros d (d' & -> & Hd)%list_elem_of_fmap. by apply block_deletion in Hd as (_ & _ & ?).
  - rewrite Hplan in E. by injection E as <-.
Qed.

Lemma block_entry block_hash previous contexts e :
  addition_contexts (header_block_hash (blk_header block)) height (txdata block) = Ok contexts ->
  ab_leaves a + zlength contexts <= 2 ^ rows ->
  planned f (ov_nodes (env_overlay env)) height block_hash previous (ab_leaves a) leaf deletions (additions_of contexts) e ->
  window_entry U rows e /\ planned_from rows a e /\
  wf_abs rows (abs_forward rows e a) (ab_leaves a + zlength contexts) (block_leaves a leaf block contexts).
Proof.
  intros Hctx Hfit Hpl. destruct (block_net _ _ (header_block_hash (blk_header block)) height Hvalid) as (_ & _ & contexts' & E & _ & Hnew & _).
  rewrite Hctx in E. injection E as <-. pose proof (additions_created _ _ _ _ (vb_fit _ _ Hvalid) Hctx) as Hsub.
  rewrite <- (additions_length contexts) in Hfit |- *. unfold block_leaves, leaf_after. rewrite <- additions_hashes.
  apply (planned_over U f (ov_nodes (env_overlay env)) a height block_hash previous); try done.
  - apply Hsees.
  - apply Hsees.
  - apply Hsees.
  - apply Hc.
  - apply Forall_forall. intros d Hd. by apply block_deletion in Hd as (_ & ? & ?).
  - rewrite additions_outpoints. apply Forall_forall. intros o Ho. rewrite Forall_forall in Hcreated. apply Hcreated.
    by eapply sublist_subseteq.
  - rewrite (pl_removed _ _ _ _ _ _ _ _ _ _ Hpl), (pl_added _ _ _ _ _ _ _ _ _ _ Hpl). split.
    + intros d (x & -> & Hx)%list_elem_of_fmap. by apply block_deletion in Hx as (? & _).
    + intros d Hd. right. apply not_elem_of_dom, Hnew. rewrite <- additions_outpoints, <- (index_deltas_outpoints (ab_leaves a)).
      by apply list_elem_of_fmap_2.
Qed.

Lemma block_sound prevouts c' b :
  (forall contexts, addition_contexts (header_block_hash (blk_header block)) height (txdata block) = Ok contexts ->
     fresh_hashes leaf (ab_leaves a) (get_leaf_hashes <$> contexts)) ->
  process_block env block prevouts height c = (c', Ok (PreparedBlock b)) ->
  exists contexts spent, prepared_for rows a leaf block height contexts spent b /\
    consistent rows (abs_forward rows (prepared_entry b) a) (block_leaves a leaf block contexts) c' /\
    dom (ab_index (abs_forward rows (prepared_entry b) a)) = foldl apply_transaction (dom (ab_index a)) (txdata block).
Proof.
  intros Hfresh E. apply proof_steps in E as (contexts & block_hashes & answers & dels & recovered & hs & proof & p1 & spent_hashes & spent
    & e & expected & cached & p2 & c1 & Hctx & Hcap & Hans & Hres & (targets & Hing) & Hrl & Hver & Hplan & Hroots & Hcl & Hup & Hcount & Hstump & Hlc & -> & ->).
  destruct (block_resolved _ _ _ _ _ Hans Hres) as [-> ->]. specialize (Hfresh _ Hctx).
  destruct (block_planned _ _ _ _ Hctx Hcap Hplan) as [Hfit Hpl].
  destruct (block_entry _ _ _ _ Hctx Hfit Hpl) as (Hwin & Hpf & Hwf).
  destruct (ingest_keeps _ _ _ _ _ Hing) as [Ecount Eroots].
  destruct (resolve_leaves_spec rows a leaf c Hc f (env_overlay env) Hsees eq_refl env _ prevouts block_hashes outpoints outpoints ∅
    spent_hashes spent ltac:(done) block_outpoints Hrl) as [-> Hspent].
  destruct (block_net _ _ (header_block_hash (blk_header block)) height Hvalid) as (_ & _ & contexts' & E & _ & Hnew & Hnet).
  rewrite Hctx in E. injection E as <-.
  assert (NoDup (context_outpoint <$> contexts)) as Hnd.
  { eapply sublist_NoDup; [apply Hvalid|]. by eapply additions_created; [apply Hvalid|]. }
  assert (pollard_count p1 = ab_leaves a) as Ec1 by (rewrite Ecount; apply Hc).
  assert (pollard_stump_roots p1 = spec_roots leaf rows (ab_leaves a)) as Er1.
  { unfold pollard_stump_roots. rewrite Eroots. apply Hc. }
  rewrite Ec1, Er1 in Hver. rewrite Ec1 in Hcl. rewrite (co_count _ _ _ _ Hc) in Hroots. cbn [fv_leaves] in Hroots.
  exists contexts, spent. split_and!.
  - split; cbn [prepared_proof prepared_entry prepared_rows Udata.leaves Udata.proof]; try done; [by exists proof|apply Hpl..|by rewrite Ec1].
  - apply cached_leaves_spec in Hcl as [Hlen Hpos]; [|by rewrite length_fmap]. cbn [prepared_entry].
    assert (num_leaves e = ab_leaves a + zlength contexts) as Hn.
    { by rewrite (pl_leaves _ _ _ _ _ _ _ _ _ _ Hpl), additions_length. }
    apply (consistent_after Hdigest rows a leaf c Hc outpoints contexts e); try done.
    + exact block_outpoints.
    + apply Hpl.
    + apply Hpl.
    + by rewrite <- Hn.
    + rewrite Hstump. rewrite (roots_after_spec f (ov_nodes (env_overlay env)) (ly_rows _ (se_layout _ _ _ Hsees)) e (ab_leaves a)
        (block_leaves a leaf block contexts)) in Hroots.
      * injection Hroots as <-. by rewrite Hn.
      * rewrite Hn, (pl_added _ _ _ _ _ _ _ _ _ _ Hpl), index_deltas_length. by rewrite additions_length.
      * apply Hc.
      * by rewrite Hn.
      * pose proof (pl_forest _ _ _ _ _ _ _ _ _ _ Hpl) as Hw. rewrite additions_length, additions_hashes in Hw. by rewrite Hn.
    + intros h n Hh. destruct (modify_remembers _ _ _ _ _ _ _ _ Hing Hup h n Hh) as [[Hold Hno]|Hin]; [left; split; [done|]|right; by rewrite <- (co_count _ _ _ _ Hc)].
      intros d Hd [_ Eh]. apply list_elem_of_fmap in Hd as (x & -> & Hx). apply list_elem_of_fmap in Hx as (o & -> & Ho). cbn in Eh.
      apply list_elem_of_lookup_1 in Ho as [i Hi]. destruct (Forall2_lookup_l _ _ _ _ _ Hspent Hi) as (l & Hl & _ & _ & El).
      apply Hno. rewrite <- Eh, El. by eapply list_elem_of_fmap_2, list_elem_of_lookup_2.
  - rewrite Hnet. by apply index_after_dom; [apply Hpl|apply Hpl|].
Qed.

End Block.

(** ** Recovering a position *)

Section Recovery.
Context (v : ForestView) (leaf : Z -> ForestNodeData) (h : BitcoinNodeHash).
Context (Hread : forall p, 0 <= p < fv_leaves v -> view_read v p = Ok (leaf p)).

Definition live_at (p : Z) : Prop := 0 <= p < fv_leaves v /\ nd_spent (leaf p) = false /\ nd_hash (leaf p) = bytes_of_hash h.

Lemma is_live_leaf_spec node : is_live_leaf node h = true <-> nd_spent node = false /\ nd_hash node = bytes_of_hash h.
Proof. unfold is_live_leaf. rewrite andb_true_iff, negb_true_iff, bool_decide_eq_true. done. Qed.

Lemma recover_from_neighbours_spec target_index local_index answers block_leaves : 0 <= target_index ->
  exists found, recover_from_neighbours v target_index h local_index answers block_leaves = Ok found /\
    forall p, found = Some p -> live_at p.
Proof.
  intros Ht. revert local_index block_leaves; induction answers as [|[q|e] answers IH]; intros local_index [|[o hash] block_leaves];
    try (by exists None).
  - cbn [recover_from_neighbours]. case_bool_decide; [|apply IH].
    destruct (checked_sub q local_index) as [start|] eqn:Es; cbn; [|apply IH].
    destruct (checked_add 64 start target_index) as [candidate|] eqn:Ec; cbn; [|apply IH]. destruct (Z.ltb_spec candidate (fv_leaves v)); [|apply IH].
    unfold checked_sub in Es. case_bool_decide; [|done]. injection Es as <-. apply checked_add_Some in Ec as [-> Hc].
    assert (0 <= q - local_index + target_index < fv_leaves v) as Hin by (destruct Hc; lia).
    rewrite Hread, ok_bind by done. destruct (is_live_leaf _ _) eqn:El; [|apply IH]. eexists. split; [done|]. intros p [= <-]. split; [done|by apply is_live_leaf_spec].
  - apply IH.
Qed.

Lemma scan_leaves_spec positions : (forall p, p ∈ positions -> 0 <= p < fv_leaves v) ->
  (forall p, scan_leaves v h positions = Ok p -> live_at p) /\
  (forall p, p ∈ positions -> is_live_leaf (leaf p) h = true -> exists q, scan_leaves v h positions = Ok q) /\
  ((forall p, p ∈ positions -> is_live_leaf (leaf p) h = false) ->
    scan_leaves v h positions = Err "could not recover outpoint from its creating block").
Proof.
  induction positions as [|q positions IH]; intros Hin; [split_and!; [done|by intros p ?%elem_of_nil|done]|].
  cbn [scan_leaves]. assert (0 <= q < fv_leaves v) as Hq by (apply Hin; left). rewrite Hread, ok_bind by done.
  destruct IH as (IH1 & IH2 & IH3); [intros p Hp; apply Hin; by right|]. destruct (is_live_leaf (leaf q) h) eqn:El.
  - split_and!; [|by eexists|].
    { intros p [= <-]. split; [done|by apply is_live_leaf_spec]. }
    intros Hno. by rewrite Hno in El by left.
  - split_and!; [done| |].
    + intros p [->|Hp]%elem_of_cons Hl; [congruence|by eapply IH2].
    + intros Hno. apply IH3. intros p Hp. apply Hno. by right.
Qed.

End Recovery.

End Proofs.

(** ** Properties *)

(** C4: [process_block] proves and plans a valid block.  From a forest (with the pending blocks' overlay) that holds
    the leaves [leaf], and caches that agree with it, a prepared block has a compact proof that the library verifies
    against the forest's own roots, for exactly the leaves of the outputs that the block spends and did not create itself;
    its journal entry is a legal next entry of the pending window, planned from this forest, with the block's hash and
    height; and after it the forest holds the block's leaves, its index lists the outputs unspent after the block's
    transactions, and the caches (the pollard with its roots, cached contexts and positions) agree with it again.  So the property
    is inductive over the chain.  Assumed of the library: ingesting keeps a pollard's leaves and roots, and
    [modify] forgets what it deletes; of the chain: a valid block with leaf hashes of its own. *)
Theorem process_block_sound `{NodeHashing} `{!EqDecision BitcoinNodeHash} `{Sha256} `{LeafMapDb} `{!LeafMapLaws} `{BitcoinCodec}
    `{Sha512_256} `{HeaderCodec} `{HeightsDb} `{BlockData} `{!Accumulators} `{!AccumulatorLaws}
    (Hdigest : forall bs, length (sha512_256 bs) = 32%nat)
    (U : OutPoint -> Prop) (Hinj : forall o o', U o -> U o' -> leaf_map_key o = leaf_map_key o' -> o = o') (env : BlockEnv) (block : Block) (prevouts : gmap OutPoint PrevoutInfo) (height : Z)
    (c c' : ProverCache) (b : Prepared) (a : AbsForest) (leaf : Z -> ForestNodeData)
    (Hsees : sees U (env_forest env) (env_overlay env) a)
    (Hc : consistent (ss_rows (env_forest env)) a leaf c)
    (Hvalid : valid_block (dom (ab_index a)) (txdata block))
    (Hout : Forall U (external_outpoints (txdata block)))
    (Hcreated : Forall U (concat (created_outputs <$> txdata block)))
    (Hfresh : forall contexts, addition_contexts (header_block_hash (blk_header block)) height (txdata block) = Ok contexts ->
       fresh_hashes leaf (ab_leaves a) (get_leaf_hashes <$> contexts))
    (Hrun : process_block env block prevouts height c = (c', Ok (PreparedBlock b))) :
  let rows := ss_rows (env_forest env) in
  exists contexts spent, prepared_for U rows a leaf block height contexts spent b /\
    consistent rows (abs_forward rows (prepared_entry b) a) (block_leaves a leaf block contexts) c' /\
    dom (ab_index (abs_forward rows (prepared_entry b) a)) = foldl apply_transaction (dom (ab_index a)) (txdata block).
Proof. by apply (block_sound U Hinj Hdigest _ env a leaf c block height) with prevouts. Qed.

(** C31: recovery finds a leaf whatever the leaf map says.  When the map's answer for a spent output is missing or wrong,
    [recover_leaf_position_from_block] takes the leaves of the creating block: for an output of that block, it returns the position
    of the unspent leaf with the wanted hash, when there is exactly one; it reports failure exactly when there is none; and
    an output that is no leaf of the block is refused.  Neighbours' positions (which may be stale) only speed it up. *)
Theorem recovery_finds_leaf `{NodeHashing} `{!EqDecision BitcoinNodeHash} `{Sha256} `{LeafMapDb} `{!LeafMapLaws}
    (v : ForestView) (leaf : Z -> ForestNodeData) (h : BitcoinNodeHash) (target : OutPoint)
    (block_leaves : list (OutPoint * BitcoinNodeHash))
    (Hread : forall p, 0 <= p < fv_leaves v -> view_read v p = Ok (leaf p))
    (Hone : forall p q, live_at v leaf h p -> live_at v leaf h q -> p = q) :
  let recover := recover_leaf_position_from_block v target h block_leaves in
  (target ∉ block_leaves.*1 -> recover = Err "outpoint is not an eligible leaf in its block") /\
  (target ∈ block_leaves.*1 ->
   (forall p, live_at v leaf h p -> recover = Ok p) /\
   ((forall p, ~ live_at v leaf h p) -> recover = Err "could not recover outpoint from its creating block")).
Proof.
  intros recover. unfold recover, recover_leaf_position_from_block. split; intros Hin.
  - destruct (list_find _ block_leaves) as [[i [o x]]|] eqn:Ef; [|done]. apply list_find_Some in Ef as (Hi & Ho & _). cbn in Ho. subst o.
    destruct Hin. by eapply (list_elem_of_fmap_2 fst _ (target, x)), list_elem_of_lookup_2.
  - apply list_elem_of_fmap in Hin as (x & -> & Hx). destruct (list_find_elem_of (fun y => y.1 = x.1) block_leaves x Hx eq_refl) as [[i y] Ef].
    rewrite Ef. cbn [ok_or mbind result_bind]. unfold leaf_positions. rewrite db_batch_fetch_law, !ok_bind.
    match goal with |- context [recover_from_neighbours v ?t h 0 ?a ?l] =>
      destruct (recover_from_neighbours_spec v leaf h Hread t 0 a l) as (found & -> & Hfound); [lia|] end.
    rewrite ok_bind. destruct (scan_leaves_spec v leaf h Hread (zrange 0 (fv_leaves v))) as (Hsnd & Hcpl & Hnone).
    { intros p Hp%elem_of_zrange. lia. }
    split.
    + intros p Hp. destruct found as [q|]; [f_equal; by apply Hone; [apply Hfound|]|].
      destruct (Hcpl p) as [q E]; [apply elem_of_zrange; destruct Hp; lia|by apply is_live_leaf_spec, Hp|]. rewrite E. f_equal. by apply Hone; [apply Hsnd|].
    + intros Hno. destruct found as [q|]; [destruct (Hno q); by apply Hfound|]. apply Hnone. intros p Hp%elem_of_zrange.
      apply not_true_is_false. intros Hl%is_live_leaf_spec. apply (Hno p). split; [lia|done].
Qed.

(** ** A concrete block *)

Section Demo.
#[local] Existing Instances toy_hashing toy_sha256 toy_db toy_db_laws Udata.Udata.toy_bitcoin toy_blocks
  JournalContract.JournalContract.toy_header HeaderIndex.HeaderIndex.small_db.
#[local] Instance toy_hash_eq : EqDecision BitcoinNodeHash := list_eq_dec.

(** A digest of the last byte. *)
#[local] Instance toy_digest : Sha512_256 := fun bs => replicate 32 (default 0 (last bs)).

(** Accumulators of at most one leaf before the block: a pollard that has only its roots. *)
Definition toy_modify (s : Stump) (additions deletions : list BitcoinNodeHash) : Stump :=
  let leaf := leaf_append (fun o => {| nd_hash := default [] (stump_roots s !! 0%nat); nd_spent := negb (bool_decide (deletions = [])) |}) 1 additions in
  let n := 1 + zlength additions in {| stump_leaves := n; stump_roots := spec_roots leaf 2 n |}.

#[local] Instance toy_accumulators : Accumulators := {|
  Pollard := Stump;
  pollard_count := stump_leaves;
  pollard_roots := fun p => reverse (stump_roots p);
  pollard_from_roots := fun roots n => {| stump_leaves := n; stump_roots := reverse roots |};
  pollard_leaf_position := fun _ _ => None;
  pollard_missing_positions := fun _ _ => [];
  pollard_ingest_positions := fun p targets hs => (p, Ok {| sp_targets := targets; sp_hashes := hs.*2 |});
  pollard_modify_stump := fun p additions deletions _ => (toy_modify p additions deletions, Ok tt);
  stump_verify := fun s p hs => Ok (bool_decide (hs = stump_roots s));
  stump_modify := fun s additions deletions _ => Ok (toy_modify s additions deletions)
|}.

Lemma toy_accumulator_laws : AccumulatorLaws.
Proof. split; [by intros p targets hs p' r [= <- _]|done]. Qed.

Definition demo_prevout : PrevoutInfo := {| pi_height := 3; pi_is_coinbase := false; pi_value := 50; pi_script_pubkey := [1] |}.
(** A coinbase, and a transaction that spends the only leaf. *)
Definition demo_txdata : list (bytes * bool * list OutPoint * list TxOut) :=
  [(replicate 32 2, true, [], [pay]); (replicate 32 3, false, [live_op], [{| txo_value := 40; txo_script := [0x52] |}])].
Definition demo_block : Block := {| blk_header := true; txdata := demo_txdata |}.

Definition demo_env : BlockEnv := {|
  env_forest := live_forest; env_overlay := empty_overlay;
  env_headers := {| HeaderIndex.HeaderIndex.headers := Files.Files.synced (zeros 80); HeaderIndex.HeaderIndex.heights := Some ((∅ : gmap bytes bytes), 9%nat) |};
  env_worker := Ok tt; rpc_get_block := fun _ => Err "offline"; rpc_get_raw_transaction_info := fun _ => Err "offline";
  heights_order := elements; hashes_order := map_to_list |}.
Definition demo_cache : ProverCache := {|
  pollard := {| stump_leaves := 1; stump_roots := [replicate 32 1] |} : @Pollard _ toy_accumulators;
  pollard_leaves := []; leaf_cache := ∅; block_hash_cache := {[ 3 := replicate 32 7 ]} |}.

Definition demo_run := process_block demo_env demo_block {[ live_op := demo_prevout ]} 9 demo_cache.

Lemma live_index o p : ab_index live_abs !! o = Some p -> o = live_op /\ p = 0.
Proof. unfold live_abs. cbn [ab_index]. by intros [<- <-]%lookup_singleton_Some. Qed.

Lemma demo_consistent : consistent 2 live_abs sample_leaf demo_cache.
Proof.
  split; try done.
  - exact live_wf.
  - intros o p [_ ->]%live_index. by_decide.
  - by intros o o' p [-> _]%live_index [-> _]%live_index.
  - intros p q h Hp Hq _ _. change (ab_leaves live_abs) with 1 in *. lia.
Qed.

Lemma demo_valid : valid_block (dom (ab_index live_abs)) (txdata demo_block).
Proof.
  change (dom (ab_index live_abs)) with (dom ({[ live_op := 0 ]} : gmap OutPoint Z)). rewrite dom_singleton_L. split; [|by_decide| | |by_decide].
  - split; [done|]. split; [|done]. intros _. split; by_decide.
  - apply Forall_forall. by_decide.
  - intros tx o Htx Hcb Ho. apply elem_of_cons in Htx as [->|Htx]; [by apply elem_of_nil in Ho|].
    by apply list_elem_of_singleton in Htx as ->.
Qed.

Lemma process_block_sound_witness :
  exists c' b, demo_run = (c', Ok (PreparedBlock b)) /\ pollard_count (pollard c') = 3 /\
    dom (ab_index (abs_forward 2 (prepared_entry b) live_abs)) = foldl apply_transaction {[ live_op ]} demo_txdata.
Proof.
  assert (match demo_run with (_, Ok (PreparedBlock b)) => num_leaves (prepared_entry b) = 3 | _ => False end) as Hn by (vm_compute; reflexivity).
  destruct demo_run as [c' [[b|n|o old new]|e]] eqn:E; [|destruct Hn..].
  exists c', b. split; [reflexivity|].
  destruct (@process_block_sound _ _ _ _ toy_db_laws _ _ _ _ _ _ toy_accumulator_laws (fun bs => length_replicate 32 (default 0 (last bs))) sample_set sample_set_inj
    demo_env demo_block {[ live_op := demo_prevout ]} 9 demo_cache c' b live_abs sample_leaf) as (contexts & spent & Hp & Hc & Hdom).
  - exact (sees_pending sample_set live_forest live_abs [] live_refines (Forall_nil_2 _)).
  - exact demo_consistent.
  - exact demo_valid.
  - apply (bool_decide_unpack _). by vm_compute.
  - apply (bool_decide_unpack _). by vm_compute.
  - intros contexts [= <-]. split; [by_decide|]. intros p h Hp Hh [_ Eh].
    change (ab_leaves live_abs) with 1 in Hp. assert (p = 0) as -> by lia. subst h. revert Hh. apply (bool_decide_unpack _). by vm_compute.
  - exact E.
  - split; [|exact Hdom]. rewrite (co_count _ _ _ _ Hc). exact Hn.
Defined.

Definition stale_view : ForestView :=
  {| fv_forest := live_forest; fv_overlay := {| ov_nodes := ∅; node_heights := ∅; ov_positions := {[ live_op := (9, None) ]} |}; fv_leaves := 1 |}.

(** The pending blocks say that the output is spent, the forest still has its leaf. *)
Lemma recovery_finds_leaf_witness :
  leaf_positions stale_view [live_op] <> Ok [Ok 0] /\
  recover_leaf_position_from_block stale_view live_op (replicate 32 1) [(live_op, replicate 32 1)] = Ok 0.
Proof.
  split; [vm_compute; congruence|].
  apply (@recovery_finds_leaf toy_hashing toy_hash_eq toy_sha256 toy_db toy_db_laws stale_view sample_leaf (replicate 32 1) live_op
    [(live_op, replicate 32 1)]).
  - intros p Hp. change (fv_leaves stale_view) with 1 in Hp. assert (p = 0) as -> by lia. reflexivity.
  - intros p q [Hp _] [Hq _]. change (fv_leaves stale_view) with 1 in *. lia.
  - by left.
  - split_and!; [by_decide..|reflexivity].
Defined.
End Demo.

End BlockProofs.
