(* ===== verification/Persistence.v ===== *)
(** The background store writer of the steady-state prover ([PersistenceState] of
    [src/src/prover.rs]): the order in which a published window reaches the
    journal, the proof file, the header index, the proof index and the forest,
    and the barriers that the producer requests between windows. *)

From S2P Require Import Prelude Bytes Files Positions JournalEntry Forest SteadyState LeafMap Udata JournalFile ProofStore HeaderIndex.
Import Files.Files JournalEntry.JournalEntry Forest.Forest SteadyState.SteadyState JournalFile.JournalFile.

Module Persistence.

Definition PUBLICATION_BLOCKS : nat := 100.
Definition MAX_PENDING_BLOCKS : nat := 2 * PUBLICATION_BLOCKS.

(** Forward records that pruning keeps. *)
Definition KEPT_RECORDS : Z := 144.

Section Persistence.
Context `{NodeHashing} `{Sha256} `{LeafMapDb} `{BitcoinCodec} `{HeaderCodec} `{KvStore} `{HeightsDb}.
Context `{!EqDecision Header} `{!EqDecision Udata.Udata.CompactBlockProof}.

Record PersistenceBlock := {
  pb_entry : JournalEntryData;
  pb_header : Header;
  pb_proof : Udata.Udata.CompactBlockProof;
  pb_proof_forest_rows : Z
}.

Inductive PersistenceBarrier :=
| Sync (clean_shutdown : bool)
| Resize (leaves : Z)
| DiscardUnpublished
| Rollback (height : Z) (hash : bytes)
| Repair (o : OutPoint) (position : Z).

Record DurableTip := { dt_height : Z; dt_hash : bytes; dt_leaves : Z; dt_roots : list BitcoinNodeHash }.

(** The stores are shared with the producer and the server; only the worker writes
    them, the journal's unpublished tail apart.  [notifications] are the hashes
    sent to the network threads, the last one first.  [ps_unflushed] is what the forest's
    files hold in memory only: the entries whose application has written to the
    mapped nodes or to the leaf map since [SteadyStateForest::sync] last succeeded (the
    files of [Files] keep their own unsynchronized contents). *)
Record PersistenceState := {
  ps_forest : SteadyStateForest;
  ps_unflushed : list JournalEntryData;
  ps_journal : Journal;
  proof_file : ProofStore.ProofStore.ProofFile;
  proof_index : ProofStore.ProofStore.BlocksIndex;
  header_index : HeaderIndex.HeaderIndex.HeaderIndex;
  notifications : list bytes;
  ps_height : Z;
  ps_tip_hash : bytes;
  bootstrap_height : Z
}.

Definition with_forest (s : PersistenceState) (f : SteadyStateForest) := {|
  ps_forest := f; ps_unflushed := ps_unflushed s; ps_journal := ps_journal s; proof_file := proof_file s; proof_index := proof_index s;
  header_index := header_index s; notifications := notifications s; ps_height := ps_height s;
  ps_tip_hash := ps_tip_hash s; bootstrap_height := bootstrap_height s |}.
Definition with_unflushed (s : PersistenceState) (l : list JournalEntryData) := {|
  ps_forest := ps_forest s; ps_unflushed := l; ps_journal := ps_journal s; proof_file := proof_file s; proof_index := proof_index s;
  header_index := header_index s; notifications := notifications s; ps_height := ps_height s;
  ps_tip_hash := ps_tip_hash s; bootstrap_height := bootstrap_height s |}.
Definition with_journal (s : PersistenceState) (j : Journal) := {|
  ps_forest := ps_forest s; ps_unflushed := ps_unflushed s; ps_journal := j; proof_file := proof_file s; proof_index := proof_index s;
  header_index := header_index s; notifications := notifications s; ps_height := ps_height s;
  ps_tip_hash := ps_tip_hash s; bootstrap_height := bootstrap_height s |}.
Definition with_proof_file (s : PersistenceState) (f : ProofStore.ProofStore.ProofFile) := {|
  ps_forest := ps_forest s; ps_unflushed := ps_unflushed s; ps_journal := ps_journal s; proof_file := f; proof_index := proof_index s;
  header_index := header_index s; notifications := notifications s; ps_height := ps_height s;
  ps_tip_hash := ps_tip_hash s; bootstrap_height := bootstrap_height s |}.
Definition with_proof_index (s : PersistenceState) (b : ProofStore.ProofStore.BlocksIndex) := {|
  ps_forest := ps_forest s; ps_unflushed := ps_unflushed s; ps_journal := ps_journal s; proof_file := proof_file s; proof_index := b;
  header_index := header_index s; notifications := notifications s; ps_height := ps_height s;
  ps_tip_hash := ps_tip_hash s; bootstrap_height := bootstrap_height s |}.
Definition with_header_index (s : PersistenceState) (x : HeaderIndex.HeaderIndex.HeaderIndex) := {|
  ps_forest := ps_forest s; ps_unflushed := ps_unflushed s; ps_journal := ps_journal s; proof_file := proof_file s; proof_index := proof_index s;
  header_index := x; notifications := notifications s; ps_height := ps_height s;
  ps_tip_hash := ps_tip_hash s; bootstrap_height := bootstrap_height s |}.
Definition with_tip (s : PersistenceState) (height : Z) (hash : bytes) := {|
  ps_forest := ps_forest s; ps_unflushed := ps_unflushed s; ps_journal := ps_journal s; proof_file := proof_file s; proof_index := proof_index s;
  header_index := header_index s; notifications := notifications s; ps_height := height;
  ps_tip_hash := hash; bootstrap_height := bootstrap_height s |}.
Definition with_notifications (s : PersistenceState) (l : list bytes) := {|
  ps_forest := ps_forest s; ps_unflushed := ps_unflushed s; ps_journal := ps_journal s; proof_file := proof_file s; proof_index := proof_index s;
  header_index := header_index s; notifications := l; ps_height := ps_height s;
  ps_tip_hash := ps_tip_hash s; bootstrap_height := bootstrap_height s |}.

(** Calls on one store. *)
Definition on_journal {A} (m : SR Journal A) : SR PersistenceState A := fun s =>
  let '(j, r) := m (ps_journal s) in (with_journal s j, r).
Definition on_proof_file {A} (m : SR ProofStore.ProofStore.ProofFile A) : SR PersistenceState A := fun s =>
  let '(f, r) := m (proof_file s) in (with_proof_file s f, r).
Definition on_proof_index {A} (m : SR ProofStore.ProofStore.BlocksIndex A) : SR PersistenceState A := fun s =>
  let '(b, r) := m (proof_index s) in (with_proof_index s b, r).
Definition on_header_index {A} (m : SR HeaderIndex.HeaderIndex.HeaderIndex A) : SR PersistenceState A := fun s =>
  let '(x, r) := m (header_index s) in (with_header_index s x, r).

(** A mutation of the forest that writes what the entries [written] touch.  Nothing of it is durable yet; one
    that fails leaves the forest in some state [torn]. *)
Definition on_forest {A} (torn : SteadyStateForest) (written : list JournalEntryData)
    (m : SteadyStateForest -> result (A * SteadyStateForest)) : SR PersistenceState A := fun s =>
  let s' := with_unflushed s (ps_unflushed s ++ written) in
  match m (ps_forest s) with
  | Ok (a, f) => (with_forest s' f, Ok a)
  | Err e => (with_forest s' torn, Err e)
  end.

(** [SteadyStateForest::sync]: both the mapped nodes and the leaf map are flushed, the leaf map even if the
    nodes fail.  Only when both succeed is everything written so far durable. *)
Definition sync_forest (io : Io) : SR PersistenceState unit :=
  let forest_result := require (io 0%nat) "failed to flush completed forest" in
  let leaf_map_result := require (io 1%nat) "failed to sync leaf map" in
  lift (forest_result;; leaf_map_result);;
  modify (fun s => with_unflushed s []).

(** [HeaderIndex::sync]: the database is sealed even if the header file fails. *)
Definition sync_headers (io : Io) : SR HeaderIndex.HeaderIndex.HeaderIndex unit :=
  HeaderIndex.HeaderIndex.available_heights;;
  headers_result ← try_ (HeaderIndex.HeaderIndex.on_headers (sync_file io 0));
  let heights_result := require (io 1%nat) "failed to sync header heights" in
  lift (headers_result;; heights_result).

(** [SteadyStateForest::repair_leaf_position]; [synced] says whether flushing the
    leaf map succeeds. *)
Definition repair_leaf_position (synced : bool) (o : OutPoint) (position : Z) (s : SteadyStateForest)
  : result (unit * SteadyStateForest) :=
  require (negb (leaves s <=? position)) "cannot map an outpoint to a position beyond the leaves";;
  db ← db_put (leaf_map s) (leaf_map_key o) (le_bytes 8 position);
  require synced "failed to sync repaired leaf map";;
  Ok (tt, with_leaf_map s db).

(** ** Persisting one window *)

(** The first loop of [persist]. *)
Fixpoint extends (height : Z) (hash : bytes) (blocks : list PersistenceBlock) : result unit :=
  match blocks with
  | [] => Ok tt
  | block :: blocks =>
      require (negb (negb (JournalEntry.height (pb_entry block) =? height + 1)
                     || negb (bool_decide (previous_block_hash (pb_entry block) = hash))))
        "persistence batch does not extend the durable tip";;
      extends (JournalEntry.height (pb_entry block)) (block_hash (pb_entry block)) blocks
  end.

(** Append the compact proofs and read each of them back. *)
Fixpoint store_proofs (io : nat -> Io) (n : nat) (blocks : list PersistenceBlock)
  : SR PersistenceState (list (ProofStore.ProofStore.BlockIndex * bytes)) :=
  match blocks with
  | [] => mret []
  | block :: blocks =>
      index ← on_proof_file (ProofStore.ProofStore.append (io n) (pb_proof block));
      s ← get;
      lift (require (bool_decide (ProofStore.ProofStore.get_proof (proof_file s) index = Some (pb_proof block)))
        "failed to read back compact proof");;
      let index := {| ProofStore.ProofStore.offset := ProofStore.ProofStore.offset index;
                      ProofStore.ProofStore.size := ProofStore.ProofStore.size index;
                      ProofStore.ProofStore.proof_forest_rows := Some (pb_proof_forest_rows block) |} in
      indexes ← store_proofs io (S n) blocks;
      mret ((index, block_hash (pb_entry block)) :: indexes)
  end.

Fixpoint store_headers (io : nat -> Io) (n : nat) (blocks : list PersistenceBlock) : SR PersistenceState unit :=
  match blocks with
  | [] => mret tt
  | block :: blocks =>
      on_header_index (HeaderIndex.HeaderIndex.put (io n) (JournalEntry.height (pb_entry block)) (pb_header block));;
      store_headers io (S n) blocks
  end.

(** The successive parts of [persist]: what a crash or another thread can observe in
    between.  [StLock] is taking the forest's write lock. *)
Inductive Stage := StPublish | StStores | StLock | StApply | StFlush | StCommit | StPrune | StNotify.

#[export] Instance Stage_eq_dec : EqDecision Stage.
Proof. solve_decision. Defined.

Definition all_stages : list Stage := [StPublish; StStores; StLock; StApply; StFlush; StCommit; StPrune; StNotify].

(** What the environment decides in one part: the I/O of each call, what a failed
    update leaves of the forest, whether a failed hole punch is tolerated. *)
Record Env := { io : nat -> Io; torn : SteadyStateForest; tolerated : bool }.

Definition run_stage (env : Env) (blocks : list PersistenceBlock) (boundary : JournalBoundary) (stage : Stage)
  : SR PersistenceState unit :=
  match stage with
  | StPublish => on_journal (publish (io env 0%nat) boundary)
  | StStores =>
      indexes ← store_proofs (fun n => io env (2 * n)%nat) 0 blocks;
      on_proof_file (ProofStore.ProofStore.sync (io env 1%nat));;
      store_headers (fun n => io env (2 * n + 5)%nat) 0 blocks;;
      on_header_index (sync_headers (io env 3%nat));;
      on_proof_index (ProofStore.ProofStore.append_batch indexes)
  | StLock => mret tt
  | StApply => on_forest (torn env) (pb_entry <$> blocks) (fun f => f ← apply_forward_batch f (pb_entry <$> blocks); Ok (tt, f))
  | StFlush => sync_forest (io env 0%nat)
  | StCommit =>
      last ← lift (ok_or "empty persistence batch" (last blocks));
      on_proof_index (ProofStore.ProofStore.update_height (JournalEntry.height (pb_entry last)));;
      modify (fun s => with_tip s (JournalEntry.height (pb_entry last)) (block_hash (pb_entry last)))
  | StPrune =>
      prune ← on_journal (prepare_prune KEPT_RECORDS);
      match prune with
      | Some prune => try_ (on_journal (finish (io env 0%nat) (tolerated env) prune));; mret tt
      | None => mret tt
      end
  | StNotify =>
      modify (fun s => with_notifications s (reverse (block_hash <$> (pb_entry <$> blocks)) ++ notifications s))
  end.

(** The checks before the publication. *)
Definition check_batch (s : PersistenceState) (blocks : list PersistenceBlock) : result unit :=
  ok_or "empty persistence batch" (last blocks);;
  extends (ps_height s) (ps_tip_hash s) blocks.

Fixpoint run_stages (env : Stage -> Env) (blocks : list PersistenceBlock) (boundary : JournalBoundary)
    (stages : list Stage) : SR PersistenceState unit :=
  match stages with
  | [] => mret tt
  | stage :: stages => run_stage (env stage) blocks boundary stage;; run_stages env blocks boundary stages
  end.

Definition persist (env : Stage -> Env) (blocks : list PersistenceBlock) (boundary : JournalBoundary)
  : SR PersistenceState unit :=
  s ← get;
  lift (check_batch s blocks);;
  run_stages env blocks boundary all_stages.

(** [finish_failed]: an orderly failure still seals the allocators of the two databases.  It commits no height. *)
Definition finish_failed (env : Env) : SR PersistenceState unit :=
  try_ (sync_forest (io env 0%nat));;
  try_ (on_header_index (sync_headers (io env 1%nat)));;
  mret tt.

(** ** Barriers *)

Definition durable_tip : SR PersistenceState DurableTip :=
  s ← get;
  rs ← lift (roots (ps_forest s));
  mret {| dt_height := ps_height s; dt_hash := ps_tip_hash s; dt_leaves := leaves (ps_forest s); dt_roots := rs |}.

(** A resize and a repair make what they write durable themselves (the resize in [Resize]), so they leave
    [ps_unflushed] alone. *)
Definition run_barrier (env : Env) (kernel : Kernel) (operation : PersistenceBarrier) : SR PersistenceState unit :=
  match operation with
  | Sync _ =>
      sync_forest (io env 0%nat);;
      on_journal (flush (io env 1%nat));;
      on_proof_file (ProofStore.ProofStore.sync (io env 2%nat));;
      on_header_index (sync_headers (io env 3%nat));;
      s ← get;
      on_proof_index (ProofStore.ProofStore.update_height (ps_height s))
  | DiscardUnpublished => on_journal (discard_unpublished (io env 0%nat))
  | Resize leaves =>
      on_forest (torn env) [] (fun f => '(_, f) ← ensure_leaf_capacity kernel f leaves; Ok (tt, f))
  | Repair outpoint position => on_forest (torn env) [] (repair_leaf_position (io env 0%nat 0%nat) outpoint position)
  | Rollback height hash =>
      s ← get;
      lift (require (negb (negb ((height =? ps_height s) && bool_decide (hash = ps_tip_hash s))))
        "rollback does not match the durable tip");;
      '(index, record) ← lift (ok_or "reorg exceeds retained journal; rebuild from a newer bootstrap"
                                 (latest_forward (ps_journal s)));
      let entry := jr_entry record in
      lift (require (negb (negb ((JournalEntry.height entry =? height) && bool_decide (block_hash entry = hash))))
        "rollback journal does not match the durable tip");;
      on_journal (mark_rolled_back (io env 0%nat) index);;
      on_forest (torn env) [entry] (fun f => f ← apply_backward f entry; Ok (tt, f));;
      sync_forest (io env 1%nat);;
      on_header_index (HeaderIndex.HeaderIndex.remove (io env 2%nat) height hash);;
      on_header_index (sync_headers (io env 3%nat));;
      on_proof_index (ProofStore.ProofStore.remove hash);;
      let previous_height := saturating_sub height 1 in
      s ← get;
      previous_index ←
        (if bootstrap_height s <? previous_height then
           index ← lift (ProofStore.ProofStore.get_index (proof_index s) (previous_block_hash entry));
           index ← lift (ok_or "proof index is missing rollback destination" index);
           mret (Some index)
         else mret None);
      on_proof_file (ProofStore.ProofStore.truncate_after (io env 4%nat) previous_index);;
      on_proof_index (ProofStore.ProofStore.update_height previous_height);;
      modify (fun s => with_tip s previous_height (previous_block_hash entry))
  end.

Definition is_clean_shutdown (operation : PersistenceBarrier) : bool :=
  match operation with Sync clean_shutdown => clean_shutdown | _ => false end.

(** [barrier]; the clean-shutdown file is written last. *)
Definition barrier (env : Env) (kernel : Kernel) (operation : PersistenceBarrier) : SR PersistenceState DurableTip :=
  run_barrier env kernel operation;;
  tip ← durable_tip;
  (if is_clean_shutdown operation then
     s ← get; lift (mark_clean_shutdown (ps_journal s));; mret tt
   else mret tt);;
  mret tip.

End Persistence.
End Persistence.
