(* ===== verification/Pipeline.v ===== *)
(** The two threads of the steady-state prover ([FlatFileProver] and
    [PersistenceWorker] of [src/src/prover.rs]): the producer journals blocks and
    hands windows of them to the worker, which publishes and applies them; every
    interleaving of the two is a sequence of steps.  The theorems are in
    [PipelineSession]. *)

From S2P Require Import Prelude Bytes Files Positions JournalEntry Forest SteadyState LeafMap Replay Udata JournalFile JournalRecord JournalMarker JournalSafety ProofStore HeaderIndex Persistence.
Import Files.Files JournalEntry.JournalEntry Forest.Forest SteadyState.SteadyState JournalFile.JournalFile Persistence.Persistence.

Module Pipeline.
Section Pipeline.
Context `{NodeHashing} `{Sha256} `{LeafMapDb} `{BitcoinCodec} `{HeaderCodec} `{KvStore} `{HeightsDb}.
Context `{!EqDecision Header} `{!EqDecision Udata.Udata.CompactBlockProof}.

(** ** The producer's own state *)

(** The fields of [FlatFileProver] that this protocol uses.  [height] and [tip_hash] are its
    own tip, ahead of the worker's. *)
Record Producer := {
  publication_window : list PersistenceBlock;
  publication_boundary : option JournalBoundary;
  submitted_blocks : nat;
  overlay : ForestOverlay;
  pending_apply : list JournalEntryData;
  fp_height : Z;
  fp_tip_hash : bytes
}.

Definition with_window (p : Producer) (w : list PersistenceBlock) (b : option JournalBoundary) (n : nat) := {|
  publication_window := w; publication_boundary := b; submitted_blocks := n; overlay := overlay p;
  pending_apply := pending_apply p; fp_height := fp_height p; fp_tip_hash := fp_tip_hash p |}.
Definition with_pending (p : Producer) (o : ForestOverlay) (l : list JournalEntryData) := {|
  publication_window := publication_window p; publication_boundary := publication_boundary p;
  submitted_blocks := submitted_blocks p; overlay := o; pending_apply := l; fp_height := fp_height p;
  fp_tip_hash := fp_tip_hash p |}.
Definition with_own_tip (p : Producer) (height : Z) (hash : bytes) := {|
  publication_window := publication_window p; publication_boundary := publication_boundary p;
  submitted_blocks := submitted_blocks p; overlay := overlay p; pending_apply := pending_apply p;
  fp_height := height; fp_tip_hash := hash |}.

(** The loop of [retire_apply]. *)
Fixpoint retire_pending (n : nat) : SR Producer unit :=
  match n with
  | O => mret tt
  | S n =>
      p ← get;
      match pending_apply p with
      | [] => lift (Err "persistence batch exceeds pending blocks")
      | entry :: rest => modify (fun p => with_pending p (retire (overlay p) entry) rest);; retire_pending n
      end
  end.

(** [retire_apply], for a completion that reports [blocks] blocks. *)
Definition retire_apply (blocks : nat) : SR Producer unit :=
  p ← get;
  lift (ok_or "unexpected persistence completion" (head (pending_apply p)));;
  retire_pending blocks;;
  p ← get;
  if (blocks <=? submitted_blocks p)%nat then
    modify (fun p => with_window p (publication_window p) (publication_boundary p) (submitted_blocks p - blocks))
  else lift (Err "persistence completion exceeds submitted window").

(** The window's end of [prove_range_inner]: what follows the journal append. *)
Definition enqueue (block : PersistenceBlock) (boundary : JournalBoundary) : SR Producer unit :=
  modify (fun p => with_window p (publication_window p ++ [block]) (Some boundary) (submitted_blocks p));;
  modify (fun p => with_pending p (push (overlay p) (pb_entry block)) (pending_apply p ++ [pb_entry block])).

(** The window taken out by [publish_pending]. *)
Definition take_window : SR Producer (list PersistenceBlock * JournalBoundary) :=
  p ← get;
  modify (fun p => with_window p (publication_window p) None (submitted_blocks p));;
  boundary ← lift (ok_or "publication window has no journal boundary" (publication_boundary p));
  modify (fun p => with_window p [] (publication_boundary p) (length (publication_window p)));;
  mret (publication_window p, boundary).

(** ** Programs of the producer

    A program is a tree of the calls that involve the other thread or the shared
    journal; between two of them the worker may take any number of steps.  [Spin]
    stands for a loop that would go on after the rounds it is given: it has no
    step, so that a program that reaches it is stuck. *)

Inductive Completion := Received (r : result nat) | Empty | Disconnected.

Inductive Prog (A : Type) : Type :=
| Ret (r : result A)
| Local (f : Producer -> Producer) (k : Producer -> Prog A)
| Append (block : PersistenceBlock) (k : result JournalBoundary -> Prog A)
| CheckWorker (k : result unit -> Prog A)
| TryRecv (k : Completion -> Prog A)
| Recv (k : result (result nat) -> Prog A)
| Send (blocks : list PersistenceBlock) (boundary : JournalBoundary) (k : result unit -> Prog A)
| Barrier (operation : PersistenceBarrier) (k : result DurableTip -> Prog A)
| Spin.
#[global] Arguments Ret {A} r.
#[global] Arguments Local {A} f k.
#[global] Arguments Append {A} block k.
#[global] Arguments CheckWorker {A} k.
#[global] Arguments TryRecv {A} k.
#[global] Arguments Recv {A} k.
#[global] Arguments Send {A} blocks boundary k.
#[global] Arguments Barrier {A} operation k.
#[global] Arguments Spin {A}.

#[export] Instance prog_ret : MRet Prog := fun A a => Ret (Ok a).
#[export] Instance prog_bind : MBind Prog := fun A B f =>
  fix bind (m : Prog A) : Prog B :=
    match m with
    | Ret (Ok a) => f a
    | Ret (Err e) => Ret (Err e)
    | Local g k => Local g (fun p => bind (k p))
    | Append block k => Append block (fun r => bind (k r))
    | CheckWorker k => CheckWorker (fun r => bind (k r))
    | TryRecv k => TryRecv (fun r => bind (k r))
    | Recv k => Recv (fun r => bind (k r))
    | Send blocks boundary k => Send blocks boundary (fun r => bind (k r))
    | Barrier operation k => Barrier operation (fun r => bind (k r))
    | Spin => Spin
    end.

(** A call on the producer's own state. *)
Definition local {A} (m : SR Producer A) : Prog A := Local (fun p => (m p).1) (fun p => Ret (m p).2).
(** A call whose result is the program's. *)
Definition check_worker : Prog unit := CheckWorker (fun r => Ret r).

Definition collect_loop : nat -> Prog unit := fix loop (fuel : nat) : Prog unit :=
  match fuel with
  | O => Spin
  | S fuel =>
      TryRecv (fun c =>
        match c with
        | Received r => blocks ← Ret r; local (retire_apply blocks);; loop fuel
        | Empty => Ret (Ok tt)
        | Disconnected => Ret (Err "persistence completion channel closed")
        end)
  end.

(** At most one window is in flight: two rounds of each loop are enough, as the
    theorems show. *)
Definition ROUNDS : nat := 2.

Definition collect_completed : Prog unit := check_worker;; collect_loop ROUNDS.

Definition wait_for_apply : Prog unit :=
  Recv (fun r => r ← Ret r; blocks ← Ret r; local (retire_apply blocks)).

Fixpoint drain_loop (fuel : nat) : Prog unit :=
  match fuel with
  | O => Spin
  | S fuel =>
      p ← local get;
      if (submitted_blocks p =? 0)%nat then Ret (Ok tt) else wait_for_apply;; drain_loop fuel
  end.

Definition drain_pending_apply : Prog unit := drain_loop ROUNDS;; check_worker.

Fixpoint reserve_loop (fuel : nat) : Prog unit :=
  match fuel with
  | O => Spin
  | S fuel =>
      p ← local get;
      if (MAX_PENDING_BLOCKS <=? length (pending_apply p))%nat then wait_for_apply;; reserve_loop fuel
      else Ret (Ok tt)
  end.

Definition reserve_persistence : Prog unit := collect_completed;; reserve_loop ROUNDS.

Definition publish_pending : Prog unit :=
  p ← local get;
  if (length (publication_window p) =? 0)%nat then Ret (Ok tt)
  else
    drain_pending_apply;;
    '(blocks, boundary) ← local take_window;
    check_worker;;
    Send blocks boundary (fun r => Ret r).

(** What [prove_range_inner] does with a block, around [process_block], which
    yields the block's entry, proof and layout. *)
Definition prove_block (block : PersistenceBlock) : Prog unit :=
  reserve_persistence;;
  boundary ← Append block (fun r => Ret r);
  local (enqueue block boundary);;
  p ← local get;
  (if (length (publication_window p) =? PUBLICATION_BLOCKS)%nat then publish_pending else Ret (Ok tt));;
  local (modify (fun p => with_own_tip p (JournalEntry.height (pb_entry block)) (block_hash (pb_entry block)))).

Definition run_worker_barrier (operation : PersistenceBarrier) : Prog DurableTip :=
  check_worker;; Barrier operation (fun r => Ret r).

(** [sync], [sync_for_shutdown]; [verify_durable_tip] also compares the leaves and the roots with the
    pollard's. *)
Definition sync (clean_shutdown : bool) : Prog unit :=
  publish_pending;;
  drain_pending_apply;;
  tip ← run_worker_barrier (Sync clean_shutdown);
  p ← local get;
  Ret (require ((dt_height tip =? fp_height p) && bool_decide (dt_hash tip = fp_tip_hash p))
         "durable forest and producer state diverged").

(** The branch of [reconcile_chain] for a tip that is not published: the unpublished
    blocks are dropped. *)
Definition discard_window : Prog unit :=
  drain_pending_apply;;
  p ← local get;
  if (length (publication_window p) =? 0)%nat then Ret (Ok tt)
  else
    tip ← run_worker_barrier DiscardUnpublished;
    local (modify (fun p => with_own_tip (with_pending (with_window p [] None (submitted_blocks p)) empty_overlay [])
                              (dt_height tip) (dt_hash tip))).

(** ** The two threads *)

Inductive Worker :=
| Idle
| Running (stages : list Stage) (blocks : list PersistenceBlock) (boundary : JournalBoundary)
| Failing (e : string)
| Stopped.

(** [appended] are the entries journalled and not discarded, and [reported] the
    number of blocks that the worker has reported durable.  The code keeps no
    such lists: they are what the theorems speak about. *)
Record System := {
  producer : Producer;
  shared : PersistenceState;
  worker : Worker;
  command : option (list PersistenceBlock * JournalBoundary);
  completion : option (result nat);
  worker_error : option string;
  appended : list JournalEntryData;
  reported : nat
}.

Definition with_producer (s : System) (p : Producer) := {|
  producer := p; shared := shared s; worker := worker s; command := command s; completion := completion s;
  worker_error := worker_error s; appended := appended s; reported := reported s |}.
Definition with_shared (s : System) (ps : PersistenceState) (l : list JournalEntryData) := {|
  producer := producer s; shared := ps; worker := worker s; command := command s; completion := completion s;
  worker_error := worker_error s; appended := l; reported := reported s |}.
Definition with_channels (s : System) (w : Worker) (c : option (list PersistenceBlock * JournalBoundary))
    (r : option (result nat)) := {|
  producer := producer s; shared := shared s; worker := w; command := c; completion := r;
  worker_error := worker_error s; appended := appended s; reported := reported s |}.
Definition with_error (s : System) (e : string) := {|
  producer := producer s; shared := shared s; worker := Failing e; command := command s; completion := completion s;
  worker_error := Some e; appended := appended s; reported := reported s |}.
Definition with_stage (s : System) (ps : PersistenceState) (w : Worker) := {|
  producer := producer s; shared := ps; worker := w; command := command s; completion := completion s;
  worker_error := worker_error s; appended := appended s; reported := reported s |}.
Definition with_report (s : System) (n : nat) := {|
  producer := producer s; shared := shared s; worker := Idle; command := command s; completion := Some (Ok n);
  worker_error := worker_error s; appended := appended s; reported := reported s + n |}.

(** The entries whose writes to the forest's files a crash may lose in part: those that no flush has covered, and
    those of the window that the worker is just applying. *)
Definition at_risk (s : System) : list JournalEntryData :=
  ps_unflushed (shared s) ++
  match worker s with Running (StApply :: _) blocks _ => pb_entry <$> blocks | _ => [] end.

Definition check (s : System) : result unit :=
  match worker_error s, worker s with
  | Some _, _ => Err "background persistence failed"
  | None, Stopped => Err "background persistence worker stopped"
  | None, _ => Ok tt
  end.

Definition worker_stopped : string := "persistence worker stopped".

(** Steps of the worker thread; [finish_failed] runs before the failure is reported.  A failing part may leave the forest torn, but only in what the
    window's entries touch: the forest is written at their nodes and their outpoints only. *)
Inductive worker_step (U : OutPoint -> Prop) : System -> System -> Prop :=
| ws_receive s blocks boundary : worker s = Idle -> command s = Some (blocks, boundary) ->
    check_batch (shared s) blocks = Ok tt ->
    worker_step U s (with_channels s (Running all_stages blocks boundary) None (completion s))
| ws_reject s blocks boundary e : worker s = Idle -> command s = Some (blocks, boundary) ->
    check_batch (shared s) blocks = Err e ->
    worker_step U s (with_error (with_channels s Idle None (completion s)) e)
| ws_stage s env stage stages blocks boundary ps : worker s = Running (stage :: stages) blocks boundary ->
    run_stage env blocks boundary stage (shared s) = (ps, Ok tt) ->
    worker_step U s (with_stage s ps (Running stages blocks boundary))
| ws_fail s env stage stages blocks boundary ps e : worker s = Running (stage :: stages) blocks boundary ->
    run_stage env blocks boundary stage (shared s) = (ps, Err e) -> stage <> StApply ->
    worker_step U s (with_error (with_shared s ps (appended s)) e)
| ws_torn s stages blocks boundary f e : worker s = Running (StApply :: stages) blocks boundary ->
    ss_rows f = ss_rows (ps_forest (shared s)) ->
    (forall a, Replay.Replay.refines U (ps_forest (shared s)) a ->
       exists d, Replay.Replay.refines U f d /\
         Replay.Replay.agree (Replay.Replay.touched (ss_rows f) ((fun e => (Forward, e)) <$> (pb_entry <$> blocks)))
           (Replay.Replay.touched_outpoint ((fun e => (Forward, e)) <$> (pb_entry <$> blocks))) d a) ->
    worker_step U s (with_error (with_shared s
      (with_forest (with_unflushed (shared s) (ps_unflushed (shared s) ++ (pb_entry <$> blocks))) f) (appended s)) e)
| ws_done s blocks boundary : worker s = Running [] blocks boundary -> completion s = None ->
    worker_step U s (with_report s (length blocks))
| ws_stop s env e ps : worker s = Failing e -> completion s = None ->
    finish_failed env (shared s) = (ps, Ok tt) ->
    worker_step U s (with_channels (with_shared s ps (appended s)) Stopped (command s) (Some (Err e))).

(** The journalled entries that are left when a barrier has dropped records from the
    journal's tail. *)
Definition kept (s : System) (ps : PersistenceState) : list JournalEntryData :=
  take (length (appended s) - (length (records (ps_journal (shared s))) - length (records (ps_journal ps)))) (appended s).

(** Steps of the producer thread, in the middle of a call. *)
Inductive producer_step {A} : System * Prog A -> System * Prog A -> Prop :=
| pr_local s f k : producer_step (s, Local f k) (with_producer s (f (producer s)), k (producer s))
| pr_append s io block k j r :
    append_block io (pb_entry block) (pb_header block) (pb_proof block) (pb_proof_forest_rows block)
      (ps_journal (shared s)) = (j, r) ->
    producer_step (s, Append block k)
      (with_shared s (with_journal (shared s) j) (if is_ok r then appended s ++ [pb_entry block] else appended s), k r)
| pr_check s k : producer_step (s, CheckWorker k) (s, k (check s))
| pr_received s r k : completion s = Some r ->
    producer_step (s, TryRecv k) (with_channels s (worker s) (command s) None, k (Received r))
| pr_empty s k : completion s = None -> worker s <> Stopped -> producer_step (s, TryRecv k) (s, k Empty)
| pr_disconnected s k : completion s = None -> worker s = Stopped -> producer_step (s, TryRecv k) (s, k Disconnected)
| pr_recv s r k : completion s = Some r ->
    producer_step (s, Recv k) (with_channels s (worker s) (command s) None, k (Ok r))
| pr_recv_stopped s k : completion s = None -> worker s = Stopped ->
    producer_step (s, Recv k) (s, k (Err "persistence worker stopped with outstanding blocks"))
| pr_send s blocks boundary k : worker s <> Stopped -> command s = None ->
    producer_step (s, Send blocks boundary k)
      (with_channels s (worker s) (Some (blocks, boundary)) (completion s), k (Ok tt))
| pr_send_stopped s blocks boundary k : worker s = Stopped ->
    producer_step (s, Send blocks boundary k) (s, k (Err worker_stopped))
| pr_barrier s env kernel operation k ps tip : worker s = Idle -> command s = None ->
    barrier env kernel operation (shared s) = (ps, Ok tip) ->
    producer_step (s, Barrier operation k)
      (with_channels (with_shared s ps (kept s ps)) (if is_clean_shutdown operation then Stopped else Idle)
         (command s) (completion s), k (Ok tip))
| pr_barrier_failed s env env' kernel operation k ps ps' e : worker s = Idle -> command s = None ->
    barrier env kernel operation (shared s) = (ps, Err e) -> finish_failed env' ps = (ps', Ok tt) ->
    producer_step (s, Barrier operation k)
      (with_channels (with_error (with_shared s ps' (kept s ps')) e) Stopped None (completion s), k (Err e))
| pr_barrier_stopped s operation k : worker s = Stopped ->
    producer_step (s, Barrier operation k) (s, k (Err worker_stopped)).

End Pipeline.
End Pipeline.
