(* ===== verification/PipelineForest.v ===== *)
(** The forest under the pipeline of [Pipeline]: what reading through the overlay
    gives while a window is being applied, and what replaying the journal
    recovers from a forest that a crash left behind. *)

From S2P Require Import Prelude Bytes Files Positions JournalEntry Forest SteadyState Accumulator PlanUpdate LeafMap Replay Udata JournalFile.
Import Files.Files JournalEntry.JournalEntry Forest.Forest SteadyState.SteadyState Accumulator.Accumulator PlanUpdate.PlanUpdate Replay.Replay JournalFile.JournalFile.

Module PipelineForest.

(** Entries as records that move forward. *)
Definition fwd (l : list JournalEntryData) : list (JournalStatus * JournalEntryData) := (fun e => (Forward, e)) <$> l.

Lemma fwd_app l1 l2 : fwd (l1 ++ l2) = fwd l1 ++ fwd l2.
Proof. apply fmap_app. Qed.

Section Forest.
Context `{NodeHashing} `{Sha256} `{LeafMapDb} `{!LeafMapLaws}.
Context (U : OutPoint -> Prop).
Context (Hinj : forall o o', U o -> U o' -> leaf_map_key o = leaf_map_key o' -> o = o').
Context (rows : Z) (a0 : AbsForest).

(** The logical forest after a list of blocks. *)
Definition after_blocks (l : list JournalEntryData) : AbsForest := apply_all rows a0 l.

(** [d] and [a] agree outside what the entries [l] touch. *)
Definition agree_but (l : list JournalEntryData) (d a : AbsForest) : Prop :=
  agree (touched rows (fwd l)) (touched_outpoint (fwd l)) d a.

#[export] Instance agree_but_proper l : Proper ((≡) ==> (≡) ==> (↔)) (agree_but l).
Proof.
  assert (forall d d' a a', d ≡ d' -> a ≡ a' -> agree_but l d a -> agree_but l d' a') as Hi.
  { intros d d' a a' (Hd & Hdi & _) (Ha & Hai & _) [Hn Hx]. split.
    - intros p Hp. rewrite <- Hd, <- Ha. by apply Hn.
    - intros o Ho. rewrite <- Hdi, <- Hai. by apply Hx. }
  intros d d' Hd a a' Ha. split; apply Hi; done || by symmetry.
Qed.

Lemma agree_but_refl l d : agree_but l d d.
Proof. by split. Qed.

Lemma agree_but_equiv l d a : d ≡ a -> agree_but l d a.
Proof. intros ->. apply agree_but_refl. Qed.

Lemma agree_but_sub l l' d a : l ⊆ l' -> agree_but l d a -> agree_but l' d a.
Proof.
  intros Hs [Hn Hi]. split; intros x Hx; [apply Hn|apply Hi]; intros (r & Hr & Ht); apply Hx; exists r; (split; [|done]);
    unfold fwd in *; apply list_elem_of_fmap in Hr as (e & -> & He); apply list_elem_of_fmap; exists e; (split; [done|by apply Hs]).
Qed.

Lemma agree_but_trans l d b a : agree_but l d b -> agree_but l b a -> agree_but l d a.
Proof.
  intros [Hn Hi] [Hn' Hi']. split; intros x Hx; [by rewrite Hn, Hn'|by rewrite Hi, Hi'].
Qed.

Lemma after_fwd a l : after_records rows a (fwd l) = apply_all rows a l.
Proof. unfold after_records, apply_all, fwd. revert a; induction l as [|e l IH]; intros a; [done|]. apply IH. Qed.

Lemma after_blocks_app l1 l2 : after_blocks (l1 ++ l2) = apply_all rows (after_blocks l1) l2.
Proof. apply foldl_app. Qed.

Lemma apply_all_proper l : Proper ((≡) ==> (≡)) (fun a => apply_all rows a l).
Proof. intros a b Hab. rewrite <- !after_fwd. by apply after_records_proper. Qed.

Lemma apply_all_agree l a : agree_but l (apply_all rows a l) a.
Proof. unfold agree_but. rewrite <- after_fwd. apply after_records_agree. Qed.

Lemma records_chain_app a l1 l2 : chain U rows a (l1 ++ l2) <-> chain U rows a l1 /\ chain U rows (after_records rows a l1) l2.
Proof.
  revert a; induction l1 as [|r l1 IH]; intros a; cbn; [tauto|]. rewrite IH. tauto.
Qed.

(** Blocks that are appended one after the other extend a history. *)
Lemma history_extend a l new : history U rows a l -> chain U rows (after_records rows a l) (fwd new) -> history U rows a (l ++ fwd new).
Proof.
  revert l; induction new as [|e new IH]; intros l Hl Hc; [by rewrite app_nil_r|].
  change (fwd (e :: new)) with ([(Forward, e)] ++ fwd new). rewrite app_assoc. destruct Hc as (He & Hp & Hc).
  apply IH; [by apply hi_append|]. by rewrite after_records_app.
Qed.

(** Dropping the records before a forward one, which is what pruning does, leaves a history. *)
Lemma history_prune a l1 e l2 : history U rows a (l1 ++ (Forward, e) :: l2) ->
  history U rows (after_records rows a l1) ((Forward, e) :: l2).
Proof.
  intros Hh. remember (l1 ++ (Forward, e) :: l2) as l eqn:El. revert l1 e l2 El.
  induction Hh as [|records e' Hh IH He Hp|m1 e' m2 Hh IH Hm2]; intros l1 e l2 El; [by destruct l1| |].
  - destruct l2 as [|r l2 _] using rev_ind.
    + apply app_inj_tail in El as [-> [= ->]]. by apply (hi_append U rows _ []); [constructor| |].
    + rewrite app_comm_cons, app_assoc in El. apply app_inj_tail in El as [-> <-].
      rewrite app_comm_cons. apply hi_append; [by apply IH|done|]. by rewrite after_records_app in Hp.
  - assert (exists k, m1 = l1 ++ (Forward, e) :: k /\ l2 = k ++ (RolledBack, e') :: m2) as (k & -> & ->).
    { apply app_eq_inv in El as [(k & -> & Ek)|(k & -> & Ek)].
      - destruct k as [|r k]; [done|]. injection Ek as <- ->. by exists k.
      - exfalso. destruct k as [|r k]; [done|]. injection Ek as <- ->. apply Forall_app in Hm2 as [_ Hm2].
        by apply Forall_cons in Hm2 as [? _]. }
    specialize (IH l1 e (k ++ (Forward, e') :: m2)). rewrite <- app_assoc in IH. specialize (IH eq_refl).
    rewrite app_comm_cons in IH |- *. by apply hi_rollback.
Qed.

Lemma planned_from_proper e a b : a ≡ b -> planned_from rows a e -> planned_from rows b e.
Proof.
  intros (Hn & Hi & Hl) [Pb Px Pl]. split; [|by rewrite <- Hi|congruence].
  intros d Hd. rewrite <- Hn. by apply Pb.
Qed.

Lemma chain_proper l a b : a ≡ b -> chain U rows a l -> chain U rows b l.
Proof.
  revert a b; induction l as [|r l IH]; intros a b Hab; [done|]. intros (He & Hp & Hc). split_and!; [done|by eapply planned_from_proper|].
  eapply IH; [|exact Hc]. unfold step_record. case_bool_decide; [by apply abs_forward_proper|done].
Qed.

(** ** Reading through the overlay while a window is applied *)

Lemma touches_window e p : 0 <= rows <= 62 -> window_entry U rows e ->
  touches rows e p <-> p ∈ (forest_writes e).*1.
Proof. intros Hr He. unfold touches. by rewrite (window_placed U) by done. Qed.

Lemma touched_concat_writes l p : 0 <= rows <= 62 -> Forall (window_entry U rows) l ->
  touched rows (fwd l) p <-> last_write p (concat (forest_writes <$> l)) <> None.
Proof.
  intros Hr Hl. rewrite Forall_forall in Hl. rewrite last_write_None. split.
  - intros (r & Hin & Ht) Hno. unfold fwd in Hin. apply list_elem_of_fmap in Hin as (e & -> & He). cbn in Ht.
    rewrite touches_window in Ht by auto. apply Hno. apply list_elem_of_fmap in Ht as (w & -> & Hw).
    apply list_elem_of_fmap. exists w. split; [done|]. apply list_elem_of_In, in_concat. exists (forest_writes e).
    rewrite <- !list_elem_of_In. split; [apply list_elem_of_fmap; by exists e|done].
  - intros Hno. apply dec_stable in Hno. apply list_elem_of_fmap in Hno as (w & -> & Hw).
    apply list_elem_of_In, in_concat in Hw as (ws & Hws & Hw). rewrite <- !list_elem_of_In in *.
    apply list_elem_of_fmap in Hws as (e & -> & He). exists (Forward, e). split; [apply list_elem_of_fmap; by exists e|]. cbn.
    rewrite touches_window by auto. apply list_elem_of_fmap. by exists w.
Qed.

(** Nodes: the overlay covers everything the window in flight may have changed. *)
Lemma overlay_read_torn f d a sub rest p : refines U f d -> ss_rows f = rows -> agree_but sub d a ->
  Forall (window_entry U rows) (sub ++ rest) -> is_pos rows p ->
  read_with_overlay (ss_forest f) (ov_nodes (push_all (sub ++ rest))) p
    = ready_state (ab_node (apply_all rows a (sub ++ rest)) p).
Proof.
  intros Hr Er Ha Hw Hp. pose proof (rf_layout _ _ _ Hr) as [Hrows _]. rewrite Er in Hrows.
  rewrite (overlay_read U f d (sub ++ rest)) by (rewrite ?Er; done). rewrite Er. f_equal.
  rewrite !(apply_all_nodes U) by done. unfold overwrite.
  destruct (last_write p (concat (forest_writes <$> (sub ++ rest)))) eqn:E; [done|].
  apply Ha. rewrite touched_concat_writes by (apply Forall_app in Hw as [Hw _]; done). intros Hno. apply Hno.
  rewrite fmap_app, concat_app, last_write_app in E. by destruct (last_write p (concat (forest_writes <$> rest))).
Qed.

Lemma touched_positions l o : touched_outpoint (fwd l) o -> is_Some (last_write o (concat (position_writes <$> l))).
Proof.
  intros (r & Hin & Ht). destruct (last_write o _) eqn:E; [done|]. exfalso. apply last_write_None in E. apply E.
  apply list_elem_of_fmap in Hin as (e & -> & He).
  assert (o ∈ (position_writes e).*1) as Hw.
  { unfold position_writes. rewrite fmap_app, <- !list_fmap_compose. unfold touches_outpoint in Ht.
    cbn in Ht. by rewrite fmap_app in Ht. }
  apply list_elem_of_fmap in Hw as (w & -> & Hw). apply list_elem_of_fmap. exists w. split; [done|].
  apply list_elem_of_In, in_concat. exists (position_writes e). rewrite <- !list_elem_of_In.
  split; [apply list_elem_of_fmap; by exists e|done].
Qed.

(** Outpoints, the same. *)
Lemma overlay_position_torn d a sub rest o : agree_but sub d a ->
  match ov_positions (push_all (sub ++ rest)) !! o with Some (_, p) => p | None => ab_index d !! o end
    = ab_index (apply_all rows a (sub ++ rest)) !! o.
Proof.
  intros [_ Hi]. rewrite <- (overlay_position rows a (sub ++ rest) o).
  destruct (ov_positions (push_all (sub ++ rest)) !! o) as [[h p]|] eqn:E; [done|]. apply Hi. intros Ht.
  destruct (push_all_spec (sub ++ rest)) as (_ & _ & Ep). rewrite Ep, write_all_lookup, lookup_empty in E.
  apply touched_positions in Ht as [x Hx]. rewrite fmap_app, concat_app, last_write_app, Hx in E.
  by destruct (last_write o (concat (position_writes <$> rest))).
Qed.

(** ** Replaying over what a crash left *)

(** The retained records [l] describe the forest after [h ++ rest], and [d] has all of [h]. *)
Definition covers (d : AbsForest) (l : list (JournalStatus * JournalEntryData)) (h rest : list JournalEntryData) : Prop :=
  exists a l1, l = l1 ++ fwd rest /\ history U rows a l /\ after_records rows a l1 ≡ after_blocks h /\
    agree_but rest d (after_blocks h) /\ (rest = [] -> ab_leaves d = ab_leaves (after_blocks h)).

Lemma covers_agree d d' dirty l h rest : covers d l h rest -> agree_but dirty d' d -> dirty ⊆ rest ->
  (dirty = [] -> ab_leaves d' = ab_leaves d) -> covers d' l h rest.
Proof.
  intros (a & l1 & -> & Hc & Ha & Hd & Hl) Hd' Hs Hl'. exists a, l1. split_and!; [done..| |].
  - eapply agree_but_trans; [by eapply agree_but_sub|done].
  - intros ->. rewrite Hl'; [by apply Hl|]. by apply list_nil_subseteq.
Qed.

(** The window is in the forest. *)
Lemma covers_applied d d' l h rest : covers d l h rest -> d' ≡ after_blocks (h ++ rest) -> covers d' l (h ++ rest) [].
Proof.
  intros (a & l1 & -> & Hc & Ha & _) Hd. exists a, (l1 ++ fwd rest). cbn. rewrite app_nil_r. split_and!; [done..| | |].
  - rewrite after_records_app, after_fwd, after_blocks_app. by apply apply_all_proper.
  - by apply agree_but_equiv.
  - intros _. apply Hd.
Qed.

(** The window is published. *)
Lemma covers_publish d l h new : covers d l h [] -> chain U rows (after_blocks h) (fwd new) -> d ≡ after_blocks h ->
  covers d (l ++ fwd new) h new.
Proof.
  intros (a & l1 & -> & Hc & Ha & _) Hnew Hd. cbn in *. rewrite app_nil_r in *. exists a, l1. split_and!; [done| |done|by apply agree_but_equiv|].
  - apply history_extend; [done|]. by eapply chain_proper.
  - intros ->. apply Hd.
Qed.

(** The window is being applied. *)
Lemma covers_dirty d d' l h rest : covers d l h rest -> agree_but rest d' (after_blocks h) ->
  (rest = [] -> ab_leaves d' = ab_leaves (after_blocks h)) -> covers d' l h rest.
Proof. intros (a & l1 & -> & Hc & Ha & _) Hd Hl. by exists a, l1. Qed.

(** Older records are pruned. *)
Lemma covers_prune d l1 l2 h : covers d (l1 ++ l2) h [] -> l1 = [] \/ (exists e l, l2 = (Forward, e) :: l) -> covers d l2 h [].
Proof.
  intros (a & l & E & Hc & Ha & Hd) [->|(e & l3 & ->)]; cbn in E; rewrite app_nil_r in E; subst l.
  { exists a, l2. cbn. by rewrite app_nil_r. }
  rewrite after_records_app in Ha. exists (after_records rows a l1), ((Forward, e) :: l3). cbn [fwd fmap list_fmap app]. rewrite app_nil_r.
  split_and!; [done|by apply history_prune|done|apply Hd|apply Hd].
Qed.

Lemma covers_recovers f d l h rest : refines U f d -> ss_rows f = rows -> covers d l h rest ->
  exists f', replay_journal f true l = Ok (true, f') /\ ss_rows f' = rows /\ refines U f' (after_blocks (h ++ rest)).
Proof.
  intros Hr Er (a & l1 & -> & Hc & Ha & [Hn Hi] & Hl). rewrite <- Er in Hc.
  destruct (replay_spec U Hinj f d a (l1 ++ fwd rest) Hr Hc) as (f' & E & Er' & Hr').
  - rewrite Er. destruct (after_records_agree rows l1 a) as [Hn1 Hi1]. destruct Ha as (Han & Hai & _). split.
    + intros p Hp. rewrite Hn, <- Han; [apply Hn1|]; intros (r & Hin & Ht); apply Hp; exists r; (split; [apply elem_of_app; by (left + right)|done]).
    + intros o Ho. rewrite Hi, <- Hai; [by rewrite Hi1 by (intros (r & Hin & Ht); apply Ho; exists r; (split; [apply elem_of_app; by left|done]))|].
      intros (r & Hin & Ht). apply Ho. exists r. split; [apply elem_of_app; by right|done].
  - intros [-> E]%app_nil. unfold fwd in E. apply fmap_nil_inv in E as ->. rewrite Hl by done. symmetry. apply Ha.
  - exists f'. split_and!; [done|congruence|]. rewrite Er, after_records_app, after_fwd in Hr'.
    rewrite after_blocks_app. eapply refines_proper; [|exact Hr']. symmetry. by apply apply_all_proper.
Qed.
End Forest.
End PipelineForest.
