(* ===== verification/PipelineSafety.v ===== *)
(** The invariant of the pipeline of [Pipeline]: how the worker's phase, the journal, the
    stores and the producer's queues fit together, and that every step of the worker,
    with calls failing anywhere, keeps them so. *)

From S2P Require Import Prelude Bytes Files Positions JournalEntry Forest SteadyState Accumulator PlanUpdate LeafMap Replay Udata JournalFile JournalRecord JournalMarker JournalSafety JournalContract ProofStore HeaderIndex Persistence Pipeline PipelineForest.
Import Files.Files JournalEntry.JournalEntry Forest.Forest SteadyState.SteadyState Replay.Replay JournalFile.JournalFile JournalRecord.JournalRecord JournalSafety.JournalSafety Persistence.Persistence Pipeline.Pipeline PipelineForest.PipelineForest.

Module PipelineSafety.

#[local] Arguments after_blocks : simpl never.
#[local] Arguments apply_all : simpl never.
(** What a crash may lose of the forest. *)
Abbreviation unflushed s := (ps_unflushed (shared s)).

Section Safety.
Context `{NodeHashing} `{Sha256Laws} `{LeafMapDb} `{!LeafMapLaws} `{BitcoinCodec} `{HeaderCodec} `{KvStore} `{HeightsDb}.
Context `{!EqDecision Header} `{!EqDecision Udata.Udata.CompactBlockProof}.
Context (U : OutPoint -> Prop).
Context (Hinj : forall o o', U o -> U o' -> leaf_map_key o = leaf_map_key o' -> o = o').
Context (rows : Z) (a0 : AbsForest).

Abbreviation after := (after_blocks rows a0).
Abbreviation forest_chain := (Replay.Replay.chain U rows).

Definition ents (l : list PersistenceBlock) : list JournalEntryData := pb_entry <$> l.
Definition recs (l : list JournalRecord) : list (JournalStatus * JournalEntryData) :=
  (fun r => (jr_status r, jr_entry r)) <$> l.

Lemma recs_app l1 l2 : recs (l1 ++ l2) = recs l1 ++ recs l2.
Proof. apply fmap_app. Qed.

Lemma ents_app l1 l2 : ents (l1 ++ l2) = ents l1 ++ ents l2.
Proof. apply fmap_app. Qed.

(** ** Where the window in flight is

    [sub] are the blocks that the producer has submitted and not retired, [hist] the
    entries before them, [d] the forest.  The indices say whether the window is
    published, which entries the forest is sure to have, and which are published
    on top of them. *)
Inductive phase (s : System) (sub : list PersistenceBlock) (hist : list JournalEntryData) (d : AbsForest)
  : bool -> list JournalEntryData -> list JournalEntryData -> Prop :=
| ph_idle : sub = [] -> worker s = Idle -> command s = None -> completion s = None -> unflushed s = [] ->
    (reported s <= length hist)%nat -> d ≡ after hist -> phase s sub hist d true hist []
| ph_queued b : sub <> [] -> worker s = Idle -> command s = Some (sub, b) -> completion s = None -> unflushed s = [] ->
    (reported s <= length hist)%nat -> d ≡ after hist -> phase s sub hist d false hist []
| ph_running k b h rest : sub <> [] -> worker s = Running (drop k all_stages) sub b -> (k <= 8)%nat ->
    command s = None -> completion s = None ->
    unflushed s = (if (k =? 4) then ents sub else [])%nat ->
    (reported s <= length hist)%nat ->
    d ≡ after (if (4 <=? k)%nat then hist ++ ents sub else hist) ->
    h = (if (5 <=? k)%nat then hist ++ ents sub else hist) ->
    rest = (if (1 <=? k) && (k <=? 4) then ents sub else [])%nat ->
    phase s sub hist d (1 <=? k)%nat h rest
| ph_done : sub <> [] -> worker s = Idle -> command s = None -> completion s = Some (Ok (length sub)) -> unflushed s = [] ->
    (reported s <= length hist + length sub)%nat -> d ≡ after (hist ++ ents sub) ->
    phase s sub hist d true (hist ++ ents sub) []
| ph_failed pubd h rest : (worker s = Stopped \/ exists e, worker s = Failing e /\ completion s = None) -> command s = None ->
    is_Some (worker_error s) \/ worker s = Stopped -> (completion s = None \/ exists e, completion s = Some (Err e)) -> (unflushed s ⊆ rest /\ (unflushed s <> [] -> is_Some (worker_error s))) ->
    (reported s <= length hist)%nat -> agree_but rows (ents sub) d (after hist) ->
    (sub = [] -> worker s = Stopped) ->
    (pubd = false /\ h = hist /\ rest = []) \/ (pubd = true /\ h = hist /\ rest = ents sub) \/
      (pubd = true /\ h = hist ++ ents sub /\ rest = []) ->
    phase s sub hist d pubd h rest.

(** The boundary that covers the first [n] records of [pend]. *)
Definition bounds (j : Journal) (pend : list JournalRecord) (n : nat) (b : JournalBoundary) : Prop :=
  exists p1 r p2, pend = p1 ++ r :: p2 /\ S (length p1) = n /\ b = record_boundary r (journal_id j) (epoch j).

(** The journal works, and holds the blocks. *)
Record healthy (s : System) (sub win : list PersistenceBlock) (ob : option JournalBoundary) (d : AbsForest) (pubd : bool)
    (h rest : list JournalEntryData) (old pub pend : list JournalRecord) : Prop := {
  hl_inv : inv (ps_journal (shared s)) old pub pend;
  hl_covers : covers U rows a0 d (recs (old ++ pub)) h rest;
  hl_pending : recs pend = fwd ((if pubd then [] else ents sub) ++ ents win);
  hl_chain : forest_chain (after (h ++ rest)) (recs pend);
  hl_submitted : forall b, command s = Some (sub, b) \/ worker s = Running all_stages sub b ->
    bounds (ps_journal (shared s)) pend (length sub) b;
  hl_window : win <> [] -> exists b, ob = Some b /\ bounds (ps_journal (shared s)) pend (length pend) b
}.

(** The journal has failed; what is published is what a restart will find. *)
Definition failed_journal (s : System) (sub : list PersistenceBlock) (hist : list JournalEntryData) (d : AbsForest) : Prop :=
  poisoned (ps_journal (shared s)) = true /\
  recovers (ps_journal (shared s)) (fun l => exists pubd h rest, phase s sub hist d pubd h rest /\ covers U rows a0 d (recs l) h rest).

Definition journal_holds (s : System) (sub win : list PersistenceBlock) (ob : option JournalBoundary)
    (hist : list JournalEntryData) (d : AbsForest) : Prop :=
  (exists pubd h rest old pub pend, phase s sub hist d pubd h rest /\ healthy s sub win ob d pubd h rest old pub pend) \/
  ((exists pubd h rest, phase s sub hist d pubd h rest) /\ failed_journal s sub hist d).

Record Inv (sub win : list PersistenceBlock) (ob : option JournalBoundary) (hist : list JournalEntryData) (d : AbsForest)
    (s : System) : Prop := {
  in_forest : refines U (ps_forest (shared s)) d;
  in_rows : ss_rows (ps_forest (shared s)) = rows;
  in_appended : appended s = hist ++ ents sub ++ ents win;
  in_window : Forall (window_entry U rows) (ents sub ++ ents win);
  in_journal : journal_holds s sub win ob hist d
}.

(** ** Records in a chain *)

Lemma pend_beyond j old pub pend r : inv j old pub pend -> r ∈ pend -> jb_end (boundary (marker j)) < record_end r.
Proof.
  intros [_ _ _ Hc Hd _ _ _] Hr. apply list_elem_of_lookup_1 in Hr as [i Hi].
  destruct (chain_lookup _ _ _ _ _ _ _ Hc Hd Hi) as (Ho & _ & _).
  rewrite Forall_forall in Hd. destruct (on_disk_span _ _ _ (Hd r (list_elem_of_lookup_2 _ _ _ Hi))) as (Hs & _).
  unfold record_end. lia.
Qed.

Lemma split_unique j old pub p1 r p2 q1 r' q2 : inv j old pub (p1 ++ r :: p2) -> p1 ++ r :: p2 = q1 ++ r' :: q2 ->
  record_end r = record_end r' -> p1 = q1 /\ r = r' /\ p2 = q2.
Proof.
  intros [_ _ _ Hc Hd _ _ _] E Hend.
  assert ((p1 ++ r :: p2) !! length p1 = Some r) as L1 by (by rewrite list_lookup_middle).
  assert ((p1 ++ r :: p2) !! length q1 = Some r') as L2 by (rewrite E; by rewrite list_lookup_middle).
  destruct (decide (length q1 = length p1)) as [El|Hne].
  - apply app_inj_1 in E as [-> E]; [|done]. by injection E as -> ->.
  - exfalso. destruct (chain_lookup _ _ _ _ _ _ _ Hc Hd L1) as (_ & _ & Hother).
    rewrite Forall_forall in Hd.
    destruct (on_disk_span _ _ _ (Hd r (list_elem_of_lookup_2 _ _ _ L1))) as (Hs & _).
    destruct (on_disk_span _ _ _ (Hd r' (list_elem_of_lookup_2 _ _ _ L2))) as (Hs' & _).
    destruct (Hother (length q1) r' L2 Hne); unfold record_end in *; lia.
Qed.

(** ** What one part of [persist] changes *)

(** The forest, what is flushed of it, and the journal stay. *)
Definition keeps_core {A} (m : SR PersistenceState A) : Prop := forall s s' r, m s = (s', r) ->
  ps_forest s' = ps_forest s /\ ps_journal s' = ps_journal s /\ ps_unflushed s' = ps_unflushed s.

Lemma keeps_ret {A} (a : A) : keeps_core (mret a).
Proof. intros s s' r [= <- _]. done. Qed.
Lemma keeps_lift {A} (x : result A) : keeps_core (lift x).
Proof. intros s s' r [= <- _]. done. Qed.
Lemma keeps_get : keeps_core get.
Proof. intros s s' r [= <- _]. done. Qed.
Lemma keeps_bind {A B} (m : SR PersistenceState A) (f : A -> SR PersistenceState B) :
  keeps_core m -> (forall a, keeps_core (f a)) -> keeps_core (m ≫= f).
Proof.
  intros Hm Hf s s' r E. apply sr_bind_inv in E as (s1 & r1 & E1 & E). apply Hm in E1 as (F1 & J1 & D1).
  destruct r1 as [a|e]; [|destruct E as [-> _]; done]. apply Hf in E as (-> & -> & ->). done.
Qed.
Lemma keeps_proof_file {A} (m : SR ProofStore.ProofStore.ProofFile A) : keeps_core (on_proof_file m).
Proof. intros s s' r. unfold on_proof_file. destruct (m (proof_file s)). by intros [= <- _]. Qed.
Lemma keeps_proof_index {A} (m : SR ProofStore.ProofStore.BlocksIndex A) : keeps_core (on_proof_index m).
Proof. intros s s' r. unfold on_proof_index. destruct (m (proof_index s)). by intros [= <- _]. Qed.
Lemma keeps_header_index {A} (m : SR HeaderIndex.HeaderIndex.HeaderIndex A) : keeps_core (on_header_index m).
Proof. intros s s' r. unfold on_header_index. destruct (m (header_index s)). by intros [= <- _]. Qed.
Lemma keeps_modify f : (forall s, ps_forest (f s) = ps_forest s /\ ps_journal (f s) = ps_journal s /\ ps_unflushed (f s) = ps_unflushed s) ->
  keeps_core (modify f).
Proof. intros Hf s s' r [= <- _]. apply Hf. Qed.

Hint Resolve keeps_ret keeps_lift keeps_get keeps_bind keeps_proof_file keeps_proof_index keeps_header_index : keeps.

Lemma keeps_store_proofs io n blocks : keeps_core (store_proofs io n blocks).
Proof. revert n; induction blocks as [|b blocks IH]; intros n; cbn [store_proofs]; eauto 12 with keeps. Qed.
Lemma keeps_store_headers io n blocks : keeps_core (store_headers io n blocks).
Proof. revert n; induction blocks as [|b blocks IH]; intros n; cbn [store_headers]; eauto 12 with keeps. Qed.
Hint Resolve keeps_store_proofs keeps_store_headers : keeps.

Lemma keeps_stage env blocks b stage : stage <> StPublish -> stage <> StApply -> stage <> StFlush -> stage <> StPrune ->
  keeps_core (run_stage env blocks b stage).
Proof.
  intros. destruct stage; try done; cbn [run_stage]; eauto 20 with keeps.
  - apply keeps_bind; [auto with keeps|]. intros. apply keeps_bind; [auto with keeps|]. intros. by apply keeps_modify.
  - by apply keeps_modify.
Qed.

(** A flush leaves the forest, and when it succeeds nothing of it is only in memory. *)
Lemma sync_forest_inv io s s' r : sync_forest io s = (s', r) ->
  match r with Ok _ => s' = with_unflushed s [] | Err _ => s' = s end.
Proof.
  unfold sync_forest. destruct (io 0%nat), (io 1%nat); cbn; by intros [= <- <-].
Qed.

Lemma finish_failed_inv env s s' r : finish_failed env s = (s', r) ->
  ps_forest s' = ps_forest s /\ ps_journal s' = ps_journal s /\ (ps_unflushed s' = ps_unflushed s \/ ps_unflushed s' = []).
Proof.
  unfold finish_failed. intros E. apply sr_bind_inv in E as (s1 & r1 & E1 & E). unfold try_ in E1.
  destruct (sync_forest (io env 0%nat) s) as [s0 r0] eqn:E0. injection E1 as <- <-. apply sync_forest_inv in E0.
  apply sr_bind_inv in E as (s2 & r2 & E2 & E). unfold try_ in E2.
  destruct (on_header_index (sync_headers (io env 1%nat)) s0) as [s3 r3] eqn:E3. injection E2 as <- <-. injection E as <- <-.
  apply keeps_header_index in E3 as (-> & -> & ->). destruct r0; subst s0; auto.
Qed.

Lemma finish_failed_ok env s : exists s', finish_failed env s = (s', Ok tt).
Proof.
  unfold finish_failed, try_, mbind, sr_bind. destruct (sync_forest _ s) as [s1 r1]. destruct (on_header_index _ s1) as [s2 r2]. by exists s2.
Qed.

(** An orderly end of the worker seals the databases. *)
Lemma finish_failed_seals env s : (forall n k, io env n k = true) -> ps_unflushed (finish_failed env s).1 = [].
Proof.
  intros Hio. unfold finish_failed, sync_forest, try_, mbind, sr_bind. rewrite !Hio. cbn -[on_header_index sync_headers].
  destruct (on_header_index (sync_headers (io env 1%nat)) (with_unflushed s [])) as [s3 r3] eqn:E3. cbn.
  by apply keeps_header_index in E3 as (_ & _ & ->).
Qed.

Lemma on_journal_inv {A} (m : SR Journal A) s s' r : on_journal m s = (s', r) ->
  exists j, m (ps_journal s) = (j, r) /\ s' = with_journal s j.
Proof. unfold on_journal. destruct (m (ps_journal s)) as [j r']. intros [= <- <-]. by exists j. Qed.

(** A poisoned journal refuses every call of the worker. *)
Lemma poisoned_publish io b j : poisoned j = true -> exists e, publish io b j = (j, Err e).
Proof. intros Hp. unfold publish. erewrite sr_bind_ok by done. rewrite Hp. by eexists. Qed.
Lemma poisoned_prune keep j : poisoned j = true -> exists e, prepare_prune keep j = (j, Err e).
Proof. intros Hp. unfold prepare_prune. erewrite sr_bind_ok by done. rewrite Hp. by eexists. Qed.

(** ** The worker's steps *)

Lemma after_app l1 l2 : after (l1 ++ l2) = apply_all rows (after l1) l2.
Proof. apply after_blocks_app. Qed.

Lemma agree_hist d hist l : d ≡ after hist \/ d ≡ after (hist ++ l) -> agree_but rows l d (after hist).
Proof.
  intros [Hd|Hd]; [by apply agree_but_equiv|]. rewrite Hd, after_app. apply apply_all_agree.
Qed.

(** A step that leaves the journal and the list of blocks, and moves the window on. *)
Lemma transfer sub win ob hist d s d' s' : Inv sub win ob hist d s ->
  ps_journal (shared s') = ps_journal (shared s) -> appended s' = appended s ->
  refines U (ps_forest (shared s')) d' -> ss_rows (ps_forest (shared s')) = rows ->
  (forall b, command s' = Some (sub, b) \/ worker s' = Running all_stages sub b ->
     command s = Some (sub, b) \/ worker s = Running all_stages sub b) ->
  (forall pubd h rest, phase s sub hist d pubd h rest -> exists h' rest', phase s' sub hist d' pubd h' rest' /\
     h' ++ rest' = h ++ rest /\ forall l, covers U rows a0 d l h rest -> covers U rows a0 d' l h' rest') ->
  Inv sub win ob hist d' s'.
Proof.
  intros [Hf Hr Ha Hw Hj] Ej Ea Hf' Hr' Hb Hp. split; [done|done|congruence|done|].
  destruct Hj as [(pubd & h & rest & old & pub & pend & Hph & [])|((pubd & h & rest & Hph) & Hpo & Hrec)].
  - left. destruct (Hp _ _ _ Hph) as (h' & rest' & Hph' & El & Hc). exists pubd, h', rest', old, pub, pend.
    split; [done|]. split; rewrite ?Ej, ?El; auto.
  - right. split; [destruct (Hp _ _ _ Hph) as (h' & rest' & Hph' & _); by exists pubd, h', rest'|].
    split; rewrite Ej; [done|]. eapply recovers_weaken; [|exact Hrec]. intros l (pubd' & h1 & rest1 & Hph1 & Hc1).
    destruct (Hp _ _ _ Hph1) as (h' & rest' & Hph' & _ & Hc). exists pubd', h', rest'. auto.
Qed.

(** No new window is at stake. *)
Ltac same_window := let b := fresh "b" in intros b [?|?]; first [by left|by right|done|congruence].

(** The worker gives up. *)
Lemma phase_fails s sub hist d pubd h rest s' stages blocks b : phase s sub hist d pubd h rest ->
  worker s = Running stages blocks b \/ (worker s = Idle /\ command s = Some (blocks, b)) ->
  (exists e, worker s' = Failing e) -> command s' = None -> completion s' = completion s -> unflushed s' = unflushed s ->
  is_Some (worker_error s') -> reported s' = reported s -> phase s' sub hist d pubd h rest.
Proof.
  intros Hph Hw [e' Hw'] Hc Hr Hd He Hn.
  destruct Hph as [Hs W C R D N Hf|b1 Hs W C R D N Hf|k b1 h rest Hs W Hk C R D N Hf Eh Er|Hs W C R D N Hf|pubd h rest W C E R D N Hf Hs Hl].
  - destruct Hw as [Hw|[_ Hw]]; congruence.
  - apply ph_failed; rewrite ?Hd, ?Hn, ?Hr, ?D; try done; [right; by exists e'|by left|by left| |].
    + apply agree_hist. by left.
    + by left.
  - apply ph_failed; rewrite ?Hd, ?Hn, ?Hr, ?D; try done; [right; by exists e'|by left|by left| | |].
    + subst rest. do 9 (destruct k as [|k]; [set_solver|]). lia.
    + apply agree_hist. destruct (4 <=? k)%nat; [by right|by left].
    + subst. do 9 (destruct k as [|k]; [cbn; auto|]). lia.
  - destruct Hw as [Hw|[_ Hw]]; congruence.
  - exfalso. destruct Hw as [Hw|[_ Hw]]; [|congruence]. destruct W as [|(? & ? & _)]; congruence.
Qed.

Lemma some_phase sub win ob hist d s : Inv sub win ob hist d s -> exists pubd h rest, phase s sub hist d pubd h rest.
Proof. intros [_ _ _ _ [(pubd & h & rest & _ & _ & _ & Hph & _)|(Hph & _)]]; [by exists pubd, h, rest|done]. Qed.

(** The window that a running worker works on. *)
Lemma running_phase s sub hist d pubd h rest stages blocks b : phase s sub hist d pubd h rest ->
  worker s = Running stages blocks b -> exists k, (k <= 8)%nat /\ stages = drop k all_stages /\ blocks = sub /\ sub <> [] /\
    pubd = (1 <=? k)%nat /\ h = (if (5 <=? k)%nat then hist ++ ents sub else hist) /\
    rest = (if (1 <=? k) && (k <=? 4) then ents sub else [])%nat /\
    command s = None /\ completion s = None /\ unflushed s = (if (k =? 4) then ents sub else [])%nat /\
    (reported s <= length hist)%nat /\ d ≡ after (if (4 <=? k)%nat then hist ++ ents sub else hist).
Proof.
  intros Hph Hw.
  destruct Hph as [Hs W C R D N Hf|b1 Hs W C R D N Hf|k b1 h rest Hs W Hk C R D N Hf Eh Er|Hs W C R D N Hf|pubd h rest W C E R D N Hf Hs Hl].
  - congruence.
  - congruence.
  - rewrite W in Hw. injection Hw as <- <- <-. by exists k.
  - congruence.
  - destruct W as [|(? & ? & _)]; congruence.
Qed.

Lemma drop_stages k stage stages : (k <= 8)%nat -> stage :: stages = drop k all_stages -> (k < 8)%nat /\ stages = drop (S k) all_stages.
Proof. intros Hk E. do 9 (destruct k as [|k]; [cbn in E |- *; first [discriminate|injection E as -> ->; split; [lia|done]]|]). lia. Qed.

(** A part of [persist] that succeeds, the publication and the pruning apart. *)
Lemma stage_inv env sub win ob hist d s stage stages blocks b ps : Inv sub win ob hist d s ->
  worker s = Running (stage :: stages) blocks b -> stage <> StPublish -> stage <> StPrune ->
  run_stage env blocks b stage (shared s) = (ps, Ok tt) ->
  exists d', Inv sub win ob hist d' (with_stage s ps (Running stages blocks b)).
Proof.
  intros Hi Hw Hpub Hpru E. destruct (some_phase _ _ _ _ _ _ Hi) as (pubd & h & rest & Hph).
  destruct (running_phase _ _ _ _ _ _ _ _ _ _ Hph Hw) as (k & Hk & Es & -> & Hs & _ & _ & _ & _ & _ & _ & _ & Hd).
  destruct (drop_stages _ _ _ Hk Es) as [Hk' Es'].
  assert (exists d', ps_journal ps = ps_journal (shared s) /\ refines U (ps_forest ps) d' /\ ss_rows (ps_forest ps) = rows /\
    d' ≡ after (if (4 <=? S k)%nat then hist ++ ents sub else hist) /\ (stage <> StApply -> d' = d) /\
    ps_unflushed ps = match stage with StApply => unflushed s ++ ents sub | StFlush => [] | _ => unflushed s end)
    as (d' & Ej & Hf & Hr & Hd' & Hsame & Hun).
  { pose proof (in_forest _ _ _ _ _ _ Hi) as Hf. pose proof (in_rows _ _ _ _ _ _ Hi) as Hr.
    destruct (decide (stage = StApply)) as [->|Hne].
    - assert (k = 3)%nat as ->.
      { do 8 (destruct k as [|k]; [cbn in Es; first [discriminate|reflexivity]|]). lia. }
      cbn in Hd. pose proof (in_window _ _ _ _ _ _ Hi) as Hwin. apply Forall_app in Hwin as [Hwin _]. rewrite <- Hr in Hwin.
      destruct (apply_forward_batch_refines U Hinj _ _ _ Hf Hwin) as (f & Ef & Erf & Hff).
      cbn [run_stage] in E. unfold on_forest in E. unfold ents in Ef. rewrite Ef in E. cbn in E. injection E as <-.
      exists (apply_all rows d (ents sub)). cbn. rewrite Hr in *. split_and!; [done|done|congruence| |done|done].
      rewrite after_app. by apply apply_all_proper.
    - assert (ps_journal ps = ps_journal (shared s) /\ ps_forest ps = ps_forest (shared s) /\
        ps_unflushed ps = match stage with StApply => unflushed s ++ ents sub | StFlush => [] | _ => unflushed s end) as (-> & -> & ->).
      { destruct (decide (stage = StFlush)) as [->|Hfl]; [by apply sync_forest_inv in E as ->|].
        destruct (keeps_stage _ _ _ _ Hpub Hne Hfl Hpru _ _ _ E) as (-> & -> & ->). by destruct stage. }
      exists d. split_and!; try done.
      do 8 (destruct k as [|k]; [cbn in Es, Hd |- *; first [done|congruence]|]). lia. }
  exists d'. eapply transfer; [exact Hi|done..| | ].
  - intros b1 [Hc|Hrun]; [by left|]. cbn in Hrun. injection Hrun as Hrun _. subst stages.
    apply (f_equal length) in Hrun. rewrite length_drop in Hrun. cbn in Hrun. lia.
  - clear pubd h rest Hph. intros pubd h rest Hph.
    destruct (running_phase _ _ _ _ _ _ _ _ _ _ Hph Hw) as (k1 & Hk1 & Es1 & _ & _ & -> & -> & -> & C & R & D & N & _).
    assert (k1 = k) as ->.
    { rewrite Es in Es1. apply (f_equal length) in Es1. rewrite !length_drop in Es1. cbn in Es1. lia. }
    exists (if (5 <=? S k)%nat then hist ++ ents sub else hist), (if (1 <=? S k) && (S k <=? 4) then ents sub else [])%nat.
    split; [|split].
    + assert ((1 <=? k) = (1 <=? S k))%nat as ->.
      { destruct k; [|done]. cbn in Es. injection Es as -> _. done. }
      eapply ph_running with (k := S k); try done; [by rewrite <- Es'|].
      cbn [shared with_stage]. rewrite Hun, D.
      do 8 (destruct k as [|k]; [cbn in Es; injection Es as -> _; first [done|reflexivity]|]). lia.
    + do 8 (destruct k as [|k]; [cbn in Es |- *; first [by injection Es as ?; subst|by rewrite ?app_nil_r|done]|]). lia.
    + intros l Hc. destruct (decide (stage = StApply)) as [->|Hne].
      * assert (k = 3)%nat as ->.
        { do 8 (destruct k as [|k]; [cbn in Es; first [discriminate|reflexivity]|]). lia. }
        cbn in Hc |- *. eapply covers_dirty; [exact Hc| |].
        -- apply agree_hist. by right.
        -- intros El. by apply fmap_nil_inv in El.
      * rewrite (Hsame Hne) in *. do 8 (destruct k as [|k]; [cbn in Es, Hc, Hd |- *; first [exact Hc|by eapply covers_applied|congruence]|]). lia.
Qed.

(** A failed part leaves the journal and the forest as they are, or is handled below. *)
Lemma fail_same sub win ob hist d s ps e stages blocks b : Inv sub win ob hist d s ->
  worker s = Running stages blocks b -> ps_forest ps = ps_forest (shared s) -> ps_journal ps = ps_journal (shared s) ->
  ps_unflushed ps = unflushed s ->
  Inv sub win ob hist d (with_error (with_shared s ps (appended s)) e).
Proof.
  intros Hi Hw Ef Ej Eu. destruct (some_phase _ _ _ _ _ _ Hi) as (pubd & h & rest & Hph).
  destruct (running_phase _ _ _ _ _ _ _ _ _ _ Hph Hw) as (_ & _ & _ & _ & _ & _ & _ & _ & C & _).
  eapply transfer; [exact Hi|done|done|cbn; rewrite Ef; apply Hi|cbn; rewrite Ef; apply Hi|same_window|].
  clear pubd h rest Hph. intros pubd h rest Hph. exists h, rest. split_and!; [|done|done].
  eapply phase_fails; [exact Hph|by left|by eexists|..]; done.
Qed.

(** The forest update fails half way. *)
Lemma torn_inv sub win ob hist d s stages blocks b f e d' : Inv sub win ob hist d s ->
  worker s = Running (StApply :: stages) blocks b -> ss_rows f = ss_rows (ps_forest (shared s)) -> refines U f d' ->
  agree_but rows (ents blocks) d' d ->
  Inv sub win ob hist d' (with_error (with_shared s (with_forest (with_unflushed (shared s) (unflushed s ++ ents blocks)) f) (appended s)) e).
Proof.
  intros Hi Hw Er Hf Ha. destruct (some_phase _ _ _ _ _ _ Hi) as (pubd & h & rest & Hph).
  destruct (running_phase _ _ _ _ _ _ _ _ _ _ Hph Hw) as (k & Hk & Es & -> & Hs & _ & _ & _ & C & _ & D & N & Hd).
  assert (k = 3)%nat as -> by (do 9 (destruct k as [|k]; [cbn in Es; first [discriminate|reflexivity]|]); lia).
  cbn in Hd, D. assert (agree_but rows (ents sub) d' (after hist)) as Ha' by (rewrite <- Hd; exact Ha).
  pose proof (in_rows _ _ _ _ _ _ Hi) as Hr.
  eapply transfer; [exact Hi|done|done|done|cbn; congruence|same_window|].
  clear pubd h rest Hph. intros pubd h rest Hph.
  destruct (running_phase _ _ _ _ _ _ _ _ _ _ Hph Hw) as (k & Hk' & Es' & _ & _ & -> & -> & -> & _ & R & _).
  assert (k = 3)%nat as -> by (do 9 (destruct k as [|k]; [cbn in Es'; first [discriminate|reflexivity]|]); lia).
  cbn. exists hist, (ents sub). split_and!; [|done|].
  - apply ph_failed; cbn; rewrite ?D; try done; [right; by exists e|left; by eexists|by left|]. right; by left.
  - intros l Hc. eapply covers_dirty; [exact Hc|done|]. intros El. by apply fmap_nil_inv in El.
Qed.

Lemma receive_inv sub win ob hist d s blocks b : Inv sub win ob hist d s -> worker s = Idle -> command s = Some (blocks, b) ->
  Inv sub win ob hist d (with_channels s (Running all_stages blocks b) None (completion s)).
Proof.
  intros Hi Hw Hc. destruct (some_phase _ _ _ _ _ _ Hi) as (pubd & h & rest & Hph).
  assert (blocks = sub) as ->.
  { destruct Hph as [Hs W C R D N Hf|b1 Hs W C R D N Hf|k b1 h rest Hs W Hk C R D N Hf Eh Er|Hs W C R D N Hf|pubd h rest W C E R D N Hf Hs Hl]; congruence. }
  eapply transfer; [exact Hi|done|done|apply Hi|apply Hi| |].
  - intros b1 [?|E1]; [done|]. injection E1 as <-. by left.
  - clear pubd h rest Hph. intros pubd h rest Hph.
    destruct Hph as [Hs W C R D N Hf|b1 Hs W C R D N Hf|k b1 h rest Hs W Hk C R D N Hf Eh Er|Hs W C R D N Hf|pubd h rest W C E R D N Hf Hs Hl]; try congruence.
    exists hist, []. split_and!; [|done|done].
    apply (ph_running _ _ _ _ 0 b); done || lia.
Qed.

Lemma reject_inv sub win ob hist d s blocks b e : Inv sub win ob hist d s -> worker s = Idle -> command s = Some (blocks, b) ->
  Inv sub win ob hist d (with_error (with_channels s Idle None (completion s)) e).
Proof.
  intros Hi Hw Hc. eapply transfer; [exact Hi|done|done|apply Hi|apply Hi|same_window|].
  intros pubd h rest Hph. exists h, rest. split_and!; [|done|done].
  eapply (phase_fails _ _ _ _ _ _ _ _ [] blocks b); [exact Hph|by right|by eexists|..]; done.
Qed.

Lemma done_inv sub win ob hist d s blocks b : Inv sub win ob hist d s -> worker s = Running [] blocks b ->
  Inv sub win ob hist d (with_report s (length blocks)).
Proof.
  intros Hi Hw. eapply transfer; [exact Hi|done|done|apply Hi|apply Hi| |].
  - same_window.
  - intros pubd h rest Hph.
    destruct (running_phase _ _ _ _ _ _ _ _ _ _ Hph Hw) as (k & Hk & Es & -> & Hs & -> & -> & -> & C & R & D & N & Hd).
    assert (k = 8)%nat as -> by (do 9 (destruct k as [|k]; [cbn in Es; first [discriminate|reflexivity]|]); lia).
    cbn in Hd, D |- *. exists (hist ++ ents sub), []. split_and!; [|done|done].
    apply ph_done; cbn; try done. lia.
Qed.

Lemma stop_inv sub win ob hist d s env e ps r : Inv sub win ob hist d s -> worker s = Failing e ->
  finish_failed env (shared s) = (ps, r) ->
  Inv sub win ob hist d (with_channels (with_shared s ps (appended s)) Stopped (command s) (Some (Err e))).
Proof.
  intros Hi Hw (Ef & Ej & Eu)%finish_failed_inv.
  eapply transfer; [exact Hi|done|done|cbn; rewrite Ef; apply Hi|cbn; rewrite Ef; apply Hi|same_window|].
  intros pubd h rest Hph.
  destruct Hph as [Hs W C R D N Hf|b1 Hs W C R D N Hf|k b1 h rest Hs W Hk C R D N Hf Eh Er|Hs W C R D N Hf|pubd h rest W C E R D N Hf Hs Hl]; try congruence.
  exists h, rest. split_and!; [|done|done]. apply ph_failed; try done; [by left|by right|right; by exists e|].
  cbn. destruct Eu as [-> | ->]; [done|]. split; [set_solver|done].
Qed.

(** *** Publication *)

Lemma recs_length l l' : recs l = fwd l' -> length l = length l'.
Proof. intros E. apply (f_equal length) in E. unfold recs, fwd in E. by rewrite !length_fmap in E. Qed.

Lemma recs_split p1 r p2 l1 l2 : recs (p1 ++ r :: p2) = fwd (l1 ++ l2) -> S (length p1) = length l1 ->
  recs (p1 ++ [r]) = fwd l1 /\ recs p2 = fwd l2.
Proof.
  rewrite cons_middle, app_assoc, recs_app, fwd_app. intros E Hl. apply app_inj_1 in E; [done|].
  unfold recs, fwd. rewrite !length_fmap, length_app. cbn. lia.
Qed.

Lemma bounds_captured j old pub pend n b : inv j old pub pend -> bounds j pend n b -> captured j pend b.
Proof.
  intros Hi (p1 & r & p2 & -> & _ & ->). split; [done|]. intros _ _. exists r. split; [apply elem_of_app; right; by left|done].
Qed.

(** Records after the published ones keep their boundary. *)
Lemma bounds_rest j j' p1 r p2 b : p2 <> [] -> journal_id j' = journal_id j -> epoch j' = epoch j ->
  bounds j (p1 ++ r :: p2) (length (p1 ++ r :: p2)) b -> bounds j' p2 (length p2) b.
Proof.
  intros Hne Hid Hep (q1 & r2 & q2 & E & Hl & ->). destruct p2 as [|x p2 _] using rev_ind; [done|].
  assert (q2 = []) as ->.
  { apply (f_equal length) in E. repeat first [rewrite length_app in E|rewrite length_app in Hl|progress cbn [length] in E|progress cbn [length] in Hl].
    destruct q2; [done|cbn in E; lia]. }
  exists p2, x, []. split_and!; [done|rewrite length_app; cbn; lia|]. rewrite app_comm_cons, app_assoc in E. apply app_inj_tail in E as [_ ->].
  by rewrite Hid, Hep.
Qed.

Lemma publish_stage env sub win ob hist d s stages blocks b ps r : Inv sub win ob hist d s ->
  worker s = Running (StPublish :: stages) blocks b -> run_stage env blocks b StPublish (shared s) = (ps, r) ->
  match r with
  | Ok _ => Inv sub win ob hist d (with_stage s ps (Running stages blocks b))
  | Err e => Inv sub win ob hist d (with_error (with_shared s ps (appended s)) e)
  end.
Proof.
  intros Hi Hw E. cbn [run_stage] in E. apply on_journal_inv in E as (j & Ej & ->).
  destruct (some_phase _ _ _ _ _ _ Hi) as (pubd & h & rest & Hph).
  destruct (running_phase _ _ _ _ _ _ _ _ _ _ Hph Hw) as (k & Hk & Es & -> & Hs & _ & _ & _ & C & R & D & N & Hd).
  assert (k = 0)%nat as -> by (do 9 (destruct k as [|k]; [cbn in Es; first [discriminate|reflexivity]|]); lia).
  cbn in Es, Hd, D. injection Es as ->. clear pubd h rest Hph Hk.
  assert (j = ps_journal (shared s) -> forall e, Inv sub win ob hist d (with_error (with_shared s (with_journal (shared s) j) (appended s)) e)) as Hsame.
  { intros -> e. by eapply fail_same. }
  destruct Hi as [Hf Hr Ha Hwin [(pubd & h & rest & old & pub & pend & Hph & Hh)|(_ & Hpo & _)]].
  2: { destruct (poisoned_publish (io env 0%nat) b _ Hpo) as (e & Ep). rewrite Ep in Ej. injection Ej as <- <-. by apply Hsame. }
  destruct (running_phase _ _ _ _ _ _ _ _ _ _ Hph Hw) as (k & Hk & Es & _ & _ & -> & -> & -> & _).
  assert (k = 0)%nat as -> by (do 9 (destruct k as [|k]; [cbn in Es; first [discriminate|reflexivity]|]); lia).
  cbn in Hh. clear Es Hph. destruct Hh as [Hinv Hcov Hpend Hch Hsub Hw']. rewrite app_nil_r in Hch.
  destruct (Hsub b (or_intror Hw)) as (p1 & r0 & p2 & -> & Hl & Eb).
  assert (S (length p1) = length (ents sub)) as Hl' by (unfold ents; by rewrite length_fmap).
  destruct (recs_split _ _ _ _ _ Hpend Hl') as [Ep1 Ep2].
  assert (captured (ps_journal (shared s)) (p1 ++ r0 :: p2) b) as Hcap.
  { eapply bounds_captured; [exact Hinv|]. by exists p1, r0, p2. }
  assert (forest_chain (after hist) (fwd (ents sub)) /\ forest_chain (after (hist ++ ents sub)) (recs p2)) as [Hc1 Hc2].
  { rewrite cons_middle, app_assoc, recs_app, Ep1 in Hch.
    apply records_chain_app in Hch as [Hc1 Hc2]. rewrite after_fwd in Hc2. by rewrite after_app. }
  assert (covers U rows a0 d (recs (old ++ pub ++ p1 ++ [r0])) hist (ents sub)) as Hcov'.
  { rewrite (app_assoc old), recs_app, Ep1. by apply covers_publish. }
  destruct (publish_inv _ _ _ _ _ _ _ _ Hinv Hcap Ej) as [(e & -> & ->)|[(-> & -> & Eend)|(p1' & r' & p2' & Ep & Eb' & Hcase)]].
  - by apply Hsame.
  - exfalso. pose proof (pend_beyond _ _ _ _ r0 Hinv ltac:(apply elem_of_app; right; by left)) as Hlt.
    rewrite Eb in Eend. cbn in Eend. lia.
  - rewrite Eb in Eb'. assert (record_end r0 = record_end r') as Ere by exact (f_equal jb_end Eb').
    destruct (split_unique _ _ _ _ _ _ _ _ _ Hinv Ep Ere) as (<- & <- & <-).
    destruct Hcase as [(-> & Hinv' & Hep & Hid & _)|(e & -> & Hpo & Hrec)].
    + split; [done|done|done|done|]. left. exists true, hist, (ents sub), old, (pub ++ p1 ++ [r0]), p2. split.
      * by apply (ph_running _ _ _ _ 1 b); try (done || lia).
      * split; cbn; try done.
        -- same_window.
        -- intros Hne. destruct (Hw' Hne) as (b' & -> & Hb'). exists b'. split; [done|].
           eapply bounds_rest; [|done..|exact Hb']. intros ->. cbn in Ep2. symmetry in Ep2. unfold fwd, ents in Ep2. by apply fmap_nil_inv, fmap_nil_inv in Ep2.
    + assert (forall pubd rest, (pubd = false /\ rest = []) \/ (pubd = true /\ rest = ents sub) ->
        phase (with_error (with_shared s (with_journal (shared s) j) (appended s)) e) sub hist d pubd hist rest) as Hph.
      { intros pubd rest Hrest. apply ph_failed; cbn; rewrite ?D; try done; [right; by exists e|left; by eexists|by left|by split; [set_solver|by eexists]| |naive_solver].
        apply agree_hist. by left. }
      split; [done|done|done|done|]. right. split; [exists false, hist, []; auto|]. split; [done|].
      eapply recovers_weaken; [|exact Hrec]. cbn. intros l [-> | ->].
      * exists false, hist, []. auto.
      * exists true, hist, (ents sub). auto.
Qed.

(** *** Pruning *)

Definition cut_at_forward (dropped kept : list JournalRecord) : Prop :=
  dropped = [] \/ exists r rest, kept = r :: rest /\ jr_status r = Forward.

Lemma covers_cut dropped kept d h : covers U rows a0 d (recs (dropped ++ kept)) h [] -> cut_at_forward dropped kept ->
  covers U rows a0 d (recs kept) h [].
Proof.
  rewrite recs_app. intros Hc [->|(r & rest & -> & Hr)]; apply (covers_prune _ _ _ _ _ _ _ Hc); [by left|].
  right. exists (jr_entry r), (recs rest). unfold recs. cbn. by rewrite Hr.
Qed.

Lemma prune_stage env sub win ob hist d s stages blocks b ps r : Inv sub win ob hist d s ->
  worker s = Running (StPrune :: stages) blocks b -> run_stage env blocks b StPrune (shared s) = (ps, r) ->
  match r with
  | Ok _ => Inv sub win ob hist d (with_stage s ps (Running stages blocks b))
  | Err e => Inv sub win ob hist d (with_error (with_shared s ps (appended s)) e)
  end.
Proof.
  intros Hi Hw E. cbn [run_stage] in E. apply sr_bind_inv in E as (s1 & r1 & E1 & E).
  apply on_journal_inv in E1 as (j & Ej & ->).
  destruct (some_phase _ _ _ _ _ _ Hi) as (pubd & h & rest & Hph).
  destruct (running_phase _ _ _ _ _ _ _ _ _ _ Hph Hw) as (k & Hk & Es & -> & Hs & _ & _ & _ & C & R & D & N & Hd).
  assert (k = 6)%nat as -> by (do 9 (destruct k as [|k]; [cbn in Es; first [discriminate|reflexivity]|]); lia).
  cbn in Es, Hd, D. injection Es as ->. clear pubd h rest Hph Hk.
  assert (forall ps', ps_unflushed ps' = unflushed s ->
    phase (with_stage s ps' (Running [StNotify] sub b)) sub hist d true (hist ++ ents sub) []) as Hnext.
  { intros ps' Eu. rewrite D in Eu. by apply (ph_running _ _ _ _ 7 b); try (done || lia). }
  destruct Hi as [Hf Hr Ha Hwin [(pubd & h & rest & old & pub & pend & Hph & Hh)|Hbad]].
  2: { destruct Hbad as (Hx & Hpo & Hy). destruct (poisoned_prune KEPT_RECORDS _ Hpo) as (e & Ep). rewrite Ep in Ej.
       injection Ej as <- <-. destruct E as [-> ->].
       eapply fail_same; [|exact Hw|done..]. split; try done. by right. }
  pose proof Hph as Hph0.
  destruct (running_phase _ _ _ _ _ _ _ _ _ _ Hph Hw) as (k & Hk & Es & _ & _ & -> & -> & -> & _).
  assert (k = 6)%nat as -> by (do 9 (destruct k as [|k]; [cbn in Es; first [discriminate|reflexivity]|]); lia).
  cbn in Hh. clear Es Hph. pose proof Hh as [Hinv Hcov Hpend Hch Hsub Hw']. cbn in Hpend.
  assert (forall j' old' pub', epoch j' = epoch (ps_journal (shared s)) -> journal_id j' = journal_id (ps_journal (shared s)) ->
    inv j' old' pub' pend -> (exists o1, o1 ++ old' ++ pub' = old ++ pub /\ cut_at_forward o1 (old' ++ pub')) ->
    Inv sub win ob hist d (with_stage s (with_journal (shared s) j') (Running [StNotify] sub b))) as Hok.
  { intros j' old' pub' Hep Hid Hi' (o1 & Eo & Hcut). split; [done..|]. left. exists true, (hist ++ ents sub), [], old', pub', pend.
    split; [by apply Hnext|]. split; cbn; try done.
    - rewrite <- Eo in Hcov. by apply (covers_cut o1).
    - same_window.
    - intros Hne. destruct (Hw' Hne) as (b' & -> & p1 & r0 & p2 & -> & Hl & ->). exists (record_boundary r0 (journal_id j') (epoch j')).
      rewrite Hep, Hid. split; [done|]. exists p1, r0, p2. by rewrite Hep, Hid. }
  destruct (prepare_inv _ _ _ _ _ _ _ Hinv Ej) as [[-> Hno]|(q1 & q2 & p & -> & Hne & -> & Hi1 & Hep & Hid & Hm & Hpr)].
  - destruct r1 as [[p|]|e]; [by destruct (Hno p)| |].
    + injection E as <- <-. apply (Hok _ old pub); [done|done|done|exists []; split; [done|by left]].
    + destruct E as [-> ->]. eapply fail_same; [|exact Hw|done..]. split; [done..|]. left.
      exists true, (hist ++ ents sub), [], old, pub, pend. split; [|done]. exact Hph0.
  - destruct (prepare_cut _ _ _ _ _ _ q1 q2 p Hinv Ej eq_refl (iv_records _ _ _ _ Hi1)) as (r0 & rest0 & Eq2 & Hfwd & Hoff).
    apply sr_bind_inv in E as (s1 & r1 & E1 & E). unfold try_ in E1.
    destruct (on_journal (finish (io env 0%nat) (tolerated env) p) (with_journal (shared s) j)) as [s2 r2] eqn:Ef.
    injection E1 as <- <-. injection E as <- <-. apply on_journal_inv in Ef as (j2 & Ef & ->). cbn in Ef.
    change (with_journal (with_journal (shared s) j) j2) with (with_journal (shared s) j2).
    destruct (finish_inv _ _ _ _ _ _ _ _ _ Hi1 Hpr Ef) as [->|(o1 & o2 & Eo & (r' & rest' & Er' & Hoff') & Hcase)].
    { apply (Hok _ (old ++ q1) q2); [done|done|done|]. exists []. rewrite <- app_assoc. split; [done|by left]. }
    assert (cut_at_forward o1 (o2 ++ q2)) as Hcut.
    { right. exists r', rest'. split; [done|]. rewrite <- (offset_unique _ _ _ _ o1 r' rest' r0 Hi1); [done| | |congruence].
      - by rewrite Eo, <- app_assoc, Er'.
      - rewrite <- Er', Eq2. apply elem_of_app. right. by left. }
    destruct Hcase as [(Hi2 & Hep2 & Hid2 & _)|(e & _ & Hpo & Hrec)].
    + apply (Hok _ o2 q2); [congruence|congruence|done|]. exists o1. by rewrite app_assoc, <- Eo, <- app_assoc.
    + split; [done..|]. right. split; [exists true, (hist ++ ents sub), []; by apply Hnext|]. split; [done|].
      eapply recovers_weaken; [|exact Hrec]. cbn. intros l Hl. exists true, (hist ++ ents sub), []. split; [by apply Hnext|].
      destruct Hl as [-> | ->]; [by rewrite <- app_assoc|].
      rewrite app_assoc, Eo, <- app_assoc in Hcov. by apply (covers_cut o1).
Qed.

Lemma worker_step_inv sub win ob hist d s s' : Inv sub win ob hist d s -> worker_step U s s' ->
  exists d', Inv sub win ob hist d' s'.
Proof.
  intros Hi Hstep. destruct Hstep as [s blocks b Hw Hc _|s blocks b e Hw Hc _|s env stage stages blocks b ps Hw E
    |s env stage stages blocks b ps e Hw E Hne|s stages blocks b f e Hw Er Ht|s blocks b Hw _|s env e ps Hw _ E].
  - exists d. by apply receive_inv.
  - exists d. by eapply reject_inv.
  - destruct (decide (stage = StPublish)) as [->|Hpub]; [exists d; by apply (publish_stage _ _ _ _ _ _ _ _ _ _ _ _ Hi Hw E)|].
    destruct (decide (stage = StPrune)) as [->|Hpru]; [exists d; by apply (prune_stage _ _ _ _ _ _ _ _ _ _ _ _ Hi Hw E)|].
    by eapply stage_inv.
  - exists d. destruct (decide (stage = StPublish)) as [->|Hpub]; [by apply (publish_stage _ _ _ _ _ _ _ _ _ _ _ _ Hi Hw E)|].
    destruct (decide (stage = StPrune)) as [->|Hpru]; [by apply (prune_stage _ _ _ _ _ _ _ _ _ _ _ _ Hi Hw E)|].
    destruct (decide (stage = StFlush)) as [->|Hfl]; [apply sync_forest_inv in E as ->; by eapply fail_same|].
    destruct (keeps_stage _ _ _ _ Hpub Hne Hfl Hpru _ _ _ E) as (Ef & Ej & Eu). by eapply fail_same.
  - destruct (Ht d (in_forest _ _ _ _ _ _ Hi)) as (d' & Hf & Ha). exists d'. eapply torn_inv; [exact Hi|exact Hw|done|done|].
    unfold agree_but, fwd. rewrite Er, (in_rows _ _ _ _ _ _ Hi) in Ha. exact Ha.
  - exists d. by eapply done_inv.
  - exists d. by eapply stop_inv.
Qed.

Lemma worker_steps_inv sub win ob hist d s s' : Inv sub win ob hist d s -> rtc (worker_step U) s s' ->
  exists d', Inv sub win ob hist d' s'.
Proof.
  intros Hi Hs. revert d Hi. induction Hs as [s|s s1 s2 Hstep _ IH]; intros d Hi; [by exists d|].
  destruct (worker_step_inv _ _ _ _ _ _ _ Hi Hstep) as (d1 & Hi1). by eapply IH.
Qed.

End Safety.
End PipelineSafety.
