(* ===== verification/PipelineCalls.v ===== *)
(** The producer's side of the pipeline: what each of its atomic actions does to the
    window in flight and to the queues, and that the invariant of [PipelineSafety] is kept. *)

From S2P Require Import Prelude Bytes Files Positions JournalEntry Forest SteadyState Accumulator PlanUpdate LeafMap Replay Udata JournalFile JournalRecord JournalMarker JournalSafety JournalContract ProofStore HeaderIndex Persistence Pipeline PipelineForest PipelineSafety.
Import Files.Files JournalEntry.JournalEntry Forest.Forest SteadyState.SteadyState Replay.Replay JournalFile.JournalFile JournalRecord.JournalRecord JournalMarker.JournalMarker JournalSafety.JournalSafety Persistence.Persistence Pipeline.Pipeline PipelineForest.PipelineForest PipelineSafety.PipelineSafety.

Module PipelineCalls.

#[local] Arguments after_blocks : simpl never.
#[local] Arguments apply_all : simpl never.

Section Calls.
Context `{NodeHashing} `{Sha256Laws} `{LeafMapDb} `{!LeafMapLaws} `{BitcoinCodec} `{HeaderCodec} `{KvStore} `{HeightsDb}.
Context `{!EqDecision Header} `{!EqDecision Udata.Udata.CompactBlockProof}.
Context (U : OutPoint -> Prop).
Context (Hinj : forall o o', U o -> U o' -> leaf_map_key o = leaf_map_key o' -> o = o').
Context (rows : Z) (a0 : AbsForest).

Abbreviation after := (after_blocks rows a0).
Abbreviation phase := (phase rows a0).
Abbreviation Inv := (Inv U rows a0).
Abbreviation healthy := (healthy U rows a0).
Abbreviation failed_journal := (failed_journal U rows a0).

(** ** Single calls *)

Lemma phase_total s sub hist d pubd h rest : phase s sub hist d pubd h rest ->
  (h ++ rest) ++ (if pubd then [] else ents sub) = hist ++ ents sub.
Proof.
  intros Hph.
  destruct Hph as [Hs W C R D N Hf|b1 Hs W C R D N Hf|k b1 h rest Hs W Hk C R D N Hf Eh Er|Hs W C R D N Hf|pubd h rest W C E R D N Hf Hs Hl].
  - subst. by rewrite !app_nil_r.
  - cbn. by rewrite app_nil_r.
  - subst. do 9 (destruct k as [|k]; [cbn; by rewrite ?app_nil_r|]). lia.
  - by rewrite !app_nil_r.
  - destruct Hl as [(-> & -> & ->)|[(-> & -> & ->)|(-> & -> & ->)]]; by rewrite ?app_nil_r.
Qed.

(** The completion is taken. *)
Lemma recv_inv sub win ob hist d s r : Inv sub win ob hist d s -> completion s = Some r ->
  let s' := with_channels s (worker s) (command s) None in
  match r with
  | Ok n => n = length sub /\ Inv [] win ob (hist ++ ents sub) d s'
  | Err _ => Inv sub win ob hist d s'
  end.
Proof.
  intros [Hf Hr Ha Hwin Hj] Hc s'. destruct r as [n|e].
  - assert (n = length sub) as Hn.
    { assert (exists pubd h rest, phase s sub hist d pubd h rest) as (pubd & h & rest & Hph)
        by (destruct Hj as [(pubd & h & rest & _ & _ & _ & Hph & _)|[Hph _]]; [by exists pubd, h, rest|done]).
      destruct Hph as [Hs W C R D N Hd|b1 Hs W C R D N Hd|k b1 h rest Hs W Hk C R D N Hd Eh Er|Hs W C R D N Hd|pubd h rest W C E R D N Hd Hs Hl]; try congruence.
      destruct R as [R|[e R]]; congruence. }
    assert (forall pubd h rest, phase s sub hist d pubd h rest -> pubd = true /\ h = hist ++ ents sub /\ rest = [] /\
      command s = None /\ worker s = Idle /\ phase s' [] (hist ++ ents sub) d true (hist ++ ents sub) []) as Hnext.
    { intros pubd h rest Hph.
      destruct Hph as [Hs W C R D N Hd|b1 Hs W C R D N Hd|k b1 h rest Hs W Hk C R D N Hd Eh Er|Hs W C R D N Hd|pubd h rest W C E R D N Hd Hs Hl]; try congruence.
      - split_and!; try done. apply ph_idle; try done. cbn. unfold ents. rewrite length_app, length_fmap. lia.
      - destruct R as [R|[e R]]; congruence. }
    split; [done|]. split; try done.
    + cbn. by rewrite Ha, <- app_assoc.
    + cbn. by apply Forall_app in Hwin as [_ Hwin].
    + destruct Hj as [(pubd & h & rest & old & pub & pend & Hph & Hh)|((pubd & h & rest & Hph) & Hpo & Hrec)].
      * destruct (Hnext _ _ _ Hph) as (-> & -> & -> & Ec & Ew & Hph'). left. exists true, (hist ++ ents sub), [], old, pub, pend.
        split; [done|]. destruct Hh. split; try done. cbn. intros b [?|?]; congruence.
      * right. split; [destruct (Hnext _ _ _ Hph) as (_ & _ & _ & _ & _ & Hph'); by exists true, (hist ++ ents sub), []|].
        split; [done|]. eapply recovers_weaken; [|exact Hrec]. intros l (pubd' & h' & rest' & Hp & Hcv).
        destruct (Hnext _ _ _ Hp) as (-> & -> & -> & _ & _ & Hph'). by exists true, (hist ++ ents sub), [].
  - assert (forall pubd h rest, phase s sub hist d pubd h rest -> phase s' sub hist d pubd h rest) as Hnext.
    { intros pubd h rest Hph.
      destruct Hph as [Hs W C R D N Hd|b1 Hs W C R D N Hd|k b1 h rest Hs W Hk C R D N Hd Eh Er|Hs W C R D N Hd|pubd h rest W C E R D N Hd Hs Hl]; try congruence.
      apply ph_failed; try done; [|by left]. left. destruct W as [|(e' & _ & W)]; [done|congruence]. }
    split; try done. destruct Hj as [(pubd & h & rest & old & pub & pend & Hph & Hh)|((pubd & h & rest & Hph) & Hpo & Hrec)].
    + left. exists pubd, h, rest, old, pub, pend. split; [by apply Hnext|]. by destruct Hh.
    + right. split; [exists pubd, h, rest; by apply Hnext|]. split; [done|].
      eapply recovers_weaken; [|exact Hrec]. intros l (pubd' & h' & rest' & Hp & Hcv). exists pubd', h', rest'. auto.
Qed.

(** The window is sent. *)
Lemma send_inv win b hist d s : Inv [] win (Some b) hist d s -> worker s <> Stopped -> win <> [] ->
  Inv win [] None hist d (with_channels s (worker s) (Some (win, b)) (completion s)).
Proof.
  intros [Hf Hr Ha Hwin Hj] Hw Hne.
  assert (forall pubd h rest, phase s [] hist d pubd h rest -> pubd = true /\ h = hist /\ rest = [] /\
    phase (with_channels s (worker s) (Some (win, b)) (completion s)) win hist d false hist []) as Hnext.
  { intros pubd h rest Hph.
    destruct Hph as [Hs W C R D N Hd|b1 Hs W C R D N Hd|k b1 h rest Hs W Hk C R D N Hd Eh Er|Hs W C R D N Hd|pubd h rest W C E R D N Hd Hs Hl]; try congruence.
    - split_and!; try done. by apply (ph_queued _ _ _ _ _ _ b).
    - by destruct (Hs eq_refl). }
  split; try done.
  - cbn. by rewrite Ha, app_nil_r.
  - cbn. by rewrite app_nil_r.
  - destruct Hj as [(pubd & h & rest & old & pub & pend & Hph & Hh)|((pubd & h & rest & Hph) & Hpo & Hrec)].
    + destruct (Hnext _ _ _ Hph) as (-> & -> & -> & Hph'). left. exists false, hist, [], old, pub, pend. split; [done|].
      destruct Hh as [Hi Hc Hp Hch Hs Hwb]. cbn in Hp. split; try done.
      * cbn. by rewrite app_nil_r.
      * cbn. intros b' [[= <-]|E].
        -- destruct (Hwb Hne) as (b' & [= <-] & Hb). apply recs_length in Hp. unfold ents in Hp. rewrite length_fmap in Hp. by rewrite <- Hp.
        -- exfalso. destruct Hph as [Hs' W C R D N Hd|b1 Hs' W C R D N Hd|k b1 h rest Hs' W Hk C R D N Hd Eh Er|Hs' W C R D N Hd|pubd h rest W C E' R D N Hd Hs' Hl]; try congruence.
           by destruct (Hs' eq_refl).
    + right. split; [destruct (Hnext _ _ _ Hph) as (_ & _ & _ & Hph'); by exists false, hist, []|]. split; [done|].
      eapply recovers_weaken; [|exact Hrec]. intros l (pubd' & h' & rest' & Hp & Hcv).
      destruct (Hnext _ _ _ Hp) as (-> & -> & -> & Hph'). by exists false, hist, [].
Qed.

(** *** Journalling a block *)

Lemma append_block_boundary io entry header proof prows j j' b : append_block io entry header proof prows j = (j', Ok b) ->
  b = boundary_of j'.
Proof.
  intros E. unfold append_block in E. do 4 (apply sr_bind_inv in E as (? & [?|?] & _ & E); [|by destruct E as [_ ?]]).
  apply sr_bind_inv in E as (j2 & r2 & E2 & E). injection E2 as <- <-. by injection E as <- <-.
Qed.

Lemma poisoned_append io entry header proof prows j : poisoned j = true ->
  exists e, append_block io entry header proof prows j = (j, Err e).
Proof.
  intros Hp. unfold append_block.
  destruct (require (negb (bool_decide (forest_rows entry = None) || _)) _) as [[]|e] eqn:E1; [|by exists e].
  erewrite sr_bind_ok by done.
  destruct (require (negb (negb (bool_decide _) || _)) _) as [[]|e] eqn:E2; [|by exists e].
  erewrite sr_bind_ok by done.
  destruct (encode_payload _ _ _ _) as [payload|e] eqn:E3; [|by exists e].
  erewrite sr_bind_ok by done. unfold append_payload.
  eexists. erewrite sr_bind_err; [done|]. erewrite sr_bind_ok by done. rewrite Hp. by erewrite sr_bind_err.
Qed.

(** What a block that [process_block] yields is: one planned over the forest after all
    blocks so far, with values of the right types. *)
Record next_block (a : AbsForest) (block : PersistenceBlock) : Prop := {
  nb_entry : entry_ok (pb_entry block);
  nb_proof : Udata.Udata.proof_ok (pb_proof block);
  nb_rows : 0 <= pb_proof_forest_rows block;
  nb_window : window_entry U rows (pb_entry block);
  nb_planned : planned_from rows a (pb_entry block)
}.

Lemma bounds_app j j' pend n r b : journal_id j' = journal_id j -> epoch j' = epoch j -> bounds j pend n b -> bounds j' (pend ++ [r]) n b.
Proof.
  intros Hid Hep (p1 & r0 & p2 & -> & Hl & ->). exists p1, r0, (p2 ++ [r]). rewrite <- app_assoc, Hid, Hep. done.
Qed.

(** The phase looks at the threads, at what is unflushed and at the ghost lists only. *)
Lemma phase_shared s sub hist d pubd h rest ps l : ps_unflushed ps = unflushed s -> phase s sub hist d pubd h rest ->
  phase (with_shared s ps l) sub hist d pubd h rest.
Proof.
  intros Eu [Hs W C R D N Hd|b1 Hs W C R D N Hd|k b1 h' rest' Hs W Hk C R D N Hd Eh Er|Hs W C R D N Hd|pubd' h' rest' W C E R D N Hd Hs Hl].
  - by apply ph_idle; cbn; rewrite ?Eu.
  - by apply (ph_queued _ _ _ _ _ _ b1); cbn; rewrite ?Eu.
  - by apply (ph_running _ _ _ _ _ _ k b1); cbn; rewrite ?Eu.
  - by apply ph_done; cbn; rewrite ?Eu.
  - by apply ph_failed; cbn; rewrite ?Eu.
Qed.

Lemma append_inv io sub win ob hist d s block j r : Inv sub win ob hist d s -> next_block (after (appended s)) block ->
  append_block io (pb_entry block) (pb_header block) (pb_proof block) (pb_proof_forest_rows block) (ps_journal (shared s)) = (j, r) ->
  let s' := with_shared s (with_journal (shared s) j) (if is_ok r then appended s ++ [pb_entry block] else appended s) in
  match r with
  | Ok b => Inv sub (win ++ [block]) (Some b) hist d s'
  | Err _ => Inv sub win ob hist d s'
  end.
Proof.
  intros [Hf Hr Ha Hwin Hj] [Ne Np Nr Nw Npl] E s'.
  destruct Hj as [(pubd & h & rest & old & pub & pend & Hph & Hh)|((pubd & h & rest & Hph) & Hpo & Hrec)].
  2: { destruct (poisoned_append io (pb_entry block) (pb_header block) (pb_proof block) (pb_proof_forest_rows block) _ Hpo) as (e & Ee).
       rewrite Ee in E. injection E as <- <-. split; try done. right. split; [exists pubd, h, rest; by apply phase_shared|].
       split; [done|]. eapply recovers_weaken; [|exact Hrec]. intros l (pubd' & h' & rest' & Hp & Hcv). exists pubd', h', rest'.
       split; [by apply phase_shared|done]. }
  destruct Hh as [Hi Hc Hp Hch Hs Hwb]. pose proof (phase_total _ _ _ _ _ _ _ Hph) as Htot.
  assert (forall ps l, ps_unflushed ps = unflushed s -> phase (with_shared s ps l) sub hist d pubd h rest) as Hph' by (intros; by apply phase_shared).
  destruct (append_block_inv _ _ _ _ _ _ _ _ _ _ _ Hi Ne Np Nr E)
    as [(rec & b & -> & Hi' & Hmv & Hep & Hid & Hm)|[(e & -> & Hi' & Hep & Hid & Hm)|(e & -> & Hpo & Hrec)]].
  - assert (jr_entry rec = pb_entry block /\ jr_status rec = Forward) as [Hen Hst].
    { inversion Hmv; subst. match goal with E : _ ++ [_] = _ ++ [_] |- _ => apply app_inj_tail in E as [_ ->] end. done. }
    apply append_block_boundary in E as ->.
    assert (boundary_of j = record_boundary rec (journal_id j) (epoch j)) as Eb.
    { unfold boundary_of, last_boundary. by rewrite (iv_records _ _ _ _ Hi'), app_assoc, last_snoc. }
    assert (recs [rec] = fwd [pb_entry block]) as Erec by (unfold recs, fwd; cbn; by rewrite Hst, Hen).
    split; try done.
    + cbn. rewrite Ha, ents_app, !app_assoc. done.
    + rewrite ents_app, app_assoc. apply Forall_app. split; [done|constructor; [exact Nw|constructor]].
    + left. exists pubd, h, rest, old, pub, (pend ++ [rec]). split; [by apply Hph'|]. split; try done.
      * by rewrite recs_app, Hp, Erec, ents_app, <- fwd_app, app_assoc.
      * rewrite recs_app. apply records_chain_app. split; [done|]. rewrite Erec, Hp, after_fwd.
        cbn. split_and!; [apply Nw| |done]. rewrite Ha in Npl. unfold PipelineForest.after_blocks in *.
        unfold apply_all in *. rewrite <- foldl_app. rewrite app_assoc, <- Htot, <- app_assoc in Npl. exact Npl.
      * cbn. intros b Hb. eapply bounds_app; [..|by apply Hs]; done.
      * intros _. exists (boundary_of j). split; [done|]. cbn. exists pend, rec, []. split_and!; [done|rewrite length_app; cbn; lia|done].
  - split; try done. left. exists pubd, h, rest, old, pub, pend. split; [by apply Hph'|]. split; try done; cbn.
    + intros b Hb. destruct (Hs b Hb) as (p1 & r0 & p2 & ? & ? & ->). exists p1, r0, p2. by rewrite Hid, Hep.
    + intros Hne. destruct (Hwb Hne) as (b & -> & p1 & r0 & p2 & ? & ? & ->). eexists. split; [done|]. exists p1, r0, p2. by rewrite Hid, Hep.
  - split; try done. right. split; [exists pubd, h, rest; by apply Hph'|]. split; [done|].
    eapply recovers_weaken; [|exact Hrec]. intros l <-. exists pubd, h, rest. split; [by apply Hph'|done].
Qed.


(** *** Barriers *)

Lemma crash_synced v f : crash_file (vsync v) f -> crash_file v f.
Proof.
  unfold crash_file, versions. cbn. intros [(g & ->%list_elem_of_singleton & Hl) Hz]. split; [exists (now v); split; [left|done]|].
  intros i Hi. exists (now v). split; [left|]. destruct (Hz i) as (g & ->%list_elem_of_singleton & E); [|done].
  intros g ->%list_elem_of_singleton. apply Hi. left.
Qed.

Lemma recovers_synced j S : recovers j S -> recovers (with_file j (vsync (file j))) S.
Proof. intros Hr nr fw fm Hw Hm Ht. apply (Hr nr fw fm); [by apply crash_synced|done|done]. Qed.

Lemma inv_synced j old pub pend : inv j old pub pend -> inv (with_file j (vsync (file j))) old pub pend.
Proof. intros [Hh [Hw Hs] Hlen Hpend Hdisk Hent Hrec Hpub]. split; try done. split; [by apply wal_sync|done]. Qed.

Lemma keeps_durable_tip : keeps_core durable_tip.
Proof. unfold durable_tip. eauto 12 using keeps_bind, keeps_get, keeps_lift, keeps_ret. Qed.

Lemma keeps_finish_barrier clean (tip : DurableTip) :
  keeps_core ((if (clean : bool) then s ← get; lift (mark_clean_shutdown (ps_journal s));; mret tt else mret tt);; mret tip).
Proof. destruct clean; eauto 12 using keeps_bind, keeps_get, keeps_lift, keeps_ret. Qed.

Lemma barrier_split env kernel op s s' r : barrier env kernel op s = (s', r) ->
  exists s1 r1, run_barrier env kernel op s = (s1, r1) /\ ps_forest s' = ps_forest s1 /\ ps_journal s' = ps_journal s1 /\
    ps_unflushed s' = ps_unflushed s1.
Proof.
  intros E. unfold barrier in E. apply sr_bind_inv in E as (s1 & r1 & E1 & E). exists s1, r1. split; [done|].
  destruct r1 as [[]|e]; [|by destruct E as [-> _]].
  revert E. apply keeps_bind; [apply keeps_durable_tip|]. intros tip. apply keeps_finish_barrier.
Qed.

Lemma sync_barrier env kernel clean s s' r : barrier env kernel (Sync clean) s = (s', r) ->
  ps_forest s' = ps_forest s /\
  (ps_journal s' = ps_journal s \/ ps_journal s' = with_file (ps_journal s) (vsync (file (ps_journal s)))) /\
  (ps_unflushed s' = ps_unflushed s \/ ps_unflushed s' = []).
Proof.
  intros (s1 & r1 & E & -> & -> & ->)%barrier_split. cbn [run_barrier] in E.
  apply sr_bind_inv in E as (s2 & r2 & E2 & E). apply sync_forest_inv in E2.
  destruct r2 as [[]|e]; [|destruct E as [-> _]; subst s2; auto].
  assert (ps_forest s2 = ps_forest s /\ ps_journal s2 = ps_journal s /\ ps_unflushed s2 = []) as (<- & <- & Eu) by by subst s2.
  clear E2.
  apply sr_bind_inv in E as (s3 & r3 & E3 & E). apply on_journal_inv in E3 as (j & Ej & ->).
  assert (ps_journal (with_journal s2 j) = ps_journal s2 \/ ps_journal (with_journal s2 j) = with_file (ps_journal s2) (vsync (file (ps_journal s2)))) as Hj.
  { unfold flush, on_file, sync_file in Ej. cbn. destruct (io env 1%nat 0%nat); injection Ej as <- _; [by right|].
    left. by destruct (ps_journal s2). }
  destruct r3 as [[]|e]; [|destruct E as [-> _]; split_and!; [done|done|by right]].
  assert (ps_forest s1 = ps_forest (with_journal s2 j) /\ ps_journal s1 = ps_journal (with_journal s2 j) /\
    ps_unflushed s1 = ps_unflushed (with_journal s2 j)) as (-> & -> & ->); [|split_and!; [done|done|by right]].
  revert E. repeat (apply keeps_bind; [auto using keeps_proof_file, keeps_header_index, keeps_get|intros ?]). apply keeps_proof_index.
Qed.

Lemma discard_barrier env kernel s s' r : barrier env kernel DiscardUnpublished s = (s', r) ->
  ps_forest s' = ps_forest s /\ ps_unflushed s' = ps_unflushed s /\ exists r', discard_unpublished (io env 0%nat) (ps_journal s) = (ps_journal s', r') /\
    (is_ok r = true -> is_ok r' = true).
Proof.
  intros E. unfold barrier in E. apply sr_bind_inv in E as (s1 & r1 & E1 & E). cbn [run_barrier] in E1.
  apply on_journal_inv in E1 as (j & Ej & ->). destruct r1 as [[]|e]; [|destruct E as [-> ->]; split_and!; [done|done|by exists (Err e)]].
  assert (ps_forest s' = ps_forest (with_journal s j) /\ ps_journal s' = ps_journal (with_journal s j) /\
    ps_unflushed s' = ps_unflushed (with_journal s j)) as (-> & -> & ->).
  { revert E. apply keeps_bind; [apply keeps_durable_tip|]. intros tip. apply keeps_finish_barrier. }
  split_and!; [done|done|]. by exists (Ok tt).
Qed.

(** What a successful [Sync] barrier leaves: every store is flushed, and the height is committed. *)
Record flushed (s : PersistenceState) : Prop := {
  fl_forest : ps_unflushed s = [];
  fl_journal : unsynced (file (ps_journal s)) = [];
  fl_proofs : unsynced (ProofStore.ProofStore.pf_file (proof_file s)) = [];
  fl_headers : unsynced (HeaderIndex.HeaderIndex.headers (header_index s)) = [];
  fl_height : exists b, ProofStore.ProofStore.update_height (ps_height s) b = (proof_index s, Ok tt)
}.

Lemma sync_headers_settles io x x' : sync_headers io x = (x', Ok tt) -> unsynced (HeaderIndex.HeaderIndex.headers x') = [].
Proof.
  unfold sync_headers. intros E. apply sr_bind_inv in E as (x1 & [?|?] & E1 & E); [|by destruct E as [_ ?]].
  apply sr_bind_inv in E as (x2 & r2 & E2 & E). unfold try_, HeaderIndex.HeaderIndex.on_headers, sync_file in E2.
  destruct (io 0%nat); injection E2 as <- <-; [|by injection E as _ ?].
  injection E as <- _. done.
Qed.

Lemma sync_settles env kernel clean s s' tip : barrier env kernel (Sync clean) s = (s', Ok tip) ->
  flushed s' /\ dt_height tip = ps_height s' /\ dt_hash tip = ps_tip_hash s'.
Proof.
  intros E. unfold barrier in E. apply sr_bind_inv in E as (s1 & [[]|?] & E1 & E); [|by destruct E as [_ ?]].
  assert (s' = s1 /\ dt_height tip = ps_height s1 /\ dt_hash tip = ps_tip_hash s1) as (-> & -> & ->).
  { apply sr_bind_inv in E as (s2 & [t|?] & E2 & E); [|by destruct E as [_ ?]].
    unfold durable_tip in E2. apply sr_bind_inv in E2 as (? & ? & [= <- <-] & E2). apply sr_bind_inv in E2 as (? & [?|?] & [= <- ?] & E2);
      [|by destruct E2 as [_ ?]]. injection E2 as <- <-.
    apply sr_bind_inv in E as (s3 & [[]|?] & E3 & E); [|by destruct E as [_ ?]]. injection E as <- <-.
    split_and!; [|done|done]. destruct (is_clean_shutdown _); [|by injection E3 as <-].
    apply sr_bind_inv in E3 as (? & ? & [= <- <-] & E3). apply sr_bind_inv in E3 as (? & [?|?] & [= <- ?] & E3); [|by destruct E3 as [_ ?]].
    by injection E3 as <-. }
  split; [|done]. clear E tip. cbn [run_barrier] in E1.
  apply sr_bind_inv in E1 as (s2 & [[]|?] & E2 & E); [|by destruct E as [_ ?]]. apply sync_forest_inv in E2 as ->.
  apply sr_bind_inv in E as (s3 & [[]|?] & E3 & E); [|by destruct E as [_ ?]]. apply on_journal_inv in E3 as (j & E3 & ->).
  assert (unsynced (file j) = []) as Hj.
  { unfold flush, on_file, sync_file in E3. destruct (io env 1%nat 0%nat); [|done]. by injection E3 as <-. }
  apply sr_bind_inv in E as (s4 & [[]|?] & E4 & E); [|by destruct E as [_ ?]].
  unfold on_proof_file, ProofStore.ProofStore.sync, ProofStore.ProofStore.on_proofs, sync_file in E4.
  destruct (io env 2%nat 0%nat); [|done]. injection E4 as <-.
  apply sr_bind_inv in E as (s5 & [[]|?] & E5 & E); [|by destruct E as [_ ?]]. unfold on_header_index in E5.
  destruct (sync_headers (io env 3%nat) _) as [x rx] eqn:Ex. injection E5 as <- ->. apply sync_headers_settles in Ex.
  apply sr_bind_inv in E as (? & ? & [= <- <-] & E). unfold on_proof_index in E.
  destruct (ProofStore.ProofStore.update_height _ _) as [b rb] eqn:Eb. injection E as <- ->.
  split; cbn in *; try done. by eexists.
Qed.

Lemma idle_phase s hist d pubd h rest : phase s [] hist d pubd h rest -> worker s = Idle ->
  pubd = true /\ h = hist /\ rest = [] /\ command s = None /\ completion s = None /\ unflushed s = [] /\
  (reported s <= length hist)%nat /\ d ≡ after hist.
Proof.
  intros Hph Hw.
  destruct Hph as [Hs W C R D N Hd|b1 Hs W C R D N Hd|k b1 h rest Hs W Hk C R D N Hd Eh Er|Hs W C R D N Hd|pubd h rest W C E R D N Hd Hs Hl]; try done.
  rewrite Hs in Hw; done.
Qed.

(** After a barrier that failed the worker is gone. *)
Lemma barrier_stop win ob hist d s env e ps r : Inv [] win ob hist d s -> worker s = Idle ->
  finish_failed env (shared s) = (ps, r) ->
  Inv [] win ob hist d (with_channels (with_error (with_shared s ps (appended s)) e) Stopped None (completion s)).
Proof.
  intros Hi Hw (Ef & Ej & Eu)%finish_failed_inv.
  eapply transfer; [exact Hi|done|done|cbn; rewrite Ef; apply Hi|cbn; rewrite Ef; apply Hi| |].
  - intros b [?|?]; done.
  - intros pubd h rest Hph. destruct (idle_phase _ _ _ _ _ _ Hph Hw) as (-> & -> & -> & C & R & D & N & Hd).
    rewrite D in Eu. assert (ps_unflushed ps = []) as Eu' by (by destruct Eu).
    exists hist, []. split_and!; [|done|done]. apply ph_failed; cbn; rewrite ?Eu'; try done; [by left|by right|by left| |].
    + apply agree_hist. by left.
    + by right; left.
Qed.

(** After a barrier the worker waits for the next command, or leaves for good. *)
Lemma barrier_done win ob hist d s (clean : bool) : Inv [] win ob hist d s -> worker s = Idle ->
  Inv [] win ob hist d (with_channels s (if clean then Stopped else Idle) (command s) (completion s)).
Proof.
  intros Hi Hw. eapply transfer; [exact Hi|done|done|apply Hi|apply Hi| |].
  - intros b [?|Hb]; [by left|]. by destruct clean.
  - intros pubd h rest Hph. destruct (idle_phase _ _ _ _ _ _ Hph Hw) as (-> & -> & -> & C & R & D & N & Hd).
    exists hist, []. split_and!; [|done|done]. destruct clean; [|by apply ph_idle].
    apply ph_failed; cbn; rewrite ?D; try done; [by left|by right|by left| |].
    + apply agree_hist. by left.
    + by right; left.
Qed.

Lemma kept_same s ps : length (records (ps_journal ps)) = length (records (ps_journal (shared s))) -> kept s ps = appended s.
Proof. intros E. unfold kept. rewrite E, Nat.sub_diag, Nat.sub_0_r. apply firstn_all. Qed.

Lemma sync_barrier_inv win ob hist d s ps env kernel clean r : Inv [] win ob hist d s -> worker s = Idle ->
  barrier env kernel (Sync clean) (shared s) = (ps, r) -> Inv [] win ob hist d (with_shared s ps (kept s ps)).
Proof.
  intros Hinv Hw E. destruct (some_phase _ _ _ _ _ _ _ _ _ Hinv) as (pubd0 & h0 & rest0 & Hph0).
  destruct (idle_phase _ _ _ _ _ _ Hph0 Hw) as (_ & _ & _ & _ & _ & D & _). clear Hph0.
  destruct Hinv as [Hf Hr Ha Hwin Hj]. destruct (sync_barrier _ _ _ _ _ _ E) as (Ef & Ej & Eu).
  assert (ps_unflushed ps = unflushed s) as Eu' by (rewrite D in *; by destruct Eu).
  assert (kept s ps = appended s) as -> by (apply kept_same; destruct Ej as [-> | ->]; done).
  split; cbn; rewrite ?Ef; try done.
  destruct Hj as [(pubd & h & rest & old & pub & pend & Hph & Hh)|((pubd & h & rest & Hph) & Hpo & Hrec)].
  - left. exists pubd, h, rest, old, pub, pend. split; [by apply phase_shared|].
    destruct Hh as [Hi Hc Hp Hch Hs Hwb]. split; try done; cbn; destruct Ej as [-> | ->]; try done. by apply inv_synced.
  - right. split; [exists pubd, h, rest; by apply phase_shared|]. split; cbn; [by destruct Ej as [-> | ->]|].
    assert (recovers (ps_journal ps) (fun l => exists pubd h rest, phase s [] hist d pubd h rest /\ covers U rows a0 d (recs l) h rest)) as Hrec'.
    { destruct Ej as [-> | ->]; [done|by apply recovers_synced]. }
    eapply recovers_weaken; [|exact Hrec']. intros l (pubd' & h' & rest' & Hp & Hcv). exists pubd', h', rest'.
    split; [by apply phase_shared|done].
Qed.

Lemma poisoned_discard io j : poisoned j = true -> exists e, discard_unpublished io j = (j, Err e).
Proof. intros Hp. unfold discard_unpublished. erewrite sr_bind_ok by done. rewrite Hp. by eexists. Qed.

Lemma discard_barrier_inv win ob hist d s ps env kernel r : Inv [] win ob hist d s -> worker s = Idle ->
  barrier env kernel DiscardUnpublished (shared s) = (ps, r) ->
  (Inv [] [] ob hist d (with_shared s ps (kept s ps)) /\ kept s ps = hist) \/
  (is_ok r = false /\ Inv [] win ob hist d (with_shared s ps (kept s ps))).
Proof.
  intros Hinv Hw E. destruct (discard_barrier _ _ _ _ _ E) as (Ef & Eu & r' & Ed & Hr').
  assert (ps_journal ps = ps_journal (shared s) -> is_ok r' = false -> is_ok r = false /\ Inv [] win ob hist d (with_shared s ps (kept s ps))) as Hsame.
  { intros Ej Hno. split; [destruct (is_ok r); [by rewrite Hr' in Hno by done|done]|].
    rewrite (kept_same s ps) by (by rewrite Ej). destruct Hinv as [Hf Hr Ha Hwin Hj]. split; cbn; rewrite ?Ef; try done.
    destruct Hj as [(pubd & h & rest & old & pub & pend & Hph & Hh)|((pubd & h & rest & Hph) & Hpo & Hrec)].
    - left. exists pubd, h, rest, old, pub, pend. split; [by apply phase_shared|]. destruct Hh. split; try done; cbn; by rewrite Ej.
    - right. split; [exists pubd, h, rest; by apply phase_shared|]. split; cbn; rewrite Ej; [done|].
      eapply recovers_weaken; [|exact Hrec]. intros l (pubd' & h' & rest' & Hp & Hcv). exists pubd', h', rest'.
      split; [by apply phase_shared|done]. }
  destruct Hinv as [Hf Hr Ha Hwin Hj].
  destruct Hj as [(pubd & h & rest & old & pub & pend & Hph & Hh)|((pubd & h & rest & Hph) & Hpo & Hrec)].
  2: { right. destruct (poisoned_discard (io env 0%nat) _ Hpo) as (e & Ee). rewrite Ee in Ed. injection Ed as Ej <-. by apply Hsame. }
  destruct (idle_phase _ _ _ _ _ _ Hph Hw) as (-> & -> & -> & C & R & D & N & Hd).
  destruct Hh as [Hi Hc Hp Hch Hs Hwb].
  destruct (discard_inv _ _ _ _ _ _ _ Hi Ed) as [(e & -> & Ej)|(-> & Hi' & _)]; [right; by apply Hsame|].
  left. assert (kept s ps = hist) as Ek.
  { unfold kept. rewrite (iv_records _ _ _ _ Hi), (iv_records _ _ _ _ Hi'), app_nil_r, Ha. cbn [ents fmap list_fmap app].
    apply recs_length in Hp. cbn in Hp. rewrite !length_app, Hp. replace (_ - _)%nat with (length hist) by lia. apply take_app_length. }
  split; [|done]. split; cbn; rewrite ?Ef, ?Ek, ?app_nil_r; try done.
  left. exists true, hist, [], old, pub, []. split; [by apply phase_shared|]. split; try done.
  cbn. intros b [?|?]; congruence.
Qed.

End Calls.
End PipelineCalls.
