(* ===== verification/PipelineContract.v ===== *)
(** What each call of the producer ([publish_pending], [drain_pending_apply],
    [reserve_persistence], [prove_block], [sync] and the others) does, whatever steps the
    worker takes meanwhile: the states it can end in and its results. *)

From S2P Require Import Prelude Bytes Files Positions JournalEntry Forest SteadyState Accumulator PlanUpdate LeafMap Replay Udata JournalFile JournalRecord JournalMarker JournalSafety JournalContract ProofStore HeaderIndex Persistence Pipeline PipelineForest PipelineSafety PipelineCalls.
Import Files.Files JournalEntry.JournalEntry Forest.Forest SteadyState.SteadyState Replay.Replay JournalFile.JournalFile JournalRecord.JournalRecord JournalMarker.JournalMarker JournalSafety.JournalSafety Persistence.Persistence Pipeline.Pipeline PipelineForest.PipelineForest PipelineSafety.PipelineSafety PipelineCalls.PipelineCalls.

Module PipelineContract.

#[local] Arguments after_blocks : simpl never.
#[local] Arguments apply_all : simpl never.

Section Contract.
Context `{NodeHashing} `{Sha256Laws} `{LeafMapDb} `{!LeafMapLaws} `{BitcoinCodec} `{HeaderCodec} `{KvStore} `{HeightsDb}.
Context `{!EqDecision Header} `{!EqDecision Udata.Udata.CompactBlockProof}.
Context (U : OutPoint -> Prop).
Context (Hinj : forall o o', U o -> U o' -> leaf_map_key o = leaf_map_key o' -> o = o').
Context (rows : Z) (a0 : AbsForest).

Abbreviation after := (after_blocks rows a0).
Abbreviation phase := (phase rows a0).
Abbreviation Inv := (Inv U rows a0).
Abbreviation wstep := (worker_step U).

Definition safe (s : System) : Prop := exists sub win ob hist d, Inv sub win ob hist d s.

(** ** Programs and the steps of the worker in between *)

Definition progress {A} (p : Prog A) (s : System) : Prop :=
  (exists r, p = Ret r) \/ (exists c, producer_step (s, p) c) \/ exists s', wstep s s'.

(** The program, started in [s] and interleaved with the worker in any way, stays
    safe, is never stuck, and ends after finitely many of its own steps with [Q]. *)
Inductive wp {A} (Q : result A -> System -> Prop) (p : Prog A) (s : System) : Prop :=
| wp_intro :
    (forall s', rtc wstep s s' -> safe s' /\ progress p s') ->
    (forall r s', p = Ret r -> rtc wstep s s' -> Q r s') ->
    (forall s' s1 p1, rtc wstep s s' -> producer_step (s', p) (s1, p1) -> wp Q p1 s1) ->
    wp Q p s.

Record stable (P : System -> Prop) : Prop := {
  st_safe : forall s, P s -> safe s;
  st_step : forall s s', P s -> wstep s s' -> P s'
}.

Definition triple {A} (P : System -> Prop) (p : Prog A) (Q : result A -> System -> Prop) : Prop := forall s, P s -> wp Q p s.

Lemma stable_steps P s s' : stable P -> P s -> rtc wstep s s' -> P s'.
Proof. intros [_ Hs] HP Hr. induction Hr as [|s s1 s2 Hstep _ IH]; [done|]. apply IH. by eapply Hs. Qed.

Lemma wp_node {A} P (p : Prog A) Q : stable P -> (forall s, P s -> progress p s) ->
  (forall r s, p = Ret r -> P s -> Q r s) ->
  (forall s s1 p1, P s -> producer_step (s, p) (s1, p1) -> wp Q p1 s1) -> triple P p Q.
Proof.
  intros Hst Hpr Hret Hstep s HP. constructor.
  - intros s' Hr. pose proof (stable_steps _ _ _ Hst HP Hr). split; [by apply Hst|by apply Hpr].
  - intros r s' -> Hr. apply Hret; [done|by eapply stable_steps].
  - intros s' s1 p1 Hr Hp. eapply Hstep; [by eapply stable_steps|done].
Qed.

Lemma t_ret {A} P (r : result A) Q : stable P -> (forall s, P s -> Q r s) -> triple P (Ret r) Q.
Proof.
  intros Hst HQ. apply wp_node; [done|intros; left; by eexists|by intros r' s [= ->] HP; apply HQ|].
  intros s s1 p1 _ Hs. inversion Hs.
Qed.

(** Steps of a program that goes on with [f]. *)
Lemma bind_step {A B} (m : Prog A) (f : A -> Prog B) s c : producer_step (s, m ≫= f) c ->
  (exists r, m = Ret r) \/ exists s1 m1, producer_step (s, m) (s1, m1) /\ c = (s1, m1 ≫= f).
Proof.
  destruct m; [left; by eexists|..]; intros Hs; right; inversion Hs; subst; do 2 eexists; (split; [by econstructor|done]).
Qed.

Lemma step_bind {A B} (c c' : System * Prog A) (f : A -> Prog B) : producer_step c c' ->
  producer_step (c.1, c.2 ≫= f) (c'.1, c'.2 ≫= f).
Proof.
  intros [s g k|s io block k j r E|s k|s r k E|s k E W|s k E W|s r k E|s k E W|s blocks b k W C|s blocks b k W
    |s env kernel op k ps tip W C E|s env env' kernel op k ps ps' e W C E E'|s op k W]; cbn.
  - apply (pr_local s g (fun p => k p ≫= f)).
  - by apply (pr_append s io block (fun p => k p ≫= f)).
  - apply (pr_check s (fun p => k p ≫= f)).
  - by apply (pr_received s r (fun p => k p ≫= f)).
  - by apply (pr_empty s (fun p => k p ≫= f)).
  - by apply (pr_disconnected s (fun p => k p ≫= f)).
  - by apply (pr_recv s r (fun p => k p ≫= f)).
  - by apply (pr_recv_stopped s (fun p => k p ≫= f)).
  - by apply (pr_send s blocks b (fun p => k p ≫= f)).
  - by apply (pr_send_stopped s blocks b (fun p => k p ≫= f)).
  - by apply (pr_barrier s env kernel op (fun p => k p ≫= f)).
  - by apply (pr_barrier_failed s env env' kernel op (fun p => k p ≫= f) ps).
  - by apply (pr_barrier_stopped s op (fun p => k p ≫= f)).
Qed.

Lemma wp_bind {A B} (m : Prog A) (f : A -> Prog B) R Q s : wp R m s ->
  (forall a s', R (Ok a) s' -> wp Q (f a) s') -> (forall e s', R (Err e) s' -> wp Q (Ret (Err e)) s') -> wp Q (m ≫= f) s.
Proof.
  intros Hm Hok Herr. induction Hm as [m s Hsafe Hret Hstep IH].
  assert ((exists r, m = Ret r) \/ forall r, m <> Ret r) as [[r ->]|Hno] by (destruct m; (by left; eexists) || (right; done)).
  - assert (R r s) as HR by (by apply Hret). destruct r as [a|e]; [by apply Hok|by apply Herr].
  - constructor.
    + intros s' Hr. destruct (Hsafe s' Hr) as [Hs Hp]. split; [done|]. right.
      destruct Hp as [[r ->]|[[[s1 m1] Hp]|Hp]]; [by destruct (Hno r)| |by right]. left. exists (s1, m1 ≫= f). by apply (step_bind (s', m) (s1, m1)).
    + intros r s' E. exfalso. destruct m as [r0|g k|block k|k|k|k|blocks b k|op k|]; [by destruct (Hno r0)|..]; done.
    + intros s' s1 p1 Hr Hp. apply bind_step in Hp as [[r ->]|(s2 & m2 & Hp & [= -> ->])]; [by destruct (Hno r)|].
      by eapply IH.
Qed.

(** ** Assertions *)

(** What the producer holds: [sub] submitted, [win] in its window; its heights are
    different and at most [hb]. *)
Record Own (sub win : list PersistenceBlock) (ob : option JournalBoundary) (hb : Z) (p : Producer) : Prop := {
  ow_window : publication_window p = win;
  ow_boundary : publication_boundary p = ob;
  ow_some : win <> [] -> is_Some ob;
  ow_submitted : submitted_blocks p = length sub;
  ow_small : (length sub <= PUBLICATION_BLOCKS)%nat;
  ow_pending : pending_apply p = ents sub ++ ents win;
  ow_overlay : overlay p = push_all (pending_apply p);
  ow_heights : NoDup (height <$> pending_apply p);
  ow_bound : Forall (fun e => height e <= hb) (pending_apply p)
}.

(** The threads and the producer, between two calls that involve both.  [L] are all
    blocks; the threads have [sub] in flight and [win] journalled after them, the
    producer's fields say [sub'] and [win']. *)
Definition At (L : list JournalEntryData) (hb : Z) (sub win : list PersistenceBlock) (ob : option JournalBoundary)
    (sub' win' : list PersistenceBlock) (ob' : option JournalBoundary) (h : Z) (s : System) : Prop :=
  (exists hist d, Inv sub win ob hist d s) /\ appended s = L /\ Own sub' win' ob' hb (producer s) /\ fp_height (producer s) = h.

Definition diverged : string := "durable forest and producer state diverged".

Definition journal_error (e : string) : Prop := exists io entry header proof prows j j',
  append_block io entry header proof prows j = (j', Err e).

(** Why a call fails: the worker has failed, or the journal refused the block, or the last comparison. *)
Definition err (e : string) (s : System) : Prop :=
  safe s /\ ((is_Some (worker_error s) \/ worker s = Stopped) \/ journal_error e \/ e = diverged).

Definition post {A} (P : A -> System -> Prop) (r : result A) (s : System) : Prop :=
  match r with Ok a => P a s | Err e => err e s end.

Lemma worker_frame s s' : wstep s s' -> producer s' = producer s /\ appended s' = appended s /\
  (is_Some (worker_error s) \/ worker s = Stopped -> is_Some (worker_error s') \/ worker s' = Stopped).
Proof.
  intros Hs. assert (is_Some (worker_error s) \/ worker s = Stopped -> is_Some (worker_error s') \/ worker s' = Stopped) as He
    by (intros [He|Hw]; [left; destruct Hs; cbn; auto; by eexists|destruct Hs; congruence]).
  by destruct Hs.
Qed.

Lemma at_stable L hb sub win ob sub' win' ob' h : stable (At L hb sub win ob sub' win' ob' h).
Proof.
  split.
  - intros s ((hist & d & Hi) & _). by exists sub, win, ob, hist, d.
  - intros s s' ((hist & d & Hi) & HL & Ho & Eh) Hs. destruct (worker_frame _ _ Hs) as (Ep & Ea & _).
    destruct (worker_step_inv U Hinj _ _ _ _ _ _ _ _ _ Hi Hs) as (d' & Hi'). split; [by exists hist, d'|].
    by rewrite Ea, Ep.
Qed.

Lemma err_stable e : stable (err e).
Proof.
  split; [by intros s [? _]|]. intros s s' [(sub & win & ob & hist & d & Hi) He] Hs.
  destruct (worker_step_inv U Hinj _ _ _ _ _ _ _ _ _ Hi Hs) as (d' & Hi'). destruct (worker_frame _ _ Hs) as (_ & _ & Hw).
  split; [by exists sub, win, ob, hist, d'|]. destruct He as [He|He]; auto.
Qed.

Lemma post_stable {A} (P : A -> System -> Prop) r : (forall a, stable (P a)) -> stable (post P r).
Proof. intros HP. destruct r; [apply HP|apply err_stable]. Qed.

Hint Resolve at_stable err_stable post_stable : stable.

Lemma taken_error s r : worker_error (with_channels s (worker s) (command s) r) = worker_error s.
Proof. done. Qed.

Lemma check_post sub win ob hist d s : Inv sub win ob hist d s -> match check s with Ok _ => True | Err e => err e s end.
Proof.
  intros Hi. assert (safe s) as Hsafe by (by exists sub, win, ob, hist, d). unfold check.
  destruct (worker_error s) as [e|] eqn:E; [split; [done|left; left; by rewrite E]|].
  destruct (worker s) eqn:Ew; try done. split; [done|left; by right].
Qed.

(** ** Rules *)

Lemma t_bind {A B} P (m : Prog A) (f : A -> Prog B) R Q : triple P m R ->
  (forall a, triple (R (Ok a)) (f a) Q) -> (forall e, triple (R (Err e)) (Ret (Err e)) Q) -> triple P (m ≫= f) Q.
Proof. intros Hm Hok Herr s HP. eapply wp_bind; [by apply Hm|..]; intros; [by apply Hok|by apply Herr]. Qed.

(** The usual sequence: an error ends the call. *)
Lemma t_seq {A B} P (m : Prog A) (f : A -> Prog B) (R : A -> System -> Prop) (Q : B -> System -> Prop) :
  triple P m (post R) -> (forall a, triple (R a) (f a) (post Q)) -> triple P (m ≫= f) (post Q).
Proof. intros Hm Hf. eapply t_bind; [exact Hm|exact Hf|]. intros e. apply t_ret; [apply err_stable|done]. Qed.

Lemma t_local {A} P (m : SR Producer A) (Q : result A -> System -> Prop) : stable P -> (forall r, stable (Q r)) ->
  (forall s, P s -> Q (m (producer s)).2 (with_producer s (m (producer s)).1)) -> triple P (local m) Q.
Proof.
  intros Hst HQ Hm. apply wp_node; [done|intros s _; right; left; eexists; apply pr_local|done|].
  intros s s1 p1 HP Hs. inversion Hs; subst. apply (t_ret (Q (m (producer s)).2)); auto.
Qed.

(** Reading a field of the producer. *)
Lemma t_read {B} P (f : Producer -> Prog B) Q : stable P -> (forall p, triple (fun s => P s /\ producer s = p) (f p) Q) ->
  triple P (p ← local get; f p) Q.
Proof.
  intros Hst Hf. cbn. apply wp_node; [done|intros s _; right; left; eexists; apply pr_local|done|].
  intros s s1 p1 HP Hs. inversion Hs; subst. cbn. apply Hf. by destruct s.
Qed.

Lemma t_check P Q : stable P -> (forall r, stable (Q r)) -> (forall s, P s -> Q (check s) s) -> triple P check_worker Q.
Proof.
  intros Hst HQ Hm. apply wp_node; [done|intros s _; right; left; eexists; apply pr_check|done|].
  intros s s1 p1 HP Hs. inversion Hs; subst. apply (t_ret (Q (check s1))); auto.
Qed.

(** At a check the worker has failed, or nothing happens. *)
Lemma t_check_at L hb sub win ob sub' win' ob' h :
  triple (At L hb sub win ob sub' win' ob' h) check_worker (post (fun _ => At L hb sub win ob sub' win' ob' h)).
Proof.
  apply t_check; [auto with stable|intros; apply post_stable; auto with stable|].
  intros s Hs. pose proof Hs as ((hist & d & Hi) & _). pose proof (check_post _ _ _ _ _ _ Hi). by destruct (check s).
Qed.

Lemma and_stable P (Q : System -> Prop) : stable P -> (forall s s', P s -> Q s -> wstep s s' -> Q s') -> stable (fun s => P s /\ Q s).
Proof. intros [Hs Ht] HQ. split; [by intros s [? _]; auto|]. intros s s' [HP HQs] Hw. split; [by eapply Ht|by eapply HQ]. Qed.

Lemma read_stable P p : stable P -> stable (fun s => P s /\ producer s = p).
Proof. intros Hst. apply and_stable; [done|]. intros s s' _ <- Hw. by destruct (worker_frame _ _ Hw). Qed.

(** The worker has failed, and every call reports it in its own words. *)
Definition down (s : System) : Prop := safe s /\ (is_Some (worker_error s) \/ worker s = Stopped).

Lemma down_stable : stable down.
Proof.
  split; [by intros s [? _]|]. intros s s' [Hs Hd] Hw. pose proof (worker_frame _ _ Hw) as (_ & _ & He).
  destruct Hs as (sub & win & ob & hist & d & Hi). destruct (worker_step_inv U Hinj _ _ _ _ _ _ _ _ _ Hi Hw) as (d' & Hi').
  split; [by exists sub, win, ob, hist, d'|by apply He].
Qed.

Lemma t_down {A} e (P : A -> System -> Prop) : triple down (Ret (Err e)) (post P).
Proof. apply t_ret; [apply down_stable|]. intros s [Hs Hd]. by split; [|left]. Qed.

Lemma stopped_down L hb sub win ob sub' win' ob' h s : At L hb sub win ob sub' win' ob' h s -> worker s = Stopped -> down s.
Proof.
  intros ((hist & d & Hi) & _) Hw. split; [by exists sub, win, ob, hist, d|by right].
Qed.

(** ** Retiring *)

Lemma retire_pending_spec l1 : forall p l2, pending_apply p = l1 ++ l2 -> overlay p = push_all (pending_apply p) ->
  NoDup (height <$> pending_apply p) ->
  exists p', retire_pending (length l1) p = (p', Ok tt) /\ p' = with_pending p (push_all l2) l2.
Proof.
  induction l1 as [|e l1 IH]; intros p l2 Ep Eo Hn.
  - exists p. split; [done|]. destruct p. cbn in *. by subst.
  - rewrite Ep in Hn. cbn in Hn. apply NoDup_cons in Hn as [Hne Hn].
    destruct (IH (with_pending p (retire (overlay p) e) (l1 ++ l2)) l2) as (p' & E & ->); [done| |done|].
    + cbn. rewrite Eo, Ep. cbn. apply retire_push_all. intros e' He' Eh. apply Hne. rewrite <- Eh. by apply list_elem_of_fmap_2.
    + eexists. split; [|done]. cbn [retire_pending length]. erewrite sr_bind_ok by done. rewrite Ep. cbn [app].
      erewrite sr_bind_ok by done. exact E.
Qed.

Lemma retire_apply_spec sub win ob hb p : Own sub win ob hb p -> sub <> [] ->
  exists p', retire_apply (length sub) p = (p', Ok tt) /\ Own [] win ob hb p' /\ fp_height p' = fp_height p.
Proof.
  intros [Ew Eb Eso Es Hsm Ep Eo Hn Hb] Hne.
  destruct (retire_pending_spec (ents sub) p (ents win) Ep Eo Hn) as (p' & E & ->). unfold ents in E at 1. rewrite length_fmap in E.
  assert (exists e0, ok_or "unexpected persistence completion" (head (pending_apply p)) = Ok e0) as [e0 E0]
    by (rewrite Ep; destruct sub as [|b0 sub]; [done|by exists (pb_entry b0)]).
  eexists. split.
  - unfold retire_apply. erewrite sr_bind_ok by done. rewrite E0. erewrite sr_bind_ok by done.
    erewrite sr_bind_ok by exact E. erewrite sr_bind_ok by done. cbn [submitted_blocks with_pending]. rewrite Es, Nat.leb_refl. done.
  - split; [|done]. split; cbn; try done.
    + rewrite Es. lia.
    + unfold PUBLICATION_BLOCKS. lia.
    + rewrite Ep, fmap_app in Hn. by apply NoDup_app in Hn as (_ & _ & Hn).
    + rewrite Ep in Hb. by apply Forall_app in Hb as [_ Hb].
Qed.

(** The invariant does not look at the producer's fields. *)
Lemma inv_producer sub win ob hist d s p : Inv sub win ob hist d s -> Inv sub win ob hist d (with_producer s p).
Proof.
  intros Hi. eapply transfer; [exact Hi|done|done|apply Hi|apply Hi|by intros b Hb|].
  intros pubd h rest Hph. exists h, rest. split_and!; [|done|done].
  destruct Hph as [Hs W C R D N Hd|b1 Hs W C R D N Hd|k b1 h rest Hs W Hk C R D N Hd Eh Er|Hs W C R D N Hd|pubd h rest W C E R D N Hd Hs Hl].
  - by apply ph_idle.
  - by apply (ph_queued _ _ _ _ _ _ b1).
  - by apply (ph_running _ _ _ _ _ _ k b1).
  - by apply ph_done.
  - by apply ph_failed.
Qed.

Lemma t_retire L hb sub win ob h : sub <> [] ->
  triple (At L hb [] win ob sub win ob h) (local (retire_apply (length sub))) (post (fun _ => At L hb [] win ob [] win ob h)).
Proof.
  intros Hne. apply t_local; [auto with stable|intros; apply post_stable; auto with stable|].
  intros s (Hi & HL & Ho & Eh). destruct (retire_apply_spec _ _ _ _ _ Ho Hne) as (p' & E & Ho' & Eh'). rewrite E. cbn.
  destruct Hi as (hist & d & Hi). split; [exists hist, d; by apply inv_producer|]. split_and!; [done|done|]. cbn; by rewrite ?Eh'.
Qed.

(** ** Waiting for the worker *)

(** While a window is in flight there is a step to wait for. *)
Lemma in_flight_progress sub win ob hist d s (k : result (result nat) -> Prog unit) : Inv sub win ob hist d s -> sub <> [] ->
  progress (Recv k) s.
Proof.
  intros Hi Hne. destruct (some_phase _ _ _ _ _ _ _ _ _ Hi) as (pubd & h & rest & Hph). right.
  destruct Hph as [Hs W C R D N Hd|b1 Hs W C R D N Hd|k1 b1 h rest Hs W Hk C R D N Hd Eh Er|Hs W C R D N Hd|pubd h rest W C E R D N Hd Hs Hl].
  - done.
  - right. destruct (check_batch (shared s) sub) as [[]|e] eqn:Ec; eexists; [by eapply ws_receive|by eapply ws_reject].
  - right. destruct (drop k1 all_stages) as [|stage stages] eqn:Es; [eexists; by eapply ws_done|].
    set (env := {| io := fun _ _ => true; torn := ps_forest (shared s); tolerated := true |}).
    destruct (run_stage env sub b1 stage (shared s)) as [ps [[]|e]] eqn:Er'; [eexists; by eapply ws_stage|].
    destruct (decide (stage = StApply)) as [->|Hna]; [|eexists; by eapply ws_fail].
    eexists. eapply (ws_torn _ _ _ _ _ (ps_forest (shared s)) e); [done|done|]. intros a Ha. exists a. by split.
  - left. eexists. by eapply pr_recv.
  - destruct W as [W|(e' & W & C')].
    + destruct R as [R|[e' R]]; left; eexists; [by eapply pr_recv_stopped|by eapply pr_recv].
    + right. destruct (finish_failed_ok {| io := fun _ _ => true; torn := ps_forest (shared s); tolerated := true |} (shared s)) as [ps Ef].
      eexists. by eapply ws_stop.
Qed.

(** The completion that is taken: the window is done, or the worker has failed. *)
Lemma taken L hb sub win ob h s r : At L hb sub win ob sub win ob h s -> completion s = Some r ->
  let s' := with_channels s (worker s) (command s) None in
  match r with
  | Ok n => n = length sub /\ sub <> [] /\ At L hb [] win ob sub win ob h s'
  | Err e => down s'
  end.
Proof.
  intros ((hist & d & Hi) & HL & Ho & Eh) Hc s'. pose proof (recv_inv U rows a0 _ _ _ _ _ _ _ Hi Hc) as Hr. fold s' in Hr.
  destruct (some_phase _ _ _ _ _ _ _ _ _ Hi) as (pubd & h0 & rest & Hph). destruct r as [n|e].
  - destruct Hr as [-> Hr]. split; [done|]. split; [|split; [by eexists _, d|done]].
    destruct Hph as [Hs W C R D N Hd|b1 Hs W C R D N Hd|k1 b1 h1 rest Hs W Hk C R D N Hd Eh1 Er|Hs W C R D N Hd|pubd h1 rest W C E R D N Hd Hs Hl]; try congruence.
    destruct R as [R|[e' R]]; congruence.
  - split; [by exists sub, win, ob, hist, d|]. unfold s'. rewrite taken_error.
    destruct Hph as [Hs W C R D N Hd|b1 Hs W C R D N Hd|k1 b1 h1 rest Hs W Hk C R D N Hd Eh1 Er|Hs W C R D N Hd|pubd h1 rest W C E R D N Hd Hs Hl]; try congruence.
    exact E.
Qed.

Lemma t_wait L hb sub win ob h : sub <> [] ->
  triple (At L hb sub win ob sub win ob h) wait_for_apply (post (fun _ => At L hb [] win ob [] win ob h)).
Proof.
  intros Hne. apply wp_node; [auto with stable| |done|].
  - intros s ((hist & d & Hi) & _). by eapply in_flight_progress.
  - intros s s1 p1 HP Hs. inversion Hs as [| | | | | |? r ? Hc|? ? Hc Hw| | | | |]; subst.
    + pose proof (taken _ _ _ _ _ _ _ _ HP Hc) as Ht. cbn zeta in Ht. destruct r as [n|e].
      * destruct Ht as (-> & _ & Ht). by apply t_retire.
      * by apply t_down.
    + apply t_down. by eapply stopped_down.
Qed.

Lemma t_ok {A} (a : A) (P : A -> System -> Prop) : stable (P a) -> triple (P a) (Ret (Ok a)) (post P).
Proof. intros Hst. by apply t_ret. Qed.

Lemma t_weaken {A} P P' (p : Prog A) Q : (forall s, P s -> P' s) -> triple P' p Q -> triple P p Q.
Proof. intros HP Hp s HPs. auto. Qed.

Lemma wp_mono {A} (Q Q' : result A -> System -> Prop) p s : (forall r s, Q r s -> Q' r s) -> wp Q p s -> wp Q' p s.
Proof. intros HQ Hp. induction Hp as [p s Hs Hr Hst IH]. constructor; auto. Qed.

Lemma t_drain L hb sub win ob h :
  triple (At L hb sub win ob sub win ob h) drain_pending_apply (post (fun _ => At L hb [] win ob [] win ob h)).
Proof.
  apply t_seq with (R := fun _ => At L hb [] win ob [] win ob h); [|intros _; apply t_check_at]. unfold ROUNDS.
  assert (forall n, triple (At L hb [] win ob [] win ob h) (drain_loop (S n)) (post (fun _ => At L hb [] win ob [] win ob h))) as Hdone.
  { intros n. cbn [drain_loop]. apply t_read; [auto with stable|]. intros p. destruct (submitted_blocks p =? 0)%nat eqn:E.
    - eapply t_weaken; [|apply (t_ok tt (fun _ => At L hb [] win ob [] win ob h)); auto with stable]. tauto.
    - intros s [(_ & _ & Ho & _) <-]. rewrite (ow_submitted _ _ _ _ _ Ho) in E. done. }
  destruct (decide (sub = [])) as [->|Hne]; [apply Hdone|]. cbn [drain_loop]. apply t_read; [auto with stable|].
  intros p. destruct (submitted_blocks p =? 0)%nat eqn:E.
  - intros s [(_ & _ & Ho & _) <-]. rewrite (ow_submitted _ _ _ _ _ Ho) in E. by destruct sub.
  - eapply t_weaken; [|apply t_seq with (R := fun _ => At L hb [] win ob [] win ob h); [by apply t_wait|intros _; apply (Hdone 0%nat)]]. tauto.
Qed.

Lemma t_try L hb sub win ob h (k : Completion -> Prog unit) Q :
  triple (At L hb sub win ob sub win ob h) (k Empty) Q ->
  (sub <> [] -> triple (At L hb [] win ob sub win ob h) (k (Received (Ok (length sub)))) Q) ->
  (forall e, triple down (k (Received (Err e))) Q) -> triple down (k Disconnected) Q ->
  triple (At L hb sub win ob sub win ob h) (TryRecv k) Q.
Proof.
  intros Hempty Hok Herr Hgone. apply wp_node; [auto with stable| |done|].
  - intros s _. right. left. destruct (completion s) as [r|] eqn:Hc; [eexists; by apply pr_received|].
    destruct (worker s) eqn:Hw; first [by eexists; apply pr_empty; rewrite ?Hw|by eexists; apply pr_disconnected].
  - intros s s1 p1 HP Hs. inversion Hs as [| | |? r ? Hc|? ? Hc Hw|? ? Hc Hw| | | | | | |]; subst.
    + pose proof (taken _ _ _ _ _ _ _ _ HP Hc) as Ht. cbn zeta in Ht. destruct r as [n|e].
      * destruct Ht as (-> & Hne & Ht). by apply Hok.
      * by apply Herr.
    + by apply Hempty.
    + apply Hgone. by eapply stopped_down.
Qed.

(** What [collect_completed] leaves in flight: the window, or nothing. *)
Definition collected L hb sub win ob h (s : System) : Prop :=
  At L hb sub win ob sub win ob h s \/ At L hb [] win ob [] win ob h s.

Lemma or_stable P Q : stable P -> stable Q -> stable (fun s => P s \/ Q s).
Proof. intros [Ps Pt] [Qs Qt]. split; [intros s [?|?]; auto|]. intros s s' [?|?] Hw; [left|right]; eauto. Qed.

Lemma collected_stable L hb sub win ob h : stable (collected L hb sub win ob h).
Proof. apply or_stable; apply at_stable. Qed.
Hint Resolve collected_stable down_stable : stable.

Lemma t_or {A} P P' (p : Prog A) Q : triple P p Q -> triple P' p Q -> triple (fun s => P s \/ P' s) p Q.
Proof. intros Hp Hp' s [?|?]; auto. Qed.

Lemma t_collect L hb sub win ob h :
  triple (At L hb sub win ob sub win ob h) collect_completed (post (fun _ => collected L hb sub win ob h)).
Proof.
  apply t_seq with (R := fun _ => At L hb sub win ob sub win ob h); [apply t_check_at|intros _]. unfold ROUNDS.
  assert (triple (At L hb [] win ob [] win ob h) (collect_loop 1) (post (fun _ => collected L hb sub win ob h))) as Hdone.
  { cbn [collect_loop]. apply t_try; [|done|intros e; apply t_down|apply t_down].
    apply t_ret; [auto with stable|by right]. }
  cbn [collect_loop]. apply t_try; [apply t_ret; [auto with stable|by left]| |intros e; apply t_down|apply t_down].
  intros Hne. change (triple (At L hb [] win ob sub win ob h) (local (retire_apply (length sub));; collect_loop 1)
    (post (fun _ => collected L hb sub win ob h))).
  apply t_seq with (R := fun _ => At L hb [] win ob [] win ob h); [by apply t_retire|intros _; exact Hdone].
Qed.

Lemma t_ex {A X} (P : X -> System -> Prop) (p : Prog A) Q : (forall x, triple (P x) p Q) -> triple (fun s => exists x, P x s) p Q.
Proof. intros Hp s [x Hx]. by apply (Hp x). Qed.

Lemma ex_stable {X} (P : X -> System -> Prop) : (forall x, stable (P x)) -> stable (fun s => exists x, P x s).
Proof. intros HP. split; [intros s [x Hx]; by apply (HP x)|]. intros s s' [x Hx] Hw. exists x. by eapply HP. Qed.

Lemma pure_stable (P : System -> Prop) (X : Prop) : stable P -> stable (fun s => X /\ P s).
Proof. intros [Ps Pt]. split; [intros s [_ ?]; auto|]. intros s s' [? ?] Hw. eauto. Qed.

(** With fewer than 100 blocks in the window nothing has to wait. *)
Lemma t_reserve L hb sub win ob h : (length win < PUBLICATION_BLOCKS)%nat ->
  triple (At L hb sub win ob sub win ob h) reserve_persistence (post (fun _ => collected L hb sub win ob h)).
Proof.
  intros Hl. apply t_seq with (R := fun _ => collected L hb sub win ob h); [apply t_collect|intros _]. unfold ROUNDS.
  assert (forall sub', triple (At L hb sub' win ob sub' win ob h) (reserve_loop 2) (post (fun _ => At L hb sub' win ob sub' win ob h))) as Hloop.
  { intros sub'. cbn [reserve_loop]. apply t_read; [auto with stable|]. intros p. destruct (_ <=? _)%nat eqn:E.
    - intros s [(_ & _ & Ho & _) <-]. exfalso. apply Nat.leb_le in E. rewrite (ow_pending _ _ _ _ _ Ho), length_app in E.
      unfold ents in E. rewrite !length_fmap in E. pose proof (ow_small _ _ _ _ _ Ho). unfold MAX_PENDING_BLOCKS in E. lia.
    - eapply t_weaken; [|apply (t_ok tt (fun _ => At L hb sub' win ob sub' win ob h)); auto with stable]. tauto. }
  apply t_or; intros s Hs; (eapply wp_mono; [|by apply Hloop]); intros [[]|e] s' Hr; auto; [by left|by right].
Qed.

(** ** Publication *)

Lemma take_window_spec win b hb p : Own [] win (Some b) hb p -> (length win <= PUBLICATION_BLOCKS)%nat ->
  exists p', take_window p = (p', Ok (win, b)) /\ Own win [] None hb p' /\ fp_height p' = fp_height p.
Proof.
  intros [Ew Eb Eso Es Hsm Ep Eo Hn Hb] Hl.
  exists (with_window p [] None (length win)). split; [|split; [|done]].
  - unfold take_window. do 2 erewrite sr_bind_ok by done. rewrite Eb, Ew. by do 2 erewrite sr_bind_ok by done.
  - cbn. split; cbn; rewrite ?Ew; try done. by rewrite Ep, app_nil_r.
Qed.

Lemma t_send L hb win b h : win <> [] ->
  triple (At L hb [] win (Some b) win [] None h) (Send win b (fun r => Ret r)) (post (fun _ => At L hb win [] None win [] None h)).
Proof.
  intros Hne. apply wp_node; [auto with stable| |done|].
  - intros s ((hist & d & Hi) & _). destruct (some_phase _ _ _ _ _ _ _ _ _ Hi) as (pubd & h0 & rest & Hph). right. left.
    destruct Hph as [Hs W C R D N Hd|b1 Hs W C R D N Hd|k b1 h1 rest Hs W Hk C R D N Hd Eh Er|Hs W C R D N Hd|pubd h1 rest W C E R D N Hd Hs Hl]; try done.
    + eexists. apply pr_send; [by rewrite W|done].
    + eexists. apply pr_send_stopped. by apply Hs.
  - intros s s1 p1 HP Hs. inversion Hs as [| | | | | | | |? ? ? ? W C|? ? ? ? W| | |]; subst.
    + apply (t_ok tt (fun _ => At L hb win [] None win [] None h)); [auto with stable|].
      destruct HP as ((hist & d & Hi) & HL & Ho & Eh). split; [|done]. exists hist, d. by apply send_inv.
    + apply t_down. by eapply stopped_down.
Qed.

Lemma t_publish L hb sub win ob h : (length win <= PUBLICATION_BLOCKS)%nat ->
  triple (At L hb sub win ob sub win ob h) publish_pending (post (fun _ s => exists sub' ob', At L hb sub' [] ob' sub' [] ob' h s)).
Proof.
  intros Hl. apply t_read; [auto with stable|]. intros p. destruct (_ =? 0)%nat eqn:E.
  - apply t_ret; [by apply read_stable, at_stable|]. intros s [HP <-]. pose proof HP as (_ & _ & Ho & _).
    rewrite (ow_window _ _ _ _ _ Ho) in E. apply Nat.eqb_eq, nil_length_inv in E as ->. by exists sub, ob.
  - intros s [HP <-]. pose proof HP as (_ & _ & Ho & _). rewrite (ow_window _ _ _ _ _ Ho) in E.
    assert (win <> []) as Hne by (by intros ->). destruct (ow_some _ _ _ _ _ Ho Hne) as [b ->]. revert s HP Ho E.
    cut (triple (At L hb sub win (Some b) sub win (Some b) h)
      (drain_pending_apply;; '(blocks, boundary) ← local take_window; check_worker;; Send blocks boundary (fun r => Ret r))
      (post (fun _ s => exists sub' ob', At L hb sub' [] ob' sub' [] ob' h s))); [by intros Hc s HP _ _; apply Hc|].
    apply t_seq with (R := fun _ => At L hb [] win (Some b) [] win (Some b) h); [apply t_drain|intros _].
    apply t_seq with (R := fun a s => a = (win, b) /\ At L hb [] win (Some b) win [] None h s).
    + apply t_local; [auto with stable|intros; apply post_stable; intros; apply pure_stable; auto with stable|].
      intros s ((hist & d & Hi) & HL & Ho & Eh). destruct (take_window_spec _ _ _ _ Ho Hl) as (p' & Et & Ho' & Eh'). rewrite Et. cbn.
      split; [done|]. split; [exists hist, d; by apply inv_producer|]. split_and!; [done|done|]. cbn. by rewrite Eh'.
    + intros [blocks boundary] s [[= -> ->] Hs]. revert s Hs. change (triple (At L hb [] win (Some b) win [] None h)
        (check_worker;; Send win b (fun r => Ret r)) (post (fun _ s => exists sub' ob', At L hb sub' [] ob' sub' [] ob' h s))).
      apply t_seq with (R := fun _ => At L hb [] win (Some b) win [] None h); [apply t_check_at|intros _].
      intros s Hs. eapply wp_mono; [|by apply t_send]. intros [[]|e] s' Hr; [|done]. by exists win, None.
Qed.

(** ** The calls *)

(** Between two calls: [L] are the blocks so far, at most [hb] high, [h] the producer's height. *)
Definition Held (L : list JournalEntryData) (hb h : Z) (s : System) : Prop :=
  exists sub win ob, (length win < PUBLICATION_BLOCKS)%nat /\ At L hb sub win ob sub win ob h s.

Definition Ready (s : System) : Prop := exists L hb h, hb <= h /\ Held L hb h s.

Lemma held_stable L hb h : stable (Held L hb h).
Proof. unfold Held. repeat (apply ex_stable; intros ?). apply pure_stable, at_stable. Qed.

Lemma ready_stable : stable Ready.
Proof. unfold Ready. repeat (apply ex_stable; intros ?). apply pure_stable, held_stable. Qed.
Hint Resolve held_stable ready_stable : stable.

Lemma t_append L hb sub win ob h block : next_block U rows (after L) block ->
  triple (At L hb sub win ob sub win ob h) (Append block (fun r => Ret r))
    (post (fun b => At (L ++ [pb_entry block]) hb sub (win ++ [block]) (Some b) sub win ob h)).
Proof.
  intros Hnext. apply wp_node; [auto with stable| |done|].
  - intros s _. right. left.
    destruct (append_block (fun _ => true) (pb_entry block) (pb_header block) (pb_proof block) (pb_proof_forest_rows block) (ps_journal (shared s)))
      as [j r] eqn:E. eexists. by eapply pr_append.
  - intros s s1 p1 ((hist & d & Hi) & <- & Ho & Eh) Hs. inversion Hs as [|? io ? ? j r E| | | | | | | | | | |]; subst.
    pose proof (append_inv U rows a0 io _ _ _ _ _ _ _ _ _ Hi Hnext E) as Hi'. cbn zeta in Hi'. destruct r as [b|e].
    + apply (t_ok b (fun b => At (appended s ++ [pb_entry block]) hb sub (win ++ [block]) (Some b) sub win ob (fp_height (producer s)))); [auto with stable|].
      split; [by exists hist, d|done].
    + apply (t_ret (err e)); [apply err_stable|done|]. split; [by exists sub, win, ob, hist, d|]. right. left. by do 7 eexists.
Qed.

Lemma enqueue_spec sub win ob hb p block b : Own sub win ob hb p -> hb < height (pb_entry block) ->
  exists p', enqueue block b p = (p', Ok tt) /\ Own sub (win ++ [block]) (Some b) (height (pb_entry block)) p' /\ fp_height p' = fp_height p.
Proof.
  intros [Ew Eb Eso Es Hsm Ep Eo Hn Hb] Hh.
  exists (with_pending (with_window p (win ++ [block]) (Some b) (submitted_blocks p)) (push (overlay p) (pb_entry block)) (pending_apply p ++ [pb_entry block])).
  split; [|split; [|done]].
  - unfold enqueue. erewrite sr_bind_ok by (unfold modify; by rewrite Ew). done.
  - split; cbn; try done.
    + rewrite Ep, ents_app. by rewrite <- app_assoc.
    + rewrite Eo. unfold push_all. by rewrite foldl_app.
    + rewrite fmap_app. apply NoDup_app. split_and!; [done| |apply NoDup_singleton].
      intros x Hx. cbn. rewrite list_elem_of_singleton. intros ->. apply list_elem_of_fmap in Hx as (e & Ee & He).
      rewrite Forall_forall in Hb. specialize (Hb e He). lia.
    + apply Forall_app. split; [|by constructor]. eapply Forall_impl; [exact Hb|]. intros e He. cbn in He. lia.
Qed.

Lemma t_prove L hb h block : hb < height (pb_entry block) -> next_block U rows (after L) block ->
  triple (Held L hb h) (prove_block block) (post (fun _ => Held (L ++ [pb_entry block]) (height (pb_entry block)) (height (pb_entry block)))).
Proof.
  intros Hh Hnext. set (e := pb_entry block) in *.
  intros s (sub & win & ob & Hl & Hs). revert s Hs.
  change (triple (At L hb sub win ob sub win ob h) (prove_block block) (post (fun _ => Held (L ++ [e]) (height e) (height e)))).
  apply t_seq with (R := fun _ => collected L hb sub win ob h); [by apply t_reserve|intros _].
  cut (forall sub, triple (At L hb sub win ob sub win ob h)
    (boundary ← Append block (fun r => Ret r); local (enqueue block boundary);; p ← local get;
     (if (length (publication_window p) =? PUBLICATION_BLOCKS)%nat then publish_pending else Ret (Ok tt));;
     local (modify (fun p => with_own_tip p (height e) (block_hash e)))) (post (fun _ => Held (L ++ [e]) (height e) (height e)))).
  { intros Hc. by apply t_or. }
  clear sub. intros sub.
  eapply t_seq; [by apply t_append|]. intros b. fold e.
  apply t_seq with (R := fun _ => At (L ++ [e]) (height e) sub (win ++ [block]) (Some b) sub (win ++ [block]) (Some b) h).
  { apply t_local; [auto with stable|intros; apply post_stable; auto with stable|].
    intros s ((hist & d & Hi) & HL & Ho & Eh). destruct (enqueue_spec _ _ _ _ _ _ b Ho Hh) as (p' & Et & Ho' & Eh'). rewrite Et. cbn.
    split; [exists hist, d; by apply inv_producer|]. split_and!; [done|done|]. cbn. by rewrite Eh'. }
  intros _. apply t_read; [auto with stable|]. intros p.
  apply t_seq with (R := fun _ => Held (L ++ [e]) (height e) h).
  - intros s [HP <-]. pose proof HP as (_ & _ & Ho & _). rewrite (ow_window _ _ _ _ _ Ho). revert s HP Ho.
    destruct (_ =? _)%nat eqn:E; intros s HP _.
    + apply Nat.eqb_eq in E. eapply wp_mono; [|refine (t_publish _ _ _ _ _ _ _ s HP); lia].
      intros [[]|er] s' Hr; [|done]. destruct Hr as (sub' & ob' & Hr). exists sub', [], ob'. split; [unfold PUBLICATION_BLOCKS; cbn; lia|done].
    + revert s HP. apply (t_ret _ (Ok tt)); [auto with stable|]. intros s HP. exists sub, (win ++ [block]), (Some b).
      split; [|done]. apply Nat.eqb_neq in E. rewrite length_app in *. cbn in *. lia.
  - intros _. apply t_local; [auto with stable|intros; apply post_stable; auto with stable|].
    intros s (sub' & win' & ob' & Hl' & (hist & d & Hi) & HL & Ho & Eh). cbn. exists sub', win', ob'. split; [done|].
    split; [exists hist, d; by apply inv_producer|]. split_and!; [done| |done]. by destruct Ho.
Qed.

(** A barrier waits for an idle worker. *)
Lemma t_barrier L hb win ob h op Q :
  (forall r, stable (Q r)) ->
  (forall s ps env kernel r, At L hb [] win ob [] win ob h s -> worker s = Idle -> barrier env kernel op (shared s) = (ps, r) ->
     match r with
     | Ok tip => Q (Ok tip) (with_channels (with_shared s ps (kept s ps)) (if is_clean_shutdown op then Stopped else Idle) (command s) (completion s))
     | Err e => exists win' ob' hist d, Inv [] win' ob' hist d (with_shared s ps (kept s ps))
     end) ->
  (forall e s, down s -> Q (Err e) s) ->
  triple (At L hb [] win ob [] win ob h) (Barrier op (fun r => Ret r)) Q.
Proof.
  intros HQ Hop Hdown. apply wp_node; [auto with stable| |done|].
  - intros s ((hist & d & Hi) & _). destruct (some_phase _ _ _ _ _ _ _ _ _ Hi) as (pubd & h0 & rest & Hph). right. left.
    destruct Hph as [Hs W C R D N Hd|b1 Hs W C R D N Hd|k b1 h1 rest Hs W Hk C R D N Hd Eh Er|Hs W C R D N Hd|pubd h1 rest W C E R D N Hd Hs Hl]; try done.
    + set (env := {| io := fun _ _ => true; torn := ps_forest (shared s); tolerated := true |}).
      destruct (barrier env full_kernel op (shared s)) as [ps [tip|e]] eqn:Eb; [eexists; by eapply pr_barrier|].
      destruct (finish_failed_ok env ps) as [ps' Ef]. eexists. by eapply pr_barrier_failed.
    + eexists. apply pr_barrier_stopped. by apply Hs.
  - intros s s1 p1 HP Hs. inversion Hs as [| | | | | | | | | |? env kernel ? ? ps tip W C E|? env env' kernel ? ? ps ps' e W C E E'|? ? ? W]; subst.
    + apply (t_ret (Q (Ok tip))); [done|done|]. by eapply (Hop _ _ _ _ (Ok tip)).
    + apply (t_ret down); [apply down_stable|by intros; apply Hdown|].
      destruct (Hop _ ps env kernel (Err e) HP W E) as (win' & ob' & hist & d & Hi). split; [|by right].
      exists [], win', ob', hist, d.
      assert (kept s ps' = kept s ps) as -> by (apply finish_failed_inv in E' as (_ & Ej & _); unfold kept; by rewrite Ej).
      by eapply (barrier_stop U rows a0 win' ob' hist d (with_shared s ps (kept s ps)) env' e).
    + apply (t_ret down); [apply down_stable|by intros; apply Hdown|]. by eapply stopped_down.
Qed.

(** Everything is published, applied and flushed. *)
Definition Synced (L : list JournalEntryData) (hb h : Z) (s : System) : Prop := exists ob, At L hb [] [] ob [] [] ob h s.

Lemma synced_stable L hb h : stable (Synced L hb h).
Proof. apply ex_stable. intros ob. apply at_stable. Qed.
Hint Resolve synced_stable : stable.

Lemma t_run_barrier L hb win ob h op R :
  (forall a, stable (R a)) -> triple (At L hb [] win ob [] win ob h) (Barrier op (fun r => Ret r)) (post R) ->
  triple (At L hb [] win ob [] win ob h) (run_worker_barrier op) (post R).
Proof. intros HR Hb. eapply t_seq; [apply t_check_at|intros []; exact Hb]. Qed.

(** The worker waits or is gone, and has flushed every store; its tip is [height], [hash]. *)
Definition Settled (height : Z) (hash : bytes) (s : System) : Prop :=
  (command s = None /\ (worker s = Idle \/ worker s = Stopped)) /\ flushed (shared s) /\
  ps_height (shared s) = height /\ ps_tip_hash (shared s) = hash.

Lemma settled_stable P height hash : stable P -> stable (fun s => P s /\ Settled height hash s).
Proof.
  intros HP. apply and_stable; [done|]. intros s s' _ ([Hc [Hw|Hw]] & _) Hs; destruct Hs; congruence.
Qed.

(** What [sync] ends with. *)
Definition Durable (L : list JournalEntryData) (hb h : Z) (s : System) : Prop :=
  Synced L hb h s /\ Settled (fp_height (producer s)) (fp_tip_hash (producer s)) s.

Lemma t_sync_barrier L hb ob h clean : triple (At L hb [] [] ob [] [] ob h) (run_worker_barrier (Sync clean))
  (post (fun tip s => At L hb [] [] ob [] [] ob h s /\ Settled (dt_height tip) (dt_hash tip) s)).
Proof.
  assert (forall tip, stable (fun s => At L hb [] [] ob [] [] ob h s /\ Settled (dt_height tip) (dt_hash tip) s)) as Hst
    by (intros; apply settled_stable, at_stable).
  apply t_run_barrier; [done|]. apply t_barrier; [intros; by apply post_stable| |by intros e s [Hs Hd]; split; [|left]].
  intros s ps env kernel r ((hist & d & Hi) & HL & Ho & Eh) Hw E.
  pose proof (sync_barrier_inv U rows a0 _ _ _ _ _ _ _ _ _ _ Hi Hw E) as Hi'.
  destruct r as [tip|e]; [|by exists [], ob, hist, d].
  destruct (some_phase _ _ _ _ _ _ _ _ _ Hi) as (pubd & h0 & rest & Hph).
  destruct (idle_phase _ _ _ _ _ _ _ _ Hph Hw) as (_ & _ & _ & C & _). destruct (sync_settles _ _ _ _ _ _ E) as (Hfl & Et & Et').
  split; [split|split_and!; [done|by destruct clean; [right|left]|done..]].
  - exists hist, d. by apply (barrier_done U rows a0 _ _ _ _ (with_shared s ps (kept s ps)) clean).
  - split; [|done]. rewrite <- HL, (in_appended _ _ _ _ _ _ _ _ _ Hi). exact (in_appended _ _ _ _ _ _ _ _ _ Hi').
Qed.

Lemma t_sync L hb h clean : triple (Held L hb h) (sync clean) (post (fun _ => Durable L hb h)).
Proof.
  intros s (sub & win & ob & Hl & Hs). revert s Hs.
  change (triple (At L hb sub win ob sub win ob h) (sync clean) (post (fun _ => Durable L hb h))).
  eapply t_seq; [apply t_publish; lia|intros []]. apply t_ex. intros sub'. apply t_ex. intros ob'.
  eapply t_seq; [apply t_drain|intros []].
  eapply t_seq; [apply t_sync_barrier|intros tip].
  apply t_read; [by apply settled_stable, at_stable|]. intros p. apply t_ret; [by apply read_stable, settled_stable, at_stable|].
  intros s [[HP (Hc & Hfl & Et & Et')] <-]. destruct (require _ _) as [[]|e] eqn:Er.
  - unfold require in Er. destruct (_ && _) eqn:Eb; [|done]. apply andb_true_iff in Eb as [E1%Z.eqb_eq E2%bool_decide_eq_true_1].
    split; [by exists ob'|]. split_and!; [apply Hc|apply Hc|done|congruence|congruence].
  - split; [by apply (st_safe _ (at_stable _ _ _ _ _ _ _ _ _) _ HP)|].
    right. right. unfold require in Er. destruct (_ && _); [done|]. by injection Er as <-.
Qed.

(** An empty window needs no boundary. *)
Lemma inv_boundary sub ob ob' hist d s : Inv sub [] ob hist d s -> Inv sub [] ob' hist d s.
Proof.
  intros [Hf Hr Ha Hw Hj]. split; try done. destruct Hj as [(pubd & h & rest & old & pub & pend & Hph & [])|Hj]; [left|by right].
  exists pubd, h, rest, old, pub, pend. split; [done|]. by split.
Qed.

(** The window is dropped; what was reported stays. *)
Lemma t_discard L hb h : triple (Held L hb h) discard_window
  (post (fun _ s => exists L' win h', L = L' ++ ents win /\ (Held L hb h s \/ Synced L' h' h' s))).
Proof.
  intros s (sub & win & ob & Hl & Hs). revert s Hs.
  change (triple (At L hb sub win ob sub win ob h) discard_window
    (post (fun _ s => exists L' win h', L = L' ++ ents win /\ (Held L hb h s \/ Synced L' h' h' s)))).
  apply t_seq with (R := fun _ => At L hb [] win ob [] win ob h); [apply t_drain|intros []].
  apply t_read; [auto with stable|]. intros p. destruct (_ =? 0)%nat eqn:E.
  { apply t_ret; [by apply read_stable, at_stable|]. intros s [HP _]. exists L, [], h. split; [by rewrite app_nil_r|]. left. by exists [], win, ob. }
  eapply t_weaken with (P' := At L hb [] win ob [] win ob h); [tauto|].
  apply t_seq with (R := fun _ s => exists L', L = L' ++ ents win /\ At L' hb [] [] ob [] win ob h s).
  - assert (forall L', stable (fun s => L = L' ++ ents win /\ At L' hb [] [] ob [] win ob h s)) as Hst by (intros; apply pure_stable, at_stable).
    apply t_run_barrier; [intros; by apply ex_stable|].
    apply t_barrier; [intros; apply post_stable; intros; by apply ex_stable| |by intros e s [Hs Hd]; split; [|left]].
    intros s ps env kernel r ((hist & d & Hi) & HL & Ho & Eh) Hw Eb.
    destruct (discard_barrier_inv U rows a0 _ _ _ _ _ _ _ _ _ Hi Hw Eb) as [(Hi' & Ek)|(Hno & Hi')].
    + destruct r as [tip|e]; [|by exists [], ob, hist, d]. exists hist.
      split; [rewrite <- HL; apply (in_appended _ _ _ _ _ _ _ _ _ Hi)|].
      split; [exists hist, d; by apply (barrier_done U rows a0 _ _ _ _ (with_shared s ps (kept s ps)) false)|done].
    + destruct r as [tip|e]; [done|by exists win, ob, hist, d].
  - intros tip. apply t_ex. intros L'. intros s [-> HP]. revert s HP.
    apply t_local; [auto with stable|intros r; apply post_stable; intros; repeat (apply ex_stable; intros ?); apply pure_stable, or_stable; auto with stable|].
    intros s ((hist & d & Hi) & HL & Ho & Eh). cbn. exists L', win, (dt_height tip). split; [done|]. right. exists None.
    split; [exists hist, d; by eapply inv_producer, inv_boundary|]. split_and!; [done| |done].
    split; cbn; try done; [apply Ho|unfold PUBLICATION_BLOCKS; lia|constructor].
Qed.

End Contract.
End PipelineContract.
