(* ===== verification/PipelineSession.v ===== *)
(** Whole runs of the pipeline: the producer's calls one after the other, the
    worker's steps in between, a crash at any time.  The theorems say that a
    restart recovers, that the producer reads the forest after all its blocks,
    and that every call returns. *)

From S2P Require Import Prelude Bytes Files Positions JournalEntry Forest SteadyState Accumulator PlanUpdate LeafMap Replay Udata JournalFile JournalRecord JournalMarker JournalSafety JournalImport JournalContract ProofStore HeaderIndex Persistence Pipeline PipelineForest PipelineSafety PipelineCalls PipelineContract.
Import Files.Files JournalEntry.JournalEntry Forest.Forest SteadyState.SteadyState Accumulator.Accumulator PlanUpdate.PlanUpdate LeafMap.LeafMap Replay.Replay JournalFile.JournalFile JournalRecord.JournalRecord JournalMarker.JournalMarker JournalSafety.JournalSafety JournalImport.JournalImport Persistence.Persistence Pipeline.Pipeline PipelineForest.PipelineForest PipelineSafety.PipelineSafety PipelineCalls.PipelineCalls PipelineContract.PipelineContract.

Module PipelineSession.

#[local] Arguments after_blocks : simpl never.
#[local] Arguments apply_all : simpl never.

Section Session.
Context `{NodeHashing} `{Sha256Laws} `{LeafMapDb} `{!LeafMapLaws} `{BitcoinCodec} `{HeaderCodec} `{KvStore} `{HeightsDb}.
Context `{!EqDecision Header} `{!EqDecision Udata.Udata.CompactBlockProof}.

(** ** Runs *)

Inductive Call := CollectCall | ProveCall (block : PersistenceBlock) | SyncCall (clean_shutdown : bool) | DiscardCall.

Definition program (c : Call) : Prog unit :=
  match c with
  | CollectCall => collect_completed
  | ProveCall block => prove_block block
  | SyncCall clean_shutdown => sync clean_shutdown
  | DiscardCall => discard_window
  end.

Definition Config : Type := System * Prog unit.

(** One step of either thread. *)
Inductive step (U : OutPoint -> Prop) : Config -> Config -> Prop :=
| st_worker s s' p : worker_step U s s' -> step U (s, p) (s', p)
| st_producer c c' : producer_step c c' -> step U c c'.

Section Runs.
Context (U : OutPoint -> Prop) (rows : Z) (a0 : AbsForest).

Abbreviation after := (after_blocks rows a0).

(** What a call may be given: [process_block] plans a block over the forest after
    all blocks so far, and at a greater height. *)
Definition admissible (s : System) (c : Call) : Prop :=
  match c with
  | ProveCall block => next_block U rows (after (appended s)) block /\ fp_height (producer s) < height (pb_entry block)
  | _ => True
  end.

(** The states of a run that starts in [s0]: a call that returned an error is the last one. *)
Inductive reachable (s0 : System) : Config -> Prop :=
| rc_start : reachable s0 (s0, Ret (Ok tt))
| rc_call s c : reachable s0 (s, Ret (Ok tt)) -> admissible s c -> reachable s0 (s, program c)
| rc_step c c' : reachable s0 c -> step U c c' -> reachable s0 c'.

(** A prover that [FlatFileProver::new] has just built, with the forest [a0]: the published
    records of its journal lead to [a0]. *)
Record started (s : System) : Prop := {
  sd_producer : exists h hash, producer s = {| publication_window := []; publication_boundary := None; submitted_blocks := 0;
    overlay := empty_overlay; pending_apply := []; fp_height := h; fp_tip_hash := hash |};
  sd_threads : worker s = Idle /\ command s = None /\ completion s = None /\ worker_error s = None;
  sd_ghosts : ps_unflushed (shared s) = [] /\ appended s = [] /\ reported s = 0%nat;
  sd_forest : refines U (ps_forest (shared s)) a0 /\ ss_rows (ps_forest (shared s)) = rows;
  sd_journal : exists old pub a, inv (ps_journal (shared s)) old pub [] /\
    history U rows a (recs (old ++ pub)) /\ after_records rows a (recs (old ++ pub)) ≡ a0
}.

(** What opening the forest's files after a crash finds: everything that was flushed, and of the entries at risk
    any part.  [None]: the leaf map's database does not open again, which its format allows when a hard crash
    comes before its allocator was sealed ([README.md], the limitation of the runtime database). *)
Definition crash_forest (s : System) (o : option SteadyStateForest) : Prop :=
  match o with
  | Some f =>
      ss_rows f = ss_rows (ps_forest (shared s)) /\
      forall d, refines U (ps_forest (shared s)) d -> exists d', refines U f d' /\ agree_but rows (at_risk s) d' d /\
        (at_risk s = [] -> ab_leaves d' = ab_leaves d)
  | None => at_risk s <> []
  end.

(** The worker is between the first write of a window to the forest and its flush, or has failed. *)
Definition applying (s : System) : Prop :=
  (exists stages blocks b, worker s = Running (StApply :: stages) blocks b \/ worker s = Running (StFlush :: stages) blocks b) \/
  is_Some (worker_error s).

End Runs.

(** ** The invariant of runs *)

Section Proofs.
Context (U : OutPoint -> Prop).
Context (Hinj : forall o o', U o -> U o' -> leaf_map_key o = leaf_map_key o' -> o = o').
Context (rows : Z) (a0 : AbsForest).

Abbreviation after := (after_blocks rows a0).
Abbreviation wpr := (wp U rows a0 (post U rows a0 (fun _ => Ready U rows a0))).

Lemma started_ready s : started U rows a0 s -> Ready U rows a0 s.
Proof.
  intros [(h & hash & Ep) (Hw & Hc & Hr & _) (Hd & Ha & Hn) [Hf Hrows] (old & pub & a & Hi & Hch & Haft)].
  exists [], h, h. split; [lia|]. exists [], [], None. split; [unfold PUBLICATION_BLOCKS; cbn; lia|].
  split; [|split; [done|split; [|by rewrite Ep]]].
  - exists [], a0. split; [done|done|done|constructor|]. left. exists true, [], [], old, pub, []. split.
    + apply ph_idle; try done. by rewrite Hn.
    + split; try done; [|intros b [?|?]; congruence]. exists a, (recs (old ++ pub)). cbn. rewrite app_nil_r.
      split_and!; [done|done|done|apply agree_but_refl|done].
  - rewrite Ep. split; cbn; try done; [unfold PUBLICATION_BLOCKS; lia|apply NoDup_nil_2].
Qed.

Lemma call_wp s c : Ready U rows a0 s -> admissible U rows a0 s c -> wpr (program c) s.
Proof.
  intros (L & hb & h & Hb & Hs) Hc. pose proof Hs as (sub & win & ob & Hl & _ & HL & _ & Eh).
  assert (forall s L' h', Synced U rows a0 L' h' h' s -> Ready U rows a0 s) as Hsy.
  { intros s' L' h' [ob' Hs']. exists L', h', h'. split; [lia|]. exists [], [], ob'. split; [unfold PUBLICATION_BLOCKS; cbn; lia|done]. }
  destruct c as [|block|clean|]; cbn in *.
  - destruct Hs as (sub' & win' & ob' & Hl' & Hs). eapply wp_mono; [|by eapply (t_collect U Hinj)].
    intros [[]|e] s' Hr; [|done]. exists L, hb, h. split; [done|].
    destruct Hr as [Hr|Hr]; [by exists sub', win', ob'|by exists [], win', ob'].
  - destruct Hc as [Hn Hh]. subst h L. eapply wp_mono; [|eapply (t_prove U Hinj rows a0 (appended s) hb); [lia|done|done]].
    intros [[]|e] s' Hr; [|done]. do 3 eexists. by split; [|exact Hr].
  - eapply wp_mono; [|by eapply (t_sync U Hinj)]. intros [[]|e] s' Hr; [|done]. destruct Hr as [[ob' Hr] _].
    exists L, hb, h. split; [done|]. exists [], [], ob'. split; [unfold PUBLICATION_BLOCKS; cbn; lia|done].
  - eapply wp_mono; [|by eapply (t_discard U Hinj)]. intros [[]|e] s' Hr; [|done].
    destruct Hr as (L' & w & h' & _ & [Hr|Hr]); [by exists L, hb, h|by eapply Hsy].
Qed.

Lemma wp_worker {A} Q (p : Prog A) s s' : wp U rows a0 Q p s -> worker_step U s s' -> wp U rows a0 Q p s'.
Proof.
  intros [Hsafe Hret Hnext] Hs. constructor; intros.
  - apply Hsafe. by eapply rtc_l.
  - eapply Hret; [done|]. by eapply rtc_l.
  - eapply Hnext; [|done]. by eapply rtc_l.
Qed.

Lemma wp_ret {A} Q (r : result A) s : wp U rows a0 Q (Ret r) s -> Q r s.
Proof. intros [_ Hret _]. by apply Hret. Qed.

Lemma wp_any_step Q (p p' : Prog unit) s s' : wp U rows a0 Q p s -> step U (s, p) (s', p') -> wp U rows a0 Q p' s'.
Proof.
  intros Hp Hs. inversion Hs; subst; [by eapply wp_worker|]. destruct Hp as [_ _ Hnext]. by eapply Hnext.
Qed.

Lemma reachable_wp s0 c : started U rows a0 s0 -> reachable U rows a0 s0 c -> wpr c.2 c.1.
Proof.
  intros Hst Hr. induction Hr as [|s c Hr IH Hc|[s p] [s' p'] Hr IH Hs]; cbn in *.
  - apply (t_ret U rows a0 (Ready U rows a0) (Ok tt)); [by apply ready_stable|done|by apply started_ready].
  - apply call_wp; [|done]. by apply wp_ret in IH.
  - by eapply wp_any_step.
Qed.

Lemma reachable_safe s0 c : started U rows a0 s0 -> reachable U rows a0 s0 c -> safe U rows a0 c.1 /\ progress U c.2 c.1.
Proof. intros Hst Hr. pose proof (reachable_wp _ _ Hst Hr) as [Hsafe _ _]. by apply Hsafe. Qed.

(** ** Crashes *)

Lemma phase_reported s sub hist d pubd h rest : phase rows a0 s sub hist d pubd h rest ->
  (reported s <= length (h ++ rest))%nat /\ (length hist <= length (h ++ rest))%nat /\ at_risk s ⊆ rest /\
  (at_risk s <> [] -> applying s).
Proof.
  intros Hph.
  destruct Hph as [Hs W C R D N Hd|b1 Hs W C R D N Hd|k b1 h rest Hs W Hk C R D N Hd Eh Er|Hs W C R D N Hd|pubd h rest W C E R D N Hd Hs Hl].
  - unfold at_risk. rewrite D, W, app_nil_r. split_and!; [done|done|set_solver|done].
  - unfold at_risk. rewrite D, W, app_nil_r. split_and!; [done|done|set_solver|done].
  - unfold at_risk, applying. rewrite D, W, Eh, Er, !length_app.
    do 9 (destruct k as [|k]; [cbn; rewrite ?length_app; split_and!; [lia|lia|set_solver|first [done|intros _; left; do 3 eexists; by (left + right)]]|]). lia.
  - unfold at_risk. rewrite D, W, app_nil_r, length_app. unfold ents. rewrite length_fmap. split_and!; [done|lia|set_solver|done].
  - assert (at_risk s = unflushed s) as -> by (unfold at_risk; destruct W as [-> |(e & -> & _)]; apply app_nil_r).
    destruct D as [D He]. unfold applying.
    destruct Hl as [(_ & -> & ->)|[(_ & -> & ->)|(_ & -> & ->)]]; rewrite !length_app; split_and!; first [lia|done|by right; apply He|auto].
Qed.

(** A crash image recovers a prefix that has everything before the window in flight. *)
Lemma inv_crash sub win ob hist d s o fw fm : Inv U rows a0 sub win ob hist d s ->
  crash_file (file (ps_journal (shared s))) fw -> crash_file (marker_file (ps_journal (shared s))) fm ->
  torn_slots_detected (marker_file (ps_journal (shared s))) fm (journal_id (ps_journal (shared s))) ->
  crash_forest U rows s o ->
  exists j n, open_files true fw fm = Ok j /\ (reported s <= n <= length (appended s))%nat /\ (length hist <= n)%nat /\
    match o with
    | Some f => exists f', replay_journal f true (recs (records j)) = Ok (true, f') /\ refines U f' (after (take n (appended s)))
    | None => applying s
    end.
Proof.
  intros [Hf Hr Ha Hw Hj] Hfw Hfm Ht Hcf.
  assert (exists j l pubd h rest, open_files true fw fm = Ok j /\ records j = l /\ phase rows a0 s sub hist d pubd h rest /\
    covers U rows a0 d (recs l) h rest) as (j & l & pubd & h & rest & Ej & El & Hph & Hc).
  { destruct Hj as [(pubd & h & rest & old & pub & pend & Hph & Hh)|(_ & _ & Hrec)].
    - destruct (durable_recovers _ _ (iv_durable _ _ _ _ (hl_inv _ _ _ _ _ _ _ _ _ _ _ _ _ _ Hh)) true fw fm Hfw Hfm Ht)
        as (j & recs & <- & Ej & _ & Er & _). exists j, (old ++ pub), pubd, h, rest. split_and!; try done. by apply (hl_covers _ _ _ _ _ _ _ _ _ _ _ _ _ _ Hh).
    - destruct (Hrec true fw fm Hfw Hfm Ht) as (j & l & (pubd & h & rest & Hph & Hc) & Ej & _ & Er & _).
      by exists j, l, pubd, h, rest. }
  destruct (phase_reported _ _ _ _ _ _ _ Hph) as (Hrep & Hhist & Hrisk & Happ). pose proof (phase_total _ _ _ _ _ _ _ _ _ Hph) as Htot.
  assert (appended s = (h ++ rest) ++ (if pubd then [] else ents sub) ++ ents win) as Es by (by rewrite Ha, !app_assoc, Htot).
  exists j, (length (h ++ rest)). rewrite El, Es, take_app_length. split_and!; [done|done|rewrite (length_app (h ++ rest)); lia|done|].
  destruct o as [f|]; [|by apply Happ]. destruct Hcf as [Ef Hcf]. destruct (Hcf d Hf) as (d' & Hf' & Hag & Hlv).
  assert (covers U rows a0 d' (recs l) h rest) as Hc' by (by eapply covers_agree).
  destruct (covers_recovers U Hinj rows a0 f d' (recs l) h rest Hf' ltac:(congruence) Hc') as (f' & E & _ & Hr').
  by exists f'.
Qed.

Lemma phase_agree s sub hist d pubd h rest : phase rows a0 s sub hist d pubd h rest -> agree_but rows (ents sub) d (after hist).
Proof.
  intros Hph.
  destruct Hph as [Hs W C R D N Hd|b1 Hs W C R D N Hd|k b1 h rest Hs W Hk C R D N Hd Eh Er|Hs W C R D N Hd|pubd h rest W C E R D N Hd Hs Hl];
    [apply agree_hist; by left|apply agree_hist; by left| |apply agree_hist; by right|done].
  apply agree_hist. destruct (4 <=? k)%nat; [by right|by left].
Qed.

Lemma ready_of s0 s : started U rows a0 s0 -> reachable U rows a0 s0 (s, Ret (Ok tt)) -> Ready U rows a0 s.
Proof. intros Hst Hr. apply reachable_wp in Hr; [|done]. by apply wp_ret in Hr. Qed.

(** A sync that returns without an error has ended in [Durable]. *)
Lemma sync_ends s s' L hb h clean : Held U rows a0 L hb h s -> rtc (step U) (s, sync clean) (s', Ret (Ok tt)) ->
  Durable U rows a0 L hb h s'.
Proof.
  intros Hheld Hsync.
  assert (wp U rows a0 (post U rows a0 (fun _ => Durable U rows a0 L hb h)) (sync clean) s) as Hwp by (by apply (t_sync U Hinj)).
  assert (wp U rows a0 (post U rows a0 (fun _ => Durable U rows a0 L hb h)) (Ret (Ok tt)) s') as Hpost; [|by apply wp_ret in Hpost].
  clear -Hwp Hsync. remember (s, sync clean) as c eqn:Ec. remember (s', Ret (Ok tt)) as c' eqn:Ec'.
  assert (wp U rows a0 (post U rows a0 (fun _ => Durable U rows a0 L hb h)) c.2 c.1) as Hc by (by subst).
  clear Ec Hwp. replace (Ret (Ok tt)) with c'.2 by (by subst). replace s' with c'.1 by (by subst). clear Ec'.
  induction Hsync as [|[c1 p1] [c2 p2] c3 Hs _ IH]; [done|]. apply IH. by eapply wp_any_step.
Qed.

(** ** Termination *)

(** How many steps the worker can still take on its own. *)
Definition worker_work (s : System) : nat :=
  (if command s then 20 else 0) +
  match worker s with Idle => 0 | Running stages _ _ => 2 + length stages | Failing _ => 1 | Stopped => 0 end.

Lemma worker_work_decreases s s' : worker_step U s s' -> (worker_work s' < worker_work s)%nat.
Proof.
  unfold worker_work. intros Hs. destruct Hs as [s b bd W C _|s b bd e W C _|s env st sts b bd ps W _|s env st sts b bd ps e W _ _|s sts b bd f e W _ _|s b bd W _|s env e ps W _ _];
    cbn; rewrite ?W; try rewrite C; cbn; lia.
Qed.

Lemma wp_acc p s : wpr p s -> Acc (fun c' c => step U c c') (s, p).
Proof.
  intros Hp. induction Hp as [p s Hsafe Hret Hnext IH]. clear Hsafe Hret.
  assert (forall n s', (worker_work s' < n)%nat -> rtc (worker_step U) s s' -> Acc (fun c' c => step U c c') (s', p)) as Hacc; [|by eapply (Hacc (S (worker_work s))); [lia|]].
  induction n as [|n IHn]; intros s' Hn Hr; [lia|]. constructor. intros c Hs. inversion Hs; subst.
  - apply IHn; [|by eapply rtc_r]. match goal with Hw : worker_step _ _ _ |- _ => apply worker_work_decreases in Hw end. lia.
  - destruct c as [s1 p1]. by eapply IH.
Qed.

End Proofs.
(** ** Properties *)

Section Properties.
Context (U : OutPoint -> Prop).
Context (Hinj : forall o o', U o -> U o' -> leaf_map_key o = leaf_map_key o' -> o = o').
Context (rows : Z) (a0 : AbsForest) (s0 : System).
Context (Hstart : started U rows a0 s0).

Abbreviation after := (after_blocks rows a0).

(** C3: crash safety of the steady-state prover.  In every run of the two threads, with any call failing and at
    any moment (in the middle of a call, of a journal append, of applying a window), take a crash that leaves the
    journal's files torn in any possible way.  The journal opens again; and when the forest's files open, with
    what was flushed and any part of what was not, replaying the journal repairs them: the forest is the one after
    the first [n] of the blocks journalled so far, and [n] is at least the number that the worker had reported as
    durable.  The leaf map's database can refuse to open (the limitation that [README.md] states) only if the crash
    comes while a window is being applied or flushed, or after a failure: at every other moment all of it is
    flushed. *)
Theorem pipeline_crash_recovers (s : System) (p : Prog unit) (o : option SteadyStateForest) (fw fm : File)
    (Hreach : reachable U rows a0 s0 (s, p))
    (Hjournal : crash_file (file (ps_journal (shared s))) fw)
    (Hmarker : crash_file (marker_file (ps_journal (shared s))) fm)
    (Htorn : torn_slots_detected (marker_file (ps_journal (shared s))) fm (journal_id (ps_journal (shared s))))
    (Hforest : crash_forest U rows s o) :
  exists j n, open_files true fw fm = Ok j /\ (reported s <= n <= length (appended s))%nat /\
    match o with
    | Some f => exists f', replay_journal f true (recs (records j)) = Ok (true, f') /\ refines U f' (after (take n (appended s)))
    | None => applying s
    end.
Proof.
  destruct (reachable_safe U Hinj rows a0 _ _ Hstart Hreach) as [(sub & win & ob & hist & d & Hi) _].
  destruct (inv_crash U Hinj rows a0 _ _ _ _ _ _ _ _ _ Hi Hjournal Hmarker Htorn Hforest) as (j & n & Ej & Hn & _ & E).
  by exists j, n.
Qed.

(** C13: the producer never waits for the worker to read.  Between two calls, wherever the worker is with the window
    it is applying, and even after it failed half way, reading any node or looking up any outpoint through the
    producer's overlay gives the forest after all blocks journalled so far. *)
Theorem producer_reads_its_blocks (s : System) (n : Z) (outpoints : list OutPoint)
    (Hreach : reachable U rows a0 s0 (s, Ret (Ok tt))) (Hout : Forall U outpoints) :
  let v := {| fv_forest := ps_forest (shared s); fv_overlay := overlay (producer s); fv_leaves := n |} in
  (forall p, is_pos rows p -> view_read v p = ready_state (ab_node (after (appended s)) p)) /\
  exists answers, leaf_positions v outpoints = Ok answers /\
    Forall2 (fun o answer => forall p, answer = Ok p <-> ab_index (after (appended s)) !! o = Some p /\ p < n) outpoints answers.
Proof.
  destruct (ready_of U Hinj rows a0 _ _ Hstart Hreach) as (L & hb & h & _ & sub & win & ob & _ & (hist & d & Hi) & _ & Ho & _).
  destruct (some_phase _ _ _ _ _ _ _ _ _ Hi) as (pubd & h0 & rest & Hph). apply phase_agree in Hph.
  destruct Hi as [Hf Hr Ha Hw _]. destruct Ho as [_ _ _ _ _ Ep Eo _ _]. rewrite Ep in Eo. rewrite Eo. cbn zeta.
  rewrite Ha, after_blocks_app. split.
  - intros p Hp. unfold view_read. cbn [fv_forest fv_overlay]. by eapply overlay_read_torn.
  - rewrite (leaf_positions_spec U _ (ab_index d)); [|apply Hf|done]. eexists. split; [done|].
    apply Forall2_fmap_r, Forall_Forall2_diag, Forall_forall. intros o _ p.
    rewrite <- (overlay_position_torn rows d _ (ents sub) (ents win) o Hph). unfold view_position, check_position. cbn [fv_forest fv_overlay fv_leaves].
    assert (forall q, (require (negb (n <=? q)) "outpoint maps beyond the leaves";; Ok q) = Ok p <-> q = p /\ p < n) as Hc.
    { intros q. destruct (Z.leb_spec n q); cbn; split; [done|intros [-> ?]; lia|intros [= ->]; split; [done|lia]|by intros [-> _]]. }
    destruct (ov_positions _ !! o) as [[ho [q|]]|]; [rewrite Hc; naive_solver|naive_solver|].
    destruct (ab_index d !! o); [rewrite Hc; naive_solver|naive_solver].
Qed.

(** C14: every call returns.  No run of the two threads deadlocks: while a call has not returned, one of the threads
    can move; and no run goes on for ever: from every state only finitely many steps lead on, so every call
    ends with a result (with the two rounds that the model gives to the waiting loops). *)
Theorem pipeline_calls_return (s : System) (p : Prog unit) (Hreach : reachable U rows a0 s0 (s, p)) :
  ((exists r, p = Ret r) \/ exists c, step U (s, p) c) /\ Acc (fun c' c => step U c c') (s, p).
Proof.
  split.
  - destruct (reachable_safe U Hinj rows a0 _ _ Hstart Hreach) as [_ [Hr|[[c Hc]|[s' Hs]]]]; [by left|right..].
    + exists c. by apply st_producer.
    + exists (s', p). by apply st_worker.
  - apply (wp_acc U rows a0). by apply (reachable_wp U Hinj rows a0 _ _ Hstart Hreach).
Qed.

(** C20: what the producer holds is bounded.  Between two calls fewer than 100 blocks wait in the publication window, at
    most 100 are submitted, and the pending blocks are exactly those, in order, fewer than 200. *)
Theorem pending_blocks_bounded (s : System) (Hreach : reachable U rows a0 s0 (s, Ret (Ok tt))) :
  let p := producer s in
  (length (publication_window p) < PUBLICATION_BLOCKS)%nat /\ (submitted_blocks p <= PUBLICATION_BLOCKS)%nat /\
  length (pending_apply p) = (submitted_blocks p + length (publication_window p))%nat /\
  (length (pending_apply p) < MAX_PENDING_BLOCKS)%nat /\
  exists l, appended s = l ++ pending_apply p.
Proof.
  destruct (ready_of U Hinj rows a0 _ _ Hstart Hreach) as (L & hb & h & _ & sub & win & ob & Hl & (hist & d & Hi) & _ & Ho & _).
  destruct Ho as [Ew _ _ Es Hsm Ep _ _ _]. cbn zeta. rewrite Ew, Es, Ep, length_app. unfold ents. rewrite !length_fmap.
  unfold MAX_PENDING_BLOCKS, PUBLICATION_BLOCKS in *. split_and!; try lia. exists hist. apply (in_appended _ _ _ _ _ _ _ _ _ Hi).
Qed.

(** Errors of the producer's calls.  A call fails only when the worker has failed (and said why) or has stopped after
    a clean shutdown, when the journal refuses the block, or when the durable tip at the end of a sync is not the
    producer's. *)
Theorem call_errors (s : System) (e : string) (Hreach : reachable U rows a0 s0 (s, Ret (Err e))) :
  (is_Some (worker_error s) \/ worker s = Stopped) \/
  (exists io entry header proof prows j j', append_block io entry header proof prows j = (j', Err e)) \/
  e = "durable forest and producer state diverged".
Proof. apply (reachable_wp U Hinj rows a0) in Hreach; [|done]. apply wp_ret in Hreach. apply Hreach. Qed.

(** C15: what a successful sync returns is durable.  After it nothing is pending, and no store has writes that are not
    flushed: not the forest and its leaf map, the journal, the proof file or the header file; the worker's tip is
    the producer's, and its height was the last thing committed to the proof index.  Until the next call any crash
    finds a forest that opens, and recovers the forest after all blocks. *)
Theorem sync_is_durable (s s' : System) (clean : bool) (o : option SteadyStateForest) (fw fm : File)
    (Hreach : reachable U rows a0 s0 (s, Ret (Ok tt))) (Hsync : rtc (step U) (s, sync clean) (s', Ret (Ok tt)))
    (Hjournal : crash_file (file (ps_journal (shared s'))) fw)
    (Hmarker : crash_file (marker_file (ps_journal (shared s'))) fm)
    (Htorn : torn_slots_detected (marker_file (ps_journal (shared s'))) fm (journal_id (ps_journal (shared s'))))
    (Hforest : crash_forest U rows s' o) :
  appended s' = appended s /\ pending_apply (producer s') = [] /\ flushed (shared s') /\
  ps_height (shared s') = fp_height (producer s') /\ ps_tip_hash (shared s') = fp_tip_hash (producer s') /\
  exists j f f', o = Some f /\ open_files true fw fm = Ok j /\ replay_journal f true (recs (records j)) = Ok (true, f') /\
    refines U f' (after (appended s)).
Proof.
  destruct (ready_of U Hinj rows a0 _ _ Hstart Hreach) as (L & hb & h & _ & Hheld).
  assert (appended s = L) as EL by (destruct Hheld as (? & ? & ? & _ & _ & ? & _); done).
  assert (Durable U rows a0 L hb h s') as ([ob ((hist & d & Hi) & HL & Ho & _)] & [_ Hw] & Hfl & Eh & Et)
    by (by eapply sync_ends).
  pose proof (in_appended _ _ _ _ _ _ _ _ _ Hi) as Ha. cbn in Ha. rewrite app_nil_r in Ha.
  split; [congruence|]. split; [by rewrite (ow_pending _ _ _ _ _ Ho)|]. split_and!; [done..|].
  destruct (inv_crash U Hinj rows a0 _ _ _ _ _ _ _ _ _ Hi Hjournal Hmarker Htorn Hforest) as (j & n & Ej & Hn & Hh & E).
  destruct o as [f|].
  - destruct E as (f' & E & Hr). exists j, f, f'. split_and!; [done..|].
    rewrite firstn_all2 in Hr by (rewrite Ha; lia). by rewrite EL, <- HL.
  - exfalso. apply Hforest. unfold at_risk. rewrite (fl_forest _ Hfl). by destruct Hw as [-> | ->].
Qed.

End Properties.

End Session.
(** ** A concrete run *)

Section Demo.
#[local] Existing Instances toy_hashing toy_sha256 toy_db toy_db_laws Udata.Udata.toy_bitcoin
  JournalContract.JournalContract.toy_header ProofStore.ProofStore.map_kv HeaderIndex.HeaderIndex.small_db
  Udata.Udata.proof_ok_dec.

#[local] Instance header_eq_dec : EqDecision Header := bool_dec.
#[local] Instance proof_eq_dec : EqDecision Udata.Udata.CompactBlockProof.
Proof.
  assert (EqDecision Udata.Udata.ScriptPubkeyType) by solve_decision.
  assert (EqDecision Udata.Udata.CompactLeafData) by solve_decision.
  assert (EqDecision Udata.Udata.BatchProof) by solve_decision. solve_decision.
Defined.

Lemma toy_sha256_laws : @Sha256Laws toy_sha256.
Proof. intros bs. apply array_ok_le_bytes. Qed.
#[local] Existing Instance toy_sha256_laws.

(** An empty journal. *)
Definition demo_page : Z := 4096.
Definition demo_id : bytes := replicate 32 77.
Definition demo_files : result (File * File) := initialize_journal demo_page demo_id [].
Definition demo_journal : result Journal := '(f, fm) ← demo_files; open_files true f fm.

Lemma demo_journal_ok : exists j, demo_journal = Ok j /\ inv j [] [] [].
Proof.
  assert (match demo_journal with Ok j => records j = [] | Err _ => False end) as Hr by (vm_compute; done).
  unfold demo_journal in *. destruct demo_files as [[f fm]|] eqn:E; [|done]. rewrite ok_bind in Hr |- *.
  destruct (initialize_opens demo_page demo_id ltac:(by_decide) ltac:(by_decide) ltac:(by_decide) true [] f fm ltac:(by_decide) E)
    as (recs & j & _ & Ej & Hi & _). rewrite Ej in Hr |- *. exists j. split; [done|]. by rewrite Hr in Hi.
Qed.
Definition demo_state (j : Journal) : PersistenceState := {|
  ps_forest := live_forest; ps_unflushed := []; ps_journal := j; proof_file := ProofStore.ProofStore.new [];
  proof_index := {| ProofStore.ProofStore.index_bucket := (∅ : gmap bytes bytes); ProofStore.ProofStore.meta_bucket := (∅ : gmap bytes bytes) |};
  header_index := {| HeaderIndex.HeaderIndex.headers := synced (zeros 80); HeaderIndex.HeaderIndex.heights := Some ((∅ : gmap bytes bytes), 9%nat) |};
  notifications := []; ps_height := 6; ps_tip_hash := zeros 32; bootstrap_height := 6 |}.

Definition demo_system (j : Journal) : System := {|
  producer := {| publication_window := []; publication_boundary := None; submitted_blocks := 0; overlay := empty_overlay;
                 pending_apply := []; fp_height := 6; fp_tip_hash := zeros 32 |};
  shared := demo_state j; worker := Idle; command := None; completion := None; worker_error := None;
  appended := []; reported := 0 |}.

Lemma demo_started j : inv j [] [] [] -> started sample_set 2 live_abs (demo_system j).
Proof.
  intros Hi. split; [by do 2 eexists|done|done|split; [exact live_refines|done]|]. exists [], [], live_abs. split; [done|]. split; [constructor|done].
Qed.

Definition demo_block : PersistenceBlock :=
  {| pb_entry := append_entry 7; pb_header := true; pb_proof := Udata.Udata.sample_proof; pb_proof_forest_rows := 2 |}.

Lemma demo_admissible j : admissible sample_set 2 live_abs (demo_system j) (ProveCall demo_block).
Proof.
  split; [|done]. split; [|by_decide|done|apply append_window|exact (append_planned 7)].
  split; [by_decide..|by intros rows [= <-]].
Qed.

Lemma crash_now v : crash_file v (now v).
Proof.
  assert (now v ∈ versions v) as Hv by (by left). split; [by exists (now v)|]. intros i _. by exists (now v).
Qed.

Lemma torn_now v id : torn_slots_detected v (now v) id.
Proof. intros slot _. left. exists (now v). split; [by left|done]. Qed.

Lemma crash_forest_now {rows} s : crash_forest sample_set rows s (Some (ps_forest (shared s))).
Proof. split; [done|]. intros d Hd. exists d. split_and!; [done|apply agree_but_refl|done]. Qed.

Lemma pipeline_crash_recovers_witness : exists j0, demo_journal = Ok j0 /\ exists j n f',
  open_files true (now (file j0)) (now (marker_file j0)) = Ok j /\
  replay_journal live_forest true (recs (records j)) = Ok (true, f') /\
  refines sample_set f' (after_blocks 2 live_abs (take n [])).
Proof.
  destruct demo_journal_ok as (j0 & E0 & Hi). exists j0. split; [exact E0|].
  destruct (pipeline_crash_recovers sample_set sample_set_inj 2 live_abs (demo_system j0) (demo_started j0 Hi) (demo_system j0)
    (program (ProveCall demo_block)) (Some live_forest) (now (file j0)) (now (marker_file j0)) (rc_call _ _ _ _ _ _ (rc_start _ _ _ _) (demo_admissible j0))
    (crash_now _) (crash_now _) (torn_now _ _) (crash_forest_now (demo_system j0))) as (j & n & Ej & _ & f' & Er & Hr).
  exists j, n, f'. split_and!; [exact Ej|exact Er|exact Hr].
Defined.

Lemma producer_reads_its_blocks_witness : exists j0, demo_journal = Ok j0 /\
  view_read {| fv_forest := live_forest; fv_overlay := overlay (producer (demo_system j0)); fv_leaves := 1 |} 0
    = ready_state (ab_node (after_blocks 2 live_abs (appended (demo_system j0))) 0).
Proof.
  destruct demo_journal_ok as (j0 & E0 & Hi). exists j0. split; [exact E0|].
  apply (producer_reads_its_blocks sample_set sample_set_inj 2 live_abs (demo_system j0) (demo_started j0 Hi) (demo_system j0) 1 []
    (rc_start _ _ _ _) (List.Forall_nil _)). exists 0, 0. split; [by_decide|reflexivity].
Defined.

Lemma pipeline_calls_return_witness : exists j0, demo_journal = Ok j0 /\
  Acc (fun c' c => step sample_set c c') (demo_system j0, program (ProveCall demo_block)).
Proof.
  destruct demo_journal_ok as (j0 & E0 & Hi). exists j0. split; [exact E0|].
  apply (pipeline_calls_return sample_set sample_set_inj 2 live_abs (demo_system j0) (demo_started j0 Hi) (demo_system j0)
    (program (ProveCall demo_block)) (rc_call _ _ _ _ _ _ (rc_start _ _ _ _) (demo_admissible j0))).
Defined.

Lemma pending_blocks_bounded_witness : exists j0, demo_journal = Ok j0 /\
  (length (pending_apply (producer (demo_system j0))) < MAX_PENDING_BLOCKS)%nat.
Proof.
  destruct demo_journal_ok as (j0 & E0 & Hi). exists j0. split; [exact E0|].
  apply (pending_blocks_bounded sample_set sample_set_inj 2 live_abs (demo_system j0) (demo_started j0 Hi) (demo_system j0) (rc_start _ _ _ _)).
Defined.

(** A sync of the idle system, up to its barrier's result. *)
Lemma demo_sync j env ps r : barrier env full_kernel (Sync false) (demo_state j) = (ps, r) -> exists s',
  rtc (step sample_set) (demo_system j, sync false)
    (s', match r with
         | Ok tip => if (dt_height tip =? 6) && bool_decide (dt_hash tip = zeros 32) then Ret (Ok tt) else Ret (Err diverged)
         | Err e => Ret (Err e)
         end) /\
  (is_ok r = true -> shared s' = ps) /\ (is_ok r = false -> is_Some (worker_error s')).
Proof.
  intros Hb.
  assert (forall s', rtc (step sample_set) (demo_system j, Barrier (Sync false) (fun r => tip ← Ret r; p ← local get;
      Ret (require ((dt_height tip =? fp_height p) && bool_decide (dt_hash tip = fp_tip_hash p)) diverged))) s' ->
    rtc (step sample_set) (demo_system j, sync false) s') as Hpre.
  { intros s' Hs. do 2 (eapply rtc_l; [apply st_producer, pr_local|]). do 2 (eapply rtc_l; [apply st_producer, pr_check|]). exact Hs. }
  destruct r as [tip|e].
  - eexists. split; [|split].
    + apply Hpre. eapply rtc_l; [by apply st_producer; eapply (pr_barrier (demo_system j))|].
      eapply rtc_l; [apply st_producer, pr_local|]. cbn. unfold require. destruct (_ && _); apply rtc_refl.
    + done.
    + done.
  - destruct (finish_failed_ok {| io := fun _ _ => true; torn := live_forest; tolerated := true |} ps) as [ps' Ef].
    eexists. split; [|split].
    + apply Hpre. eapply rtc_l; [by apply st_producer; eapply (pr_barrier_failed (demo_system j))|]. apply rtc_refl.
    + done.
    + by eexists.
Qed.

Lemma reachable_rtc {U rows a0} s0 c c' : reachable U rows a0 s0 c -> rtc (step U) c c' -> reachable U rows a0 s0 c'.
Proof. intros Hr Hs. induction Hs; [done|]. apply IHHs. by eapply rc_step. Qed.

Definition demo_env (ok : bool) : Env := {| io := fun _ _ => ok; torn := live_forest; tolerated := true |}.

Definition flush_failed : string := "failed to flush completed forest".

Lemma demo_barrier j ok : exists ps r, barrier (demo_env ok) full_kernel (Sync false) (demo_state j) = (ps, r) /\
  ps_forest ps = live_forest /\
  match r with Ok tip => ok = true /\ dt_height tip = 6 /\ dt_hash tip = zeros 32 | Err e => ok = false /\ e = flush_failed end.
Proof. destruct ok; do 2 eexists; (split; [reflexivity|]); by split_and!. Qed.

Lemma call_errors_witness : exists j0 s, demo_journal = Ok j0 /\
  ((is_Some (worker_error s) \/ worker s = Stopped) \/
   (exists io entry header proof prows j j', append_block io entry header proof prows j = (j', Err flush_failed)) \/
   flush_failed = "durable forest and producer state diverged").
Proof.
  destruct demo_journal_ok as (j0 & E0 & Hi). destruct (demo_barrier j0 false) as (ps & [tip|e] & Eb & _ & Hr); [by destruct Hr|].
  destruct (demo_sync _ _ _ _ Eb) as (s & Hs & _). destruct Hr as [_ ->]. exists j0, s. split; [exact E0|].
  apply (call_errors sample_set sample_set_inj 2 live_abs (demo_system j0) (demo_started j0 Hi) s flush_failed).
  eapply reachable_rtc; [|exact Hs]. apply (rc_call _ _ _ _ _ (SyncCall false)); [apply rc_start|exact I].
Defined.

Lemma sync_is_durable_witness : exists j0 s, demo_journal = Ok j0 /\ flushed (shared s) /\ exists j f',
  open_files true (now (file (ps_journal (shared s)))) (now (marker_file (ps_journal (shared s)))) = Ok j /\
  replay_journal live_forest true (recs (records j)) = Ok (true, f') /\ refines sample_set f' (after_blocks 2 live_abs []).
Proof.
  destruct demo_journal_ok as (j0 & E0 & Hi). destruct (demo_barrier j0 true) as (ps & [tip|e] & Eb & Ef & Hr); [|by destruct Hr].
  destruct (demo_sync _ _ _ _ Eb) as (s & Hs & Hsh & _). destruct Hr as (_ & Eh & Eh'). rewrite Eh, Eh' in Hs. exists j0, s. split; [exact E0|].
  assert (crash_forest sample_set 2 s (Some live_forest)) as Hc by (rewrite <- Ef, <- Hsh by done; apply crash_forest_now).
  destruct (sync_is_durable sample_set sample_set_inj 2 live_abs (demo_system j0) (demo_started j0 Hi) (demo_system j0) s false (Some live_forest)
    _ _ (rc_start _ _ _ _) Hs (crash_now _) (crash_now _) (torn_now _ _) Hc) as (_ & _ & Hfl & _ & _ & j & f & f' & Eo & Ej & Er & Hr).
  split; [exact Hfl|]. exists j, f'. injection Eo as <-. split_and!; [exact Ej|exact Er|exact Hr].
Defined.

End Demo.


End PipelineSession.
