(* ===== verification/Startup.v ===== *)
(** Starting the prover ([recoverable_journal_height] and [FlatFileProver::new] of
    [src/src/prover.rs]): the published journal repairs the header index, the
    proof file, the proof index and the forest, and says where the chain ends.
    The theorems are in [StartupProofs]. *)

From S2P Require Import Prelude Bytes Files Positions JournalEntry Forest Resize SteadyState LeafMap Udata JournalFile ProofStore HeaderIndex BlockScan ProcessBlock Persistence Pipeline.
Import Files.Files JournalEntry.JournalEntry Forest.Forest SteadyState.SteadyState JournalFile.JournalFile ProofStore.ProofStore Persistence.Persistence Pipeline.Pipeline ProcessBlock.ProcessBlock.

Module Startup.

Section Startup.
Context `{NodeHashing} `{!EqDecision BitcoinNodeHash} `{Sha256} `{LeafMapDb} `{BitcoinCodec} `{HeaderCodec} `{KvStore} `{HeightsDb} `{!Accumulators}.
Context `{!EqDecision Header} `{!EqDecision Udata.Udata.CompactBlockProof}.

Abbreviation put_header := HeaderIndex.HeaderIndex.put.
Abbreviation remove_header := HeaderIndex.HeaderIndex.remove.
Abbreviation get_by_height := HeaderIndex.HeaderIndex.get_by_height.
Abbreviation get_height := HeaderIndex.HeaderIndex.get_height.

(** What the environment decides: the I/O of each part, what a failed replay leaves of the forest, and the
    node's answers. *)
Record StartEnv := {
  repair_io : nat -> Io;
  proof_sync_io : Io;
  header_sync_io : Io;
  mark_io : nat -> Io;
  replay_sync_io : Io;
  restore_io : nat -> Io;
  restored_sync_io : Io;
  truncate_io : Io;
  torn_replay : SteadyStateForest;
  rpc_get_block_header : bytes -> result Header;
  rpc_get_block_hash : Z -> result bytes
}.

(** ** Opening *)

(** The journal and the forest, in the order in which [new] opens them.  The layout of old records is looked up
    before opening the forest can finish a resize. *)
Definition open_journal_and_forest (page_size : Z) (journal_id : bytes) (d : Disk) (kernel : Kernel) (f : FlatForest) (db : Db)
  : result (Journal * option File * SteadyStateForest) :=
  '(j, d) ← JournalFile.JournalFile.open page_size journal_id d;
  rows ← Resize.Resize.legacy_journal_rows f;
  '(j, binding) ← bind_legacy_forest_rows (d_forest_rows d) rows j;
  acc ← SteadyState.SteadyState.open kernel f db;
  Ok (j, binding, acc).

(** ** Repairing the header index and the proofs *)

(** Whether the header at the record's height is the replay header and its hash leads to that height; the
    second lookup is made only if the first one agrees. *)
Definition header_is_indexed (x : HeaderIndex.HeaderIndex.HeaderIndex) (entry : JournalEntryData) (header : Header) : result bool :=
  stored ← get_by_height x (height entry);
  if bool_decide (stored = Some header) then
    found ← get_height x (block_hash entry); Ok (bool_decide (found = Some (height entry)))
  else Ok false.

Definition proof_is_stored (f : ProofFile) (index : option BlockIndex) (replay : JournalReplayPayload) : bool :=
  match index with
  | Some index =>
      bool_decide (ProofStore.ProofStore.proof_forest_rows index = Some (JournalFile.JournalFile.proof_forest_rows replay))
      && bool_decide (get_proof f index = Some (rp_proof replay))
  | None => false
  end.

Definition with_rows (index : BlockIndex) (rows : Z) : BlockIndex :=
  {| offset := offset index; size := size index; ProofStore.ProofStore.proof_forest_rows := Some rows |}.

(** The first loop of [recoverable_journal_height].  From the first proof that is missing on, all proofs are
    appended again: [repair_proof_tail]. *)
Fixpoint repair_records (env : StartEnv) (n : nat) (repair_proof_tail : bool) (records : list JournalRecord)
  : SR PersistenceState (list (BlockIndex * bytes)) :=
  match records with
  | [] => mret []
  | record :: records =>
      let entry := jr_entry record in
      match jr_status record, jr_replay record with
      | Forward, Some replay =>
          s ← get;
          indexed ← lift (header_is_indexed (header_index s) entry (rp_header replay));
          (if indexed : bool then mret tt
           else on_header_index (put_header (repair_io env (2 * n)) (height entry) (rp_header replay)));;
          s ← get;
          index ← lift (get_index (proof_index s) (block_hash entry));
          let valid : bool := proof_is_stored (proof_file s) index replay in
          if repair_proof_tail || negb valid then
            index ← on_proof_file (ProofStore.ProofStore.append (repair_io env (2 * n + 1)) (rp_proof replay));
            repaired ← repair_records env (S n) true records;
            mret ((with_rows index (JournalFile.JournalFile.proof_forest_rows replay), block_hash entry) :: repaired)
          else repair_records env (S n) repair_proof_tail records
      | _, _ => repair_records env (S n) repair_proof_tail records
      end
  end.

Definition candidate_height (j : Journal) (indexed_height bootstrap_height : Z) : Z :=
  match latest_forward j with
  | Some (_, record) => height (jr_entry record)
  | None =>
      match published_records j with
      | record :: _ => saturating_sub (height (jr_entry record)) 1
      | [] => Z.max indexed_height bootstrap_height
      end
  end.

Definition forward_records (records : list JournalRecord) : list JournalRecord :=
  filter (fun record => jr_status record = Forward) records.

Definition retained_hashes (records : list JournalRecord) : gmap Z bytes :=
  write_all ∅ ((fun record => (height (jr_entry record), block_hash (jr_entry record))) <$> forward_records records).

(** Whether a height has its header, index entry and proof. *)
Definition height_is_stored (s : PersistenceState) (retained : gmap Z bytes) (height : Z) : result bool :=
  header ← get_by_height (header_index s) height;
  let block_hash := header_block_hash <$> header in
  index ← match block_hash with Some block_hash => get_index (proof_index s) block_hash | None => Ok None end;
  Ok match block_hash, index with
     | Some block_hash, Some index =>
         match retained !! height with Some retained_hash => bool_decide (retained_hash = block_hash) | None => true end
         && contains (proof_file s) index
         && match retained !! height with Some _ => bool_decide (is_Some (get_proof (proof_file s) index)) | None => true end
     | _, _ => false
     end.

(** Published forward records at or above a height, with their places in the journal. *)
Definition rollback_indices (records : list JournalRecord) (from : Z) : list nat :=
  fst <$> filter (fun ir => jr_status ir.2 = Forward /\ from <= height (jr_entry ir.2)) (BlockScan.BlockScan.enumerate records).

Fixpoint mark_all (env : StartEnv) (n : nat) (indices : list nat) : SR PersistenceState unit :=
  match indices with
  | [] => mret tt
  | index :: indices => on_journal (mark_rolled_back (mark_io env n) index);; mark_all env (S n) indices
  end.

Definition roll_back_from (env : StartEnv) (from : Z) : SR PersistenceState unit :=
  s ← get;
  let records := published_records (ps_journal s) in
  let indices := rollback_indices records from in
  lift (require (negb (bool_decide (indices = [])
                       || negb (existsb (fun record => bool_decide (jr_status record = Forward) && (height (jr_entry record) =? from)) records)))
    "proof gap is outside the retained journal; rebuild from a newer bootstrap");;
  mark_all env 0 (reverse indices).

(** The loop over the heights; [Some] is the height before the first gap. *)
Fixpoint scan_heights (env : StartEnv) (retained : gmap Z bytes) (heights : list Z) : SR PersistenceState (option Z) :=
  match heights with
  | [] => mret None
  | height :: heights =>
      s ← get;
      valid ← lift (height_is_stored s retained height);
      if valid : bool then scan_heights env retained heights
      else roll_back_from env height;; mret (Some (height - 1))
  end.

Definition recoverable_journal_height (env : StartEnv) (indexed_height : Z) : SR PersistenceState Z :=
  s ← get;
  repaired_indexes ← repair_records env 0 false (published_records (ps_journal s));
  on_proof_file (ProofStore.ProofStore.sync (proof_sync_io env));;
  on_header_index (sync_headers (header_sync_io env));;
  (match repaired_indexes with [] => mret tt | _ => on_proof_index (append_batch repaired_indexes) end);;
  s ← get;
  let candidate := candidate_height (ps_journal s) indexed_height (bootstrap_height s) in
  lift (require (negb (candidate <? bootstrap_height s)) "journal height precedes bootstrap height");;
  let retained := retained_hashes (published_records (ps_journal s)) in
  first_proof_height ← lift (ok_or "bootstrap height overflow" (checked_add 32 (bootstrap_height s) 1));
  gap ← scan_heights env retained (zrange first_proof_height (candidate + 1));
  mret (default candidate gap).

(** ** The rest of the recovery thread *)

(** Every forward record has its header and every block that stays rolled back loses its header and proof. *)
Fixpoint restore_headers (env : StartEnv) (all : list JournalRecord) (n : nat) (records : list JournalRecord)
  : SR PersistenceState unit :=
  match records with
  | [] => mret tt
  | record :: records =>
      let entry := jr_entry record in
      (match jr_status record with
       | Forward =>
           s ← get;
           found ← lift (get_height (header_index s) (block_hash entry));
           indexed ←
             (if bool_decide (found = Some (height entry)) then
                header ← lift (get_by_height (header_index s) (height entry));
                mret match header with Some header => bool_decide (header_block_hash header = block_hash entry) | None => false end
              else mret false);
           if indexed : bool then mret tt
           else
             header ← lift match jr_replay record with
                           | Some replay => Ok (rp_header replay)
                           | None => rpc_get_block_header env (block_hash entry)
                           end;
             on_header_index (put_header (restore_io env n) (height entry) header)
       | RolledBack =>
           if existsb (fun later => bool_decide (jr_status later = Forward)
                                    && bool_decide (block_hash (jr_entry later) = block_hash entry)) all then mret tt
           else
             on_header_index (remove_header (restore_io env n) (height entry) (block_hash entry));;
             on_proof_index (ProofStore.ProofStore.remove (block_hash entry))
       end);;
      restore_headers env all (S n) records
  end.

(** Height, hash and leaf count of the tip that the journal describes. *)
Definition journal_tip (env : StartEnv) (s : PersistenceState) (recovered_height : Z) : result (Z * bytes * Z) :=
  match latest_forward (ps_journal s) with
  | Some (_, record) => Ok (height (jr_entry record), block_hash (jr_entry record), num_leaves (jr_entry record))
  | None =>
      match published_records (ps_journal s) with
      | record :: _ =>
          leaves ← previous_num_leaves (jr_entry record);
          Ok (saturating_sub (height (jr_entry record)) 1, previous_block_hash (jr_entry record), leaves)
      | [] => hash ← rpc_get_block_hash env recovered_height; Ok (recovered_height, hash, leaves (ps_forest s))
      end
  end.

Definition status_entries (records : list JournalRecord) : list (JournalStatus * JournalEntryData) :=
  (fun record => (jr_status record, jr_entry record)) <$> records.

(** The recovery thread of [new], on the opened stores.  The flush after the replay is the end of
    [SteadyStateForest::replay_journal]. *)
Definition recover_stores (env : StartEnv) : SR PersistenceState unit :=
  s ← get;
  indexed_height ← lift (load_height (proof_index s));
  indexed_height ← lift (ok_or "proof height exceeds u32" (try_uint 32 indexed_height));
  recovered_height ← recoverable_journal_height env indexed_height;
  s ← get;
  let records := published_records (ps_journal s) in
  replayed ← on_forest (torn_replay env) (if needs_replay (ps_journal s) then jr_entry <$> records else [])
    (fun f => replay_journal f (needs_replay (ps_journal s)) (status_entries records));
  (if replayed && negb (bool_decide (records = [])) then sync_forest (replay_sync_io env) else mret tt);;
  restore_headers env records 0 records;;
  (if bool_decide (records = []) then mret tt else on_header_index (sync_headers (restored_sync_io env)));;
  s ← get;
  '(height, tip_hash, expected_leaves) ← lift (journal_tip env s recovered_height);
  lift (require (height =? recovered_height) "forest journal and proof storage recovered different heights");;
  lift (require (leaves (ps_forest s) =? expected_leaves) "forest and journal disagree about the leaves");;
  published_index ←
    (if bootstrap_height s <? height then
       index ← lift (get_index (proof_index s) tip_hash);
       index ← lift (ok_or "proof index is missing recovered height" index);
       lift (require (bool_decide (is_Some (get_proof (proof_file s) index))) "proof data at recovered height is unreadable");;
       mret (Some index)
     else mret None);
  on_proof_file (truncate_after (truncate_io env) published_index);;
  on_proof_index (update_height height);;
  modify (fun s => with_tip s height tip_hash).

(** What the prover starts with: no block pending, and a pollard that has the roots. *)
Definition new (env : StartEnv) (pollard_memory_limit : Z) : SR PersistenceState (Producer * ProverCache) :=
  lift (require (negb (pollard_memory_limit =? 0)) "Pollard memory limit must be greater than zero");;
  recover_stores env;;
  s ← get;
  forest_roots ← lift (roots (ps_forest s));
  let p := pollard_from_stump_roots forest_roots (leaves (ps_forest s)) in
  lift (require (bool_decide (pollard_stump_roots p = forest_roots)) "Pollard roots do not match the recovered flat forest");;
  mret ({| publication_window := []; publication_boundary := None; submitted_blocks := 0; overlay := empty_overlay;
           pending_apply := []; fp_height := ps_height s; fp_tip_hash := ps_tip_hash s |},
        {| pollard := p; pollard_leaves := []; leaf_cache := ∅; block_hash_cache := {[ ps_height s := ps_tip_hash s ]} |}).

End Startup.
End Startup.
