(* ===== verification/Admission.v ===== *)
(** Admission of peers ([NetworkPrefix], [PeerRegistry] and [MessageRateLimiter] of
    [src/src/node.rs]): who may take one of the slots, who is put out for the sake of
    diverse network prefixes, who is banned, and how many packets a peer may send. *)

From stdpp Require Import pretty.
From S2P Require Import Prelude Bytes Sorting.

(** A [HashMap] is iterated in an order that is not specified, each entry once. *)
Class HashOrder := {
  in_order : forall {K A} `{Countable K}, gmap K A -> list (K * A);
  in_order_perm : forall {K A} `{Countable K} (m : gmap K A), in_order m ≡ₚ map_to_list m
}.

Module Admission.

(** ** Time

    An [Instant] is counted in nanoseconds; its seconds are an [i64]. *)

Definition NANOS_PER_SEC : Z := 10 ^ 9.
Definition from_secs (s : Z) : Z := s * NANOS_PER_SEC.
Definition instant_ok (t : Z) : Prop := 0 <= t /\ t / NANOS_PER_SEC < 2 ^ 63.
#[export] Instance instant_ok_dec t : Decision (instant_ok t).
Proof. unfold instant_ok. apply _. Defined.
(** [Instant::checked_add] and [Instant::duration_since], which saturates at zero. *)
Definition instant_add (t d : Z) : option Z := if decide (instant_ok (t + d)) then Some (t + d) else None.
Definition duration_since (now earlier : Z) : Z := saturating_sub now earlier.

(** [Iterator::min_by_key] keeps the first minimum and [max_by_key] the last maximum. *)
Definition min_by_key {A} (key : A -> Z) (l : list A) : option A :=
  foldl (fun best a => match best with None => Some a | Some b => if key a <? key b then Some a else Some b end) None l.
Definition max_by_key {A} (key : A -> Z) (l : list A) : option A :=
  foldl (fun best a => match best with None => Some a | Some b => if key b <=? key a then Some a else Some b end) None l.

Definition MAX_PEERS : Z := 64.
Definition MAX_BANNED_PEERS : Z := 4096.
Definition MAX_MESSAGES_PER_SECOND : Z := 100.
Definition RATE_LIMIT_VIOLATIONS : Z := 3.
Definition BAN_DURATION : Z := from_secs (60 * 60).

(** ** Network prefixes *)

Inductive IpAddr := IpV4 (octets : bytes) | IpV6 (octets : bytes).
Inductive NetworkPrefix := V4 (octets : bytes) | V6 (octets : bytes).

#[export] Instance IpAddr_eq_dec : EqDecision IpAddr.
Proof. solve_decision. Defined.
#[export] Instance NetworkPrefix_eq_dec : EqDecision NetworkPrefix.
Proof. solve_decision. Defined.
#[export] Instance IpAddr_countable : Countable IpAddr.
Proof.
  refine (inj_countable' (fun a => match a with IpV4 b => inl b | IpV6 b => inr b end)
    (fun s => match s with inl b => IpV4 b | inr b => IpV6 b end) _). by intros [].
Defined.
#[export] Instance NetworkPrefix_countable : Countable NetworkPrefix.
Proof.
  refine (inj_countable' (fun a => match a with V4 b => inl b | V6 b => inr b end)
    (fun s => match s with inl b => V4 b | inr b => V6 b end) _). by intros [].
Defined.

Definition address_ok (a : IpAddr) : Prop :=
  match a with IpV4 b => array_ok 4 b | IpV6 b => array_ok 16 b end.

(** [Ipv6Addr::to_ipv4_mapped]: [::ffff:a.b.c.d]. *)
Definition to_ipv4_mapped (octets : bytes) : option IpAddr :=
  if bool_decide (take 12 octets = zeros 10 ++ [255; 255]) then Some (IpV4 (drop 12 octets)) else None.

Definition normalize (address : IpAddr) : IpAddr :=
  match address with
  | IpV6 octets => default (IpV6 octets) (to_ipv4_mapped octets)
  | address => address
  end.

Definition from_address (address : IpAddr) : NetworkPrefix :=
  match normalize address with
  | IpV4 octets => V4 (take 2 octets)
  | IpV6 octets => V6 (take 4 octets)
  end.

(** ** The registry *)

Record PeerRecord := {
  address : IpAddr;
  connected_at : Z;
  prefix : NetworkPrefix;
  software : option string;
  worker : Z
}.

Inductive Admission :=
| Accepted (peer_id : Z)
| Replaced (evicted_peer evicted_worker peer_id : Z)
| RejectedBanned
| RejectedCapacity.

Record PeerRegistry := {
  banned : gmap IpAddr Z;
  max_peers : Z;
  next_peer : Z;
  peers : gmap Z PeerRecord
}.

Definition new (max_peers : Z) : PeerRegistry :=
  {| banned := ∅; max_peers := max_peers; next_peer := 0; peers := ∅ |}.

Definition with_peers (r : PeerRegistry) (p : gmap Z PeerRecord) : PeerRegistry :=
  {| banned := banned r; max_peers := max_peers r; next_peer := next_peer r; peers := p |}.
Definition with_banned (r : PeerRegistry) (b : gmap IpAddr Z) : PeerRegistry :=
  {| banned := b; max_peers := max_peers r; next_peer := next_peer r; peers := peers r |}.
Definition with_next (r : PeerRegistry) (n : Z) : PeerRegistry :=
  {| banned := banned r; max_peers := max_peers r; next_peer := n; peers := peers r |}.

Definition zsize {K A} `{Countable K} (m : gmap K A) : Z := Z.of_nat (size m).

Section Registry.
Context `{HashOrder}.

Definition is_banned (r : PeerRegistry) (address : IpAddr) (now : Z) : PeerRegistry * bool :=
  let address := normalize address in
  match banned r !! address with
  | Some expires => if now <? expires then (r, true) else (with_banned r (delete address (banned r)), false)
  | None => (r, false)
  end.

(** The loop ends at the first number that no peer has; it is given one turn more than there are peers. *)
Fixpoint next_free (fuel : nat) (r : PeerRegistry) : option (PeerRegistry * Z) :=
  match fuel with
  | O => None
  | S fuel =>
      let peer_id := next_peer r in
      let r := with_next r (wrap 64 (next_peer r + 1)) in
      match peers r !! peer_id with
      | None => Some (r, peer_id)
      | Some _ => next_free fuel r
      end
  end.
Definition allocate_peer_id (r : PeerRegistry) : option (PeerRegistry * Z) := next_free (S (size (peers r))) r.

Definition insert (r : PeerRegistry) (address : IpAddr) (worker now : Z) : option (PeerRegistry * Z) :=
  '(r, peer_id) ← allocate_peer_id r;
  let record := {| address := address; connected_at := now; prefix := from_address address; software := None;
    worker := worker |} in
  Some (with_peers r (<[peer_id := record]> (peers r)), peer_id).

Definition prefix_counts (peers : list PeerRecord) : gmap NetworkPrefix Z :=
  foldl (fun counts peer => <[prefix peer := saturating_add 64 (default 0 (counts !! prefix peer)) 1]> counts) ∅ peers.

Definition admit_ (r : PeerRegistry) (address : IpAddr) (worker now : Z) : option (PeerRegistry * Admission) :=
  let address := normalize address in
  let '(r, b) := is_banned r address now in
  if b : bool then Some (r, RejectedBanned)
  else if zsize (peers r) <? max_peers r then
    '(r, peer_id) ← insert r address worker now; Some (r, Accepted peer_id)
  else
    let incoming_prefix := from_address address in
    if existsb (fun peer => bool_decide (prefix peer = incoming_prefix)) (in_order (peers r)).*2
    then Some (r, RejectedCapacity)
    else
      match max_by_key snd (in_order (prefix_counts (in_order (peers r)).*2)) with
      | None => Some (r, RejectedCapacity)
      | Some (evicted_prefix, count) =>
          if count <=? 1 then Some (r, RejectedCapacity)
          else
            match min_by_key (fun ip => connected_at ip.2)
                    (base.filter (fun ip => prefix ip.2 = evicted_prefix) (in_order (peers r))) with
            | None => Some (r, RejectedCapacity)
            | Some (evicted_peer, evicted_record) =>
                let evicted_worker := Admission.worker evicted_record in
                let r := with_peers r (delete evicted_peer (peers r)) in
                '(r, peer_id) ← insert r address worker now;
                Some (r, Replaced evicted_peer evicted_worker peer_id)
            end
      end.

Definition identify (r : PeerRegistry) (peer_id : Z) (name : string) : PeerRegistry :=
  match peers r !! peer_id with
  | Some p =>
      with_peers r (<[peer_id := {| address := address p; connected_at := connected_at p; prefix := prefix p;
        software := Some (default name (software p)); worker := worker p |}]> (peers r))
  | None => r
  end.

Definition remove (r : PeerRegistry) (peer_id : Z) : PeerRegistry := with_peers r (delete peer_id (peers r)).

Definition remove_worker (r : PeerRegistry) (w : Z) : PeerRegistry :=
  with_peers r (base.filter (fun ip => worker ip.2 <> w) (peers r)).

Definition ban (r : PeerRegistry) (peer_id now : Z) : PeerRegistry * option IpAddr :=
  match peers r !! peer_id with
  | None => (r, None)
  | Some peer =>
      let r := with_peers r (delete peer_id (peers r)) in
      let banned := base.filter (fun ae => now < ae.2) (banned r) in
      let banned :=
        if MAX_BANNED_PEERS <=? zsize banned then
          match min_by_key snd (in_order banned) with
          | Some (address, _) => delete address banned
          | None => banned
          end
        else banned in
      let expires := default now (instant_add now BAN_DURATION) in
      (with_banned r (<[address peer := expires]> banned), Some (address peer))
  end.

(** ** The summary for the log *)

Record PeerSoftwareSummary := { total : Z; by_software : gmap string Z; unidentified : Z }.

Definition software_summary (r : PeerRegistry) : PeerSoftwareSummary :=
  let '(names, unidentified) := foldl (fun '(names, unidentified) peer =>
      match software peer with
      | Some name => (<[name := default 0 (names !! name) + 1]> names, unidentified)
      | None => (names, unidentified + 1)
      end) (∅ : gmap string Z, 0) (in_order (peers r)).*2 in
  {| total := zsize (peers r); by_software := names; unidentified := unidentified |}.

(** [Display]: a [BTreeMap] is iterated in the order of its keys. *)
Definition string_leb (a b : string) : bool := match String.compare a b with Gt => false | _ => true end.
Definition sorted_entries (m : gmap string Z) : list (string * Z) :=
  Sorting.Sorting.sort_by_key fst string_leb (map_to_list m).
Definition fmt (s : PeerSoftwareSummary) : string :=
  ("P2P peers total=" +:+ pretty (total s) +:+ " software=["
   +:+ String.concat " " ((fun nc => nc.1 +:+ "=" +:+ pretty nc.2) <$> sorted_entries (by_software s))
   +:+ "] unidentified=" +:+ pretty (unidentified s))%string.

End Registry.

(** ** The packet rate *)

Inductive RateLimitDecision := Allow | Drop_ | Ban.

Record MessageRateLimiter := { messages : Z; violations : Z; window_started : Z }.

Definition new_limiter (now : Z) : MessageRateLimiter :=
  {| messages := 0; violations := 0; window_started := now |}.

Definition check (l : MessageRateLimiter) (now : Z) : MessageRateLimiter * RateLimitDecision :=
  let l := if from_secs 1 <=? duration_since now (window_started l) then new_limiter now else l in
  let l := {| messages := saturating_add 32 (messages l) 1; violations := violations l; window_started := window_started l |} in
  if messages l <=? MAX_MESSAGES_PER_SECOND then (l, Allow)
  else
    let l := {| messages := messages l; violations := saturating_add 8 (violations l) 1;
                window_started := window_started l |} in
    if RATE_LIMIT_VIOLATIONS <=? violations l then (l, Ban) else (l, Drop_).

(** ** Lemmas *)

Section Selection.
Context {A : Type} (key : A -> Z).

Lemma min_by_key_spec l : match min_by_key key l with
  | Some a => a ∈ l /\ forall b, b ∈ l -> key a <= key b
  | None => l = [] end.
Proof.
  unfold min_by_key. induction l as [|a l IH] using rev_ind; [done|]. rewrite foldl_app. cbn.
  destruct (foldl _ None l) as [b|]; [|subst; cbn; split; [left|by intros b ->%list_elem_of_singleton]].
  destruct IH as [Hb Hmin]. destruct (Z.ltb_spec (key a) (key b)); split.
  - rewrite elem_of_app, list_elem_of_singleton. by right.
  - intros c [Hc%Hmin| ->%list_elem_of_singleton]%elem_of_app; lia.
  - rewrite elem_of_app. by left.
  - intros c [Hc%Hmin| ->%list_elem_of_singleton]%elem_of_app; lia.
Qed.

Lemma max_by_key_spec l : match max_by_key key l with
  | Some a => a ∈ l /\ forall b, b ∈ l -> key b <= key a
  | None => l = [] end.
Proof.
  unfold max_by_key. induction l as [|a l IH] using rev_ind; [done|]. rewrite foldl_app. cbn.
  destruct (foldl _ None l) as [b|]; [|subst; cbn; split; [left|by intros b ->%list_elem_of_singleton]].
  destruct IH as [Hb Hmax]. destruct (Z.leb_spec (key b) (key a)); split.
  - rewrite elem_of_app, list_elem_of_singleton. by right.
  - intros c [Hc%Hmax| ->%list_elem_of_singleton]%elem_of_app; lia.
  - rewrite elem_of_app. by left.
  - intros c [Hc%Hmax| ->%list_elem_of_singleton]%elem_of_app; lia.
Qed.
End Selection.

Lemma normalize_idem a : normalize (normalize a) = normalize a.
Proof.
  destruct a as [b|b]; [done|]. cbn. destruct (to_ipv4_mapped b) as [a|] eqn:E; cbn; [|by rewrite E].
  unfold to_ipv4_mapped in E. case_bool_decide; [|done]. by injection E as <-.
Qed.

Section Registry_lemmas.
Context `{HashOrder}.

Lemma elem_of_in_order {K A} `{Countable K} (m : gmap K A) k a : (k, a) ∈ in_order m <-> m !! k = Some a.
Proof. rewrite in_order_perm. apply elem_of_map_to_list. Qed.

Lemma elem_of_values (m : gmap Z PeerRecord) p : p ∈ (in_order m).*2 <-> exists id, m !! id = Some p.
Proof.
  rewrite list_elem_of_fmap. setoid_rewrite <- elem_of_in_order. split.
  - intros ([id q] & -> & Hq). by exists id.
  - intros [id Hid]. by exists (id, p).
Qed.

(** How many peers have the prefix. *)
Definition prefix_count (m : gmap Z PeerRecord) (q : NetworkPrefix) : Z :=
  zlength (base.filter (fun ip => prefix ip.2 = q) (map_to_list m)).

Lemma prefix_counts_lookup l q : zlength l < 2 ^ 64 ->
  prefix_counts l !! q =
    let n := zlength (base.filter (fun p => prefix p = q) l) in if decide (n = 0) then None else Some n.
Proof.
  unfold prefix_counts. induction l as [|p l IH] using rev_ind; intros Hl; [done|].
  rewrite zlength_app, zlength_cons, zlength_nil in Hl. specialize (IH ltac:(pose proof (zlength_nonneg l); lia)).
  rewrite foldl_app, filter_app, filter_cons, filter_nil, zlength_app. cbn [foldl]. cbv zeta.
  destruct (decide (prefix p = q)) as [->|Hne].
  - rewrite lookup_insert_eq, IH. cbv zeta.
    assert (zlength (base.filter (fun p => prefix p = q) l) <= zlength l) by (apply inj_le, length_filter).
    pose proof (zlength_nonneg (base.filter (fun p => prefix p = q) l)).
    change (zlength [p]) with 1. rewrite (decide_False (P := _ + 1 = 0)) by lia. f_equal. unfold saturating_add.
    case_decide; cbn [default]; unfold id; lia.
  - rewrite lookup_insert_ne by done. rewrite IH. change (zlength (@nil PeerRecord)) with 0. by rewrite !Z.add_0_r.
Qed.

Lemma values_count (m : gmap Z PeerRecord) q :
  zlength (base.filter (fun p => prefix p = q) (in_order m).*2) = prefix_count m q.
Proof.
  unfold prefix_count, zlength. f_equal. rewrite (in_order_perm m). induction (map_to_list m) as [|ip l IH]; [done|].
  rewrite fmap_cons, !filter_cons. case_decide; cbn [length]; by rewrite IH.
Qed.

Lemma prefix_count_order (m : gmap Z PeerRecord) q :
  prefix_count m q = zlength (base.filter (fun ip => prefix ip.2 = q) (in_order m)).
Proof. unfold prefix_count, zlength. f_equal. by rewrite (in_order_perm m). Qed.

Lemma zlength_values (m : gmap Z PeerRecord) : zlength (in_order m).*2 = zsize m.
Proof. rewrite zlength_fmap. unfold zlength, zsize. by rewrite (in_order_perm m), length_map_to_list. Qed.

Lemma prefix_count_pos (m : gmap Z PeerRecord) id p : m !! id = Some p -> 0 < prefix_count m (prefix p).
Proof.
  intros Hp%elem_of_map_to_list. unfold prefix_count, zlength.
  assert ((id, p) ∈ base.filter (fun ip => prefix ip.2 = prefix p) (map_to_list m)) as Hin by (by rewrite list_elem_of_filter).
  destruct (base.filter _ _); [by apply elem_of_nil in Hin|]. cbn. lia.
Qed.

(** Numbers of peers *)

Lemma next_free_spec fuel r : is_u64 (next_peer r) ->
  match next_free fuel r with
  | Some (r', id) => r' = with_next r (next_peer r') /\ is_u64 (next_peer r') /\ is_u64 id /\ peers r !! id = None
  | None => forall i, (i < fuel)%nat -> is_Some (peers r !! wrap 64 (next_peer r + Z.of_nat i))
  end.
Proof.
  revert r; induction fuel as [|fuel IH]; intros r Hr; [intros i Hi; lia|]. cbn [next_free].
  destruct (peers (with_next r (wrap 64 (next_peer r + 1))) !! next_peer r) as [p|] eqn:E; cbn in E.
  - assert (is_u64 (wrap 64 (next_peer r + 1))) as Hw by (apply wrap_bound; lia).
    specialize (IH (with_next r (wrap 64 (next_peer r + 1))) Hw). destruct (next_free fuel _) as [[r' id]|].
    + destruct IH as (Er & Hn & Hid & Hfree). split; [|done]. by rewrite Er at 1.
    + intros [|i] Hi.
      * rewrite Z.add_0_r, wrap_small by done. by eexists.
      * specialize (IH i ltac:(lia)). cbn in IH. unfold wrap in *. rewrite Zplus_mod_idemp_l in IH.
        by replace (next_peer r + Z.of_nat (S i)) with (next_peer r + 1 + Z.of_nat i) by lia.
  - split; [done|]. cbn. split_and!; [apply wrap_bound; lia|done|done].
Qed.

Lemma wrap_shift_inj n i j : 0 <= i < 2 ^ 64 -> 0 <= j < 2 ^ 64 -> wrap 64 (n + i) = wrap 64 (n + j) -> i = j.
Proof.
  intros Hi Hj E. unfold wrap in E. apply (f_equal (fun x => (x - n) mod 2 ^ 64)) in E.
  rewrite !Zminus_mod_idemp_l in E. replace (n + i - n) with i in E by lia. replace (n + j - n) with j in E by lia.
  by rewrite !Z.mod_small in E.
Qed.

Lemma allocate_returns r : is_u64 (next_peer r) -> zsize (peers r) < 2 ^ 64 ->
  exists n id, allocate_peer_id r = Some (with_next r n, id) /\ is_u64 n /\ is_u64 id /\ peers r !! id = None.
Proof.
  intros Hn Hs. unfold allocate_peer_id. pose proof (next_free_spec (S (size (peers r))) r Hn) as Hf.
  destruct (next_free _ r) as [[r' id]|].
  - destruct Hf as (Er & Hn' & Hid & Hfree). exists (next_peer r'), id. rewrite Er at 1. done.
  - exfalso.
    set (l := (fun i => wrap 64 (next_peer r + Z.of_nat i)) <$> seq 0 (S (size (peers r)))).
    assert (NoDup l) as Hnd.
    { apply NoDup_fmap_2_strong; [|apply NoDup_seq]. intros i j Hi%elem_of_seq Hj%elem_of_seq E.
      unfold zsize in Hs. apply wrap_shift_inj in E; lia. }
    assert ((list_to_set l : gset Z) ⊆ dom (peers r)) as Hsub%subseteq_size.
    { intros x Hx%elem_of_list_to_set. apply list_elem_of_fmap in Hx as (i & -> & Hi%elem_of_seq).
      apply elem_of_dom, Hf. lia. }
    rewrite size_list_to_set, size_dom in Hsub by done. unfold l in Hsub. rewrite length_fmap, length_seq in Hsub. lia.
Qed.

End Registry_lemmas.

(** ** What the registry keeps *)

Section Contract.
Context `{HashOrder}.

(** Every number fits its type, no more peers than slots, every record has the prefix of its normalised
    address, and the ban table is bounded. *)
Record registry_ok (r : PeerRegistry) : Prop := {
  ok_max : is_u64 (max_peers r);
  ok_next : is_u64 (next_peer r);
  ok_full : zsize (peers r) <= max_peers r;
  ok_banned : zsize (banned r) <= MAX_BANNED_PEERS;
  ok_peers : map_Forall (fun id p => is_u64 id /\ normalize (address p) = address p /\ prefix p = from_address (address p))
    (peers r)
}.

Inductive RegistryOp :=
| OpAdmit (address : IpAddr) (worker now : Z)
| OpIdentify (peer_id : Z) (name : string)
| OpRemove (peer_id : Z)
| OpRemoveWorker (w : Z)
| OpBan (peer_id now : Z).

Definition run_registry (r : PeerRegistry) (op : RegistryOp) : option PeerRegistry :=
  match op with
  | OpAdmit a w now => fst <$> admit_ r a w now
  | OpIdentify id name => Some (identify r id name)
  | OpRemove id => Some (remove r id)
  | OpRemoveWorker w => Some (remove_worker r w)
  | OpBan id now => Some (ban r id now).1
  end.

Fixpoint run_registry_ops (r : PeerRegistry) (ops : list RegistryOp) : option PeerRegistry :=
  match ops with
  | [] => Some r
  | op :: ops => r ← run_registry r op; run_registry_ops r ops
  end.

Definition new_record (a : IpAddr) (w now : Z) : PeerRecord :=
  {| address := normalize a; connected_at := now; prefix := from_address a; software := None; worker := w |}.

(** The prefixes that have a peer. *)
Definition prefixes (m : gmap Z PeerRecord) : gset NetworkPrefix := list_to_set (prefix <$> (map_to_list m).*2).

Lemma elem_of_prefixes m q : q ∈ prefixes m <-> exists id p, m !! id = Some p /\ prefix p = q.
Proof.
  unfold prefixes. rewrite elem_of_list_to_set, list_elem_of_fmap. setoid_rewrite list_elem_of_fmap. split.
  - intros (p & -> & [id p'] & -> & Hin%elem_of_map_to_list). by exists id, p'.
  - intros (id & p & Hp%elem_of_map_to_list & <-). exists p. split; [done|]. by exists (id, p).
Qed.

Lemma from_address_normalize a : from_address (normalize a) = from_address a.
Proof. unfold from_address. by rewrite normalize_idem. Qed.

Lemma zsize_insert_fresh (m : gmap Z PeerRecord) id p : m !! id = None -> zsize (<[id := p]> m) = zsize m + 1.
Proof. intros E. unfold zsize. rewrite map_size_insert_None by done. lia. Qed.

Lemma zsize_delete (m : gmap Z PeerRecord) id p : m !! id = Some p -> zsize (delete id m) = zsize m - 1.
Proof.
  intros E. unfold zsize. pose proof (map_size_ne_0_lookup_2 m id (ex_intro _ p E)).
  rewrite map_size_delete_Some by eauto. lia.
Qed.

Lemma insert_returns r a w now : is_u64 (next_peer r) -> zsize (peers r) < 2 ^ 64 ->
  exists n id, insert r (normalize a) w now = Some (with_peers (with_next r n) (<[id := new_record a w now]> (peers r)), id)
    /\ is_u64 n /\ is_u64 id /\ peers r !! id = None.
Proof.
  intros Hn Hs. destruct (allocate_returns r Hn Hs) as (n & id & E & Hn' & Hid & Hfree). exists n, id.
  split; [|done]. unfold insert. rewrite E. cbn. unfold new_record. by rewrite from_address_normalize.
Qed.

Lemma is_banned_spec r a now : exists b', is_banned r a now =
    (with_banned r b', match banned r !! normalize a with Some e => now <? e | None => false end)
  /\ b' ⊆ banned r /\ forall c e, banned r !! c = Some e -> now < e -> b' !! c = Some e.
Proof.
  unfold is_banned. destruct (banned r !! normalize a) as [e|] eqn:E; [destruct (Z.ltb_spec now e)|].
  - exists (banned r). split_and!; [by destruct r|done|done].
  - exists (delete (normalize a) (banned r)). split_and!; [done|apply delete_subseteq|].
    intros c e' Hc Hlt. rewrite lookup_delete_ne; [done|]. intros <-. rewrite E in Hc. injection Hc as ->. lia.
  - exists (banned r). split_and!; [by destruct r|done|done].
Qed.

(** The policy for an address that wants in, by the number of peers with each prefix. *)
Definition decides (r : PeerRegistry) (a : IpAddr) (w now : Z) (d : Admission) (p' : gmap Z PeerRecord) : Prop :=
  let q := from_address a in
  let in_force := exists e, banned r !! normalize a = Some e /\ now < e in
  match d with
  | RejectedBanned => in_force /\ p' = peers r
  | Accepted id => ~ in_force /\ zsize (peers r) < max_peers r /\ peers r !! id = None
      /\ p' = <[id := new_record a w now]> (peers r)
  | Replaced old old_worker id => ~ in_force /\ zsize (peers r) = max_peers r /\ prefix_count (peers r) q = 0
      /\ (exists p, peers r !! old = Some p /\ worker p = old_worker /\ 1 < prefix_count (peers r) (prefix p)
          /\ (forall q', prefix_count (peers r) q' <= prefix_count (peers r) (prefix p))
          /\ (forall id2 p2, peers r !! id2 = Some p2 -> prefix p2 = prefix p -> connected_at p <= connected_at p2))
      /\ delete old (peers r) !! id = None /\ p' = <[id := new_record a w now]> (delete old (peers r))
  | RejectedCapacity => ~ in_force /\ zsize (peers r) = max_peers r /\ p' = peers r
      /\ (0 < prefix_count (peers r) q \/ forall q', prefix_count (peers r) q' <= 1)
  end.

Lemma prefix_absent m q : existsb (fun peer => bool_decide (prefix peer = q)) (in_order m).*2 = false ->
  prefix_count m q = 0.
Proof.
  intros E. rewrite <- values_count. destruct (base.filter _ _) as [|p l] eqn:Ef; [done|]. exfalso.
  assert (p ∈ base.filter (fun p => prefix p = q) (in_order m).*2) as [Hq Hp]%list_elem_of_filter by (rewrite Ef; left).
  apply not_true_iff_false in E. apply E, existsb_exists. exists p. rewrite <- list_elem_of_In. split; [done|].
  by apply bool_decide_eq_true.
Qed.

Lemma counts_entry m q n : zsize m < 2 ^ 64 ->
  (q, n) ∈ in_order (prefix_counts (in_order m).*2) <-> n = prefix_count m q /\ n <> 0.
Proof.
  intros Hm. rewrite elem_of_in_order, prefix_counts_lookup, values_count by (by rewrite zlength_values).
  cbv zeta. case_decide; naive_solver.
Qed.

Lemma admit_decides r a w now : registry_ok r -> exists b' n p' d,
  admit_ r a w now = Some ({| banned := b'; max_peers := max_peers r; next_peer := n; peers := p' |}, d)
  /\ is_u64 n /\ (forall id p, p' !! id = Some p -> is_u64 id) /\ b' ⊆ banned r
  /\ (forall c e, banned r !! c = Some e -> now < e -> b' !! c = Some e)
  /\ decides r a w now d p'.
Proof.
  intros Hr. destruct (is_banned_spec r (normalize a) now) as (b' & Eb & Hsub & Hlive). rewrite normalize_idem in Eb.
  pose proof (ok_max _ Hr) as Hmax. pose proof (ok_full _ Hr) as Hfull. pose proof (ok_next _ Hr) as Hnext.
  assert (forall id p, peers r !! id = Some p -> is_u64 id) as Hids by (intros id p Hp; by apply (ok_peers _ Hr) in Hp as [? _]).
  unfold admit_. rewrite Eb, !from_address_normalize.
  destruct (match banned r !! normalize a with Some e => now <? e | None => false end) eqn:Ef; cbv beta iota zeta.
  { eexists b', _, (peers r), _. split; [done|]. split_and!; [done|done|done|done|]. split; [|done].
    destruct (banned r !! normalize a) as [e|]; [|done]. exists e. split; [done|]. by apply Z.ltb_lt. }
  assert (~ exists e, banned r !! normalize a = Some e /\ now < e) as Hnf.
  { intros (e & E & Hlt). rewrite E in Ef. apply Z.ltb_ge in Ef. lia. }
  cbn [peers with_banned max_peers]. destruct (Z.ltb_spec (zsize (peers r)) (max_peers r)) as [Hroom|Hno].
  - destruct (insert_returns (with_banned r b') a w now Hnext ltac:(cbn; unfold is_uint in Hmax; lia)) as (n & id & Ei & Hn & Hid & Hfree).
    rewrite Ei. cbn. eexists b', n, _, _. split; [done|]. split_and!; try done.
    intros id2 p2 [[<- _]|[_ ?%Hids]]%lookup_insert_Some; done.
  - destruct (existsb _ _) eqn:Ex.
    { eexists b', _, (peers r), _. split; [done|]. split_and!; [done|done|done|done|]. split_and!; [done|lia|done|left].
      apply existsb_exists in Ex as (p & Hp & <-%bool_decide_eq_true). apply list_elem_of_In, elem_of_values in Hp as [id Hp].
      by apply prefix_count_pos in Hp. }
    apply prefix_absent in Ex.
    pose proof (max_by_key_spec (A := NetworkPrefix * Z) snd (in_order (prefix_counts (in_order (peers r)).*2))) as Hsel.
    assert (zsize (peers r) < 2 ^ 64) as Hs by (unfold is_uint in Hmax; lia).
    destruct (max_by_key _ _) as [[q n]|].
    2: { eexists b', _, (peers r), _. split; [done|]. split_and!; [done|done|done|done|]. split_and!; [done|lia|done|right].
         intros q'. assert ((q', prefix_count (peers r) q') ∉ in_order (prefix_counts (in_order (peers r)).*2)) as Hq'
           by (rewrite Hsel; apply not_elem_of_nil).
         rewrite counts_entry in Hq' by done. destruct (decide (prefix_count (peers r) q' = 0)); [lia|]. by destruct Hq'. }
    destruct Hsel as [Hq Hmx]. apply counts_entry in Hq as [-> Hq0]; [|done]. cbn [snd] in Hmx.
    assert (forall q', prefix_count (peers r) q' <= prefix_count (peers r) q) as Hall.
    { intros q'. destruct (decide (prefix_count (peers r) q' = 0)) as [->|]; [unfold prefix_count; apply zlength_nonneg|].
      apply (Hmx (q', prefix_count (peers r) q')). by apply counts_entry. }
    destruct (Z.leb_spec (prefix_count (peers r) q) 1) as [Hle|Hgt].
    { eexists b', _, (peers r), _. split; [done|]. split_and!; [done|done|done|done|]. split_and!; [done|lia|done|right].
      intros q'. specialize (Hall q'). lia. }
    pose proof (min_by_key_spec (A := Z * PeerRecord) (fun ip => connected_at ip.2)
      (base.filter (fun ip => prefix ip.2 = q) (in_order (peers r)))) as Hsel.
    destruct (min_by_key _ _) as [[old p]|].
    2: { exfalso. rewrite prefix_count_order, Hsel in Hgt. done. }
    destruct Hsel as [[Hpq Hp]%list_elem_of_filter Hmin]. cbn in Hpq. subst q. apply elem_of_in_order in Hp as Hold.
    assert (zsize (delete old (peers r)) < 2 ^ 64) as Hs' by (rewrite (zsize_delete _ _ _ Hold); lia).
    destruct (insert_returns (with_peers (with_banned r b') (delete old (peers r))) a w now Hnext Hs') as (n & id & Ei & Hn & Hid & Hfree).
    rewrite Ei. cbn. eexists b', n, _, _. split; [done|]. split_and!; try done.
    + intros id2 p2 [[<- _]|[_ [_ ?%Hids]%lookup_delete_Some]]%lookup_insert_Some; done.
    + split_and!; [done|lia|done| |done|done]. exists p. split_and!; [done|done|done|done|]. intros id2 p2 Hp2 Eq.
      apply (Hmin (id2, p2)). rewrite list_elem_of_filter, elem_of_in_order. done.
Qed.

Lemma subset_zsize (b b' : gmap IpAddr Z) : b' ⊆ b -> zsize b' <= zsize b.
Proof. intros Hs%map_subseteq_size. unfold zsize. lia. Qed.

Lemma subset_zsize_peers (p p' : gmap Z PeerRecord) : p' ⊆ p -> zsize p' <= zsize p.
Proof. intros Hs%map_subseteq_size. unfold zsize. lia. Qed.

Lemma admit_ok r a w now r' d : registry_ok r -> admit_ r a w now = Some (r', d) -> registry_ok r'.
Proof.
  intros Hr E. destruct (admit_decides r a w now Hr) as (b' & n & p' & d' & E' & Hn & Hids & Hb & _ & Hd).
  rewrite E in E'. injection E' as -> ->.
  assert (forall id p2, p' !! id = Some p2 -> p2 = new_record a w now \/ exists id2, peers r !! id2 = Some p2) as Hfrom.
  { intros id p2 Hp2. destruct d'; destruct_and? Hd; cbn in Hd.
    - destruct Hd as (_ & _ & _ & ->). apply lookup_insert_Some in Hp2 as [[_ <-]|[_ Hp2]]; eauto.
    - destruct Hd as (_ & _ & _ & _ & _ & ->). apply lookup_insert_Some in Hp2 as [[_ <-]|[_ Hp2]]; eauto.
      apply lookup_delete_Some in Hp2 as [_ Hp2]. eauto.
    - destruct Hd as [_ ->]. eauto.
    - destruct Hd as (_ & _ & -> & _). eauto. }
  split; cbn.
  - apply (ok_max _ Hr).
  - done.
  - pose proof (ok_full _ Hr). destruct d'; cbn in Hd.
    + destruct Hd as (_ & Hlt & Hfree & ->). rewrite zsize_insert_fresh by done. lia.
    + destruct Hd as (_ & Hfull & _ & (p & Hp & _) & Hfree & ->). rewrite zsize_insert_fresh by done.
      rewrite (zsize_delete _ _ _ Hp). lia.
    + by destruct Hd as [_ ->].
    + by destruct Hd as (_ & _ & -> & _).
  - pose proof (ok_banned _ Hr). apply subset_zsize in Hb. lia.
  - intros id p2 Hp2. split; [by eapply Hids|]. destruct (Hfrom _ _ Hp2) as [->|[id2 Hp]].
    + cbn. by rewrite normalize_idem, from_address_normalize.
    + apply (ok_peers _ Hr) in Hp. tauto.
Qed.

Lemma banned_room (b : gmap IpAddr Z) : zsize b <= MAX_BANNED_PEERS ->
  zsize (if MAX_BANNED_PEERS <=? zsize b then
    match min_by_key snd (in_order b) with Some (address, _) => delete address b | None => b end else b) < MAX_BANNED_PEERS.
Proof.
  intros Hb. destruct (Z.leb_spec MAX_BANNED_PEERS (zsize b)); [|done].
  pose proof (min_by_key_spec (A := IpAddr * Z) snd (in_order b)) as Hsel. destruct (min_by_key _ _) as [[c e]|].
  - destruct Hsel as [Hin%elem_of_in_order _]. unfold zsize in *. pose proof (map_size_ne_0_lookup_2 b c (ex_intro _ e Hin)).
    rewrite map_size_delete_Some by eauto. lia.
  - exfalso. pose proof (in_order_perm b) as Hp. rewrite Hsel in Hp. apply (f_equal length) in Hp || apply Permutation_length in Hp.
    rewrite length_map_to_list in Hp. unfold zsize, MAX_BANNED_PEERS in *. cbn in Hp. lia.
Qed.

Lemma ban_ok r id now : registry_ok r -> registry_ok (ban r id now).1.
Proof.
  intros Hr. unfold ban. destruct (peers r !! id) as [p|] eqn:E; [|done]. cbn. split; cbn.
  - apply (ok_max _ Hr).
  - apply (ok_next _ Hr).
  - pose proof (ok_full _ Hr). rewrite (zsize_delete _ _ _ E). lia.
  - pose proof (subset_zsize _ _ (map_filter_subseteq (fun ae => now < ae.2) (banned r))) as Hle.
    pose proof (banned_room _ (Z.le_trans _ _ _ Hle (ok_banned _ Hr))) as Hroom.
    unfold zsize in Hroom |- *. rewrite map_size_insert.
    match type of Hroom with Z.of_nat (size ?b) < _ => destruct (b !! address p) end; cbv [Datatypes.id]; lia.
  - apply map_Forall_delete, (ok_peers _ Hr).
Qed.

Lemma run_registry_ok r op r' : registry_ok r -> run_registry r op = Some r' -> registry_ok r'.
Proof.
  intros Hr E. destruct op as [a w now|id name|id|w|id now]; cbn in E.
  - destruct (admit_ r a w now) as [[r1 d]|] eqn:Ea; [|done]. injection E as <-. by eapply admit_ok.
  - injection E as <-. unfold identify. destruct (peers r !! id) as [p|] eqn:Ep; [|done].
    destruct Hr as [? ? Hf ? Hp]. split; cbn; try done.
    + unfold zsize in *. rewrite map_size_insert_Some by eauto. done.
    + apply map_Forall_insert_2; [|done]. by apply Hp in Ep.
  - injection E as <-. destruct Hr as [? ? Hf ? Hp]. split; cbn; try done.
    + pose proof (subset_zsize_peers _ _ (delete_subseteq (peers r) id)). lia.
    + by apply map_Forall_delete.
  - injection E as <-. destruct Hr as [? ? Hf ? Hp]. split; cbn; try done.
    + pose proof (subset_zsize_peers _ _ (map_filter_subseteq (fun ip => worker ip.2 <> w) (peers r))). lia.
    + intros id p [Hid _]%map_lookup_filter_Some. by apply Hp in Hid.
  - injection E as <-. by apply ban_ok.
Qed.

Lemma new_ok n : is_u64 n -> registry_ok (new n).
Proof.
  intros Hn. split; cbn; [done|done| | |apply map_Forall_empty]; unfold zsize; rewrite map_size_empty;
    [unfold is_uint in Hn; lia|done].
Qed.

Lemma second_of_prefix (m : gmap Z PeerRecord) old q : 1 < prefix_count m q ->
  exists id p, id <> old /\ m !! id = Some p /\ prefix p = q.
Proof.
  intros Hc. unfold prefix_count in Hc. set (l := base.filter _ _) in Hc.
  assert (forall id p, (id, p) ∈ l -> m !! id = Some p /\ prefix p = q) as Hin.
  { intros id p [Hq Hm%elem_of_map_to_list]%list_elem_of_filter. done. }
  assert (NoDup l) as Hnd by apply NoDup_filter, NoDup_map_to_list.
  destruct l as [|[i p] [|[j p'] l]]; [done|done|].
  apply NoDup_cons in Hnd as [Hij _]. destruct (decide (i = old)) as [->|].
  - exists j, p'. split; [|apply Hin; right; left]. intros ->. apply Hij.
    destruct (Hin old p) as [E _]; [left|]. destruct (Hin old p') as [E' _]; [right; left|].
    rewrite E in E'. injection E' as ->. left.
  - exists i, p. split; [done|]. apply Hin. left.
Qed.

Lemma prefixes_kept r a w now d p' : decides r a w now d p' -> prefixes (peers r) ⊆ prefixes p'.
Proof.
  intros Hd q. rewrite !elem_of_prefixes. intros (id & p & Hp & <-). destruct d; cbn in Hd.
  - destruct Hd as (_ & _ & Hfree & ->). exists id, p. split; [|done]. rewrite lookup_insert_ne; [done|]. intros ->. congruence.
  - destruct Hd as (_ & _ & _ & (pe & Hpe & _ & Hcount & _) & Hfree & ->).
    destruct (decide (prefix p = prefix pe)) as [->|Hne].
    + destruct (second_of_prefix _ evicted_peer _ Hcount) as (id2 & p2 & Hne & Hp2 & Eq). exists id2, p2. split; [|done].
      assert (delete evicted_peer (peers r) !! id2 = Some p2) as E by (by rewrite lookup_delete_ne).
      rewrite lookup_insert_ne; [done|]. intros ->. congruence.
    + exists id, p. split; [|done].
      assert (delete evicted_peer (peers r) !! id = Some p) as E by (rewrite lookup_delete_ne; [done|]; intros ->; congruence).
      rewrite lookup_insert_ne; [done|]. intros ->. congruence.
  - destruct Hd as [_ ->]. by exists id, p.
  - destruct Hd as (_ & _ & -> & _). by exists id, p.
Qed.

(** ** Bans *)

Definition op_time (op : RegistryOp) : option Z :=
  match op with OpAdmit _ _ t => Some t | OpBan _ t => Some t | _ => None end.
Definition is_ban (op : RegistryOp) : bool := match op with OpBan _ _ => true | _ => false end.
Definition bans (ops : list RegistryOp) : Z := zlength (base.filter (fun op => is_ban op = true) ops).

Lemma bans_cons op ops : bans (op :: ops) = Z.b2z (is_ban op) + bans ops.
Proof. unfold bans. rewrite filter_cons. destruct (is_ban op); [by rewrite decide_True, zlength_cons|by rewrite decide_False]. Qed.

Definition bars (r : PeerRegistry) (a : IpAddr) (until : Z) : Prop := exists e, banned r !! a = Some e /\ until <= e.

Lemma instant_ok_le t t' : instant_ok t' -> 0 <= t <= t' -> instant_ok t.
Proof.
  intros [_ Hs] Ht. split; [lia|]. eapply Z.le_lt_trans; [|exact Hs]. apply Z.div_le_mono; [done|lia].
Qed.

Lemma ban_records r id now p : peers r !! id = Some p -> instant_ok (now + BAN_DURATION) ->
  exists b, (ban r id now).1 = with_banned (with_peers r (delete id (peers r))) (<[address p := now + BAN_DURATION]> b)
  /\ b ⊆ base.filter (fun ae => now < ae.2) (banned r)
  /\ (zsize (banned r) < MAX_BANNED_PEERS -> b = base.filter (fun ae => now < ae.2) (banned r)).
Proof.
  intros E Ht. unfold ban. rewrite E. cbn. unfold instant_add. rewrite decide_True by done. cbn.
  eexists. split; [done|]. split.
  - destruct (_ <=? _); [|done]. destruct (min_by_key _ _) as [[c e]|]; [apply delete_subseteq|done].
  - intros Hs. pose proof (subset_zsize _ _ (map_filter_subseteq (fun ae => now < ae.2) (banned r))).
    destruct (Z.leb_spec MAX_BANNED_PEERS (zsize (base.filter (fun ae => now < ae.2) (banned r)))); [lia|done].
Qed.

Lemma run_registry_bars r op r' a start until : registry_ok r -> run_registry r op = Some r' ->
  (forall t, op_time op = Some t -> start <= t < until) -> 0 <= start -> until <= start + BAN_DURATION ->
  instant_ok (until + BAN_DURATION) -> zsize (banned r) + Z.b2z (is_ban op) <= MAX_BANNED_PEERS ->
  bars r a until -> bars r' a until /\ zsize (banned r') <= zsize (banned r) + Z.b2z (is_ban op).
Proof.
  intros Hr E Ht H0 Hu Hi Hs (e & He & Hle). destruct op as [b w t|id name|id|w|id t]; cbn in E, Ht, Hs |- *.
  - destruct (admit_ r b w t) as [[r1 d]|] eqn:Ea; [|done]. injection E as <-.
    destruct (admit_decides r b w t Hr) as (b' & n & p' & d' & E' & _ & _ & Hsub & Hkeep & _).
    rewrite Ea in E'. injection E' as -> ->. cbn. specialize (Ht t eq_refl). split.
    + exists e. split; [apply Hkeep; [done|lia]|done].
    + apply subset_zsize in Hsub. lia.
  - injection E as <-. unfold identify. destruct (peers r !! id); (split; [by exists e|cbn; lia]).
  - injection E as <-. split; [by exists e|cbn; lia].
  - injection E as <-. split; [by exists e|cbn; lia].
  - injection E as <-. specialize (Ht t eq_refl). destruct (peers r !! id) as [p|] eqn:Ep.
    2: { unfold ban. rewrite Ep. cbn. split; [by exists e|lia]. }
    assert (instant_ok (t + BAN_DURATION)) as Hit by (assert (0 < BAN_DURATION) by done; eapply instant_ok_le; [exact Hi|lia]).
    destruct (ban_records r id t p Ep Hit) as (b & Eb & _ & Hb). rewrite Eb. rewrite (Hb ltac:(lia)). cbn. split.
    + destruct (decide (address p = a)) as [->|Hne].
      * exists (t + BAN_DURATION). cbn. rewrite lookup_insert_eq. split; [done|lia].
      * exists e. cbn. rewrite lookup_insert_ne by done. split; [|done]. apply map_lookup_filter_Some. cbn. split; [done|lia].
    + pose proof (subset_zsize _ _ (map_filter_subseteq (fun ae => t < ae.2) (banned r))).
      unfold zsize in *. rewrite map_size_insert.
      match goal with |- context [?b !! address p] => destruct (b !! address p) end; cbv [Datatypes.id]; lia.
Qed.

Lemma run_ops_bars ops r r' a start until : registry_ok r -> run_registry_ops r ops = Some r' ->
  Forall (fun op => forall t, op_time op = Some t -> start <= t < until) ops -> 0 <= start -> until <= start + BAN_DURATION ->
  instant_ok (until + BAN_DURATION) -> zsize (banned r) + bans ops <= MAX_BANNED_PEERS ->
  bars r a until -> registry_ok r' /\ bars r' a until.
Proof.
  intros Hr E Ht H0 Hu Hi. revert r Hr E; induction Ht as [|op ops Hop Ht IH]; intros r Hr E Hs Hb; cbn in E.
  - by injection E as <-.
  - destruct (run_registry r op) as [r1|] eqn:E1; [|done]. cbn in E. rewrite bans_cons in Hs.
    assert (0 <= bans ops) by apply zlength_nonneg.
    edestruct run_registry_bars as [Hb1 Hs1]; [exact Hr|exact E1|exact Hop|exact H0|exact Hu|exact Hi|lia|exact Hb|].
    apply (IH r1); [by eapply run_registry_ok|done|lia|done].
Qed.

End Contract.

(** ** The rate limiter as a function of the number of messages *)

Definition limiter_ok (l : MessageRateLimiter) : Prop :=
  0 <= messages l < 2 ^ 32 /\ violations l = Z.min 255 (Z.max 0 (messages l - MAX_MESSAGES_PER_SECOND)).

(** Whether the check at [now] starts a new window. *)
Definition resets (l : MessageRateLimiter) (now : Z) : bool := from_secs 1 <=? now - window_started l.

Definition decision (n : Z) : RateLimitDecision := if n <=? 100 then Allow else if n <=? 102 then Drop_ else Ban.

Lemma check_decides l now : limiter_ok l -> exists l', check l now = (l', decision (messages l')) /\ limiter_ok l'
  /\ window_started l' = (if resets l now then now else window_started l)
  /\ messages l' = saturating_add 32 (if resets l now then 0 else messages l) 1.
Proof.
  intros [Hm Hv]. unfold check, duration_since, resets, saturating_sub.
  assert ((from_secs 1 <=? Z.max 0 (now - window_started l)) = (from_secs 1 <=? now - window_started l)) as ->.
  { apply eq_true_iff_eq. rewrite !Z.leb_le. change (from_secs 1) with 1000000000. lia. }
  assert (forall l0, limiter_ok l0 -> exists l',
    (let l := {| messages := saturating_add 32 (messages l0) 1; violations := violations l0; window_started := window_started l0 |} in
     if messages l <=? MAX_MESSAGES_PER_SECOND then (l, Allow)
     else
      let l := {| messages := messages l; violations := saturating_add 8 (violations l) 1; window_started := window_started l |} in
      if RATE_LIMIT_VIOLATIONS <=? violations l then (l, Ban) else (l, Drop_)) = (l', decision (messages l'))
    /\ limiter_ok l' /\ window_started l' = window_started l0 /\ messages l' = saturating_add 32 (messages l0) 1) as Hgo.
  { intros l0 [Hm0 Hv0]. cbn [messages violations window_started]. unfold decision, MAX_MESSAGES_PER_SECOND, RATE_LIMIT_VIOLATIONS in *.
    unfold saturating_add. change (2 ^ 32 - 1) with 4294967295. change (2 ^ 8 - 1) with 255. change (2 ^ 32) with 4294967296 in *.
    set (n := Z.min (messages l0 + 1) 4294967295). destruct (Z.leb_spec n 100) as [Hn|Hn].
    - exists {| messages := n; violations := violations l0; window_started := window_started l0 |}.
      cbn [messages]. rewrite (proj2 (Z.leb_le n 100)) by lia. split_and!; [done| |done|done].
      split; cbn [messages violations]; unfold MAX_MESSAGES_PER_SECOND; [change (2 ^ 32) with 4294967296|]; lia.
    - set (v := Z.min (violations l0 + 1) 255).
      assert (v = Z.min 255 (Z.max 0 (n - 100))) as Ev by lia.
      exists {| messages := n; violations := v; window_started := window_started l0 |}.
      cbn [messages]. rewrite (proj2 (Z.leb_gt n 100)) by lia. split_and!; [| |done|done].
      + destruct (Z.leb_spec 3 v); [rewrite (proj2 (Z.leb_gt n 102)) by lia|rewrite (proj2 (Z.leb_le n 102)) by lia]; done.
      + split; cbn [messages violations]; unfold MAX_MESSAGES_PER_SECOND; [change (2 ^ 32) with 4294967296|]; lia. }
  destruct (from_secs 1 <=? now - window_started l).
  - apply (Hgo (new_limiter now)). split; cbn; [done|]. by unfold MAX_MESSAGES_PER_SECOND.
  - by apply Hgo.
Qed.

(** The checks at the given times, one after the other. *)
Fixpoint run_checks (l : MessageRateLimiter) (times : list Z) : MessageRateLimiter * list RateLimitDecision :=
  match times with
  | [] => (l, [])
  | t :: times => let '(l, d) := check l t in let '(l, ds) := run_checks l times in (l, d :: ds)
  end.

Definition count (P : RateLimitDecision -> bool) (ds : list RateLimitDecision) : Z := zlength (base.filter (fun d => P d = true) ds).

Lemma count_cons P d ds : count P (d :: ds) = Z.b2z (P d) + count P ds.
Proof. unfold count. rewrite filter_cons. destruct (P d); [by rewrite decide_True, zlength_cons|by rewrite decide_False]. Qed.

Section Window.
Context (P : RateLimitDecision -> bool) (K : Z) (HK : 1 <= K < 2 ^ 32 - 1) (HP : forall n, P (decision n) = (n <=? K)).

Lemma run_checks_cons l t times : limiter_ok l -> exists l', limiter_ok l'
  /\ window_started l' = (if resets l t then t else window_started l)
  /\ messages l' = saturating_add 32 (if resets l t then 0 else messages l) 1
  /\ run_checks l (t :: times) = ((run_checks l' times).1, decision (messages l') :: (run_checks l' times).2).
Proof.
  intros Hl. destruct (check_decides l t Hl) as (l' & E & Hl' & Hw & Hm). exists l'. split_and!; [done..|].
  cbn. rewrite E. by destruct (run_checks l' times).
Qed.

Lemma count_within l times : limiter_ok l -> Forall (fun t => t < window_started l + from_secs 1) times ->
  count P (run_checks l times).2 <= Z.max 0 (K - messages l).
Proof.
  intros Hl Ht. revert l Hl Ht; induction times as [|t times IH]; intros l Hl Ht; [change (0 <= Z.max 0 (K - messages l)); lia|].
  apply Forall_cons in Ht as [Ht Hts]. destruct (run_checks_cons l t times Hl) as (l' & Hl' & Hw & Hm & E). rewrite E.
  assert (resets l t = false) as Hno by (unfold resets; apply Z.leb_gt; lia). rewrite Hno in Hw, Hm.
  rewrite <- Hw in Hts. specialize (IH l' Hl' Hts). cbn [snd]. rewrite count_cons, HP.
  destruct Hl as [Hl _]. rewrite Hm in *. unfold saturating_add in *. change (2 ^ 32) with 4294967296 in *.
  destruct (Z.leb_spec (Z.min (messages l + 1) (4294967296 - 1)) K); cbn [Z.b2z]; lia.
Qed.

Lemma count_span l times start : limiter_ok l -> StronglySorted Z.le times ->
  Forall (fun t => start <= t < start + from_secs 1) times ->
  count P (run_checks l times).2 <= Z.max 0 (K - messages l) + K.
Proof.
  intros Hl Hs Ht. revert l Hl; induction times as [|t times IH]; intros l Hl; [change (0 <= Z.max 0 (K - messages l) + K); lia|].
  apply Forall_cons in Ht as [Ht Hts]. apply StronglySorted_inv in Hs as [Hs Hall].
  destruct (run_checks_cons l t times Hl) as (l' & Hl' & Hw & Hm & E). rewrite E. cbn [snd]. rewrite count_cons, HP.
  destruct Hl as [Hl _]. unfold saturating_add in *. change (2 ^ 32) with 4294967296 in *. destruct (resets l t).
  - assert (Forall (fun u => u < window_started l' + from_secs 1) times) as Hw'.
    { rewrite Hw. eapply Forall_impl; [exact Hts|]. cbn. lia. }
    pose proof (count_within l' times Hl' Hw'). rewrite Hm in *.
    destruct (Z.leb_spec (Z.min (0 + 1) (4294967296 - 1)) K); cbn [Z.b2z]; lia.
  - specialize (IH Hs Hts l' Hl'). rewrite Hm in *.
    destruct (Z.leb_spec (Z.min (messages l + 1) (4294967296 - 1)) K); cbn [Z.b2z]; lia.
Qed.
End Window.

Lemma run_checks_ok l times : limiter_ok l -> limiter_ok (run_checks l times).1.
Proof.
  revert l; induction times as [|t times IH]; intros l Hl; [done|].
  destruct (run_checks_cons l t times Hl) as (l' & Hl' & _ & _ & E). rewrite E. by apply IH.
Qed.

Lemma new_limiter_ok t : limiter_ok (new_limiter t).
Proof. split; [done|by unfold MAX_MESSAGES_PER_SECOND]. Qed.

(** No 101 checks in a row are made within one second. *)
Definition moderate (times : list Z) : Prop :=
  forall l1 a l2 b l3, times = l1 ++ a :: l2 ++ b :: l3 -> zlength l2 = 99 -> a + from_secs 1 <= b.

Lemma moderate_allowed rest l1 w l : limiter_ok l -> zlength w = messages l -> messages l <= 100 ->
  StronglySorted Z.le rest -> Forall (fun t => window_started l <= t) (w ++ rest) ->
  moderate (l1 ++ w ++ rest) -> Forall (fun d => d = Allow) (run_checks l rest).2.
Proof.
  revert l1 w l; induction rest as [|t rest IH]; intros l1 w l Hl Hlen Hle Hs Hw Hmod; [constructor|].
  destruct (run_checks_cons l t rest Hl) as (l' & Hl' & Hw' & Hm & E). rewrite E. cbn [snd].
  apply StronglySorted_inv in Hs as [Hs Hall]. unfold saturating_add in Hm. change (2 ^ 32 - 1) with 4294967295 in Hm.
  destruct (resets l t) eqn:Er.
  - assert (messages l' = 1) as Hm1 by lia. constructor; [by rewrite Hm1|].
    apply (IH (l1 ++ w) [t]); [done|by rewrite Hm1|lia|done|by rewrite Hw'; constructor|by rewrite <- app_assoc].
  - assert (messages l <> 100) as Hne.
    { intros E100. unfold resets in Er. apply Z.leb_gt in Er. destruct w as [|a w]; [rewrite zlength_nil in Hlen; lia|].
      rewrite zlength_cons in Hlen. apply Forall_cons in Hw as [Ha _].
      pose proof (Hmod l1 a w t rest ltac:(by rewrite <- app_comm_cons) ltac:(lia)). lia. }
    assert (messages l' = messages l + 1) as Hm1 by lia. constructor.
    { unfold decision. by rewrite (proj2 (Z.leb_le (messages l') 100)) by lia. }
    apply (IH l1 (w ++ [t])); [done|rewrite zlength_app, zlength_cons, zlength_nil; lia|lia|done| |by rewrite <- app_assoc].
    by rewrite Hw', <- app_assoc.
Qed.

(** ** The theorems *)

(** C25: the registry admits by policy, in every order in which a hash map may be read: a banned address is turned
    away while its ban is in force and changes nothing; below capacity a fresh number is given; at capacity a newcomer
    replaces a peer only if no peer has the newcomer's prefix, and then the peer connected longest among those of a
    most frequent prefix that at least two peers have; otherwise it is rejected and nobody is disturbed.  The call
    always returns, and no prefix that had a peer loses its last one. *)
Theorem admission_policy `{HashOrder} r a w now (Hr : registry_ok r) :
  exists r' d, admit_ r a w now = Some (r', d) /\ decides r a w now d (peers r')
    /\ prefixes (peers r) ⊆ prefixes (peers r') /\ registry_ok r'.
Proof.
  destruct (admit_decides r a w now Hr) as (b' & n & p' & d & E & _ & _ & _ & _ & Hd).
  eexists _, d. split; [exact E|]. split_and!; [done|by eapply prefixes_kept|by eapply admit_ok].
Qed.

(** Whatever the acceptor and the workers do with the registry, and in whatever order, each call returns and
    there are never more peers than slots nor more bans than the table holds; every peer is filed under the prefix of
    its address. *)
Theorem registry_bounded `{HashOrder} (slots : Z) (ops : list RegistryOp) (Hslots : is_u64 slots) :
  exists r, run_registry_ops (new slots) ops = Some r /\ registry_ok r
    /\ zsize (peers r) <= slots /\ zsize (banned r) <= MAX_BANNED_PEERS.
Proof.
  assert (forall r0, registry_ok r0 -> exists r, run_registry_ops r0 ops = Some r /\ registry_ok r /\ max_peers r = max_peers r0) as Hgo.
  { induction ops as [|op ops IH]; intros r0 Hr0; [by exists r0|]. cbn.
    assert (exists r1, run_registry r0 op = Some r1 /\ max_peers r1 = max_peers r0) as (r1 & E1 & Em).
    { destruct op as [a w now|id name|id|w|id now]; cbn.
      - destruct (admit_decides r0 a w now Hr0) as (b' & n & p' & d & E & _). rewrite E. by eexists.
      - eexists. split; [done|]. unfold identify. by destruct (peers r0 !! id).
      - by eexists.
      - by eexists.
      - eexists. split; [done|]. unfold ban. by destruct (peers r0 !! id). }
    rewrite E1. destruct (IH r1) as (r & Er & Hr & Hmx); [by eapply run_registry_ok|]. exists r. by rewrite Hmx. }
  destruct (Hgo (new slots) (new_ok slots Hslots)) as (r & E & Hr & Hmx). exists r. split_and!; [done|done| |apply (ok_banned _ Hr)].
  pose proof (ok_full _ Hr). by rewrite Hmx in *.
Qed.

(** A ban lasts.  After peer [id] was banned at [now], through any calls made in the following hour, as long as
    the bans among them fit into the table, its address is refused, whichever worker is next. *)
Theorem ban_lasts `{HashOrder} r id now p ops r' t w (Hr : registry_ok r) (Hp : peers r !! id = Some p) (Hnow : 0 <= now)
  (Hclock : instant_ok (now + BAN_DURATION + BAN_DURATION))
  (Hops : Forall (fun op => forall u, op_time op = Some u -> now <= u < now + BAN_DURATION) ops)
  (Hroom : zsize (banned (ban r id now).1) + bans ops <= MAX_BANNED_PEERS)
  (Hrun : run_registry_ops (ban r id now).1 ops = Some r') (Ht : now <= t < now + BAN_DURATION) :
  exists r'', admit_ r' (address p) w t = Some (r'', RejectedBanned) /\ peers r'' = peers r'.
Proof.
  assert (bars (ban r id now).1 (address p) (now + BAN_DURATION)) as Hb.
  { destruct (ban_records r id now p Hp) as (b & E & _ & _).
    { eapply instant_ok_le; [exact Hclock|]. assert (0 < BAN_DURATION) by done. lia. }
    rewrite E. exists (now + BAN_DURATION). cbn. by rewrite lookup_insert_eq. }
  destruct (run_ops_bars ops _ r' (address p) now (now + BAN_DURATION) (ban_ok r id now Hr) Hrun Hops Hnow (Z.le_refl _) Hclock Hroom Hb)
    as [Hr' (e & He & Hle)].
  pose proof Hp as Hpn. apply (ok_peers _ Hr) in Hpn as (_ & Hn & _).
  destruct (admit_decides r' (address p) w t Hr') as (b' & n & p' & d & E & _ & _ & _ & _ & Hd).
  assert (exists e, banned r' !! normalize (address p) = Some e /\ t < e) as Hf by (rewrite Hn; exists e; split; [done|lia]).
  destruct d; cbn in Hd; destruct Hd as [Hd Hrest]; try by exfalso. subst p'. by eexists.
Qed.

(** Packets are limited over every second, not only over the limiter's own windows: of the checks made within
    any span of one second, whatever came before, at most 200 are allowed and at most 204 are answered with anything
    but a ban.  A peer that never makes 101 checks in a row within one second has all of them allowed. *)
Theorem packet_rate_bounded (start : Z) (earlier span : list Z) (from : Z)
  (Hsorted : StronglySorted Z.le span) (Hspan : Forall (fun t => from <= t < from + from_secs 1) span) :
  let ds := (run_checks (run_checks (new_limiter start) earlier).1 span).2 in
  count (fun d => match d with Allow => true | _ => false end) ds <= 200
  /\ count (fun d => match d with Ban => false | _ => true end) ds <= 204
  /\ (StronglySorted Z.le earlier -> Forall (fun t => start <= t) earlier -> moderate earlier ->
      Forall (fun d => d = Allow) (run_checks (new_limiter start) earlier).2).
Proof.
  pose proof (run_checks_ok _ earlier (new_limiter_ok start)) as Hl. cbv zeta. split_and!.
  - pose proof (count_span (fun d => match d with Allow => true | _ => false end) 100) as Hc.
    pose proof (Hc ltac:(done) ltac:(intros n; unfold decision; destruct (Z.leb_spec n 100); [done|]; by destruct (n <=? 102))
      _ span from Hl Hsorted Hspan). destruct Hl as [[? _] _]. lia.
  - pose proof (count_span (fun d => match d with Ban => false | _ => true end) 102) as Hc.
    pose proof (Hc ltac:(done) ltac:(intros n; unfold decision; destruct (Z.leb_spec n 100), (Z.leb_spec n 102); done || lia)
      _ span from Hl Hsorted Hspan). destruct Hl as [[? _] _]. lia.
  - intros Hs Hge Hmod. apply (moderate_allowed earlier [] []); [apply new_limiter_ok|done|done|done|done|done].
Qed.

(** ** Concrete inputs *)

#[export] Instance map_order : HashOrder.
Proof. refine {| in_order := fun K A _ _ m => map_to_list m |}. done. Defined.

Definition ip (a b c d : Z) : IpAddr := IpV4 [a; b; c; d].

(** Three slots: two peers of one prefix and one of another. *)
Definition sample_registry : PeerRegistry :=
  default (new 0) (run_registry_ops (new 3)
    [OpAdmit (ip 10 0 0 1) 0 5; OpAdmit (ip 10 0 0 2) 1 6; OpAdmit (IpV6 (zeros 10 ++ [255; 255; 10; 1; 0; 1])) 2 7]).

Lemma sample_registry_ok : registry_ok sample_registry.
Proof.
  split; [by_decide|by_decide|by_decide|by_decide|].
  apply (bool_decide_unpack _). vm_compute. exact I.
Qed.

Lemma admission_policy_witness : exists r', admit_ sample_registry (ip 20 0 0 1) 0 9 = Some (r', Replaced 0 0 3)
  /\ registry_ok r'.
Proof.
  destruct (admission_policy sample_registry (ip 20 0 0 1) 0 9 sample_registry_ok) as (r' & d & E & _ & _ & Hr).
  assert (snd <$> admit_ sample_registry (ip 20 0 0 1) 0 9 = Some (Replaced 0 0 3)) as Ed by eval_ok.
  rewrite E in Ed. injection Ed as ->. exists r'. split; [exact E|exact Hr].
Defined.

Lemma registry_bounded_witness : exists r, run_registry_ops (new 3) [OpAdmit (ip 1 2 3 4) 0 5; OpBan 0 6; OpAdmit (ip 1 2 3 4) 1 7] = Some r
  /\ zsize (banned r) <= MAX_BANNED_PEERS.
Proof.
  destruct (registry_bounded 3 [OpAdmit (ip 1 2 3 4) 0 5; OpBan 0 6; OpAdmit (ip 1 2 3 4) 1 7] ltac:(by_decide)) as (r & E & _ & _ & Hb).
  exists r. split; [exact E|exact Hb].
Defined.

Lemma ban_lasts_witness : exists r' r'', run_registry_ops (ban sample_registry 0 100).1 [OpBan 1 200] = Some r'
  /\ admit_ r' (ip 10 0 0 1) 0 300 = Some (r'', RejectedBanned).
Proof.
  destruct (run_registry_ops (ban sample_registry 0 100).1 [OpBan 1 200]) as [r'|] eqn:E.
  2: { exfalso. revert E. vm_compute. discriminate. }
  destruct (ban_lasts sample_registry 0 100 {| address := ip 10 0 0 1; connected_at := 5; prefix := V4 [10; 0]; software := None; worker := 0 |}
    [OpBan 1 200] r' 300 0 sample_registry_ok) as (r'' & Ea & _).
  - eval_ok.
  - by_decide.
  - by_decide.
  - apply Forall_singleton. intros u [= <-]. by_decide.
  - by_decide.
  - exact E.
  - by_decide.
  - exists r', r''. split; [done|exact Ea].
Defined.

Lemma packet_rate_bounded_witness :
  count (fun d => match d with Allow => true | _ => false end) (run_checks (run_checks (new_limiter 0) [5; 6]).1 (replicate 150 7)).2 <= 200.
Proof.
  apply (packet_rate_bounded 0 [5; 6] (replicate 150 7) 7).
  - apply Sorted_StronglySorted; [intros x y z ? ?; by etrans|]. by_decide.
  - apply Forall_replicate. by_decide.
Defined.

End Admission.
