(* ===== verification/Wire.v ===== *)
(** The messages of the peer protocol (the codecs of [src/src/node.rs]): [PeerError],
    [GetUtreexoProof], [UtreexoProof], [V2Message] and [V2Codec].  The payloads of Bitcoin messages are
    encoded by the [bitcoin] crate; its types and functions are the interfaces
    [P2pTypes], [P2pCodec] and [P2pLaws]. *)

From S2P Require Import Prelude Bytes JournalEntry JournalFile Udata HeaderIndex.
Import JournalEntry.JournalEntry JournalFile.JournalFile Udata.Udata.

(** [bitcoin::p2p]: the types that the server passes through unread.  [Foreign] is the content of
    the messages that it neither reads nor sends. *)
Class P2pTypes := {
  Inventory : Type;
  Address : Type;
  Foreign : Type;
  witness_block : bytes -> Inventory
}.

Module Wire.

(** ** Failures of one connection *)

Inductive PeerError :=
| CannotEncodeIgnoredMessage
| Decode (error : string)
| Disconnected
| Evicted
| HandshakeIncomplete
| HandshakeTimeout
| HandshakeTooLarge (size : Z)
| Io (error : string)
| InvalidHandshakeState
| MessageTooLarge (size : Z)
| MissingCommand
| MissingShortId
| NoPeerToken
| Panicked
| ProofBitmapTooLarge
| Protocol (error : string)
| RateLimitExceeded
| Rpc (error : string)
| Storage (error : string)
| TooManyInventoryItems (count : Z)
| TooManyLocatorHashes (count : Z)
| TooManyHandshakePackets (count : Z)
| TrailingPayload (bytes : Z)
| UserAgentTooLong (bytes : Z)
| WriteBufferFull.

#[export] Instance PeerError_eq_dec : EqDecision PeerError.
Proof. solve_decision. Defined.

(** [Result<A, PeerError>], and the [From] conversions of [?]. *)
Inductive presult (A : Type) : Type := Good (a : A) | Bad (e : PeerError).
#[global] Arguments Good {A} a.
#[global] Arguments Bad {A} e.

#[export] Instance presult_ret : MRet presult := fun A a => Good a.
#[export] Instance presult_bind : MBind presult := fun A B f r => match r with Good a => f a | Bad e => Bad e end.

Definition or_err {A} (e : string -> PeerError) (r : result A) : presult A :=
  match r with Ok a => Good a | Err msg => Bad (e msg) end.
Definition guard_ (b : bool) (e : PeerError) : presult unit := if b then Good tt else Bad e.

Lemma presult_bind_good {A B} (r : presult A) (f : A -> presult B) b :
  (r ≫= f) = Good b <-> exists a, r = Good a /\ f a = Good b.
Proof. destruct r; cbn; naive_solver. Qed.

Lemma or_err_good {A} e (r : result A) a : or_err e r = Good a <-> r = Ok a.
Proof. destruct r; cbn; naive_solver. Qed.

Lemma guard_good b e u : guard_ b e = Good u <-> b = true.
Proof. destruct b, u; cbn; naive_solver. Qed.

(** The same over a state, which survives an error. *)
Definition PR (S A : Type) : Type := S -> S * presult A.
#[export] Instance pr_ret {S} : MRet (PR S) := fun A a s => (s, Good a).
#[export] Instance pr_bind {S} : MBind (PR S) := fun A B f m s =>
  match m s with
  | (s, Good a) => f a s
  | (s, Bad e) => (s, Bad e)
  end.
Definition p_lift {S A} (r : presult A) : PR S A := fun s => (s, r).
Definition p_get {S} : PR S S := fun s => (s, Good s).
Definition p_modify {S} (f : S -> S) : PR S unit := fun s => (f s, Good tt).
(** A computation on a part of the state. *)
Definition p_on {S T A} (part : S -> T) (update : S -> T -> S) (m : PR T A) : PR S A := fun s =>
  let '(t, r) := m (part s) in (update s t, r).
Definition p_of_sr {S A} (e : string -> PeerError) (m : SR S A) : PR S A := fun s =>
  let '(s, r) := m s in (s, or_err e r).

Lemma pr_bind_inv {S A B} (m : PR S A) (f : A -> PR S B) s s' r :
  (m ≫= f) s = (s', r) ->
  exists s1 r1, m s = (s1, r1) /\ match r1 with Good a => f a s1 = (s', r) | Bad e => s' = s1 /\ r = Bad e end.
Proof.
  unfold mbind, pr_bind. destruct (m s) as [s1 [a|e]]; intros E; eexists _, _; (split; [done|]); [done|].
  by injection E as <- <-.
Qed.

Lemma pr_bind_good {S A B} (m : PR S A) (f : A -> PR S B) s s1 a : m s = (s1, Good a) -> (m ≫= f) s = f a s1.
Proof. unfold mbind, pr_bind. by intros ->. Qed.

Lemma pr_bind_bad {S A B} (m : PR S A) (f : A -> PR S B) s s1 e : m s = (s1, Bad e) -> (m ≫= f) s = (s1, Bad e).
Proof. unfold mbind, pr_bind. by intros ->. Qed.

(** ** Bounds *)

Definition MAX_PACKET_SIZE : Z := 4000014.
Definition MAX_GETDATA_ITEMS : Z := 1024.
Definition MAX_LOCATOR_HASHES : Z := 101.
Definition MAX_PROOF_BITMAP_BYTES : Z := 64 * 1024.
Definition MAX_USER_AGENT_BYTES : Z := 256.
Definition MIN_COMPACT_LEAF_BYTES : Z := 13.
Definition MAX_UTREEXO_LEAVES : Z := MAX_PACKET_SIZE / MIN_COMPACT_LEAF_BYTES.

(** ** Messages *)

Record GetHeadersMessage := { gh_version : Z; locator_hashes : list bytes; stop_hash : bytes }.
Record GetCFilters := { gcf_filter_type : Z; gcf_start_height : Z; gcf_stop_hash : bytes }.
Record CFilter := { cf_filter_type : Z; cf_block_hash : bytes; cf_filter : bytes }.

Record GetUtreexoProof := { gup_block_hash : bytes; request_mask : Z; proof_bitmap : bytes; leaf_bitmap : bytes }.
Record UtreexoProof := {
  up_block_hash : bytes; proof_hashes : list bytes; target_locations : list Z; leaf_data : list CompactLeafData }.

Definition TARGETS : Z := 1.
Definition PROOF_HASHES : Z := Z.shiftl 1 1.
Definition LEAF_DATA : Z := Z.shiftl 1 2.

Section Messages.
Context `{P2pTypes} `{HeaderCodec}.

Record VersionMessage := {
  version : Z; services : Z; timestamp : Z; receiver : Address; sender : Address; nonce : Z;
  user_agent : string; start_height : Z; relay : bool }.

Inductive NetworkMessage :=
| Version (v : VersionMessage)
| Verack
| Addr (f : Foreign)
| Inv (l : list Inventory)
| GetData (l : list Inventory)
| NotFound (l : list Inventory)
| GetBlocks (f : Foreign)
| GetHeaders (m : GetHeadersMessage)
| MemPool
| Tx (f : Foreign)
| Block (f : Foreign)
| Headers (l : list Header)
| SendHeaders
| GetAddr
| Ping (nonce : Z)
| Pong (nonce : Z)
| MerkleBlock (f : Foreign)
| FilterLoad (f : Foreign)
| FilterAdd (f : Foreign)
| FilterClear
| GetCFilters_ (m : GetCFilters)
| CFilter_ (m : CFilter)
| GetCFHeaders (f : Foreign)
| CFHeaders (f : Foreign)
| GetCFCheckpt (f : Foreign)
| CFCheckpt (f : Foreign)
| SendCmpct (f : Foreign)
| CmpctBlock (f : Foreign)
| GetBlockTxn (f : Foreign)
| BlockTxn (f : Foreign)
| Alert (f : Foreign)
| Reject (f : Foreign)
| FeeFilter (f : Foreign)
| WtxidRelay
| AddrV2 (f : Foreign)
| SendAddrV2
| Unknown (command : string) (payload : bytes).

Inductive V2Message :=
| Bitcoin (m : NetworkMessage)
| UtreexoProof_ (p : UtreexoProof)
| GetUtreexoProof_ (r : GetUtreexoProof)
| Ignored.
End Messages.

End Wire.

(** The [bitcoin] crate's consensus encoding of what the server decodes, of whole messages, and of
    command names.  A [Vec] is read up to an allocation limit. *)
Class P2pCodec `{P2pTypes} `{HeaderCodec} := {
  message_encode : Wire.NetworkMessage -> bytes;
  command_name : Wire.NetworkMessage -> string;
  command_encode : string -> bytes;
  command_decode : reader string;
  inventory_encode : Inventory -> bytes;
  inventory_decode : reader Inventory;
  version_encode : Wire.VersionMessage -> bytes;
  version_decode : reader Wire.VersionMessage;
  getcfilters_encode : Wire.GetCFilters -> bytes;
  getcfilters_decode : reader Wire.GetCFilters;
  hash_vec_decode : reader (list bytes);
  varint_vec_decode : reader (list Z)
}.

Module V2Codec.
Import Wire.

Section Codec.
Context `{BitcoinCodec} `{P2pCodec}.

(** ** [getuproof] *)

Definition encode_get_utreexo_proof (r : GetUtreexoProof) : bytes :=
  gup_block_hash r ++ le_bytes 1 (request_mask r) ++ box_encode (proof_bitmap r) ++ box_encode (leaf_bitmap r).

Definition oversized : string := "oversized vector allocation".

Definition decode_bitmap : reader bytes :=
  length ← varint_decode;
  reader_require (negb (MAX_PROOF_BITMAP_BYTES <? length)) oversized;;
  take_exact ended (Z.to_nat length).

Definition decode_get_utreexo_proof : reader GetUtreexoProof :=
  block_hash ← take_exact ended 32;
  request_mask ← take_le ended 1;
  proof_bitmap ← decode_bitmap;
  leaf_bitmap ← decode_bitmap;
  mret {| gup_block_hash := block_hash; request_mask := request_mask; proof_bitmap := proof_bitmap; leaf_bitmap := leaf_bitmap |}.

(** ** [uproof] *)

Definition encode_utreexo_proof (p : UtreexoProof) : bytes :=
  up_block_hash p ++ encode_items id (proof_hashes p) ++ encode_items varint_encode (target_locations p)
  ++ encode_items encode_leaf (leaf_data p).

Definition decode_utreexo_proof : reader UtreexoProof :=
  block_hash ← take_exact ended 32;
  proof_hashes ← hash_vec_decode;
  target_locations ← varint_vec_decode;
  leaf_count ← varint_decode;
  reader_require (negb (MAX_UTREEXO_LEAVES <? leaf_count)) oversized;;
  leaf_data ← reader_repeat (Z.to_nat leaf_count) decode_leaf;
  mret {| up_block_hash := block_hash; proof_hashes := proof_hashes; target_locations := target_locations; leaf_data := leaf_data |}.

(** ** Encoding *)

Definition long_id (m : NetworkMessage) : bytes := 0 :: command_encode (command_name m).

Definition encode_bitcoin (message : NetworkMessage) : bytes :=
  match message with
  | Unknown command payload => 0 :: command_encode command ++ payload
  | Addr _ => 1 :: message_encode message
  | Block _ => 2 :: message_encode message
  | BlockTxn _ => 3 :: message_encode message
  | CmpctBlock _ => 4 :: message_encode message
  | FeeFilter _ => 5 :: message_encode message
  | FilterAdd _ => 6 :: message_encode message
  | FilterClear => 7 :: message_encode message
  | FilterLoad _ => 8 :: message_encode message
  | GetBlocks _ => 9 :: message_encode message
  | GetBlockTxn _ => 10 :: message_encode message
  | GetData _ => 11 :: message_encode message
  | GetHeaders _ => 12 :: message_encode message
  | Headers _ => 13 :: message_encode message
  | Inv _ => 14 :: message_encode message
  | MemPool => 15 :: message_encode message
  | MerkleBlock _ => 16 :: message_encode message
  | NotFound _ => 17 :: message_encode message
  | Ping _ => 18 :: message_encode message
  | Pong _ => 19 :: message_encode message
  | SendCmpct _ => 20 :: message_encode message
  | Tx _ => 21 :: message_encode message
  | GetCFilters_ _ => 22 :: message_encode message
  | CFilter_ _ => 23 :: message_encode message
  | GetCFHeaders _ => 24 :: message_encode message
  | CFHeaders _ => 25 :: message_encode message
  | GetCFCheckpt _ => 26 :: message_encode message
  | CFCheckpt _ => 27 :: message_encode message
  | AddrV2 _ => 28 :: message_encode message
  | Version _ | Verack | SendHeaders | GetAddr | WtxidRelay | SendAddrV2 | Alert _ | Reject _ =>
      long_id message ++ message_encode message
  end.

Definition encode (message : V2Message) : presult bytes :=
  match message with
  | Bitcoin m => Good (encode_bitcoin m)
  | UtreexoProof_ p => Good (29 :: encode_utreexo_proof p)
  | GetUtreexoProof_ r => Good (30 :: encode_get_utreexo_proof r)
  | Ignored => Bad CannotEncodeIgnoredMessage
  end.

(** ** Decoding *)

Definition ensure_empty (payload : bytes) : presult unit :=
  match payload with [] => Good tt | _ => Bad (TrailingPayload (zlength payload)) end.

Definition decode_exact {A} (decode : reader A) (payload : bytes) : presult A :=
  '(value, rest) ← or_err Decode (decode payload);
  ensure_empty rest;;
  Good value.

Definition decode_get_data (payload : bytes) : presult (list Inventory) :=
  '(count, reader) ← or_err Decode (varint_decode payload);
  guard_ (negb (MAX_GETDATA_ITEMS <? count)) (TooManyInventoryItems count);;
  '(inventory, reader) ← or_err Decode (reader_repeat (Z.to_nat count) inventory_decode reader);
  ensure_empty reader;;
  Good inventory.

Definition decode_get_headers (payload : bytes) : presult GetHeadersMessage :=
  '(version, reader) ← or_err Decode (take_le ended 4 payload);
  '(count, reader) ← or_err Decode (varint_decode reader);
  guard_ (negb (MAX_LOCATOR_HASHES <? count)) (TooManyLocatorHashes count);;
  '(locator_hashes, reader) ← or_err Decode (reader_repeat (Z.to_nat count) (take_exact ended 32) reader);
  '(stop_hash, reader) ← or_err Decode (take_exact ended 32 reader);
  ensure_empty reader;;
  Good {| gh_version := version; locator_hashes := locator_hashes; stop_hash := stop_hash |}.

Definition empty_message (m : NetworkMessage) (payload : bytes) : presult V2Message :=
  ensure_empty payload;; Good (Bitcoin m).

Definition decode_version (payload : bytes) : presult V2Message :=
  version ← decode_exact version_decode payload;
  let length := Z.of_nat (String.length (user_agent version)) in
  guard_ (negb (MAX_USER_AGENT_BYTES <? length)) (UserAgentTooLong length);;
  Good (Bitcoin (Version version)).

(** The allow-list of long commands. *)
Definition read_command (command : string) (payload : bytes) : presult V2Message :=
  if bool_decide (command = "version"%string) then decode_version payload
  else if bool_decide (command = "verack"%string) then empty_message Verack payload
  else if bool_decide (command = "sendheaders"%string) then empty_message SendHeaders payload
  else if bool_decide (command = "getaddr"%string) then empty_message GetAddr payload
  else if bool_decide (command = "wtxidrelay"%string) then empty_message WtxidRelay payload
  else if bool_decide (command = "sendaddrv2"%string) then empty_message SendAddrV2 payload
  else if bool_decide (command = "getuproof"%string) then r ← decode_exact decode_get_utreexo_proof payload; Good (GetUtreexoProof_ r)
  else if bool_decide (command = "getdata"%string) then l ← decode_get_data payload; Good (Bitcoin (GetData l))
  else if bool_decide (command = "getheaders"%string) then m ← decode_get_headers payload; Good (Bitcoin (GetHeaders m))
  else if bool_decide (command = "ping"%string) then n ← decode_exact (take_le ended 8) payload; Good (Bitcoin (Ping n))
  else if bool_decide (command = "getcfilters"%string) then m ← decode_exact getcfilters_decode payload; Good (Bitcoin (GetCFilters_ m))
  else Good Ignored.

Definition decode_long_command (buffer : bytes) : presult V2Message :=
  if bool_decide (length buffer < 12)%nat then Bad MissingCommand
  else
    '(command, _) ← or_err Decode (command_decode (take 12 buffer));
    read_command command (drop 12 buffer).

Definition decode (buffer : bytes) : presult V2Message :=
  match buffer with
  | [] => Bad MissingShortId
  | short_id :: payload =>
      if short_id =? 0 then decode_long_command payload
      else if short_id =? 11 then l ← decode_get_data payload; Good (Bitcoin (GetData l))
      else if short_id =? 12 then m ← decode_get_headers payload; Good (Bitcoin (GetHeaders m))
      else if short_id =? 18 then n ← decode_exact (take_le ended 8) payload; Good (Bitcoin (Ping n))
      else if short_id =? 22 then m ← decode_exact getcfilters_decode payload; Good (Bitcoin (GetCFilters_ m))
      else if short_id =? 30 then r ← decode_exact decode_get_utreexo_proof payload; Good (GetUtreexoProof_ r)
      else Good Ignored
  end.

End Codec.

(** The names of the messages that have no short number, and those that the server reads in long form. *)
Definition long_name `{P2pTypes} `{HeaderCodec} (m : NetworkMessage) : option string :=
  match m with
  | Version _ => Some "version"%string
  | Verack => Some "verack"%string
  | SendHeaders => Some "sendheaders"%string
  | GetAddr => Some "getaddr"%string
  | WtxidRelay => Some "wtxidrelay"%string
  | SendAddrV2 => Some "sendaddrv2"%string
  | Alert _ => Some "alert"%string
  | Reject _ => Some "reject"%string
  | _ => None
  end.
Definition read_names : list string :=
  ["version"; "verack"; "sendheaders"; "getaddr"; "wtxidrelay"; "sendaddrv2"; "getuproof"; "getdata"; "getheaders"; "ping"; "getcfilters"]%string.
(** A command is a name of at most twelve characters, none of them NUL. *)
Definition command_ok (name : string) : Prop :=
  (String.length name <= 12)%nat /\ Forall (fun b => 0 < b < 128) (str_bytes name).
#[export] Instance command_ok_dec name : Decision (command_ok name).
Proof. unfold command_ok. apply _. Defined.

End V2Codec.

(** A decoder that reads back what the encoder writes.  It may read other bytes too: the crate takes any relay byte but
    zero for [true], and reads the inventory type 0 without a hash. *)
Record reads_back {A} (wf : A -> Prop) (enc : A -> bytes) (dec : reader A) : Prop := {
  back_dec : forall a rest, wf a -> dec (enc a ++ rest) = Ok (a, rest);
  back_bytes : forall a, wf a -> bytes_ok (enc a)
}.

(** What the protocol documents of these encodings.  [inventory_ok] and [version_ok] are the values that the crate's
    encoder writes in a form that its decoder reads. *)
Class P2pLaws `{BitcoinCodec} `{P2pCodec} := {
  inventory_ok : Inventory -> Prop;
  inventory_back : reads_back inventory_ok inventory_encode inventory_decode;
  version_ok : Wire.VersionMessage -> Prop;
  version_back : reads_back version_ok version_encode version_decode;
  getcfilters_ok : Wire.GetCFilters -> Prop;
  getcfilters_codec : codec_ok getcfilters_ok getcfilters_encode getcfilters_decode;
  vec_limit : Z;
  hash_vec_codec : codec_ok (fun l => Forall hash_ok l /\ zlength (encode_items id l) <= vec_limit) (encode_items id) hash_vec_decode;
  varint_vec_codec : codec_ok (fun l => Forall is_u64 l /\ zlength (encode_items varint_encode l) <= vec_limit)
    (encode_items varint_encode) varint_vec_decode;
  encode_version : forall v, message_encode (Wire.Version v) = version_encode v;
  encode_empty : forall m, m ∈ [Wire.Verack; Wire.SendHeaders; Wire.GetAddr; Wire.WtxidRelay; Wire.SendAddrV2] ->
    message_encode m = [];
  encode_getdata : forall l, message_encode (Wire.GetData l) = encode_items inventory_encode l;
  encode_getheaders : forall m, message_encode (Wire.GetHeaders m) =
    le_bytes 4 (Wire.gh_version m) ++ encode_items id (Wire.locator_hashes m) ++ Wire.stop_hash m;
  encode_ping : forall n, message_encode (Wire.Ping n) = le_bytes 8 n;
  encode_getcfilters : forall m, message_encode (Wire.GetCFilters_ m) = getcfilters_encode m;
  command_names : forall m name, V2Codec.long_name m = Some name -> command_name m = name;
  command_roundtrip : forall name, V2Codec.command_ok name -> command_decode (command_encode name) = Ok (name, []);
  command_length : forall name, V2Codec.command_ok name -> length (command_encode name) = 12%nat
}.

Module V2CodecSpec.
Import Wire V2Codec.

Section Spec.
Context `{P2pLaws}.

Lemma decode_exact_codec {A} (wf : A -> Prop) enc dec payload a : codec_ok wf enc dec -> bytes_ok payload ->
  decode_exact dec payload = Good a <-> payload = enc a /\ wf a.
Proof.
  intros Hc Hb. unfold decode_exact. split.
  - intros ([v rest] & E%or_err_good & E2)%presult_bind_good. apply (enc_dec Hc) in E as [-> Hwf]; [|done].
    destruct rest; [|done]. injection E2 as <-. by rewrite app_nil_r.
  - intros [-> Hwf]. pose proof (dec_enc Hc a [] Hwf) as E. rewrite app_nil_r in E. by rewrite E.
Qed.

Lemma id_hash_codec : codec_ok hash_ok id (take_exact ended 32).
Proof. apply take_exact_codec. Qed.

(** The limits that [decode] enforces, on top of the fields' types. *)
Definition get_proof_ok (r : GetUtreexoProof) : Prop :=
  hash_ok (gup_block_hash r) /\ is_u8 (request_mask r)
  /\ (bytes_ok (proof_bitmap r) /\ zlength (proof_bitmap r) <= MAX_PROOF_BITMAP_BYTES)
  /\ (bytes_ok (leaf_bitmap r) /\ zlength (leaf_bitmap r) <= MAX_PROOF_BITMAP_BYTES).
Definition get_headers_ok (m : GetHeadersMessage) : Prop :=
  is_u32 (gh_version m) /\ (Forall hash_ok (locator_hashes m) /\ zlength (locator_hashes m) <= MAX_LOCATOR_HASHES)
  /\ hash_ok (stop_hash m).

Definition message_ok (m : V2Message) : Prop :=
  match m with
  | Bitcoin (Version v) => version_ok v /\ Z.of_nat (String.length (user_agent v)) <= MAX_USER_AGENT_BYTES
  | Bitcoin (GetData l) => Forall inventory_ok l /\ zlength l <= MAX_GETDATA_ITEMS
  | Bitcoin (GetHeaders g) => get_headers_ok g
  | Bitcoin (Ping n) => is_u64 n
  | Bitcoin (GetCFilters_ g) => getcfilters_ok g
  | Bitcoin (Unknown name payload) => command_ok name /\ name ∉ read_names
  | GetUtreexoProof_ r => get_proof_ok r
  | Ignored => False
  | _ => True
  end.

(** What a decoder answers when it is run over the bytes again and again, and the bytes that it leaves. *)
Inductive reads_all {A} (dec : reader A) : bytes -> list A -> bytes -> Prop :=
  | reads_nil bs : reads_all dec bs [] bs
  | reads_cons bs a bs' l rest : dec bs = Ok (a, bs') -> reads_all dec bs' l rest -> reads_all dec bs (a :: l) rest.

(** The payloads of a message: within the limits, read to the last byte, and in its only encoding, except where the
    crate's own decoder of versions and inventories has the last word. *)
Definition payload_reads (m : V2Message) (payload : bytes) : Prop :=
  match m with
  | Bitcoin (Version v) => version_decode payload = Ok (v, []) /\ Z.of_nat (String.length (user_agent v)) <= MAX_USER_AGENT_BYTES
  | Bitcoin (Verack | SendHeaders | GetAddr | WtxidRelay | SendAddrV2) => payload = []
  | Bitcoin (GetData l) => exists items, payload = varint_encode (zlength l) ++ items /\ zlength l <= MAX_GETDATA_ITEMS
      /\ reads_all inventory_decode items l []
  | Bitcoin (GetHeaders g) => payload = le_bytes 4 (gh_version g) ++ encode_items id (locator_hashes g) ++ stop_hash g /\ get_headers_ok g
  | Bitcoin (Ping n) => payload = le_bytes 8 n /\ is_u64 n
  | Bitcoin (GetCFilters_ g) => payload = getcfilters_encode g /\ getcfilters_ok g
  | GetUtreexoProof_ r => payload = encode_get_utreexo_proof r /\ get_proof_ok r
  | _ => False
  end.

(** The allow-list. *)
Definition is_read (m : V2Message) : bool :=
  match m with
  | Bitcoin (Version _ | Verack | SendHeaders | GetAddr | WtxidRelay | SendAddrV2 | GetData _ | GetHeaders _ | Ping _ | GetCFilters_ _) => true
  | GetUtreexoProof_ _ => true
  | _ => false
  end.

Lemma bitmap_codec : codec_ok (fun b => bytes_ok b /\ zlength b <= MAX_PROOF_BITMAP_BYTES) box_encode decode_bitmap.
Proof.
  split.
  - intros b rest [Hb Hl]. unfold decode_bitmap, box_encode. rewrite <- app_assoc. pose proof (zlength_nonneg b).
    assert (is_u64 (zlength b)) by (unfold is_uint, MAX_PROOF_BITMAP_BYTES in *; lia).
    erewrite reader_bind_step by (by apply (dec_enc varint_codec)).
    erewrite reader_bind_step by (apply reader_require_true; apply negb_true_iff, Z.ltb_ge; lia).
    apply take_exact_app. unfold zlength. lia.
  - intros bs b rest Hbs E. unfold decode_bitmap in E. inv_reader. unread_step varint_codec.
    match goal with H : negb _ = true |- _ => apply negb_true_iff, Z.ltb_ge in H end.
    match goal with H : length b = _, H' : is_uint _ ?t |- _ => assert (t = zlength b) as -> by (unfold zlength; rewrite H; destruct H'; lia) end.
    unfold box_encode. by rewrite <- app_assoc.
  - intros b [Hb Hl]. apply bytes_ok_app. split; [|done]. apply (enc_bytes varint_codec).
    pose proof (zlength_nonneg b). unfold is_uint, MAX_PROOF_BITMAP_BYTES in *. lia.
Qed.

Lemma get_utreexo_proof_codec : codec_ok get_proof_ok encode_get_utreexo_proof decode_get_utreexo_proof.
Proof.
  split.
  - intros [bh mask pb lb] rest (Hh & Hm & Hp & Hl). unfold decode_get_utreexo_proof, encode_get_utreexo_proof. cbn [gup_block_hash request_mask proof_bitmap leaf_bitmap] in *.
    rewrite <- !app_assoc. erewrite reader_bind_step by (by apply (dec_enc id_hash_codec bh)).
    erewrite reader_bind_step by (by apply (dec_enc (take_le_codec ended 1))).
    erewrite reader_bind_step by (by apply (dec_enc bitmap_codec)).
    by erewrite reader_bind_step by (by apply (dec_enc bitmap_codec)).
  - intros bs r rest Hbs E. unfold decode_get_utreexo_proof in E. inv_reader.
    unread_step (take_le_codec ended 1). unread_step bitmap_codec. unread_step bitmap_codec.
    unfold encode_get_utreexo_proof. cbn [gup_block_hash request_mask proof_bitmap leaf_bitmap]. rewrite <- !app_assoc.
    split; [done|]. split; [by split|]. split; [done|]. by split.
  - intros r (Hh & Hm & Hp & Hl). unfold encode_get_utreexo_proof. rewrite !bytes_ok_app.
    split_and!; [apply Hh|auto|by apply (enc_bytes bitmap_codec)|by apply (enc_bytes bitmap_codec)].
Qed.

Lemma utreexo_proof_codec : codec_ok
  (fun p => hash_ok (up_block_hash p)
    /\ (Forall hash_ok (proof_hashes p) /\ zlength (encode_items id (proof_hashes p)) <= vec_limit)
    /\ (Forall is_u64 (target_locations p) /\ zlength (encode_items varint_encode (target_locations p)) <= vec_limit)
    /\ Forall leaf_ok (leaf_data p) /\ zlength (leaf_data p) <= MAX_UTREEXO_LEAVES)
  encode_utreexo_proof decode_utreexo_proof.
Proof.
  split.
  - intros [bh hs ts ls] rest (Hh & Hhs & Hts & Hls & Hlen). unfold decode_utreexo_proof, encode_utreexo_proof.
    cbn [up_block_hash proof_hashes target_locations leaf_data] in *. rewrite <- !app_assoc.
    erewrite reader_bind_step by (by apply (dec_enc id_hash_codec bh)).
    erewrite reader_bind_step by (by apply (dec_enc hash_vec_codec)).
    erewrite reader_bind_step by (by apply (dec_enc varint_vec_codec)). unfold encode_items at 1. rewrite <- app_assoc.
    pose proof (zlength_nonneg ls). assert (is_u64 (zlength ls)) as Hu.
    { change MAX_UTREEXO_LEAVES with 307693 in Hlen. unfold is_uint. lia. }
    erewrite reader_bind_step by (by apply (dec_enc varint_codec)).
    erewrite reader_bind_step by (apply reader_require_true; apply negb_true_iff, Z.ltb_ge; lia).
    replace (Z.to_nat (zlength ls)) with (length ls) by (unfold zlength; lia).
    by erewrite reader_bind_step by (apply (reader_repeat_enc _ _ _ leaf_codec); done).
  - intros bs p rest Hbs E. unfold decode_utreexo_proof in E. inv_reader.
    unread_step hash_vec_codec. unread_step varint_vec_codec. unread_step varint_codec.
    match goal with H : reader_repeat _ _ _ = Ok _ |- _ => apply (reader_repeat_dec _ _ _ leaf_codec) in H as (-> & Hls & Hlen); [|done] end.
    inv_reader. match goal with H : negb _ = true |- _ => apply negb_true_iff, Z.ltb_ge in H end.
    match goal with H : length ?b = Z.to_nat ?t, H' : is_uint _ ?t |- _ => assert (t = zlength b) as -> by (unfold zlength; rewrite H; destruct H'; lia) end.
    unfold encode_utreexo_proof, encode_items. cbn [up_block_hash proof_hashes target_locations leaf_data].
    rewrite <- !app_assoc. split; [done|]. split; [by split|]. split; [done|]. split; [done|]. by split.
  - intros p (Hh & Hhs & Hts & Hls & Hlen). unfold encode_utreexo_proof. rewrite !bytes_ok_app.
    split_and!; [apply Hh|by apply (enc_bytes hash_vec_codec)|by apply (enc_bytes varint_vec_codec)|].
    unfold encode_items. apply bytes_ok_app. split; [|by apply (bytes_ok_enc_list _ _ _ leaf_codec)].
    apply (enc_bytes varint_codec). pose proof (zlength_nonneg (leaf_data p)). change MAX_UTREEXO_LEAVES with 307693 in Hlen.
    unfold is_uint. lia.
Qed.

Ltac inv_good :=
  repeat match goal with
  | H : (_ ≫= _) = Good _ |- _ => apply presult_bind_good in H as (? & ? & ?)
  | H : or_err _ _ = Good _ |- _ => apply or_err_good in H
  | H : guard_ _ _ = Good _ |- _ => apply guard_good in H
  | H : (let '(_, _) := ?p in _) = Good _ |- _ => destruct p
  | H : ensure_empty ?l = Good _ |- _ => destruct l; [clear H|discriminate H]
  | H : Good _ = Good _ |- _ => injection H as H
  | H : Bad _ = Good _ |- _ => discriminate H
  | H : negb _ = true |- _ => apply negb_true_iff, Z.ltb_ge in H
  end.

Lemma count_of {A} (l : list A) n : is_u64 n -> length l = Z.to_nat n -> zlength l = n.
Proof. unfold zlength. intros [Hn _] ->. lia. Qed.

Lemma counted_decode {A B} (wf : A -> Prop) enc dec l rest (k : Z) (e : Z -> PeerError) (f : list A * bytes -> presult B) : codec_ok wf enc dec ->
  Forall wf l -> zlength l <= k < 2 ^ 64 ->
  ('(count, reader) ← or_err Decode (varint_decode (encode_items enc l ++ rest));
   guard_ (negb (k <? count)) (e count);;
   p ← or_err Decode (reader_repeat (Z.to_nat count) dec reader); f p) = f (l, rest).
Proof.
  intros Hc Hl Hk. pose proof (zlength_nonneg l). unfold encode_items. rewrite <- app_assoc.
  rewrite (dec_enc varint_codec) by (unfold is_uint; lia). cbn.
  rewrite (proj2 (Z.ltb_ge k (zlength l))) by lia. cbn.
  replace (Z.to_nat (zlength l)) with (length l) by (unfold zlength; lia).
  by rewrite (reader_repeat_enc _ _ _ Hc).
Qed.

Lemma reader_repeat_reads {A} (dec : reader A) n bs l rest :
  reader_repeat n dec bs = Ok (l, rest) <-> length l = n /\ reads_all dec bs l rest.
Proof.
  revert bs l. induction n as [|n IH]; intros bs l; cbn [reader_repeat].
  - split; [intros [= <- <-]; split; [done|constructor]|]. intros [Hl Hr]. destruct l; [|done]. by inversion Hr.
  - split.
    + intros E. inv_reader. match goal with H : reader_repeat _ _ _ = Ok _ |- _ => apply IH in H as [<- Hr] end.
      split; [done|]. by econstructor.
    + intros [Hl Hr]. destruct Hr as [|bs a bs' l rest Ea Hr]; [done|]. injection Hl as Hl.
      erewrite reader_bind_step by exact Ea. by erewrite reader_bind_step by (by apply IH).
Qed.

Lemma reads_all_enc {A} (wf : A -> Prop) enc dec l : reads_back wf enc dec -> Forall wf l -> reads_all dec (enc_list enc l) l [].
Proof.
  intros Hback. induction 1 as [|a l Ha Hl IH]; [constructor|]. rewrite enc_list_cons. econstructor; [by apply (back_dec _ _ _ Hback)|done].
Qed.

Lemma back_bytes_list {A} (wf : A -> Prop) enc dec l : reads_back wf enc dec -> Forall wf l -> bytes_ok (enc_list enc l).
Proof.
  intros Hback. induction 1 as [|a l Ha Hl IH]; [constructor|]. rewrite enc_list_cons. apply bytes_ok_app. split; [by apply (back_bytes _ _ _ Hback)|done].
Qed.

Lemma decode_get_data_good payload l : bytes_ok payload ->
  decode_get_data payload = Good l <-> payload_reads (Bitcoin (GetData l)) payload.
Proof.
  intros Hb. unfold decode_get_data. cbn [payload_reads]. split.
  - intros E. inv_good.
    match goal with H : varint_decode _ = Ok _ |- _ => apply (enc_dec varint_codec) in H as [-> Hu]; [|done] end.
    match goal with H : reader_repeat _ _ _ = Ok _ |- _ => apply reader_repeat_reads in H as [Hlen Hr] end.
    inv_good. subst. apply count_of in Hlen; [|done]. subst. by eexists.
  - intros (items & -> & Hlen & Hr). pose proof (zlength_nonneg l).
    rewrite (dec_enc varint_codec) by (unfold is_uint, MAX_GETDATA_ITEMS in *; lia). cbn [or_err mbind presult_bind].
    rewrite (proj2 (Z.ltb_ge MAX_GETDATA_ITEMS (zlength l))) by lia. cbn [negb guard_ mbind presult_bind].
    by rewrite (proj2 (reader_repeat_reads _ (Z.to_nat (zlength l)) _ l [])) by (split; [unfold zlength; lia|done]).
Qed.

Lemma decode_get_headers_good payload m : bytes_ok payload ->
  decode_get_headers payload = Good m <-> payload_reads (Bitcoin (GetHeaders m)) payload.
Proof.
  intros Hb. unfold decode_get_headers. cbn [payload_reads]. split.
  - intros E. inv_good.
    match goal with H : take_le _ _ _ = Ok _ |- _ => apply (enc_dec (take_le_codec ended 4)) in H as [-> Hv]; [|done] end.
    apply bytes_ok_app in Hb as [_ Hb]. inv_good.
    match goal with H : varint_decode _ = Ok _ |- _ => apply (enc_dec varint_codec) in H as [-> Hu]; [|done] end.
    apply bytes_ok_app in Hb as [_ Hb]. inv_good.
    match goal with H : reader_repeat _ _ _ = Ok _ |- _ => apply (reader_repeat_dec _ _ _ id_hash_codec) in H as (-> & Hl & Hlen); [|done] end.
    apply bytes_ok_app in Hb as [_ Hb]. inv_good.
    match goal with H : take_exact _ _ _ = Ok _ |- _ => apply (enc_dec id_hash_codec) in H as [-> Hs]; [|done] end.
    inv_good. subst. apply count_of in Hlen; [|done]. subst. cbn [gh_version locator_hashes stop_hash]. rewrite app_nil_r.
    unfold encode_items. rewrite <- !app_assoc. split; [done|]. split; [done|]. by split.
  - intros (-> & Hv & [Hl Hlen] & Hs). destruct m as [v l s]. cbn [gh_version locator_hashes stop_hash] in *.
    rewrite (dec_enc (take_le_codec ended 4)) by done. cbn [or_err mbind presult_bind].
    rewrite (counted_decode _ _ _ _ _ _ _ _ id_hash_codec) by done.
    pose proof (dec_enc id_hash_codec s [] Hs) as E. unfold id in E. rewrite app_nil_r in E. rewrite E. done.
Qed.

Lemma decode_version_good payload m :
  decode_version payload = Good m <-> exists v, m = Bitcoin (Version v) /\ payload_reads m payload.
Proof.
  unfold decode_version, decode_exact. split.
  - intros E. inv_good. subst. by eexists.
  - intros (v & -> & E & Hu). rewrite E. cbn. by rewrite (proj2 (Z.ltb_ge _ _)) by done.
Qed.

Lemma ensure_empty_good payload u : ensure_empty payload = Good u <-> payload = [].
Proof. destruct payload, u; cbn; naive_solver. Qed.

(** The bytes after the message's number or name. *)
Definition payload_of (m : V2Message) : bytes :=
  match m with
  | Bitcoin m => message_encode m
  | UtreexoProof_ p => encode_utreexo_proof p
  | GetUtreexoProof_ r => encode_get_utreexo_proof r
  | Ignored => []
  end.

(** The names under which a message is read. *)
Definition read_name (m : V2Message) : option string :=
  match m with
  | GetUtreexoProof_ _ => Some "getuproof"%string
  | Bitcoin (GetData _) => Some "getdata"%string
  | Bitcoin (GetHeaders _) => Some "getheaders"%string
  | Bitcoin (Ping _) => Some "ping"%string
  | Bitcoin (GetCFilters_ _) => Some "getcfilters"%string
  | Bitcoin m => match m with Alert _ | Reject _ => None | _ => long_name m end
  | _ => None
  end.
Definition read_id (m : V2Message) : option Z :=
  match m with
  | GetUtreexoProof_ _ => Some 30
  | Bitcoin (GetData _) => Some 11
  | Bitcoin (GetHeaders _) => Some 12
  | Bitcoin (Ping _) => Some 18
  | Bitcoin (GetCFilters_ _) => Some 22
  | _ => None
  end.

Lemma empty_good m payload m' : empty_message m payload = Good m' <-> payload = [] /\ m' = Bitcoin m.
Proof. unfold empty_message. destruct payload; cbn; naive_solver. Qed.

(** The reader of a message that is written under [name] or [id]. *)
Ltac read_payload Hb :=
  match goal with
  | E : decode_version _ = Good _ |- _ => apply decode_version_good in E as (v & -> & E)
  | E : empty_message _ _ = Good _ |- _ => apply empty_good in E as [-> ->]
  | E : decode_get_data _ = Good _ |- _ => apply (decode_get_data_good _ _ Hb) in E
  | E : decode_get_headers _ = Good _ |- _ => apply (decode_get_headers_good _ _ Hb) in E
  | E : decode_exact decode_get_utreexo_proof _ = Good _ |- _ => apply (decode_exact_codec _ _ _ _ _ get_utreexo_proof_codec Hb) in E
  | E : decode_exact (take_le _ _) _ = Good _ |- _ => apply (decode_exact_codec _ _ _ _ _ (take_le_codec ended 8) Hb) in E
  | E : decode_exact getcfilters_decode _ = Good _ |- _ => apply (decode_exact_codec _ _ _ _ _ getcfilters_codec Hb) in E
  end.
Ltac show_payload Hb Hp :=
  first
    [ by rewrite (proj2 (decode_get_data_good _ _ Hb) Hp)
    | by rewrite (proj2 (decode_get_headers_good _ _ Hb) Hp)
    | by rewrite (proj2 (decode_exact_codec _ _ _ _ _ get_utreexo_proof_codec Hb) Hp)
    | by rewrite (proj2 (decode_exact_codec _ _ _ _ _ (take_le_codec ended 8) Hb) Hp)
    | by rewrite (proj2 (decode_exact_codec _ _ _ _ _ getcfilters_codec Hb) Hp) ].

Lemma read_command_good name payload m : bytes_ok payload ->
  read_command name payload = Good m <->
    m = Ignored /\ name ∉ read_names \/ read_name m = Some name /\ payload_reads m payload.
Proof.
  intros Hb. split.
  - unfold read_command. intros E.
    repeat (match type of E with (if bool_decide ?P then _ else _) = _ => case_bool_decide end; [right; subst name|]).
    all: inv_good; subst; try (read_payload Hb; done).
    left. split; [done|]. unfold read_names. in_list.
  - intros [[-> Hn]|[En Hp]].
    + unfold read_command, read_names in *. rewrite !not_elem_of_cons in Hn. destruct_and! Hn.
      by rewrite !bool_decide_eq_false_2 by done.
    + unfold read_command. destruct m as [m| | |]; [destruct m|..]; try done; cbn in En; injection En as <-;
        repeat first [rewrite bool_decide_eq_true_2 by done | rewrite bool_decide_eq_false_2 by done];
        first [apply decode_version_good; by eexists | by apply empty_good | show_payload Hb Hp].
Qed.

(** Short numbers and long names lead to the same readers. *)
Lemma decode_good bs m : bytes_ok bs ->
  decode bs = Good m <-> exists id payload, bs = id :: payload /\
    if id =? 0 then (12 <= length payload)%nat
        /\ exists name rest, command_decode (take 12 payload) = Ok (name, rest) /\ read_command name (drop 12 payload) = Good m
    else match read_id m with
         | Some n => n = id /\ payload_reads m payload
         | None => m = Ignored /\ id ∉ [11; 12; 18; 22; 30]
         end.
Proof.
  intros Hb. destruct bs as [|id payload]; [split; [done|by intros (? & ? & ? & _)]|].
  apply bytes_ok_cons in Hb as [Hid Hb]. trans (exists payload0, payload0 = payload /\ decode (id :: payload0) = Good m).
  { split; [by eexists|by intros (? & -> & ?)]. }
  split.
  - intros (? & -> & E). exists id, payload. split; [done|]. revert E. cbn [decode].
    destruct (Z.eqb_spec id 0) as [->|Hne].
    + unfold decode_long_command. case_bool_decide; [done|]. intros E. inv_good. split; [lia|]. by eexists _, _.
    + repeat (match goal with |- context [id =? ?n] => destruct (Z.eqb_spec id n) as [->|] end); intros E; inv_good; subst; cbn [read_id].
      all: try (read_payload Hb; done).
      split; [done|]. in_list.
  - intros (id' & payload' & [= <- <-] & E). exists payload. split; [done|]. cbn [decode].
    destruct (Z.eqb_spec id 0) as [->|Hne].
    + destruct E as (Hlen & name & rest & Ec & Er). unfold decode_long_command. rewrite bool_decide_eq_false_2 by lia. by rewrite Ec.
    + destruct (read_id m) as [n|] eqn:En.
      * destruct E as (-> & Hp).
        destruct m as [m|p|r|]; [destruct m|..]; try done; cbn in En; injection En as <-; cbn [Z.eqb Pos.eqb]; show_payload Hb Hp.
      * destruct E as [-> Hn]. rewrite !not_elem_of_cons in Hn. destruct_and! Hn. by rewrite !(proj2 (Z.eqb_neq _ _)) by done.
Qed.

Lemma read_named m name : read_name m = Some name -> is_read m = true.
Proof. destruct m as [m| | |]; [destruct m|..]; try done. Qed.

Lemma read_numbered m n : read_id m = Some n -> is_read m = true /\ n <> 0.
Proof. destruct m as [m| | |]; [destruct m|..]; try done; intros [= <-]; done. Qed.

(** What the encoder writes is one of a message's payloads. *)
Lemma encoded_payload m : is_read m = true -> message_ok m -> payload_reads m (payload_of m).
Proof.
  destruct m as [m| |r|]; [destruct m|..]; intros Hr Hok; try discriminate Hr; cbn [payload_of payload_reads] in *;
    try (apply encode_empty; in_list).
  - destruct Hok as [Hv Hu]. split; [|done]. rewrite encode_version, <- (app_nil_r (version_encode v)). by apply (back_dec _ _ _ version_back).
  - destruct Hok as [Hl Hlen]. exists (enc_list inventory_encode l). rewrite encode_getdata. split; [done|]. split; [done|].
    by apply (reads_all_enc _ _ _ _ inventory_back).
  - by rewrite encode_getheaders.
  - by rewrite encode_ping.
  - by rewrite encode_getcfilters.
  - done.
Qed.

Lemma payload_bytes m : is_read m = true -> message_ok m -> bytes_ok (payload_of m).
Proof.
  assert (Hempty : forall m0, m0 ∈ [Verack; SendHeaders; GetAddr; WtxidRelay; SendAddrV2] -> bytes_ok (message_encode m0))
    by (intros m0 Hm0; by rewrite (encode_empty _ Hm0)).
  destruct m as [m| |r|]; [destruct m|..]; intros Hr Hok; try discriminate Hr; cbn [payload_of] in *; try (apply Hempty; in_list).
  - rewrite encode_version. apply (back_bytes _ _ _ version_back), Hok.
  - destruct Hok as [Hl Hlen]. pose proof (zlength_nonneg l). rewrite encode_getdata. apply bytes_ok_app. split.
    + apply (enc_bytes varint_codec). unfold is_uint, MAX_GETDATA_ITEMS in *. lia.
    + by apply (back_bytes_list _ _ _ _ inventory_back).
  - destruct Hok as (Hv & [Hl Hlen] & Hs). pose proof (zlength_nonneg (locator_hashes m)).
    rewrite encode_getheaders. unfold encode_items. rewrite !bytes_ok_app. split_and!; [auto| | |apply Hs].
    + apply (enc_bytes varint_codec). unfold is_uint, MAX_LOCATOR_HASHES in *. lia.
    + by apply (bytes_ok_enc_list _ _ _ id_hash_codec).
  - rewrite encode_ping. auto.
  - rewrite encode_getcfilters. by apply (enc_bytes getcfilters_codec).
  - by apply (enc_bytes get_utreexo_proof_codec).
Qed.

Lemma decode_named name payload : command_ok name ->
  decode (0 :: command_encode name ++ payload) = read_command name payload.
Proof.
  intros Hn. pose proof (command_length name Hn) as Hlen. cbn [decode Z.eqb]. unfold decode_long_command.
  rewrite bool_decide_eq_false_2 by (rewrite length_app; lia).
  rewrite take_app_length', drop_app_length' by done. by rewrite command_roundtrip.
Qed.

Lemma decode_long_message m payload name : long_name m = Some name ->
  decode (0 :: command_encode (command_name m) ++ payload) = read_command name payload.
Proof.
  intros Hn. rewrite (command_names m name Hn). apply decode_named.
  destruct m; try discriminate Hn; injection Hn as <-; by_decide.
Qed.

Lemma decode_short m : is_read m = true -> message_ok m -> forall id, read_id m = Some id -> decode (id :: payload_of m) = Good m.
Proof.
  intros Hr Hok id Hid. pose proof (payload_bytes m Hr Hok) as Hb. apply decode_good.
  - apply bytes_ok_cons. split; [|done]. destruct m as [m| | |]; [destruct m|..]; try discriminate Hid; injection Hid as <-; by_decide.
  - exists id, (payload_of m). split; [done|]. rewrite Hid, (proj2 (Z.eqb_neq id 0)) by apply (read_numbered _ _ Hid).
    split; [done|]. by apply encoded_payload.
Qed.

End Spec.

(** C28: the encoder and the decoder speak one language: whatever message the server can encode, the decoder reads it
    back whole if it is on the allow-list of requests, under its short number or its long name, and skips it unread if
    it is not. *)
Theorem messages_round_trip `{P2pLaws} (m : V2Message) (Hok : message_ok m) :
  exists bs, encode m = Good bs /\ decode bs = Good (if is_read m then m else Ignored).
Proof.
  destruct m as [m|p|r|]; [|by eexists| |done].
  2: { eexists. split; [done|]. by apply (decode_short (GetUtreexoProof_ r)). }
  eexists. split; [done|]. destruct m; cbn [is_read]; try done.
  all: lazymatch goal with
    | |- decode (encode_bitcoin (Unknown _ _)) = _ =>
        destruct Hok as [Hc Hn]; cbn [encode_bitcoin]; rewrite decode_named by done; unfold read_command;
        unfold read_names in Hn; rewrite !not_elem_of_cons in Hn; destruct_and! Hn; by rewrite !bool_decide_eq_false_2 by done
    | |- decode (encode_bitcoin ?m) = Good (Bitcoin _) =>
        let n := eval cbv in (long_name m) in
        lazymatch n with
        | Some ?name => cbn [encode_bitcoin]; unfold long_id; rewrite <- app_comm_cons, (decode_long_message m _ name eq_refl);
            apply (read_command_good name _ _ (payload_bytes (Bitcoin m) eq_refl Hok)); right;
            exact (conj eq_refl (encoded_payload (Bitcoin m) eq_refl Hok))
        | None => exact (decode_short (Bitcoin m) eq_refl Hok _ eq_refl)
        end
    | |- decode (encode_bitcoin ?m) = Good Ignored =>
        cbn [encode_bitcoin]; unfold long_id; rewrite <- app_comm_cons, (decode_long_message m _ _ eq_refl); reflexivity
    end.
Qed.

(** C29: the decoder accepts exactly the requests of its allow-list.  It answers a message if and only if the bytes are
    the message's short number, or a zero and twelve bytes that the command decoder reads as its name, followed by a
    payload of the message: within the limits (1024 inventory items, 101 locator hashes, bitmaps of 64 KiB, user agents
    of 256 bytes) and without a byte left over.  The payload of a ping, of a header, filter or proof request and of the
    empty messages has one encoding; those of a version and of the items of a getdata are what the library's decoder
    reads.  Everything else is an error or is skipped. *)
Theorem decoder_accepts_only_requests `{P2pLaws} (bs : bytes) (m : V2Message) (Hb : bytes_ok bs) :
  decode bs = Good m /\ m <> Ignored <->
  exists head payload, bs = head ++ payload /\ payload_reads m payload /\
    ((exists id, read_id m = Some id /\ head = [id])
     \/ exists name field rest, read_name m = Some name /\ head = 0 :: field /\ length field = 12%nat /\ command_decode field = Ok (name, rest)).
Proof.
  rewrite (decode_good _ _ Hb). split.
  - intros [(id & payload & -> & E) Hread]. apply bytes_ok_cons in Hb as [_ Hb]. destruct (Z.eqb_spec id 0) as [->|Hne].
    + destruct E as (Hlen & name & rest & Ec & Er). apply read_command_good in Er as [[-> _]|[En Hp]]; [done| |auto].
      exists (0 :: take 12 payload), (drop 12 payload). rewrite <- app_comm_cons, take_drop. split; [done|]. split; [done|]. right.
      exists name, (take 12 payload), rest. split_and!; [done|done|rewrite length_take; lia|done].
    + destruct (read_id m) as [n|] eqn:En; [|by destruct E as [-> _]]. destruct E as [-> Hp]. exists [id], payload.
      split; [done|]. split; [done|]. left. by exists id.
  - intros (head & payload & -> & Hp & Hhead). apply bytes_ok_app in Hb as [_ Hb]. split; [|by destruct m].
    destruct Hhead as [(id & Hid & ->)|(name & field & rest & En & -> & Hlen & Ec)].
    + exists id, payload. split; [done|]. rewrite Hid, (proj2 (Z.eqb_neq id 0)) by apply (read_numbered _ _ Hid). done.
    + exists 0, (field ++ payload). split; [done|]. split; [rewrite length_app; lia|]. exists name, rest.
      rewrite take_app_length', drop_app_length' by done. split; [done|]. apply read_command_good; auto.
Qed.

(** An announced length is checked before anything of that length is read or allocated: when it is over the limit
    the message is refused whatever follows. *)
Theorem lengths_checked_first `{P2pLaws} (n v : Z) (hash mask rest : bytes) (hs : list bytes) (ts : list Z) (Hn : is_u64 n) (Hv : is_u32 v) (Hh : hash_ok hash)
  (Hmask : array_ok 1 mask) (Hhs : Forall hash_ok hs /\ zlength (encode_items id hs) <= vec_limit)
  (Hts : Forall is_u64 ts /\ zlength (encode_items varint_encode ts) <= vec_limit) :
  (MAX_GETDATA_ITEMS < n -> decode (11 :: varint_encode n ++ rest) = Bad (TooManyInventoryItems n))
  /\ (MAX_LOCATOR_HASHES < n -> decode (12 :: le_bytes 4 v ++ varint_encode n ++ rest) = Bad (TooManyLocatorHashes n))
  /\ (MAX_PROOF_BITMAP_BYTES < n -> decode (30 :: hash ++ mask ++ varint_encode n ++ rest) = Bad (Decode oversized))
  /\ (MAX_UTREEXO_LEAVES < n -> decode_utreexo_proof (hash ++ encode_items id hs ++ encode_items varint_encode ts ++ varint_encode n ++ rest) = Err oversized).
Proof.
  split_and!; intros Hlt; cbn [decode Z.eqb Pos.eqb].
  - unfold decode_get_data. rewrite (dec_enc varint_codec) by done. cbn. by rewrite (proj2 (Z.ltb_lt _ _)) by done.
  - unfold decode_get_headers. rewrite (dec_enc (take_le_codec ended 4)) by done. cbn [or_err mbind presult_bind].
    rewrite (dec_enc varint_codec) by done. cbn. by rewrite (proj2 (Z.ltb_lt _ _)) by done.
  - assert (decode_bitmap (varint_encode n ++ rest) = Err oversized) as Hbm.
    { unfold decode_bitmap. erewrite reader_bind_step by (by apply (dec_enc varint_codec)).
      unfold mbind, reader_bind, reader_require. by rewrite (proj2 (Z.ltb_lt _ _)) by done. }
    assert (decode_get_utreexo_proof (hash ++ mask ++ varint_encode n ++ rest) = Err oversized) as E; [|by unfold decode_exact; rewrite E].
    unfold decode_get_utreexo_proof. erewrite reader_bind_step by (by apply (dec_enc id_hash_codec hash)).
    destruct Hmask as [Hl Hmask]. erewrite reader_bind_step by (unfold take_le; erewrite reader_bind_step by (by apply take_exact_app); done).
    unfold mbind, reader_bind. by rewrite Hbm.
  - unfold decode_utreexo_proof. erewrite reader_bind_step by (by apply (dec_enc id_hash_codec hash)).
    erewrite reader_bind_step by (by apply (dec_enc hash_vec_codec)).
    erewrite reader_bind_step by (by apply (dec_enc varint_vec_codec)).
    erewrite reader_bind_step by (by apply (dec_enc varint_codec)).
    unfold mbind, reader_bind, reader_require. by rewrite (proj2 (Z.ltb_lt _ _)) by done.
Qed.

(** ** Concrete encodings, for evaluating the model *)

Section Vec.
Context `{BitcoinCodec} {A : Type} (wf : A -> Prop) (enc : A -> bytes) (dec : reader A) (Hc : codec_ok wf enc dec).

Definition vec_decode (limit : Z) : reader (list A) :=
  n ← varint_decode;
  l ← reader_repeat (Z.to_nat n) dec;
  reader_require (zlength (encode_items enc l) <=? limit) oversized;;
  mret l.

Lemma limited_vec_codec (limit : Z) : limit < 2 ^ 64 -> (forall a, wf a -> 1 <= zlength (enc a)) ->
  codec_ok (fun l => Forall wf l /\ zlength (encode_items enc l) <= limit) (encode_items enc) (vec_decode limit).
Proof.
  intros Hlim Hpos.
  assert (forall l, Forall wf l -> zlength l <= zlength (encode_items enc l)) as Hlen.
  { intros l Hl. unfold encode_items. rewrite zlength_app. assert (zlength l <= zlength (enc_list enc l)) as Hle; [|pose proof (zlength_nonneg (varint_encode (zlength l))); lia].
    induction Hl as [|a l Ha Hl IH]; [done|].
    rewrite enc_list_cons, zlength_cons, zlength_app. specialize (Hpos a Ha). lia. }
  assert (forall l, Forall wf l /\ zlength (encode_items enc l) <= limit -> is_u64 (zlength l)) as Hu.
  { intros l [Hl Hle]. pose proof (Hlen l Hl). pose proof (zlength_nonneg l). unfold is_uint. lia. }
  split.
  - intros l rest Hok. pose proof (Hu l Hok). destruct Hok as [Hl Hle]. unfold vec_decode.
    assert (encode_items enc l ++ rest = varint_encode (zlength l) ++ enc_list enc l ++ rest) as -> by (unfold encode_items; by rewrite <- app_assoc).
    erewrite reader_bind_step by (by apply (dec_enc varint_codec)).
    replace (Z.to_nat (zlength l)) with (length l) by (unfold zlength; lia).
    erewrite reader_bind_step by (by apply (reader_repeat_enc _ _ _ Hc)).
    by erewrite reader_bind_step by (apply reader_require_true; lia).
  - intros bs l rest Hbs E. unfold vec_decode in E. inv_reader. unread_step varint_codec.
    match goal with H : reader_repeat _ _ _ = Ok _ |- _ => apply (reader_repeat_dec _ _ _ Hc) in H as (-> & Hls & Hn); [|done] end.
    inv_reader. match goal with H : (_ <=? _) = true |- _ => apply Z.leb_le in H end.
    match goal with H' : is_uint _ ?t |- _ => apply count_of in Hn; [|exact H'] end. subst.
    split; [unfold encode_items; by rewrite <- app_assoc|done].
  - intros l Hok. pose proof (Hu l Hok). destruct Hok as [Hl _]. apply bytes_ok_app. split; [by apply (enc_bytes varint_codec)|].
    by apply (bytes_ok_enc_list _ _ _ Hc).
Qed.
End Vec.

Section Toy.
#[local] Existing Instance toy_bitcoin.

Definition toy_types : P2pTypes :=
  {| Inventory := Z * bytes; Address := unit; Foreign := bytes; witness_block := fun h => (Z.lor (Z.shiftl 1 30) 2, h) |}.
#[local] Existing Instance toy_types.
#[local] Existing Instance HeaderIndex.HeaderIndex.raw_headers.

Definition toy_inventory_encode (i : Z * bytes) : bytes := le_bytes 4 i.1 ++ i.2.
(** Like the crate's, it reads the type 0 without a hash. *)
Definition toy_inventory_decode : reader (Z * bytes) :=
  t ← take_le ended 4;
  if t =? 0 then mret (0, zeros 32) else h ← take_exact ended 32; mret (t, h).
Definition toy_version (n : Z) (r : bool) : VersionMessage :=
  {| version := 70016; services := 9; timestamp := 0; receiver := tt; sender := tt; nonce := n; user_agent := "/toy:0.1/";
     start_height := 7; relay := r |}.
Definition toy_version_encode (v : VersionMessage) : bytes := le_bytes 8 (nonce v) ++ [if relay v then 1 else 0].
(** Like the crate's, it takes any relay byte but zero for [true]. *)
Definition toy_version_decode : reader VersionMessage :=
  n ← take_le ended 8; r ← take_le ended 1; mret (toy_version n (negb (r =? 0))).
Definition toy_getcfilters_encode (m : GetCFilters) : bytes :=
  le_bytes 1 (gcf_filter_type m) ++ le_bytes 4 (gcf_start_height m) ++ gcf_stop_hash m.
Definition toy_getcfilters_decode : reader GetCFilters :=
  t ← take_le ended 1; h ← take_le ended 4; s ← take_exact ended 32;
  mret {| gcf_filter_type := t; gcf_start_height := h; gcf_stop_hash := s |}.
Definition toy_message_encode (m : NetworkMessage) : bytes :=
  match m with
  | Version v => toy_version_encode v
  | Inv l | GetData l | NotFound l => encode_items toy_inventory_encode l
  | GetHeaders m => le_bytes 4 (gh_version m) ++ encode_items id (locator_hashes m) ++ stop_hash m
  | Headers l => encode_items (fun h => header_encode h ++ [0]) l
  | Ping n | Pong n => le_bytes 8 n
  | GetCFilters_ m => toy_getcfilters_encode m
  | CFilter_ m => le_bytes 1 (cf_filter_type m) ++ cf_block_hash m ++ box_encode (cf_filter m)
  | Addr f | GetBlocks f | Tx f | Block f | MerkleBlock f | FilterLoad f | FilterAdd f | GetCFHeaders f | CFHeaders f
  | GetCFCheckpt f | CFCheckpt f | SendCmpct f | CmpctBlock f | GetBlockTxn f | BlockTxn f | Alert f | Reject f | FeeFilter f | AddrV2 f => f
  | Unknown _ payload => payload
  | _ => []
  end.
Definition toy_command_encode (name : string) : bytes := str_bytes name ++ zeros (12 - length (str_bytes name)).
Definition bytes_str (bs : bytes) : string := String.string_of_list_ascii ((fun b => Ascii.ascii_of_N (Z.to_N b)) <$> bs).
Definition toy_command_decode : reader string :=
  raw ← take_exact ended 12; mret (bytes_str (base.filter (fun b => b <> 0) raw)).

Lemma filter_all (P : Z -> Prop) `{forall x, Decision (P x)} (l : bytes) : Forall P l -> base.filter P l = l.
Proof. induction 1 as [|x l Hx Hl IH]; [done|]. by rewrite filter_cons, decide_True, IH. Qed.
Lemma filter_none (P : Z -> Prop) `{forall x, Decision (P x)} (l : bytes) : Forall (fun x => ~ P x) l -> base.filter P l = [].
Proof. induction 1 as [|x l Hx Hl IH]; [done|]. by rewrite filter_cons, decide_False, IH. Qed.

Lemma bytes_str_bytes name : bytes_str (str_bytes name) = name.
Proof.
  unfold bytes_str, str_bytes. rewrite <- list_fmap_compose. rewrite (list_fmap_ext _ id).
  - rewrite list_fmap_id. apply String.string_of_list_ascii_of_string.
  - intros i c _. unfold compose, id. rewrite N2Z.id. apply Ascii.ascii_N_embedding.
Qed.

Lemma length_str_bytes name : length (str_bytes name) = String.length name.
Proof. unfold str_bytes. rewrite length_fmap. induction name as [|c name IH]; [done|]. cbn. by rewrite IH. Qed.

Definition toy_p2p : P2pCodec :=
  {| message_encode := toy_message_encode; command_name := fun m => default "" (long_name m);
     command_encode := toy_command_encode; command_decode := toy_command_decode;
     inventory_encode := toy_inventory_encode; inventory_decode := toy_inventory_decode;
     version_encode := toy_version_encode; version_decode := toy_version_decode;
     getcfilters_encode := toy_getcfilters_encode; getcfilters_decode := toy_getcfilters_decode;
     hash_vec_decode := vec_decode id (take_exact ended 32) 4000000;
     varint_vec_decode := vec_decode varint_encode varint_decode 4000000 |}.
#[local] Existing Instance toy_p2p.

Lemma toy_inventory_back : reads_back (fun i => (is_u32 i.1 /\ i.1 <> 0) /\ hash_ok i.2) toy_inventory_encode toy_inventory_decode.
Proof.
  split.
  - intros [t h] rest [[Ht Hne] Hh]. unfold toy_inventory_decode, toy_inventory_encode. cbn [fst snd] in *.
    read_step (take_le_codec ended 4). rewrite (proj2 (Z.eqb_neq t 0)) by done.
    by erewrite reader_bind_step by (by apply (dec_enc id_hash_codec h)).
  - intros i [[Ht _] Hh]. apply bytes_ok_app. split; [auto|apply Hh].
Qed.

Lemma toy_version_back : reads_back (fun v => v = toy_version (nonce v) (relay v) /\ is_u64 (nonce v)) toy_version_encode toy_version_decode.
Proof.
  split.
  - intros v rest [-> Hn]. unfold toy_version_decode, toy_version_encode. cbn [toy_version nonce relay]. rewrite <- app_assoc.
    erewrite reader_bind_step by (by apply (dec_enc (take_le_codec ended 8))). by destruct (relay v).
  - intros v [_ Hn]. apply bytes_ok_app. split; [auto|]. by destruct (relay v); by_decide.
Qed.

Definition toy_p2p_laws : P2pLaws.
Proof.
  refine {| inventory_ok := fun i : Inventory => (is_u32 i.1 /\ i.1 <> 0) /\ hash_ok i.2; inventory_back := toy_inventory_back;
    version_ok := fun v => v = toy_version (nonce v) (relay v) /\ is_u64 (nonce v); version_back := toy_version_back;
    getcfilters_ok := fun m => is_u8 (gcf_filter_type m) /\ is_u32 (gcf_start_height m) /\ hash_ok (gcf_stop_hash m);
    vec_limit := 4000000 |}; try done.
  - split.
    + intros [t h s] rest (Ht & Hh & Hs). cbn [getcfilters_decode getcfilters_encode toy_p2p gcf_filter_type gcf_start_height gcf_stop_hash] in *.
      unfold toy_getcfilters_decode, toy_getcfilters_encode. cbn [gcf_filter_type gcf_start_height gcf_stop_hash].
      read_step (take_le_codec ended 1). read_step (take_le_codec ended 4). by erewrite reader_bind_step by (by apply (dec_enc id_hash_codec s)).
    + intros bs m rest Hbs E. cbn [getcfilters_decode toy_p2p] in E. unfold toy_getcfilters_decode in E. inv_reader.
      unread_step (take_le_codec ended 1). unread_step (take_le_codec ended 4).
      cbn [getcfilters_encode toy_p2p]. unfold toy_getcfilters_encode. cbn [gcf_filter_type gcf_start_height gcf_stop_hash].
      rewrite <- !app_assoc. split; [done|]. split; [done|]. split; [done|]. by split.
    + intros m (Ht & Hh & Hs). cbn [getcfilters_encode toy_p2p]. unfold toy_getcfilters_encode. rewrite !bytes_ok_app. split_and!; [auto|auto|apply Hs].
  - apply (limited_vec_codec _ _ _ id_hash_codec); [done|]. intros h [Hl _]. unfold zlength, id. lia.
  - apply (limited_vec_codec _ _ _ varint_codec); [done|]. intros x _. cbn [varint_encode toy_bitcoin]. unfold size_encode.
    repeat case_match; rewrite zlength_cons; match goal with |- context [zlength ?l] => pose proof (zlength_nonneg l) end; lia.
  - intros m Hm. in_list.
  - intros m name Hn. cbn. by rewrite Hn.
  - intros name [Hl Hc]. cbn [command_decode command_encode toy_p2p]. unfold toy_command_decode, toy_command_encode.
    rewrite <- (app_nil_r (str_bytes name ++ _)).
    erewrite reader_bind_step by (apply take_exact_app; unfold zeros; rewrite length_app, length_replicate, length_str_bytes; lia).
    unfold mret, reader_ret. rewrite filter_app.
    rewrite (filter_all _ (str_bytes name)), (filter_none _ (zeros _)).
    + by rewrite app_nil_r, bytes_str_bytes.
    + apply Forall_replicate. by intros [].
    + eapply Forall_impl; [exact Hc|]. cbn. lia.
  - intros name [Hl Hc]. cbn [command_encode toy_p2p]. unfold toy_command_encode, zeros. rewrite length_app, length_replicate, length_str_bytes. lia.
Defined.

#[local] Existing Instance toy_p2p_laws.

Definition sample_request : GetUtreexoProof :=
  {| gup_block_hash := replicate 32 5; request_mask := 3; proof_bitmap := [255; 1]; leaf_bitmap := [] |}.

(** A version, two inventory items, a proof request and a message of another protocol. *)
Lemma messages_round_trip_witness :
  (exists bs, encode (Bitcoin (Version (toy_version 77 true))) = Good bs /\ decode bs = Good (Bitcoin (Version (toy_version 77 true))))
  /\ (exists bs, encode (Bitcoin (GetData [(2, replicate 32 7); (1, replicate 32 8)])) = Good bs
       /\ decode bs = Good (Bitcoin (GetData [(2, replicate 32 7); (1, replicate 32 8)])))
  /\ (exists bs, encode (GetUtreexoProof_ sample_request) = Good bs /\ decode bs = Good (GetUtreexoProof_ sample_request))
  /\ exists bs, encode (Bitcoin (Unknown "foo" [1; 2])) = Good bs /\ decode bs = Good Ignored.
Proof.
  refine (conj (messages_round_trip (Bitcoin (Version (toy_version 77 true))) _)
    (conj (messages_round_trip (Bitcoin (GetData [(2, replicate 32 7); (1, replicate 32 8)])) _)
    (conj (messages_round_trip (GetUtreexoProof_ sample_request) _) (messages_round_trip (Bitcoin (Unknown "foo" [1; 2])) _)))).
  - split; [split; [reflexivity|by_decide]|by_decide].
  - split; [repeat constructor; by_decide|by_decide].
  - split; [by_decide|]. split; [by_decide|]. split; by_decide.
  - split; by_decide.
Defined.

(** A version with the relay byte 5, and a getdata with an item of type 0: the decoder reads both. *)
Lemma decoder_accepts_only_requests_witness :
  decode (0 :: toy_command_encode "version" ++ le_bytes 8 77 ++ [5]) = Good (Bitcoin (Version (toy_version 77 true)))
  /\ decode ([11] ++ [1; 0; 0; 0; 0]) = Good (Bitcoin (GetData [(0, zeros 32)])).
Proof.
  split.
  - assert (bytes_ok (0 :: toy_command_encode "version" ++ le_bytes 8 77 ++ [5])) as Hb by by_decide.
    refine (proj1 (proj2 (decoder_accepts_only_requests _ (Bitcoin (Version (toy_version 77 true))) Hb) _)).
    exists (0 :: toy_command_encode "version"), (le_bytes 8 77 ++ [5]). split; [reflexivity|]. split; [split; [reflexivity|by_decide]|].
    right. exists "version"%string, (toy_command_encode "version"), []. split; [reflexivity|]. split; [reflexivity|]. split; [reflexivity|].
    exact (command_roundtrip "version"%string ltac:(by_decide)).
  - assert (bytes_ok ([11] ++ [1; 0; 0; 0; 0])) as Hb by by_decide.
    refine (proj1 (proj2 (decoder_accepts_only_requests ([11] ++ [1; 0; 0; 0; 0]) (Bitcoin (GetData [(0, zeros 32)])) Hb) _)).
    exists [11], [1; 0; 0; 0; 0]. split; [reflexivity|]. split.
    + exists [0; 0; 0; 0]. split; [reflexivity|]. split; [by_decide|]. eapply reads_cons; [reflexivity|constructor].
    + left. exists 11. split; reflexivity.
Defined.

Lemma lengths_checked_first_witness :
  decode (11 :: varint_encode 1025 ++ [1; 2; 3]) = Bad (TooManyInventoryItems 1025).
Proof.
  refine (proj1 (lengths_checked_first 1025 1 (zeros 32) [7] [1; 2; 3] [] [] _ _ _ _ _ _) _); [by_decide..| | |done].
  - split; [constructor|by_decide].
  - split; [constructor|by_decide].
Defined.

End Toy.

End V2CodecSpec.
