(* ===== verification/Headers.v ===== *)
(** Answering [getheaders] ([headers_for_request], [active_locator_height] and [header_at_height] of
    [src/src/node.rs]) and the cache of chain metadata behind it ([src/src/chainview.rs]). *)

From S2P Require Import Prelude Bytes Files JournalFile ProofStore HeaderIndex Wire.
Import Wire.Wire Files.Files JournalFile.JournalFile.

Module ChainView.

Section ChainView.
Context `{KvStore}.

(** The buckets "roots", "headers", "index" and "reverse_index" of one store. *)
Record ChainView := { roots : Bucket; headers : Bucket; index : Bucket; reverse_index : Bucket }.

Definition get_acc (v : ChainView) (hash : bytes) : result (option bytes) := kv_get (roots v) hash.
Definition get_block (v : ChainView) (hash : bytes) : result (option bytes) := kv_get (headers v) hash.

(** [unwrap] on a value of the wrong length panics; the worker turns a panic into [Panicked]. *)
Definition get_block_hash (v : ChainView) (height : Z) : presult (option bytes) :=
  hash ← or_err Storage (kv_get (index v) (be_bytes 4 height));
  match hash with
  | Some hash => if bool_decide (length hash = 32%nat) then Good (Some hash) else Bad Panicked
  | None => Good None
  end.

Definition get_height (v : ChainView) (hash : bytes) : presult (option Z) :=
  height ← or_err Storage (kv_get (reverse_index v) hash);
  match height with
  | Some height => if bool_decide (length height = 4%nat) then Good (Some (be_value height)) else Bad Panicked
  | None => Good None
  end.

Definition save_header (hash header : bytes) : SR ChainView unit := fun v =>
  let '(b, r) := kv_set (headers v) hash header in
  ({| roots := roots v; headers := b; index := index v; reverse_index := reverse_index v |}, r).
Definition save_block_hash (height : Z) (hash : bytes) : SR ChainView unit := fun v =>
  let '(b, r) := kv_set (index v) (be_bytes 4 height) hash in
  ({| roots := roots v; headers := headers v; index := b; reverse_index := reverse_index v |}, r).
Definition save_height (hash : bytes) (height : Z) : SR ChainView unit := fun v =>
  let '(b, r) := kv_set (reverse_index v) hash (be_bytes 4 height) in
  ({| roots := roots v; headers := headers v; index := index v; reverse_index := b |}, r).
End ChainView.

End ChainView.

Module HeaderRequests.

Definition MAX_HEADERS : Z := 2000.
Definition U32_MAX : Z := 2 ^ 32 - 1.

Section Requests.
Context `{KvStore} `{HeaderCodec} `{HeightsDb}.

(** The methods of [trait Blockchain] that the server uses: the answers while one request is served. *)
Record BlockSource := {
  get_block_count : result Z;
  source_block_hash : Z -> result bytes;
  source_block_height : bytes -> result Z;
  source_block_header : bytes -> result Header
}.

(** What the peers share. *)
Record Stores := { chainview : ChainView.ChainView; header_index : option HeaderIndex.HeaderIndex.HeaderIndex }.

Definition on_view {A} (m : SR ChainView.ChainView A) : PR Stores A :=
  p_on chainview (fun s v => {| chainview := v; header_index := header_index s |}) (p_of_sr Storage m).
(** [if let Some(index) = header_index { index.put(..)? }] *)
Definition put_index (io : Io) (height : Z) (header : Header) : PR Stores unit := fun s =>
  match header_index s with
  | Some x =>
      let '(x, r) := HeaderIndex.HeaderIndex.put io height header x in
      ({| chainview := chainview s; header_index := Some x |}, or_err Rpc r)
  | None => (s, Good tt)
  end.

Context (io : Z -> Io) (header_source : option BlockSource).

Definition index_height (s : Stores) (block_hash : bytes) : presult (option Z) :=
  match header_index s with
  | Some index => or_err Rpc (HeaderIndex.HeaderIndex.get_height index block_hash)
  | None => Good None
  end.

Fixpoint active_locator_height (locator_hashes : list bytes) (published_height : Z) : PR Stores Z :=
  match locator_hashes with
  | [] => mret 0
  | block_hash :: rest =>
      let continue := active_locator_height rest published_height in
      s ← p_get;
      indexed ← p_lift (index_height s block_hash);
      match indexed with
      | Some height => if height <=? published_height then mret height else continue
      | None =>
          cached ← p_lift (ChainView.get_height (chainview s) block_hash);
          match cached with
          | Some height => if height <=? published_height then mret height else continue
          | None =>
              match header_source with
              | None => continue
              | Some source =>
                  match source_block_height source block_hash with
                  | Err _ => continue
                  | Ok height =>
                      if published_height <? height then continue
                      else
                        match source_block_hash source height with
                        | Err _ => continue
                        | Ok active_hash =>
                            if bool_decide (active_hash = block_hash) then
                              header ← p_lift (or_err Rpc (source_block_header source block_hash));
                              put_index (io height) height header;;
                              on_view (ChainView.save_height block_hash height);;
                              on_view (ChainView.save_block_hash height block_hash);;
                              mret height
                            else continue
                        end
                  end
              end
          end
      end
  end.

(** [deserialize] wants the bytes of one header and nothing else. *)
Definition deserialize_header (raw : bytes) : presult Header :=
  '(header, rest) ← or_err Decode (header_decode raw);
  guard_ (bool_decide (rest = [])) (Decode "data not consumed entirely when explicitly deserializing");;
  Good header.

Definition index_header (s : Stores) (height : Z) : presult (option Header) :=
  match header_index s with
  | Some index => or_err Rpc (HeaderIndex.HeaderIndex.get_by_height index height)
  | None => Good None
  end.

(** The header of the cache, when both its hash and its bytes are there. *)
Definition cached_header (s : Stores) (height : Z) : presult (option (bytes * Header)) :=
  block_hash ← ChainView.get_block_hash (chainview s) height;
  match block_hash with
  | None => Good None
  | Some block_hash =>
      header ← or_err Storage (ChainView.get_block (chainview s) block_hash);
      match header with
      | None => Good None
      | Some raw => header ← deserialize_header raw; Good (Some (block_hash, header))
      end
  end.

Definition header_at_height (height : Z) : PR Stores (option (bytes * Header)) :=
  s ← p_get;
  indexed ← p_lift (index_header s height);
  match indexed with
  | Some header => mret (Some (header_block_hash header, header))
  | None =>
      cached ← p_lift (cached_header s height);
      match cached with
      | Some found => mret (Some found)
      | None =>
          match header_source with
          | None => mret None
          | Some source =>
              block_hash ← p_lift (or_err Rpc (source_block_hash source height));
              header ← p_lift (or_err Rpc (source_block_header source block_hash));
              put_index (io height) height header;;
              on_view (ChainView.save_block_hash height block_hash);;
              on_view (ChainView.save_height block_hash height);;
              on_view (ChainView.save_header block_hash (header_encode header));;
              mret (Some (block_hash, header))
          end
      end
  end.

(** The loop over the heights: it ends at an unknown height and after the stop hash. *)
Fixpoint collect_headers (stop : bytes) (heights : list Z) : PR Stores (list Header) :=
  match heights with
  | [] => mret []
  | height :: rest =>
      found ← header_at_height height;
      match found with
      | None => mret []
      | Some (block_hash, header) =>
          if negb (bool_decide (stop = zeros 32)) && bool_decide (stop = block_hash) then mret [header]
          else headers ← collect_headers stop rest; mret (header :: headers)
      end
  end.

Definition end_height (published_height start : Z) : presult Z :=
  match header_source with
  | Some source =>
      count ← or_err Rpc (get_block_count source);
      Good (Z.min (Z.min (saturating_add 32 (default U32_MAX (try_uint 32 count)) 1) (saturating_add 32 start MAX_HEADERS))
              (saturating_add 32 published_height 1))
  | None => Good (Z.min (saturating_add 32 start MAX_HEADERS) (saturating_add 32 published_height 1))
  end.

Definition headers_for_request (published_height : Z) (request : GetHeadersMessage) : PR Stores (list Header) :=
  p_lift (guard_ (negb (MAX_LOCATOR_HASHES <? zlength (locator_hashes request))) (TooManyLocatorHashes (zlength (locator_hashes request))));;
  if bool_decide (locator_hashes request = []) then
    if bool_decide (stop_hash request = zeros 32) then mret []
    else
      height ← active_locator_height [stop_hash request] published_height;
      found ← header_at_height height;
      match found with
      | Some (hash, header) => mret (if bool_decide (hash = stop_hash request) then [header] else [])
      | None => mret []
      end
  else
    common_height ← active_locator_height (locator_hashes request) published_height;
    let start := saturating_add 32 common_height 1 in
    end_ ← p_lift (end_height published_height start);
    collect_headers (stop_hash request) (zrange start end_).

End Requests.

(** ** What is known of the active chain *)

Section Spec.
Context `{KvLaws} `{!HeaderCodec} `{!HeightsDb} `{!HeaderIndex.HeaderLaws} `{!HeightsLaws}.

(** The hash of the active block at each height. *)
Context (chain : Z -> option bytes).

(** The header index and the cache hold nothing but blocks of the chain. *)
Record knows (s : Stores) : Prop := {
  kn_index : forall x, header_index s = Some x -> exists Hs K, HeaderIndex.HeaderIndex.refines x Hs K
    /\ forall h hd, is_u32 h -> Hs h = Some hd -> chain h = Some (header_block_hash hd);
  kn_hash : forall h bh, is_u32 h -> ChainView.get_block_hash (chainview s) h = Good (Some bh) -> chain h = Some bh;
  kn_height : forall bh h, ChainView.get_height (chainview s) bh = Good (Some h) -> is_u32 h /\ chain h = Some bh;
  kn_block : forall bh raw, ChainView.get_block (chainview s) bh = Ok (Some raw) ->
    exists hd, raw = header_encode hd /\ header_block_hash hd = bh
}.

(** The node answers for the active chain; a height it reports may belong to a block of another branch. *)
Record source_ok (source : BlockSource) : Prop := {
  so_hash : forall h bh, is_u32 h -> source_block_hash source h = Ok bh -> length bh = 32%nat /\ chain h = Some bh;
  so_height : forall bh h, source_block_height source bh = Ok h -> is_u32 h;
  so_header : forall bh hd, source_block_header source bh = Ok hd -> header_block_hash hd = bh /\ header_encode hd <> zeros 80
}.

Lemma index_height_knows s bh h : knows s -> index_height s bh = Good (Some h) -> is_u32 h /\ chain h = Some bh.
Proof.
  intros Hk E. unfold index_height in E. destruct (header_index s) as [x|] eqn:Ex; [|done]. apply or_err_good in E.
  destruct (kn_index _ Hk x Ex) as (Hs & K & Hr & Hc). pose proof (HeaderIndex.HeaderIndex.refines_answers _ _ _ Hr) as [_ Ha].
  apply Ha in E. unfold HeaderIndex.HeaderIndex.lookup_height in E. destruct (K !! _) as [h'|] eqn:EK; [|done]. cbn in E.
  destruct (Hs h') as [hd|] eqn:Eh; [|done]. cbn in E. case_bool_decide; [|done]. injection E as ->.
  pose proof (HeaderIndex.HeaderIndex.rf_u32 _ _ _ Hr _ _ EK) as Hh. split; [done|]. rewrite (Hc _ _ Hh Eh). by f_equal.
Qed.

Lemma index_header_knows s h hd : knows s -> is_u32 h -> index_header s h = Good (Some hd) -> chain h = Some (header_block_hash hd).
Proof.
  intros Hk Hh E. unfold index_header in E. destruct (header_index s) as [x|] eqn:Ex; [|done]. apply or_err_good in E.
  destruct (kn_index _ Hk x Ex) as (Hs & K & Hr & Hc). pose proof (HeaderIndex.HeaderIndex.refines_answers _ _ _ Hr) as [Ha _].
  rewrite (Ha h Hh) in E. injection E as E. by apply Hc.
Qed.

Lemma put_index_knows io h hd s s' : knows s -> is_u32 h -> chain h = Some (header_block_hash hd) -> header_encode hd <> zeros 80 ->
  put_index io h hd s = (s', Good tt) -> knows s'.
Proof.
  intros Hk Hh Hc Hne E. unfold put_index in E. destruct (header_index s) as [x|] eqn:Ex; [|by injection E as <-].
  destruct (HeaderIndex.HeaderIndex.put io h hd x) as [x' r] eqn:Ep. destruct r as [[]|]; [|done]. injection E as <-.
  destruct Hk as [Hi Hb Hh2 Hr]. split; cbn; try done. intros x1 [= <-].
  destruct (Hi x Ex) as (Hs & K & Href & Hch).
  eexists _, _. split; [by eapply HeaderIndex.HeaderIndex.put_refines|].
  intros k hk Hku. unfold HeaderIndex.HeaderIndex.at_height. destruct (Z.eqb_spec k h) as [->|]; [by intros [= <-]|by apply Hch].
Qed.

Lemma on_view_good {A} (m : SR ChainView.ChainView A) s s' a : on_view m s = (s', Good a) ->
  exists v, m (chainview s) = (v, Ok a) /\ s' = {| chainview := v; header_index := header_index s |}.
Proof.
  unfold on_view, p_on, p_of_sr. destruct (m (chainview s)) as [v [b|e]]; [|done]. intros [= <- <-]. by exists v.
Qed.

Lemma save_height_knows bh h s s' : knows s -> is_u32 h -> chain h = Some bh ->
  on_view (ChainView.save_height bh h) s = (s', Good tt) -> knows s'.
Proof.
  intros [Hi Hb Hh Hr] Hu Hc (v & E & ->)%on_view_good. unfold ChainView.save_height in E.
  destruct (kv_set _ bh (be_bytes 4 h)) as [b r] eqn:Es. injection E as <- ->. split; cbn [chainview header_index]; [done|done| |done].
  intros bh' h' E. unfold ChainView.get_height in E. cbn [ChainView.reverse_index] in E. rewrite (kv_get_set _ _ _ _ _ Es) in E. case_decide.
  - subst bh'. cbn [or_err mbind presult_bind] in E. case_bool_decide; [|done]. injection E as <-.
    rewrite ProofStore.be_value_be_bytes by done. done.
  - apply Hh. unfold ChainView.get_height. done.
Qed.

Lemma be_bytes_inj n x y : is_uint (8 * Z.of_nat n) x -> is_uint (8 * Z.of_nat n) y -> be_bytes n x = be_bytes n y -> x = y.
Proof. intros Hx Hy E. apply (f_equal be_value) in E. by rewrite !ProofStore.be_value_be_bytes in E. Qed.

Lemma save_block_hash_knows bh h s s' : knows s -> is_u32 h -> chain h = Some bh ->
  on_view (ChainView.save_block_hash h bh) s = (s', Good tt) -> knows s'.
Proof.
  intros [Hi Hb Hh Hr] Hu Hc (v & E & ->)%on_view_good. unfold ChainView.save_block_hash in E.
  destruct (kv_set _ (be_bytes 4 h) bh) as [b r] eqn:Es. injection E as <- ->. split; cbn [chainview header_index]; [done| |done|done].
  intros h' bh' Hu' E. unfold ChainView.get_block_hash in E. cbn [ChainView.index] in E. rewrite (kv_get_set _ _ _ _ _ Es) in E. case_decide as Eq.
  - apply be_bytes_inj in Eq as ->; [|done|done]. cbn [or_err mbind presult_bind] in E. case_bool_decide; [|done]. by injection E as <-.
  - apply Hb; [done|]. unfold ChainView.get_block_hash. done.
Qed.

Lemma save_header_knows bh hd s s' : knows s -> header_block_hash hd = bh ->
  on_view (ChainView.save_header bh (header_encode hd)) s = (s', Good tt) -> knows s'.
Proof.
  intros [Hi Hb Hh Hr] Hc (v & E & ->)%on_view_good. unfold ChainView.save_header in E.
  destruct (kv_set _ bh _) as [b r] eqn:Es. injection E as <- ->. split; cbn [chainview header_index]; [done|done|done|].
  intros bh' raw E. unfold ChainView.get_block in E. cbn [ChainView.headers] in E. rewrite (kv_get_set _ _ _ _ _ Es) in E. case_decide.
  - injection E as <-. subst. by exists hd.
  - by apply Hr.
Qed.

(** Take the first step of a computation that returned. *)
Ltac pstep E :=
  let s1 := fresh "st" in let r1 := fresh "res" in let E1 := fresh "E" in
  apply pr_bind_inv in E as (s1 & r1 & E1 & E); destruct r1; [|by destruct E].

Context (io : Z -> Io) (header_source : option BlockSource) (Hsrc : forall src, header_source = Some src -> source_ok src).

Lemma active_locator_knows l published s s' c : knows s -> 0 <= published ->
  active_locator_height io header_source l published s = (s', Good c) ->
  knows s' /\ is_u32 c /\ c <= published /\ (c = 0 \/ exists bh, bh ∈ l /\ chain c = Some bh).
Proof.
  intros Hk Hp. revert s Hk; induction l as [|bh l IH]; intros s Hk E.
  { injection E as <- <-. split_and!; [done|done|done|by left]. }
  assert (forall s1, knows s1 -> active_locator_height io header_source l published s1 = (s', Good c) ->
    knows s' /\ is_u32 c /\ c <= published /\ (c = 0 \/ exists b, b ∈ bh :: l /\ chain c = Some b)) as Hcont.
  { intros s1 Hk1 E1. destruct (IH s1 Hk1 E1) as (? & ? & ? & [?|(b & Hb & Hc)]); split_and!; try done; [by left|].
    right. exists b. split; [by right|done]. }
  cbn [active_locator_height] in E. pstep E. injection E0 as <- <-. pstep E.
  unfold p_lift in E0. injection E0 as <- E0. destruct a as [h|].
  { apply (index_height_knows s bh h Hk) in E0 as [Hu Hc]. destruct (Z.leb_spec h published); [|by eapply Hcont].
    injection E as <- <-. split_and!; try done. right. exists bh. split; [by left|done]. }
  pstep E. unfold p_lift in E1. injection E1 as <- E1. destruct a as [h|].
  { apply (kn_height _ Hk) in E1 as [Hu Hc]. destruct (Z.leb_spec h published); [|by eapply Hcont].
    injection E as <- <-. split_and!; try done. right. exists bh. split; [by left|done]. }
  destruct header_source as [src|] eqn:Es; [|by eapply Hcont]. pose proof (Hsrc src eq_refl) as Hso.
  destruct (source_block_height src bh) as [h|] eqn:Eh; [|by eapply Hcont]. apply (so_height _ Hso) in Eh as Hu.
  destruct (Z.ltb_spec published h); [by eapply Hcont|].
  destruct (source_block_hash src h) as [ah|] eqn:Ea; [|by eapply Hcont]. case_bool_decide; [subst ah|by eapply Hcont].
  apply (so_hash _ Hso) in Ea as [_ Hc]; [|done].
  pstep E. unfold p_lift in E2. injection E2 as <- E2. apply or_err_good, (so_header _ Hso) in E2 as [Hbh Hne].
  pstep E. pstep E. pstep E. destruct a0, a1, a2. injection E as <- <-.
  apply put_index_knows in E2; [|done|done|by rewrite Hbh|done]. apply save_height_knows in E3; [|done..].
  apply save_block_hash_knows in E4; [|done..]. split_and!; try done. right. exists bh. split; [by left|done].
Qed.

Lemma cached_header_knows s h bh hd : knows s -> is_u32 h -> cached_header s h = Good (Some (bh, hd)) ->
  header_block_hash hd = bh /\ chain h = Some bh.
Proof.
  intros Hk Hu E. unfold cached_header in E. apply presult_bind_good in E as ([b|] & Eb & E); [|done].
  apply presult_bind_good in E as ([raw|] & Er & E); [|done]. apply presult_bind_good in E as (hd' & Ed & E). injection E as -> ->.
  apply (kn_hash _ Hk) in Eb; [|done]. apply or_err_good, (kn_block _ Hk) in Er as (hd2 & -> & Hh). split; [|done].
  unfold deserialize_header in Ed. rewrite <- (app_nil_r (header_encode hd2)), (dec_enc header_codec) in Ed by done.
  cbn in Ed. by injection Ed as <-.
Qed.

Lemma header_at_height_knows h s s' r : knows s -> is_u32 h -> header_at_height io header_source h s = (s', Good r) ->
  knows s' /\ match r with Some (bh, hd) => header_block_hash hd = bh /\ chain h = Some bh | None => True end.
Proof.
  intros Hk Hu E. unfold header_at_height in E. pstep E. injection E0 as <- <-. pstep E. unfold p_lift in E0. injection E0 as <- E0.
  destruct a as [hd|]. { apply index_header_knows in E0; [|done|done]. injection E as <- <-. done. }
  pstep E. unfold p_lift in E1. injection E1 as <- E1. destruct a as [[bh hd]|].
  { apply cached_header_knows in E1; [|done|done]. injection E as <- <-. done. }
  destruct header_source as [src|] eqn:Es; [|by injection E as <- <-]. pose proof (Hsrc src eq_refl) as Hso.
  pstep E. unfold p_lift in E2. injection E2 as <- E2. apply or_err_good, (so_hash _ Hso) in E2 as [Hl Hc]; [|done].
  pstep E. unfold p_lift in E2. injection E2 as <- E2. apply or_err_good, (so_header _ Hso) in E2 as [Hbh Hne].
  pstep E. pstep E. pstep E. pstep E. destruct a1, a2, a3, a4. injection E as <- <-.
  apply put_index_knows in E2; [|done|done|by rewrite Hbh|done]. apply save_block_hash_knows in E3; [|done..].
  apply save_height_knows in E4; [|done..]. apply save_header_knows in E5; [|done..]. done.
Qed.

(** [l] are headers of the chain from [start] on, and none follows the stop hash. *)
Definition segment (stop : bytes) (start : Z) (l : list Header) : Prop :=
  forall i hd, l !! i = Some hd -> chain (start + Z.of_nat i) = Some (header_block_hash hd)
    /\ (stop <> zeros 32 -> header_block_hash hd = stop -> S i = length l).

Lemma collect_headers_knows stop (n : nat) start s s' l : knows s -> 0 <= start -> start + Z.of_nat n <= 2 ^ 32 ->
  collect_headers io header_source stop (zrange start (start + Z.of_nat n)) s = (s', Good l) ->
  knows s' /\ segment stop start l /\ (length l <= n)%nat.
Proof.
  revert start s l; induction n as [|n IH]; intros start s l Hk H0s Hb E.
  { rewrite zrange_nil in E by lia. injection E as <- <-. split_and!; [done|by intros i hd ?|done]. }
  rewrite zrange_cons in E by lia. cbn [collect_headers] in E. pstep E.
  apply header_at_height_knows in E0 as [Hk1 Hr]; [|done|unfold is_uint; lia]. destruct a as [[bh hd]|].
  2: { injection E as <- <-. split_and!; [done|by intros i hd ?|cbn; lia]. }
  destruct Hr as [Hbh Hc]. destruct (negb (bool_decide (stop = zeros 32)) && bool_decide (stop = bh)) eqn:Estop.
  { injection E as <- <-. split_and!; [done| |cbn; lia]. intros [|i] hd' Hl; [|done]. injection Hl as <-. cbn.
    rewrite Z.add_0_r, Hbh. done. }
  pstep E. injection E as <- <-. replace (start + Z.of_nat (S n)) with (start + 1 + Z.of_nat n) in E0 by lia.
  apply IH in E0 as (Hk2 & Hseg & Hlen); [|done|lia|lia]. split_and!; [done| |cbn; lia].
  intros [|i] hd' Hl.
  - injection Hl as <-. rewrite Z.add_0_r, Hbh. split; [done|]. intros Hs ->.
    rewrite bool_decide_eq_false_2, bool_decide_eq_true_2 in Estop by done. done.
  - cbn in Hl. destruct (Hseg i hd' Hl) as [Hc' Hst]. split.
    + by replace (start + Z.of_nat (S i)) with (start + 1 + Z.of_nat i) by lia.
    + intros Hs Hh. cbn. by rewrite <- (Hst Hs Hh).
Qed.

Lemma end_height_bound published start end_ : is_u32 published -> is_u32 start ->
  end_height header_source published start = Good end_ -> end_ <= start + MAX_HEADERS /\ end_ <= published + 1 /\ end_ < 2 ^ 32.
Proof.
  intros Hp Hs E. unfold end_height, saturating_add in E.
  destruct header_source; [apply presult_bind_good in E as (count & _ & E)|]; injection E as <-; unfold is_uint, MAX_HEADERS in *; lia.
Qed.

(** What a response may hold. *)
Definition answers_request (published : Z) (request : GetHeadersMessage) (l : list Header) : Prop :=
  zlength l <= MAX_HEADERS /\ exists start, segment (stop_hash request) start l /\ start + zlength l <= published + 1
  /\ match locator_hashes request with
     | [] => zlength l <= 1 /\ Forall (fun hd => header_block_hash hd = stop_hash request) l
     | _ => start = 1 \/ exists bh, bh ∈ locator_hashes request /\ chain (start - 1) = Some bh
     end.

Lemma headers_request_knows published request s s' l : knows s -> is_u32 published ->
  headers_for_request io header_source published request s = (s', Good l) ->
  knows s' /\ answers_request published request l.
Proof.
  intros Hk Hp E. unfold headers_for_request in E. pstep E. unfold p_lift in E0. injection E0 as <- _.
  destruct (locator_hashes request) as [|b bs] eqn:El.
  - rewrite (bool_decide_eq_true_2 ([] = [])) in E by done.
    assert (forall s, knows s -> knows s /\ answers_request published request []) as Hnil.
    { intros s0 Hk0. split; [done|]. split; [done|]. exists 0. split; [by intros i hd ?|]. rewrite El.
      unfold is_uint in Hp. split; [change (0 <= published + 1); lia|done]. }
    case_bool_decide; [injection E as <- <-; by apply Hnil|].
    pstep E. apply active_locator_knows in E0 as (Hk1 & Hu & Hle & _); [|done|unfold is_uint in Hp; lia].
    pstep E. apply header_at_height_knows in E0 as [Hk2 Hr]; [|done|done].
    destruct a1 as [[bh hd]|]; [|injection E as <- <-; by apply Hnil]. case_bool_decide; [|injection E as <- <-; by apply Hnil].
    injection E as <- <-. destruct Hr as [Hbh Hc]. split; [done|]. split; [done|]. exists a0. rewrite El. split_and!.
    + intros [|i] hd' Hl; [|done]. injection Hl as <-. cbn. rewrite Z.add_0_r, Hbh. done.
    + change (zlength [hd]) with 1. lia.
    + done.
    + apply Forall_singleton. by rewrite Hbh.
  - rewrite (bool_decide_eq_false_2 (b :: bs = [])) in E by done. pstep E. rewrite <- El in E0.
    apply active_locator_knows in E0 as (Hk1 & Hu & Hle & Hloc); [|done|unfold is_uint in Hp; lia].
    pstep E. unfold p_lift in E0. injection E0 as <- E0. set (start := saturating_add 32 a0 1) in *.
    assert (is_u32 start) as Hst by (unfold start, saturating_add, is_uint in *; lia).
    destruct (end_height_bound _ _ _ Hp Hst E0) as (He1 & He2 & He3).
    assert (zrange start a1 = zrange start (start + Z.of_nat (Z.to_nat (a1 - start)))) as Ez.
    { destruct (Z.le_gt_cases a1 start); [by rewrite !zrange_nil by lia|f_equal; lia]. }
    rewrite Ez in E. apply collect_headers_knows in E as (Hk2 & Hseg & Hlen); [|done|unfold is_uint in Hst; lia|unfold is_uint in Hst; lia].
    split; [done|]. unfold MAX_HEADERS in He1. split; [unfold zlength, MAX_HEADERS; lia|].
    exists (a0 + 1). rewrite El. assert (start = a0 + 1 \/ l = []) as Hs.
    { unfold start, saturating_add in *. destruct (Z.le_gt_cases (a0 + 1) (2 ^ 32 - 1)); [left; lia|right]. destruct l; [done|cbn in Hlen; lia]. }
    split_and!.
    + destruct Hs as [<-| ->]; [done|by intros i hd ?].
    + destruct Hs as [Hs| ->]; [unfold zlength; lia|rewrite zlength_nil; lia].
    + destruct Hloc as [->|(bh & Hb & Hc)]; [by left|right]. exists bh. rewrite <- El. split; [done|]. by replace (a0 + 1 - 1) with a0 by lia.
Qed.

(** The chain from [start] up to height [last], cut after the stop hash. *)
Fixpoint cut_after (stop : bytes) (l : list Header) : list Header :=
  match l with
  | [] => []
  | hd :: l => if negb (bool_decide (stop = zeros 32)) && bool_decide (stop = header_block_hash hd) then [hd] else hd :: cut_after stop l
  end.

Lemma collect_indexed stop (n : nat) start s x Hs K : header_index s = Some x -> HeaderIndex.HeaderIndex.refines x Hs K ->
  0 <= start -> start + Z.of_nat n <= 2 ^ 32 -> forall l, (fun h => Hs h) <$> zrange start (start + Z.of_nat n) = Some <$> l ->
  collect_headers io header_source stop (zrange start (start + Z.of_nat n)) s = (s, Good (cut_after stop l)).
Proof.
  intros Ex Hr. pose proof (HeaderIndex.HeaderIndex.refines_answers _ _ _ Hr) as [Ha _].
  revert start; induction n as [|n IH]; intros start H0s Hb l El.
  { rewrite zrange_nil in El |- * by lia. by destruct l. }
  rewrite zrange_cons in El |- * by lia. destruct l as [|hd l]; [done|]. cbn in El. injection El as Eh El.
  cbn [collect_headers cut_after].
  assert (header_at_height io header_source start s = (s, Good (Some (header_block_hash hd, hd)))) as E.
  { unfold header_at_height. erewrite pr_bind_good by done. erewrite pr_bind_good.
    2: { unfold p_lift, index_header. rewrite Ex, (Ha start) by (unfold is_uint; lia). by rewrite Eh. }
    done. }
  erewrite pr_bind_good by exact E. cbv beta iota.
  destruct (negb _ && bool_decide (stop = header_block_hash hd)); [done|].
  erewrite pr_bind_good; [done|].
  replace (start + Z.of_nat (S n)) with (start + 1 + Z.of_nat n) by lia. apply IH; [lia|lia|].
  by replace (start + 1 + Z.of_nat n) with (start + Z.of_nat (S n)) by lia.
Qed.

Lemma sublist_of_range (Hs : Z -> option Header) a b :
  (forall k, a <= k < b -> is_Some (Hs k)) -> exists l, (fun h => Hs h) <$> zrange a b = Some <$> l.
Proof.
  intros Hsome. assert (forall n : nat, Z.of_nat n <= b - a -> exists l, (fun h => Hs h) <$> zrange (b - Z.of_nat n) b = Some <$> l) as Hn.
  { induction n as [|n IH]; intros Hle; [exists []; by rewrite zrange_nil by lia|].
    destruct IH as [l El]; [lia|]. rewrite zrange_cons by lia. destruct (Hsome (b - Z.of_nat (S n)) ltac:(lia)) as [hd Eh].
    exists (hd :: l). cbn. rewrite Eh. f_equal. by replace (b - Z.of_nat (S n) + 1) with (b - Z.of_nat n) by lia. }
  destruct (Z.le_gt_cases a b); [|exists []; by rewrite zrange_nil by lia].
  destruct (Hn (Z.to_nat (b - a)) ltac:(lia)) as [l El]. exists l. by replace (b - Z.of_nat (Z.to_nat (b - a))) with a in El by lia.
Qed.

End Spec.

(** C16: a getheaders request is answered with consecutive headers of the active chain only: at most 2000, none above
    the height that is published, starting after a locator hash that is on the chain (or after the genesis block when none
    is known), and none after the stop hash; without a locator it is answered with the block of the stop hash alone, or
    nothing.  What the answer leaves in the header index and the cache is again on the chain.  The header index, the cache
    and the node may each know only part of the chain and the node may report heights of blocks of other branches. *)
Theorem headers_follow_chain `{KvLaws} `{!HeaderCodec} `{!HeightsDb} `{!HeaderIndex.HeaderLaws} `{!HeightsLaws}
  (chain : Z -> option bytes) (io : Z -> Io) (header_source : option BlockSource) (published : Z) (request : GetHeadersMessage)
  (s s' : Stores) (l : list Header) (Hsrc : forall src, header_source = Some src -> source_ok chain src) (Hk : knows chain s)
  (Hp : is_u32 published) (E : headers_for_request io header_source published request s = (s', Good l)) :
  knows chain s' /\ answers_request chain published request l.
Proof. by apply (headers_request_knows chain io header_source Hsrc published request s s' l). Qed.

(** Once the header index holds every published header, a request whose first locator hash is the block of height
    [h] is answered from the index alone, changing nothing: with all headers from [h + 1] to the published height, cut to 2000 and
    after the stop hash, whatever the cache holds and as long as the node's own count has reached that height. *)
Theorem indexed_headers_served `{HeaderIndex.HeaderLaws} `{HeightsLaws} `{KvStore} (io : Z -> Io) (header_source : option BlockSource)
  (published h : Z) (bh : bytes) (rest : list bytes) (version : Z) (stop : bytes) (s : Stores) x Hs K hd
  (Hx : header_index s = Some x) (Hr : HeaderIndex.HeaderIndex.refines x Hs K)
  (Hfull : forall k, 0 <= k <= published -> is_Some (Hs k)) (Hp : 0 <= published < 2 ^ 32 - 1) (Hh : 0 <= h <= published)
  (HK : K !! HeaderIndex.HeaderIndex.hash_key bh = Some h) (Hhd : Hs h = Some hd) (Hbh : header_block_hash hd = bh)
  (Hdb : is_ok (HeaderIndex.HeaderIndex.get_height x bh) = true) (Hlen : zlength (bh :: rest) <= MAX_LOCATOR_HASHES)
  (Hcount : forall src, header_source = Some src -> exists n, get_block_count src = Ok n /\ published <= n) :
  exists l, Hs <$> zrange (h + 1) (Z.min (h + 1 + MAX_HEADERS) (published + 1)) = Some <$> l
    /\ headers_for_request io header_source published {| gh_version := version; locator_hashes := bh :: rest; stop_hash := stop |} s
      = (s, Good (cut_after stop l)).
Proof.
  set (e := Z.min (h + 1 + MAX_HEADERS) (published + 1)).
  destruct (sublist_of_range Hs (h + 1) e) as [l El].
  { intros k Hk'. apply Hfull. lia. }
  exists l. split; [exact El|]. unfold headers_for_request. cbn [locator_hashes stop_hash].
  rewrite (proj2 (Z.ltb_ge _ _)) by exact Hlen. erewrite pr_bind_good by done.
  rewrite bool_decide_eq_false_2 by done.
  assert (active_locator_height io header_source (bh :: rest) published s = (s, Good h)) as E.
  { cbn [active_locator_height]. erewrite pr_bind_good by done. erewrite pr_bind_good.
    2: { unfold p_lift, index_height. rewrite Hx. destruct (HeaderIndex.HeaderIndex.get_height x bh) as [r|] eqn:Eg; [|done].
         apply (HeaderIndex.HeaderIndex.refines_answers _ _ _ Hr) in Eg as ->. unfold HeaderIndex.HeaderIndex.lookup_height.
         rewrite HK. cbn [mbind option_bind]. rewrite Hhd. cbn [mbind option_bind]. by rewrite bool_decide_eq_true_2. }
    cbv beta iota. by rewrite (proj2 (Z.leb_le _ _)) by lia. }
  erewrite pr_bind_good by exact E. cbv zeta.
  assert (saturating_add 32 h 1 = h + 1) as -> by (unfold saturating_add; lia).
  assert (end_height header_source published (h + 1) = Good e) as He.
  { unfold end_height, saturating_add, e, MAX_HEADERS. destruct header_source as [src|]; [|f_equal; lia].
    destruct (Hcount src eq_refl) as (n & -> & Hn). cbn. f_equal. unfold U32_MAX, try_uint. case_decide; cbn [default]; unfold id; lia. }
  erewrite pr_bind_good by (unfold p_lift; by rewrite He).
  assert (zrange (h + 1) e = zrange (h + 1) (h + 1 + Z.of_nat (Z.to_nat (e - (h + 1))))) as Ez.
  { destruct (Z.le_gt_cases e (h + 1)); [by rewrite !zrange_nil by lia|f_equal; lia]. }
  rewrite Ez in El |- *. apply (collect_indexed io header_source stop _ _ s x Hs K); [done|done|lia|lia|done].
Qed.

(** ** Concrete inputs *)

Section Demo.
#[local] Existing Instances HeaderIndex.HeaderIndex.small_db HeaderIndex.HeaderIndex.small_db_laws HeaderIndex.HeaderIndex.raw_headers
  HeaderIndex.HeaderIndex.raw_headers_laws ProofStore.ProofStore.map_kv ProofStore.ProofStore.map_kv_laws.

(** Six blocks; the hash of block [h] is 32 times the byte [h + 1]. *)
Definition demo_chain (h : Z) : option bytes := if bool_decide (0 <= h <= 5) then Some (replicate 32 (h + 1)) else None.
Definition demo_source : BlockSource :=
  {| get_block_count := Ok 5;
     source_block_hash := fun h => ok_or "unknown height" (demo_chain h);
     source_block_height := fun bh => match bh with b :: _ => ok_or "unknown block" (try_uint 32 (b - 1)) | [] => Err "unknown block" end;
     source_block_header := fun bh =>
       match bh with
       | b :: _ => if bool_decide (bh = replicate 32 b /\ 0 < b < 256) then Ok (HeaderIndex.HeaderIndex.header_of b) else Err "unknown block"
       | [] => Err "unknown block" end |}.

Lemma demo_source_ok : source_ok demo_chain demo_source.
Proof.
  split.
  - intros h bh _. cbn. unfold demo_chain. case_bool_decide; [|done]. by intros [= <-].
  - intros [|b bh] h; [done|]. cbn. intros E%ok_or_ok%try_uint_Some. by destruct E as [-> ?].
  - intros [|b bh] hd; [done|]. cbn [source_block_header demo_source]. case_bool_decide as Hb; [|done]. destruct Hb as [Hb Hr]. intros [= <-].
    rewrite Hb. change (header_block_hash (HeaderIndex.HeaderIndex.header_of b)) with (take 32 (replicate 80 (b mod 256))).
    change (header_encode (HeaderIndex.HeaderIndex.header_of b)) with (replicate 80 (b mod 256)). rewrite Z.mod_small by lia. split; [done|].
    intros E. apply (f_equal (head (A := Z))) in E. cbn in E. injection E. lia.
Qed.

Definition demo_stores : Stores :=
  {| chainview := {| ChainView.roots := (∅ : gmap bytes bytes); ChainView.headers := (∅ : gmap bytes bytes);
       ChainView.index := (∅ : gmap bytes bytes); ChainView.reverse_index := (∅ : gmap bytes bytes) |};
     header_index := Some HeaderIndex.HeaderIndex.demo_headers |}.

Lemma demo_stores_know : knows demo_chain demo_stores.
Proof.
  split; [|done|done|done]. intros x [= <-]. exists (fun _ => None), ∅. split; [apply HeaderIndex.HeaderIndex.demo_headers_refines|done].
Qed.

(** The locator names a block of another branch and block 1; the node answers and the answers are kept. *)
Lemma headers_follow_chain_witness : exists s' l,
  headers_for_request (fun _ _ => true) (Some demo_source) 4
    {| gh_version := 70016; locator_hashes := [replicate 31 9 ++ [8]; replicate 32 2]; stop_hash := zeros 32 |} demo_stores = (s', Good l)
  /\ zlength l <= MAX_HEADERS.
Proof.
  destruct (headers_for_request (fun _ _ => true) (Some demo_source) 4
    {| gh_version := 70016; locator_hashes := [replicate 31 9 ++ [8]; replicate 32 2]; stop_hash := zeros 32 |} demo_stores) as [s' r] eqn:E.
  assert (match r with Good l => bool_decide (header_block_hash <$> l = [replicate 32 3; replicate 32 4; replicate 32 5]) | Bad _ => false end = true) as Er.
  { replace r with (headers_for_request (fun _ _ => true) (Some demo_source) 4
      {| gh_version := 70016; locator_hashes := [replicate 31 9 ++ [8]; replicate 32 2]; stop_hash := zeros 32 |} demo_stores).2 by (by rewrite E). eval_ok. }
  destruct r as [l|]; [|discriminate Er]. exists s', l. split; [reflexivity|].
  refine (proj1 (proj2 (headers_follow_chain demo_chain (fun _ _ => true) (Some demo_source) 4 _ demo_stores s' l _ demo_stores_know _ E))).
  - intros src [= <-]. exact demo_source_ok.
  - by_decide.
Defined.
(** Blocks 0 to 2 are in the index. *)
Definition filled : HeaderIndex.HeaderIndex.HeaderIndex :=
  foldl (fun x h => (HeaderIndex.HeaderIndex.put (fun _ => true) h (HeaderIndex.HeaderIndex.header_of (h + 1)) x).1)
    HeaderIndex.HeaderIndex.demo_headers [0; 1; 2].

Lemma filled_step x Hs K h : HeaderIndex.HeaderIndex.refines x Hs K -> HeaderIndex.HeaderIndex.entry_fits (h, HeaderIndex.HeaderIndex.header_of (h + 1)) ->
  is_ok (HeaderIndex.HeaderIndex.put (fun _ => true) h (HeaderIndex.HeaderIndex.header_of (h + 1)) x).2 = true ->
  HeaderIndex.HeaderIndex.refines (HeaderIndex.HeaderIndex.put (fun _ => true) h (HeaderIndex.HeaderIndex.header_of (h + 1)) x).1
    (HeaderIndex.HeaderIndex.at_height Hs h (Some (HeaderIndex.HeaderIndex.header_of (h + 1))))
    (<[HeaderIndex.HeaderIndex.hash_key (header_block_hash (HeaderIndex.HeaderIndex.header_of (h + 1))) := h]> K).
Proof.
  intros Hr Hf Hok. eapply HeaderIndex.HeaderIndex.put_refines; [exact Hr|exact Hf|]. instantiate (1 := fun _ => true).
  destruct (HeaderIndex.HeaderIndex.put _ h _ x) as [x' [[]|]]; done.
Qed.

Lemma filled_refines : HeaderIndex.HeaderIndex.refines filled
  (foldl (fun Hs h => HeaderIndex.HeaderIndex.at_height Hs h (Some (HeaderIndex.HeaderIndex.header_of (h + 1)))) (fun _ => None) [0; 1; 2])
  (foldl (fun K h => <[HeaderIndex.HeaderIndex.hash_key (header_block_hash (HeaderIndex.HeaderIndex.header_of (h + 1))) := h]> K) ∅ [0; 1; 2]).
Proof.
  cbn [foldl filled]. unfold filled. cbn [foldl].
  apply filled_step; [apply filled_step; [apply filled_step; [apply HeaderIndex.HeaderIndex.demo_headers_refines| |]| |]| |];
    [split; [by_decide|done]|eval_ok|split; [by_decide|done]|eval_ok|split; [by_decide|done]|eval_ok].
Qed.

Lemma indexed_headers_served_witness : exists l,
  headers_for_request (fun _ _ => true) None 2
    {| gh_version := 70016; locator_hashes := [replicate 32 1]; stop_hash := zeros 32 |}
    {| chainview := chainview demo_stores; header_index := Some filled |}
  = ({| chainview := chainview demo_stores; header_index := Some filled |}, Good l).
Proof.
  edestruct (indexed_headers_served (fun _ _ => true) None 2 0 (replicate 32 1) [] 70016 (zeros 32)
    {| chainview := chainview demo_stores; header_index := Some filled |} filled) as (l & _ & E).
  - reflexivity.
  - exact filled_refines.
  - intros k Hk. assert (k = 0 \/ k = 1 \/ k = 2) as [->|[->| ->]] by lia; by eexists.
  - by_decide.
  - by_decide.
  - by_decide.
  - reflexivity.
  - reflexivity.
  - eval_ok.
  - by_decide.
  - discriminate.
  - eexists. exact E.
Defined.
End Demo.

End HeaderRequests.
