(* ===== verification/Peer.v ===== *)
(** One connection ([Peer] of [src/src/node.rs]): the BIP 324 handshake as a state machine over the bytes that have
    arrived, the encrypted packets, the requests and their answers, and the buffers.  The [bip324]
    crate is the interface [Bip324].  The theorems are in [PeerSafety]. *)

From S2P Require Import Prelude Bytes Files JournalFile Udata ProofStore HeaderIndex Admission Wire Headers.
Import JournalFile.JournalFile Udata.Udata Wire.Wire V2Codec Headers.HeaderRequests Admission.Admission Files.Files.

Inductive PacketType := Genuine | Decoy.

(** The responder's side of [bip324].  [new_handshake] covers [Handshake::new] and [send_key]: the key to send, from some
    entropy.  [decrypt_packet_len] and [decrypt_in_place] advance the cipher. *)
Class Bip324 := {
  SentKey : Type;
  ReceivedKey : Type;
  SentVersion : Type;
  ReceivedGarbage : Type;
  InboundCipher : Type;
  OutboundCipher : Type;
  new_handshake : bytes -> bytes -> result (SentKey * bytes);
  receive_key : SentKey -> bytes -> result ReceivedKey;
  send_version : ReceivedKey -> result (SentVersion * bytes);
  receive_garbage : SentVersion -> bytes -> result (ReceivedGarbage * Z + SentVersion);
  handshake_packet_len : ReceivedGarbage -> bytes -> result (Z * ReceivedGarbage);
  receive_version : ReceivedGarbage -> bytes -> result (InboundCipher * OutboundCipher + ReceivedGarbage);
  decrypt_packet_len : InboundCipher -> bytes -> Z * InboundCipher;
  decrypt_in_place : InboundCipher -> bytes -> InboundCipher * result (PacketType * bytes);
  encryption_buffer_len : Z -> Z;
  encrypt : OutboundCipher -> bytes -> OutboundCipher * result bytes
}.

Module Peer.

Definition READ_BUFFER_SIZE : Z := 64 * 1024.
Definition MAX_READ_BYTES_PER_EVENT : Z := 256 * 1024.
Definition MAX_INBOUND_PACKET_SIZE : Z := 256 * 1024.
Definition MAX_HANDSHAKE_BYTES : Z := 1 * 1024 * 1024.
Definition MAX_HANDSHAKE_PACKETS : Z := 64.
Definition BIP324_KEY_SIZE : Z := 64.
Definition NUM_LENGTH_BYTES : Z := 3.
Definition NODE_UTREEXO : Z := Z.shiftl 1 12.
Definition FILTER_TYPE_UTREEXO : Z := 1.
Definition HANDSHAKE_TIMEOUT : Z := from_secs 10.
Definition I64_MAX : Z := 2 ^ 63 - 1.
Definition I32_MAX : Z := 2 ^ 31 - 1.

(** ** Names of software *)

Definition slash : Ascii.ascii := Ascii.ascii_of_nat 47.
Definition colon : Ascii.ascii := Ascii.ascii_of_nat 58.
Definition split_char (c : Ascii.ascii) : string -> list string :=
  fix go s := match s with
  | EmptyString => [EmptyString]
  | String d s => if Ascii.eqb c d then EmptyString :: go s
                  else match go s with w :: ws => String d w :: ws | [] => [String d EmptyString] end
  end.
Definition is_name_byte (b : Z) : bool :=
  (48 <=? b) && (b <=? 57) || (65 <=? b) && (b <=? 90) || (97 <=? b) && (b <=? 122) || (b =? 45) || (b =? 95) || (b =? 46).

Definition classify_user_agent (user_agent : string) : string :=
  let component := default user_agent (List.find (fun c => negb (bool_decide (c = ""%string))) (split_char slash user_agent)) in
  let software := default component (head (split_char colon component)) in
  let valid := negb (bool_decide (software = ""%string)) && (String.length software <=? 32)%nat
    && forallb is_name_byte (str_bytes software) in
  if valid then software else "Unknown"%string.

(** [select_bitmap]: the values whose bit is set; a bit beyond the bitmap is not. *)
Definition bit_set (bitmap : bytes) (index : nat) : bool :=
  match bitmap !! (index / 8)%nat with
  | Some byte => negb (Z.land byte (shl 8 1 (Z.of_nat (index mod 8))) =? 0)
  | None => false
  end.
Definition select_bitmap {T} (values : list T) (bitmap : bytes) : list T :=
  snd <$> base.filter (fun iv => bit_set bitmap iv.1 = true) (imap pair values).

Section Peer.
Context `{BitcoinCodec} `{P2pCodec} `{KvStore} `{HeightsDb} `{Bip324}.

Definition MAX_WRITE_BUFFER_SIZE : Z := encryption_buffer_len MAX_PACKET_SIZE.

Inductive HandshakeState :=
| AwaitingKey (handshake : SentKey)
| AwaitingGarbage (handshake : SentVersion)
| AwaitingVersion (owner : bytes) (handshake : option ReceivedGarbage) (packet_size : option Z).

Record Peer := {
  connected_at : Z;
  handshake : option HandshakeState;
  handshake_bytes : Z;
  announced_software : option string;
  handshake_packets : Z;
  inbound : option InboundCipher;
  outbound : option OutboundCipher;
  packet_size : option Z;
  rate_limiter : MessageRateLimiter;
  read_buffer : bytes;
  read_position : Z;
  write_buffer : bytes;
  write_position : Z
}.

Definition with_handshake (p : Peer) (h : option HandshakeState) : Peer :=
  {| connected_at := connected_at p; handshake := h; handshake_bytes := handshake_bytes p; announced_software := announced_software p;
     handshake_packets := handshake_packets p; inbound := inbound p; outbound := outbound p; packet_size := packet_size p;
     rate_limiter := rate_limiter p; read_buffer := read_buffer p; read_position := read_position p;
     write_buffer := write_buffer p; write_position := write_position p |}.
Definition with_budget (p : Peer) (bytes packets : Z) : Peer :=
  {| connected_at := connected_at p; handshake := handshake p; handshake_bytes := bytes; announced_software := announced_software p;
     handshake_packets := packets; inbound := inbound p; outbound := outbound p; packet_size := packet_size p;
     rate_limiter := rate_limiter p; read_buffer := read_buffer p; read_position := read_position p;
     write_buffer := write_buffer p; write_position := write_position p |}.
Definition with_software (p : Peer) (s : option string) : Peer :=
  {| connected_at := connected_at p; handshake := handshake p; handshake_bytes := handshake_bytes p; announced_software := s;
     handshake_packets := handshake_packets p; inbound := inbound p; outbound := outbound p; packet_size := packet_size p;
     rate_limiter := rate_limiter p; read_buffer := read_buffer p; read_position := read_position p;
     write_buffer := write_buffer p; write_position := write_position p |}.
Definition with_ciphers (p : Peer) (i : option InboundCipher) (o : option OutboundCipher) : Peer :=
  {| connected_at := connected_at p; handshake := handshake p; handshake_bytes := handshake_bytes p; announced_software := announced_software p;
     handshake_packets := handshake_packets p; inbound := i; outbound := o; packet_size := packet_size p;
     rate_limiter := rate_limiter p; read_buffer := read_buffer p; read_position := read_position p;
     write_buffer := write_buffer p; write_position := write_position p |}.
Definition with_packet_size (p : Peer) (n : option Z) : Peer :=
  {| connected_at := connected_at p; handshake := handshake p; handshake_bytes := handshake_bytes p; announced_software := announced_software p;
     handshake_packets := handshake_packets p; inbound := inbound p; outbound := outbound p; packet_size := n;
     rate_limiter := rate_limiter p; read_buffer := read_buffer p; read_position := read_position p;
     write_buffer := write_buffer p; write_position := write_position p |}.
Definition with_limiter (p : Peer) (l : MessageRateLimiter) : Peer :=
  {| connected_at := connected_at p; handshake := handshake p; handshake_bytes := handshake_bytes p; announced_software := announced_software p;
     handshake_packets := handshake_packets p; inbound := inbound p; outbound := outbound p; packet_size := packet_size p;
     rate_limiter := l; read_buffer := read_buffer p; read_position := read_position p;
     write_buffer := write_buffer p; write_position := write_position p |}.
Definition with_input (p : Peer) (b : bytes) (pos : Z) : Peer :=
  {| connected_at := connected_at p; handshake := handshake p; handshake_bytes := handshake_bytes p; announced_software := announced_software p;
     handshake_packets := handshake_packets p; inbound := inbound p; outbound := outbound p; packet_size := packet_size p;
     rate_limiter := rate_limiter p; read_buffer := b; read_position := pos;
     write_buffer := write_buffer p; write_position := write_position p |}.
Definition with_output (p : Peer) (b : bytes) (pos : Z) : Peer :=
  {| connected_at := connected_at p; handshake := handshake p; handshake_bytes := handshake_bytes p; announced_software := announced_software p;
     handshake_packets := handshake_packets p; inbound := inbound p; outbound := outbound p; packet_size := packet_size p;
     rate_limiter := rate_limiter p; read_buffer := read_buffer p; read_position := read_position p;
     write_buffer := b; write_position := pos |}.

(** [Peer::new] with the clock and the entropy of the handshake. *)
Definition new (magic entropy : bytes) (now : Z) : presult Peer :=
  '(h, key) ← or_err Protocol (new_handshake magic entropy);
  Good {| connected_at := now; handshake := Some (AwaitingKey h); handshake_bytes := 0; announced_software := None;
          handshake_packets := 0; inbound := None; outbound := None; packet_size := None; rate_limiter := new_limiter now;
          read_buffer := []; read_position := 0; write_buffer := key; write_position := 0 |}.

Definition is_established (p : Peer) : bool :=
  match handshake p, inbound p, outbound p with None, Some _, Some _ => true | _, _, _ => false end.

Definition take_announced_software (p : Peer) : Peer * option string := (with_software p None, announced_software p).

Definition handshake_expired (p : Peer) (now : Z) : bool :=
  negb (is_established p) && (HANDSHAKE_TIMEOUT <=? duration_since now (connected_at p)).

(** ** Budgets *)

Definition USIZE_MAX : Z := 2 ^ 64 - 1.

Definition check_handshake_budget (p : Peer) (additional : Z) : presult Z :=
  match checked_add 64 (handshake_bytes p) additional with
  | None => Bad (HandshakeTooLarge USIZE_MAX)
  | Some total => if MAX_HANDSHAKE_BYTES <? total then Bad (HandshakeTooLarge total) else Good total
  end.

Definition record_handshake_bytes (additional : Z) : PR Peer unit := fun p =>
  match check_handshake_budget p additional with
  | Good total => (with_budget p total (handshake_packets p), Good tt)
  | Bad e => (p, Bad e)
  end.

(** ** Buffers *)

(** [buffer.get(from..to)] *)
Definition get_range (buffer : bytes) (from to : Z) : option bytes :=
  if (from <=? to) && (to <=? zlength buffer) then Some (slice buffer from to) else None.

Definition compact_read_buffer_fully (p : Peer) : Peer :=
  if read_position p =? 0 then p else with_input p (zdrop (read_position p) (read_buffer p)) 0.

Definition compact_read_buffer (p : Peer) : Peer :=
  if read_position p =? zlength (read_buffer p) then with_input p [] 0
  else if READ_BUFFER_SIZE <=? read_position p then compact_read_buffer_fully p
  else p.

(** ** The handshake

    An error drops the peer, so what it leaves in the buffers does not matter. *)

Definition advance_key (h : SentKey) : PR Peer bool := fun p =>
  let key_end := read_position p + BIP324_KEY_SIZE in
  match get_range (read_buffer p) (read_position p) key_end with
  | None => (with_handshake p (Some (AwaitingKey h)), Good false)
  | Some remote_key =>
      (p_modify (fun p => with_input p (read_buffer p) key_end);;
       record_handshake_bytes BIP324_KEY_SIZE;;
       received ← p_lift (or_err Protocol (receive_key h remote_key));
       '(sent, version) ← p_lift (or_err Protocol (send_version received));
       p_modify (fun p => compact_read_buffer_fully
         (with_handshake (with_output p (write_buffer p ++ version) (write_position p)) (Some (AwaitingGarbage sent))));;
       mret true) p
  end.

Definition advance_garbage (h : SentVersion) : PR Peer bool := fun p =>
  let p := compact_read_buffer_fully p in
  match read_buffer p with
  | [] => (with_handshake p (Some (AwaitingGarbage h)), Good false)
  | input =>
      let p := with_input p [] (read_position p) in
      match receive_garbage h input with
      | Ok (inl (received, consumed_bytes)) =>
          (record_handshake_bytes consumed_bytes;;
           p_lift (guard_ (consumed_bytes <=? zlength input) Panicked);;
           p_modify (fun p => with_handshake (with_input p (zdrop consumed_bytes input) (read_position p))
             (Some (AwaitingVersion input (Some received) None)));;
           mret true) p
      | Ok (inr h) =>
          (p_get ≫= fun p => p_lift (check_handshake_budget p (zlength input));;
           p_modify (fun p => with_handshake (with_input p input (read_position p)) (Some (AwaitingGarbage h)));;
           mret false) p
      | Err e => (p, Bad (Protocol e))
      end
  end.

(** The length of the next version or decoy packet, once its bytes are there. *)
Definition version_packet_size (received : option ReceivedGarbage) (packet_size : option Z)
  : PR Peer (option (option ReceivedGarbage * Z)) := fun p =>
  match packet_size with
  | Some n => (p, Good (Some (received, n)))
  | None =>
      let length_end := read_position p + NUM_LENGTH_BYTES in
      match get_range (read_buffer p) (read_position p) length_end with
      | None => (p, Good None)
      | Some encrypted_length =>
          (h ← p_lift (match received with Some h => Good h | None => Bad InvalidHandshakeState end);
           '(decrypted_size, h) ← p_lift (or_err Protocol (handshake_packet_len h encrypted_length));
           p_lift (guard_ (negb (MAX_INBOUND_PACKET_SIZE <? decrypted_size)) (MessageTooLarge decrypted_size));;
           p_get ≫= fun p => p_lift (check_handshake_budget p (NUM_LENGTH_BYTES + decrypted_size));;
           p_modify (fun p => with_input p (read_buffer p) length_end);;
           mret (Some (Some h, decrypted_size))) p
      end
  end.

Definition advance_version (owner : bytes) (received : option ReceivedGarbage) (packet_size : option Z) : PR Peer bool :=
  sized ← version_packet_size received packet_size;
  match sized with
  | None => p_modify (fun p => with_handshake p (Some (AwaitingVersion owner received packet_size)));; mret false
  | Some (received, packet_size) =>
      p ← p_get;
      let packet_end := read_position p + packet_size in
      if zlength (read_buffer p) <? packet_end then
        p_modify (fun p => with_handshake p (Some (AwaitingVersion owner received (Some packet_size))));; mret false
      else
        let packets := saturating_add 64 (handshake_packets p) 1 in
        p_modify (fun p => with_budget p (handshake_bytes p) packets);;
        p_lift (guard_ (negb (MAX_HANDSHAKE_PACKETS <? packets)) (TooManyHandshakePackets packets));;
        record_handshake_bytes (NUM_LENGTH_BYTES + packet_size);;
        h ← p_lift (match received with Some h => Good h | None => Bad InvalidHandshakeState end);
        outcome ← p_lift (or_err Protocol (receive_version h (slice (read_buffer p) (read_position p) packet_end)));
        p_modify (fun p => compact_read_buffer_fully (with_input p (read_buffer p) packet_end));;
        p_modify (fun p =>
          match outcome with
          | inl (i, o) => with_handshake (with_ciphers p (Some i) (Some o)) None
          | inr next => with_handshake p (Some (AwaitingVersion owner (Some next) None))
          end);;
        mret true
  end.

(** The state is taken out first: an error leaves none behind. *)
Definition advance_handshake : PR Peer bool := fun p =>
  match handshake p with
  | None => (p, Bad InvalidHandshakeState)
  | Some state =>
      let p := with_handshake p None in
      match state with
      | AwaitingKey h => advance_key h p
      | AwaitingGarbage h => advance_garbage h p
      | AwaitingVersion owner received packet_size => advance_version owner received packet_size p
      end
  end.

(** ** Sending *)

Definition send_payload (payload : bytes) : PR Peer unit :=
  p_lift (guard_ (negb (MAX_PACKET_SIZE <? zlength payload)) (MessageTooLarge (zlength payload)));;
  p ← p_get;
  let packet_size := encryption_buffer_len (zlength payload) in
  let pending := zlength (write_buffer p) - write_position p in
  p_lift (guard_ (negb (MAX_WRITE_BUFFER_SIZE <? saturating_add 64 pending packet_size)) WriteBufferFull);;
  p_modify (fun p => if 0 <? write_position p then with_output p (zdrop (write_position p) (write_buffer p)) 0 else p);;
  p ← p_get;
  outbound ← p_lift (match outbound p with Some o => Good o | None => Bad HandshakeIncomplete end);
  let '(outbound, packet) := encrypt outbound payload in
  p_modify (fun p => with_ciphers p (inbound p) (Some outbound));;
  packet ← p_lift (or_err Protocol packet);
  p_modify (fun p => with_output p (write_buffer p ++ packet) (write_position p)).

Definition send_message (message : NetworkMessage) : PR Peer unit :=
  payload ← p_lift (encode (Bitcoin message)); send_payload payload.

(** ** Requests *)

(** What a worker shares with its peers, besides the stores that answers to header requests fill. *)
Record WorkerContext := {
  proof_backend : ProofStore.ProofStore.ProofFile;
  proof_index : ProofStore.ProofStore.BlocksIndex;
  header_source : option BlockSource;
  put_io : Z -> JournalFile.JournalFile.Io
}.

(** A connection with the shared stores. *)
Record Conn := { peer : Peer; stores : Stores }.

Definition on_peer {A} (m : PR Peer A) : PR Conn A := p_on peer (fun c p => {| peer := p; stores := stores c |}) m.
Definition on_stores {A} (m : PR Stores A) : PR Conn A := p_on stores (fun c s => {| peer := peer c; stores := s |}) m.

Context (ctx : WorkerContext).

Definition load_height : presult Z := or_err Storage (ProofStore.ProofStore.load_height (proof_index ctx)).

Definition advertised_services : Z := Z.lor (Z.lor (Z.shiftl 1 3) (Z.shiftl 1 11)) NODE_UTREEXO.

Definition handle_get_data (inventory : list Inventory) : PR Conn unit :=
  p_lift (guard_ (negb (MAX_GETDATA_ITEMS <? zlength inventory)) (TooManyInventoryItems (zlength inventory)));;
  if bool_decide (length inventory = 0%nat) then mret tt else on_peer (send_message (NotFound inventory)).

Definition version_reply (version : VersionMessage) (height : Z) : VersionMessage :=
  {| Wire.version := 70016; services := advertised_services; timestamp := Z.min (timestamp version + 1) I64_MAX;
     receiver := sender version; sender := receiver version; nonce := wrap 64 (nonce version + 100);
     user_agent := "/bridge:0.1.3/"; start_height := if height <=? I32_MAX then height else I32_MAX; relay := false |}.

Definition handle_bitcoin_message (request : NetworkMessage) : PR Conn unit :=
  match request with
  | Ping nonce => on_peer (send_message (Pong nonce))
  | GetData inventory => handle_get_data inventory
  | GetHeaders request =>
      height ← p_lift load_height;
      headers ← on_stores (headers_for_request (put_io ctx) (header_source ctx) (default U32_MAX (try_uint 32 height)) request);
      on_peer (send_message (Headers headers))
  | Version version =>
      on_peer (p_modify (fun p => match announced_software p with
        | None => with_software p (Some (classify_user_agent (user_agent version))) | Some _ => p end));;
      height ← p_lift load_height;
      on_peer (send_message (Version (version_reply version height)));;
      on_peer (send_message Verack)
  | GetCFilters_ request =>
      if gcf_filter_type request =? FILTER_TYPE_UTREEXO then
        c ← p_get;
        accumulator ← p_lift (or_err Storage (ChainView.get_acc (chainview (stores c)) (gcf_stop_hash request)));
        match accumulator with
        | Some accumulator => on_peer (send_message (CFilter_
            {| cf_filter_type := FILTER_TYPE_UTREEXO; cf_block_hash := gcf_stop_hash request; cf_filter := accumulator |}))
        | None => mret tt
        end
      else mret tt
  | _ => mret tt
  end.

(** The parts of the stored proof that were asked for. *)
Definition requested_proof (request : GetUtreexoProof) (stored : CompactBlockProof) : UtreexoProof :=
  {| up_block_hash := gup_block_hash request;
     proof_hashes := if negb (Z.land (request_mask request) PROOF_HASHES =? 0) then hashes (proof stored)
                     else select_bitmap (hashes (proof stored)) (proof_bitmap request);
     target_locations := if negb (Z.land (request_mask request) TARGETS =? 0) then targets (proof stored) else [];
     leaf_data := if negb (Z.land (request_mask request) LEAF_DATA =? 0) then leaves stored
                  else select_bitmap (leaves stored) (leaf_bitmap request) |}.

Definition handle_get_utreexo_proof (request : GetUtreexoProof) : PR Conn unit :=
  p_lift (guard_ (negb ((MAX_PROOF_BITMAP_BYTES <? zlength (proof_bitmap request)) || (MAX_PROOF_BITMAP_BYTES <? zlength (leaf_bitmap request))))
    ProofBitmapTooLarge);;
  index ← p_lift (or_err Storage (ProofStore.ProofStore.get_index (proof_index ctx) (gup_block_hash request)));
  match index with
  | None => mret tt
  | Some index =>
      match ProofStore.ProofStore.get_proof (proof_backend ctx) index with
      | None => mret tt
      | Some stored_proof =>
          payload ← p_lift (encode (UtreexoProof_ (requested_proof request stored_proof)));
          on_peer (send_payload payload)
      end
  end.

Definition handle_message (request : V2Message) : PR Conn unit :=
  match request with
  | Bitcoin request => handle_bitcoin_message request
  | GetUtreexoProof_ request => handle_get_utreexo_proof request
  | UtreexoProof_ _ => mret tt
  | Ignored => mret tt
  end.

(** ** Packets *)

(** The length of the next packet, once its bytes are there. *)
Definition next_packet_size (inbound : InboundCipher) (p : Peer) : Peer * InboundCipher * presult (option Z) :=
  match packet_size p with
  | Some n => (p, inbound, Good (Some n))
  | None =>
      let length_end := read_position p + NUM_LENGTH_BYTES in
      match get_range (read_buffer p) (read_position p) length_end with
      | None => (p, inbound, Good None)
      | Some encrypted_length =>
          let '(n, inbound) := decrypt_packet_len inbound encrypted_length in
          if MAX_INBOUND_PACKET_SIZE <? n then (p, inbound, Bad (MessageTooLarge n))
          else (with_input (with_packet_size p (Some n)) (read_buffer p) length_end, inbound, Good (Some n))
      end
  end.

(** The request of a decrypted packet: none for a decoy and for one over the rate. *)
Definition packet_request (packet_type : PacketType) (decision : RateLimitDecision) (message : bytes) : presult (option V2Message) :=
  match decision with
  | Ban => Bad RateLimitExceeded
  | Allow =>
      match packet_type with
      | Genuine => match message with [] => Bad Panicked | _ :: contents => r ← decode contents; Good (Some r) end
      | Decoy => Good None
      end
  | Drop_ => Good None
  end.

(** One turn of the loop: [None] when more bytes are needed. *)
Definition process_packet (now : Z) (inbound : InboundCipher) (c : Conn) : Conn * InboundCipher * presult bool :=
  let '(p, inbound, size) := next_packet_size inbound (peer c) in
  let c := {| peer := p; stores := stores c |} in
  match size with
  | Bad e => (c, inbound, Bad e)
  | Good None => (c, inbound, Good false)
  | Good (Some n) =>
      let packet_end := read_position p + n in
      if zlength (read_buffer p) <? packet_end then (c, inbound, Good false)
      else
        match decrypt_in_place inbound (slice (read_buffer p) (read_position p) packet_end) with
        | (inbound, Err e) => (c, inbound, Bad (Protocol e))
        | (inbound, Ok (packet_type, message)) =>
            let '(limiter, decision) := check (rate_limiter p) now in
            let p := with_limiter p limiter in
            match packet_request packet_type decision message with
            | Bad e => ({| peer := p; stores := stores c |}, inbound, Bad e)
            | Good request =>
                let p := with_input (with_packet_size p None) (read_buffer p) packet_end in
                let c := {| peer := p; stores := stores c |} in
                match request with
                | None => (c, inbound, Good true)
                | Some request =>
                    let '(c, r) := handle_message request c in
                    (c, inbound, _ ← r; Good true)
                end
            end
        end
  end.

(** A turn that goes on has used up a packet, so there are no more turns than bytes, and one. *)
Fixpoint packet_loop (fuel : nat) (now : Z) (inbound : InboundCipher) (c : Conn) : Conn * InboundCipher * presult unit :=
  match fuel with
  | O => (c, inbound, Bad (Protocol out_of_fuel))
  | S fuel =>
      match process_packet now inbound c with
      | (c, inbound, Bad e) => (c, inbound, Bad e)
      | (c, inbound, Good false) => (c, inbound, Good tt)
      | (c, inbound, Good true) => packet_loop fuel now inbound c
      end
  end.

Definition packet_fuel (p : Peer) : nat := S (S (length (read_buffer p))).

Definition process_messages (now : Z) : PR Conn unit := fun c =>
  match inbound (peer c) with
  | None => (c, Bad InvalidHandshakeState)
  | Some i =>
      let c := {| peer := with_ciphers (peer c) None (outbound (peer c)); stores := stores c |} in
      let '(c, i, result) := packet_loop (packet_fuel (peer c)) now i c in
      ({| peer := compact_read_buffer (with_ciphers (peer c) (Some i) (outbound (peer c))); stores := stores c |}, result)
  end.

(** ** Input and output *)

(** Every turn that goes on leaves the key, leaves the garbage, or counts a packet. *)
Fixpoint handshake_loop (fuel : nat) : PR Peer unit := fun p =>
  match fuel with
  | O => (p, Bad (Protocol out_of_fuel))
  | S fuel =>
      match handshake p with
      | None => (p, Good tt)
      | Some _ => (continue ← advance_handshake; if continue : bool then handshake_loop fuel else mret tt) p
      end
  end.

Definition HANDSHAKE_TURNS : nat := 68.

Definition process_input (now : Z) : PR Conn unit :=
  on_peer (handshake_loop HANDSHAKE_TURNS);;
  c ← p_get;
  match handshake (peer c) with
  | Some _ => mret tt
  | None => process_messages now
  end.

(** What reading from or writing to the socket returns; an exhausted list stands for [WouldBlock]. *)
Inductive ReadOutcome := Read (bs : bytes) | ReadWouldBlock | ReadInterrupted | ReadError (e : string).
Inductive WriteOutcome := Written (n : Z) | WriteWouldBlock | WriteInterrupted | WriteError (e : string).

Fixpoint read_loop (now : Z) (bytes_read : Z) (stream : list ReadOutcome) : PR Conn unit :=
  if bytes_read <? MAX_READ_BYTES_PER_EVENT then
    match stream with
    | [] | ReadWouldBlock :: _ => mret tt
    | ReadInterrupted :: stream => read_loop now bytes_read stream
    | ReadError e :: _ => p_lift (Bad (Wire.Io e))
    | Read bs :: stream =>
        if zlength bs =? 0 then p_lift (Bad Disconnected)
        else
          on_peer (p_modify (fun p => with_input p (read_buffer p ++ bs) (read_position p)));;
          process_input now;;
          read_loop now (bytes_read + zlength bs) stream
    end
  else mret tt.
Definition on_readable (now : Z) (stream : list ReadOutcome) : PR Conn unit := read_loop now 0 stream.

Definition wants_write (p : Peer) : bool := write_position p <? zlength (write_buffer p).

Fixpoint on_writable (stream : list WriteOutcome) : PR Peer unit := fun p =>
  if wants_write p then
    match stream with
    | [] | WriteWouldBlock :: _ => (p, Good tt)
    | WriteInterrupted :: stream => on_writable stream p
    | WriteError e :: _ => (p, Bad (Wire.Io e))
    | Written n :: stream =>
        if n =? 0 then (p, Bad Disconnected) else on_writable stream (with_output p (write_buffer p) (write_position p + n))
    end
  else (with_output p [] 0, Good tt).

End Peer.

End Peer.
