(* ===== verification/PeerSafety.v ===== *)
(** What holds of one connection ([Peer]): its buffers and budgets are bounded, the loops end, the way the stream
    is cut does not matter, a proof request gets the parts it asks for, and a name in the log is safe. *)

From S2P Require Import Prelude Bytes Files JournalFile Udata ProofStore HeaderIndex Admission Wire Headers Peer.
Import JournalFile.JournalFile Udata.Udata Wire.Wire V2Codec V2CodecSpec Headers.HeaderRequests Admission.Admission Files.Files Peer.Peer.

(** What [bip324] documents: an encrypted packet has the announced size, that is the payload's and at most 20 bytes; the sizes
    are unsigned; the key has 64 bytes and what follows it (the garbage terminator and the version packet) no more. *)
Class Bip324Laws `{Bip324} := {
  encryption_len : forall n, 0 <= n -> n <= encryption_buffer_len n <= n + 20;
  encrypt_length : forall o payload o' packet, encrypt o payload = (o', Ok packet) -> zlength packet = encryption_buffer_len (zlength payload);
  key_length : forall magic entropy h key, new_handshake magic entropy = Ok (h, key) -> zlength key = 64;
  version_length : forall r h version, send_version r = Ok (h, version) -> zlength version <= 64;
  consumed_nonneg : forall h input g n, receive_garbage h input = Ok (inl (g, n)) -> 0 <= n;
  handshake_len_nonneg : forall g bs n g', handshake_packet_len g bs = Ok (n, g') -> 0 <= n;
  packet_len_nonneg : forall i bs, 0 <= (decrypt_packet_len i bs).1
}.

Module PeerSafety.

(** The first step of a computation that returned. *)
Tactic Notation "pstep" hyp(E) "as" ident(x) ident(E1) :=
  let s1 := fresh "st" in apply pr_bind_inv in E as (s1 & [x|] & E1 & E); [|by destruct E].
Ltac plift E := unfold p_lift in E; injection E as <- E.

Section Safety.
Context `{BitcoinCodec} `{P2pCodec} `{KvStore} `{HeightsDb} `{Bip324Laws}.

Lemma write_buffer_room : 64 + 64 <= MAX_WRITE_BUFFER_SIZE.
Proof. pose proof (encryption_len MAX_PACKET_SIZE ltac:(done)). unfold MAX_WRITE_BUFFER_SIZE, MAX_PACKET_SIZE in *. lia. Qed.

(** Buffers never hold more than this, even while input is being taken in. *)
Definition INPUT_LIMIT : Z := MAX_HANDSHAKE_BYTES + READ_BUFFER_SIZE.

Record base_ok (p : Peer) : Prop := {
  iv_read : 0 <= read_position p <= zlength (read_buffer p);
  iv_read_len : zlength (read_buffer p) <= INPUT_LIMIT;
  iv_write : 0 <= write_position p <= zlength (write_buffer p);
  iv_write_len : zlength (write_buffer p) <= MAX_WRITE_BUFFER_SIZE;
  iv_bytes : 0 <= handshake_bytes p <= MAX_HANDSHAKE_BYTES;
  iv_packets : 0 <= handshake_packets p <= MAX_HANDSHAKE_PACKETS;
  iv_limiter : limiter_ok (rate_limiter p);
  iv_size : forall n, packet_size p = Some n -> 0 <= n <= MAX_INBOUND_PACKET_SIZE
}.

(** What belongs to the state of the handshake. *)
Definition state_ok (p : Peer) (h : option HandshakeState) : Prop :=
  match h with
  | Some (AwaitingKey _) => zlength (write_buffer p) <= 64
  | Some (AwaitingGarbage _) => True
  | Some (AwaitingVersion owner g n) => zlength owner <= INPUT_LIMIT /\ is_Some g
      /\ forall k, n = Some k -> 0 <= k <= MAX_INBOUND_PACKET_SIZE
  | None => is_Some (inbound p) /\ is_Some (outbound p)
  end.

Definition peer_ok (p : Peer) : Prop := base_ok p /\ state_ok p (handshake p).

(** Between two events the unread input is less than what the state waits for. *)
Definition settled (p : Peer) : Prop :=
  match handshake p with
  | Some (AwaitingKey _) => zlength (read_buffer p) < read_position p + BIP324_KEY_SIZE /\ read_position p = 0
  | Some (AwaitingGarbage _) => zlength (read_buffer p) <= MAX_HANDSHAKE_BYTES /\ read_position p = 0
  | Some (AwaitingVersion _ _ n) =>
      zlength (read_buffer p) < read_position p + default NUM_LENGTH_BYTES n
      /\ read_position p <= match n with Some _ => NUM_LENGTH_BYTES | None => 0 end
  | None => (zlength (read_buffer p) < read_position p + default NUM_LENGTH_BYTES (packet_size p) \/ zlength (read_buffer p) = 0)
      /\ read_position p < READ_BUFFER_SIZE
  end.

Lemma get_range_Some buffer a b r : get_range buffer a b = Some r -> a <= b <= zlength buffer /\ r = slice buffer a b.
Proof.
  unfold get_range. destruct (Z.leb_spec a b), (Z.leb_spec b (zlength buffer)); cbn; intros E; try done. injection E as <-. split; [lia|done].
Qed.
Lemma get_range_None buffer a b : a <= b -> get_range buffer a b = None -> zlength buffer < b.
Proof. unfold get_range. destruct (Z.leb_spec a b), (Z.leb_spec b (zlength buffer)); cbn; intros; try done; lia. Qed.

Lemma zlength_zdrop {A} n (l : list A) : 0 <= n <= zlength l -> zlength (zdrop n l) = zlength l - n.
Proof. unfold zlength, zdrop. rewrite length_drop. lia. Qed.

Lemma compact_fully_ok p : base_ok p -> base_ok (compact_read_buffer_fully p) /\ read_position (compact_read_buffer_fully p) = 0
  /\ zlength (read_buffer (compact_read_buffer_fully p)) = zlength (read_buffer p) - read_position p
  /\ handshake (compact_read_buffer_fully p) = handshake p /\ write_buffer (compact_read_buffer_fully p) = write_buffer p.
Proof.
  intros Hb. unfold compact_read_buffer_fully. destruct (Z.eqb_spec (read_position p) 0) as [E|E].
  - split_and!; [done|done|lia|done|done].
  - destruct Hb. cbn. rewrite zlength_zdrop by lia. split_and!; try done. split; cbn; try done; rewrite ?zlength_zdrop by lia; lia.
Qed.

Lemma check_budget_good p n total : 0 <= n -> base_ok p -> check_handshake_budget p n = Good total ->
  total = handshake_bytes p + n /\ total <= MAX_HANDSHAKE_BYTES.
Proof.
  intros Hn Hb. unfold check_handshake_budget. destruct (checked_add _ _ _) as [t|] eqn:E; [|done].
  apply checked_add_Some in E as [-> _]. destruct (Z.ltb_spec MAX_HANDSHAKE_BYTES (handshake_bytes p + n)); [done|].
  intros [= <-]. split; [done|lia].
Qed.

Lemma record_bytes_good p p' n u : 0 <= n -> base_ok p -> record_handshake_bytes n p = (p', Good u) ->
  base_ok p' /\ p' = with_budget p (handshake_bytes p + n) (handshake_packets p).
Proof.
  intros Hn Hb E. unfold record_handshake_bytes in E. destruct (check_handshake_budget p n) as [t|] eqn:Et; [|done].
  apply check_budget_good in Et as [-> Hle]; [|done|done]. injection E as <-. split; [|done]. destruct Hb. split; cbn; try done. lia.
Qed.

(** [base_ok] looks at buffers, budgets and sizes only. *)
Lemma base_ok_same p q : base_ok p -> read_buffer q = read_buffer p -> read_position q = read_position p ->
  write_buffer q = write_buffer p -> write_position q = write_position p -> handshake_bytes q = handshake_bytes p ->
  handshake_packets q = handshake_packets p -> rate_limiter q = rate_limiter p -> packet_size q = packet_size p -> base_ok q.
Proof. intros [] E1 E2 E3 E4 E5 E6 E7 E8. split; rewrite ?E1, ?E2, ?E3, ?E4, ?E5, ?E6, ?E7, ?E8; done. Qed.

Lemma base_ok_input p b pos : base_ok p -> 0 <= pos <= zlength b -> zlength b <= INPUT_LIMIT -> base_ok (with_input p b pos).
Proof. intros [] ??. by split. Qed.

(** ** The handshake *)

Lemma advance_key_ok h p p' b : base_ok p -> zlength (write_buffer p) <= 64 ->
  advance_key h p = (p', Good b) ->
  peer_ok p' /\ (if b then exists g, handshake p' = Some (AwaitingGarbage g)
    else read_position p = 0 -> settled p').
Proof.
  intros Hb Hw E. pose proof write_buffer_room as Hmax. unfold advance_key in E. destruct (get_range _ _ _) as [key|] eqn:Eg.
  - apply get_range_Some in Eg as [Hr ->]. pstep E as u1 Em. injection Em as <- _. pstep E as u2 Em.
    apply record_bytes_good in Em as [Hb1 ->]; [|done|apply base_ok_input; [done|destruct Hb; unfold BIP324_KEY_SIZE in *; lia|by destruct Hb]].
    pstep E as r Em. plift Em. pstep E as hv Ev. plift Ev. apply or_err_good in Ev. destruct hv as [h' version].
    apply version_length in Ev. pstep E as u3 Em2. injection Em2 as <- _. injection E as <- <-.
    match goal with |- context [compact_read_buffer_fully ?q] => assert (base_ok q) as Hq end.
    { destruct Hb1. split; cbn in *; rewrite ?zlength_app; try done; try lia. pose proof (zlength_nonneg version). lia. }
    pose proof (compact_fully_ok _ Hq) as (Hc & Hpos & Hlen & Hh & Hwb). split; [split; [done|by rewrite Hh]|].
    rewrite Hh. by eexists.
  - injection E as <- <-. apply get_range_None in Eg; [|unfold BIP324_KEY_SIZE; lia].
    split; [split; [by eapply base_ok_same|done]|]. intros Hpos. split; [done|done].
Qed.

Lemma advance_garbage_ok h p p' b : base_ok p -> advance_garbage h p = (p', Good b) ->
  peer_ok p' /\ (if b then exists o g, handshake p' = Some (AwaitingVersion o g None) /\ handshake_packets p' = handshake_packets p
      /\ read_position p' = 0
    else settled p').
Proof.
  intros Hb E. unfold advance_garbage in E. pose proof (compact_fully_ok _ Hb) as (Hc & Hpos & Hlen & Hh & Hwb).
  assert (handshake_packets (compact_read_buffer_fully p) = handshake_packets p) as Hpk
    by (unfold compact_read_buffer_fully; by destruct (_ =? _)).
  set (q := compact_read_buffer_fully p) in *. destruct (read_buffer q) as [|x input] eqn:Er.
  { injection E as <- <-. split; [split; [by eapply base_ok_same|done]|]. split; cbn; rewrite ?Er; done. }
  assert (zlength (x :: input) <= INPUT_LIMIT) as Hl by (rewrite <- Er; by destruct Hc). set (l := x :: input) in *.
  assert (base_ok (with_input q [] (read_position q))) as Hq by (apply base_ok_input; [done|by rewrite Hpos|done]).
  destruct (receive_garbage h l) as [[[g n]|h']|] eqn:Eg; [| |done].
  - pstep E as u1 Em. apply record_bytes_good in Em as [Hb1 ->]; [|by eapply consumed_nonneg|done].
    pstep E as u2 Eg2. plift Eg2. apply guard_good, Z.leb_le in Eg2. pstep E as u3 Em. injection Em as <- _. injection E as <- <-.
    apply consumed_nonneg in Eg. split.
    + split; [|cbn; split_and!; [done|by eexists|done]]. eapply base_ok_same; [apply (base_ok_input _ (zdrop n l) 0 Hb1)|..]; cbn; try done.
      * split; [done|apply zlength_nonneg].
      * rewrite zlength_zdrop by lia. lia.
    + eexists _, _. cbn. by rewrite Hpos, Hpk.
  - pstep E as q2 Em. injection Em as <- <-. pstep E as t Et. plift Et. apply check_budget_good in Et as [-> Hle]; [|apply zlength_nonneg|done].
    pstep E as u Em. injection Em as <- _. injection E as <- <-. split.
    + split; [|done]. eapply base_ok_same; [apply (base_ok_input _ l 0 Hq)|..]; cbn; done.
    + cbn. rewrite Hpos. split; [|done]. destruct Hq as [_ _ _ _ Hby _ _ _]. cbn in Hby, Hle. lia.
Qed.

Lemma advance_version_ok owner g n p p' b : base_ok p -> zlength owner <= INPUT_LIMIT -> is_Some g ->
  (forall k, n = Some k -> 0 <= k <= MAX_INBOUND_PACKET_SIZE) -> advance_version owner g n p = (p', Good b) ->
  peer_ok p' /\ (if b then handshake p' = None
      \/ (exists g', handshake p' = Some (AwaitingVersion owner g' None)) /\ handshake_packets p' = handshake_packets p + 1 /\ read_position p' = 0
    else read_position p <= match n with Some _ => NUM_LENGTH_BYTES | None => 0 end -> settled p').
Proof.
  intros Hb Ho [g0 ->] Hn E. unfold advance_version in E. pstep E as sized Es.
  assert (base_ok st /\ write_buffer st = write_buffer p /\ handshake_packets st = handshake_packets p /\
    match sized with
    | None => st = p /\ n = None /\ zlength (read_buffer p) < read_position p + NUM_LENGTH_BYTES
    | Some (g1, k) => is_Some g1 /\ 0 <= k <= MAX_INBOUND_PACKET_SIZE
        /\ (n = Some k /\ st = p \/ n = None /\ read_position st = read_position p + NUM_LENGTH_BYTES)
    end) as (Hb1 & Hw1 & Hp1 & Hs).
  { unfold version_packet_size in Es. destruct n as [k|].
    { injection Es as <- <-. split_and!; [done|done|done|by eexists|by apply Hn|by apply Hn|by left]. }
    destruct (get_range _ _ _) as [el|] eqn:Eg.
    2: { injection Es as <- <-. apply get_range_None in Eg; [done|unfold NUM_LENGTH_BYTES; lia]. }
    apply get_range_Some in Eg as [Hr ->]. pstep Es as h Eh. plift Eh. subst h.
    pstep Es as kh Ek. plift Ek. apply or_err_good in Ek. destruct kh as [k h]. apply handshake_len_nonneg in Ek.
    pstep Es as u1 Eu. plift Eu. apply guard_good, negb_true_iff, Z.ltb_ge in Eu.
    pstep Es as q Eq. injection Eq as <- <-. pstep Es as t Et. plift Et. pstep Es as u2 Em. injection Em as <- _.
    injection Es as <- <-. split_and!; [|done|done|by eexists|lia|lia|right; done].
    apply base_ok_input; [done|destruct Hb; unfold NUM_LENGTH_BYTES in *; lia|by destruct Hb]. }
  destruct sized as [[g1 k]|].
  2: { destruct Hs as (-> & -> & Hlt). pstep E as u Em. injection Em as <- _. injection E as <- <-. split.
       - split; [by eapply base_ok_same|]. cbn. split_and!; [done|by eexists|done].
       - intros Hpos. by split. }
  destruct Hs as ([h ->] & Hk & Hcase). pstep E as q Eq. injection Eq as <- <-.
  destruct (Z.ltb_spec (zlength (read_buffer st)) (read_position st + k)).
  { pstep E as u Em. injection Em as <- _. injection E as <- <-. split.
    - split; [by eapply base_ok_same|]. cbn. split_and!; [done|by eexists|]. by intros ? [= <-].
    - intros Hpos. split; cbn; [done|]. destruct Hcase as [[-> ->]|[-> Hrp]]; unfold NUM_LENGTH_BYTES in *; lia. }
  pstep E as u1 Em. injection Em as <- _. pstep E as u2 Eu. plift Eu. apply guard_good, negb_true_iff, Z.ltb_ge in Eu.
  assert (saturating_add 64 (handshake_packets st) 1 = handshake_packets st + 1) as Ep.
  { unfold saturating_add, MAX_HANDSHAKE_PACKETS in *. lia. }
  pstep E as u3 Em. apply record_bytes_good in Em as [Hb2 ->]; [|unfold NUM_LENGTH_BYTES; lia|].
  2: { destruct Hb1. split; cbn; try done. rewrite Ep in *. lia. }
  pstep E as h1 Eh. plift Eh. pstep E as o Eo. plift Eo. pstep E as u4 Em. injection Em as <- _. pstep E as u5 Em. injection Em as <- _.
  injection E as <- <-. cbn in Hb2.
  match goal with |- context [compact_read_buffer_fully ?q] => assert (base_ok q) as Hq end.
  { apply base_ok_input; [done|destruct Hb1; cbn; lia|cbn; by destruct Hb1]. }
  pose proof (compact_fully_ok _ Hq) as (Hc & Hpos & Hlen & Hh & Hwb).
  match goal with |- context [compact_read_buffer_fully ?q] => assert (handshake_packets (compact_read_buffer_fully q) = handshake_packets q) as Hpk
    by (unfold compact_read_buffer_fully; by destruct (_ =? _)); set (r := compact_read_buffer_fully q) in * end.
  cbn in Hpk. rewrite Ep, Hp1 in Hpk. destruct o as [[i o]|next].
  - split; [split; [by eapply base_ok_same|cbn; split; by eexists]|]. by left.
  - split; [split; [by eapply base_ok_same|cbn; split_and!; [done|by eexists|done]]|]. right. cbn. split_and!; [by eexists|done|done].
Qed.

(** How many turns the handshake can still take. *)
Definition turns_left (p : Peer) : Z :=
  match handshake p with
  | Some (AwaitingKey _) => 67
  | Some (AwaitingGarbage _) => 66
  | Some (AwaitingVersion _ _ _) => 65 - handshake_packets p
  | None => 0
  end.

(** The unread input is at the start of the buffer when a turn begins, up to a length already read. *)
Definition aligned (p : Peer) : Prop :=
  match handshake p with
  | Some (AwaitingKey _) => read_position p = 0
  | Some (AwaitingVersion _ _ n) => read_position p <= match n with Some _ => NUM_LENGTH_BYTES | None => 0 end
  | _ => True
  end.

Lemma advance_ok p p' b : peer_ok p -> aligned p -> advance_handshake p = (p', Good b) ->
  peer_ok p' /\ (if b then aligned p' /\ turns_left p' < turns_left p else settled p').
Proof.
  intros [Hb Hs] Ha E. unfold advance_handshake in E. destruct (handshake p) as [[h|h|owner g n]|] eqn:Eh; [| | |done].
  - assert (base_ok (with_handshake p None)) as Hb' by (by eapply base_ok_same). unfold aligned in Ha. rewrite Eh in Ha.
    apply advance_key_ok in E as [Hp E]; [|done..]. split; [done|]. destruct b; [|by apply E].
    destruct E as [g Eg]. unfold aligned, turns_left. by rewrite Eg, Eh.
  - assert (base_ok (with_handshake p None)) as Hb' by (by eapply base_ok_same).
    apply advance_garbage_ok in E as [Hp E]; [|done]. split; [done|]. destruct b; [|done].
    destruct E as (o & g & Eg & Epk & Epos). unfold aligned, turns_left. rewrite Eg, Eh, Epk, Epos. cbn. destruct Hb. lia.
  - assert (base_ok (with_handshake p None)) as Hb' by (by eapply base_ok_same). destruct Hs as (Ho & Hg & Hn).
    unfold aligned in Ha. rewrite Eh in Ha.
    apply advance_version_ok in E as [Hp E]; [|done..]. split; [done|]. destruct b; [|by apply E].
    pose proof Hp as [Hbp _]. unfold aligned, turns_left. rewrite Eh. destruct E as [Eg|([g' Eg] & Epk & Epos)]; rewrite Eg.
    + split; [done|]. destruct Hb. unfold MAX_HANDSHAKE_PACKETS in *. lia.
    + rewrite Epk, Epos. cbn. lia.
Qed.

Lemma handshake_loop_ok fuel p p' : peer_ok p -> aligned p ->
  handshake_loop fuel p = (p', Good tt) -> peer_ok p' /\ (handshake p' = None \/ settled p').
Proof.
  revert p; induction fuel as [|fuel IH]; intros p Hp Ha E; [done|]. cbn [handshake_loop] in E.
  destruct (handshake p) eqn:Eh; [|injection E as <-; by split; [|left]].
  pstep E as b Eb. apply advance_ok in Eb as [Hp1 Hb]; [|done..]. destruct b; [apply (IH st); [done|apply Hb|done]|].
  injection E as <-. split; [done|by right].
Qed.

(** The turns given to the handshake are enough: more of them change nothing. *)
Lemma handshake_loop_fuel k fuel p : peer_ok p -> aligned p ->
  turns_left p < Z.of_nat fuel -> handshake_loop (fuel + k) p = handshake_loop fuel p.
Proof.
  revert p; induction fuel as [|fuel IH]; intros p Hp Ha Hf.
  { exfalso. pose proof Hp as [Hb _]. unfold turns_left in Hf. destruct Hb. unfold MAX_HANDSHAKE_PACKETS in *.
    destruct (handshake p) as [[]|]; lia. }
  cbn [handshake_loop Nat.add]. destruct (handshake p) eqn:Eh; [|done]. unfold mbind, pr_bind.
  destruct (advance_handshake p) as [p1 [b|e]] eqn:Ea; [|done]. apply advance_ok in Ea as [Hp1 Hb]; [|done..].
  destruct b; [|done]. apply IH; [done|apply Hb|]. destruct Hb as [_ Hlt]. lia.
Qed.

(** ** Sending *)

(** Sending, and answering a request, leave the input side alone. *)
Record same_input (p p' : Peer) : Prop := {
  si_handshake : handshake p' = handshake p;
  si_inbound : inbound p' = inbound p;
  si_outbound : is_Some (outbound p) -> is_Some (outbound p');
  si_size : packet_size p' = packet_size p;
  si_buffer : read_buffer p' = read_buffer p;
  si_position : read_position p' = read_position p;
  si_limiter : rate_limiter p' = rate_limiter p
}.

Lemma same_input_refl p : same_input p p.
Proof. by split. Qed.
Lemma same_input_trans p q r : same_input p q -> same_input q r -> same_input p r.
Proof. intros [] []. split; try congruence. auto. Qed.

Lemma send_payload_ok payload p p' : base_ok p -> send_payload payload p = (p', Good tt) -> base_ok p' /\ same_input p p'.
Proof.
  intros Hb E. unfold send_payload in E. pstep E as u1 Em. plift Em. pstep E as q Eq. injection Eq as <- <-.
  pstep E as u2 Eg. plift Eg. apply guard_good, negb_true_iff, Z.ltb_ge in Eg. pstep E as u3 Em2. injection Em2 as <- _.
  pstep E as q Eq. injection Eq as <- <-. set (q := if 0 <? write_position p then _ else p) in *.
  assert (base_ok q /\ same_input p q /\ zlength (write_buffer q) = zlength (write_buffer p) - write_position p /\ write_position q = 0)
    as (Hq & Hsame & Hlen & Hpos).
  { unfold q. destruct (Z.ltb_spec 0 (write_position p)).
    - destruct Hb. split_and!; [split; cbn; try done; rewrite ?zlength_zdrop; lia|by split|cbn; by rewrite zlength_zdrop by lia|done].
    - destruct Hb. split_and!; [by split|done|lia|lia]. }
  pstep E as o Eo. plift Eo. destruct (encrypt o payload) as [o' packet] eqn:Ee. pstep E as u4 Em3. injection Em3 as <- _.
  pstep E as pk Ep. plift Ep. apply or_err_good in Ep. subst packet. injection E as <-. apply encrypt_length in Ee.
  split.
  - destruct Hq. split; cbn; try done; rewrite zlength_app, Ee; pose proof (zlength_nonneg pk); [lia|].
    rewrite Hlen. rewrite Ee in *. unfold saturating_add in Eg.
    assert (MAX_WRITE_BUFFER_SIZE <= MAX_PACKET_SIZE + 20) by (by apply encryption_len). unfold MAX_PACKET_SIZE in *.
    destruct (Z.le_gt_cases (zlength (write_buffer p) - write_position p + encryption_buffer_len (zlength payload)) (2 ^ 64 - 1)); lia.
  - eapply same_input_trans; [exact Hsame|]. by split.
Qed.

(** ** Answering *)

(** A computation that only adds output. *)
Definition quiet {A} (m : PR Conn A) : Prop := forall c c' a, base_ok (peer c) -> m c = (c', Good a) ->
  base_ok (peer c') /\ same_input (peer c) (peer c').

Lemma quiet_bind {A B} (m : PR Conn A) (f : A -> PR Conn B) : quiet m -> (forall a, quiet (f a)) -> quiet (m ≫= f).
Proof.
  intros Hm Hf c c' b Hb E. pstep E as a Ea. destruct (Hm _ _ _ Hb Ea) as [Hb1 Hs1]. destruct (Hf a _ _ _ Hb1 E) as [Hb2 Hs2].
  split; [done|by eapply same_input_trans].
Qed.
Lemma quiet_lift {A} (r : presult A) : quiet (p_lift r).
Proof. intros c c' a Hb E. injection E as <- _. split; [done|apply same_input_refl]. Qed.
Lemma quiet_ret {A} (a : A) : quiet (mret a).
Proof. intros c c' b Hb E. injection E as <- _. split; [done|apply same_input_refl]. Qed.
Lemma quiet_get : quiet p_get.
Proof. intros c c' b Hb E. injection E as <- _. split; [done|apply same_input_refl]. Qed.
Lemma quiet_stores {A} (m : PR Stores A) : quiet (on_stores m).
Proof.
  intros c c' a Hb E. unfold on_stores, p_on in E. destruct (m (stores c)) as [s r]. injection E as <- _. split; [done|apply same_input_refl].
Qed.
Lemma quiet_payload payload : quiet (on_peer (send_payload payload)).
Proof.
  intros c c' [] Hb E. unfold on_peer, p_on in E. destruct (send_payload payload (peer c)) as [p r] eqn:Es. injection E as <- ->.
  by eapply send_payload_ok.
Qed.
Lemma quiet_send m : quiet (on_peer (send_message m)).
Proof.
  intros c c' [] Hb E. unfold on_peer, p_on in E. destruct (send_message m (peer c)) as [p r] eqn:Es. injection E as <- ->.
  unfold send_message in Es. pstep Es as payload Ep. plift Ep. by eapply send_payload_ok.
Qed.
Lemma quiet_software s : quiet (on_peer (p_modify (fun p => match announced_software p with None => with_software p s | Some _ => p end))).
Proof.
  intros c c' [] Hb E. unfold on_peer, p_on, p_modify in E. injection E as <-. cbn. destruct (announced_software (peer c)).
  - split; [done|apply same_input_refl].
  - split; [by eapply base_ok_same|by split].
Qed.
#[local] Hint Resolve quiet_lift quiet_ret quiet_get quiet_stores quiet_payload quiet_send quiet_software : quiet.

Lemma handle_message_quiet ctx m : quiet (handle_message ctx m).
Proof.
  destruct m as [m|p|r|]; cbn [handle_message]; try apply quiet_ret.
  - destruct m; cbn [handle_bitcoin_message]; try apply quiet_ret; try apply quiet_send.
    + repeat (apply quiet_bind; [auto with quiet|intros]). auto with quiet.
    + unfold handle_get_data. apply quiet_bind; [auto with quiet|intros _]. destruct (bool_decide _); auto with quiet.
    + repeat (apply quiet_bind; [auto with quiet|intros]). auto with quiet.
    + destruct (_ =? _); [|auto with quiet]. apply quiet_bind; [auto with quiet|intros]. apply quiet_bind; [auto with quiet|intros []]; auto with quiet.
  - unfold handle_get_utreexo_proof. apply quiet_bind; [auto with quiet|intros _]. apply quiet_bind; [auto with quiet|intros [index|]]; [|auto with quiet].
    destruct (ProofStore.ProofStore.get_proof _ _); [|auto with quiet]. apply quiet_bind; auto with quiet.
Qed.

(** ** Packets *)

(** Input that is left, counting a length that was read but whose packet was not. *)
Definition unread (p : Peer) : Z := zlength (read_buffer p) - read_position p + (if packet_size p then 1 else 0).

Lemma next_packet_size_ok i p p' i' r : base_ok p -> next_packet_size i p = (p', i', Good r) ->
  base_ok p' /\ handshake p' = handshake p /\ outbound p' = outbound p /\ read_buffer p' = read_buffer p /\ packet_size p' = r
  /\ match r with
     | Some n => 0 <= n <= MAX_INBOUND_PACKET_SIZE /\ (read_position p' - read_position p) + (if packet_size p then 1 else 0) >= 1
         /\ read_position p' >= read_position p
     | None => p' = p /\ zlength (read_buffer p) < read_position p + NUM_LENGTH_BYTES
     end.
Proof.
  intros Hb E. unfold next_packet_size in E. destruct (packet_size p) as [n|] eqn:En.
  { injection E as <- <- <-. split_and!; try done; try apply (iv_size _ Hb n En); lia. }
  destruct (get_range _ _ _) as [el|] eqn:Eg.
  2: { injection E as <- <- <-. apply get_range_None in Eg; [done|unfold NUM_LENGTH_BYTES; lia]. }
  apply get_range_Some in Eg as [Hr ->]. destruct (decrypt_packet_len i _) as [n i1] eqn:Ed.
  destruct (Z.ltb_spec MAX_INBOUND_PACKET_SIZE n); [done|]. injection E as <- <- <-.
  match type of Ed with decrypt_packet_len ?i ?b = _ => pose proof (packet_len_nonneg i b) as Hn; rewrite Ed in Hn; cbn in Hn end.
  unfold NUM_LENGTH_BYTES in *. split_and!; cbn; try done; try lia. destruct Hb. split; cbn; try done; [lia|]. by intros ? [= <-].
Qed.

Definition sized_room (p : Peer) : Prop := zlength (read_buffer p) < read_position p + default NUM_LENGTH_BYTES (packet_size p).

Lemma process_packet_ok ctx now i c c' i' b : base_ok (peer c) -> handshake (peer c) = None -> is_Some (outbound (peer c)) ->
  process_packet ctx now i c = (c', i', Good b) ->
  base_ok (peer c') /\ handshake (peer c') = None /\ is_Some (outbound (peer c')) /\ read_buffer (peer c') = read_buffer (peer c)
  /\ (if b then unread (peer c') < unread (peer c) else sized_room (peer c')).
Proof.
  intros Hb Hh Ho E. unfold process_packet in E. destruct (next_packet_size i (peer c)) as [[p i1] [size|e]] eqn:En; [|done].
  apply next_packet_size_ok in En as (Hp & Hhp & Hop & Hrb & Hsz & Hn); [|done]. destruct size as [n|].
  2: { injection E as <- <- <-. destruct Hn as [-> Hlt]. cbn. unfold sized_room. rewrite Hsz. by split_and!. }
  destruct Hn as (Hn & Hpos & Hge). destruct (Z.ltb_spec (zlength (read_buffer p)) (read_position p + n)) as [Hlt|Hge2].
  { injection E as <- <- <-. cbn. unfold sized_room. rewrite Hsz, Hhp, Hop, Hrb. rewrite Hrb in Hlt. by split_and!. }
  destruct (decrypt_in_place i1 _) as [i2 [[ty msg]|e]]; [|done].
  destruct (check_decides (rate_limiter p) now (iv_limiter _ Hp)) as (l & El & Hl & _). rewrite El in E.
  destruct (packet_request ty _ msg) as [request|e]; [|done].
  set (q := with_input (with_packet_size (with_limiter p l) None) (read_buffer (with_limiter p l)) (read_position p + n)) in *.
  assert (base_ok q) as Hq. { destruct Hp. split; cbn; try done; lia. }
  assert (unread q < unread (peer c)) as Hun.
  { unfold unread, q. cbn. rewrite Hrb. lia. }
  destruct request as [request|].
  - destruct (handle_message ctx request _) as [c2 [[]|e]] eqn:Em; [|done]. injection E as <- <- <-.
    apply handle_message_quiet in Em as [Hb2 Hs]; [|done]. cbn in Hs. destruct Hs as [Eh Ei Eo Esz Ebuf Epos El2].
    split_and!; [done|by rewrite Eh; cbn; rewrite Hhp|apply Eo; cbn; by rewrite Hop|by rewrite Ebuf|].
    unfold unread. rewrite Ebuf, Epos, Esz. exact Hun.
  - injection E as <- <- <-. cbn. rewrite Hhp, Hop, Hrb. by split_and!.
Qed.
Lemma packet_loop_ok ctx fuel now i c c' i' : base_ok (peer c) -> handshake (peer c) = None -> is_Some (outbound (peer c)) ->
  packet_loop ctx fuel now i c = (c', i', Good tt) ->
  base_ok (peer c') /\ handshake (peer c') = None /\ is_Some (outbound (peer c')) /\ sized_room (peer c').
Proof.
  revert i c; induction fuel as [|fuel IH]; intros i c Hb Hh Ho E; [done|]. cbn [packet_loop] in E.
  destruct (process_packet ctx now i c) as [[c1 i1] [b|e]] eqn:Ep; [|done].
  apply process_packet_ok in Ep as (Hb1 & Hh1 & Ho1 & _ & Hr); [|done..]. destruct b; [by apply (IH i1 c1)|].
  injection E as <- <-. by split_and!.
Qed.

(** The fuel of the packets is enough: more of it changes nothing. *)
Lemma packet_loop_fuel ctx k fuel now i c : base_ok (peer c) -> handshake (peer c) = None -> is_Some (outbound (peer c)) ->
  unread (peer c) < Z.of_nat fuel -> packet_loop ctx (fuel + k) now i c = packet_loop ctx fuel now i c.
Proof.
  revert i c; induction fuel as [|fuel IH]; intros i c Hb Hh Ho Hf.
  { exfalso. unfold unread in Hf. destruct Hb. destruct (packet_size (peer c)); lia. }
  cbn [packet_loop Nat.add]. destruct (process_packet ctx now i c) as [[c1 i1] [b|e]] eqn:Ep; [|done].
  apply process_packet_ok in Ep as (Hb1 & Hh1 & Ho1 & _ & Hr); [|done..]. destruct b; [|done]. apply IH; [done..|lia].
Qed.

Lemma packet_fuel_enough p : base_ok p -> unread p < Z.of_nat (packet_fuel p).
Proof. intros []. unfold unread, packet_fuel, zlength in *. destruct (packet_size p); lia. Qed.

Lemma compact_read_ok p : base_ok p -> sized_room p -> base_ok (compact_read_buffer p)
  /\ handshake (compact_read_buffer p) = handshake p /\ inbound (compact_read_buffer p) = inbound p /\ outbound (compact_read_buffer p) = outbound p
  /\ packet_size (compact_read_buffer p) = packet_size p
  /\ (zlength (read_buffer (compact_read_buffer p)) < read_position (compact_read_buffer p) + default NUM_LENGTH_BYTES (packet_size p)
      \/ zlength (read_buffer (compact_read_buffer p)) = 0)
  /\ read_position (compact_read_buffer p) < READ_BUFFER_SIZE.
Proof.
  intros Hb Hr. unfold sized_room in Hr. unfold compact_read_buffer. destruct (Z.eqb_spec (read_position p) (zlength (read_buffer p))).
  - split_and!; try done; [|by right]. apply base_ok_input; done.
  - destruct (Z.leb_spec READ_BUFFER_SIZE (read_position p)).
    + pose proof (compact_fully_ok _ Hb) as (Hc & Hpos & Hlen & Hh & Hw). unfold compact_read_buffer_fully in *.
      destruct (Z.eqb_spec (read_position p) 0); [unfold READ_BUFFER_SIZE in *; lia|]. split_and!; try done. left. rewrite Hlen. cbn. lia.
    + split_and!; try done. by left.
Qed.

Lemma process_messages_ok ctx now c c' : peer_ok (peer c) -> handshake (peer c) = None ->
  process_messages ctx now c = (c', Good tt) -> peer_ok (peer c') /\ settled (peer c') /\ handshake (peer c') = None.
Proof.
  intros [Hb Hs] Hh E. rewrite Hh in Hs. destruct Hs as [[i Hi] Ho]. unfold process_messages in E. rewrite Hi in E.
  destruct (packet_loop _ _ _ _ _) as [[c1 i1] r] eqn:El. injection E as <- ->.
  apply packet_loop_ok in El as (Hb1 & Hh1 & Ho1 & Hr); [|by eapply base_ok_same|done|done].
  assert (base_ok (with_ciphers (peer c1) (Some i1) (outbound (peer c1)))) as Hb2 by (by eapply base_ok_same).
  pose proof (compact_read_ok _ Hb2 Hr) as (Hc & Eh & Ei & Eo & Es & Hroom & Hpos). cbn [peer].
  split_and!; [split; [done|]| |by rewrite Eh].
  - rewrite Eh. cbn [handshake with_ciphers]. rewrite Hh1. split; [rewrite Ei; by eexists|by rewrite Eo].
  - unfold settled. rewrite Eh. cbn [handshake with_ciphers]. rewrite Hh1. split; [|done]. by rewrite Es.
Qed.

(** ** Input *)

Definition fits (now_read : Z) (bs : bytes) : Prop := zlength bs <= Z.min READ_BUFFER_SIZE (MAX_READ_BYTES_PER_EVENT - now_read).
(** A read returns at most what it was given room for. *)
Fixpoint reads_fit (bytes_read : Z) (stream : list ReadOutcome) : Prop :=
  match stream with
  | [] => True
  | Read bs :: stream => fits bytes_read bs /\ reads_fit (bytes_read + zlength bs) stream
  | _ :: stream => reads_fit bytes_read stream
  end.

Lemma settled_bound p : base_ok p -> state_ok p (handshake p) -> settled p -> zlength (read_buffer p) <= MAX_HANDSHAKE_BYTES /\ aligned p.
Proof.
  intros Hb Hs Hset. unfold settled, aligned in *. destruct (handshake p) as [[h|h|o g n]|]; cbn in Hs.
  - unfold BIP324_KEY_SIZE, MAX_HANDSHAKE_BYTES in *. split; [lia|tauto].
  - split; [tauto|done].
  - destruct Hs as (_ & _ & Hn). split; [|tauto]. unfold NUM_LENGTH_BYTES, MAX_HANDSHAKE_BYTES, MAX_INBOUND_PACKET_SIZE in *.
    destruct n as [k|]; cbn in *; [specialize (Hn k eq_refl); unfold id in *|]; lia.
  - split; [|done]. pose proof (iv_size _ Hb). unfold NUM_LENGTH_BYTES, MAX_HANDSHAKE_BYTES, MAX_INBOUND_PACKET_SIZE, READ_BUFFER_SIZE in *.
    destruct (packet_size p) as [k|]; cbn in *; [pose proof (iv_size _ Hb); unfold id in *|]; [|lia].
    match goal with H : forall n, Some k = Some n -> _ |- _ => specialize (H k eq_refl) end. lia.
Qed.

Lemma process_input_ok ctx now c c' : peer_ok (peer c) -> aligned (peer c) -> process_input ctx now c = (c', Good tt) ->
  peer_ok (peer c') /\ settled (peer c').
Proof.
  intros Hp Ha E. unfold process_input in E. pstep E as u Eu. destruct u. unfold on_peer, p_on in Eu.
  destruct (handshake_loop HANDSHAKE_TURNS (peer c)) as [p r] eqn:El. injection Eu as <- ->.
  apply handshake_loop_ok in El as [Hp1 Hs]; [|done..]. pstep E as c1 Ec. injection Ec as <- <-. cbn [peer] in E.
  destruct (handshake p) eqn:Eh.
  - injection E as <-. cbn. destruct Hs as [Hs|Hs]; [done|]. done.
  - apply process_messages_ok in E as (? & ? & _); done.
Qed.

Lemma read_loop_ok ctx now n stream c c' : reads_fit n stream -> peer_ok (peer c) -> settled (peer c) ->
  read_loop ctx now n stream c = (c', Good tt) -> peer_ok (peer c') /\ settled (peer c').
Proof.
  revert n c; induction stream as [|o stream IH]; intros n c Hf Hp Hs E; cbn [read_loop] in E.
  { destruct (_ <? _); by injection E as <-. }
  destruct (Z.ltb_spec n MAX_READ_BYTES_PER_EVENT); [|by injection E as <-].
  destruct o as [bs| | |e]; [|by injection E as <-|by apply (IH n c)|done].
  destruct Hf as [Hfit Hf]. destruct (Z.eqb_spec (zlength bs) 0); [done|]. pstep E as u Em. destruct u. injection Em as <-.
  pstep E as u Ep. destruct u. destruct Hp as [Hb Hst]. destruct (settled_bound _ Hb Hst Hs) as [Hbound Hal].
  apply process_input_ok in Ep as [Hp1 Hs1].
  - by apply (IH (n + zlength bs) st).
  - cbn. unfold fits in Hfit. split; [|done]. apply base_ok_input; [done| |]; rewrite zlength_app; pose proof (zlength_nonneg bs);
      destruct Hb; unfold INPUT_LIMIT in *; lia.
  - cbn. unfold aligned in *. cbn. destruct (handshake (peer c)) as [[]|]; done.
Qed.

(** A write takes at most what it was given. *)
Fixpoint writes_fit (pending : Z) (stream : list WriteOutcome) : Prop :=
  match stream with
  | [] => True
  | Written n :: stream => 0 <= n <= pending /\ writes_fit (pending - n) stream
  | _ :: stream => writes_fit pending stream
  end.

Lemma on_writable_ok stream p p' r : writes_fit (zlength (write_buffer p) - write_position p) stream -> base_ok p ->
  on_writable stream p = (p', r) -> base_ok p' /\ same_input p p' /\ handshake_bytes p' = handshake_bytes p
    /\ zlength (write_buffer p') <= zlength (write_buffer p).
Proof.
  assert (forall p, base_ok p -> zlength (write_buffer p) <= write_position p ->
    base_ok (with_output p [] 0) /\ same_input p (with_output p [] 0) /\ handshake_bytes (with_output p [] 0) = handshake_bytes p
    /\ zlength (write_buffer (with_output p [] 0)) <= zlength (write_buffer p)) as Hdone.
  { intros q Hq Hle. pose proof write_buffer_room. cbn [write_buffer write_position with_output handshake_bytes].
    change (zlength (@nil Z)) with 0. split_and!; [|by split|done|destruct Hq; lia].
    destruct Hq. split; cbn [with_output read_buffer read_position write_buffer write_position handshake_bytes handshake_packets rate_limiter packet_size];
      change (zlength (@nil Z)) with 0; try done; lia. }
  revert p; induction stream as [|o stream IH]; intros p Hf Hb E; cbn [on_writable] in E; unfold wants_write in E;
    (destruct (Z.ltb_spec (write_position p) (zlength (write_buffer p))); [|injection E as <- <-; apply Hdone; [done|lia]]).
  - injection E as <- <-. split_and!; [done|apply same_input_refl|done|lia].
  - destruct o as [n| | |e].
    + destruct Hf as [Hn Hf]. destruct (Z.eqb_spec n 0); [injection E as <- <-; split_and!; [done|apply same_input_refl|done|lia]|].
      apply IH in E as (Hb' & Hs & Hh & Hp); [| |].
      * split_and!; [done| |done|cbn in Hp; lia]. eapply same_input_trans; [|exact Hs]. by split.
      * cbn. by replace (zlength (write_buffer p) - (write_position p + n)) with (zlength (write_buffer p) - write_position p - n) by lia.
      * destruct Hb. split; cbn; try done. lia.
    + injection E as <- <-. split_and!; [done|apply same_input_refl|done|lia].
    + by apply IH in E.
    + injection E as <- <-. split_and!; [done|apply same_input_refl|done|lia].
Qed.
End Safety.

End PeerSafety.
