(* ===== verification/PeerStream.v ===== *)
(** How the stream is cut does not matter ([Peer::process_messages] of [src/src/node.rs]): packets that arrive in pieces are
    handled as if they had arrived at once. *)

From S2P Require Import Prelude Bytes Files JournalFile Udata ProofStore HeaderIndex Admission Wire Headers Peer PeerSafety.
Import JournalFile.JournalFile Udata.Udata Wire.Wire V2Codec V2CodecSpec Headers.HeaderRequests Admission.Admission Files.Files Peer.Peer PeerSafety.PeerSafety.

Module PeerStream.

Section Stream.
Context `{BitcoinCodec} `{P2pCodec} `{KvStore} `{HeightsDb} `{Bip324Laws}.

(** The connection with other input. *)
Definition reinput (c : Conn) (b : bytes) (pos : Z) : Conn := {| peer := with_input (peer c) b pos; stores := stores c |}.

Lemma reinput_twice c b pos b' pos' : reinput (reinput c b pos) b' pos' = reinput c b' pos'.
Proof. done. Qed.

(** A computation that does not look at the input. *)
Definition blind {A} (m : PR Conn A) : Prop := forall c b pos, m (reinput c b pos) = (reinput (m c).1 b pos, (m c).2).

Lemma blind_bind {A B} (m : PR Conn A) (f : A -> PR Conn B) : blind m -> (forall a, blind (f a)) -> blind (m ≫= f).
Proof.
  intros Hm Hf c b pos. unfold mbind, pr_bind. rewrite Hm. destruct (m c) as [c1 [a|e]]; cbn [fst snd]; [apply Hf|done].
Qed.
Lemma blind_lift {A} (r : presult A) : blind (p_lift r).
Proof. done. Qed.
Lemma blind_ret {A} (a : A) : blind (mret a).
Proof. done. Qed.
Lemma blind_stores {A} (m : PR Stores A) : blind (on_stores m).
Proof. intros c b pos. unfold on_stores, p_on. cbn. by destruct (m (stores c)). Qed.
Lemma blind_payload payload : blind (on_peer (send_payload payload)).
Proof.
  intros c b pos. unfold on_peer, p_on, send_payload, mbind, pr_bind, p_lift, p_get, p_modify. cbn [reinput peer stores].
  destruct (guard_ _ (MessageTooLarge _)); [|done]. cbn [with_input write_buffer write_position].
  destruct (guard_ _ WriteBufferFull); [|done].
  destruct (0 <? write_position (peer c)); cbn [with_input with_output outbound];
    (destruct (outbound (peer c)) as [o|]; [|done]); destruct (encrypt o payload) as [o' [packet|e]]; done.
Qed.
Lemma blind_send m : blind (on_peer (send_message m)).
Proof.
  intros c b pos. unfold send_message. destruct (encode (Bitcoin m)) as [payload|e] eqn:Ee; [|done].
  pose proof (blind_payload payload c b pos) as Hb. exact Hb.
Qed.
Lemma blind_software s : blind (on_peer (p_modify (fun p => match announced_software p with None => with_software p s | Some _ => p end))).
Proof. intros c b pos. unfold on_peer, p_on, p_modify, reinput. cbn. by destruct (announced_software (peer c)). Qed.
#[local] Hint Resolve blind_lift blind_ret blind_stores blind_payload blind_send blind_software : blind.

Lemma blind_stores_of {A} (f : Stores -> PR Conn A) : (forall s, blind (f s)) -> blind (p_get ≫= fun c => f (stores c)).
Proof. intros Hf c b pos. apply (Hf (stores c)). Qed.

Lemma handle_message_blind ctx m : blind (handle_message ctx m).
Proof.
  destruct m as [m|p|r|]; cbn [handle_message]; try apply blind_ret.
  - destruct m; cbn [handle_bitcoin_message]; try apply blind_ret; try apply blind_send.
    + repeat (apply blind_bind; [auto with blind|intros]). auto with blind.
    + unfold handle_get_data. apply blind_bind; [auto with blind|intros _]. destruct (bool_decide _); auto with blind.
    + repeat (apply blind_bind; [auto with blind|intros]). auto with blind.
    + destruct (_ =? _); [|auto with blind].
      apply (blind_stores_of (fun s => accumulator ← p_lift (or_err Storage (ChainView.get_acc (chainview s) (gcf_stop_hash m)));
        match accumulator with
        | Some accumulator => on_peer (send_message (CFilter_ {| cf_filter_type := FILTER_TYPE_UTREEXO; cf_block_hash := gcf_stop_hash m; cf_filter := accumulator |}))
        | None => mret tt end)).
      intros s. apply blind_bind; [auto with blind|intros []]; auto with blind.
  - unfold handle_get_utreexo_proof. apply blind_bind; [auto with blind|intros _]. apply blind_bind; [auto with blind|intros [index|]]; [|auto with blind].
    destruct (ProofStore.ProofStore.get_proof _ _); [|auto with blind]. apply blind_bind; auto with blind.
Qed.

Lemma blind_keeps {A} (m : PR Conn A) c c' r : blind m -> m c = (c', r) ->
  read_buffer (peer c') = read_buffer (peer c) /\ read_position (peer c') = read_position (peer c).
Proof.
  intros Hm E. pose proof (Hm c (read_buffer (peer c)) (read_position (peer c))) as Hc.
  assert (reinput c (read_buffer (peer c)) (read_position (peer c)) = c) as Er by (destruct c as [[] ?]; done).
  rewrite Er, E in Hc. cbn [fst snd] in Hc. injection Hc as Hc. rewrite Hc. done.
Qed.

(** ** Other input with the same bytes to read, and more *)

Definition rest (p : Peer) : bytes := zdrop (read_position p) (read_buffer p).

Lemma zlength_rest p : 0 <= read_position p <= zlength (read_buffer p) -> zlength (rest p) = zlength (read_buffer p) - read_position p.
Proof. apply zlength_zdrop. Qed.

Lemma slice_rest b pos n : 0 <= pos -> 0 <= n -> slice b pos (pos + n) = ztake n (zdrop pos b).
Proof. intros. unfold slice. by replace (pos + n - pos) with n by lia. Qed.

Lemma ztake_app {A} n (l k : list A) : n <= zlength l -> ztake n (l ++ k) = ztake n l.
Proof. unfold ztake, zlength. intros. apply take_app_le. lia. Qed.

(** The extension [b], [pos] of the unread input by [d]. *)
Definition extends (p : Peer) (b : bytes) (pos : Z) (d : bytes) : Prop :=
  0 <= read_position p <= zlength (read_buffer p) /\ 0 <= pos <= zlength b /\ zdrop pos b = rest p ++ d.

Lemma extends_slice p b pos d n : extends p b pos d -> 0 <= n -> read_position p + n <= zlength (read_buffer p) ->
  slice b pos (pos + n) = slice (read_buffer p) (read_position p) (read_position p + n).
Proof.
  intros (Hp & Hb & E) Hn Hle. rewrite !slice_rest by lia. rewrite E. unfold rest. apply ztake_app. rewrite zlength_zdrop by lia. lia.
Qed.

Lemma extends_length p b pos d : extends p b pos d -> zlength b = pos + (zlength (read_buffer p) - read_position p) + zlength d.
Proof.
  intros (Hp & Hb & E). apply (f_equal zlength) in E. rewrite zlength_app, zlength_zdrop, zlength_rest in E by lia. lia.
Qed.

Lemma zdrop_zdrop {A} n m (l : list A) : 0 <= n -> 0 <= m -> zdrop n (zdrop m l) = zdrop (m + n) l.
Proof. intros. unfold zdrop. rewrite drop_drop. f_equal. lia. Qed.

Lemma zdrop_app_le {A} n (l k : list A) : 0 <= n <= zlength l -> zdrop n (l ++ k) = zdrop n l ++ k.
Proof. unfold zdrop, zlength. intros. apply drop_app_le. lia. Qed.

(** Moving on in both inputs. *)
Lemma extends_advance p p' b pos d n : extends p b pos d -> 0 <= n -> read_position p + n <= zlength (read_buffer p) ->
  read_buffer p' = read_buffer p -> read_position p' = read_position p + n -> extends p' b (pos + n) d.
Proof.
  intros He Hn Hle Eb Ep. pose proof (extends_length _ _ _ _ He) as Hl. destruct He as (Hp & Hb & E). pose proof (zlength_nonneg d).
  unfold extends, rest. rewrite Eb, Ep. split_and!; try lia. rewrite <- !zdrop_zdrop by lia. rewrite E. apply zdrop_app_le.
  unfold rest. rewrite zlength_zdrop by lia. lia.
Qed.

Lemma next_size_extends i p p' i' r b pos d : extends p b pos d -> next_packet_size i p = (p', i', r) ->
  exists n, 0 <= n /\ read_position p' = read_position p + n /\ read_buffer p' = read_buffer p /\ read_position p' <= zlength (read_buffer p)
  /\ (r <> Good None -> next_packet_size i (with_input p b pos) = (with_input p' b (pos + n), i', r))
  /\ (r = Good None -> p' = p /\ i' = i)
  /\ (forall k, r = Good (Some k) -> packet_size p' = Some k).
Proof.
  intros He E. pose proof (extends_length _ _ _ _ He) as Hl. pose proof (zlength_nonneg d) as Hd. destruct He as (Hp & Hb & Ez).
  unfold next_packet_size in *. destruct (packet_size p) as [k|] eqn:Ek.
  { injection E as <- <- <-. exists 0. split_and!; try lia; try done; [|by intros ? [= <-]].
    intros _. cbn [packet_size with_input]. rewrite Ek. by rewrite Z.add_0_r. }
  destruct (get_range _ _ _) as [el|] eqn:Eg.
  2: { injection E as <- <- <-. exists 0. split_and!; try lia; try done. }
  apply get_range_Some in Eg as [Hr ->]. unfold NUM_LENGTH_BYTES in *.
  assert (get_range b pos (pos + 3) = Some (slice (read_buffer p) (read_position p) (read_position p + 3))) as Eg2.
  { unfold get_range. rewrite !(proj2 (Z.leb_le _ _)) by lia. cbn [andb]. f_equal. apply (extends_slice p b pos d); [done|lia|lia]. }
  destruct (decrypt_packet_len i _) as [k i1] eqn:Ed. cbn [packet_size with_input read_buffer read_position]. rewrite Ek.
  destruct (Z.ltb_spec MAX_INBOUND_PACKET_SIZE k) as [Hlt|Hge].
  - injection E as <- <- <-. exists 0. split_and!; try lia; try done. intros _. rewrite Eg2, Ed. rewrite (proj2 (Z.ltb_lt _ _)) by done.
    by rewrite Z.add_0_r.
  - injection E as <- <- <-. exists 3. cbn. split_and!; try lia; try done; [|by intros ? [= ->]].
    intros _. rewrite Eg2, Ed. by rewrite (proj2 (Z.ltb_ge _ _)) by done.
Qed.

(** The rest of a turn, once the size of the packet is known. *)
Lemma process_packet_sized ctx now i c p i1 k : next_packet_size i (peer c) = (p, i1, Good (Some k)) ->
  process_packet ctx now i c = process_packet ctx now i1 {| peer := p; stores := stores c |}.
Proof.
  intros E. pose proof E as E2. unfold process_packet at 1. rewrite E. unfold process_packet. cbn [peer stores].
  assert (packet_size p = Some k) as Ek.
  { unfold next_packet_size in E. destruct (packet_size (peer c)) as [k'|] eqn:Ek'; [injection E as <- <- <-; by rewrite Ek'|].
    destruct (get_range _ _ _); [|done]. destruct (decrypt_packet_len i _). destruct (_ <? _); [done|]. by injection E as <- <- <-. }
  unfold next_packet_size. by rewrite Ek.
Qed.

(** A turn that uses a packet up, or fails, does so whatever comes after the packet. *)
Lemma packet_extends ctx now i c c1 i1 r b pos d : extends (peer c) b pos d -> base_ok (peer c) ->
  process_packet ctx now i c = (c1, i1, r) -> r <> Good false ->
  exists pos1, process_packet ctx now i (reinput c b pos) = (reinput c1 b pos1, i1, r) /\ (r = Good true -> extends (peer c1) b pos1 d).
Proof.
  intros He Hok E Hr. unfold process_packet in E. destruct (next_packet_size i (peer c)) as [[p i2] size] eqn:En.
  destruct (next_size_extends _ _ _ _ _ _ _ _ He En) as (n & Hn & Epos & Ebuf & Hle & Hnext & _ & Hsize).
  unfold process_packet. destruct size as [[k|]|e]; cbn [reinput peer stores].
  - rewrite (Hnext ltac:(done)). cbn [with_input read_position read_buffer].
    assert (0 <= k) as Hk.
    { apply next_packet_size_ok in En as (_ & _ & _ & _ & _ & Hk & _); [lia|done]. }
    assert (extends p b (pos + n) d) as He1 by (eapply extends_advance; [exact He|lia|lia|done|done]).
    pose proof (extends_length _ _ _ _ He1) as Hl. pose proof (zlength_nonneg d).
    destruct (Z.ltb_spec (zlength (read_buffer p)) (read_position p + k)) as [|Hge]; [by injection E as _ _ <-|].
    rewrite (proj2 (Z.ltb_ge _ _)) by lia. rewrite (extends_slice p b (pos + n) d k He1 Hk Hge).
    destruct (decrypt_in_place i2 _) as [i3 [[ty msg]|e]]; [|injection E as <- <- <-; by exists (pos + n)].
    cbn [rate_limiter with_input]. destruct (check (rate_limiter p) now) as [l dec].
    destruct (packet_request ty dec msg) as [request|e]; [|injection E as <- <- <-; by exists (pos + n)].
    set (q := with_input (with_packet_size (with_limiter p l) None) (read_buffer (with_limiter p l)) (read_position p + k)) in *.
    assert (extends q b (pos + n + k) d) as He2 by (eapply (extends_advance p); [exact He1|lia|lia|done|done]).
    destruct request as [request|]; [|injection E as <- <- <-; by exists (pos + n + k)].
    pose proof (handle_message_blind ctx request {| peer := q; stores := stores c |} b (pos + n + k)) as Hbl.
    cbn [stores] in E. destruct (handle_message ctx request {| peer := q; stores := stores c |}) as [c2 r2] eqn:Em.
    apply blind_keeps in Em as [Eb Ep]; [|apply handle_message_blind]. injection E as <- <- <-. exists (pos + n + k). split.
    + unfold reinput in Hbl. cbn [peer stores fst snd] in Hbl. unfold reinput. cbn [peer stores].
      match type of Hbl with handle_message _ _ ?x = _ => match goal with |- context [handle_message ctx request ?y] => change y with x end end.
      by rewrite Hbl.
    + intros _. unfold extends, rest in *. by rewrite Eb, Ep.
  - by injection E as _ _ <-.
  - injection E as <- <- <-. rewrite (Hnext ltac:(done)). by exists (pos + n).
Qed.

Lemma conn_eta c : {| peer := peer c; stores := stores c |} = c.
Proof. by destruct c. Qed.

(** A turn that waits for more takes up where it stopped. *)
Lemma packet_waits ctx now i c c1 i1 b pos d : extends (peer c) b pos d -> base_ok (peer c) ->
  process_packet ctx now i c = (c1, i1, Good false) ->
  exists pos1, process_packet ctx now i (reinput c b pos) = process_packet ctx now i1 (reinput c1 b pos1) /\ extends (peer c1) b pos1 d
    /\ (d = [] -> process_packet ctx now i1 (reinput c1 b pos1) = (reinput c1 b pos1, i1, Good false)).
Proof.
  intros He Hok E. unfold process_packet in E. destruct (next_packet_size i (peer c)) as [[p i2] size] eqn:En.
  destruct (next_size_extends _ _ _ _ _ _ _ _ He En) as (n & Hn & Epos & Ebuf & Hle & Hnext & Hnone & Hsize).
  destruct size as [[k|]|e]; [| |done].
  - cbn [stores] in E. assert (0 <= k) as Hk.
    { apply next_packet_size_ok in En as (_ & _ & _ & _ & _ & Hk & _); [lia|done]. }
    destruct (Z.ltb_spec (zlength (read_buffer p)) (read_position p + k)) as [Hlt|].
    2: { exfalso. destruct (decrypt_in_place _ _) as [? [[]|]]; [|done]. destruct (check _ _).
         destruct (packet_request _ _ _) as [[]|]; [|done|done]. destruct (handle_message _ _ _) as [? [[]|]]; done. }
    injection E as <- <-. exists (pos + n).
    assert (extends p b (pos + n) d) as He1 by (eapply extends_advance; [exact He|lia|lia|done|done]).
    split_and!; [|done|].
    + apply (process_packet_sized ctx now i (reinput c b pos) (with_input p b (pos + n)) i2 k). by apply Hnext.
    + intros ->. pose proof (extends_length _ _ _ _ He1) as Hl. rewrite zlength_nil in Hl. unfold process_packet.
      assert (next_packet_size i2 (peer (reinput {| peer := p; stores := stores c |} b (pos + n))) =
        (with_input p b (pos + n), i2, Good (Some k))) as -> by (unfold next_packet_size; cbn; by rewrite (Hsize k eq_refl)).
      cbn [read_buffer with_input read_position]. rewrite (proj2 (Z.ltb_lt _ _)) by lia. done.
  - destruct (Hnone eq_refl) as [-> ->]. injection E as <- <-. rewrite conn_eta. exists pos. split_and!; [done|done|].
    intros ->. pose proof (extends_length _ _ _ _ He) as Hl. rewrite zlength_nil in Hl. unfold process_packet.
    assert (next_packet_size i (peer (reinput c b pos)) = (with_input (peer c) b pos, i, Good None)) as ->; [|done].
    unfold next_packet_size in *. cbn [reinput peer with_input packet_size read_position read_buffer].
    destruct (packet_size (peer c)); [done|]. destruct (get_range (read_buffer (peer c)) _ _) eqn:Eg.
    { destruct (decrypt_packet_len i _). destruct (_ <? _); done. }
    apply get_range_None in Eg; [|unfold NUM_LENGTH_BYTES; lia]. unfold get_range.
    rewrite (proj2 (Z.leb_gt (pos + NUM_LENGTH_BYTES) (zlength b))) by lia. by rewrite andb_false_r.
Qed.

Context (ctx : WorkerContext) (now : Z).

Definition running (c : Conn) : Prop := base_ok (peer c) /\ handshake (peer c) = None /\ is_Some (outbound (peer c)).

Lemma running_step i c c1 i1 b : running c -> process_packet ctx now i c = (c1, i1, Good b) -> running c1.
Proof. intros (Hb & Hh & Ho) E. apply process_packet_ok in E as (? & ? & ? & _); done. Qed.

Lemma loop_extends M d b N : forall i c c1 i1 pos, extends (peer c) b pos d -> running c ->
  packet_loop ctx N now i c = (c1, i1, Good tt) ->
  exists K pos1, (M < K)%nat /\ packet_loop ctx (N + M) now i (reinput c b pos) = packet_loop ctx K now i1 (reinput c1 b pos1)
    /\ extends (peer c1) b pos1 d
    /\ (d = [] -> process_packet ctx now i1 (reinput c1 b pos1) = (reinput c1 b pos1, i1, Good false)).
Proof.
  induction N as [|N IH]; intros i c c1 i1 pos He Hr E; [done|]. cbn [packet_loop] in E.
  destruct (process_packet ctx now i c) as [[c2 i2] [[]|e]] eqn:Ep; [| |done].
  - pose proof Ep as Ep2. eapply packet_extends in Ep as (pos2 & E2 & He2); [|exact He|apply Hr|done].
    destruct (IH i2 c2 c1 i1 pos2 (He2 eq_refl) ltac:(by eapply running_step) E) as (K & pos1 & HK & EK & Hrest).
    exists K, pos1. split; [done|]. split; [|done]. cbn [packet_loop Nat.add]. by rewrite E2.
  - injection E as <- <-. eapply packet_waits in Ep as (pos2 & E2 & He2 & Hstop); [|exact He|apply Hr].
    exists (S (N + M)), pos2. split; [lia|]. split; [|done]. cbn [packet_loop Nat.add]. by rewrite E2.
Qed.

Lemma loop_fails M d b N : forall i c c1 i1 pos e, extends (peer c) b pos d -> running c -> unread (peer c) < Z.of_nat N ->
  packet_loop ctx N now i c = (c1, i1, Bad e) ->
  exists pos1, packet_loop ctx (N + M) now i (reinput c b pos) = (reinput c1 b pos1, i1, Bad e).
Proof.
  induction N as [|N IH]; intros i c c1 i1 pos e He Hr Hf E.
  { exfalso. destruct Hr as [[] _]. unfold unread in Hf. destruct (packet_size (peer c)); lia. }
  cbn [packet_loop] in E. destruct (process_packet ctx now i c) as [[c2 i2] [[]|e2]] eqn:Ep; [|done|].
  - pose proof Ep as Ep2. eapply packet_extends in Ep as (pos2 & E2 & He2); [|exact He|apply Hr|done].
    pose proof Ep2 as Ep3. apply process_packet_ok in Ep3 as (_ & _ & _ & _ & Hlt); [|apply Hr..].
    destruct (IH i2 c2 c1 i1 pos2 e (He2 eq_refl) ltac:(by eapply running_step) ltac:(lia) E) as (pos1 & EK).
    exists pos1. cbn [packet_loop Nat.add]. by rewrite E2.
  - injection E as <- <- <-. eapply packet_extends in Ep as (pos2 & E2 & _); [|exact He|apply Hr|done].
    exists pos2. cbn [packet_loop Nat.add]. by rewrite E2.
Qed.

Lemma loop_inbound N : forall i c c1 i1 r, running c -> packet_loop ctx N now i c = (c1, i1, Good r) ->
  inbound (peer c1) = inbound (peer c) /\ read_buffer (peer c1) = read_buffer (peer c).
Proof.
  induction N as [|N IH]; intros i c c1 i1 r Hr E; [done|]. cbn [packet_loop] in E.
  destruct (process_packet ctx now i c) as [[c2 i2] [b|e]] eqn:Ep; [|done].
  assert (read_buffer (peer c2) = read_buffer (peer c)) as Eb.
  { destruct Hr as (? & ? & ?). apply process_packet_ok in Ep as (_ & _ & _ & ? & _); done. }
  assert (inbound (peer c2) = inbound (peer c)) as Ei.
  { clear E Eb. destruct Hr as (Hb & _ & _). unfold process_packet in Ep. destruct (next_packet_size i (peer c)) as [[p i3] [size|e]] eqn:En; [|done].
    assert (inbound p = inbound (peer c)) as Ep2.
    { unfold next_packet_size in En. destruct (packet_size (peer c)); [by injection En as <- _ _|].
      destruct (get_range _ _ _); [|by injection En as <- _ _]. destruct (decrypt_packet_len _ _). destruct (_ <? _); [done|]. by injection En as <- _ _. }
    apply next_packet_size_ok in En as (Hp & _ & _ & _ & _ & Hn); [|done].
    destruct size as [k|]; [|by injection Ep as <- _ _]. destruct (Z.ltb_spec (zlength (read_buffer p)) (read_position p + k)); [by injection Ep as <- _ _|].
    destruct (decrypt_in_place _ _) as [i4 [[ty msg]|]]; [|done].
    destruct (check_decides (rate_limiter p) now (iv_limiter _ Hp)) as (l & El & Hl & _). rewrite El in Ep.
    destruct (packet_request _ _ _) as [request|]; [|done]. destruct request as [request|]; [|by injection Ep as <- _ _].
    destruct (handle_message _ _ _) as [c3 [[]|]] eqn:Em; [|done]. injection Ep as <- _ _.
    apply handle_message_quiet in Em as [_ Hs]; [|destruct Hp; split; cbn; try done; lia]. rewrite (si_inbound _ _ Hs). done. }
  destruct b; [|by injection E as <- _ _]. destruct (IH i2 c2 c1 i1 r ltac:(by eapply running_step) E) as [-> ->]. done.
Qed.

(** More bytes arrive. *)
Definition feed (c : Conn) (d : bytes) : Conn := reinput c (read_buffer (peer c) ++ d) (read_position (peer c)).
(** A connection up to bytes that were read already. *)
Definition unread_view (c : Conn) : Conn := reinput c (rest (peer c)) 0.

Lemma extends_refl p : 0 <= read_position p <= zlength (read_buffer p) -> extends p (read_buffer p) (read_position p) [].
Proof. intros Hp. split_and!; try lia. by rewrite app_nil_r. Qed.

Lemma extends_feed p d : 0 <= read_position p <= zlength (read_buffer p) -> extends p (read_buffer p ++ d) (read_position p) d.
Proof.
  intros Hp. pose proof (zlength_nonneg d). split_and!; try lia; [rewrite zlength_app; lia|]. by apply zdrop_app_le.
Qed.

Lemma running_reinput c b pos : running c -> 0 <= pos <= zlength b -> zlength b <= INPUT_LIMIT -> running (reinput c b pos).
Proof. intros (Hb & Hh & Ho) Hp Hl. split_and!; [by apply base_ok_input|done|done]. Qed.

(** Any fuel from the one given on leads to the same end. *)
Lemma loop_any_fuel N i c : running c -> packet_loop ctx (packet_fuel (peer c) + N) now i c = packet_loop ctx (packet_fuel (peer c)) now i c.
Proof. intros (Hb & Hh & Ho). apply packet_loop_fuel; [done..|]. by apply packet_fuel_enough. Qed.

(** What [process_messages] does with the loop's end. *)
Definition finish_loop (x : Conn * InboundCipher * presult unit) : Conn * presult unit :=
  let '(c, i, r) := x in
  ({| peer := compact_read_buffer (with_ciphers (peer c) (Some i) (outbound (peer c))); stores := stores c |}, r).

Definition begin_loop (c : Conn) : Conn := {| peer := with_ciphers (peer c) None (outbound (peer c)); stores := stores c |}.

Lemma process_messages_loop c i : inbound (peer c) = Some i ->
  process_messages ctx now c = finish_loop (packet_loop ctx (packet_fuel (peer c)) now i (begin_loop c)).
Proof. intros E. unfold process_messages. rewrite E. done. Qed.

Lemma compact_view p : 0 <= read_position p <= zlength (read_buffer p) ->
  with_input (compact_read_buffer p) (rest (compact_read_buffer p)) 0 = with_input p (rest p) 0.
Proof.
  intros Hp. unfold compact_read_buffer, compact_read_buffer_fully.
  destruct (Z.eqb_spec (read_position p) (zlength (read_buffer p))) as [E|E].
  - unfold rest. cbn. f_equal. unfold zdrop. rewrite E. unfold zlength. rewrite Nat2Z.id, drop_all. done.
  - destruct (READ_BUFFER_SIZE <=? read_position p); [|done]. destruct (read_position p =? 0); [done|]. done.
Qed.

Lemma compact_shrinks p : 0 <= read_position p <= zlength (read_buffer p) ->
  zlength (read_buffer (compact_read_buffer p)) <= zlength (read_buffer p) /\ rest (compact_read_buffer p) = rest p.
Proof.
  intros Hp. split.
  - unfold compact_read_buffer, compact_read_buffer_fully. destruct (_ =? _); [apply zlength_nonneg|].
    destruct (_ <=? _); [|done]. destruct (_ =? 0); [done|]. cbn. rewrite zlength_zdrop by lia. lia.
  - pose proof (compact_view p Hp) as E. apply (f_equal read_buffer) in E. exact E.
Qed.

Lemma begin_after_compact cL iL d : inbound (peer cL) = None ->
  let c1 := {| peer := compact_read_buffer (with_ciphers (peer cL) (Some iL) (outbound (peer cL))); stores := stores cL |} in
  begin_loop (feed c1 d) = reinput cL (read_buffer (peer c1) ++ d) (read_position (peer c1)).
Proof.
  intros Ei c1. unfold begin_loop, feed, reinput. cbn [peer stores c1]. f_equal.
  unfold compact_read_buffer, compact_read_buffer_fully. destruct cL as [[] s]. cbn in *. subst.
  repeat (match goal with |- context [if ?x then _ else _] => destruct x end); done.
Qed.

Lemma finish_view c i r : 0 <= read_position (peer c) <= zlength (read_buffer (peer c)) ->
  unread_view (finish_loop (c, i, r)).1 = unread_view {| peer := with_ciphers (peer c) (Some i) (outbound (peer c)); stores := stores c |}.
Proof. intros Hp. unfold unread_view, finish_loop, reinput. cbn [fst peer stores]. f_equal. by apply compact_view. Qed.

(** Two inputs with the same unread bytes lead to the same results. *)
Lemma loops_agree N1 N2 i c b pos : running c -> extends (peer c) b pos [] -> zlength b <= INPUT_LIMIT ->
  unread (peer c) < Z.of_nat N1 -> unread (peer (reinput c b pos)) < Z.of_nat N2 ->
  let x1 := packet_loop ctx N1 now i c in
  let x2 := packet_loop ctx N2 now i (reinput c b pos) in
  x2.2 = x1.2 /\ (x1.2 = Good tt -> unread_view (finish_loop x2).1 = unread_view (finish_loop x1).1).
Proof.
  intros Hr He Hl Hf1 Hf2 x1 x2.
  assert (running (reinput c b pos)) as Hr2 by (apply running_reinput; [done|apply He|done]).
  assert (packet_loop ctx (N1 + N2) now i (reinput c b pos) = x2) as E2.
  { unfold x2. rewrite Nat.add_comm. destruct Hr2 as (? & ? & ?). by apply packet_loop_fuel. }
  unfold x1. destruct (packet_loop ctx N1 now i c) as [[c1 i1] [[]|e]] eqn:E1.
  - pose proof E1 as E1'. apply packet_loop_ok in E1' as (Hb1 & _); [|apply Hr..].
    destruct (loop_extends N2 [] b N1 i c c1 i1 pos He Hr E1) as (K & pos1 & HK & EK & He1 & Hstop).
    rewrite EK in E2. destruct K as [|K]; [lia|]. cbn [packet_loop] in E2. rewrite (Hstop eq_refl) in E2. rewrite <- E2. cbn [snd].
    split; [done|]. intros _. destruct He1 as (Hp & Hb & Ez). rewrite app_nil_r in Ez.
    rewrite !finish_view by done. unfold unread_view, reinput. cbn [peer stores]. f_equal.
    unfold rest at 1. cbn [read_position read_buffer with_ciphers with_input]. rewrite Ez. done.
  - destruct (loop_fails N2 [] b N1 i c c1 i1 pos e He Hr Hf1 E1) as (pos1 & EK). rewrite EK in E2. rewrite <- E2. done.
Qed.

End Stream.

(** Bytes that arrive later are handled as if they had been there. *)
Lemma stream_cut `{BitcoinCodec} `{P2pCodec} `{KvStore} `{HeightsDb} `{Bip324Laws} (ctx : WorkerContext) (now : Z) (c : Conn) (d : bytes)
  (Hok : peer_ok (peer c)) (Hh : handshake (peer c) = None) (Hlen : zlength (read_buffer (peer c)) + zlength d <= INPUT_LIMIT) :
  let first := process_messages ctx now c in
  let whole := process_messages ctx now (feed c d) in
  match first.2 with
  | Good _ =>
      let second := process_messages ctx now (feed first.1 d) in
      second.2 = whole.2 /\ (whole.2 = Good tt -> unread_view second.1 = unread_view whole.1)
  | Bad e => whole.2 = Bad e
  end.
Proof.
  destruct Hok as [Hb Hs]. rewrite Hh in Hs. destruct Hs as [[i Hi] Ho]. cbv zeta.
  rewrite (process_messages_loop ctx now c i Hi).
  assert (running (begin_loop c)) as Hrun by (split_and!; [by eapply base_ok_same|done|done]).
  pose proof (iv_read _ Hb) as Hpos. pose proof (zlength_nonneg d) as Hd.
  assert (extends (peer (begin_loop c)) (read_buffer (peer c) ++ d) (read_position (peer c)) d) as He by (by apply (extends_feed (peer c))).
  assert (process_messages ctx now (feed c d) = finish_loop (packet_loop ctx (packet_fuel (peer (feed c d))) now i
    (reinput (begin_loop c) (read_buffer (peer c) ++ d) (read_position (peer c))))) as Ew by exact (process_messages_loop ctx now (feed c d) i Hi).
  rewrite Ew. clear Ew.
  assert (running (reinput (begin_loop c) (read_buffer (peer c) ++ d) (read_position (peer c)))) as Hrun2
    by (apply running_reinput; [done|rewrite zlength_app; lia|rewrite zlength_app; lia]).
  pose proof (packet_fuel_enough _ (proj1 Hrun2)) as Hf2. change (packet_fuel (peer (reinput _ _ _))) with (packet_fuel (peer (feed c d))) in Hf2.
  set (F2 := packet_fuel (peer (feed c d))) in *. pose proof (packet_fuel_enough _ (proj1 Hrun)) as Hf1.
  change (packet_fuel (peer (begin_loop c))) with (packet_fuel (peer c)) in Hf1. set (F1 := packet_fuel (peer c)) in *.
  destruct (packet_loop ctx F1 now i (begin_loop c)) as [[cL iL] [[]|e]] eqn:E1; cbn [finish_loop fst snd].
  2: { destruct (loop_fails ctx now F2 d _ F1 i _ _ _ _ e He Hrun Hf1 E1) as (pos1 & EK). rewrite Nat.add_comm in EK.
       destruct Hrun2 as (? & ? & ?). rewrite packet_loop_fuel in EK by done. by rewrite EK. }
  pose proof E1 as E1'. apply packet_loop_ok in E1' as (HbL & HhL & HoL & HroomL); [|apply Hrun..].
  pose proof E1 as EiL. apply loop_inbound in EiL as [EiL EbL]; [|done]. cbn in EiL, EbL.
  destruct (loop_extends ctx now F2 d _ F1 i _ _ _ _ He Hrun E1) as (K & pos1 & HK & EK & HeL & _).
  rewrite Nat.add_comm in EK. assert (packet_loop ctx (F2 + F1) now i (reinput (begin_loop c) (read_buffer (peer c) ++ d) (read_position (peer c)))
    = packet_loop ctx F2 now i (reinput (begin_loop c) (read_buffer (peer c) ++ d) (read_position (peer c)))) as EF
    by (destruct Hrun2 as (? & ? & ?); by apply packet_loop_fuel).
  rewrite EF in EK. rewrite EK. clear EF EK.
  set (b1 := read_buffer (peer c) ++ d) in *.
  set (c1 := {| peer := compact_read_buffer (with_ciphers (peer cL) (Some iL) (outbound (peer cL))); stores := stores cL |}).
  assert (base_ok (with_ciphers (peer cL) (Some iL) (outbound (peer cL)))) as HbL2 by (by eapply base_ok_same).
  pose proof (compact_read_ok _ HbL2 HroomL) as (Hc1 & _ & Ei1 & Eo1 & _). pose proof (iv_read _ Hc1) as Hpos1.
  pose proof (compact_shrinks (with_ciphers (peer cL) (Some iL) (outbound (peer cL))) (iv_read _ HbL2)) as [Hshrink Hview].
  set (b2 := read_buffer (peer c1) ++ d). set (pos2 := read_position (peer c1)).
  assert (extends (peer cL) b2 pos2 d) as He2.
  { split_and!; [apply HbL..|apply Hpos1|unfold b2; rewrite zlength_app; unfold pos2, c1; cbn [peer]; lia|].
    unfold b2, pos2. rewrite zdrop_app_le by (unfold c1; cbn [peer]; lia). f_equal. exact Hview. }
  assert (begin_loop (feed c1 d) = reinput cL b2 pos2) as Eb2 by (by apply begin_after_compact).
  rewrite (process_messages_loop ctx now (feed c1 d) iL) by exact Ei1.
  rewrite Eb2. pose proof (extends_length _ _ _ _ HeL) as Hl1. destruct HeL as (HpL & Hp1 & Ez1). destruct He2 as (_ & Hp2 & Ez2).
  assert (zlength b1 <= INPUT_LIMIT) as Hb1l by (unfold b1; rewrite zlength_app; lia).
  assert (zlength b2 <= INPUT_LIMIT) as Hb2l.
  { unfold b2. rewrite zlength_app. unfold c1. cbn [peer read_buffer with_ciphers] in Hshrink |- *. rewrite EbL in Hshrink. lia. }
  assert (running (reinput cL b1 pos1)) as HrX by (by apply running_reinput).
  pose proof (loops_agree ctx now K (packet_fuel (peer (feed c1 d))) iL (reinput cL b1 pos1) b2 pos2 HrX) as Hagree. cbv zeta in Hagree.
  rewrite reinput_twice in Hagree. destruct Hagree as [Er Ev].
  - split; [exact Hp1|]. split; [exact Hp2|]. rewrite app_nil_r, Ez2. unfold rest. cbn [reinput peer with_input read_buffer read_position]. by rewrite Ez1.
  - done.
  - unfold unread. cbn [reinput peer with_input read_buffer read_position packet_size].
    assert (zlength b1 + 2 <= Z.of_nat F2) as HF by (unfold F2, packet_fuel, zlength; cbn; fold b1; lia).
    destruct (packet_size (peer cL)); lia.
  - assert (running (reinput cL b2 pos2)) as HrX2 by (by apply running_reinput). apply (packet_fuel_enough _ (proj1 HrX2)).
  - destruct (packet_loop ctx K now iL (reinput cL b1 pos1)) as [[? ?] ?], (packet_loop _ _ _ _ (reinput cL b2 pos2)) as [[? ?] ?]. done.
Qed.

End PeerStream.
