(* ===== verification/PeerContract.v ===== *)
(** The theorems about one connection ([Peer]), with concrete instances of [bip324] and of the stores. *)

From S2P Require Import Prelude Bytes Files JournalEntry JournalFile Udata ProofStore HeaderIndex Admission Wire Headers Peer PeerSafety PeerStream.
Import JournalEntry.JournalEntry JournalFile.JournalFile Udata.Udata Wire.Wire V2Codec V2CodecSpec Headers.HeaderRequests Admission.Admission Files.Files Peer.Peer PeerSafety.PeerSafety PeerStream.PeerStream.

Module PeerContract.

Section Contract.
Context `{BitcoinCodec} `{P2pCodec} `{KvStore} `{HeightsDb} `{Bip324Laws}.

(** What happens to a connection that stays: the socket can be read or written, the worker announces a block, and
    it takes the name of the software.  The stores of the context may be others each time. *)
Inductive PeerStep : Conn -> Conn -> Prop :=
| StepRead ctx now stream c c' : reads_fit 0 stream -> on_readable ctx now stream c = (c', Good tt) -> PeerStep c c'
| StepWrite stream c p' : writes_fit (zlength (write_buffer (peer c)) - write_position (peer c)) stream ->
    on_writable stream (peer c) = (p', Good tt) -> PeerStep c {| peer := p'; stores := stores c |}
| StepSend m c p' : is_established (peer c) = true -> send_message m (peer c) = (p', Good tt) -> PeerStep c {| peer := p'; stores := stores c |}
| StepTake c : PeerStep c {| peer := (take_announced_software (peer c)).1; stores := stores c |}.

Lemma same_input_state p p' : handshake p = None -> same_input p p' -> state_ok p (handshake p) -> state_ok p' (handshake p').
Proof. intros Hh [Eh Ei Eo _ _ _ _] Hs. rewrite Eh, Hh in *. cbn in *. rewrite Ei. by destruct Hs; split; [|apply Eo]. Qed.

Lemma same_input_settled p p' : same_input p p' -> settled p -> settled p'.
Proof. intros [Eh _ _ Es Eb Ep _]. unfold settled. by rewrite Eh, Es, Eb, Ep. Qed.

Lemma step_ok c c' : PeerStep c c' -> peer_ok (peer c) -> settled (peer c) -> peer_ok (peer c') /\ settled (peer c').
Proof.
  intros Hstep Hp Hs. pose proof Hp as [Hb Hst].
  destruct Hstep as [ctx now stream c c' Hf E|stream c p' Hf E|m c p' He E|c]; cbn [peer].
  - exact (read_loop_ok ctx now 0 stream c c' Hf Hp Hs E).
  - apply on_writable_ok in E as (Hb' & Hsame & _ & Hlen); [|done|done]. split; [|by eapply same_input_settled]. split; [done|].
    destruct (handshake (peer c)) as [[h|h|o g n]|] eqn:Eh; rewrite (si_handshake _ _ Hsame), Eh; cbn in *; try done.
    + lia.
    + destruct Hst as [Hi Ho]. split; [by rewrite (si_inbound _ _ Hsame)|by apply (si_outbound _ _ Hsame)].
  - unfold send_message in E. apply pr_bind_inv in E as (q & [payload|] & Eq & E); [|by destruct E]. injection Eq as <- _.
    apply send_payload_ok in E as [Hb' Hsame]; [|done]. split; [|by eapply same_input_settled]. split; [done|].
    apply (same_input_state (peer c)); [|done|done]. unfold is_established in He. by destruct (handshake (peer c)).
  - split; [|done]. split; [by eapply base_ok_same|done].
Qed.

Lemma new_peer_ok magic entropy now p : new magic entropy now = Good p -> peer_ok p /\ settled p.
Proof.
  intros E. unfold new in E. destruct (new_handshake magic entropy) as [[h key]|] eqn:Eh; [|done].
  cbn [or_err mbind pr_bind presult_bind] in E. injection E as <-.
  apply key_length in Eh. pose proof write_buffer_room. pose proof (zlength_nonneg key). split; [|done].
  split; [|cbn; lia]. split; cbn [read_buffer read_position write_buffer write_position handshake_bytes handshake_packets rate_limiter packet_size];
    change (zlength (@nil Z)) with 0; try done; try lia.
Qed.

Lemma steps_ok c c' : rtc PeerStep c c' -> peer_ok (peer c) -> settled (peer c) -> peer_ok (peer c') /\ settled (peer c').
Proof. induction 1 as [|c c1 c2 Hs _ IH]; intros Hp Ht; [done|]. destruct (step_ok _ _ Hs Hp Ht). by apply IH. Qed.

(** ** What the loops do, without fuel *)

Inductive HandshakeRun : Peer -> Peer * presult unit -> Prop :=
| HandshakeDone p : handshake p = None -> HandshakeRun p (p, Good tt)
| HandshakeWaits p p' : is_Some (handshake p) -> advance_handshake p = (p', Good false) -> HandshakeRun p (p', Good tt)
| HandshakeFails p p' e : is_Some (handshake p) -> advance_handshake p = (p', Bad e) -> HandshakeRun p (p', Bad e)
| HandshakeTurn p p' r : is_Some (handshake p) -> advance_handshake p = (p', Good true) -> HandshakeRun p' r -> HandshakeRun p r.

Inductive PacketRun (ctx : WorkerContext) (now : Z) : InboundCipher -> Conn -> Conn * InboundCipher * presult unit -> Prop :=
| PacketWaits i c c' i' : process_packet ctx now i c = (c', i', Good false) -> PacketRun ctx now i c (c', i', Good tt)
| PacketFails i c c' i' e : process_packet ctx now i c = (c', i', Bad e) -> PacketRun ctx now i c (c', i', Bad e)
| PacketTurn i c c' i' r : process_packet ctx now i c = (c', i', Good true) -> PacketRun ctx now i' c' r -> PacketRun ctx now i c r.

Lemma handshake_loop_run fuel p : peer_ok p -> aligned p -> turns_left p < Z.of_nat fuel -> HandshakeRun p (handshake_loop fuel p).
Proof.
  revert p; induction fuel as [|fuel IH]; intros p Hp Ha Hf.
  { exfalso. pose proof Hp as [[] _]. unfold turns_left, MAX_HANDSHAKE_PACKETS in *. destruct (handshake p) as [[]|]; lia. }
  cbn [handshake_loop]. destruct (handshake p) eqn:Eh; [|by constructor]. unfold mbind, pr_bind.
  assert (is_Some (handshake p)) as Hsome by (rewrite Eh; by eexists).
  destruct (advance_handshake p) as [p1 [[]|e]] eqn:Ea; [|by apply HandshakeWaits|by apply HandshakeFails].
  eapply HandshakeTurn; [done|exact Ea|]. apply advance_ok in Ea as (Hp1 & Ha1 & Hlt); [|done..]. apply IH; [done..|lia].
Qed.

Lemma packet_loop_run ctx now fuel i c : base_ok (peer c) -> handshake (peer c) = None -> is_Some (outbound (peer c)) ->
  unread (peer c) < Z.of_nat fuel -> PacketRun ctx now i c (packet_loop ctx fuel now i c).
Proof.
  revert i c; induction fuel as [|fuel IH]; intros i c Hb Hh Ho Hf.
  { exfalso. unfold unread in Hf. destruct Hb. destruct (packet_size (peer c)); lia. }
  cbn [packet_loop]. destruct (process_packet ctx now i c) as [[c1 i1] [[]|e]] eqn:Ep; [|by apply PacketWaits|by apply PacketFails].
  eapply PacketTurn; [exact Ep|]. apply process_packet_ok in Ep as (Hb1 & Hh1 & Ho1 & _ & Hr); [|done..]. apply IH; [done..|lia].
Qed.

Lemma turns_enough p : peer_ok p -> turns_left p < Z.of_nat HANDSHAKE_TURNS.
Proof.
  intros [[] _]. unfold turns_left, HANDSHAKE_TURNS. destruct (handshake p) as [[]|]; lia.
Qed.

(** ** The parts of a proof *)

(** The bit of a bitmap for one index, counted from the lowest bit of the first byte. *)
Definition asked (bitmap : bytes) (i : nat) : Prop :=
  exists byte, bitmap !! (i / 8)%nat = Some byte /\ Z.testbit byte (Z.of_nat (i mod 8)) = true.
#[local] Instance asked_dec bitmap i : Decision (asked bitmap i).
Proof.
  unfold asked. destruct (bitmap !! _) as [b|]; [|right; by intros (? & ? & _)].
  destruct (Z.testbit b (Z.of_nat (i mod 8))) eqn:E; [left; by exists b|right]. intros (? & [= <-] & ?). congruence.
Defined.

Lemma bit_set_asked bitmap i : bit_set bitmap i = true <-> asked bitmap i.
Proof.
  unfold bit_set, asked. destruct (bitmap !! _) as [b|]; [|split; [done|by intros (? & ? & _)]].
  pose proof (Nat.mod_upper_bound i 8 ltac:(lia)). rewrite shl_one, land_pow2_eqb, negb_involutive by lia.
  split; [intros E; by exists b|]. by intros (? & [= <-] & ?).
Qed.

(** The values at the asked indices, in order. *)
Definition parts_at {T} (bitmap : bytes) (values : list T) (selected : list T) : Prop :=
  Some <$> selected = (fun i => values !! i) <$> base.filter (asked bitmap) (seq 0 (length values)).

Lemma select_bitmap_parts {T} (values : list T) bitmap : parts_at bitmap values (select_bitmap values bitmap).
Proof.
  unfold parts_at, select_bitmap. induction values as [|x l IH] using rev_ind; [done|].
  rewrite imap_app, length_app, seq_app, !filter_app, !fmap_app, IH. f_equal.
  - apply list_fmap_ext. intros k i Hi. apply list_elem_of_lookup_2, list_elem_of_filter in Hi as [_ Hi%elem_of_seq]. by rewrite lookup_app_l by lia.
  - cbn [imap seq length]. rewrite !filter_cons, !filter_nil, Nat.add_0_r, Nat.add_0_l. cbn [fst].
    destruct (decide (bit_set bitmap (length l) = true)) as [Hs|Hs]; rewrite bit_set_asked in Hs.
    + rewrite decide_True by done. cbn. by rewrite list_lookup_middle by done.
    + by rewrite decide_False by done.
Qed.

Lemma select_bitmap_In {T} (values : list T) bitmap x : x ∈ select_bitmap values bitmap -> x ∈ values.
Proof.
  intros Hx. apply (list_elem_of_fmap_2 Some) in Hx. pose proof (select_bitmap_parts values bitmap) as E. unfold parts_at in E. rewrite E in Hx.
  apply list_elem_of_fmap in Hx as (i & Hi & _). by eapply list_elem_of_lookup_2.
Qed.

Lemma requested_proof_ok request stored : get_proof_ok request -> proof_ok stored ->
  hash_ok (up_block_hash (requested_proof request stored)) /\ Forall hash_ok (proof_hashes (requested_proof request stored))
  /\ Forall is_u64 (target_locations (requested_proof request stored)) /\ Forall leaf_ok (leaf_data (requested_proof request stored)).
Proof.
  intros (Hh & _) (Ht & Hhs & Hl). unfold requested_proof. cbn [up_block_hash proof_hashes target_locations leaf_data].
  destruct Ht as [Ht _], Hhs as [Hhs _], Hl as [Hl _]. rewrite Forall_forall in Hhs. rewrite Forall_forall in Hl.
  split_and!; [done| |by destruct (negb _)|]; destruct (negb _); apply Forall_forall; try done; intros x Hx%select_bitmap_In; auto.
Qed.

Lemma concat_length {A} (enc : A -> bytes) n l : (forall x, x ∈ l -> n <= zlength (enc x)) -> n * zlength l <= zlength (enc_list enc l).
Proof.
  induction l as [|x l IH]; intros Hn; [change (enc_list enc []) with (@nil Z); change (zlength (@nil A)) with 0; change (zlength (@nil Z)) with 0; lia|].
  rewrite enc_list_cons, zlength_cons, zlength_app.
  pose proof (Hn x ltac:(left)). assert (n * zlength l <= zlength (enc_list enc l)) by (apply IH; intros; apply Hn; by right). lia.
Qed.

Lemma get_proof_ok_stored f index stored : bytes_ok (now (ProofStore.ProofStore.pf_file f)) ->
  ProofStore.ProofStore.get_proof f index = Some stored -> proof_ok stored.
Proof.
  intros Hf E. unfold ProofStore.ProofStore.get_proof in E. destruct (ProofStore.ProofStore.contains f index); [|done].
  apply bind_Some in E as (bs & Er & Ed). unfold read_exact_at in Er. case_bool_decide; [|done]. injection Er as <-.
  unfold ProofStore.ProofStore.deserialize in Ed. destruct (decode_proof _) as [[p [|]]|] eqn:E; [|done..]. injection Ed as ->.
  apply (enc_dec proof_codec) in E as [_ ?]; [done|]. unfold ztake, zdrop. auto.
Qed.

Lemma leaf_length l : leaf_ok l -> MIN_COMPACT_LEAF_BYTES <= zlength (encode_leaf l).
Proof.
  intros _. unfold encode_leaf, MIN_COMPACT_LEAF_BYTES. rewrite !zlength_app.
  assert (1 <= zlength (encode_spk (spk_ty l))) by (destruct (spk_ty l); cbn [encode_spk]; rewrite zlength_cons;
    match goal with |- context [zlength ?l] => pose proof (zlength_nonneg l) end; lia).
  unfold zlength at 1 2. rewrite !length_le_bytes. lia.
Qed.

(** A proof that fits a packet is below the decoder's limits. *)
Lemma sent_proof_reads `{!P2pLaws} p : 4000000 <= vec_limit -> zlength (29 :: encode_utreexo_proof p) <= MAX_PACKET_SIZE ->
  hash_ok (up_block_hash p) -> Forall hash_ok (proof_hashes p) -> Forall is_u64 (target_locations p) -> Forall leaf_ok (leaf_data p) ->
  decode_utreexo_proof (encode_utreexo_proof p) = Ok (p, []).
Proof.
  intros Hlim Hlen Hbh Hhs Hts Hls. pose proof (dec_enc utreexo_proof_codec p []) as E. rewrite app_nil_r in E. apply E. clear E.
  unfold encode_utreexo_proof in Hlen. rewrite zlength_cons, !zlength_app in Hlen.
  assert (zlength (up_block_hash p) = 32) as Hb by (unfold zlength; destruct Hbh as [Hb _]; by rewrite Hb).
  pose proof (zlength_nonneg (encode_items id (proof_hashes p))). pose proof (zlength_nonneg (encode_items varint_encode (target_locations p))).
  assert (MIN_COMPACT_LEAF_BYTES * zlength (leaf_data p) <= zlength (encode_items encode_leaf (leaf_data p))) as Hleaf.
  { unfold encode_items. rewrite zlength_app. pose proof (zlength_nonneg (varint_encode (zlength (leaf_data p)))).
    assert (MIN_COMPACT_LEAF_BYTES * zlength (leaf_data p) <= zlength (enc_list encode_leaf (leaf_data p))); [|lia].
    apply concat_length. intros l Hl. apply leaf_length. by eapply Forall_forall. }
  pose proof (zlength_nonneg (leaf_data p)). unfold MAX_PACKET_SIZE, MAX_UTREEXO_LEAVES, MIN_COMPACT_LEAF_BYTES in *.
  split_and!; try done; try lia. apply Z.div_le_lower_bound; [done|]. unfold MAX_PACKET_SIZE. apply (Z.le_trans _ _ _ Hleaf). lia.
Qed.

(** What sending a payload does. *)
Lemma send_payload_effect payload p p' : 0 <= write_position p <= zlength (write_buffer p) -> send_payload payload p = (p', Good tt) ->
  zlength payload <= MAX_PACKET_SIZE /\ exists o o' packet, outbound p = Some o /\ encrypt o payload = (o', Ok packet)
    /\ p' = with_output (with_ciphers p (inbound p) (Some o')) (zdrop (write_position p) (write_buffer p) ++ packet) 0.
Proof.
  intros Hw E. unfold send_payload in E. pstep E as u1 Em. plift Em. apply guard_good, negb_true_iff, Z.ltb_ge in Em. split; [done|].
  pstep E as q Eq. injection Eq as <- <-. pstep E as u2 Eg. plift Eg. pstep E as u3 Em2. injection Em2 as <- _.
  pstep E as q Eq. injection Eq as <- <-. pstep E as o Eo. plift Eo. destruct (encrypt o payload) as [o' packet] eqn:Ee.
  pstep E as u4 Em3. injection Em3 as <- _. pstep E as pk Ep. plift Ep. apply or_err_good in Ep. subst packet. injection E as <-.
  exists o, o', pk. destruct (Z.ltb_spec 0 (write_position p)); cbn [outbound with_output] in Eo.
  - by destruct (outbound p) as [x|]; [injection Eo as ->|].
  - assert (write_position p = 0) as Ez by lia. destruct (outbound p) as [x|] eqn:Ex; [injection Eo as ->|done].
    split; [done|]. split; [done|]. cbn. rewrite Ez. by destruct p.
Qed.

(** The answer to a request for a proof: what is asked for, and nothing else, from the stored proof. *)
Definition answers_proof (request : GetUtreexoProof) (stored : CompactBlockProof) (answer : UtreexoProof) : Prop :=
  up_block_hash answer = gup_block_hash request
  /\ target_locations answer = (if Z.testbit (request_mask request) 0 then targets (proof stored) else [])
  /\ (if Z.testbit (request_mask request) 1 then proof_hashes answer = hashes (proof stored)
      else parts_at (proof_bitmap request) (hashes (proof stored)) (proof_hashes answer))
  /\ (if Z.testbit (request_mask request) 2 then leaf_data answer = leaves stored
      else parts_at (leaf_bitmap request) (leaves stored) (leaf_data answer)).

Lemma requested_proof_answers request stored : answers_proof request stored (requested_proof request stored).
Proof.
  unfold answers_proof, requested_proof. cbn [up_block_hash proof_hashes target_locations leaf_data].
  change TARGETS with (2 ^ 0). change PROOF_HASHES with (2 ^ 1). change LEAF_DATA with (2 ^ 2).
  rewrite !land_pow2_eqb, !negb_involutive by lia. split_and!; [done|done|..];
    (match goal with |- context [Z.testbit ?m ?k] => destruct (Z.testbit m k) end); [done|apply select_bitmap_parts|done|apply select_bitmap_parts].
Qed.

End Contract.
(** C18: however a client behaves, in every run of events on one connection (reading any bytes, writing, announcing
    blocks), as long as it is kept its buffered input stays within 1 MiB, its buffered output within the largest encrypted packet, the handshake
    takes at most 1 MiB and 64 packets, an announced packet size is at most 256 KiB, and the ciphers are there exactly when the
    handshake is over. *)
Theorem peer_resources_bounded `{BitcoinCodec} `{P2pCodec} `{KvStore} `{HeightsDb} `{Bip324Laws} (magic entropy : bytes) (now : Z) (p : Peer)
  (s : Stores) (c : Conn) (Hnew : new magic entropy now = Good p) (Hrun : rtc PeerStep {| peer := p; stores := s |} c) :
  zlength (read_buffer (peer c)) <= MAX_HANDSHAKE_BYTES /\ zlength (write_buffer (peer c)) <= MAX_WRITE_BUFFER_SIZE
  /\ handshake_bytes (peer c) <= MAX_HANDSHAKE_BYTES /\ handshake_packets (peer c) <= MAX_HANDSHAKE_PACKETS
  /\ (forall n, packet_size (peer c) = Some n -> n <= MAX_INBOUND_PACKET_SIZE)
  /\ (is_established (peer c) = true <-> handshake (peer c) = None).
Proof.
  apply new_peer_ok in Hnew as [Hp Hs]. apply steps_ok in Hrun as [[Hb Hst] Ht]; [|done..].
  destruct (settled_bound _ Hb Hst Ht) as [Hr _]. destruct Hb as [_ _ _ ? [_ ?] [_ ?] _ Hsz]. split_and!; try done.
  - intros n En. by apply Hsz.
  - unfold is_established. destruct (handshake (peer c)); [done|]. destruct Hst as [[i ->] [o ->]]. done.
Qed.

(** C30: the two loops that a client's bytes drive end: the handshake within its 68 turns, the packets within the bytes that are buffered. What
    they return is what the turns lead to, no fuel in it. *)
Theorem peer_loops_finish `{BitcoinCodec} `{P2pCodec} `{KvStore} `{HeightsDb} `{Bip324Laws} (ctx : WorkerContext) (now : Z) (c : Conn)
  (Hok : peer_ok (peer c)) (Ha : aligned (peer c)) :
  HandshakeRun (peer c) (handshake_loop HANDSHAKE_TURNS (peer c))
  /\ (handshake (peer c) = None -> forall i, PacketRun ctx now i c (packet_loop ctx (packet_fuel (peer c)) now i c)).
Proof.
  split; [apply handshake_loop_run; [done..|by apply turns_enough]|]. intros Hh i. destruct Hok as [Hb Hs]. rewrite Hh in Hs.
  apply packet_loop_run; [done|done|apply Hs|by apply packet_fuel_enough].
Qed.

(** C17: it does not matter how the network cuts the stream: handling some bytes and then the bytes that follow gives the
    same outcome, answers and state as handling them all at once, and an error in the first part is an error of
    the whole. *)
Theorem stream_cut_irrelevant `{BitcoinCodec} `{P2pCodec} `{KvStore} `{HeightsDb} `{Bip324Laws} (ctx : WorkerContext) (now : Z) (c : Conn) (d : bytes)
  (Hok : peer_ok (peer c)) (Hh : handshake (peer c) = None) (Hlen : zlength (read_buffer (peer c)) + zlength d <= INPUT_LIMIT) :
  let first := process_messages ctx now c in
  let whole := process_messages ctx now (feed c d) in
  match first.2 with
  | Good _ =>
      let second := process_messages ctx now (feed first.1 d) in
      second.2 = whole.2 /\ (whole.2 = Good tt -> unread_view second.1 = unread_view whole.1)
  | Bad e => whole.2 = Bad e
  end.
Proof. by apply stream_cut. Qed.

(** C19: a request for the proof of a block is answered, when the block has a stored proof, with one encrypted packet that decodes to exactly the
    asked parts: the proof hashes and the leaves that the mask asks for in full or whose bits are set in the bitmap, the targets
    that the mask asks for.  Without a stored proof nothing is sent; an unreadable index is never answered. *)
Theorem proof_request_answered `{BitcoinCodec} `{P2pCodec} `{!P2pLaws} `{KvStore} `{HeightsDb} `{Bip324} (ctx : WorkerContext) (request : GetUtreexoProof)
  (c c' : Conn) (Hreq : get_proof_ok request) (Hlim : 4000000 <= vec_limit) (Hfile : bytes_ok (now (ProofStore.ProofStore.pf_file (proof_backend ctx))))
  (Hw : 0 <= write_position (peer c) <= zlength (write_buffer (peer c))) (E : handle_get_utreexo_proof ctx request c = (c', Good tt)) :
  match ProofStore.ProofStore.get_index (proof_index ctx) (gup_block_hash request) with
  | Err _ => False
  | Ok index =>
      match index ≫= ProofStore.ProofStore.get_proof (proof_backend ctx) with
      | None => c' = c
      | Some stored => exists body answer o o' packet,
          decode_utreexo_proof body = Ok (answer, []) /\ answers_proof request stored answer
          /\ outbound (peer c) = Some o /\ encrypt o (29 :: body) = (o', Ok packet)
          /\ c' = {| peer := with_output (with_ciphers (peer c) (inbound (peer c)) (Some o'))
                       (zdrop (write_position (peer c)) (write_buffer (peer c)) ++ packet) 0; stores := stores c |}
      end
  end.
Proof.
  unfold handle_get_utreexo_proof in E. pstep E as u Eg. plift Eg. pstep E as index Ei. plift Ei. apply or_err_good in Ei. rewrite Ei.
  destruct index as [index|]; cbn [mbind option_bind]; [|by inversion E].
  destruct (ProofStore.ProofStore.get_proof (proof_backend ctx) index) as [stored|] eqn:Ep; [|by inversion E].
  pstep E as payload Em. plift Em. subst payload. unfold on_peer, p_on in E. destruct (send_payload _ (peer c)) as [p r] eqn:Es.
  injection E as <- ->. apply send_payload_effect in Es as (Hlen & o & o' & packet & Eo & Ee & ->); [|done].
  apply get_proof_ok_stored in Ep; [|done]. destruct (requested_proof_ok request stored Hreq Ep) as (H1' & H2' & H3' & H4').
  exists (encode_utreexo_proof (requested_proof request stored)), (requested_proof request stored), o, o', packet.
  split; [by apply sent_proof_reads|]. split; [apply requested_proof_answers|done].
Qed.

(** ** Concrete inputs *)

Section Demo.
#[local] Existing Instances toy_bitcoin toy_types HeaderIndex.HeaderIndex.raw_headers toy_p2p toy_p2p_laws
  HeaderIndex.HeaderIndex.small_db ProofStore.ProofStore.map_kv.

(** Nothing is encrypted: a packet is its length, a header byte, the contents and a tag of zeros.  The garbage ends with
    a byte 255. *)
Definition toy_packet (header : Z) (contents : bytes) : bytes := le_bytes 3 (zlength contents) ++ [header] ++ contents ++ zeros 16.
Definition toy_bip324 : Bip324 :=
  {| SentKey := unit; ReceivedKey := unit; SentVersion := unit; ReceivedGarbage := unit; InboundCipher := Z; OutboundCipher := Z;
     new_handshake := fun _ _ => Ok (tt, replicate 64 7);
     receive_key := fun _ _ => Ok tt;
     send_version := fun _ => Ok (tt, replicate 36 8);
     receive_garbage := fun h input =>
       match list_find (fun b => b = 255) input with Some (i, _) => Ok (inl (tt, Z.of_nat i + 1)) | None => Ok (inr h) end;
     handshake_packet_len := fun g bs => Ok (Z.max 0 (le_value bs) + 17, g);
     receive_version := fun g bs => match bs with 0 :: _ => Ok (inl (0, 0)) | _ => Ok (inr g) end;
     decrypt_packet_len := fun i bs => (Z.max 0 (le_value bs) + 17, i);
     decrypt_in_place := fun i bs => (i + 1, Ok (match bs with 128 :: _ => Decoy | _ => Genuine end, ztake (zlength bs - 16) bs));
     encryption_buffer_len := fun n => n + 20;
     encrypt := fun o payload => (o + 1, Ok (toy_packet 0 payload)) |}.
#[local] Existing Instance toy_bip324.

Definition toy_bip324_laws : Bip324Laws.
Proof.
  split; cbn -[toy_packet zlength replicate Z.max le_value list_find].
  - lia.
  - intros o payload o' packet [= _ <-]. unfold toy_packet. rewrite !zlength_app. unfold zlength at 1, zeros. rewrite length_le_bytes.
    change (zlength [0]) with 1. unfold zlength at 2. rewrite length_replicate. lia.
  - by intros _ _ h key [= _ <-].
  - by intros _ h version [= _ <-].
  - intros h input g n. destruct (list_find _ _) as [[i b]|]; [|done]. intros [= _ <-]. lia.
  - intros g0 bs n g [= <- _]. lia.
  - lia.
Defined.
#[local] Existing Instance toy_bip324_laws.

Definition demo_ctx : WorkerContext :=
  {| proof_backend := ProofStore.ProofStore.new (encode_proof sample_proof);
     proof_index := (ProofStore.ProofStore.run_index (ProofStore.ProofStore.AppendBatch
       [({| ProofStore.ProofStore.offset := 0; ProofStore.ProofStore.size := zlength (encode_proof sample_proof);
            ProofStore.ProofStore.proof_forest_rows := Some 31 |}, replicate 32 5)]) ProofStore.ProofStore.demo_index).1;
     header_source := None; put_io := fun _ _ => true |}.

(** A peer past its handshake, with some input. *)
Definition demo_peer (input : bytes) : Peer :=
  {| connected_at := 0; handshake := None; handshake_bytes := 100; announced_software := None; handshake_packets := 1;
     inbound := Some 0; outbound := Some 0; packet_size := None; rate_limiter := new_limiter 0; read_buffer := input; read_position := 0;
     write_buffer := [1; 2; 3]; write_position := 1 |}.
Definition demo_conn (input : bytes) : Conn := {| peer := demo_peer input; stores := demo_stores |}.
Definition ping : bytes := toy_packet 0 (18 :: le_bytes 8 77).

Lemma demo_peer_ok input : zlength input <= INPUT_LIMIT -> peer_ok (demo_peer input).
Proof.
  intros Hl. pose proof (zlength_nonneg input). split; [|split; by eexists]. split; cbn; try done; try lia.
Qed.

(** The client's key, garbage, a decoy, its version packet and a ping, in two reads. *)
Definition demo_stream : list ReadOutcome :=
  [Read (replicate 60 9); ReadInterrupted; Read (replicate 4 9 ++ [1; 2; 255] ++ toy_packet 128 [6; 6] ++ toy_packet 0 [] ++ ping)].

Lemma peer_resources_bounded_witness : exists c, on_readable demo_ctx 5 demo_stream
    {| peer := default (demo_peer []) (match new [] [] 0 with Good p => Some p | Bad _ => None end); stores := demo_stores |} = (c, Good tt)
  /\ is_established (peer c) = true /\ zlength (write_buffer (peer c)) = 64 + 36 + 29 /\ zlength (read_buffer (peer c)) <= 1024 * 1024.
Proof.
  set (p := default (demo_peer []) (match new [] [] 0 with Good p => Some p | Bad _ => None end)).
  destruct (on_readable demo_ctx 5 demo_stream {| peer := p; stores := demo_stores |}) as [c r] eqn:E.
  assert (match r with Good tt => is_established (peer c) && (zlength (write_buffer (peer c)) =? 64 + 36 + 29) | Bad _ => false end = true) as Er.
  { replace r with (on_readable demo_ctx 5 demo_stream {| peer := p; stores := demo_stores |}).2 by (by rewrite E).
    replace c with (on_readable demo_ctx 5 demo_stream {| peer := p; stores := demo_stores |}).1 by (by rewrite E). eval_ok. }
  destruct r as [[]|]; [|discriminate Er]. apply andb_true_iff in Er as [Ee Ew]. exists c. split; [reflexivity|]. split; [exact Ee|].
  split; [by apply Z.eqb_eq|].
  refine (proj1 (peer_resources_bounded [] [] 0 p demo_stores c eq_refl _)).
  eapply rtc_once, StepRead; [|exact E]. split; [|split; [|exact I]]; unfold fits; by_decide.
Defined.

Lemma peer_loops_finish_witness : exists r, PacketRun demo_ctx 5 0 (demo_conn ping) r /\ r.2 = Good tt.
Proof.
  eexists. split.
  - refine (proj2 (peer_loops_finish demo_ctx 5 (demo_conn ping) _ _) _ 0); [apply demo_peer_ok; by_decide|exact I|reflexivity].
  - eval_ok.
Defined.

Lemma stream_cut_irrelevant_witness :
  (process_messages demo_ctx 5 (feed (process_messages demo_ctx 5 (demo_conn (take 5 (ping ++ ping)))).1 (drop 5 (ping ++ ping)))).2 = Good tt.
Proof.
  pose proof (stream_cut_irrelevant demo_ctx 5 (demo_conn (take 5 (ping ++ ping))) (drop 5 (ping ++ ping))
    ltac:(apply demo_peer_ok; by_decide) eq_refl ltac:(by_decide)) as T. cbv zeta in T.
  assert (match (process_messages demo_ctx 5 (demo_conn (take 5 (ping ++ ping)))).2 with Good tt => true | _ => false end = true) as E by eval_ok.
  destruct (process_messages demo_ctx 5 (demo_conn (take 5 (ping ++ ping)))).2 as [[]|]; [|discriminate E].
  destruct T as [T _]. rewrite T. eval_ok.
Defined.

(** The second of two leaves and no hashes are asked for. *)
Definition demo_request : GetUtreexoProof :=
  {| gup_block_hash := replicate 32 5; request_mask := 1; proof_bitmap := []; leaf_bitmap := [1] |}.

Lemma proof_request_answered_witness : exists c body answer, handle_get_utreexo_proof demo_ctx demo_request (demo_conn []) = (c, Good tt)
  /\ decode_utreexo_proof body = Ok (answer, []) /\ answers_proof demo_request sample_proof answer
  /\ write_buffer (peer c) = [2; 3] ++ toy_packet 0 (29 :: body).
Proof.
  destruct (handle_get_utreexo_proof demo_ctx demo_request (demo_conn [])) as [c r] eqn:E.
  assert (match r with Good tt => true | Bad _ => false end = true) as Er.
  { replace r with (handle_get_utreexo_proof demo_ctx demo_request (demo_conn [])).2 by (by rewrite E). eval_ok. }
  destruct r as [[]|]; [|discriminate Er].
  pose proof (proof_request_answered demo_ctx demo_request (demo_conn []) c ltac:(split_and!; by_decide) ltac:(by_decide) ltac:(by_decide) ltac:(by_decide) E) as T.
  assert (ProofStore.ProofStore.get_index (proof_index demo_ctx) (gup_block_hash demo_request) = Ok (Some {| ProofStore.ProofStore.offset := 0;
    ProofStore.ProofStore.size := zlength (encode_proof sample_proof); ProofStore.ProofStore.proof_forest_rows := Some 31 |})) as Ei by eval_ok.
  rewrite Ei in T. cbn [mbind option_bind] in T.
  assert (ProofStore.ProofStore.get_proof (proof_backend demo_ctx) {| ProofStore.ProofStore.offset := 0;
    ProofStore.ProofStore.size := zlength (encode_proof sample_proof); ProofStore.ProofStore.proof_forest_rows := Some 31 |} = Some sample_proof) as Ep by eval_ok.
  rewrite Ep in T. destruct T as (body & answer & o & o' & packet & T1 & T2 & T3 & T4 & T5).
  exists c, body, answer. split; [reflexivity|]. split; [exact T1|]. split; [exact T2|]. injection T4 as _ <-. rewrite T5. reflexivity.
Defined.

End Demo.

End PeerContract.
