(* ===== verification/Server.v ===== *)
(** The threads of the server ([Node], [Worker] and [Acceptor] of [src/src/node.rs]): the acceptor admits sockets and hands them
    to the workers over bounded channels, each worker advances its connections as they become ready, and all share
    the registry of peers.  The theorems are in [ServerSafety]. *)

From S2P Require Import Prelude Bytes Files JournalFile Udata ProofStore HeaderIndex Admission Wire Headers Peer.
Import Wire.Wire V2Codec Headers.HeaderRequests Admission.Admission Files.Files Peer.Peer.

Module Server.

Definition WORKERS_PER_CLUSTER : Z := 4.
Definition MAX_ACCEPTS_PER_EVENT : Z := 64.
Definition MAX_WORKER_MESSAGES_PER_TICK : Z := 64.
Definition WORKER_QUEUE_CAPACITY : Z := MAX_PEERS / WORKERS_PER_CLUSTER * 2.
Definition PEER_LOG_INTERVAL : Z := from_secs 60.

Definition Token : Type := Z.
Definition SocketAddr : Type := IpAddr * Z.

Section Server.
Context `{BitcoinCodec} `{P2pCodec} `{KvStore} `{HeightsDb} `{Bip324} `{HashOrder}.

Inductive WorkerMessage :=
| NewConnection (address : SocketAddr) (id : Z)
| NewBlock (block_hash : bytes)
| Disconnect (id : Z).

(** The socket itself is left out, but not what it is polled for: always reading, and writing if [pc_writable]. *)
Record PeerConnection := { pc_address : SocketAddr; pc_id : Z; pc_peer : Peer; pc_writable : bool }.

Definition with_peer (c : PeerConnection) (p : Peer) : PeerConnection :=
  {| pc_address := pc_address c; pc_id := pc_id c; pc_peer := p; pc_writable := pc_writable c |}.
Definition with_interest (c : PeerConnection) (writable : bool) : PeerConnection :=
  {| pc_address := pc_address c; pc_id := pc_id c; pc_peer := pc_peer c; pc_writable := writable |}.

(** A worker's own state, and what it shares. *)
Record Worker := { next_token : Token; conns : gmap Token PeerConnection }.
Record WorkerState := { worker_ : Worker; registry : PeerRegistry; shared : Stores }.

Definition with_conns (w : Worker) (m : gmap Token PeerConnection) : Worker := {| next_token := next_token w; conns := m |}.
Definition set_worker (s : WorkerState) (w : Worker) : WorkerState := {| worker_ := w; registry := registry s; shared := shared s |}.
Definition set_registry (s : WorkerState) (r : PeerRegistry) : WorkerState := {| worker_ := worker_ s; registry := r; shared := shared s |}.
Definition set_conn (s : WorkerState) (token : Token) (c : PeerConnection) : WorkerState :=
  set_worker s (with_conns (worker_ s) (<[token := c]> (conns (worker_ s)))).

(** ** Removing a connection *)

Definition record_disconnect (r : PeerRegistry) (peer_id : Z) (reason : PeerError) (now : Z) : PeerRegistry * option IpAddr :=
  match reason with
  | RateLimitExceeded => ban r peer_id now
  | _ => (remove r peer_id, None)
  end.

Definition remove_peer (token : Token) (reason : PeerError) (now : Z) (s : WorkerState) : WorkerState :=
  match conns (worker_ s) !! token with
  | None => s
  | Some connection =>
      let s := set_worker s (with_conns (worker_ s) (delete token (conns (worker_ s)))) in
      set_registry s (record_disconnect (registry s) (pc_id connection) reason now).1
  end.

Definition disconnect_peer (id now : Z) (s : WorkerState) : WorkerState :=
  match List.find (fun tc => pc_id tc.2 =? id) (in_order (conns (worker_ s))) with
  | Some (token, _) => remove_peer token Evicted now s
  | None => s
  end.

(** ** Adding a connection *)

Fixpoint free_token (attempts : nat) (w : Worker) : Worker * option Token :=
  match attempts with
  | O => (w, None)
  | S attempts =>
      let token := next_token w in
      let w := {| next_token := wrap 64 (next_token w + 1); conns := conns w |} in
      match conns w !! token with
      | None => (w, Some token)
      | Some _ => free_token attempts w
      end
  end.
Definition allocate_token (w : Worker) : Worker * option Token := free_token (S (size (conns w))) w.

(** What the environment decides when a connection is added: the socket's options, its registration, the entropy
    of the handshake and the time. *)
Record AddEnv := { magic : bytes; set_nodelay : result unit; register : result unit; entropy : bytes; added_at : Z }.

Definition add_peer (env : AddEnv) (id : Z) (address : SocketAddr) : PR Worker unit :=
  token ← (fun w => let '(w, token) := allocate_token w in (w, match token with Some t => Good t | None => Bad NoPeerToken end));
  p_lift (or_err Wire.Io (set_nodelay env));;
  p_lift (or_err Wire.Io (register env));;
  peer ← p_lift (Peer.Peer.new (magic env) (entropy env) (added_at env));
  p_modify (fun w => with_conns w (<[token := {| pc_address := address; pc_id := id; pc_peer := peer; pc_writable := true |}]> (conns w))).

Definition new_connection (env : AddEnv) (address : SocketAddr) (id : Z) (s : WorkerState) : WorkerState :=
  match add_peer env id address (worker_ s) with
  | (w, Good _) => set_worker s w
  | (w, Bad _) => set_registry (set_worker s w) (remove (registry s) id)
  end.

(** ** Advancing connections *)

Definition refresh_interest (reregister : result unit) (token : Token) (w : Worker) : Worker * presult unit :=
  match conns w !! token with
  | None => (w, Good tt)
  | Some c =>
      match or_err Wire.Io reregister with
      | Good _ => (with_conns w (<[token := with_interest c (wants_write (pc_peer c))]> (conns w)), Good tt)
      | Bad e => (w, Bad e)
      end
  end.

(** The end of each turn of the loops: new interest, or no connection any more. *)
Definition refresh_or_remove (reregister : result unit) (now : Z) (token : Token) (s : WorkerState) : WorkerState :=
  match refresh_interest reregister token (worker_ s) with
  | (w, Good _) => set_worker s w
  | (w, Bad e) => remove_peer token e now (set_worker s w)
  end.

(** One turn of [broadcast_block]. *)
Definition announce_block (reregister : result unit) (now : Z) (block_hash : bytes) (token : Token) (s : WorkerState) : WorkerState :=
  match conns (worker_ s) !! token with
  | Some c =>
      if is_established (pc_peer c) then
        let '(p, r) := send_message (Inv [witness_block block_hash]) (pc_peer c) in
        let s := set_conn s token (with_peer c p) in
        match r with
        | Bad e => remove_peer token e now s
        | Good _ => refresh_or_remove reregister now token s
        end
      else s
  | None => s
  end.

(** What a ready socket does: what it reads, and what it takes of so many bytes to write. *)
Record EventEnv := {
  ev_ctx : WorkerContext;
  ev_now : Z;
  reads : list ReadOutcome;
  writes : Z -> list WriteOutcome;
  ev_reregister : result unit
}.

(** The readable and the writable part of a turn of [handle_events]; [false] when the turn ends there.  A panic inside
    a peer is the error [Panicked] of its operations. *)
Definition handle_readable (env : EventEnv) (token : Token) (s : WorkerState) : WorkerState * bool :=
  match conns (worker_ s) !! token with
  | None => (s, false)
  | Some c =>
      let '(c', r) := on_readable (ev_ctx env) (ev_now env) (reads env) {| peer := pc_peer c; stores := shared s |} in
      let s := {| worker_ := worker_ s; registry := registry s; shared := stores c' |} in
      match r with
      | Bad e => (remove_peer token e (ev_now env) (set_conn s token (with_peer c (peer c'))), false)
      | Good _ =>
          let '(p, software) := take_announced_software (peer c') in
          let s := set_conn s token (with_peer c p) in
          (match software with Some name => set_registry s (identify (registry s) (pc_id c) name) | None => s end, true)
      end
  end.

Definition handle_writable (env : EventEnv) (token : Token) (s : WorkerState) : WorkerState * bool :=
  match conns (worker_ s) !! token with
  | None => (s, false)
  | Some c =>
      let '(p, r) := on_writable (writes env (zlength (write_buffer (pc_peer c)) - write_position (pc_peer c))) (pc_peer c) in
      let s := set_conn s token (with_peer c p) in
      match r with
      | Bad e => (remove_peer token e (ev_now env) s, false)
      | Good _ => (s, true)
      end
  end.

(** One turn of [handle_events]. *)
Definition handle_event (env : EventEnv) (token : Token) (readable writable closed : bool) (s : WorkerState) : WorkerState :=
  if closed then remove_peer token Disconnected (ev_now env) s
  else
    let '(s, go) := if readable then handle_readable env token s else (s, true) in
    if go : bool then
      let '(s, go) := if writable then handle_writable env token s else (s, true) in
      if go : bool then refresh_or_remove (ev_reregister env) (ev_now env) token s else s
    else s.

Definition expired_tokens (now : Z) (w : Worker) : list Token :=
  fst <$> base.filter (fun tc => handshake_expired (pc_peer tc.2) now = true) (in_order (conns w)).

(** ** The event loop of a worker

    [run] handles a batch of control messages, polls, advances the ready sockets, expires handshakes, and starts again.
    A thread is shown by where it is in this loop and by the turns of an inner loop that are left. *)

Inductive Phase := Control (handled : Z) | Polling | Dispatching | Stopped.
Inductive Task :=
| Announce (block_hash : bytes) (token : Token)
| Ready (token : Token) (readable writable closed : bool)
| Expire (token : Token).

Record Thread := { worker : Worker; phase : Phase; tasks : list Task; queue : list WorkerMessage }.

Definition is_stopped (t : Thread) : bool := match phase t with Stopped => true | _ => false end.

(** The acceptor; [accepting] counts the sockets accepted for one event, [outbox] holds the messages it is about to
    send, each to a worker, and [listening] is false once its thread has ended. *)
Record Acceptor := { next_worker : Z; last_peer_log : Z; accepting : option Z; outbox : list (Z * WorkerMessage); listening : bool }.

Record Node := { n_registry : PeerRegistry; n_stores : Stores; acceptor : Acceptor; workers : list Thread }.

Definition worker_state (n : Node) (t : Thread) : WorkerState := {| worker_ := worker t; registry := n_registry n; shared := n_stores n |}.

(** The thread at [i] has come to a state of its own and of what it shares. *)
Definition put_thread (n : Node) (i : nat) (t : Thread) (s : WorkerState) : Node :=
  {| n_registry := registry s; n_stores := shared s; acceptor := acceptor n;
     workers := <[i := {| worker := worker_ s; phase := phase t; tasks := tasks t; queue := queue t |}]> (workers n) |}.
Definition at_phase (t : Thread) (p : Phase) (l : list Task) (q : list WorkerMessage) : Thread :=
  {| worker := worker t; phase := p; tasks := l; queue := q |}.

(** One control message; a broadcast leaves a turn for each connection. *)
Definition handle_message (env : AddEnv) (m : WorkerMessage) (s : WorkerState) : WorkerState * list Task :=
  match m with
  | NewConnection address id => (new_connection env address id s, [])
  | NewBlock block_hash => (s, Announce block_hash <$> (in_order (conns (worker_ s))).*1)
  | Disconnect id => (disconnect_peer id (added_at env) s, [])
  end.

Definition run_task (env : EventEnv) (task : Task) (s : WorkerState) : WorkerState :=
  match task with
  | Announce block_hash token => announce_block (ev_reregister env) (ev_now env) block_hash token s
  | Ready token readable writable closed => handle_event env token readable writable closed s
  | Expire token => remove_peer token HandshakeTimeout (ev_now env) s
  end.

(** ** The acceptor *)

(** One accepted socket: where it goes, and who makes room for it. *)
Definition accept_connection (address : SocketAddr) (now : Z) (worker_count : Z) (a : Acceptor) (r : PeerRegistry)
  : option (Acceptor * PeerRegistry) :=
  let worker_id := next_worker a mod worker_count in
  '(r, admission) ← admit_ r address.1 worker_id now;
  let messages :=
    match admission with
    | Accepted peer_id => [(worker_id, NewConnection address peer_id)]
    | Replaced evicted_peer evicted_worker peer_id =>
        (if evicted_worker <? worker_count then [(evicted_worker, Disconnect evicted_peer)] else [])
        ++ [(worker_id, NewConnection address peer_id)]
    | RejectedBanned | RejectedCapacity => []
    end in
  Some ({| next_worker := (next_worker a + 1) mod worker_count; last_peer_log := last_peer_log a;
           accepting := (fun k => k + 1) <$> accepting a; outbox := messages; listening := listening a |}, r).

Definition with_outbox (a : Acceptor) (l : list (Z * WorkerMessage)) : Acceptor :=
  {| next_worker := next_worker a; last_peer_log := last_peer_log a; accepting := accepting a; outbox := l; listening := listening a |}.
Definition with_accepting (a : Acceptor) (k : option Z) : Acceptor :=
  {| next_worker := next_worker a; last_peer_log := last_peer_log a; accepting := k; outbox := outbox a; listening := listening a |}.
Definition stop_listening (a : Acceptor) : Acceptor :=
  {| next_worker := next_worker a; last_peer_log := last_peer_log a; accepting := accepting a; outbox := outbox a; listening := false |}.

(** [SyncSender::send]: it waits while the queue is full and fails when the worker is gone; then all the slots of
    that worker are released. *)
Definition deliver (n : Node) : option Node :=
  match outbox (acceptor n) with
  | [] => None
  | (i, m) :: rest =>
      let a := with_outbox (acceptor n) rest in
      match workers n !! Z.to_nat i with
      | None =>
          let r := match m with NewConnection _ id => remove (n_registry n) id | _ => n_registry n end in
          Some {| n_registry := r; n_stores := n_stores n; acceptor := a; workers := workers n |}
      | Some t =>
          if is_stopped t then
            Some {| n_registry := remove_worker (n_registry n) i; n_stores := n_stores n; acceptor := a; workers := workers n |}
          else if zlength (queue t) <? WORKER_QUEUE_CAPACITY then
            Some {| n_registry := n_registry n; n_stores := n_stores n; acceptor := a;
                    workers := <[Z.to_nat i := at_phase t (phase t) (tasks t) (queue t ++ [m])]> (workers n) |}
          else None
      end
  end.

Definition broadcast_block (block_hash : bytes) (worker_count : Z) (a : Acceptor) : Acceptor :=
  with_outbox a ((fun i => (i, NewBlock block_hash)) <$> zrange 0 worker_count).

Definition log_peer_summary (now : Z) (n : Node) : Node * option PeerSoftwareSummary :=
  if duration_since now (last_peer_log (acceptor n)) <? PEER_LOG_INTERVAL then (n, None)
  else
    ({| n_registry := n_registry n; n_stores := n_stores n;
        acceptor := {| next_worker := next_worker (acceptor n); last_peer_log := now; accepting := accepting (acceptor n);
                       outbox := outbox (acceptor n); listening := listening (acceptor n) |};
        workers := workers n |}, Some (software_summary (n_registry n))).

(** ** The threads together *)

Definition start_worker : Thread :=
  {| worker := {| next_token := 0; conns := ∅ |}; phase := Control 0; tasks := []; queue := [] |}.
Definition start (now : Z) (s : Stores) : Node :=
  {| n_registry := Admission.Admission.new MAX_PEERS; n_stores := s;
     acceptor := {| next_worker := 0; last_peer_log := now; accepting := None; outbox := []; listening := true |};
     workers := replicate (Z.to_nat WORKERS_PER_CLUSTER) start_worker |}.

(** A read returns at most what it is given room for and a write takes at most what it is given: see [PeerSafety]. *)
Context (socket_ok : EventEnv -> Prop).

Inductive NodeStep : Node -> Node -> Prop :=
(* the acceptor: the listener is ready, a socket, no more sockets or enough of them, a block, a message, the log, a
   failed poll *)
| AcceptorPolled n : listening (acceptor n) = true -> accepting (acceptor n) = None -> outbox (acceptor n) = [] ->
    NodeStep n {| n_registry := n_registry n; n_stores := n_stores n; acceptor := with_accepting (acceptor n) (Some 0); workers := workers n |}
| AcceptorAccepts n k address now a r : accepting (acceptor n) = Some k -> k < MAX_ACCEPTS_PER_EVENT -> outbox (acceptor n) = [] ->
    accept_connection address now (zlength (workers n)) (acceptor n) (n_registry n) = Some (a, r) ->
    NodeStep n {| n_registry := r; n_stores := n_stores n; acceptor := a; workers := workers n |}
| AcceptorDone n k : accepting (acceptor n) = Some k -> outbox (acceptor n) = [] ->
    NodeStep n {| n_registry := n_registry n; n_stores := n_stores n; acceptor := with_accepting (acceptor n) None; workers := workers n |}
| AcceptorBroadcasts n block_hash : listening (acceptor n) = true -> accepting (acceptor n) = None -> outbox (acceptor n) = [] ->
    NodeStep n {| n_registry := n_registry n; n_stores := n_stores n;
                  acceptor := broadcast_block block_hash (zlength (workers n)) (acceptor n); workers := workers n |}
| AcceptorSends n n' : deliver n = Some n' -> NodeStep n n'
| AcceptorLogs n now : listening (acceptor n) = true -> accepting (acceptor n) = None -> outbox (acceptor n) = [] ->
    NodeStep n (log_peer_summary now n).1
| AcceptorFails n : accepting (acceptor n) = None -> outbox (acceptor n) = [] ->
    NodeStep n {| n_registry := n_registry n; n_stores := n_stores n; acceptor := stop_listening (acceptor n); workers := workers n |}
(* a worker: a control message, no more of them or enough, ready sockets, a turn, expired handshakes, a failed poll, the
   acceptor's end *)
| WorkerReceives n i t h m q env s l : workers n !! i = Some t -> phase t = Control h -> tasks t = [] -> queue t = m :: q ->
    h < MAX_WORKER_MESSAGES_PER_TICK -> handle_message env m (worker_state n t) = (s, l) ->
    NodeStep n (put_thread n i (at_phase t (Control (h + 1)) l q) s)
| WorkerPolls n i t h : workers n !! i = Some t -> phase t = Control h -> tasks t = [] ->
    (queue t = [] /\ listening (acceptor n) = true \/ MAX_WORKER_MESSAGES_PER_TICK <= h) ->
    NodeStep n (put_thread n i (at_phase t Polling [] (queue t)) (worker_state n t))
| WorkerWakes n i t l : workers n !! i = Some t -> phase t = Polling ->
    (forall task, task ∈ l -> exists token readable writable closed, task = Ready token readable writable closed) ->
    NodeStep n (put_thread n i (at_phase t Dispatching l (queue t)) (worker_state n t))
| WorkerTurn n i t task l env : workers n !! i = Some t -> is_stopped t = false -> tasks t = task :: l -> socket_ok env ->
    NodeStep n (put_thread n i (at_phase t (phase t) l (queue t)) (run_task env task (worker_state n t)))
| WorkerExpires n i t now : workers n !! i = Some t -> phase t = Dispatching -> tasks t = [] ->
    NodeStep n (put_thread n i (at_phase t (Control 0) (Expire <$> expired_tokens now (worker t)) (queue t)) (worker_state n t))
| WorkerFails n i t : workers n !! i = Some t -> phase t = Polling ->
    NodeStep n (put_thread n i (at_phase t Stopped [] [])
      (set_worker (worker_state n t) {| next_token := next_token (worker t); conns := ∅ |}))
| WorkerEnds n i t h : workers n !! i = Some t -> phase t = Control h -> tasks t = [] -> h < MAX_WORKER_MESSAGES_PER_TICK ->
    queue t = [] -> listening (acceptor n) = false ->
    NodeStep n (put_thread n i (at_phase t Stopped [] [])
      (set_worker (worker_state n t) {| next_token := next_token (worker t); conns := ∅ |})).

End Server.

End Server.
