(* ===== verification/ServerSafety.v ===== *)
(** What holds of the server's threads together ([Server]): every slot of the registry is one socket that a worker has or is
    about to get, so no slot is lost and no socket outlives its slot for longer than a message takes. *)

From S2P Require Import Prelude Bytes Files JournalFile Udata ProofStore HeaderIndex Admission Wire Headers Peer PeerSafety PeerContract Server.
Import Wire.Wire V2Codec Headers.HeaderRequests Admission.Admission Files.Files Peer.Peer PeerSafety.PeerSafety PeerContract.PeerContract Server.Server.

Module ServerSafety.

Section Registry.
Context `{HashOrder}.

(** The peers of one worker. *)
Definition registered (r : PeerRegistry) (w : Z) : gset Z := dom (base.filter (fun ip => Admission.Admission.worker ip.2 = w) (peers r)).

Lemma elem_of_registered r w id : id ∈ registered r w <-> exists p, peers r !! id = Some p /\ Admission.Admission.worker p = w.
Proof.
  unfold registered. rewrite elem_of_dom. split.
  - by intros [p [? ?]%map_lookup_filter_Some]; exists p.
  - intros (p & ? & ?). exists p. by apply map_lookup_filter_Some.
Qed.

Definition below_next (r : PeerRegistry) : Prop := forall id p, peers r !! id = Some p -> id < next_peer r.

Lemma insert_number r a w now r' id : below_next r -> insert r a w now = Some (r', id) -> id = next_peer r /\ next_peer r' = wrap 64 (next_peer r + 1).
Proof.
  intros Hb E. unfold insert, allocate_peer_id in E. cbn [next_free] in E. cbn [peers with_next] in E.
  destruct (peers r !! next_peer r) as [p|] eqn:Ep; [apply Hb in Ep; lia|]. cbn in E. by injection E as <- <-.
Qed.

(** A new peer gets the next number. *)
Lemma admit_number r a w now r' d : below_next r -> 0 <= next_peer r < 2 ^ 64 - 1 -> admit_ r a w now = Some (r', d) ->
  match d with
  | Accepted id | Replaced _ _ id => id = next_peer r /\ next_peer r' = next_peer r + 1
  | _ => next_peer r' = next_peer r
  end.
Proof.
  intros Hb Hn E. destruct (is_banned_spec r (normalize a) now) as (b' & Eb & _ & _). unfold admit_ in E. rewrite Eb in E.
  assert (forall r0 r1 id, next_peer r0 = next_peer r -> below_next r0 -> insert r0 (normalize a) w now = Some (r1, id) ->
    id = next_peer r /\ next_peer r1 = next_peer r + 1) as Hins.
  { intros r0 r1 id En Hb0 Ei. apply insert_number in Ei as [-> ->]; [|done]. rewrite En, wrap_small by (unfold is_uint; lia). done. }
  destruct (match banned r !! normalize (normalize a) with Some e => _ | None => _ end); [by injection E as <- <-|].
  destruct (zsize _ <? _).
  { destruct (insert _ _ _ _) as [[r1 id]|] eqn:Ei; [|done]. injection E as <- <-. by apply Hins in Ei. }
  destruct (existsb _ _); [by injection E as <- <-|]. destruct (max_by_key _ _) as [[q n]|]; [|by injection E as <- <-].
  destruct (n <=? 1); [by injection E as <- <-|]. destruct (min_by_key _ _) as [[old p]|]; [|by injection E as <- <-].
  destruct (insert _ _ _ _) as [[r1 id]|] eqn:Ei; [|done]. injection E as <- <-. apply Hins in Ei; [done|done|].
  intros id2 p2. cbn [peers with_peers with_banned]. intros [_ Hp2]%lookup_delete_Some. by apply (Hb id2 p2).
Qed.

(** ** Releasing slots *)

(** The registry afterwards is the one before, without some numbers and up to names of software. *)
Record sheds (X : gset Z) (r r' : PeerRegistry) : Prop := {
  sh_ok : registry_ok r -> registry_ok r';
  sh_max : max_peers r' = max_peers r;
  sh_next : next_peer r' = next_peer r;
  sh_peers : forall id p', peers r' !! id = Some p' -> id ∉ X /\ exists p, peers r !! id = Some p /\ Admission.Admission.worker p' = Admission.Admission.worker p;
  sh_kept : forall id p, peers r !! id = Some p -> id ∉ X -> is_Some (peers r' !! id)
}.

Lemma sheds_refl r : sheds ∅ r r.
Proof. split; [done..| |by eexists]. intros id p' Hp. split; [set_solver|]. by exists p'. Qed.

Lemma sheds_trans X Y r1 r2 r3 : sheds X r1 r2 -> sheds Y r2 r3 -> sheds (X ∪ Y) r1 r3.
Proof.
  intros [O1 M1 N1 P1 K1] [O2 M2 N2 P2 K2]. split; [by auto|congruence|congruence| |].
  - intros id p' Hp. apply P2 in Hp as (Hy & p & Hp & Ew). apply P1 in Hp as (Hx & p0 & Hp & Ew'). split; [set_solver|]. exists p0. split; [done|congruence].
  - intros id p Hp Hx. destruct (K1 id p Hp) as [p2 Hp2]; [set_solver|]. apply (K2 id p2 Hp2). set_solver.
Qed.

Lemma sheds_registered X r r' w : sheds X r r' -> registered r' w = registered r w ∖ X.
Proof.
  intros Hs. apply set_eq. intros id. rewrite elem_of_difference, !elem_of_registered. split.
  - intros (p' & Hp & Ew). apply (sh_peers _ _ _ Hs) in Hp as (Hx & p & Hp & Ew'). split; [|done]. exists p. split; [done|congruence].
  - intros [(p & Hp & Ew) Hx]. destruct (sh_kept _ _ _ Hs id p Hp Hx) as [p' Hp']. exists p'. split; [done|].
    apply (sh_peers _ _ _ Hs) in Hp' as (_ & p0 & Hp0 & Ew'). congruence.
Qed.

Lemma sheds_below X r r' : sheds X r r' -> below_next r -> below_next r'.
Proof. intros Hs Hb id p Hp. apply (sh_peers _ _ _ Hs) in Hp as (_ & p0 & Hp & _). rewrite (sh_next _ _ _ Hs). by eapply Hb. Qed.

Lemma remove_sheds r id : sheds {[id]} r (remove r id).
Proof.
  split; [|done|done| |].
  - intros Hr. by apply (run_registry_ok r (OpRemove id) _ Hr).
  - change (peers (remove r id)) with (delete id (peers r)). intros id' p' [Hne Hp]%lookup_delete_Some. split; [set_solver|]. by exists p'.
  - intros id' p Hp Hne. exists p. apply lookup_delete_Some. set_solver.
Qed.

Lemma identify_sheds r id name : sheds ∅ r (identify r id name).
Proof.
  split; [| | | |].
  - intros Hr. by apply (run_registry_ok r (OpIdentify id name) _ Hr).
  - unfold identify. by destruct (peers r !! id).
  - unfold identify. by destruct (peers r !! id).
  - unfold identify. intros id' p' Hp. split; [set_solver|]. destruct (peers r !! id) as [p|] eqn:E; [|by exists p'].
    cbn [peers with_peers] in Hp. apply lookup_insert_Some in Hp as [[<- <-]|[_ Hp]]; [by exists p|by exists p'].
  - unfold identify. intros id' p' Hp _. destruct (peers r !! id) as [p|] eqn:E; [|by exists p']. cbn. destruct (decide (id = id')) as [<-|].
    + rewrite lookup_insert_eq. by eexists.
    + rewrite lookup_insert_ne by done. by exists p'.
Qed.

Lemma ban_sheds r id now : sheds {[id]} r (ban r id now).1.
Proof.
  assert (peers (ban r id now).1 = delete id (peers r)) as Ep.
  { unfold ban. destruct (peers r !! id) eqn:E; [done|]. cbn. by rewrite delete_id. }
  split.
  - intros Hr. by apply (run_registry_ok r (OpBan id now) _ Hr).
  - unfold ban. by destruct (peers r !! id).
  - unfold ban. by destruct (peers r !! id).
  - rewrite Ep. intros id' p' [Hne Hp]%lookup_delete_Some. split; [set_solver|]. by exists p'.
  - rewrite Ep. intros id' p Hp Hne. exists p. apply lookup_delete_Some. set_solver.
Qed.

Lemma disconnect_sheds r id reason now : sheds {[id]} r (record_disconnect r id reason now).1.
Proof. destruct reason; try apply remove_sheds. apply ban_sheds. Qed.

Lemma remove_worker_registered r w w' : registered (remove_worker r w) w' = if decide (w = w') then ∅ else registered r w'.
Proof.
  apply set_eq. intros id. rewrite elem_of_registered. unfold remove_worker. cbn. destruct (decide (w = w')) as [<-|Hne].
  - split; [|set_solver]. intros (p & [_ Hp]%map_lookup_filter_Some & Ew). done.
  - rewrite elem_of_registered. split.
    + intros (p & [Hp _]%map_lookup_filter_Some & Ew). by exists p.
    + intros (p & Hp & Ew). exists p. split; [|done]. apply map_lookup_filter_Some. split; [done|]. cbn. congruence.
Qed.

End Registry.

Lemma submseteq_NoDup_l {A} (l k : list A) : l ⊆+ k -> NoDup k -> NoDup l.
Proof. intros [l' ->]%submseteq_Permutation Hnd. by apply NoDup_app in Hnd as [? _]. Qed.

Section Workers.
Context `{BitcoinCodec} `{P2pCodec} `{KvStore} `{HeightsDb} `{Bip324Laws} `{HashOrder}.

Definition conn_ids (m : gmap Token PeerConnection) : list Z := (fun tc => pc_id tc.2) <$> map_to_list m.

Lemma elem_of_conn_ids m id : id ∈ conn_ids m <-> exists token c, m !! token = Some c /\ pc_id c = id.
Proof.
  unfold conn_ids. rewrite list_elem_of_fmap. split.
  - intros ([token c] & -> & Hc%elem_of_map_to_list). by exists token, c.
  - intros (token & c & Hc%elem_of_map_to_list & <-). by exists (token, c).
Qed.

Lemma conn_ids_delete m token c : m !! token = Some c -> conn_ids m ≡ₚ pc_id c :: conn_ids (delete token m).
Proof. intros Hc. unfold conn_ids. by rewrite <- (map_to_list_delete m token c Hc). Qed.

Lemma conn_ids_insert m token c : m !! token = None -> conn_ids (<[token := c]> m) ≡ₚ pc_id c :: conn_ids m.
Proof. intros Hc. unfold conn_ids. by rewrite map_to_list_insert. Qed.

Lemma conn_ids_update m token c c' : m !! token = Some c -> pc_id c' = pc_id c -> conn_ids (<[token := c']> m) ≡ₚ conn_ids m.
Proof.
  intros Hc E. rewrite <- insert_delete_eq. rewrite conn_ids_insert by apply lookup_delete_eq. rewrite E. symmetry. by apply conn_ids_delete.
Qed.

(** A worker gives up the connections in [X], with their slots. *)
Record gives_up (X : gset Z) (s s' : WorkerState) : Prop := {
  gu_sheds : sheds X (registry s) (registry s');
  gu_from : list_to_set (conn_ids (conns (worker_ s))) = X ∪ list_to_set (conn_ids (conns (worker_ s')));
  gu_left : conn_ids (conns (worker_ s')) ⊆+ conn_ids (conns (worker_ s));
  gu_gone : forall id, id ∈ conn_ids (conns (worker_ s')) -> id ∉ X
}.

Lemma gives_up_refl s : gives_up ∅ s s.
Proof. split; [apply sheds_refl|set_solver|done|set_solver]. Qed.

Lemma gives_up_trans X Y s1 s2 s3 : gives_up X s1 s2 -> gives_up Y s2 s3 -> gives_up (X ∪ Y) s1 s3.
Proof.
  intros [S1 F1 L1 G1] [S2 F2 L2 G2]. split; [by eapply sheds_trans|rewrite F1, F2; set_solver|by etrans|].
  intros id Hid. rewrite not_elem_of_union. split; [|by apply G2]. apply G1. by eapply elem_of_submseteq.
Qed.

Definition some_given_up (s s' : WorkerState) : Prop := NoDup (conn_ids (conns (worker_ s))) -> exists X, gives_up X s s'.

Lemma given_up_trans s1 s2 s3 : some_given_up s1 s2 -> some_given_up s2 s3 -> some_given_up s1 s3.
Proof.
  intros E1 E2 Hnd. destruct (E1 Hnd) as [X HX]. destruct (E2 (submseteq_NoDup_l _ _ (gu_left _ _ _ HX) Hnd)) as [Y HY].
  exists (X ∪ Y). by eapply gives_up_trans.
Qed.
Lemma given_up_refl s : some_given_up s s.
Proof. intros _. exists ∅. apply gives_up_refl. Qed.

Lemma same_ids_given_up s s' X : sheds X (registry s) (registry s') -> X = ∅ -> conn_ids (conns (worker_ s')) ≡ₚ conn_ids (conns (worker_ s)) -> some_given_up s s'.
Proof.
  intros Hs -> Hp _. exists ∅. split; [done| |by rewrite Hp|set_solver]. rewrite (list_to_set_perm_L _ _ Hp). set_solver.
Qed.

Lemma remove_peer_given_up token reason now s : some_given_up s (remove_peer token reason now s).
Proof.
  unfold remove_peer. destruct (conns (worker_ s) !! token) as [c|] eqn:Ec; [|apply given_up_refl]. intros Hnd.
  exists {[pc_id c]}. pose proof (conn_ids_delete _ _ _ Ec) as Hp. split; cbn.
  - apply disconnect_sheds.
  - by rewrite (list_to_set_perm_L _ _ Hp).
  - rewrite Hp. by apply submseteq_cons.
  - rewrite Hp in Hnd. apply NoDup_cons in Hnd as [Hn _]. set_solver.
Qed.

Lemma set_conn_given_up s token c c' : conns (worker_ s) !! token = Some c -> pc_id c' = pc_id c -> some_given_up s (set_conn s token c').
Proof.
  intros Hc E. eapply (same_ids_given_up _ _ ∅); [apply sheds_refl|done|]. by apply conn_ids_update with c.
Qed.

(** ** Connections *)

Definition conn_ok (c : PeerConnection) : Prop :=
  (peer_ok (pc_peer c) /\ settled (pc_peer c)) /\ (wants_write (pc_peer c) = true -> pc_writable c = true).
Definition all_ok (s : WorkerState) : Prop := map_Forall (fun _ c => conn_ok c) (conns (worker_ s)).
(** The same while the turn of one connection is not over. *)
Definition ok_but (token : Token) (s : WorkerState) : Prop := forall tok c, conns (worker_ s) !! tok = Some c ->
  (peer_ok (pc_peer c) /\ settled (pc_peer c)) /\ (tok <> token -> wants_write (pc_peer c) = true -> pc_writable c = true).

Lemma all_ok_but token s : all_ok s -> ok_but token s.
Proof. intros Ha tok c Hc. apply Ha in Hc as [? ?]. by split. Qed.

Lemma remove_peer_ok token reason now s : ok_but token s -> all_ok (remove_peer token reason now s).
Proof.
  intros Hb tok c Hc. unfold remove_peer in Hc. destruct (conns (worker_ s) !! token) as [c0|] eqn:E.
  - cbn in Hc. apply lookup_delete_Some in Hc as [Hne Hc]. apply Hb in Hc as [? Hw]. split; [done|]. by apply Hw.
  - pose proof Hc as Hc'. apply Hb in Hc' as [? Hw]. split; [done|]. apply Hw. congruence.
Qed.

Lemma ok_but_set token s c : all_ok s -> peer_ok (pc_peer c) /\ settled (pc_peer c) -> ok_but token (set_conn s token c).
Proof.
  intros Ha Hp tok c' Hc. cbn in Hc. apply lookup_insert_Some in Hc as [[<- <-]|[_ Hc]]; [by split|]. apply Ha in Hc as [? ?]. by split.
Qed.
Lemma ok_but_reset token s c : ok_but token s -> peer_ok (pc_peer c) /\ settled (pc_peer c) -> ok_but token (set_conn s token c).
Proof.
  intros Ha Hp tok c' Hc. cbn in Hc. apply lookup_insert_Some in Hc as [[<- <-]|[_ Hc]]; [by split|]. by apply Ha in Hc as [? ?].
Qed.
(** A connection that is about to be removed may be in any state. *)
Lemma removed_ok token reason now s c : ok_but token s -> all_ok (remove_peer token reason now (set_conn s token c)).
Proof.
  intros Hb tok c' Hc. unfold remove_peer in Hc. cbn in Hc. rewrite lookup_insert_eq in Hc. cbn in Hc. rewrite delete_insert_eq in Hc.
  apply lookup_delete_Some in Hc as [Hne Hc]. apply Hb in Hc as [? Hw]. split; [done|]. by apply Hw.
Qed.

Lemma refresh_or_remove_ok io now token s : ok_but token s ->
  all_ok (refresh_or_remove io now token s) /\ some_given_up s (refresh_or_remove io now token s).
Proof.
  intros Hb. unfold refresh_or_remove, refresh_interest. destruct (conns (worker_ s) !! token) as [c|] eqn:Ec.
  - destruct (or_err Wire.Io io) as [u|e]; cbn.
    + split.
      * intros tok c' Hc. cbn in Hc. apply lookup_insert_Some in Hc as [[<- <-]|[Hne Hc]].
        -- apply Hb in Ec as [? _]. by split.
        -- apply Hb in Hc as [? Hw]. split; [done|]. apply Hw. congruence.
      * apply (set_conn_given_up s token c); done.
    + destruct s as [w r st]. split; [by apply remove_peer_ok|apply remove_peer_given_up].
  - destruct s as [w r st]. cbn. split; [|apply given_up_refl].
    intros tok c Hc. pose proof Hc as Hc'. apply Hb in Hc' as [? Hw]. split; [done|]. apply Hw. cbn in *. congruence.
Qed.

Lemma announce_block_ok io now bh token s : all_ok s ->
  all_ok (announce_block io now bh token s) /\ some_given_up s (announce_block io now bh token s).
Proof.
  intros Ha. unfold announce_block. destruct (conns (worker_ s) !! token) as [c|] eqn:Ec; [|split; [done|apply given_up_refl]].
  destruct (is_established (pc_peer c)) eqn:Ee; [|split; [done|apply given_up_refl]].
  destruct (send_message _ (pc_peer c)) as [p [u|e]] eqn:Es.
  - assert (peer_ok p /\ settled p) as Hp.
    { pose proof (Ha _ _ Ec) as [[Hok Hset] _]. destruct u.
      apply (step_ok {| peer := pc_peer c; stores := shared s |} {| peer := p; stores := shared s |});
        [eapply StepSend; [exact Ee|exact Es]|done|done]. }
    destruct (refresh_or_remove_ok io now token (set_conn s token (with_peer c p))) as [Hok Hg]; [by apply ok_but_set|].
    split; [exact Hok|]. eapply given_up_trans; [by apply (set_conn_given_up s token c (with_peer c p))|exact Hg].
  - split; [apply removed_ok; by apply all_ok_but|].
    eapply given_up_trans; [by apply (set_conn_given_up s token c (with_peer c p))|apply remove_peer_given_up].
Qed.

Definition socket_ok (env : EventEnv) : Prop := reads_fit 0 (reads env) /\ forall n, writes_fit n (writes env n).

Lemma handle_readable_ok env token s s' go : reads_fit 0 (reads env) -> all_ok s -> handle_readable env token s = (s', go) ->
  ok_but token s' /\ some_given_up s s' /\ (go = false -> all_ok s').
Proof.
  intros Hf Ha E. unfold handle_readable in E. destruct (conns (worker_ s) !! token) as [c|] eqn:Ec.
  2: { injection E as <- <-. split_and!; [by apply all_ok_but|apply given_up_refl|done]. }
  destruct (on_readable (ev_ctx env) (ev_now env) (reads env) _) as [c' r] eqn:Er.
  set (s1 := {| worker_ := worker_ s; registry := registry s; shared := stores c' |}) in *.
  assert (all_ok s1) as Ha1 by exact Ha. assert (some_given_up s s1) as Hg1 by (apply (same_ids_given_up _ _ ∅); [apply sheds_refl|done|done]).
  destruct r as [[]|e].
  - assert (peer_ok (peer c') /\ settled (peer c')) as Hp.
    { pose proof (Ha _ _ Ec) as [[Hok Hset] _].
      apply (step_ok {| peer := pc_peer c; stores := shared s |} c'); [eapply StepRead; [exact Hf|exact Er]|done|done]. }
    assert (peer_ok (take_announced_software (peer c')).1 /\ settled (take_announced_software (peer c')).1) as Hp2.
    { apply (step_ok c' {| peer := (take_announced_software (peer c')).1; stores := stores c' |}); [apply StepTake|apply Hp|apply Hp]. }
    unfold take_announced_software in *. cbn [fst] in Hp2.
    set (s2 := set_conn s1 token (with_peer c (with_software (peer c') None))) in *.
    assert (some_given_up s s2) as Hg2 by (eapply given_up_trans; [exact Hg1|by apply (set_conn_given_up s1 token c (with_peer c (with_software (peer c') None)))]).
    assert (ok_but token s2) as Hb2 by (by apply ok_but_set).
    destruct (announced_software (peer c')) as [name|]; injection E as <- <-; (split_and!; [|done || idtac|done]); try exact Hb2.
    eapply given_up_trans; [exact Hg2|]. apply (same_ids_given_up _ _ ∅); [apply identify_sheds|done|done].
  - injection E as <- <-. assert (all_ok (remove_peer token e (ev_now env) (set_conn s1 token (with_peer c (peer c'))))) as Hok
      by (apply removed_ok; by apply all_ok_but).
    split_and!; [by apply all_ok_but| |done]. eapply given_up_trans; [exact Hg1|].
    eapply given_up_trans; [by apply (set_conn_given_up s1 token c (with_peer c (peer c')))|apply remove_peer_given_up].
Qed.

Lemma handle_writable_ok env token s s' go : (forall n, writes_fit n (writes env n)) -> ok_but token s -> handle_writable env token s = (s', go) ->
  ok_but token s' /\ some_given_up s s' /\ (go = false -> all_ok s').
Proof.
  intros Hf Hb E. unfold handle_writable in E. destruct (conns (worker_ s) !! token) as [c|] eqn:Ec.
  2: { injection E as <- <-. split_and!; [done|apply given_up_refl|]. intros _ tok c Hc. pose proof Hc as Hc'. apply Hb in Hc' as [? Hw].
       split; [done|]. apply Hw. congruence. }
  destruct (on_writable _ (pc_peer c)) as [p r] eqn:Ew. assert (some_given_up s (set_conn s token (with_peer c p))) as Hg
    by (by apply (set_conn_given_up s token c)).
  destruct r as [[]|e]; injection E as <- <-.
  - split_and!; [|done|done]. apply ok_but_reset; [done|]. pose proof (Hb _ _ Ec) as [[Hok Hset] _].
    apply (step_ok {| peer := pc_peer c; stores := shared s |} {| peer := p; stores := shared s |});
      [eapply StepWrite; [apply Hf|exact Ew]|done|done].
  - assert (all_ok (remove_peer token e (ev_now env) (set_conn s token (with_peer c p)))) as Hok by (by apply removed_ok).
    split_and!; [by apply all_ok_but| |done]. eapply given_up_trans; [exact Hg|apply remove_peer_given_up].
Qed.

Lemma handle_event_ok env token readable writable closed s : socket_ok env -> all_ok s ->
  all_ok (handle_event env token readable writable closed s) /\ some_given_up s (handle_event env token readable writable closed s).
Proof.
  intros [Hr Hw] Ha. unfold handle_event. destruct closed.
  { split; [apply remove_peer_ok; by apply all_ok_but|apply remove_peer_given_up]. }
  destruct (if readable then handle_readable env token s else (s, true)) as [s1 go1] eqn:E1.
  assert (ok_but token s1 /\ some_given_up s s1 /\ (go1 = false -> all_ok s1)) as (Hb1 & Hg1 & Hf1).
  { destruct readable; [by eapply handle_readable_ok|]. injection E1 as <- <-. split_and!; [by apply all_ok_but|apply given_up_refl|done]. }
  destruct go1; [|split; [by apply Hf1|done]].
  destruct (if writable then handle_writable env token s1 else (s1, true)) as [s2 go2] eqn:E2.
  assert (ok_but token s2 /\ some_given_up s1 s2 /\ (go2 = false -> all_ok s2)) as (Hb2 & Hg2 & Hf2).
  { destruct writable; [by eapply handle_writable_ok|]. injection E2 as <- <-. split_and!; [done|apply given_up_refl|done]. }
  destruct go2.
  - destruct (refresh_or_remove_ok (ev_reregister env) (ev_now env) token s2 Hb2) as [Hok Hg3]. split; [done|].
    eapply given_up_trans; [exact Hg1|]. by eapply given_up_trans.
  - split; [by apply Hf2|by eapply given_up_trans].
Qed.

Lemma run_task_ok env task s : socket_ok env -> all_ok s -> all_ok (run_task env task s) /\ some_given_up s (run_task env task s).
Proof.
  intros He Ha. destruct task as [bh token|token r w c|token]; cbn [run_task].
  - by apply announce_block_ok.
  - by apply handle_event_ok.
  - split; [apply remove_peer_ok; by apply all_ok_but|apply remove_peer_given_up].
Qed.

(** ** Control messages *)

Lemma free_token_None n w w' t : free_token n w = (w', t) -> conns w' = conns w /\ (forall token, t = Some token -> conns w !! token = None).
Proof.
  revert w; induction n as [|n IH]; intros w E; cbn in E; [by injection E as <- <-|].
  destruct (conns w !! next_token w) eqn:Ec; [by apply IH in E|]. injection E as <- <-. split; [done|]. by intros token [= <-].
Qed.

(** Either the connection is there, ready for what comes, or its slot is free again. *)
Lemma new_connection_ok env address id s : all_ok s ->
  all_ok (new_connection env address id s)
  /\ (registry (new_connection env address id s) = registry s
      /\ conn_ids (conns (worker_ (new_connection env address id s))) ≡ₚ id :: conn_ids (conns (worker_ s))
    \/ registry (new_connection env address id s) = remove (registry s) id
      /\ conns (worker_ (new_connection env address id s)) = conns (worker_ s)).
Proof.
  intros Ha. unfold new_connection, add_peer, mbind, pr_bind, p_lift, p_modify, allocate_token.
  destruct (free_token _ (worker_ s)) as [w t] eqn:Et. apply free_token_None in Et as [Ec Hfree].
  assert (all_ok (set_registry (set_worker s w) (remove (registry s) id))) as Hok by (intros tok c Hc; cbn in Hc; rewrite Ec in Hc; by apply Ha in Hc).
  destruct t as [token|]; [|split; [done|by right]].
  destruct (or_err _ (set_nodelay env)); [|split; [done|by right]].
  destruct (or_err _ (register env)); [|split; [done|by right]].
  destruct (Peer.Peer.new (magic env) (entropy env) (added_at env)) as [p|] eqn:Ep; [|split; [done|by right]].
  apply new_peer_ok in Ep as [Hpo Hps]. cbn. rewrite Ec. specialize (Hfree token eq_refl). split.
  - intros tok c Hc. cbn in Hc. apply lookup_insert_Some in Hc as [[<- <-]|[_ Hc]]; [by split|by apply Ha in Hc].
  - left. split; [done|]. by apply conn_ids_insert.
Qed.

Lemma disconnect_peer_ok id now s : all_ok s -> NoDup (conn_ids (conns (worker_ s))) ->
  all_ok (disconnect_peer id now s) /\ exists X, gives_up X s (disconnect_peer id now s)
    /\ forall k, k ∈ X <-> k = id /\ id ∈ conn_ids (conns (worker_ s)).
Proof.
  intros Ha Hnd. unfold disconnect_peer. destruct (List.find _ _) as [[token c]|] eqn:Ef.
  - apply find_some in Ef as [Hin Hid]. cbn in Hid. apply Z.eqb_eq in Hid. apply list_elem_of_In, elem_of_in_order in Hin. subst id.
    split; [apply remove_peer_ok; by apply all_ok_but|]. unfold remove_peer. rewrite Hin. exists {[pc_id c]}. pose proof (conn_ids_delete _ _ _ Hin) as Hp. split.
    + split; cbn; [apply remove_sheds|by rewrite (list_to_set_perm_L _ _ Hp)|rewrite Hp; by apply submseteq_cons|].
      rewrite Hp in Hnd. apply NoDup_cons in Hnd as [Hn _]. set_solver.
    + intros k. rewrite elem_of_singleton. split; [intros ->; split; [done|]|by intros [? _]]. apply elem_of_conn_ids. by exists token, c.
  - split; [done|]. exists ∅. split; [apply gives_up_refl|]. intros k. split; [set_solver|]. intros [-> (token & c & Hc & Hid)%elem_of_conn_ids].
    exfalso. assert (In (token, c) (in_order (conns (worker_ s)))) as Hin by (by apply list_elem_of_In, elem_of_in_order).
    apply (find_none _ _ Ef) in Hin. cbn in Hin. by apply Z.eqb_neq in Hin.
Qed.

(** ** What messages on the way amount to *)

Definition settle_one (ids : gset Z) (m : WorkerMessage) : gset Z :=
  match m with NewConnection _ id => {[id]} ∪ ids | Disconnect id => ids ∖ {[id]} | NewBlock _ => ids end.
(** The connections once all the messages are handled. *)
Definition settle (ids : gset Z) (ms : list WorkerMessage) : gset Z := foldl settle_one ids ms.
Definition new_ids (ms : list WorkerMessage) : list Z := omap (fun m => match m with NewConnection _ id => Some id | _ => None end) ms.
Definition gone_ids (ms : list WorkerMessage) : list Z := omap (fun m => match m with Disconnect id => Some id | _ => None end) ms.

Lemma settle_minus X ms : forall ids, (forall id, id ∈ X -> id ∉ new_ids ms) -> settle (ids ∖ X) ms = settle ids ms ∖ X.
Proof.
  induction ms as [|m ms IH]; intros ids Hx; [done|]. cbn [settle foldl]. destruct m as [a id|bh|id]; cbn [settle_one].
  - cbn in Hx. assert (id ∉ X) as Hn by (intros Hin; apply (Hx id Hin); left).
    assert ({[id]} ∪ ids ∖ X = ({[id]} ∪ ids) ∖ X) as E by set_solver. etrans; [|apply IH; intros k Hk Hin; apply (Hx k Hk); by right].
    unfold settle. by rewrite E.
  - by apply IH.
  - assert (ids ∖ X ∖ {[id]} = ids ∖ {[id]} ∖ X) as E by set_solver. etrans; [|by apply IH]. unfold settle. by rewrite E.
Qed.

Lemma settle_from ms : forall ids id, id ∈ settle ids ms -> id ∈ ids \/ id ∈ new_ids ms.
Proof.
  induction ms as [|m ms IH]; intros ids id Hin; [by left|]. cbn [settle foldl] in Hin. apply IH in Hin.
  destruct m as [a id'|bh|id']; cbn in *; rewrite ?elem_of_cons; set_solver.
Qed.

Lemma settle_to ms : forall ids id, id ∈ ids \/ id ∈ new_ids ms -> id ∈ settle ids ms \/ id ∈ gone_ids ms.
Proof.
  induction ms as [|m ms IH]; intros ids id Hin; [left; destruct Hin as [|Hn]; [done|by apply not_elem_of_nil in Hn]|].
  assert (id ∈ settle_one ids m \/ id ∈ new_ids ms \/ id ∈ gone_ids [m]) as [Hc|[Hc|Hc]].
  { destruct m as [a id'|bh|id']; cbn in *; rewrite ?elem_of_cons in Hin; [set_solver|set_solver|]. destruct (decide (id = id')) as [->|]; [|set_solver].
    right. right. left. }
  - destruct (IH (settle_one ids m) id) as [?|Hg]; [by left|by left|]. right. destruct m; cbn; [done|done|by right].
  - destruct (IH (settle_one ids m) id) as [?|Hg]; [by right|by left|]. right. destruct m; cbn; [done|done|by right].
  - right. destruct m; cbn in *; [by apply not_elem_of_nil in Hc|by apply not_elem_of_nil in Hc|]. apply list_elem_of_singleton in Hc as ->. left.
Qed.

Lemma settle_app ids ms ms' : settle ids (ms ++ ms') = settle (settle ids ms) ms'.
Proof. apply foldl_app. Qed.
Lemma new_ids_app ms ms' : new_ids (ms ++ ms') = new_ids ms ++ new_ids ms'.
Proof. apply omap_app. Qed.
Lemma gone_ids_app ms ms' : gone_ids (ms ++ ms') = gone_ids ms ++ gone_ids ms'.
Proof. apply omap_app. Qed.

(** ** The invariant *)

Definition to_worker (i : nat) (l : list (Z * WorkerMessage)) : list WorkerMessage := snd <$> base.filter (fun im => im.1 = Z.of_nat i) l.
(** What worker [i] is about to get. *)
Definition pending (n : Node) (i : nat) (t : Thread) : list WorkerMessage := queue t ++ to_worker i (outbox (acceptor n)).
Definition thread_ids (t : Thread) : list Z := conn_ids (conns (worker t)).
(** The peers whose socket worker [i] has or is about to get. *)
Definition held (n : Node) (i : nat) (t : Thread) : list Z := thread_ids t ++ new_ids (pending n i t).

Record thread_ok (n : Node) (i : nat) (t : Thread) : Prop := {
  th_nodup : NoDup (held n i t);
  th_below : forall id, id ∈ held n i t -> id < next_peer (n_registry n);
  th_settle : is_stopped t = false -> settle (list_to_set (thread_ids t)) (pending n i t) = registered (n_registry n) (Z.of_nat i);
  th_conns : map_Forall (fun _ c => conn_ok c) (conns (worker t));
  th_queue : zlength (queue t) <= WORKER_QUEUE_CAPACITY;
  th_stopped : is_stopped t = true -> conns (worker t) = ∅ /\ tasks t = [] /\ queue t = []
}.

Record node_ok (k : Z) (n : Node) : Prop := {
  no_registry : registry_ok (n_registry n);
  no_max : max_peers (n_registry n) = MAX_PEERS;
  no_below : below_next (n_registry n);
  no_next : next_peer (n_registry n) <= k;
  no_count : zlength (workers n) = WORKERS_PER_CLUSTER;
  no_workers : forall id p, peers (n_registry n) !! id = Some p -> 0 <= Admission.Admission.worker p < WORKERS_PER_CLUSTER;
  no_threads : forall i t, workers n !! i = Some t -> thread_ok n i t;
  no_apart : forall i j t u id, i <> j -> workers n !! i = Some t -> workers n !! j = Some u -> id ∈ held n i t -> id ∉ held n j u;
  no_outbox : Forall (fun im => 0 <= im.1 < WORKERS_PER_CLUSTER) (outbox (acceptor n));
  no_out : zlength (new_ids (outbox (acceptor n)).*2) <= 1 /\ zlength (gone_ids (outbox (acceptor n)).*2) <= 1;
  no_accepting : forall a, accepting (acceptor n) = Some a -> a <= MAX_ACCEPTS_PER_EVENT
}.

Lemma node_ok_mono k k' n : k <= k' -> node_ok k n -> node_ok k' n.
Proof. intros Hk []. split; try done. lia. Qed.

(** A step of one worker. *)
Lemma put_thread_ok k n i t t' s X : node_ok k n -> workers n !! i = Some t ->
  sheds X (n_registry n) (registry s) -> (forall id, id ∈ X -> id ∈ held n i t) -> all_ok s ->
  conn_ids (conns (worker_ s)) ++ new_ids (queue t' ++ to_worker i (outbox (acceptor n))) ⊆+ held n i t ->
  (is_stopped t' = false -> is_stopped t = false /\
    settle (list_to_set (conn_ids (conns (worker_ s)))) (queue t' ++ to_worker i (outbox (acceptor n)))
      = settle (list_to_set (thread_ids t)) (pending n i t) ∖ X) ->
  (is_stopped t' = true -> conns (worker_ s) = ∅ /\ tasks t' = [] /\ queue t' = []) -> zlength (queue t') <= WORKER_QUEUE_CAPACITY ->
  node_ok k (put_thread n i t' s).
Proof.
  intros Hn Ht Hsh HX Hok Hsub Hset Hstop Hq. pose proof (no_threads _ _ Hn i t Ht) as Hti.
  assert (i < length (workers n))%nat as Hi by (by eapply lookup_lt_Some).
  assert (forall j u, workers (put_thread n i t' s) !! j = Some u -> exists v, workers n !! j = Some v
    /\ (forall id, id ∈ held (put_thread n i t' s) j u -> id ∈ held n j v)) as Hheld.
  { intros j u Hu. cbn in Hu. apply list_lookup_insert_Some in Hu as [(<- & <- & _)|[Hne Hu]].
    - exists t. split; [done|]. intros id Hid. eapply elem_of_submseteq; [exact Hid|exact Hsub].
    - exists u. by split. }
  split; cbn [n_registry acceptor put_thread].
  - by apply (sh_ok _ _ _ Hsh), (no_registry _ _ Hn).
  - rewrite (sh_max _ _ _ Hsh). apply (no_max _ _ Hn).
  - eapply sheds_below; [done|apply (no_below _ _ Hn)].
  - rewrite (sh_next _ _ _ Hsh). apply (no_next _ _ Hn).
  - unfold zlength. cbn. rewrite length_insert. apply (no_count _ _ Hn).
  - intros id p' Hp. apply (sh_peers _ _ _ Hsh) in Hp as (_ & p & Hp & ->). by eapply (no_workers _ _ Hn).
  - intros j u Hu. cbn in Hu. apply list_lookup_insert_Some in Hu as [(<- & <- & _)|[Hne Hu]].
    + split; cbn [worker queue tasks n_registry put_thread].
      * eapply submseteq_NoDup_l; [exact Hsub|apply (th_nodup _ _ _ Hti)].
      * intros id Hid. rewrite (sh_next _ _ _ Hsh). apply (th_below _ _ _ Hti). eapply elem_of_submseteq; [exact Hid|exact Hsub].
      * intros Hal. destruct (Hset Hal) as [Hal' E]. rewrite (sheds_registered _ _ _ _ Hsh), <- (th_settle _ _ _ Hti Hal'). exact E.
      * exact Hok.
      * exact Hq.
      * exact Hstop.
    + pose proof (no_threads _ _ Hn j u Hu) as Hj. destruct Hj as [Hj1 Hj2 Hj3 Hj4 Hj5 Hj6]. split; try done.
      * intros id Hid. cbn. rewrite (sh_next _ _ _ Hsh). by apply Hj2.
      * intros Hal. cbn. rewrite (sheds_registered _ _ _ _ Hsh), <- (Hj3 Hal). change (pending (put_thread n i t' s) j u) with (pending n j u).
        apply set_eq. intros id. rewrite elem_of_difference. split; [|by intros [? _]]. intros Hid. split; [done|]. intros Hx.
        apply settle_from in Hid. eapply (no_apart _ _ Hn i j); [done|exact Ht|exact Hu|by apply HX|].
        unfold held. rewrite elem_of_app. destruct Hid as [Hid|Hid]; [left|by right]. by apply elem_of_list_to_set in Hid.
  - intros j1 j2 u1 u2 id Hne Hu1 Hu2 Hd1 Hd2. destruct (Hheld j1 u1 Hu1) as (v1 & Hv1 & Hs1). destruct (Hheld j2 u2 Hu2) as (v2 & Hv2 & Hs2).
    eapply (no_apart _ _ Hn j1 j2); [done|exact Hv1|exact Hv2|by apply Hs1|by apply Hs2].
  - apply (no_outbox _ _ Hn).
  - apply (no_out _ _ Hn).
  - apply (no_accepting _ _ Hn).
Qed.

(** ** Each step keeps it *)

Lemma held_new_apart n i t id : NoDup (held n i t) -> id ∈ thread_ids t -> id ∉ new_ids (pending n i t).
Proof. intros Hnd%NoDup_app Hid. by apply Hnd. Qed.

(** The same connections and the same messages. *)
Lemma idle_ok k n i t t' : node_ok k n -> workers n !! i = Some t -> is_stopped t = false -> queue t' = queue t ->
  is_stopped t' = false -> node_ok k (put_thread n i t' (worker_state n t)).
Proof.
  intros Hn Ht Hal Eq Hal'. pose proof (no_threads _ _ Hn i t Ht) as Hti.
  apply (put_thread_ok k n i t t' _ ∅); try done; cbn.
  - apply sheds_refl.
  - intros tok c Hc. by apply (th_conns _ _ _ Hti) in Hc.
  - by rewrite Eq.
  - intros _. split; [done|]. rewrite Eq. unfold pending, thread_ids. set_solver.
  - congruence.
  - rewrite Eq. apply (th_queue _ _ _ Hti).
Qed.

Lemma turn_ok k n i t t' s : node_ok k n -> workers n !! i = Some t -> is_stopped t = false -> queue t' = queue t -> is_stopped t' = false ->
  all_ok s -> some_given_up (worker_state n t) s -> node_ok k (put_thread n i t' s).
Proof.
  intros Hn Ht Hal Eq Hal' Hok Hg. pose proof (no_threads _ _ Hn i t Ht) as Hti. pose proof (th_nodup _ _ _ Hti) as Hnd.
  pose proof Hnd as Hnd1. apply NoDup_app in Hnd1 as (Hnd1 & _ & _). destruct (Hg Hnd1) as [X [Hsh Hfrom Hleft Hgone]].
  assert (forall id, id ∈ X -> id ∈ thread_ids t) as HX.
  { intros id Hx. assert (id ∈ (list_to_set (conn_ids (conns (worker_ (worker_state n t)))) : gset Z)) as Hin by (rewrite Hfrom; set_solver).
    by apply elem_of_list_to_set in Hin. }
  apply (put_thread_ok k n i t t' s X); try done.
  - intros id Hx. apply elem_of_app. left. by apply HX.
  - unfold held, pending. rewrite Eq. by apply submseteq_app.
  - intros _. split; [done|]. rewrite Eq. fold (pending n i t). rewrite <- settle_minus.
    + f_equal. unfold thread_ids. cbn in Hfrom. rewrite Hfrom. apply set_eq. intros id.
      rewrite elem_of_difference, elem_of_union, !elem_of_list_to_set. split; [|tauto]. intros Hid. split; [by right|]. by apply Hgone.
    + intros id Hx. eapply held_new_apart; [exact Hnd|by apply HX].
  - congruence.
  - rewrite Eq. apply (th_queue _ _ _ Hti).
Qed.

Lemma worker_receives_ok k n i t h m q env s l : node_ok k n -> workers n !! i = Some t -> phase t = Control h -> queue t = m :: q ->
  handle_message env m (worker_state n t) = (s, l) -> node_ok k (put_thread n i (at_phase t (Control (h + 1)) l q) s).
Proof.
  intros Hn Ht Hph Eq E. pose proof (no_threads _ _ Hn i t Ht) as Hti. pose proof (th_nodup _ _ _ Hti) as Hnd.
  assert (all_ok (worker_state n t)) as Hall by apply (th_conns _ _ _ Hti).
  assert (is_stopped t = false) as Hal by (unfold is_stopped; by rewrite Hph).
  assert (zlength q <= WORKER_QUEUE_CAPACITY) as Hlen by (pose proof (th_queue _ _ _ Hti) as Hq; rewrite Eq, zlength_cons in Hq; lia).
  pose proof (no_registry _ _ Hn) as Hreg.
  assert (pending n i t = m :: q ++ to_worker i (outbox (acceptor n))) as Ep by (unfold pending; by rewrite Eq).
  unfold held in Hnd. rewrite Ep in Hnd. destruct m as [address id|bh|id]; cbn [handle_message] in E; injection E as <- <-.
  - destruct (new_connection_ok env address id _ Hall) as [Hok [[Er Hp]|[Er Hc]]].
    + apply (put_thread_ok k n i t _ _ ∅); try done; cbn [at_phase queue tasks].
      * rewrite Er. apply sheds_refl.
      * rewrite Hp. unfold held. rewrite Ep. cbn [new_ids omap list_omap]. rewrite <- Permutation_middle. done.
      * intros _. split; [done|]. rewrite Ep. cbn [settle foldl settle_one]. rewrite (list_to_set_perm_L _ _ Hp).
        rewrite difference_empty_L. done.
    + cbn in Hnd. assert (id ∉ thread_ids t /\ id ∉ new_ids (q ++ to_worker i (outbox (acceptor n)))) as [Hn1 Hn2].
      { rewrite <- Permutation_middle in Hnd. apply NoDup_cons in Hnd as [Hnd _]. by apply not_elem_of_app in Hnd. }
      apply (put_thread_ok k n i t _ _ {[id]}); try done; cbn [at_phase queue tasks].
      * rewrite Er. apply remove_sheds.
      * intros k' ->%elem_of_singleton. unfold held. rewrite Ep. cbn. apply elem_of_app. right. left.
      * rewrite Hc. unfold held. rewrite Ep. cbn [new_ids omap list_omap]. apply submseteq_app; [done|]. by apply submseteq_cons.
      * intros _. split; [done|]. rewrite Hc, Ep. cbn [settle foldl settle_one]. fold (settle (list_to_set (thread_ids t)) (q ++ to_worker i (outbox (acceptor n)))).
        etrans; [|apply settle_minus; intros k' ->%elem_of_singleton; exact Hn2]. unfold settle. f_equal.
        assert (id ∉ (list_to_set (thread_ids t) : gset Z)) by (by rewrite elem_of_list_to_set). unfold thread_ids in *. cbn. set_solver.
  - apply (put_thread_ok k n i t _ _ ∅); try done; cbn [at_phase queue tasks].
    + apply sheds_refl.
    + unfold held. rewrite Ep. done.
    + intros _. split; [done|]. rewrite Ep, difference_empty_L. done.
  - apply NoDup_app in Hnd as (Hnd1 & Hdis & _).
    destruct (disconnect_peer_ok id (added_at env) _ Hall Hnd1) as (Hok & X & [Hsh Hfrom Hleft Hgone] & HX).
    apply (put_thread_ok k n i t _ _ X); try done; cbn [at_phase queue tasks].
    + intros k' Hx. apply HX in Hx as [-> Hin]. unfold held. rewrite Ep. apply elem_of_app. by left.
    + unfold held. rewrite Ep. by apply submseteq_app.
    + intros _. split; [done|]. rewrite Ep. cbn [settle foldl settle_one].
      assert (list_to_set (conn_ids (conns (worker_ (disconnect_peer id (added_at env) (worker_state n t)))))
        = (list_to_set (thread_ids t) : gset Z) ∖ {[id]}) as Ei.
      { apply set_eq. intros k'. rewrite elem_of_difference, elem_of_singleton. cbn in Hfrom. unfold thread_ids. rewrite Hfrom, elem_of_union, HX.
        rewrite !elem_of_list_to_set. split; [|tauto]. intros Hk'. split; [by right|]. intros ->. apply (Hgone _ Hk'), HX. split; [done|].
        by eapply elem_of_submseteq. }
      rewrite Ei. apply set_eq. intros k'. rewrite elem_of_difference. split; [|by intros [? _]]. intros Hk'. split; [done|].
      intros [-> Hin]%HX. apply settle_from in Hk' as [Hk'|Hk']; [set_solver|]. by apply (Hdis id Hin).
Qed.

Lemma worker_fails_ok k n i t : node_ok k n -> workers n !! i = Some t ->
  node_ok k (put_thread n i (at_phase t Stopped [] []) (set_worker (worker_state n t) {| next_token := next_token (worker t); conns := ∅ |})).
Proof.
  intros Hn Ht. apply (put_thread_ok k n i t _ _ ∅); try done; cbn.
  - apply sheds_refl.
  - unfold conn_ids. rewrite map_to_list_empty. cbn. unfold held, pending. rewrite new_ids_app.
    apply submseteq_inserts_l, submseteq_inserts_l. done.
Qed.

(** ** The acceptor's steps *)

Lemma to_worker_cons i w m l : to_worker i ((w, m) :: l) = if decide (w = Z.of_nat i) then m :: to_worker i l else to_worker i l.
Proof. unfold to_worker. rewrite filter_cons. cbn [fst]. by destruct (decide (w = Z.of_nat i)). Qed.

(** The acceptor starts with an empty outbox and admits at most one peer, with a new number. *)
Lemma acceptor_ok k k' n r a (w : Z) (fresh : list Z) : node_ok k n -> outbox (acceptor n) = [] ->
  registry_ok r -> max_peers r = MAX_PEERS -> below_next r -> next_peer (n_registry n) <= next_peer r <= k' ->
  (forall id p, peers r !! id = Some p -> 0 <= Admission.Admission.worker p < WORKERS_PER_CLUSTER) ->
  Forall (fun im => 0 <= im.1 < WORKERS_PER_CLUSTER) (outbox a) ->
  zlength (new_ids (outbox a).*2) <= 1 /\ zlength (gone_ids (outbox a).*2) <= 1 ->
  (forall c, accepting a = Some c -> c <= MAX_ACCEPTS_PER_EVENT) ->
  fresh = [] \/ fresh = [next_peer (n_registry n)] /\ next_peer (n_registry n) < next_peer r ->
  (forall i, new_ids (to_worker i (outbox a)) = if decide (w = Z.of_nat i) then fresh else []) ->
  (forall i, settle (registered (n_registry n) (Z.of_nat i)) (to_worker i (outbox a)) = registered r (Z.of_nat i)) ->
  node_ok k' {| n_registry := r; n_stores := n_stores n; acceptor := a; workers := workers n |}
  /\ forall i, settle (registered (n_registry n) (Z.of_nat i)) (to_worker i (outbox a)) = registered r (Z.of_nat i).
Proof.
  intros Hn Hob Hr Hmax Hb Hnext Hw Hout Hone Hacc Hfresh Hnew Hset. split; [|exact Hset].
  assert (forall i t, held {| n_registry := r; n_stores := n_stores n; acceptor := a; workers := workers n |} i t
    = held n i t ++ (if decide (w = Z.of_nat i) then fresh else [])) as Hheld.
  { intros i t. unfold held, pending. cbn [acceptor]. rewrite Hob. cbn. rewrite !new_ids_app, Hnew. cbn. by rewrite app_nil_r, app_assoc. }
  assert (forall i t id, workers n !! i = Some t -> id ∈ held n i t -> id ∉ fresh) as Hold.
  { intros i t id Ht Hid. apply (th_below _ _ _ (no_threads _ _ Hn i t Ht)) in Hid.
    destruct Hfresh as [-> |[-> _]]; [apply not_elem_of_nil|]. rewrite list_elem_of_singleton. lia. }
  assert (NoDup fresh) as Hnd by (destruct Hfresh as [-> |[-> _]]; [constructor|apply NoDup_singleton]).
  split; cbn [n_registry acceptor workers]; try done.
  - lia.
  - apply (no_count _ _ Hn).
  - intros i t Ht. pose proof (no_threads _ _ Hn i t Ht) as Hti. split; cbn [n_registry]; try apply Hti.
    + rewrite Hheld. apply NoDup_app. split; [apply (th_nodup _ _ _ Hti)|]. split.
      * intros id Hid. pose proof (Hold i t id Ht Hid). case_decide; [done|apply not_elem_of_nil].
      * case_decide; [done|constructor].
    + intros id. rewrite Hheld, elem_of_app. intros [Hid|Hid]; [apply (th_below _ _ _ Hti) in Hid; lia|].
      case_decide; [|by apply not_elem_of_nil in Hid]. destruct Hfresh as [-> |[-> ?]]; [by apply not_elem_of_nil in Hid|].
      apply list_elem_of_singleton in Hid. lia.
    + intros Hal. rewrite <- Hset, <- (th_settle _ _ _ Hti Hal). unfold pending. cbn [acceptor]. rewrite Hob. cbn. by rewrite app_nil_r, settle_app.
  - intros i j t u id Hne Ht Hu. rewrite !Hheld, !elem_of_app. intros Hid1 Hid2.
    destruct Hid1 as [Hid1|Hid1], Hid2 as [Hid2|Hid2].
    + by eapply (no_apart _ _ Hn i j).
    + destruct (decide (w = Z.of_nat j)); [|by apply not_elem_of_nil in Hid2]. by eapply (Hold i).
    + destruct (decide (w = Z.of_nat i)); [|by apply not_elem_of_nil in Hid1]. by eapply (Hold j).
    + destruct (decide (w = Z.of_nat i)); [|by apply not_elem_of_nil in Hid1]. destruct (decide (w = Z.of_nat j)); [lia|by apply not_elem_of_nil in Hid2].
Qed.

Lemma accept_ok k n c address now a r : node_ok k n -> k < 2 ^ 64 - 1 -> accepting (acceptor n) = Some c -> c < MAX_ACCEPTS_PER_EVENT ->
  outbox (acceptor n) = [] -> accept_connection address now (zlength (workers n)) (acceptor n) (n_registry n) = Some (a, r) ->
  node_ok (k + 1) {| n_registry := r; n_stores := n_stores n; acceptor := a; workers := workers n |}
  /\ forall i, settle (registered (n_registry n) (Z.of_nat i)) (to_worker i (outbox a)) = registered r (Z.of_nat i).
Proof.
  intros Hn Hk Hacc Hc Hob E. unfold accept_connection in E. rewrite (no_count _ _ Hn) in E.
  set (w := next_worker (acceptor n) mod WORKERS_PER_CLUSTER) in *.
  assert (0 <= w < WORKERS_PER_CLUSTER) as Hw by (apply Z.mod_pos_bound; done).
  apply bind_Some in E as ([r' d] & Ea & E). injection E as <- <-.
  pose proof (no_registry _ _ Hn) as Hr. pose proof (no_below _ _ Hn) as Hb. pose proof (no_next _ _ Hn) as Hnx. pose proof (ok_next _ Hr) as Hu.
  destruct (admit_decides _ address.1 w now Hr) as (b' & nx & p' & d' & E' & _ & _ & _ & _ & Hd). pose proof Ea as Ea'. rewrite Ea in E'. injection E' as -> ->.
  apply (admit_ok _ _ _ _ _ _ Hr) in Ea as Hr'. unfold is_uint in Hu. apply admit_number in Ea' as Hnum; [|done|lia].
  assert (forall c0, (fun c => c + 1) <$> accepting (acceptor n) = Some c0 -> c0 <= MAX_ACCEPTS_PER_EVENT) as Hacc'
    by (rewrite Hacc; intros c0 [= <-]; lia).
  destruct d' as [id|e j id| |]; cbn in Hd, Hnum.
  - destruct Hnum as [-> ->]. destruct Hd as (_ & _ & Hfree & ->).
    eapply (acceptor_ok k _ n _ _ w [next_peer (n_registry n)]); [done|done|done|apply (no_max _ _ Hn)|..]; cbn [next_peer peers outbox accepting].
    + intros id p. cbn [peers next_peer]. intros [[<- _]|[_ Hp]]%lookup_insert_Some; [lia|]. apply Hb in Hp. lia.
    + lia.
    + intros id p [[_ <-]|[_ Hp]]%lookup_insert_Some; [done|by eapply (no_workers _ _ Hn)].
    + constructor; [done|constructor].
    + done.
    + done.
    + right. split; [done|lia].
    + intros i. rewrite to_worker_cons. by case_decide.
    + intros i. rewrite to_worker_cons. apply set_eq. intros id. rewrite elem_of_registered. cbn [peers]. case_decide as Ew; cbn [settle foldl settle_one].
      * cbn. rewrite elem_of_union, elem_of_singleton, elem_of_registered. split.
        -- intros [-> |(p & Hp & Ew')]; [exists (new_record address.1 w now); by rewrite lookup_insert_eq|].
           exists p. rewrite lookup_insert_ne; [done|]. intros <-. congruence.
        -- intros (p & [[<- _]|[_ Hp]]%lookup_insert_Some & Ew'); [by left|right; by exists p].
      * cbn. rewrite elem_of_registered. split.
        -- intros (p & Hp & Ew'). exists p. rewrite lookup_insert_ne; [done|]. intros <-. congruence.
        -- intros (p & [[_ <-]|[_ Hp]]%lookup_insert_Some & Ew'); [done|by exists p].
  - destruct Hnum as [-> ->]. destruct Hd as (_ & _ & _ & (p0 & Hp0 & <- & _) & Hfree & ->).
    pose proof (no_workers _ _ Hn e p0 Hp0) as Hj. rewrite (proj2 (Z.ltb_lt _ _)) by lia.
    assert (e < next_peer (n_registry n)) as Hlt by (by eapply Hb).
    eapply (acceptor_ok k _ n _ _ w [next_peer (n_registry n)]); [done|done|done|apply (no_max _ _ Hn)|..]; cbn [next_peer peers outbox accepting app].
    + intros id p. cbn [peers next_peer]. intros [[<- _]|[_ [_ Hp]%lookup_delete_Some]]%lookup_insert_Some; [lia|]. apply Hb in Hp. lia.
    + lia.
    + intros id p [[_ <-]|[_ [_ Hp]%lookup_delete_Some]]%lookup_insert_Some; [done|by eapply (no_workers _ _ Hn)].
    + constructor; [done|]. constructor; [done|constructor].
    + done.
    + done.
    + right. split; [done|lia].
    + intros i. rewrite !to_worker_cons. by repeat case_decide.
    + intros i. rewrite !to_worker_cons. apply set_eq. intros id. rewrite elem_of_registered. cbn [peers].
      assert (id ∈ registered (n_registry n) (Z.of_nat i) -> id <> next_peer (n_registry n)) as Hne.
      { intros (p & Hp%Hb & _)%elem_of_registered. lia. }
      assert ((exists p, <[next_peer (n_registry n) := new_record address.1 w now]> (delete e (peers (n_registry n))) !! id = Some p
          /\ Admission.Admission.worker p = Z.of_nat i)
        <-> id = next_peer (n_registry n) /\ w = Z.of_nat i \/ id <> e /\ id ∈ registered (n_registry n) (Z.of_nat i)) as ->.
      { rewrite elem_of_registered. split.
        - intros (p & [[<- <-]|[_ [Hne' Hp]%lookup_delete_Some]]%lookup_insert_Some & Ew); [by left|right]. split; [done|by exists p].
        - intros [[-> Ew]|[Hne' (p & Hp & Ew)]]; [exists (new_record address.1 w now); by rewrite lookup_insert_eq|].
          exists p. rewrite lookup_insert_ne by (intros E0; apply Hne; [|done]; apply elem_of_registered; by exists p). by rewrite lookup_delete_ne. }
      assert (id = e -> id ∈ registered (n_registry n) (Z.of_nat i) -> Admission.Admission.worker p0 = Z.of_nat i) as He.
      { intros -> (p & Hp & Ew)%elem_of_registered. congruence. }
      repeat case_decide; cbn; set_solver.
  - subst nx. destruct Hd as [_ ->]. eapply (acceptor_ok k _ n _ _ w []); [done|done|done|apply (no_max _ _ Hn)|..]; cbn [next_peer peers outbox accepting];
      try done; try lia; try (by left).
    + apply (no_workers _ _ Hn).
    + intros i. by case_decide.
  - subst nx. destruct Hd as (_ & _ & -> & _). eapply (acceptor_ok k _ n _ _ w []); [done|done|done|apply (no_max _ _ Hn)|..]; cbn [next_peer peers outbox accepting];
      try done; try lia; try (by left).
    + apply (no_workers _ _ Hn).
    + intros i. by case_decide.
Qed.

Lemma outbox_rest n w m rest : outbox (acceptor n) = (w, m) :: rest -> forall a, outbox a = rest ->
  zlength (new_ids (outbox (acceptor n)).*2) <= 1 /\ zlength (gone_ids (outbox (acceptor n)).*2) <= 1 ->
  zlength (new_ids (outbox a).*2) <= 1 /\ zlength (gone_ids (outbox a).*2) <= 1.
Proof.
  intros -> a ->. cbn. pose proof (zlength_nonneg (new_ids rest.*2)). pose proof (zlength_nonneg (gone_ids rest.*2)).
  destruct m; cbn [new_ids gone_ids omap list_omap]; rewrite ?zlength_cons; unfold new_ids, gone_ids in *; lia.
Qed.

Lemma deliver_ok k n n' : node_ok k n -> deliver n = Some n' -> node_ok k n'.
Proof.
  intros Hn E. unfold deliver in E. destruct (outbox (acceptor n)) as [|[w m] rest] eqn:Eo; [done|].
  pose proof (no_outbox _ _ Hn) as Hout. rewrite Eo in Hout. apply Forall_cons in Hout as [Hw Hrest]. cbn in Hw.
  assert (is_Some (workers n !! Z.to_nat w)) as [t Ht].
  { apply lookup_lt_is_Some. pose proof (no_count _ _ Hn) as Hc. unfold zlength in Hc. lia. }
  rewrite Ht in E. pose proof (no_threads _ _ Hn _ t Ht) as Hti.
  assert (forall i, to_worker i (outbox (acceptor n)) = if decide (i = Z.to_nat w) then m :: to_worker i rest else to_worker i rest) as Eout.
  { intros i. rewrite Eo, to_worker_cons. repeat case_decide; try done; lia. }
  destruct (is_stopped t) eqn:Est.
  - injection E as <-. pose proof (th_stopped _ _ _ Hti Est) as (Hconn & _ & Hqueue).
    set (n' := {| n_registry := remove_worker (n_registry n) w; n_stores := n_stores n; acceptor := with_outbox (acceptor n) rest; workers := workers n |}).
    assert (forall j u, workers n !! j = Some u -> held n' j u ⊆+ held n j u) as Hheld.
    { intros j u Hu. unfold held, pending. cbn [acceptor outbox with_outbox n']. rewrite Eout, !new_ids_app. apply submseteq_app; [done|].
      apply submseteq_app; [done|]. case_decide; [|done]. destruct m; cbn; [by apply submseteq_cons|done|done]. }
    assert (forall id p, peers (remove_worker (n_registry n) w) !! id = Some p -> peers (n_registry n) !! id = Some p) as Hpeers.
    { intros id p. cbn. by intros [? _]%map_lookup_filter_Some. }
    split; cbn [n' n_registry acceptor workers outbox with_outbox accepting]; try apply Hn.
    + by apply (run_registry_ok (n_registry n) (OpRemoveWorker w) _ (no_registry _ _ Hn)).
    + intros id p Hp%Hpeers. by apply (no_below _ _ Hn) in Hp.
    + intros id p Hp%Hpeers. by apply (no_workers _ _ Hn) in Hp.
    + intros j u Hu. pose proof (no_threads _ _ Hn j u Hu) as Hj. split; try apply Hj.
      * eapply submseteq_NoDup_l; [by apply Hheld|apply Hj].
      * intros id Hid. apply (th_below _ _ _ Hj). eapply elem_of_submseteq; [exact Hid|by apply Hheld].
      * intros Hal. cbn [n_registry n']. rewrite remove_worker_registered. assert (j <> Z.to_nat w) as Hne by congruence.
        rewrite decide_False by lia. rewrite <- (th_settle _ _ _ Hj Hal). unfold pending. by rewrite Eout, decide_False.
    + intros i j u v id Hne Hu Hv Hi1 Hi2. apply (no_apart _ _ Hn i j u v id Hne Hu Hv).
      * eapply elem_of_submseteq; [exact Hi1|by apply Hheld].
      * eapply elem_of_submseteq; [exact Hi2|by apply Hheld].
    + done.
    + exact (outbox_rest n w m rest Eo (with_outbox (acceptor n) rest) eq_refl (no_out _ _ Hn)).
  - destruct (Z.ltb_spec (zlength (queue t)) WORKER_QUEUE_CAPACITY); [|done]. injection E as <-.
    set (t' := at_phase t (phase t) (tasks t) (queue t ++ [m])).
    set (n' := {| n_registry := n_registry n; n_stores := n_stores n; acceptor := with_outbox (acceptor n) rest; workers := <[Z.to_nat w := t']> (workers n) |}).
    assert (forall j u, workers n' !! j = Some u -> exists v, workers n !! j = Some v /\ thread_ids u = thread_ids v /\ pending n' j u = pending n j v) as Hsame.
    { intros j u Hu. cbn in Hu. apply list_lookup_insert_Some in Hu as [(<- & <- & _)|[Hne Hu]].
      - exists t. split; [done|]. split; [done|]. unfold pending. cbn [acceptor outbox with_outbox n' queue t' at_phase]. rewrite Eout, decide_True by done. by rewrite <- app_assoc.
      - exists u. split; [done|]. split; [done|]. unfold pending. cbn [acceptor outbox with_outbox n']. by rewrite Eout, decide_False. }
    assert (forall j u, workers n' !! j = Some u -> exists v, workers n !! j = Some v /\ held n' j u = held n j v) as Hheld.
    { intros j u Hu. destruct (Hsame j u Hu) as (v & Hv & E1 & E2). exists v. split; [done|]. unfold held. by rewrite E1, E2. }
    split; cbn [n_registry acceptor outbox with_outbox accepting n']; try apply Hn.
    + unfold zlength. cbn. rewrite length_insert. apply (no_count _ _ Hn).
    + intros j u Hu. destruct (Hsame j u Hu) as (v & Hv & E1 & E2). pose proof (no_threads _ _ Hn j v Hv) as Hj.
      split; [unfold held; rewrite E1, E2; apply Hj|intros id; unfold held; rewrite E1, E2; apply Hj| | | |].
      * intros Hal. cbn [n_registry n']. rewrite E1, E2. apply Hj. cbn in Hu. apply list_lookup_insert_Some in Hu as [(<- & <- & _)|[Hne Hu]]; [|congruence].
        rewrite Ht in Hv. injection Hv as <-. done.
      * cbn in Hu. apply list_lookup_insert_Some in Hu as [(<- & <- & _)|[Hne Hu]]; [apply Hti|]. by apply (no_threads _ _ Hn j u Hu).
      * cbn in Hu. apply list_lookup_insert_Some in Hu as [(<- & <- & _)|[Hne Hu]]; [|by apply (no_threads _ _ Hn j u Hu)].
        cbn. rewrite zlength_app. change (zlength [m]) with 1. lia.
      * intros Hs. cbn in Hu. apply list_lookup_insert_Some in Hu as [(<- & <- & _)|[Hne Hu]]; [|by apply (no_threads _ _ Hn j u Hu)].
        exfalso. change (is_stopped t' = true) in Hs. unfold is_stopped in *. cbn in Hs. by rewrite Hs in Est.
    + intros i j u v id Hne Hu Hv. destruct (Hheld i u Hu) as (u' & Hu' & ->), (Hheld j v Hv) as (v' & Hv' & ->). by eapply (no_apart _ _ Hn i j).
    + done.
    + exact (outbox_rest n w m rest Eo (with_outbox (acceptor n) rest) eq_refl (no_out _ _ Hn)).
Qed.

(** Steps of the acceptor that leave the registry alone. *)
Lemma quiet_acceptor_ok k n a : node_ok k n -> outbox (acceptor n) = [] -> Forall (fun im => 0 <= im.1 < WORKERS_PER_CLUSTER) (outbox a) ->
  (forall im, im ∈ outbox a -> exists bh, im.2 = NewBlock bh) -> (forall c, accepting a = Some c -> c <= MAX_ACCEPTS_PER_EVENT) ->
  node_ok k {| n_registry := n_registry n; n_stores := n_stores n; acceptor := a; workers := workers n |}.
Proof.
  intros Hn Hob Hout Hblocks Hacc.
  assert (forall l, (forall m, m ∈ l -> exists bh, m = NewBlock bh) -> new_ids l = [] /\ gone_ids l = [] /\ forall ids, settle ids l = ids) as Hl.
  { induction l as [|m l IH]; intros Hm; [done|]. destruct (Hm m ltac:(left)) as [bh ->]. apply IH. intros m' ?. apply Hm. by right. }
  assert (forall m, m ∈ (outbox a).*2 -> exists bh, m = NewBlock bh) as Hm.
  { intros m ([w m'] & -> & Hin)%list_elem_of_fmap. by apply (Hblocks (w, m')). }
  assert (forall i m, m ∈ to_worker i (outbox a) -> exists bh, m = NewBlock bh) as Hto.
  { intros i m ([w m'] & -> & [_ Hin]%list_elem_of_filter)%list_elem_of_fmap. by apply (Hblocks (w, m')). }
  refine (proj1 (_ : _ /\ _)). eapply (acceptor_ok k _ n _ _ 0 []); [done|done|apply Hn|apply Hn|apply Hn| |apply Hn|done| |done|by left| |].
  - split; [lia|apply Hn].
  - destruct (Hl _ Hm) as (-> & -> & _). done.
  - intros i. rewrite (proj1 (Hl _ (Hto i))). by case_decide.
  - intros i. by apply (Hl _ (Hto i)).
Qed.

Lemma node_step_ok k n n' : node_ok k n -> k < 2 ^ 64 - 1 -> NodeStep socket_ok n n' -> node_ok (k + 1) n'.
Proof.
  intros Hn Hk Hs. destruct Hs as [n Hli Ha Ho|n c address now a r Ha Hc Ho E|n c Ha Ho|n bh Hli Ha Ho|n n' E|n now Hli Ha Ho|n Ha Ho
    |n i t h m q env s l Ht Hph Htk Eq Hh E|n i t h Ht Hph Htk Hq|n i t l Ht Hph Hl|n i t task l env Ht Hal Htk He|n i t now Ht Hph Htk|n i t Ht Hph
    |n i t h Ht Hph Htk Hh Hq Hli].
  2: by eapply accept_ok.
  all: apply (node_ok_mono k (k + 1)); [lia|].
  - apply (quiet_acceptor_ok k n (with_accepting (acceptor n) (Some 0))); cbn; try done.
    + by rewrite Ho.
    + rewrite Ho. by intros im ?%not_elem_of_nil.
    + by intros c [= <-].
  - apply (quiet_acceptor_ok k n (with_accepting (acceptor n) None)); cbn; try done.
    + by rewrite Ho.
    + rewrite Ho. by intros im ?%not_elem_of_nil.
  - apply (quiet_acceptor_ok k n (broadcast_block bh (zlength (workers n)) (acceptor n))); cbn; try done.
    + rewrite (no_count _ _ Hn). apply Forall_fmap, Forall_forall. intros i Hi%elem_of_zrange. done.
    + intros im (i & -> & _)%list_elem_of_fmap. by eexists.
    + rewrite Ha. done.
  - by eapply deliver_ok.
  - unfold log_peer_summary. destruct (_ <? _); [done|]. cbn [fst].
    eapply (quiet_acceptor_ok k n); cbn; try done.
    + by rewrite Ho.
    + rewrite Ho. by intros im ?%not_elem_of_nil.
    + rewrite Ha. done.
  - apply (quiet_acceptor_ok k n (stop_listening (acceptor n))); cbn; try done.
    + by rewrite Ho.
    + rewrite Ho. by intros im ?%not_elem_of_nil.
    + rewrite Ha. done.
  - by eapply worker_receives_ok.
  - apply (idle_ok k n i t); try done. unfold is_stopped. by rewrite Hph.
  - apply (idle_ok k n i t); try done. unfold is_stopped. by rewrite Hph.
  - pose proof (no_threads _ _ Hn i t Ht) as Hti. destruct (run_task_ok env task (worker_state n t) He (th_conns _ _ _ Hti)) as [Hok Hg].
    by apply (turn_ok k n i t).
  - apply (idle_ok k n i t); try done. unfold is_stopped. by rewrite Hph.
  - by apply worker_fails_ok.
  - by apply worker_fails_ok.
Qed.

(** ** The slots of a worker that has ended *)

(** The acceptor has met the end of worker [i]: the slots it still has are of sockets on their way to it. *)
Definition released (i : nat) (n : Node) : Prop :=
  (exists t, workers n !! i = Some t /\ is_stopped t = true) /\
  registered (n_registry n) (Z.of_nat i) ⊆ list_to_set (new_ids (to_worker i (outbox (acceptor n)))).

Lemma released_put i n j t' s X : released i n -> i <> j -> sheds X (n_registry n) (registry s) -> released i (put_thread n j t' s).
Proof.
  intros [(t & Ht & Hs) Hr] Hne Hsh. split.
  - exists t. split; [|done]. cbn. by rewrite list_lookup_insert_ne by done.
  - cbn [put_thread n_registry acceptor]. rewrite (sheds_registered _ _ _ _ Hsh). set_solver.
Qed.

(** Another worker's step. *)
Lemma released_worker k i n j t t' s : node_ok k n -> released i n -> workers n !! j = Some t -> is_stopped t = false ->
  some_given_up (worker_state n t) s \/ (exists X, sheds X (n_registry n) (registry s)) -> released i (put_thread n j t' s).
Proof.
  intros Hn Hr Ht Hal Hs. assert (i <> j) as Hne by (intros ->; destruct Hr as [(u & Hu & Hs') _]; congruence).
  destruct Hs as [Hg|[X Hsh]]; [|by eapply released_put].
  pose proof (th_nodup _ _ _ (no_threads _ _ Hn j t Ht)) as Hnd. apply NoDup_app in Hnd as (Hnd & _ & _). destruct (Hg Hnd) as [X HX].
  eapply released_put; [done|done|apply (gu_sheds _ _ _ HX)].
Qed.

Lemma message_sheds k n i t env m : node_ok k n -> workers n !! i = Some t ->
  exists X, sheds X (n_registry n) (registry (handle_message env m (worker_state n t)).1).
Proof.
  intros Hn Ht. pose proof (no_threads _ _ Hn i t Ht) as Hti. assert (all_ok (worker_state n t)) as Hall by apply (th_conns _ _ _ Hti).
  pose proof (th_nodup _ _ _ Hti) as Hnd. apply NoDup_app in Hnd as (Hnd & _ & _). destruct m as [address id|bh|id]; cbn [handle_message fst].
  - destruct (new_connection_ok env address id _ Hall) as [_ [[-> _]|[-> _]]]; [exists ∅; apply sheds_refl|exists {[id]}; apply remove_sheds].
  - exists ∅. apply sheds_refl.
  - destruct (disconnect_peer_ok id (added_at env) _ Hall Hnd) as (_ & X & HX & _). exists X. apply (gu_sheds _ _ _ HX).
Qed.

(** A message that cannot be delivered releases the slots of the worker it is for. *)
Lemma deliver_releases k n i t m rest : node_ok k n -> workers n !! i = Some t -> is_stopped t = true ->
  outbox (acceptor n) = (Z.of_nat i, m) :: rest -> exists n', deliver n = Some n' /\ released i n' /\ registered (n_registry n') (Z.of_nat i) = ∅.
Proof.
  intros Hn Ht Hs Eo. unfold deliver. rewrite Eo, Nat2Z.id, Ht, Hs. eexists. split; [done|].
  assert (registered (remove_worker (n_registry n) (Z.of_nat i)) (Z.of_nat i) = ∅) as E by (by rewrite remove_worker_registered, decide_True).
  split; [|done]. split; [by exists t|]. cbn [n_registry]. rewrite E. set_solver.
Qed.

Lemma deliver_released k i n n' : node_ok k n -> released i n -> deliver n = Some n' -> released i n'.
Proof.
  intros Hn [(t & Ht & Hs) Hr] E. pose proof (no_outbox _ _ Hn) as Hout. destruct (outbox (acceptor n)) as [|[w m] rest] eqn:Eo; [unfold deliver in E; by rewrite Eo in E|].
  apply Forall_cons in Hout as [Hw _]. cbn in Hw. destruct (decide (w = Z.of_nat i)) as [->|Hne].
  { destruct (deliver_releases k n i t m rest Hn Ht Hs Eo) as (n1 & E1 & Hr1 & _). congruence. }
  rewrite to_worker_cons, decide_False in Hr by done. unfold deliver in E. rewrite Eo in E.
  destruct (workers n !! Z.to_nat w) as [u|] eqn:Eu.
  - destruct (is_stopped u).
    + injection E as <-. split; [by exists t|]. cbn [n_registry acceptor outbox with_outbox]. by rewrite remove_worker_registered, decide_False.
    + destruct (_ <? _); [|done]. injection E as <-. split; [|done]. exists t. split; [|done]. cbn. rewrite list_lookup_insert_ne; [done|lia].
  - injection E as <-. split; [by exists t|]. cbn [n_registry acceptor outbox with_outbox]. destruct m as [address id| |]; [|done..].
    rewrite (sheds_registered _ _ _ _ (remove_sheds _ _)). set_solver.
Qed.

(** Nothing brings such slots back. *)
Lemma released_step k i n n' : node_ok k n -> k < 2 ^ 64 - 1 -> NodeStep socket_ok n n' -> released i n -> released i n'.
Proof.
  intros Hn Hk Hs Hr. assert (outbox (acceptor n) = [] -> registered (n_registry n) (Z.of_nat i) = ∅) as Hnone.
  { intros E. destruct Hr as [_ Hr]. rewrite E in Hr. set_solver. }
  destruct Hs as [n Hli Ha Ho|n c address now a r Ha Hc Ho E|n c Ha Ho|n bh Hli Ha Ho|n n' E|n now Hli Ha Ho|n Ha Ho
    |n j t h m q env s l Ht Hph Htk Eq Hh E|n j t h Ht Hph Htk Hq|n j t l Ht Hph Hl|n j t task l env Ht Hal Htk He|n j t now Ht Hph Htk|n j t Ht Hph
    |n j t h Ht Hph Htk Hh Hq Hli].
  all: try (eapply (released_worker k); [exact Hn|exact Hr|exact Ht|by (unfold is_stopped; rewrite ?Hph)|right; exists ∅; apply sheds_refl]).
  - split; [apply Hr|]. cbn [n_registry]. rewrite Hnone by done. set_solver.
  - split; [apply Hr|]. cbn [n_registry acceptor]. destruct (accept_ok k n c address now a r Hn Hk Ha Hc Ho E) as [_ <-].
    rewrite Hnone by done. intros id [Hid|Hid]%settle_from; set_solver.
  - split; [apply Hr|]. cbn [n_registry]. rewrite Hnone by done. set_solver.
  - split; [apply Hr|]. cbn [n_registry]. rewrite Hnone by done. set_solver.
  - by eapply deliver_released.
  - unfold log_peer_summary. destruct (_ <? _); [done|]. cbn [fst]. split; [apply Hr|]. cbn [n_registry]. rewrite Hnone by done. set_solver.
  - split; [apply Hr|]. cbn [n_registry]. rewrite Hnone by done. set_solver.
  - eapply (released_worker k); [exact Hn|exact Hr|exact Ht|by (unfold is_stopped; rewrite Hph)|]. right.
    destruct (message_sheds k n j t env m Hn Ht) as [X HX]. rewrite E in HX. by exists X.
  - eapply (released_worker k); [exact Hn|exact Hr|exact Ht|done|]. left.
    apply (run_task_ok env task (worker_state n t) He (th_conns _ _ _ (no_threads _ _ Hn j t Ht))).
Qed.

Lemma released_run j i n n' : forall k, node_ok k n -> k + Z.of_nat j < 2 ^ 64 - 1 -> nsteps (NodeStep socket_ok) j n n' -> released i n -> released i n'.
Proof.
  revert n. induction j as [|j IH]; intros n k Hn Hk Hrun Hr; inversion Hrun; subst; [done|].
  eapply (IH _ (k + 1)); [eapply node_step_ok; [done|lia|done]|lia|done|]. eapply released_step; [done| |done|done]. lia.
Qed.

Lemma start_ok now s : node_ok 0 (start now s).
Proof.
  assert (forall i t, workers (start now s) !! i = Some t -> t = start_worker /\ (i < 4)%nat) as Hw.
  { intros i t Ht. cbn [workers start] in Ht. apply lookup_replicate in Ht as [-> Hi]. split; [done|]. exact Hi. }
  assert (forall i, held (start now s) i start_worker = []) as Hh.
  { intros i. unfold held, thread_ids, conn_ids. cbn. by rewrite map_to_list_empty. }
  split; cbn; try done.
  - intros i t [-> _]%Hw. split; cbn; rewrite ?Hh; try done.
    + constructor.
    + by intros id ?%not_elem_of_nil.
  - intros i j t u id _ [-> _]%Hw [-> _]%Hw. rewrite Hh. by intros ?%not_elem_of_nil.
Qed.

Lemma run_ok j now s n : nsteps (NodeStep socket_ok) j (start now s) n -> Z.of_nat j < 2 ^ 64 - 1 -> node_ok (Z.of_nat j) n.
Proof.
  revert n; induction j as [|j IH]; intros n Hrun Hj.
  - inversion Hrun; subst. apply start_ok.
  - apply nsteps_inv_r in Hrun as (n1 & Hrun & Hs). replace (Z.of_nat (S j)) with (Z.of_nat j + 1) by lia.
    eapply node_step_ok; [apply IH; [done|lia]|lia|done].
Qed.

(** ** Counting sockets *)

(** The sockets the server holds: with the workers, on their queues, and about to be sent. *)
Definition open_sockets (n : Node) : list Z :=
  concat ((fun t => thread_ids t ++ new_ids (queue t)) <$> workers n) ++ new_ids (outbox (acceptor n)).*2.

Lemma gone_ids_length ms : zlength (gone_ids ms) <= zlength ms.
Proof.
  induction ms as [|m ms IH]; [done|]. unfold gone_ids in *. destruct m; cbn [omap list_omap]; rewrite ?zlength_cons; lia.
Qed.

(** No message goes to two workers. *)
Lemma gone_split l : zlength (gone_ids (to_worker 0 l)) + zlength (gone_ids (to_worker 1 l)) + zlength (gone_ids (to_worker 2 l))
  + zlength (gone_ids (to_worker 3 l)) <= zlength (gone_ids l.*2).
Proof.
  induction l as [|[w m] l IH]; [done|]. rewrite !to_worker_cons. cbn [fmap list_fmap snd].
  assert (exists g, 0 <= g /\ forall l, zlength (gone_ids (m :: l)) = g + zlength (gone_ids l)) as (g & Hg & Hc).
  { exists (zlength (gone_ids [m])). split; [apply zlength_nonneg|]. intros l'. destruct m; cbn [gone_ids omap list_omap]; rewrite ?zlength_cons; done. }
  rewrite (Hc l.*2). repeat case_decide; rewrite ?Hc; lia.
Qed.

Lemma registered_split r : zsize (peers r) <= MAX_PEERS ->
  Z.of_nat (size (registered r 0)) + Z.of_nat (size (registered r 1)) + Z.of_nat (size (registered r 2)) + Z.of_nat (size (registered r 3)) <= MAX_PEERS.
Proof.
  intros Hs. assert (forall w w', w <> w' -> registered r w ## registered r w') as Hd.
  { intros w w' Hne id (p & Hp & <-)%elem_of_registered (p' & Hp' & <-)%elem_of_registered. congruence. }
  assert (size (registered r 0 ∪ registered r 1 ∪ registered r 2 ∪ registered r 3) <= size (dom (peers r)))%nat as Hle.
  { apply subseteq_size. intros id. rewrite !elem_of_union, !elem_of_registered, elem_of_dom.
    intros [[[(p & Hp & _)|(p & Hp & _)]|(p & Hp & _)]|(p & Hp & _)]; by exists p. }
  pose proof (Hd 0 1 ltac:(done)). pose proof (Hd 0 2 ltac:(done)). pose proof (Hd 0 3 ltac:(done)). pose proof (Hd 1 2 ltac:(done)).
  pose proof (Hd 1 3 ltac:(done)). pose proof (Hd 2 3 ltac:(done)).
  rewrite !size_union in Hle by set_solver. rewrite size_dom in Hle. unfold zsize in Hs. lia.
Qed.

Lemma thread_sockets k n i t : node_ok k n -> workers n !! i = Some t ->
  zlength (thread_ids t ++ new_ids (queue t)) <= Z.of_nat (size (registered (n_registry n) (Z.of_nat i))) + WORKER_QUEUE_CAPACITY
    + zlength (gone_ids (to_worker i (outbox (acceptor n)))).
Proof.
  intros Hn Ht. pose proof (no_threads _ _ Hn i t Ht) as Hti. pose proof (zlength_nonneg (gone_ids (to_worker i (outbox (acceptor n))))).
  destruct (is_stopped t) eqn:Es.
  { destruct (th_stopped _ _ _ Hti Es) as (Hc & _ & Hq). unfold thread_ids, conn_ids. rewrite Hc, Hq, map_to_list_empty. cbn.
    rewrite zlength_nil. assert (0 <= WORKER_QUEUE_CAPACITY) by by_decide. lia. }
  assert (NoDup (thread_ids t ++ new_ids (queue t))) as Hnd.
  { pose proof (th_nodup _ _ _ Hti) as Hnd. unfold held, pending in Hnd. rewrite new_ids_app, app_assoc in Hnd. by apply NoDup_app in Hnd as [? _]. }
  assert (thread_ids t ++ new_ids (queue t) ⊆+ elements (registered (n_registry n) (Z.of_nat i)) ++ gone_ids (pending n i t)) as Hsub.
  { apply NoDup_submseteq; [done|]. intros id Hid. rewrite elem_of_app, elem_of_elements, <- (th_settle _ _ _ Hti Es).
    apply settle_to. unfold pending. rewrite new_ids_app, elem_of_app. apply elem_of_app in Hid as [Hid|Hid]; [left; by apply elem_of_list_to_set|right; by left]. }
  apply submseteq_length in Hsub. unfold pending in Hsub. rewrite gone_ids_app, !length_app in Hsub.
  pose proof (gone_ids_length (queue t)) as Hq. pose proof (th_queue _ _ _ Hti) as Hq2. unfold zlength in *.
  change (size (registered (n_registry n) (Z.of_nat i))) with (length (elements (registered (n_registry n) (Z.of_nat i)))).
  rewrite length_app. lia.
Qed.

Lemma open_sockets_bound k n : node_ok k n ->
  zlength (open_sockets n) <= MAX_PEERS + WORKERS_PER_CLUSTER * WORKER_QUEUE_CAPACITY + 2.
Proof.
  intros Hn. assert (length (workers n) = 4%nat) as Hc by (pose proof (no_count _ _ Hn) as Hc; unfold zlength, WORKERS_PER_CLUSTER in Hc; lia).
  unfold open_sockets. destruct (no_out _ _ Hn) as [Hnew Hgone].
  pose proof (ok_full _ (no_registry _ _ Hn)) as Hfull. rewrite (no_max _ _ Hn) in Hfull.
  pose proof (registered_split _ Hfull) as Hreg. pose proof (gone_split (outbox (acceptor n))) as Hsplit.
  pose proof (thread_sockets k n) as Ht. destruct (workers n) as [|t0 [|t1 [|t2 [|t3 [|]]]]] eqn:Ew; try discriminate Hc.
  pose proof (Ht 0%nat t0 Hn eq_refl) as H0'. pose proof (Ht 1%nat t1 Hn eq_refl) as H1'.
  pose proof (Ht 2%nat t2 Hn eq_refl) as H2'. pose proof (Ht 3%nat t3 Hn eq_refl) as H3'.
  cbn [fmap list_fmap concat]. rewrite app_nil_r, zlength_app. rewrite !(zlength_app (thread_ids _ ++ new_ids _)).
  unfold WORKERS_PER_CLUSTER in *. change (Z.of_nat 0) with 0 in *. change (Z.of_nat 1) with 1 in *. change (Z.of_nat 2) with 2 in *. change (Z.of_nat 3) with 3 in *. lia.
Qed.

End Workers.

(** C26: Slots and sockets agree, in every interleaving of the acceptor and the workers, whatever the clients do and
    whichever socket, poll or thread fails.  At most 64 peers have a slot, and the server never holds more than 194
    sockets.  The connections of a running worker, once the messages on their way to it are handled, are exactly the
    peers that the registry has for it: no slot leaks, and an evicted socket is closed.  A worker that has ended holds
    no socket; the first message that cannot reach it releases every slot it still has, and for ever after a slot of
    that worker belongs to a socket that is just on its way to it. *)
Theorem slots_match_sockets `{BitcoinCodec} `{P2pCodec} `{KvStore} `{HeightsDb} `{Bip324Laws} `{HashOrder} (now : Z) (s : Stores) (steps : nat) (n : Node)
  (Hrun : nsteps (NodeStep socket_ok) steps (start now s) n) (Hsteps : Z.of_nat steps < 2 ^ 64 - 1) :
  zsize (peers (n_registry n)) <= MAX_PEERS
  /\ zlength (open_sockets n) <= MAX_PEERS + WORKERS_PER_CLUSTER * WORKER_QUEUE_CAPACITY + 2
  /\ (forall i t, workers n !! i = Some t -> is_stopped t = false ->
       settle (list_to_set (thread_ids t)) (pending n i t) = registered (n_registry n) (Z.of_nat i))
  /\ forall i t, workers n !! i = Some t -> is_stopped t = true ->
       thread_ids t = [] /\ queue t = []
       /\ forall m rest, outbox (acceptor n) = (Z.of_nat i, m) :: rest ->
            exists n', deliver n = Some n' /\ registered (n_registry n') (Z.of_nat i) = ∅
            /\ forall later n'', nsteps (NodeStep socket_ok) later n' n'' -> Z.of_nat (steps + 1 + later) < 2 ^ 64 - 1 ->
                 registered (n_registry n'') (Z.of_nat i) ⊆ list_to_set (new_ids (to_worker i (outbox (acceptor n'')))).
Proof.
  apply run_ok in Hrun; [|done]. split; [|split; [|split]].
  - pose proof (ok_full _ (no_registry _ _ Hrun)) as Hfull. by rewrite (no_max _ _ Hrun) in Hfull.
  - by eapply open_sockets_bound.
  - intros i t Ht. apply (th_settle _ _ _ (no_threads _ _ Hrun i t Ht)).
  - intros i t Ht Hs. destruct (th_stopped _ _ _ (no_threads _ _ Hrun i t Ht) Hs) as (Hc & _ & Hq). split.
    { unfold thread_ids, conn_ids. by rewrite Hc, map_to_list_empty. }
    split; [done|]. intros m rest Eo. destruct (deliver_releases _ n i t m rest Hrun Ht Hs Eo) as (n' & E & Hr & Hnone).
    exists n'. split; [done|]. split; [done|]. intros later n'' Hlater Hbound.
    refine (proj2 (released_run later i n' n'' (Z.of_nat steps + 1) _ _ Hlater Hr)); [|lia].
    apply (node_step_ok (Z.of_nat steps) n); [done|done|by constructor].
Qed.

(** C27: In every run of the server each connection of each worker stays within its budgets, and as long as it has output
    to send its socket is polled for writing, so no answer or announcement is left behind. *)
Theorem output_is_polled `{BitcoinCodec} `{P2pCodec} `{KvStore} `{HeightsDb} `{Bip324Laws} `{HashOrder} (now : Z) (s : Stores) (steps : nat) (n : Node)
  (Hrun : nsteps (NodeStep socket_ok) steps (start now s) n) (Hsteps : Z.of_nat steps < 2 ^ 64 - 1) (i : nat) (t : Thread) (token : Token)
  (c : PeerConnection) (Ht : workers n !! i = Some t) (Hc : conns (worker t) !! token = Some c) :
  (wants_write (pc_peer c) = true -> pc_writable c = true)
  /\ zlength (read_buffer (pc_peer c)) <= MAX_HANDSHAKE_BYTES /\ zlength (write_buffer (pc_peer c)) <= MAX_WRITE_BUFFER_SIZE.
Proof.
  apply run_ok in Hrun; [|done]. pose proof (th_conns _ _ _ (no_threads _ _ Hrun i t Ht) token c Hc) as [[[Hb Hst] Hset] Hw].
  split; [done|]. split; [by apply settled_bound|by destruct Hb].
Qed.

(** ** Concrete inputs *)

Section Demo.
#[local] Existing Instances Udata.Udata.toy_bitcoin V2CodecSpec.toy_types HeaderIndex.HeaderIndex.raw_headers V2CodecSpec.toy_p2p V2CodecSpec.toy_p2p_laws
  HeaderIndex.HeaderIndex.small_db ProofStore.ProofStore.map_kv toy_bip324 toy_bip324_laws.

(** The acceptor takes a socket and hands it to the first worker, which adds the connection. *)
Definition demo_env : AddEnv := {| magic := []; set_nodelay := Ok tt; register := Ok tt; entropy := []; added_at := 7 |}.
Definition polled : Node :=
  let n := start 0 demo_stores in
  {| n_registry := n_registry n; n_stores := n_stores n; acceptor := with_accepting (acceptor n) (Some 0); workers := workers n |}.
Definition accepted : Node :=
  match accept_connection (ip 1 2 3 4, 8333) 5 (zlength (workers polled)) (acceptor polled) (n_registry polled) with
  | Some (a, r) => {| n_registry := r; n_stores := n_stores polled; acceptor := a; workers := workers polled |}
  | None => polled
  end.
Definition sent : Node := default accepted (deliver accepted).
Definition waiting : Thread := at_phase start_worker (Control 0) [] [NewConnection (ip 1 2 3 4, 8333) 0].
Definition served : Node :=
  let '(s, l) := handle_message demo_env (NewConnection (ip 1 2 3 4, 8333) 0) (worker_state sent waiting) in
  put_thread sent 0 (at_phase waiting (Control 1) l []) s.

Lemma demo_run : nsteps (NodeStep socket_ok) 4 (start 0 demo_stores) served.
Proof.
  eapply nsteps_l; [apply AcceptorPolled; reflexivity|]. eapply nsteps_l; [|eapply nsteps_l; [|eapply nsteps_l; [|apply nsteps_O]]].
  - eapply (AcceptorAccepts socket_ok polled 0 (ip 1 2 3 4, 8333) 5); [reflexivity|by_decide|reflexivity|].
    instantiate (1 := n_registry accepted). instantiate (1 := acceptor accepted). reflexivity.
  - apply (AcceptorSends socket_ok accepted sent). reflexivity.
  - apply (WorkerReceives socket_ok sent 0 waiting 0 (NewConnection (ip 1 2 3 4, 8333) 0) [] demo_env); try reflexivity.
Qed.

(** Then the worker's poll fails, and a block is announced. *)
Definition quiet : Node :=
  {| n_registry := n_registry served; n_stores := n_stores served; acceptor := with_accepting (acceptor served) None; workers := workers served |}.
Definition first_worker (n : Node) : Thread := default start_worker (workers n !! 0%nat).
Definition polling : Node :=
  put_thread quiet 0 (at_phase (first_worker quiet) Polling [] []) (worker_state quiet (first_worker quiet)).
Definition ended : Node :=
  put_thread polling 0 (at_phase (first_worker polling) Stopped [] [])
    (set_worker (worker_state polling (first_worker polling)) {| next_token := next_token (worker (first_worker polling)); conns := ∅ |}).
Definition announced : Node :=
  {| n_registry := n_registry ended; n_stores := n_stores ended; acceptor := broadcast_block (zeros 32) 4 (acceptor ended); workers := workers ended |}.

Lemma ended_run : nsteps (NodeStep socket_ok) 8 (start 0 demo_stores) announced.
Proof.
  apply (nsteps_trans 4 4 _ served _ demo_run).
  eapply nsteps_l; [apply (AcceptorDone socket_ok served 1); reflexivity|].
  eapply nsteps_l; [apply (WorkerPolls socket_ok quiet 0 (first_worker quiet) 1); [reflexivity..|left; split; reflexivity]|].
  eapply nsteps_l; [apply (WorkerFails socket_ok polling 0 (first_worker polling)); reflexivity|].
  eapply nsteps_l; [apply (AcceptorBroadcasts socket_ok ended (zeros 32)); reflexivity|]. apply nsteps_O.
Qed.

Lemma slots_match_sockets_witness :
  (zlength (open_sockets served) <= 194
   /\ exists t, workers served !! 0%nat = Some t /\ settle (list_to_set (thread_ids t)) (pending served 0 t) = registered (n_registry served) 0
      /\ thread_ids t = [0])
  /\ registered (n_registry announced) 0 = {[0]}
  /\ exists n', deliver announced = Some n' /\ registered (n_registry n') 0 = ∅.
Proof.
  split; [|split; [reflexivity|]].
  - destruct (slots_match_sockets 0 demo_stores 4 served demo_run ltac:(by_decide)) as (_ & Hs & Ht & _). split; [exact Hs|].
    eexists. split; [reflexivity|]. split; [apply (Ht 0%nat); reflexivity|reflexivity].
  - destruct (slots_match_sockets 0 demo_stores 8 announced ended_run ltac:(by_decide)) as (_ & _ & _ & Ht).
    destruct (Ht 0%nat (first_worker ended) eq_refl eq_refl) as (_ & _ & Hd).
    destruct (Hd (NewBlock (zeros 32)) [(1, NewBlock (zeros 32)); (2, NewBlock (zeros 32)); (3, NewBlock (zeros 32))] eq_refl) as (n' & E & En & _).
    exists n'. exact (conj E En).
Defined.

Lemma output_is_polled_witness : exists t c, workers served !! 0%nat = Some t /\ conns (worker t) !! 0 = Some c
  /\ wants_write (pc_peer c) = true /\ pc_writable c = true.
Proof.
  do 2 eexists. split; [reflexivity|]. split; [reflexivity|]. split; [reflexivity|].
  refine (proj1 (output_is_polled 0 demo_stores 4 served demo_run ltac:(by_decide) 0%nat _ 0 _ _ _) _); reflexivity.
Defined.

End Demo.

End ServerSafety.
