(* ===== verification/StartupProofs.v ===== *)
(** What the recovery thread of [FlatFileProver::new] leaves ([Startup]): every block of
    the published journal has its header, its height and its proof again, the forest
    has all of them, and the tip is the last one.  It fails only if a store does. *)

From S2P Require Import Prelude Bytes Files Positions JournalEntry Forest SteadyState Accumulator LeafMap Replay Udata JournalFile ProofStore HeaderIndex Persistence PipelineForest PipelineSafety Startup.
Import Udata.Udata Files.Files JournalEntry.JournalEntry Forest.Forest SteadyState.SteadyState Accumulator.Accumulator LeafMap.LeafMap Replay.Replay JournalFile.JournalFile Persistence.Persistence PipelineForest.PipelineForest Startup.Startup.

(** ** Calls on the header index *)

Module HeaderCalls.
Import HeaderIndex.HeaderIndex.

Section Calls.
Context `{HeaderCodec} `{HeightsDb} `{!HeaderLaws} `{!HeightsLaws}.

(** The database never fails. *)
Record reliable : Prop := {
  re_get : forall d k, is_ok (hdb_get d k) = true;
  re_put : forall d k v, (hdb_put d k v).2 = PutDone;
  re_delete : forall d k, (hdb_delete d k).2 = Ok tt
}.

Lemma get_reliable d k : reliable -> hdb_get d k = Ok (hdb_view d !! k).
Proof.
  intros q. destruct (hdb_get d k) as [v|e] eqn:E; [by rewrite (hdb_get_view d k v E)|].
  pose proof (re_get q d k) as Hq. by rewrite E in Hq.
Qed.

Lemma read_height_total x d Hs K block_hash : reliable -> refines x Hs K -> heights x = Some d ->
  read_height (now (headers x)) d block_hash = Ok (lookup_height Hs K block_hash).
Proof.
  intros q [[_ Hsl] (d' & Ed & Ev) Hk] Ed'. assert (d' = d) as -> by congruence. unfold read_height, lookup_height.
  rewrite (get_reliable _ _ q), Ev, lookup_fmap. step_ok.
  destruct (K !! hash_key block_hash) as [h|] eqn:EK; cbn [fmap option_fmap option_map mbind option_bind]; [|done].
  pose proof (Hk _ _ EK) as Hh. cbn beta in Hh.
  assert (zlength (le_bytes 8 h) = 8) as -> by (unfold zlength; by rewrite length_le_bytes). step_ok.
  rewrite le_value_le_bytes by (unfold is_uint in *; lia). rewrite (proj2 (try_uint_Some 32 h h)) by done. step_ok.
  rewrite (Hsl h Hh). step_ok. destruct (Hs h) as [header|]; cbn [mbind option_bind]; [|done]. by case_bool_decide.
Qed.

Lemma get_height_total x Hs K block_hash : reliable -> refines x Hs K ->
  get_height x block_hash = Ok (lookup_height Hs K block_hash).
Proof.
  intros q Hr. pose proof Hr as [_ (d & Ed & _) _]. unfold get_height. rewrite Ed. step_ok. by apply read_height_total.
Qed.

Lemma put_total io height header x Hs K : reliable -> (forall m, io m = true) -> refines x Hs K -> entry_fits (height, header) ->
  exists x', put io height header x = (x', Ok tt).
Proof.
  intros q Hio [Hsl (d & Ed & Ev) Hk] [Hh Hne]. cbn [fst snd] in *. unfold put. rewrite zlength_header, Z.eqb_refl.
  erewrite sr_bind_ok by done. unfold insert_height, put_height, available_heights.
  destruct (hdb_put d (hash_key (header_block_hash header)) (le_bytes 8 height)) as [d1 r] eqn:Ep.
  assert (r = PutDone) as -> by (by rewrite <- (re_put q d (hash_key (header_block_hash header)) (le_bytes 8 height)), Ep).
  erewrite sr_bind_ok.
  2: { unfold mbind, sr_bind, get, lift. cbn -[le_bytes hash_key]. rewrite Ed. cbn -[le_bytes hash_key]. rewrite Ep. reflexivity. }
  destruct (ensure_height io height (with_heights x (Some d1))) as [x2 r2] eqn:E2.
  pose proof (ensure_height_inv _ _ _ _ _ Hh E2) as (_ & _ & Hb).
  destruct r2 as [[]|e2]; [|destruct Hb as [Hb _]; [done|]; by rewrite Hio in Hb].
  erewrite sr_bind_ok by done. erewrite sr_bind_ok by (unfold lift; by rewrite header_offset_ok).
  unfold on_headers, update_file. rewrite Hio. by eexists.
Qed.

Lemma remove_total io height bh x Hs K : reliable -> (forall m, io m = true) -> refines x Hs K -> is_u32 height ->
  exists x', remove io height bh x = (x', Ok tt).
Proof.
  intros q Hio Hr Hh. pose proof Hr as [[Hm Hsl] (d & Ed & Ev) Hk]. unfold remove, available_heights.
  erewrite sr_bind_ok by (erewrite sr_bind_ok by done; unfold lift; by rewrite Ed).
  erewrite sr_bind_ok by done. erewrite sr_bind_ok by (unfold lift; by rewrite (read_height_total x d Hs K bh q Hr Ed)).
  assert (exists x1, (if bool_decide (lookup_height Hs K bh = Some height) then
     let '(d, r) := hdb_delete d (hash_key bh) in modify (fun x => with_heights x (Some d));; lift r else mret tt) x = (x1, Ok tt)) as [x1 E1].
  { case_bool_decide; [|by eexists]. destruct (hdb_delete d (hash_key bh)) as [d1 r] eqn:Ep.
    assert (r = Ok tt) as -> by (by rewrite <- (re_delete q d (hash_key bh)), Ep). by eexists. }
  erewrite sr_bind_ok by exact E1. erewrite sr_bind_ok by (unfold lift; by rewrite (Hsl height Hh)).
  destruct (Hs height) as [header|]; [|by eexists]. clear E1. case_bool_decide; [|by eexists].
  erewrite sr_bind_ok by (unfold lift; by rewrite header_offset_ok).
  unfold on_headers, update_file. rewrite Hio. by eexists.
Qed.
End Calls.
End HeaderCalls.

(** ** Calls on the proof stores *)

Module ProofCalls.
Import Files.Files ProofStore.ProofStore.

Section Calls.
Context `{BitcoinCodec}.

(** [f'] has all of [f], and its writer is at its end. *)
Record grown (f f' : ProofFile) : Prop := {
  gr_length : zlength (now (pf_file f)) <= zlength (now (pf_file f'));
  gr_bytes : agree (now (pf_file f)) (now (pf_file f')) 0 (zlength (now (pf_file f)));
  gr_writer : writer_pos f' = zlength (now (pf_file f'))
}.

Lemma grown_refl f : writer_pos f = zlength (now (pf_file f)) -> grown f f.
Proof. by split. Qed.

Lemma grown_trans f g h : grown f g -> grown g h -> grown f h.
Proof.
  intros [L1 B1 W1] [L2 B2 W2]. split; [lia| |done]. eapply agree_trans; [done|]. eapply agree_sub; [done|lia|lia].
Qed.

Lemma get_grown f g i p : grown f g -> index_ok i -> get_proof f i = Some p -> get_proof g i = Some p.
Proof.
  intros [L B _] Hi E. rewrite <- E. destruct (Z.le_gt_cases (offset i + size i) (zlength (now (pf_file f)))) as [Hle|Hgt].
  - by apply (get_prefix f g (zlength (now (pf_file f)))).
  - by rewrite get_beyond in E by lia.
Qed.

Lemma contains_grown f g i : zlength (now (pf_file f)) <= zlength (now (pf_file g)) -> contains f i = true -> contains g i = true.
Proof.
  intros L. unfold contains. rewrite !andb_true_iff. intros [-> E]. split; [done|]. destruct (checked_add 64 _ _); [|done].
  rewrite Z.leb_le in *. lia.
Qed.

Lemma get_contains f i p : get_proof f i = Some p -> contains f i = true.
Proof. unfold get_proof. by destruct (contains f i). Qed.

Definition index_end (i : BlockIndex) : Z := offset i + size i.

Lemma append_ends io p f : proof_ok p -> zlength (encode_proof p) <= MAX_COMPACT_PROOF_BYTES -> writer_pos f = zlength (now (pf_file f)) ->
  zlength (now (pf_file f)) + MAX_COMPACT_PROOF_BYTES < 2 ^ 64 ->
  match append io p f with
  | (f', Ok i) => grown f f' /\ zlength (now (pf_file f')) <= zlength (now (pf_file f)) + MAX_COMPACT_PROOF_BYTES /\ index_ok i /\ get_proof f' i = Some p /\ index_end i = zlength (now (pf_file f'))
  | (_, Err _) => exists n, io n = false
  end.
Proof.
  intros Hp Hmax Hw Hu. pose proof (zlength_nonneg (now (pf_file f))) as Hf. pose proof (zlength_nonneg (encode_proof p)) as Hl.
  unfold append.
  assert (serialized p = Ok (encode_proof p)) as ->.
  { unfold serialized. rewrite (proj2 (Z.ltb_ge _ _)) by done. step_ok.
    rewrite (proj2 (try_uint_Some 64 _ _)) by (split; [done|unfold is_uint; lia]). done. }
  erewrite sr_bind_ok by done.
  assert (reserve (zlength (encode_proof p)) f = (with_writer f (writer_pos f + zlength (encode_proof p)), Ok (writer_pos f))) as E.
  { unfold reserve. erewrite sr_bind_ok by done.
    assert (checked_add 64 (writer_pos f) (zlength (encode_proof p)) = Some (writer_pos f + zlength (encode_proof p))) as ->; [|done].
    apply checked_add_Some. split; [done|]. unfold is_uint. lia. }
  erewrite sr_bind_ok by exact E. clear E. rewrite Hw. unfold fill, on_proofs, update_file.
  destruct (io 0%nat) eqn:Eio; [|rewrite (sr_bind_err _ _ _ _ io_failed) by done; by exists 0%nat].
  erewrite sr_bind_ok by done.
  erewrite sr_bind_ok by (unfold lift; by rewrite (proj2 (try_uint_Some 64 _ _)) by (split; [done|unfold is_uint; lia])).
  cbn [mret sr_ret pf_file now vupdate with_writer].
  set (f' := {| pf_file := _; writer_pos := _ |}).
  assert (zlength (now (pf_file f')) = zlength (now (pf_file f)) + zlength (encode_proof p)) as Hlen.
  { cbn. rewrite zlength_write by (done || by apply encode_proof_nonempty). lia. }
  assert (agree (now (pf_file f)) (now (pf_file f')) 0 (zlength (now (pf_file f)))) as Hag by (cbn; apply write_agree; [lia..|left; lia]).
  change (grown f f' /\ zlength (now (pf_file f')) <= zlength (now (pf_file f)) + MAX_COMPACT_PROOF_BYTES /\
    index_ok {| offset := writer_pos f; size := zlength (encode_proof p); proof_forest_rows := None |} /\
    get_proof f' {| offset := writer_pos f; size := zlength (encode_proof p); proof_forest_rows := None |} = Some p /\
    index_end {| offset := writer_pos f; size := zlength (encode_proof p); proof_forest_rows := None |} = zlength (now (pf_file f'))).
  rewrite Hw. split_and!.
  - split; [lia|done|by rewrite Hlen].
  - lia.
  - split_and!; cbn [offset size proof_forest_rows]; [unfold is_uint; lia|unfold is_uint; lia|done].
  - apply (get_in_file f' ({| offset := zlength (now (pf_file f)); size := zlength (encode_proof p); proof_forest_rows := None |}, p));
      cbn [fst snd offset size]; [|lia|lia].
    unfold in_file. cbn [fst snd offset size]. split_and!; try done. cbn. by apply stored_write.
  - unfold index_end. cbn [offset size]. lia.
Qed.

(** Cutting the file after [i]. *)
Lemma truncate_ends io i f : index_ok i -> contains f i = true -> writer_pos f = zlength (now (pf_file f)) ->
  match truncate_after io (Some i) f with
  | (f', Ok _) => zlength (now (pf_file f')) = index_end i /\ writer_pos f' = index_end i /\ forall k, index_ok k -> index_end k <= index_end i -> get_proof f' k = get_proof f k /\ contains f' k = contains f k
  | (_, Err _) => exists n, io n = false
  end.
Proof.
  intros Hi Hc Hw. pose proof (contains_bound _ _ Hc) as Hb. destruct Hi as ([Ho _] & [Hs _] & _).
  unfold contains in Hc. apply andb_true_iff in Hc as [_ Hc]. destruct (checked_add 64 (offset i) (size i)) as [e|] eqn:Ee; [|done].
  pose proof Ee as [-> Hu]%checked_add_Some. unfold truncate_after. rewrite Ee. erewrite sr_bind_ok by done. erewrite sr_bind_ok by done.
  erewrite sr_bind_ok by (unfold lift; by rewrite (proj2 (Z.ltb_ge _ _)) by done).
  unfold on_proofs at 1, set_file_len. destruct (io 0%nat) eqn:E0.
  2: { erewrite sr_bind_err by done. by exists 0%nat. }
  erewrite sr_bind_ok by done. erewrite sr_bind_ok by done. unfold on_proofs, sync_file. destruct (io 1%nat) eqn:E1; [|by exists 1%nat].
  cbn [pf_file now vsync synced vupdate writer_pos with_writer]. fold (index_end i) in *.
  set (f' := {| pf_file := synced (set_len (now (pf_file f)) (index_end i)); writer_pos := index_end i |}).
  assert (zlength (now (pf_file f')) = index_end i) as Hl by (apply zlength_set_len; unfold index_end; lia).
  split_and!; [exact Hl|done|]. intros k Hk Hle. pose proof (zlength_nonneg (now (pf_file f))). unfold index_end in *. split.
  - apply (get_prefix f f' (offset i + size i)); [done|done|lia| |done]. cbn. apply set_len_agree; lia.
  - change (contains f' k = contains f k). unfold contains. f_equal. destruct (checked_add 64 (offset k) (size k)) as [ek|] eqn:Ek; [|done].
    apply checked_add_Some in Ek as [-> _]. rewrite Hl. by rewrite !(proj2 (Z.leb_le _ _)) by lia.
Qed.
End Calls.

(** The index database never fails. *)
Record reliable_kv `{KvStore} : Prop := {
  rk_get : forall b k, is_ok (kv_get b k) = true;
  rk_set : forall b k v, (kv_set b k v).2 = Ok tt;
  rk_remove : forall b k, (kv_remove b k).2 = Ok tt;
  rk_flush : forall b, kv_flush b = Ok tt
}.

Section IndexCalls.
Context `{KvLaws}.

Lemma flush_reliable (m : SR Bucket unit) b : reliable_kv -> (m b).2 = Ok tt -> (m;; flush_bucket) b = ((m b).1, Ok tt).
Proof.
  intros q E. destruct (m b) as [b' r] eqn:Em. cbn in E. subst r. rewrite (sr_bind_ok m _ b b' tt Em). cbn. unfold flush_bucket. by rewrite (rk_flush q).
Qed.

Lemma set_all_reliable indexes bucket : reliable_kv -> Forall (fun ib => forall rows, proof_forest_rows ib.1 = Some rows -> rows <= 63) indexes ->
  (set_all indexes bucket).2 = Ok tt.
Proof.
  intros q Hok. revert bucket. induction Hok as [|[i k] indexes Hi Hok IH]; intros bucket; [done|]. cbn [set_all].
  assert (exists raw, to_raw_value i = Ok raw) as [raw E].
  { unfold to_raw_value. destruct (proof_forest_rows i) as [rows|] eqn:Er; [|by eexists]. cbn in Hi. rewrite (proj2 (Z.ltb_ge _ _)) by auto. by eexists. }
  rewrite E. erewrite sr_bind_ok by done. destruct (kv_set bucket k raw) as [b1 r1] eqn:E1.
  pose proof (rk_set q bucket k raw) as Hr. rewrite E1 in Hr. cbn in Hr. subst r1. erewrite sr_bind_ok by exact E1. apply IH.
Qed.

(** A batch, a removal and a new height. *)
Lemma batch_ends indexes b m h : represents b m h -> Forall (fun ib => index_ok ib.1) indexes ->
  Forall (fun ib => forall rows, proof_forest_rows ib.1 = Some rows -> rows <= 63) indexes ->
  match append_batch indexes b with
  | (b', Ok _) => represents b' (write_all m (prod_swap <$> indexes)) h
  | (_, Err _) => ~ reliable_kv
  end.
Proof.
  intros [Hm Hh] Hok Hrows. destruct (append_batch indexes b) as [b' [[]|e]] eqn:E.
  - apply on_index_inv in E as [E Emeta]. destruct b' as [ib mb], b as [ib0 mb0]. cbn [index_bucket meta_bucket] in *. subst mb.
    split; [|done]. by eapply set_all_get.
  - intros q. unfold append_batch, on_index in E. rewrite (flush_reliable _ _ q) in E by (by apply set_all_reliable). done.
Qed.

Lemma remove_ends block b m h : represents b m h ->
  match remove block b with
  | (b', Ok _) => represents b' (delete block m) h
  | (_, Err _) => ~ reliable_kv
  end.
Proof.
  intros [Hm Hh]. destruct (remove block b) as [b' [[]|e]] eqn:E.
  - apply on_index_inv in E as [E Emeta]. destruct b' as [ib mb], b as [ib0 mb0]. cbn [index_bucket meta_bucket] in *. subst mb.
    split; [|done]. intros block'. unfold get_index. cbn [index_bucket]. rewrite (kv_get_remove _ _ _ block' E).
    destruct (decide (block' = block)) as [->|Hne]; [by rewrite lookup_delete_eq|].
    rewrite lookup_delete_ne by done. apply (Hm block').
  - intros q. unfold remove, on_index in E. rewrite (flush_reliable _ _ q) in E by (apply rk_remove, q). done.
Qed.

Lemma height_ends height b m h : represents b m h -> is_u64 height ->
  match update_height height b with
  | (b', Ok _) => represents b' m height
  | (_, Err _) => ~ reliable_kv
  end.
Proof.
  intros [Hm Hh] Hu. destruct (update_height height b) as [b' [[]|e]] eqn:E.
  - unfold update_height, on_meta in E. destruct ((_;; flush_bucket) (meta_bucket b)) as [bk r] eqn:E1. injection E as <- ->.
    split; [done|]. apply sr_bind_inv in E1 as (b1 & r1 & E1 & E). destruct r1 as [[]|]; [|by destruct E]. injection E as <- _.
    unfold load_height. cbn [meta_bucket]. rewrite (kv_get_set _ _ _ _ height_key E1), decide_True by done.
    rewrite ok_bind, zlength_be. step_ok. by rewrite be_value_be_bytes.
  - intros q. unfold update_height, on_meta in E. rewrite (flush_reliable _ _ q) in E by (apply rk_set, q). done.
Qed.
End IndexCalls.
End ProofCalls.

Module StartupProofs.

Section Startup.
Context `{NodeHashing} `{!EqDecision BitcoinNodeHash} `{Sha256} `{LeafMapDb} `{!LeafMapLaws} `{BitcoinCodec} `{HeaderCodec} `{KvStore} `{HeightsDb}.
Context `{!HeaderIndex.HeaderLaws} `{!KvLaws} `{!HeightsLaws}.
Context `{!EqDecision Header} `{!EqDecision Udata.Udata.CompactBlockProof}.
Context (env : StartEnv).

(** ** Calls that fail only if a store does *)

(** No store fails: every call on a file, on the proof index and on the header database succeeds. *)
Record quiet : Prop := {
  qu_repair : forall n m, repair_io env n m = true;
  qu_proof_sync : forall m, proof_sync_io env m = true;
  qu_header_sync : forall m, header_sync_io env m = true;
  qu_replay : forall m, replay_sync_io env m = true;
  qu_restore : forall n m, restore_io env n m = true;
  qu_restored : forall m, restored_sync_io env m = true;
  qu_truncate : forall m, truncate_io env m = true;
  qu_proofs : ProofCalls.reliable_kv;
  qu_heights : HeaderCalls.reliable
}.

(** The result is as [Q] says, or a store failed. *)
Definition ends {A} (Q : A -> PersistenceState -> Prop) (sr : PersistenceState * result A) : Prop :=
  match sr.2 with Ok a => Q a sr.1 | Err _ => ~ quiet end.
Definition spec {A} (P : PersistenceState -> Prop) (m : SR PersistenceState A) (Q : A -> PersistenceState -> Prop) : Prop :=
  forall s, P s -> ends Q (m s).

Lemma spec_bind {A B} P (m : SR PersistenceState A) (f : A -> SR PersistenceState B) R Q :
  spec P m R -> (forall a, spec (R a) (f a) Q) -> spec P (m ≫= f) Q.
Proof.
  intros Hm Hf s HP. specialize (Hm s HP). unfold ends in *. destruct (m s) as [s1 [a|e]] eqn:E; cbn [fst snd] in *.
  - rewrite (sr_bind_ok m f s s1 a E). by apply Hf.
  - by rewrite (sr_bind_err m f s s1 e E).
Qed.

Lemma spec_ret {A} P (a : A) (Q : A -> PersistenceState -> Prop) : (forall s, P s -> Q a s) -> spec P (mret a) Q.
Proof. intros HQ s HP. by apply HQ. Qed.

Lemma spec_get {B} P (f : PersistenceState -> SR PersistenceState B) Q :
  (forall s0, spec (fun s => s = s0 /\ P s) (f s0) Q) -> spec P (s ← get; f s) Q.
Proof. intros Hf s HP. by apply (Hf s). Qed.

Lemma spec_lift {A B} P (r : result A) (f : A -> SR PersistenceState B) Q :
  (forall s, P s -> match r with Ok a => True | Err _ => ~ quiet end) ->
  (forall a, r = Ok a -> spec P (f a) Q) -> spec P (a ← lift r; f a) Q.
Proof.
  intros Hr Hf. eapply (spec_bind P _ _ (fun a s => r = Ok a /\ P s)).
  - intros s HP. specialize (Hr s HP). unfold ends, lift. cbn. by destruct r.
  - intros a s [E HP]. by apply (Hf a E).
Qed.

Lemma spec_weaken {A} P P' (m : SR PersistenceState A) Q Q' : (forall s, P s -> P' s) -> spec P' m Q' ->
  (forall a s, Q' a s -> Q a s) -> spec P m Q.
Proof. intros HP Hm HQ s Hs. specialize (Hm s (HP s Hs)). unfold ends in *. destruct (m s).2; [by apply HQ|done]. Qed.

Lemma spec_pre {A} P P' (m : SR PersistenceState A) Q : (forall s, P s -> P' s) -> spec P' m Q -> spec P m Q.
Proof. intros HP Hm s Hs. by apply Hm, HP. Qed.

Lemma spec_if {A} (b : bool) P (m1 m2 : SR PersistenceState A) Q :
  (b = true -> spec P m1 Q) -> (b = false -> spec P m2 Q) -> spec P (if b then m1 else m2) Q.
Proof. destruct b; auto. Qed.

Lemma quiet_err {A} (r : result A) : (quiet -> is_ok r = true) -> match r with Ok _ => True | Err _ => ~ quiet end.
Proof. destruct r; [done|]. intros Hq q. by specialize (Hq q). Qed.

Lemma spec_ex {A X} (P : X -> PersistenceState -> Prop) (m : SR PersistenceState A) Q :
  (forall x, spec (P x) m Q) -> spec (fun s => exists x, P x s) m Q.
Proof. intros Hm s [x HP]. by apply (Hm x). Qed.

Lemma spec_pure {A} (X : Prop) P (m : SR PersistenceState A) Q : (X -> spec P m Q) -> spec (fun s => X /\ P s) m Q.
Proof. intros Hm s [HX HP]. by apply Hm. Qed.

(** ** The blocks of the journal *)

Abbreviation put_header := HeaderIndex.HeaderIndex.put.
Abbreviation remove_header := HeaderIndex.HeaderIndex.remove.
Abbreviation get_height := HeaderIndex.HeaderIndex.get_height.
Abbreviation get_by_height := HeaderIndex.HeaderIndex.get_by_height.
Abbreviation refines_headers := HeaderIndex.HeaderIndex.refines.
Abbreviation key_of := HeaderIndex.HeaderIndex.hash_key.
Abbreviation proof_at := ProofStore.ProofStore.get_proof.
Abbreviation Entry := ProofStore.ProofStore.BlockIndex.
Abbreviation Proofs := ProofStore.ProofStore.ProofFile.
Abbreviation size_of f := (zlength (now (ProofStore.ProofStore.pf_file f))).
Abbreviation index_end := ProofCalls.index_end.

Definition Block : Type := JournalEntryData * JournalReplayPayload.

Definition published_block (r : JournalRecord) : option Block :=
  match jr_status r, jr_replay r with Forward, Some replay => Some (jr_entry r, replay) | _, _ => None end.
Definition blocks_of (records : list JournalRecord) : list Block := omap published_block records.

Lemma blocks_of_cons r records : blocks_of (r :: records) = match published_block r with Some b => b :: blocks_of records | None => blocks_of records end.
Proof. cbn. by destruct (published_block r). Qed.

Record block_ok (b : Block) : Prop := {
  bo_hash : header_block_hash (rp_header b.2) = block_hash b.1;
  bo_header : HeaderIndex.HeaderIndex.entry_fits (height b.1, rp_header b.2);
  bo_proof : proof_ok (rp_proof b.2);
  bo_size : zlength (encode_proof (rp_proof b.2)) <= MAX_COMPACT_PROOF_BYTES;
  bo_rows : 0 <= JournalFile.JournalFile.proof_forest_rows b.2 <= 63
}.

(** No two blocks of one height, nor of one key. *)
Definition distinct (bs : list Block) : Prop :=
  NoDup ((fun b => height b.1) <$> bs) /\ NoDup ((fun b => key_of (block_hash b.1)) <$> bs).

(** A block whose header and height are indexed, and one whose proof is. *)
Definition headed (Hs : Z -> option Header) (K : gmap bytes Z) (b : Block) : Prop :=
  Hs (height b.1) = Some (rp_header b.2) /\ K !! key_of (block_hash b.1) = Some (height b.1).
Definition is_proof_of (f : Proofs) (b : Block) (i : Entry) : Prop :=
  ProofStore.ProofStore.proof_forest_rows i = Some (JournalFile.JournalFile.proof_forest_rows b.2) /\
  proof_at f i = Some (rp_proof b.2).
Definition proven (m : gmap bytes Entry) (f : Proofs) (b : Block) : Prop :=
  exists i, m !! block_hash b.1 = Some i /\ is_proof_of f b i.

Lemma distinct_middle done b todo : distinct (done ++ b :: todo) -> forall b', b' ∈ done ->
  height b'.1 <> height b.1 /\ key_of (block_hash b'.1) <> key_of (block_hash b.1).
Proof.
  intros [Hh Hk] b' Hb. rewrite fmap_app in Hh. rewrite fmap_app in Hk. apply NoDup_app in Hh as (_ & Hh & _), Hk as (_ & Hk & _). split.
  - intros E. apply (Hh (height b'.1)); [apply list_elem_of_fmap; by exists b'|]. rewrite E. by left.
  - intros E. apply (Hk (key_of (block_hash b'.1))); [apply list_elem_of_fmap; by exists b'|]. rewrite E. by left.
Qed.

(** ** The stores while they are repaired *)

Context (Hs0 : Z -> option Header) (K0 : gmap bytes Z) (m0 : gmap bytes Entry) (h0 : Z).

(** The header index has the blocks [done] and is as before elsewhere. *)
Definition headers_have (done : list Block) (x : HeaderIndex.HeaderIndex.HeaderIndex) : Prop :=
  exists Hs K, refines_headers x Hs K /\ (forall b, b ∈ done -> headed Hs K b) /\
    forall h, (forall b, b ∈ done -> height b.1 <> h) -> Hs h = Hs0 h.

(** What the repairs leave alone. *)
Definition frame (s : PersistenceState) := (ps_journal s, ps_forest s, proof_index s, bootstrap_height s, ps_unflushed s).

Definition repairing (s0 : PersistenceState) (done : list Block) (f : Proofs) (s : PersistenceState) : Prop :=
  headers_have done (header_index s) /\ proof_file s = f /\ frame s = frame s0.

Lemma header_step done b todo x n : headers_have done x -> distinct (done ++ b :: todo) -> block_ok b ->
  match header_is_indexed x b.1 (rp_header b.2) with
  | Ok true => headers_have (done ++ [b]) x
  | Ok false => match put_header (repair_io env n) (height b.1) (rp_header b.2) x with
                | (x', Ok _) => headers_have (done ++ [b]) x'
                | (_, Err _) => ~ quiet
                end
  | Err _ => ~ quiet
  end.
Proof.
  intros (Hs & K & Hr & Hd & Ho) Hdist Hb. pose proof (bo_header b Hb) as [Hh Hne]. cbn [fst snd] in Hh, Hne.
  pose proof (HeaderIndex.HeaderIndex.refines_answers _ _ _ Hr) as [Hget Hheight]. unfold header_is_indexed. rewrite (Hget _ Hh). step_ok.
  assert (forall Hs' K', Hs' (height b.1) = Some (rp_header b.2) -> K' !! key_of (block_hash b.1) = Some (height b.1) ->
    (forall h, h <> height b.1 -> Hs' h = Hs h) -> (forall k, k <> key_of (block_hash b.1) -> K' !! k = K !! k) ->
    (forall b', b' ∈ done ++ [b] -> headed Hs' K' b') /\
    forall h, (forall b', b' ∈ done ++ [b] -> height b'.1 <> h) -> Hs' h = Hs0 h) as Hadd.
  { intros Hs' K' E1 E2 Eh Ek. split.
    - intros b' [Hin|Hin]%elem_of_app; [|by apply list_elem_of_singleton in Hin as ->]. destruct (distinct_middle _ _ _ Hdist b' Hin) as [Hn1 Hn2].
      destruct (Hd b' Hin) as [Hd1 Hd2]. split; [by rewrite Eh|by rewrite Ek].
    - intros h Hno. rewrite Eh; [apply Ho; intros b' Hin; apply Hno, elem_of_app; by left|].
      intros ->. apply (Hno b); [apply elem_of_app; right; by left|done]. }
  assert (match put_header (repair_io env n) (height b.1) (rp_header b.2) x with
          | (x', Ok _) => headers_have (done ++ [b]) x' | (_, Err _) => ~ quiet end) as Hput.
  { destruct (put_header _ _ _ x) as [x' [[]|e]] eqn:E.
    - apply (HeaderIndex.HeaderIndex.put_refines _ _ _ _ _ Hs K Hr (bo_header b Hb)) in E. rewrite (bo_hash b Hb) in E. do 2 eexists. split; [exact E|].
      apply Hadd; unfold HeaderIndex.HeaderIndex.at_height.
      + by rewrite Z.eqb_refl.
      + by rewrite lookup_insert_eq.
      + intros h Hn. by rewrite (proj2 (Z.eqb_neq _ _)).
      + intros k Hn. by rewrite lookup_insert_ne.
    - intros q. destruct (HeaderCalls.put_total (repair_io env n) (height b.1) (rp_header b.2) x Hs K (qu_heights q) (qu_repair q n) Hr (bo_header b Hb)) as [x2 E2].
      congruence. }
  case_bool_decide as Eb; [|done].
  destruct (get_height x (block_hash b.1)) as [found|e] eqn:Ef; [rewrite ok_bind|].
  - apply Hheight in Ef. case_bool_decide as Ef2; [|done]. exists Hs, K. split; [done|]. apply Hadd; [congruence| |done|done].
    rewrite Ef in Ef2. unfold HeaderIndex.HeaderIndex.lookup_height in Ef2. apply bind_Some in Ef2 as (h & EK & E).
    apply bind_Some in E as (hd & _ & E). case_bool_decide; [|done]. congruence.
  - intros q. pose proof (HeaderCalls.get_height_total x Hs K (block_hash b.1) (qu_heights q) Hr). congruence.
Qed.

(** What the loop returns for [bs], when it took the proof file from [f] to [f']: the proofs before the first bad one stay
    where they are, the others are at the end of the file. *)
Definition repaired_ok (tail : bool) (f f' : Proofs) (bs : list Block) (repaired : list (Entry * bytes)) : Prop :=
  ProofCalls.grown f f' /\ (repaired = [] -> f' = f) /\
  exists kept redone, bs = kept ++ redone /\ (tail = true -> kept = []) /\ Forall (proven m0 f) kept /\
    Forall2 (fun b ib => ib.2 = block_hash b.1 /\ ProofStore.ProofStore.index_ok ib.1 /\ is_proof_of f' b ib.1) redone repaired /\
    forall ib, last repaired = Some ib -> index_end ib.1 = size_of f'.

Lemma proof_is_stored_proven f b : proof_is_stored f (m0 !! block_hash b.1) b.2 = true -> proven m0 f b.
Proof.
  intros E. unfold proof_is_stored in E. destruct (m0 !! block_hash b.1) as [i|] eqn:Ei; [|done].
  apply andb_true_iff in E as [E1%bool_decide_eq_true E2%bool_decide_eq_true]. exists i. by repeat split.
Qed.

Lemma spec_on_header {A} P (m : SR HeaderIndex.HeaderIndex.HeaderIndex A) Q :
  (forall s, P s -> match m (header_index s) with (x, Ok a) => Q a (with_header_index s x) | (_, Err _) => ~ quiet end) ->
  spec P (on_header_index m) Q.
Proof. intros Hm s HP. specialize (Hm s HP). unfold ends, on_header_index. destruct (m (header_index s)) as [x [a|e]]; exact Hm. Qed.

Lemma spec_on_proof_file {A} P (m : SR Proofs A) Q :
  (forall s, P s -> match m (proof_file s) with (f, Ok a) => Q a (with_proof_file s f) | (_, Err _) => ~ quiet end) ->
  spec P (on_proof_file m) Q.
Proof. intros Hm s HP. specialize (Hm s HP). unfold ends, on_proof_file. destruct (m (proof_file s)) as [x [a|e]]; exact Hm. Qed.

Lemma spec_on_proof_index {A} P (m : SR ProofStore.ProofStore.BlocksIndex A) Q :
  (forall s, P s -> match m (proof_index s) with (x, Ok a) => Q a (with_proof_index s x) | (_, Err _) => ~ quiet end) ->
  spec P (on_proof_index m) Q.
Proof. intros Hm s HP. specialize (Hm s HP). unfold ends, on_proof_index. destruct (m (proof_index s)) as [x [a|e]]; exact Hm. Qed.

Lemma repair_skip n tail r todo : published_block r = None ->
  repair_records env n tail (r :: todo) = repair_records env (S n) tail todo.
Proof. unfold published_block. cbn [repair_records]. by destruct (jr_status r), (jr_replay r). Qed.

Lemma repair_block n tail r b todo : published_block r = Some b -> repair_records env n tail (r :: todo) =
  (s ← get;
   indexed ← lift (header_is_indexed (header_index s) b.1 (rp_header b.2));
   (if indexed : bool then mret tt else on_header_index (put_header (repair_io env (2 * n)) (height b.1) (rp_header b.2)));;
   s ← get;
   index ← lift (ProofStore.ProofStore.get_index (proof_index s) (block_hash b.1));
   if tail || negb (proof_is_stored (proof_file s) index b.2) then
     index ← on_proof_file (ProofStore.ProofStore.append (repair_io env (2 * n + 1)) (rp_proof b.2));
     repaired ← repair_records env (S n) true todo;
     mret ((with_rows index (JournalFile.JournalFile.proof_forest_rows b.2), block_hash b.1) :: repaired)
   else repair_records env (S n) tail todo).
Proof. unfold published_block. cbn [repair_records]. destruct (jr_status r), (jr_replay r); try done. by intros [= <-]. Qed.

Lemma repair_spec s0 todo : ProofStore.ProofStore.represents (proof_index s0) m0 h0 -> forall done n tail f,
  Forall block_ok (blocks_of todo) -> distinct (done ++ blocks_of todo) -> ProofStore.ProofStore.writer_pos f = size_of f ->
  size_of f + zlength (blocks_of todo) * MAX_COMPACT_PROOF_BYTES < 2 ^ 64 ->
  spec (repairing s0 done f) (repair_records env n tail todo)
    (fun repaired s => exists f', repairing s0 (done ++ blocks_of todo) f' s /\ repaired_ok tail f f' (blocks_of todo) repaired).
Proof.
  intros Hidx. induction todo as [|r todo IH]; intros done n tail f Hok Hdist Hw Hu.
  { apply spec_ret. intros s Hs. exists f. cbn. rewrite app_nil_r. split; [done|]. split; [by apply ProofCalls.grown_refl|].
    split; [done|]. by exists [], []. }
  rewrite blocks_of_cons in *. destruct (published_block r) as [b|] eqn:Eb.
  2: { rewrite repair_skip by done. by apply IH. }
  rewrite (repair_block _ _ _ b) by done.
  apply Forall_cons in Hok as [Hb Hok]. rewrite zlength_cons in Hu.
  assert (0 <= zlength (blocks_of todo)) as Hn0 by apply zlength_nonneg. assert (0 < MAX_COMPACT_PROOF_BYTES) as Hmax by done.
  assert (done ++ b :: blocks_of todo = (done ++ [b]) ++ blocks_of todo) as Eapp by (by rewrite <- app_assoc).
  apply spec_get. intros s1. apply spec_lift.
  { intros s [-> (Hh & _)]. pose proof (header_step done b _ _ (2 * n) Hh Hdist Hb) as Hs. by destruct (header_is_indexed _ _ _). }
  intros indexed Ei. apply (spec_bind _ _ _ (fun _ => repairing s0 (done ++ [b]) f)).
  { destruct indexed.
    - apply spec_ret. intros s [-> (Hh & Hf & Hr)]. pose proof (header_step done b _ _ (2 * n) Hh Hdist Hb) as Hs. rewrite Ei in Hs. done.
    - apply spec_on_header. intros s [-> (Hh & Hf & Hr)]. pose proof (header_step done b _ _ (2 * n) Hh Hdist Hb) as Hs. rewrite Ei in Hs.
      by destruct (put_header _ _ _ _) as [x [[]|e]]. }
  intros []. rewrite Eapp in *. apply spec_get. intros s2. apply spec_lift.
  { intros s [-> (_ & _ & [= _ _ Ex _])]. rewrite Ex. by rewrite (ProofStore.ProofStore.re_index _ _ _ Hidx). }
  intros index Ex. apply (spec_pre _ (fun s => index = m0 !! block_hash b.1 /\ proof_file s2 = f /\ repairing s0 (done ++ [b]) f s)).
  { intros s [-> Hr]. pose proof Hr as (_ & Hf & [= _ _ E _]). split_and!; [|done|done]. rewrite E, (ProofStore.ProofStore.re_index _ _ _ Hidx) in Ex. congruence. }
  apply spec_pure. intros ->. apply spec_pure. intros ->. apply spec_if; intros Ev.
  - apply (spec_bind _ _ _ (fun i s => exists f1, (ProofCalls.grown f f1 /\ size_of f1 <= size_of f + MAX_COMPACT_PROOF_BYTES /\
      ProofStore.ProofStore.index_ok i /\ proof_at f1 i = Some (rp_proof b.2) /\ index_end i = size_of f1) /\ repairing s0 (done ++ [b]) f1 s)).
    { apply spec_on_proof_file. intros s (Hh & Hf & Hr). rewrite Hf.
      pose proof (ProofCalls.append_ends (repair_io env (2 * n + 1)) (rp_proof b.2) f (bo_proof b Hb) (bo_size b Hb) Hw ltac:(nia)) as Ha.
      destruct (ProofStore.ProofStore.append _ _ _) as [f1 [i|e]]; [by exists f1|].
      intros q. destruct Ha as [k Hk]. by rewrite (qu_repair q) in Hk. }
    intros i. apply spec_ex. intros f1. apply spec_pure. intros (Hg & Hsz & Hi & Hget & Hend).
    eapply spec_bind; [apply (IH (done ++ [b]) (S n) true f1 Hok Hdist (ProofCalls.gr_writer _ _ Hg)); nia|].
    intros repaired. apply spec_ret. intros s (f2 & Hr & Hg2 & Hnil & kept & redone & Eb2 & Hk & _ & Hall & Hlast).
    rewrite (Hk eq_refl) in Eb2. cbn in Eb2. subst redone. exists f2. split; [done|]. split; [by eapply ProofCalls.grown_trans|].
    split; [done|]. exists [], (b :: blocks_of todo). split_and!; [done|done|constructor| |].
    + constructor; [|done]. cbn [fst snd]. split_and!; [done| |].
      * destruct Hi as (Hi1 & Hi2 & _). split_and!; [done|done|]. intros rows [= <-]. pose proof (bo_rows b Hb). unfold is_uint. lia.
      * split; [done|]. exact (ProofCalls.get_grown f1 f2 i _ Hg2 Hi Hget).
    + intros ib. destruct repaired as [|ib2 repaired]; [|rewrite last_cons_cons; apply Hlast].
      intros [= <-]. cbn. rewrite (Hnil eq_refl). exact Hend.
  - apply orb_false_iff in Ev as [-> Ev%negb_false_iff]. apply proof_is_stored_proven in Ev.
    eapply (spec_weaken _ (repairing s0 (done ++ [b]) f)); [done|apply (IH (done ++ [b]) (S n) false f Hok Hdist Hw); nia|].
    intros repaired s (f2 & Hr & Hg2 & Hnil & kept & redone & Eb2 & _ & Hkept & Hall & Hlast).
    exists f2. split; [done|]. split; [done|]. split; [done|]. exists (b :: kept), redone. split_and!; [by rewrite Eb2|done|by constructor|done|done].
Qed.

(** ** After the repairs *)

(** Every forward record has what replaying it needs. *)
Definition replayable (records : list JournalRecord) : Prop :=
  Forall (fun r => jr_status r = Forward -> is_Some (jr_replay r)) records.

Lemma latest_from k records : replayable records ->
  match last (filter (fun ir => jr_status ir.2 = Forward) (zip (seq k (length records)) records)) with
  | Some (_, r) => exists b, published_block r = Some b /\ last (blocks_of records) = Some b
  | None => blocks_of records = []
  end.
Proof.
  intros Hr. revert k. induction Hr as [|r records Hr0 Hr IH]; intros k; [done|].
  cbn [length seq]. change (zip (k :: seq (S k) (length records)) (r :: records)) with ((k, r) :: zip (seq (S k) (length records)) records).
  rewrite filter_cons, blocks_of_cons. specialize (IH (S k)). cbn [snd].
  destruct (decide (jr_status r = Forward)) as [Es|Es].
  - destruct (Hr0 Es) as [p Ep]. assert (published_block r = Some (jr_entry r, p)) as -> by (unfold published_block; by rewrite Es, Ep).
    rewrite last_cons. destruct (last (filter _ _)) as [[i r']|].
    + destruct IH as (b & Eb & El). exists b. split; [done|]. by rewrite last_cons, El.
    + exists (jr_entry r, p). unfold published_block. by rewrite Es, Ep, IH.
  - assert (published_block r = None) as -> by (unfold published_block; by destruct (jr_status r)). exact IH.
Qed.

Lemma latest_block j : replayable (published_records j) ->
  match latest_forward j with
  | Some (_, r) => exists b, published_block r = Some b /\ last (blocks_of (published_records j)) = Some b
  | None => blocks_of (published_records j) = []
  end.
Proof. apply latest_from. Qed.

Lemma retained_blocks records : replayable records ->
  (fun record => (height (jr_entry record), block_hash (jr_entry record))) <$> forward_records records =
  (fun b : Block => (height b.1, block_hash b.1)) <$> blocks_of records.
Proof.
  intros Hr. induction Hr as [|r records Hr0 Hr IH]; [done|]. unfold forward_records in *. rewrite filter_cons, blocks_of_cons.
  unfold published_block. destruct (jr_status r) eqn:Es; [rewrite decide_True by done|by rewrite decide_False].
  destruct (Hr0 eq_refl) as [p ->]. rewrite !fmap_cons. by rewrite IH.
Qed.

Lemma retained_lookup records h : replayable records -> distinct (blocks_of records) ->
  (forall b, b ∈ blocks_of records -> height b.1 = h -> retained_hashes records !! h = Some (block_hash b.1)) /\
  ((forall b, b ∈ blocks_of records -> height b.1 <> h) -> retained_hashes records !! h = None).
Proof.
  intros Hr [Hd _]. unfold retained_hashes. rewrite (retained_blocks _ Hr), write_all_lookup, lookup_empty.
  set (l := (fun b : Block => (height b.1, block_hash b.1)) <$> blocks_of records).
  assert (l.*1 = (fun b : Block => height b.1) <$> blocks_of records) as El by (unfold l; by rewrite <- list_fmap_compose).
  split.
  - intros b Hb <-. rewrite (last_write_unique (height b.1) (block_hash b.1) l); [done|by rewrite El|].
    apply list_elem_of_fmap. by exists b.
  - intros Hno. assert (last_write h l = None) as ->; [|done]. apply last_write_None. rewrite El. intros (b & -> & Hb)%list_elem_of_fmap.
    by apply (Hno b).
Qed.

Section Recovered.
Context (records : list JournalRecord) (bootstrap : Z) (tip : Block) (s0 : PersistenceState).
Abbreviation bs := (blocks_of records).
Abbreviation f0 := (proof_file s0).

(** A height whose block the journal no longer has. *)
Definition settled (h : Z) : Prop := bootstrap < h <= height tip.1 /\ forall b, b ∈ bs -> height b.1 <> h.

(** A block that the journal has rolled back and not applied again since. *)
Definition rolled_away (r : JournalRecord) : Prop :=
  jr_status r = RolledBack /\ forall b, b ∈ bs -> block_hash b.1 <> block_hash (jr_entry r).

(** Nothing leads to the block any more: its hash has no proof, its height no header with its hash, and its hash is not found
    at its height. *)
Definition forgotten (Hs : Z -> option Header) (K : gmap bytes Z) (m : gmap bytes Entry) (r : JournalRecord) : Prop :=
  m !! block_hash (jr_entry r) = None /\
  (forall header, Hs (height (jr_entry r)) = Some header -> header_block_hash header <> block_hash (jr_entry r)) /\
  HeaderIndex.HeaderIndex.lookup_height Hs K (block_hash (jr_entry r)) <> Some (height (jr_entry r)).

(** The stores have every block: its header, its height, its entry in the proof index, and a proof file that ends at [e],
    where the proof of the tip does.  They have forgotten the rolled back ones of [done]. *)
Record serves (done : list JournalRecord) (f : Proofs) (e : Z) (s : PersistenceState) : Prop := {
  se_stores : exists Hs K m, refines_headers (header_index s) Hs K /\ ProofStore.ProofStore.represents (proof_index s) m h0 /\
    (forall b, b ∈ bs -> headed Hs K b /\ exists i, m !! block_hash b.1 = Some i /\ ProofStore.ProofStore.index_ok i /\
       is_proof_of f b i /\ index_end i <= e /\ (b = tip -> index_end i = e)) /\
    (forall h, settled h -> exists header i, Hs h = Some header /\ Hs0 h = Some header /\ m !! header_block_hash header = Some i /\
       ProofStore.ProofStore.index_ok i /\ ProofStore.ProofStore.contains f i = true /\ index_end i <= e /\ proof_at f i = proof_at f0 i) /\
    (forall r, r ∈ done -> rolled_away r -> forgotten Hs K m r);
  se_file : proof_file s = f;
  se_writer : ProofStore.ProofStore.writer_pos f = size_of f
}.

Lemma height_is_stored_serves done f e s retained h : serves done f e s -> is_u32 h -> Forall block_ok bs ->
  (forall b, b ∈ bs -> height b.1 = h -> retained !! h = Some (block_hash b.1)) ->
  ((forall b, b ∈ bs -> height b.1 <> h) -> retained !! h = None) ->
  (exists b, b ∈ bs /\ height b.1 = h) \/ settled h -> height_is_stored s retained h = Ok true.
Proof.
  intros [(Hs & K & m & Hr & Hm & Hb & Hlow & _) Hf _] Hu Hok Hr1 Hr2 Hh. unfold height_is_stored.
  rewrite (proj1 (HeaderIndex.HeaderIndex.refines_answers _ _ _ Hr) h Hu). step_ok. destruct Hh as [(b & Hin & <-)|Hset].
  - destruct (Hb b Hin) as [[E1 _] (i & Ei & _ & [_ Hp] & _)]. rewrite E1. cbn [fmap option_fmap option_map].
    rewrite Forall_forall in Hok. rewrite (bo_hash b) by auto. rewrite (ProofStore.ProofStore.re_index _ _ _ Hm), Ei. step_ok.
    rewrite (Hr1 b Hin eq_refl), Hf, Hp, (ProofCalls.get_contains _ _ _ Hp). by rewrite !bool_decide_eq_true_2.
  - destruct (Hlow h Hset) as (header & i & E1 & _ & Ei & _ & Hc & _). rewrite E1. cbn [fmap option_fmap option_map].
    rewrite (ProofStore.ProofStore.re_index _ _ _ Hm), Ei. step_ok. rewrite (Hr2 (proj2 Hset)), Hf, Hc. done.
Qed.

Lemma scan_serves retained heights P : 
  (forall s h, P s -> h ∈ heights -> height_is_stored s retained h = Ok true) ->
  spec P (scan_heights env retained heights) (fun gap s => gap = None /\ P s).
Proof.
  induction heights as [|h heights IH]; intros Hst; [by apply spec_ret|]. cbn [scan_heights]. apply spec_get. intros s1.
  apply spec_lift; [intros s [-> HP]; by rewrite (Hst s1 h HP ltac:(by left))|].
  intros valid E. destruct valid.
  - eapply spec_pre; [|apply IH; intros s h' HP Hin; apply (Hst s h' HP); by right]. by intros s [-> HP].
  - intros s [-> HP]. rewrite (Hst s1 h HP ltac:(by left)) in E. done.
Qed.

(** ** Starting *)

(** What the recovery relies on: the opened stores, the records of the journal, and that the headers and proofs of older blocks
    are there, in front of the tip's. *)
Record startable : Prop := {
  sa_replayable : replayable records;
  sa_blocks : Forall block_ok bs;
  sa_distinct : distinct bs;
  sa_tip : last bs = Some tip;
  sa_heights : forall b, b ∈ bs -> bootstrap < height b.1 <= height tip.1;
  sa_bootstrap : is_u32 bootstrap;
  sa_headers : refines_headers (header_index s0) Hs0 K0;
  sa_index : ProofStore.ProofStore.represents (proof_index s0) m0 h0;
  sa_index_ok : map_Forall (fun _ i => ProofStore.ProofStore.index_ok i) m0;
  sa_height : is_u32 h0;
  sa_writer : ProofStore.ProofStore.writer_pos f0 = size_of f0;
  sa_room : size_of f0 + zlength bs * MAX_COMPACT_PROOF_BYTES < 2 ^ 64;
  sa_settled : forall h, settled h -> exists header i, Hs0 h = Some header /\ m0 !! header_block_hash header = Some i /\
    ProofStore.ProofStore.contains f0 i = true /\ forall b, b ∈ bs -> block_hash b.1 <> header_block_hash header;
  sa_ordered : forall hash i j, (exists b, b ∈ bs /\ block_hash b.1 = hash) \/
      (exists h header, settled h /\ Hs0 h = Some header /\ header_block_hash header = hash) ->
    m0 !! hash = Some i -> ProofStore.ProofStore.contains f0 i = true ->
    m0 !! block_hash tip.1 = Some j -> ProofStore.ProofStore.contains f0 j = true -> index_end i <= index_end j;
  sa_rolled_back : forall r, r ∈ records -> jr_status r = RolledBack -> is_u32 (height (jr_entry r)) /\
    forall h header, settled h -> Hs0 h = Some header -> header_block_hash header <> block_hash (jr_entry r)
}.

Context (Hstart : startable).

Lemma same_block b b' : b ∈ bs -> b' ∈ bs -> key_of (block_hash b.1) = key_of (block_hash b'.1) -> b = b'.
Proof.
  destruct (sa_distinct Hstart) as [_ Hd]. intros Hb Hb' E.
  apply list_elem_of_lookup in Hb as [i Hi], Hb' as [j Hj].
  assert (i = j) as ->; [|congruence]. eapply NoDup_lookup; [exact Hd| |]; rewrite list_lookup_fmap.
  - by rewrite Hi.
  - rewrite Hj. change (Some (key_of (block_hash b'.1)) = Some (key_of (block_hash b.1))). by rewrite E.
Qed.

Lemma tip_in : tip ∈ bs.
Proof. apply last_Some_elem_of, (sa_tip Hstart). Qed.

(** The entries of the repaired index, in the file [f] whose last proof of interest ends at [e]. *)
Definition entries_ok (m : gmap bytes Entry) (f : Proofs) (e : Z) : Prop :=
  (forall b, b ∈ bs -> exists i, m !! block_hash b.1 = Some i /\ ProofStore.ProofStore.index_ok i /\
     is_proof_of f b i /\ index_end i <= e /\ (b = tip -> index_end i = e)) /\
  (forall h, settled h -> exists header i, Hs0 h = Some header /\ m !! header_block_hash header = Some i /\
     ProofStore.ProofStore.index_ok i /\ ProofStore.ProofStore.contains f i = true /\ index_end i <= e /\ proof_at f i = proof_at f0 i).

Lemma entries_unrepaired : Forall (proven m0 f0) bs -> exists e, entries_ok m0 f0 e.
Proof.
  intros Hp. rewrite Forall_forall in Hp. destruct (Hp tip tip_in) as (j & Ej & Hj & Hgj).
  pose proof (ProofCalls.get_contains _ _ _ Hgj) as Hcj. exists (index_end j). split.
  - intros b Hb. destruct (Hp b Hb) as (i & Ei & Hi & Hgi). exists i. split_and!; [done|exact (sa_index_ok Hstart _ _ Ei)|done| |].
    + eapply (sa_ordered Hstart); [left; by exists b|done|by eapply ProofCalls.get_contains|done|done].
    + intros ->. congruence.
  - intros h Hh. destruct (sa_settled Hstart h Hh) as (header & i & E1 & Ei & Hc & _). exists header, i.
    split_and!; [done|done|exact (sa_index_ok Hstart _ _ Ei)|done| |done]. eapply (sa_ordered Hstart); [right; by exists h, header|done..].
Qed.

Lemma entries_repaired f kept redone repaired : bs = kept ++ redone -> repaired <> [] -> ProofCalls.grown f0 f ->
  Forall (proven m0 f0) kept ->
  Forall2 (fun b ib => ib.2 = block_hash b.1 /\ ProofStore.ProofStore.index_ok ib.1 /\ is_proof_of f b ib.1) redone repaired ->
  (forall ib, last repaired = Some ib -> index_end ib.1 = size_of f) ->
  entries_ok (write_all m0 (prod_swap <$> repaired)) f (size_of f).
Proof.
  intros Ebs Hne Hg Hkept Hredone Hlast. pose proof (ProofCalls.gr_length _ _ Hg) as Hlen.
  assert (forall hash, match last_write hash (prod_swap <$> repaired) with
                       | Some i => exists b, b ∈ redone /\ block_hash b.1 = hash /\ ProofStore.ProofStore.index_ok i /\ is_proof_of f b i
                       | None => forall b, b ∈ redone -> block_hash b.1 <> hash end) as Hw.
  { intros hash. destruct (last_write hash _) as [i|] eqn:E.
    - apply last_write_Some_elem, list_elem_of_fmap in E as ([i' hash'] & [= -> ->] & Hin).
      apply list_elem_of_lookup in Hin as [k Hk]. destruct (Forall2_lookup_r _ _ _ _ _ Hredone Hk) as (b & Hb & E1 & Hi & Hp).
      exists b. split_and!; [by eapply list_elem_of_lookup_2|done|done|done].
    - apply last_write_None in E. intros b Hb <-. apply E. apply list_elem_of_lookup in Hb as [k Hk].
      destruct (Forall2_lookup_l _ _ _ _ _ Hredone Hk) as ([i hash] & Hib & E1 & _). cbn in E1. subst hash.
      rewrite <- list_fmap_compose. apply list_elem_of_fmap. exists (i, block_hash b.1). split; [done|]. by eapply list_elem_of_lookup_2. }
  assert (forall b i, is_proof_of f b i -> index_end i <= size_of f) as Hle.
  { intros b i [_ Hp%ProofCalls.get_contains]. by apply ProofStore.ProofStore.contains_bound. }
  split.
  - intros b Hb. rewrite write_all_lookup. specialize (Hw (block_hash b.1)) as Hwb.
    destruct (last_write (block_hash b.1) _) as [i|] eqn:E.
    + destruct Hwb as (b' & Hb' & Eh & Hi & Hp).
      assert (b' = b) as -> by (apply same_block; [rewrite Ebs; apply elem_of_app; by right|done|by rewrite Eh]).
      exists i. split_and!; [done|done|done|by eapply Hle|]. intros ->.
      destruct (last repaired) as [ib|] eqn:El; [|by apply last_None in El]. rewrite <- (Hlast ib eq_refl).
      apply last_Some in El as [l ->]. apply Forall2_app_inv_r in Hredone as (r1 & r2 & _ & Hr2 & ->).
      apply Forall2_cons_inv_r in Hr2 as (b2 & r3 & (E2 & _) & Hr3 & ->). apply Forall2_nil_inv_r in Hr3 as ->.
      assert (b2 = tip) as ->.
      { pose proof (sa_tip Hstart) as Ht. rewrite Ebs, app_assoc, last_snoc in Ht. congruence. }
      rewrite fmap_app, last_write_app in E. destruct ib as [i2 h2]. cbn in E2. subst h2. cbn in E.
      rewrite decide_True in E by done. by injection E as ->.
    + assert (b ∈ kept) as Hk by (rewrite Ebs in Hb; apply elem_of_app in Hb as [Hb|Hb]; [done|by destruct (Hwb b Hb)]).
      rewrite Forall_forall in Hkept. destruct (Hkept b Hk) as (i & Ei & Hr & Hp). pose proof (sa_index_ok Hstart _ _ Ei) as Hi.
      assert (is_proof_of f b i) as Hpf by (split; [done|by apply (ProofCalls.get_grown f0)]).
      exists i. split_and!; [done|done|done|by eapply Hle|]. intros ->. exfalso.
      destruct redone as [|b0 redone' _] using rev_ind; [by apply Forall2_nil_inv_l in Hredone|].
      apply (Hwb b0); [apply elem_of_app; right; by left|]. pose proof (sa_tip Hstart) as Ht. rewrite Ebs, app_assoc, last_snoc in Ht. congruence.
  - intros h Hh. destruct (sa_settled Hstart h Hh) as (header & i & E1 & Ei & Hc & Hno). exists header, i. rewrite write_all_lookup.
    specialize (Hw (header_block_hash header)). destruct (last_write (header_block_hash header) _) as [i'|].
    + destruct Hw as (b & Hb & Eh & _). destruct (Hno b); [rewrite Ebs; apply elem_of_app; by right|done].
    + pose proof (ProofCalls.contains_grown f0 f i Hlen Hc) as Hc'. pose proof (sa_index_ok Hstart _ _ Ei) as Hi.
      split_and!; [done|done|exact Hi|done|by apply ProofStore.ProofStore.contains_bound|].
      apply (ProofStore.ProofStore.get_prefix f0 f (size_of f0)); [done|done|done|by apply (ProofCalls.gr_bytes _ _ Hg)|].
      by apply ProofStore.ProofStore.contains_bound.
Qed.

Context (Erecords : published_records (ps_journal s0) = records) (Ebootstrap : bootstrap_height s0 = bootstrap).

(** What the repairs leave alone. *)
Definition core (s : PersistenceState) := (ps_journal s, ps_forest s, bootstrap_height s, ps_unflushed s).

Lemma sync_headers_ends x Hs K : refines_headers x Hs K -> forall io, (quiet -> forall m, io m = true) ->
  match sync_headers io x with (x', Ok _) => refines_headers x' Hs K | (_, Err _) => ~ quiet end.
Proof.
  intros [Hsl (d & Ed & Ev) Hk] io Hio. unfold sync_headers, HeaderIndex.HeaderIndex.available_heights.
  erewrite sr_bind_ok by (erewrite sr_bind_ok by done; unfold lift; by rewrite Ed). unfold try_, HeaderIndex.HeaderIndex.on_headers, sync_file.
  unfold mbind, sr_bind, lift. cbn. destruct (io 0%nat) eqn:E0; cbn.
  - destruct (io 1%nat) eqn:E1; cbn; [|intros q; by rewrite Hio in E1]. split; [exact Hsl|by exists d|done].
  - intros q. by rewrite Hio in E0.
Qed.

Lemma entries_proper m f g e : now (ProofStore.ProofStore.pf_file f) = now (ProofStore.ProofStore.pf_file g) ->
  entries_ok m f e -> entries_ok m g e.
Proof.
  intros E [Hb Hl].
  assert (forall i, ProofStore.ProofStore.contains g i = ProofStore.ProofStore.contains f i) as Ec by (intros; unfold ProofStore.ProofStore.contains; by rewrite E).
  assert (forall i, proof_at g i = proof_at f i) as Eg by (intros; unfold proof_at, ProofStore.ProofStore.get_proof; by rewrite Ec, E).
  split.
  - intros b Hin. destruct (Hb b Hin) as (i & Ei & Hi & [Hr Hp] & He). exists i. split; [done|]. split; [done|]. split; [split; [done|by rewrite Eg]|done].
  - intros h Hh. destruct (Hl h Hh) as (header & i & E1 & Ei & Hi & Hc & He). exists header, i. rewrite Ec, Eg. exact (conj E1 (conj Ei (conj Hi (conj Hc He)))).
Qed.

Lemma entries_of_repairs f repaired : repaired_ok false f0 f bs repaired ->
  exists e, entries_ok (write_all m0 (prod_swap <$> repaired)) f e.
Proof.
  intros (Hg & Hnil & kept & redone & Ebs & _ & Hkept & Hredone & Hlast). destruct (decide (repaired = [])) as [->|Hne].
  - rewrite (Hnil eq_refl). apply Forall2_nil_inv_r in Hredone as ->. rewrite app_nil_r in Ebs. apply entries_unrepaired. by rewrite Ebs.
  - eexists. by eapply entries_repaired.
Qed.

Lemma repaired_entries f repaired : repaired_ok false f0 f bs repaired ->
  Forall (fun ib => ProofStore.ProofStore.index_ok ib.1) repaired /\
  Forall (fun ib => forall rows, ProofStore.ProofStore.proof_forest_rows ib.1 = Some rows -> rows <= 63) repaired.
Proof.
  intros (_ & _ & kept & redone & Ebs & _ & _ & Hredone & _).
  assert (Forall block_ok redone) as Hok by (pose proof (sa_blocks Hstart) as Hb; rewrite Ebs in Hb; by apply Forall_app in Hb as [_ Hb]).
  split; (induction Hredone as [|b ib redone repaired (_ & Hi & [Hr _]) Hall IH] in Hok, kept, Ebs |- *; [constructor|]);
    apply Forall_cons in Hok as [Hb Hok]; (constructor; [|apply (IH (kept ++ [b])); [by rewrite Ebs, <- app_assoc|done]]); [done|].
  intros rows E. rewrite Hr in E. injection E as <-. apply (bo_rows b Hb).
Qed.

Lemma serves_intro f e repaired s : headers_have bs (header_index s) -> proof_file s = f ->
  ProofStore.ProofStore.writer_pos f = size_of f -> entries_ok (write_all m0 (prod_swap <$> repaired)) f e ->
  ProofStore.ProofStore.represents (proof_index s) (write_all m0 (prod_swap <$> repaired)) h0 ->
  serves [] f e s.
Proof.
  intros (Hs & K & Hr & Hd & Ho) Hf Hw [Hb Hl] Hm. split; [|done|done]. exists Hs, K, (write_all m0 (prod_swap <$> repaired)).
  split_and!; [done|done|intros b Hin; split; auto| |set_solver].
  intros h Hh. destruct (Hl h Hh) as (header & i & E1 & Hi). exists header, i. split; [|done]. rewrite Ho; [done|]. apply Hh.
Qed.

Lemma recoverable_spec : spec (fun s => s = s0) (recoverable_journal_height env h0)
  (fun recovered s => recovered = height tip.1 /\ exists f e, serves [] f e s /\ core s = core s0).
Proof.
  unfold recoverable_journal_height. apply spec_get. intros s. apply (spec_pre _ (fun s' => s = s0 /\ repairing s0 [] f0 s')).
  { intros s' [-> ->]. split; [done|]. split_and!; [|done|done]. exists Hs0, K0. split_and!; [apply Hstart|set_solver|done]. }
  apply spec_pure. intros ->. rewrite Erecords. eapply spec_bind.
  { apply (repair_spec s0 records (sa_index Hstart) [] 0 false f0 (sa_blocks Hstart) (sa_distinct Hstart) (sa_writer Hstart) (sa_room Hstart)). }
  intros repaired. apply spec_ex. intros f. rewrite app_nil_l.
  apply (spec_pre _ (fun s => repaired_ok false f0 f bs repaired /\ repairing s0 bs f s)); [by intros s' []|]. apply spec_pure. intros Hrep.
  pose proof Hrep as (Hg & _). destruct (entries_of_repairs f repaired Hrep) as [e He].
  apply (spec_bind _ _ _ (fun _ s => exists g, (now (ProofStore.ProofStore.pf_file g) = now (ProofStore.ProofStore.pf_file f) /\
    ProofStore.ProofStore.writer_pos g = ProofStore.ProofStore.writer_pos f) /\ repairing s0 bs g s)).
  { apply spec_on_proof_file. intros s (Hh & Hf & Hr). rewrite Hf. unfold ProofStore.ProofStore.sync, ProofStore.ProofStore.on_proofs, sync_file.
    destruct (proof_sync_io env 0%nat) eqn:Eio; [|intros q; by rewrite (qu_proof_sync q) in Eio]. exists {| ProofStore.ProofStore.pf_file := vsync (ProofStore.ProofStore.pf_file f); ProofStore.ProofStore.writer_pos := ProofStore.ProofStore.writer_pos f |}. split; [split; reflexivity|]. split; [exact Hh|]. split; [reflexivity|exact Hr]. }
  intros []. apply spec_ex. intros g. apply spec_pure. intros [Eg Ew].
  assert (entries_ok (write_all m0 (prod_swap <$> repaired)) g e) as Heg by (by apply (entries_proper _ f)).
  apply (spec_bind _ _ _ (fun _ => repairing s0 bs g)).
  { apply spec_on_header. intros s ((Hs & K & Hr & Hd & Ho) & Hf & Hfr).
    pose proof (sync_headers_ends _ Hs K Hr (header_sync_io env) (fun q => qu_header_sync q)) as Hsync.
    destruct (sync_headers _ _) as [x [[]|]]; [|done]. split; [|done]. by exists Hs, K. }
  intros []. destruct (repaired_entries f repaired Hrep) as [Hi1 Hi2].
  apply (spec_bind _ _ _ (fun _ s => serves [] g e s /\ core s = core s0)).
  { destruct repaired as [|ib repaired].
    - apply spec_ret. intros s (Hh & Hf & Hfr). injection Hfr as E1 E2 E3 E4 E5. split; [|unfold core; congruence].
      apply (serves_intro g e []); [done|done|rewrite Ew, Eg; apply Hg|done|]. rewrite E3. apply Hstart.
    - apply spec_on_proof_index. intros s (Hh & Hf & Hfr). injection Hfr as E1 E2 E3 E4 E5.
      pose proof (ProofCalls.batch_ends (ib :: repaired) (proof_index s) m0 h0) as Hb. rewrite E3 in *.
      specialize (Hb (sa_index Hstart) Hi1 Hi2). destruct (ProofStore.ProofStore.append_batch _ _) as [x [[]|]].
      + split; [|unfold core; cbn; congruence]. apply (serves_intro g e (ib :: repaired)); [done|done|rewrite Ew, Eg; apply Hg|done|done].
      + intros q. by apply Hb, q. }
  intros []. apply spec_get. intros s1. apply (spec_pre _ (fun s => core s1 = core s0 /\ serves [] g e s /\ core s = core s0)).
  { by intros s [-> [Hs Hc]]. }
  apply spec_pure. intros [= Ej Ef Eb]. rewrite Ej, Eb, Ebootstrap, Erecords.
  pose proof (sa_heights Hstart tip tip_in) as Ht. pose proof (bo_header _ (proj1 (Forall_forall _ _) (sa_blocks Hstart) tip tip_in)) as [Hht _].
  cbn [fst] in Hht.
  assert (candidate_height (ps_journal s0) h0 bootstrap = height tip.1) as ->.
  { unfold candidate_height. pose proof (latest_block (ps_journal s0)) as Hl. rewrite Erecords in Hl. specialize (Hl (sa_replayable Hstart)).
    destruct (latest_forward _) as [[k r]|].
    - destruct Hl as (b & Eb2 & El). rewrite (sa_tip Hstart) in El. injection El as <-. unfold published_block in Eb2.
      destruct (jr_status r), (jr_replay r); try done. by injection Eb2 as <-.
    - pose proof (sa_tip Hstart) as Htip. by rewrite Hl in Htip. }
  apply spec_lift; [intros _ _; by rewrite (proj2 (Z.ltb_ge _ _)) by lia|]. intros [] _.
  assert (checked_add 32 bootstrap 1 = Some (bootstrap + 1)) as ->.
  { apply checked_add_Some. split; [done|]. pose proof (sa_bootstrap Hstart). unfold is_uint in *. lia. }
  apply spec_lift; [done|]. intros first [= <-]. eapply spec_bind.
  { apply (scan_serves (retained_hashes records) _ (fun s => serves [] g e s /\ core s = core s0)). intros s h [Hs _] Hin%elem_of_zrange.
    pose proof (sa_bootstrap Hstart). eapply (height_is_stored_serves [] g e); [done|unfold is_uint in *; lia|apply Hstart| | |].
    - apply (retained_lookup records h (sa_replayable Hstart) (sa_distinct Hstart)).
    - apply (retained_lookup records h (sa_replayable Hstart) (sa_distinct Hstart)).
    - destruct (decide (Exists (fun b => height b.1 = h) bs)) as [Hex|Hno]; [left; by apply Exists_exists in Hex|right].
      split; [lia|]. intros b Hb Eh. apply Hno, Exists_exists. by exists b. }
  intros gap. apply spec_ret. intros s (-> & Hs & Hc). cbn. split; [done|]. by exists g, e.
Qed.

(** ** The headers of the retained blocks *)

Lemma record_block r : r ∈ records -> jr_status r = Forward -> exists b, b ∈ bs /\ jr_entry r = b.1.
Proof.
  intros Hin Es. pose proof (proj1 (Forall_forall _ _) (sa_replayable Hstart) r Hin Es) as [p Ep].
  exists (jr_entry r, p). split; [|done]. apply list_elem_of_omap. exists r. split; [done|]. unfold published_block. by rewrite Es, Ep.
Qed.

Lemma serves_headers done f e s x : serves done f e s -> (forall Hs K, refines_headers (header_index s) Hs K -> refines_headers x Hs K) ->
  serves done f e (with_header_index s x).
Proof. intros [(Hs & K & m & Hr & Hm & Hb & Hl) Hf Hw] Hx. split; [|done|done]. exists Hs, K, m. by split; [apply Hx|]. Qed.

Lemma found_height done f e s b : serves done f e s -> b ∈ bs ->
  match get_height (header_index s) (block_hash b.1) with Ok r => r = Some (height b.1) | Err _ => ~ quiet end.
Proof.
  intros [(Hs & K & m & Hr & _ & Hb & _ & _) _ _] Hin. destruct (Hb b Hin) as [[E1 E2] _].
  pose proof (bo_hash b (proj1 (Forall_forall _ _) (sa_blocks Hstart) b Hin)) as Eh.
  assert (HeaderIndex.HeaderIndex.lookup_height Hs K (block_hash b.1) = Some (height b.1)) as El.
  { unfold HeaderIndex.HeaderIndex.lookup_height. rewrite E2. cbn. rewrite E1. cbn. by rewrite bool_decide_eq_true_2. }
  destruct (get_height _ _) as [r|err] eqn:E.
  - rewrite <- El. by apply (proj2 (HeaderIndex.HeaderIndex.refines_answers _ _ _ Hr)).
  - intros q. pose proof (HeaderCalls.get_height_total _ Hs K (block_hash b.1) (qu_heights q) Hr). congruence.
Qed.

Lemma block_height b : b ∈ bs -> is_u32 (height b.1).
Proof. intros Hin. apply (bo_header b (proj1 (Forall_forall _ _) (sa_blocks Hstart) b Hin)). Qed.

(** Removing takes away only, and leaves nothing of the block. *)
Lemma removed_less Hs ht bh h header :
  (match Hs ht with
   | Some hd => if bool_decide (header_block_hash hd = bh) then HeaderIndex.HeaderIndex.at_height Hs ht None else Hs
   | None => Hs
   end) h = Some header -> Hs h = Some header.
Proof.
  destruct (Hs ht); [|done]. case_bool_decide; [|done]. unfold HeaderIndex.HeaderIndex.at_height. by destruct (h =? ht).
Qed.

Lemma lookup_less Hs Hs' K K' bh h : (forall h header, Hs' h = Some header -> Hs h = Some header) ->
  (forall k h, K' !! k = Some h -> K !! k = Some h) ->
  HeaderIndex.HeaderIndex.lookup_height Hs' K' bh = Some h -> HeaderIndex.HeaderIndex.lookup_height Hs K bh = Some h.
Proof.
  intros Hless Kless. unfold HeaderIndex.HeaderIndex.lookup_height. intros (h1 & E1%Kless & (header & E2%Hless & E)%bind_Some)%bind_Some.
  by rewrite E1; cbn; rewrite E2.
Qed.

Lemma forgotten_less Hs K m r ht bh :
  let op := HeaderIndex.HeaderIndex.Remove ht bh in
  forgotten Hs K m r ->
  forgotten (HeaderIndex.HeaderIndex.spec_header op Hs K).1 (HeaderIndex.HeaderIndex.spec_header op Hs K).2 (delete bh m) r.
Proof.
  intros op (Hm & Hh & Hk). cbn [op HeaderIndex.HeaderIndex.spec_header fst snd]. split_and!.
  - apply lookup_delete_None. by right.
  - intros header E. apply Hh. by eapply removed_less.
  - intros E. apply Hk. eapply lookup_less; [by intros h header; apply removed_less| |exact E].
    intros k h. case_bool_decide; [|done]. by intros [_ ?]%lookup_delete_Some.
Qed.

Lemma removed_forgotten Hs K m r :
  let op := HeaderIndex.HeaderIndex.Remove (height (jr_entry r)) (block_hash (jr_entry r)) in
  forgotten (HeaderIndex.HeaderIndex.spec_header op Hs K).1 (HeaderIndex.HeaderIndex.spec_header op Hs K).2
    (delete (block_hash (jr_entry r)) m) r.
Proof.
  intros op. cbn [op HeaderIndex.HeaderIndex.spec_header fst snd]. split_and!; [by rewrite lookup_delete_eq| |].
  - intros header. destruct (Hs (height (jr_entry r))) as [hd|] eqn:E; [|congruence]. case_bool_decide; [|congruence].
    unfold HeaderIndex.HeaderIndex.at_height. by rewrite Z.eqb_refl.
  - destruct (decide (HeaderIndex.HeaderIndex.lookup_height Hs K (block_hash (jr_entry r)) = Some (height (jr_entry r)))) as [Hd|Hd].
    + rewrite (bool_decide_eq_true_2 _ Hd). unfold HeaderIndex.HeaderIndex.lookup_height. by rewrite lookup_delete_eq.
    + rewrite (bool_decide_eq_false_2 _ Hd). intros E. apply Hd. eapply lookup_less; [|done|exact E].
      intros h header. apply removed_less.
Qed.

(** Removing a rolled back block. *)
Lemma remove_serves done f e s r n : serves done f e s -> r ∈ records -> jr_status r = RolledBack ->
  (forall b, b ∈ bs -> block_hash b.1 <> block_hash (jr_entry r)) ->
  match remove_header (restore_io env n) (height (jr_entry r)) (block_hash (jr_entry r)) (header_index s) with
  | (x, Ok _) => match ProofStore.ProofStore.remove (block_hash (jr_entry r)) (proof_index s) with
                 | (y, Ok _) => serves (done ++ [r]) f e (with_proof_index (with_header_index s x) y)
                 | (_, Err _) => ~ quiet
                 end
  | (_, Err _) => ~ quiet
  end.
Proof.
  intros [(Hs & K & m & Hr & Hm & Hb & Hl & Hg) Hf Hw] Hin Es Hno. destruct (sa_rolled_back Hstart r Hin Es) as [Hu Hset].
  set (ht := height (jr_entry r)) in *. set (bh := block_hash (jr_entry r)) in *.
  destruct (remove_header _ _ _ _) as [x [[]|err]] eqn:Ex.
  2: { intros q. destruct (HeaderCalls.remove_total (restore_io env n) ht bh _ Hs K (qu_heights q) (qu_restore q n) Hr Hu). congruence. }
  apply (HeaderIndex.HeaderIndex.remove_refines _ _ _ _ _ Hs K Hr Hu) in Ex.
  pose proof (ProofCalls.remove_ends bh (proof_index s) m h0 Hm) as Hrem.
  destruct (ProofStore.ProofStore.remove bh (proof_index s)) as [y [[]|err]]; [|intros q; by apply Hrem, q].
  set (Hs' := (HeaderIndex.HeaderIndex.spec_header _ Hs K).1) in *. set (K' := (HeaderIndex.HeaderIndex.spec_header _ Hs K).2) in *.
  assert (forall h header, Hs h = Some header -> header_block_hash header <> bh -> Hs' h = Some header) as Hkeep.
  { intros h header E Hne. unfold Hs'. cbn [HeaderIndex.HeaderIndex.spec_header fst]. destruct (Hs ht) as [hd|] eqn:Eh; [|done].
    case_bool_decide; [|done]. unfold HeaderIndex.HeaderIndex.at_height. destruct (Z.eqb_spec h ht) as [->|]; [congruence|done]. }
  split; [|done|done]. exists Hs', K', (delete bh m). split_and!; [done|done| | |].
  - intros b Hb'. destruct (Hb b Hb') as [[E1 E2] (i & Ei & Hi)]. specialize (Hno b Hb').
    pose proof (bo_hash b (proj1 (Forall_forall _ _) (sa_blocks Hstart) b Hb')) as Eh. split.
    + split; [apply Hkeep; [done|congruence]|]. unfold K'. cbn [HeaderIndex.HeaderIndex.spec_header snd]. case_bool_decide as El; [|done].
      rewrite lookup_delete_ne; [done|]. intros Ek. unfold HeaderIndex.HeaderIndex.lookup_height in El. rewrite Ek, E2 in El. cbn in El.
      rewrite E1 in El. cbn in El. case_bool_decide; [|done]. congruence.
    + exists i. by rewrite lookup_delete_ne.
  - intros h Hh. destruct (Hl h Hh) as (header & i & E1 & E0 & Ei & Hi). specialize (Hset h header Hh E0).
    exists header, i. rewrite lookup_delete_ne by done. split; [by apply Hkeep|done].
  - intros r' [Hin'|Hin']%elem_of_app Haway.
    + by apply (forgotten_less Hs K m), Hg.
    + apply list_elem_of_singleton in Hin' as ->. apply removed_forgotten.
Qed.

(** A block that is in the journal again, or was never rolled back, needs no removal. *)
Lemma serves_skip done f e s r : serves done f e s -> ~ rolled_away r -> serves (done ++ [r]) f e s.
Proof.
  intros [(Hs & K & m & Hr & Hm & Hb & Hl & Hg) Hf Hw] Hno. split; [|done|done]. exists Hs, K, m. split_and!; [done..|].
  intros r' [Hin|Hin]%elem_of_app Haway; [by apply Hg|]. by apply list_elem_of_singleton in Hin as ->.
Qed.

Lemma restore_spec f e c todo : todo ⊆ records -> forall done n,
  spec (fun s => serves done f e s /\ core s = c) (restore_headers env records n todo) (fun _ s => serves (done ++ todo) f e s /\ core s = c).
Proof.
  induction todo as [|r todo IH]; intros Hsub done n; [rewrite app_nil_r; by apply spec_ret|]. cbn [restore_headers].
  rewrite cons_middle, app_assoc.
  assert (r ∈ records) as Hr by (apply Hsub; by left).
  apply (spec_bind _ _ _ (fun _ s => serves (done ++ [r]) f e s /\ core s = c)); [|intros []; apply IH; intros x Hx; apply Hsub; by right].
  destruct (jr_status r) eqn:Es.
  - destruct (record_block r Hr Es) as (b & Hb & ->). apply spec_get. intros s1. apply spec_lift.
    { intros s [-> [Hs _]]. pose proof (found_height _ f e s1 b Hs Hb). by destruct (get_height _ _). }
    intros found Ef. apply (spec_bind _ _ _ (fun indexed s => indexed = true /\ serves done f e s /\ core s = c)).
    + apply (spec_pre _ (fun s => found = Some (height b.1) /\ serves done f e s1 /\ s = s1 /\ core s = c)).
      { intros s [-> [Hs Hc]]. pose proof (found_height _ f e s1 b Hs Hb) as Hf. rewrite Ef in Hf. done. }
      apply spec_pure. intros ->. rewrite bool_decide_eq_true_2 by done. apply spec_pure. intros Hs1.
      pose proof Hs1 as [(Hs & K & m & Href & _ & Hblocks & _) _ _]. destruct (Hblocks b Hb) as [[E1 _] _].
      rewrite (proj1 (HeaderIndex.HeaderIndex.refines_answers _ _ _ Href) _ (block_height b Hb)), E1.
      apply spec_lift; [done|]. intros header [= <-]. apply spec_ret. intros s [-> Hc].
      pose proof (bo_hash b (proj1 (Forall_forall _ _) (sa_blocks Hstart) b Hb)) as Eh. by rewrite bool_decide_eq_true_2.
    + intros indexed. apply spec_pure. intros ->. apply spec_ret. intros s [Hs Hc]. split; [|done].
      apply serves_skip; [done|]. intros [? _]. congruence.
  - apply spec_if; intros Eb.
    { apply spec_ret. intros s [Hs Hc]. split; [|done]. apply serves_skip; [done|]. intros [_ Hno].
      apply existsb_exists in Eb as (r' & Hin & [Ef Eh]%andb_true_iff). apply bool_decide_eq_true in Ef, Eh. apply list_elem_of_In in Hin.
      destruct (record_block r' Hin Ef) as (b & Hb & Ee). apply (Hno b Hb). congruence. }
    assert (forall b, b ∈ bs -> block_hash b.1 <> block_hash (jr_entry r)) as Hno.
    { intros b (r' & Hr' & Ep)%list_elem_of_omap E. apply not_true_iff_false in Eb. apply Eb, existsb_exists. exists r'.
      split; [by apply list_elem_of_In|]. unfold published_block in Ep. destruct (jr_status r') eqn:Es', (jr_replay r'); try done. injection Ep as <-.
      cbn in E. apply andb_true_iff. split; by apply bool_decide_eq_true. }
    apply (spec_bind _ _ _ (fun _ s' => exists s, (serves done f e s /\ core s = c) /\
      (exists x, remove_header (restore_io env n) (height (jr_entry r)) (block_hash (jr_entry r)) (header_index s) = (x, Ok tt) /\
       s' = with_header_index s x))).
    { apply spec_on_header. intros s [Hs Hc]. pose proof (remove_serves done f e s r n Hs Hr Es Hno) as Hrm.
      destruct (remove_header _ _ _ _) as [x [[]|]] eqn:Ex; [|done]. exists s. split; [done|]. by exists x. }
    intros []. apply spec_ex. intros s. apply spec_pure. intros [Hs Hc]. apply spec_ex. intros x. apply spec_pure. intros Ex.
    apply spec_on_proof_index. intros s' ->. pose proof (remove_serves done f e s r n Hs Hr Es Hno) as Hrm. rewrite Ex in Hrm.
    cbn [proof_index with_header_index]. destruct (ProofStore.ProofStore.remove _ _) as [y [[]|]]; [|done]. by split.
Qed.

(** ** The whole recovery *)

(** Every block of the journal is served, older ones as before, and the ones that stay rolled back are gone from the proof index
    and the header index; the forest is [forest], flushed, and the tip is the last block, whose proof ends the proof file. *)
Record recovered (forest : SteadyStateForest) (s : PersistenceState) : Prop := {
  rc_blocks : forall b, b ∈ bs -> get_by_height (header_index s) (height b.1) = Ok (Some (rp_header b.2)) /\
    (forall r, get_height (header_index s) (block_hash b.1) = Ok r -> r = Some (height b.1)) /\
    exists i, ProofStore.ProofStore.get_index (proof_index s) (block_hash b.1) = Ok (Some i) /\ is_proof_of (proof_file s) b i;
  rc_settled : forall h, settled h -> exists header i, Hs0 h = Some header /\ get_by_height (header_index s) h = Ok (Some header) /\
    ProofStore.ProofStore.get_index (proof_index s) (header_block_hash header) = Ok (Some i) /\
    proof_at (proof_file s) i = proof_at f0 i;
  rc_forest : ps_forest s = forest;
  rc_journal : ps_journal s = ps_journal s0;
  rc_tip : ps_height s = height tip.1 /\ ps_tip_hash s = block_hash tip.1 /\
    ProofStore.ProofStore.load_height (proof_index s) = Ok (height tip.1);
  rc_forgotten : forall r, r ∈ records -> rolled_away r ->
    ProofStore.ProofStore.get_index (proof_index s) (block_hash (jr_entry r)) = Ok None /\
    (exists slot, get_by_height (header_index s) (height (jr_entry r)) = Ok slot /\
      header_block_hash <$> slot <> Some (block_hash (jr_entry r))) /\
    get_height (header_index s) (block_hash (jr_entry r)) <> Ok (Some (height (jr_entry r)));
  rc_flushed : ps_unflushed s0 = [] -> ps_unflushed s = [];
  rc_end : exists i, ProofStore.ProofStore.get_index (proof_index s) (block_hash tip.1) = Ok (Some i) /\
    ProofStore.ProofStore.writer_pos (proof_file s) = index_end i /\ size_of (proof_file s) = index_end i
}.

Lemma latest_tip : exists k r, latest_forward (ps_journal s0) = Some (k, r) /\ jr_entry r = tip.1.
Proof.
  pose proof (latest_block (ps_journal s0)) as Hl. rewrite Erecords in Hl. specialize (Hl (sa_replayable Hstart)).
  destruct (latest_forward _) as [[k r]|].
  - destruct Hl as (b & Eb2 & El). rewrite (sa_tip Hstart) in El. injection El as <-. exists k, r. split; [done|]. unfold published_block in Eb2.
    destruct (jr_status r), (jr_replay r); try done. by injection Eb2 as <-.
  - pose proof (sa_tip Hstart) as Htip. by rewrite Hl in Htip.
Qed.

Lemma serves_recovered f e g s m forest : serves records f e s -> ps_journal s = ps_journal s0 -> ps_forest s = forest ->
  (ps_unflushed s0 = [] -> ps_unflushed s = []) ->
  ProofStore.ProofStore.represents (proof_index s) m h0 ->
  (forall k, ProofStore.ProofStore.index_ok k -> index_end k <= e -> proof_at g k = proof_at f k) ->
  ProofStore.ProofStore.writer_pos g = e -> size_of g = e ->
  forall y, ProofStore.ProofStore.represents y m (height tip.1) ->
  recovered forest (with_tip (with_proof_index (with_proof_file s g) y) (height tip.1) (block_hash tip.1)).
Proof.
  intros Hserves Ej Ef Eu Hm Hg Hw Hsz y Hy. pose proof Hserves as [(Hs & K & m' & Hr & Hm' & Hb & Hl & Hgone) Hf _].
  assert (forall k, m !! k = m' !! k) as Em.
  { intros k. pose proof (ProofStore.ProofStore.re_index _ _ _ Hm k) as E1. rewrite (ProofStore.ProofStore.re_index _ _ _ Hm' k) in E1. congruence. }
  pose proof (HeaderIndex.HeaderIndex.refines_answers _ _ _ Hr) as [Hget Hheight].
  split; cbn [header_index proof_index proof_file ps_forest ps_journal ps_height ps_tip_hash with_tip with_proof_index with_proof_file].
  - intros b Hin. destruct (Hb b Hin) as [[E1 E2] (i & Ei & Hi & [Hp1 Hp2] & Hle & _)]. split_and!.
    + by rewrite (Hget _ (block_height b Hin)), E1.
    + intros r E. pose proof (found_height _ f e s b Hserves Hin) as Hfound. by rewrite E in Hfound.
    + exists i. rewrite (ProofStore.ProofStore.re_index _ _ _ Hy), Em, Ei. split; [done|]. split; [done|]. by rewrite Hg.
  - intros h Hh. destruct (Hl h Hh) as (header & i & E1 & E0 & Ei & Hi & Hc & Hle & Hgp). exists header, i.
    assert (is_u32 h) as Hu. { destruct Hh as [Hh _]. pose proof (sa_bootstrap Hstart). pose proof (block_height tip tip_in). unfold is_uint in *. lia. }
    rewrite (Hget h Hu), E1, (ProofStore.ProofStore.re_index _ _ _ Hy), Em, Ei, Hg by done. done.
  - exact Ef.
  - exact Ej.
  - split_and!; [done|done|]. apply Hy.
  - intros r Hin Haway. destruct (Hgone r Hin Haway) as (G1 & G2 & G3). destruct (sa_rolled_back Hstart r Hin (proj1 Haway)) as [Hu _].
    split_and!.
    + by rewrite (ProofStore.ProofStore.re_index _ _ _ Hy), Em, G1.
    + exists (Hs (height (jr_entry r))). split; [by apply Hget|]. destruct (Hs (height (jr_entry r))) as [hd|] eqn:E; [|done].
      intros [= Eq]. by apply (G2 hd).
    + intros E. apply G3. symmetry. by apply Hheight.
  - exact Eu.
  - destruct (Hb tip tip_in) as [_ (i & Ei & _ & _ & _ & He)]. exists i. rewrite (ProofStore.ProofStore.re_index _ _ _ Hy), Em, Ei, (He eq_refl).
    done.
Qed.

Lemma recover_spec replayed forest :
  replay_journal (ps_forest s0) (needs_replay (ps_journal s0)) (status_entries records) = Ok (replayed, forest) ->
  SteadyState.SteadyState.leaves forest = num_leaves tip.1 ->
  spec (fun s => s = s0) (recover_stores env) (fun _ s => recovered forest s).
Proof.
  intros Hreplay Hleaves. pose proof latest_tip as (kt & rt & Elatest & Et). unfold recover_stores. apply spec_get. intros s1.
  apply (spec_pre _ (fun s => s1 = s0 /\ s = s0)); [by intros s [-> ->]|]. apply spec_pure. intros ->.
  rewrite (ProofStore.ProofStore.re_height _ _ _ (sa_index Hstart)). apply spec_lift; [done|]. intros ? [= <-].
  rewrite (proj2 (try_uint_Some 32 h0 h0)) by (split; [done|apply (sa_height Hstart)]). apply spec_lift; [done|]. intros ? [= <-].
  eapply spec_bind; [apply recoverable_spec|]. intros rh. apply spec_pure. intros ->. apply spec_ex. intros f. apply spec_ex. intros e.
  apply spec_get. intros s1. apply (spec_pre _ (fun s => core s1 = core s0 /\ serves [] f e s /\ core s = core s0)); [by intros s [-> [Hs Hc]]|].
  apply spec_pure. intros [= Ej Ef Eb Eu]. rewrite Ej, Erecords.
  apply (spec_bind _ _ _ (fun replayed' s => replayed' = replayed /\ serves [] f e s /\
    core s = (ps_journal s0, forest, bootstrap_height s0, ps_unflushed s0 ++ (if needs_replay (ps_journal s0) then jr_entry <$> records else [])))).
  { intros s [Hs [= Ej2 Ef2 Eb2 Eu2]]. unfold ends, on_forest. rewrite Ef2, Hreplay. cbn. split; [done|]. split; [|unfold core; cbn; congruence].
    destruct Hs as [Hst Hfile Hw]. by split. }
  intros ?. apply spec_pure. intros ->.
  apply (spec_bind _ _ _ (fun _ s => exists u, (ps_unflushed s0 = [] -> u = []) /\ serves [] f e s /\
    core s = (ps_journal s0, forest, bootstrap_height s0, u))).
  { intros s [Hs Hc]. unfold ends. destruct (replayed && negb (bool_decide (records = []))) eqn:Esync.
    - destruct (sync_forest (replay_sync_io env) s) as [s' r] eqn:Er. cbn [fst snd]. destruct r as [[]|err].
      + assert (s' = with_unflushed s []) as -> by (unfold sync_forest in Er; destruct (replay_sync_io env 0%nat), (replay_sync_io env 1%nat); by injection Er as <-).
        exists []. split; [done|]. split; [destruct Hs; by split|]. injection Hc as E1 E2 E3 _. unfold core. cbn. by rewrite E1, E2, E3.
      + intros q. unfold sync_forest in Er. by rewrite !(qu_replay q) in Er.
    - cbn [fst snd mret sr_ret]. eexists. split; [|split; [exact Hs|exact Hc]]. intros ->. cbn.
      destruct (needs_replay (ps_journal s0)); [|done].
      assert (replayed = true) as ->.
      { unfold replay_journal in Hreplay. cbn [negb] in Hreplay. apply bind_ok in Hreplay as (x1 & _ & E2). apply bind_ok in E2 as (x2 & _ & E3). congruence. }
      cbn in Esync. apply negb_false_iff, bool_decide_eq_true in Esync as ->. done. }
  intros ?. apply spec_ex. intros u. apply spec_pure. intros Hclean.
  set (c := (ps_journal s0, forest, bootstrap_height s0, u)).
  apply (spec_bind _ _ _ (fun _ s => serves records f e s /\ core s = c)); [by apply (restore_spec f e c records ltac:(done) [])|]. intros [].
  apply (spec_bind _ _ _ (fun _ s => serves records f e s /\ core s = c)).
  { apply spec_if; intros _; [by apply spec_ret|]. apply spec_on_header. intros s [Hs Hc].
    pose proof Hs as [(Hh & K & m & Hr & _) _ _].
    destruct (sync_headers (restored_sync_io env) (header_index s)) as [x [[]|]] eqn:Esync.
    - split; [|done]. apply serves_headers; [done|]. intros Hh' K' Hr'.
      pose proof (sync_headers_ends _ Hh' K' Hr' (restored_sync_io env) (fun q => qu_restored q)) as Hend. by rewrite Esync in Hend.
    - pose proof (sync_headers_ends _ Hh K Hr (restored_sync_io env) (fun q => qu_restored q)) as Hend. by rewrite Esync in Hend. }
  intros []. apply spec_get. intros s2. apply (spec_pre _ (fun s => (serves records f e s2 /\ core s2 = c) /\ s = s2)); [by intros s [-> ?]|].
  apply spec_pure. intros [Hs2 [= Ej2 Ef2 Eb2 Eu2]].
  assert (journal_tip env s2 (height tip.1) = Ok (height tip.1, block_hash tip.1, num_leaves tip.1)) as ->.
  { unfold journal_tip. rewrite Ej2, Elatest. by rewrite Et. }
  apply spec_lift; [done|]. intros ? [= <-]. rewrite Z.eqb_refl, Ef2, Hleaves, Z.eqb_refl, Eb2, Ebootstrap.
  apply spec_lift; [done|]. intros [] _. apply spec_lift; [done|]. intros [] _.
  rewrite (proj2 (Z.ltb_lt _ _)) by apply (sa_heights Hstart tip tip_in).
  pose proof Hs2 as [(Hh & K & m & Hr & Hm & Hb & Hl & _) Hf Hw]. destruct (Hb tip tip_in) as [_ (i & Ei & Hi & [Hp1 Hp2] & _ & He)].
  specialize (He eq_refl). rewrite (ProofStore.ProofStore.re_index _ _ _ Hm), Ei, Hf.
  apply (spec_bind _ _ _ (fun index s => index = Some i /\ s = s2)).
  { apply spec_lift; [done|]. intros ? [= <-]. apply spec_lift; [done|]. intros ? [= <-]. rewrite bool_decide_eq_true_2 by (by exists (rp_proof tip.2)).
    apply spec_lift; [done|]. intros [] _. by apply spec_ret. }
  intros index. apply spec_pure. intros ->.
  pose proof (ProofCalls.truncate_ends (truncate_io env) i f Hi (ProofCalls.get_contains _ _ _ Hp2) Hw) as Htr.
  apply (spec_bind _ _ _ (fun _ s => exists g, s = with_proof_file s2 g /\ size_of g = e /\ ProofStore.ProofStore.writer_pos g = e /\
    forall k, ProofStore.ProofStore.index_ok k -> index_end k <= e -> proof_at g k = proof_at f k)).
  { apply spec_on_proof_file. intros s ->. rewrite Hf. destruct (ProofStore.ProofStore.truncate_after _ _ _) as [g [[]|]].
    - exists g. rewrite He in Htr. destruct Htr as (T1 & T2 & T3). split_and!; [done|done|done|]. intros k Hk Hle. by apply T3.
    - intros q. destruct Htr as [n Hn]. by rewrite (qu_truncate q) in Hn. }
  intros []. apply spec_ex. intros g.
  apply (spec_bind _ _ _ (fun _ s => exists y, s = with_proof_index (with_proof_file s2 g) y /\
    ProofStore.ProofStore.represents y m (height tip.1) /\ (size_of g = e /\ ProofStore.ProofStore.writer_pos g = e /\
    forall k, ProofStore.ProofStore.index_ok k -> index_end k <= e -> proof_at g k = proof_at f k))).
  { apply spec_on_proof_index. intros s (-> & Hg). cbn [proof_index with_proof_file].
    assert (is_u64 (height tip.1)) as Hu by (pose proof (block_height tip tip_in); unfold is_uint in *; lia).
    pose proof (ProofCalls.height_ends (height tip.1) (proof_index s2) m h0 Hm Hu) as Hend.
    destruct (ProofStore.ProofStore.update_height _ _) as [y [[]|]]; [by exists y|]. intros q. by apply Hend, q. }
  intros [] s (y & -> & Hy & Hsz & Hwg & Hg). unfold ends. cbn [fst snd modify].
  apply (serves_recovered f e g s2 m forest); try done. by rewrite Eu2.
Qed.
End Recovered.

(** C5: Starting recovers everything the published journal holds.  Given the opened stores, in any state of repair as far
    as the journal's blocks go (headers, index entries or proofs of any of them missing or stale, the forest torn by a
    crash in the middle of applying the last window), and complete for the older blocks, the recovery thread ends with
    every block of the journal served again (its header by height, its height by hash, its proof by hash), every block
    that stays rolled back forgotten (no proof under its hash, no header with its hash at its height, its hash not found
    at its height), older blocks served as before, the forest after all blocks with nothing of it unflushed, the tip at
    the last block, and the proof file cut right after the tip's proof; the only way for it to fail is that a call on one of the stores fails. *)
Theorem startup_recovers (U : OutPoint -> Prop) (Hinj : forall o o', U o -> U o' -> leaf_map_key o = leaf_map_key o' -> o = o')
    (rows : Z) (a0 d : AbsForest) (s0 : PersistenceState) (tip : Block) (h rest : list JournalEntryData)
    (Hstart : startable (published_records (ps_journal s0)) (bootstrap_height s0) tip s0)
    (Hforest : refines U (ps_forest s0) d) (Hrows : ss_rows (ps_forest s0) = rows)
    (Hcovers : if needs_replay (ps_journal s0) then covers U rows a0 d (status_entries (published_records (ps_journal s0))) h rest
               else d ≡ after_blocks rows a0 (h ++ rest))
    (Hlast : last (h ++ rest) = Some tip.1) :
  match recover_stores env s0 with
  | (s, Ok _) => exists forest, refines U forest (after_blocks rows a0 (h ++ rest)) /\
                   recovered (published_records (ps_journal s0)) (bootstrap_height s0) tip s0 forest s
  | (_, Err _) => ~ quiet
  end.
Proof.
  assert (exists replayed forest, replay_journal (ps_forest s0) (needs_replay (ps_journal s0))
      (status_entries (published_records (ps_journal s0))) = Ok (replayed, forest) /\
    refines U forest (after_blocks rows a0 (h ++ rest))) as (replayed & forest & Ereplay & Href).
  { destruct (needs_replay (ps_journal s0)) eqn:En.
    - destruct (covers_recovers U Hinj rows a0 (ps_forest s0) d _ h rest Hforest Hrows Hcovers) as (f' & E & _ & Hr). by exists true, f'.
    - exists false, (ps_forest s0). split; [done|]. by rewrite <- Hcovers. }
  assert (SteadyState.SteadyState.leaves forest = num_leaves tip.1) as Hleaves.
  { rewrite (rf_leaves _ _ _ Href). apply last_Some in Hlast as [l ->]. unfold after_blocks, apply_all. by rewrite foldl_snoc. }
  pose proof (recover_spec _ _ tip s0 Hstart eq_refl eq_refl replayed forest Ereplay Hleaves s0 eq_refl) as Hs.
  unfold ends in Hs. destruct (recover_stores env s0) as [s [u|e]]; [by exists forest|done].
Qed.

End Startup.
(** ** A concrete start *)

(** A database that is a map and never fails. *)
Definition map_heights : HeightsDb :=
  {| HDb := gmap bytes bytes; HeightsFile := gmap bytes bytes; hdb_get := fun d k => Ok (d !! k);
     hdb_put := fun d k v => (<[k := v]> d, PutDone); hdb_put_batch := fun d l => (write_all d l, Ok tt);
     hdb_delete := fun d k => (delete k d, Ok tt); hdb_close := fun d => (d, Ok tt);
     ensure_runtime_body_headroom := fun d _ => (d, Ok true); open_runtime := fun d => Ok d |}.

Definition map_heights_laws : @HeightsLaws map_heights.
Proof.
  refine (@Build_HeightsLaws map_heights (fun d => d) (fun d => d) _ _ _ _ _ _ _ _); cbn.
  - by intros d k v [= <-].
  - by intros d k v d' [= <-].
  - by intros d k v d' r [= <- <-].
  - by intros d l d' [= <-] _ _.
  - by intros d k d' [= <-].
  - by intros d f [= <-].
  - by intros f n f' r [= <- _].
  - by intros f d [= <-].
Defined.

Section Demo.
#[local] Existing Instances Accumulator.Accumulator.toy_hashing toy_sha256 toy_db toy_db_laws toy_bitcoin proof_ok_dec ProofStore.ProofStore.map_kv
  ProofStore.ProofStore.map_kv_laws map_heights map_heights_laws HeaderIndex.HeaderIndex.raw_headers HeaderIndex.HeaderIndex.raw_headers_laws.

#[local] Instance raw_header_eq_dec : EqDecision Header.
Proof. intros x y. destruct (decide (`x = `y)) as [E|E]; [left; by apply dsig_eq|right; congruence]. Defined.
#[local] Instance compact_proof_eq_dec : EqDecision CompactBlockProof.
Proof.
  assert (EqDecision ScriptPubkeyType) by solve_decision. assert (EqDecision CompactLeafData) by solve_decision.
  assert (EqDecision BatchProof) by solve_decision. solve_decision.
Defined.

Abbreviation header_7 := (HeaderIndex.HeaderIndex.header_of 7).

(** One block in the journal, none of it in the stores, and the forest torn while the block was applied. *)
Definition demo_record : JournalRecord :=
  {| jr_entry := append_entry 7; jr_status := Forward;
     jr_replay := Some {| rp_header := header_7; rp_proof := sample_proof; JournalFile.JournalFile.proof_forest_rows := 2 |};
     jr_offset := 100; jr_span := 50; jr_checksum := [] |}.
Definition demo_marker : PublicationMarker :=
  {| boundary := record_boundary demo_record [] 0; generation := 1; replay_start := 0 |}.
Definition demo_journal : Journal :=
  {| file := synced []; marker_file := synced []; page_size := 4096; journal_id := []; records := [demo_record];
     marker := demo_marker; appended_end := 150; published_end := 150; epoch := 0; poisoned := false; needs_replay := true |}.
Definition demo_start : PersistenceState := {|
  ps_forest := torn_forest; ps_unflushed := []; ps_journal := demo_journal; proof_file := ProofStore.ProofStore.new [];
  proof_index := {| ProofStore.ProofStore.index_bucket := (∅ : gmap bytes bytes); ProofStore.ProofStore.meta_bucket := (∅ : gmap bytes bytes) |};
  header_index := {| HeaderIndex.HeaderIndex.headers := synced (zeros 80); HeaderIndex.HeaderIndex.heights := Some (∅ : gmap bytes bytes) |};
  notifications := []; ps_height := 0; ps_tip_hash := []; bootstrap_height := 6 |}.
Definition demo_env : StartEnv := {|
  repair_io := fun _ _ => true; proof_sync_io := fun _ => true; header_sync_io := fun _ => true; mark_io := fun _ _ => true;
  replay_sync_io := fun _ => true; restore_io := fun _ _ => true; restored_sync_io := fun _ => true; truncate_io := fun _ => true; torn_replay := torn_forest;
  rpc_get_block_header := fun _ => Err "offline"; rpc_get_block_hash := fun _ => Err "offline" |}.

Lemma demo_quiet : quiet demo_env.
Proof. split; done. Qed.

Definition demo_tip : Block :=
  (append_entry 7, {| rp_header := header_7; rp_proof := sample_proof; JournalFile.JournalFile.proof_forest_rows := 2 |}).

Lemma demo_startable : startable (fun _ => None) ∅ ∅ 0 [demo_record] 6 demo_tip demo_start.
Proof.
  assert (forall h, settled [demo_record] 6 demo_tip h -> False) as Hno.
  { intros h [Hh Hn]. apply (Hn demo_tip); [by left|]. cbn in *. lia. }
  split.
  - constructor; [by eexists|constructor].
  - constructor; [|constructor]. split; [reflexivity|split; [by_decide|done]|by_decide|by_decide|cbn; lia].
  - split; apply NoDup_singleton.
  - reflexivity.
  - intros b ->%list_elem_of_singleton. cbn. lia.
  - by_decide.
  - split; [|exists (∅ : gmap bytes bytes); split; [done|by rewrite fmap_empty]|apply map_Forall_empty].
    apply (HeaderIndex.HeaderIndex.rf_headers _ _ _ HeaderIndex.HeaderIndex.demo_headers_refines).
  - done.
  - apply map_Forall_empty.
  - by_decide.
  - done.
  - vm_compute. done.
  - intros h Hh. by destruct (Hno h).
  - intros hash i j _ E. done.
  - intros r ->%list_elem_of_singleton. done.
Qed.

Lemma demo_covers : covers sample_set 2 live_abs
  {| ab_node := node_state (ss_forest torn_forest); ab_index := ab_index live_abs; ab_leaves := 2 |}
  [(Forward, append_entry 7)] [] [append_entry 7].
Proof.
  exists live_abs, []. split; [done|]. split; [by apply (hi_append _ _ _ []); [constructor|apply append_window|apply append_planned]|].
  split; [done|]. split; [|done].
  split; [|done]. intros p Hp. unfold after_blocks, apply_all. cbn [ab_node live_abs foldl]. unfold node_state, torn_forest, ss_forest.
  rewrite node_at_put, decide_False; [done|]. intros <-. apply Hp. exists (Forward, append_entry 7). split; [by left|]. unfold touches.
  replace ((placed 2 (append_entry 7) (forest_writes (append_entry 7))).*1) with [1] by reflexivity. by left.
Qed.

Lemma startup_recovers_witness : exists s, recover_stores demo_env demo_start = (s, Ok tt) /\ ps_height s = 7 /\
  HeaderIndex.HeaderIndex.get_by_height (header_index s) 7 = Ok (Some header_7).
Proof.
  pose proof (startup_recovers demo_env (fun _ => None) ∅ ∅ 0 sample_set sample_set_inj 2 live_abs _ demo_start demo_tip [] [append_entry 7]
    demo_startable torn_refines eq_refl demo_covers eq_refl) as Hs.
  destruct (recover_stores demo_env demo_start) as [s [[]|e]]; [|by destruct (Hs demo_quiet)].
  destruct Hs as (forest & _ & [Hb _ _ _ (Ht & _) _]). exists s. split; [done|]. split; [exact Ht|].
  apply (Hb demo_tip). by left.
Defined.
End Demo.
End StartupProofs.
