(* ===== verification/KernelBlocks.v ===== *)
(** Blocks as [libbitcoinkernel] hands them out, and the leaves that both readers of
    such blocks take from them: [visit_kernel_leaf_outputs] of
    [src/src/parallel_forest.rs] and [apply_block] of [src/src/bin/bridge-hints.rs]
    share the rules below (unspendable scripts, outputs that their own block spends,
    the two outputs that BIP30 lost). *)

From S2P Require Import Prelude Bytes JournalEntry SteadyState Udata BlockScan.
Import JournalEntry.JournalEntry SteadyState.SteadyState Udata.Udata BlockScan.BlockScan.

(** Code in any monad that can fail with a message. *)
Class MThrow (M : Type -> Type) := mthrow : forall A, string -> M A.
Arguments mthrow {M _ A} _.
#[export] Instance result_throw : MThrow result := fun A e => Err e.

(** [r?] in such a monad, and a loop whose body may fail. *)
Definition of_result {M} `{MRet M, MThrow M} {A} (r : result A) : M A :=
  match r with Ok a => mret a | Err e => mthrow e end.
Fixpoint loopM {M} `{MRet M, MBind M} {A S} (f : S -> A -> M S) (l : list A) (s : S) : M S :=
  match l with
  | [] => mret s
  | a :: l => s' ← f s a; loopM f l s'
  end.

(** [bitcoinkernel]'s blocks, transactions and outputs (the value is an [i64]). *)
Record KTxOut := { ko_value : Z; ko_script : bytes }.

Class KernelData := {
  KernelBlock : Type;
  KernelTx : Type;
  kb_hash : KernelBlock -> bytes;
  kb_transactions : KernelBlock -> list KernelTx;
  (** [block.header().consensus_encode()] and [block.header().hash()] *)
  kb_header : KernelBlock -> result bytes;
  kt_txid : KernelTx -> bytes;
  kt_inputs : KernelTx -> list OutPoint;
  kt_outputs : KernelTx -> list KTxOut;
  (** [TxOutPoint::is_null] *)
  outpoint_is_null : OutPoint -> bool
}.

(** [ChainstateManager]: the active chain and the blocks it reads from disk. *)
Class KernelChainstate `{KernelData} := {
  Chainstate : Type;
  BlockTreeEntry : Type;
  at_height : Chainstate -> Z -> option BlockTreeEntry;
  read_block_data : Chainstate -> BlockTreeEntry -> result KernelBlock
}.

Module KernelBlocks.

(** ** The two outputs that a later coinbase overwrote *)

Definition hex_digit (c : Ascii.ascii) : Z :=
  let n := Z.of_N (Ascii.N_of_ascii c) in if n <=? 57 then n - 48 else n - 87.
Fixpoint hex_bytes (s : string) : bytes :=
  match s with
  | String a (String b s) => 16 * hex_digit a + hex_digit b :: hex_bytes s
  | _ => []
  end.
(** [Txid::from_str(..).to_byte_array()]: the text shows the bytes in reverse. *)
Definition txid_of_hex (s : string) : bytes := reverse (hex_bytes s).

Definition BIP30_FIRST_TXID_91722 : string :=
  "e3bf3d07d4b0375638d5f1db5255fe07ba2c4cb067cd81b84ee974b6585fb468".
Definition BIP30_FIRST_TXID_91812 : string :=
  "d5d27987d2a3dfc724e359870c6644b40e497bdc0589a033220fe15429d88599".

Definition bip30_excluded_outpoint (height : Z) : option OutPoint :=
  if height =? 91722 then Some {| txid := txid_of_hex BIP30_FIRST_TXID_91722; vout := 0 |}
  else if height =? 91812 then Some {| txid := txid_of_hex BIP30_FIRST_TXID_91812; vout := 0 |}
  else None.

(** ** Outputs that the block itself spends *)

Section Kernel.
Context `{KernelData}.

Definition create_output (msg : string) (tx : KernelTx) (created : gset OutPoint) (vout : nat) : result (gset OutPoint) :=
  vout ← ok_or msg (try_uint 32 (Z.of_nat vout));
  Ok ({[ {| txid := kt_txid tx; vout := vout |} ]} ∪ created).

Definition scan_kernel_tx (msg : string) (s : gset OutPoint * gset OutPoint) (tx : KernelTx)
  : result (gset OutPoint * gset OutPoint) :=
  let '(created, spent) := s in
  let spent := scan_inputs created spent (kt_inputs tx) in
  created ← foldM (create_output msg tx) (seq 0 (length (kt_outputs tx))) created;
  Ok (created, spent).

(** The loop that both files have; [msg] is the message of each. *)
Definition block_spends (msg : string) (block : KernelBlock) : result (gset OutPoint) :=
  '(_, spent) ← foldM (scan_kernel_tx msg) (kb_transactions block) (∅, ∅);
  Ok spent.

Definition kernel_same_block_spends (block : KernelBlock) : result (gset OutPoint) :=
  block_spends "transaction output index overflow" block.
Definition hints_same_block_spends (block : KernelBlock) : result (gset OutPoint) :=
  block_spends "transaction output index exceeds u32::MAX" block.

(** ** Visiting the leaves of a block *)

Record LeafOutput := {
  lo_block_hash : bytes;
  lo_txid : bytes;
  lo_vout : Z;
  lo_is_coinbase : bool;
  force_unindexed : bool;
  lo_value : Z;
  lo_script_pubkey : bytes
}.

Definition kernel_is_coinbase (tx : KernelTx) : bool :=
  match kt_inputs tx with [input] => outpoint_is_null input | _ => false end.

(** The visitor may do anything that [M] can, and may fail. *)
Section Visit.
Context {M} `{MRet M, MBind M, MThrow M} {S : Type} (visitor : S -> LeafOutput -> M S).

Definition visit_output (block_hash : bytes) (bip30_exclusion : option OutPoint) (spent_in_block : gset OutPoint)
    (tx : KernelTx) (s : S * Z) (o : nat * KTxOut) : M (S * Z) :=
  vout ← of_result (ok_or "transaction output index overflow" (try_uint 32 (Z.of_nat o.1)));
  let outpoint := {| txid := kt_txid tx; vout := vout |} in
  if is_unspendable (ko_script o.2) || bool_decide (outpoint ∈ spent_in_block) then mret s
  else
    value ← of_result (ok_or "transaction output value is negative" (try_uint 64 (ko_value o.2)));
    s' ← visitor s.1 {|
      lo_block_hash := block_hash; lo_txid := kt_txid tx; lo_vout := vout; lo_is_coinbase := kernel_is_coinbase tx;
      force_unindexed := bool_decide (bip30_exclusion = Some outpoint); lo_value := value;
      lo_script_pubkey := ko_script o.2 |};
    count ← of_result (ok_or "block leaf count overflow" (checked_add 64 s.2 1));
    mret (s', count).

Definition visit_kernel_leaf_outputs (height : Z) (block : KernelBlock) (s : S) : M (S * Z) :=
  spent_in_block ← of_result (kernel_same_block_spends block);
  let bip30_exclusion := bip30_excluded_outpoint height in
  loopM (fun s tx => loopM (visit_output (kb_hash block) bip30_exclusion spent_in_block tx) (enumerate (kt_outputs tx)) s)
    (kb_transactions block) (s, 0).
End Visit.

(** ** The leaves as a list *)

Definition indices_fit (block : KernelBlock) : Prop :=
  Forall (fun tx => zlength (kt_outputs tx) <= 2 ^ 32) (kb_transactions block).
#[export] Instance indices_fit_dec block : Decision (indices_fit block).
Proof. unfold indices_fit. apply _. Defined.

Definition tx_outpoints (tx : KernelTx) : list OutPoint :=
  (fun vout => {| txid := kt_txid tx; vout := Z.of_nat vout |}) <$> seq 0 (length (kt_outputs tx)).

(** What one transaction after the other creates, and spends of that. *)
Definition pure_scan (s : gset OutPoint * gset OutPoint) (tx : KernelTx) : gset OutPoint * gset OutPoint :=
  (s.1 ∪ list_to_set (tx_outpoints tx), scan_inputs s.1 s.2 (kt_inputs tx)).
Definition spent_within (block : KernelBlock) : gset OutPoint := (foldl pure_scan (∅, ∅) (kb_transactions block)).2.

(** The outputs of a block that become leaves, in order. *)
Definition eligible_tx (spent : gset OutPoint) (tx : KernelTx) : list (KernelTx * OutPoint * KTxOut) :=
  filter (fun x => is_unspendable (ko_script x.2) = false /\ x.1.2 ∉ spent)
    ((fun o => (tx, {| txid := kt_txid tx; vout := Z.of_nat o.1 |}, o.2)) <$> enumerate (kt_outputs tx)).
Definition eligible (block : KernelBlock) : list (KernelTx * OutPoint * KTxOut) :=
  concat (eligible_tx (spent_within block) <$> kb_transactions block).
Definition eligible_outpoints (block : KernelBlock) : list OutPoint := (fun x => x.1.2) <$> eligible block.

Definition leaf_output (height : Z) (block : KernelBlock) (x : KernelTx * OutPoint * KTxOut) : LeafOutput := {|
  lo_block_hash := kb_hash block; lo_txid := txid x.1.2; lo_vout := vout x.1.2;
  lo_is_coinbase := kernel_is_coinbase x.1.1;
  force_unindexed := bool_decide (bip30_excluded_outpoint height = Some x.1.2);
  lo_value := ko_value x.2; lo_script_pubkey := ko_script x.2 |}.

Definition values_fit (block : KernelBlock) : Prop := Forall (fun x => is_u64 (ko_value x.2)) (eligible block).
#[export] Instance values_fit_dec block : Decision (values_fit block).
Proof. unfold values_fit. apply _. Defined.

(** ** The scan for outputs that the block spends *)

Lemma try_index_fits n : Z.of_nat n < 2 ^ 32 -> try_uint 32 (Z.of_nat n) = Some (Z.of_nat n).
Proof. intros. apply try_uint_Some. split; [done|]. unfold is_uint. lia. Qed.
Lemma try_index_beyond n : 2 ^ 32 <= Z.of_nat n -> try_uint 32 (Z.of_nat n) = None.
Proof. intros. unfold try_uint. rewrite decide_False; [done|]. unfold is_uint. lia. Qed.

Lemma create_outputs_eq msg tx n created :
  foldM (create_output msg tx) (seq 0 n) created =
    if decide (Z.of_nat n <= 2 ^ 32)
    then Ok (created ∪ list_to_set ((fun vout => {| txid := kt_txid tx; vout := Z.of_nat vout |}) <$> seq 0 n))
    else Err msg.
Proof.
  induction n as [|n IH]; [cbn; f_equal; set_solver|].
  rewrite seq_S, foldM_snoc, IH. cbn [Nat.add]. destruct (decide (Z.of_nat n <= 2 ^ 32)); cbn [mbind result_bind].
  - unfold create_output. destruct (decide (Z.of_nat (S n) <= 2 ^ 32)).
    + rewrite try_index_fits by lia. step_ok. f_equal. rewrite fmap_app, list_to_set_app_L. cbn. set_solver.
    + by rewrite try_index_beyond by lia.
  - by rewrite decide_False by lia.
Qed.

Lemma scan_kernel_tx_eq msg s tx : scan_kernel_tx msg s tx =
  if decide (zlength (kt_outputs tx) <= 2 ^ 32) then Ok (pure_scan s tx) else Err msg.
Proof. unfold scan_kernel_tx. destruct s as [created spent]. rewrite create_outputs_eq. unfold zlength. by case_decide. Qed.

Lemma scan_kernel_txs msg txs s :
  foldM (scan_kernel_tx msg) txs s =
    if decide (Forall (fun tx => zlength (kt_outputs tx) <= 2 ^ 32) txs) then Ok (foldl pure_scan s txs) else Err msg.
Proof.
  revert s; induction txs as [|tx txs IH]; intros s; cbn [foldM].
  { by rewrite decide_True by constructor. }
  rewrite scan_kernel_tx_eq. destruct (decide (zlength (kt_outputs tx) <= 2 ^ 32)); cbn [mbind result_bind].
  - rewrite IH. apply decide_ext. rewrite Forall_cons. tauto.
  - rewrite decide_False; [done|]. by intros [? _]%Forall_cons.
Qed.

(** Both scans find what the block spends of its own outputs, unless a transaction
    has too many of them. *)
Lemma block_spends_eq msg block :
  block_spends msg block = if decide (indices_fit block) then Ok (spent_within block) else Err msg.
Proof.
  unfold block_spends, spent_within. rewrite scan_kernel_txs. destruct (decide (indices_fit block)) as [Hf|Hf].
  - rewrite decide_True by exact Hf. step_ok. by destruct (foldl _ _ _).
  - by rewrite decide_False by exact Hf.
Qed.

(** ** Loops over the leaves *)

Lemma elem_of_eligible block x :
  x ∈ eligible block -> exists tx, tx ∈ kb_transactions block /\ x ∈ eligible_tx (spent_within block) tx.
Proof. by intros (tx & ? & ?)%elem_of_concat_fmap; exists tx. Qed.

Lemma eligible_txid x block : x ∈ eligible block -> txid x.1.2 = kt_txid x.1.1.
Proof. intros (tx & _ & [_ (o & -> & _)%list_elem_of_fmap]%list_elem_of_filter)%elem_of_eligible. done. Qed.

Lemma elem_of_enumerate {A} (l : list A) o : o ∈ enumerate l -> (o.1 < length l)%nat /\ l !! o.1 = Some o.2.
Proof.
  destruct o as [i a]. unfold enumerate. intros (k & (j & a' & E & Hj & Ha)%lookup_zip_with_Some)%list_elem_of_lookup.
  injection E as <- <-. apply lookup_seq in Hj as [-> Hj]. by split.
Qed.

Lemma output_index_fits block tx o : indices_fit block -> tx ∈ kb_transactions block -> o ∈ enumerate (kt_outputs tx) ->
  try_uint 32 (Z.of_nat o.1) = Some (Z.of_nat o.1).
Proof.
  intros Hf Ht [Ho _]%elem_of_enumerate. unfold indices_fit in Hf. rewrite Forall_forall in Hf.
  specialize (Hf tx Ht). unfold zlength in Hf. apply try_index_fits. lia.
Qed.

End Kernel.

Section Loops.
Context {A S : Type}.

Lemma foldM_filter (P : A -> Prop) `{!forall a, Decision (P a)} (f g : S -> A -> result S) l s :
  (forall s a, a ∈ l -> f s a = if decide (P a) then g s a else Ok s) -> foldM f l s = foldM g (filter P l) s.
Proof.
  revert s; induction l as [|a l IH]; intros s Hf; [done|]. cbn [foldM]. rewrite Hf by (by left).
  rewrite filter_cons. destruct (decide (P a)); cbn [foldM].
  - destruct (g s a); cbn; [|done]. apply IH. intros. apply Hf. by right.
  - cbn. apply IH. intros. apply Hf. by right.
Qed.

Lemma foldM_concat {B} (f : S -> A -> result S) (g : B -> list A) l s :
  foldM (fun s b => foldM f (g b) s) l s = foldM f (concat (g <$> l)) s.
Proof.
  revert s; induction l as [|b l IH]; intros s; [done|]. cbn. rewrite foldM_app.
  destruct (foldM f (g b) s); cbn; [apply IH|done].
Qed.
End Loops.

(** [windows(2).all(|pair| pair[0] < pair[1])] *)
Fixpoint increasing (l : list Z) : bool :=
  match l with
  | a :: (b :: _) as l => (a <? b) && increasing l
  | _ => true
  end.

Lemma increasing_spec l : increasing l = true <-> StronglySorted Z.lt l.
Proof.
  split.
  - intros Hi. apply Sorted_StronglySorted; [intros ???; lia|]. induction l as [|a l IH]; [constructor|].
    destruct l as [|b l]; [by repeat constructor|]. cbn in Hi. apply andb_true_iff in Hi as [Hab Hi].
    constructor; [by apply IH|]. constructor. lia.
  - induction 1 as [|a l Hl IH Ha]; [done|]. destruct l as [|b l]; [done|]. cbn. apply andb_true_iff. split; [|done].
    apply Forall_cons in Ha as [? _]. lia.
Qed.
End KernelBlocks.
