(* ===== verification/HintScan.v ===== *)
(** The scan of [src/src/bin/bridge-hints.rs]: it runs through the blocks of the
    kernel's active chain with a map of the unspent outputs, and keeps, per height,
    the number of leaves and the indices of those that are unspent at the end. *)

From S2P Require Import Prelude Bytes Sorting JournalEntry SteadyState Udata BlockScan KernelBlocks.
Import Sorting.Sorting JournalEntry.JournalEntry SteadyState.SteadyState Udata.Udata BlockScan.BlockScan KernelBlocks.KernelBlocks.

Module HintScan.

Record LeafPosition := { lp_height : Z; lp_index : Z }.

#[export] Instance LeafPosition_eq_dec : EqDecision LeafPosition.
Proof. solve_decision. Defined.

Abbreviation UtxoMap := (gmap OutPoint LeafPosition).

(** ** One block *)

Section Scan.
Context `{KernelData}.

Definition spend_input (same_block_spends : gset OutPoint) (utxos : UtxoMap) (previous_output : OutPoint) : result UtxoMap :=
  if outpoint_is_null previous_output then Ok utxos
  else if decide (previous_output ∈ same_block_spends) then Ok utxos
  else match utxos !! previous_output with
       | Some _ => Ok (delete previous_output utxos)
       | None => Err "input does not reference an indexed UTXO"
       end.

Definition index_output (height : Z) (bip30_exclusion : option OutPoint) (same_block_spends : gset OutPoint) (tx : KernelTx)
    (s : UtxoMap * Z) (o : nat * KTxOut) : result (UtxoMap * Z) :=
  let '(utxos, eligible_outputs) := s in
  vout ← ok_or "transaction output index exceeds u32::MAX" (try_uint 32 (Z.of_nat o.1));
  let outpoint := {| txid := kt_txid tx; vout := vout |} in
  if is_unspendable (ko_script o.2) || bool_decide (outpoint ∈ same_block_spends) then Ok s
  else
    let position := {| lp_height := height; lp_index := eligible_outputs |} in
    eligible_outputs ← ok_or "one block contains more than u32::MAX eligible outputs" (checked_add 32 eligible_outputs 1);
    if decide (bip30_exclusion = Some outpoint) then Ok (utxos, eligible_outputs)
    else
      require (bool_decide (utxos !! outpoint = None)) "duplicate unspent outpoint";;
      Ok (<[outpoint := position]> utxos, eligible_outputs).

Definition apply_block (height : Z) (block : KernelBlock) (utxos : UtxoMap) : result (UtxoMap * Z) :=
  same_block_spends ← hints_same_block_spends block;
  utxos ← foldM (fun utxos tx => foldM (spend_input same_block_spends) (kt_inputs tx) utxos) (kb_transactions block) utxos;
  let bip30_exclusion := bip30_excluded_outpoint height in
  foldM (fun s tx => foldM (index_output height bip30_exclusion same_block_spends tx) (enumerate (kt_outputs tx)) s)
    (kb_transactions block) (utxos, 0).

(** ** The chain *)

Context `{!KernelChainstate}.

Record KernelChain := { manager : Chainstate; tip_height : Z }.

Definition block_at_height (kernel : KernelChain) (height : Z) : result KernelBlock :=
  entry ← ok_or "kernel active chain has no block at this height" (at_height (manager kernel) height);
  read_block_data (manager kernel) entry.

Definition scan_height (kernel : KernelChain) (s : UtxoMap * list Z) (height : Z) : result (UtxoMap * list Z) :=
  let '(utxos, leaf_counts) := s in
  block ← block_at_height kernel height;
  '(utxos, eligible_outputs) ← apply_block height block utxos;
  Ok (utxos, <[Z.to_nat height := eligible_outputs]> leaf_counts).

(** ** The indices *)

Definition collect_position (indices : list (list Z)) (position : LeafPosition) : result (list (list Z)) :=
  at_height ← ok_or "leaf height exceeds stop height" (indices !! Z.to_nat (lp_height position));
  Ok (<[Z.to_nat (lp_height position) := at_height ++ [lp_index position]]> indices).

Definition sort_indices (at_height : list Z) : result (list Z) :=
  let at_height := sort_Z at_height in
  require (increasing at_height) "duplicate leaf index while collecting hints";;
  Ok at_height.

(** [positions]: the values of the map, in the order in which it gives them. *)
Definition collect_unspent_indices (stop_height : Z) (positions : list LeafPosition) : result (list (list Z)) :=
  indices ← foldM collect_position positions (replicate (Z.to_nat stop_height + 1) []);
  match indices with
  | [] => Ok []
  | at_zero :: indices => indices ← mapM sort_indices indices; Ok (at_zero :: indices)
  end.

(** [main], up to the writing of the file; [into_values] is the order in which the hash
    map gives its values. *)
Definition scan_chain (kernel : KernelChain) (requested : option Z) (into_values : UtxoMap -> list LeafPosition)
  : result (Z * list Z * list (list Z)) :=
  let stop_height := default (tip_height kernel) requested in
  require (negb (stop_height =? 0)) "stop height must be greater than zero";;
  require (negb (tip_height kernel <? stop_height)) "requested stop height is above Core tip";;
  ok_or "kernel active chain has no block at this height" (at_height (manager kernel) stop_height);;
  '(utxos, leaf_counts) ←
    foldM (scan_height kernel) (zrange 1 (stop_height + 1)) (∅, replicate (Z.to_nat stop_height + 1) 0);
  indices ← collect_unspent_indices stop_height (into_values utxos);
  Ok (stop_height, leaf_counts, indices).

(** ** What a block does to the unspent outputs *)

(** The inputs that spend outputs of earlier blocks. *)
Definition external_inputs (block : KernelBlock) : list OutPoint :=
  filter (fun o => outpoint_is_null o = false /\ o ∉ spent_within block) (concat (kt_inputs <$> kb_transactions block)).

Definition remove_utxo (utxos : UtxoMap) (o : OutPoint) : result UtxoMap :=
  match utxos !! o with Some _ => Ok (delete o utxos) | None => Err "input does not reference an indexed UTXO" end.

Definition add_utxo (height : Z) (s : UtxoMap * Z) (o : OutPoint) : result (UtxoMap * Z) :=
  let '(utxos, eligible_outputs) := s in
  let position := {| lp_height := height; lp_index := eligible_outputs |} in
  eligible_outputs ← ok_or "one block contains more than u32::MAX eligible outputs" (checked_add 32 eligible_outputs 1);
  if decide (bip30_excluded_outpoint height = Some o) then Ok (utxos, eligible_outputs)
  else
    require (bool_decide (utxos !! o = None)) "duplicate unspent outpoint";;
    Ok (<[o := position]> utxos, eligible_outputs).

(** The loops of [apply_block], over what they act on. *)
Lemma apply_block_loops height block utxos : indices_fit block ->
  apply_block height block utxos =
    (utxos ← foldM remove_utxo (external_inputs block) utxos;
     foldM (add_utxo height) (eligible_outpoints block) (utxos, 0)).
Proof.
  intros Hf. unfold apply_block, hints_same_block_spends. rewrite block_spends_eq, decide_True by done. step_ok.
  rewrite foldM_concat. unfold external_inputs.
  rewrite <- (foldM_filter _ (spend_input (spent_within block))).
  2: { intros s o _. unfold spend_input, remove_utxo. destruct (outpoint_is_null o) eqn:En; cbn.
       - rewrite decide_False; [done|]. by intros [? _].
       - case_decide as Hs; [rewrite decide_False by tauto; done|]. by rewrite decide_True by tauto. }
  destruct (foldM _ _ utxos) as [utxos2|e]; [|done]. rewrite !ok_bind. unfold eligible_outpoints.
  rewrite foldM_fmap. unfold eligible. rewrite <- foldM_concat. apply foldM_ext. intros s tx Htx.
  unfold eligible_tx. rewrite <- (foldM_filter _ (fun s (x : KernelTx * OutPoint * KTxOut) =>
    if decide (is_unspendable (ko_script x.2) = false /\ x.1.2 ∉ spent_within block) then add_utxo height s x.1.2 else Ok s)) by done.
  rewrite foldM_fmap. apply foldM_ext. intros [m n] o Ho. cbn [fst snd]. unfold index_output.
  rewrite (output_index_fits block tx o) by done. step_ok. destruct (is_unspendable (ko_script o.2)); cbn [orb].
  - rewrite decide_False; [done|]. by intros [? _].
  - case_bool_decide as Hs; [rewrite decide_False by tauto; done|]. by rewrite decide_True by tauto.
Qed.

Lemma remove_utxos_ok l (utxos utxos' : UtxoMap) : foldM remove_utxo l utxos = Ok utxos' ->
  forall o, utxos' !! o = if decide (o ∈ l) then None else utxos !! o.
Proof.
  revert utxos; induction l as [|x l IH]; intros utxos E o.
  { injection E as <-. by rewrite decide_False by apply not_elem_of_nil. }
  cbn [foldM] in E. apply bind_ok in E as (m1 & E1 & E). unfold remove_utxo in E1. destruct (utxos !! x); [|done].
  injection E1 as <-. rewrite (IH _ E o).
  destruct (decide (o ∈ l)); [by rewrite decide_True by by right|]. destruct (decide (o = x)) as [->|].
  - by rewrite lookup_delete_eq, decide_True by by left.
  - rewrite lookup_delete_ne by done. rewrite decide_False; [done|]. by intros [?|?]%elem_of_cons.
Qed.

Lemma remove_utxos_total l (utxos : UtxoMap) : NoDup l -> (forall o, o ∈ l -> is_Some (utxos !! o)) ->
  is_ok (foldM remove_utxo l utxos) = true.
Proof.
  revert utxos; induction l as [|x l IH]; intros utxos Hnd Hin; [done|]. apply NoDup_cons in Hnd as [Hx Hnd]. cbn [foldM].
  destruct (Hin x ltac:(by left)) as [p Hp]. assert (remove_utxo utxos x = Ok (delete x utxos)) as -> by (unfold remove_utxo; by rewrite Hp).
  rewrite ok_bind. apply IH; [done|]. intros o Ho.
  rewrite lookup_delete_ne by set_solver. apply Hin. by right.
Qed.

Lemma zlookup_cons_ex {A} (x : A) l (P : Z -> A -> Prop) :
  (exists i o, zlookup (x :: l) i = Some o /\ P i o) <-> P 0 x \/ exists i o, zlookup l i = Some o /\ P (i + 1) o.
Proof.
  split.
  - intros (i & o & Hi & HP). apply zlookup_Some in Hi as [Hi0 Hi]. destruct (Z.to_nat i) as [|k] eqn:Ek; cbn in Hi.
    + left. injection Hi as <-. by replace 0 with i by lia.
    + right. exists (i - 1), o. split; [apply zlookup_Some; split; [lia|]; by replace (Z.to_nat (i - 1)) with k by lia|].
      by replace (i - 1 + 1) with i by lia.
  - intros [HP|(i & o & Hi & HP)]; [by exists 0, x|]. exists (i + 1), o. split; [|done]. apply zlookup_Some in Hi as [Hi0 Hi].
    apply zlookup_Some. split; [lia|]. by replace (Z.to_nat (i + 1)) with (S (Z.to_nat i)) by lia.
Qed.

Lemma add_utxos_ok h l (utxos utxos' : UtxoMap) n n' : is_u32 n -> foldM (add_utxo h) l (utxos, n) = Ok (utxos', n') ->
  (n' = n + zlength l /\ is_u32 n') /\ forall o p, utxos' !! o = Some p <->
    utxos !! o = Some p \/ exists i, zlookup l i = Some o /\ bip30_excluded_outpoint h <> Some o /\ p = {| lp_height := h; lp_index := n + i |}.
Proof.
  revert utxos n; induction l as [|x l IH]; intros utxos n Hn E.
  { injection E as <- <-. rewrite zlength_nil, Z.add_0_r. split; [done|]. intros o p. split; [by left|]. intros [?|(i & Hi & _)]; [done|].
    apply zlookup_lt in Hi. unfold zlength in Hi. cbn in Hi. lia. }
  cbn [foldM] in E. apply bind_ok in E as ([u2 n2] & E1 & E). unfold add_utxo in E1.
  apply bind_ok in E1 as (n3 & E3 & E1). apply ok_or_ok, checked_add_Some in E3 as [-> Hn1].
  assert (forall o p, (exists i, zlookup (x :: l) i = Some o /\ bip30_excluded_outpoint h <> Some o /\ p = {| lp_height := h; lp_index := n + i |}) <->
    (o = x /\ bip30_excluded_outpoint h <> Some o /\ p = {| lp_height := h; lp_index := n |}) \/
    (exists i, zlookup l i = Some o /\ bip30_excluded_outpoint h <> Some o /\ p = {| lp_height := h; lp_index := (n + 1) + i |})) as Hsplit.
  { intros o p. pose proof (zlookup_cons_ex x l (fun i o' => o' = o /\ bip30_excluded_outpoint h <> Some o /\ p = {| lp_height := h; lp_index := n + i |})) as Hcons.
    cbn beta in Hcons. rewrite Z.add_0_r in Hcons. split.
    - intros (i & Hi & Hr). destruct (proj1 Hcons) as [(-> & Hr')|(j & o' & Hj & -> & Hb & ->)]; [by exists i, o|by left|].
      right. exists j. split_and!; [done|done|]. f_equal. lia.
    - intros [(-> & Hr)|(j & Hj & Hb & ->)].
      + destruct (proj2 Hcons) as (i & o' & Hi & -> & Hr'); [by left|]. by exists i.
      + destruct (proj2 Hcons) as (i & o' & Hi & -> & Hr'); [right; exists j, o; split_and!; [done|done|done|f_equal; lia]|]. by exists i. }
  rewrite zlength_cons. destruct (decide (bip30_excluded_outpoint h = Some x)) as [Hb|Hb].
  - injection E1 as <- <-. destruct (IH _ (n + 1) Hn1 E) as [[-> ?] Hl]. split; [split; [lia|done]|]. intros o p. rewrite Hl, Hsplit.
    split; [tauto|]. intros [?|[(-> & Hr & _)|?]]; [by left|done|by right].
  - apply bind_ok in E1 as (? & E2 & [= <- <-]). apply require_ok, bool_decide_eq_true in E2.
    destruct (IH _ (n + 1) Hn1 E) as [[-> ?] Hl]. split; [split; [lia|done]|]. intros o p. rewrite Hl, Hsplit. destruct (decide (o = x)) as [->|Hne].
    + rewrite lookup_insert_eq, E2. split; [intros [[= <-]|?]; tauto|]. intros [?|[(_ & _ & ->)|?]]; [done|by left|by right].
    + rewrite lookup_insert_ne by done. tauto.
Qed.

(** A block removes what it spends of earlier blocks, then adds its own leaves. *)
Lemma apply_block_ok h block utxos utxos' n : apply_block h block utxos = Ok (utxos', n) ->
  (n = zlength (eligible_outpoints block) /\ is_u32 n /\ indices_fit block) /\ forall o p, utxos' !! o = Some p <->
    (utxos !! o = Some p /\ o ∉ external_inputs block) \/
    exists i, zlookup (eligible_outpoints block) i = Some o /\ bip30_excluded_outpoint h <> Some o /\ p = {| lp_height := h; lp_index := i |}.
Proof.
  intros E. destruct (decide (indices_fit block)) as [Hf|Hf].
  2: { unfold apply_block, hints_same_block_spends in E. by rewrite block_spends_eq, decide_False in E. }
  rewrite apply_block_loops in E by done. apply bind_ok in E as (u & E1 & E). pose proof (remove_utxos_ok _ _ _ E1) as Hrm.
  apply add_utxos_ok in E as [[-> ?] Hl]; [|done]. split; [by split_and!|]. intros o p. rewrite Hl, Hrm. case_decide; [naive_solver|naive_solver].
Qed.

(** ** The scan of a chain *)

Context `{!KernelChainstate}.

(** The leaf number [i] of the block at height [h], what the block at [h] spends of earlier
    blocks, and the leaves that no block up to [stop] spends. *)
Definition leaf_at (kernel : KernelChain) (h i : Z) (o : OutPoint) : Prop :=
  exists block, block_at_height kernel h = Ok block /\ zlookup (eligible_outpoints block) i = Some o.
Definition spent_by (kernel : KernelChain) (h : Z) (o : OutPoint) : Prop :=
  exists block, block_at_height kernel h = Ok block /\ o ∈ external_inputs block.
Definition unspent_leaf (kernel : KernelChain) (stop h i : Z) (o : OutPoint) : Prop :=
  1 <= h <= stop /\ leaf_at kernel h i o /\ bip30_excluded_outpoint h <> Some o /\
  forall h', h < h' <= stop -> ~ spent_by kernel h' o.

Record scanned (kernel : KernelChain) (stop len : Z) (utxos : UtxoMap) (leaf_counts : list Z) : Prop := {
  sc_utxos : forall o p, utxos !! o = Some p <-> unspent_leaf kernel stop (lp_height p) (lp_index p) o;
  sc_counts : forall h, 1 <= h <= stop -> exists block, block_at_height kernel h = Ok block /\
    leaf_counts !! Z.to_nat h = Some (zlength (eligible_outpoints block)) /\ (is_u32 (zlength (eligible_outpoints block)) /\ indices_fit block);
  sc_zero : leaf_counts !! 0%nat = Some 0;
  sc_length : zlength leaf_counts = len
}.

Lemma scan_height_ok kernel stop len utxos counts s' : 0 <= stop < len - 1 ->
  scanned kernel stop len utxos counts -> scan_height kernel (utxos, counts) (stop + 1) = Ok s' ->
  scanned kernel (stop + 1) len s'.1 s'.2.
Proof.
  intros Hst Hs E. unfold scan_height in E. apply bind_ok in E as (block & Eb & E). apply bind_ok in E as ([u' n] & E1 & [= <-]).
  apply apply_block_ok in E1 as [[-> Hn32] Hu]. destruct Hs as [Hut Hct Hz Hl]. split; cbn [fst snd].
  - intros o p. rewrite Hu, Hut. split.
    + intros [[(Hh & Hl1 & Hb & Hn) Hex]|(i & Hi & Hb & ->)].
      * split_and!; [lia|lia|done|done|]. intros h' Hh' (b' & Eb' & Hin). destruct (decide (h' = stop + 1)) as [->|]; [|apply (Hn h'); [lia|by exists b']].
        rewrite Eb in Eb'. by injection Eb' as <-.
      * cbn. split_and!; [lia|lia|by exists block|done|]. intros h' ?. lia.
    + intros (Hh & (b' & Eb' & Hi) & Hb & Hn). destruct (decide (lp_height p = stop + 1)) as [Ep|Ep].
      * right. rewrite Ep, Eb in Eb'. injection Eb' as <-. rewrite Ep in Hb. exists (lp_index p). split_and!; [done|done|].
        destruct p. cbn in *. by subst.
      * left. split; [|intros Hin; apply (Hn (stop + 1)); [lia|by exists block]].
        split_and!; [lia|lia|by exists b'|done|]. intros h' ?. apply Hn. lia.
  - intros h Hh. destruct (decide (h = stop + 1)) as [->|Hne].
    + exists block. split; [done|]. split; [|done]. apply list_lookup_insert_eq. unfold zlength in Hl. lia.
    + destruct (Hct h ltac:(lia)) as (b' & Eb' & Ec & Hc). exists b'. split; [done|]. split; [|done]. by rewrite list_lookup_insert_ne by lia.
  - by rewrite list_lookup_insert_ne by lia.
  - unfold zlength. by rewrite length_insert.
Qed.

Lemma scan_heights_ok kernel stop k s : 0 <= k <= stop ->
  foldM (scan_height kernel) (zrange 1 (k + 1)) (∅, replicate (Z.to_nat stop + 1) 0) = Ok s ->
  scanned kernel k (stop + 1) s.1 s.2.
Proof.
  intros [Hk Hs]. revert s Hs. pattern k. apply natlike_ind; [| |done]; clear k Hk.
  - intros s Hs [= <-]. cbn [fst snd]. split.
    + intros o p. rewrite lookup_empty. split; [done|]. intros (? & _). lia.
    + intros h ?. lia.
    + apply lookup_replicate. split; [done|lia].
    + unfold zlength. rewrite length_replicate. lia.
  - intros k Hk IH s Hs E. replace (Z.succ k + 1) with (k + 1 + 1) in E by lia. rewrite zrange_snoc, foldM_snoc in E by lia.
    apply bind_ok in E as ([u c] & E1 & E). replace (Z.succ k) with (k + 1) by lia.
    apply (scan_height_ok kernel k (stop + 1) u c); [lia| |done]. apply (IH (u, c)); [lia|done].
Qed.

(** ** The collected indices *)

Lemma collect_ok ps indices indices' : foldM collect_position ps indices = Ok indices' ->
  length indices' = length indices /\ forall k l', indices' !! k = Some l' ->
    exists l, indices !! k = Some l /\ l' = l ++ (lp_index <$> filter (fun p => Z.to_nat (lp_height p) = k) ps).
Proof.
  revert indices; induction ps as [|p ps IH]; intros indices E.
  { injection E as <-. split; [done|]. intros k l Hl. exists l. by rewrite app_nil_r. }
  cbn [foldM] in E. apply bind_ok in E as (ind & E1 & E). unfold collect_position in E1.
  apply bind_ok in E1 as (l0 & El & [= <-]). apply ok_or_ok in El. destruct (IH _ E) as [Hlen Hk]. rewrite length_insert in Hlen.
  split; [done|]. intros k l' Hl'. destruct (Hk k l' Hl') as (l & Hl & ->). rewrite filter_cons.
  destruct (decide (Z.to_nat (lp_height p) = k)) as [<-|Hne].
  - rewrite list_lookup_insert_eq in Hl by by eapply lookup_lt_Some. injection Hl as <-. exists l0. split; [done|].
    by rewrite fmap_cons, <- app_assoc.
  - rewrite list_lookup_insert_ne in Hl by done. by exists l.
Qed.

Lemma sort_indices_ok l l' : sort_indices l = Ok l' -> StronglySorted Z.lt l' /\ forall i, i ∈ l' <-> i ∈ l.
Proof.
  intros E. unfold sort_indices in E. apply bind_ok in E as (? & Hi & [= <-]). apply require_ok, increasing_spec in Hi.
  split; [done|]. intros i. unfold sort_Z. by rewrite merge_sort_Permutation.
Qed.

Lemma collect_unspent_ok stop ps indices : 0 <= stop -> Forall (fun p => 1 <= lp_height p) ps ->
  collect_unspent_indices stop ps = Ok indices -> zlength indices = stop + 1 /\
  forall h, 1 <= h <= stop -> exists l, zlookup indices h = Some l /\ StronglySorted Z.lt l /\
    forall i, i ∈ l <-> {| lp_height := h; lp_index := i |} ∈ ps.
Proof.
  intros Hst Hps E. unfold collect_unspent_indices in E. apply bind_ok in E as (ind & E1 & E). apply collect_ok in E1 as [Hlen Hk].
  rewrite length_replicate in Hlen. destruct ind as [|l0 ind]; [cbn in Hlen; lia|]. apply bind_ok in E as (ind' & Em & [= <-]).
  apply mapM_ok_Forall2 in Em. pose proof (Forall2_length _ _ _ Em) as Hl2. cbn [length] in Hlen.
  split; [unfold zlength; cbn [length]; lia|]. intros h Hh.
  destruct (lookup_lt_is_Some_2 ind' (Z.to_nat (h - 1))) as [l' Hl']; [lia|]. exists l'.
  destruct (Forall2_lookup_r _ _ _ _ _ Em Hl') as (l & Hl & Hsort). apply sort_indices_ok in Hsort as [Hsort Hin].
  assert (Z.to_nat h = S (Z.to_nat (h - 1))) as Eh by lia.
  split_and!; [apply zlookup_Some; split; [lia|]; by rewrite Eh|done|]. intros i. rewrite Hin.
  destruct (Hk (Z.to_nat h) l) as (lr & Hr & ->); [by rewrite Eh|]. apply lookup_replicate in Hr as [-> _]. cbn [app].
  rewrite list_elem_of_fmap. setoid_rewrite list_elem_of_filter. rewrite Forall_forall in Hps. split.
  - intros (p & -> & Hp & Hin'). specialize (Hps p Hin'). replace h with (lp_height p) by lia. by destruct p.
  - intros Hp. by exists {| lp_height := h; lp_index := i |}.
Qed.

(** What [bridge-hints] finds: the number of leaves of every block, and, in increasing
    order, the indices of those that no later block spends. *)
Definition hints_of_chain (kernel : KernelChain) (stop : Z) (leaf_counts : list Z) (indices : list (list Z)) : Prop :=
  zlength leaf_counts = stop + 1 /\ zlength indices = stop + 1 /\ zlookup leaf_counts 0 = Some 0 /\
  forall h, 1 <= h <= stop -> exists block l, block_at_height kernel h = Ok block /\
    zlookup leaf_counts h = Some (zlength (eligible_outpoints block)) /\ (is_u32 (zlength (eligible_outpoints block)) /\ indices_fit block) /\ zlookup indices h = Some l /\
    StronglySorted Z.lt l /\ forall i, i ∈ l <-> exists o, unspent_leaf kernel stop h i o.

Lemma scan_chain_ok kernel requested into_values stop leaf_counts indices :
  0 <= default (tip_height kernel) requested -> (forall m, into_values m ≡ₚ (map_to_list m).*2) ->
  scan_chain kernel requested into_values = Ok (stop, leaf_counts, indices) ->
  stop = default (tip_height kernel) requested /\ 0 < stop <= tip_height kernel /\ hints_of_chain kernel stop leaf_counts indices.
Proof.
  intros Hpos Hperm E. unfold scan_chain in E. apply bind_ok in E as (? & Hz & E). apply bind_ok in E as (? & Ht & E).
  apply require_ok in Hz, Ht. apply bind_ok in E as (? & _ & E). apply bind_ok in E as ([u c] & Es & E).
  apply bind_ok in E as (ind & Ec & [= <- <- <-]). set (stop := default _ _) in *.
  apply negb_true_iff in Hz, Ht. apply Z.eqb_neq in Hz. apply Z.ltb_ge in Ht. split; [done|]. split; [lia|].
  apply scan_heights_ok in Es as [Hu Hc Hzero Hl]; [|lia]. cbn [fst snd] in *.
  assert (forall p, p ∈ into_values u <-> exists o, u !! o = Some p) as Hvals.
  { intros p. rewrite Hperm, list_elem_of_fmap. split.
    - intros ([o q] & -> & Hin%elem_of_map_to_list). by exists o.
    - intros (o & Ho%elem_of_map_to_list). by exists (o, p). }
  apply collect_unspent_ok in Ec as [Hl2 Hi]; [|lia|].
  2: { apply Forall_forall. intros p (o & Ho)%Hvals. apply Hu in Ho as (? & _). lia. }
  split_and!; [done|done|apply zlookup_Some; by split|]. intros h Hh. destruct (Hc h Hh) as (block & Eb & Ecnt & H32).
  destruct (Hi h Hh) as (l & Hlk & Hsort & Hin). exists block, l. do 5 (split; [done || (apply zlookup_Some; split; [lia|done])|]).
  intros i. rewrite Hin, Hvals. by setoid_rewrite Hu.
Qed.

End Scan.
End HintScan.
