(* ===== verification/PrefixedHints.v ===== *)
(** The hints file: the bridge's leaf counts in front of a [hintsfile] payload
    ([src/src/prefixed_hints.rs]), and how [src/src/bin/bridge-hints.rs] writes it. *)

From S2P Require Import Prelude Bytes Sorting JournalEntry SteadyState Udata BlockScan KernelBlocks HintScan.
Import JournalEntry.JournalEntry KernelBlocks.KernelBlocks HintScan.HintScan.

(** The [hintsfile] crate: a reader of whole files, the compression of one height's indices,
    and a builder that appends to a writer (here, to the bytes written so far). *)
Class HintsfileLib := {
  Hintsfile : Type;
  hintsfile_from_reader : reader Hintsfile;
  hf_stop_height : Hintsfile -> Z;
  hf_indices_at_height : Hintsfile -> Z -> option (list Z);
  EliasFano : Type;
  ef_compress : list Z -> EliasFano;
  HintsfileBuilder : Type;
  hb_initialize : bytes -> Z -> result HintsfileBuilder;
  hb_append : HintsfileBuilder -> EliasFano -> result HintsfileBuilder;
  hb_finish : HintsfileBuilder -> result bytes
}.

(** What the crate promises: a file that was built is read back with the indices it was
    given; a builder only appends. *)
Class HintsfileLaws `{HintsfileLib} := {
  built_file_reads : forall writer stop indices b0 b file,
    0 < stop -> zlength indices = stop -> Forall (fun l => StronglySorted Z.lt l /\ Forall is_u32 l) indices ->
    hb_initialize writer stop = Ok b0 -> foldM hb_append (ef_compress <$> indices) b0 = Ok b -> hb_finish b = Ok file ->
    exists payload hints, file = writer ++ payload /\ hintsfile_from_reader payload = Ok (hints, []) /\
      hf_stop_height hints = stop /\ forall h, 1 <= h <= stop -> hf_indices_at_height hints h = zlookup indices (h - 1)
}.

Module PrefixedHints.

(** [b"BRLFCT01"] *)
Definition MAGIC : bytes := [66; 82; 76; 70; 67; 84; 48; 49].
Definition COUNT_SIZE : Z := 4.

(** ** Writing the leaf counts *)

(** [slice.chunks(n)], for [0 < n] *)
Fixpoint chunks_fuel {A} (fuel : nat) (n : nat) (l : list A) : list (list A) :=
  match fuel, l with
  | S fuel, _ :: _ => take n l :: chunks_fuel fuel n (drop n l)
  | _, _ => []
  end.
Definition chunks {A} (n : nat) (l : list A) : list (list A) := chunks_fuel (length l) n l.

Definition COUNTS_PER_WRITE : nat := 1024.

(** The slots of the buffer, filled in order. *)
Definition fill_slots (encoded : bytes) (counts : list Z) : bytes :=
  foldl (fun encoded s => list_inserts (s.1 * 4) (le_bytes 4 s.2) encoded) encoded (zip (seq 0 (length counts)) counts).

(** One round of the loop; the state is the buffer, which keeps what the rounds before left in
    it, and what the writer has. *)
Definition write_counts (s : bytes * bytes) (counts : list Z) : bytes * bytes :=
  let '(encoded, writer) := s in
  let encoded := fill_slots encoded counts in
  (encoded, writer ++ take (length counts * 4) encoded).

Definition write_leaf_count_prefix (writer : bytes) (stop_height : Z) (leaf_counts : list Z) : result bytes :=
  expected ← ok_or "bridge leaf-count length overflow" (checked_add 64 stop_height 1);
  require (zlength leaf_counts =? expected) "unexpected number of leaf counts";;
  require (bool_decide (head leaf_counts = Some 0)) "height-zero leaf count must be zero";;
  let writer := writer ++ MAGIC ++ le_bytes 4 stop_height in
  Ok (foldl write_counts (zeros (COUNTS_PER_WRITE * 4), writer) (chunks COUNTS_PER_WRITE (tail leaf_counts))).2.

(** ** Reading *)

Section Reading.
Context `{HintsfileLib}.

Record BridgeHints := { hints : Hintsfile; leaf_counts : bytes }.

Definition from_reader : reader BridgeHints :=
  magic ← take_exact "failed to read bridge hints magic" 8;
  reader_require (bool_decide (magic = MAGIC)) "hintsfile is missing the bridge leaf-count prefix";;
  stop_height ← take_le "failed to read bridge hints stop height" 4;
  reader_require (negb (stop_height =? 0)) "bridge hints stop height must be greater than zero";;
  count_bytes ← (fun bs => n ← ok_or "bridge leaf-count section length overflow" (checked_mul 64 stop_height COUNT_SIZE); Ok (n, bs));
  leaf_counts ← take_exact "failed to read bridge per-block leaf counts" (Z.to_nat count_bytes);
  hints ← hintsfile_from_reader;
  reader_require (hf_stop_height hints =? stop_height) "bridge leaf counts and hints payload stop at different heights";;
  mret {| hints := hints; leaf_counts := leaf_counts |}.

Definition stop_height (b : BridgeHints) : Z := hf_stop_height (hints b).

Definition leaf_count_at_height (b : BridgeHints) (height : Z) : option Z :=
  index ← checked_sub height 1;
  if stop_height b <? height then None
  else
    offset ← checked_mul 64 index COUNT_SIZE;
    if offset + COUNT_SIZE <=? zlength (leaf_counts b)
    then Some (le_value (take 4 (zdrop offset (leaf_counts b)))) else None.

Definition indices_at_height (b : BridgeHints) (height : Z) : option (list Z) := hf_indices_at_height (hints b) height.

(** ** Writing the file *)

Definition append_hints (indices : list (list Z)) (builder : HintsfileBuilder) (height : Z) : result HintsfileBuilder :=
  l ← ok_or "index out of bounds" (indices !! Z.to_nat height);
  hb_append builder (ef_compress l).

Definition encode_hints (writer : bytes) (stop_height : Z) (leaf_counts : list Z) (indices : list (list Z)) : result bytes :=
  expected ← ok_or "per-height hint vector length overflow" (checked_add 64 stop_height 1);
  require (zlength indices =? expected) "unexpected number of per-height hint vectors";;
  writer ← write_leaf_count_prefix writer stop_height leaf_counts;
  builder ← hb_initialize writer stop_height;
  builder ← foldM (append_hints indices) (zrange 1 (stop_height + 1)) builder;
  hb_finish builder.

(** The destination and the temporary file next to it. *)
Record OutputDir := { output : option bytes; temporary : option bytes }.
Definition with_temporary (d : OutputDir) (t : option bytes) : OutputDir := {| output := output d; temporary := t |}.

(** Whether each system call succeeds; a write that fails leaves a part of its bytes. *)
Record HintsIo := {
  create_dir_ok : bool; create_ok : bool; written : option nat; reopen_ok : bool; sync_ok : bool;
  rename_ok : bool; remove_ok : bool
}.
Definition system_call (b : bool) (msg : string) : SR OutputDir unit := lift (require b msg).

(** The closure of [write_hints_file]. *)
Definition write_and_rename (io : HintsIo) (stop_height : Z) (leaf_counts : list Z) (indices : list (list Z)) : SR OutputDir unit :=
  system_call (create_ok io) "failed to create";;
  modify (fun d => with_temporary d (Some []));;
  file ← lift (encode_hints [] stop_height leaf_counts indices);
  match written io with
  | Some n => modify (fun d => with_temporary d (Some (take n file)));; lift (Err "failed to write")
  | None => modify (fun d => with_temporary d (Some file))
  end;;
  system_call (reopen_ok io) "failed to reopen temporary hintsfile";;
  system_call (sync_ok io) "failed to sync temporary hintsfile";;
  system_call (rename_ok io) "failed to move";;
  modify (fun d => {| output := temporary d; temporary := None |}).

Definition write_hints_file (io : HintsIo) (stop_height : Z) (leaf_counts : list Z) (indices : list (list Z)) (force : bool)
  : SR OutputDir unit :=
  d ← get;
  lift (require (negb (bool_decide (is_Some (output d)) && negb force)) "destination already exists; pass --force to replace it");;
  system_call (create_dir_ok io) "failed to create output directory";;
  lift (require (bool_decide (temporary d = None)) "temporary output already exists; remove it before retrying");;
  result ← try_ (write_and_rename io stop_height leaf_counts indices);
  (if is_ok result then mret tt else modify (fun d => if remove_ok io then with_temporary d None else d));;
  lift result.

(** [main] of [bridge-hints]. *)
Definition bridge_hints `{KernelChainstate} (io : HintsIo) (kernel : KernelChain) (requested : option Z) (force : bool)
    (into_values : UtxoMap -> list LeafPosition) : SR OutputDir unit :=
  '(stop_height, leaf_counts, indices) ← lift (scan_chain kernel requested into_values);
  write_hints_file io stop_height leaf_counts indices force.

(** ** The bytes of the prefix *)

Definition count_bytes (counts : list Z) : bytes := enc_list (le_bytes 4) counts.

Lemma length_count_bytes counts : length (count_bytes counts) = (4 * length counts)%nat.
Proof. apply (length_enc_list (fun _ => True)); [|by apply Forall_true]. intros. apply length_le_bytes. Qed.

Lemma fill_slots_from counts (before rest : bytes) k : length before = (k * 4)%nat -> (4 * length counts <= length rest)%nat ->
  foldl (fun encoded s => list_inserts (s.1 * 4) (le_bytes 4 s.2) encoded) (before ++ rest) (zip (seq k (length counts)) counts) =
    before ++ count_bytes counts ++ drop (4 * length counts) rest.
Proof.
  revert before rest k; induction counts as [|c counts IH]; intros before rest k Hb Hl; [done|].
  cbn [length seq zip zip_with foldl fst snd]. cbn [length] in Hl. rewrite <- Hb, <- (Nat.add_0_r (length before)), list_inserts_app_r.
  rewrite <- (take_drop 4 rest) at 1. rewrite list_inserts_0_r by (rewrite length_take, length_le_bytes; lia).
  rewrite (app_assoc (A := Z)). rewrite IH by (rewrite ?length_app, ?length_le_bytes, ?length_drop; lia).
  rewrite drop_drop. unfold count_bytes. rewrite enc_list_cons, <- !(app_assoc (A := Z)).
  by replace (4 + 4 * length counts)%nat with (4 * S (length counts))%nat by lia.
Qed.

Lemma fill_slots_eq counts (encoded : bytes) : (4 * length counts <= length encoded)%nat ->
  fill_slots encoded counts = count_bytes counts ++ drop (4 * length counts) encoded.
Proof. intros. by apply (fill_slots_from counts [] encoded 0). Qed.

Lemma count_bytes_app l1 l2 : count_bytes (l1 ++ l2) = count_bytes l1 ++ count_bytes l2.
Proof. unfold count_bytes, enc_list. by rewrite fmap_app, concat_app. Qed.

(** What earlier rounds leave in the buffer is never written again. *)
Lemma write_chunks_eq n counts encoded writer fuel : (0 < n)%nat -> (length counts <= fuel)%nat -> length encoded = (n * 4)%nat ->
  (foldl write_counts (encoded, writer) (chunks_fuel fuel n counts)).2 = writer ++ count_bytes counts.
Proof.
  intros Hn. revert counts encoded writer; induction fuel as [|fuel IH]; intros counts encoded writer Hf He.
  { destruct counts; [|cbn in Hf; lia]. cbn. by rewrite app_nil_r. }
  destruct counts as [|c counts]; [cbn; by rewrite app_nil_r|]. cbn [chunks_fuel foldl]. unfold write_counts at 2.
  set (l := c :: counts) in *. assert (4 * length (take n l) <= length encoded)%nat as Hl by (rewrite length_take; lia).
  rewrite fill_slots_eq by done. rewrite IH.
  - rewrite take_app_length' by (rewrite length_count_bytes; lia).
    rewrite <- (app_assoc (A := Z)), <- count_bytes_app. by rewrite take_drop.
  - rewrite length_drop. unfold l in *. cbn [length] in *. lia.
  - rewrite length_app, length_count_bytes, length_drop. lia.
Qed.

Lemma write_prefix_ok writer stop counts file : write_leaf_count_prefix writer stop counts = Ok file ->
  exists counts', counts = 0 :: counts' /\ zlength counts' = stop /\
    file = writer ++ MAGIC ++ le_bytes 4 stop ++ count_bytes counts'.
Proof.
  intros E. unfold write_leaf_count_prefix in E. apply bind_ok in E as (n & En & E). apply ok_or_ok, checked_add_Some in En as [-> _].
  apply bind_ok in E as (? & Hl & E). apply bind_ok in E as (? & Hz & [= <-]). apply require_ok in Hl, Hz.
  apply bool_decide_eq_true in Hz. apply Z.eqb_eq in Hl. destruct counts as [|z counts]; [done|]. injection Hz as ->.
  exists counts. rewrite zlength_cons in Hl. split_and!; [done|lia|]. unfold chunks.
  rewrite write_chunks_eq; [|unfold COUNTS_PER_WRITE; lia|cbn [tail]; lia|unfold zeros; by rewrite length_replicate]. by rewrite <- !(app_assoc (A := Z)).
Qed.

(** ** What the reader accepts *)

(** The file that holds these counts in front of a payload. *)
Definition prefixed (stop : Z) (counts : list Z) (payload : bytes) : bytes := MAGIC ++ le_bytes 4 stop ++ count_bytes counts ++ payload.

Lemma from_reader_ok stop counts payload h rest : 0 < stop -> is_u32 stop -> zlength counts = stop ->
  hintsfile_from_reader payload = Ok (h, rest) -> hf_stop_height h = stop ->
  from_reader (prefixed stop counts payload) = Ok ({| hints := h; leaf_counts := count_bytes counts |}, rest).
Proof.
  intros Hs Hu Hl Hp Hh. unfold from_reader, prefixed. erewrite reader_bind_step by by apply take_exact_app.
  erewrite reader_bind_step by (apply reader_require_true; by apply bool_decide_eq_true_2).
  erewrite reader_bind_step by by apply (dec_enc (take_le_codec _ 4)).
  erewrite reader_bind_step by (apply reader_require_true; apply negb_true_iff, Z.eqb_neq; lia).
  erewrite reader_bind_step.
  2: { cbn beta. rewrite (proj2 (checked_mul_Some 64 stop COUNT_SIZE (stop * COUNT_SIZE))); [done|].
       unfold COUNT_SIZE, is_uint in *. split; [done|lia]. }
  erewrite reader_bind_step by (apply take_exact_app; rewrite length_count_bytes; unfold zlength, COUNT_SIZE in *; lia).
  erewrite reader_bind_step by done. erewrite reader_bind_step by (apply reader_require_true; lia). done.
Qed.

Lemma leaf_count_ok h counts i c : zlookup counts (i - 1) = Some c -> Forall is_u32 counts -> hf_stop_height h = zlength counts ->
  is_u32 (zlength counts) -> leaf_count_at_height {| hints := h; leaf_counts := count_bytes counts |} i = Some c.
Proof.
  intros Hi Hu Hh Hn. pose proof (zlookup_lt _ _ _ Hi). unfold leaf_count_at_height.
  rewrite (proj2 (checked_sub_Some i 1 (i - 1))) by lia. cbn [mbind option_bind]. unfold stop_height. cbn [hints leaf_counts].
  rewrite (proj2 (Z.ltb_ge _ _)) by lia. rewrite (proj2 (checked_mul_Some 64 (i - 1) COUNT_SIZE ((i - 1) * COUNT_SIZE))).
  2: { unfold COUNT_SIZE, is_uint in *. split; [done|lia]. }
  cbn [mbind option_bind]. assert (zlength (count_bytes counts) = 4 * zlength counts) as Hl.
  { unfold zlength. rewrite length_count_bytes. lia. }
  rewrite Hl. unfold COUNT_SIZE. rewrite (proj2 (Z.leb_le _ _)) by lia. f_equal. apply zlookup_Some in Hi as [Hi0 Hi].
  rewrite <- (take_drop_middle counts (Z.to_nat (i - 1)) c Hi) at 1. rewrite count_bytes_app. unfold zdrop.
  rewrite drop_app_length' by (rewrite length_count_bytes, length_take; unfold zlength in *; lia).
  unfold count_bytes. rewrite enc_list_cons, take_app_length' by (by rewrite length_le_bytes).
  apply le_value_le_bytes. rewrite Forall_forall in Hu. apply Hu. by eapply list_elem_of_lookup_2.
Qed.

(** ** The whole file *)

Lemma encode_hints_ok `{!HintsfileLaws} stop counts indices file : 0 < stop -> Forall (fun l => StronglySorted Z.lt l /\ Forall is_u32 l) (tail indices) ->
  encode_hints [] stop counts indices = Ok file ->
  exists payload h, file = prefixed stop (tail counts) payload /\ zlength (tail counts) = stop /\
    hintsfile_from_reader payload = Ok (h, []) /\ hf_stop_height h = stop /\
    forall i, 1 <= i <= stop -> hf_indices_at_height h i = zlookup indices i.
Proof.
  intros Hs Hind E. unfold encode_hints in E. apply bind_ok in E as (n & En & E). apply ok_or_ok, checked_add_Some in En as [-> _].
  apply bind_ok in E as (? & Hl & E). apply require_ok, Z.eqb_eq in Hl. apply bind_ok in E as (w & Ew & E).
  apply write_prefix_ok in Ew as (counts' & -> & Hcl & ->). apply bind_ok in E as (b0 & E0 & E). apply bind_ok in E as (b & Eb & E).
  destruct indices as [|i0 indices]; [unfold zlength in Hl; cbn in Hl; lia|]. rewrite zlength_cons in Hl. cbn [tail] in *.
  assert (foldM hb_append (ef_compress <$> indices) b0 = Ok b) as Ef.
  { rewrite foldM_fmap, <- Eb. replace (stop + 1) with (1 + zlength indices) by lia. clear.
    replace (zrange 1 (1 + zlength indices)) with ((fun k => 1 + Z.of_nat k) <$> seq 0 (length indices)).
    2: { unfold zrange, zlength. replace (1 + Z.of_nat (length indices) - 1) with (Z.of_nat (length indices)) by lia.
         unfold seqZ. rewrite Nat2Z.id. apply list_fmap_ext. intros. lia. }
    rewrite foldM_fmap. unfold append_hints. cbn beta.
    assert (forall k s, foldM (fun s (a : nat) => l ← ok_or "index out of bounds" ((i0 :: indices) !! Z.to_nat (1 + Z.of_nat a));
      hb_append s (ef_compress l)) (seq k (length indices - k)) s = foldM (fun s a => hb_append s (ef_compress a)) (drop k indices) s) as Hk.
    { intros k. remember (length indices - k)%nat as n eqn:En. revert k En; induction n as [|n IH]; intros k En s.
      - by rewrite drop_ge by lia.
      - destruct (lookup_lt_is_Some_2 indices k) as [x Hx]; [lia|]. rewrite (drop_S _ _ _ Hx). cbn [seq foldM].
        replace (Z.to_nat (1 + Z.of_nat k)) with (S k) by lia. change ((i0 :: indices) !! S k) with (indices !! k). rewrite Hx. step_ok.
        destruct (hb_append s (ef_compress x)); [|done]. apply IH. lia. }
    specialize (Hk 0%nat). rewrite Nat.sub_0_r in Hk. symmetry. apply Hk. }
  destruct (built_file_reads _ stop indices b0 b file Hs ltac:(lia) Hind E0 Ef E) as (payload & h & -> & Hp & Hh & Hi).
  exists payload, h. split_and!; [unfold prefixed; by rewrite <- !(app_assoc (A := Z))|done|done|done|].
  intros i Hi'. rewrite Hi by done. unfold zlookup. rewrite !bool_decide_eq_true_2 by lia.
  by replace (Z.to_nat i) with (S (Z.to_nat (i - 1))) by lia.
Qed.

(** Either the destination has the whole file and no temporary file is left, or it is as it was. *)
Lemma write_hints_file_inv io stop counts indices force d d' r : write_hints_file io stop counts indices force d = (d', r) ->
  match r with
  | Ok _ => (force = true \/ output d = None) /\ temporary d' = None /\
      exists file, encode_hints [] stop counts indices = Ok file /\ output d' = Some file
  | Err _ => output d' = output d
  end.
Proof.
  unfold write_hints_file, write_and_rename, system_call, try_, lift, modify, get, mbind, sr_bind, mret, sr_ret. cbn beta iota.
  destruct (require (negb _) _) as [[]|] eqn:Ef; [|by intros [= <- <-]]. apply require_ok in Ef.
  destruct (create_dir_ok io); cbn; [|by intros [= <- <-]]. destruct (bool_decide (temporary d = None)); cbn; [|by intros [= <- <-]].
  destruct (create_ok io); cbn; [|destruct (remove_ok io); by intros [= <- <-]].
  destruct (encode_hints [] stop counts indices) as [file|]; cbn; [|destruct (remove_ok io); by intros [= <- <-]].
  destruct (written io); cbn; [destruct (remove_ok io); by intros [= <- <-]|].
  destruct (reopen_ok io); cbn; [|destruct (remove_ok io); by intros [= <- <-]].
  destruct (sync_ok io); cbn; [|destruct (remove_ok io); by intros [= <- <-]].
  destruct (rename_ok io); cbn; [|destruct (remove_ok io); by intros [= <- <-]].
  intros [= <- <-]. split_and!; [|done|by exists file].
  apply negb_true_iff, andb_false_iff in Ef as [Ef|Ef]; [right|left; by apply negb_false_iff].
  apply bool_decide_eq_false in Ef. by apply eq_None_not_Some.
Qed.

Lemma sorted_indices_fit (l : list Z) n : is_u32 n -> (forall i, i ∈ l -> 0 <= i < n) -> Forall is_u32 l.
Proof. intros Hn Hl. apply Forall_forall. intros i Hi%Hl. unfold is_uint in *. lia. Qed.

(** The hints that [bridge-hints] leaves at the destination when it succeeds. *)
Record right_hints `{KernelChainstate} (kernel : KernelChain) (stop : Z) (b : BridgeHints) : Prop := {
  rh_stop : stop_height b = stop;
  rh_range : 0 < stop <= tip_height kernel;
  rh_heights : forall h, 1 <= h <= stop -> exists block l, block_at_height kernel h = Ok block /\
    leaf_count_at_height b h = Some (zlength (eligible_outpoints block)) /\
    (is_u32 (zlength (eligible_outpoints block)) /\ indices_fit block) /\
    indices_at_height b h = Some l /\ StronglySorted Z.lt l /\ forall i, i ∈ l <-> exists o, unspent_leaf kernel stop h i o
}.

Lemma bridge_hints_ok `{KernelChainstate} `{!HintsfileLaws} io kernel requested force into_values d d' :
  is_u32 (default (tip_height kernel) requested) -> (forall m, into_values m ≡ₚ (map_to_list m).*2) ->
  bridge_hints io kernel requested force into_values d = (d', Ok tt) ->
  exists file b, output d' = Some file /\ temporary d' = None /\ from_reader file = Ok (b, []) /\
    right_hints kernel (default (tip_height kernel) requested) b.
Proof.
  intros Hu Hperm E. unfold bridge_hints in E. apply sr_bind_inv in E as (d1 & r1 & E1 & E). injection E1 as <- <-.
  destruct (scan_chain kernel requested into_values) as [[[stop counts] indices]|e] eqn:Es; [|by destruct E as [_ E]].
  apply write_hints_file_inv in E as (_ & Ht & file & Ee & Ho).
  apply scan_chain_ok in Es as (-> & Hst & Hlc & Hli & Hz & Hall); [|unfold is_uint in Hu; lia|done]. set (stop := default _ _) in *.
  assert (Forall (fun l => StronglySorted Z.lt l /\ Forall is_u32 l) (tail indices) /\ Forall is_u32 (tail counts)) as [Hind Hcnt].
  { split; apply Forall_forall; intros x (k & Hk)%list_elem_of_lookup; rewrite lookup_tail in Hk.
    - destruct (Hall (Z.of_nat (S k))) as (block & l & Eb & _ & [H32 _] & Hl & Hs & Hin).
      { apply lookup_lt_Some in Hk. unfold zlength in *. lia. }
      apply zlookup_Some in Hl as [_ Hl]. rewrite Nat2Z.id in Hl. rewrite Hl in Hk. injection Hk as <-. split; [done|].
      apply (sorted_indices_fit _ _ H32). intros i (o & _ & (b2 & Eb2 & Hb2) & _)%Hin. rewrite Eb in Eb2. injection Eb2 as <-.
      unfold eligible_outpoints. by eapply zlookup_lt.
    - destruct (Hall (Z.of_nat (S k))) as (block & l & Eb & Hc & [H32 _] & _).
      { apply lookup_lt_Some in Hk. unfold zlength in *. lia. }
      apply zlookup_Some in Hc as [_ Hc]. rewrite Nat2Z.id in Hc. rewrite Hc in Hk. by injection Hk as <-. }
  destruct (encode_hints_ok stop counts indices file ltac:(lia) Hind Ee) as (payload & h & -> & Hlt & Hp & Hh & Hi).
  exists (prefixed stop (tail counts) payload), {| hints := h; leaf_counts := count_bytes (tail counts) |}.
  split; [done|]. split; [done|]. split; [apply from_reader_ok; done || lia|]. split; [exact Hh|exact Hst|]. intros i Hi'.
  destruct (Hall i Hi') as (block & l & Eb & Hc & Hfit & Hl & Hs & Hin). exists block, l.
  split; [done|]. split; [|split; [done|]; split; [unfold indices_at_height; cbn [hints]; by rewrite Hi|done]].
  apply leaf_count_ok; [|done|congruence|by rewrite Hlt]. apply zlookup_Some in Hc as [_ Hc]. apply zlookup_Some. split; [lia|].
  rewrite lookup_tail. by replace (S (Z.to_nat (i - 1))) with (Z.to_nat i) by lia.
Qed.

(** A failure changes nothing. *)
Lemma bridge_hints_failed `{KernelChainstate} io kernel requested force into_values d d' e :
  bridge_hints io kernel requested force into_values d = (d', Err e) -> output d' = output d.
Proof.
  intros E. unfold bridge_hints in E. apply sr_bind_inv in E as (d1 & r1 & E1 & E). injection E1 as <- <-.
  destruct (scan_chain kernel requested into_values) as [[[stop counts] indices]|e']; [|by destruct E as [-> _]].
  by apply write_hints_file_inv in E.
Qed.

(** C8: What [bridge-hints] leaves at the destination.  When it succeeds, the file is complete, the
    bridge's reader accepts it and answers, for every height up to the requested one, the number of
    leaves of the block that the kernel has there, and, in increasing order, exactly the indices
    of the leaves that no later block up to that height spends, without the two outputs that BIP30
    lost.  Those two are counted and keep their index, and no hint names them: the scanner passes over
    them after it has incremented the index, while the README says that they are excluded before.
    When it fails, for any reason, the destination is what it was. *)
Theorem bridge_hints_file_correct `{KernelChainstate} `{!HintsfileLaws} io kernel requested force into_values d d' r :
  is_u32 (default (tip_height kernel) requested) -> (forall m, into_values m ≡ₚ (map_to_list m).*2) ->
  bridge_hints io kernel requested force into_values d = (d', r) ->
  match r with
  | Err _ => output d' = output d
  | Ok _ => let stop := default (tip_height kernel) requested in
      exists file b, output d' = Some file /\ temporary d' = None /\ from_reader file = Ok (b, []) /\
        stop_height b = stop /\ 0 < stop <= tip_height kernel /\
        forall h, 1 <= h <= stop -> exists block l, block_at_height kernel h = Ok block /\
          leaf_count_at_height b h = Some (zlength (eligible_outpoints block)) /\
          indices_at_height b h = Some l /\ StronglySorted Z.lt l /\
          (forall i, i ∈ l <-> exists o, unspent_leaf kernel stop h i o) /\
          forall i o, zlookup (eligible_outpoints block) i = Some o -> bip30_excluded_outpoint h = Some o ->
            0 <= i < zlength (eligible_outpoints block) /\ i ∉ l
  end.
Proof.
  intros Hu Hperm E. destruct r as [[]|e]; [|by eapply bridge_hints_failed].
  destruct (bridge_hints_ok _ _ _ _ _ _ _ Hu Hperm E) as (file & b & Ho & Ht & Er & [Hs Hst Hall]). exists file, b.
  split_and!; [done|done|done|done|apply Hst|apply Hst|]. intros h Hh. destruct (Hall h Hh) as (block & l & Eb & Hc & _ & Hl & Hsort & Hin).
  exists block, l. split_and!; [done..|]. intros i o Ho2 Hb. split; [by eapply zlookup_lt|].
  intros (o' & _ & (block' & Eb' & Ho') & Hb' & _)%Hin. rewrite Eb in Eb'. injection Eb' as <-. congruence.
Qed.

End Reading.

(** ** A concrete chain and a concrete file format *)

(** Every height's indices with their number in front. *)
Definition enc_indices (l : list Z) : bytes := le_bytes 4 (zlength l) ++ count_bytes l.
Definition dec_indices : reader (list Z) := n ← take_le "end" 4; reader_repeat (Z.to_nat n) (take_le "end" 4).

Lemma dec_enc_indices l rest : is_u32 (zlength l) -> Forall is_u32 l -> dec_indices (enc_indices l ++ rest) = Ok (l, rest).
Proof.
  intros Hn Hl. unfold dec_indices, enc_indices. rewrite <- (app_assoc (A := Z)).
  erewrite reader_bind_step by by apply (dec_enc (take_le_codec _ 4)).
  unfold zlength. rewrite Nat2Z.id. by apply (reader_repeat_enc _ _ _ (take_le_codec _ 4)).
Qed.

Definition plain_append (b : bytes * Z * list (list Z)) (l : list Z) : result (bytes * Z * list (list Z)) :=
  require (bool_decide (is_u32 (zlength l))) "too long";; Ok (b.1, b.2 ++ [l]).

Definition plain_hintsfile : HintsfileLib := {|
  Hintsfile := Z * list (list Z);
  hintsfile_from_reader := (stop ← take_le "end" 4; ls ← reader_repeat (Z.to_nat stop) dec_indices; mret (stop, ls));
  hf_stop_height := fst;
  hf_indices_at_height := fun h i => zlookup h.2 (i - 1);
  EliasFano := list Z;
  ef_compress := fun l => l;
  HintsfileBuilder := bytes * Z * list (list Z);
  hb_initialize := fun w stop => require (bool_decide (is_u32 stop)) "too high";; Ok (w, stop, []);
  hb_append := plain_append;
  hb_finish := fun b => Ok (b.1.1 ++ le_bytes 4 b.1.2 ++ concat (enc_indices <$> b.2)) |}.

Lemma plain_appends ls b b' : foldM plain_append ls b = Ok b' -> b' = (b.1, b.2 ++ ls) /\ Forall (fun l => is_u32 (zlength l)) ls.
Proof.
  revert b; induction ls as [|l ls IH]; intros b E.
  { injection E as <-. rewrite app_nil_r. by destruct b. }
  cbn [foldM] in E. apply bind_ok in E as (b1 & E1 & E). unfold plain_append in E1. apply bind_ok in E1 as (? & Hl & [= <-]).
  apply require_ok, bool_decide_eq_true in Hl. apply IH in E as [-> Hf]. cbn. split; [by rewrite <- app_assoc|by constructor].
Qed.

Lemma plain_reads ls rest : Forall (fun l => is_u32 (zlength l) /\ Forall is_u32 l) ls ->
  reader_repeat (length ls) dec_indices (concat (enc_indices <$> ls) ++ rest) = Ok (ls, rest).
Proof.
  induction 1 as [|l ls [Hn Hl] Hls IH]; [done|]. cbn [length reader_repeat fmap list_fmap concat]. rewrite <- (app_assoc (A := Z)).
  erewrite reader_bind_step by by apply dec_enc_indices. by erewrite reader_bind_step by apply IH.
Qed.

#[export] Instance plain_hintsfile_laws : @HintsfileLaws plain_hintsfile.
Proof.
  split. intros w stop ls b0 b file Hs Hl Hls E0 Ea [= <-]. apply bind_ok in E0 as (? & Hu & [= <-]).
  apply require_ok, bool_decide_eq_true in Hu. change (ef_compress <$> ls) with (id <$> ls) in Ea. rewrite list_fmap_id in Ea.
  apply plain_appends in Ea as [-> Hn]. cbn [fst snd app]. exists (le_bytes 4 stop ++ concat (enc_indices <$> ls)), (stop, ls).
  split_and!; [done| |done|done]. cbn [hintsfile_from_reader plain_hintsfile].
  erewrite reader_bind_step by by apply (dec_enc (take_le_codec _ 4)).
  rewrite <- (app_nil_r (concat _)). replace (Z.to_nat stop) with (length ls) by (unfold zlength in Hl; lia).
  erewrite reader_bind_step; [done|]. apply plain_reads. rewrite Forall_forall in *. intros l Hin. split; [by apply Hn|by apply Hls].
Qed.

(** Two blocks: a coinbase with two outputs; then one with an output, and a transaction that
    spends the first output of the first block and creates two, one of which cannot be spent. *)
Record plain_tx := { pt_id : Z; pt_in : list OutPoint; pt_out : list KTxOut }.
Definition plain_kernel : KernelData := {|
  KernelBlock := list plain_tx; KernelTx := plain_tx; kb_hash := fun _ => zeros 32; kb_transactions := fun b => b;
  kb_header := fun _ => Ok (zeros 80); kt_txid := fun t => replicate 32 (pt_id t); kt_inputs := pt_in; kt_outputs := pt_out;
  outpoint_is_null := fun o => bool_decide (txid o = zeros 32) |}.
Definition plain_null : OutPoint := {| txid := zeros 32; vout := 2 ^ 32 - 1 |}.
Definition plain_out (v : Z) : KTxOut := {| ko_value := v; ko_script := [] |}.
Definition plain_blocks : list (list plain_tx) := [
  [];
  [{| pt_id := 1; pt_in := [plain_null]; pt_out := [plain_out 10; plain_out 20] |}];
  [{| pt_id := 2; pt_in := [plain_null]; pt_out := [plain_out 50] |};
   {| pt_id := 3; pt_in := [{| txid := replicate 32 1; vout := 0 |}]; pt_out := [{| ko_value := 0; ko_script := [0x6a] |}; plain_out 60] |}]].
Definition plain_chainstate : @KernelChainstate plain_kernel :=
  @Build_KernelChainstate plain_kernel (list (list plain_tx)) (list plain_tx) (fun c h => zlookup c h) (fun _ b => Ok b).

Definition plain_chain : @KernelChain plain_kernel plain_chainstate :=
  @Build_KernelChain plain_kernel plain_chainstate plain_blocks 2.
Definition plain_io : HintsIo := {|
  create_dir_ok := true; create_ok := true; written := None; reopen_ok := true; sync_ok := true; rename_ok := true; remove_ok := true |}.

Lemma bridge_hints_file_correct_witness :
  let d := {| output := None; temporary := None |} in
  let run := @bridge_hints plain_hintsfile plain_kernel plain_chainstate plain_io plain_chain None false (fun m => (map_to_list m).*2) d in
  is_ok run.2 = true /\ exists file b, output run.1 = Some file /\ @from_reader plain_hintsfile file = Ok (b, []) /\
    @leaf_count_at_height plain_hintsfile b 1 = Some 2 /\ exists l, @indices_at_height plain_hintsfile b 1 = Some l /\
      forall i, i ∈ l <-> exists o, @unspent_leaf plain_kernel plain_chainstate plain_chain 2 1 i o.
Proof.
  intros d run. assert (is_ok run.2 = true) as Hok by (vm_compute; reflexivity). split; [done|].
  pose proof (@bridge_hints_file_correct plain_hintsfile plain_kernel plain_chainstate plain_hintsfile_laws plain_io plain_chain None false
    (fun m => (map_to_list m).*2) d run.1 run.2 ltac:(unfold is_uint; cbn; lia) ltac:(done) ltac:(unfold run; by destruct (bridge_hints _ _ _ _ _ _))) as Hc.
  clearbody run. destruct run as [d' [[]|]]; cbn [fst snd] in *; [|discriminate Hok]. destruct Hc as (file & b & Ho & _ & Hr & _ & _ & Hall).
  destruct (Hall 1 ltac:(cbn; lia)) as (block & l & [= <-] & Hc & Hl & _ & Hi & _). exists file, b. split_and!; [done|done|by rewrite Hc|].
  exists l. by split.
Defined.

End PrefixedHints.
