(* ===== verification/BuildThreads.v ===== *)
(** The threads of the bootstrap build ([FlatForest::write], [Availability],
    [HeightRangeAllocator] and the thread scopes of [src/src/parallel_forest.rs]):
    each thread is a program over the shared memory, one shared access at a time, and a
    run is any sequence of such accesses.  The programs are in [Bootstrap]. *)

From S2P Require Import Prelude Bytes Sorting Files Positions JournalEntry Forest SteadyState JournalFile JournalRecord HeaderIndex KernelBlocks.
Import Files.Files Forest.Forest JournalFile.JournalFile HeaderIndex.HeaderIndex KernelBlocks.KernelBlocks.

(** [floresta_db]'s database while it is built: creating it with a number of buckets and a
    body capacity, opening a writer, writing a batch through a writer (which answers how
    many entries it wrote), and closing it. *)
Class LeafMapBuild `{LeafMapDb} := {
  db_create : Z -> Z -> result Db;
  db_write_only : Db -> result unit;
  writer_put_batch : Db -> list (bytes * bytes) -> Db * result Z;
  db_close : Db -> result Db
}.

Module BuildThreads.

(** ** The height ranges *)

Definition HEIGHT_CHUNK_SIZE : Z := 4.
Definition height_chunk_count (stop_height : Z) : Z := div_ceil stop_height HEIGHT_CHUNK_SIZE.

(** [HeightRangeAllocator::acquire]: the half-open range of heights, and the counter after it. *)
Definition acquire (stop_height next_chunk : Z) : option (Z * Z) * Z :=
  let chunk := next_chunk in
  (zero_based_start ← checked_mul 64 chunk HEIGHT_CHUNK_SIZE;
   if stop_height <=? zero_based_start then None
   else Some (wrap 32 (zero_based_start + 1), wrap 32 (Z.min (zero_based_start + HEIGHT_CHUNK_SIZE) stop_height + 1)),
   wrap 64 (next_chunk + 1)).

Section Machine.
Context `{LeafMapBuild} `{HeightsDb}.

(** ** Shared memory *)

Record Mem := {
  m_forest : FlatForest;
  (** [Availability]: the epoch with its mutex, and the flag *)
  epoch : Z;
  mutex : option nat;
  aborted : bool;
  next_chunk : Z;
  m_leaf_map : Db;
  leaf_map_entries : Z;
  m_headers : HeaderIndex;
  (** how many header batches were written *)
  batches : nat
}.

Definition with_forest (m : Mem) (f : FlatForest) : Mem := {|
  m_forest := f; epoch := epoch m; mutex := mutex m; aborted := aborted m; next_chunk := next_chunk m;
  m_leaf_map := m_leaf_map m; leaf_map_entries := leaf_map_entries m; m_headers := m_headers m; batches := batches m |}.
Definition with_epoch (m : Mem) (e : Z) : Mem := {|
  m_forest := m_forest m; epoch := e; mutex := mutex m; aborted := aborted m; next_chunk := next_chunk m;
  m_leaf_map := m_leaf_map m; leaf_map_entries := leaf_map_entries m; m_headers := m_headers m; batches := batches m |}.
Definition with_mutex (m : Mem) (o : option nat) : Mem := {|
  m_forest := m_forest m; epoch := epoch m; mutex := o; aborted := aborted m; next_chunk := next_chunk m;
  m_leaf_map := m_leaf_map m; leaf_map_entries := leaf_map_entries m; m_headers := m_headers m; batches := batches m |}.
Definition with_aborted (m : Mem) : Mem := {|
  m_forest := m_forest m; epoch := epoch m; mutex := mutex m; aborted := true; next_chunk := next_chunk m;
  m_leaf_map := m_leaf_map m; leaf_map_entries := leaf_map_entries m; m_headers := m_headers m; batches := batches m |}.
Definition with_next (m : Mem) (n : Z) : Mem := {|
  m_forest := m_forest m; epoch := epoch m; mutex := mutex m; aborted := aborted m; next_chunk := n;
  m_leaf_map := m_leaf_map m; leaf_map_entries := leaf_map_entries m; m_headers := m_headers m; batches := batches m |}.
Definition with_leaf_map (m : Mem) (d : Db) : Mem := {|
  m_forest := m_forest m; epoch := epoch m; mutex := mutex m; aborted := aborted m; next_chunk := next_chunk m;
  m_leaf_map := d; leaf_map_entries := leaf_map_entries m; m_headers := m_headers m; batches := batches m |}.
Definition with_entries (m : Mem) (n : Z) : Mem := {|
  m_forest := m_forest m; epoch := epoch m; mutex := mutex m; aborted := aborted m; next_chunk := next_chunk m;
  m_leaf_map := m_leaf_map m; leaf_map_entries := n; m_headers := m_headers m; batches := batches m |}.
Definition with_headers (m : Mem) (x : HeaderIndex) : Mem := {|
  m_forest := m_forest m; epoch := epoch m; mutex := mutex m; aborted := aborted m; next_chunk := next_chunk m;
  m_leaf_map := m_leaf_map m; leaf_map_entries := leaf_map_entries m; m_headers := x; batches := S (batches m) |}.

(** ** Programs

    [R] is the type of the results of the threads, which a join waits for. *)

Inductive Prog (R A : Type) : Type :=
| Ret (r : result A)
| Acquire (k : option (Z * Z) -> Prog R A)
| OpenWriters (k : result unit -> Prog R A)
| Write (position : Z) (value : ForestNodeData) (k : result unit -> Prog R A)
| ReadWhenReady (position : Z) (k : result ForestNodeData -> Prog R A)
| Publish (k : Prog R A)
| SetAborted (k : Prog R A)
| PutEntries (entries : list (bytes * bytes)) (k : result Z -> Prog R A)
| CountEntries (n : Z) (k : Prog R A)
| PutHeaders (headers : list (Z * bytes * bytes)) (k : result unit -> Prog R A)
| Join (thread : nat) (k : result R -> Prog R A).
#[global] Arguments Ret {R A} r.
#[global] Arguments Acquire {R A} k.
#[global] Arguments OpenWriters {R A} k.
#[global] Arguments Write {R A} position value k.
#[global] Arguments ReadWhenReady {R A} position k.
#[global] Arguments Publish {R A} k.
#[global] Arguments SetAborted {R A} k.
#[global] Arguments PutEntries {R A} entries k.
#[global] Arguments CountEntries {R A} n k.
#[global] Arguments PutHeaders {R A} headers k.
#[global] Arguments Join {R A} thread k.

(** Run a program, then another on its result, which may be an error. *)
Definition then_do {R A B} (f : result A -> Prog R B) : Prog R A -> Prog R B :=
  fix then_do (m : Prog R A) : Prog R B :=
    match m with
    | Ret r => f r
    | Acquire k => Acquire (fun x => then_do (k x))
    | OpenWriters k => OpenWriters (fun x => then_do (k x))
    | Write position value k => Write position value (fun x => then_do (k x))
    | ReadWhenReady position k => ReadWhenReady position (fun x => then_do (k x))
    | Publish k => Publish (then_do k)
    | SetAborted k => SetAborted (then_do k)
    | PutEntries entries k => PutEntries entries (fun x => then_do (k x))
    | CountEntries n k => CountEntries n (then_do k)
    | PutHeaders headers k => PutHeaders headers (fun x => then_do (k x))
    | Join thread k => Join thread (fun x => then_do (k x))
    end.

#[global] Instance build_ret {R} : MRet (Prog R) := fun A a => Ret (Ok a).
#[global] Instance build_throw {R} : MThrow (Prog R) := fun A e => Ret (Err e).
#[global] Instance build_bind {R} : MBind (Prog R) := fun A B f =>
  then_do (fun r => match r with Ok a => f a | Err e => Ret (Err e) end).

(** ** Waiting for a node

    Where a thread is inside [read_when_ready]: it spins, takes the mutex, looks again,
    and sleeps on the condition variable until the epoch it saw changes. *)

Inductive Phase :=
| Spinning (spins : nat)
| SpinUnready (spins : nat)
| Locked
| Unready
| Waiting (observed : Z)
| Sleeping (observed : Z)
| Woken (observed : Z).

Inductive Awaited :=
| Blocked
| Moved (m : Mem) (phase : Phase)
| Answered (m : Mem) (r : result ForestNodeData).

Definition waiting_aborted : string := "forest construction aborted while waiting for position".

(** [try_read], which goes on to [otherwise] when the node is not there yet. *)
Definition try_ready (m : Mem) (released : Mem) (position : Z) (otherwise : Awaited) : Awaited :=
  match try_read (m_forest m) position with
  | Err e => Answered released (Err e)
  | Ok (Some node) => Answered released (Ok node)
  | Ok None => otherwise
  end.

Definition await_step (m : Mem) (thread : nat) (position : Z) (phase : Phase) : Awaited :=
  let unlocked := with_mutex m None in
  match phase with
  | Spinning (S spins) => try_ready m m position (Moved m (SpinUnready spins))
  | SpinUnready spins => if aborted m then Answered m (Err waiting_aborted) else Moved m (Spinning spins)
  | Spinning O => match mutex m with None => Moved (with_mutex m (Some thread)) Locked | Some _ => Blocked end
  | Locked => try_ready m unlocked position (Moved m Unready)
  | Unready => if aborted m then Answered unlocked (Err waiting_aborted) else Moved m (Waiting (epoch m))
  | Waiting observed => if (epoch m =? observed) && negb (aborted m) then Moved unlocked (Sleeping observed) else Moved m Locked
  | Sleeping observed => Blocked
  | Woken observed => match mutex m with None => Moved (with_mutex m (Some thread)) (Waiting observed) | Some _ => Blocked end
  end.

(** ** Threads and steps *)

Record Thread (R : Type) := { prog : Prog R R; phase : Phase }.
#[global] Arguments Build_Thread {R}.
#[global] Arguments prog {R}.
#[global] Arguments phase {R}.

Record Sys (R : Type) := { mem : Mem; threads : list (Thread R) }.
#[global] Arguments Build_Sys {R}.
#[global] Arguments mem {R}.
#[global] Arguments threads {R}.

(** [notify_all] *)
Definition notify {R} (t : Thread R) : Thread R :=
  match phase t with
  | Sleeping observed => {| prog := prog t; phase := Woken observed |}
  | _ => t
  end.

(** What the build is given: the last height, the spins before sleeping, and whether each
    write to the header file succeeds. *)
Record BuildEnv := { be_stop_height : Z; be_spin_iterations : nat; be_header_io : nat -> Io }.

Context (env : BuildEnv).

Definition start_thread {R} (p : Prog R R) : Thread R := {| prog := p; phase := Spinning (be_spin_iterations env) |}.

Definition goes_to {R} (s : Sys R) (t : nat) (m : Mem) (p : Prog R R) : option (Sys R) :=
  Some {| mem := m; threads := <[t := start_thread p]> (threads s) |}.

(** One step of thread [t], unless it is blocked or has ended. *)
Definition step_thread {R} (s : Sys R) (t : nat) : option (Sys R) :=
  let m := mem s in
  th ← threads s !! t;
  match prog th with
  | Ret _ => None
  | Acquire k =>
      let '(range, n) := acquire (be_stop_height env) (next_chunk m) in goes_to s t (with_next m n) (k range)
  | OpenWriters k =>
      goes_to s t m (k (db_write_only (m_leaf_map m);;
                        ok_or unavailable (heights (m_headers m));; Ok tt))
  | Write position value k =>
      match write (m_forest m) position value with
      | Ok f => goes_to s t (with_forest m f) (k (Ok tt))
      | Err e => goes_to s t m (k (Err e))
      end
  | ReadWhenReady position k =>
      match await_step m t position (phase th) with
      | Blocked => None
      | Moved m phase => Some {| mem := m; threads := <[t := {| prog := prog th; phase := phase |}]> (threads s) |}
      | Answered m r => goes_to s t m (k r)
      end
  | Publish k =>
      match mutex m with
      | Some _ => None
      | None => Some {| mem := with_epoch m (wrap 64 (epoch m + 1));
                        threads := notify <$> <[t := start_thread k]> (threads s) |}
      end
  | SetAborted k => goes_to s t (with_aborted m) k
  | PutEntries entries k =>
      let '(d, r) := writer_put_batch (m_leaf_map m) entries in goes_to s t (with_leaf_map m d) (k r)
  | CountEntries n k => goes_to s t (with_entries m (wrap 64 (leaf_map_entries m + n))) k
  | PutHeaders headers k =>
      let '(x, r) := put_batch (be_header_io env (batches m)) headers (m_headers m) in goes_to s t (with_headers m x) (k r)
  | Join i k =>
      other ← threads s !! i;
      match prog other with Ret r => goes_to s t m (k r) | _ => None end
  end.

Definition step {R} (s s' : Sys R) : Prop := exists t, step_thread s t = Some s'.

(** Run a schedule: the threads it names, one after the other; one that cannot go on waits. *)
Definition run_schedule {R} (schedule : list nat) (s : Sys R) : Sys R :=
  foldl (fun s t => default s (step_thread s t)) s schedule.

Definition finished {R} (t : Thread R) : option (result R) := match prog t with Ret r => Some r | _ => None end.

(** A thread whose failure aborts the build. *)
Definition aborting {R A} : Prog R A -> Prog R A :=
  then_do (fun r => match r with
                    | Ok a => Ret (Ok a)
                    | Err e => SetAborted (Publish (Ret (Err e)))
                    end).

End Machine.
End BuildThreads.
