(* ===== verification/Bootstrap.v ===== *)
(** The bootstrap build of the forest ([build_parallel_forest] of
    [src/src/parallel_forest.rs]): leaf workers fill the bottom row from the blocks and
    the hints while chasers combine finished children into parents.  The threads run on
    the machine of [BuildThreads]; the theorems are in [BootstrapProofs]. *)

From S2P Require Import Prelude Bytes Sorting Files Positions JournalEntry Forest SteadyState Udata BlockScan JournalFile JournalRecord HeaderIndex KernelBlocks HintScan PrefixedHints BuildThreads.
Import Sorting.Sorting Positions.Positions JournalEntry.JournalEntry Forest.Forest SteadyState.SteadyState Udata.Udata BlockScan.BlockScan HeaderIndex.HeaderIndex KernelBlocks.KernelBlocks HintScan.HintScan BuildThreads.BuildThreads.

(** [trait Hints] *)
Class Hints (H : Type) := {
  hints_stop_height : H -> Z;
  hints_leaf_count : H -> Z -> option Z;
  hints_indices : H -> Z -> option (list Z)
}.
#[export] Instance bridge_hints_are_hints `{HintsfileLib} : Hints PrefixedHints.BridgeHints := {|
  hints_stop_height := PrefixedHints.stop_height;
  hints_leaf_count := PrefixedHints.leaf_count_at_height;
  hints_indices := PrefixedHints.indices_at_height |}.

Module Bootstrap.

(** ** Sizes *)

(** [page_size]: what [sysconf] answers, when that is positive. *)
Definition page_size (sysconf : Z) : Z := if 0 <? sysconf then sysconf else 4096.
Definition nodes_per_two_pages (sysconf : Z) : Z := div_ceil (page_size sysconf * 2) NODE_SIZE.
Definition parents_per_two_child_pages (sysconf : Z) : Z := Z.max (div_ceil (nodes_per_two_pages sysconf) 2) 1.

Definition deterministic_chunk_count (total minimum : Z) : Z := Z.max (total / minimum) 1.
Definition deterministic_chunk (total minimum chunk : Z) : result (Z * Z) :=
  let chunk_count := deterministic_chunk_count total minimum in
  require (negb (chunk_count <=? chunk)) "chunk is outside the deterministic chunks";;
  start ← ok_or "chaser chunk offset overflow" (checked_mul 64 chunk minimum);
  Ok (start, if chunk + 1 =? chunk_count then total else start + minimum).

Definition STEADY_LEAF_MAP_HEADROOM : Z := Z.shiftl 1 30.

Definition aligned_leaf_map_capacity (leaves bytes_per_leaf : Z) : result Z :=
  bytes ← ok_or "leaf map capacity overflow" (checked_mul 64 leaves bytes_per_leaf);
  let bytes := Z.max bytes LEAF_MAP_BLOCK_SIZE in
  ok_or "leaf map capacity overflow" (checked_mul 64 (div_ceil bytes LEAF_MAP_BLOCK_SIZE) LEAF_MAP_BLOCK_SIZE).

(** ** New files *)

(** What is on disk before the build, and what the system answers while it creates files. *)
Record Disk := {
  leaf_map_exists : bool;
  header_file_exists : bool;
  header_index_exists : bool;
  dirs_ok : bool;
  file_ok : bool;
  stale_forest : FlatForest;
  allocate_ok : Z -> bool;
  flush_ok : bool;
  sync_ok : bool
}.

Section Create.
Context `{LeafMapBuild}.

Definition create_leaf_map (disk : Disk) (leaves : Z) : result Db :=
  require (negb (leaf_map_exists disk)) "leaf map path already exists; remove it before rebuilding";;
  require (dirs_ok disk) "failed to create leaf map directory";;
  let desired_buckets := Z.max (div_ceil leaves 4) 1024 in
  bucket_count ← ok_or "leaf map bucket count overflow" (checked_next_power_of_two desired_buckets);
  capacity ← aligned_leaf_map_capacity leaves 32;
  body_capacity ← ok_or "leaf map steady-state reserve overflow" (checked_add 64 capacity STEADY_LEAF_MAP_HEADROOM);
  db_create bucket_count body_capacity.

(** [FlatForest::create]: the marker of an interrupted resize goes, and the file that is
    there is truncated before it gets its new length. *)
Definition create_forest (disk : Disk) (node_count : Z) : result FlatForest :=
  require (negb (node_count =? 0)) "cannot map an empty forest";;
  require (dirs_ok disk) "failed to create forest directory";;
  let forest := set_marker (stale_forest disk) None in
  byte_len ← ok_or "forest file size overflow" (checked_mul 64 node_count NODE_SIZE);
  ok_or "forest does not fit this address space" (try_uint 64 byte_len);;
  ok_or "forest file is too large for posix_fallocate" (try_uint 63 byte_len);;
  require (file_ok disk) "failed to create forest file";;
  let forest := set_count (set_nodes forest ∅) 0 in
  require (allocate_ok disk byte_len) "failed to preallocate forest file";;
  Ok (set_count forest node_count).

(** [HeaderIndex::create] *)
Definition create_header_index `{HeightsDb} (heights_create : Z -> Z -> result HDb) (disk : Disk) (max_height : Z) : result HeaderIndex :=
  require (negb (header_file_exists disk)) "header file already exists";;
  require (negb (header_index_exists disk)) "header index already exists";;
  require (dirs_ok disk) "failed to create header directory";;
  '(header_bytes, bucket_count, body_capacity) ← create_sizes max_height;
  ok_or "header file exceeds off_t" (try_uint 63 header_bytes);;
  require (allocate_ok disk header_bytes) "failed to allocate header file";;
  heights ← heights_create bucket_count body_capacity;
  Ok {| headers := Files.synced (zeros (Z.to_nat header_bytes)); heights := Some heights |}.
End Create.

(** ** The programs of the threads *)

Section Threads.
Context `{NodeHashing} `{Sha256} `{Sha512_256} `{LeafMapBuild} `{HeightsDb} `{KernelChainstate} {HintsType : Type} `{!Hints HintsType}.
Context {R : Type}.
Abbreviation Prog := (Prog R).

Definition acquire_range : Prog (option (Z * Z)) := Acquire (fun r => Ret (Ok r)).
Definition open_writers : Prog unit := OpenWriters (fun r => Ret r).
Definition write_node (position : Z) (value : ForestNodeData) : Prog unit := Write position value (fun r => Ret r).
Definition read_when_ready (position : Z) : Prog ForestNodeData := ReadWhenReady position (fun r => Ret r).
Definition publish : Prog unit := Publish (Ret (Ok tt)).
Definition put_entries (entries : list (bytes * bytes)) : Prog Z := PutEntries entries (fun r => Ret r).
Definition count_entries (n : Z) : Prog unit := CountEntries n (Ret (Ok tt)).
Definition put_headers (headers : list (Z * bytes * bytes)) : Prog unit := PutHeaders headers (fun r => Ret r).

(** ** Leaf workers *)

Section Leaves.
Context (source : KernelChain) (hints : HintsType) (leaf_counts leaf_offsets : list Z) (publish_nodes : Z).

(** [KernelBlockSource::block_at_height] *)
Definition source_block (height : Z) : result KernelBlock :=
  require (negb (tip_height source <? height)) "requested height exceeds kernel tip";;
  block_at_height source height.

(** The header of a block with its hash. *)
Definition source_header (height : Z) : result (bytes * bytes) :=
  block ← source_block height; header ← kb_header block; Ok (header, kb_hash block).

Record VisitState := {
  entries : list (bytes * bytes);
  local_position : Z;
  hint_leaf_position : Z;
  hint_position : Z;
  unpublished : Z
}.
Definition visit_start : VisitState :=
  {| entries := []; local_position := 0; hint_leaf_position := 0; hint_position := 0; unpublished := 0 |}.

Definition header_code (height : Z) (is_coinbase : bool) : Z := Z.lor (shl 32 height 1) (Z.b2z is_coinbase).

Definition leaf_hash (height : Z) (leaf : LeafOutput) : bytes :=
  bytes_of_hash (get_leaf_hash_from_parts (lo_block_hash leaf) (lo_txid leaf) (lo_vout leaf)
    (header_code height (lo_is_coinbase leaf)) (lo_value leaf) (lo_script_pubkey leaf)).

(** The closure that [fill_leaf_range] gives to the source. *)
Definition visit_leaf (height : Z) (unspent : list Z) (block_offset : Z) (s : VisitState) (leaf : LeafOutput) : Prog VisitState :=
  local_hint ← of_result (ok_or "one block contains more than u32::MAX hinted leaves" (try_uint 32 (hint_leaf_position s)));
  let hint := zlookup unspent (hint_position s) in
  of_result (require (negb (match hint with Some hint => hint <? local_hint | None => false end))
    "hint index is duplicated or out of order");;
  let is_hinted := bool_decide (hint = Some local_hint) in
  '(spent, hint_position) ←
    (if force_unindexed leaf then
       of_result (require (negb is_hinted) "hardcoded unspendable leaf is marked in hints");;
       mret (false, hint_position s)
     else if is_hinted then mret (false, hint_position s + 1)
     else mret (true, hint_position s));
  let bottom_position := block_offset + local_position s in
  write_node bottom_position {| nd_hash := leaf_hash height leaf; nd_spent := spent |};;
  let entries := if negb spent && negb (force_unindexed leaf)
    then entries s ++ [(leaf_map_key {| txid := lo_txid leaf; vout := lo_vout leaf |}, le_bytes 8 bottom_position)]
    else entries s in
  let s' := fun unpublished => {|
    entries := entries; local_position := local_position s + 1; hint_leaf_position := hint_leaf_position s + 1;
    hint_position := hint_position; unpublished := unpublished |} in
  if publish_nodes <=? unpublished s + 1 then publish;; mret (s' 0) else mret (s' (unpublished s + 1)).

(** One height of [fill_leaf_range]; the state is the headers read so far. *)
Definition fill_height (headers : list (Z * bytes * bytes)) (height : Z) : Prog (list (Z * bytes * bytes)) :=
  expected_count ← of_result (ok_or "index out of bounds" (zlookup leaf_counts (height - 1)));
  block_offset ← of_result (ok_or "index out of bounds" (zlookup leaf_offsets (height - 1)));
  unspent ← of_result (ok_or "hints unavailable" (hints_indices hints height));
  of_result (require (increasing unspent) "hints are not strictly increasing");;
  block ← of_result (source_block height);
  header ← of_result (kb_header block);
  '(s, leaves) ← visit_kernel_leaf_outputs (visit_leaf height unspent block_offset) height block visit_start;
  let headers := headers ++ [(height, header, kb_hash block)] in
  of_result (require ((leaves =? expected_count) && (local_position s =? expected_count)) "leaf count changed");;
  of_result (require (hint_position s =? zlength unspent) "hint index is outside the block's leaves");;
  (if bool_decide (entries s = []) then mret tt
   else indexed ← put_entries (entries s); count_entries indexed);;
  publish;;
  mret headers.

Definition fill_leaf_range (range : Z * Z) : Prog unit :=
  headers ← loopM fill_height (zrange range.1 range.2) [];
  put_headers headers.

(** The loop of a leaf worker; a thread acquires at most one more range than there are. *)
Fixpoint leaf_worker_loop (fuel : nat) : Prog unit :=
  match fuel with
  | O => mthrow out_of_fuel
  | S fuel =>
      range ← acquire_range;
      match range with
      | None => mret tt
      | Some range => open_writers;; fill_leaf_range range;; leaf_worker_loop fuel
      end
  end.

Definition leaf_worker (stop_height : Z) : Prog unit :=
  aborting (leaf_worker_loop (S (Z.to_nat (height_chunk_count stop_height)))).
End Leaves.

(** ** Chasers *)

Section Chasers.
Context (worker_count leaves forest_rows min_parent_batch : Z).

Definition chase_parent (child_start parent_start : Z) (_ : unit) (parent_offset : Z) : Prog unit :=
  let left_position := child_start + parent_offset * 2 in
  left ← read_when_ready left_position;
  right ← read_when_ready (left_position + 1);
  write_node (parent_start + parent_offset) (combine_children left right).

Definition chase_chunk (child_start parent_start : Z) (parent_range : Z * Z) : Prog unit :=
  let last_child := child_start + parent_range.2 * 2 - 1 in
  read_when_ready last_child;;
  loopM (chase_parent child_start parent_start) (zrange parent_range.1 parent_range.2) tt;;
  publish.

(** The [while] loop over the chunks of a row that fall to a worker. *)
Fixpoint chase_chunks (fuel : nat) (child_start parent_start parent_count chunk_count chunk : Z) : Prog unit :=
  match fuel with
  | O => mthrow out_of_fuel
  | S fuel =>
      if chunk <? chunk_count then
        parent_range ← of_result (deterministic_chunk parent_count min_parent_batch chunk);
        chase_chunk child_start parent_start parent_range;;
        chunk ← of_result (ok_or "chaser chunk index overflow" (checked_add 64 chunk worker_count));
        chase_chunks fuel child_start parent_start parent_count chunk_count chunk
      else mret tt
  end.

Fixpoint chase_rows (worker : Z) (rows : list Z) : Prog unit :=
  match rows with
  | [] => mret tt
  | row :: rows =>
      let child_count := Z.shiftr leaves row in
      let parent_count := child_count / 2 in
      if parent_count =? 0 then mret tt
      else
        child_start ← of_result (start_position_at_row row forest_rows);
        parent_start ← of_result (start_position_at_row (row + 1) forest_rows);
        let chunk_count := deterministic_chunk_count parent_count min_parent_batch in
        chase_chunks (S (Z.to_nat chunk_count)) child_start parent_start parent_count chunk_count worker;;
        chase_rows worker rows
  end.

Definition run_chaser (worker : Z) : Prog unit := aborting (chase_rows worker (zrange 0 forest_rows)).
End Chasers.
End Threads.

(** ** Counting the hinted leaves

    The workers share nothing but the allocator, and the hints do not change: counting the
    heights of a range is one step. *)

Section Build.
Context `{NodeHashing} `{Sha256} `{Sha512_256} `{LeafMapBuild} `{HeightsDb} `{KernelChainstate} {HintsType : Type} `{!Hints HintsType}.

Inductive Counter := Counting (count : Z) | Counted (r : result Z).

Definition count_height (hints : HintsType) (count height : Z) : result Z :=
  at_height ← ok_or "hints unavailable" (hints_indices hints height);
  ok_or "hinted leaf count overflow" (checked_add 64 count (zlength at_height)).

Definition count_turn (hints : HintsType) (stop_height : Z) (s : Z * list Counter) (worker : nat) : Z * list Counter :=
  match s.2 !! worker with
  | Some (Counting count) =>
      let '(range, next) := acquire stop_height s.1 in
      (next, <[worker := match range with
                         | None => Counted (Ok count)
                         | Some range =>
                             match foldM (count_height hints) (zrange range.1 range.2) count with
                             | Ok count => Counting count
                             | Err e => Counted (Err e)
                             end
                         end]> s.2)
  | _ => s
  end.

Definition still_running : string := "<a thread is still running>".
Definition join_counter (count : Z) (c : Counter) : result Z :=
  match c with
  | Counting _ => Err still_running
  | Counted r => n ← r; ok_or "hinted leaf count overflow" (checked_add 64 count n)
  end.

Definition count_hinted_leaves (hints : HintsType) (stop_height worker_count : Z) (schedule : list nat) : result Z :=
  let worker_count := Z.max (Z.min worker_count (height_chunk_count stop_height)) 1 in
  let s := foldl (count_turn hints stop_height) (0, replicate (Z.to_nat worker_count) (Counting 0)) schedule in
  foldM join_counter s.2 0.

(** ** The build *)

Record ParallelForestConfig := {
  minimum_leaf_capacity : option Z;
  leaf_workers : Z;
  chaser_workers : Z;
  spin_iterations : nat
}.

Definition validate_config (config : ParallelForestConfig) : result unit :=
  require (negb (leaf_workers config =? 0)) "leaf worker count must be greater than zero";;
  require (negb (chaser_workers config =? 0)) "chaser worker count must be greater than zero".

(** The thread that waits for the others: leaf workers first, whose failure aborts the build
    again, then the chasers; the first failure is the result. *)
Definition join_leaf (failure : option string) (thread : nat) : Prog unit (option string) :=
  Join thread (fun r =>
    match r with
    | Ok _ => mret failure
    | Err e => SetAborted (Publish (mret (Some (default e failure))))
    end).
Definition join_chaser (failure : option string) (thread : nat) : Prog unit (option string) :=
  Join thread (fun r => mret (match r with Ok _ => failure | Err e => Some (default e failure) end)).

Definition join_all (chasers leaf_worker_count : nat) : Prog unit unit :=
  failure ← loopM join_leaf (seq chasers leaf_worker_count) None;
  failure ← loopM join_chaser (seq 0 chasers) failure;
  match failure with Some e => mthrow e | None => mret tt end.

(** What is computed before the threads start. *)
Record Plan := {
  pl_stop_height : Z;
  pl_leaf_counts : list Z;
  pl_leaf_offsets : list Z;
  pl_leaves : Z;
  pl_rows : Z
}.

Definition leaf_worker_count (config : ParallelForestConfig) (stop_height : Z) : Z :=
  Z.max (Z.min (leaf_workers config) (height_chunk_count stop_height)) 1.

(** The threads of [run_builders]: chasers, leaf workers, and the joining one. *)
Definition builder_programs (source : KernelChain) (hints : HintsType) (config : ParallelForestConfig) (sysconf : Z) (plan : Plan)
  : list (Prog unit unit) :=
  let leaf_worker_count := Z.to_nat (leaf_worker_count config (pl_stop_height plan)) in
  let chasers := Z.to_nat (chaser_workers config) in
  ((fun worker => run_chaser (chaser_workers config) (pl_leaves plan) (pl_rows plan) (parents_per_two_child_pages sysconf) (Z.of_nat worker))
     <$> seq 0 chasers)
  ++ replicate leaf_worker_count
       (leaf_worker source hints (pl_leaf_counts plan) (pl_leaf_offsets plan) (nodes_per_two_pages sysconf) (pl_stop_height plan))
  ++ [join_all chasers leaf_worker_count].

Definition builder_env (config : ParallelForestConfig) (plan : Plan) (header_io : nat -> JournalFile.Io) : BuildEnv := {|
  be_stop_height := pl_stop_height plan; be_spin_iterations := spin_iterations config; be_header_io := header_io |}.

Definition fresh_mem (forest : FlatForest) (db : Db) (x : HeaderIndex) : Mem := {|
  m_forest := forest; epoch := 0; mutex := None; aborted := false; next_chunk := 0; m_leaf_map := db;
  leaf_map_entries := 0; m_headers := x; batches := 1 |}.

Definition start_builders (source : KernelChain) (hints : HintsType) (config : ParallelForestConfig) (sysconf : Z) (plan : Plan)
    (env : BuildEnv) (m : Mem) : Sys unit :=
  {| mem := m; threads := start_thread env <$> builder_programs source hints config sysconf plan |}.

(** What the last thread returned. *)
Definition scope_result (s : Sys unit) : result unit :=
  match last (threads s) with
  | Some t => default (Err still_running) (finished t)
  | None => Err still_running
  end.

Definition run_builders (source : KernelChain) (hints : HintsType) (config : ParallelForestConfig) (sysconf : Z) (plan : Plan)
    (header_io : nat -> JournalFile.Io) (schedule : list nat) (m : Mem) : result Mem :=
  let env := builder_env config plan header_io in
  let s := run_schedule env schedule (start_builders source hints config sysconf plan env m) in
  scope_result s;; Ok (mem s).

(** [validate_forest] *)
Record ForestRoot := { root_at : Z; root_row : Z; root_node : ForestNodeData }.

Definition validate_row (forest : FlatForest) (leaves forest_rows : Z) (s : Z * list ForestRoot) (row : Z) : result (Z * list ForestRoot) :=
  let '(initialized, roots) := s in
  let row_nodes := Z.shiftr leaves row in
  row_start ← start_position_at_row row forest_rows;
  initialized ← foldM (fun initialized offset =>
    node ← try_read forest (row_start + offset);
    ok_or "forest position is uninitialized" node;; Ok (initialized + 1)) (zrange 0 row_nodes) initialized;
  if has_root leaves row then
    let position := row_start + row_nodes - 1 in
    node ← try_read forest position;
    node ← ok_or "root was checked as initialized" node;
    Ok (initialized, roots ++ [{| root_at := position; root_row := row; root_node := node |}])
  else Ok (initialized, roots).

Fixpoint validate_rows (forest : FlatForest) (leaves forest_rows : Z) (rows : list Z) (s : Z * list ForestRoot) : result (Z * list ForestRoot) :=
  match rows with
  | [] => Ok s
  | row :: rows =>
      if Z.shiftr leaves row =? 0 then Ok s
      else s ← validate_row forest leaves forest_rows s row; validate_rows forest leaves forest_rows rows s
  end.

Definition validate_forest (forest : FlatForest) (leaves forest_rows : Z) : result (Z * list ForestRoot) :=
  '(initialized, roots) ← validate_rows forest leaves forest_rows (zrange 0 (forest_rows + 1)) (0, []);
  Ok (initialized, sort_by_key root_row (fun a b => b <=? a) roots).

Definition leaf_offset (s : list Z * Z) (count : Z) : result (list Z * Z) :=
  leaves ← ok_or "total leaf count overflow" (checked_add 64 s.2 count);
  Ok (s.1 ++ [s.2], leaves).

(** The leaves that the hints announce, per height and in total. *)
Definition plan_leaves (hints : HintsType) : result (list Z * list Z * Z) :=
  let stop_height := hints_stop_height hints in
  require (negb (stop_height =? 0)) "hintsfile stop height must be greater than zero";;
  leaf_counts ← mapM (fun height => ok_or "leaf count unavailable" (hints_leaf_count hints height)) (zrange 1 (stop_height + 1));
  '(leaf_offsets, leaves) ← foldM leaf_offset leaf_counts ([], 0);
  require (negb (leaves =? 0)) "no Utreexo leaves found";;
  Ok (leaf_counts, leaf_offsets, leaves).

Definition plan_rows (config : ParallelForestConfig) (leaves : Z) : result Z :=
  let capacity_leaves := default leaves (minimum_leaf_capacity config) in
  require (negb (capacity_leaves <? leaves)) "configured forest capacity is below the bootstrap leaves";;
  Ok (tree_rows capacity_leaves).

(** What the build leaves, and what it reports ([ForestBuildSummary], statistics aside). *)
Record Built := {
  bt_forest : FlatForest;
  bt_leaf_map : Db;
  bt_header_file : Files.File;
  bt_heights : HeightsFile;
  bt_leaves : Z;
  bt_initialized_nodes : Z;
  bt_file_nodes : Z;
  bt_leaf_map_entries : Z;
  bt_file_bytes : Z;
  bt_roots : list ForestRoot
}.

(** [HeaderIndex::close] *)
Definition close_headers (disk : Disk) (x : HeaderIndex) : result (Files.File * HeightsFile) :=
  database ← ok_or unavailable (heights x);
  let '(file, closed) := hdb_close database in
  require (sync_ok disk) "failed to sync headers";;
  closed;;
  Ok (Files.now (headers x), file).

Definition build_with_source (source : KernelChain) (hints : HintsType) (config : ParallelForestConfig) (sysconf : Z) (disk : Disk)
    (heights_create : Z -> Z -> result HDb) (header_io : nat -> JournalFile.Io) (count_schedule schedule : list nat) : result Built :=
  validate_config config;;
  '(leaf_counts, leaf_offsets, leaves) ← plan_leaves hints;
  live_leaves ← count_hinted_leaves hints (hints_stop_height hints) (leaf_workers config) count_schedule;
  rows ← plan_rows config leaves;
  let plan := {| pl_stop_height := hints_stop_height hints; pl_leaf_counts := leaf_counts; pl_leaf_offsets := leaf_offsets;
                 pl_leaves := leaves; pl_rows := rows |} in
  file_nodes ← forest_capacity (pl_rows plan);
  leaf_map ← create_leaf_map disk live_leaves;
  header_index ← create_header_index heights_create disk (pl_stop_height plan);
  '(header, block_hash) ← source_header source 0;
  let '(header_index, r) := put_batch (header_io 0%nat) [(0, header, block_hash)] header_index in
  r;;
  forest ← create_forest disk file_nodes;
  m ← run_builders source hints config sysconf plan header_io schedule (fresh_mem forest leaf_map header_index);
  '(initialized_nodes, roots) ← validate_forest (m_forest m) leaves (pl_rows plan);
  require (flush_ok disk) "failed to flush completed forest";;
  require (leaf_map_entries m =? live_leaves) "leaf map entry mismatch";;
  leaf_map ← db_close (m_leaf_map m);
  '(header_file, heights) ← close_headers disk (m_headers m);
  file_bytes ← ok_or "forest file size overflow" (checked_mul 64 file_nodes NODE_SIZE);
  Ok {| bt_forest := m_forest m; bt_leaf_map := leaf_map; bt_header_file := header_file; bt_heights := heights;
        bt_leaves := leaves; bt_initialized_nodes := initialized_nodes; bt_file_nodes := file_nodes;
        bt_leaf_map_entries := leaf_map_entries m; bt_file_bytes := file_bytes; bt_roots := roots |}.

(** [build_parallel_forest] *)
Definition build_parallel_forest (source : KernelChain) (hints : HintsType) (config : ParallelForestConfig) (sysconf : Z) (disk : Disk)
    (heights_create : Z -> Z -> result HDb) (header_io : nat -> JournalFile.Io) (count_schedule schedule : list nat) : result Built :=
  require (negb (tip_height source <? hints_stop_height hints)) "hints stop height exceeds kernel tip";;
  build_with_source source hints config sysconf disk heights_create header_io count_schedule schedule.
End Build.
End Bootstrap.
