(* ===== verification/BuildRuns.v ===== *)
(** Runs of the threads of [BuildThreads], whatever their programs: they end, and what a
    thread does can be read off its program. *)

From S2P Require Import Prelude Bytes Sorting Files Positions JournalEntry Forest SteadyState JournalFile JournalRecord HeaderIndex KernelBlocks BuildThreads.
Import Files.Files Forest.Forest JournalFile.JournalFile HeaderIndex.HeaderIndex KernelBlocks.KernelBlocks BuildThreads.BuildThreads.

Module BuildRuns.
Section Runs.
Context `{LeafMapBuild} `{HeightsDb}.

(** ** Every run ends *)

Section Ends.
Context {R : Type}.

(** What a program goes on with after its first access. *)
Definition continues {A} (p' p : Prog R A) : Prop :=
  match p with
  | Ret _ => False
  | Acquire k => exists x, p' = k x
  | OpenWriters k => exists x, p' = k x
  | Write _ _ k => exists x, p' = k x
  | ReadWhenReady _ k => exists x, p' = k x
  | Publish k => p' = k
  | SetAborted k => p' = k
  | PutEntries _ k => exists x, p' = k x
  | CountEntries _ k => p' = k
  | PutHeaders _ k => exists x, p' = k x
  | Join _ k => exists x, p' = k x
  end.

Lemma continues_wf {A} (p : Prog R A) : Acc continues p.
Proof. induction p; constructor; cbn; intros p'; [done|..]; try (intros (x & ->); by auto); intros ->; done. Qed.

(** One program of a list goes on, the others stay. *)
Definition one_continues (l' l : list (Prog R R)) : Prop :=
  exists i p p', l !! i = Some p /\ continues p' p /\ l' = <[i := p']> l.

Lemma one_continues_cons p l : Acc continues p -> Acc one_continues l -> Acc one_continues (p :: l).
Proof.
  intros Hp. revert l. induction Hp as [p _ IHp]. intros l Hl. induction Hl as [l Hl IHl]. constructor.
  intros l' ([|i] & q & q' & Hi & Hq & ->); cbn in *.
  - injection Hi as ->. apply IHp; [done|by constructor].
  - apply IHl. by exists i, q, q'.
Qed.

Lemma one_continues_wf l : Acc one_continues l.
Proof.
  induction l as [|p l IH]; [constructor; by intros l' (i & p & p' & Hi & _)|]. apply one_continues_cons; [apply continues_wf|done].
Qed.

(** How many of its own steps a waiting thread has left, until another thread publishes. *)
Definition phase_rank (m : Mem) (ph : Phase) : nat :=
  match ph with
  | Spinning n => 12 + 2 * n
  | SpinUnready n => 13 + 2 * n
  | Locked => 6
  | Unready => 5
  | Waiting e => if (epoch m =? e) && negb (aborted m) then 4 else 7
  | Sleeping _ => 0
  | Woken e => if (epoch m =? e) && negb (aborted m) then 5 else 8
  end.

Lemma await_moves m t p ph m' ph' : await_step m t p ph = Moved m' ph' ->
  (phase_rank m' ph' < phase_rank m ph)%nat /\ epoch m' = epoch m /\ aborted m' = aborted m.
Proof.
  destruct ph as [[|n]|n| | |e|e|e]; cbn [await_step]; unfold try_ready.
  - destruct (mutex m); [done|]. intros [= <- <-]. cbn. split_and!; [lia|done..].
  - destruct (try_read _ _) as [[?|]|]; intros [= <- <-]. cbn. split_and!; [lia|done..].
  - destruct (aborted m) eqn:Ea; [done|]. intros [= <- <-]. cbn. split_and!; [lia|done..].
  - destruct (try_read _ _) as [[?|]|]; intros [= <- <-]. cbn. split_and!; [lia|done..].
  - destruct (aborted m) eqn:Ea; [done|]. intros [= <- <-]. cbn. rewrite Ea, Z.eqb_refl. cbn. split_and!; [lia|done..].
  - destruct ((epoch m =? e) && _) eqn:Ee; intros [= <- <-]; cbn; rewrite Ee; (split_and!; [lia|done..]).
  - done.
  - destruct (mutex m); [done|]. intros [= <- <-]. cbn. destruct ((epoch m =? e) && _); (split_and!; [lia|done..]).
Qed.

Definition total_rank (s : Sys R) : nat := sum_list (phase_rank (mem s) <$> (phase <$> threads s)).

Lemma sum_list_insert (l : list nat) i x y : l !! i = Some x -> (sum_list (<[i := y]> l) + x = sum_list l + y)%nat.
Proof.
  revert i; induction l as [|z l IH]; intros [|i] Hi; cbn in *; [done..| |].
  - injection Hi as ->. lia.
  - specialize (IH i Hi). change (z + sum_list (<[i := y]> l) + x = z + sum_list l + y)%nat. lia.
Qed.

Lemma phase_rank_ext m m' ph : epoch m' = epoch m -> aborted m' = aborted m -> phase_rank m' ph = phase_rank m ph.
Proof. intros He Ha. destruct ph; cbn; [done..| | |]; by rewrite ?He, ?Ha. Qed.

Lemma prog_notify (l : list (Thread R)) : prog <$> (notify <$> l) = prog <$> l.
Proof. rewrite <- list_fmap_compose. apply list_fmap_ext. intros _ [p ph] _. by destruct ph. Qed.

Context (env : BuildEnv).

(** A step either lets one program go on, or brings a waiting thread closer to sleep. *)
Lemma step_cases (s s' : Sys R) : step env s s' ->
  one_continues (prog <$> threads s') (prog <$> threads s) \/
  (prog <$> threads s' = prog <$> threads s /\ (total_rank s' < total_rank s)%nat).
Proof.
  intros (t & E). unfold step_thread in E. destruct (threads s !! t) as [th|] eqn:Et; [|done]. cbn [mbind option_bind] in E.
  assert (forall m p, continues p (prog th) -> goes_to env s t m p = Some s' -> one_continues (prog <$> threads s') (prog <$> threads s)) as Hgo.
  { intros m p Hp [= <-]. exists t, (prog th), p. cbn. rewrite list_lookup_fmap, Et, list_fmap_insert. by split_and!. }
  destruct (prog th) as [r|k|k|pos v k|pos k|k|k|es k|n k|hs k|j k] eqn:Ep; cbn [continues] in Hgo.
  - done.
  - left. destruct (acquire _ _) in E. eapply Hgo; [by eexists|done].
  - left. eapply Hgo; [by eexists|done].
  - left. destruct (write _ _ _); eapply Hgo; try done; by eexists.
  - destruct (await_step _ _ _ _) as [|m' ph'|m' r] eqn:Ea; [done| |left; eapply Hgo; [by eexists|done]].
    right. injection E as <-. cbn [threads]. split.
    + rewrite list_fmap_insert. cbn. rewrite list_insert_id; [done|]. rewrite list_lookup_fmap, Et. cbn. by rewrite Ep.
    + apply await_moves in Ea as (Hr & He & Hb). unfold total_rank. cbn [mem threads].
      assert (forall ph, phase_rank m' ph = phase_rank (mem s) ph) as Hpr by (intros ph; apply phase_rank_ext; done).
      rewrite (list_fmap_ext (phase_rank m') (phase_rank (mem s))) by (intros; apply Hpr). rewrite Hpr in Hr. rewrite !list_fmap_insert. cbn [phase].
      pose proof (sum_list_insert (phase_rank (mem s) <$> (phase <$> threads s)) t (phase_rank (mem s) (phase th)) (phase_rank (mem s) ph')) as Hsum.
      rewrite !list_lookup_fmap, Et in Hsum. specialize (Hsum eq_refl). lia.
  - destruct (mutex (mem s)); [done|]. injection E as <-. cbn [threads]. left. rewrite prog_notify, list_fmap_insert.
    exists t, (prog th), k. rewrite list_lookup_fmap, Et. cbn. rewrite Ep. by split_and!.
  - left. eapply Hgo; [by apply eq_refl|done].
  - left. destruct (writer_put_batch _ _). eapply Hgo; [by eexists|done].
  - left. eapply Hgo; [by apply eq_refl|done].
  - left. destruct (put_batch _ _ _). eapply Hgo; [by eexists|done].
  - left. destruct (threads s !! j) as [other|]; [|done]. cbn [mbind option_bind] in E. destruct (prog other); try done.
    eapply Hgo; [by eexists|done].
Qed.

(** No schedule keeps the threads going for ever. *)
Lemma runs_end (s : Sys R) : Acc (fun s' s => step env s s') s.
Proof.
  remember (prog <$> threads s) as ps eqn:Eps. revert s Eps. induction (one_continues_wf ps) as [ps _ IHp]. intros s ->.
  remember (total_rank s) as n eqn:En. revert s IHp En. induction n as [n IHn] using lt_wf_ind. intros s IHp ->. constructor.
  intros s' [Hone|[Heq Hlt]]%step_cases; [by eapply IHp|]. eapply IHn; [exact Hlt| |done]. by rewrite Heq.
Qed.
End Ends.

(** ** What a program does when its accesses succeed *)

Inductive Instr :=
| IAcquire (more : nat)
| IOpen
| IWrite (position : Z) (value : ForestNodeData)
| IAwait (position : Z)
| IPublish
| IPut (entries : list (bytes * bytes))
| ICount (n : Z)
| IHeaders (headers : list (Z * bytes * bytes))
| IJoin (thread : nat).

(** Accesses, and a result. *)
Definition WR (A : Type) : Type := list Instr * result A.
#[export] Instance wr_ret : MRet WR := fun A a => ([], Ok a).
#[export] Instance wr_throw : MThrow WR := fun A e => ([], Err e).
#[export] Instance wr_bind : MBind WR := fun A B f m =>
  match m.2 with Ok a => (m.1 ++ (f a).1, (f a).2) | Err e => (m.1, Err e) end.

Section Scripts.
Context {R : Type} (specv : Z -> ForestNodeData).

(** The accesses of a program that reads [specv] from the forest; acquiring a range and
    joining a thread are left to [follows]. *)
Fixpoint script {A} (p : Prog R A) : WR A :=
  match p with
  | Ret r => ([], r)
  | OpenWriters k => let x := script (k (Ok tt)) in (IOpen :: x.1, x.2)
  | Write position value k => let x := script (k (Ok tt)) in (IWrite position value :: x.1, x.2)
  | ReadWhenReady position k => let x := script (k (Ok (specv position))) in (IAwait position :: x.1, x.2)
  | Publish k => let x := script k in (IPublish :: x.1, x.2)
  | PutEntries es k => let x := script (k (Ok (zlength es))) in (IPut es :: x.1, x.2)
  | CountEntries n k => let x := script k in (ICount n :: x.1, x.2)
  | PutHeaders hs k => let x := script (k (Ok tt)) in (IHeaders hs :: x.1, x.2)
  | Acquire _ | Join _ _ | SetAborted _ => ([], Err "")
  end.

Lemma script_bind {A B} (p : Prog R A) (f : A -> Prog R B) : script (p ≫= f) = (script p ≫= fun a => script (f a)).
Proof.
  unfold mbind at 1, build_bind. induction p as [r|k IH|k IH|pos v k IH|pos k IH|k IH|k IH|es k IH|n k IH|hs k IH|j k IH];
    cbn [then_do script]; unfold mbind, wr_bind in *; cbn [fst snd]; try done.
  all: try (rewrite IH; destruct (script _).2; cbn; done).
  destruct r as [a|e]; cbn; [by destruct (script (f a))|done].
Qed.

Lemma script_of_result {A} (r : result A) : script (of_result r) = ([], r).
Proof. by destruct r. Qed.

Lemma script_loop {A S} (f : S -> A -> Prog R S) l s : script (loopM f l s) = loopM (fun s a => script (f s a)) l s.
Proof.
  revert s; induction l as [|a l IH]; intros s; [done|]. cbn [loopM]. rewrite script_bind. unfold mbind, wr_bind.
  destruct (script (f s a)).2; [|done]. by rewrite IH.
Qed.

(** Programs that give up at the first access that fails. *)
Definition gives_up {A} (p : Prog R A) : Prop := exists e, p = Ret (Err e).

Fixpoint strict {A} (p : Prog R A) : Prop :=
  match p with
  | Ret _ => True
  | OpenWriters k => strict (k (Ok tt)) /\ forall e, gives_up (k (Err e))
  | Write _ _ k => strict (k (Ok tt)) /\ forall e, gives_up (k (Err e))
  | ReadWhenReady _ k => (forall v, strict (k (Ok v))) /\ forall e, gives_up (k (Err e))
  | Publish k => strict k
  | PutEntries _ k => (forall n, strict (k (Ok n))) /\ forall e, gives_up (k (Err e))
  | CountEntries _ k => strict k
  | PutHeaders _ k => strict (k (Ok tt)) /\ forall e, gives_up (k (Err e))
  | Acquire _ | Join _ _ | SetAborted _ => False
  end.

Lemma gives_up_bind {A B} (p : Prog R A) (f : A -> Prog R B) : gives_up p -> gives_up (p ≫= f).
Proof. intros (e & ->). by exists e. Qed.

Lemma strict_bind {A B} (p : Prog R A) (f : A -> Prog R B) : strict p -> (forall a, strict (f a)) -> strict (p ≫= f).
Proof.
  intros Hp Hf. unfold mbind, build_bind. induction p as [r|k IH|k IH|pos v k IH|pos k IH|k IH|k IH|es k IH|n k IH|hs k IH|j k IH];
    cbn [then_do strict] in *; try done.
  - destruct r; [apply Hf|done].
  - destruct Hp as [Hk He]. split; [by apply IH|]. intros e. by apply (gives_up_bind _ f).
  - destruct Hp as [Hk He]. split; [by apply IH|]. intros e. by apply (gives_up_bind _ f).
  - destruct Hp as [Hk He]. split; [intros; by apply IH|]. intros e. by apply (gives_up_bind _ f).
  - by apply IH.
  - destruct Hp as [Hk He]. split; [intros; by apply IH|]. intros e. by apply (gives_up_bind _ f).
  - by apply IH.
  - destruct Hp as [Hk He]. split; [by apply IH|]. intros e. by apply (gives_up_bind _ f).
Qed.

Lemma strict_of_result {A} (r : result A) : strict (of_result r : Prog R A).
Proof. by destruct r. Qed.

Lemma strict_loop {A S} (f : S -> A -> Prog R S) l s : (forall s a, strict (f s a)) -> strict (loopM f l s).
Proof. intros Hf. revert s; induction l as [|a l IH]; intros s; [done|]. cbn [loopM]. by apply strict_bind. Qed.

(** ** What a program that returns has checked, whatever its accesses answer *)

Fixpoint returns {A} (p : Prog R A) (Q : A -> Prop) : Prop :=
  match p with
  | Ret (Ok a) => Q a
  | Ret (Err _) => True
  | Acquire k => forall x, returns (k x) Q
  | OpenWriters k => forall x, returns (k x) Q
  | Write _ _ k => forall x, returns (k x) Q
  | ReadWhenReady _ k => forall x, returns (k x) Q
  | Publish k => returns k Q
  | SetAborted k => returns k Q
  | PutEntries _ k => forall x, returns (k x) Q
  | CountEntries _ k => returns k Q
  | PutHeaders _ k => forall x, returns (k x) Q
  | Join _ k => forall x, returns (k x) Q
  end.

Lemma returns_mono {A} (p : Prog R A) (Q Q' : A -> Prop) : (forall a, Q a -> Q' a) -> returns p Q -> returns p Q'.
Proof.
  intros HQ. induction p as [[a|e]|k IH|k IH|pos v k IH|pos k IH|k IH|k IH|es k IH|n k IH|hs k IH|j k IH]; cbn; auto.
Qed.

Lemma returns_bind {A B} (p : Prog R A) (f : A -> Prog R B) (P : A -> Prop) Q :
  returns p P -> (forall a, P a -> returns (f a) Q) -> returns (p ≫= f) Q.
Proof.
  intros Hp Hf. unfold mbind, build_bind. induction p as [[a|e]|k IH|k IH|pos v k IH|pos k IH|k IH|k IH|es k IH|n k IH|hs k IH|j k IH];
    cbn in *; auto.
Qed.

Lemma returns_of_result {A} (r : result A) : returns (of_result r : Prog R A) (fun a => r = Ok a).
Proof. by destruct r. Qed.

Lemma returns_any {A} (p : Prog R A) : returns p (fun _ => True).
Proof. induction p as [[a|e]|k IH|k IH|pos v k IH|pos k IH|k IH|k IH|es k IH|n k IH|hs k IH|j k IH]; cbn; auto. Qed.

(** Programs that only write nodes and publish: they return what their script says. *)
Fixpoint writes_only {A} (p : Prog R A) : Prop :=
  match p with
  | Ret _ => True
  | Write _ _ k => writes_only (k (Ok tt)) /\ forall e, gives_up (k (Err e))
  | Publish k => writes_only k
  | _ => False
  end.

Lemma writes_only_bind {A B} (p : Prog R A) (f : A -> Prog R B) : writes_only p -> (forall a, writes_only (f a)) -> writes_only (p ≫= f).
Proof.
  intros Hp Hf. unfold mbind, build_bind. induction p as [r|k IH|k IH|pos v k IH|pos k IH|k IH|k IH|es k IH|n k IH|hs k IH|j k IH];
    cbn [then_do writes_only] in *; try done.
  - destruct r; [apply Hf|done].
  - destruct Hp as [Hk He]. split; [by apply IH|]. intros e. by apply (gives_up_bind _ f).
  - by apply IH.
Qed.

Lemma writes_only_of_result {A} (r : result A) : writes_only (of_result r : Prog R A).
Proof. by destruct r. Qed.

Lemma writes_only_loop {A S} (f : S -> A -> Prog R S) l s : (forall s a, writes_only (f s a)) -> writes_only (loopM f l s).
Proof. intros Hf. revert s; induction l as [|a l IH]; intros s; [done|]. cbn [loopM]. by apply writes_only_bind. Qed.

Lemma writes_only_strict {A} (p : Prog R A) : writes_only p -> strict p.
Proof.
  induction p as [r|k IH|k IH|pos v k IH|pos k IH|k IH|k IH|es k IH|n k IH|hs k IH|j k IH]; cbn; try done.
  intros [Hk He]. split; [by apply IH|done].
Qed.

Lemma writes_only_returns {A} (p : Prog R A) : writes_only p -> returns p (fun a => exists l, script p = (l, Ok a)).
Proof.
  induction p as [r|k IH|k IH|pos v k IH|pos k IH|k IH|k IH|es k IH|n k IH|hs k IH|j k IH]; cbn [writes_only returns script]; try done.
  - intros _. destruct r; [by eexists|done].
  - intros [Hk He] [[]|e]; [|by destruct (He e) as (e' & ->)]. eapply returns_mono; [|by apply IH]. intros a (l & ->). by eexists.
  - intros Hk. eapply returns_mono; [|by apply IH]. intros a (l & ->). by eexists.
Qed.
End Scripts.
End Runs.
End BuildRuns.
