(* ===== verification/BuildSafety.v ===== *)
(** Invariants of the threads of the bootstrap build that do not depend on the blocks or
    the hints: who holds the mutex, who still owes a wake-up, and what the joining
    thread's result says about the others. *)

From S2P Require Import Prelude Bytes Sorting Files Positions JournalEntry Forest SteadyState JournalFile JournalRecord HeaderIndex KernelBlocks BuildThreads BuildRuns.
Import Files.Files Forest.Forest JournalFile.JournalFile HeaderIndex.HeaderIndex KernelBlocks.KernelBlocks BuildThreads.BuildThreads BuildRuns.BuildRuns.

Module BuildSafety.
Section Shape.
Context `{LeafMapBuild} `{HeightsDb}.

(** ** Properties of every point of a program *)

Fixpoint every {R A} (P : Prog R A -> Prop) (enough : Prog R A -> bool) (p : Prog R A) : Prop :=
  P p /\ (enough p = false -> match p with
    | Ret _ => True
    | Acquire k => forall x, every P enough (k x)
    | OpenWriters k => forall x, every P enough (k x)
    | Write _ _ k => forall x, every P enough (k x)
    | ReadWhenReady _ k => forall x, every P enough (k x)
    | Publish k => every P enough k
    | SetAborted k => every P enough k
    | PutEntries _ k => forall x, every P enough (k x)
    | CountEntries _ k => every P enough k
    | PutHeaders _ k => forall x, every P enough (k x)
    | Join _ k => forall x, every P enough (k x)
    end).

Lemma every_here {R A} (P : Prog R A -> Prop) enough p : every P enough p -> P p.
Proof. destruct p; by intros [? _]. Qed.

Lemma every_next {R A} (P : Prog R A -> Prop) enough p p' : every P enough p -> enough p = false -> continues p' p -> every P enough p'.
Proof.
  intros Hp He Hc. destruct p; destruct Hp as [_ Hp]; specialize (Hp He); cbn in Hc; try done; try (by subst);
    destruct Hc as (x & ->); apply Hp.
Qed.

Definition never {R A} (p : Prog R A) : bool := false.
Definition is_set_aborted {R A} (p : Prog R A) : bool := match p with SetAborted _ => true | _ => false end.

(** A thread that fails has said so before. *)
Definition announces {R A} : Prog R A -> Prop := every (fun p => forall e, p <> Ret (Err e)) is_set_aborted.
(** A worker that aborts fails, after waking the others; it waits for no other thread. *)
Definition aborts_and_fails {R A} : Prog R A -> Prop :=
  every (fun p => (forall k, p = SetAborted k -> exists e, k = Publish (Ret (Err e))) /\ forall i k, p <> Join i k) never.
Definition aborts_and_wakes {R A} : Prog R A -> Prop := every (fun p => forall k, p = SetAborted k -> exists k', k = Publish k') never.

Lemma aborting_announces {R A} (p : Prog R A) : announces (aborting p).
Proof.
  unfold announces, aborting. induction p as [[a|e]|k IH|k IH|pos v k IH|pos k IH|k IH|k IH|es k IH|n k IH|hs k IH|j k IH];
    cbn; (split; [intros ? ?; congruence|]); intros E; try discriminate E; auto.
Qed.

(** Programs without aborts: those of the workers before [aborting]. *)
Definition no_abort {R A} : Prog R A -> Prop := every (fun p => (forall k, p <> SetAborted k) /\ forall i k, p <> Join i k) never.

Lemma aborting_fails {R A} (p : Prog R A) : no_abort p -> aborts_and_fails (aborting p).
Proof.
  unfold no_abort, aborts_and_fails, aborting.
  induction p as [[a|e]|k IH|k IH|pos v k IH|pos k IH|k IH|k IH|es k IH|n k IH|hs k IH|j k IH]; cbn; intros [Hp Hk]; specialize (Hk eq_refl).
  - by repeat split.
  - split; [split; [intros k [= <-]; by eexists|done]|]. intros _. by repeat split.
  - split; [done|]. intros _ x. by apply IH.
  - split; [done|]. intros _ x. by apply IH.
  - split; [done|]. intros _ x. by apply IH.
  - split; [done|]. intros _ x. by apply IH.
  - split; [done|]. intros _. by apply IH.
  - by destruct (proj1 Hp k).
  - split; [done|]. intros _ x. by apply IH.
  - split; [done|]. intros _. by apply IH.
  - split; [done|]. intros _ x. by apply IH.
  - by destruct (proj2 Hp j k).
Qed.

Lemma every_impl {R A} (P Q : Prog R A -> Prop) enough p : (forall p, P p -> Q p) -> every P enough p -> every Q enough p.
Proof.
  intros HPQ. induction p as [r|k IH|k IH|pos v k IH|pos k IH|k IH|k IH|es k IH|n k IH|hs k IH|j k IH]; cbn; intros [Hp Hk];
    (split; [by apply HPQ|]); intros He; specialize (Hk He); auto.
Qed.

Lemma fails_wakes {R A} (p : Prog R A) : aborts_and_fails p -> aborts_and_wakes p.
Proof. apply every_impl. intros q [Hq _] k Hk. destruct (Hq k Hk) as (e & ->). by eexists. Qed.

Lemma no_abort_bind {R A B} (p : Prog R A) (f : A -> Prog R B) : no_abort p -> (forall a, no_abort (f a)) -> no_abort (p ≫= f).
Proof.
  unfold no_abort, mbind, build_bind. intros Hp Hf. revert Hp.
  induction p as [[a|e]|k IH|k IH|pos v k IH|pos k IH|k IH|k IH|es k IH|n k IH|hs k IH|j k IH]; cbn; intros [Hp Hk]; specialize (Hk eq_refl); try (split; [done|]; intros _); auto.
  - by destruct (proj1 Hp k).
  - by destruct (proj2 Hp j k).
Qed.

Lemma no_abort_of_result {R A} (r : result A) : no_abort (of_result r : Prog R A).
Proof. by destruct r. Qed.

Lemma no_abort_loop {R A S} (f : S -> A -> Prog R S) l s : (forall s a, no_abort (f s a)) -> no_abort (loopM f l s).
Proof. intros Hf. revert s; induction l as [|a l IH]; intros s; [by apply (no_abort_of_result (Ok s))|].
  cbn [loopM]. by apply no_abort_bind.
Qed.

(** ** The joining thread *)

(** It ends well only if it has joined every thread of [need], and all of them ended well. *)
Fixpoint joins_ok {R A} (p : Prog R A) (need : list nat) : Prop :=
  match p with
  | Ret (Ok _) => need = []
  | Ret (Err _) => True
  | Join i k => (forall a, joins_ok (k (Ok a)) (filter (fun j => j <> i) need)) /\ forall e, returns (k (Err e)) (fun _ => False)
  | Publish k => joins_ok k need
  | SetAborted k => joins_ok k need
  | _ => False
  end.

(** It aborts only after a thread that it joined has failed. *)
Fixpoint calm {R A} (p : Prog R A) : Prop :=
  match p with
  | Ret _ => True
  | Join _ k => forall a, calm (k (Ok a))
  | Publish k => calm k
  | _ => False
  end.

(** ** The invariant *)

Context (env : BuildEnv).

Definition holding (ph : Phase) : bool := match ph with Locked | Unready | Waiting _ => true | _ => false end.
Definition awaits {R} (t : Thread R) : bool := match prog t with ReadWhenReady _ _ => true | _ => false end.

Context (main : nat).

Record shape (s : Sys unit) : Prop := {
  sh_length : length (threads s) = S main;
  sh_idle : forall t th, threads s !! t = Some th -> awaits th = false -> phase th = Spinning (be_spin_iterations env);
  sh_holds : forall t th, threads s !! t = Some th -> holding (phase th) = true -> mutex (mem s) = Some t;
  sh_held : forall t, mutex (mem s) = Some t -> exists th, threads s !! t = Some th /\ holding (phase th) = true;
  sh_wakes : forall t th, threads s !! t = Some th -> aborts_and_wakes (prog th);
  sh_fails : forall t th, threads s !! t = Some th -> t <> main -> aborts_and_fails (prog th);
  sh_announces : forall t th, threads s !! t = Some th -> t <> main -> aborted (mem s) = true \/ announces (prog th);
  sh_woken : forall t th e, aborted (mem s) = true -> threads s !! t = Some th -> phase th = Sleeping e ->
    exists j th' k, threads s !! j = Some th' /\ prog th' = Publish k;
  sh_failed : aborted (mem s) = true -> exists t th e, t <> main /\ threads s !! t = Some th /\
    (prog th = Publish (Ret (Err e)) \/ prog th = Ret (Err e));
  sh_range : forall th, threads s !! main = Some th -> every (fun p => forall i k, p = Join i k -> (i < main)%nat) never (prog th);
  sh_calm : forall th, threads s !! main = Some th -> aborted (mem s) = true \/ calm (prog th);
  sh_joins : forall th, threads s !! main = Some th -> returns (prog th) (fun _ => False) \/ exists need, joins_ok (prog th) need /\
    forall t th', (t < main)%nat -> threads s !! t = Some th' -> t ∉ need -> exists a, prog th' = Ret (Ok a)
}.


(** ** One step *)

(** What a step of thread [t], which is [th], can be: the thread goes on, aborts, wakes
    the others, or moves inside its wait. *)
Inductive stepped {R} (s : Sys R) (t : nat) (th : Thread R) : Sys R -> Prop :=
| st_go m' p' :
    continues p' (prog th) -> is_set_aborted (prog th) = false ->
    (forall k, prog th <> Publish k) ->
    mutex m' = (if awaits th && holding (phase th) then None else mutex (mem s)) -> aborted m' = aborted (mem s) ->
    (forall i k, prog th = Join i k -> exists other r, threads s !! i = Some other /\ prog other = Ret r /\ p' = k r) ->
    stepped s t th {| mem := m'; threads := <[t := start_thread env p']> (threads s) |}
| st_abort k : prog th = SetAborted k ->
    stepped s t th {| mem := with_aborted (mem s); threads := <[t := start_thread env k]> (threads s) |}
| st_publish k : prog th = Publish k -> mutex (mem s) = None ->
    stepped s t th {| mem := with_epoch (mem s) (wrap 64 (epoch (mem s) + 1)); threads := notify <$> <[t := start_thread env k]> (threads s) |}
| st_wait pos k m' ph' : prog th = ReadWhenReady pos k -> await_step (mem s) t pos (phase th) = Moved m' ph' ->
    stepped s t th {| mem := m'; threads := <[t := {| prog := prog th; phase := ph' |}]> (threads s) |}.

Lemma await_answers m t p ph m' r : await_step m t p ph = Answered m' r -> m' = if holding ph then with_mutex m None else m.
Proof.
  destruct ph as [[|n]|n| | |e|e|e]; cbn [await_step holding]; unfold try_ready.
  - by destruct (mutex m).
  - destruct (try_read _ _) as [[?|]|]; by intros [= <- <-].
  - destruct (aborted m); by intros [= <- <-].
  - destruct (try_read _ _) as [[?|]|]; by intros [= <- <-].
  - destruct (aborted m); by intros [= <- <-].
  - by destruct (_ && _).
  - done.
  - by destruct (mutex m).
Qed.

Lemma step_inv {R} (s s' : Sys R) t : step_thread env s t = Some s' -> exists th, threads s !! t = Some th /\ stepped s t th s'.
Proof.
  intros E. unfold step_thread in E. destruct (threads s !! t) as [th|] eqn:Et; [|done]. cbn [mbind option_bind] in E. exists th. split; [done|].
  assert (forall m' p', continues p' (prog th) -> is_set_aborted (prog th) = false -> (forall k, prog th <> Publish k) ->
    (forall i k, prog th <> Join i k) -> awaits th = false -> mutex m' = mutex (mem s) -> aborted m' = aborted (mem s) ->
    goes_to env s t m' p' = Some s' -> stepped s t th s') as Hgo.
  { intros m' p' Hc Ha Hp Hj Hw Hm Hb [= <-]. apply st_go; [done..| |done|by intros i k Hk%Hj]. by rewrite Hw. }
  unfold awaits in Hgo. destruct (prog th) as [r|k|k|pos v k|pos k|k|k|es k|n k|hs k|j k] eqn:Ep; cbn [continues] in Hgo.
  - done.
  - destruct (acquire _ _) in E. eapply Hgo; [by eexists|..|done]; done.
  - eapply Hgo; [by eexists|..|done]; done.
  - destruct (write _ _ _); (eapply Hgo; [by eexists|..|done]; done).
  - destruct (await_step _ _ _ _) as [|m' ph'|m' r] eqn:Ea; [done| |].
    + injection E as <-. rewrite <- Ep. by apply (st_wait s t th pos k).
    + apply await_answers in Ea as ->. injection E as <-. apply st_go; rewrite ?Ep; [by eexists|done..| | |done].
      * unfold awaits. rewrite Ep. cbn [andb]. by destruct (holding _).
      * by destruct (holding _).
  - destruct (mutex (mem s)) eqn:Em; [done|]. injection E as <-. by apply st_publish.
  - injection E as <-. by apply st_abort.
  - destruct (writer_put_batch _ _). eapply Hgo; [by eexists|..|done]; done.
  - eapply Hgo; [by apply eq_refl|..|done]; done.
  - destruct (put_batch _ _ _). eapply Hgo; [by eexists|..|done]; done.
  - destruct (threads s !! j) as [other|] eqn:Ej; [|done]. cbn [mbind option_bind] in E. destruct (prog other) as [r|?|?|???|??|?|?|??|??|??|??] eqn:Eo; try done.
    injection E as <-. apply st_go; rewrite ?Ep; [by eexists|done..| |done|].
    + unfold awaits. by rewrite Ep.
    + intros i k' [= <- <-]. by exists other, r.
Qed.

(** ** The invariant is kept *)

Lemma updated_thread {A} (l : list A) t j x y : <[t := x]> l !! j = Some y -> (j = t /\ y = x) \/ (j <> t /\ l !! j = Some y).
Proof. intros [(-> & -> & _)|[Hne Hj]]%list_lookup_insert_Some; [by left|right; by split]. Qed.

Lemma returns_next {R A} (p p' : Prog R A) Q : returns p Q -> continues p' p -> returns p' Q.
Proof. destruct p as [[]|k|k|pos v k|pos k|k|k|es k|n k|hs k|j k]; cbn; try done; try (by intros ? ->); intros Hp (x & ->); apply Hp. Qed.

Lemma await_mutex m t p ph m' ph' : await_step m t p ph = Moved m' ph' ->
  (holding ph = true -> mutex m = Some t) ->
  (holding ph' = true -> mutex m' = Some t) /\ (holding ph' = false -> mutex m' = if holding ph then None else mutex m) /\
  (holding ph' = true -> holding ph = false -> mutex m = None) /\ (forall e, ph' = Sleeping e -> aborted m = false).
Proof.
  destruct ph as [[|n]|n| | |e|e|e]; cbn [await_step holding]; unfold try_ready.
  - destruct (mutex m) eqn:Em; [done|]. intros [= <- <-] Hh. by split_and!.
  - destruct (try_read _ _) as [[?|]|]; intros [= <- <-] Hh. by split_and!.
  - destruct (aborted m); [done|]. intros [= <- <-] Hh. by split_and!.
  - destruct (try_read _ _) as [[?|]|]; intros [= <- <-] Hh. split_and!; [by intros; apply Hh|done..].
  - destruct (aborted m) eqn:Ea; [done|]. intros [= <- <-] Hh. split_and!; [by intros; apply Hh|done..].
  - destruct (_ && _) eqn:Ee; intros [= <- <-] Hh.
    + apply andb_true_iff in Ee as [_ Ee%negb_true_iff]. by split_and!.
    + split_and!; [by intros; apply Hh|done..].
  - done.
  - destruct (mutex m) eqn:Em; [done|]. intros [= <- <-] Hh. by split_and!.
Qed.

Section Steps.
Context (s : Sys unit) (Hs : shape s).

Lemma idle_thread_phase t th : threads s !! t = Some th -> awaits th = false -> holding (phase th) = false /\ forall e, phase th <> Sleeping e.
Proof. intros Ht Hw. by rewrite (sh_idle s Hs t th Ht Hw). Qed.

Lemma holder t j th th' : threads s !! t = Some th -> threads s !! j = Some th' -> holding (phase th) = true -> holding (phase th') = true -> t = j.
Proof. intros Ht Hj Hh Hh'. pose proof (sh_holds s Hs t th Ht Hh). pose proof (sh_holds s Hs j th' Hj Hh'). congruence. Qed.

(** A failed thread has raised the flag. *)
Lemma failed_aborts t th e : threads s !! t = Some th -> prog th = Ret (Err e) -> t <> main -> aborted (mem s) = true.
Proof.
  intros Ht Hp Hne. destruct (sh_announces s Hs t th Ht Hne) as [?|Ha]; [done|]. apply every_here in Ha. by destruct (Ha e).
Qed.

Lemma go_calm th i k r other : threads s !! main = Some th -> prog th = Join i k -> threads s !! i = Some other -> prog other = Ret r ->
  aborted (mem s) = true \/ calm (k r).
Proof.
  intros Ht Hp Hi Ho. destruct (sh_calm s Hs th Ht) as [?|Hc]; [by left|]. rewrite Hp in Hc. destruct r as [a|e]; [right; apply Hc|].
  left. apply (failed_aborts i other e Hi Ho). intros ->. congruence.
Qed.

Lemma go_joins th i k r other : threads s !! main = Some th -> prog th = Join i k -> threads s !! i = Some other -> prog other = Ret r ->
  returns (k r) (fun _ => False) \/ exists need, joins_ok (k r) need /\
    forall t th', (t < main)%nat -> threads s !! t = Some th' -> t ∉ need -> exists a, prog th' = Ret (Ok a).
Proof.
  intros Ht Hp Hi Ho. destruct (sh_joins s Hs th Ht) as [Hr|(need & Hj & Hn)]; rewrite Hp in *; [left; apply Hr|].
  destruct Hj as [Hok Herr]. destruct r as [a|e]; [|left; apply Herr]. right. exists (filter (fun j => j <> i) need). split; [apply Hok|].
  intros t th' Hlt Ht' Hnin. destruct (decide (t = i)) as [->|Hne].
  - exists a. congruence.
  - apply (Hn t); [done|done|]. intros Hin. apply Hnin. by apply list_elem_of_filter.
Qed.

Lemma shape_go t th m' p' : threads s !! t = Some th -> continues p' (prog th) -> is_set_aborted (prog th) = false ->
  (forall k, prog th <> Publish k) -> mutex m' = (if awaits th && holding (phase th) then None else mutex (mem s)) ->
  aborted m' = aborted (mem s) ->
  (forall i k, prog th = Join i k -> exists other r, threads s !! i = Some other /\ prog other = Ret r /\ p' = k r) ->
  shape {| mem := m'; threads := <[t := start_thread env p']> (threads s) |}.
Proof.
  intros Ht Hc Ha Hp Hm Hb Hj. split; cbn [threads mem]; rewrite ?Hb.
  - rewrite length_insert. apply (sh_length s Hs).
  - intros j th' [[-> ->]|[Hne Hj']]%updated_thread; [done|by apply (sh_idle s Hs j)].
  - intros j th' [[-> ->]|[Hne Hj']]%updated_thread Hh; [done|]. rewrite Hm.
    destruct (awaits th && holding (phase th)) eqn:Ew; [|by apply (sh_holds s Hs j th')].
    apply andb_true_iff in Ew as [_ Ew]. destruct Hne. exact (holder j t th' th Hj' Ht Hh Ew).
  - intros j Hj'. rewrite Hm in Hj'. destruct (awaits th && holding (phase th)) eqn:Ew; [done|].
    destruct (sh_held s Hs j Hj') as (th' & Hth' & Hh). exists th'. split; [|done]. rewrite list_lookup_insert_ne; [done|].
    intros <-. assert (th' = th) as -> by congruence. rewrite Hh, andb_true_r in Ew. by destruct (idle_thread_phase t th Ht Ew) as [? _]; congruence.
  - intros j th' [[-> ->]|[Hne Hj']]%updated_thread; [|by apply (sh_wakes s Hs j)]. eapply every_next; [by eapply (sh_wakes s Hs)|done|done].
  - intros j th' [[-> ->]|[Hne Hj']]%updated_thread Hmain; [|by apply (sh_fails s Hs j)].
    eapply every_next; [by eapply (sh_fails s Hs)|done|done].
  - intros j th' [[-> ->]|[Hne Hj']]%updated_thread Hmain; [|by apply (sh_announces s Hs j)].
    destruct (sh_announces s Hs t th Ht Hmain) as [?|Han]; [by left|]. right. by eapply every_next.
  - intros j th' e Hab [[-> ->]|[Hne Hj']]%updated_thread Hsl; [done|].
    destruct (sh_woken s Hs j th' e Hab Hj' Hsl) as (i & thi & k & Hi & Hk). exists i, thi, k. split; [|done].
    rewrite list_lookup_insert_ne; [done|]. intros <-. assert (thi = th) as -> by congruence. by destruct (Hp k).
  - intros Hab. destruct (sh_failed s Hs Hab) as (i & thi & e & Hi & Hthi & Hpr). exists i, thi, e. split_and!; [done| |done].
    rewrite list_lookup_insert_ne; [done|]. intros <-. assert (thi = th) as -> by congruence.
    destruct Hpr as [Hpr|Hpr]; [by destruct (Hp (Ret (Err e)))|]. by rewrite Hpr in Hc.
  - intros th' [[<- ->]|[Hne Hj']]%updated_thread; [|by apply (sh_range s Hs)]. eapply every_next; [by apply (sh_range s Hs)|done|done].
  - intros th' [[<- ->]|[Hne Hj']]%updated_thread; [|by apply (sh_calm s Hs)]. cbn [prog start_thread].
    destruct (sh_calm s Hs th Ht) as [?|Hcalm]; [by left|]. destruct (prog th) as [r|k|k|pos v k|pos k|k|k|es k|n k|hs k|j k] eqn:Ep; try done.
    + by destruct (Hp k).
    + destruct (Hj j k eq_refl) as (other & r & Hi & Ho & ->). by eapply go_calm.
  - intros th' [[<- ->]|[Hne Hj']]%updated_thread; cbn [prog start_thread].
    + destruct (sh_joins s Hs th Ht) as [Hr|(need & Hjo & Hn)]; [left; by eapply returns_next|].
      destruct (prog th) as [r|k|k|pos v k|pos k|k|k|es k|n k|hs k|j k] eqn:Ep; try done; [by destruct (Hp k)|].
      destruct (Hj j k eq_refl) as (other & r & Hi & Ho & ->).
      destruct (go_joins th j k r other Ht Ep Hi Ho) as [?|(need' & Hjo' & Hn')]; [by left|]. right. exists need'. split; [done|].
      intros i th' Hlt [[-> ->]|[Hne Hi']]%updated_thread; [lia|by apply Hn'].
    + destruct (sh_joins s Hs th' Hj') as [Hr|(need & Hjo & Hn)]; [by left|]. right. exists need. split; [done|].
      intros i thi Hlt [[-> ->]|[Hne' Hi']]%updated_thread Hnin; [|by eapply Hn]. destruct (Hn t th Hlt Ht Hnin) as (a & E). by rewrite E in Hc.
Qed.

Lemma shape_abort t th k : threads s !! t = Some th -> prog th = SetAborted k ->
  shape {| mem := with_aborted (mem s); threads := <[t := start_thread env k]> (threads s) |}.
Proof.
  intros Ht Hp. assert (awaits th = false) as Hw by (unfold awaits; by rewrite Hp).
  assert (exists k', k = Publish k') as (k' & Hk') by (by apply (every_here _ _ _ (sh_wakes s Hs t th Ht) k)).
  split; cbn [threads mem mutex aborted with_aborted].
  - rewrite length_insert. apply (sh_length s Hs).
  - intros j th' [[-> ->]|[Hne Hj']]%updated_thread; [done|by apply (sh_idle s Hs j)].
  - intros j th' [[-> ->]|[Hne Hj']]%updated_thread Hh; [done|by apply (sh_holds s Hs j th')].
  - intros j Hj'. destruct (sh_held s Hs j Hj') as (th' & Hth' & Hh). exists th'. split; [|done]. rewrite list_lookup_insert_ne; [done|].
    intros <-. assert (th' = th) as -> by congruence. destruct (idle_thread_phase t th Ht Hw) as [? _]. congruence.
  - intros j th' [[-> ->]|[Hne Hj']]%updated_thread; [|by apply (sh_wakes s Hs j)].
    eapply every_next; [by eapply (sh_wakes s Hs)|done|by rewrite Hp].
  - intros j th' [[-> ->]|[Hne Hj']]%updated_thread Hmain; [|by apply (sh_fails s Hs j)].
    eapply every_next; [by eapply (sh_fails s Hs)|done|by rewrite Hp].
  - intros. by left.
  - intros j th' e _ [[-> ->]|[Hne Hj']]%updated_thread Hsl; [done|]. exists t, (start_thread env k), k'. subst k. split; [|done].
    apply list_lookup_insert_eq. by eapply lookup_lt_Some.
  - intros _. destruct (decide (t = main)) as [->|Hmain].
    + destruct (sh_calm s Hs th Ht) as [Hab|Hc]; [|by rewrite Hp in Hc].
      destruct (sh_failed s Hs Hab) as (i & thi & e & Hi & Hthi & Hpr). exists i, thi, e. split_and!; [done| |done].
      by rewrite list_lookup_insert_ne.
    + destruct (proj1 (every_here _ _ _ (sh_fails s Hs t th Ht Hmain)) k Hp) as (e & He). exists t, (start_thread env k), e.
      split_and!; [done|apply list_lookup_insert_eq; by eapply lookup_lt_Some|by left].
  - intros th' [[<- ->]|[Hne Hj']]%updated_thread; [|by apply (sh_range s Hs)]. eapply every_next; [by apply (sh_range s Hs)|done|by rewrite Hp].
  - intros. by left.
  - intros th' [[<- ->]|[Hne Hj']]%updated_thread; cbn [prog start_thread].
    + destruct (sh_joins s Hs th Ht) as [Hr|(need & Hjo & Hn)]; rewrite Hp in *; [by left|]. right. exists need. split; [done|].
      intros i th' Hlt [[-> ->]|[Hne Hi']]%updated_thread; [lia|by apply Hn].
    + destruct (sh_joins s Hs th' Hj') as [Hr|(need & Hjo & Hn)]; [by left|]. right. exists need. split; [done|].
      intros i thi Hlt [[-> ->]|[Hne' Hi']]%updated_thread Hnin; [|by eapply Hn]. destruct (Hn t th Hlt Ht Hnin) as (a & E). congruence.
Qed.

Lemma notified (l : list (Thread unit)) j th' : (notify <$> l) !! j = Some th' -> exists th, l !! j = Some th /\ th' = notify th.
Proof. intros (th & -> & Hl)%list_lookup_fmap_Some. by exists th. Qed.

Lemma notify_prog (th : Thread unit) : prog (notify th) = prog th.
Proof. by destruct th as [p []]. Qed.
Lemma notify_awake (th : Thread unit) : (forall e, phase th <> Sleeping e) -> notify th = th.
Proof. destruct th as [p []]; intros Hn; try done. by destruct (Hn observed). Qed.
Lemma notify_holding (th : Thread unit) : holding (phase (notify th)) = holding (phase th).
Proof. by destruct th as [p []]. Qed.

Lemma shape_publish t th k : threads s !! t = Some th -> prog th = Publish k -> mutex (mem s) = None ->
  shape {| mem := with_epoch (mem s) (wrap 64 (epoch (mem s) + 1)); threads := notify <$> <[t := start_thread env k]> (threads s) |}.
Proof.
  intros Ht Hp Hm. assert (awaits th = false) as Hw by (unfold awaits; by rewrite Hp).
  split; cbn [threads mem mutex aborted with_epoch].
  - rewrite length_fmap, length_insert. apply (sh_length s Hs).
  - intros j th' (th0 & Hj & ->)%notified. unfold awaits. rewrite notify_prog. intros Hw'.
    apply updated_thread in Hj as [[-> ->]|[Hne Hj']]; [done|]. pose proof (sh_idle s Hs j th0 Hj' Hw') as Hi.
    rewrite notify_awake; [done|]. intros e. by rewrite Hi.
  - intros j th' (th0 & Hj & ->)%notified. rewrite notify_holding. apply updated_thread in Hj as [[-> ->]|[Hne Hj']]; [done|]. by apply (sh_holds s Hs).
  - rewrite Hm. done.
  - intros j th' (th0 & Hj & ->)%notified. rewrite notify_prog. apply updated_thread in Hj as [[-> ->]|[Hne Hj']]; [|by apply (sh_wakes s Hs j)].
    eapply every_next; [by eapply (sh_wakes s Hs)|done|by rewrite Hp].
  - intros j th' (th0 & Hj & ->)%notified Hmain. rewrite notify_prog. apply updated_thread in Hj as [[-> ->]|[Hne Hj']]; [|by apply (sh_fails s Hs j)].
    eapply every_next; [by eapply (sh_fails s Hs)|done|by rewrite Hp].
  - intros j th' (th0 & Hj & ->)%notified Hmain. rewrite notify_prog. apply updated_thread in Hj as [[-> ->]|[Hne Hj']]; [|by apply (sh_announces s Hs j)].
    destruct (sh_announces s Hs t th Ht Hmain) as [?|Han]; [by left|]. right. eapply every_next; [done| |by rewrite Hp]. by rewrite Hp.
  - intros j th' e Hab (th0 & Hj & ->)%notified Hsl. by destruct th0 as [? []].
  - intros Hab. destruct (sh_failed s Hs Hab) as (i & thi & e & Hi & Hthi & Hpr). destruct (decide (i = t)) as [->|Hne].
    + assert (thi = th) as -> by congruence. exists t, (notify (start_thread env k)), e. split_and!; [done| |].
      * rewrite list_lookup_fmap, list_lookup_insert_eq; [done|]. by eapply lookup_lt_Some.
      * right. rewrite notify_prog. destruct Hpr as [Hpr|Hpr]; [|congruence]. rewrite Hp in Hpr. by injection Hpr as ->.
    + exists i, (notify thi), e. split_and!; [done| |by rewrite notify_prog]. by rewrite list_lookup_fmap, list_lookup_insert_ne, Hthi.
  - intros th' (th0 & Hj & ->)%notified. rewrite notify_prog. apply updated_thread in Hj as [[<- ->]|[Hne Hj']]; [|by apply (sh_range s Hs)].
    eapply every_next; [by apply (sh_range s Hs)|done|by rewrite Hp].
  - intros th' (th0 & Hj & ->)%notified. rewrite notify_prog. apply updated_thread in Hj as [[<- ->]|[Hne Hj']]; [|by apply (sh_calm s Hs)].
    destruct (sh_calm s Hs th Ht) as [?|Hc]; [by left|]. right. by rewrite Hp in Hc.
  - intros th' (th0 & Hj & ->)%notified. rewrite notify_prog. apply updated_thread in Hj as [[<- ->]|[Hne Hj']]; cbn [prog start_thread].
    + destruct (sh_joins s Hs th Ht) as [Hr|(need & Hjo & Hn)]; rewrite Hp in *; [by left|]. right. exists need. split; [done|].
      intros i th' Hlt (thi & Hi & ->)%notified. rewrite notify_prog. apply updated_thread in Hi as [[-> ->]|[Hne Hi']]; [lia|by apply Hn].
    + destruct (sh_joins s Hs th0 Hj') as [Hr|(need & Hjo & Hn)]; [by left|]. right. exists need. split; [done|].
      intros i th' Hlt (thi & Hi & ->)%notified Hnin. rewrite notify_prog. apply updated_thread in Hi as [[-> ->]|[Hne' Hi']]; [|by eapply Hn].
      destruct (Hn t th Hlt Ht Hnin) as (a & E). congruence.
Qed.

Lemma shape_wait t th pos k m' ph' : threads s !! t = Some th -> prog th = ReadWhenReady pos k ->
  await_step (mem s) t pos (phase th) = Moved m' ph' ->
  shape {| mem := m'; threads := <[t := {| prog := prog th; phase := ph' |}]> (threads s) |}.
Proof.
  intros Ht Hp E. pose proof (await_moves _ _ _ _ _ _ E) as (_ & _ & Hab).
  destruct (await_mutex _ _ _ _ _ _ E) as (Hm1 & Hm2 & Hm3 & Hsl); [by apply (sh_holds s Hs)|].
  split; cbn [threads mem]; rewrite ?Hab.
  - rewrite length_insert. apply (sh_length s Hs).
  - intros j th' [[-> ->]|[Hne Hj']]%updated_thread Hw; [unfold awaits in Hw; cbn in Hw; by rewrite Hp in Hw|by apply (sh_idle s Hs j)].
  - intros j th' [[-> ->]|[Hne Hj']]%updated_thread Hh; [by apply Hm1|]. pose proof (sh_holds s Hs j th' Hj' Hh) as Hmj.
    destruct (holding (phase th)) eqn:Eh; [destruct Hne; exact (holder j t th' th Hj' Ht Hh Eh)|].
    destruct (holding ph') eqn:Eh'; [by rewrite Hm3 in Hmj|]. by rewrite Hm2.
  - intros j Hj'. destruct (holding ph') eqn:Eh'.
    + rewrite Hm1 in Hj' by done. injection Hj' as <-. exists {| prog := prog th; phase := ph' |}. split; [|done].
      apply list_lookup_insert_eq. by eapply lookup_lt_Some.
    + rewrite Hm2 in Hj' by done. destruct (holding (phase th)) eqn:Eh; [done|]. destruct (sh_held s Hs j Hj') as (th' & Hth' & Hh).
      exists th'. split; [|done]. rewrite list_lookup_insert_ne; [done|]. intros <-. congruence.
  - intros j th' [[-> ->]|[Hne Hj']]%updated_thread; cbn [prog]; by eapply (sh_wakes s Hs).
  - intros j th' [[-> ->]|[Hne Hj']]%updated_thread Hmain; cbn [prog]; by eapply (sh_fails s Hs).
  - intros j th' [[-> ->]|[Hne Hj']]%updated_thread Hmain; cbn [prog]; by eapply (sh_announces s Hs).
  - intros j th' e Ha [[-> ->]|[Hne Hj']]%updated_thread Hphase; [cbn in Hphase; apply Hsl in Hphase; congruence|].
    destruct (sh_woken s Hs j th' e Ha Hj' Hphase) as (i & thi & k' & Hi & Hk). exists i, thi, k'. split; [|done].
    rewrite list_lookup_insert_ne; [done|]. intros <-. congruence.
  - intros Ha. destruct (sh_failed s Hs Ha) as (i & thi & e & Hi & Hthi & Hpr). exists i, thi, e. split_and!; [done| |done].
    rewrite list_lookup_insert_ne; [done|]. intros <-. assert (thi = th) as -> by congruence. rewrite Hp in Hpr. by destruct Hpr.
  - intros th' [[<- ->]|[Hne Hj']]%updated_thread; cbn [prog]; by apply (sh_range s Hs).
  - intros th' [[<- ->]|[Hne Hj']]%updated_thread; cbn [prog]; by eapply (sh_calm s Hs).
  - intros th' [[<- ->]|[Hne Hj']]%updated_thread; cbn [prog].
    + destruct (sh_joins s Hs th Ht) as [Hr|(need & Hjo & Hn)]; [by left|]. by rewrite Hp in Hjo.
    + destruct (sh_joins s Hs th' Hj') as [Hr|(need & Hjo & Hn)]; [by left|]. right. exists need. split; [done|].
      intros i thi Hlt [[-> ->]|[Hne' Hi']]%updated_thread Hnin; [|by eapply Hn]. destruct (Hn t th Hlt Ht Hnin) as (a & E'). by exists a.
Qed.
End Steps.

Lemma shape_step s s' : shape s -> step env s s' -> shape s'.
Proof.
  intros Hs (t & (th & Ht & Hst)%step_inv). destruct Hst; [by eapply shape_go|by eapply shape_abort|by eapply shape_publish|by eapply shape_wait].
Qed.

(** ** Threads that are stuck *)

Definition stuck (s : Sys unit) : Prop := forall t, step_thread env s t = None.

(** A thread that holds the mutex can always go on; otherwise only a sleeper or a thread that waits
    for another one cannot. *)
Lemma stuck_thread s t th : shape s -> stuck s -> threads s !! t = Some th ->
  (exists r, prog th = Ret r) \/ (exists pos k e, prog th = ReadWhenReady pos k /\ phase th = Sleeping e) \/
  (exists i k, prog th = Join i k /\ forall other r, threads s !! i = Some other -> prog other <> Ret r).
Proof.
  intros Hs Hst Ht. assert (mutex (mem s) = None) as Hm.
  { destruct (mutex (mem s)) as [j|] eqn:Em; [|done]. destruct (sh_held s Hs j Em) as (thj & Hj & Hh). specialize (Hst j).
    unfold step_thread in Hst. rewrite Hj in Hst. cbn [mbind option_bind] in Hst.
    destruct (awaits thj) eqn:Ew; [|by destruct (idle_thread_phase s Hs j thj Hj Ew) as [? _]; congruence]. unfold awaits in Ew.
    destruct (prog thj) as [r|k|k|pos v k|pos k|k|k|es k|n k|hs k|i k]; try done.
    destruct (phase thj); cbn [holding] in Hh; try done; cbn [await_step] in Hst; unfold try_ready in Hst.
    - destruct (try_read _ _) as [[?|]|]; done.
    - destruct (aborted _); done.
    - destruct (_ && _); done. }
  specialize (Hst t). unfold step_thread in Hst. rewrite Ht in Hst. cbn [mbind option_bind] in Hst.
  destruct (prog th) as [r|k|k|pos v k|pos k|k|k|es k|n k|hs k|i k].
  - left. by exists r.
  - by destruct (acquire _ _).
  - done.
  - by destruct (write _ _ _).
  - right. left. exists pos, k. destruct (phase th) as [[|?]|?| | |?|e|?]; cbn [await_step] in Hst; unfold try_ready in Hst; rewrite ?Hm in Hst.
    + done.
    + by destruct (try_read _ _) as [[?|]|].
    + by destruct (aborted _).
    + by destruct (try_read _ _) as [[?|]|].
    + by destruct (aborted _).
    + by destruct (_ && _).
    + by exists e.
    + done.
  - by rewrite Hm in Hst.
  - done.
  - by destruct (writer_put_batch _ _).
  - done.
  - by destruct (put_batch _ _ _).
  - right. right. exists i, k. split; [done|]. intros other r Hi Ho. rewrite Hi in Hst. cbn [mbind option_bind] in Hst. by rewrite Ho in Hst.
Qed.

(** A thread that waits for another is the joining one, and the other is a worker that has not ended. *)
Lemma join_blocked s t th i k : shape s -> threads s !! t = Some th -> prog th = Join i k ->
  (forall other r, threads s !! i = Some other -> prog other <> Ret r) ->
  exists other, threads s !! i = Some other /\ (i < main)%nat /\ forall r, prog other <> Ret r.
Proof.
  intros Hs Ht Hp Hno. destruct (decide (t = main)) as [->|Hne].
  2: { pose proof (every_here _ _ _ (sh_fails s Hs t th Ht Hne)) as [_ Hj]. by destruct (Hj i k). }
  pose proof (every_here _ _ _ (sh_range s Hs th Ht) i k Hp) as Hi.
  destruct (lookup_lt_is_Some_2 (threads s) i) as [other Ho]; [rewrite (sh_length s Hs); lia|]. exists other. split_and!; [done|done|].
  intros r. by apply Hno.
Qed.

(** If no thread is asleep, stuck threads have ended. *)
Lemma awake_stuck s : shape s -> stuck s ->
  (forall t th p k e, threads s !! t = Some th -> prog th = ReadWhenReady p k -> phase th <> Sleeping e) ->
  forall t th, threads s !! t = Some th -> exists r, prog th = Ret r.
Proof.
  intros Hs Hst Haw. assert (forall t th, t <> main -> threads s !! t = Some th -> exists r, prog th = Ret r) as Hw.
  { intros t th Hne Ht. destruct (stuck_thread s t th Hs Hst Ht) as [?|[(p & k & e & Hp & Hph)|(i & k & Hp & _)]]; [done| |].
    - by destruct (Haw t th p k e).
    - pose proof (every_here _ _ _ (sh_fails s Hs t th Ht Hne)) as [_ Hj]. by destruct (Hj i k). }
  intros t th Ht. destruct (stuck_thread s t th Hs Hst Ht) as [?|[(p & k & e & Hp & Hph)|(i & k & Hp & Hno)]]; [done|by destruct (Haw t th p k e)|].
  destruct (join_blocked s t th i k Hs Ht Hp Hno) as (other & Ho & Hi & Hnr). destruct (Hw i other ltac:(lia) Ho) as (r & Hr). by destruct (Hnr r).
Qed.

(** Once the build is aborted, nobody sleeps for ever. *)
Lemma aborted_stuck s : shape s -> stuck s -> aborted (mem s) = true -> forall t th, threads s !! t = Some th -> exists r, prog th = Ret r.
Proof.
  intros Hs Hst Hab. apply awake_stuck; [done|done|]. intros t th p k e Ht Hp Hph.
  destruct (sh_woken s Hs t th e Hab Ht Hph) as (j & thj & k' & Hj & Hpj).
  destruct (stuck_thread s j thj Hs Hst Hj) as [(? & ?)|[(? & ? & ? & ? & _)|(? & ? & ? & _)]]; congruence.
Qed.

(** If the joining thread ends well, so did all the others, and nobody aborted. *)
Lemma joined_well s th a : shape s -> threads s !! main = Some th -> prog th = Ret (Ok a) ->
  aborted (mem s) = false /\ forall t th', (t < main)%nat -> threads s !! t = Some th' -> exists b, prog th' = Ret (Ok b).
Proof.
  intros Hs Ht Hp. destruct (sh_joins s Hs th Ht) as [Hr|(need & Hj & Hn)]; rewrite Hp in *; [done|]. cbn in Hj. subst need.
  assert (forall t th', (t < main)%nat -> threads s !! t = Some th' -> exists b, prog th' = Ret (Ok b)) as Hall.
  { intros t th' Hlt Ht'. apply (Hn t th' Hlt Ht'). apply not_elem_of_nil. }
  split; [|done]. destruct (aborted (mem s)) eqn:Hab; [|done]. exfalso.
  destruct (sh_failed s Hs Hab) as (t & th' & e & Hne & Ht' & Hpr). pose proof (lookup_lt_Some _ _ _ Ht') as Hlt. rewrite (sh_length s Hs) in Hlt.
  destruct (Hall t th' ltac:(lia) Ht') as (b & Hb). destruct Hpr; congruence.
Qed.

End Shape.
End BuildSafety.
