(* ===== verification/BuildFill.v ===== *)
(** The bootstrap build as the filling of a forest: each thread has a list of things
    left to do, the lists cover every node once, and no thread waits for ever.  The lists
    of the real programs are in [BootstrapProofs]. *)

From S2P Require Import Prelude Bytes Sorting Files Positions JournalEntry Forest SteadyState JournalFile JournalRecord HeaderIndex KernelBlocks BuildThreads BuildRuns BuildSafety.
Import Files.Files Forest.Forest JournalFile.JournalFile HeaderIndex.HeaderIndex KernelBlocks.KernelBlocks BuildThreads.BuildThreads BuildRuns.BuildRuns BuildSafety.BuildSafety.

(** What the database promises while it is built: a new one is empty, a batch that is
    written counts its entries, and adds them if their keys are new and distinct; closing
    keeps them. *)
Class LeafMapBuildLaws `{LeafMapBuild} := {
  db_create_law : forall buckets capacity d, db_create buckets capacity = Ok d -> forall k, db_get d k = None;
  writer_put_count : forall d kvs d' n, writer_put_batch d kvs = (d', Ok n) -> n = zlength kvs;
  writer_put_law : forall d kvs d' n, writer_put_batch d kvs = (d', Ok n) -> NoDup kvs.*1 ->
    (forall k, k ∈ kvs.*1 -> db_get d k = None) ->
    forall k, db_get d' k = match last_write k kvs with Some v => Some v | None => db_get d k end;
  db_close_law : forall d d', db_close d = Ok d' -> forall k, db_get d' k = db_get d k
}.

Module BuildFill.

(** ** The height ranges *)

Section Ranges.
Context (stop : Z) (Hstop : 0 < stop < 2 ^ 32 - 1).

Definition range_of (c : Z) : Z * Z := (c * 4 + 1, Z.min (c * 4 + 4) stop + 1).

Lemma chunk_in c : c < height_chunk_count stop <-> c * 4 < stop.
Proof. unfold height_chunk_count, div_ceil, HEIGHT_CHUNK_SIZE. Z.to_euclidean_division_equations. lia. Qed.

Lemma acquire_in c : 0 <= c < height_chunk_count stop -> acquire stop c = (Some (range_of c), c + 1).
Proof.
  intros [Hc Hlt%chunk_in]. unfold acquire, range_of, HEIGHT_CHUNK_SIZE.
  rewrite (proj2 (checked_mul_Some 64 c 4 (c * 4))) by (split; [done|]; unfold is_uint; lia).
  cbn [mbind option_bind]. rewrite (proj2 (Z.leb_gt _ _)) by lia. by rewrite !(wrap_small 32), (wrap_small 64) by (unfold is_uint; lia).
Qed.

Lemma acquire_out c : height_chunk_count stop <= c < 2 ^ 64 - 1 -> acquire stop c = (None, c + 1).
Proof.
  intros [Hc Hu]. assert (stop <= c * 4) by (pose proof (chunk_in c); lia). unfold acquire, HEIGHT_CHUNK_SIZE.
  rewrite wrap_small by (unfold is_uint; lia). destruct (checked_mul 64 c 4) eqn:E; [|done].
  apply checked_mul_Some in E as [-> _]. cbn [mbind option_bind]. by rewrite (proj2 (Z.leb_le _ _)) by lia.
Qed.
End Ranges.

(** ** What is left to do *)

Definition writes (l : list Instr) : list Z := l ≫= (fun i => match i with IWrite p _ => [p] | _ => [] end).
Definition puts (l : list Instr) : list (bytes * bytes) := l ≫= (fun i => match i with IPut kvs => kvs | _ => [] end).
Definition counted (l : list Instr) : list Z := l ≫= (fun i => match i with ICount n => [n] | _ => [] end).
Definition headers_in (l : list Instr) : list (Z * bytes * bytes) := l ≫= (fun i => match i with IHeaders hs => hs | _ => [] end).
Definition publishes (l : list Instr) : nat := length (l ≫= (fun i => match i with IPublish => [tt] | _ => [] end)).
Definition acquires (l : list Instr) : nat := length (l ≫= (fun i => match i with IAcquire _ => [tt] | _ => [] end)).
Definition total (l : list Z) : Z := foldr Z.add 0 l.

#[export] Instance writes_perm : Proper ((≡ₚ) ==> (≡ₚ)) writes.
Proof. intros l l' E. unfold writes. by rewrite E. Qed.
#[export] Instance puts_perm : Proper ((≡ₚ) ==> (≡ₚ)) puts.
Proof. intros l l' E. unfold puts. by rewrite E. Qed.
#[export] Instance counted_perm : Proper ((≡ₚ) ==> (≡ₚ)) counted.
Proof. intros l l' E. unfold counted. by rewrite E. Qed.
#[export] Instance headers_in_perm : Proper ((≡ₚ) ==> (≡ₚ)) headers_in.
Proof. intros l l' E. unfold headers_in. by rewrite E. Qed.
#[export] Instance publishes_perm : Proper ((≡ₚ) ==> eq) publishes.
Proof. intros l l' E. unfold publishes. by rewrite E. Qed.
#[export] Instance acquires_perm : Proper ((≡ₚ) ==> eq) acquires.
Proof. intros l l' E. unfold acquires. by rewrite E. Qed.
#[export] Instance total_perm : Proper ((≡ₚ) ==> eq) total.
Proof. intros l l' E. unfold total. induction E; cbn [foldr]; lia. Qed.

Lemma writes_app l1 l2 : writes (l1 ++ l2) = writes l1 ++ writes l2.
Proof. apply bind_app. Qed.
Lemma publishes_cons l : publishes (IPublish :: l) = S (publishes l).
Proof. done. Qed.
Lemma publishes_app l1 l2 : publishes (l1 ++ l2) = (publishes l1 + publishes l2)%nat.
Proof. unfold publishes. by rewrite bind_app, length_app. Qed.
Lemma acquires_app l1 l2 : acquires (l1 ++ l2) = (acquires l1 + acquires l2)%nat.
Proof. unfold acquires. by rewrite bind_app, length_app. Qed.

Section Fill.
Context `{LeafMapBuildLaws} `{HeaderLaws} `{HeightsLaws}.
Context (env : BuildEnv) (main : nat).
Context (specv : Z -> ForestNodeData) (work : Z -> list Instr).

Abbreviation stop := (be_stop_height env).
Abbreviation chunks := (height_chunk_count (be_stop_height env)).

(** A program does exactly what is on its list, if the accesses succeed and the forest gives
    [specv]; the answer to a failed access may send it to [fail]. *)
Fixpoint follows {A} (fail : Prog unit A -> Prop) (fin : A -> Prop) (p : Prog unit A) (todo : list Instr) : Prop :=
  match p, todo with
  | Ret (Ok a), [] => fin a
  | Acquire k, [IAcquire more] =>
      follows fail fin (k None) [] /\
      match more with
      | O => True
      | S more => forall c, 0 <= c < chunks -> follows fail fin (k (Some (range_of stop c))) (work c ++ [IAcquire more])
      end
  | OpenWriters k, IOpen :: l => follows fail fin (k (Ok tt)) l /\ forall e, fail (k (Err e))
  | Write p v k, IWrite p' v' :: l => p = p' /\ v = v' /\ follows fail fin (k (Ok tt)) l
  | ReadWhenReady p k, IAwait p' :: l => p = p' /\ follows fail fin (k (Ok (specv p))) l
  | Publish k, IPublish :: l => follows fail fin k l
  | PutEntries es k, IPut es' :: l => es = es' /\ follows fail fin (k (Ok (zlength es))) l /\ forall e, fail (k (Err e))
  | CountEntries n k, ICount n' :: l => n = n' /\ follows fail fin k l
  | PutHeaders hs k, IHeaders hs' :: l => hs = hs' /\ follows fail fin (k (Ok tt)) l /\ forall e, fail (k (Err e))
  | Join i k, IJoin i' :: l => i = i' /\ forall a, follows fail fin (k (Ok a)) l
  | _, _ => False
  end.

Definition failing {A} (p : Prog unit A) : Prop := exists e, p = SetAborted (Publish (Ret (Err e))).

Lemma follows_bind {A B} (p : Prog unit A) (f : A -> Prog unit B) (fin : B -> Prop) l1 l2 a :
  strict p -> script specv p = (l1, Ok a) -> follows gives_up fin (f a) l2 -> follows gives_up fin (p ≫= f) (l1 ++ l2).
Proof.
  intros Hp Hl Hf. revert l1 Hl. unfold mbind, build_bind.
  induction p as [r|k IH|k IH|pos v k IH|pos k IH|k IH|k IH|es k IH|n k IH|hs k IH|j k IH]; cbn [strict script then_do]; intros l1 Hl; try done.
  - injection Hl as <- ->. done.
  - destruct Hp as [Hk He]. destruct (script specv (k (Ok tt))) as [l r] eqn:E. injection Hl as <- ->. cbn [app]. split; [by eapply IH|].
    intros e. by apply (gives_up_bind _ f).
  - destruct Hp as [Hk He]. destruct (script specv (k (Ok tt))) as [l r] eqn:E. injection Hl as <- ->. cbn [app]. split_and!; [done|done|by eapply IH].
  - destruct Hp as [Hk He]. destruct (script specv (k (Ok (specv pos)))) as [l r] eqn:E. injection Hl as <- ->. cbn [app]. split; [done|by eapply IH].
  - destruct (script specv k) as [l r] eqn:E. injection Hl as <- ->. by eapply IH.
  - destruct Hp as [Hk He]. destruct (script specv (k (Ok (zlength es)))) as [l r] eqn:E. injection Hl as <- ->. cbn [app].
    split_and!; [done|by eapply IH|]. intros e. by apply (gives_up_bind _ f).
  - destruct (script specv k) as [l r] eqn:E. injection Hl as <- ->. cbn [app]. split; [done|by eapply IH].
  - destruct Hp as [Hk He]. destruct (script specv (k (Ok tt))) as [l r] eqn:E. injection Hl as <- ->. cbn [app].
    split_and!; [done|by eapply IH|]. intros e. by apply (gives_up_bind _ f).
Qed.

(** A strict program does what its script says. *)
Lemma follows_script {A} (p : Prog unit A) (fin : A -> Prop) l a : strict p -> script specv p = (l, Ok a) -> fin a -> follows gives_up fin p l.
Proof.
  intros Hp Hl Ha. revert l Hl.
  induction p as [r|k IH|k IH|pos v k IH|pos k IH|k IH|k IH|es k IH|n k IH|hs k IH|j k IH]; cbn [strict script]; intros l Hl; try done;
    try (injection Hl as <- ->; done);
    (destruct (script specv (k _)) as [l' r] eqn:E || destruct (script specv k) as [l' r] eqn:E); injection Hl as <- ->.
  - destruct Hp as [Hk He]. split; [by apply IH|done].
  - destruct Hp as [Hk He]. split_and!; [done|done|by apply IH].
  - destruct Hp as [Hk He]. split; [done|by apply IH].
  - by apply IH.
  - destruct Hp as [Hk He]. split_and!; [done|by apply IH|done].
  - split; [done|by apply IH].
  - destruct Hp as [Hk He]. split_and!; [done|by apply IH|done].
Qed.

(** A program that aborts when it fails does the same things. *)
Lemma follows_aborting {A} (p : Prog unit A) (fin : A -> Prop) l : follows gives_up fin p l -> follows failing fin (aborting p) l.
Proof.
  assert (forall q : Prog unit A, gives_up q -> failing (aborting q)) as Hfail by (intros q (e & ->); by exists e).
  unfold aborting in *. revert l. induction p as [r|k IH|k IH|pos v k IH|pos k IH|k IH|k IH|es k IH|n k IH|hs k IH|j k IH]; intros l;
    cbn [follows then_do].
  - by destruct r.
  - destruct l as [|[] [|]]; try done. intros [Hn Hs]. split; [by apply IH|]. destruct more; [done|]. intros c Hc. by apply IH, Hs.
  - destruct l as [|[] l]; try done. intros [Hk He]. split; [by apply IH|]. intros e. by apply Hfail.
  - destruct l as [|[] l]; try done. intros (-> & -> & Hk). split_and!; [done|done|by apply IH].
  - destruct l as [|[] l]; try done. intros (-> & Hk). split; [done|by apply IH].
  - destruct l as [|[] l]; try done. apply IH.
  - done.
  - destruct l as [|[] l]; try done. intros (-> & Hk & He). split_and!; [done|by apply IH|]. intros e. by apply Hfail.
  - destruct l as [|[] l]; try done. intros (-> & Hk). split; [done|by apply IH].
  - destruct l as [|[] l]; try done. intros (-> & Hk & He). split_and!; [done|by apply IH|]. intros e. by apply Hfail.
  - destruct l as [|[] l]; try done. intros (-> & Hk). split; [done|]. intros a. by apply IH.
Qed.


(** ** The memory, as a function of what is left to do *)

Context (nodes : list Z) (count : Z) (all_puts : list (bytes * bytes)) (all_headers : list (Z * Header)) (entry_count : Z).

Hypothesis nodes_in : forall p, p ∈ nodes -> 0 <= p < count.
Hypothesis header_heights : NoDup all_headers.*1.
Hypothesis headers_fit : Forall entry_fits all_headers.

(** Every node that nobody has left to write is there, with its value; the others are
    untouched. *)
Record forest_ok (f : FlatForest) (ws : list Z) : Prop := {
  fo_count : ff_count f = count;
  fo_marker : ff_marker f = None;
  fo_ready : forall p, p ∈ nodes -> p ∉ ws -> read_ready_node (node_at f p) = Some (specv p);
  fo_zero : forall p, p ∈ ws \/ p ∉ nodes -> node_at f p = zero_node
}.

Lemma read_node f ws p : forest_ok f ws -> p ∈ nodes -> try_read f p = Ok (if decide (p ∈ ws) then None else Some (specv p)).
Proof.
  intros [Hc _ Hr Hz] Hp. rewrite try_read_eq by (rewrite Hc; by apply nodes_in). f_equal. case_decide as Hw; [|by apply Hr].
  by rewrite (Hz p (or_introl Hw)).
Qed.

Lemma write_node_ok f ws p : forest_ok f (p :: ws) -> p ∈ nodes -> p ∉ ws ->
  exists f', write f p (specv p) = Ok f' /\ forest_ok f' ws.
Proof.
  intros [Hc Hm Hr Hz] Hp Hw. unfold write. rewrite node_in by (rewrite Hc; by apply nodes_in). step_ok.
  rewrite (Hz p) by (left; by left). cbn [flags zero_node]. rewrite Z.eqb_refl. cbn [require mbind result_bind]. rewrite !put_node_twice.
  eexists. split; [done|]. split; [done|done| |].
  - intros q Hq Hqw. rewrite node_at_put. destruct (decide (p = q)) as [<-|Hne].
    + rewrite read_ready_flags. by destruct (specv p).
    + apply Hr; [done|]. by intros [?|?]%elem_of_cons.
  - intros q Hq. rewrite node_at_put. destruct (decide (p = q)) as [<-|Hne]; [by destruct Hq|]. apply Hz.
    destruct Hq as [Hq|Hq]; [left; by right|by right].
Qed.

(** The database has the entries that nobody has left to write. *)
Definition db_ok (d : Db) (ps : list (bytes * bytes)) : Prop :=
  NoDup all_puts.*1 -> exists written, written ++ ps ≡ₚ all_puts /\ forall k, db_get d k = last_write k written.

Lemma db_put_ok d kvs ps d' n : db_ok d (kvs ++ ps) -> writer_put_batch d kvs = (d', Ok n) -> db_ok d' ps.
Proof.
  intros Hd E Hnd. destruct (Hd Hnd) as (written & Hp & Hg). exists (written ++ kvs). split; [by rewrite <- app_assoc|].
  rewrite <- Hp in Hnd. rewrite !fmap_app in Hnd. apply NoDup_app in Hnd as (_ & Hdis & [Hkv _]%NoDup_app).
  intros k. rewrite (writer_put_law _ _ _ _ E).
  - by rewrite last_write_app, Hg.
  - done.
  - intros k' Hk'. rewrite Hg. apply last_write_None. intros Hin. apply (Hdis k' Hin). apply elem_of_app. by left.
Qed.

(** Every header that nobody has left to write is in its slot; its key is in the database and no key of a header still to be
    written is, as long as the keys are all different. *)
Definition headers_ok (x : HeaderIndex) (hs : list (Z * bytes * bytes)) : Prop :=
  exists Hs K, slots (now (headers x)) Hs /\ is_Some (heights x) /\
    (forall e, e ∈ all_headers -> e.1 ∉ hs.*1.*1 -> Hs e.1 = Some e.2) /\
    (NoDup (header_key <$> all_headers) -> refines x Hs K /\ forall e, e ∈ all_headers ->
       (e.1 ∉ hs.*1.*1 -> K !! header_key e = Some e.1) /\ (e.1 ∈ hs.*1.*1 -> K !! header_key e = None)).

Lemma batch_heights es Hs h :
  foldl (fun Hs e => at_height Hs e.1 (Some e.2)) Hs es h = match last_write h es with Some header => Some header | None => Hs h end.
Proof.
  revert Hs. induction es as [|[h0 x] es IH]; intros Hs; [done|]. cbn [foldl fst snd]. rewrite IH. cbn [last_write].
  destruct (last_write h es) eqn:E; [done|]. unfold at_height.
  destruct (Z.eqb_spec h h0) as [->|Hne]; [by rewrite decide_True|by rewrite decide_False].
Qed.

Lemma NoDup_fmap_eq {A B} (f : A -> B) l x y : NoDup (f <$> l) -> x ∈ l -> y ∈ l -> f x = f y -> x = y.
Proof.
  intros Hnd (i & Hi)%list_elem_of_lookup (j & Hj)%list_elem_of_lookup E. assert (i = j) as ->; [|congruence].
  apply (NoDup_lookup (f <$> l) i j (f x) Hnd); rewrite list_lookup_fmap; [by rewrite Hi|by rewrite Hj, E].
Qed.

Lemma header_batch_ok io x es hs x' : (forall e, e ∈ es -> e ∈ all_headers) -> NoDup ((serialized_entry <$> es) ++ hs).*1.*1 ->
  headers_ok x ((serialized_entry <$> es) ++ hs) ->
  put_batch io (serialized_entry <$> es) x = (x', Ok tt) -> headers_ok x' hs.
Proof.
  intros Hsub Hnodup (Hs & K & Hsl & [d Ed] & He & Hkeys) E. pose proof headers_fit as Hfit. rewrite Forall_forall in Hfit.
  assert (Forall entry_fits es) as Hes by (apply Forall_forall; intros e Hin; by apply Hfit, Hsub).
  assert (((serialized_entry <$> es) ++ hs).*1.*1 = es.*1 ++ hs.*1.*1) as Eh.
  { rewrite !fmap_app. f_equal. by rewrite <- !list_fmap_compose. }
  rewrite Eh in Hnodup. apply NoDup_app in Hnodup as (Hnd & Hdis & _).
  assert (forall e : Z * Header, e.1 ∈ ((serialized_entry <$> es) ++ hs).*1.*1 <-> e.1 ∈ es.*1 \/ e.1 ∈ hs.*1.*1) as Hpend.
  { intros e. by rewrite Eh, elem_of_app. }
  assert (forall e : Z * Header, e ∈ all_headers -> e.1 ∈ es.*1 -> e ∈ es) as Hback.
  { intros e Hin (e' & Ee & He')%list_elem_of_fmap. assert (e = e') as ->; [|done]. apply (NoDup_fmap_eq (fst : Z * Header -> Z) all_headers); [done|done|by apply Hsub|done]. }
  destruct (batch_slots io es x x' Hs d Hsl Ed Hes E) as [Hsl' (d' & Ed' & _)].
  exists (spec_header (PutBatch es) Hs K).1, (spec_header (PutBatch es) Hs K).2. split; [exact Hsl'|]. split; [by exists d'|]. split.
  - intros e Hin Hh. cbn [spec_header fst]. rewrite batch_heights. destruct (last_write e.1 es) as [h|] eqn:El.
    + apply last_write_Some_elem, Hsub in El. f_equal. by apply (NoDup_fmap_eq (fst : Z * Header -> Z) all_headers (e.1, h) e) in El as <-.
    + apply last_write_None in El. apply He; [done|]. rewrite Hpend. by intros [?|?].
  - intros Hk. destruct (Hkeys Hk) as [Hr Hkeys'].
    assert (NoDup (header_key <$> es)) as Hke.
    { apply NoDup_fmap_2_strong; [|by eapply NoDup_fmap_1]. intros e e' Hin Hin'. by apply (NoDup_fmap_eq header_key all_headers); auto. }
    split.
    { apply (batch_refines io es x x' Hs K Hr); [|done]. split; [done|]. split; [done|]. intros e Hin. apply (Hkeys' e (Hsub e Hin)).
      apply Hpend. left. apply list_elem_of_fmap. by exists e. }
    intros e Hin. cbn [spec_header snd]. rewrite write_all_lookup. destruct (Hkeys' e Hin) as [Hold Hnew].
    destruct (decide (e.1 ∈ es.*1)) as [Hees|Hees].
    + pose proof (Hback e Hin Hees) as Hin'. split; [|by intros ?%(Hdis _ Hees)]. intros _.
      rewrite (last_write_unique (header_key e) e.1); [done|by rewrite <- list_fmap_compose|]. apply list_elem_of_fmap. by exists e.
    + rewrite (proj2 (last_write_None _ _)).
      * split; [intros Hh; apply Hold|intros Hh; apply Hnew]; rewrite Hpend; [by intros [?|?]|by right].
      * rewrite <- list_fmap_compose. intros (e' & Ee & He')%list_elem_of_fmap. apply Hees, list_elem_of_fmap. exists e. split; [done|].
        assert (e = e') as ->; [|done]. apply (NoDup_fmap_eq header_key all_headers); [done|done|by apply Hsub|done].
Qed.

Record mem_ok (m : Mem) (r : list Instr) : Prop := {
  mo_forest : forest_ok (m_forest m) (writes r);
  mo_nodup : NoDup (writes r);
  mo_db : db_ok (m_leaf_map m) (puts r);
  mo_entries : 0 <= leaf_map_entries m /\ leaf_map_entries m + total (counted r) = entry_count;
  mo_headers : headers_ok (m_headers m) (headers_in r);
  mo_heights : NoDup (headers_in r).*1.*1;
  mo_epoch : 0 <= epoch m /\ epoch m + Z.of_nat (publishes r) < 2 ^ 64 - 1
}.

Lemma mem_ok_perm m r r' : r ≡ₚ r' -> mem_ok m r -> mem_ok m r'.
Proof.
  intros E [[Hc Hm Hr Hz] Hn Hd He Hh Hnh Hp]. split; rewrite <- ?E; try done.
  - split; [done|done| |]; intros p; rewrite <- E; [apply Hr|apply Hz].
  - intros Hnd. destruct (Hd Hnd) as (w & Hw & Hg). exists w. by rewrite <- E.
  - destruct Hh as (Hs & K & Hsl & Hd' & Hall & Hk). exists Hs, K. split; [done|]. split; [done|]. split.
    + intros e. rewrite <- E. apply Hall.
    + intros Hnd. destruct (Hk Hnd) as [Hr' Hk']. split; [done|]. intros e. rewrite <- E. apply Hk'.
Qed.

Lemma mem_ok_acquire n m r : mem_ok m (IAcquire n :: r) <-> mem_ok m r.
Proof. split; intros []; by split. Qed.

#[export] Instance mem_ok_proper m : Proper ((≡ₚ) ==> iff) (mem_ok m).
Proof. intros r r' E. split; by apply mem_ok_perm. Qed.

(** The epoch and the stores are all that it speaks of. *)
Lemma mem_ok_next m m' r : m_forest m' = m_forest m -> m_leaf_map m' = m_leaf_map m -> leaf_map_entries m' = leaf_map_entries m ->
  m_headers m' = m_headers m -> epoch m' = epoch m -> mem_ok m r -> mem_ok m' r.
Proof. intros E1 E2 E3 E4 E5 []. split; by rewrite ?E1, ?E2, ?E3, ?E4, ?E5. Qed.

(** ** The lists of the threads *)

Context (row_of : Z -> Z) (lo : nat).
Abbreviation leaf_workers := (Z.of_nat (main - lo)).

(** [dirty]: what the thread has written since it last published.  It publishes all of it before
    it ends, and before it waits for a node that is not below. *)
Fixpoint clean (dirty : list Z) (l : list Instr) : Prop :=
  match l with
  | [] => dirty = []
  | IWrite p _ :: l => clean (p :: dirty) l
  | IPublish :: l => clean [] l
  | IAwait p :: l => (forall q, q ∈ dirty -> row_of p < row_of q) /\ clean dirty l
  | IAcquire _ :: l => dirty = [] /\ clean dirty l
  | IJoin _ :: l => dirty = [] /\ clean dirty l
  | _ :: l => clean dirty l
  end.

Definition after (x : Instr) (dirty : list Z) : list Z :=
  match x with IWrite p _ => p :: dirty | IPublish => [] | _ => dirty end.

Lemma clean_next dirty x l : clean dirty (x :: l) -> clean (after x dirty) l.
Proof. destruct x; cbn; tauto. Qed.

(** What a thread waits for is below all that it writes later, and who joins does not write. *)
Fixpoint ordered (l : list Instr) : Prop :=
  match l with
  | [] => True
  | IAwait p :: l => (forall q, q ∈ writes l -> row_of p < row_of q) /\ ordered l
  | IJoin _ :: l => writes l = [] /\ ordered l
  | _ :: l => ordered l
  end.

Lemma ordered_next x l : ordered (x :: l) -> ordered l.
Proof. destruct x; cbn; tauto. Qed.

Definition instr_ok (i : Instr) : Prop :=
  match i with
  | IWrite p v => p ∈ nodes /\ v = specv p
  | IAwait p => p ∈ nodes
  | ICount n => 0 <= n
  | IHeaders hs => exists es, hs = serialized_entry <$> es /\ forall e, e ∈ es -> e ∈ all_headers
  | IJoin i => (i < main)%nat
  | _ => True
  end.
Definition leafy (i : Instr) : Prop := match i with IAwait _ | IJoin _ => False | _ => True end.
Definition no_acquire (i : Instr) : Prop := match i with IAcquire _ => False | _ => True end.

Lemma leafy_ordered l : Forall leafy l -> ordered l.
Proof. induction 1 as [|x l Hx Hl IH]; [done|]. by destruct x. Qed.

Lemma acquires_none l : Forall no_acquire l -> acquires l = 0%nat.
Proof. induction 1 as [|x l Hx Hl IH]; [done|]. by destruct x. Qed.

Definition leaf_todo (next : Z) (l : list Instr) : Prop :=
  Forall leafy l /\
  ((exists l' more, l = l' ++ [IAcquire more] /\ Forall no_acquire l' /\ chunks - next <= Z.of_nat more) \/ (l = [] /\ chunks <= next)).

Record todos_ok (next : Z) (todos : list (list Instr)) (dirty : list (list Z)) : Prop := {
  to_clean : Forall2 clean dirty todos;
  to_ordered : Forall ordered todos;
  to_instrs : Forall instr_ok (concat todos);
  to_leaf : forall t l, todos !! t = Some l -> (lo <= t < main)%nat -> leaf_todo next l;
  to_other : forall t l, todos !! t = Some l -> ~ (lo <= t < main)%nat -> Forall no_acquire l;
  to_next : 0 <= next /\ next + Z.of_nat (acquires (concat todos)) <= chunks + leaf_workers;
  to_acquires : Z.of_nat (acquires (concat todos)) <= leaf_workers
}.

Record work_ok (c : Z) : Prop := {
  wk_instrs : Forall instr_ok (work c);
  wk_leafy : Forall leafy (work c);
  wk_acquire : Forall no_acquire (work c);
  wk_clean : forall more, clean [] (work c ++ [IAcquire more])
}.
Hypothesis works : forall c, 0 <= c < chunks -> work_ok c.

Definition pool (next : Z) : list Instr := concat (work <$> zrange next chunks).
Definition left_over (next : Z) (todos : list (list Instr)) : list Instr := concat todos ++ pool next.

Lemma pool_next c : c < chunks -> pool c = work c ++ pool (c + 1).
Proof. intros. unfold pool. by rewrite zrange_cons. Qed.
Lemma pool_empty c : chunks <= c -> pool c = [].
Proof. intros. unfold pool. by rewrite zrange_nil. Qed.

Lemma concat_replace {A} (ls : list (list A)) t l l' : ls !! t = Some l -> concat (<[t := l']> ls) ++ l ≡ₚ concat ls ++ l'.
Proof.
  revert t; induction ls as [|x ls IH]; intros [|t] Ht; cbn in *; [done..| |].
  - injection Ht as ->. change (l' ++ concat ls) with (l' ++ concat ls). solve_Permutation.
  - specialize (IH t Ht). change (concat (<[t := l']> (ls))) with (concat (<[t := l']> ls)) in IH.
    rewrite <- !app_assoc. by rewrite IH.
Qed.

Lemma concat_pop {A} (ls : list (list A)) t x l : ls !! t = Some (x :: l) -> concat ls ≡ₚ x :: concat (<[t := l]> ls).
Proof.
  intros Ht. pose proof (concat_replace ls t (x :: l) l Ht) as E. apply (Permutation_app_inv_r l). rewrite <- E. solve_Permutation.
Qed.

Lemma todos_pop next todos dirty t x l d : todos_ok next todos dirty -> todos !! t = Some (x :: l) -> dirty !! t = Some d ->
  no_acquire x -> todos_ok next (<[t := l]> todos) (<[t := after x d]> dirty).
Proof.
  intros [Hc Ho Hi Hl Hn Hx Ha] Ht Hd Hnx. pose proof (concat_pop todos t x l Ht) as E. split.
  - apply Forall2_insert; [done|]. apply clean_next. by eapply Forall2_lookup_lr.
  - apply Forall_insert; [done|]. eapply ordered_next, Forall_lookup_1; done.
  - rewrite E in Hi. by apply Forall_cons in Hi as [_ ?].
  - intros t' l' [[-> ->]|[Hne Hl']]%updated_thread Hr; [|by apply (Hl t')]. destruct (Hl t _ Ht Hr) as [Hlf [(l0 & more & El & Hna & Hm)|[? _]]]; [|done].
    apply Forall_cons in Hlf as [_ Hlf]. split; [done|]. left. destruct l0 as [|y l0]; cbn in El; injection El as -> ->; [done|].
    apply Forall_cons in Hna as [_ Hna]. by exists l0, more.
  - intros t' l' [[-> ->]|[Hne Hl']]%updated_thread Hr; [|by apply (Hn t')]. pose proof (Hn t _ Ht Hr) as Hf. by apply Forall_cons in Hf as [_ ?].
  - rewrite E in Hx. unfold acquires in *. destruct x; cbn in Hx |- *; by try lia.
  - rewrite E in Ha. unfold acquires in *. destruct x; cbn in Ha |- *; by try lia.
Qed.

Lemma todos_none next todos dirty t more : todos_ok next todos dirty -> todos !! t = Some [IAcquire more] -> chunks <= next ->
  todos_ok (next + 1) (<[t := []]> todos) dirty.
Proof.
  intros [Hc Ho Hi Hl Hn Hx Ha] Ht Hlt. pose proof (concat_pop todos t _ _ Ht) as E. pose proof (Forall2_lookup_r _ _ _ _ _ Hc Ht) as (d & Hd & Hcd).
  cbn in Hcd. destruct Hcd as [-> _]. split.
  - rewrite <- (list_insert_id dirty t []) by done. by apply Forall2_insert.
  - by apply Forall_insert.
  - rewrite E in Hi. by apply Forall_cons in Hi as [_ ?].
  - intros t' l' [[-> ->]|[Hne Hl']]%updated_thread Hr; [split; [done|right; split; [done|lia]]|].
    destruct (Hl t' l' Hl' Hr) as [Hf [(l0 & m & -> & Hna & Hm)|[-> _]]]; (split; [done|]); [left; exists l0, m; split_and!; [done|done|lia]|right; split; [done|lia]].
  - intros t' l' [[-> ->]|[Hne Hl']]%updated_thread Hr; [done|by apply (Hn t')].
  - rewrite E in Hx. unfold acquires in *. cbn in Hx. lia.
  - rewrite E in Ha. unfold acquires in *. cbn in Ha. lia.
Qed.

Lemma todos_some next todos dirty t more : todos_ok next todos dirty -> todos !! t = Some [IAcquire (S more)] ->
  (lo <= t < main)%nat -> next < chunks -> todos_ok (next + 1) (<[t := work next ++ [IAcquire more]]> todos) dirty.
Proof.
  intros [Hc Ho Hi Hl Hn Hx Ha] Ht Hr Hlt. pose proof (concat_replace todos t _ (work next ++ [IAcquire more]) Ht) as E.
  pose proof (Forall2_lookup_r _ _ _ _ _ Hc Ht) as (d & Hd & Hcd). cbn in Hcd. destruct Hcd as [-> _].
  destruct (works next) as [Hwi Hwl Hwa Hwc]; [lia|].
  assert (acquires (concat (<[t := work next ++ [IAcquire more]]> todos)) = acquires (concat todos)) as Eac.
  { apply acquires_perm in E. rewrite !acquires_app, (acquires_none (work next)) in E by done. unfold acquires in *. cbn in E. lia. }
  split; rewrite ?Eac.
  - rewrite <- (list_insert_id dirty t []) by done. by apply Forall2_insert.
  - apply Forall_insert; [done|]. apply leafy_ordered, Forall_app. split; [done|by repeat constructor].
  - assert (Forall instr_ok (concat todos ++ work next ++ [IAcquire more])) as Hall.
    { rewrite !Forall_app. split_and!; [done|done|by repeat constructor]. }
    rewrite <- E, Forall_app in Hall. tauto.
  - intros t' l' [[-> ->]|[Hne Hl']]%updated_thread Hr'.
    + split; [apply Forall_app; split; [done|by repeat constructor]|]. left. exists (work next), more. split_and!; [done|done|].
      destruct (Hl t _ Ht Hr) as [_ [(l0 & m & El & _ & Hm)|[? _]]]; [|done].
      destruct l0 as [|y l0]; [injection El as <-; lia|]. injection El as _ El. by destruct l0.
    + destruct (Hl t' l' Hl' Hr') as [Hf [(l0 & m & -> & Hna & Hm)|[-> ?]]]; [|lia]. split; [done|]. left. exists l0, m. split_and!; [done|done|lia].
  - intros t' l' [[-> ->]|[Hne Hl']]%updated_thread Hr'; [done|by apply (Hn t')].
  - lia.
  - lia.
Qed.

(** ** Waiting *)

(** A node that is there although a thread still waits for it has a writer that has yet to publish
    it, or has been published since the thread looked at the epoch. *)
Definition owed (dirty : list (list Z)) (p : Z) : Prop := exists j d, dirty !! j = Some d /\ p ∈ d.

Definition sleep_ok (e : Z) (ws : list Z) (dirty : list (list Z)) (p : Z) (ph : Phase) : Prop :=
  match ph with
  | Unready => p ∉ ws -> owed dirty p
  | Waiting o | Woken o => 0 <= o <= e /\ (p ∉ ws -> owed dirty p \/ o <> e)
  | Sleeping o => 0 <= o <= e /\ (p ∉ ws -> owed dirty p)
  | _ => True
  end.

Record good (s : Sys unit) (todos : list (list Instr)) (dirty : list (list Z)) : Prop := {
  gd_follow : Forall2 (fun th l => follows failing (fun _ => True) (prog th) l) (threads s) todos;
  gd_todos : todos_ok (next_chunk (mem s)) todos dirty;
  gd_mem : mem_ok (mem s) (left_over (next_chunk (mem s)) todos);
  gd_sleep : forall t th p k, threads s !! t = Some th -> prog th = ReadWhenReady p k ->
    sleep_ok (epoch (mem s)) (writes (left_over (next_chunk (mem s)) todos)) dirty p (phase th)
}.

(** A thread whose access failed is about to abort. *)
Definition doomed (s : Sys unit) : Prop := exists t th, threads s !! t = Some th /\ failing (prog th).

Lemma sleep_mono e ws ws' dirty dirty' p ph :
  (p ∉ ws' -> p ∉ ws \/ owed dirty' p) -> (owed dirty p -> owed dirty' p) -> sleep_ok e ws dirty p ph -> sleep_ok e ws' dirty' p ph.
Proof. intros Hw Hd. destruct ph; cbn; naive_solver. Qed.

Lemma owed_insert dirty t d d' p : dirty !! t = Some d -> (forall q, q ∈ d -> q ∈ d') -> owed dirty p -> owed (<[t := d']> dirty) p.
Proof.
  intros Ht Hsub (j & dj & Hj & Hp). destruct (decide (j = t)) as [->|Hne].
  - exists t, d'. rewrite list_lookup_insert_eq by by eapply lookup_lt_Some. split; [done|]. apply Hsub. congruence.
  - exists j, dj. by rewrite list_lookup_insert_ne.
Qed.

Lemma after_sub x d q : x <> IPublish -> q ∈ d -> q ∈ after x d.
Proof. destruct x; cbn; try done. intros _ ?. by right. Qed.

Section Step.
Context (s : Sys unit) (Hs : shape env main s) (todos : list (list Instr)) (dirty : list (list Z)) (Hg : good s todos dirty).
Context (t : nat) (th : Thread unit) (Ht : threads s !! t = Some th).

Lemma todo_of : exists l d, todos !! t = Some l /\ dirty !! t = Some d /\ follows failing (fun _ => True) (prog th) l /\ clean d l.
Proof.
  destruct (Forall2_lookup_l _ _ _ _ _ (gd_follow _ _ _ Hg) Ht) as (l & Hl & Hf).
  destruct (Forall2_lookup_r _ _ _ _ _ (to_clean _ _ _ (gd_todos _ _ _ Hg)) Hl) as (d & Hd & Hc). by exists l, d.
Qed.

Lemma left_pop x l : todos !! t = Some (x :: l) ->
  left_over (next_chunk (mem s)) todos ≡ₚ x :: left_over (next_chunk (mem s)) (<[t := l]> todos).
Proof. intros Hl. unfold left_over. by rewrite (concat_pop todos t x l Hl). Qed.

Lemma head_ok x l : todos !! t = Some (x :: l) -> instr_ok x.
Proof.
  intros Hl. pose proof (to_instrs _ _ _ (gd_todos _ _ _ Hg)) as Hi. rewrite (concat_pop todos t x l Hl) in Hi.
  by apply Forall_cons in Hi as [? _].
Qed.

(** The thread does what comes next on its list, and does not publish. *)
Lemma good_go x l d m' p' : todos !! t = Some (x :: l) -> dirty !! t = Some d -> no_acquire x -> x <> IPublish ->
  follows failing (fun _ => True) p' l -> next_chunk m' = next_chunk (mem s) -> epoch m' = epoch (mem s) ->
  mem_ok m' (left_over (next_chunk (mem s)) (<[t := l]> todos)) ->
  good {| mem := m'; threads := <[t := start_thread env p']> (threads s) |} (<[t := l]> todos) (<[t := after x d]> dirty).
Proof.
  intros Hl Hd Hx Hpub Hf Hn He Hm. split; cbn [mem threads]; rewrite ?Hn, ?He.
  - apply Forall2_insert; [apply (gd_follow _ _ _ Hg)|done].
  - by apply todos_pop; [apply (gd_todos _ _ _ Hg)|..].
  - done.
  - intros j thj p k [[-> ->]|[Hne Hj]]%updated_thread Hp; [done|].
    eapply sleep_mono; [| |by eapply (gd_sleep _ _ _ Hg)].
    + rewrite (left_pop x l Hl). unfold writes. cbn [mbind list_bind]. intros Hw. destruct x; cbn [app]; try (by left).
      destruct (decide (p = position)) as [->|Hne']; [right|left; by intros [?|?]%elem_of_cons].
      exists t, (position :: d). split; [|by left]. apply list_lookup_insert_eq. by eapply lookup_lt_Some.
    + intros Ho. eapply owed_insert; [done| |done]. intros q. by apply after_sub.
Qed.

Lemma good_publish k l d : todos !! t = Some (IPublish :: l) -> dirty !! t = Some d -> mutex (mem s) = None ->
  follows failing (fun _ => True) k l ->
  good {| mem := with_epoch (mem s) (wrap 64 (epoch (mem s) + 1)); threads := notify <$> <[t := start_thread env k]> (threads s) |}
    (<[t := l]> todos) (<[t := []]> dirty).
Proof.
  intros Hl Hd Hmx Hf. pose proof (gd_mem _ _ _ Hg) as Hm. apply (mem_ok_perm _ _ _ (left_pop _ _ Hl)) in Hm.
  destruct Hm as [Hm1 Hm2 Hm3 Hm4 Hm5 Hm0 [Hm6 Hm7]]. rewrite publishes_cons in Hm7.
  rewrite wrap_small by (unfold is_uint; lia). split; cbn [mem threads next_chunk epoch with_epoch].
  - apply Forall2_fmap_l, Forall2_insert.
    + eapply Forall2_impl; [apply (gd_follow _ _ _ Hg)|]. intros x y. cbn. by rewrite notify_prog.
    + done.
  - by apply (todos_pop _ _ _ t IPublish l d); [apply (gd_todos _ _ _ Hg)|..].
  - split; try done. cbn [epoch with_epoch]. lia.
  - intros j thj p k' (th0 & Hj & ->)%notified. rewrite notify_prog. intros Hp. apply updated_thread in Hj as [[-> ->]|[Hne Hj]]; [done|].
    pose proof (gd_sleep _ _ _ Hg j th0 p k' Hj Hp) as Hsl. pose proof (sh_holds _ _ _ Hs j th0 Hj) as Hh. rewrite Hmx in Hh.
    destruct th0 as [p0 [| | | |o|o|o]]; cbn in *; try done; try (by discriminate (Hh eq_refl)); (split; [lia|right; lia]).
Qed.

Lemma good_acquire k l d m' : todos !! t = Some l -> dirty !! t = Some d -> prog th = Acquire k ->
  follows failing (fun _ => True) (prog th) l ->
  acquire stop (next_chunk (mem s)) = m' -> 0 < stop < 2 ^ 32 - 1 -> chunks + leaf_workers < 2 ^ 64 - 1 ->
  exists todos', good {| mem := with_next (mem s) m'.2; threads := <[t := start_thread env (k m'.1)]> (threads s) |} todos' dirty.
Proof.
  intros Hl Hd Hp Hf <- Hst Hlim. rewrite Hp in Hf. pose proof (gd_todos _ _ _ Hg) as Ht'. destruct l as [|[more| | | | | | | |] [|]]; try done.
  destruct Hf as [Hnone Hsome]. destruct (to_next _ _ _ Ht') as [Hn0 Hn].
  assert (0 < acquires (concat todos))%nat as Hac by (rewrite (concat_pop _ _ _ _ Hl); unfold acquires; cbn; lia).
  assert (lo <= t < main)%nat as Hr.
  { destruct (decide (lo <= t < main)%nat); [done|]. pose proof (to_other _ _ _ Ht' t _ Hl ltac:(done)) as Hna. by apply Forall_cons in Hna as [? _]. }
  destruct (decide (next_chunk (mem s) < chunks)) as [Hlt|Hge].
  - rewrite acquire_in by lia. destruct (to_leaf _ _ _ Ht' t _ Hl Hr) as [_ [(l0 & m & El & _ & Hm)|[? _]]]; [|done].
    destruct l0 as [|y l0]; [|injection El as _ El; by destruct l0]. injection El as <-. destruct more as [|more]; [lia|].
    exists (<[t := work (next_chunk (mem s)) ++ [IAcquire more]]> todos).
    assert (left_over (next_chunk (mem s) + 1) (<[t := work (next_chunk (mem s)) ++ [IAcquire more]]> todos) ++ [IAcquire (S more)]
      ≡ₚ left_over (next_chunk (mem s)) todos ++ [IAcquire more]) as El.
    { unfold left_over. rewrite (pool_next (next_chunk (mem s))) by done.
      pose proof (concat_replace todos t _ (work (next_chunk (mem s)) ++ [IAcquire more]) Hl) as E.
      rewrite (Permutation_app_comm (concat (<[_ := _]> _)) (pool _)), <- (app_assoc (pool _)), E. solve_Permutation. }
    assert (writes (left_over (next_chunk (mem s) + 1) (<[t := work (next_chunk (mem s)) ++ [IAcquire more]]> todos))
      ≡ₚ writes (left_over (next_chunk (mem s)) todos)) as Ew.
    { apply writes_perm in El. rewrite !writes_app in El. cbn in El. by rewrite !app_nil_r in El. }
    split; cbn [mem threads next_chunk epoch with_next fst snd].
    + apply Forall2_insert; [apply (gd_follow _ _ _ Hg)|]. apply Hsome. lia.
    + by apply todos_some.
    + apply (mem_ok_next (mem s)); [done..|]. apply (mem_ok_acquire (S more)). apply (mem_ok_perm _ (left_over (next_chunk (mem s)) todos ++ [IAcquire more])).
      * rewrite <- El. by rewrite Permutation_app_comm.
      * rewrite Permutation_app_comm. apply (mem_ok_acquire more), (gd_mem _ _ _ Hg).
    + intros j thj p k' [[-> ->]|[Hne Hj]]%updated_thread Hpj; [done|]. eapply sleep_mono; [| |by eapply (gd_sleep _ _ _ Hg)]; [|done].
      rewrite Ew. by left.
  - rewrite acquire_out by lia. exists (<[t := []]> todos). cbn [fst snd].
    assert (left_over (next_chunk (mem s)) todos ≡ₚ IAcquire more :: left_over (next_chunk (mem s) + 1) (<[t := []]> todos)) as El.
    { unfold left_over. rewrite !pool_empty by lia. by rewrite (concat_pop _ _ _ _ Hl). }
    split; cbn [mem threads next_chunk epoch with_next fst snd].
    + apply Forall2_insert; [apply (gd_follow _ _ _ Hg)|done].
    + eapply todos_none; [done|done|lia].
    + apply (mem_ok_next (mem s)); [done..|]. apply (mem_ok_acquire more). by apply (mem_ok_perm _ _ _ El), (gd_mem _ _ _ Hg).
    + intros j thj p k' [[-> ->]|[Hne Hj]]%updated_thread Hpj; [done|]. eapply sleep_mono; [| |by eapply (gd_sleep _ _ _ Hg)]; [|done].
      rewrite El. by left.
Qed.

Lemma good_wait p k m' ph' : prog th = ReadWhenReady p k -> p ∈ nodes -> await_step (mem s) t p (phase th) = Moved m' ph' ->
  good {| mem := m'; threads := <[t := {| prog := prog th; phase := ph' |}]> (threads s) |} todos dirty.
Proof.
  intros Hp Hin E. pose proof (gd_sleep _ _ _ Hg t th p k Ht Hp) as Hsl. destruct (gd_mem _ _ _ Hg) as [Hfo _ _ _ _ _ [He _]].
  pose proof (read_node _ _ p Hfo Hin) as Hrd.
  assert (next_chunk m' = next_chunk (mem s) /\ epoch m' = epoch (mem s) /\ mem_ok m' (left_over (next_chunk (mem s)) todos) /\
    sleep_ok (epoch (mem s)) (writes (left_over (next_chunk (mem s)) todos)) dirty p ph') as (Hn & Hep & Hm & Hnew).
  { assert (forall o, mem_ok (with_mutex (mem s) o) (left_over (next_chunk (mem s)) todos)) as Hmx by (intros o; by eapply mem_ok_next, (gd_mem _ _ _ Hg)).
    pose proof (gd_mem _ _ _ Hg) as Hm0. destruct (phase th) as [[|n]|n| | |o|o|o]; cbn [await_step sleep_ok] in *; unfold try_ready in E; rewrite ?Hrd in E.
    - destruct (mutex (mem s)); [done|]. injection E as <- <-. exact (conj eq_refl (conj eq_refl (conj (Hmx (Some t)) I))).
    - case_decide; [|done]. injection E as <- <-. exact (conj eq_refl (conj eq_refl (conj Hm0 I))).
    - destruct (aborted (mem s)); [done|]. injection E as <- <-. exact (conj eq_refl (conj eq_refl (conj Hm0 I))).
    - case_decide as Hdw; [|done]. injection E as <- <-. refine (conj eq_refl (conj eq_refl (conj Hm0 _))). intros Hnw. by destruct (Hnw Hdw).
    - destruct (aborted (mem s)); [done|]. injection E as <- <-. refine (conj eq_refl (conj eq_refl (conj Hm0 _))).
      split; [lia|]. intros Hw. left. by apply Hsl.
    - destruct (_ && _) eqn:Ew; injection E as <- <-; [|done]. apply andb_true_iff in Ew as [Ew%Z.eqb_eq _]. destruct Hsl as [Ho Hw].
      refine (conj eq_refl (conj eq_refl (conj (Hmx None) _))). split; [lia|]. intros Hpw. destruct (Hw Hpw) as [?|?]; [done|lia].
    - done.
    - destruct (mutex (mem s)); [done|]. injection E as <- <-. exact (conj eq_refl (conj eq_refl (conj (Hmx (Some t)) Hsl))). }
  split; cbn [mem threads]; rewrite ?Hn, ?Hep.
  - rewrite <- (list_insert_id todos t (todos !!! t)).
    2: { destruct todo_of as (l & _ & Hl & _). by rewrite (list_lookup_total_correct _ _ _ Hl). }
    apply Forall2_insert; [apply (gd_follow _ _ _ Hg)|]. cbn [prog]. destruct todo_of as (l & _ & Hl & _ & Hf & _).
    by rewrite (list_lookup_total_correct _ _ _ Hl).
  - apply (gd_todos _ _ _ Hg).
  - done.
  - intros j thj q k' [[-> ->]|[Hne Hj]]%updated_thread Hq; cbn [prog phase] in *; [|by eapply (gd_sleep _ _ _ Hg)].
    assert (q = p) as -> by congruence. done.
Qed.
End Step.

(** ** What the accesses do to the memory *)

Lemma mem_write m p v r : mem_ok m (IWrite p v :: r) -> instr_ok (IWrite p v) ->
  exists f, write (m_forest m) p v = Ok f /\ mem_ok (with_forest m f) r.
Proof.
  intros [Hf Hn Hd He Hh Hnh Hp] [Hin ->]. change (writes (IWrite p (specv p) :: r)) with (p :: writes r) in *. apply NoDup_cons in Hn as [Hnin Hn].
  destruct (write_node_ok _ _ _ Hf Hin Hnin) as (f & E & Hf'). exists f. split; [done|]. by split.
Qed.

Lemma mem_put m kvs r d n : mem_ok m (IPut kvs :: r) -> writer_put_batch (m_leaf_map m) kvs = (d, Ok n) -> mem_ok (with_leaf_map m d) r.
Proof. intros [Hf Hn Hd He Hh Hnh Hp] E. split; [done|done| |done..]. by eapply db_put_ok. Qed.

Lemma total_nonneg r : Forall instr_ok r -> 0 <= total (counted r).
Proof. induction 1 as [|x r Hx Hr IH]; [done|]. destruct x; cbn in *; unfold total, counted in *; cbn in *; lia. Qed.

Lemma mem_count m n r : mem_ok m (ICount n :: r) -> instr_ok (ICount n) -> Forall instr_ok r -> entry_count < 2 ^ 64 ->
  mem_ok (with_entries m (wrap 64 (leaf_map_entries m + n))) r.
Proof.
  intros [Hf Hn Hd [He1 He2] Hh Hnh Hp] Hi Hr Hlim. change (total (counted (ICount n :: r))) with (n + total (counted r)) in He2. cbn in Hi.
  pose proof (total_nonneg r Hr). rewrite wrap_small by (unfold is_uint; lia). split; [done|done|done| |done|done|done]. cbn [leaf_map_entries with_entries]. lia.
Qed.

Lemma mem_headers m hs r io x : mem_ok m (IHeaders hs :: r) -> instr_ok (IHeaders hs) ->
  put_batch io hs (m_headers m) = (x, Ok tt) -> mem_ok (with_headers m x) r.
Proof.
  intros [Hf Hn Hd He Hh Hnh Hp] (es & -> & Hes) E. split; [done|done|done|done| | |done]; [by eapply header_batch_ok|].
  change (headers_in (IHeaders (serialized_entry <$> es) :: r)) with ((serialized_entry <$> es) ++ headers_in r) in Hnh.
  rewrite !fmap_app in Hnh. by apply NoDup_app in Hnh as (_ & _ & ?).
Qed.

(** ** Every step *)

(** The stores never fail. *)
Definition reliable : Prop :=
  (forall d, db_write_only d = Ok tt) /\ (forall d kvs, exists d' n, writer_put_batch d kvs = (d', Ok n)) /\
  (forall i x es, heights x <> None -> Forall entry_fits es ->
     exists x', put_batch (be_header_io env i) (serialized_entry <$> es) x = (x', Ok tt)).

Hypothesis stop_fits : 0 < stop < 2 ^ 32 - 1.
Hypothesis workers_fit : chunks + leaf_workers < 2 ^ 64 - 1.
Hypothesis entries_fit : entry_count < 2 ^ 64.

Lemma left_over_ok s todos dirty : good s todos dirty -> Forall instr_ok (left_over (next_chunk (mem s)) todos).
Proof.
  intros Hg. apply Forall_app. split; [apply (to_instrs _ _ _ (gd_todos _ _ _ Hg))|]. unfold pool. apply Forall_concat, Forall_fmap, Forall_forall.
  intros c Hc%elem_of_zrange. apply wk_instrs, works. pose proof (to_next _ _ _ (gd_todos _ _ _ Hg)). lia.
Qed.

Lemma doomed_go s t m p : threads s !! t <> None -> failing p -> doomed {| mem := m; threads := <[t := start_thread env p]> (threads s) |}.
Proof.
  intros Ht Hf. exists t, (start_thread env p). split; [|done]. apply list_lookup_insert_eq. apply lookup_lt_is_Some. by destruct (threads s !! t).
Qed.

Lemma answer_good s todos dirty t th p k m' r : good s todos dirty -> threads s !! t = Some th -> prog th = ReadWhenReady p k -> p ∈ nodes ->
  aborted (mem s) = false -> await_step (mem s) t p (phase th) = Answered m' r -> r = Ok (specv p).
Proof.
  intros Hg Ht Hp Hin Hab E. pose proof (read_node _ _ p (mo_forest _ _ (gd_mem _ _ _ Hg)) Hin) as Hrd.
  destruct (phase th) as [[|n]|n| | |o|o|o]; cbn [await_step] in E; unfold try_ready in E; rewrite ?Hrd, ?Hab in E.
  - by destruct (mutex (mem s)).
  - case_decide; [done|]. by injection E.
  - done.
  - case_decide; [done|]. by injection E.
  - done.
  - by destruct (_ && _).
  - done.
  - by destruct (mutex (mem s)).
Qed.

Lemma good_step s s' todos dirty : shape env main s -> good s todos dirty -> aborted (mem s) = false -> step env s s' ->
  (~ reliable /\ doomed s') \/ exists todos' dirty', good s' todos' dirty'.
Proof.
  intros Hs Hg Hab (t & E). unfold step_thread in E. destruct (threads s !! t) as [th|] eqn:Ht; [|done]. cbn [mbind option_bind] in E.
  destruct (todo_of s todos dirty Hg t th Ht) as (l & d & Hl & Hd & Hf & Hcl). pose proof (gd_mem _ _ _ Hg) as Hm.
  assert (threads s !! t <> None) as Hne by by rewrite Ht. pose proof (left_over_ok s todos dirty Hg) as Hlo.
  assert (forall x l', l = x :: l' -> instr_ok x /\ mem_ok (mem s) (x :: left_over (next_chunk (mem s)) (<[t := l']> todos)) /\
    Forall instr_ok (left_over (next_chunk (mem s)) (<[t := l']> todos))) as Hpop.
  { intros x l' ->. pose proof (left_pop s todos t x l' Hl) as El. split_and!; [by eapply head_ok|by rewrite <- El|].
    rewrite El in Hlo. by apply Forall_cons in Hlo as [_ ?]. }
  destruct (prog th) as [r|k|k|p v k|p k|k|k|es k|n k|hs k|i k] eqn:Ep; cbn [follows] in Hf.
  - done.
  - right. pose proof (good_acquire s todos dirty Hg t th k l d (acquire stop (next_chunk (mem s))) Hl Hd Ep) as Hga. rewrite Ep in Hga. cbn [follows] in Hga.
    destruct (acquire stop (next_chunk (mem s))) as [range n]. injection E as <-. destruct (Hga Hf eq_refl) as (todos' & Hg'); [done|done|by exists todos', dirty].
  - destruct l as [|[] l]; try done. destruct Hf as [Hk Hfail]. destruct (Hpop _ _ eq_refl) as (_ & Hm' & _).
    destruct (db_write_only (m_leaf_map (mem s))) as [[]|e] eqn:Ew.
    + destruct (mo_headers _ _ Hm) as (Hs' & K & _ & [hd Ehd] & _). rewrite Ehd in E. injection E as <-. right.
      eexists _, _. eapply good_go; try done. by destruct Hm'.
    + injection E as <-. left. split; [intros [Hr _]; by rewrite Hr in Ew|]. by apply doomed_go.
  - destruct l as [|[] l]; try done. destruct Hf as (-> & -> & Hk). destruct (Hpop _ _ eq_refl) as (Hi & Hm' & _).
    destruct (mem_write _ _ _ _ Hm' Hi) as (f & Ef & Hm2). rewrite Ef in E. injection E as <-. right. eexists _, _. eapply good_go; done.
  - destruct l as [|[] l]; try done. destruct Hf as (-> & Hk). destruct (Hpop _ _ eq_refl) as (Hi & Hm' & _).
    destruct (await_step _ _ _ _) as [|m' ph'|m' r] eqn:Ea; [done| |].
    + injection E as <-. right. rewrite <- Ep. eexists _, _. by eapply good_wait.
    + pose proof (answer_good _ _ _ _ _ _ _ _ _ Hg Ht Ep Hi Hab Ea) as ->. apply await_answers in Ea as ->. injection E as <-. right.
      eexists _, _. eapply good_go; try done; [by destruct (holding _)|by destruct (holding _)|].
      destruct (holding _); [|by destruct Hm']. eapply mem_ok_next; [..|by destruct Hm']; done.
  - destruct l as [|[] l]; try done. destruct (mutex (mem s)) eqn:Em; [done|]. injection E as <-. right. eexists _, _. by eapply good_publish.
  - done.
  - destruct l as [|[] l]; try done. destruct Hf as (-> & Hk & Hfail). destruct (Hpop _ _ eq_refl) as (Hi & Hm' & _).
    destruct (writer_put_batch _ _) as [d' [n|e]] eqn:Ew; injection E as <-.
    + right. pose proof (writer_put_count _ _ _ _ Ew) as ->. eexists _, _. eapply good_go; try done. by eapply mem_put.
    + left. split; [|by apply doomed_go]. intros (_ & Hr & _). destruct (Hr (m_leaf_map (mem s)) entries) as (? & ? & E). congruence.
  - destruct l as [|[] l]; try done. destruct Hf as (-> & Hk). destruct (Hpop _ _ eq_refl) as (Hi & Hm' & Hlo'). injection E as <-. right.
    eexists _, _. eapply good_go; try done. by eapply mem_count.
  - destruct l as [|[] l]; try done. destruct Hf as (-> & Hk & Hfail). destruct (Hpop _ _ eq_refl) as (Hi & Hm' & _).
    destruct (put_batch _ _ _) as [x [[]|e]] eqn:Ew; injection E as <-.
    + right. eexists _, _. eapply good_go; try done. by eapply mem_headers.
    + left. split; [|by apply doomed_go]. intros (_ & _ & Hr). destruct Hi as (es & -> & Hes).
      destruct (mo_headers _ _ Hm) as (Hs' & K & _ & [hd Ehd] & _).
      destruct (Hr (batches (mem s)) (m_headers (mem s)) es) as (x' & E'); [by rewrite Ehd| |congruence].
      apply Forall_forall. intros y Hy. pose proof headers_fit as Hhf. rewrite Forall_forall in Hhf. by apply Hhf, Hes.
  - destruct l as [|[] l]; try done. destruct Hf as (-> & Hk). destruct (Hpop _ _ eq_refl) as (Hi & Hm' & _).
    destruct (threads s !! thread) as [other|] eqn:Eo; [|done]. cbn [mbind option_bind] in E. destruct (prog other) as [r|?|?|???|??|?|?|??|??|??|??] eqn:Epo; try done.
    injection E as <-. destruct (todo_of s todos dirty Hg thread other Eo) as (lo' & _ & _ & _ & Hfo & _). rewrite Epo in Hfo. destruct r as [a|e]; [|done].
    right. eexists _, _. eapply good_go; try done. by destruct Hm'.
Qed.

(** ** Runs *)

Lemma good_aborted s s' todos dirty : good s todos dirty -> step env s s' -> aborted (mem s') = aborted (mem s).
Proof.
  intros Hg (t & (th & Ht & Hst)%step_inv). destruct Hst as [? ? ? ? ? ? ? ?|k Hk|? ? ?|? ? ? ? ? Hmv]; cbn [mem]; [done| |done|by apply await_moves in Hmv as (_ & _ & ?)].
  destruct (todo_of s todos dirty Hg t th Ht) as (l & d & _ & _ & Hf & _). by rewrite Hk in Hf.
Qed.

Lemma doomed_step s s' : doomed s -> step env s s' -> doomed s' \/ aborted (mem s') = true.
Proof.
  intros (j & thj & Hj & e & Hpj) (t & (th & Ht & Hst)%step_inv). destruct (decide (t = j)) as [->|Hne].
  { assert (th = thj) as -> by congruence. destruct Hst as [m' p' Hc Hna ? ? ? ?|k Hk|k Hk ?|? ? ? ? Hk ?]; [by rewrite Hpj in Hna|by right|congruence|congruence]. }
  left. destruct Hst as [m' p' ? ? ? ? ? ?|k Hk|k Hk ?|? ? ? ? Hk ?]; (exists j);
    [exists thj|exists thj|exists (notify thj)|exists thj]; cbn [threads]; rewrite ?list_lookup_fmap, list_lookup_insert_ne by done.
  1,2,4: (split; [done|by exists e]). rewrite Hj. split; [done|]. rewrite notify_prog. by exists e.
Qed.

(** Before anybody fails, the lists describe what is left to do. *)
Definition going (s : Sys unit) : Prop := exists todos dirty, good s todos dirty.
Definition run_inv (s : Sys unit) : Prop :=
  shape env main s /\ (aborted (mem s) = true \/ doomed s \/ going s) /\ (reliable -> aborted (mem s) = false /\ going s).

Lemma aborted_stays (s s' : Sys unit) : aborted (mem s) = true -> step env s s' -> aborted (mem s') = true.
Proof.
  intros Ha (t & (th & Ht & Hst)%step_inv). destruct Hst as [? ? ? ? ? ? ? ?|k Hk|? ? ?|? ? ? ? ? Hmv]; cbn [mem]; [congruence|done|done|].
  apply await_moves in Hmv as (_ & _ & ?). congruence.
Qed.

Lemma run_inv_step s s' : run_inv s -> step env s s' -> run_inv s'.
Proof.
  intros (Hs & Hd & Hr) Hst. split; [by eapply shape_step|]. split.
  - destruct (aborted (mem s)) eqn:Ha; [left; by eapply aborted_stays|]. destruct Hd as [?|[Hd|(todos & dirty & Hg)]]; [done| |].
    + destruct (doomed_step s s' Hd Hst); [by right; left|by left].
    + destruct (good_step s s' todos dirty Hs Hg Ha Hst) as [[_ ?]|(todos' & dirty' & ?)]; right; [by left|right; by exists todos', dirty'].
  - intros Hrel. destruct (Hr Hrel) as [Ha (todos & dirty & Hg)]. rewrite (good_aborted s s' todos dirty Hg Hst). split; [done|].
    destruct (good_step s s' todos dirty Hs Hg Ha Hst) as [[? _]|(todos' & dirty' & ?)]; [done|by exists todos', dirty'].
Qed.

Lemma run_inv_steps s s' : run_inv s -> rtc (step env) s s' -> run_inv s'.
Proof. intros Hi Hr. induction Hr as [|s1 s2 s3 Hst _ IH]; [done|]. apply IH. by eapply run_inv_step. Qed.

Hypothesis rows_positive : forall p, p ∈ nodes -> 0 <= row_of p.
Hypothesis some_leaf_worker : (lo < main)%nat.

Section Stuck.
Context (s : Sys unit) (Hs : shape env main s) (Hst : stuck env s) (todos : list (list Instr)) (dirty : list (list Z)) (Hg : good s todos dirty).

Lemma stuck_leaf t th : threads s !! t = Some th -> (lo <= t < main)%nat -> todos !! t = Some [] /\ chunks <= next_chunk (mem s).
Proof.
  intros Ht Hr. destruct (todo_of s todos dirty Hg t th Ht) as (l & d & Hl & Hd & Hf & Hc).
  destruct (to_leaf _ _ _ (gd_todos _ _ _ Hg) t l Hl Hr) as [Hlf Hlt]. assert (l = []) as ->.
  { destruct (stuck_thread env main s t th Hs Hst Ht) as [([a|e] & Hp)|[(p & k & e & Hp & _)|(i & k & Hp & _)]]; rewrite Hp in Hf; cbn [follows] in Hf; try done.
    - by destruct l.
    - destruct l as [|[] ?]; try done. by apply Forall_cons in Hlf as [? _].
    - destruct l as [|[] ?]; try done. by apply Forall_cons in Hlf as [? _]. }
  split; [done|]. destruct Hlt as [(l' & more & E & _)|[_ ?]]; [by destruct l'|done].
Qed.

Lemma stuck_pool : chunks <= next_chunk (mem s).
Proof.
  destruct (lookup_lt_is_Some_2 (threads s) lo) as [th Ht]; [rewrite (sh_length _ _ _ Hs); lia|]. by eapply stuck_leaf.
Qed.

(** A sleeper would wait for a node above which another one sleeps. *)
Lemma no_sleeper n : forall t th p k e, (Z.to_nat (row_of p) < n)%nat -> threads s !! t = Some th -> prog th = ReadWhenReady p k -> phase th <> Sleeping e.
Proof.
  induction n as [|n IH]; intros t th p k e Hlt Ht Hp Hph; [lia|].
  destruct (todo_of s todos dirty Hg t th Ht) as (l & d & Hl & Hd & Hf & Hc). rewrite Hp in Hf. cbn [follows] in Hf.
  destruct l as [|[] l]; try done. destruct Hf as [-> Hf]. pose proof (head_ok s todos dirty Hg t _ _ Hl) as Hin. cbn in Hin.
  assert (forall q, q ∈ nodes -> row_of q < row_of position -> forall j thj k' e', threads s !! j = Some thj -> prog thj = ReadWhenReady q k' -> phase thj <> Sleeping e') as Hlow.
  { intros q Hq Hrow j thj k' e'. apply IH. pose proof (rows_positive q Hq). lia. }
  pose proof (gd_sleep _ _ _ Hg t th position k Ht Hp) as Hsl. rewrite Hph in Hsl. destruct Hsl as [_ Hsl].
  assert (forall j lj dj, todos !! j = Some lj -> dirty !! j = Some dj -> (position ∈ dj \/ position ∈ writes lj) -> False) as Hno.
  { intros j lj dj Hlj Hdj Hpos. destruct (Forall2_lookup_r _ _ _ _ _ (gd_follow _ _ _ Hg) Hlj) as (thj & Htj & Hfj).
    pose proof (Forall2_lookup_lr _ _ _ _ _ _ (to_clean _ _ _ (gd_todos _ _ _ Hg)) Hdj Hlj) as Hcj.
    pose proof (Forall_lookup_1 _ _ _ _ (to_ordered _ _ _ (gd_todos _ _ _ Hg)) Hlj) as Hoj.
    destruct (stuck_thread env main s j thj Hs Hst Htj) as [([a|e0] & Hpj)|[(q & k' & e' & Hpj & Hphj)|(i & k' & Hpj & _)]]; rewrite Hpj in Hfj; cbn [follows] in Hfj.
    - destruct lj; [|done]. cbn in Hcj. subst dj. by destruct Hpos as [?%elem_of_nil|?%elem_of_nil].
    - done.
    - destruct lj as [|[] lj]; try done. destruct Hfj as [-> _]. destruct Hcj as [Hcj _]. destruct Hoj as [Hoj _].
      pose proof (head_ok s todos dirty Hg j _ _ Hlj) as Hq. cbn in Hq.
      apply (Hlow position0 Hq) with (j := j) (thj := thj) (k' := k') (e' := e'); [|done..]. destruct Hpos as [Hpos|Hpos]; [by apply Hcj|by apply Hoj].
    - destruct lj as [|[] lj]; try done. destruct Hcj as [-> _]. destruct Hoj as [Hoj _]. destruct Hpos as [?%elem_of_nil|Hpos]; [done|].
      change (position ∈ writes lj) in Hpos. rewrite Hoj in Hpos. by apply elem_of_nil in Hpos. }
  destruct (decide (position ∈ writes (left_over (next_chunk (mem s)) todos))) as [Hw|Hw].
  - unfold left_over in Hw. rewrite (pool_empty _ stuck_pool), app_nil_r in Hw. unfold writes in Hw. apply list_elem_of_bind in Hw as (x & Hx & Hxin).
    apply list_elem_of_In, in_concat in Hxin as (lj & Hlj%list_elem_of_In & Hxl%list_elem_of_In). apply list_elem_of_lookup in Hlj as (j & Hlj).
    destruct (Forall2_lookup_r _ _ _ _ _ (to_clean _ _ _ (gd_todos _ _ _ Hg)) Hlj) as (dj & Hdj & _).
    apply (Hno j lj dj Hlj Hdj). right. unfold writes. apply list_elem_of_bind. by exists x.
  - destruct (Hsl Hw) as (j & dj & Hdj & Hpd). destruct (Forall2_lookup_l _ _ _ _ _ (to_clean _ _ _ (gd_todos _ _ _ Hg)) Hdj) as (lj & Hlj & _).
    apply (Hno j lj dj Hlj Hdj). by left.
Qed.

(** A run that gets stuck before anybody failed is over, and nothing is left to do. *)
Lemma good_stuck : (forall t th, threads s !! t = Some th -> exists a, prog th = Ret (Ok a)) /\ mem_ok (mem s) [].
Proof.
  assert (forall t th, threads s !! t = Some th -> exists r, prog th = Ret r) as Hend.
  { apply (awake_stuck env main s Hs Hst). intros t th p k e Ht Hp.
    apply (no_sleeper (S (Z.to_nat (row_of p))) t th p k e); [lia|done..]. }
  assert (forall t th, threads s !! t = Some th -> (exists a, prog th = Ret (Ok a)) /\ todos !! t = Some []) as Hall.
  { intros t th Ht. destruct (Hend t th Ht) as (r & Hr). destruct (todo_of s todos dirty Hg t th Ht) as (l & d & Hl & _ & Hf & _).
    rewrite Hr in Hf. destruct r as [a|e]; [|done]. split; [by exists a|]. by destruct l. }
  split; [intros t th Ht; by apply Hall with t|]. pose proof (gd_mem _ _ _ Hg) as Hm. unfold left_over in Hm. rewrite (pool_empty _ stuck_pool), app_nil_r in Hm.
  assert (concat todos = []) as E; [|by rewrite E in Hm]. assert (Forall (fun l => l = []) todos) as Hf.
  { apply Forall_forall. intros l (t & Hl)%list_elem_of_lookup. destruct (Forall2_lookup_r _ _ _ _ _ (gd_follow _ _ _ Hg) Hl) as (th & Ht & _).
    destruct (Hall t th Ht) as [_ E]. congruence. }
  clear -Hf. by induction Hf as [|l ls -> _ IH].
Qed.
End Stuck.

Lemma ended_stuck (s : Sys unit) : (forall t th, threads s !! t = Some th -> exists r, prog th = Ret r) -> stuck env s.
Proof.
  intros Hend t. unfold step_thread. destruct (threads s !! t) as [th|] eqn:Ht; [|done]. cbn [mbind option_bind].
  destruct (Hend t th Ht) as (r & ->). done.
Qed.

End Fill.
End BuildFill.
