(* ===== verification/BuildLeaves.v ===== *)
(** What a leaf worker of the bootstrap build does for one height: the nodes and the
    entries that [fill_leaf_range] writes, and when it accepts the hints. *)

From S2P Require Import Prelude Bytes Sorting Files Positions JournalEntry Forest SteadyState Udata BlockScan JournalFile JournalRecord HeaderIndex KernelBlocks HintScan PrefixedHints BuildThreads Bootstrap BuildRuns BuildSafety BuildFill.
Import Sorting.Sorting Positions.Positions JournalEntry.JournalEntry Forest.Forest SteadyState.SteadyState Udata.Udata BlockScan.BlockScan KernelBlocks.KernelBlocks HintScan.HintScan BuildThreads.BuildThreads Bootstrap.Bootstrap BuildRuns.BuildRuns BuildSafety.BuildSafety BuildFill.BuildFill.

Module BuildLeaves.

(** ** Accesses with a result form a monad *)

Section Laws.
Lemma wr_assoc {A B C} (m : WR A) (f : A -> WR B) (g : B -> WR C) : ((m ≫= f) ≫= g) = (m ≫= fun a => f a ≫= g).
Proof.
  unfold mbind, wr_bind. destruct m as [l [a|e]]; cbn; [|done]. destruct (f a) as [l2 [b|e]]; cbn; [|done]. by rewrite app_assoc.
Qed.

Lemma wr_ret_l {A B} (a : A) (f : A -> WR B) : ((mret a : WR A) ≫= f) = f a.
Proof. unfold mret, wr_ret, mbind, wr_bind. cbn. by destruct (f a). Qed.

Lemma wr_of_result {A B} (r : result A) (f : A -> WR B) :
  ((of_result r : WR A) ≫= f) = match r with Ok a => f a | Err e => ([], Err e) end.
Proof. destruct r; cbn; [by destruct (f a)|done]. Qed.

Lemma wr_bind_ok {A B} l (a : A) (f : A -> WR B) : (((l, Ok a) : WR A) ≫= f) = (l ++ (f a).1, (f a).2).
Proof. done. Qed.

Lemma wr_bind_ext {A B} (m : WR A) (f g : A -> WR B) : (forall a, f a = g a) -> (m ≫= f) = (m ≫= g).
Proof. intros E. unfold mbind, wr_bind. destruct m.2; [by rewrite E|done]. Qed.

Lemma wr_loop_ext {A S} (f g : S -> A -> WR S) l s : (forall s a, a ∈ l -> f s a = g s a) -> loopM f l s = loopM g l s.
Proof.
  revert s; induction l as [|a l IH]; intros s E; [done|]. cbn [loopM]. rewrite E by (by left). apply wr_bind_ext.
  intros s'. apply IH. intros. apply E. by right.
Qed.

Lemma wr_loop_app {A S} (f : S -> A -> WR S) l1 l2 s : loopM f (l1 ++ l2) s = (loopM f l1 s ≫= fun s => loopM f l2 s).
Proof.
  revert s; induction l1 as [|a l1 IH]; intros s; cbn [app loopM]; [by rewrite wr_ret_l|].
  rewrite wr_assoc. apply wr_bind_ext. intros. apply IH.
Qed.

Lemma wr_loop_fmap {A B S} (g : A -> B) (f : S -> B -> WR S) l s : loopM f (g <$> l) s = loopM (fun s a => f s (g a)) l s.
Proof. revert s; induction l as [|a l IH]; intros s; [done|]. cbn [loopM fmap list_fmap]. apply wr_bind_ext. intros. apply IH. Qed.

Lemma wr_loop_concat {A B S} (f : S -> A -> WR S) (g : B -> list A) l s :
  loopM (fun s b => loopM f (g b) s) l s = loopM f (concat (g <$> l)) s.
Proof.
  revert s; induction l as [|b l IH]; intros s; [done|]. cbn [loopM fmap list_fmap concat]. rewrite wr_loop_app.
  apply wr_bind_ext. intros. apply IH.
Qed.

Lemma wr_loop_filter {A S} (P : A -> Prop) `{!forall a, Decision (P a)} (f g : S -> A -> WR S) l s :
  (forall s a, a ∈ l -> f s a = if decide (P a) then g s a else mret s) -> loopM f l s = loopM g (filter P l) s.
Proof.
  revert s; induction l as [|a l IH]; intros s E; [done|]. cbn [loopM]. rewrite E by (by left). rewrite filter_cons.
  destruct (decide (P a)); cbn [loopM].
  - apply wr_bind_ext. intros s'. apply IH. intros. apply E. by right.
  - rewrite wr_ret_l. apply IH. intros. apply E. by right.
Qed.
End Laws.

Section Leaves.
Context `{NodeHashing} `{Sha256} `{Sha512_256} `{LeafMapBuild} `{HeightsDb} `{KernelChainstate} {HintsType : Type} `{!Hints HintsType}.
Context (specv : Z -> ForestNodeData).
Abbreviation script := (script (R:=unit) specv).

(** ** The visit of a block, over its leaves *)

Definition visit_eligible {S} (visitor : S -> LeafOutput -> WR S) (height : Z) (block : KernelBlock) (s : S * Z)
    (x : KernelTx * OutPoint * KTxOut) : WR (S * Z) :=
  value ← of_result (ok_or "transaction output value is negative" (try_uint 64 (ko_value x.2)));
  s' ← visitor s.1 (leaf_output height block x);
  count ← of_result (ok_or "block leaf count overflow" (checked_add 64 s.2 1));
  mret (s', count).

Lemma script_result {A} (r : result A) : script (of_result r : Prog unit A) = (of_result r : WR A).
Proof. by destruct r. Qed.

Lemma visit_script {S} (visitor : S -> LeafOutput -> Prog unit S) height block s :
  script (visit_kernel_leaf_outputs visitor height block s) =
    visit_kernel_leaf_outputs (M := WR) (fun s leaf => script (visitor s leaf)) height block s.
Proof.
  unfold visit_kernel_leaf_outputs. rewrite script_bind, script_result, !wr_of_result.
  destruct (kernel_same_block_spends block) as [spent|e]; [|done]. rewrite script_loop. apply wr_loop_ext. intros s1 tx _.
  rewrite script_loop. apply wr_loop_ext. intros s2 o _. unfold visit_output. rewrite script_bind, script_result, !wr_of_result.
  destruct (ok_or _ (try_uint 32 _)) as [v|e]; [|done]. destruct (_ || _); [done|].
  rewrite script_bind, script_result, !wr_of_result. destruct (ok_or _ (try_uint 64 _)) as [val|e]; [|done].
  rewrite script_bind. apply wr_bind_ext. intros s3. rewrite script_bind, script_result, !wr_of_result. by destruct (ok_or _ _).
Qed.

Lemma visit_flat {S} (visitor : S -> LeafOutput -> WR S) height block s :
  visit_kernel_leaf_outputs visitor height block s =
    if decide (indices_fit block) then loopM (visit_eligible visitor height block) (eligible block) (s, 0)
    else ([], Err "transaction output index overflow").
Proof.
  unfold visit_kernel_leaf_outputs, kernel_same_block_spends. rewrite wr_of_result, block_spends_eq.
  destruct (decide (indices_fit block)) as [Hf|Hf]; [|done]. unfold eligible. rewrite <- wr_loop_concat. apply wr_loop_ext.
  intros s1 tx Htx. unfold eligible_tx.
  rewrite <- (wr_loop_filter _ (fun s (x : KernelTx * OutPoint * KTxOut) =>
    if decide (is_unspendable (ko_script x.2) = false /\ x.1.2 ∉ spent_within block) then visit_eligible visitor height block s x else mret s)) by done.
  rewrite wr_loop_fmap. apply wr_loop_ext. intros s2 o Ho. cbn [fst snd]. unfold visit_output. rewrite wr_of_result.
  rewrite (output_index_fits block tx o) by done. cbn [ok_or]. destruct (is_unspendable (ko_script o.2)); cbn [orb].
  - rewrite decide_False; [done|]. by intros [? _].
  - case_bool_decide as Hs; [rewrite decide_False by tauto; done|]. rewrite decide_True by tauto. unfold visit_eligible. cbn [fst snd].
    rewrite !wr_of_result. destruct (try_uint 64 (ko_value o.2)) as [v|] eqn:Ev; [|done]. cbn [ok_or].
    apply try_uint_Some in Ev as [-> _]. done.
Qed.

(** ** One leaf *)

(** A hint says that the leaf with this index is unspent; what BIP30 lost is never hinted and
    never spent. *)
Definition hinted (unspent : list Z) (i : Z) (leaf : LeafOutput) : bool := negb (force_unindexed leaf) && bool_decide (i ∈ unspent).
Definition leaf_node (height : Z) (unspent : list Z) (i : Z) (leaf : LeafOutput) : ForestNodeData :=
  {| nd_hash := leaf_hash height leaf; nd_spent := negb (force_unindexed leaf) && bool_decide (i ∉ unspent) |}.
Definition leaf_entry (position : Z) (leaf : LeafOutput) : bytes * bytes :=
  (leaf_map_key {| txid := lo_txid leaf; vout := lo_vout leaf |}, le_bytes 8 position).

(** [j] hints are below [i]. *)
Definition aligned (unspent : list Z) (i j : Z) : Prop :=
  0 <= j <= zlength unspent /\ forall k x, zlookup unspent k = Some x -> k < j <-> x < i.

Lemma sorted_lookup l a b x y : StronglySorted Z.lt l -> zlookup l a = Some x -> zlookup l b = Some y -> a < b -> x < y.
Proof.
  intros Hs [Ha Hx]%zlookup_Some [Hb Hy]%zlookup_Some Hab. assert (Z.to_nat a < Z.to_nat b)%nat as Hlt by lia.
  revert Hx Hy Hlt. generalize (Z.to_nat a) (Z.to_nat b). clear -Hs. induction Hs as [|z l Hs IH Hz]; intros m n Hx Hy Hlt; [done|].
  destruct n as [|n]; [lia|]. destruct m as [|m]; cbn in Hx, Hy; [|apply (IH m n); [done|done|lia]].
  injection Hx as <-. rewrite Forall_forall in Hz. apply Hz. by eapply list_elem_of_lookup_2.
Qed.

Lemma aligned_start unspent : Forall is_u32 unspent -> aligned unspent 0 0.
Proof.
  intros Hu. split; [unfold zlength; lia|]. intros k x [Hk Hx]%zlookup_Some. rewrite Forall_forall in Hu.
  pose proof (Hu x (list_elem_of_lookup_2 _ _ _ Hx)) as [? _]. lia.
Qed.

Lemma aligned_hint unspent i j : StronglySorted Z.lt unspent -> aligned unspent i j ->
  i ∈ unspent <-> zlookup unspent j = Some i.
Proof.
  intros Hs [Hj Ha]. split; [|intros [_ Hl]%zlookup_Some; by eapply list_elem_of_lookup_2]. intros (n & Hn)%list_elem_of_lookup.
  assert (zlookup unspent (Z.of_nat n) = Some i) as Hk by (apply zlookup_Some; split; [lia|by rewrite Nat2Z.id]).
  pose proof (Ha _ _ Hk) as Hki. pose proof (zlookup_lt _ _ _ Hk). destruct (decide (Z.of_nat n = j)) as [<-|Hne]; [done|].
  destruct (zlookup_is_Some unspent j) as [y Hy]; [lia|]. pose proof (sorted_lookup _ _ _ _ _ Hs Hy Hk). pose proof (Ha _ _ Hy). lia.
Qed.

Lemma aligned_next unspent i j : StronglySorted Z.lt unspent -> aligned unspent i j ->
  aligned unspent (i + 1) (j + Z.b2z (bool_decide (i ∈ unspent))).
Proof.
  intros Hs Hal. pose proof (aligned_hint unspent i j Hs Hal) as Hin. destruct Hal as [Hj Ha]. case_bool_decide as Hi; cbn [Z.b2z].
  - apply Hin in Hi. pose proof (zlookup_lt _ _ _ Hi). split; [lia|]. intros k x Hk. pose proof (Ha k x Hk).
    destruct (decide (k = j)) as [->|Hne]; [assert (x = i) by congruence; lia|].
    pose proof (sorted_lookup _ _ _ _ _ Hs Hi Hk). lia.
  - split; [lia|]. intros k x Hk. pose proof (Ha k x Hk). assert (x <> i); [|lia]. intros ->. apply Hi.
    apply zlookup_Some in Hk as [_ Hk]. by eapply list_elem_of_lookup_2.
Qed.

Lemma aligned_all unspent i j : aligned unspent i j -> j = zlength unspent <-> Forall (fun x => x < i) unspent.
Proof.
  intros [Hj Ha]. rewrite Forall_forall. split.
  - intros -> x (n & Hn)%list_elem_of_lookup. apply (Ha (Z.of_nat n)); [apply zlookup_Some; split; [lia|by rewrite Nat2Z.id]|].
    apply lookup_lt_Some in Hn. unfold zlength. lia.
  - intros Hall. destruct (decide (j = zlength unspent)) as [|Hne]; [done|]. destruct (zlookup_is_Some unspent j) as [y Hy]; [lia|].
    pose proof (Ha _ _ Hy). apply zlookup_Some in Hy as [_ Hy]. pose proof (Hall y (list_elem_of_lookup_2 _ _ _ Hy)). lia.
Qed.

Section Leaf.
Context (publish_nodes height : Z) (unspent : list Z) (offset : Z).
Hypothesis unspent_sorted : StronglySorted Z.lt unspent.

Definition leaf_allowed (i : Z) (leaf : LeafOutput) : Prop := i < 2 ^ 32 /\ (force_unindexed leaf = true -> i ∉ unspent).
Definition next_unpublished (u : Z) : Z := if publish_nodes <=? u + 1 then 0 else u + 1.
Definition leaf_step_instrs (i u : Z) (leaf : LeafOutput) : list Instr :=
  IWrite (offset + i) (leaf_node height unspent i leaf) :: if publish_nodes <=? u + 1 then [IPublish] else [].
Definition leaf_step (i : Z) (s : VisitState) (leaf : LeafOutput) : VisitState := {|
  entries := entries s ++ (if hinted unspent i leaf then [leaf_entry (offset + i) leaf] else []);
  local_position := i + 1; hint_leaf_position := i + 1;
  hint_position := hint_position s + Z.b2z (bool_decide (i ∈ unspent)); unpublished := next_unpublished (unpublished s) |}.

(** Where the visit is before leaf [i]. *)
Definition at_leaf (i : Z) (s : VisitState) : Prop :=
  0 <= i /\ local_position s = i /\ hint_leaf_position s = i /\ aligned unspent i (hint_position s).

Lemma at_leaf_next i s leaf : at_leaf i s -> at_leaf (i + 1) (leaf_step i s leaf).
Proof. intros (? & _ & _ & Ha). refine (conj _ (conj eq_refl (conj eq_refl _))); [lia|]. by apply aligned_next. Qed.

Lemma script_visit_leaf i s leaf : at_leaf i s ->
  (leaf_allowed i leaf -> script (visit_leaf publish_nodes height unspent offset s leaf) =
     (leaf_step_instrs i (unpublished s) leaf, Ok (leaf_step i s leaf))) /\
  (~ leaf_allowed i leaf -> is_ok (script (visit_leaf publish_nodes height unspent offset s leaf)).2 = false).
Proof.
  intros (Hi & Hloc & Hhint & Hal). pose proof (aligned_hint unspent i _ unspent_sorted Hal) as Hin. unfold leaf_allowed.
  unfold visit_leaf. rewrite script_bind, script_result, wr_of_result, Hhint, Hloc. unfold try_uint.
  destruct (decide (is_u32 i)) as [H32|H32]; cbn [ok_or].
  2: { unfold is_uint in H32. split; [|done]. intros [? _]. lia. }
  destruct H32 as [_ H32]. rewrite script_bind, script_result, wr_of_result.
  destruct (match zlookup unspent _ with Some hint => hint <? i | None => false end) eqn:Ebad; cbn [negb require].
  { exfalso. destruct (zlookup unspent (hint_position s)) as [x|] eqn:Ex; [|done]. apply Z.ltb_lt in Ebad. destruct Hal as [_ Ha].
    pose proof (Ha _ _ Ex). lia. }
  rewrite script_bind. assert (bool_decide (zlookup unspent (hint_position s) = Some i) = bool_decide (i ∈ unspent)) as ->.
  { apply bool_decide_ext. by rewrite Hin. }
  unfold leaf_step, leaf_step_instrs, leaf_node, hinted, leaf_entry, next_unpublished. rewrite (bool_decide_not (i ∈ unspent)).
  destruct (force_unindexed leaf) eqn:Ef; cbn [negb andb].
  - rewrite script_bind, script_result, wr_assoc, wr_of_result. case_bool_decide as Hu; cbn [negb require Z.b2z].
    + split; [|done]. intros [_ Hno]. by destruct Hno.
    + split; [|intros Hno; by destruct Hno]. intros _. rewrite Z.add_0_r, app_nil_r. cbn. by destruct (publish_nodes <=? unpublished s + 1).
  - split; [|intros Hno; by destruct Hno]. intros _.
    case_bool_decide as Hu; cbn [negb Z.b2z]; rewrite ?app_nil_r, ?Z.add_0_r; cbn; by destruct (publish_nodes <=? unpublished s + 1).
Qed.
(** ** All the leaves of a block *)

Context (block : KernelBlock).

Fixpoint leaves_fit (xs : list (KernelTx * OutPoint * KTxOut)) (i : Z) : Prop :=
  match xs with
  | [] => True
  | x :: xs => (is_u64 (ko_value x.2) /\ leaf_allowed i (leaf_output height block x)) /\ leaves_fit xs (i + 1)
  end.
#[export] Instance leaves_fit_dec xs i : Decision (leaves_fit xs i).
Proof. revert i; induction xs as [|x xs IH]; intros i; cbn [leaves_fit]; unfold leaf_allowed; apply _. Defined.

Fixpoint leaves_instrs (xs : list (KernelTx * OutPoint * KTxOut)) (i u : Z) : list Instr :=
  match xs with
  | [] => []
  | x :: xs => leaf_step_instrs i u (leaf_output height block x) ++ leaves_instrs xs (i + 1) (next_unpublished u)
  end.
Fixpoint leaves_entries (xs : list (KernelTx * OutPoint * KTxOut)) (i : Z) : list (bytes * bytes) :=
  match xs with
  | [] => []
  | x :: xs =>
      (if hinted unspent i (leaf_output height block x) then [leaf_entry (offset + i) (leaf_output height block x)] else [])
      ++ leaves_entries xs (i + 1)
  end.

Abbreviation visit_all xs s :=
  (loopM (visit_eligible (fun st leaf => script (visit_leaf publish_nodes height unspent offset st leaf)) height block) xs s).

Lemma is_ok_bind {A B} (m : WR A) (f : A -> WR B) : is_ok m.2 = false -> is_ok (m ≫= f).2 = false.
Proof. unfold mbind, wr_bind. destruct m as [l [a|e]]; done. Qed.

Lemma visit_eligible_at x s i : 0 <= i < 2 ^ 64 - 1 ->
  visit_eligible (fun st leaf => script (visit_leaf publish_nodes height unspent offset st leaf)) height block (s, i) x =
    if decide (is_u64 (ko_value x.2)) then
      script (visit_leaf publish_nodes height unspent offset s (leaf_output height block x)) ≫= fun s' => mret (s', i + 1)
    else ([], Err "transaction output value is negative").
Proof.
  intros Hi. unfold visit_eligible. rewrite wr_of_result. unfold try_uint. destruct (decide (is_u64 (ko_value x.2))); [|done].
  cbn [ok_or fst snd]. apply wr_bind_ext. intros s'. rewrite wr_of_result, (proj2 (checked_add_Some 64 i 1 (i + 1))); [done|].
  split; [done|]. unfold is_uint. lia.
Qed.

Lemma visit_all_cons x xs s i : 0 <= i < 2 ^ 64 - 1 -> is_u64 (ko_value x.2) ->
  visit_all (x :: xs) (s, i) =
    (script (visit_leaf publish_nodes height unspent offset s (leaf_output height block x)) ≫= fun s' => visit_all xs (s', i + 1)).
Proof.
  intros Hi Hv. cbn [loopM]. rewrite visit_eligible_at, decide_True by done. rewrite wr_assoc. apply wr_bind_ext. intros s'. apply wr_ret_l.
Qed.

Lemma visit_eligible_bad x s i : at_leaf i s -> ~ (is_u64 (ko_value x.2) /\ leaf_allowed i (leaf_output height block x)) ->
  is_ok (visit_eligible (fun st leaf => script (visit_leaf publish_nodes height unspent offset st leaf)) height block (s, i) x).2 = false.
Proof.
  intros Hs Hno. unfold visit_eligible. rewrite wr_of_result. unfold try_uint. destruct (decide (is_u64 (ko_value x.2))); [|done].
  cbn [ok_or fst snd]. apply is_ok_bind. apply (proj2 (script_visit_leaf i s _ Hs)). tauto.
Qed.

Lemma script_leaves xs i s : at_leaf i s ->
  (leaves_fit xs i -> exists s', visit_all xs (s, i) = (leaves_instrs xs i (unpublished s), Ok (s', i + zlength xs)) /\
     at_leaf (i + zlength xs) s' /\ entries s' = entries s ++ leaves_entries xs i) /\
  (~ leaves_fit xs i -> is_ok (visit_all xs (s, i)).2 = false).
Proof.
  revert i s; induction xs as [|x xs IH]; intros i s Hs.
  { split; [|by intros []]. intros _. exists s. rewrite zlength_nil, Z.add_0_r, app_nil_r. done. }
  destruct (script_visit_leaf i s (leaf_output height block x) Hs) as [Hok _].
  destruct (IH (i + 1) _ (at_leaf_next i s (leaf_output height block x) Hs)) as [IHok IHbad].
  pose proof (proj1 Hs) as Hi. rewrite zlength_cons. split; cbn [leaves_fit].
  - intros [[Hv Ha] Hf]. rewrite visit_all_cons, Hok by (try done; destruct Ha; lia). destruct (IHok Hf) as (s' & E & Hat & Hent).
    exists s'. rewrite wr_bind_ok, E, Z.add_assoc. refine (conj eq_refl (conj Hat _)). rewrite Hent. cbn [entries leaf_step leaves_entries].
    by rewrite <- app_assoc.
  - intros Hno. destruct (leaves_fit_dec [x] i) as [[[Hv Ha] _]|Hx].
    + rewrite visit_all_cons by (try done; destruct Ha; lia). rewrite (Hok Ha), wr_bind_ok. apply IHbad. tauto.
    + cbn [loopM]. apply is_ok_bind. apply visit_eligible_bad; [done|]. cbn in Hx. tauto.
Qed.

(** What a visit leaves to do, list by list. *)
Fixpoint leaves_nodes (xs : list (KernelTx * OutPoint * KTxOut)) (i : Z) : list ForestNodeData :=
  match xs with
  | [] => []
  | x :: xs => leaf_node height unspent i (leaf_output height block x) :: leaves_nodes xs (i + 1)
  end.

Definition writing (x : Instr) : Prop := match x with IWrite _ _ | IPublish => True | _ => False end.

Lemma leaves_writing xs i u : Forall writing (leaves_instrs xs i u).
Proof.
  revert i u; induction xs as [|x xs IH]; intros i u; [done|]. cbn [leaves_instrs]. apply Forall_app. split; [|apply IH].
  unfold leaf_step_instrs. destruct (_ <=? _); by repeat constructor.
Qed.

Lemma leaves_writes xs i u : writes (leaves_instrs xs i u) = zrange (offset + i) (offset + i + zlength xs).
Proof.
  revert i u; induction xs as [|x xs IH]; intros i u; [by rewrite zlength_nil, zrange_nil by lia|]. cbn [leaves_instrs].
  rewrite writes_app, IH, zlength_cons. pose proof (zlength_nonneg xs). rewrite (zrange_cons (offset + i) (offset + i + (1 + zlength xs))) by lia.
  unfold leaf_step_instrs. replace (offset + (i + 1)) with (offset + i + 1) by lia. replace (offset + i + (1 + zlength xs)) with (offset + i + 1 + zlength xs) by lia.
  by destruct (_ <=? _).
Qed.

Lemma leaves_publishes xs i u : Z.of_nat (publishes (leaves_instrs xs i u)) <= zlength xs.
Proof.
  revert i u; induction xs as [|x xs IH]; intros i u; [done|]. cbn [leaves_instrs]. rewrite publishes_app, zlength_cons.
  specialize (IH (i + 1) (next_unpublished u)). unfold leaf_step_instrs. destruct (_ <=? _); unfold publishes in *; cbn in *; lia.
Qed.

Lemma leaves_values xs i u p v : IWrite p v ∈ leaves_instrs xs i u -> exists k, p = offset + i + k /\ zlookup (leaves_nodes xs i) k = Some v.
Proof.
  revert i u; induction xs as [|x xs IH]; intros i u; cbn [leaves_instrs leaves_nodes]; [by intros ?%elem_of_nil|].
  intros [Hin|Hin]%elem_of_app.
  - unfold leaf_step_instrs in Hin. apply elem_of_cons in Hin as [[= -> ->]|Hin]; [exists 0; split; [lia|done]|].
    destruct (_ <=? _); [by apply list_elem_of_singleton in Hin|by apply elem_of_nil in Hin].
  - destruct (IH _ _ Hin) as (k & -> & Hk). exists (k + 1). split; [lia|]. apply zlookup_Some in Hk as [Hk0 Hk]. apply zlookup_Some.
    split; [lia|]. by replace (Z.to_nat (k + 1)) with (S (Z.to_nat k)) by lia.
Qed.

Lemma entries_bound xs i : zlength (leaves_entries xs i) <= zlength xs.
Proof.
  revert i; induction xs as [|x xs IH]; intros i; [done|]. cbn [leaves_entries]. rewrite zlength_app, zlength_cons. specialize (IH (i + 1)).
  destruct (hinted _ _ _); unfold zlength in *; cbn [length]; lia.
Qed.

Lemma length_leaves_nodes xs i : length (leaves_nodes xs i) = length xs.
Proof. revert i; induction xs as [|x xs IH]; intros i; cbn; [done|by rewrite IH]. Qed.
End Leaf.

(** ** One height *)

Section Heights.
Context (source : KernelChain) (hints : HintsType) (leaf_counts leaf_offsets : list Z) (publish_nodes : Z).

Record HeightData := { hd_count : Z; hd_offset : Z; hd_unspent : list Z; hd_block : KernelBlock; hd_header : bytes }.

(** What is known of a height, and when its hints fit its block. *)
Definition height_data (height : Z) : option HeightData :=
  count ← zlookup leaf_counts (height - 1);
  offset ← zlookup leaf_offsets (height - 1);
  unspent ← hints_indices hints height;
  block ← ok (source_block source height);
  header ← ok (kb_header block);
  Some {| hd_count := count; hd_offset := offset; hd_unspent := unspent; hd_block := block; hd_header := header |}.

Definition height_fits (height : Z) (d : HeightData) : Prop :=
  increasing (hd_unspent d) = true /\ indices_fit (hd_block d) /\
  leaves_fit height (hd_unspent d) (hd_block d) (eligible (hd_block d)) 0 /\
  zlength (eligible (hd_block d)) = hd_count d /\ Forall (fun i => i < hd_count d) (hd_unspent d).
Definition height_ok (height : Z) : Prop := exists d, height_data height = Some d /\ height_fits height d.

Definition height_entries (height : Z) (d : HeightData) : list (bytes * bytes) :=
  leaves_entries height (hd_unspent d) (hd_offset d) (hd_block d) (eligible (hd_block d)) 0.
Definition height_instrs (height : Z) (d : HeightData) : list Instr :=
  leaves_instrs publish_nodes height (hd_unspent d) (hd_offset d) (hd_block d) (eligible (hd_block d)) 0 0 ++
  (if bool_decide (height_entries height d = []) then [] else [IPut (height_entries height d); ICount (zlength (height_entries height d))]) ++
  [IPublish].
Definition height_header (height : Z) (d : HeightData) : Z * bytes * bytes := (height, hd_header d, kb_hash (hd_block d)).

Hypothesis hints_u32 : forall h l, is_Some (zlookup leaf_counts (h - 1)) -> hints_indices hints h = Some l -> Forall is_u32 l.

Abbreviation fill := (fill_height source hints leaf_counts leaf_offsets publish_nodes).

Lemma height_data_Some h d : height_data h = Some d ->
  zlookup leaf_counts (h - 1) = Some (hd_count d) /\ zlookup leaf_offsets (h - 1) = Some (hd_offset d) /\
  hints_indices hints h = Some (hd_unspent d) /\ source_block source h = Ok (hd_block d) /\ kb_header (hd_block d) = Ok (hd_header d).
Proof.
  unfold height_data. intros E. destruct (zlookup leaf_counts _) as [count|]; [|done]. destruct (zlookup leaf_offsets _) as [offset|]; [|done].
  cbn [mbind option_bind] in E. destruct (hints_indices hints h) as [l|]; [|done]. cbn [mbind option_bind] in E.
  destruct (source_block source h) as [block|] eqn:Eb; [|done]. cbn [ok mbind option_bind] in E.
  destruct (kb_header block) as [header|] eqn:Eh; [|done]. injection E as <-. done.
Qed.

Lemma fill_script hs h d : height_data h = Some d ->
  script (fill hs h) = if increasing (hd_unspent d) then
    (if decide (indices_fit (hd_block d)) then
       loopM (visit_eligible (fun s leaf => script (visit_leaf publish_nodes h (hd_unspent d) (hd_offset d) s leaf)) h (hd_block d))
         (eligible (hd_block d)) (visit_start, 0)
     else ([], Err "transaction output index overflow"))
    ≫= (fun x =>
      _ ← of_result (require ((x.2 =? hd_count d) && (local_position x.1 =? hd_count d)) "leaf count changed");
      _ ← of_result (require (hint_position x.1 =? zlength (hd_unspent d)) "hint index is outside the block's leaves");
      ((if bool_decide (entries x.1 = []) then [] else [IPut (entries x.1); ICount (zlength (entries x.1))]) ++ [IPublish],
       Ok (hs ++ [height_header h d])))
  else ([], Err "hints are not strictly increasing").
Proof.
  intros (E1 & E2 & E3 & E4 & E5)%height_data_Some. unfold fill_height.
  rewrite script_bind, script_result, wr_of_result, E1. cbn [ok_or]. rewrite script_bind, script_result, wr_of_result, E2. cbn [ok_or].
  rewrite script_bind, script_result, wr_of_result, E3. cbn [ok_or]. rewrite script_bind, script_result, wr_of_result.
  destruct (increasing (hd_unspent d)); [|done]. cbn [require]. rewrite script_bind, script_result, wr_of_result, E4.
  rewrite script_bind, script_result, wr_of_result, E5. rewrite script_bind, visit_script, visit_flat. apply wr_bind_ext. intros [s n]. cbn [fst snd].
  rewrite script_bind, script_result. apply wr_bind_ext. intros _. rewrite script_bind, script_result. apply wr_bind_ext. intros _.
  by case_bool_decide.
Qed.
Lemma visit_ends h d : height_data h = Some d -> increasing (hd_unspent d) = true ->
  at_leaf (hd_unspent d) 0 visit_start.
Proof.
  intros (Ec & _ & E & _)%height_data_Some _. refine (conj _ (conj eq_refl (conj eq_refl _))); [done|]. apply aligned_start. by apply (hints_u32 h).
Qed.

(** A height whose hints fit its block is filled; a height that is filled has such hints. *)
Lemma fill_ok hs h d : height_data h = Some d -> height_fits h d ->
  script (fill hs h) = (height_instrs h d, Ok (hs ++ [height_header h d])).
Proof.
  intros Ed (Hinc & Hidx & Hfit & Hcount & Hall). rewrite (fill_script hs h d Ed), Hinc, decide_True by done.
  pose proof (proj1 (increasing_spec _) Hinc) as Hsort. pose proof (visit_ends h d Ed Hinc) as Hstart.
  destruct (proj1 (script_leaves publish_nodes h (hd_unspent d) (hd_offset d) Hsort (hd_block d) _ _ _ Hstart) Hfit) as (s' & E & (_ & Hloc & _ & Hal) & Hent).
  rewrite E, wr_bind_ok. cbn [fst snd]. rewrite Z.add_0_l in *. rewrite wr_of_result, Hloc, Hcount, Z.eqb_refl. cbn [andb require].
  rewrite Hcount in Hal. pose proof (proj2 (aligned_all _ _ _ Hal) Hall) as Hj. rewrite wr_of_result, Hj, Z.eqb_refl. cbn [require fst snd].
  unfold height_instrs. rewrite Hent. done.
Qed.

Lemma visit_writes_only h unspent offset block s : writes_only (visit_kernel_leaf_outputs (visit_leaf (R:=unit) publish_nodes h unspent offset) h block s).
Proof.
  unfold visit_kernel_leaf_outputs. apply writes_only_bind; [apply writes_only_of_result|]. intros spent. apply writes_only_loop. intros s1 tx.
  apply writes_only_loop. intros s2 o. unfold visit_output. apply writes_only_bind; [apply writes_only_of_result|]. intros vout.
  destruct (_ || _); [done|]. apply writes_only_bind; [apply writes_only_of_result|]. intros value. apply writes_only_bind.
  2: { intros s'. apply writes_only_bind; [apply writes_only_of_result|]. by intros c. }
  unfold visit_leaf. apply writes_only_bind; [apply writes_only_of_result|]. intros hint. apply writes_only_bind; [apply writes_only_of_result|]. intros _.
  apply writes_only_bind.
  { destruct (force_unindexed _); [apply writes_only_bind; [apply writes_only_of_result|done]|]. by destruct (bool_decide _). }
  intros [spent' pos']. apply writes_only_bind.
  { split; [done|]. intros e. by exists e. }
  intros _. by destruct (_ <=? _).
Qed.

Lemma fill_returns hs h : returns (R:=unit) (fill hs h) (fun hs' => hs' = hs ++ default [] ((fun d => [height_header h d]) <$> height_data h) /\ height_ok h).
Proof.
  unfold fill_height.
  eapply returns_bind; [apply returns_of_result|]. intros count E1%ok_or_ok. eapply returns_bind; [apply returns_of_result|]. intros offset E2%ok_or_ok.
  eapply returns_bind; [apply returns_of_result|]. intros unspent E3%ok_or_ok. eapply returns_bind; [apply returns_of_result|]. intros ? Hinc%require_ok.
  eapply returns_bind; [apply returns_of_result|]. intros block E4. eapply returns_bind; [apply returns_of_result|]. intros header E5.
  eapply returns_bind; [apply (writes_only_returns specv), visit_writes_only|]. intros [s n] (l & E).
  eapply returns_bind; [apply returns_of_result|]. intros ? [Hn%Z.eqb_eq Hloc%Z.eqb_eq]%require_ok%andb_true_iff.
  eapply returns_bind; [apply returns_of_result|]. intros ? Hj%require_ok%Z.eqb_eq.
  set (d := {| hd_count := count; hd_offset := offset; hd_unspent := unspent; hd_block := block; hd_header := header |}).
  assert (height_data h = Some d) as Ed by (unfold height_data; rewrite E1, E2; cbn; rewrite E3; cbn; rewrite E4; cbn; by rewrite E5).
  rewrite Ed. cbn [fmap option_fmap option_map from_option id].
  assert (height_ok h) as Hok.
  { exists d. split; [done|]. pose proof (visit_ends h d Ed Hinc) as Hstart. rewrite visit_script, visit_flat in E.
    destruct (decide (indices_fit block)) as [Hidx|]; [|done].
    destruct (script_leaves publish_nodes h unspent offset (proj1 (increasing_spec _) Hinc) block (eligible block) 0 visit_start Hstart) as [Hgood Hbad].
    destruct (decide (leaves_fit h unspent block (eligible block) 0)) as [Hfit|Hfit]; [|specialize (Hbad Hfit); by rewrite E in Hbad].
    destruct (Hgood Hfit) as (s' & E' & (_ & Hloc' & _ & Hal) & _). rewrite E in E'. injection E' as -> <- ->. rewrite Z.add_0_l in *.
    refine (conj Hinc (conj Hidx (conj Hfit (conj Hn _)))). cbn. rewrite <- Hn. by apply (aligned_all _ _ _ Hal). }
  eapply returns_bind; [apply returns_any|]. intros _ _. by split.
Qed.
(** ** One range of heights, and the worker *)

Definition height_work (h : Z) : list Instr := default [] (height_instrs h <$> height_data h).
Definition header_of (h : Z) : list (Z * bytes * bytes) := default [] ((fun d => [height_header h d]) <$> height_data h).
Definition chunk_work (stop c : Z) : list Instr :=
  let r := range_of stop c in
  IOpen :: concat (height_work <$> zrange r.1 r.2) ++ [IHeaders (concat (header_of <$> zrange r.1 r.2))].

Lemma loop_fill_ok hts hs : Forall height_ok hts ->
  script (loopM fill hts hs) = (concat (height_work <$> hts), Ok (hs ++ concat (header_of <$> hts))).
Proof.
  intros Hok. revert hs. induction Hok as [|h hts (d & Ed & Hd) _ IH]; intros hs; [by rewrite app_nil_r|].
  cbn [loopM fmap list_fmap concat]. rewrite script_bind, (fill_ok hs h d Ed Hd), wr_bind_ok, IH. cbn [fst snd].
  unfold height_work at 2, header_of at 2. rewrite Ed. cbn [fmap option_fmap option_map from_option id]. by rewrite <- app_assoc.
Qed.

Abbreviation fill_range := (fill_leaf_range (R:=unit) source hints leaf_counts leaf_offsets publish_nodes).

Lemma range_script r : Forall height_ok (zrange r.1 r.2) ->
  script (fill_range r) = (concat (height_work <$> zrange r.1 r.2) ++ [IHeaders (concat (header_of <$> zrange r.1 r.2))], Ok tt).
Proof. intros Hok. unfold fill_leaf_range. by rewrite script_bind, (loop_fill_ok _ [] Hok), wr_bind_ok. Qed.

Lemma loop_fill_returns hts hs : returns (R:=unit) (loopM fill hts hs) (fun _ => Forall height_ok hts).
Proof.
  revert hs. induction hts as [|h hts IH]; intros hs; [apply Forall_nil; exact I|]. cbn [loopM]. eapply returns_bind; [apply fill_returns|].
  intros hs' [_ Hh]. eapply returns_mono; [|apply IH]. intros ? ?. by constructor.
Qed.

Lemma fill_strict hs h : strict (R:=unit) (fill hs h).
Proof.
  unfold fill_height. do 6 (apply strict_bind; [apply strict_of_result|intros ?]). apply strict_bind; [apply writes_only_strict, visit_writes_only|].
  intros [s n]. do 2 (apply strict_bind; [apply strict_of_result|intros ?]). apply strict_bind; [|done].
  case_bool_decide; [done|]. apply strict_bind; [|done]. split; [done|]. intros e. by exists e.
Qed.

Lemma range_strict r : strict (fill_range r).
Proof. apply strict_bind; [apply strict_loop, fill_strict|]. intros hs. split; [done|]. intros e. by exists e. Qed.

Context (env : BuildEnv).
Abbreviation stop := (be_stop_height env).
Definition chunk_ok (c : Z) : Prop := Forall height_ok (zrange (range_of stop c).1 (range_of stop c).2).
Abbreviation worker_loop := (leaf_worker_loop (R:=unit) source hints leaf_counts leaf_offsets publish_nodes).

(** A worker does the work of the chunks it acquires, if their hints are right, ... *)
Lemma worker_follows n : (forall c, 0 <= c < height_chunk_count stop -> chunk_ok c) ->
  follows env specv (chunk_work stop) gives_up (fun _ => True) (worker_loop (S n)) [IAcquire n].
Proof.
  intros Hok. induction n as [|n IH]; [by split|]. split; [done|]. intros c Hc.
  change (chunk_work stop c ++ [IAcquire n]) with ([IOpen] ++ tail (chunk_work stop c) ++ [IAcquire n]).
  eapply follows_bind; [split; [done|]; intros e; by exists e|done|]. cbn beta.
  eapply follows_bind; [apply range_strict|apply range_script, Hok, Hc|]. exact IH.
Qed.

(** ... and says so when it ends. *)
Lemma range_returns r : returns (fill_range r) (fun _ => Forall height_ok (zrange r.1 r.2)).
Proof.
  unfold fill_leaf_range. eapply returns_bind; [apply loop_fill_returns|]. intros hs Hok. eapply returns_mono; [|apply returns_any]. done.
Qed.
(** ** What is on the list of a chunk *)

Definition height_nodes (h : Z) : list ForestNodeData :=
  default [] ((fun d => leaves_nodes h (hd_unspent d) (hd_block d) (eligible (hd_block d)) 0) <$> height_data h).

Lemma height_work_leafy h : Forall leafy (height_work h) /\ Forall no_acquire (height_work h).
Proof.
  unfold height_work, height_instrs. destruct (height_data h) as [d|]; cbn [fmap option_fmap option_map from_option id]; [|by split].
  split; (apply Forall_app; split; [eapply Forall_impl; [apply leaves_writing|]; by intros []|]); case_bool_decide; by repeat constructor.
Qed.

Lemma clean_writing row_of d l l' : Forall writing l -> (forall d, clean row_of d l') -> clean row_of d (l ++ l').
Proof. intros Hl Hc. revert d. induction Hl as [|x l Hx Hl IH]; intros d; [apply Hc|]. destruct x; try done; apply IH. Qed.

Lemma clean_height row_of h l : clean row_of [] l -> clean row_of [] (height_work h ++ l).
Proof.
  intros Hc. unfold height_work, height_instrs. destruct (height_data h) as [d|]; [|done]. cbn [fmap option_fmap option_map from_option id].
  rewrite <- app_assoc. apply clean_writing; [apply leaves_writing|]. intros d'. by case_bool_decide.
Qed.

Lemma clean_chunk row_of c more : clean row_of [] (chunk_work stop c ++ [IAcquire more]).
Proof.
  unfold chunk_work. cbn [app clean]. rewrite <- app_assoc. induction (zrange _ _) as [|h hts IH] in |- * at 1; [by repeat split|].
  cbn [fmap list_fmap concat]. rewrite <- app_assoc. by apply clean_height.
Qed.

Lemma chunk_leafy c : Forall leafy (chunk_work stop c) /\ Forall no_acquire (chunk_work stop c).
Proof.
  unfold chunk_work. split; (constructor; [exact I|]); (apply Forall_app; split; [|by repeat constructor]);
    apply Forall_concat, Forall_fmap, Forall_forall; intros h _; apply height_work_leafy.
Qed.

Lemma writes_height h d : height_data h = Some d -> height_fits h d -> writes (height_work h) = zrange (hd_offset d) (hd_offset d + hd_count d).
Proof.
  intros Ed (_ & _ & _ & Hc & _). unfold height_work, height_instrs. rewrite Ed. cbn [fmap option_fmap option_map from_option id].
  rewrite writes_app, leaves_writes, Hc, Z.add_0_r. case_bool_decide; by rewrite app_nil_r.
Qed.

Lemma height_values h d p v : height_data h = Some d -> IWrite p v ∈ height_work h ->
  exists k, p = hd_offset d + k /\ zlookup (height_nodes h) k = Some v.
Proof.
  unfold height_work, height_nodes, height_instrs. intros ->. cbn [fmap option_fmap option_map from_option id].
  intros [Hin|Hin]%elem_of_app; [apply leaves_values in Hin as (k & -> & Hk); exists k; split; [lia|done]|].
  case_bool_decide; [by apply list_elem_of_singleton in Hin|]. exfalso. by repeat (apply elem_of_cons in Hin as [Hin|Hin]; [discriminate Hin|]); apply elem_of_nil in Hin.
Qed.

Lemma height_nodes_length h d : height_data h = Some d -> height_fits h d -> zlength (height_nodes h) = hd_count d.
Proof. unfold height_nodes. intros -> (_ & _ & _ & Hc & _). cbn. unfold zlength in *. by rewrite length_leaves_nodes. Qed.

Lemma height_cases h x : x ∈ height_work h -> writing x \/ (exists kvs, x = IPut kvs) \/ exists n, 0 <= n /\ x = ICount n.
Proof.
  unfold height_work, height_instrs. destruct (height_data h) as [d|]; cbn [fmap option_fmap option_map from_option id]; [|by intros ?%elem_of_nil].
  intros [Hx|[Hx|Hx]%elem_of_app]%elem_of_app.
  - left. pose proof (leaves_writing publish_nodes h (hd_unspent d) (hd_offset d) (hd_block d) (eligible (hd_block d)) 0 0) as Hw.
    rewrite Forall_forall in Hw. by apply Hw.
  - case_bool_decide; [by apply elem_of_nil in Hx|]. right. apply elem_of_cons in Hx as [->|Hx]; [left; by eexists|].
    apply list_elem_of_singleton in Hx as ->. right. eexists. split; [apply (zlength_nonneg (height_entries h d))|done].
  - left. by apply list_elem_of_singleton in Hx as ->.
Qed.

Lemma writing_rest l : Forall writing l -> puts l = [] /\ counted l = [] /\ headers_in l = [].
Proof. unfold puts, counted, headers_in. induction 1 as [|x l Hx Hl (IH1 & IH2 & IH3)]; [done|]. destruct x; try done; split_and!; done. Qed.

Definition entries_at (h : Z) : list (bytes * bytes) := default [] (height_entries h <$> height_data h).

Lemma entries_at_bound h d : height_data h = Some d -> height_fits h d -> zlength (entries_at h) <= hd_count d.
Proof. intros Ed (_ & _ & _ & <- & _). unfold entries_at. rewrite Ed. apply entries_bound. Qed.

Lemma height_rest h : puts (height_work h) = entries_at h /\ total (counted (height_work h)) = zlength (entries_at h) /\ headers_in (height_work h) = [].
Proof.
  unfold height_work, height_instrs, entries_at. destruct (height_data h) as [d|]; cbn [fmap option_fmap option_map from_option id]; [|done].
  destruct (writing_rest _ (leaves_writing publish_nodes h (hd_unspent d) (hd_offset d) (hd_block d) (eligible (hd_block d)) 0 0)) as (E1 & E2 & E3).
  unfold puts, counted, headers_in in *. rewrite !bind_app, E1, E2, E3. cbn [app]. case_bool_decide as He; cbn; rewrite ?He, ?app_nil_r; (split_and!; [done| |done]); [done|lia].
Qed.

Lemma height_publishes h d : height_data h = Some d -> height_fits h d -> Z.of_nat (publishes (height_work h)) <= hd_count d + 1.
Proof.
  intros Ed (_ & _ & _ & Hc & _). unfold height_work, height_instrs. rewrite Ed. cbn [fmap option_fmap option_map from_option id].
  pose proof (leaves_publishes publish_nodes h (hd_unspent d) (hd_offset d) (hd_block d) (eligible (hd_block d)) 0 0).
  rewrite !publishes_app. case_bool_decide; unfold publishes in *; cbn; lia.
Qed.
End Heights.
End Leaves.
End BuildLeaves.
