(* ===== verification/BuildPlan.v ===== *)
(** The plan of the bootstrap build: where the leaves of each height go, and what all leaf
    workers together write when the hints fit the blocks. *)

From S2P Require Import Prelude Bytes Sorting Files Positions JournalEntry Forest SteadyState Accumulator Udata BlockScan JournalFile JournalRecord HeaderIndex KernelBlocks HintScan PrefixedHints BuildThreads Bootstrap BuildRuns BuildSafety BuildFill BuildLeaves.
Import Sorting.Sorting Positions.Positions JournalEntry.JournalEntry Forest.Forest SteadyState.SteadyState Udata.Udata BlockScan.BlockScan KernelBlocks.KernelBlocks HintScan.HintScan BuildThreads.BuildThreads Bootstrap.Bootstrap BuildRuns.BuildRuns BuildSafety.BuildSafety BuildFill.BuildFill BuildLeaves.BuildLeaves.

Module BuildPlan.

(** ** Lists of lists *)

Section Lists.
Lemma bind_concat {A B} (f : A -> list B) (ls : list (list A)) : (concat ls ≫= f) = concat ((fun l => l ≫= f) <$> ls).
Proof. induction ls as [|l ls IH]; [done|]. cbn [concat fmap list_fmap]. by rewrite bind_app, IH. Qed.

Lemma concat_fmap_concat {A B C} (f : B -> list C) (g : A -> list B) (l : list A) :
  concat ((fun a => concat (f <$> g a)) <$> l) = concat (f <$> concat (g <$> l)).
Proof. induction l as [|a l IH]; [done|]. cbn [concat fmap list_fmap]. by rewrite fmap_app, concat_app, IH. Qed.

Lemma concat_fmap_ext {A B} (f g : A -> list B) (l : list A) : (forall a, a ∈ l -> f a = g a) -> concat (f <$> l) = concat (g <$> l).
Proof.
  induction l as [|a l IH]; intros E; [done|]. cbn [concat fmap list_fmap]. rewrite E by (by left). f_equal. apply IH. intros. apply E. by right.
Qed.

Lemma total_app l1 l2 : total (l1 ++ l2) = total l1 + total l2.
Proof. unfold total. induction l1 as [|x l1 IH]; cbn [app foldr]; [done|]. rewrite IH. lia. Qed.

Lemma total_concat (ls : list (list Z)) : total (concat ls) = total (total <$> ls).
Proof. induction ls as [|l ls IH]; [done|]. cbn [concat fmap list_fmap]. rewrite total_app, IH. done. Qed.

Lemma total_le {A} (f g : A -> Z) l : (forall a, a ∈ l -> f a <= g a) -> total (f <$> l) <= total (g <$> l).
Proof.
  induction l as [|a l IH]; intros E; [done|]. cbn [fmap list_fmap total foldr]. pose proof (E a ltac:(by left)).
  assert (total (f <$> l) <= total (g <$> l)) by (apply IH; intros; apply E; by right). unfold total in *. lia.
Qed.

Lemma zlength_concat {A} (ls : list (list A)) : zlength (concat ls) = total (zlength <$> ls).
Proof. induction ls as [|l ls IH]; [done|]. cbn [concat fmap list_fmap]. rewrite zlength_app, IH. done. Qed.

(** Where each part of a sum starts. *)
Fixpoint starts (n : Z) (counts : list Z) : list Z :=
  match counts with [] => [] | c :: counts => n :: starts (n + c) counts end.

Lemma length_starts n counts : length (starts n counts) = length counts.
Proof. revert n; induction counts as [|c counts IH]; intros n; cbn; [done|by rewrite IH]. Qed.

Lemma total_nonneg_list counts : Forall (fun c => 0 <= c) counts -> 0 <= total counts.
Proof. unfold total. induction 1; cbn [foldr]; lia. Qed.

Lemma concat_parts n counts : Forall (fun c => 0 <= c) counts ->
  concat (zip_with (fun o c => zrange o (o + c)) (starts n counts) counts) = zrange n (n + total counts).
Proof.
  intros Hc. revert n. induction Hc as [|c counts Hc Hcs IH]; intros n; cbn [starts zip_with concat].
  { by rewrite zrange_nil by (unfold total; cbn; lia). }
  pose proof (total_nonneg_list counts Hcs). rewrite IH. change (total (c :: counts)) with (c + total counts).
  rewrite (zrange_app n (n + c) (n + (c + total counts))) by lia. do 2 f_equal. lia.
Qed.

Lemma zlookup_concat {A} (ls : list (list A)) n j o l k v :
  starts n (zlength <$> ls) !! j = Some o -> ls !! j = Some l -> zlookup l k = Some v -> zlookup (concat ls) (o - n + k) = Some v.
Proof.
  revert n j; induction ls as [|l0 ls IH]; intros n [|j] Ho Hl Hk; cbn in *; [done..| |].
  - injection Ho as <-. injection Hl as <-. replace (n - n + k) with k by lia. rewrite zlookup_app_l; [done|]. by eapply zlookup_lt.
  - pose proof (IH _ _ Ho Hl Hk) as IH'. apply zlookup_Some in IH' as [Hp IH']. apply zlookup_Some. unfold zlength in *.
    split; [lia|]. rewrite lookup_app_r by lia. rewrite <- IH'. f_equal. lia.
Qed.

(** The chunks of heights, one after the other, are all heights. *)
Lemma chunks_are_heights stop : 0 < stop ->
  concat ((fun c => zrange (range_of stop c).1 (range_of stop c).2) <$> zrange 0 (height_chunk_count stop)) = zrange 1 (stop + 1).
Proof.
  intros Hs. assert (forall k, 0 <= k <= height_chunk_count stop ->
    concat ((fun c => zrange (range_of stop c).1 (range_of stop c).2) <$> zrange 0 k) = zrange 1 (Z.min (k * 4) stop + 1)) as Hk.
  { intros k [Hk0 Hk]. revert Hk. pattern k. apply natlike_ind; [| |done]; clear k Hk0.
    - intros _. by rewrite !zrange_nil by lia.
    - intros k Hk IH Hlt. rewrite <- Z.add_1_r in *. rewrite zrange_snoc, fmap_app, concat_app, IH by lia. cbn [fmap list_fmap concat].
      rewrite app_nil_r. unfold range_of. cbn [fst snd]. pose proof (proj1 (chunk_in stop k) ltac:(lia)).
      rewrite (zrange_app 1 (k * 4 + 1) (Z.min ((k + 1) * 4) stop + 1)) by lia. f_equal; f_equal; lia. }
  rewrite Hk; [|split; [|done]].
  - f_equal. unfold height_chunk_count, div_ceil, HEIGHT_CHUNK_SIZE. Z.to_euclidean_division_equations. lia.
  - unfold height_chunk_count, div_ceil, HEIGHT_CHUNK_SIZE. Z.to_euclidean_division_equations. lia.
Qed.
End Lists.
Section Plan.
Context `{NodeHashing} `{Sha256} `{Sha512_256} `{LeafMapBuild} `{HeightsDb} `{KernelChainstate} {HintsType : Type} `{!Hints HintsType}.

(** The widths that the trait gives its answers, for the heights that it covers. *)
Record hints_typed (hints : HintsType) : Prop := {
  ht_stop : is_u32 (hints_stop_height hints);
  ht_counts : forall h n, 1 <= h <= hints_stop_height hints -> hints_leaf_count hints h = Some n -> is_u64 n;
  ht_indices : forall h l, 1 <= h <= hints_stop_height hints -> hints_indices hints h = Some l -> Forall is_u32 l
}.

Lemma leaf_offsets_ok counts offs n offs' n' : foldM leaf_offset counts (offs, n) = Ok (offs', n') ->
  offs' = offs ++ starts n counts /\ n' = n + total counts /\ (counts <> [] -> is_u64 n').
Proof.
  revert offs n; induction counts as [|c counts IH]; intros offs n E; cbn [foldM starts] in *.
  { injection E as <- <-. rewrite app_nil_r. split_and!; [done|unfold total; cbn; lia|done]. }
  apply bind_ok in E as ([offs1 n1] & E1 & E). apply bind_ok in E1 as (m & [-> Hm]%ok_or_ok%checked_add_Some & [= <- <-]). cbn [fst snd] in *.
  destruct (IH _ _ E) as (-> & -> & Hu). rewrite <- app_assoc. change (total (c :: counts)) with (c + total counts). split_and!; [done|lia|].
  intros _. destruct counts as [|c' counts]; [|by apply Hu]. unfold total. cbn [foldr]. by rewrite Z.add_0_r.
Qed.

Record planned (hints : HintsType) (leaf_counts leaf_offsets : list Z) (leaves : Z) : Prop := {
  pn_stop : 0 < hints_stop_height hints;
  pn_length : zlength leaf_counts = hints_stop_height hints;
  pn_counts : forall h, 1 <= h <= hints_stop_height hints -> exists n, hints_leaf_count hints h = Some n /\ zlookup leaf_counts (h - 1) = Some n;
  pn_nonneg : Forall (fun n => 0 <= n) leaf_counts;
  pn_offsets : leaf_offsets = starts 0 leaf_counts;
  pn_leaves : leaves = total leaf_counts;
  pn_some : 0 < leaves < 2 ^ 64
}.

Lemma plan_leaves_ok hints leaf_counts leaf_offsets leaves : hints_typed hints ->
  plan_leaves hints = Ok (leaf_counts, leaf_offsets, leaves) -> planned hints leaf_counts leaf_offsets leaves.
Proof.
  intros Ht E. unfold plan_leaves in E. apply bind_ok in E as (? & Hz%require_ok%negb_true_iff%Z.eqb_neq & E).
  apply bind_ok in E as (counts & Ec & E). apply bind_ok in E as ([offs n] & Eo & E). apply bind_ok in E as (? & Hn%require_ok%negb_true_iff%Z.eqb_neq & [= <- <- <-]).
  pose proof (ht_stop _ Ht) as [Hs0 Hs]. apply mapM_ok_Forall2 in Ec. pose proof (Forall2_length _ _ _ Ec) as Hlen.
  assert (zlength counts = hints_stop_height hints) as Hl by (unfold zlength; rewrite <- Hlen; unfold zrange; rewrite length_seqZ; lia).
  assert (forall i n, counts !! i = Some n -> hints_leaf_count hints (Z.of_nat i + 1) = Some n) as Hcounts.
  { intros i m Hi. destruct (Forall2_lookup_r _ _ _ _ _ Ec Hi) as (h & Hh & Hm%ok_or_ok). apply lookup_seqZ in Hh as [-> _].
    by rewrite (Z.add_comm _ 1). }
  assert (Forall (fun m => 0 <= m) counts) as Hnn.
  { apply Forall_forall. intros m (i & Hi)%list_elem_of_lookup. pose proof (lookup_lt_Some _ _ _ Hi) as Hlt. unfold zlength in Hl.
    apply Hcounts, (ht_counts _ Ht) in Hi as [? _]; [done|lia]. }
  pose proof (total_nonneg_list _ Hnn). apply leaf_offsets_ok in Eo as (-> & -> & Hu). rewrite Z.add_0_l in *.
  split; [lia|done| |done|done|done|].
  - intros h Hh. destruct (zlookup_is_Some counts (h - 1)) as [m Hm]; [lia|]. exists m. split; [|done].
    apply zlookup_Some in Hm as [_ Hm]. apply Hcounts in Hm. by replace (Z.of_nat (Z.to_nat (h - 1)) + 1) with h in Hm by lia.
  - assert (counts <> []) as Hne by (intros ->; unfold zlength in Hl; cbn in Hl; lia). destruct (Hu Hne). lia.
Qed.

(** ** The work of the leaf workers *)

Section Work.
Context (source : KernelChain) (hints : HintsType) (leaf_counts leaf_offsets : list Z) (leaves publish_nodes : Z).
Hypothesis typed : hints_typed hints.
Hypothesis plan : planned hints leaf_counts leaf_offsets leaves.
Abbreviation stop := (hints_stop_height hints).
Abbreviation ok_at := (height_ok source hints leaf_counts leaf_offsets).
Abbreviation data_at := (height_data source hints leaf_counts leaf_offsets).
Abbreviation nodes_at := (height_nodes source hints leaf_counts leaf_offsets).
Abbreviation work_at := (height_work source hints leaf_counts leaf_offsets publish_nodes).
Abbreviation work := (chunk_work source hints leaf_counts leaf_offsets publish_nodes stop).

Definition heights_of : list Z := zrange 1 (stop + 1).

(** What the hints and the blocks say about the forest, the leaf map and the headers. *)
Definition all_nodes : list ForestNodeData := concat (nodes_at <$> heights_of).
Definition no_leaf : ForestNodeData := {| nd_hash := zeros 32; nd_spent := false |}.
Definition leaf_of (g : Z) : ForestNodeData := default no_leaf (zlookup all_nodes g).
Definition live_entries : list (bytes * bytes) := concat (entries_at source hints leaf_counts leaf_offsets <$> heights_of).
Definition header_list : list (Z * bytes * bytes) := concat (header_of source hints leaf_counts leaf_offsets <$> heights_of).

Definition all_work : list Instr := concat (work <$> zrange 0 (height_chunk_count stop)).

Hypothesis all_ok : forall h, h ∈ heights_of -> ok_at h.

Lemma height_at h : h ∈ heights_of -> exists d i, data_at h = Some d /\ height_fits h d /\ heights_of !! i = Some h /\
  leaf_counts !! i = Some (hd_count d) /\ starts 0 leaf_counts !! i = Some (hd_offset d).
Proof.
  intros Hh. destruct (all_ok h Hh) as (d & Ed & Hd). pose proof (height_data_Some _ _ _ _ _ _ Ed) as (E1 & E2 & _).
  exists d, (Z.to_nat (h - 1)). apply elem_of_zrange in Hh. split_and!; [done|done| | |].
  - apply lookup_seqZ. lia.
  - by apply zlookup_Some in E1 as [_ ?].
  - rewrite <- (pn_offsets _ _ _ _ plan). by apply zlookup_Some in E2 as [_ ?].
Qed.

Lemma heights_length : length heights_of = length leaf_counts.
Proof. pose proof (pn_length _ _ _ _ plan) as Hl. pose proof (pn_stop _ _ _ _ plan). unfold heights_of, zrange, zlength in *. rewrite length_seqZ. lia. Qed.

Lemma project_work {A} (f : Instr -> list A) : f IOpen = [] -> (forall hs, f (IHeaders hs) = []) ->
  (all_work ≫= f) = concat ((fun h => work_at h ≫= f) <$> heights_of).
Proof.
  intros Ho Hh. unfold all_work. rewrite bind_concat, <- list_fmap_compose. unfold heights_of. rewrite <- chunks_are_heights by apply plan.
  rewrite <- concat_fmap_concat. apply concat_fmap_ext. intros c _. unfold compose, chunk_work.
  rewrite bind_cons, Ho, bind_app, bind_concat, <- list_fmap_compose. cbn [app]. rewrite bind_cons, Hh. by rewrite app_nil_r.
Qed.

Lemma work_writes : writes all_work = zrange 0 leaves.
Proof.
  unfold writes. rewrite project_work by done. rewrite (pn_leaves _ _ _ _ plan), <- (Z.add_0_l (total leaf_counts)), <- concat_parts by apply plan.
  f_equal. apply list_eq_same_length with (length leaf_counts).
  - rewrite length_zip_with, length_starts. lia.
  - by rewrite length_fmap, heights_length.
  - intros i l l' _ (h & -> & Hh)%list_lookup_fmap_Some (o & n & -> & Ho & Hn)%lookup_zip_with_Some.
    destruct (height_at h) as (d & j & Ed & Hd & Hj & Hc & Hs); [by eapply list_elem_of_lookup_2|].
    assert (j = i) as ->.
    { apply lookup_seqZ in Hh as [-> ?], Hj as [? ?]. lia. }
    assert (hd_count d = n) as <- by congruence. assert (hd_offset d = o) as <- by congruence. by apply writes_height.
Qed.

Lemma work_puts : puts all_work = live_entries.
Proof.
  unfold puts. rewrite project_work by done. apply concat_fmap_ext. intros h _. apply height_rest.
Qed.

Lemma work_headers : headers_in all_work = header_list.
Proof.
  unfold headers_in, all_work. rewrite bind_concat, <- list_fmap_compose. unfold header_list, heights_of. rewrite <- chunks_are_heights by apply plan.
  rewrite <- concat_fmap_concat. apply concat_fmap_ext. intros c _. unfold compose, chunk_work. rewrite bind_cons, bind_app, bind_singleton. cbn [app].
  rewrite bind_concat, <- list_fmap_compose. rewrite (concat_fmap_ext _ (fun _ => [])).
  - assert (forall l : list Z, concat ((fun _ => [] : list (Z * bytes * bytes)) <$> l) = []) as -> by (intros l; by induction l). done.
  - intros h _. apply height_rest.
Qed.

Lemma work_counted : total (counted all_work) = zlength live_entries.
Proof.
  unfold counted. rewrite project_work by done. unfold live_entries. rewrite zlength_concat, total_concat, <- !list_fmap_compose. f_equal.
  apply list_fmap_ext. intros _ h _. apply height_rest.
Qed.

Lemma publishes_total ls : Z.of_nat (publishes (concat ls)) = total ((fun l => Z.of_nat (publishes l)) <$> ls).
Proof. induction ls as [|l ls IH]; [done|]. cbn [concat fmap list_fmap]. rewrite publishes_app, Nat2Z.inj_add, IH. done. Qed.

Lemma counts_at : ((fun h => default 0 (hd_count <$> data_at h)) <$> heights_of) = leaf_counts.
Proof.
  apply list_eq_same_length with (length leaf_counts); [done|by rewrite length_fmap, heights_length|].
  intros i x y _ (h & -> & Hh)%list_lookup_fmap_Some Hy. destruct (height_at h) as (d & j & Ed & _ & Hj & Hc & _); [by eapply list_elem_of_lookup_2|].
  assert (j = i) as -> by (apply lookup_seqZ in Hh as [-> ?], Hj as [? ?]; lia). rewrite Ed. cbn. congruence.
Qed.

Lemma work_publishes : Z.of_nat (publishes all_work) <= leaves + stop.
Proof.
  assert (publishes all_work = publishes (concat (work_at <$> heights_of))) as ->.
  { unfold publishes. rewrite project_work by done. by rewrite bind_concat, <- list_fmap_compose. }
  rewrite publishes_total, <- list_fmap_compose.
  etransitivity; [apply (total_le _ (fun h => default 0 (hd_count <$> data_at h) + 1))|].
  { intros h Hh. destruct (height_at h Hh) as (d & _ & Ed & Hd & _). unfold compose. rewrite Ed. cbn. by apply height_publishes. }
  assert (forall f (l : list Z), total ((fun h => f h + 1) <$> l) = total (f <$> l) + zlength l) as Hplus.
  { intros f l. induction l as [|h l IH]; [done|]. rewrite zlength_cons. cbn [fmap list_fmap]. unfold total in *. cbn [foldr]. lia. }
  rewrite Hplus, counts_at, (pn_leaves _ _ _ _ plan). pose proof (pn_length _ _ _ _ plan) as Hl. unfold zlength in *. rewrite heights_length. lia.
Qed.

Lemma entries_total : zlength live_entries <= leaves.
Proof.
  unfold live_entries. rewrite zlength_concat, <- list_fmap_compose, (pn_leaves _ _ _ _ plan).
  transitivity (total ((fun h => default 0 (hd_count <$> data_at h)) <$> heights_of)); [apply total_le|by rewrite counts_at].
  intros h Hh. destruct (height_at h Hh) as (d & _ & Ed & Hd & _). unfold compose. rewrite Ed. cbn. by apply entries_at_bound.
Qed.

(** A leaf worker writes the leaf of the hints. *)
Lemma nodes_length : zlength <$> (nodes_at <$> heights_of) = leaf_counts.
Proof.
  apply list_eq_same_length with (length leaf_counts); [done|by rewrite !length_fmap, heights_length|].
  intros i x y _ (l & -> & (h & -> & Hh)%list_lookup_fmap_Some)%list_lookup_fmap_Some Hy. destruct (height_at h) as (d & j & Ed & Hd & Hj & Hc & _); [by eapply list_elem_of_lookup_2|].
  assert (j = i) as -> by (apply lookup_seqZ in Hh as [-> ?], Hj as [? ?]; lia). rewrite (height_nodes_length _ _ _ _ h d); congruence.
Qed.

Lemma leaf_at_height h d k v : h ∈ heights_of -> data_at h = Some d -> zlookup (nodes_at h) k = Some v -> leaf_of (hd_offset d + k) = v.
Proof.
  intros Hh Ed Hk. destruct (height_at h Hh) as (d' & i & Ed' & _ & Hi & Hc & Hs). assert (d' = d) as -> by congruence.
  unfold leaf_of, all_nodes. pose proof (zlookup_concat (nodes_at <$> heights_of) 0 i (hd_offset d) (nodes_at h) k v) as Hz.
  rewrite nodes_length, list_lookup_fmap, Hi, Z.sub_0_r in Hz. by rewrite Hz.
Qed.

Lemma work_values c p v : 0 <= c < height_chunk_count stop -> IWrite p v ∈ work c -> v = leaf_of p.
Proof.
  intros Hc Hin. unfold chunk_work in Hin. apply elem_of_cons in Hin as [Hin|Hin]; [done|].
  apply elem_of_app in Hin as [Hin|Hin]; [|by apply list_elem_of_singleton in Hin]. apply BlockScan.elem_of_concat_fmap in Hin as (h & Hh & Hin).
  assert (h ∈ heights_of) as Hhs.
  { unfold heights_of. rewrite <- chunks_are_heights by apply plan. apply BlockScan.elem_of_concat_fmap. exists c. split; [by apply elem_of_zrange|done]. }
  destruct (height_at h Hhs) as (d & _ & Ed & _). destruct (height_values _ _ _ _ _ h d p v Ed Hin) as (k & -> & Hk). symmetry. by eapply leaf_at_height.
Qed.

Lemma leaves_length : zlength all_nodes = leaves.
Proof. unfold all_nodes. by rewrite zlength_concat, nodes_length, (pn_leaves _ _ _ _ plan). Qed.
End Work.
End Plan.
End BuildPlan.
