(* ===== verification/BuildChase.v ===== *)
(** What the chasers of the bootstrap build do: every parent is written once, by the
    chaser whose chunk it is in, from the two children below it. *)

From S2P Require Import Prelude Bytes Sorting Files Positions JournalEntry Forest SteadyState Accumulator Udata BlockScan JournalFile JournalRecord HeaderIndex KernelBlocks HintScan PrefixedHints BuildThreads Bootstrap BuildRuns BuildSafety BuildFill BuildLeaves BuildPlan.
Import Sorting.Sorting Positions.Positions JournalEntry.JournalEntry Forest.Forest SteadyState.SteadyState Accumulator.Accumulator Udata.Udata BlockScan.BlockScan KernelBlocks.KernelBlocks HintScan.HintScan BuildThreads.BuildThreads Bootstrap.Bootstrap BuildRuns.BuildRuns BuildSafety.BuildSafety BuildFill.BuildFill BuildLeaves.BuildLeaves BuildPlan.BuildPlan.

Module BuildChase.

(** ** Sharing out *)

Section Shares.
Lemma concat_pairs {A B} (g f : A -> list B) ws : concat ((fun w => g w ++ f w) <$> ws) ≡ₚ concat (g <$> ws) ++ concat (f <$> ws).
Proof. induction ws as [|w ws IH]; [done|]. cbn [fmap list_fmap concat]. rewrite IH. solve_Permutation. Qed.

Lemma concat_swap {A B C} (f : A -> B -> list C) (la : list A) (lb : list B) :
  concat ((fun a => concat (f a <$> lb)) <$> la) ≡ₚ concat ((fun b => concat ((fun a => f a b) <$> la)) <$> lb).
Proof.
  induction lb as [|b lb IH]; cbn [fmap list_fmap concat].
  { by induction la. }
  rewrite <- IH. apply (concat_pairs (fun a => f a b) (fun a => concat (f a <$> lb))).
Qed.

Lemma concat_one {A} (c : A) (w0 : nat) ws : NoDup ws -> w0 ∈ ws -> concat ((fun w => if decide (w0 = w) then [c] else []) <$> ws) = [c].
Proof.
  induction 1 as [|w ws Hw Hnd IH]; intros Hin; [by apply elem_of_nil in Hin|]. cbn [fmap list_fmap concat].
  destruct (decide (w0 = w)) as [->|Hne].
  - cbn [app]. f_equal. clear -Hw. induction ws as [|w' ws IH]; [done|]. cbn [fmap list_fmap concat]. rewrite decide_False by (intros ->; apply Hw; by left).
    apply IH. intros ?. apply Hw. by right.
  - apply IH. by apply elem_of_cons in Hin as [?|?].
Qed.

(** Each chunk falls to one worker. *)
Lemma shares (f : Z -> nat) n l : (forall c, c ∈ l -> (f c < n)%nat) -> concat ((fun w => filter (fun c => f c = w) l) <$> seq 0 n) ≡ₚ l.
Proof.
  induction l as [|c l IH]; intros Hf.
  { clear. by induction (seq 0 n). }
  transitivity ([c] ++ concat ((fun w => filter (fun c => f c = w) l) <$> seq 0 n)).
  2: { cbn [app]. f_equiv. apply IH. intros. apply Hf. by right. }
  rewrite <- (concat_one c (f c) (seq 0 n)); [|apply NoDup_seq|apply elem_of_seq; pose proof (Hf c ltac:(by left)); lia].
  rewrite <- concat_pairs. match goal with |- concat ?a ≡ₚ concat ?b => assert (a = b) as ->; [|done] end. apply list_fmap_ext. intros _ w _. rewrite filter_cons.
  by destruct (decide (f c = w)).
Qed.

Lemma filter_nothing {A} (P : A -> Prop) `{!forall a, Decision (P a)} l : (forall a, a ∈ l -> ~ P a) -> filter P l = [].
Proof.
  induction l as [|a l IH]; intros HP; [done|]. rewrite filter_cons_False by (apply HP; by left). apply IH. intros. apply HP. by right.
Qed.

Lemma next_share w chunk n : 0 < w -> 0 <= chunk < n ->
  filter (fun c => c mod w = chunk mod w) (zrange chunk n) = chunk :: filter (fun c => c mod w = chunk mod w) (zrange (chunk + w) n).
Proof.
  intros Hw Hc. rewrite (zrange_cons chunk) by lia. rewrite filter_cons_True by done. f_equal.
  assert (forall m, m <= chunk + w -> filter (fun c => c mod w = chunk mod w) (zrange (chunk + 1) m) = []) as Hnone.
  { intros m Hm. apply filter_nothing. intros c Hin%elem_of_zrange E.
    assert ((c - chunk) mod w = 0) as Hz by (rewrite Zminus_mod, E, Z.sub_diag; apply Z.mod_0_l; lia).
    rewrite Z.mod_small in Hz by lia. lia. }
  destruct (decide (chunk + w <= n)) as [Hle|Hgt].
  - rewrite (zrange_app (chunk + 1) (chunk + w) n) by lia. by rewrite filter_app, Hnone.
  - rewrite (zrange_nil (chunk + w)) by lia. apply Hnone. lia.
Qed.
Lemma concat_fmap_bind {A B} (f : A -> list B) l : concat (f <$> l) = l ≫= f.
Proof. induction l as [|a l IH]; [done|]. cbn [fmap list_fmap concat]. by rewrite IH. Qed.

Lemma concat_proper {A B} (f : A -> list B) l l' : l ≡ₚ l' -> concat (f <$> l) ≡ₚ concat (f <$> l').
Proof. intros E. rewrite !concat_fmap_bind. by rewrite E. Qed.

Lemma concat_Forall2_perm {A B} (f g : A -> list B) l : (forall a, a ∈ l -> f a ≡ₚ g a) -> concat (f <$> l) ≡ₚ concat (g <$> l).
Proof.
  induction l as [|a l IH]; intros E; [done|]. cbn [fmap list_fmap concat]. rewrite (E a) by (by left). rewrite IH; [done|]. intros. apply E. by right.
Qed.

Lemma fmap_concat_fmap {A B C} (f : B -> C) (g : A -> list B) l : concat ((fun a => f <$> g a) <$> l) = f <$> concat (g <$> l).
Proof. induction l as [|a l IH]; [done|]. cbn [fmap list_fmap concat]. by rewrite fmap_app, IH. Qed.
End Shares.
(** ** The list of a chaser *)

Section Chase.
Context `{NodeHashing} `{LeafMapBuild} `{HeightsDb}.
Context (leaf : Z -> ForestNodeData) (leaves rows batch workers : Z).
Hypothesis rows_fit : 0 <= rows <= 63.
Hypothesis leaves_in : 0 < leaves <= 2 ^ rows.
Hypothesis leaves_u64 : leaves < 2 ^ 63.
Hypothesis batch_pos : 0 < batch.
Hypothesis workers_pos : 0 < workers < 2 ^ 63.

(** What the forest will hold. *)
Definition node_of (p : Z) : ForestNodeData :=
  let r := detect_row p rows in subtree leaf (Z.to_nat r) (p - pos rows r 0).

Lemma node_of_pos r o : valid rows r o -> node_of (pos rows r o) = subtree leaf (Z.to_nat r) o.
Proof. intros Hv. unfold node_of. rewrite detect_row_pos by done. f_equal. unfold pos. lia. Qed.

Abbreviation script := (script (R:=unit) node_of).

Definition parents (r : Z) : Z := leaves / 2 ^ r / 2.
Definition chunks_at (r : Z) : Z := deterministic_chunk_count (parents r) batch.
Definition parents_in (r c : Z) : Z * Z := (c * batch, if c + 1 =? chunks_at r then parents r else c * batch + batch).

Definition parent_instrs (r o : Z) : list Instr :=
  [IAwait (pos rows r (2 * o)); IAwait (pos rows r (2 * o + 1));
   IWrite (pos rows (r + 1) o) (subtree leaf (Z.to_nat (r + 1)) o)].
Definition chase_instrs (r c : Z) : list Instr :=
  let range := parents_in r c in
  IAwait (pos rows r (2 * range.2 - 1)) :: concat (parent_instrs r <$> zrange range.1 range.2) ++ [IPublish].
Definition share (w r : Z) : list Z := filter (fun c => c mod workers = w mod workers) (zrange 0 (chunks_at r)).
Definition row_instrs (w r : Z) : list Instr := if parents r =? 0 then [] else concat (chase_instrs r <$> share w r).
Definition chaser_instrs (w : Z) : list Instr := concat (row_instrs w <$> zrange 0 rows).

Lemma parents_half r : 0 <= r -> parents r = leaves / 2 ^ (r + 1).
Proof. intros. unfold parents. by rewrite half_count. Qed.

Lemma parents_bound r : 0 <= r -> 0 <= parents r <= leaves / 2 ^ r / 2 /\ 2 * parents r <= leaves / 2 ^ r <= leaves.
Proof.
  intros Hr. unfold parents. pose proof (pow2_pos r Hr). assert (0 <= leaves / 2 ^ r) by (apply Z.div_pos; lia).
  assert (leaves / 2 ^ r <= leaves) by (apply Z.div_le_upper_bound; nia). pose proof (Z.mul_div_le (leaves / 2 ^ r) 2).
  assert (0 <= leaves / 2 ^ r / 2) by (apply Z.div_pos; lia). lia.
Qed.

Lemma parent_valid r o : 0 <= r -> 0 <= o < parents r ->
  valid rows r (2 * o) /\ valid rows r (2 * o + 1) /\ valid rows (r + 1) o.
Proof.
  intros Hr Ho. rewrite parents_half in Ho by done. assert (populated leaves (r + 1) o) as Hp by (split; [lia|done]).
  destruct (populated_child leaves r o Hr Hp) as [H0' H1']. assert (is_u64 leaves) by (unfold is_uint; lia). split_and!; apply (populated_valid leaves rows); (done || lia).
Qed.

Lemma chunks_bound r c : 0 <= r -> 0 < parents r -> 0 <= c < chunks_at r ->
  0 <= (parents_in r c).1 < (parents_in r c).2 /\ (parents_in r c).2 <= parents r /\ chunks_at r <= parents r.
Proof.
  intros Hr Hp Hc. unfold parents_in, chunks_at, deterministic_chunk_count in *. cbn [fst snd].
  pose proof (Z.mul_div_le (parents r) batch batch_pos). pose proof (Z.div_pos (parents r) batch ltac:(lia) batch_pos).
  assert (parents r / batch <= parents r) by (apply Z.div_le_upper_bound; nia).
  destruct (Z.eqb_spec (c + 1) (Z.max (parents r / batch) 1)); (split_and!; [nia|try nia|try nia|lia]); destruct (Z.max_spec (parents r / batch) 1) as [[? E]|[? E]]; rewrite E in *; nia.
Qed.

Lemma parents_chunks r : 0 <= r -> 0 < parents r ->
  concat ((fun c => zrange (parents_in r c).1 (parents_in r c).2) <$> zrange 0 (chunks_at r)) = zrange 0 (parents r).
Proof.
  intros Hr Hp. assert (forall k, 0 <= k < chunks_at r ->
    concat ((fun c => zrange (parents_in r c).1 (parents_in r c).2) <$> zrange 0 k) = zrange 0 (k * batch)) as Hk.
  { intros k [Hk0 Hk]. revert Hk. pattern k. apply natlike_ind; [| |done]; clear k Hk0.
    - intros _. by rewrite !zrange_nil by lia.
    - intros k Hk IH Hlt. rewrite <- Z.add_1_r in *. rewrite zrange_snoc, fmap_app, concat_app, IH by lia. cbn [fmap list_fmap concat].
      rewrite app_nil_r. pose proof (chunks_bound r k Hr Hp ltac:(lia)). unfold parents_in in *. cbn [fst snd] in *.
      rewrite (proj2 (Z.eqb_neq (k + 1) (chunks_at r))) in * by lia.
      rewrite (zrange_app 0 (k * batch) ((k + 1) * batch)) by lia. do 2 f_equal. lia. }
  assert (1 <= chunks_at r) by (unfold chunks_at, deterministic_chunk_count; lia).
  replace (chunks_at r) with (chunks_at r - 1 + 1) at 1 by lia. rewrite zrange_snoc, fmap_app, concat_app, Hk by lia. cbn [fmap list_fmap concat].
  rewrite app_nil_r. pose proof (chunks_bound r (chunks_at r - 1) Hr Hp ltac:(lia)). unfold parents_in in *. cbn [fst snd] in *.
  rewrite (proj2 (Z.eqb_eq _ _)) in * by lia. by rewrite <- zrange_app by lia.
Qed.
(** ** The scripts *)

Lemma chase_parent_script r o : 0 <= r -> 0 <= o < parents r ->
  script (chase_parent (pos rows r 0) (pos rows (r + 1) 0) tt o) = (parent_instrs r o, Ok tt).
Proof.
  intros Hr Ho. destruct (parent_valid r o Hr Ho) as (V0 & V1 & V2). unfold chase_parent, parent_instrs. cbn.
  assert (pos rows r 0 + o * 2 = pos rows r (2 * o)) as -> by (unfold pos; lia).
  assert (pos rows r (2 * o) + 1 = pos rows r (2 * o + 1)) as -> by (unfold pos; lia).
  assert (pos rows (r + 1) 0 + o = pos rows (r + 1) o) as -> by (unfold pos; lia).
  rewrite !node_of_pos by done. by rewrite subtree_up.
Qed.

Lemma chase_parents_script r l : 0 <= r -> (forall o, o ∈ l -> 0 <= o < parents r) ->
  script (loopM (chase_parent (pos rows r 0) (pos rows (r + 1) 0)) l tt) = (concat (parent_instrs r <$> l), Ok tt).
Proof.
  intros Hr. induction l as [|o l IH]; intros Hl; [done|]. cbn [loopM fmap list_fmap concat]. rewrite script_bind, chase_parent_script, wr_bind_ok by (done || apply Hl; by left).
  by rewrite IH by (intros; apply Hl; by right).
Qed.

Lemma chase_chunk_script r c : 0 <= r -> 0 < parents r -> 0 <= c < chunks_at r ->
  script (chase_chunk (pos rows r 0) (pos rows (r + 1) 0) (parents_in r c)) = (chase_instrs r c, Ok tt).
Proof.
  intros Hr Hp Hc. destruct (chunks_bound r c Hr Hp Hc) as ([Hlo Hlt] & Hhi & _). unfold chase_chunk, chase_instrs. rewrite script_bind.
  assert (pos rows r 0 + (parents_in r c).2 * 2 - 1 = pos rows r (2 * (parents_in r c).2 - 1)) as -> by (unfold pos; lia).
  cbn [BuildRuns.script read_when_ready]. unfold read_when_ready. cbn [BuildRuns.script fst snd]. rewrite wr_bind_ok, script_bind, chase_parents_script.
  - rewrite wr_bind_ok. done.
  - done.
  - intros o Ho%elem_of_zrange. lia.
Qed.

Lemma chase_chunks_script r fuel c : 0 <= r -> 0 < parents r -> 0 <= c -> c < chunks_at r + workers -> (Z.to_nat (chunks_at r - c) < fuel)%nat ->
  script (chase_chunks workers batch fuel (pos rows r 0) (pos rows (r + 1) 0) (parents r) (chunks_at r) c) =
    (concat (chase_instrs r <$> filter (fun k => k mod workers = c mod workers) (zrange c (chunks_at r))), Ok tt).
Proof.
  intros Hr Hp. revert c. induction fuel as [|fuel IH]; intros c Hc Hcw Hf; [lia|]. cbn [chase_chunks].
  destruct (Z.ltb_spec c (chunks_at r)) as [Hlt|Hge]; [|by rewrite zrange_nil by done].
  destruct (chunks_bound r c Hr Hp ltac:(lia)) as ([Hlo Hin] & Hhi & Hn). destruct (parents_bound r Hr) as (_ & Hpl & Hll).
  assert (deterministic_chunk (parents r) batch c = Ok (parents_in r c)) as Ed.
  { unfold deterministic_chunk. rewrite (proj2 (Z.leb_gt _ _)) by done. cbn [negb]. unfold require at 1. rewrite ok_bind.
    unfold parents_in in Hlo, Hin, Hhi. cbn [fst snd] in *. rewrite (proj2 (checked_mul_Some 64 c batch (c * batch))); [done|]. split; [done|].
    unfold is_uint. assert (2 ^ 63 < 2 ^ 64) by done. lia. }
  rewrite script_bind, script_result, wr_of_result, Ed, script_bind, chase_chunk_script, wr_bind_ok by (done || lia).
  rewrite script_bind, script_result, wr_of_result, (proj2 (checked_add_Some 64 c workers (c + workers))).
  2: { split; [done|]. unfold is_uint. assert (2 ^ 63 + 2 ^ 63 = 2 ^ 64) by done. lia. }
  cbn [ok_or]. rewrite IH by lia. cbn [fst snd]. rewrite (next_share workers c) by lia. cbn [fmap list_fmap concat].
  assert ((c + workers) mod workers = c mod workers) as -> by (rewrite <- (Z.mul_1_l workers) at 1; apply Z_mod_plus_full). done.
Qed.

Lemma share_start w r : 0 <= w < workers -> filter (fun k => k mod workers = w mod workers) (zrange w (chunks_at r)) = share w r.
Proof.
  intros Hw. unfold share. destruct (decide (w <= chunks_at r)) as [Hle|Hgt].
  - rewrite (zrange_app 0 w) by lia. rewrite filter_app, (filter_nothing _ (zrange 0 w)); [done|]. intros k Hk%elem_of_zrange E.
    rewrite !Z.mod_small in E by lia. lia.
  - rewrite zrange_nil by lia. symmetry. apply filter_nothing. intros k Hk%elem_of_zrange E. rewrite !Z.mod_small in E by lia. lia.
Qed.

Lemma parents_zero r r' : 0 <= r <= r' -> parents r = 0 -> parents r' = 0.
Proof.
  intros Hr E. rewrite parents_half in * by lia. replace (r' + 1) with ((r + 1) + (r' - r)) by lia.
  rewrite pow2_split, <- Z.div_div, E by (try lia; pose proof (pow2_pos (r + 1)); pose proof (pow2_pos (r' - r)); lia). apply Z.div_0_l.
  pose proof (pow2_pos (r' - r)). lia.
Qed.

Lemma chase_rows_script w r : 0 <= w < workers -> 0 <= r <= rows ->
  script (chase_rows workers leaves rows batch w (zrange r rows)) = (concat (row_instrs w <$> zrange r rows), Ok tt).
Proof.
  intros Hw [Hr Hle]. remember (Z.to_nat (rows - r)) as n eqn:En. revert r Hr Hle En. induction n as [|n IH]; intros r Hr Hle En.
  { by rewrite zrange_nil by lia. }
  rewrite zrange_cons by lia. cbn [chase_rows fmap list_fmap concat]. rewrite Z.shiftr_div_pow2 by done. fold (parents r).
  unfold row_instrs at 1. destruct (Z.eqb_spec (parents r) 0) as [Hz|Hz].
  - assert (concat (row_instrs w <$> zrange (r + 1) rows) = []) as ->; [|done]. rewrite (concat_fmap_ext _ (fun _ => [])).
    + generalize (zrange (r + 1) rows). intros l. by induction l.
    + intros r' Hr'%elem_of_zrange. unfold row_instrs. by rewrite (parents_zero r r') by (done || lia).
  - pose proof (parents_bound r Hr) as [[? _] [? ?]].
    rewrite script_bind, script_result, wr_of_result, start_position_at_row_eq by lia.
    rewrite script_bind, script_result, wr_of_result, start_position_at_row_eq by lia.
    rewrite script_bind. fold (chunks_at r).
    destruct (decide (w < chunks_at r + workers)) as [Hwc|]; [|unfold chunks_at, deterministic_chunk_count in *; lia].
    rewrite chase_chunks_script, wr_bind_ok by lia. rewrite IH by lia. cbn [fst snd]. by rewrite share_start.
Qed.

Lemma chase_strict w l : strict (R:=unit) (chase_rows workers leaves rows batch w l).
Proof.
  assert (forall p, strict (R:=unit) (read_when_ready p)) as Hread by (intros p; split; [done|]; intros e; by exists e).
  assert (forall child parent u o, strict (R:=unit) (chase_parent child parent u o)) as Hparent.
  { intros. unfold chase_parent. apply strict_bind; [apply Hread|]. intros a. apply strict_bind; [apply Hread|]. intros b. split; [done|]. intros e. by exists e. }
  assert (forall fuel child parent n count c, strict (R:=unit) (chase_chunks workers batch fuel child parent n count c)) as Hchunks.
  { induction fuel as [|fuel IH]; intros; [done|]. cbn [chase_chunks]. destruct (_ <? _); [|done].
    apply strict_bind; [apply strict_of_result|]. intros range. apply strict_bind.
    { unfold chase_chunk. apply strict_bind; [apply Hread|]. intros a. apply strict_bind; [apply strict_loop, Hparent|]. done. }
    intros []. apply strict_bind; [apply strict_of_result|]. intros k. apply IH. }
  induction l as [|r l IH]; [done|]. cbn [chase_rows]. destruct (_ =? 0); [done|]. do 2 (apply strict_bind; [apply strict_of_result|intros ?]).
  apply strict_bind; [apply Hchunks|]. intros []. apply IH.
Qed.
(** ** What is on the list of a chaser *)

Definition row_of (p : Z) : Z := detect_row p rows.
Definition chasing (x : Instr) : Prop := match x with IWrite _ _ | IAwait _ | IPublish => True | _ => False end.
(** The parts of such a list: nodes of the forest, with their values. *)
Definition chase_ok (x : Instr) : Prop :=
  match x with
  | IWrite p v => (exists r o, populated leaves r o /\ p = pos rows r o) /\ v = node_of p
  | IAwait p => exists r o, populated leaves r o /\ p = pos rows r o
  | IPublish => True
  | _ => False
  end.

Lemma row_of_pos r o : valid rows r o -> row_of (pos rows r o) = r.
Proof. apply detect_row_pos. done. Qed.

Lemma child_populated r o : 0 <= r -> 0 <= o < parents r -> populated leaves r (2 * o) /\ populated leaves r (2 * o + 1) /\ populated leaves (r + 1) o.
Proof.
  intros Hr Ho. rewrite parents_half in Ho by done. assert (populated leaves (r + 1) o) as Hp by (split; [lia|done]).
  destruct (populated_child leaves r o Hr Hp). done.
Qed.

Lemma parents_chase_ok r l : 0 <= r -> (forall o, o ∈ l -> 0 <= o < parents r) -> Forall chase_ok (concat (parent_instrs r <$> l)).
Proof.
  intros Hr Hl. apply Forall_concat, Forall_fmap, Forall_forall. intros o Ho%Hl. destruct (child_populated r o Hr Ho) as (P0 & P1 & P2).
  destruct (parent_valid r o Hr Ho) as (_ & _ & V). unfold compose, parent_instrs. repeat constructor; cbn.
  - by exists r, (2 * o).
  - by exists r, (2 * o + 1).
  - by exists (r + 1), o.
  - by rewrite node_of_pos.
Qed.

Lemma chunk_chase_ok r c : 0 <= r -> 0 < parents r -> 0 <= c < chunks_at r -> Forall chase_ok (chase_instrs r c).
Proof.
  intros Hr Hp Hc. destruct (chunks_bound r c Hr Hp Hc) as ([Hlo Hlt] & Hhi & _). unfold chase_instrs. constructor.
  - exists r, (2 * (parents_in r c).2 - 1). split; [|done]. destruct (child_populated r ((parents_in r c).2 - 1) Hr ltac:(lia)) as (_ & P & _).
    by replace (2 * (parents_in r c).2 - 1) with (2 * ((parents_in r c).2 - 1) + 1) by lia.
  - apply Forall_app. split; [|by repeat constructor]. apply parents_chase_ok; [done|]. intros o Ho%elem_of_zrange. lia.
Qed.

Lemma share_in w r c : c ∈ share w r -> 0 <= c < chunks_at r.
Proof. by intros [_ ?%elem_of_zrange]%list_elem_of_filter. Qed.

Lemma row_chase_ok w r : 0 <= r -> Forall chase_ok (row_instrs w r).
Proof.
  intros Hr. unfold row_instrs. destruct (Z.eqb_spec (parents r) 0) as [Hz|Hz]; [done|]. pose proof (parents_bound r Hr).
  apply Forall_concat, Forall_fmap, Forall_forall. intros c Hc%share_in. apply chunk_chase_ok; [done|lia|done].
Qed.

Lemma chaser_ok w : Forall chase_ok (chaser_instrs w).
Proof. apply Forall_concat, Forall_fmap, Forall_forall. intros r Hr%elem_of_zrange. apply row_chase_ok. lia. Qed.

Lemma writes_parents r l : writes (concat (parent_instrs r <$> l)) = pos rows (r + 1) <$> l.
Proof. induction l as [|o l IH]; [done|]. cbn [fmap list_fmap concat]. by rewrite writes_app, IH. Qed.

Lemma writes_chunk r c : writes (chase_instrs r c) = pos rows (r + 1) <$> zrange (parents_in r c).1 (parents_in r c).2.
Proof.
  unfold chase_instrs. change (IAwait ?p :: ?l) with ([IAwait p] ++ l). rewrite !writes_app, writes_parents. cbn [app]. by rewrite app_nil_r.
Qed.

(** What comes later is above. *)
Definition above (r : Z) (l : list Instr) : Prop := forall q, q ∈ writes l -> r < row_of q.

Lemma above_row w r r' : 0 <= r' -> r <= r' -> above r (row_instrs w r').
Proof.
  intros Hr' Hr q Hq. unfold row_instrs in Hq. destruct (Z.eqb_spec (parents r') 0) as [Hz|Hz]; [by apply elem_of_nil in Hq|].
  pose proof (parents_bound r' Hr'). unfold writes in Hq. rewrite bind_concat, <- list_fmap_compose in Hq.
  apply BlockScan.elem_of_concat_fmap in Hq as (c & Hc%share_in & Hq). change (q ∈ writes (chase_instrs r' c)) in Hq. rewrite writes_chunk in Hq.
  apply list_elem_of_fmap in Hq as (o & -> & Ho%elem_of_zrange). destruct (chunks_bound r' c Hr' ltac:(lia) Hc) as ([? ?] & ? & _).
  destruct (parent_valid r' o Hr' ltac:(lia)) as (_ & _ & V). rewrite row_of_pos by done. lia.
Qed.

Lemma above_app r l1 l2 : above r l1 -> above r l2 -> above r (l1 ++ l2).
Proof. intros A1 A2 q. rewrite writes_app. intros [?|?]%elem_of_app; [by apply A1|by apply A2]. Qed.

Lemma ordered_parents r l rest : 0 <= r -> (forall o, o ∈ l -> 0 <= o < parents r) -> above r rest -> ordered row_of rest ->
  ordered row_of (concat (parent_instrs r <$> l) ++ rest).
Proof.
  intros Hr. induction l as [|o l IH]; intros Hl Ha Ho; [done|]. cbn [fmap list_fmap concat]. unfold parent_instrs at 1. cbn [app ordered].
  destruct (parent_valid r o Hr (Hl o ltac:(by left))) as (V0 & V1 & V2). rewrite !row_of_pos by done.
  assert (above r (IWrite (pos rows (r + 1) o) (subtree leaf (Z.to_nat (r + 1)) o) :: concat (parent_instrs r <$> l) ++ rest)) as Hab.
  { intros q. change (writes (IWrite ?p ?v :: ?l)) with (p :: writes l). rewrite writes_app, writes_parents. intros [->|[Hq|Hq]%elem_of_app]%elem_of_cons.
    - rewrite row_of_pos by done. lia.
    - apply list_elem_of_fmap in Hq as (o' & -> & Ho'). destruct (parent_valid r o' Hr (Hl o' ltac:(by right))) as (_ & _ & V). rewrite row_of_pos by done. lia.
    - by apply Ha. }
  split_and!; [by intros q Hq; apply Hab|by intros q Hq; apply Hab|]. apply IH; [intros; apply Hl; by right|done|done].
Qed.

Lemma ordered_row w r rest : 0 <= r -> above r rest -> ordered row_of rest -> ordered row_of (row_instrs w r ++ rest).
Proof.
  intros Hr Ha Ho. unfold row_instrs. destruct (Z.eqb_spec (parents r) 0) as [Hz|Hz]; [done|]. pose proof (parents_bound r Hr).
  assert (forall c, c ∈ share w r -> 0 <= c < chunks_at r) as Hin by apply share_in. pose proof (above_row w r r Hr ltac:(lia)) as Hab.
  unfold row_instrs in Hab. rewrite (proj2 (Z.eqb_neq _ _) Hz) in Hab. revert Hin Hab. induction (share w r) as [|c l IH]; intros Hin Hab; [done|].
  cbn [fmap list_fmap concat] in *. rewrite <- app_assoc. destruct (chunks_bound r c Hr ltac:(lia) (Hin c ltac:(by left))) as ([? ?] & ? & _).
  assert (above r (concat (chase_instrs r <$> l))) as Hab'.
  { intros q Hq. apply Hab. rewrite writes_app. apply elem_of_app. by right. }
  assert (ordered row_of (concat (chase_instrs r <$> l) ++ rest)) as IH' by (apply IH; [intros; apply Hin; by right|done]).
  unfold chase_instrs at 1. cbn [app ordered]. rewrite <- app_assoc.
  destruct (parent_valid r ((parents_in r c).2 - 1) Hr ltac:(lia)) as (_ & V & _). split.
  - replace (2 * (parents_in r c).2 - 1) with (2 * ((parents_in r c).2 - 1) + 1) by lia. rewrite row_of_pos by done. intros q Hq.
    assert (above r (concat (chase_instrs r <$> c :: l) ++ rest)) as Hall by by apply above_app. apply Hall.
    cbn [fmap list_fmap concat]. unfold chase_instrs at 1. cbn [app]. rewrite <- !app_assoc. exact Hq.
  - apply ordered_parents; [done|intros o Ho'%elem_of_zrange; lia| |done].
    apply above_app; [by intros q ?%elem_of_nil|by apply above_app].
Qed.

Lemma chaser_ordered w : ordered row_of (chaser_instrs w).
Proof.
  unfold chaser_instrs. remember (Z.to_nat rows) as n eqn:En. assert (exists r, r = rows - Z.of_nat n /\ zrange 0 rows = zrange r rows /\ 0 <= r) as (r & Er & -> & Hr)
    by (exists 0; split_and!; [lia|done|done]). clear En. revert r Er Hr. induction n as [|n IH]; intros r Er Hr; [by rewrite zrange_nil by lia|].
  rewrite zrange_cons by lia. cbn [fmap list_fmap concat]. apply ordered_row; [done| |apply IH; lia].
  intros q Hq. unfold writes in Hq. rewrite bind_concat, <- list_fmap_compose in Hq. apply BlockScan.elem_of_concat_fmap in Hq as (r' & Hr'%elem_of_zrange & Hq).
  apply (above_row w r r'); [lia|lia|exact Hq].
Qed.
Lemma clean_parents r l rest d : 0 <= r -> (forall o, o ∈ l -> 0 <= o < parents r) -> (forall q, q ∈ d -> row_of q = r + 1) ->
  (forall d, clean row_of d rest) -> clean row_of d (concat (parent_instrs r <$> l) ++ rest).
Proof.
  intros Hr. revert d. induction l as [|o l IH]; intros d Hl Hd Hc; [apply Hc|]. cbn [fmap list_fmap concat]. unfold parent_instrs at 1. cbn [app clean].
  destruct (parent_valid r o Hr (Hl o ltac:(by left))) as (V0 & V1 & V2). rewrite !row_of_pos by done.
  split; [intros q Hq; rewrite (Hd q Hq); lia|]. split; [intros q Hq; rewrite (Hd q Hq); lia|]. apply IH; [intros; apply Hl; by right| |done].
  intros q [->|Hq]%elem_of_cons; [by rewrite row_of_pos|by apply Hd].
Qed.

Lemma clean_chunks r l rest : 0 <= r -> 0 < parents r -> (forall c, c ∈ l -> 0 <= c < chunks_at r) -> clean row_of [] rest ->
  clean row_of [] (concat (chase_instrs r <$> l) ++ rest).
Proof.
  intros Hr Hp. induction l as [|c l IH]; intros Hl Hc; [done|]. cbn [fmap list_fmap concat]. rewrite <- app_assoc. unfold chase_instrs at 1. cbn [app clean].
  split; [by intros q ?%elem_of_nil|]. rewrite <- app_assoc. destruct (chunks_bound r c Hr Hp (Hl c ltac:(by left))) as ([? ?] & ? & _).
  apply clean_parents; [done|intros o Ho%elem_of_zrange; lia|by intros q ?%elem_of_nil|]. intros d. cbn [app clean]. apply IH; [|done]. intros. apply Hl. by right.
Qed.

Lemma chaser_clean w : clean row_of [] (chaser_instrs w).
Proof.
  unfold chaser_instrs. assert (forall r, r ∈ zrange 0 rows -> 0 <= r) as Hin by (intros r ?%elem_of_zrange; lia). revert Hin.
  induction (zrange 0 rows) as [|r l IH]; intros Hin; [done|]. cbn [fmap list_fmap concat]. pose proof (Hin r ltac:(by left)) as Hr.
  pose proof (parents_bound r Hr). unfold row_instrs at 1. destruct (Z.eqb_spec (parents r) 0) as [Hz|Hz].
  - cbn [app]. apply IH. intros. apply Hin. by right.
  - apply clean_chunks; [done|lia|by apply share_in|]. apply IH. intros. apply Hin. by right.
Qed.

(** ** All chasers together *)

Definition all_chasers : list Instr := concat ((fun w => chaser_instrs (Z.of_nat w)) <$> seq 0 (Z.to_nat workers)).
Definition upper_nodes : list Z := concat ((fun r => pos rows (r + 1) <$> zrange 0 (parents r)) <$> zrange 0 rows).

Lemma shares_of_row r : concat ((fun w => share (Z.of_nat w) r) <$> seq 0 (Z.to_nat workers)) ≡ₚ zrange 0 (chunks_at r).
Proof.
  rewrite <- (shares (fun c => Z.to_nat (c mod workers)) (Z.to_nat workers) (zrange 0 (chunks_at r))).
  - match goal with |- concat ?a ≡ₚ concat ?b => assert (a = b) as ->; [|done] end. apply list_fmap_ext. intros i w Hw%lookup_seq. destruct Hw as [-> Hw].
    unfold share. apply list_filter_iff. intros c. rewrite (Z.mod_small (Z.of_nat _)) by lia. pose proof (Z.mod_pos_bound c workers). lia.
  - intros c _. pose proof (Z.mod_pos_bound c workers). lia.
Qed.

Lemma writes_row r : 0 <= r -> concat ((fun w => writes (row_instrs (Z.of_nat w) r)) <$> seq 0 (Z.to_nat workers)) ≡ₚ (pos rows (r + 1) <$> zrange 0 (parents r)).
Proof.
  intros Hr. unfold row_instrs. pose proof (parents_bound r Hr). destruct (Z.eqb_spec (parents r) 0) as [Hz|Hz].
  { rewrite Hz. generalize (seq 0 (Z.to_nat workers)). intros l. by induction l. }
  rewrite <- parents_chunks by lia. rewrite <- fmap_concat_fmap. rewrite <- (concat_proper _ _ _ (shares_of_row r)).
  rewrite <- concat_fmap_concat. match goal with |- concat ?a ≡ₚ concat ?b => assert (a = b) as ->; [|done] end. apply list_fmap_ext. intros _ w _.
  unfold writes. rewrite bind_concat, <- list_fmap_compose. apply concat_fmap_ext. intros c _. apply writes_chunk.
Qed.

Lemma chasers_writes : writes all_chasers ≡ₚ upper_nodes.
Proof.
  unfold writes, all_chasers, chaser_instrs. rewrite bind_concat, <- list_fmap_compose.
  transitivity (concat ((fun w => concat ((fun r => writes (row_instrs (Z.of_nat w) r)) <$> zrange 0 rows)) <$> seq 0 (Z.to_nat workers))).
  { match goal with |- concat ?a ≡ₚ concat ?b => assert (a = b) as ->; [|done] end. apply list_fmap_ext. intros _ w _. unfold compose. by rewrite bind_concat, <- list_fmap_compose. }
  rewrite concat_swap. unfold upper_nodes. apply concat_Forall2_perm. intros r Hr%elem_of_zrange. apply writes_row. lia.
Qed.

Lemma chasers_rest : puts all_chasers = [] /\ counted all_chasers = [] /\ headers_in all_chasers = [].
Proof.
  assert (Forall chase_ok all_chasers) as Hf by (apply Forall_concat, Forall_fmap, Forall_forall; intros w _; apply chaser_ok).
  unfold puts, counted, headers_in. induction Hf as [|x l Hx _ (IH1 & IH2 & IH3)]; [done|]. destruct x; try done; split_and!; done.
Qed.

Lemma chunk_publishes r c : 0 <= r -> 0 < parents r -> 0 <= c < chunks_at r -> (publishes (chase_instrs r c) <= length (writes (chase_instrs r c)))%nat.
Proof.
  intros Hr Hp Hc. rewrite writes_chunk, length_fmap. unfold zrange. rewrite length_seqZ. destruct (chunks_bound r c Hr Hp Hc) as ([? ?] & _).
  unfold chase_instrs. change (IAwait ?p :: ?l) with ([IAwait p] ++ l). rewrite !publishes_app.
  assert (forall l, publishes (concat (parent_instrs r <$> l)) = 0%nat) as ->.
  { induction l as [|o l IH]; [done|]. cbn [fmap list_fmap concat]. by rewrite publishes_app, IH. }
  change (publishes [IAwait _]) with 0%nat. change (publishes [IPublish]) with 1%nat. lia.
Qed.

Lemma chasers_publishes : (publishes all_chasers <= length upper_nodes)%nat.
Proof.
  rewrite <- chasers_writes. unfold all_chasers, chaser_instrs, row_instrs.
  assert (forall (ls : list (list Instr)), (forall l, l ∈ ls -> (publishes l <= length (writes l))%nat) -> (publishes (concat ls) <= length (writes (concat ls)))%nat) as Hc.
  { induction ls as [|l ls IH]; intros Hl; [done|]. cbn [concat]. rewrite publishes_app, writes_app, length_app.
    pose proof (Hl l ltac:(by left)). specialize (IH ltac:(intros; apply Hl; by right)). lia. }
  apply Hc. intros l (w & -> & _)%list_elem_of_fmap. apply Hc. intros l (r & -> & Hr%elem_of_zrange)%list_elem_of_fmap. pose proof (parents_bound r ltac:(lia)).
  destruct (Z.eqb_spec (parents r) 0); [done|]. apply Hc. intros l (c & -> & ?%share_in)%list_elem_of_fmap. apply chunk_publishes; lia.
Qed.

(** ** The nodes of the forest *)

Definition forest_nodes : list Z := zrange 0 leaves ++ upper_nodes.

Lemma elem_of_forest_nodes p : p ∈ forest_nodes <-> exists r o, populated leaves r o /\ p = pos rows r o.
Proof.
  unfold forest_nodes, upper_nodes. rewrite elem_of_app, elem_of_zrange, BlockScan.elem_of_concat_fmap. split.
  - intros [Hp|(r & Hr%elem_of_zrange & (o & -> & Ho%elem_of_zrange)%list_elem_of_fmap)].
    + exists 0, p. rewrite pos_row0. split; [split; [done|]; by rewrite Z.pow_0_r, Z.div_1_r|done].
    + exists (r + 1), o. split; [|done]. destruct (child_populated r o) as (_ & _ & ?); (lia || done).
  - intros (r & o & Hp & ->). destruct Hp as [Hr Ho]. destruct (decide (r = 0)) as [->|Hne].
    + left. rewrite pos_row0. by rewrite Z.pow_0_r, Z.div_1_r in Ho.
    + right. exists (r - 1). assert (valid rows r o) as Hv by (apply (populated_valid leaves rows); [lia|unfold is_uint; lia|lia|done]). destruct Hv as [Hv _].
      replace (r - 1 + 1) with r by lia. rewrite elem_of_zrange. split; [lia|]. apply list_elem_of_fmap. exists o. rewrite elem_of_zrange, parents_half by lia.
      by replace (r - 1 + 1) with r by lia.
Qed.

Lemma forest_nodes_NoDup : NoDup forest_nodes.
Proof.
  assert (forall r o, 0 <= r -> 0 <= o < parents r -> valid rows (r + 1) o) as Hv by (intros r o Hr Ho; by apply parent_valid).
  unfold forest_nodes. apply NoDup_app. split_and!.
  - apply NoDup_seqZ.
  - intros p Hp%elem_of_zrange (r & Hr%elem_of_zrange & (o & E & Ho%elem_of_zrange)%list_elem_of_fmap)%BlockScan.elem_of_concat_fmap.
    assert (valid rows 0 p) as Hp0 by (split; [lia|rewrite Z.sub_0_r; lia]). rewrite <- (pos_row0 rows p) in E.
    apply (pos_inj rows) in E as [E _]; [lia|done|done|]. apply Hv; lia.
  - unfold upper_nodes. rewrite concat_fmap_bind. apply NoDup_bind; [| |apply NoDup_seqZ].
    + intros r1 r2 p Hr1%elem_of_zrange Hr2%elem_of_zrange (o1 & -> & Ho1%elem_of_zrange)%list_elem_of_fmap (o2 & E & Ho2%elem_of_zrange)%list_elem_of_fmap.
      apply (pos_inj rows) in E as [E _]; [lia|done|apply Hv; lia|apply Hv; lia].
    + intros r Hr%elem_of_zrange. apply NoDup_fmap_2_strong; [|apply NoDup_seqZ]. intros o1 o2 Ho1%elem_of_zrange Ho2%elem_of_zrange E.
      apply (pos_inj rows) in E as [_ E]; [done|done|apply Hv; lia|apply Hv; lia].
Qed.

Lemma forest_nodes_in p : p ∈ forest_nodes -> 0 <= p < 2 ^ (rows + 1) - 1.
Proof.
  intros (r & o & Hp & ->)%elem_of_forest_nodes. assert (valid rows r o) as Hv by (apply (populated_valid leaves rows); [lia|unfold is_uint; lia|lia|done]).
  pose proof (pos_bounds rows rows_fit r o Hv). destruct Hv as [? _]. pose proof (pow2_pos (rows - r)). lia.
Qed.

Lemma upper_nodes_length : Z.of_nat (length upper_nodes) <= 2 ^ (rows + 1) - 1.
Proof.
  pose proof forest_nodes_NoDup as Hnd. unfold forest_nodes in Hnd. apply NoDup_app in Hnd as (_ & _ & Hnd).
  assert (0 < 2 ^ (rows + 1)) by (apply pow2_pos; lia).
  pose proof (submseteq_length upper_nodes (zrange 0 (2 ^ (rows + 1) - 1))) as Hl. unfold zrange in Hl at 2. rewrite length_seqZ in Hl.
  assert (length upper_nodes <= Z.to_nat (2 ^ (rows + 1) - 1 - 0))%nat; [|lia]. apply Hl, NoDup_submseteq; [done|].
  intros p Hp. apply elem_of_zrange, forest_nodes_in. unfold forest_nodes. apply elem_of_app. by right.
Qed.
End Chase.
End BuildChase.
