(* ===== verification/BuildCover.v ===== *)
(** What is left to know about the threads of the bootstrap build: the joining thread joins
    all the others, and the leaf workers acquire every range of heights before they end. *)

From S2P Require Import Prelude Bytes Sorting Files Positions JournalEntry Forest SteadyState Udata BlockScan JournalFile JournalRecord HeaderIndex KernelBlocks HintScan PrefixedHints BuildThreads Bootstrap BuildRuns BuildSafety BuildFill.
Import Files.Files Forest.Forest JournalFile.JournalFile HeaderIndex.HeaderIndex KernelBlocks.KernelBlocks BuildThreads.BuildThreads Bootstrap.Bootstrap BuildRuns.BuildRuns BuildSafety.BuildSafety BuildFill.BuildFill.

Module BuildCover.
Section Cover.
Context `{LeafMapBuild} `{HeightsDb}.

(** ** Strict programs *)

Lemma strict_no_abort {A} (p : Prog unit A) : strict p -> no_abort p.
Proof.
  assert (forall q : Prog unit A, gives_up q -> no_abort q) as Hg by (by intros q (e & ->)).
  unfold no_abort in *. induction p as [r|k IH|k IH|pos v k IH|pos k IH|k IH|k IH|es k IH|n k IH|hs k IH|j k IH]; cbn [strict every]; try done.
  - intros [Hk He]. split; [done|]. intros _ [[]|e]; [by apply IH|by apply Hg].
  - intros [Hk He]. split; [done|]. intros _ [[]|e]; [by apply IH|by apply Hg].
  - intros [Hk He]. split; [done|]. intros _ [v|e]; [by apply IH|by apply Hg].
  - intros Hk. split; [done|]. intros _. by apply IH.
  - intros [Hk He]. split; [done|]. intros _ [n|e]; [by apply IH|by apply Hg].
  - intros Hk. split; [done|]. intros _. by apply IH.
  - intros [Hk He]. split; [done|]. intros _ [[]|e]; [by apply IH|by apply Hg].
Qed.

Lemma returns_aborting {A} (p : Prog unit A) Q : returns p Q -> returns (aborting p) Q.
Proof.
  unfold aborting. induction p as [[a|e]|k IH|k IH|pos v k IH|pos k IH|k IH|k IH|es k IH|n k IH|hs k IH|j k IH]; cbn; auto.
Qed.

(** ** The joining thread *)

Section Joining.
Context (k : option string -> Prog unit unit).

Lemma joins_wake l f : (forall f, aborts_and_wakes (k f)) -> aborts_and_wakes (loopM join_leaf l f ≫= k) /\ aborts_and_wakes (loopM join_chaser l f ≫= k).
Proof.
  intros Hk. unfold aborts_and_wakes in *. split; revert f; induction l as [|i l IH]; intros f; [apply Hk| |apply Hk|];
    (split; [done|]); intros _ [a|e]; [apply IH| |apply IH..].
  split; [intros k' [= <-]; by eexists|]. intros _. split; [done|]. intros _. apply IH.
Qed.

Lemma joins_range n l f : Forall (fun i => (i < n)%nat) l -> (forall f, every (fun p => forall i k, p = Join i k -> (i < n)%nat) never (k f)) ->
  every (fun p => forall i k, p = Join i k -> (i < n)%nat) never (loopM join_leaf l f ≫= k) /\
  every (fun p => forall i k, p = Join i k -> (i < n)%nat) never (loopM join_chaser l f ≫= k).
Proof.
  intros Hl Hk. split; revert f; induction Hl as [|i l Hi Hl IH]; intros f; [apply Hk| |apply Hk|];
    (split; [by intros j k' [= <- <-]|]); intros _ [a|e]; [apply IH| |apply IH..].
  split; [done|]. intros _. split; [done|]. intros _. apply IH.
Qed.

Lemma joins_calm l : calm (k None) -> calm (loopM join_leaf l None ≫= k) /\ calm (loopM join_chaser l None ≫= k).
Proof. intros Hk. split; (induction l as [|i l IH]; [apply Hk|]; intros a; apply IH). Qed.

(** A failure that was seen is not forgotten. *)
Lemma joins_fail l e : (forall e, returns (k (Some e)) (fun _ => False)) ->
  returns (loopM join_leaf l (Some e) ≫= k) (fun _ => False) /\ returns (loopM join_chaser l (Some e) ≫= k) (fun _ => False).
Proof.
  intros Hk. split; revert e; (induction l as [|i l IH]; intros e; [apply Hk|]); intros [a|e']; apply IH.
Qed.

Lemma joins_all l rest : NoDup (l ++ rest) -> (forall e, returns (k (Some e)) (fun _ => False)) -> joins_ok (k None) rest ->
  joins_ok (loopM join_leaf l None ≫= k) (l ++ rest) /\ joins_ok (loopM join_chaser l None ≫= k) (l ++ rest).
Proof.
  intros Hnd He Hk. assert (forall (i : nat) l', NoDup (i :: l') -> filter (fun j => j <> i) (i :: l') = l') as Hf.
  { intros i l' [Hi _]%NoDup_cons. rewrite filter_cons_False by naive_solver. clear -Hi. induction l' as [|j l' IH]; [done|]. apply not_elem_of_cons in Hi as [? Hi]. rewrite filter_cons_True by done. f_equal. by apply IH. }
  split; (induction l as [|i l IH]; [exact Hk|]); cbn [app] in *; (split; [intros a; rewrite Hf by done; apply IH; by apply NoDup_cons in Hnd as [_ ?]|]);
    intros e; by apply joins_fail.
Qed.

Lemma joins_follow env specv work l todo : follows env specv work failing (fun _ => True) (k None) todo ->
  follows env specv work failing (fun _ => True) (loopM join_leaf l None ≫= k) ((IJoin <$> l) ++ todo) /\
  follows env specv work failing (fun _ => True) (loopM join_chaser l None ≫= k) ((IJoin <$> l) ++ todo).
Proof. intros Hk. split; (induction l as [|i l IH]; [exact Hk|]); (split; [done|]); intros a; apply IH. Qed.
End Joining.

Section JoinAll.
Context (chasers leaf_workers : nat).
Abbreviation main := (chasers + leaf_workers)%nat.
Definition join_list : list nat := seq chasers leaf_workers ++ seq 0 chasers.

Lemma join_list_NoDup : NoDup join_list.
Proof.
  unfold join_list. apply NoDup_app. split_and!; [apply NoDup_seq| |apply NoDup_seq]. intros i ?%elem_of_seq ?%elem_of_seq. lia.
Qed.

Lemma join_all_wakes : aborts_and_wakes (join_all chasers leaf_workers).
Proof. apply joins_wake. intros f. apply joins_wake. by intros []. Qed.

Lemma join_all_range : every (fun p => forall i k, p = Join i k -> (i < main)%nat) never (join_all chasers leaf_workers).
Proof.
  apply joins_range; [apply Forall_forall; intros i ?%elem_of_seq; lia|]. intros f.
  apply joins_range; [apply Forall_forall; intros i ?%elem_of_seq; lia|]. by intros [].
Qed.

Lemma join_all_calm : calm (join_all chasers leaf_workers).
Proof. apply joins_calm. by apply joins_calm. Qed.

Lemma join_all_joins : joins_ok (join_all chasers leaf_workers) join_list.
Proof.
  apply joins_all; [apply join_list_NoDup|intros e; by apply joins_fail|]. rewrite <- (app_nil_r (seq 0 chasers)) at 2.
  apply joins_all; [rewrite app_nil_r; apply NoDup_seq|done|done].
Qed.

Lemma join_all_follows env specv work : follows env specv work failing (fun _ => True) (join_all chasers leaf_workers) (IJoin <$> join_list).
Proof.
  unfold join_list. rewrite fmap_app. apply joins_follow. rewrite <- (app_nil_r (_ <$> seq 0 chasers)). apply joins_follow. done.
Qed.
End JoinAll.
(** ** Every range is acquired *)

(** A program that ends well only after an acquire has answered that no range is left. *)
Fixpoint until_none {A} (p : Prog unit A) : Prop :=
  match p with
  | Ret (Ok _) => False
  | Ret (Err _) => True
  | Acquire k => forall r, until_none (k (Some r))
  | OpenWriters k => forall x, until_none (k x)
  | Write _ _ k => forall x, until_none (k x)
  | ReadWhenReady _ k => forall x, until_none (k x)
  | Publish k => until_none k
  | SetAborted k => until_none k
  | PutEntries _ k => forall x, until_none (k x)
  | CountEntries _ k => until_none k
  | PutHeaders _ k => forall x, until_none (k x)
  | Join _ k => forall x, until_none (k x)
  end.

Lemma until_none_bind {A B} (p : Prog unit A) (f : A -> Prog unit B) : (forall a, until_none (f a)) -> until_none (p ≫= f).
Proof.
  intros Hf. unfold mbind, build_bind. induction p as [[a|e]|k IH|k IH|pos v k IH|pos k IH|k IH|k IH|es k IH|n k IH|hs k IH|j k IH]; cbn; auto.
Qed.

Lemma until_none_aborting {A} (p : Prog unit A) : until_none p -> until_none (aborting p).
Proof.
  unfold aborting. induction p as [[a|e]|k IH|k IH|pos v k IH|pos k IH|k IH|k IH|es k IH|n k IH|hs k IH|j k IH]; cbn; auto.
Qed.

Lemma until_none_next {A} (p p' : Prog unit A) : until_none p -> continues p' p -> (forall k, p <> Acquire k) -> until_none p'.
Proof.
  intros Hp Hc Hna. destruct p as [r|k|k|pos v k|pos k|k|k|es k|n k|hs k|j k]; cbn in Hp, Hc; try (by subst); try (destruct Hc as (x & ->); apply Hp).
  by destruct (Hna k).
Qed.

Context (env : BuildEnv) (chunk_ok : Z -> Prop).
Abbreviation stop := (be_stop_height env).
Abbreviation chunks := (height_chunk_count (be_stop_height env)).
Hypothesis stop_fits : 0 < stop < 2 ^ 32 - 1.

(** A program that vouches for the ranges it acquires, if it ends well. *)
Definition vouching {A} (p : Prog unit A) : Prop :=
  forall k, p = Acquire k -> forall c, 0 <= c < chunks -> returns (k (Some (range_of stop c))) (fun _ => chunk_ok c).
Definition checks {A} : Prog unit A -> Prop := every vouching never.
Definition not_acquire {A} (p : Prog unit A) : Prop := forall k, p <> Acquire k.
Definition no_ranges {A} : Prog unit A -> Prop := every not_acquire never.

Lemma strict_checks {A B} (p : Prog unit A) (f : A -> Prog unit B) (P : forall C, Prog unit C -> Prop) :
  (forall C (q : Prog unit C), not_acquire q -> P C q) -> strict p -> (forall a, every (P B) never (f a)) -> every (P B) never (p ≫= f).
Proof.
  intros HP Hp Hf. assert (forall q : Prog unit B, gives_up q -> every (P B) never q) as Hg by (intros q (e & ->); split; [by apply HP|done]).
  unfold mbind, build_bind. induction p as [r|k IH|k IH|pos v k IH|pos k IH|k IH|k IH|es k IH|n k IH|hs k IH|j k IH]; cbn [strict then_do] in *; try done.
  - destruct r as [a|e]; [apply Hf|apply Hg; by exists e].
  - destruct Hp as [Hk He]. split; [by apply HP|]. intros _ [[]|e]; [by apply IH|by apply Hg, (gives_up_bind _ f)].
  - destruct Hp as [Hk He]. split; [by apply HP|]. intros _ [[]|e]; [by apply IH|by apply Hg, (gives_up_bind _ f)].
  - destruct Hp as [Hk He]. split; [by apply HP|]. intros _ [v|e]; [by apply IH|by apply Hg, (gives_up_bind _ f)].
  - split; [by apply HP|]. intros _. by apply IH.
  - destruct Hp as [Hk He]. split; [by apply HP|]. intros _ [n|e]; [by apply IH|by apply Hg, (gives_up_bind _ f)].
  - split; [by apply HP|]. intros _. by apply IH.
  - destruct Hp as [Hk He]. split; [by apply HP|]. intros _ [[]|e]; [by apply IH|by apply Hg, (gives_up_bind _ f)].
Qed.

Lemma strict_no_ranges {A} (p : Prog unit A) : strict p -> no_ranges (aborting p).
Proof.
  assert (forall q : Prog unit A, gives_up q -> no_ranges (aborting q)) as Hg by (intros q (e & ->); split; [done|]; intros _; split; [done|]; by split).
  unfold no_ranges, not_acquire, aborting in *. induction p as [r|k IH|k IH|pos v k IH|pos k IH|k IH|k IH|es k IH|n k IH|hs k IH|j k IH]; cbn [strict then_do]; try done.
  - intros _. destruct r as [a|e]; [by split|]. exact (Hg (Ret (Err e)) (ex_intro _ e eq_refl)).
  - intros [Hk He]. split; [done|]. intros _ [[]|e]; [by apply IH|exact (Hg _ (He e))].
  - intros [Hk He]. split; [done|]. intros _ [[]|e]; [by apply IH|exact (Hg _ (He e))].
  - intros [Hk He]. split; [done|]. intros _ [v|e]; [by apply IH|exact (Hg _ (He e))].
  - intros Hk. split; [done|]. intros _. by apply IH.
  - intros [Hk He]. split; [done|]. intros _ [n|e]; [by apply IH|exact (Hg _ (He e))].
  - intros Hk. split; [done|]. intros _. by apply IH.
  - intros [Hk He]. split; [done|]. intros _ [[]|e]; [by apply IH|exact (Hg _ (He e))].
Qed.

Lemma checks_aborting {A} (p : Prog unit A) : checks p -> checks (aborting p).
Proof.
  unfold checks, aborting. induction p as [[a|e]|k IH|k IH|pos v k IH|pos k IH|k IH|k IH|es k IH|n k IH|hs k IH|j k IH];
    cbn [every then_do]; intros [Hv Hk]; specialize (Hk eq_refl); (split; [try (by intros ? ?)|intros _; auto]).
  - split; [done|]. intros _. split; [done|]. by intros _.
  - intros k' [= <-] c Hc. apply (returns_aborting (k (Some (range_of stop c)))). by apply (Hv k).
Qed.

(** ** The invariant *)

Context (main lo : nat).

Definition vouched (s : Sys unit) (c : Z) : Prop :=
  exists t th, (lo <= t < main)%nat /\ threads s !! t = Some th /\ returns (prog th) (fun _ => chunk_ok c).
Definition all_vouched (s : Sys unit) : Prop := forall c, 0 <= c < chunks -> vouched s c.

Record covered (s : Sys unit) : Prop := {
  cv_next : 0 <= next_chunk (mem s);
  cv_acquired : forall c, 0 <= c < chunks -> c < next_chunk (mem s) -> vouched s c;
  cv_leaf : forall t th, (lo <= t < main)%nat -> threads s !! t = Some th -> until_none (prog th) \/ all_vouched s;
  cv_checks : forall t th, (lo <= t < main)%nat -> threads s !! t = Some th -> checks (prog th);
  cv_others : forall t th, ~ (lo <= t < main)%nat -> threads s !! t = Some th -> no_ranges (prog th)
}.

(** A step lets one program go on; the next range changes only when one is acquired. *)
Lemma step_programs (s s' : Sys unit) t : step_thread env s t = Some s' -> exists th p', threads s !! t = Some th /\
  prog <$> threads s' = <[t := p']> (prog <$> threads s) /\
  ((exists k, prog th = Acquire k /\ p' = k (acquire stop (next_chunk (mem s))).1 /\ next_chunk (mem s') = (acquire stop (next_chunk (mem s))).2) \/
   ((forall k, prog th <> Acquire k) /\ next_chunk (mem s') = next_chunk (mem s) /\ (p' = prog th \/ continues p' (prog th)))).
Proof.
  intros E. unfold step_thread in E. destruct (threads s !! t) as [th|] eqn:Et; [|done]. cbn [mbind option_bind] in E. exists th.
  assert (forall m p, next_chunk m = next_chunk (mem s) -> (forall k, prog th <> Acquire k) -> continues p (prog th) -> goes_to env s t m p = Some s' ->
    exists p', Some th = Some th /\ prog <$> threads s' = <[t := p']> (prog <$> threads s) /\
    ((exists k, prog th = Acquire k /\ p' = k (acquire stop (next_chunk (mem s))).1 /\ next_chunk (mem s') = (acquire stop (next_chunk (mem s))).2) \/
     ((forall k, prog th <> Acquire k) /\ next_chunk (mem s') = next_chunk (mem s) /\ (p' = prog th \/ continues p' (prog th))))) as Hgo.
  { intros m p Hm Hna Hp [= <-]. exists p. cbn. rewrite list_fmap_insert. split_and!; [done|done|]. right. split_and!; [done|done|by right]. }
  destruct (prog th) as [r|k|k|pos v k|pos k|k|k|es k|n k|hs k|j k] eqn:Ep; cbn [continues] in Hgo.
  - done.
  - destruct (acquire _ _) as [range n] eqn:Ea. injection E as <-. exists (k range). cbn. rewrite list_fmap_insert. split_and!; [done|done|]. left. by exists k.
  - eapply Hgo; [done|done|by eexists|done].
  - destruct (write _ _ _); (eapply Hgo; [|done|by eexists|done]; done).
  - destruct (await_step _ _ _ _) as [|m' ph'|m' r] eqn:Ea; [done| |].
    + injection E as <-. exists (prog th). cbn. rewrite list_fmap_insert, Ep. cbn. split_and!; [done|done|]. right.
      split_and!; [done| |by left]. destruct (phase th) as [[|?]|?| | |?|?|?]; cbn [await_step] in Ea; unfold try_ready in Ea;
        try destruct (mutex _); try destruct (try_read _ _) as [[?|]|]; try destruct (aborted _); try destruct (_ && _); by inversion Ea.
    + eapply Hgo; [|done|by eexists|done]. apply await_answers in Ea as ->. by destruct (holding _).
  - destruct (mutex (mem s)); [done|]. injection E as <-. exists k. cbn [threads mem]. rewrite prog_notify, list_fmap_insert. split_and!; [done|done|]. right. split_and!; [done|done|by right].
  - eapply Hgo; [|done|by apply eq_refl|done]. done.
  - destruct (writer_put_batch _ _). eapply Hgo; [|done|by eexists|done]. done.
  - eapply Hgo; [|done|by apply eq_refl|done]. done.
  - destruct (put_batch _ _ _). eapply Hgo; [|done|by eexists|done]. done.
  - destruct (threads s !! j) as [other|]; [|done]. cbn [mbind option_bind] in E. destruct (prog other); try done.
    eapply Hgo; [done|done|by eexists|done].
Qed.
Lemma thread_of (l : list (Thread unit)) t p : (prog <$> l) !! t = Some p -> exists th, l !! t = Some th /\ prog th = p.
Proof. intros (th & -> & Ht)%list_lookup_fmap_Some. by exists th. Qed.

Section Step.
Context (s s' : Sys unit) (Hcov : covered s) (t : nat) (th : Thread unit) (p' : Prog unit unit).
Context (Ht : threads s !! t = Some th) (Hps : prog <$> threads s' = <[t := p']> (prog <$> threads s)).
Context (Hgo : p' = prog th \/ continues p' (prog th)).

Lemma program_of j thj : threads s' !! j = Some thj -> (j = t /\ prog thj = p') \/ (j <> t /\ exists th0, threads s !! j = Some th0 /\ prog thj = prog th0).
Proof.
  intros Hj. assert ((prog <$> threads s') !! j = Some (prog thj)) as E by (by rewrite list_lookup_fmap, Hj). rewrite Hps in E.
  apply updated_thread in E as [[-> ->]|[Hne E]]; [by left|]. right. split; [done|]. apply thread_of in E as (th0 & Hth0 & E). by exists th0.
Qed.

Lemma program_now : exists th', threads s' !! t = Some th' /\ prog th' = p'.
Proof. apply thread_of. rewrite Hps. apply list_lookup_insert_eq. rewrite length_fmap. by eapply lookup_lt_Some. Qed.

Lemma every_kept (P : Prog unit unit -> Prop) : every P never (prog th) -> every P never p'.
Proof. intros HP. destruct Hgo as [->|Hc]; [done|]. by eapply every_next. Qed.

Lemma vouched_kept c : vouched s c -> vouched s' c.
Proof.
  intros (j & thj & Hr & Hj & Hret). destruct (decide (j = t)) as [->|Hne].
  - assert (thj = th) as -> by congruence. destruct program_now as (th' & Hth' & E). exists t, th'. rewrite E. split_and!; [lia..|done|].
    destruct Hgo as [->|Hc]; [done|]. by eapply returns_next.
  - assert ((prog <$> threads s') !! j = Some (prog thj)) as E.
    { rewrite Hps, list_lookup_insert_ne by done. by rewrite list_lookup_fmap, Hj. }
    apply thread_of in E as (th' & Hth' & E). exists j, th'. split_and!; [lia..|done|]. by rewrite E.
Qed.

Lemma covered_intro : 0 <= next_chunk (mem s') -> (forall c, 0 <= c < chunks -> c < next_chunk (mem s') -> vouched s' c) ->
  ((lo <= t < main)%nat -> until_none p' \/ all_vouched s') -> covered s'.
Proof.
  intros Hn Hacq Hun. split; [done|done| | |].
  - intros j thj Hrj Hj. destruct (program_of j thj Hj) as [[-> ->]|[Hne (th0 & Hth0 & ->)]]; [by apply Hun|].
    destruct (cv_leaf _ Hcov j th0 Hrj Hth0) as [?|Hall]; [by left|right; intros c Hc; by apply vouched_kept, Hall].
  - intros j thj Hrj Hj. destruct (program_of j thj Hj) as [[-> ->]|[Hne (th0 & Hth0 & ->)]]; [by apply every_kept, (cv_checks _ Hcov t)|by apply (cv_checks _ Hcov j)].
  - intros j thj Hrj Hj. destruct (program_of j thj Hj) as [[-> ->]|[Hne (th0 & Hth0 & ->)]]; [by apply every_kept, (cv_others _ Hcov t)|by apply (cv_others _ Hcov j)].
Qed.
End Step.

Lemma covered_step s s' : covered s -> step env s s' -> covered s'.
Proof.
  intros Hcov (t & (th & p' & Ht & Hps & Hcase)%step_programs). pose proof (cv_next _ Hcov) as Hn. pose proof (cv_acquired _ Hcov) as Hacq.
  destruct Hcase as [(k & Ep & Ek & En)|(Hna & En & Hgo)].
  - assert (p' = prog th \/ continues p' (prog th)) as Hgo by (right; rewrite Ep; by eexists).
    pose proof (vouched_kept s s' t th p' Ht Hps Hgo) as Hkeep. apply (covered_intro s s' Hcov t th p' Ht Hps Hgo); rewrite ?En.
    + apply wrap_bound. done.
    + destruct (decide (next_chunk (mem s) < chunks)) as [Hlt|Hge]; [|intros c Hc _; apply Hkeep, Hacq; lia].
      rewrite acquire_in in * by done. cbn [fst snd] in *. intros c Hc Hlt'. destruct (decide (c = next_chunk (mem s))) as [->|Hne]; [|apply Hkeep, Hacq; lia].
      destruct (decide (lo <= t < main)%nat) as [Hr|Hr].
      2: { pose proof (every_here _ _ _ (cv_others _ Hcov t th Hr Ht)) as Hno. by destruct (Hno k). }
      destruct (program_now s s' t th p' Ht Hps) as (th' & Hth' & E). exists t, th'. rewrite E, Ek. split_and!; [lia..|done|].
      apply (every_here _ _ _ (cv_checks _ Hcov t th Hr Ht)); [done|lia].
    + intros Hr. destruct (decide (next_chunk (mem s) < chunks)) as [Hlt|Hge]; [|right; intros c Hc; apply Hkeep, Hacq; lia].
      destruct (cv_leaf _ Hcov t th Hr Ht) as [Hun|Hall]; [|right; intros c Hc; by apply Hkeep, Hall]. left.
      rewrite acquire_in in Ek by done. rewrite Ek. rewrite Ep in Hun. apply Hun.
  - pose proof (vouched_kept s s' t th p' Ht Hps Hgo) as Hkeep. apply (covered_intro s s' Hcov t th p' Ht Hps Hgo); rewrite ?En.
    + done.
    + intros c Hc Hlt. by apply Hkeep, Hacq.
    + intros Hr. destruct (cv_leaf _ Hcov t th Hr Ht) as [Hun|Hall]; [left|right; intros c Hc; by apply Hkeep, Hall].
      destruct Hgo as [->|Hc]; [done|by eapply until_none_next].
Qed.

(** When the leaf workers have ended well, all ranges were right. *)
Lemma covered_end s : covered s -> (lo < main)%nat -> (main <= length (threads s))%nat ->
  (forall t th, (lo <= t < main)%nat -> threads s !! t = Some th -> exists a, prog th = Ret (Ok a)) -> forall c, 0 <= c < chunks -> chunk_ok c.
Proof.
  intros [_ _ Hleaf _ _] Hlo Hlen Hend c Hc. destruct (lookup_lt_is_Some_2 (threads s) lo) as [th Ht]; [lia|].
  destruct (Hleaf lo th ltac:(lia) Ht) as [Hun|Hall].
  { destruct (Hend lo th ltac:(lia) Ht) as (a & E). by rewrite E in Hun. }
  destruct (Hall c Hc) as (t & th' & Hr & Ht' & Hret). destruct (Hend t th' Hr Ht') as (a & E). by rewrite E in Hret.
Qed.

Lemma joins_no_ranges (k : option string -> Prog unit unit) l f : (forall f, no_ranges (k f)) ->
  no_ranges (loopM join_leaf l f ≫= k) /\ no_ranges (loopM join_chaser l f ≫= k).
Proof.
  intros Hk. unfold no_ranges in *. split; revert f; induction l as [|i l IH]; intros f; [apply Hk| |apply Hk|];
    (split; [done|]); intros _ [a|e]; [apply IH| |apply IH..].
  split; [done|]. intros _. split; [done|]. intros _. apply IH.
Qed.

Lemma join_all_no_ranges chasers leaf_workers : no_ranges (join_all chasers leaf_workers).
Proof. apply joins_no_ranges. intros f. apply joins_no_ranges. by intros []. Qed.
End Cover.
End BuildCover.
