(* ===== verification/BuildStart.v ===== *)
(** The state in which the threads of the bootstrap build start, and the invariants of
    [BuildSafety], [BuildCover] and [BuildFill] there. *)

From S2P Require Import Prelude Bytes Sorting Files Positions JournalEntry Forest SteadyState Accumulator Udata BlockScan JournalFile JournalRecord HeaderIndex KernelBlocks HintScan PrefixedHints BuildThreads Bootstrap BuildRuns BuildSafety BuildFill BuildLeaves BuildPlan BuildChase BuildCover.
Import Files.Files Sorting.Sorting Positions.Positions JournalEntry.JournalEntry Forest.Forest SteadyState.SteadyState Accumulator.Accumulator Udata.Udata BlockScan.BlockScan HeaderIndex.HeaderIndex KernelBlocks.KernelBlocks HintScan.HintScan BuildThreads.BuildThreads Bootstrap.Bootstrap BuildRuns.BuildRuns BuildSafety.BuildSafety BuildFill.BuildFill BuildLeaves.BuildLeaves BuildPlan.BuildPlan BuildChase.BuildChase BuildCover.BuildCover.

(** What the headers that [bitcoinkernel] hands out have to do with the decoded ones: the
    bytes and the hash are those of a header, and a header is not all zeros. *)
Class KernelHeaderLaws `{KernelData} `{HeaderCodec} := {
  kb_parsed : KernelBlock -> Header;
  kb_header_law : forall block bs, kb_header block = Ok bs -> bs = header_encode (kb_parsed block) /\ kb_hash block = header_block_hash (kb_parsed block);
  kb_header_nonzero : forall block, header_encode (kb_parsed block) <> zeros 80
}.

Module BuildStart.
Section Start.
Context `{NodeHashing} `{Sha256} `{Sha512_256} `{LeafMapBuildLaws} `{HeaderLaws} `{HeightsLaws} `{KernelChainstate} `{!KernelHeaderLaws}
  {HintsType : Type} `{!Hints HintsType}.
Context (source : KernelChain) (hints : HintsType) (config : ParallelForestConfig) (sysconf : Z) (plan : Plan) (header_io : nat -> JournalFile.Io).

Abbreviation stop := (pl_stop_height plan).
Abbreviation counts := (pl_leaf_counts plan).
Abbreviation offsets := (pl_leaf_offsets plan).
Abbreviation leaves := (pl_leaves plan).
Abbreviation rows := (pl_rows plan).
Abbreviation batch := (parents_per_two_child_pages sysconf).
Abbreviation publish_nodes := (nodes_per_two_pages sysconf).
Abbreviation env := (builder_env config plan header_io).
Definition chaser_count : nat := Z.to_nat (chaser_workers config).
Definition leaf_count : nat := Z.to_nat (leaf_worker_count config stop).
Abbreviation lo := chaser_count.
Abbreviation main := (chaser_count + leaf_count)%nat.

Record startable : Prop := {
  st_typed : hints_typed hints;
  st_planned : planned hints counts offsets leaves;
  st_stop : stop = hints_stop_height hints;
  st_stop_fits : stop < 2 ^ 32 - 1;
  st_rows : 0 <= rows <= 61;
  st_leaves : leaves <= 2 ^ rows;
  st_chasers : 0 < chaser_workers config < 2 ^ 63;
  st_workers : 0 < leaf_workers config
}.
Hypothesis start : startable.

Definition leaf_program : Prog unit unit := leaf_worker source hints counts offsets publish_nodes stop.
Definition chaser_program (w : Z) : Prog unit unit := run_chaser (chaser_workers config) leaves rows batch w.

Lemma programs_eq : builder_programs source hints config sysconf plan =
  ((fun w => chaser_program (Z.of_nat w)) <$> seq 0 chaser_count) ++ replicate leaf_count leaf_program ++ [join_all chaser_count leaf_count].
Proof. done. Qed.

Lemma leaf_workers_some : (0 < leaf_count)%nat /\ Z.of_nat leaf_count <= height_chunk_count stop.
Proof.
  unfold leaf_count, leaf_worker_count. pose proof (pn_stop _ _ _ _ (st_planned start)) as Hs. rewrite <- (st_stop start) in Hs.
  assert (0 < height_chunk_count stop) by (apply chunk_in; lia). pose proof (st_workers start). lia.
Qed.

Lemma stop_ok : 0 < stop < 2 ^ 32 - 1.
Proof. pose proof (pn_stop _ _ _ _ (st_planned start)). rewrite (st_stop start) in *. pose proof (st_stop_fits start). rewrite (st_stop start) in *. lia. Qed.

(** The thread with a number. *)
Lemma program_at t p : builder_programs source hints config sysconf plan !! t = Some p ->
  ((t < lo)%nat /\ p = chaser_program (Z.of_nat t)) \/ ((lo <= t < main)%nat /\ p = leaf_program) \/ (t = main /\ p = join_all chaser_count leaf_count).
Proof.
  rewrite programs_eq. intros [Hp|[Hge Hp]]%lookup_app_Some.
  - left. apply list_lookup_fmap_Some in Hp as (w & -> & [-> Hw]%lookup_seq). by rewrite Nat.add_0_l.
  - rewrite length_fmap, length_seq in *. right. apply lookup_app_Some in Hp as [Hp|[Hge2 Hp]].
    + left. apply lookup_replicate in Hp as [-> Hlt]. split; [lia|done].
    + right. rewrite length_replicate in *. destruct (t - chaser_count - leaf_count)%nat as [|n] eqn:En; [|done]. injection Hp as <-. split; [lia|done].
Qed.

Lemma length_programs : length (builder_programs source hints config sysconf plan) = S main.
Proof. rewrite programs_eq, !length_app, length_fmap, length_seq, length_replicate. cbn. lia. Qed.

Context (m : Mem) (Hmutex : mutex m = None) (Haborted : aborted m = false) (Hnext : next_chunk m = 0).
Definition s0 : Sys unit := start_builders source hints config sysconf plan env m.

Lemma thread_at t th : threads s0 !! t = Some th -> exists p, builder_programs source hints config sysconf plan !! t = Some p /\ th = start_thread env p.
Proof. intros (p & -> & Hp)%list_lookup_fmap_Some. by exists p. Qed.

Lemma worker_loop_no_abort fuel : no_abort (leaf_worker_loop (R:=unit) source hints counts offsets publish_nodes fuel).
Proof.
  induction fuel as [|fuel IH]; [by split|]. cbn [leaf_worker_loop]. apply no_abort_bind; [split; [done|]; by intros _ x|].
  intros [range|]; [|by split]. apply no_abort_bind; [apply strict_no_abort; split; [done|]; intros e; by exists e|]. intros _.
  apply no_abort_bind; [apply strict_no_abort, range_strict|]. intros _. apply IH.
Qed.

Lemma worker_fails t p : builder_programs source hints config sysconf plan !! t = Some p -> t <> main -> aborts_and_fails p /\ announces p.
Proof.
  intros [[_ ->]|[[_ ->]|[? _]]]%program_at Hne; [| |done]; (split; [apply aborting_fails|apply aborting_announces]).
  - apply strict_no_abort, chase_strict.
  - apply worker_loop_no_abort.
Qed.

Lemma start_shape : shape env main s0.
Proof.
  assert (forall th, threads s0 !! main = Some th -> th = start_thread env (join_all chaser_count leaf_count)) as Hmain.
  { intros th (p & Hp & ->)%thread_at. destruct (program_at _ _ Hp) as [[? _]|[[? _]|[_ ->]]]; [lia|lia|done]. }
  split.
  - unfold s0. cbn. by rewrite length_fmap, length_programs.
  - by intros t th (p & _ & ->)%thread_at _.
  - by intros t th (p & _ & ->)%thread_at.
  - cbn. congruence.
  - intros t th (p & Hp & ->)%thread_at. destruct (decide (t = main)) as [->|Hne]; [|by apply fails_wakes, (worker_fails t p)].
    destruct (program_at _ _ Hp) as [[? _]|[[? _]|[_ ->]]]; [lia|lia|]. apply join_all_wakes.
  - intros t th (p & Hp & ->)%thread_at Hne. by apply (worker_fails t p).
  - intros t th (p & Hp & ->)%thread_at Hne. right. by apply (worker_fails t p).
  - cbn. congruence.
  - cbn. congruence.
  - intros th ->%Hmain. apply join_all_range.
  - intros th ->%Hmain. right. apply join_all_calm.
  - intros th ->%Hmain. right. exists (join_list chaser_count leaf_count). split; [apply join_all_joins|].
    intros t th' Ht _ Hnin. destruct Hnin. unfold join_list. rewrite elem_of_app, !elem_of_seq. lia.
Qed.

Abbreviation right_chunk := (chunk_ok source hints counts offsets env).

Lemma indices_u32 h l : is_Some (zlookup counts (h - 1)) -> hints_indices hints h = Some l -> Forall is_u32 l.
Proof.
  intros [n Hn%zlookup_lt]. rewrite (pn_length _ _ _ _ (st_planned start)) in Hn. apply (ht_indices _ (st_typed start)). lia.
Qed.

Lemma worker_until_none fuel : until_none (leaf_worker_loop (R:=unit) source hints counts offsets publish_nodes fuel).
Proof.
  induction fuel as [|fuel IH]; [done|]. intros range. cbn. apply (until_none_bind open_writers). intros _.
  apply until_none_bind. intros _. apply IH.
Qed.

Lemma worker_checks fuel : checks env right_chunk (leaf_worker_loop (R:=unit) source hints counts offsets publish_nodes fuel).
Proof.
  assert (forall C (q : Prog unit C), not_acquire q -> vouching env right_chunk q) as Hna by (intros C q Hq k ->; by destruct (Hq k)).
  induction fuel as [|fuel IH]; [by split|]. split.
  - intros k [= <-] c Hc. cbn beta. apply (returns_bind open_writers _ (fun _ => True)); [apply returns_any|]. intros _ _.
    eapply returns_bind; [apply (range_returns (fun _ => no_leaf)), indices_u32|]. intros ? Hok. eapply returns_mono; [|apply returns_any]. by intros _ _.
  - intros _ [range|]; [|by split]. apply (strict_checks open_writers _ (fun C => vouching env right_chunk)); [done|split; [done|]; intros e; by exists e|]. intros _.
    apply (strict_checks _ _ (fun C => vouching env right_chunk)); [done|apply range_strict|]. intros _. apply IH.
Qed.

Lemma start_covered : covered env right_chunk main lo s0.
Proof.
  split.
  - cbn. lia.
  - cbn. lia.
  - intros t th Hr (p & Hp & ->)%thread_at. left. destruct (program_at _ _ Hp) as [[? _]|[[_ ->]|[? _]]]; [lia| |lia].
    apply until_none_aborting, worker_until_none.
  - intros t th Hr (p & Hp & ->)%thread_at. destruct (program_at _ _ Hp) as [[? _]|[[_ ->]|[? _]]]; [lia| |lia].
    apply checks_aborting, worker_checks.
  - intros t th Hr (p & Hp & ->)%thread_at. destruct (program_at _ _ Hp) as [[_ ->]|[[? _]|[_ ->]]]; [|lia|apply join_all_no_ranges].
    apply strict_no_ranges, chase_strict.
Qed.

(** ** When the hints fit the blocks *)

Section Fits.
Hypothesis all_ok : forall h, h ∈ heights_of hints -> height_ok source hints counts offsets h.

Definition leaf_values : Z -> ForestNodeData := leaf_of source hints counts offsets.
Definition node_values : Z -> ForestNodeData := node_of leaf_values rows.
Definition work : Z -> list Instr := chunk_work source hints counts offsets publish_nodes stop.
Definition nodes : list Z := forest_nodes leaves rows.
Definition node_count : Z := 2 ^ (rows + 1) - 1.
Definition entries_all : list (bytes * bytes) := live_entries source hints counts offsets.

(** The header of each height, and of the genesis block. *)
Definition parsed_at (h : Z) : list (Z * Header) :=
  match source_block source h with Ok block => [(h, kb_parsed block)] | Err _ => [] end.
Definition headers_all : list (Z * Header) := concat (parsed_at <$> zrange 0 (stop + 1)).

Definition leaf_todos : list (list Instr) := replicate leaf_count [IAcquire (Z.to_nat (height_chunk_count stop))].
Definition chaser_todos : list (list Instr) :=
  (fun w => chaser_instrs leaf_values leaves rows batch (chaser_workers config) (Z.of_nat w)) <$> seq 0 chaser_count.
Definition start_todos : list (list Instr) := chaser_todos ++ leaf_todos ++ [IJoin <$> join_list chaser_count leaf_count].
Definition start_dirty : list (list Z) := replicate (S main) [].

Lemma batch_positive : 0 < batch.
Proof. unfold parents_per_two_child_pages. lia. Qed.

Lemma rows_63 : 0 <= rows <= 63.
Proof. pose proof (st_rows start). lia. Qed.
Lemma leaves_fit_rows : 0 < leaves <= 2 ^ rows.
Proof. pose proof (pn_some _ _ _ _ (st_planned start)). pose proof (st_leaves start). lia. Qed.
Lemma leaves_63 : leaves < 2 ^ 63.
Proof. pose proof (st_rows start). pose proof (st_leaves start). pose proof (pow2_lt rows 63 ltac:(lia)). lia. Qed.

Lemma chaser_follows w : 0 <= w < chaser_workers config ->
  follows env node_values work failing (fun _ => True) (chaser_program w) (chaser_instrs leaf_values leaves rows batch (chaser_workers config) w).
Proof.
  intros Hw. apply follows_aborting. eapply follows_script; [apply chase_strict| |exact I].
  apply chase_rows_script; [apply rows_63|apply leaves_fit_rows|apply leaves_63|apply batch_positive|apply (st_chasers start)|done|pose proof rows_63; lia].
Qed.

Lemma chunks_right c : 0 <= c < height_chunk_count stop -> right_chunk c.
Proof.
  intros Hc. unfold chunk_ok. apply Forall_forall. intros h Hh. apply all_ok. unfold heights_of.
  rewrite <- chunks_are_heights by apply (pn_stop _ _ _ _ (st_planned start)). apply BlockScan.elem_of_concat_fmap. exists c.
  rewrite <- (st_stop start). split; [by apply elem_of_zrange|done].
Qed.

Lemma leaf_follows : follows env node_values work failing (fun _ => True) leaf_program [IAcquire (Z.to_nat (height_chunk_count stop))].
Proof. apply follows_aborting, worker_follows; [apply indices_u32|apply chunks_right]. Qed.

Lemma start_follows : Forall2 (fun th l => follows env node_values work failing (fun _ => True) (prog th) l) (threads s0) start_todos.
Proof.
  unfold s0, start_builders, start_todos. cbn [threads]. rewrite programs_eq, !fmap_app. apply Forall2_app; [|apply Forall2_app].
  - unfold chaser_todos. apply Forall2_fmap_l, Forall2_fmap_l, Forall2_fmap_r, Forall_Forall2_diag, Forall_forall. intros w Hw%elem_of_seq.
    apply chaser_follows. pose proof (st_chasers start). unfold chaser_count in Hw. lia.
  - unfold leaf_todos. rewrite fmap_replicate. apply Forall2_replicate. apply leaf_follows.
  - constructor; [|constructor]. apply join_all_follows.
Qed.

Abbreviation row_at := (row_of rows).
Abbreviation instr_fits := (instr_ok main node_values nodes headers_all).

Lemma node_in_forest p : p ∈ nodes <-> exists r o, populated leaves r o /\ p = pos rows r o.
Proof. apply elem_of_forest_nodes; [apply rows_63|apply leaves_fit_rows|apply leaves_63]. Qed.

Lemma node_values_leaf p : 0 <= p < leaves -> node_values p = leaf_values p.
Proof.
  intros Hp. pose proof leaves_fit_rows. unfold node_values. rewrite <- (pos_row0 rows p) at 1. rewrite node_of_pos; [done|apply rows_63|].
  split; [pose proof rows_63; lia|]. rewrite Z.sub_0_r. lia.
Qed.

Lemma chase_instr_fits x : chase_ok leaf_values leaves rows x -> instr_fits x.
Proof. destruct x; cbn; try done; [intros [Hp ->]; split; [|done]|intros Hp]; by apply node_in_forest. Qed.

Lemma chaser_instrs_fit w : Forall instr_fits (chaser_instrs leaf_values leaves rows batch (chaser_workers config) w).
Proof.
  eapply Forall_impl; [apply chaser_ok; [apply rows_63|apply leaves_fit_rows|apply leaves_63|apply batch_positive|apply (st_chasers start)]|]. apply chase_instr_fits.
Qed.

Lemma headers_of_height h : h ∈ heights_of hints -> header_of source hints counts offsets h = serialized_entry <$> parsed_at h /\ parsed_at h <> [].
Proof.
  intros Hh. destruct (all_ok h Hh) as (d & Ed & _). unfold header_of, parsed_at. rewrite Ed.
  destruct (height_data_Some _ _ _ _ _ _ Ed) as (_ & _ & _ & -> & Eh). destruct (kb_header_law _ _ Eh) as [E1 E2]. cbn. unfold height_header, serialized_entry.
  cbn. by rewrite E1, E2.
Qed.

Lemma headers_of_chunk c : 0 <= c < height_chunk_count stop -> exists es,
  concat (header_of source hints counts offsets <$> zrange (range_of stop c).1 (range_of stop c).2) = serialized_entry <$> es /\ forall e, e ∈ es -> e ∈ headers_all.
Proof.
  intros Hc. exists (concat (parsed_at <$> zrange (range_of stop c).1 (range_of stop c).2)).
  assert (forall h, h ∈ zrange (range_of stop c).1 (range_of stop c).2 -> h ∈ heights_of hints) as Hin.
  { intros h Hh. unfold heights_of. rewrite <- chunks_are_heights by apply (pn_stop _ _ _ _ (st_planned start)). apply BlockScan.elem_of_concat_fmap.
    exists c. rewrite <- (st_stop start). split; [by apply elem_of_zrange|done]. }
  split.
  - rewrite <- fmap_concat_fmap. apply concat_fmap_ext. intros h Hh. apply headers_of_height. by apply Hin.
  - intros e (h & Hh%Hin & He)%BlockScan.elem_of_concat_fmap. unfold headers_all. apply BlockScan.elem_of_concat_fmap. exists h. split; [|done].
    unfold heights_of in Hh. rewrite <- (st_stop start) in Hh. apply elem_of_zrange in Hh. apply elem_of_zrange. lia.
Qed.

Lemma write_fits c p v : 0 <= c < height_chunk_count stop -> IWrite p v ∈ work c -> p ∈ nodes /\ v = node_values p.
Proof.
  intros Hc Hx. assert (p ∈ writes (all_work source hints counts offsets publish_nodes)) as Hp.
  { unfold writes. apply list_elem_of_bind. exists (IWrite p v). split; [by left|]. unfold all_work. apply BlockScan.elem_of_concat_fmap.
    exists c. rewrite <- (st_stop start). split; [by apply elem_of_zrange|done]. }
  rewrite (work_writes _ _ _ _ leaves) in Hp by (done || apply (st_planned start)). apply elem_of_zrange in Hp. split.
  - unfold nodes, forest_nodes. apply elem_of_app. left. by apply elem_of_zrange.
  - rewrite node_values_leaf by done. unfold leaf_values. unfold work in Hx. rewrite (st_stop start) in Hx, Hc.
    eapply work_values; [apply (st_planned start)|done|exact Hc|exact Hx].
Qed.

Lemma work_fits c : 0 <= c < height_chunk_count stop -> Forall instr_fits (work c).
Proof.
  intros Hc. apply Forall_forall. intros x Hx. pose proof Hx as Hx'. unfold work, chunk_work in Hx. apply elem_of_cons in Hx as [->|Hx]; [exact I|].
  apply elem_of_app in Hx as [Hx|Hx].
  - apply BlockScan.elem_of_concat_fmap in Hx as (h & _ & [Hx|[(kvs & ->)|(n & Hn & ->)]]%height_cases); [|exact I|exact Hn].
    destruct x; try done. by apply (write_fits c).
  - apply list_elem_of_singleton in Hx as ->. by apply headers_of_chunk.
Qed.

Lemma work_is_ok c : 0 <= c < height_chunk_count stop -> work_ok main node_values work nodes headers_all row_at c.
Proof.
  intros Hc. destruct (chunk_leafy source hints counts offsets publish_nodes env c) as [Hl Hna]. split; [by apply work_fits|done|done|].
  intros more. apply (clean_chunk source hints counts offsets publish_nodes env).
Qed.

(** ** The lists at the start *)

Lemma acquires_start : acquires (concat start_todos) = leaf_count.
Proof.
  unfold start_todos. rewrite !concat_app, !acquires_app.
  assert (acquires (concat chaser_todos) = 0%nat) as ->.
  { apply acquires_none, Forall_concat, Forall_fmap, Forall_forall. intros w _. eapply Forall_impl; [apply chaser_ok; [apply rows_63|apply leaves_fit_rows|apply leaves_63|apply batch_positive|apply (st_chasers start)]|].
    by intros []. }
  assert (forall n more, acquires (concat (replicate n [IAcquire more])) = n) as Hrep.
  { induction n as [|n IH]; intros more; [done|]. cbn [replicate concat]. by rewrite acquires_app, IH. }
  unfold leaf_todos. rewrite Hrep. cbn [concat]. rewrite app_nil_r, (acquires_none (IJoin <$> _)); [lia|]. apply Forall_fmap, Forall_forall. done.
Qed.

Lemma todo_at t l : start_todos !! t = Some l ->
  ((t < lo)%nat /\ l = chaser_instrs leaf_values leaves rows batch (chaser_workers config) (Z.of_nat t)) \/
  ((lo <= t < main)%nat /\ l = [IAcquire (Z.to_nat (height_chunk_count stop))]) \/ (t = main /\ l = IJoin <$> join_list chaser_count leaf_count).
Proof.
  unfold start_todos, chaser_todos, leaf_todos. intros [Hp|[Hge Hp]]%lookup_app_Some.
  - left. apply list_lookup_fmap_Some in Hp as (w & -> & [-> Hw]%lookup_seq). by rewrite Nat.add_0_l.
  - rewrite length_fmap, length_seq in *. right. apply lookup_app_Some in Hp as [Hp|[Hge2 Hp]].
    + left. apply lookup_replicate in Hp as [-> Hlt]. split; [lia|done].
    + right. rewrite length_replicate in *. destruct (t - chaser_count - leaf_count)%nat as [|n] eqn:En; [|done]. injection Hp as <-. split; [lia|done].
Qed.

Lemma length_todos : length start_todos = S main.
Proof. unfold start_todos, chaser_todos, leaf_todos. rewrite !length_app, length_fmap, length_seq, length_replicate. cbn. lia. Qed.

Lemma todo_shape t l : start_todos !! t = Some l -> clean row_at [] l /\ ordered row_at l /\ Forall instr_fits l.
Proof.
  intros [[Ht ->]|[[Ht ->]|[-> ->]]]%todo_at.
  - split_and!; [| |apply chaser_instrs_fit].
    + apply chaser_clean; [apply rows_63|apply leaves_fit_rows|apply leaves_63|apply batch_positive|apply (st_chasers start)].
    + apply chaser_ordered; [apply rows_63|apply leaves_fit_rows|apply leaves_63|apply batch_positive|apply (st_chasers start)].
  - split_and!; [by repeat split|done|by repeat constructor].
  - assert (forall i, i ∈ join_list chaser_count leaf_count -> (i < main)%nat) as Hin.
    { intros i. unfold join_list. rewrite elem_of_app, !elem_of_seq. lia. }
    revert Hin. induction (join_list _ _) as [|i js IH]; intros Hin; [done|]. destruct IH as (IH1 & IH2 & IH3); [intros; apply Hin; by right|].
    cbn [fmap list_fmap]. split_and!; [by split|split; [|done]|constructor; [apply Hin; by left|done]].
    clear. by induction js.
Qed.

Lemma start_todos_ok : todos_ok env main node_values nodes headers_all row_at lo 0 start_todos start_dirty.
Proof.
  destruct leaf_workers_some as [Hlw Hlc]. split.
  - unfold start_dirty. rewrite <- length_todos. apply Forall2_replicate_l; [done|]. apply Forall_forall.
    intros l (t & Hl)%list_elem_of_lookup. by apply (todo_shape t).
  - apply Forall_forall. intros l (t & Hl)%list_elem_of_lookup. by apply (todo_shape t).
  - apply Forall_concat, Forall_forall. intros l (t & Hl)%list_elem_of_lookup. by apply (todo_shape t).
  - intros t l [[Ht ->]|[[Ht ->]|[-> ->]]]%todo_at Hr; [lia| |lia]. split; [by repeat constructor|]. left.
    exists [], (Z.to_nat (height_chunk_count stop)). split_and!; [done|done|]. cbn. lia.
  - intros t l [[Ht ->]|[[Ht ->]|[-> ->]]]%todo_at Hr; [|lia|].
    + eapply Forall_impl; [apply chaser_ok; [apply rows_63|apply leaves_fit_rows|apply leaves_63|apply batch_positive|apply (st_chasers start)]|]. by intros [].
    + apply Forall_fmap, Forall_forall. done.
  - rewrite acquires_start. cbn. lia.
  - rewrite acquires_start. lia.
Qed.

(** ** The memory at the start *)

Record fresh : Prop := {
  fr_count : ff_count (m_forest m) = node_count;
  fr_marker : ff_marker (m_forest m) = None;
  fr_nodes : ff_nodes (m_forest m) = ∅;
  fr_db : forall k, db_get (m_leaf_map m) k = None;
  fr_entries : leaf_map_entries m = 0;
  fr_epoch : epoch m = 0;
  fr_headers : exists genesis, source_block source 0 = Ok genesis /\
    refines (m_headers m) (at_height (fun _ => None) 0 (Some (kb_parsed genesis))) {[ hash_key (header_block_hash (kb_parsed genesis)) := 0 ]}
}.
Hypothesis is_fresh : fresh.

Abbreviation todo := (left_over env work 0 start_todos).

Lemma pool_start : pool env work 0 = all_work source hints counts offsets publish_nodes.
Proof. unfold pool, all_work, work. cbn [be_stop_height builder_env]. by rewrite (st_stop start). Qed.

Lemma start_binds {A} (f : Instr -> list A) : (forall i, f (IJoin i) = []) -> (forall more, f (IAcquire more) = []) ->
  (todo ≫= f) = (all_chasers leaf_values leaves rows batch (chaser_workers config) ≫= f) ++ (all_work source hints counts offsets publish_nodes ≫= f).
Proof.
  intros Hj Ha. unfold left_over, start_todos. rewrite pool_start, !concat_app, !bind_app. change (concat chaser_todos) with (all_chasers leaf_values leaves rows batch (chaser_workers config)).
  assert (concat leaf_todos ≫= f = []) as ->.
  { unfold leaf_todos. induction leaf_count as [|n IH]; [done|]. cbn [replicate concat]. rewrite bind_app, IH, bind_singleton, Ha. done. }
  assert (concat [IJoin <$> join_list chaser_count leaf_count] ≫= f = []) as ->.
  { cbn [concat]. rewrite app_nil_r. induction (join_list _ _) as [|i l IH]; [done|]. cbn [fmap list_fmap]. by rewrite bind_cons, Hj, IH. }
  by rewrite app_nil_r.
Qed.

Lemma start_writes : writes todo ≡ₚ nodes.
Proof.
  unfold writes. rewrite start_binds by done. fold (writes (all_chasers leaf_values leaves rows batch (chaser_workers config))).
  fold (writes (all_work source hints counts offsets publish_nodes)). rewrite chasers_writes, (work_writes _ _ _ _ leaves).
  - unfold nodes, forest_nodes. apply Permutation_app_comm.
  - apply (st_planned start).
  - done.
  - apply rows_63.
  - apply leaves_fit_rows.
  - apply leaves_63.
  - apply batch_positive.
  - apply (st_chasers start).
Qed.

Lemma start_publishes : Z.of_nat (publishes todo) < 2 ^ 64 - 1.
Proof.
  unfold publishes. rewrite start_binds, length_app by done.
  fold (publishes (all_chasers leaf_values leaves rows batch (chaser_workers config))). fold (publishes (all_work source hints counts offsets publish_nodes)).
  pose proof (chasers_publishes leaf_values leaves rows batch (chaser_workers config) rows_63 leaves_fit_rows leaves_63 batch_positive (st_chasers start)).
  pose proof (upper_nodes_length leaves rows rows_63 leaves_fit_rows leaves_63).
  pose proof (work_publishes source hints counts offsets leaves publish_nodes (st_planned start) all_ok).
  pose proof stop_ok. rewrite (st_stop start) in *. pose proof (st_rows start). pose proof (st_leaves start).
  pose proof (pow2_le (rows + 1) 62 ltac:(lia)). pose proof (pow2_le rows 61 ltac:(lia)). lia.
Qed.

(** Heights have one header each. *)
Lemma parsed_in l h : h ∈ (concat (parsed_at <$> l)).*1 -> h ∈ l.
Proof.
  intros (e & -> & (h' & Hh' & He)%BlockScan.elem_of_concat_fmap)%list_elem_of_fmap. unfold parsed_at in He.
  destruct (source_block source h'); [|by apply elem_of_nil in He]. by apply list_elem_of_singleton in He as ->.
Qed.

Lemma parsed_NoDup l : NoDup l -> NoDup (concat (parsed_at <$> l)).*1.
Proof.
  induction 1 as [|h l Hh Hl IH]; [constructor|]. cbn [fmap list_fmap concat]. rewrite fmap_app. apply NoDup_app. split_and!; [| |done].
  - unfold parsed_at. destruct (source_block source h); [apply NoDup_singleton|constructor].
  - intros h' Hh' ?%parsed_in. unfold parsed_at in Hh'. destruct (source_block source h); [|by apply elem_of_nil in Hh'].
    apply list_elem_of_singleton in Hh' as ->. done.
Qed.

Lemma todo_headers : headers_in todo = serialized_entry <$> concat (parsed_at <$> heights_of hints).
Proof.
  unfold headers_in. rewrite start_binds by done. fold (headers_in (all_chasers leaf_values leaves rows batch (chaser_workers config))).
  destruct (chasers_rest leaf_values leaves rows batch (chaser_workers config) rows_63 leaves_fit_rows leaves_63 batch_positive (st_chasers start)) as (_ & _ & ->).
  cbn [app]. fold (headers_in (all_work source hints counts offsets publish_nodes)). rewrite (work_headers _ _ _ _ leaves) by apply (st_planned start).
  unfold header_list. rewrite <- fmap_concat_fmap. apply concat_fmap_ext. intros h Hh. by apply headers_of_height.
Qed.

Lemma todo_heights : (headers_in todo).*1.*1 = (concat (parsed_at <$> heights_of hints)).*1.
Proof. rewrite todo_headers, <- !list_fmap_compose. done. Qed.

Lemma start_headers : headers_ok headers_all (m_headers m) (headers_in todo).
Proof.
  destruct (fr_headers is_fresh) as (genesis & Eg & Hr). pose proof Hr as [Hsl (d & Ed & _) _].
  assert ((0, kb_parsed genesis) ∈ headers_all) as Hgen.
  { unfold headers_all. apply BlockScan.elem_of_concat_fmap. exists 0. pose proof stop_ok. split; [apply elem_of_zrange; lia|].
    unfold parsed_at. rewrite Eg. by left. }
  assert (forall e, e ∈ headers_all -> e.1 ∉ (headers_in todo).*1.*1 -> e = (0, kb_parsed genesis)) as Hold.
  { intros e (h & Hh%elem_of_zrange & He)%BlockScan.elem_of_concat_fmap Hnin. rewrite todo_heights in Hnin. destruct (decide (h = 0)) as [->|Hne].
    - unfold parsed_at in He. rewrite Eg in He. by apply list_elem_of_singleton in He.
    - destruct Hnin. apply list_elem_of_fmap. exists e. split; [done|]. apply BlockScan.elem_of_concat_fmap. exists h. split; [|done].
      unfold heights_of. rewrite <- (st_stop start). apply elem_of_zrange. lia. }
  eexists _, _. split; [exact Hsl|]. split; [by exists d|]. split; [by intros e He ->%(Hold e He)|]. intros Hnd. split; [exact Hr|].
  intros e He. split; [intros ->%(Hold e He); apply lookup_singleton_eq|]. intros Hin. apply lookup_singleton_ne. intros Ek.
  assert (e = (0, kb_parsed genesis)) as ->.
  { symmetry. by apply (NoDup_fmap_eq header_key headers_all). }
  rewrite todo_heights in Hin. apply parsed_in in Hin. unfold heights_of in Hin. apply elem_of_zrange in Hin. cbn in Hin. lia.
Qed.

Lemma start_mem : mem_ok node_values nodes node_count entries_all headers_all (zlength entries_all) m todo.
Proof.
  destruct is_fresh as [Hc Hm Hn Hd He Hep _]. pose proof start_writes as Hw. split.
  - split; [done|done| |].
    + intros p Hp Hnw. rewrite Hw in Hnw. done.
    + intros p _. unfold node_at. by rewrite Hn, lookup_empty.
  - rewrite Hw. apply forest_nodes_NoDup; [apply rows_63|apply leaves_fit_rows|apply leaves_63].
  - intros _. exists []. split; [|done]. cbn [app]. unfold puts. rewrite start_binds by done.
    fold (puts (all_chasers leaf_values leaves rows batch (chaser_workers config))). fold (puts (all_work source hints counts offsets publish_nodes)).
    destruct (chasers_rest leaf_values leaves rows batch (chaser_workers config) rows_63 leaves_fit_rows leaves_63 batch_positive (st_chasers start)) as (-> & _ & _).
    by rewrite (work_puts _ _ _ _ leaves) by (done || apply (st_planned start)).
  - rewrite He. split; [done|]. unfold counted. rewrite start_binds by done.
    fold (counted (all_chasers leaf_values leaves rows batch (chaser_workers config))). fold (counted (all_work source hints counts offsets publish_nodes)).
    destruct (chasers_rest leaf_values leaves rows batch (chaser_workers config) rows_63 leaves_fit_rows leaves_63 batch_positive (st_chasers start)) as (_ & -> & _).
    cbn [app]. by rewrite (work_counted _ _ _ _ leaves) by (done || apply (st_planned start)).
  - apply start_headers.
  - rewrite todo_heights. apply parsed_NoDup, NoDup_seqZ.
  - rewrite Hep. pose proof start_publishes. lia.
Qed.

Lemma start_good : good env main node_values work nodes node_count entries_all headers_all (zlength entries_all) row_at lo s0 start_todos start_dirty.
Proof.
  assert (next_chunk (mem s0) = 0) as En by done. split; rewrite ?En.
  - apply start_follows.
  - apply start_todos_ok.
  - apply start_mem.
  - by intros t th p k (q & _ & ->)%thread_at.
Qed.
End Fits.
End Start.
End BuildStart.
