(* ===== verification/BuildEnds.v ===== *)
(** Runs of the builders: they end without a deadlock, they succeed only when the hints
    fit the blocks, and then the memory is what the hints and the blocks say. *)

From S2P Require Import Prelude Bytes Sorting Files Positions JournalEntry Forest SteadyState Accumulator Udata BlockScan JournalFile JournalRecord HeaderIndex KernelBlocks HintScan PrefixedHints BuildThreads Bootstrap BuildRuns BuildSafety BuildFill BuildLeaves BuildPlan BuildChase BuildCover BuildStart.
Import Files.Files Sorting.Sorting Positions.Positions JournalEntry.JournalEntry Forest.Forest SteadyState.SteadyState Accumulator.Accumulator Udata.Udata BlockScan.BlockScan HeaderIndex.HeaderIndex KernelBlocks.KernelBlocks HintScan.HintScan BuildThreads.BuildThreads Bootstrap.Bootstrap BuildRuns.BuildRuns BuildSafety.BuildSafety BuildFill.BuildFill BuildLeaves.BuildLeaves BuildPlan.BuildPlan BuildChase.BuildChase BuildCover.BuildCover BuildStart.BuildStart.

Module BuildEnds.
Section Waits.
Context `{NodeHashing} `{Sha256} `{Sha512_256} `{LeafMapBuild} `{HeightsDb} `{KernelChainstate} {HintsType : Type} `{!Hints HintsType}.

(** ** Leaf workers wait for no node *)

Definition not_reading {A} (p : Prog unit A) : Prop := forall pos k, p <> ReadWhenReady pos k.
Definition no_waits {A} : Prog unit A -> Prop := every not_reading never.

Lemma no_waits_bind {A B} (p : Prog unit A) (f : A -> Prog unit B) : no_waits p -> (forall a, no_waits (f a)) -> no_waits (p ≫= f).
Proof.
  unfold no_waits, not_reading, mbind, build_bind. intros Hp Hf. revert Hp.
  induction p as [[a|e]|k IH|k IH|pos v k IH|pos k IH|k IH|k IH|es k IH|n k IH|hs k IH|j k IH]; cbn; intros [Hp Hk]; specialize (Hk eq_refl); try (split; [done|]; intros _); auto.
  by destruct (Hp pos k).
Qed.

Lemma no_waits_of_result {A} (r : result A) : no_waits (of_result r : Prog unit A).
Proof. by destruct r. Qed.

Lemma no_waits_loop {A S} (f : S -> A -> Prog unit S) l s : (forall s a, no_waits (f s a)) -> no_waits (loopM f l s).
Proof. intros Hf. revert s; induction l as [|a l IH]; intros s; [by split|]. cbn [loopM]. by apply no_waits_bind. Qed.

Lemma writes_only_no_waits {A} (p : Prog unit A) : writes_only p -> no_waits p.
Proof.
  unfold no_waits, not_reading. induction p as [r|k IH|k IH|pos v k IH|pos k IH|k IH|k IH|es k IH|n k IH|hs k IH|j k IH]; cbn [writes_only every]; try done.
  - intros [Hk He]. split; [done|]. intros _ [[]|e]; [by apply IH|]. by destruct (He e) as (e' & ->).
  - intros Hk. split; [done|]. intros _. by apply IH.
Qed.

Lemma no_waits_aborting {A} (p : Prog unit A) : no_waits p -> no_waits (aborting p).
Proof.
  unfold no_waits, not_reading, aborting. induction p as [[a|e]|k IH|k IH|pos v k IH|pos k IH|k IH|k IH|es k IH|n k IH|hs k IH|j k IH]; cbn; intros [Hp Hk]; specialize (Hk eq_refl);
    try (split; [done|]; intros _); auto.
  by destruct (Hp pos k).
Qed.

Lemma leaf_no_waits source hints counts offsets publish_nodes fuel : no_waits (leaf_worker_loop source hints counts offsets publish_nodes fuel).
Proof.
  induction fuel as [|fuel IH]; [by split|]. cbn [leaf_worker_loop]. apply no_waits_bind; [split; [done|]; by intros _ x|]. intros [range|]; [|by split].
  apply no_waits_bind; [split; [done|]; by intros _ x|]. intros _. apply no_waits_bind; [|intros _; apply IH].
  unfold fill_leaf_range. apply no_waits_bind; [|intros hs; split; [done|]; by intros _ x]. apply no_waits_loop. intros hs h. unfold fill_height.
  do 6 (apply no_waits_bind; [apply no_waits_of_result|intros ?]). apply no_waits_bind; [apply writes_only_no_waits, visit_writes_only|]. intros [s n].
  do 2 (apply no_waits_bind; [apply no_waits_of_result|intros ?]). apply no_waits_bind; [|intros _; split; [done|]; intros _; by split].
  case_bool_decide; [by split|]. apply no_waits_bind; [split; [done|]; by intros _ x|]. intros n'. split; [done|]. intros _. by split.
Qed.
End Waits.

Section Runs.
Context `{LeafMapBuild} `{HeightsDb} (env : BuildEnv).

(** What holds at every point of the program of a thread stays so. *)
Lemma every_steps (P : Prog unit unit -> Prop) t (s s' : Sys unit) : rtc (step env) s s' ->
  (forall th, threads s !! t = Some th -> every P never (prog th)) -> forall th, threads s' !! t = Some th -> every P never (prog th).
Proof.
  intros Hr. induction Hr as [s|s s1 s2 Hst _ IH]; intros HP; [done|]. apply IH. intros th Hth.
  destruct Hst as (t' & (th' & p' & Ht & Hps & Hcase)%step_programs).
  destruct (program_of s s1 t' p' Hps t th Hth) as [[-> ->]|[Hne (th0 & Hth0 & ->)]]; [|by apply HP].
  assert (p' = prog th' \/ continues p' (prog th')) as [->|Hc]; [|by apply HP|eapply every_next; [by apply HP|done|done]].
  destruct Hcase as [(k & -> & -> & _)|(_ & _ & Hgo)]; [right; by eexists|done].
Qed.

Lemma shape_steps main (s s' : Sys unit) : rtc (step env) s s' -> shape env main s -> shape env main s'.
Proof. intros Hr. induction Hr as [|s1 s2 s3 Hst _ IH]; [done|]. intros Hs. apply IH. by eapply shape_step. Qed.

Lemma covered_steps right_chunk main lo (s s' : Sys unit) : 0 < be_stop_height env < 2 ^ 32 - 1 -> rtc (step env) s s' ->
  covered env right_chunk main lo s -> covered env right_chunk main lo s'.
Proof. intros Hst Hr. induction Hr as [|s1 s2 s3 Hs _ IH]; [done|]. intros Hc. apply IH. by eapply covered_step. Qed.

Lemma run_schedule_steps schedule (s : Sys unit) : rtc (step env) s (run_schedule env schedule s).
Proof.
  unfold run_schedule. revert s. induction schedule as [|t schedule IH]; intros s; [done|]. cbn [foldl].
  destruct (step_thread env s t) as [s1|] eqn:E; cbn [default from_option id]; [|apply IH]. eapply rtc_l; [by exists t|apply IH].
Qed.
End Runs.

Section Ends.
Context `{NodeHashing} `{Sha256} `{Sha512_256} `{LeafMapBuildLaws} `{HeaderLaws} `{HeightsLaws} `{KernelChainstate} `{!KernelHeaderLaws}
  {HintsType : Type} `{!Hints HintsType}.
Context (source : KernelChain) (hints : HintsType) (config : ParallelForestConfig) (sysconf : Z) (plan : Plan) (header_io : nat -> JournalFile.Io).
Context (start : startable hints config plan) (m : Mem) (Hmutex : mutex m = None) (Haborted : aborted m = false) (Hnext : next_chunk m = 0).

Abbreviation counts := (pl_leaf_counts plan).
Abbreviation offsets := (pl_leaf_offsets plan).
Abbreviation env := (builder_env config plan header_io).
Abbreviation lo := (chaser_count config).
Abbreviation main := (chaser_count config + leaf_count config plan)%nat.
Abbreviation first := (start_builders source hints config sysconf plan env m).
Abbreviation right_chunk := (chunk_ok source hints counts offsets env).

Definition hints_fit : Prop := forall h, h ∈ heights_of hints -> height_ok source hints counts offsets h.

Lemma chunks_fit : (forall c, 0 <= c < height_chunk_count (pl_stop_height plan) -> right_chunk c) -> hints_fit.
Proof.
  intros Hc h Hh. unfold heights_of in Hh. rewrite <- chunks_are_heights in Hh by apply (pn_stop _ _ _ _ (st_planned _ _ _ start)).
  apply BlockScan.elem_of_concat_fmap in Hh as (c & Hcc%elem_of_zrange & Hh). rewrite <- (st_stop _ _ _ start) in *.
  specialize (Hc c Hcc). unfold chunk_ok in Hc. rewrite Forall_forall in Hc. by apply Hc.
Qed.

Section Reached.
Context (s : Sys unit) (Hreach : rtc (step env) first s).

Lemma reached_shape : shape env main s.
Proof. eapply shape_steps; [exact Hreach|]. by apply start_shape. Qed.

Lemma reached_covered : covered env right_chunk main lo s.
Proof. eapply covered_steps; [by eapply stop_ok|exact Hreach|]. by apply start_covered. Qed.

(** When all leaf workers have ended well, the hints fit. *)
Lemma leaves_ended_fit : (forall t th, (lo <= t < main)%nat -> threads s !! t = Some th -> exists a, prog th = Ret (Ok a)) -> hints_fit.
Proof.
  intros Hend. apply chunks_fit. pose proof (leaf_workers_some hints config plan start) as [Hlw _].
  apply (covered_end env right_chunk main lo s reached_covered); [lia| |done]. rewrite (sh_length _ _ _ reached_shape). lia.
Qed.

Lemma worker_ok t th r : (t < main)%nat -> aborted (mem s) = false -> threads s !! t = Some th -> prog th = Ret r -> exists a, r = Ok a.
Proof.
  intros Ht Hab Hth Hp. destruct r as [a|e]; [by exists a|]. pose proof (failed_aborts env main s reached_shape t th e Hth Hp ltac:(lia)). congruence.
Qed.

Lemma stuck_leaves : stuck env s -> aborted (mem s) = false ->
  forall t th, (lo <= t < main)%nat -> threads s !! t = Some th -> exists a, prog th = Ret (Ok a).
Proof.
  intros Hst Hab t th Ht Hth. destruct (stuck_thread env main s t th reached_shape Hst Hth) as [(r & Hr)|[(pos & k & e & Hp & _)|(i & k & Hp & _)]].
  - destruct (worker_ok t th r ltac:(lia) Hab Hth Hr) as (a & ->). by exists a.
  - assert (no_waits (prog th)) as Hnw.
    { eapply (every_steps env not_reading t first s Hreach); [|exact Hth]. intros th0 (p & Hpr & ->)%thread_at.
      destruct (program_at source hints config sysconf plan t p Hpr) as [[? _]|[[_ ->]|[? _]]]; [lia| |lia]. apply no_waits_aborting, leaf_no_waits. }
    pose proof (every_here _ _ _ Hnw) as Hno. by destruct (Hno pos k).
  - pose proof (every_here _ _ _ (sh_fails _ _ _ reached_shape t th Hth ltac:(lia))) as [_ Hno]. by destruct (Hno i k).
Qed.
End Reached.

(** ** When the hints fit *)

Section Fitting.
Hypothesis fit : hints_fit.
Hypothesis is_fresh : fresh source plan m.

Abbreviation values := (node_values source hints plan).
Abbreviation everything := (entries_all source hints plan).
Abbreviation built_mem := (mem_ok values (nodes plan) (node_count plan) everything (headers_all source plan) (zlength everything)).
Abbreviation inv := (run_inv env main values (work source hints sysconf plan) (nodes plan) (node_count plan) everything
  (headers_all source plan) (zlength everything) (row_of (pl_rows plan)) lo).

Lemma header_entries : NoDup (headers_all source plan).*1 /\ Forall entry_fits (headers_all source plan).
Proof.
  pose proof (stop_ok hints config plan start) as Hst. unfold headers_all. split.
  - apply parsed_NoDup, NoDup_seqZ.
  - apply Forall_concat, Forall_fmap, Forall_forall. intros h Hh%elem_of_zrange. unfold compose, parsed_at. destruct (source_block source h); [|constructor].
    constructor; [|constructor]. split; [|apply kb_header_nonzero]. cbn. unfold is_uint. lia.
Qed.

Lemma worker_bound : height_chunk_count (pl_stop_height plan) + Z.of_nat (main - lo) < 2 ^ 64 - 1.
Proof.
  pose proof (stop_ok hints config plan start). pose proof (leaf_workers_some hints config plan start) as [_ Hle].
  assert (height_chunk_count (pl_stop_height plan) <= pl_stop_height plan); [|lia].
  unfold height_chunk_count, div_ceil, HEIGHT_CHUNK_SIZE. Z.to_euclidean_division_equations. lia.
Qed.

Lemma reached_inv s : rtc (step env) first s -> inv s.
Proof.
  destruct header_entries as [Hnd Hfit]. eapply run_inv_steps; [|exact Hnd|exact Hfit| | | | |].
  - intros p. apply forest_nodes_in; [by eapply rows_63|by eapply leaves_fit_rows|by eapply leaves_63].
  - intros c Hc. by apply (work_is_ok source hints config sysconf plan header_io start fit).
  - by eapply stop_ok.
  - apply worker_bound.
  - pose proof (entries_total source hints counts offsets _ (st_planned _ _ _ start) fit) as He. pose proof (pn_some _ _ _ _ (st_planned _ _ _ start)).
    unfold entries_all. lia.
  - assert (good env main values (work source hints sysconf plan) (nodes plan) (node_count plan) everything (headers_all source plan) (zlength everything)
      (row_of (pl_rows plan)) lo first (start_todos source hints config sysconf plan) (start_dirty config plan)) as Hg by (by apply start_good).
    split; [by apply start_shape|]. split; [|intros _; split; [done|]]; [right; right|]; by eexists _, _.
Qed.

Lemma row_positive p : p ∈ nodes plan -> 0 <= row_of (pl_rows plan) p.
Proof.
  intros (r & o & Hp & ->)%(elem_of_forest_nodes (pl_leaves plan) (pl_rows plan)); [|by eapply rows_63|by eapply leaves_fit_rows|by eapply leaves_63].
  assert (valid (pl_rows plan) r o) as Hv.
  { eapply populated_valid; [by eapply rows_63| | |exact Hp]; pose proof (leaves_fit_rows hints config plan start); pose proof (leaves_63 hints config plan start); [unfold is_uint; lia|lia]. }
  rewrite row_of_pos; [destruct Hv; lia|by eapply rows_63|done].
Qed.

(** A run that is stuck without an abort is over, has succeeded and has built everything. *)
Lemma fitting_stuck s : rtc (step env) first s -> stuck env s -> aborted (mem s) = false ->
  (forall t th, threads s !! t = Some th -> exists a, prog th = Ret (Ok a)) /\ built_mem (mem s) [].
Proof.
  intros Hr Hst Hab. pose proof (reached_inv s Hr) as (Hs & [?|[(t & th & Ht & e & Hp)|(todos & dirty & Hg)]] & _); [congruence| |].
  - exfalso. destruct (stuck_thread env main s t th Hs Hst Ht) as [(? & E)|[(? & ? & ? & E & _)|(? & ? & E & _)]]; congruence.
  - refine (good_stuck env main _ _ _ _ _ _ _ (row_of (pl_rows plan)) lo worker_bound row_positive _ s Hs Hst todos dirty Hg).
    pose proof (leaf_workers_some hints config plan start). lia.
Qed.

Lemma fitting_reliable s : rtc (step env) first s -> reliable env -> aborted (mem s) = false.
Proof. intros Hr Hrel. pose proof (reached_inv s Hr) as (_ & _ & Hok). by apply Hok. Qed.
End Fitting.

(** ** The result *)

Lemma scope_ok s : rtc (step env) first s -> scope_result s = Ok tt <-> exists th, threads s !! main = Some th /\ prog th = Ret (Ok tt).
Proof.
  intros Hr. pose proof (sh_length _ _ _ (reached_shape s Hr)) as Hlen. unfold scope_result, finished. rewrite last_lookup, Hlen. cbn [Nat.pred].
  destruct (threads s !! main) as [th|]; [|split; [done|by intros (? & ? & _)]]. split.
  - intros E. exists th. split; [done|]. destruct (prog th); try done. cbn in E. congruence.
  - by intros (th' & [= <-] & ->).
Qed.

(** A run of the builders cannot go on for ever.  When no thread can go on, all have ended:
    nobody waits for a node that is never written. *)
Lemma builders_end_lemma s : rtc (step env) first s -> stuck env s ->
  fresh source plan m -> forall t th, threads s !! t = Some th -> exists r, prog th = Ret r.
Proof.
  intros Hr Hst Hf t th Ht. pose proof (reached_shape s Hr) as Hs. destruct (aborted (mem s)) eqn:Hab; [by eapply aborted_stuck|].
  assert hints_fit as Hfit by (eapply leaves_ended_fit; [exact Hr|]; by apply (stuck_leaves s Hr)).
  destruct (proj1 (fitting_stuck Hfit Hf s Hr Hst Hab) t th Ht) as (a & ->). by exists (Ok a).
Qed.

(** If the joining thread reports success, the hints fit and everything was built. *)
Lemma builders_sound_lemma s : rtc (step env) first s -> fresh source plan m -> scope_result s = Ok tt ->
  hints_fit /\ mem_ok (node_values source hints plan) (nodes plan) (node_count plan) (entries_all source hints plan) (headers_all source plan)
    (zlength (entries_all source hints plan)) (mem s) [].
Proof.
  intros Hr Hf (th & Ht & Hp)%scope_ok; [|done]. pose proof (reached_shape s Hr) as Hs. destruct (joined_well env main s th tt Hs Ht Hp) as [Hab Hall].
  assert hints_fit as Hfit by (eapply leaves_ended_fit; [exact Hr|]; intros t th' Hlt Ht'; apply (Hall t th'); [lia|done]). split; [done|].
  apply (fitting_stuck Hfit Hf s Hr); [|done]. apply ended_stuck. intros t th' Ht'. destruct (decide (t = main)) as [->|Hne].
  - exists (Ok tt). congruence.
  - pose proof (lookup_lt_Some _ _ _ Ht') as Hlt. rewrite (sh_length _ _ _ Hs) in Hlt. destruct (Hall t th' ltac:(lia) Ht') as (a & ->). by exists (Ok a).
Qed.

(** If the hints fit and the stores do not fail, every run that cannot go on has succeeded. *)
Lemma builders_complete_lemma s : rtc (step env) first s -> stuck env s -> fresh source plan m -> hints_fit -> reliable env -> scope_result s = Ok tt.
Proof.
  intros Hr Hst Hf Hfit Hrel. pose proof (fitting_reliable Hfit Hf s Hr Hrel) as Hab. apply scope_ok; [done|].
  destruct (fitting_stuck Hfit Hf s Hr Hst Hab) as [Hall _]. pose proof (sh_length _ _ _ (reached_shape s Hr)) as Hlen.
  destruct (lookup_lt_is_Some_2 (threads s) main) as [th Ht]; [lia|]. exists th. split; [done|]. by destruct (Hall main th Ht) as ([] & ->).
Qed.
End Ends.
End BuildEnds.
