(* ===== verification/BootstrapProofs.v ===== *)
(** The bootstrap build from the first check to the summary: what a build that succeeds
    leaves on disk, and that builders with fitting hints succeed. *)

From S2P Require Import Prelude Bytes Sorting Files Positions JournalEntry Forest SteadyState Accumulator Udata BlockScan JournalFile JournalRecord HeaderIndex KernelBlocks HintScan PrefixedHints BuildThreads Bootstrap BuildRuns BuildSafety BuildFill BuildLeaves BuildPlan BuildChase BuildCover BuildStart BuildEnds.
Import Files.Files Sorting.Sorting Positions.Positions JournalEntry.JournalEntry Forest.Forest SteadyState.SteadyState Accumulator.Accumulator Udata.Udata BlockScan.BlockScan HeaderIndex.HeaderIndex KernelBlocks.KernelBlocks HintScan.HintScan BuildThreads.BuildThreads Bootstrap.Bootstrap BuildRuns.BuildRuns BuildSafety.BuildSafety BuildFill.BuildFill BuildLeaves.BuildLeaves BuildPlan.BuildPlan BuildChase.BuildChase BuildCover.BuildCover BuildStart.BuildStart BuildEnds.BuildEnds.

Module BootstrapProofs.

(** ** Checking the finished forest *)

Section Validate.
Context `{NodeHashing}.
Context (forest : FlatForest) (leaves rows : Z) (leaf : Z -> ForestNodeData).
Hypothesis rows_fit : 0 <= rows <= 63.
Hypothesis leaves_in : 0 < leaves <= 2 ^ rows.
Hypothesis leaves_u64 : is_u64 leaves.
Hypothesis all_there : forall r o, populated leaves r o -> try_read forest (pos rows r o) = Ok (Some (subtree leaf (Z.to_nat r) o)).

Definition root_of (r : Z) : ForestRoot :=
  {| root_at := pos rows r (root_off leaves r); root_row := r; root_node := subtree leaf (Z.to_nat r) (root_off leaves r) |}.

Lemma count_row r l n : 0 <= r -> (forall o, o ∈ l -> 0 <= o < leaves / 2 ^ r) ->
  foldM (fun initialized offset =>
    node ← try_read forest (pos rows r 0 + offset);
    ok_or "forest position is uninitialized" node;; Ok (initialized + 1)) l n = Ok (n + zlength l).
Proof.
  intros Hr. revert n. induction l as [|o l IH]; intros n Hl; [cbn [foldM]; unfold zlength; by rewrite Z.add_0_r|]. cbn [foldM].
  replace (pos rows r 0 + o) with (pos rows r o) by (unfold pos; lia). rewrite all_there by (split; [done|apply Hl; by left]). step_ok.
  rewrite IH by (intros; apply Hl; by right). rewrite zlength_cons. f_equal. lia.
Qed.

Lemma validate_row_eq s r : 0 <= r <= rows -> validate_row forest leaves rows s r =
  Ok (s.1 + leaves / 2 ^ r, s.2 ++ (if has_root leaves r then [root_of r] else [])).
Proof.
  intros Hr. unfold validate_row. destruct s as [n roots]. rewrite start_position_at_row_eq by done. step_ok. rewrite Z.shiftr_div_pow2 by lia.
  assert (0 <= leaves / 2 ^ r) by (apply Z.div_pos; [lia|apply pow2_pos; lia]).
  rewrite count_row; [|lia|intros o; by rewrite elem_of_zrange]. step_ok.
  assert (zlength (zrange 0 (leaves / 2 ^ r)) = leaves / 2 ^ r) as -> by (unfold zlength, zrange; rewrite length_seqZ; lia).
  destruct (has_root leaves r) eqn:Er; [|by rewrite app_nil_r]. rewrite has_root_eq in Er by lia.
  assert (pos rows r 0 + leaves / 2 ^ r - 1 = pos rows r (root_off leaves r)) as ->.
  { unfold root_off, pos. rewrite (count_parity leaves r) by lia. rewrite Er. cbn [Z.b2z]. lia. }
  rewrite all_there by (apply root_populated; [lia|lia|done]). done.
Qed.

Lemma no_roots_above r : 0 <= r <= rows -> leaves / 2 ^ r = 0 -> filter (fun r => has_root leaves r = true) (zrange r (rows + 1)) = [].
Proof.
  intros Hr Hz. apply filter_nothing. intros r' Hr'%elem_of_zrange. rewrite has_root_eq by lia. rewrite (testbit_above r leaves); [done| |lia|lia].
  apply Z.div_small_iff in Hz; [|pose proof (pow2_pos r ltac:(lia)); lia]. pose proof (pow2_pos r ltac:(lia)). lia.
Qed.

Lemma validate_rows_eq n : forall r s, 0 <= r -> r + Z.of_nat n = rows + 1 -> exists initialized,
  validate_rows forest leaves rows (zrange r (rows + 1)) s =
    Ok (initialized, s.2 ++ (root_of <$> filter (fun r => has_root leaves r = true) (zrange r (rows + 1)))).
Proof.
  induction n as [|n IH]; intros r s Hr En.
  { rewrite zrange_nil by lia. exists s.1. cbn. rewrite app_nil_r. by destruct s. }
  assert (validate_rows forest leaves rows (zrange r (rows + 1)) s =
    if Z.shiftr leaves r =? 0 then Ok s else s ← validate_row forest leaves rows s r; validate_rows forest leaves rows (zrange (r + 1) (rows + 1)) s) as ->
    by (by rewrite (zrange_cons r) by lia).
  rewrite Z.shiftr_div_pow2 by done. destruct (Z.eqb_spec (leaves / 2 ^ r) 0) as [Hz|Hz].
  - exists s.1. rewrite no_roots_above by (done || lia). cbn. rewrite app_nil_r. by destruct s.
  - rewrite validate_row_eq by lia. step_ok.
    edestruct (IH (r + 1)) as (k & ->); [lia|lia|]. exists k. cbn [snd]. rewrite (zrange_cons r (rows + 1)), filter_cons by lia.
    destruct (has_root leaves r); [by rewrite decide_True, <- app_assoc by done|by rewrite decide_False, app_nil_r by done].
Qed.

Lemma insert_last (x : ForestRoot) l : Forall (fun y => root_row x < root_row y) l -> insert_by_key root_row (fun a b => b <=? a) x l = l ++ [x].
Proof.
  induction 1 as [|y l Hy Hl IH]; [done|]. cbn [insert_by_key app]. by rewrite (proj2 (Z.leb_gt _ _)) by done; rewrite IH.
Qed.

Lemma sort_descending l : StronglySorted (fun x y => root_row x < root_row y) l -> sort_by_key root_row (fun a b => b <=? a) l = reverse l.
Proof.
  induction 1 as [|x l Hs IH Hx]; [done|]. unfold sort_by_key in *. cbn [foldr]. rewrite IH, reverse_cons. apply insert_last.
  by rewrite reverse_Permutation.
Qed.

Lemma roots_sorted P `{!forall r, Decision (P r)} a b : StronglySorted (fun x y => root_row x < root_row y) (root_of <$> filter P (zrange a b)).
Proof.
  destruct (decide (a <= b)) as [Hab|Hab]; [|by rewrite zrange_nil by lia; constructor]. remember (Z.to_nat (b - a)) as n eqn:En. revert a Hab En.
  induction n as [|n IH]; intros a Hab En; [by rewrite zrange_nil by lia; constructor|]. rewrite zrange_cons, filter_cons by lia.
  assert (StronglySorted (fun x y => root_row x < root_row y) (root_of <$> filter P (zrange (a + 1) b))) as Hs by (apply IH; lia).
  destruct (decide (P a)); [|done]. cbn [fmap list_fmap]. constructor; [done|]. apply Forall_fmap, Forall_forall.
  intros r [_ Hr%elem_of_zrange]%list_elem_of_filter. cbn. lia.
Qed.

(** The roots come out largest tree first. *)
Lemma validate_forest_roots initialized roots : validate_forest forest leaves rows = Ok (initialized, roots) ->
  (fun x => accumulator_hash (root_node x)) <$> roots = spec_roots leaf rows leaves.
Proof.
  unfold validate_forest. destruct (validate_rows_eq (Z.to_nat (rows + 1)) 0 (0, [])) as (k & ->); [lia|lia|]. step_ok. intros [= _ <-].
  cbn [snd app]. rewrite sort_descending by apply roots_sorted. unfold spec_roots. rewrite fmap_reverse, <- list_fmap_compose.
  rewrite <- fmap_reverse. unfold compose. f_equal. symmetry. apply filter_reverse.
Qed.
End Validate.

Section Build.
Context `{NodeHashing} `{Sha256} `{Sha512_256} `{LeafMapBuildLaws} `{HeaderLaws} `{HeightsLaws} `{KernelChainstate} `{!KernelHeaderLaws}
  {HintsType : Type} `{!Hints HintsType}.

(** ** New files *)

Lemma create_forest_ok disk n f : create_forest disk n = Ok f ->
  ff_count f = n /\ ff_marker f = None /\ ff_nodes f = ∅ /\ n * NODE_SIZE < 2 ^ 63.
Proof.
  unfold create_forest. intros E. apply bind_ok in E as (? & _ & E). apply bind_ok in E as (? & _ & E). apply bind_ok in E as (len & [-> _]%ok_or_ok%checked_mul_Some & E).
  apply bind_ok in E as (? & _ & E). apply bind_ok in E as (? & [_ Hlen]%ok_or_ok%try_uint_Some & E). apply bind_ok in E as (? & _ & E).
  apply bind_ok in E as (? & _ & [= <-]). refine (conj eq_refl (conj eq_refl (conj eq_refl _))). by destruct Hlen.
Qed.

Lemma create_leaf_map_ok disk n d : create_leaf_map disk n = Ok d -> forall k, db_get d k = None.
Proof.
  unfold create_leaf_map. intros E. apply bind_ok in E as (? & _ & E). apply bind_ok in E as (? & _ & E). apply bind_ok in E as (? & _ & E).
  apply bind_ok in E as (? & _ & E). apply bind_ok in E as (? & _ & E). eapply db_create_law, E.
Qed.

Lemma no_headers n : 0 <= n -> slots (zeros (Z.to_nat (n * HEADER_SIZE))) (fun _ => None).
Proof.
  intros Hn. split.
  - rewrite zlength_zeros. unfold HEADER_SIZE. rewrite Z2Nat.id by lia. apply Z_mod_mult.
  - intros h Hh. assert (zeros (Z.to_nat (n * HEADER_SIZE)) = set_len [] (n * HEADER_SIZE)) as ->.
    { unfold set_len, ztake, zeros. rewrite take_nil. cbn [app length]. by rewrite Z.sub_0_r. }
    rewrite set_len_slots; [|done|done|unfold HEADER_SIZE; unfold zlength; cbn; lia]. apply read_header_beyond; [done|].
    unfold zlength, HEADER_SIZE, is_uint in *. cbn. lia.
Qed.

Lemma create_headers_ok heights_create disk n x : (forall a b d, heights_create a b = Ok d -> hdb_view d = ∅) -> is_u32 n ->
  create_header_index heights_create disk n = Ok x -> refines x (fun _ => None) ∅.
Proof.
  intros Hempty Hn E. unfold create_header_index in E. apply bind_ok in E as (? & _ & E). apply bind_ok in E as (? & _ & E). apply bind_ok in E as (? & _ & E).
  apply bind_ok in E as ([[len buckets] body] & Es & E). apply bind_ok in E as (? & _ & E). apply bind_ok in E as (? & _ & E).
  apply bind_ok in E as (d & Ed & [= <-]). unfold create_sizes in Es. apply bind_ok in Es as (len' & [-> _]%ok_or_ok%checked_mul_Some & Es).
  apply bind_ok in Es as (? & _ & Es). apply bind_ok in Es as (? & _ & Es). apply bind_ok in Es as (? & _ & [= <- _ _]). split.
  - apply no_headers. unfold is_uint in Hn. lia.
  - exists d. split; [done|]. by rewrite (Hempty _ _ _ Ed), fmap_empty.
  - apply map_Forall_empty.
Qed.

(** The header of the genesis block is written first. *)
Lemma genesis_ok source io x x' header hash : refines x (fun _ => None) ∅ -> source_header source 0 = Ok (header, hash) ->
  put_batch io [(0, header, hash)] x = (x', Ok tt) -> exists genesis, source_block source 0 = Ok genesis /\ kb_hash genesis = header_block_hash (kb_parsed genesis) /\
    refines x' (at_height (fun _ => None) 0 (Some (kb_parsed genesis))) {[ hash_key (header_block_hash (kb_parsed genesis)) := 0 ]}.
Proof.
  intros Hr E Ep. unfold source_header in E. apply bind_ok in E as (block & Eb & E). apply bind_ok in E as (h & Eh & [= -> <-]).
  exists block. destruct (kb_header_law _ _ Eh) as [-> Ehash]. split; [done|]. split; [done|]. rewrite Ehash in Ep.
  apply (batch_refines io [(0, kb_parsed block)] x x' _ _ Hr); [|exact Ep]. split; [|split; [apply NoDup_singleton|intros; apply lookup_empty]].
  constructor; [|constructor]. split; [by vm_compute|apply kb_header_nonzero].
Qed.

(** ** Before the threads start *)

(** The widths of the configuration; no system has [2^63] threads. *)
Definition config_typed (config : ParallelForestConfig) : Prop :=
  0 <= leaf_workers config /\ 0 <= chaser_workers config < 2 ^ 63 /\ forall n, minimum_leaf_capacity config = Some n -> is_u64 n.

Lemma rows_ok config leaves rows n disk f : config_typed config -> 0 < leaves < 2 ^ 64 -> plan_rows config leaves = Ok rows ->
  forest_capacity rows = Ok n -> create_forest disk n = Ok f -> 0 <= rows <= 61 /\ leaves <= 2 ^ rows /\ n = 2 ^ (rows + 1) - 1.
Proof.
  intros (_ & _ & Hcap) Hl E En (_ & _ & _ & Hlen)%create_forest_ok. unfold plan_rows in E. set (cap := default leaves (minimum_leaf_capacity config)) in *.
  assert (is_u64 cap) as Hcu by (unfold cap; destruct (minimum_leaf_capacity config) eqn:Em; cbn; [by apply Hcap|unfold is_uint; lia]).
  apply bind_ok in E as (? & Hle%require_ok%negb_true_iff%Z.ltb_ge & [= <-]). destruct (tree_rows_fits cap Hcu ltac:(lia)) as [Hr Hfit].
  unfold forest_capacity in En. apply ok_or_ok, try_uint_Some in En as [-> Hn].
  assert (2 ^ tree_rows cap <= 2 ^ 64) by (apply pow2_le; lia).
  rewrite shl_small in *; [|lia..|]; [|pose proof (pow2_pos (tree_rows cap) ltac:(lia)); assert (2 * 2 ^ 64 < 2 ^ 128) by done; lia].
  rewrite (pow2_succ (tree_rows cap)) by lia. split; [|split; [lia|done]]. split; [lia|]. destruct (decide (tree_rows cap <= 61)) as [|Hgt]; [done|].
  pose proof (pow2_le 62 (tree_rows cap) ltac:(lia)). unfold NODE_SIZE in Hlen. assert (2 ^ 62 * 66 - 33 >= 2 ^ 63) by done. lia.
Qed.

Definition plan_of (hints : HintsType) (leaf_counts leaf_offsets : list Z) (leaves rows : Z) : Plan := {|
  pl_stop_height := hints_stop_height hints; pl_leaf_counts := leaf_counts; pl_leaf_offsets := leaf_offsets; pl_leaves := leaves; pl_rows := rows |}.

Lemma startable_ok hints config leaf_counts leaf_offsets leaves rows n disk f :
  hints_typed hints -> hints_stop_height hints < 2 ^ 32 - 1 -> config_typed config -> validate_config config = Ok tt ->
  plan_leaves hints = Ok (leaf_counts, leaf_offsets, leaves) -> plan_rows config leaves = Ok rows -> forest_capacity rows = Ok n -> create_forest disk n = Ok f ->
  startable hints config (plan_of hints leaf_counts leaf_offsets leaves rows) /\ n = node_count (plan_of hints leaf_counts leaf_offsets leaves rows).
Proof.
  intros Ht Hstop Hc Ev Ep Er En Ef. pose proof (plan_leaves_ok _ _ _ _ Ht Ep) as Hp. destruct (rows_ok _ _ _ _ _ _ Hc (pn_some _ _ _ _ Hp) Er En Ef) as (Hrows & Hle & Hn).
  unfold validate_config in Ev. apply bind_ok in Ev as (? & Hlw%require_ok%negb_true_iff%Z.eqb_neq & Hcw%require_ok%negb_true_iff%Z.eqb_neq).
  destruct Hc as (Hc1 & Hc2 & _). split; [|exact Hn]. split; cbn; try done; lia.
Qed.

(** ** What is on disk at the end *)

(** The header index, opened again, knows the block of every height, and the height of every
    block as long as their hashes have distinct keys. *)
Definition index_serves (source : KernelChain) (plan : Plan) (file : File) (heights : HeightsFile) : Prop :=
  forall x, open_index file heights = Ok x -> forall h, 0 <= h <= pl_stop_height plan -> exists block, source_block source h = Ok block /\
    get_by_height x h = Ok (Some (kb_parsed block)) /\
    (NoDup ((fun e => hash_key (header_block_hash e.2)) <$> headers_all source plan) -> forall r, get_height x (kb_hash block) = Ok r -> r = Some h).

Lemma opened_ok file heights x Hs K : slots file Hs -> file_view heights = le_bytes 8 <$> K -> map_Forall (fun _ h => is_u32 h) K ->
  open_index file heights = Ok x -> refines x Hs K.
Proof.
  intros Hsl Hv Hk E. unfold open_index in E. apply bind_ok in E as (? & _ & E). destruct (ensure_runtime_body_headroom _ _) as [h r] eqn:Eh.
  apply bind_ok in E as (? & _ & E). apply bind_ok in E as (d & Ed & [= <-]). split; [done| |done]. exists d. split; [done|].
  by rewrite (open_view _ _ Ed), (ensure_view _ _ _ _ Eh).
Qed.

Lemma opened_get file heights x Hs h : slots file Hs -> open_index file heights = Ok x -> is_u32 h -> get_by_height x h = Ok (Hs h).
Proof.
  intros [_ Hsl] E Hh. unfold open_index in E. apply bind_ok in E as (? & _ & E). destruct (ensure_runtime_body_headroom _ _) as [hf r] eqn:Eh.
  apply bind_ok in E as (? & _ & E). apply bind_ok in E as (d & Ed & [= <-]). by apply Hsl.
Qed.

Lemma served source hints config plan m heights : startable hints config plan -> hints_fit source hints plan ->
  (exists genesis, source_block source 0 = Ok genesis /\ kb_hash genesis = header_block_hash (kb_parsed genesis)) ->
  headers_ok (headers_all source plan) (m_headers m) [] -> (exists d, HeaderIndex.heights (m_headers m) = Some d /\ hdb_close d = (heights, Ok tt)) ->
  index_serves source plan (now (headers (m_headers m))) heights.
Proof.
  intros Hst Hfit (genesis & Eg & Egh) (Hs & K & Hsl & _ & Hall & Hkeys) (d & Ed & Hclose) x Ex h Hh.
  assert (exists block, source_block source h = Ok block /\ kb_hash block = header_block_hash (kb_parsed block)) as (block & Eb & Ehash).
  { destruct (decide (h = 0)) as [->|Hne]; [by exists genesis|]. destruct (Hfit h) as (d0 & Ed0 & _).
    - unfold heights_of. rewrite <- (st_stop _ _ _ Hst). apply elem_of_zrange. lia.
    - apply height_data_Some in Ed0 as (_ & _ & _ & Eb & Eh). exists (hd_block d0). split; [done|]. by apply (kb_header_law _ _ Eh). }
  assert ((h, kb_parsed block) ∈ headers_all source plan) as Hin.
  { unfold headers_all. apply BlockScan.elem_of_concat_fmap. exists h. split; [apply elem_of_zrange; lia|]. unfold parsed_at. rewrite Eb. by left. }
  pose proof (Hall _ Hin ltac:(cbn; apply not_elem_of_nil)) as Hh1. cbn [fst snd] in *. exists block. split_and!; [done| |].
  - rewrite (opened_get _ _ _ _ _ Hsl Ex); [by rewrite Hh1|]. pose proof (stop_ok hints config plan Hst). unfold is_uint. lia.
  - intros Hnd r Er. destruct (Hkeys Hnd) as ([_ (d' & Ed' & Hv) Hk] & Hpend). assert (d' = d) as -> by congruence.
    pose proof (hdb_close_view _ _ Hclose) as Hf. rewrite Hv in Hf.
    apply (refines_answers x Hs K (opened_ok _ _ _ _ _ Hsl Hf Hk Ex)) in Er as ->. unfold lookup_height. rewrite Ehash.
    pose proof (proj1 (Hpend _ Hin) ltac:(cbn; apply not_elem_of_nil)) as Hh2. unfold header_key in Hh2. cbn [fst snd] in Hh2.
    rewrite Hh2. cbn [mbind option_bind]. rewrite Hh1. cbn [mbind option_bind]. by rewrite bool_decide_eq_true_2.
Qed.

(** The hints fit the blocks, and the forest, the leaf map and the header index are what the
    two say. *)
Record correct_build (source : KernelChain) (hints : HintsType) (plan : Plan) (built : Built) : Prop := {
  cb_hints : hints_fit source hints plan;
  cb_leaves : bt_leaves built = pl_leaves plan;
  cb_forest : wf_forest (read_with_overlay (bt_forest built) ∅) (pl_rows plan) (pl_leaves plan) (leaf_values source hints plan);
  cb_zero : forall p, p ∉ nodes plan -> node_at (bt_forest built) p = zero_node;
  cb_size : ff_count (bt_forest built) = bt_file_nodes built /\ forest_capacity (pl_rows plan) = Ok (bt_file_nodes built);
  cb_roots : (fun x => accumulator_hash (root_node x)) <$> bt_roots built = spec_roots (leaf_values source hints plan) (pl_rows plan) (pl_leaves plan);
  cb_entries : bt_leaf_map_entries built = zlength (entries_all source hints plan);
  cb_map : NoDup (entries_all source hints plan).*1 -> forall k, db_get (bt_leaf_map built) k = last_write k (entries_all source hints plan);
  cb_headers : index_serves source plan (bt_header_file built) (bt_heights built)
}.

Lemma forest_is_built hints config plan f leaf : startable hints config plan -> forest_ok (node_of leaf (pl_rows plan)) (nodes plan) (node_count plan) f [] ->
  forall r o, populated (pl_leaves plan) r o -> try_read f (pos (pl_rows plan) r o) = Ok (Some (subtree leaf (Z.to_nat r) o)).
Proof.
  intros Hst [Hc _ Hr _] r o Hp. pose proof (rows_63 _ _ _ Hst). pose proof (leaves_fit_rows _ _ _ Hst). pose proof (leaves_63 _ _ _ Hst).
  assert (valid (pl_rows plan) r o) as Hv by (eapply populated_valid; [done| | |exact Hp]; [unfold is_uint; lia|lia]).
  assert (pos (pl_rows plan) r o ∈ nodes plan) as Hin by (apply elem_of_forest_nodes; [done..|by exists r, o]).
  rewrite try_read_eq.
  - rewrite Hr by (done || apply not_elem_of_nil). by rewrite node_of_pos.
  - rewrite Hc. by apply forest_nodes_in in Hin as [_ ?].
Qed.

Lemma start_fresh_ok source (plan : Plan) disk forest db x genesis : create_forest disk (node_count plan) = Ok forest -> (forall k, db_get db k = None) ->
  source_block source 0 = Ok genesis ->
  refines x (at_height (fun _ => None) 0 (Some (kb_parsed genesis))) {[ hash_key (header_block_hash (kb_parsed genesis)) := 0 ]} ->
  fresh source plan (fresh_mem forest db x).
Proof. intros (Ec & Em & En & _)%create_forest_ok Hdb Eg Hr. split; try done. by exists genesis. Qed.

(** What the builders have done when [run_builders] succeeds. *)
Lemma run_builders_ok source hints config sysconf plan header_io schedule m m' : startable hints config plan -> fresh source plan m ->
  mutex m = None -> aborted m = false -> next_chunk m = 0 ->
  run_builders source hints config sysconf plan header_io schedule m = Ok m' ->
  hints_fit source hints plan /\ mem_ok (node_values source hints plan) (nodes plan) (node_count plan) (entries_all source hints plan)
    (headers_all source plan) (zlength (entries_all source hints plan)) m' [].
Proof.
  intros Hst Hf Hmx Hab Hn E. unfold run_builders in E. apply bind_ok in E as ([] & Es & [= <-]).
  eapply builders_sound_lemma; try done. apply run_schedule_steps.
Qed.

Lemma build_ends source hints config disk plan m leaf_map header_file heights n initialized roots :
  startable hints config plan -> hints_fit source hints plan ->
  (exists genesis, source_block source 0 = Ok genesis /\ kb_hash genesis = header_block_hash (kb_parsed genesis)) ->
  mem_ok (node_values source hints plan) (nodes plan) (node_count plan) (entries_all source hints plan)
    (headers_all source plan) (zlength (entries_all source hints plan)) m [] ->
  forest_capacity (pl_rows plan) = Ok (node_count plan) ->
  validate_forest (m_forest m) (pl_leaves plan) (pl_rows plan) = Ok (initialized, roots) ->
  db_close (m_leaf_map m) = Ok leaf_map -> close_headers disk (m_headers m) = Ok (header_file, heights) ->
  correct_build source hints plan {| bt_forest := m_forest m; bt_leaf_map := leaf_map; bt_header_file := header_file; bt_heights := heights;
    bt_leaves := pl_leaves plan; bt_initialized_nodes := initialized; bt_file_nodes := node_count plan;
    bt_leaf_map_entries := leaf_map_entries m; bt_file_bytes := n; bt_roots := roots |}.
Proof.
  intros Hst Hfit Hgen [Hfo _ Hdb [_ Hent] Hhd _ _] Ecap Ev Ec Eh. pose proof (forest_is_built _ _ _ _ _ Hst Hfo) as Hbuilt.
  pose proof (rows_63 _ _ _ Hst). pose proof (leaves_fit_rows _ _ _ Hst). pose proof (leaves_63 _ _ _ Hst).
  split; cbn [bt_forest bt_leaf_map bt_header_file bt_heights bt_leaves bt_file_nodes bt_leaf_map_entries bt_roots].
  - done.
  - done.
  - intros r o Hp. unfold read_with_overlay. rewrite lookup_empty, Hbuilt by done. done.
  - intros p Hp. apply (fo_zero _ _ _ _ _ Hfo). by right.
  - split; [apply (fo_count _ _ _ _ _ Hfo)|done].
  - eapply (validate_forest_roots (m_forest m) (pl_leaves plan) (pl_rows plan)); [done|done|exact Hbuilt|exact Ev].
  - change (counted []) with (@nil Z) in Hent. unfold total in Hent. cbn [foldr] in Hent. lia.
  - intros Hnd k. rewrite (db_close_law _ _ Ec). destruct (Hdb Hnd) as (written & Hw & Hg). rewrite Hg. change (puts []) with (@nil (bytes * bytes)) in Hw.
    rewrite app_nil_r in Hw. apply option_eq. intros v. assert (NoDup written.*1) as Hndw by by rewrite Hw.
    split; intros Hl%last_write_Some_elem; apply last_write_unique; [done|by rewrite <- Hw|done|by rewrite Hw].
  - unfold close_headers in Eh. apply bind_ok in Eh as (d & Ed%ok_or_ok & Eh). destruct (hdb_close d) as [file r] eqn:Eclose.
    apply bind_ok in Eh as (? & _ & Eh). apply bind_ok in Eh as ([] & -> & [= <- <-]). eapply served; [done|done|done|exact Hhd|]. by exists d.
Qed.

(** C6: A build that succeeds, under any interleaving of its threads, had hints that fit the
    blocks of every height; the forest it leaves is well formed over the leaves of those blocks,
    spent exactly where the hints do not name them, with nothing beside its nodes; its roots are
    the accumulator's; the leaf map holds the positions of the hinted leaves and nothing else,
    as many as are reported; and the header index, opened again, answers for every height. *)
Theorem bootstrap_build_correct source hints config sysconf disk heights_create header_io count_schedule schedule built
    (Ht : hints_typed hints) (Hstop : hints_stop_height hints < 2 ^ 32 - 1) (Hc : config_typed config)
    (Hempty : forall buckets capacity d, heights_create buckets capacity = Ok d -> hdb_view d = ∅)
    (E : build_parallel_forest source hints config sysconf disk heights_create header_io count_schedule schedule = Ok built) :
  exists leaf_counts leaf_offsets leaves rows,
    plan_leaves hints = Ok (leaf_counts, leaf_offsets, leaves) /\ plan_rows config leaves = Ok rows /\
    correct_build source hints (plan_of hints leaf_counts leaf_offsets leaves rows) built.
Proof.
  unfold build_parallel_forest in E. apply bind_ok in E as (? & _ & E). unfold build_with_source in E. apply bind_ok in E as ([] & Ev & E).
  apply bind_ok in E as ([[leaf_counts leaf_offsets] leaves] & Ep & E). apply bind_ok in E as (live & _ & E). apply bind_ok in E as (rows & Er & E).
  exists leaf_counts, leaf_offsets, leaves, rows. split; [done|]. split; [done|]. set (plan := plan_of hints leaf_counts leaf_offsets leaves rows).
  apply bind_ok in E as (n & En & E). apply bind_ok in E as (db & Edb & E). apply bind_ok in E as (idx & Ex & E). apply bind_ok in E as ([header hash] & Eg & E).
  destruct (put_batch _ _ _) as [idx' r] eqn:Eput. apply bind_ok in E as ([] & -> & E). apply bind_ok in E as (forest & Ef & E).
  destruct (startable_ok _ _ _ _ _ _ _ _ _ Ht Hstop Hc Ev Ep Er En Ef) as [Hst Hn]. fold (plan_of hints leaf_counts leaf_offsets leaves rows) in E. fold plan in E. subst n.
  apply (create_headers_ok _ _ _ _ Hempty (ht_stop _ Ht)) in Ex. destruct (genesis_ok _ _ _ _ _ _ Ex Eg Eput) as (genesis & Egb & Egh & Hr).
  apply bind_ok in E as (m & Em & E). apply bind_ok in E as ([initialized roots] & Eval & E).
  destruct (run_builders_ok _ _ _ _ _ _ _ _ _ Hst (start_fresh_ok _ _ _ _ _ _ _ Ef (create_leaf_map_ok _ _ _ Edb) Egb Hr) eq_refl eq_refl eq_refl Em) as [Hfit Hmem].
  apply bind_ok in E as (? & _ & E). apply bind_ok in E as (? & _ & E). apply bind_ok in E as (leaf_map & Ecl & E).
  apply bind_ok in E as ([header_file heights] & Ech & E). apply bind_ok in E as (bytes & _ & [= <-]).
  eapply (build_ends source hints config disk plan); try done. by exists genesis.
Qed.

(** C7: The builders cannot deadlock.  From the state in which they start, no schedule keeps them
    going for ever; and when no thread can go on, every one of them has returned, so nobody sleeps
    on a node that is never written, whether the build was aborted or not.  The result is then
    a success only if the hints fit the blocks, and it is one if they do and no store fails. *)
Theorem builders_finish source hints config sysconf plan header_io forest db x
    (Hst : startable hints config plan) (Hf : fresh source plan (fresh_mem forest db x)) :
  let env := builder_env config plan header_io in
  let first := start_builders source hints config sysconf plan env (fresh_mem forest db x) in
  Acc (fun s' s => step env s s') first /\
  forall s, rtc (step env) first s -> (forall t, step_thread env s t = None) ->
    (forall t th, threads s !! t = Some th -> exists r, finished th = Some r) /\
    (scope_result s = Ok tt -> hints_fit source hints plan) /\
    (hints_fit source hints plan -> reliable env -> scope_result s = Ok tt).
Proof.
  intros env first. split; [apply runs_end|]. intros s Hr Hstuck. split_and!.
  - intros t th Ht. destruct (builders_end_lemma source hints config sysconf plan header_io Hst (fresh_mem forest db x) eq_refl eq_refl eq_refl s Hr Hstuck Hf t th Ht) as (r & E).
    exists r. unfold finished. by rewrite E.
  - intros E. by apply (builders_sound_lemma source hints config sysconf plan header_io Hst (fresh_mem forest db x) eq_refl eq_refl eq_refl s Hr Hf E).
  - intros Hfit Hrel. by apply (builders_complete_lemma source hints config sysconf plan header_io Hst (fresh_mem forest db x) eq_refl eq_refl eq_refl s Hr Hstuck Hf Hfit Hrel).
Qed.
End Build.

(** ** A concrete build: three blocks, of which the last spends an output of the second *)

Section Demo.
#[local] Existing Instances toy_hashing toy_db small_db small_db_laws raw_headers raw_headers_laws.
#[local] Instance demo_sha256 : Sha256 := fun bs => le_bytes 32 (le_value (reverse bs)).
#[local] Instance demo_digest : Sha512_256 := fun bs => replicate 32 (default 0 (last bs)).

#[local] Instance demo_leaf_map : LeafMapBuild := {|
  db_create := fun _ _ => Ok (∅ : gmap bytes bytes);
  db_write_only := fun _ => Ok tt;
  writer_put_batch := fun d kvs => (write_all (d : gmap bytes bytes) kvs, Ok (zlength kvs));
  db_close := fun d => Ok d |}.
#[local] Instance demo_leaf_map_laws : LeafMapBuildLaws.
Proof.
  split.
  - intros ? ? d [= <-] k. apply lookup_empty.
  - by intros d kvs d' n [= _ <-].
  - intros d kvs d' n [= <- _] _ _ k. apply write_all_lookup.
  - by intros d d' [= <-] k.
Qed.

Definition demo_header (n : Z) : Header := HeaderIndex.header_of (1 + n mod 200).
#[local] Instance demo_kernel : KernelData := {|
  KernelBlock := Z * list PrefixedHints.plain_tx; KernelTx := PrefixedHints.plain_tx;
  kb_hash := fun b => header_block_hash (demo_header b.1); kb_transactions := snd; kb_header := fun b => Ok (header_encode (demo_header b.1));
  kt_txid := fun t => replicate 32 (PrefixedHints.pt_id t); kt_inputs := PrefixedHints.pt_in; kt_outputs := PrefixedHints.pt_out;
  outpoint_is_null := fun o => bool_decide (txid o = zeros 32) |}.
#[local] Instance demo_chainstate : KernelChainstate :=
  @Build_KernelChainstate demo_kernel (list (list PrefixedHints.plain_tx)) (Z * list PrefixedHints.plain_tx)
    (fun c h => (fun b => (h, b)) <$> zlookup c h) (fun _ b => Ok b).
#[local] Instance demo_kernel_laws : KernelHeaderLaws.
Proof.
  refine (@Build_KernelHeaderLaws demo_kernel raw_headers (fun b => demo_header b.1) _ _).
  - by intros block bs [= <-].
  - intros block E. apply (f_equal (fun l => l !! 0%nat)) in E. cbn in E. injection E as E. pose proof (Z.mod_pos_bound block.1 200).
    rewrite Z.mod_small in E; lia.
Defined.

(** Per height, the number of leaves and the indices of the unspent ones. *)
#[local] Instance demo_hints : Hints (list (Z * list Z)) := {|
  hints_stop_height := zlength;
  hints_leaf_count := fun l h => fst <$> zlookup l (h - 1);
  hints_indices := fun l h => snd <$> zlookup l (h - 1) |}.
Definition demo_table : list (Z * list Z) := [(2, [1]); (2, [0; 1])].
Definition demo_chain : KernelChain := @Build_KernelChain demo_kernel demo_chainstate PrefixedHints.plain_blocks 2.
Definition demo_config : ParallelForestConfig :=
  {| minimum_leaf_capacity := Some 5; leaf_workers := 1; chaser_workers := 1; spin_iterations := 1 |}.
Definition demo_disk : Disk := {|
  leaf_map_exists := false; header_file_exists := false; header_index_exists := false; dirs_ok := true; file_ok := true;
  stale_forest := {| ff_nodes := ∅; ff_count := 0; ff_marker := None |}; allocate_ok := fun _ => true; flush_ok := true; sync_ok := true |}.
(** The three threads take turns. *)
Definition demo_schedule : list nat := concat (replicate 30 [0; 1; 2]%nat).
Definition demo_heights_create (buckets capacity : Z) : result HDb := Ok ((∅ : gmap bytes bytes), 0%nat).
Abbreviation demo_build :=
  (build_parallel_forest demo_chain demo_table demo_config 4096 demo_disk demo_heights_create (fun _ _ => true) [0; 0; 0]%nat demo_schedule).

Lemma demo_typed : hints_typed demo_table.
Proof.
  split; [unfold is_uint; by vm_compute| |]; intros h v _; cbn [hints_leaf_count hints_indices demo_hints]; intros ([n l] & Hl & [= <-])%fmap_Some;
    apply zlookup_Some in Hl as [_ Hl%list_elem_of_lookup_2]; unfold demo_table in Hl; rewrite !elem_of_cons, elem_of_nil in Hl;
    destruct Hl as [[= -> ->]|[[= -> ->]|[]]]; cbn [fst snd]; rewrite ?Forall_cons; unfold is_uint; split_and?; try lia; constructor.
Qed.

Lemma demo_config_typed : config_typed demo_config.
Proof. split; [cbn; lia|]. split; [cbn; lia|]. intros n [= <-]. unfold is_uint. lia. Qed.

Lemma bootstrap_build_correct_witness : exists built leaf_counts leaf_offsets leaves rows,
  demo_build = Ok built /\ (bt_leaves built, bt_file_nodes built, bt_leaf_map_entries built) = (4, 15, 3) /\
  correct_build demo_chain demo_table (plan_of demo_table leaf_counts leaf_offsets leaves rows) built.
Proof.
  assert ((match demo_build with Ok b => Some (bt_leaves b, bt_file_nodes b, bt_leaf_map_entries b) | Err _ => None end) = Some (4, 15, 3)) as Hd by (vm_compute; reflexivity).
  destruct demo_build as [built|] eqn:E; [|discriminate Hd]. injection Hd as Hleaves Hnodes Hentries.
  destruct (bootstrap_build_correct demo_chain demo_table demo_config 4096 demo_disk demo_heights_create (fun _ _ => true) [0; 0; 0]%nat demo_schedule built
    demo_typed ltac:(vm_compute; reflexivity) demo_config_typed ltac:(by intros ? ? d [= <-]) E) as (c & o & n & r & _ & _ & Hb).
  exists built, c, o, n, r. split; [reflexivity|]. split; [congruence|exact Hb].
Defined.

Definition demo_plan : Plan := plan_of demo_table [2; 2] [0; 2] 4 3.

Lemma demo_build_startable : startable demo_table demo_config demo_plan.
Proof.
  destruct (create_forest demo_disk 15) as [f|] eqn:Ef; [|discriminate Ef].
  by apply (startable_ok demo_table demo_config [2; 2] [0; 2] 4 3 15 demo_disk f demo_typed ltac:(vm_compute; reflexivity) demo_config_typed).
Qed.

Definition demo_db : Db := (∅ : gmap bytes bytes).
Definition demo_forest : FlatForest := set_count (stale_forest demo_disk) 15.
(** The header file with the header of the genesis block, and its height. *)
Definition demo_headers : HeaderIndex :=
  match create_header_index demo_heights_create demo_disk 2, source_header demo_chain 0 with
  | Ok x, Ok (header, block_hash) => (put_batch (fun _ => true) [(0, header, block_hash)] x).1
  | _, _ => {| headers := Files.synced []; heights := None |}
  end.

Lemma demo_fresh : fresh demo_chain demo_plan (fresh_mem demo_forest demo_db demo_headers).
Proof.
  assert (exists x header hash, create_header_index demo_heights_create demo_disk 2 = Ok x /\ source_header demo_chain 0 = Ok (header, hash) /\
    put_batch (fun _ => true) [(0, header, hash)] x = (demo_headers, Ok tt)) as (x & header & hash & Ex & Eg & Ep).
  { eexists _, _, _. split; [vm_compute; reflexivity|]. split; [vm_compute; reflexivity|]. vm_compute. reflexivity. }
  apply (create_headers_ok demo_heights_create) in Ex; [|by intros ? ? d [= <-]|unfold is_uint; lia].
  destruct (genesis_ok _ _ _ _ _ _ Ex Eg Ep) as (genesis & Hg & _ & Hr).
  eapply (start_fresh_ok demo_chain demo_plan demo_disk demo_forest); [by vm_compute| |exact Hg|exact Hr]. intros k. apply lookup_empty.
Qed.

Lemma no_such_thread env (s : Sys unit) t : threads s !! t = None -> step_thread env s t = None.
Proof. intros E. unfold step_thread. by rewrite E. Qed.

Lemma builders_finish_witness :
  let env := builder_env demo_config demo_plan (fun _ _ => true) in
  let first := start_builders demo_chain demo_table demo_config 4096 demo_plan env (fresh_mem demo_forest demo_db demo_headers) in
  Acc (fun s' s => step env s s') first /\ scope_result (run_schedule env demo_schedule first) = Ok tt /\ hints_fit demo_chain demo_table demo_plan.
Proof.
  intros env first.
  destruct (builders_finish demo_chain demo_table demo_config 4096 demo_plan (fun _ _ => true) demo_forest demo_db demo_headers demo_build_startable demo_fresh) as [Hacc Hend].
  split; [exact Hacc|]. assert (scope_result (run_schedule env demo_schedule first) = Ok tt) as Hok by (vm_compute; reflexivity). split; [exact Hok|].
  refine (proj1 (proj2 (Hend _ (run_schedule_steps _ _ _) _)) Hok). intros t. change (step_thread env (run_schedule env demo_schedule first) t = None).
  set (last := run_schedule env demo_schedule first).
  assert (forallb (fun t => if step_thread env last t then false else true) (seq 0 (length (threads last))) = true) as Hall by (vm_compute; reflexivity).
  rewrite forallb_forall in Hall. clearbody last. destruct (threads last !! t) as [th|] eqn:Et; [|by apply no_such_thread].
  specialize (Hall t). destruct (step_thread env last t); [|done]. discriminate Hall. apply in_seq. apply lookup_lt_Some in Et. lia.
Defined.
End Demo.
End BootstrapProofs.
