(* ===== verification/BootstrapHints.v ===== *)
(** From the hints tool to the bootstrap build: the hints that [bridge-hints] writes fit the
    blocks it read, and what they say about each leaf. *)

From S2P Require Import Prelude Bytes Sorting Files Positions JournalEntry Forest SteadyState Accumulator Udata BlockScan JournalFile JournalRecord HeaderIndex KernelBlocks HintScan PrefixedHints BuildThreads Bootstrap BuildRuns BuildSafety BuildFill BuildLeaves BuildPlan BuildChase BuildCover BuildStart BuildEnds BootstrapProofs.
Import Files.Files Sorting.Sorting Positions.Positions JournalEntry.JournalEntry Forest.Forest SteadyState.SteadyState Accumulator.Accumulator Udata.Udata BlockScan.BlockScan HeaderIndex.HeaderIndex KernelBlocks.KernelBlocks HintScan.HintScan PrefixedHints.PrefixedHints BuildThreads.BuildThreads Bootstrap.Bootstrap BuildRuns.BuildRuns BuildSafety.BuildSafety BuildFill.BuildFill BuildLeaves.BuildLeaves BuildPlan.BuildPlan BuildChase.BuildChase BuildCover.BuildCover BuildStart.BuildStart BuildEnds.BuildEnds BootstrapProofs.BootstrapProofs.

Module BootstrapHints.

Section Fit.
Context `{NodeHashing} `{Sha256} `{Sha512_256} `{LeafMapBuildLaws} `{HeaderLaws} `{HeightsLaws} `{KernelChainstate} `{!KernelHeaderLaws} `{HintsfileLib}.
Context (kernel : KernelChain) (stop : Z) (b : BridgeHints).
Hypothesis right : right_hints kernel stop b.
(** Values are amounts, and headers can be encoded. *)
Hypothesis readable : forall h block, 1 <= h <= stop -> block_at_height kernel h = Ok block ->
  values_fit block /\ is_ok (kb_header block) = true.
Context (counts offsets : list Z) (leaves rows : Z).
Hypothesis stop_fits : is_u32 stop.

Lemma right_typed : hints_typed b.
Proof.
  split; cbn [hints_stop_height hints_leaf_count hints_indices bridge_hints_are_hints]; rewrite (rh_stop _ _ _ right); [done| |].
  - intros h n Hh. destruct (rh_heights _ _ _ right h Hh) as (block & l & _ & -> & [H32 _] & _). intros [= <-]. unfold is_uint in *. lia.
  - intros h l Hh. destruct (rh_heights _ _ _ right h Hh) as (block & l' & Eb & _ & [H32 _] & -> & _ & Hin). intros [= <-].
    apply (sorted_indices_fit _ _ H32). intros i (o & _ & (b2 & Eb2 & Hb2) & _)%Hin. rewrite Eb in Eb2. injection Eb2 as <-.
    unfold eligible_outpoints. by eapply zlookup_lt.
Qed.

Hypothesis plan_ok : plan_leaves b = Ok (counts, offsets, leaves).

Lemma right_planned : planned b counts offsets leaves.
Proof. apply plan_leaves_ok; [apply right_typed|done]. Qed.

Abbreviation data := (height_data kernel b counts offsets).

Lemma source_block_eq h block : 1 <= h <= stop -> block_at_height kernel h = Ok block -> source_block kernel h = Ok block.
Proof. intros Hh E. unfold source_block. pose proof (rh_range _ _ _ right). rewrite (proj2 (Z.ltb_ge _ _)) by lia. exact E. Qed.

(** Everything the build looks up for a height, and what the hints say. *)
Lemma right_data h : 1 <= h <= stop -> exists d, data h = Some d /\ block_at_height kernel h = Ok (hd_block d) /\
  hd_count d = zlength (eligible (hd_block d)) /\ is_u32 (hd_count d) /\ indices_fit (hd_block d) /\
  zlookup offsets (h - 1) = Some (hd_offset d) /\ StronglySorted Z.lt (hd_unspent d) /\
  forall i, i ∈ hd_unspent d <-> exists o, unspent_leaf kernel stop h i o.
Proof.
  intros Hh. destruct (rh_heights _ _ _ right h Hh) as (block & l & Eb & Ec & [H32 Hidx] & El & Hs & Hin).
  destruct (readable h block Hh Eb) as [_ Hhd]. destruct (kb_header block) as [header|] eqn:Ehd; [|done].
  pose proof right_planned as [_ Hlen Hcounts _ Hoffs _ _]. cbn [hints_stop_height hints_leaf_count bridge_hints_are_hints] in *.
  rewrite (rh_stop _ _ _ right) in *. destruct (Hcounts h Hh) as (n & En & Hn). rewrite Ec in En. injection En as <-.
  destruct (zlookup_is_Some offsets (h - 1)) as [offset Hoff].
  { rewrite Hoffs. unfold zlength in *. rewrite length_starts. lia. }
  exists {| hd_count := zlength (eligible_outpoints block); hd_offset := offset; hd_unspent := l; hd_block := block; hd_header := header |}.
  split; [|by cbn; unfold eligible_outpoints in *; rewrite zlength_fmap in *]. unfold height_data. rewrite Hn, Hoff. cbn [mbind option_bind hints_indices bridge_hints_are_hints].
  rewrite El. cbn [mbind option_bind]. rewrite (source_block_eq h block Hh Eb). cbn [ok mbind option_bind]. by rewrite Ehd.
Qed.

(** ** The lists of a block, at one leaf *)

Lemma nodes_at_leaf h unspent block xs i k x : zlookup xs k = Some x ->
  zlookup (leaves_nodes h unspent block xs i) k = Some (leaf_node h unspent (i + k) (leaf_output h block x)).
Proof.
  intros [Hk Hx]%zlookup_Some. apply zlookup_Some. split; [done|]. replace (i + k) with (i + Z.of_nat (Z.to_nat k)) by lia.
  revert i Hx. generalize (Z.to_nat k). clear k Hk. intros k. revert k. induction xs as [|y xs IH]; intros [|k] i Hx; try done.
  - injection Hx as ->. cbn. by rewrite Z.add_0_r.
  - transitivity (leaves_nodes h unspent block xs (i + 1) !! k); [done|]. rewrite (IH k (i + 1) Hx). by replace (i + 1 + Z.of_nat k) with (i + Z.of_nat (S k)) by lia.
Qed.

Lemma entries_of_leaves h unspent offset block xs i e : e ∈ leaves_entries h unspent offset block xs i <->
  exists k x, zlookup xs k = Some x /\ hinted unspent (i + k) (leaf_output h block x) = true /\ e = leaf_entry (offset + (i + k)) (leaf_output h block x).
Proof.
  revert i. induction xs as [|y xs IH]; intros i; cbn [leaves_entries].
  { rewrite elem_of_nil. split; [done|]. by intros (k & x & [_ Hx]%zlookup_Some & _). }
  rewrite elem_of_app, IH. split.
  - intros [He|(k & x & [Hk Hx]%zlookup_Some & Hh & ->)].
    + destruct (hinted unspent i _) eqn:Eh; [|by apply elem_of_nil in He]. apply list_elem_of_singleton in He as ->. exists 0, y. by rewrite Z.add_0_r.
    + exists (k + 1), x. replace (i + (k + 1)) with (i + 1 + k) by lia. split; [|done]. apply zlookup_Some. split; [lia|].
      by replace (Z.to_nat (k + 1)) with (S (Z.to_nat k)) by lia.
  - intros (k & x & [Hk Hx]%zlookup_Some & Hh & ->). destruct (decide (k = 0)) as [->|Hne].
    + left. injection Hx as ->. rewrite Z.add_0_r in *. rewrite Hh. by left.
    + right. exists (k - 1), x. replace (i + 1 + (k - 1)) with (i + k) by lia. split; [|done]. apply zlookup_Some. split; [lia|].
      by replace (Z.to_nat k) with (S (Z.to_nat (k - 1))) in Hx by lia.
Qed.

Lemma all_leaves_fit h unspent block xs i : 
  (forall k x, zlookup xs k = Some x -> is_u64 (ko_value x.2) /\ leaf_allowed unspent (i + k) (leaf_output h block x)) -> leaves_fit h unspent block xs i.
Proof.
  revert i. induction xs as [|y xs IH]; intros i Hall; [done|]. cbn [leaves_fit]. split.
  - specialize (Hall 0 y eq_refl). by rewrite Z.add_0_r in Hall.
  - apply IH. intros k x [Hk Hx]%zlookup_Some. replace (i + 1 + k) with (i + (k + 1)) by lia. apply Hall. apply zlookup_Some. split; [lia|].
    by replace (Z.to_nat (k + 1)) with (S (Z.to_nat k)) by lia.
Qed.

Lemma outpoint_of_leaf block i o : zlookup (eligible_outpoints block) i = Some o <-> exists x, zlookup (eligible block) i = Some x /\ x.1.2 = o.
Proof.
  unfold eligible_outpoints. split.
  - intros [Hi (x & -> & Hx)%list_lookup_fmap_Some]%zlookup_Some. exists x. split; [|done]. by apply zlookup_Some.
  - intros (x & [Hi Hx]%zlookup_Some & <-). apply zlookup_Some. split; [done|]. by rewrite list_lookup_fmap, Hx.
Qed.

(** ** The hints fit *)

Abbreviation plan := (plan_of b counts offsets leaves rows).

Lemma in_heights h : h ∈ heights_of b <-> 1 <= h <= stop.
Proof. unfold heights_of. rewrite elem_of_zrange. cbn. rewrite (rh_stop _ _ _ right). lia. Qed.

(** An index is hinted if and only if its leaf is unspent. *)
Lemma hinted_leaf h d i x : 1 <= h <= stop -> data h = Some d -> zlookup (eligible (hd_block d)) i = Some x ->
  i ∈ hd_unspent d <-> bip30_excluded_outpoint h <> Some x.1.2 /\ forall h', h < h' <= stop -> ~ spent_by kernel h' x.1.2.
Proof.
  intros Hh Ed Hx. destruct (right_data h Hh) as (d' & Ed' & Eb & _ & _ & _ & _ & _ & Hin). assert (d' = d) as -> by congruence.
  assert (zlookup (eligible_outpoints (hd_block d)) i = Some x.1.2) as Ho by (apply outpoint_of_leaf; by exists x). rewrite Hin. split.
  - intros (o & _ & (block & Eb' & Ho') & Hb & Hn). assert (block = hd_block d) as -> by congruence. assert (o = x.1.2) as -> by congruence. done.
  - intros [Hb Hn]. exists x.1.2. split_and!; [lia|lia| |done|done]. by exists (hd_block d).
Qed.

Lemma right_fit : hints_fit kernel b plan.
Proof.
  intros h Hh%in_heights. destruct (right_data h Hh) as (d & Ed & Eb & Hc & H32 & Hidx & _ & Hs & Hin). exists d. split; [exact Ed|].
  split; [by apply increasing_spec|]. split; [done|]. split; [|split; [done|]].
  - apply all_leaves_fit. intros k x Hx. rewrite Z.add_0_l. split.
    + destruct (readable h _ Hh Eb) as [Hv _]. unfold values_fit in Hv. rewrite Forall_forall in Hv. apply Hv.
      apply zlookup_Some in Hx as [_ Hx]. by eapply list_elem_of_lookup_2.
    + split; [apply zlookup_lt in Hx; unfold is_uint in H32; lia|]. cbn [leaf_output force_unindexed]. intros Hb%bool_decide_eq_true.
      rewrite (hinted_leaf h d k x) by done. by intros [? _].
  - apply Forall_forall. intros i (o & _ & (block & Eb' & Ho) & _)%Hin. assert (block = hd_block d) as -> by congruence.
    apply outpoint_of_leaf in Ho as (x & Hx & _). apply zlookup_lt in Hx. lia.
Qed.

(** Leaf [i] of the block at [h] is a leaf of the forest, spent if and only if a block spends it. *)
Lemma right_leaf h i o offset : 1 <= h <= stop -> leaf_at kernel h i o -> zlookup offsets (h - 1) = Some offset ->
  nd_spent (leaf_values kernel b plan (offset + i)) = false <->
    bip30_excluded_outpoint h = Some o \/ forall h', h < h' <= stop -> ~ spent_by kernel h' o.
Proof.
  intros Hh (block & Eb & Ho) Hoff. destruct (right_data h Hh) as (d & Ed & Eb' & _ & _ & _ & Hoff' & _ & _).
  assert (block = hd_block d) as -> by congruence. assert (offset = hd_offset d) as -> by congruence.
  apply outpoint_of_leaf in Ho as (x & Hx & <-). pose proof (hinted_leaf h d i x Hh Ed Hx) as Hin.
  assert (zlookup (height_nodes kernel b counts offsets h) i = Some (leaf_node h (hd_unspent d) i (leaf_output h (hd_block d) x))) as Hn.
  { unfold height_nodes. rewrite Ed. cbn [fmap option_fmap option_map default from_option id]. by apply (nodes_at_leaf h (hd_unspent d) (hd_block d) _ 0). }
  change (leaf_values kernel b plan (hd_offset d + i)) with (leaf_of kernel b counts offsets (hd_offset d + i)).
  rewrite (leaf_at_height kernel b counts offsets leaves right_planned right_fit h d i _ ltac:(by apply in_heights) Ed Hn).
  cbn [leaf_node nd_spent leaf_output force_unindexed]. case_bool_decide as Hb; cbn [negb andb]; [naive_solver|]. rewrite bool_decide_eq_false.
  destruct (decide (i ∈ hd_unspent d)); naive_solver.
Qed.

(** The leaf map gets the unspent leaves. *)
Lemma right_entries k v : (k, v) ∈ entries_all kernel b plan <->
  exists h i o offset, unspent_leaf kernel stop h i o /\ zlookup offsets (h - 1) = Some offset /\ k = leaf_map_key o /\ v = le_bytes 8 (offset + i).
Proof.
  change (entries_all kernel b plan) with (live_entries kernel b counts offsets). unfold live_entries. rewrite BlockScan.elem_of_concat_fmap. split.
  - intros (h & Hh%in_heights & He). destruct (right_data h Hh) as (d & Ed & Eb & _ & _ & _ & Hoff & _ & _). unfold entries_at in He.
    rewrite Ed in He. cbn [fmap option_fmap option_map default from_option id] in He. apply entries_of_leaves in He as (i & x & Hx & Hhint & [= -> ->]).
    unfold hinted in Hhint. apply andb_true_iff in Hhint as [_ Hin%bool_decide_eq_true]. rewrite Z.add_0_l in *.
    apply (hinted_leaf h d i x Hh Ed Hx) in Hin as [Hb Hn]. exists h, i, x.1.2, (hd_offset d). split; [|split; [done|split; [|done]]].
    + split; [done|]. split; [|done]. exists (hd_block d). split; [done|]. apply outpoint_of_leaf. by exists x.
    + cbn. by destruct x.1.2.
  - intros (h & i & o & offset & (Hh & (block & Eb & Ho) & Hb & Hn) & Hoff & -> & ->). exists h. split; [by apply in_heights|].
    destruct (right_data h Hh) as (d & Ed & Eb' & _ & _ & _ & Hoff' & _ & _). assert (block = hd_block d) as -> by congruence.
    assert (offset = hd_offset d) as -> by congruence. apply outpoint_of_leaf in Ho as (x & Hx & <-). unfold entries_at.
    rewrite Ed. cbn [fmap option_fmap option_map default from_option id]. apply entries_of_leaves. exists i, x. rewrite Z.add_0_l. split; [done|]. split.
    + unfold hinted. cbn [leaf_output force_unindexed]. rewrite bool_decide_eq_false_2 by done. cbn [negb andb]. apply bool_decide_eq_true.
      by apply (hinted_leaf h d i x Hh Ed Hx).
    + cbn. unfold leaf_entry. cbn. by destruct x.1.2.
Qed.
End Fit.

(** ** The leaves can be counted *)

Section Count.
Context `{KernelChainstate} `{HintsfileLib}.
Context (kernel : KernelChain) (stop : Z) (b : BridgeHints).
Hypothesis right : right_hints kernel stop b.
Hypothesis stop_fits : is_u32 stop.

Lemma offsets_fit counts offs n : Forall is_u32 counts -> 0 <= n -> n + zlength counts * (2 ^ 32 - 1) < 2 ^ 64 ->
  foldM leaf_offset counts (offs, n) = Ok (offs ++ starts n counts, n + total counts).
Proof.
  revert offs n. induction counts as [|c counts IH]; intros offs n Hu Hn Hl; [cbn [foldM starts]; rewrite app_nil_r; f_equal; f_equal; unfold total; cbn; lia|].
  apply Forall_cons in Hu as [Hc Hu]. rewrite zlength_cons in Hl. pose proof (zlength_nonneg counts). unfold is_uint in Hc. cbn [foldM starts].
  assert (leaf_offset (offs, n) c = Ok (offs ++ [n], n + c)) as ->.
  { unfold leaf_offset. cbn [fst snd]. by rewrite (proj2 (checked_add_Some 64 n c (n + c))) by (split; [done|unfold is_uint; lia]). }
  step_ok. rewrite IH by (done || lia). rewrite <- app_assoc. f_equal. f_equal. change (total (c :: counts)) with (c + total counts). lia.
Qed.

Lemma leaves_counted h i o : 1 <= h <= stop -> leaf_at kernel h i o -> is_ok (plan_leaves b) = true.
Proof.
  intros Hh (block & Eb & Ho). pose proof (rh_range _ _ _ right) as Hst.
  assert (exists counts, mapM (fun h => ok_or "leaf count unavailable" (leaf_count_at_height b h)) (zrange 1 (stop + 1)) = Ok counts) as (counts & Ec).
  { eexists. apply mapM_ok_map with (g := fun h => default 0 (leaf_count_at_height b h)). intros h' Hh'%elem_of_zrange.
    destruct (rh_heights _ _ _ right h') as (block' & l & _ & -> & _); [lia|done]. }
  pose proof (mapM_ok_Forall2 _ _ _ Ec) as Hf. unfold plan_leaves. cbn [hints_stop_height hints_leaf_count bridge_hints_are_hints].
  rewrite (rh_stop _ _ _ right), (proj2 (Z.eqb_neq _ _)) by lia. cbn [negb require]. step_ok. rewrite Ec. step_ok.
  assert (forall h' n, zlookup counts (h' - 1) = Some n -> exists block', block_at_height kernel h' = Ok block' /\ n = zlength (eligible_outpoints block') /\ is_u32 n) as Hcounts.
  { intros h' n [Hk Hn]%zlookup_Some. destruct (Forall2_lookup_r _ _ _ _ _ Hf Hn) as (x & Hx & En%ok_or_ok). apply lookup_seqZ in Hx as [-> Hlt].
    replace (1 + Z.of_nat (Z.to_nat (h' - 1))) with h' in * by lia. destruct (rh_heights _ _ _ right h') as (block' & l & Eb' & Ec' & [H32 _] & _); [lia|].
    rewrite Ec' in En. injection En as <-. by exists block'. }
  pose proof (Forall2_length _ _ _ Hf) as Hlen. unfold zrange in Hlen. rewrite length_seqZ in Hlen.
  assert (Forall is_u32 counts) as Hu.
  { apply Forall_forall. intros n (k & Hk)%list_elem_of_lookup. destruct (Hcounts (Z.of_nat k + 1) n) as (block' & _ & _ & Hn); [|done].
    apply zlookup_Some. split; [lia|]. by replace (Z.to_nat (Z.of_nat k + 1 - 1)) with k by lia. }
  rewrite offsets_fit; [|done|lia|unfold zlength, is_uint in *; lia]. step_ok. rewrite Z.add_0_l. cbn [snd].
  assert (0 < total counts) as Hpos; [|rewrite (proj2 (Z.eqb_neq _ _)) by lia; done].
  destruct (zlookup_is_Some counts (h - 1)) as [n Hn]; [unfold zlength; lia|]. destruct (Hcounts h n Hn) as (block' & Eb' & -> & _).
  assert (block' = block) as -> by congruence. apply zlookup_lt in Ho. apply zlookup_Some in Hn as [_ Hn%list_elem_of_lookup_2].
  apply list_elem_of_split in Hn as (l1 & l2 & ->). rewrite total_app. apply Forall_app in Hu as [Hu1 [_ Hu2]%Forall_cons].
  assert (forall l, Forall is_u32 l -> 0 <= total l) as Hnn by (intros l Hl; apply total_nonneg_list; eapply Forall_impl; [exact Hl|]; by intros ? []).
  pose proof (Hnn _ Hu1). pose proof (Hnn _ Hu2). change (total (zlength (eligible_outpoints block) :: l2)) with (zlength (eligible_outpoints block) + total l2). lia.
Qed.

Lemma some_leaf counts offsets leaves : plan_leaves b = Ok (counts, offsets, leaves) -> exists h i o, 1 <= h <= stop /\ leaf_at kernel h i o.
Proof.
  intros Ep. pose proof (plan_leaves_ok _ _ _ _ (right_typed kernel stop b right stop_fits) Ep) as [_ Hlen Hcounts Hnn _ Hl Hpos].
  cbn [hints_stop_height hints_leaf_count bridge_hints_are_hints] in *. rewrite (rh_stop _ _ _ right) in *.
  assert (exists n, n ∈ counts /\ 0 < n) as (n & (k & Hk)%list_elem_of_lookup & Hn).
  { assert (0 < total counts) as Ht by lia. clear -Ht Hnn. induction Hnn as [|n counts Hn _ IH]; [by cbn in Ht|].
    change (total (n :: counts)) with (n + total counts) in Ht. destruct (decide (0 < n)); [exists n; split; [by left|done]|].
    destruct IH as (m & Hm & ?); [lia|]. exists m. split; [by right|done]. }
  pose proof (lookup_lt_Some _ _ _ Hk). assert (1 <= Z.of_nat k + 1 <= stop) as Hh by (unfold zlength in Hlen; lia).
  destruct (Hcounts _ Hh) as (m & Em & Hm). assert (m = n) as ->.
  { apply zlookup_Some in Hm as [_ Hm]. replace (Z.to_nat (Z.of_nat k + 1 - 1)) with k in Hm by lia. congruence. }
  destruct (rh_heights _ _ _ right _ Hh) as (block & l & Eb & Ec & _). rewrite Ec in Em. injection Em as Em.
  destruct (zlookup_is_Some (eligible_outpoints block) 0) as [o Ho]; [lia|]. exists (Z.of_nat k + 1), 0, o. split; [done|]. by exists block.
Qed.
End Count.
(** C9: What the hints tool writes, the bootstrap build takes.  When [bridge-hints] succeeds on blocks
    whose values are amounts, the hints that the bridge reads from its file fit those blocks, so
    the build does not reject them; in the forest that they describe, a leaf is unspent exactly if no
    block up to the stop height spends it or BIP30 lost it, and the leaf map gets exactly the leaves
    that are unspent and not lost, each with its position.  The two lost outputs thus have a leaf, which
    counts and moves the positions of those behind it; the README says that the hints tool excludes
    them before the index is incremented, which neither the tool nor the build does. *)
Theorem generated_hints_fit `{NodeHashing} `{Sha256} `{Sha512_256} `{LeafMapBuildLaws} `{HeaderLaws} `{HeightsLaws} `{KernelChainstate}
    `{!KernelHeaderLaws} `{HintsfileLaws} io kernel requested force into_values d d'
    (stop := default (tip_height kernel) requested)
    (Hu : is_u32 stop) (Hperm : forall m, into_values m ≡ₚ (map_to_list m).*2)
    (Hread : forall h block, 1 <= h <= stop -> block_at_height kernel h = Ok block -> values_fit block /\ is_ok (kb_header block) = true)
    (E : bridge_hints io kernel requested force into_values d = (d', Ok tt)) :
  exists file b, output d' = Some file /\ from_reader file = Ok (b, []) /\ hints_typed b /\ hints_stop_height b = stop /\
    (is_ok (plan_leaves b) = true <-> exists h i o, 1 <= h <= stop /\ leaf_at kernel h i o) /\
    forall counts offsets leaves rows, plan_leaves b = Ok (counts, offsets, leaves) ->
      let plan := plan_of b counts offsets leaves rows in
      hints_fit kernel b plan /\
      (forall h i o offset, 1 <= h <= stop -> leaf_at kernel h i o -> zlookup offsets (h - 1) = Some offset ->
         nd_spent (leaf_values kernel b plan (offset + i)) = false <->
           bip30_excluded_outpoint h = Some o \/ forall h', h < h' <= stop -> ~ spent_by kernel h' o) /\
      forall k v, (k, v) ∈ entries_all kernel b plan <->
        exists h i o offset, unspent_leaf kernel stop h i o /\ zlookup offsets (h - 1) = Some offset /\
          k = leaf_map_key o /\ v = le_bytes 8 (offset + i).
Proof.
  destruct (bridge_hints_ok _ _ _ _ _ _ _ Hu Hperm E) as (file & b & Ho & _ & Er & Hr). exists file, b. fold stop in Hr.
  split; [done|]. split; [done|]. split; [by eapply right_typed|]. split; [apply (rh_stop _ _ _ Hr)|]. split.
  - split; [|intros (h & i & o & Hh & Hl); by eapply leaves_counted]. destruct (plan_leaves b) as [[[counts offsets] leaves]|] eqn:Ep; [|done]. intros _.
    by eapply some_leaf.
  - intros counts offsets leaves rows Ep plan. split; [by eapply right_fit|]. split; [|by eapply right_entries].
    intros h i o offset. by eapply right_leaf.
Qed.

(** ** The concrete chain of [BootstrapProofs] *)

Section Demo.
#[local] Existing Instances toy_hashing toy_db small_db small_db_laws raw_headers raw_headers_laws plain_hintsfile plain_hintsfile_laws
  demo_sha256 demo_digest demo_leaf_map demo_leaf_map_laws demo_kernel demo_chainstate demo_kernel_laws.

Lemma generated_hints_fit_witness :
  let run := bridge_hints plain_io demo_chain None false (fun m => (map_to_list m).*2) {| output := None; temporary := None |} in
  run.2 = Ok tt /\ exists b counts offsets leaves rows, plan_leaves b = Ok (counts, offsets, leaves) /\
    hints_fit demo_chain b (plan_of b counts offsets leaves rows).
Proof.
  intros run. assert (run.2 = Ok tt) as Hok by (vm_compute; reflexivity). split; [exact Hok|].
  assert (forall h block, 1 <= h <= 2 -> block_at_height demo_chain h = Ok block -> values_fit block /\ is_ok (kb_header block) = true) as Hread.
  { intros h block Hh E. split; [|done]. assert (h = 1 \/ h = 2) as [->| ->] by lia; vm_compute in E; injection E as <-; apply (bool_decide_eq_true_1 _); vm_compute; reflexivity. }
  destruct (generated_hints_fit plain_io demo_chain None false (fun m => (map_to_list m).*2) {| output := None; temporary := None |} run.1
    ltac:(unfold is_uint; cbn; lia) ltac:(done) Hread ltac:(rewrite <- Hok; apply surjective_pairing)) as (file & b & _ & _ & _ & _ & Hsome & Hall).
  assert (is_ok (plan_leaves b) = true) as Hp.
  { apply Hsome. exists 1, 0, {| txid := replicate 32 1; vout := 0 |}. split; [cbn; lia|]. exists (1, List.nth 1 plain_blocks []). split; [reflexivity|].
    vm_compute. reflexivity. }
  destruct (plan_leaves b) as [[[counts offsets] leaves]|] eqn:Ep; [|discriminate Hp]. exists b, counts, offsets, leaves, 3.
  split; [exact Ep|]. apply (Hall counts offsets leaves 3 eq_refl).
Defined.
End Demo.

End BootstrapHints.
